(* ===== verification/_CoqProject ===== *)
-Q . S2P
Prelude.v
GoStrings.v
GoUtf8.v
GoQuote.v
GoRegexp.v
GoEncoding.v
GoJson.v
Session.v
RateLimit.v
RateLimitFacts.v
SessionFacts.v
JobTypes.v
JobStore.v
JobStoreFacts.v
JobStoreProps.v
Job.v
JobWorker.v
JobProps.v
Database.v
Schedule.v
ScheduleStore.v
ScheduleProps.v
Migrate.v
MigrateProps.v
Security.v
SecurityProps.v
Cache.v
GoNetip.v
GoUrl.v
GoText.v
Proxy.v
PathText.v
ProxyProps.v
Http.v
Web.v
WebProps.v
LinkProps.v
Orm.v
OrmRelation.v
OrmErrors.v
SqlText.v
OrmSpec.v
OrmFacts.v
OrmStatements.v
OrmProps.v
OrmRelationProps.v
Config.v
Mail.v
MailProps.v
Smtp.v
Asset.v
Validation.v
ValidationProps.v
App.v
ViewSource.v
ViewParse.v
ViewCompile.v
ViewForge.v
ViewParseProps.v
ViewMapProps.v
ViewCompileProps.v
ViewDepsProps.v
ViewScopeProps.v
CliFields.v
CliTags.v
CliSchema.v
CliOrm.v
CliSchemaProps.v
CliOrmProps.v
CliSql.v
CliMake.v
CliMakeProps.v
CliFiles.v
CliFilesProps.v
CliServe.v
CliServeProps.v
CliPublish.v
CliReload.v
CliWatch.v
CliDev.v
