(* ===== verification/Prelude.v ===== *)
(** * GoForge: a verification development of the runtime packages

    GoForge is a Go web framework.  This library models the parts of it that keep state and
    decide who may do what: the HTTP layer with its middleware, browser sessions, rate
    limiting, client addresses, security tokens, the ORM that writes SQL, the cache, the
    durable job queue with its workers, the scheduler, database migrations, configuration,
    validation, mail, static assets, the templates of the view package, the life of the
    application itself, and of its command line the generators and the development server.
    Definitions carry the names of the Go functions they translate; where two packages use
    one name, the definition gets a suffix or a prefix and its comment says which it is.

    ** How the program is put together

    An application owns a PostgreSQL database and passes it to the stores.  The router runs
    a request through its middleware: the rate limiter keys it by the client address
    ([proxy.go]), the session middleware loads the browser session and holds the response
    back until the session is saved, the CSRF middleware checks unsafe methods.  A handler
    reads and writes models through the ORM, which compiles builders to parametrized SQL.
    It dispatches jobs: [Dispatch] validates and encodes, the
    job store inserts.  Workers poll the store for leases, run handlers and settle each
    delivery.  The scheduler evaluates cron definitions and dispatches a job for each due
    occurrence inside the transaction that advances its cursor.  Migrations prepare the
    database.  Handlers bind and validate input, send mail over SMTP and render components;
    templates ([*.forge]) become Go components through a parser, a validation of the
    dependencies between templates and a compiler that keeps a source map.  Static files
    come from an inventory that is hashed once.  [app.go] starts the server and the
    background services and shuts them down.  The command [forge] reads the application's
    model sources into a schema, generates the typed ORM from it, plans new models and
    resources with their migrations, and publishes the files with a rollback.  Its
    development server watches the source, builds a candidate for every stable state of it,
    moves a proxy from the old process to the new one, and tells the open pages to reload.

    ** State, errors and the outside world

    A method that reads and writes a receiver is a function of the monad [M St A], that is
    [St -> result A * St]: the state survives an error, as it does in Go.  Errors are values
    ([error]) with the source's sentinels and format strings, and [errors_Is] follows [%w]
    and [errors.Join].  Integers are [Z]; [wrap64] is applied where a 64-bit operation can
    overflow.  A [time.Time] counts nanoseconds.  Byte strings are [string].

    Everything outside the repository is a variable: an [env] answers, at each statement,
    the database clock, whether the statement fails, which rows are locked, and whether the
    reply of a commit is lost; theorems quantify over all of them, which covers every
    failure and every interleaving with other clients that the database serializes.  A SQL
    statement is a function on the table (a [gmap]) that the statement addresses, with the
    check constraints of the package's schema.  Hash functions, encoders of the standard
    library ([encoding/json], PBKDF2, HMAC, SHA-256), the cron library and the SQL engine
    that executes migration scripts are arguments, with what a proof needs of them as named
    hypotheses; each property with such a hypothesis has a witness that instantiates it.

    ** Files

    - [Prelude] (this file): integers, time, errors, results, the monad, the environment,
      tactics and hints.  [GoStrings], [GoRegexp] (regular expressions with derivatives and
      a proof that matching decides the language), [GoEncoding] (hexadecimal and base64
      with round trips), [GoJson] (the validity scanner), [GoNetip] (addresses, prefixes),
      [GoUtf8], [GoQuote] (runes; [strconv.Quote] and [Unquote] with their round trip),
      [GoText] (searching and sorting), [PathText] (paths and escapes): what the program uses of Go's standard library.
    - [Config]: [config/env.go].  Shown: the readers fall back exactly when a
      variable is unset, environment files read back, malformed values are reported.
    - [Validation], [ValidationProps]: [validation].  Shown: a misconfigured rule is
      reported and never run, reports are ordered and bounded, what the rules accept.
    - [Mail], [MailProps], [Smtp]: [mail/message.go], [mail/smtp/sender.go].
      The sender is a conversation with a server that may answer anything.  Shown: no field
      of a message can inject a header, passwords and messages go out only under TLS where
      it is demanded, a connection is closed on every path.  Header lines stay within the
      length SMTP allows, the date and the content headers included.
    - [Asset]: [asset/asset.go].  Shown: exactly the files of the inventory can
      be reached, under their fingerprints.
    - [App]: [app.go].  [Run] is a machine of the goroutines and channels of the
      source; a service ends by itself or after it was told to, through its context or by
      [Shutdown] or [Close].  Shown: [Run] returns under every schedule that is fair to
      services that were told to end, and reports every failure.
    - [Session], [SessionFacts]: [session/session.go], [session/memory.go].  The manager
      works against the class [SessionStore]; [SessionStoreSpec] states what a store that
      answers without an error promises and [SessionStoreAnswers] when it answers so.  The
      in-memory store keeps both, and the first is also kept by any such store behind a
      connection that fails before or after the effect.  Shown: the absolute deadline
      cannot be extended, expired sessions are replaced, rotation retires the old ID, save
      and load are inverse.
    - [RateLimit], [RateLimitFacts]: [security/ratelimit] with the in-memory and the
      PostgreSQL store.  Shown: exact admission per window under interleaved clients,
      bounded memory without eviction of live windows, agreement of the two stores through
      a common specification, honest [Retry-After].
    - [Proxy], [ProxyProps]: [security/ratelimit/proxy.go].  Shown: text a client puts in
      front of a forwarding header that parses never changes the address it is keyed by, and
      a malformed one is reported and keyed by the socket peer.
    - [Security], [SecurityProps]: [security/token], [security/csrf], [security/password]
      in one Module each.  Shown: only the issued spelling of a token is accepted, a CSRF
      token is bound to its session, hashes verify what they hashed, and a refused login
      costs the current number of iterations.
    - [GoUrl], [Http]: escapes, queries, media types and header names of Go's [net/url],
      [mime] and [net/textproto]; and [httpx], as functions of a monad over a [Context] that
      holds the request, the tracked writer of the server, the stack of response buffers,
      the session and the form.  A panic is an outcome beside an error.  [http.ServeMux] is
      an argument that picks a route or answers by itself.
    - [Web], [WebProps]: [web/session.go], [web/csrf.go].  A handler is any [program] over the
      calls a context offers; [frames] states what it can do to a response that is held back,
      and every program and every middleware of [httpx] is shown to keep to it.
      Shown: nothing of a response goes out before its session is saved, a failed or
      panicking request sends the error and nothing the handler wrote, the CSRF middleware
      is a gate in front of the handler.
    - [LinkProps]: redirects stay on the site (and the case in which they do not), addresses
      of named routes read back as their parameters.
    - [Orm], [OrmRelation], [OrmErrors]: [orm] and [orm/postgres]: descriptors, predicates,
      builders and their compiler, executors, relations, error classification.
    - [SqlText], [OrmSpec], [OrmFacts], [OrmStatements]: what the SQL text means.  [SqlText]
      is a lexer, a parser and a three-valued evaluator for the statements, written from
      SQL and not from the builders; [OrmSpec] has the filters of a builder as a data type
      with their meaning, and the other two show that compiled text reads back as it.
    - [OrmProps], [OrmRelationProps]: a SELECT returns the rows its builder asked for, a
      DELETE removes exactly the matching rows, of two optimistic updates one wins,
      placeholders are numbered as the arguments and stay within the protocol's limit,
      unscoped mutations never reach the database, descriptors are well formed, loading a
      relation is a join, classified errors keep their cause and hide row values.
    - [Cache]: [cache/cache.go], split where the mutex is released.  Shown:
      under any interleaving a read answers the last live write.
    - [JobTypes], [JobStore], [JobStoreFacts], [JobStoreProps]: [job/types.go] and
      [job/postgres].  [JobTypes.JobStore] is the store interface; [JobStore] has the two
      tables with their constraints and one definition per statement; [JobStoreFacts] has
      the invariant, a type of operations and how each changes a row.  Shown: the invariant
      holds in every reachable database, a live lease is exclusive, a superseded lease is
      refused forever, claims take the best due jobs, attempts are bounded, enqueueing is
      deduplicated, failing and restoring conserve a job, listed failures are safe.
      Module [Divergence] holds two runs in which the store does not do what it means to.
    - [Job], [JobWorker], [JobProps]: [job/definition.go], [registry.go], [errors.go],
      [dispatch.go] and [worker.go].  A delivery's goroutine is a machine driven by the
      events that wake it, the polling loop a step relation over slots.  Shown: dispatched
      requests and worker claims pass the store's checks, a delivery is settled at most
      once, processing returns, concurrency is bounded, events arrive in order.
    - [Database]: [database/transaction.go], over any state with a rollback.
    - [Schedule], [ScheduleStore], [ScheduleProps]: [schedule] and [schedule/postgres].
      Shown: the latest-occurrence search is right, no occurrence is dispatched twice or out
      of order, a failed materialization changes nothing, drifted definitions are refused.
    - [Migrate], [MigrateProps]: [database/migrate].  Shown, for the dialects with
      transactional schema changes: [Up] applies a prefix of the pending migrations
      atomically, [Down] undoes [Up]; and [Verify] decides integrity, drift
      fails closed, legacy ledgers are upgraded completely or not at all.

    - [ViewSource], [ViewParse], [ViewCompile], [ViewForge]: the package [view]: positions
      and diagnostics, the template parser, validation and code generation, and the entry
      points that compile one template or all of them.
    - [ViewParseProps]: the parser always answers, and the nodes of a template, in order,
      cover its text.  [ViewMapProps], [ViewCompileProps]: offsets of copied text
      lead back to its place in the source through the source map, and those of generated
      text to the directive or branch it was generated for; Examples hold two runs in which
      the compiler loses what the template asked for, and a page that it never finishes.  [ViewDepsProps]: validation accepts
      exactly the sets of templates whose dependencies exist and have no cycle.
      [ViewScopeProps]: stacks are pushed to and written out only where that is static.

    - [CliFields], [CliTags], [CliSchema]: [internal/cli/names.go],
      [resource_fields.go], [model_options.go] and [model_schema.go]: names, the grammar of the
      command line's fields, struct tags, and the schema of the application's models.  Go
      syntax trees are data and [go/parser] an argument; the Unicode tables are a class.
      [CliOrm]: [orm_generate.go].  [CliSql], [CliMake]: [resource_relationships.go],
      [resource_state.go], [model.go], [resource_templates.go]: the scan of a migration for a
      key, and what is planned before files are written.
    - [CliSchemaProps], [CliOrmProps]: the search for foreign-key cycles is exact, every
      parsed schema is well formed, and it can be turned into the ORM's data unless a name is
      taken.  [CliSql]: comments (nested ones too), strings and dollar-quoted
      bodies of a migration are inert.  [CliMakeProps]:
      new migrations come last, members of a generated model do not collide, and generated
      fields are read back as they were asked for.
    - [CliFiles], [CliFilesProps]: [files.go] and the publication of [model.go] on a disk that
      maps paths to files and directories and whose every operation may fail.  Shown: a
      generation that fails, with a rollback that does not, leaves the disk as it was.
    - [CliServe], [CliServeProps]: [serve.go] and the target of [serve_proxy.go].  The
      supervisor is a machine whose phases are the places where its loops start over; what
      the compiler, the processes, the watcher and the proxy answer is a stream of answers
      the theorems quantify over, and every effect is an event of a trace, with what was answered.
      Shown: the proxy never leads to a process that was told to stop, published views belong
      to what is served or are taken back, what was built and not promoted is stopped and
      removed, or its failure reported and counted as left over; and on the disk of
      [CliFiles], the exchange of the generated views reports what it did.
    - [CliPublish]: the publication of [resource.go] on the same disk, with its journal, the
      checks after the writes and the rollback.  Shown: a resource is published as a whole or
      the disk is what it was, and the rollback keeps what others wrote meanwhile; an Example
      holds the one failure after which a file stays behind.
    - [CliReload]: [serve_livereload.go].  Shown: no page that waits misses a reload, and the
      injected script changes nothing else of an ASCII document; Examples hold documents in
      other encodings that it breaks.
    - [CliWatch]: [watch.go].  Shown: two sources have one snapshot text only if they are
      equal, a stabilized snapshot was seen unchanged for the whole quiet period, and
      unreadable sources are tolerated for as long as they should be.
    - [CliDev]: [dev.go].  The supervisor of server, worker and scheduler is a step function
      over the results and the end of the context.  Shown: however a service cuts its output
      into writes, its lines appear whole or cut after 64 KiB; the ready message is printed
      once at most and only while all services run; every failure is reported.

    ** Fuel

    Loops that are not structural take fuel, always enough: [search_fuel] is logarithmic in
    the window and the search theorem shows that it returns the right answer with it;
    [sunday_fuel] is 32 for values up to 7; the JSON scanner gets twice the length of the
    text plus two; string loops get the length of the text; an IPv6 address has at most 8
    groups; decimal printing gets 20 digits, enough for 64 bits.  The condition parser of
    [SqlText] gets three units per token, which [OrmFacts] shows to be enough for every
    compiled condition; relation batches get the number of keys; route patterns get their
    length.  [parseNodes] gets the length of the source plus one and [validateDocument] the
    number of documents plus one, and both are shown to be enough.  [compile] and
    [CompileForge] take the nesting depth as an argument, and answer [None] when it is too
    small; more fuel gives the same answer, and since a template can make the source recurse
    for ever ([stack_of_itself_never_compiles]) no amount is enough for all of them.
    Reading the capabilities of a mail server is bounded as the source bounds it.  [rejectReferenceCycles] gets the number of models
    plus two, shown to be enough; [classify] one unit for each declared scalar type, since it
    never enters one twice; the scanners of tags and migrations the length of the text.

    The directories above a path get the length of the path, since each step takes a byte;
    the search for the last closing tag gets the length of the document, shown to be enough;
    the development server runs for any number of rounds, and the theorem holds after each.
    A line writer gets two rounds for each byte it is given, shown to be enough.

    ** Not modelled

    Of the command line: the dispatch of arguments and child processes ([run.go], [process.go]),
    which are calls to the operating system; the staging of views, the health probe
    and the forwarding of requests in the development server; scaffolding from templates
    ([new.go], [make.go], [job.go], [mail.go], [views.go]) and listings ([diagnostics.go]),
    where the result is the text of a template; the checks of the project format.  Logging
    observers; quoting of configurable table names; the concurrency of Go inside one critical
    section; connection upgrades ([Flush], [Hijack], [Push]) and the adapters of [httpx]; the
    HTML writers of the view package.

    Smaller simplifications: the generation of a watched source is an unbounded integer where
    the source has 64 bits; [os.Stat] on the disk of [CliFiles] finds a file or none, and does
    not fail in other ways; the version and the increment of an optimistic update are
    integers, though the source's type parameters allow other numbers. *)

From stdpp Require Export gmap strings list sorting.
From Stdlib Require Export ZArith Lia Ascii.
#[export] Set Default Goal Selector "!".

(** ** Machine integers

    Go's [int], [int64] and [time.Duration] are 64-bit two's complement on the
    supported platforms.  Values are [Z]; every operation whose overflow the
    source does not exclude goes through [wrap64]. *)

Declare Scope go_scope.
Delimit Scope go_scope with go.

Definition MaxInt64 : Z := 9223372036854775807.
Definition MinInt64 : Z := -9223372036854775808.

Definition in_int64 (z : Z) : Prop := (MinInt64 <= z <= MaxInt64)%Z.

Definition wrap64 (z : Z) : Z :=
  ((z + 9223372036854775808) mod 18446744073709551616 - 9223372036854775808)%Z.

Notation "a +w b" := (wrap64 (a + b)) (at level 50, left associativity) : go_scope.
Notation "a -w b" := (wrap64 (a - b)) (at level 50, left associativity) : go_scope.
Notation "a *w b" := (wrap64 (a * b)) (at level 40, left associativity) : go_scope.

Lemma wrap64_id z : in_int64 z -> wrap64 z = z.
Proof.
  unfold in_int64, wrap64, MinInt64, MaxInt64; intros H.
  rewrite Z.mod_small; lia.
Qed.

Lemma wrap64_range z : in_int64 (wrap64 z).
Proof.
  unfold in_int64, wrap64, MinInt64, MaxInt64.
  pose proof (Z.mod_pos_bound (z + 9223372036854775808) 18446744073709551616).
  lia.
Qed.

(** ** Durations and instants

    A [time.Duration] counts nanoseconds.  A [time.Time] is modelled as the
    number of nanoseconds since Go's zero time (year 1, UTC): [IsZero] is then
    the comparison with 0 and [Truncate] is the floor to a multiple, exactly as
    the package documents it.  [Add] never overflows the seconds counter of a
    [time.Time] for the durations the program uses; [Sub] saturates. *)

Definition duration : Type := Z.
Definition time : Type := Z.

Definition Nanosecond : duration := 1%Z.
Definition Millisecond : duration := 1000000%Z.
Definition Second : duration := 1000000000%Z.
Definition Minute : duration := 60000000000%Z.
Definition Hour : duration := 3600000000000%Z.

Definition zeroTime : time := 0%Z.
Definition IsZero (t : time) : bool := (t =? zeroTime)%Z.
Definition Before (t u : time) : bool := (t <? u)%Z.
Definition After (t u : time) : bool := (u <? t)%Z.
Definition TimeEqual (t u : time) : bool := (t =? u)%Z.
Definition Add (t : time) (d : duration) : time := (t + d)%Z.
Definition Sub (t u : time) : duration :=
  (if t - u >? MaxInt64 then MaxInt64
   else if t - u <? MinInt64 then MinInt64 else t - u)%Z.
Definition Truncate (t : time) (d : duration) : time :=
  (if d <=? 0 then t else t - t mod d)%Z.

(** [Duration.Milliseconds]: integer division truncating toward zero. *)
Definition Milliseconds (d : duration) : Z := Z.quot d Millisecond.

Lemma Sub_exact t u : in_int64 (t - u) -> Sub t u = (t - u)%Z.
Proof.
  unfold in_int64, Sub; intros [H1 H2].
  destruct (Z.gtb_spec (t - u) MaxInt64); [lia|].
  destruct (Z.ltb_spec (t - u) MinInt64); [lia|done].
Qed.

Lemma Truncate_le t d : (Truncate t d <= t)%Z.
Proof.
  unfold Truncate; destruct (Z.leb_spec d 0); [lia|].
  pose proof (Z.mod_pos_bound t d); lia.
Qed.

Lemma Truncate_gt t d : (0 < d)%Z -> (t - d < Truncate t d)%Z.
Proof.
  unfold Truncate; intros; destruct (Z.leb_spec d 0); [lia|].
  pose proof (Z.mod_pos_bound t d); lia.
Qed.

(** An instant is aligned to [d] when truncation leaves it unchanged. *)
Definition aligned (t : time) (d : duration) : bool := TimeEqual t (Truncate t d).

Lemma aligned_mod t d : (0 < d)%Z -> aligned t d = true <-> (t mod d = 0)%Z.
Proof.
  intros Hd; unfold aligned, TimeEqual, Truncate.
  destruct (Z.leb_spec d 0); [lia|]. rewrite Z.eqb_eq. lia.
Qed.

Lemma Truncate_aligned t d : (0 < d)%Z -> aligned (Truncate t d) d = true.
Proof.
  intros Hd; apply aligned_mod; [done|].
  unfold Truncate; destruct (Z.leb_spec d 0); [lia|].
  rewrite Zminus_mod, Zmod_mod, Z.sub_diag. by rewrite Zmod_0_l.
Qed.

(** ** Errors

    A Go error is a sentinel ([errors.New] at package level), a formatted
    message, a message that wraps a cause with [%w], or the [errors.Join] of two
    errors.  Formatted messages keep the source's format string; the arguments
    interpolated into it are not part of the model. *)

Inductive error : Type :=
| Sentinel (name : string)
| Errorf (format : string)
| Wrapf (format : string) (cause : error)
| Joined (first second : error).

#[export] Instance error_eq_dec : EqDecision error.
Proof. solve_decision. Defined.

(** [errors.Is]: the error itself or anything it wraps. *)
Fixpoint errors_Is (err target : error) : bool :=
  bool_decide (err = target) ||
  match err with
  | Wrapf _ cause => errors_Is cause target
  | Joined a b => errors_Is a target || errors_Is b target
  | _ => false
  end.

Lemma errors_Is_refl e : errors_Is e e = true.
Proof. destruct e; simpl; by rewrite bool_decide_eq_true_2. Qed.

Lemma errors_Is_wrap f e t : errors_Is e t = true -> errors_Is (Wrapf f e) t = true.
Proof. intros H; simpl; rewrite H; apply orb_true_r. Qed.

(** ** Results and stateful computations *)

Inductive result (A : Type) : Type :=
| Ok (value : A)
| Err (err : error).
Arguments Ok {A} _.
Arguments Err {A} _.

#[export] Instance result_eq_dec {A} `{EqDecision A} : EqDecision (result A).
Proof. solve_decision. Defined.

Definition is_ok {A} (r : result A) : bool :=
  match r with Ok _ => true | Err _ => false end.

Definition rbind {A B} (r : result A) (k : A -> result B) : result B :=
  match r with Ok a => k a | Err e => Err e end.

Notation "'try' x ':=' r 'in' k" := (rbind r (fun x => k))
  (at level 10, x pattern, r at level 100, k at level 200) : go_scope.

(** A method that reads and writes a receiver of type [St] and may fail.  The
    receiver's state survives an error, as it does in Go. *)
Definition M (St A : Type) : Type := St -> result A * St.

Definition ret {St A} (a : A) : M St A := fun s => (Ok a, s).
Definition throw {St A} (e : error) : M St A := fun s => (Err e, s).
Definition gets {St A} (f : St -> A) : M St A := fun s => (Ok (f s), s).
Definition modify {St} (f : St -> St) : M St unit := fun s => (Ok tt, f s).
Definition bindM {St A B} (m : M St A) (k : A -> M St B) : M St B :=
  fun s => match m s with
           | (Ok a, s') => k a s'
           | (Err e, s') => (Err e, s')
           end.
(** [fmt.Errorf("...: %w", err)] around a failing call. *)
Definition wrapM {St A} (format : string) (m : M St A) : M St A :=
  fun s => match m s with
           | (Ok a, s') => (Ok a, s')
           | (Err e, s') => (Err (Wrapf format e), s')
           end.

Notation "'let!' x ':=' m 'in' k" := (bindM m (fun x => k))
  (at level 10, x pattern, m at level 100, k at level 200) : go_scope.
Notation "'do!' m 'in' k" := (bindM m (fun _ => k))
  (at level 10, m at level 100, k at level 200) : go_scope.

(** ** The environment of a database-backed component

    PostgreSQL, the process clock and request contexts are not code of the
    repository.  Each statement sent to the database consumes one tick of the
    environment, which decides what the outside world answers at that point:
    the database clock, whether the statement fails (connection loss,
    cancellation, serialization failure), whether it took effect but its reply
    was lost, and which rows other transactions hold locked.  Everything is universally quantified in the theorems. *)

Record env : Type := {
  clock : nat -> time;
  fault : nat -> option error;
  locked : nat -> gset string;
  ctxErr : nat -> option error;
  lostReply : nat -> option error
}.

(** The environment of an undisturbed run with a fixed clock. *)
Definition calm_env (now : time) : env :=
  {| clock := fun _ => now; fault := fun _ => None;
     locked := fun _ => ∅; ctxErr := fun _ => None; lostReply := fun _ => None |}.

(** ** Tactics and hints *)

Create HintDb goforge.
#[export] Hint Resolve wrap64_range Truncate_le errors_Is_refl errors_Is_wrap : goforge.

(** Case analysis on every boolean test, option or result that blocks a goal
    about a guarded handler. *)
Ltac case_guards :=
  repeat (case_match; simplify_eq/=).

(** Turn boolean comparisons in the context into propositions. *)
Ltac bool_to_prop :=
  repeat match goal with
  | H : (_ && _) = true |- _ => apply andb_true_iff in H; destruct H
  | H : (_ || _) = false |- _ => apply orb_false_iff in H; destruct H
  | H : negb _ = true |- _ => apply negb_true_iff in H
  | H : negb _ = false |- _ => apply negb_false_iff in H
  | H : (_ <? _)%Z = true |- _ => apply Z.ltb_lt in H
  | H : (_ <? _)%Z = false |- _ => apply Z.ltb_ge in H
  | H : (_ <=? _)%Z = true |- _ => apply Z.leb_le in H
  | H : (_ <=? _)%Z = false |- _ => apply Z.leb_gt in H
  | H : (_ >? _)%Z = true |- _ => rewrite Z.gtb_ltb in H; apply Z.ltb_lt in H
  | H : (_ >? _)%Z = false |- _ => rewrite Z.gtb_ltb in H; apply Z.ltb_ge in H
  | H : (_ >=? _)%Z = true |- _ => rewrite Z.geb_leb in H; apply Z.leb_le in H
  | H : (_ >=? _)%Z = false |- _ => rewrite Z.geb_leb in H; apply Z.leb_gt in H
  | H : (_ =? _)%Z = true |- _ => apply Z.eqb_eq in H
  | H : (_ =? _)%Z = false |- _ => apply Z.eqb_neq in H
  | H : bool_decide _ = true |- _ => apply bool_decide_eq_true_1 in H
  | H : bool_decide _ = false |- _ => apply bool_decide_eq_false_1 in H
  end.

(** Split the claim that a guard is off into its atoms. *)
Ltac refute_guard :=
  repeat match goal with
  | |- (_ || _) = false => apply orb_false_iff; split
  | |- negb _ = false => apply negb_false_iff
  | |- (_ && _) = true => apply andb_true_iff; split
  | |- negb _ = true => apply negb_true_iff
  | |- (_ <? _)%Z = false => apply Z.ltb_ge
  | |- (_ <=? _)%Z = false => apply Z.leb_gt
  | |- (_ >? _)%Z = false => rewrite Z.gtb_ltb; apply Z.ltb_ge
  | |- (_ >=? _)%Z = false => rewrite Z.geb_leb; apply Z.leb_gt
  | |- (_ =? _)%Z = false => apply Z.eqb_neq
  | |- (_ <=? _)%Z = true => apply Z.leb_le
  | |- (_ <? _)%Z = true => apply Z.ltb_lt
  | |- bool_decide _ = false => apply bool_decide_eq_false_2
  | |- bool_decide _ = true => apply bool_decide_eq_true_2
  end.

(** Pass the next guard of a handler, leaving the atoms [lia] cannot refute. *)
Ltac pass_guard :=
  match goal with
  | |- context [if ?g then _ else _] =>
      let H := fresh in
      assert (H : g = false); [refute_guard; try done; try lia | rewrite H; clear H]
  end.
