(* ===== verification/GoStrings.v ===== *)
(** * Go's byte strings

    The operations of packages [strings], [strconv] and [unicode/utf8] that the
    modelled code calls, on byte strings ([String.string] is a list of bytes, as
    a Go string is), with the lemmas the components share. *)

From S2P Require Import Prelude.
Local Open Scope Z_scope.

Definition byte_len (s : string) : Z := Z.of_nat (String.length s).

Fixpoint rev_string (s acc : string) : string :=
  match s with
  | EmptyString => acc
  | String c s' => rev_string s' (String c acc)
  end.

Definition chr (n : nat) : ascii := Ascii.ascii_of_nat n.

(** [strings.HasPrefix] / [strings.HasSuffix]. *)
Fixpoint HasPrefix (s prefix : string) : bool :=
  match prefix, s with
  | EmptyString, _ => true
  | String p prefix', String c s' => bool_decide (c = p) && HasPrefix s' prefix'
  | _, _ => false
  end.

Definition HasSuffix (s suffix : string) : bool :=
  HasPrefix (rev_string s EmptyString) (rev_string suffix EmptyString).

Fixpoint drop_string (n : nat) (s : string) : string :=
  match n, s with
  | O, _ => s
  | S n', String _ s' => drop_string n' s'
  | S _, EmptyString => EmptyString
  end.

Fixpoint take_string (n : nat) (s : string) : string :=
  match n, s with
  | S n', String c s' => String c (take_string n' s')
  | _, _ => EmptyString
  end.

(** The UTF-8 encodings of the runes [unicode.IsSpace] accepts. *)
Definition spaceEncodings : list string :=
  let b n := chr n in
  let two x y := String (b x) (String (b y) EmptyString) in
  let three x y z := String (b x) (String (b y) (String (b z) EmptyString)) in
  ((fun n => String (b n) EmptyString) <$> [9; 10; 11; 12; 13; 32]%nat)
  ++ [two 194%nat 133%nat; two 194%nat 160%nat; three 225%nat 154%nat 128%nat]
  ++ (three 226%nat 128%nat <$>
        [128; 129; 130; 131; 132; 133; 134; 135; 136; 137; 138; 168; 169; 175]%nat)
  ++ [three 226%nat 129%nat 159%nat; three 227%nat 128%nat 128%nat].

Definition leading_space (encs : list string) (s : string) : option string :=
  list_find (fun e => Is_true (HasPrefix s e)) encs ≫= fun p =>
    Some (drop_string (String.length p.2) s).

Fixpoint trim_left_fuel (fuel : nat) (encs : list string) (s : string) : string :=
  match fuel with
  | O => s
  | S fuel' => match leading_space encs s with
               | Some s' => trim_left_fuel fuel' encs s'
               | None => s
               end
  end.

(** [strings.TrimSpace]. *)
Definition TrimSpace (s : string) : string :=
  let left := trim_left_fuel (String.length s) spaceEncodings s in
  let encs := (fun e => rev_string e EmptyString) <$> spaceEncodings in
  rev_string
    (trim_left_fuel (String.length left) encs (rev_string left EmptyString))
    EmptyString.

(** [strings.Split] with a one-byte separator. *)
Fixpoint Split (s : string) (sep : ascii) : list string :=
  match s with
  | EmptyString => [EmptyString]
  | String c s' =>
      if bool_decide (c = sep) then EmptyString :: Split s' sep
      else match Split s' sep with
           | [] => [String c EmptyString]
           | h :: t => String c h :: t
           end
  end.

(** [strings.Join]. *)
Fixpoint Join (parts : list string) (sep : string) : string :=
  match parts with
  | [] => EmptyString
  | [p] => p
  | p :: rest => p +:+ sep +:+ Join rest sep
  end.

(** [strings.Cut] at a one-byte separator: before, after, found. *)
Fixpoint Cut (s : string) (sep : ascii) : string * string * bool :=
  match s with
  | EmptyString => (EmptyString, EmptyString, false)
  | String c s' =>
      if bool_decide (c = sep) then (EmptyString, s', true)
      else match Cut s' sep with
           | (before, after, found) => (String c before, after, found)
           end
  end.

(** [strings.ToLower] on ASCII text. *)
Definition lower_char (c : ascii) : ascii :=
  let n := Ascii.nat_of_ascii c in
  if (65 <=? n)%nat && (n <=? 90)%nat then chr (n + 32) else c.

Fixpoint ToLower (s : string) : string :=
  match s with
  | EmptyString => EmptyString
  | String c s' => String (lower_char c) (ToLower s')
  end.

Definition digit_of (c : ascii) : option Z :=
  let n := Ascii.nat_of_ascii c in
  if (48 <=? n)%nat && (n <=? 57)%nat then Some (Z.of_nat n - 48) else None.

Definition digit_char (d : Z) : ascii := chr (Z.to_nat d + 48).

Fixpoint parse_digits (s : string) (acc : Z) : option Z :=
  match s with
  | EmptyString => Some acc
  | String c s' => match digit_of c with
                   | Some d => parse_digits s' (acc * 10 + d)
                   | None => None
                   end
  end.

Definition unsigned_digits (s : string) : option Z :=
  match s with EmptyString => None | _ => parse_digits s 0 end.

Definition check_int64 (z : Z) : option Z :=
  if (MinInt64 <=? z) && (z <=? MaxInt64) then Some z else None.

(** [strconv.Atoi]: an optional sign, decimal digits, 64-bit range. *)
Definition Atoi (s : string) : option Z :=
  match s with
  | String "-" rest => unsigned_digits rest ≫= fun z => check_int64 (- z)
  | String "+" rest => unsigned_digits rest ≫= check_int64
  | _ => unsigned_digits s ≫= check_int64
  end.

(** [strconv.Itoa]: a 64-bit value has at most 19 digits. *)
Fixpoint digits_fuel (fuel : nat) (n : Z) : string :=
  match fuel with
  | O => EmptyString
  | S fuel' =>
      if n <? 10 then String (digit_char n) EmptyString
      else digits_fuel fuel' (n / 10) +:+ String (digit_char (n mod 10)) EmptyString
  end.

Definition Itoa (z : Z) : string :=
  if z <? 0 then String "-" (digits_fuel 20 (- z)) else digits_fuel 20 z.

(** ** Decimal round trip *)

Lemma string_app_cons c (a b : string) : String c a +:+ b = String c (a +:+ b).
Proof. reflexivity. Qed.

Lemma string_app_nil_l (b : string) : EmptyString +:+ b = b.
Proof. reflexivity. Qed.

Lemma string_app_nil_r (s : string) : s +:+ EmptyString = s.
Proof. induction s as [|c s IH]; [done|]. by rewrite string_app_cons, IH. Qed.

Lemma string_app_assoc (a b c : string) : a +:+ (b +:+ c) = (a +:+ b) +:+ c.
Proof. induction a as [|x a IH]; [done|]. by rewrite !string_app_cons, IH. Qed.

Lemma string_length_app (a b : string) :
  String.length (a +:+ b) = (String.length a + String.length b)%nat.
Proof. induction a as [|x a IH]; [done|]. rewrite string_app_cons. cbn. by rewrite IH. Qed.

Lemma drop_string_app a s : drop_string (String.length a) (a +:+ s) = s.
Proof. induction a as [|c a IH]; [by destruct s|]. by rewrite string_app_cons. Qed.
Lemma take_string_app a s : take_string (String.length a) (a +:+ s) = a.
Proof. induction a as [|c a IH]; [by destruct s|]. rewrite string_app_cons. cbn. by rewrite IH. Qed.
Lemma drop_string_length n s : String.length (drop_string n s) = (String.length s - n)%nat.
Proof. revert s; induction n as [|n IH]; intros [|c s]; cbn; [done..|apply IH]. Qed.
Lemma take_string_length n s : String.length (take_string n s) = Nat.min n (String.length s).
Proof. revert s; induction n as [|n IH]; intros [|c s]; cbn; [done..|by rewrite IH]. Qed.

Lemma parse_digits_app a b acc :
  parse_digits (a +:+ b) acc = parse_digits a acc ≫= parse_digits b.
Proof.
  revert acc; induction a as [|c a IH]; intros acc; [done|].
  rewrite string_app_cons. cbn. destruct (digit_of c); [apply IH|done].
Qed.

Lemma digit_of_char d : 0 <= d <= 9 -> digit_of (digit_char d) = Some d.
Proof.
  intros H. assert (d = 0 \/ d = 1 \/ d = 2 \/ d = 3 \/ d = 4 \/ d = 5 \/ d = 6
    \/ d = 7 \/ d = 8 \/ d = 9) as Hd by lia.
  repeat destruct Hd as [->|Hd]; subst; reflexivity.
Qed.

Lemma parse_digits_digits fuel n :
  0 <= n < 10 ^ Z.of_nat fuel -> parse_digits (digits_fuel fuel n) 0 = Some n.
Proof.
  revert n; induction fuel as [|fuel IH]; intros n Hn; [simpl in *; f_equal; lia|].
  cbn [digits_fuel]. destruct (Z.ltb_spec n 10).
  - cbn. rewrite digit_of_char by lia. by cbn.
  - rewrite parse_digits_app, IH.
    + cbn. rewrite digit_of_char by (pose proof (Z.mod_pos_bound n 10); lia).
      f_equal. pose proof (Z.div_mod n 10). lia.
    + rewrite Nat2Z.inj_succ, Z.pow_succ_r in Hn by lia.
      split; [apply Z.div_pos; lia|]. apply Z.div_lt_upper_bound; lia.
Qed.

Definition is_digit (c : ascii) : bool := bool_decide (is_Some (digit_of c)).

Fixpoint all_chars (p : ascii -> bool) (s : string) : bool :=
  match s with EmptyString => true | String c s' => p c && all_chars p s' end.

Lemma all_chars_app p a b : all_chars p (a +:+ b) = all_chars p a && all_chars p b.
Proof.
  induction a as [|c a IH]; [done|].
  rewrite string_app_cons. cbn. by rewrite IH, andb_assoc.
Qed.

Lemma is_digit_char d : 0 <= d <= 9 -> is_digit (digit_char d) = true.
Proof. intros H; unfold is_digit; rewrite digit_of_char by done; by apply bool_decide_eq_true. Qed.

Lemma digits_all_digits fuel n : 0 <= n -> all_chars is_digit (digits_fuel fuel n) = true.
Proof.
  revert n; induction fuel as [|fuel IH]; intros n Hn; [done|]. cbn [digits_fuel].
  destruct (Z.ltb_spec n 10); cbn [all_chars].
  - by rewrite is_digit_char by lia.
  - rewrite all_chars_app, IH by (apply Z.div_pos; lia). cbn.
    by rewrite is_digit_char by (pose proof (Z.mod_pos_bound n 10); lia).
Qed.

Lemma digits_nonempty fuel n : digits_fuel (S fuel) n <> EmptyString.
Proof.
  cbn. destruct (n <? 10); [done|]. by destruct (digits_fuel fuel (n / 10)).
Qed.

Lemma Atoi_unsigned c s :
  is_digit c = true -> Atoi (String c s) = unsigned_digits (String c s) ≫= check_int64.
Proof.
  unfold Atoi. destruct c as [[] [] [] [] [] [] [] []]; intros H; try done;
    vm_compute in H; discriminate.
Qed.

(** [Atoi] reads back what [Itoa] writes, for every 64-bit value. *)
Lemma Atoi_Itoa z : in_int64 z -> Atoi (Itoa z) = Some z.
Proof.
  intros Hz. pose proof Hz as [Hlo Hhi]. unfold MinInt64, MaxInt64 in *.
  assert (check_int64 z = Some z) as Hc.
  { unfold check_int64, MinInt64, MaxInt64.
    by rewrite (proj2 (Z.leb_le _ _) Hlo), (proj2 (Z.leb_le _ _) Hhi). }
  unfold Itoa. destruct (Z.ltb_spec z 0).
  - cbn [Atoi]. pose proof (digits_nonempty 19 (- z)).
    pose proof (parse_digits_digits 20 (- z)) as Hp.
    destruct (digits_fuel 20 (- z)) as [|c s]; [done|].
    cbn [unsigned_digits]. rewrite Hp by (cbn; lia). cbn. by rewrite Z.opp_involutive.
  - pose proof (digits_nonempty 19 z). pose proof (parse_digits_digits 20 z) as Hp.
    pose proof (digits_all_digits 20 z) as Hd.
    destruct (digits_fuel 20 z) as [|c s]; [done|]. cbn in Hd.
    apply andb_prop in Hd; [|lia]. destruct Hd as [Hd _].
    rewrite Atoi_unsigned by done. cbn [unsigned_digits]. rewrite Hp by (cbn; lia). done.
Qed.

Lemma Atoi_range s z : Atoi s = Some z -> in_int64 z.
Proof.
  assert (forall w, check_int64 w = Some z -> in_int64 z) as H.
  { unfold check_int64, in_int64; intros w Hw. case_guards. bool_to_prop. lia. }
  assert (forall o : option Z, (o ≫= check_int64) = Some z -> in_int64 z) as H2.
  { intros [w|]; [apply H|done]. }
  assert (forall o : option Z, (o ≫= fun w => check_int64 (- w)) = Some z -> in_int64 z) as H3.
  { intros [w|]; [apply H|done]. }
  unfold Atoi. repeat case_match; eauto.
Qed.

(** ** Cutting at a separator *)

Lemma Cut_app sep a b :
  all_chars (fun c => negb (bool_decide (c = sep))) a = true ->
  Cut (a +:+ String sep b) sep = (a, b, true).
Proof.
  induction a as [|c a IH]; rewrite ?string_app_nil_l, ?string_app_cons; cbn.
  - by rewrite bool_decide_eq_true_2.
  - intros [Hc Ha]%andb_true_iff. apply negb_true_iff in Hc. rewrite Hc, IH; done.
Qed.

Lemma Cut_found s sep a b : Cut s sep = (a, b, true) -> s = a +:+ String sep b.
Proof.
  revert a b; induction s as [|c s IH]; intros a b; cbn; [done|].
  destruct (bool_decide (c = sep)) eqn:Hc.
  - bool_to_prop. subst. intros [= <- <-]. done.
  - destruct (Cut s sep) as [[a' b'] f]. intros [= <- -> ->].
    rewrite string_app_cons. f_equal. by apply IH.
Qed.

Lemma all_chars_mono (p q : ascii -> bool) s :
  (forall c, p c = true -> q c = true) -> all_chars p s = true -> all_chars q s = true.
Proof.
  intros Hpq. induction s as [|c s IH]; cbn; [done|].
  intros [H1 H2]%andb_true_iff. by rewrite (Hpq c H1), IH.
Qed.

(** ** Splitting at a separator *)

Lemma Split_nonempty s sep : Split s sep <> [].
Proof. destruct s as [|c s]; cbn [Split]; [done|]. case_bool_decide; [done|]. by destruct (Split s sep). Qed.

Lemma Split_concat a b sep : Split (a +:+ String sep b) sep = Split a sep ++ Split b sep.
Proof.
  induction a as [|c a IH].
  - rewrite string_app_nil_l. cbn [Split]. by rewrite bool_decide_eq_true_2.
  - rewrite string_app_cons. cbn [Split]. rewrite IH. case_bool_decide; [done|].
    pose proof (Split_nonempty a sep). by destruct (Split a sep).
Qed.

Lemma Split_none s sep : all_chars (fun x => negb (bool_decide (x = sep))) s = true -> Split s sep = [s].
Proof.
  induction s as [|x s IH]; [done|]. cbn [Split all_chars]. intros H. apply andb_true_iff in H as [Hx Hs]. bool_to_prop.
  rewrite bool_decide_eq_false_2 by done. by rewrite (IH Hs).
Qed.

Lemma Split_app a s sep :
  all_chars (fun x => negb (bool_decide (x = sep))) a = true -> Split (a +:+ String sep s) sep = a :: Split s sep.
Proof.
  induction a as [|x a IH]; [rewrite string_app_nil_l; cbn [Split]; by rewrite bool_decide_eq_true_2|].
  rewrite string_app_cons. cbn [Split all_chars]. intros H. apply andb_true_iff in H as [Hx Ha]. bool_to_prop. rewrite bool_decide_eq_false_2 by done. by rewrite (IH Ha).
Qed.
