(* ===== verification/GoUtf8.v ===== *)
(** * UTF-8

    [unicode/utf8]: which byte strings are valid, and the runes a [range] loop over a string
    yields. *)

From S2P Require Import Prelude GoStrings.
Local Open Scope Z_scope.

Definition inb (lo hi : nat) (c : ascii) : bool :=
  (lo <=? nat_of_ascii c)%nat && (nat_of_ascii c <=? hi)%nat.
Definition cont : ascii -> bool := inb 128 191.

(** [utf8.ValidString] *)
Fixpoint ValidString (s : string) : bool :=
  match s with
  | EmptyString => true
  | String a s1 =>
      if inb 0 127 a then ValidString s1 else
      match s1 with
      | EmptyString => false
      | String b s2 =>
          if inb 194 223 a then cont b && ValidString s2 else
          match s2 with
          | EmptyString => false
          | String c s3 =>
              if inb 224 224 a then inb 160 191 b && cont c && ValidString s3
              else if inb 237 237 a then inb 128 159 b && cont c && ValidString s3
              else if inb 225 239 a then cont b && cont c && ValidString s3 else
              match s3 with
              | EmptyString => false
              | String d s4 =>
                  if inb 240 240 a then inb 144 191 b && cont c && cont d && ValidString s4
                  else if inb 241 243 a then cont b && cont c && cont d && ValidString s4
                  else if inb 244 244 a then inb 128 143 b && cont c && cont d && ValidString s4
                  else false
              end
          end
      end
  end.

Definition ord (c : ascii) : Z := Z.of_nat (nat_of_ascii c).
Definition RuneError : Z := 65533.

(** The second byte a first byte of three or four allows. *)
Definition second_of_3 (a b : ascii) : bool :=
  if inb 224 224 a then inb 160 191 b
  else if inb 237 237 a then inb 128 159 b
  else inb 225 239 a && cont b.
Definition second_of_4 (a b : ascii) : bool :=
  if inb 240 240 a then inb 144 191 b
  else if inb 244 244 a then inb 128 143 b
  else inb 241 243 a && cont b.

(** The runes of a [range] loop; a byte that starts no encoding is [RuneError]. *)
Fixpoint runes (s : string) : list Z :=
  match s with
  | EmptyString => []
  | String a s1 =>
      if inb 0 127 a then ord a :: runes s1 else
      match s1 with
      | EmptyString => RuneError :: runes s1
      | String b s2 =>
          if inb 194 223 a && cont b then (ord a - 192) * 64 + (ord b - 128) :: runes s2 else
          match s2 with
          | EmptyString => RuneError :: runes s1
          | String c s3 =>
              if second_of_3 a b && cont c
              then (ord a - 224) * 4096 + (ord b - 128) * 64 + (ord c - 128) :: runes s3 else
              match s3 with
              | EmptyString => RuneError :: runes s1
              | String d s4 =>
                  if second_of_4 a b && cont c && cont d
                  then (ord a - 240) * 262144 + (ord b - 128) * 4096 + (ord c - 128) * 64 + (ord d - 128)
                       :: runes s4
                  else RuneError :: runes s1
              end
          end
      end
  end.
Definition RuneCountInString (s : string) : Z := Z.of_nat (length (runes s)).

Lemma runes_ascii s : all_chars (inb 0 127) s = true -> runes s = map ord (String.list_ascii_of_string s).
Proof. induction s as [|c s IH]; cbn; [done|]. intros [-> Hs]%andb_true_iff. by rewrite IH. Qed.
