(* ===== verification/GoQuote.v ===== *)
(** * Quoted strings

    [strconv.Quote] and [strconv.Unquote] with the parts of [unicode/utf8] they use: one rune
    decoded or encoded.  [Unquote]'s shortcut for literals without escapes is left out: its
    result is the general loop's.  Which runes above 255 are printable is a table of the
    [strconv] package and a parameter. *)

From S2P Require Import Prelude GoStrings GoUtf8.
Local Open Scope Z_scope.

(** [utf8.DecodeRuneInString]: the rune and the bytes it takes. *)
Definition DecodeRune (s : string) : Z * nat :=
  match s with
  | EmptyString => (RuneError, 0%nat)
  | String a s1 =>
      if inb 0 127 a then (ord a, 1%nat) else
      match s1 with
      | EmptyString => (RuneError, 1%nat)
      | String b s2 =>
          if inb 194 223 a && cont b then ((ord a - 192) * 64 + (ord b - 128), 2%nat) else
          match s2 with
          | EmptyString => (RuneError, 1%nat)
          | String c s3 =>
              if second_of_3 a b && cont c
              then ((ord a - 224) * 4096 + (ord b - 128) * 64 + (ord c - 128), 3%nat) else
              match s3 with
              | EmptyString => (RuneError, 1%nat)
              | String d s4 =>
                  if second_of_4 a b && cont c && cont d
                  then ((ord a - 240) * 262144 + (ord b - 128) * 4096 + (ord c - 128) * 64 + (ord d - 128), 4%nat)
                  else (RuneError, 1%nat)
              end
          end
      end
  end.

(** [utf8.ValidRune], [utf8.AppendRune] *)
Definition ValidRune (r : Z) : bool := ((0 <=? r) && (r <? 55296)) || ((57343 <? r) && (r <=? 1114111)).
Definition byte_of (n : Z) : ascii := chr (Z.to_nat n).
Definition three_bytes (r : Z) : string :=
  String (byte_of (224 + r / 4096)) (String (byte_of (128 + r / 64 mod 64)) (String (byte_of (128 + r mod 64)) EmptyString)).
Definition AppendRune (r : Z) : string :=
  if (0 <=? r) && (r <? 128) then String (byte_of r) EmptyString
  else if (0 <=? r) && (r <? 2048)
  then String (byte_of (192 + r / 64)) (String (byte_of (128 + r mod 64)) EmptyString)
  else if negb (ValidRune r) then three_bytes RuneError
  else if r <? 65536 then three_bytes r
  else String (byte_of (240 + r / 262144)) (String (byte_of (128 + r / 4096 mod 64))
         (String (byte_of (128 + r / 64 mod 64)) (String (byte_of (128 + r mod 64)) EmptyString))).

Definition dquote : ascii := chr 34.
Definition squote : ascii := chr 39.
Definition backquote : ascii := chr 96.
Definition backslash : ascii := chr 92.
Definition newline : ascii := chr 10.

(** ** [strconv.Quote] *)

Definition lowerhex (d : Z) : ascii := if d <? 10 then byte_of (48 + d) else byte_of (87 + d).

(** The [n] lowest hexadecimal digits. *)
Fixpoint hex_digits (n : nat) (v : Z) : string :=
  match n with
  | O => EmptyString
  | S n' => String (lowerhex (v / 16 ^ Z.of_nat n' mod 16)) (hex_digits n' v)
  end.

Section Quote.
Context (isPrint : Z -> bool).

(** [strconv.IsPrint] *)
Definition IsPrint (r : Z) : bool :=
  if r <=? 255
  then ((32 <=? r) && (r <? 127)) || ((161 <=? r) && negb (r =? 173))
  else isPrint r.

Definition escape (c : ascii) : string := String backslash (String c EmptyString).

(** [appendEscapedRune] with a double quote *)
Definition escaped_rune (r : Z) : string :=
  if (r =? ord dquote) || (r =? ord backslash) then escape (byte_of r)
  else if IsPrint r then AppendRune r
  else if r =? 7 then escape "a" else if r =? 8 then escape "b" else if r =? 12 then escape "f"
  else if r =? 10 then escape "n" else if r =? 13 then escape "r" else if r =? 9 then escape "t"
  else if r =? 11 then escape "v"
  else if (r <? 32) || (r =? 127) then escape "x" +:+ hex_digits 2 r
  else
    let r := if ValidRune r then r else RuneError in
    if r <? 65536 then escape "u" +:+ hex_digits 4 r else escape "U" +:+ hex_digits 8 r.

Fixpoint quote_body (fuel : nat) (s : string) : string :=
  match fuel, s with
  | S n, String a _ =>
      let '(r, width) := DecodeRune s in
      (if (width =? 1)%nat && (r =? RuneError) then escape "x" +:+ hex_digits 2 (ord a) else escaped_rune r)
      +:+ quote_body n (drop_string width s)
  | _, _ => EmptyString
  end.

Definition Quote (s : string) : string :=
  String dquote (quote_body (String.length s) s +:+ String dquote EmptyString).
End Quote.

(** ** [strconv.Unquote] *)

Definition unhex (c : ascii) : option Z :=
  if inb 48 57 c then Some (ord c - 48)
  else if inb 97 102 c then Some (ord c - 87)
  else if inb 65 70 c then Some (ord c - 55)
  else None.

(** [n] digits in base [base]. *)
Fixpoint digits_of (digit : ascii -> option Z) (base : Z) (n : nat) (v : Z) (s : string) : option (Z * string) :=
  match n with
  | O => Some (v, s)
  | S n' => match s with
            | EmptyString => None
            | String c rest => match digit c with Some x => digits_of digit base n' (v * base + x) rest | None => None end
            end
  end.
Definition octal (c : ascii) : option Z := if inb 48 55 c then Some (ord c - 48) else None.

(** [strconv.UnquoteChar] after the backslash: the value, whether it is a rune, the rest. *)
Definition unescape (quote : ascii) (s : string) : option (Z * bool * string) :=
  match s with
  | EmptyString => None
  | String c rest =>
      let simple (v : Z) := Some (v, false, rest) in
      let hex (n : nat) (byte : bool) :=
        match digits_of unhex 16 n 0 rest with
        | Some (v, rest') => if byte then Some (v, false, rest') else if ValidRune v then Some (v, true, rest') else None
        | None => None
        end in
      if bool_decide (c = "a"%char) then simple 7 else if bool_decide (c = "b"%char) then simple 8
      else if bool_decide (c = "f"%char) then simple 12 else if bool_decide (c = "n"%char) then simple 10
      else if bool_decide (c = "r"%char) then simple 13 else if bool_decide (c = "t"%char) then simple 9
      else if bool_decide (c = "v"%char) then simple 11
      else if bool_decide (c = "x"%char) then hex 2%nat true
      else if bool_decide (c = "u"%char) then hex 4%nat false
      else if bool_decide (c = "U"%char) then hex 8%nat false
      else match octal c with
      | Some v => match digits_of octal 8 2 v rest with
                  | Some (v, rest') => if 255 <? v then None else Some (v, false, rest')
                  | None => None
                  end
      | None =>
          if bool_decide (c = backslash) then simple 92
          else if bool_decide (c = squote) || bool_decide (c = dquote)
          then if bool_decide (c = quote) then simple (ord c) else None
          else None
      end
  end.
Definition UnquoteChar (quote : ascii) (s : string) : option (Z * bool * string) :=
  match s with
  | EmptyString => None
  | String c rest =>
      if bool_decide (c = quote) && (bool_decide (quote = squote) || bool_decide (quote = dquote)) then None
      else if negb (inb 0 127 c) then let '(r, size) := DecodeRune s in Some (r, true, drop_string size s)
      else if negb (bool_decide (c = backslash)) then Some (ord c, false, rest)
      else unescape quote rest
  end.

Definition unquoted_bytes (r : Z) (multibyte : bool) : string :=
  if (r <? 128) || negb multibyte then String (byte_of r) EmptyString else AppendRune r.

(** The loop over the characters of an interpreted literal, up to the closing quote. *)
Fixpoint unquote_loop (fuel : nat) (quote : ascii) (s buf : string) : option (string * string) :=
  match fuel with
  | O => None
  | S n =>
      match s with
      | EmptyString => None
      | String c rest =>
          if bool_decide (c = quote) then Some (buf, rest)
          else match UnquoteChar quote s with
          | None => None
          | Some (r, multibyte, rem) =>
              if bool_decide (c = newline) then None
              else
                let buf := buf +:+ unquoted_bytes r multibyte in
                if bool_decide (quote = squote)
                then match rem with
                     | String c' rest' => if bool_decide (c' = quote) then Some (buf, rest') else None
                     | EmptyString => None
                     end
                else unquote_loop n quote rem buf
          end
      end
  end.

Fixpoint without_cr (s : string) : string :=
  match s with
  | EmptyString => EmptyString
  | String c rest => if bool_decide (c = chr 13) then without_cr rest else String c (without_cr rest)
  end.

Definition Unquote (s : string) : option string :=
  match s with
  | EmptyString => None
  | String quote rest =>
      if bool_decide (quote = backquote) then
        let '(raw, rem, found) := Cut rest backquote in
        if found && bool_decide (rem = EmptyString) then Some (without_cr raw) else None
      else if bool_decide (quote = dquote) || bool_decide (quote = squote) then
        match unquote_loop (String.length s) quote rest EmptyString with
        | Some (out, rem) => if bool_decide (rem = EmptyString) then Some out else None
        | None => None
        end
      else None
  end.

(** ** Decoding and encoding one rune *)

Lemma ord_range a : 0 <= ord a < 256.
Proof. unfold ord. pose proof (Ascii.nat_ascii_bounded a). lia. Qed.
Lemma byte_of_ord a : byte_of (ord a) = a.
Proof. unfold byte_of, ord, chr. rewrite Nat2Z.id. apply Ascii.ascii_nat_embedding. Qed.
Lemma byte_of_is n a : n = ord a -> byte_of n = a.
Proof. intros ->. apply byte_of_ord. Qed.
Lemma ord_byte_of n : 0 <= n < 256 -> ord (byte_of n) = n.
Proof. intros. unfold byte_of, ord, chr. rewrite Ascii.nat_ascii_embedding; lia. Qed.
Lemma inb_iff lo hi a : inb lo hi a = true <-> Z.of_nat lo <= ord a <= Z.of_nat hi.
Proof. unfold inb, ord. rewrite andb_true_iff, !Nat.leb_le. lia. Qed.
Lemma inb_false lo hi a : inb lo hi a = false -> ~ (Z.of_nat lo <= ord a <= Z.of_nat hi).
Proof. intros H Hc. apply inb_iff in Hc. congruence. Qed.

Lemma second_of_3_iff a b : second_of_3 a b = true ->
  224 <= ord a <= 239 /\ 128 <= ord b <= 191 /\ (ord a = 224 -> 160 <= ord b) /\ (ord a = 237 -> ord b <= 159).
Proof.
  unfold second_of_3, cont. destruct (inb 224 224 a) eqn:H1; [|destruct (inb 237 237 a) eqn:H2].
  - rewrite !inb_iff in *. cbn in *. lia.
  - rewrite !inb_iff in *. apply inb_false in H1. cbn in *. lia.
  - intros [? ?]%andb_true_iff. rewrite !inb_iff in *. apply inb_false in H1, H2. cbn in *. lia.
Qed.
Lemma second_of_4_iff a b : second_of_4 a b = true ->
  240 <= ord a <= 244 /\ 128 <= ord b <= 191 /\ (ord a = 240 -> 144 <= ord b) /\ (ord a = 244 -> ord b <= 143).
Proof.
  unfold second_of_4, cont. destruct (inb 240 240 a) eqn:H1; [|destruct (inb 244 244 a) eqn:H2].
  - rewrite !inb_iff in *. cbn in *. lia.
  - rewrite !inb_iff in *. apply inb_false in H1. cbn in *. lia.
  - intros [? ?]%andb_true_iff. rewrite !inb_iff in *. apply inb_false in H1, H2. cbn in *. lia.
Qed.

(** What one decoding step yields: a broken byte, or a valid rune that encodes to the bytes
    it was read from. *)
Inductive decoded : string -> Z -> nat -> Prop :=
| decoded_bad a s : inb 0 127 a = false -> decoded (String a s) RuneError 1
| decoded_rune s r w : ValidRune r = true -> AppendRune r = take_string w s -> (0 < w <= String.length s)%nat ->
    (r < 128 <-> w = 1%nat) -> decoded s r w.

Lemma AppendRune_2 r : 128 <= r < 2048 ->
  AppendRune r = String (byte_of (192 + r / 64)) (String (byte_of (128 + r mod 64)) EmptyString).
Proof. intros. unfold AppendRune. destruct (_ && (r <? 128)) eqn:H1; [lia|]. destruct (_ && (r <? 2048)) eqn:H2; [done|lia]. Qed.
Lemma AppendRune_3 r : 2048 <= r < 65536 -> ValidRune r = true -> AppendRune r = three_bytes r.
Proof.
  intros Hr Hv. unfold AppendRune. rewrite Hv. destruct (_ && (r <? 128)) eqn:H1; [lia|].
  destruct (_ && (r <? 2048)) eqn:H2; [lia|]. cbn. destruct (r <? 65536) eqn:H3; [done|lia].
Qed.
Lemma AppendRune_4 r : 65536 <= r -> ValidRune r = true -> AppendRune r =
  String (byte_of (240 + r / 262144)) (String (byte_of (128 + r / 4096 mod 64))
         (String (byte_of (128 + r / 64 mod 64)) (String (byte_of (128 + r mod 64)) EmptyString))).
Proof.
  intros Hr Hv. unfold AppendRune. rewrite Hv. destruct (_ && (r <? 128)) eqn:H1; [lia|].
  destruct (_ && (r <? 2048)) eqn:H2; [lia|]. cbn. destruct (r <? 65536) eqn:H3; [lia|done].
Qed.

Ltac same_bytes :=
  cbn [take_string]; unfold three_bytes;
  repeat (apply (f_equal2 String); [apply byte_of_is; Z.to_euclidean_division_equations; lia|]); reflexivity.

Lemma DecodeRune_decoded a s r w : DecodeRune (String a s) = (r, w) -> decoded (String a s) r w.
Proof.
  pose proof (ord_range a) as Ha. unfold DecodeRune. destruct (inb 0 127 a) eqn:H1.
  { intros [= <- <-]. apply inb_iff in H1. cbn in H1. apply decoded_rune; [unfold ValidRune; lia| |cbn; lia|lia].
    unfold AppendRune. destruct (_ && _) eqn:Hr; [|lia]. cbn. by rewrite byte_of_ord. }
  destruct s as [|b s2]; [intros [= <- <-]; by constructor|]. pose proof (ord_range b) as Hb.
  destruct (inb 194 223 a && cont b) eqn:H2.
  { intros [= <- <-]. apply andb_true_iff in H2 as [H2 H2']. unfold cont in H2'. rewrite !inb_iff in *. cbn in H2, H2'.
    apply decoded_rune; [unfold ValidRune; lia| |cbn; lia|lia]. rewrite AppendRune_2 by lia. same_bytes. }
  destruct s2 as [|c s3]; [intros [= <- <-]; by constructor|]. pose proof (ord_range c) as Hc.
  destruct (second_of_3 a b && cont c) eqn:H3.
  { intros [= <- <-]. apply andb_true_iff in H3 as [H3 H3']. apply second_of_3_iff in H3. unfold cont in H3'.
    rewrite !inb_iff in *. cbn in H3'.
    assert (ValidRune ((ord a - 224) * 4096 + (ord b - 128) * 64 + (ord c - 128)) = true) as Hv by (unfold ValidRune; lia).
    apply decoded_rune; [done| |cbn; lia|lia]. rewrite AppendRune_3 by (lia || done). same_bytes. }
  destruct s3 as [|d s4]; [intros [= <- <-]; by constructor|]. pose proof (ord_range d) as Hd.
  destruct (second_of_4 a b && cont c && cont d) eqn:H4; [|intros [= <- <-]; by constructor].
  intros [= <- <-]. apply andb_true_iff in H4 as [H4 H4']. apply andb_true_iff in H4 as [H4 H4'']. apply second_of_4_iff in H4.
  unfold cont in *. rewrite !inb_iff in *. cbn in H4', H4''.
  assert (ValidRune ((ord a - 240) * 262144 + (ord b - 128) * 4096 + (ord c - 128) * 64 + (ord d - 128)) = true) as Hv
    by (unfold ValidRune; lia).
  apply decoded_rune; [done| |cbn; lia|lia]. rewrite AppendRune_4 by (lia || done). same_bytes.
Qed.

(** ** [Unquote] undoes [Quote] *)

Lemma unhex_lowerhex d : 0 <= d < 16 -> unhex (lowerhex d) = Some d.
Proof.
  intros Hd. assert (In d (map Z.of_nat (seq 0 16))) as Hin.
  { apply in_map_iff. exists (Z.to_nat d). split; [lia|]. apply in_seq. lia. }
  cbn in Hin. repeat destruct Hin as [<- | Hin]; reflexivity || done.
Qed.

Lemma digits_of_hex n v acc rest : 0 <= v ->
  digits_of unhex 16 n acc (hex_digits n v +:+ rest) = Some (acc * 16 ^ Z.of_nat n + v mod 16 ^ Z.of_nat n, rest).
Proof.
  intros Hv. revert acc. induction n as [|n IH]; intros acc.
  { cbn. rewrite Z.mod_1_r. by rewrite Z.mul_1_r, Z.add_0_r. }
  cbn [hex_digits]. rewrite string_app_cons. cbn [digits_of].
  rewrite unhex_lowerhex by (apply Z.mod_pos_bound; lia). rewrite IH. f_equal. f_equal.
  rewrite Nat2Z.inj_succ, Z.pow_succ_r by lia. rewrite (Z.mul_comm 16 (16 ^ _)).
  rewrite (Z.rem_mul_r v (16 ^ Z.of_nat n) 16) by lia. lia.
Qed.

Section QuoteRoundTrip.
Context (isPrint : Z -> bool).

(** A piece of a quoted literal reads as the bytes [out]. *)
Definition reads (piece out : string) : Prop :=
  exists c p, piece = String c p /\ c <> dquote /\ c <> newline /\
  forall rest, exists r mb, UnquoteChar dquote (piece +:+ rest) = Some (r, mb, rest) /\ unquoted_bytes r mb = out.

Lemma reads_escape c p out :
  (forall rest, exists r mb, unescape dquote (String c (p +:+ rest)) = Some (r, mb, rest) /\ unquoted_bytes r mb = out) ->
  reads (String backslash (String c p)) out.
Proof. intros H. exists backslash, (String c p). split_and!; done. Qed.

Lemma reads_simple c v :
  (forall rest, unescape dquote (String c rest) = Some (v, false, rest)) ->
  reads (escape c) (String (byte_of v) EmptyString).
Proof.
  intros H. apply reads_escape. intros rest. exists v, false. split; [apply H|]. unfold unquoted_bytes. by rewrite orb_true_r.
Qed.

Lemma reads_hex2 v : 0 <= v < 256 -> reads (escape "x" +:+ hex_digits 2 v) (String (byte_of v) EmptyString).
Proof.
  intros Hv. apply reads_escape. intros rest. exists v, false.
  split; [|unfold unquoted_bytes; by rewrite orb_true_r].
  change (unescape _ _) with (match digits_of unhex 16 2 0 (hex_digits 2 v +:+ rest) with
    | Some (v, rest') => Some (v, false, rest') | None => None end).
  rewrite digits_of_hex by lia. rewrite Z.mod_small by (cbn; lia). done.
Qed.

Lemma ValidRune_range r : ValidRune r = true -> 0 <= r <= 1114111.
Proof. unfold ValidRune. lia. Qed.

Lemma unquoted_rune r : ValidRune r = true -> unquoted_bytes r true = AppendRune r.
Proof.
  intros Hv. unfold unquoted_bytes. destruct (r <? 128) eqn:Hr; [|done]. cbn. unfold AppendRune.
  apply ValidRune_range in Hv. destruct (_ && _) eqn:H; [done|lia].
Qed.

Lemma reads_u v : ValidRune v = true -> v < 65536 -> reads (escape "u" +:+ hex_digits 4 v) (AppendRune v).
Proof.
  intros Hv Hlt. apply reads_escape. intros rest. exists v, true. split; [|by apply unquoted_rune].
  change (unescape _ _) with (match digits_of unhex 16 4 0 (hex_digits 4 v +:+ rest) with
    | Some (v, rest') => if ValidRune v then Some (v, true, rest') else None | None => None end).
  pose proof (ValidRune_range _ Hv). rewrite digits_of_hex by lia. rewrite Z.mod_small by (cbn; lia). by rewrite Z.mul_0_l, Z.add_0_l, Hv.
Qed.
Lemma reads_U v : ValidRune v = true -> reads (escape "U" +:+ hex_digits 8 v) (AppendRune v).
Proof.
  intros Hv. apply reads_escape. intros rest. exists v, true. split; [|by apply unquoted_rune].
  change (unescape _ _) with (match digits_of unhex 16 8 0 (hex_digits 8 v +:+ rest) with
    | Some (v, rest') => if ValidRune v then Some (v, true, rest') else None | None => None end).
  pose proof (ValidRune_range _ Hv). rewrite digits_of_hex by lia. rewrite Z.mod_small by (cbn; lia). by rewrite Z.mul_0_l, Z.add_0_l, Hv.
Qed.

Lemma decode_prefix s r w rest : DecodeRune s = (r, w) -> (1 < w)%nat -> DecodeRune (take_string w s +:+ rest) = (r, w).
Proof.
  destruct s as [|a s]; [intros [= <- <-]; lia|]. unfold DecodeRune at 1. destruct (inb 0 127 a) eqn:H1; [intros [= <- <-]; lia|].
  destruct s as [|b s]; [intros [= <- <-]; lia|]. destruct (inb 194 223 a && cont b) eqn:H2.
  { intros [= <- <-] _. cbn [take_string]. rewrite !string_app_cons. unfold DecodeRune. by rewrite H1, H2. }
  destruct s as [|c s]; [intros [= <- <-]; lia|]. destruct (second_of_3 a b && cont c) eqn:H3.
  { intros [= <- <-] _. cbn [take_string]. rewrite !string_app_cons. unfold DecodeRune. by rewrite H1, H2, H3. }
  destruct s as [|d s]; [intros [= <- <-]; lia|]. destruct (second_of_4 a b && cont c && cont d) eqn:H4; [|intros [= <- <-]; lia].
  intros [= <- <-] _. cbn [take_string]. rewrite !string_app_cons. unfold DecodeRune. by rewrite H1, H2, H3, H4.
Qed.

Lemma drop_take_app n s rest : (n <= String.length s)%nat -> drop_string n (take_string n s +:+ rest) = rest.
Proof. revert s; induction n as [|n IH]; intros [|c s] Hn; cbn in *; try done; try lia. apply IH. lia. Qed.
Lemma take_drop n s : s = take_string n s +:+ drop_string n s.
Proof. revert s; induction n as [|n IH]; intros [|c s]; try done. cbn. rewrite string_app_cons. by rewrite <- IH. Qed.

Lemma reads_printed s r w : DecodeRune s = (r, w) -> decoded s r w -> ValidRune r = true -> IsPrint isPrint r = true ->
  r <> ord dquote -> r <> ord backslash -> AppendRune r = take_string w s -> (r < 128 <-> w = 1%nat) ->
  (0 < w <= String.length s)%nat -> reads (AppendRune r) (AppendRune r).
Proof.
  intros Hd _ Hv Hp Hq Hb Ha Hw Hl. destruct (decide (r < 128)) as [Hlt | Hge].
  - assert (AppendRune r = String (byte_of r) EmptyString) as ->.
    { unfold AppendRune. apply ValidRune_range in Hv. destruct (_ && _) eqn:?; [done|lia]. }
    apply ValidRune_range in Hv. assert (ord (byte_of r) = r) as Ho by (apply ord_byte_of; lia).
    exists (byte_of r), EmptyString. split_and!; [done|intros E; by rewrite E in Ho| |].
    { intros E. rewrite E in Ho. unfold IsPrint in Hp. cbn in Ho. subst r. done. }
    intros rest. exists r, false. rewrite string_app_cons. unfold UnquoteChar.
    destruct (_ && _) eqn:E; [apply andb_true_iff in E as [E _]; apply bool_decide_eq_true in E; rewrite E in Ho; lia|].
    assert (inb 0 127 (byte_of r) = true) as -> by (apply inb_iff; lia). cbn [negb].
    rewrite bool_decide_eq_false_2 by (intros E'; rewrite E' in Ho; lia). cbn [negb]. rewrite Ho.
    split; [done|]. unfold unquoted_bytes. by rewrite orb_true_r.
  - destruct s as [|a s]; [cbn in Hl; lia|]. destruct w as [|w]; [lia|]. rewrite Ha. cbn [take_string].
    assert (inb 0 127 a = false) as Hna.
    { destruct (inb 0 127 a) eqn:E; [|done]. unfold DecodeRune in Hd. rewrite E in Hd. injection Hd as <- <-. apply inb_iff in E. cbn in E. lia. }
    assert (128 <= ord a) by (apply inb_false in Hna; pose proof (ord_range a); cbn in Hna; lia).
    exists a, (take_string w s). split_and!; [done|by intros -> |by intros -> |]. intros rest. exists r, true.
    rewrite string_app_cons. unfold UnquoteChar. rewrite (bool_decide_eq_false_2 (a = dquote)) by (by intros ->). cbn [andb].
    rewrite Hna. cbn [negb]. rewrite <- string_app_cons. change (String a (take_string w s)) with (take_string (S w) (String a s)).
    rewrite (decode_prefix _ r) by (done || lia). rewrite drop_take_app by lia. split; [done|]. rewrite <- Ha. by apply unquoted_rune.
Qed.

Lemma reads_escaped s r w : DecodeRune s = (r, w) -> s <> EmptyString -> ((w =? 1)%nat && (r =? RuneError)) = false ->
  reads (escaped_rune isPrint r) (take_string w s).
Proof.
  destruct s as [|a s]; [done|]. intros Hd _ Hn. pose proof (DecodeRune_decoded _ _ _ _ Hd) as Hc.
  inversion Hc as [? ? Hbad|? ? ? Hv Ha Hl Hw]; subst; [done|]. rewrite <- Ha. unfold escaped_rune.
  assert (0 <= r <= 1114111) as Hr by (by apply ValidRune_range).
  assert (r < 128 -> AppendRune r = String (byte_of r) EmptyString) as Happ.
  { intros. unfold AppendRune. destruct ((0 <=? r) && (r <? 128)) eqn:?; [done|lia]. }
  destruct ((r =? ord dquote) || (r =? ord backslash)) eqn:H1.
  { change (ord dquote) with 34 in *. change (ord backslash) with 92 in *. rewrite Happ by lia. apply orb_true_iff in H1 as [->%Z.eqb_eq | ->%Z.eqb_eq]; by apply reads_simple. }
  destruct (IsPrint isPrint r) eqn:Hp; [eapply reads_printed; eauto; lia|].
  repeat match goal with |- reads (if r =? ?k then _ else _) _ =>
    destruct (r =? k) eqn:?; [assert (r = k) as -> by lia; rewrite Happ by lia; by apply reads_simple|] end.
  destruct ((r <? 32) || (r =? 127)) eqn:H2.
  { rewrite Happ by lia. apply reads_hex2. lia. }
  rewrite Hv. cbn zeta. destruct (r <? 65536) eqn:H3; [apply reads_u; [done|lia]|by apply reads_U].
Qed.

Lemma unquote_body_quoted n m s buf : (String.length s <= n)%nat -> (String.length (quote_body isPrint n s) < m)%nat ->
  unquote_loop m dquote (quote_body isPrint n s +:+ String dquote EmptyString) buf = Some (buf +:+ s, EmptyString).
Proof.
  revert m s buf. induction n as [|n IH]; intros m s buf Hl Hm.
  { destruct s; [|cbn in Hl; lia]. destruct m; [lia|]. cbn. by rewrite string_app_nil_r. }
  destruct s as [|a s]; [destruct m; [lia|]; cbn; by rewrite string_app_nil_r|].
  cbn [quote_body] in Hm |- *. destruct (DecodeRune (String a s)) as [r w] eqn:Hd.
  set (piece := if _ && _ then _ else _) in *.
  assert (reads piece (take_string w (String a s))) as (c & p & Hpc & Hq & Hnl & Hread).
  { subst piece. destruct ((w =? 1)%nat && (r =? RuneError)) eqn:Hb; [|by apply reads_escaped].
    apply andb_true_iff in Hb as [->%Nat.eqb_eq _]. cbn [take_string]. rewrite <- (byte_of_ord a) at 2. apply reads_hex2, ord_range. }
  clearbody piece. subst piece.
  assert (0 < w)%nat as Hw by (apply DecodeRune_decoded in Hd; inversion Hd; lia).
  destruct m as [|m]; [lia|]. rewrite string_length_app in Hm. cbn [String.length] in Hm. rewrite <- string_app_assoc.
  destruct (Hread (quote_body isPrint n (drop_string w (String a s)) +:+ String dquote EmptyString)) as (v & mb & Hu & Hout).
  rewrite string_app_cons in *. cbn [unquote_loop]. rewrite bool_decide_eq_false_2 by done. rewrite Hu.
  rewrite bool_decide_eq_false_2 by done. rewrite bool_decide_eq_false_2 by done. rewrite Hout.
  rewrite IH; [|destruct w; [lia|]; cbn [drop_string]|lia].
  - by rewrite <- string_app_assoc, <- take_drop.
  - cbn in Hl. assert (forall k t, String.length (drop_string k t) <= String.length t)%nat as Hle.
    { clear. induction k as [|k IHk]; intros [|x t]; cbn; try lia. specialize (IHk t). lia. }
    specialize (Hle w s). lia.
Qed.

(** Quoting loses nothing, whatever the bytes and whichever runes print. *)
Theorem Unquote_Quote s : Unquote (Quote isPrint s) = Some s.
Proof.
  unfold Quote, Unquote. rewrite bool_decide_eq_false_2 by done. rewrite bool_decide_eq_true_2 by done. cbn [orb].
  rewrite unquote_body_quoted; [by rewrite string_app_nil_l|lia|]. cbn [String.length]. rewrite string_length_app. cbn. lia.
Qed.
End QuoteRoundTrip.
