(* ===== verification/GoRegexp.v ===== *)
(** * Regular expressions

    The anchored patterns the packages compile with [regexp.MustCompile] are
    transcribed constructor by constructor and decided by Brzozowski
    derivatives.  [re_match_spec] relates the decision procedure to the usual
    language semantics. *)

From S2P Require Import Prelude GoStrings.

Inductive re : Type :=
| RNone
| REps
| RChar (accepts : ascii -> bool)
| RCat (a b : re)
| RAlt (a b : re)
| RStar (a : re).

(** Character classes: [[a-z]] is [rng 97 122], [[._-]] is [oneof "._-"]. *)
Definition rng (lo hi : nat) (c : ascii) : bool :=
  (lo <=? Ascii.nat_of_ascii c)%nat && (Ascii.nat_of_ascii c <=? hi)%nat.

Fixpoint oneof (s : string) (c : ascii) : bool :=
  match s with
  | EmptyString => false
  | String d s' => bool_decide (c = d) || oneof s' c
  end.

Definition cls_or (p q : ascii -> bool) (c : ascii) : bool := p c || q c.
Definition lowerC := rng 97 122.
Definition upperC := rng 65 90.
Definition digitC := rng 48 57.

Definition RPlus (r : re) : re := RCat r (RStar r).
Fixpoint RLit (s : string) : re :=
  match s with
  | EmptyString => REps
  | String c s' => RCat (RChar (fun d => bool_decide (d = c))) (RLit s')
  end.
Fixpoint RRep (n : nat) (r : re) : re :=
  match n with O => REps | S n' => RCat r (RRep n' r) end.

Fixpoint nullable (r : re) : bool :=
  match r with
  | RNone | RChar _ => false
  | REps | RStar _ => true
  | RCat a b => nullable a && nullable b
  | RAlt a b => nullable a || nullable b
  end.

Definition cat_smart (a b : re) : re :=
  match a, b with
  | RNone, _ | _, RNone => RNone
  | REps, b' => b'
  | a', b' => RCat a' b'
  end.

Definition alt_smart (a b : re) : re :=
  match a, b with
  | RNone, b' => b'
  | a', RNone => a'
  | a', b' => RAlt a' b'
  end.

Fixpoint deriv (c : ascii) (r : re) : re :=
  match r with
  | RNone | REps => RNone
  | RChar p => if p c then REps else RNone
  | RCat a b =>
      if nullable a then alt_smart (cat_smart (deriv c a) b) (deriv c b)
      else cat_smart (deriv c a) b
  | RAlt a b => alt_smart (deriv c a) (deriv c b)
  | RStar a => cat_smart (deriv c a) (RStar a)
  end.

(** [MatchString] of a pattern anchored at both ends. *)
Fixpoint re_match (r : re) (s : string) : bool :=
  match s with
  | EmptyString => nullable r
  | String c s' => re_match (deriv c r) s'
  end.

Inductive lang : re -> string -> Prop :=
| lang_eps : lang REps EmptyString
| lang_char p c : p c = true -> lang (RChar p) (String c EmptyString)
| lang_cat a b s t : lang a s -> lang b t -> lang (RCat a b) (s +:+ t)
| lang_alt_l a b s : lang a s -> lang (RAlt a b) s
| lang_alt_r a b s : lang b s -> lang (RAlt a b) s
| lang_star_nil a : lang (RStar a) EmptyString
| lang_star_cons a s t : lang a s -> lang (RStar a) t -> lang (RStar a) (s +:+ t).

#[local] Hint Constructors lang : core.

Lemma nullable_spec r : nullable r = true <-> lang r EmptyString.
Proof.
  split.
  - induction r; cbn; intros H; try done; auto.
    + apply andb_true_iff in H as [??]. apply (lang_cat _ _ EmptyString EmptyString); auto.
    + apply orb_true_iff in H as [?|?]; auto.
  - intros H. remember EmptyString as s eqn:Hs. induction H; cbn; try done.
    + destruct s; [|done]. rewrite string_app_nil_l in Hs. rewrite IHlang1, IHlang2; auto.
    + rewrite IHlang; auto.
    + rewrite IHlang; auto using orb_true_r.
Qed.

Lemma cat_smart_lang a b s : lang (cat_smart a b) s <-> lang (RCat a b) s.
Proof.
  split.
  - destruct a, b; cbn; intros H; try (by inversion H); try done;
      apply (lang_cat REps _ EmptyString s); auto.
  - intros H; inversion H as [| |? ? s1 t1 H1 H2| | | |]; subst.
    destruct a, b; cbn; auto; try (by inversion H1); try (by inversion H2);
      inversion H1; subst; done.
Qed.

Lemma alt_smart_lang a b s : lang (alt_smart a b) s <-> lang (RAlt a b) s.
Proof.
  split.
  - destruct a, b; cbn; intros H; try done; auto.
  - intros H; inversion H; subst; destruct a, b; cbn; auto; by inversion H3.
Qed.

Lemma lang_star_inv a c s :
  lang (RStar a) (String c s) ->
  exists s1 s2, s = s1 +:+ s2 /\ lang a (String c s1) /\ lang (RStar a) s2.
Proof.
  remember (RStar a) as r eqn:Hr. remember (String c s) as w eqn:Hw.
  intros H. induction H; try done. simplify_eq.
  destruct s0 as [|c0 s0].
  - by apply IHlang2.
  - rewrite string_app_cons in Hw. injection Hw as -> <-. eauto.
Qed.

Lemma deriv_spec c r s : lang (deriv c r) s <-> lang r (String c s).
Proof.
  revert s. induction r as [| |p|a IHa b IHb|a IHa b IHb|a IHa]; intros s; cbn [deriv].
  - split; inversion 1.
  - split; inversion 1.
  - destruct (p c) eqn:Hp; split; inversion 1; subst; auto. congruence.
  - assert (lang (RCat (deriv c a) b) s <->
      exists s1 s2, s = s1 +:+ s2 /\ lang a (String c s1) /\ lang b s2) as Hl.
    { split.
      - inversion 1; subst. do 2 eexists; split; [done|]. by rewrite <- IHa.
      - intros (s1 & s2 & -> & H1 & H2). constructor; [by apply IHa|done]. }
    assert (lang (RCat a b) (String c s) <->
      (exists s1 s2, s = s1 +:+ s2 /\ lang a (String c s1) /\ lang b s2)
      \/ (nullable a = true /\ lang b (String c s))) as Hr.
    { split.
      - remember (String c s) as w eqn:Hw.
        inversion 1 as [| |? ? s1 t1 H1 H2| | | |]; subst.
        destruct s1 as [|c1 s1].
        + right. rewrite nullable_spec. rewrite string_app_nil_l in *. by simplify_eq.
        + left. rewrite string_app_cons in *. simplify_eq. eauto.
      - intros [(s1 & s2 & -> & H1 & H2)|[H1 H2]].
        + by apply (lang_cat a b (String c s1) s2).
        + apply (lang_cat a b EmptyString); [by apply nullable_spec|done]. }
    rewrite Hr. destruct (nullable a).
    + rewrite alt_smart_lang. split.
      * inversion 1; subst; [left|right; split; [done|by apply IHb]].
        apply Hl. by apply cat_smart_lang.
      * intros [H|[_ H]]; [apply lang_alt_l, cat_smart_lang, Hl, H|].
        apply lang_alt_r. by apply IHb.
    + rewrite cat_smart_lang, Hl. split; [by left|by intros [?|[? _]]].
  - rewrite alt_smart_lang. split; inversion 1; subst.
    + apply lang_alt_l; by apply IHa.
    + apply lang_alt_r; by apply IHb.
    + apply lang_alt_l; by apply IHa.
    + apply lang_alt_r; by apply IHb.
  - rewrite cat_smart_lang. split.
    + inversion 1; subst. apply (lang_star_cons a (String c _)); [by apply IHa|done].
    + intros (s1 & s2 & -> & H1 & H2)%lang_star_inv. constructor; [by apply IHa|done].
Qed.

(** The matcher decides the language of the pattern. *)
Lemma re_match_spec r s : re_match r s = true <-> lang r s.
Proof.
  revert r; induction s as [|c s IH]; intros r; cbn.
  - apply nullable_spec.
  - by rewrite IH, deriv_spec.
Qed.

Lemma lang_star_chars p s : lang (RStar (RChar p)) s <-> all_chars p s = true.
Proof.
  split.
  - remember (RStar (RChar p)) as r eqn:Hr. intros H; induction H; simplify_eq; [done|].
    inversion H as [|? c Hp| | | | |]; subst.
    rewrite string_app_cons, string_app_nil_l. cbn. by rewrite Hp, IHlang2.
  - induction s as [|c s IH]; cbn; [constructor|].
    intros [H1 H2]%andb_true_iff. apply (lang_star_cons (RChar p) (String c EmptyString) s); auto.
Qed.

(** A string of a repeated class matches iff it has that length and every byte
    is in the class. *)
Lemma re_match_rep n p s :
  re_match (RRep n (RChar p)) s = true <-> String.length s = n /\ all_chars p s = true.
Proof.
  rewrite re_match_spec. revert s; induction n as [|n IH]; intros s; cbn.
  - split; [inversion 1; by subst|]. intros [? _]. destruct s; [constructor|done].
  - split.
    + inversion 1 as [| |? ? s1 t1 H1 H2| | | |]; subst. inversion H1 as [|? c Hp| | | | |]; subst.
      rewrite string_app_cons, string_app_nil_l. cbn.
      apply IH in H2 as [-> ->]. by rewrite Hp.
    + destruct s as [|c s]; [naive_solver|]. cbn. intros [Hl Hc].
      apply andb_true_iff in Hc as [Hc1 Hc2].
      apply (lang_cat _ _ (String c EmptyString) s); [by constructor|].
      apply IH. split; [lia|done].
Qed.

(** ** The patterns of the packages *)

(** [^[a-z][a-z0-9._-]*$] *)
Definition nameTailC : ascii -> bool := cls_or lowerC (cls_or digitC (oneof "._-")).
Definition queuePattern : re := RCat (RChar lowerC) (RStar (RChar nameTailC)).

(** [^[a-z][a-z0-9._-]*\.v[1-9][0-9]*$] *)
Definition namePattern : re :=
  RCat (RChar lowerC) (RCat (RStar (RChar nameTailC))
    (RCat (RLit ".v") (RCat (RChar (rng 49 57)) (RStar (RChar digitC))))).

(** [^[a-z_][a-z0-9_]*$] *)
Definition identifierPattern : re :=
  RCat (RChar (cls_or lowerC (oneof "_")))
       (RStar (RChar (cls_or lowerC (cls_or digitC (oneof "_"))))).

(** [^[0-9a-f]{64}$] *)
Definition hexLowerC : ascii -> bool := cls_or digitC (rng 97 102).
Definition hashedKeyPattern : re := RRep 64 (RChar hexLowerC).

Example namePattern_accepts :
  re_match namePattern "mail.send-welcome.v12" = true /\
  re_match namePattern "mail.v0" = false /\ re_match namePattern "v1" = false.
Proof. vm_compute. done. Qed.
