(* ===== verification/GoEncoding.v ===== *)
(** * Byte encodings: hexadecimal and unpadded base64

    [encoding/hex] and [encoding/base64] (the raw standard and raw URL alphabets,
    with and without [Strict]) on byte strings, with the round trip the sessions,
    tokens, CSRF tokens and password hashes depend on. *)

From S2P Require Import Prelude GoStrings.
Local Open Scope Z_scope.

Definition byte_val (c : ascii) : Z := Z.of_nat (Ascii.nat_of_ascii c).
Definition byte_of (z : Z) : ascii := Ascii.ascii_of_nat (Z.to_nat z).

Lemma byte_of_val c : byte_of (byte_val c) = c.
Proof. unfold byte_of, byte_val. by rewrite Nat2Z.id, ascii_nat_embedding. Qed.

Lemma byte_of_eq z c : z = byte_val c -> byte_of z = c.
Proof. intros ->. apply byte_of_val. Qed.

Lemma byte_val_range c : 0 <= byte_val c < 256.
Proof. unfold byte_val. pose proof (nat_ascii_bounded c). lia. Qed.

Lemma byte_val_of z : 0 <= z < 256 -> byte_val (byte_of z) = z.
Proof. intros H. unfold byte_of, byte_val. rewrite nat_ascii_embedding; lia. Qed.

(** ** Hexadecimal *)

Definition hex_digit (v : Z) : ascii :=
  if v <? 10 then byte_of (v + 48) else byte_of (v + 87).

(** [hex.EncodeToString] *)
Fixpoint hexEncode (s : string) : string :=
  match s with
  | EmptyString => EmptyString
  | String c s' =>
      String (hex_digit (byte_val c / 16)) (String (hex_digit (byte_val c mod 16)) (hexEncode s'))
  end.

(** Upper and lower case digits are accepted. *)
Definition hex_value (c : ascii) : option Z :=
  let n := byte_val c in
  if (48 <=? n) && (n <=? 57) then Some (n - 48)
  else if (97 <=? n) && (n <=? 102) then Some (n - 87)
  else if (65 <=? n) && (n <=? 70) then Some (n - 55)
  else None.

(** [hex.DecodeString] *)
Fixpoint hexDecode (s : string) : option string :=
  match s with
  | EmptyString => Some EmptyString
  | String a (String b s') =>
      match hex_value a, hex_value b, hexDecode s' with
      | Some x, Some y, Some rest => Some (String (byte_of (16 * x + y)) rest)
      | _, _, _ => None
      end
  | String _ EmptyString => None
  end.

Lemma small_cases (P : Z -> Prop) (n : nat) :
  Forall (fun i => P (Z.of_nat i)) (seq 0 n) -> forall z, 0 <= z < Z.of_nat n -> P z.
Proof.
  intros H z Hz. rewrite Forall_forall in H. replace z with (Z.of_nat (Z.to_nat z)) by lia.
  apply H, elem_of_seq. lia.
Qed.

Lemma hex_value_digit v : 0 <= v < 16 -> hex_value (hex_digit v) = Some v.
Proof.
  revert v. apply (small_cases (fun v => hex_value (hex_digit v) = Some v) 16).
  repeat constructor.
Qed.

Lemma hexDecode_Encode s : hexDecode (hexEncode s) = Some s.
Proof.
  induction s as [|c s IH]; [done|]. cbn [hexEncode hexDecode].
  pose proof (byte_val_range c). rewrite !hex_value_digit, IH.
  - do 2 f_equal. rewrite <- Z.div_mod by lia. apply byte_of_val.
  - by apply Z.mod_pos_bound.
  - split; [apply Z.div_pos; lia|apply Z.div_lt_upper_bound; lia].
Qed.

Lemma hexEncode_length s : String.length (hexEncode s) = (2 * String.length s)%nat.
Proof. induction s as [|c s IH]; [done|]. cbn [hexEncode String.length]. rewrite IH. lia. Qed.

(** ** Base64 without padding *)

(** The two alphabets differ in the last two symbols. *)
Inductive alphabet : Type := StdAlphabet | URLAlphabet.

Definition b64_char (a : alphabet) (v : Z) : ascii :=
  if v <? 26 then byte_of (v + 65)
  else if v <? 52 then byte_of (v + 71)
  else if v <? 62 then byte_of (v - 4)
  else match a with
       | StdAlphabet => if v =? 62 then "+"%char else "/"%char
       | URLAlphabet => if v =? 62 then "-"%char else "_"%char
       end.

Definition b64_value (a : alphabet) (c : ascii) : option Z :=
  let n := byte_val c in
  if (65 <=? n) && (n <=? 90) then Some (n - 65)
  else if (97 <=? n) && (n <=? 122) then Some (n - 71)
  else if (48 <=? n) && (n <=? 57) then Some (n + 4)
  else match a with
       | StdAlphabet => if n =? 43 then Some 62 else if n =? 47 then Some 63 else None
       | URLAlphabet => if n =? 45 then Some 62 else if n =? 95 then Some 63 else None
       end.

(** [EncodeToString] of [RawStdEncoding] / [RawURLEncoding]. *)
Fixpoint b64Encode (a : alphabet) (s : string) : string :=
  let e := b64_char a in
  match s with
  | EmptyString => EmptyString
  | String x EmptyString =>
      let x := byte_val x in
      String (e (x / 4)) (String (e (x mod 4 * 16)) EmptyString)
  | String x (String y EmptyString) =>
      let x := byte_val x in let y := byte_val y in
      String (e (x / 4)) (String (e (x mod 4 * 16 + y / 16))
        (String (e (y mod 16 * 4)) EmptyString))
  | String x (String y (String z s')) =>
      let x := byte_val x in let y := byte_val y in let z := byte_val z in
      String (e (x / 4)) (String (e (x mod 4 * 16 + y / 16))
        (String (e (y mod 16 * 4 + z / 64)) (String (e (z mod 64)) (b64Encode a s'))))
  end.

(** The decoder skips carriage returns and line feeds. *)
Fixpoint strip_newlines (s : string) : string :=
  match s with
  | EmptyString => EmptyString
  | String c s' =>
      if (byte_val c =? 10) || (byte_val c =? 13) then strip_newlines s'
      else String c (strip_newlines s')
  end.

(** With [strict], the unused bits of a final partial group must be zero. *)
Fixpoint b64Decode_quads (a : alphabet) (strict : bool) (s : string) : option string :=
  let d := b64_value a in
  match s with
  | EmptyString => Some EmptyString
  | String p (String q EmptyString) =>
      match d p, d q with
      | Some p, Some q =>
          if strict && negb (q mod 16 =? 0) then None
          else Some (String (byte_of (p * 4 + q / 16)) EmptyString)
      | _, _ => None
      end
  | String p (String q (String r EmptyString)) =>
      match d p, d q, d r with
      | Some p, Some q, Some r =>
          if strict && negb (r mod 4 =? 0) then None
          else Some (String (byte_of (p * 4 + q / 16))
                       (String (byte_of (q mod 16 * 16 + r / 4)) EmptyString))
      | _, _, _ => None
      end
  | String p (String q (String r (String t s'))) =>
      match d p, d q, d r, d t, b64Decode_quads a strict s' with
      | Some p, Some q, Some r, Some t, Some rest =>
          Some (String (byte_of (p * 4 + q / 16))
                 (String (byte_of (q mod 16 * 16 + r / 4))
                   (String (byte_of (r mod 4 * 64 + t)) rest)))
      | _, _, _, _, _ => None
      end
  | String _ EmptyString => None
  end.

Definition b64Decode (a : alphabet) (strict : bool) (s : string) : option string :=
  b64Decode_quads a strict (strip_newlines s).

Lemma b64_value_char a v : 0 <= v < 64 -> b64_value a (b64_char a v) = Some v.
Proof.
  revert v. apply (small_cases (fun v => b64_value a (b64_char a v) = Some v) 64).
  destruct a; repeat constructor.
Qed.

Lemma b64_char_not_newline a v :
  0 <= v < 64 -> (byte_val (b64_char a v) =? 10) || (byte_val (b64_char a v) =? 13) = false.
Proof.
  revert v.
  apply (small_cases (fun v => (byte_val (b64_char a v) =? 10) || (byte_val (b64_char a v) =? 13)
                               = false) 64).
  destruct a; repeat constructor.
Qed.

(** Induction three bytes at a time. *)
Lemma string_ind3 (P : string -> Prop) :
  P EmptyString -> (forall x, P (String x EmptyString)) ->
  (forall x y, P (String x (String y EmptyString))) ->
  (forall x y z s, P s -> P (String x (String y (String z s)))) ->
  forall s, P s.
Proof.
  intros H0 H1 H2 H3 s.
  assert (forall n s, (String.length s <= n)%nat -> P s) as H.
  { clear s. induction n as [|n IH]; intros s Hs.
    - destruct s; [done|cbn in Hs; lia].
    - destruct s as [|x [|y [|z s]]]; auto. apply H3, IH. cbn in Hs. lia. }
  by apply (H (String.length s)).
Qed.

Ltac byte_ranges :=
  repeat match goal with
  | c : ascii |- _ =>
      lazymatch goal with
      | _ : 0 <= byte_val c < 256 |- _ => fail
      | _ => pose proof (byte_val_range c)
      end
  end.

Lemma strip_newlines_b64 a s : strip_newlines (b64Encode a s) = b64Encode a s.
Proof.
  induction s as [|x|x y|x y z s IH] using string_ind3; [done|..]; byte_ranges;
    cbn [b64Encode strip_newlines];
    repeat rewrite b64_char_not_newline by
      (split; [Z.div_mod_to_equations; lia|Z.div_mod_to_equations; lia]);
    [done|done|by rewrite IH].
Qed.

(** Decoding reads back every encoded byte string, strictly or not. *)
Lemma b64Decode_Encode a strict s : b64Decode a strict (b64Encode a s) = Some s.
Proof.
  unfold b64Decode. rewrite strip_newlines_b64.
  induction s as [|x|x y|x y z s IH] using string_ind3; [done|..]; byte_ranges;
    cbn [b64Encode b64Decode_quads];
    repeat rewrite b64_value_char by
      (split; [Z.div_mod_to_equations; lia|Z.div_mod_to_equations; lia]).
  - replace (byte_val x mod 4 * 16 mod 16) with 0 by (Z.div_mod_to_equations; lia).
    rewrite andb_false_r. do 2 f_equal. apply byte_of_eq. Z.div_mod_to_equations; lia.
  - replace (byte_val y mod 16 * 4 mod 4) with 0 by (Z.div_mod_to_equations; lia).
    rewrite andb_false_r. do 2 f_equal; [|f_equal].
    + apply byte_of_eq. Z.div_mod_to_equations; lia.
    + apply byte_of_eq. Z.div_mod_to_equations; lia.
  - rewrite IH. do 2 f_equal; [|f_equal; [|f_equal]].
    + apply byte_of_eq. Z.div_mod_to_equations; lia.
    + apply byte_of_eq. Z.div_mod_to_equations; lia.
    + apply byte_of_eq. Z.div_mod_to_equations; lia.
Qed.

(** Length of an unpadded encoding: [RawURLEncoding.EncodedLen]. *)
Definition b64EncodedLen (n : Z) : Z := n / 3 * 4 + (n mod 3 * 8 + 5) / 6.

Lemma b64Encode_length a s : byte_len (b64Encode a s) = b64EncodedLen (byte_len s).
Proof.
  induction s as [|x|x y|x y z s IH] using string_ind3; [done..|].
  unfold byte_len in *. cbn [b64Encode String.length]. rewrite !Nat2Z.inj_succ, IH.
  unfold b64EncodedLen. Z.div_mod_to_equations; lia.
Qed.

(** A decodable hexadecimal string holds only hexadecimal digits. *)
Lemma hexDecode_chars s b :
  hexDecode s = Some b -> all_chars (fun c => bool_decide (is_Some (hex_value c))) s = true.
Proof.
  revert b.
  assert (forall n s b, (String.length s <= n)%nat -> hexDecode s = Some b ->
    all_chars (fun c => bool_decide (is_Some (hex_value c))) s = true) as H.
  { clear s. induction n as [|n IH]; intros s b Hs Hd.
    - destruct s; [done|cbn in Hs; lia].
    - destruct s as [|x [|y s]]; [done|done|]. cbn in Hd. cbn [all_chars].
      destruct (hex_value x) eqn:Hx; [|done]. destruct (hex_value y) eqn:Hy; [|done].
      destruct (hexDecode s) eqn:Hr; [|done].
      rewrite !bool_decide_eq_true_2 by eauto. cbn. apply (IH s s0); [cbn in Hs; lia|done]. }
  intros b. by apply (H (String.length s)).
Qed.

Lemma hexDecode_no_dot s b :
  hexDecode s = Some b -> all_chars (fun c => negb (bool_decide (c = "."%char))) s = true.
Proof.
  intros Hd. eapply all_chars_mono; [|by eapply hexDecode_chars].
  intros c Hc. apply negb_true_iff, bool_decide_eq_false_2. intros ->.
  vm_compute in Hc. discriminate.
Qed.
