(* ===== verification/GoJson.v ===== *)
(** * JSON syntax

    The validity check of [encoding/json] ([json.Valid]) the job and schedule
    stores apply to payloads, as a recursive-descent scanner over bytes. *)

From S2P Require Import Prelude GoStrings GoRegexp.
Local Open Scope Z_scope.

Definition isSpace (c : ascii) : bool :=
  (nat_of_ascii c =? 32)%nat || (nat_of_ascii c =? 9)%nat
  || (nat_of_ascii c =? 13)%nat || (nat_of_ascii c =? 10)%nat.

Fixpoint skip_ws (s : string) : string :=
  match s with
  | String c r => if isSpace c then skip_ws r else s
  | EmptyString => s
  end.

Definition is_char (n : nat) (c : ascii) : bool := (nat_of_ascii c =? n)%nat.
Definition hexC : ascii -> bool := cls_or digitC (cls_or (rng 97 102) (rng 65 70)).

(** The rest of a string literal after its opening quote. *)
Fixpoint json_string (s : string) : option string :=
  match s with
  | EmptyString => None
  | String c r =>
      if is_char 34 c then Some r
      else if is_char 92 c then
        match r with
        | String e r' =>
            if is_char 117 e then
              match r' with
              | String a (String b (String d (String f r''))) =>
                  if hexC a && hexC b && hexC d && hexC f then json_string r'' else None
              | _ => None
              end
            else if existsb (fun n => is_char n e) [98; 102; 110; 114; 116; 92; 47; 34]%nat
            then json_string r' else None
        | EmptyString => None
        end
      else if (nat_of_ascii c <? 32)%nat then None
      else json_string r
  end.

Fixpoint skip_digits (s : string) : string :=
  match s with
  | String c r => if digitC c then skip_digits r else s
  | EmptyString => s
  end.

(** At least one digit. *)
Definition digits1 (s : string) : option string :=
  match s with
  | String c r => if digitC c then Some (skip_digits r) else None
  | EmptyString => None
  end.

Definition json_exponent (s : string) : option string :=
  match s with
  | String c r =>
      if is_char 101 c || is_char 69 c then
        match r with
        | String g r' => if is_char 43 g || is_char 45 g then digits1 r' else digits1 r
        | EmptyString => None
        end
      else Some s
  | EmptyString => Some s
  end.

Definition json_fraction (s : string) : option string :=
  match s with
  | String c r =>
      if is_char 46 c
      then match digits1 r with Some r' => json_exponent r' | None => None end
      else json_exponent s
  | EmptyString => Some s
  end.

Definition json_number (s : string) : option string :=
  let integer (s : string) :=
    match s with
    | String c r => if is_char 48 c then json_fraction r
                    else if digitC c then json_fraction (skip_digits r) else None
    | EmptyString => None
    end in
  match s with
  | String c r => if is_char 45 c then integer r else integer s
  | EmptyString => None
  end.

Definition strip (prefix s : string) : option string :=
  if HasPrefix s prefix then Some (drop_string (String.length prefix) s) else None.

Inductive jmode : Type := JValue | JElements | JMembers.

Definition maxNestingDepth : Z := 10000.

(** Every recursive call follows a consumed byte or moves from a list to its
    element, so twice the length is enough fuel. *)
Fixpoint json_scan (fuel : nat) (m : jmode) (depth : Z) (s : string) : option string :=
  match fuel with
  | O => None
  | S fuel =>
    let s := skip_ws s in
    match m with
    | JValue =>
        match s with
        | EmptyString => None
        | String c r =>
            if is_char 123 c then
              if depth <=? 0 then None
              else match strip "}" (skip_ws r) with
                   | Some r' => Some r'
                   | None => json_scan fuel JMembers (depth - 1) r
                   end
            else if is_char 91 c then
              if depth <=? 0 then None
              else match strip "]" (skip_ws r) with
                   | Some r' => Some r'
                   | None => json_scan fuel JElements (depth - 1) r
                   end
            else if is_char 34 c then json_string r
            else if is_char 116 c then strip "true" s
            else if is_char 102 c then strip "false" s
            else if is_char 110 c then strip "null" s
            else json_number s
        end
    | JElements =>
        match json_scan fuel JValue depth s with
        | None => None
        | Some r =>
            match strip "," (skip_ws r) with
            | Some r' => json_scan fuel JElements depth r'
            | None => strip "]" (skip_ws r)
            end
        end
    | JMembers =>
        match s with
        | EmptyString => None
        | String c r =>
            if is_char 34 c then
              match json_string r with
              | None => None
              | Some r1 =>
                  match strip ":" (skip_ws r1) with
                  | None => None
                  | Some r2 =>
                      match json_scan fuel JValue depth r2 with
                      | None => None
                      | Some r3 =>
                          match strip "," (skip_ws r3) with
                          | Some r4 => json_scan fuel JMembers depth r4
                          | None => strip "}" (skip_ws r3)
                          end
                      end
                  end
              end
            else None
        end
    end
  end.

Definition json_Valid (s : string) : bool :=
  match json_scan (2 * String.length s + 2) JValue maxNestingDepth s with
  | Some r => bool_decide (skip_ws r = EmptyString)
  | None => false
  end.

Lemma json_Valid_nonempty s : json_Valid s = true -> s <> EmptyString.
Proof. by intros H ->. Qed.

Lemma json_Valid_examples :
  map json_Valid ["[1, -0.5e+3, [], {}]"; " null "; "{ }"; "[1,]"; "01"; "tru"; "[1 2]"; "-"]
  = [true; true; true; false; false; false; false; false].
Proof. vm_compute. reflexivity. Qed.
