(* ===== verification/Session.v ===== *)
(** * Server-side sessions

    Package [session]: the [Store] contract as a type class, the in-memory store
    ([memory.go]) and the manager that loads, saves, rotates, expires and destroys
    sessions behind a signed cookie ([session.go]). *)

From S2P Require Import Prelude GoStrings GoRegexp GoEncoding.
Local Open Scope Z_scope.

Definition ErrNotFound : error := Sentinel "session not found".
Definition ErrExists : error := Sentinel "session already exists".

(** [session.Store] *)
Class SessionStore (St : Type) : Type := {
  store_Get : string -> M St string;
  store_Create : string -> string -> time -> M St unit;
  store_Update : string -> string -> time -> M St unit;
  store_Rotate : string -> string -> string -> time -> M St unit;
  store_Delete : string -> M St unit
}.

(** ** The in-memory store *)

Record sessionRow : Type := { value : string; expiresAt : time }.

(** The entries and the number of times the clock was read. *)
Record MemorySessions : Type := { rows : gmap string sessionRow; reads : nat }.

Definition with_rows (m : gmap string sessionRow) (st : MemorySessions) : MemorySessions :=
  {| rows := m; reads := reads st |}.
Definition tick_store (st : MemorySessions) : MemorySessions :=
  {| rows := rows st; reads := S (reads st) |}.

Section memory_store.
(** [store.now], one reading per call. *)
Variable now_at : nat -> time.

Definition Mem_Get (id : string) : M MemorySessions string := fun st =>
  match rows st !! id with
  | None => (Err ErrNotFound, st)
  | Some entry =>
      let now := now_at (reads st) in let st := tick_store st in
      if negb (Before now (expiresAt entry))
      then (Err ErrNotFound, with_rows (delete id (rows st)) st)
      else (Ok (value entry), st)
  end.

Definition Mem_Create (id encoded : string) (expires : time) : M MemorySessions unit := fun st =>
  let fresh := {| value := encoded; expiresAt := expires |} in
  match rows st !! id with
  | Some entry =>
      let now := now_at (reads st) in let st := tick_store st in
      if Before now (expiresAt entry) then (Err ErrExists, st)
      else (Ok tt, with_rows (<[id := fresh]> (delete id (rows st))) st)
  | None => (Ok tt, with_rows (<[id := fresh]> (rows st)) st)
  end.

Definition Mem_Update (id encoded : string) (expires : time) : M MemorySessions unit := fun st =>
  match rows st !! id with
  | None => (Err ErrNotFound, st)
  | Some entry =>
      let now := now_at (reads st) in let st := tick_store st in
      if negb (Before now (expiresAt entry))
      then (Err ErrNotFound, with_rows (delete id (rows st)) st)
      else (Ok tt, with_rows (<[id := {| value := encoded; expiresAt := expires |}]> (rows st)) st)
  end.

Definition Mem_Rotate (oldID newID encoded : string) (expires : time)
    : M MemorySessions unit := fun st =>
  match rows st !! oldID with
  | None => (Err ErrNotFound, st)
  | Some oldEntry =>
      let now := now_at (reads st) in let st := tick_store st in
      if negb (Before now (expiresAt oldEntry))
      then (Err ErrNotFound, with_rows (delete oldID (rows st)) st)
      else
        let replace (st : MemorySessions) :=
          with_rows (delete oldID
            (<[newID := {| value := encoded; expiresAt := expires |}]> (rows st))) st in
        match rows st !! newID with
        | None => (Ok tt, replace st)
        | Some newEntry =>
            let now := now_at (reads st) in let st := tick_store st in
            if Before now (expiresAt newEntry) then (Err ErrExists, st)
            else (Ok tt, replace (with_rows (delete newID (rows st)) st))
        end
  end.

Definition Mem_Delete (id : string) : M MemorySessions unit := fun st =>
  (Ok tt, with_rows (delete id (rows st)) st).

Definition MemorySessions_store : SessionStore MemorySessions :=
  {| store_Get := Mem_Get; store_Create := Mem_Create; store_Update := Mem_Update;
     store_Rotate := Mem_Rotate; store_Delete := Mem_Delete |}.
End memory_store.

(** ** Manager data *)

Record Cookie : Type := {
  Name : string;
  Path : string;
  Domain : string;
  UnsafeAllowHTTP : bool;
  UnsafeAllowJavaScript : bool;
  SameSite : Z
}.

Record Lifetimes : Type := { IdleLifetime : duration; AbsoluteLifetime : duration }.

Record Manager : Type := { secret : string; cookie : Cookie; policy : Lifetimes }.

Definition SameSiteLaxMode : Z := 2.

Definition NewManagerWithPolicy (storePresent : bool) (secret : string) (c : Cookie)
    (p : Lifetimes) : result Manager :=
  if negb storePresent then Err (Errorf "session store is required")
  else if byte_len secret <? 32 then Err (Errorf "session secret must be at least 32 bytes")
  else if IdleLifetime p <=? 0 then Err (Errorf "session idle lifetime must be positive")
  else if AbsoluteLifetime p <? 0 then Err (Errorf "session absolute lifetime cannot be negative")
  else if (AbsoluteLifetime p >? 0) && (AbsoluteLifetime p <? IdleLifetime p)
  then Err (Errorf "session absolute lifetime cannot be shorter than idle lifetime")
  else Ok {| secret := secret;
             cookie := {| Name := if bool_decide (Name c = EmptyString)
                                  then "goforge_session" else Name c;
                          Path := if bool_decide (Path c = EmptyString) then "/" else Path c;
                          Domain := Domain c;
                          UnsafeAllowHTTP := UnsafeAllowHTTP c;
                          UnsafeAllowJavaScript := UnsafeAllowJavaScript c;
                          SameSite := if SameSite c =? 0 then SameSiteLaxMode else SameSite c |};
             policy := p |}.

Definition NewManager (storePresent : bool) (secret : string) (c : Cookie) (lifetime : duration)
    : result Manager :=
  let lifetime := if lifetime <=? 0 then 2 * Hour else lifetime in
  NewManagerWithPolicy storePresent secret c
    {| IdleLifetime := lifetime; AbsoluteLifetime := 0 |}.

(** The stored JSON document; a nil map is [None]. *)
Record payload : Type := {
  IssuedAt : time;
  Values : option (gmap string string);
  FlashValues : option (gmap string string)
}.

Record Session : Type := {
  id : string;
  persistedID : string;
  values : gmap string string;
  oldFlash : gmap string string;
  newFlash : gmap string string;
  issuedAt : time;
  createOnMissingRotation : bool
}.

(** A [Set-Cookie] header value: one [net/http] parses, or one it does not. *)
Record httpCookie : Type := {
  c_Name : string; c_Value : string; c_Path : string; c_Domain : string;
  c_Expires : time; c_MaxAge : Z; c_Secure : bool; c_HttpOnly : bool; c_SameSite : Z
}.

Inductive setCookieHeader : Type :=
| Parsed (c : httpCookie)
| Unparsed (raw : string).

(** The response: whether its header is out ([None]: the writer cannot tell) and
    its [Set-Cookie] values in order. *)
Record Response : Type := { Written : option bool; SetCookies : list setCookieHeader }.

(** What the manager gets from outside the package: [encoding/json] on payloads,
    HMAC-SHA-256, [time.Now] and [crypto/rand]. *)
Record runtime : Type := {
  marshal : payload -> result string;
  unmarshal : string -> result payload;
  hmac : string -> string -> string;
  now_reading : nat -> time;
  random_bytes : nat -> result string
}.

(** ** Session values *)

Definition Session_Put (key : string) (encoded : result string) (s : Session) : result Session :=
  match encoded with
  | Err e => Err (Wrapf "encode session value %q: %w" e)
  | Ok v => Ok {| id := id s; persistedID := persistedID s; values := <[key := v]> (values s);
                  oldFlash := oldFlash s; newFlash := newFlash s; issuedAt := issuedAt s;
                  createOnMissingRotation := createOnMissingRotation s |}
  end.

Definition Session_Get {A} (decode : string -> result A) (key : string) (s : Session)
    : bool * result (option A) :=
  let encoded := match values s !! key with
                 | Some v => Some v
                 | None => oldFlash s !! key
                 end in
  match encoded with
  | None => (false, Ok None)
  | Some v => match decode v with
              | Ok a => (true, Ok (Some a))
              | Err e => (true, Err (Wrapf "decode session value %q: %w" e))
              end
  end.

Definition Session_Forget (key : string) (s : Session) : Session :=
  {| id := id s; persistedID := persistedID s; values := delete key (values s);
     oldFlash := delete key (oldFlash s); newFlash := delete key (newFlash s);
     issuedAt := issuedAt s; createOnMissingRotation := createOnMissingRotation s |}.

Definition Session_Flash (key : string) (encoded : result string) (s : Session) : result Session :=
  match encoded with
  | Err e => Err (Wrapf "encode flash value %q: %w" e)
  | Ok v => Ok {| id := id s; persistedID := persistedID s; values := values s;
                  oldFlash := oldFlash s; newFlash := <[key := v]> (newFlash s);
                  issuedAt := issuedAt s; createOnMissingRotation := createOnMissingRotation s |}
  end.

(** ** Manager operations *)

Definition cookieMaxAge (remaining : duration) : Z :=
  let seconds := Z.quot remaining Second in
  if (remaining <=? 0) || (seconds =? 0) then -1 else seconds.

(** RFC 7230 token characters: a cookie with another name is never written. *)
Definition tokenC : ascii -> bool :=
  cls_or lowerC (cls_or upperC (cls_or digitC (oneof "!#$%&'*+-.^_`|~"))).
Definition isToken (s : string) : bool :=
  negb (bool_decide (s = EmptyString)) && all_chars tokenC s.

Section manager.
Context {St : Type} `{SessionStore St}.
Variable R : runtime.
Variable manager : Manager.

(** The world a request sees: the store, how often the clock and the entropy
    source were read, the response, and the request's session. *)
Record world : Type := {
  w_store : St;
  w_tick : nat;
  w_response : option Response;
  w_session : option Session
}.

Definition with_store (st : St) (w : world) : world :=
  {| w_store := st; w_tick := w_tick w; w_response := w_response w; w_session := w_session w |}.
Definition with_session (s : option Session) (w : world) : world :=
  {| w_store := w_store w; w_tick := w_tick w; w_response := w_response w; w_session := s |}.
Definition with_response (r : option Response) (w : world) : world :=
  {| w_store := w_store w; w_tick := w_tick w; w_response := r; w_session := w_session w |}.
Definition tick_world (w : world) : world :=
  {| w_store := w_store w; w_tick := S (w_tick w); w_response := w_response w;
     w_session := w_session w |}.

(** A store call inside a manager operation. *)
Definition on_store {A} (m : M St A) : M world A := fun w =>
  let '(r, st) := m (w_store w) in (r, with_store st w).

Definition manager_now : M world time := fun w =>
  (Ok (now_reading R (w_tick w)), tick_world w).

Definition newID : M world string := fun w =>
  match random_bytes R (w_tick w) with
  | Ok bytes => (Ok (hexEncode bytes), tick_world w)
  | Err e => (Err (Wrapf "generate session ID: %w" e), tick_world w)
  end.

Definition sign (sid : string) : string :=
  sid +:+ "." +:+ b64Encode URLAlphabet (hmac R (secret manager) sid).

Definition verify (cookieValue : string) : string :=
  let '(sid, signature, ok) := Cut cookieValue "."%char in
  if negb ok || negb (byte_len sid =? 64) then EmptyString
  else match b64Decode URLAlphabet false signature with
       | None => EmptyString
       | Some provided =>
           if negb (bool_decide (provided = hmac R (secret manager) sid)) then EmptyString
           else match hexDecode sid with
                | None => EmptyString
                | Some _ => sid
                end
       end.

Definition absoluteExpired (issued now : time) : bool :=
  (AbsoluteLifetime (policy manager) >? 0)
  && negb (Before now (Add issued (AbsoluteLifetime (policy manager)))).

Definition fresh : M world Session :=
  bindM newID (fun sid => bindM manager_now (fun now =>
  ret {| id := sid; persistedID := EmptyString; values := ∅; oldFlash := ∅; newFlash := ∅;
         issuedAt := now; createOnMissingRotation := false |})).

(** [store.Delete] where a missing row is not an error. *)
Definition delete_ignoring_missing (sid : string) (k : M world Session)
    (format : string) : M world Session := fun w =>
  match on_store (store_Delete sid) w with
  | (Err e, w') => if errors_Is e ErrNotFound then k w' else (Err (Wrapf format e), w')
  | (Ok _, w') => k w'
  end.

Definition Load (requestCookie : option string) : M world Session := fun w =>
  let sid := match requestCookie with Some v => verify v | None => EmptyString end in
  if bool_decide (sid = EmptyString) then fresh w
  else match on_store (store_Get sid) w with
       | (Err e, w) => if errors_Is e ErrNotFound then fresh w
                       else (Err (Wrapf "load session: %w" e), w)
       | (Ok encoded, w) =>
           match unmarshal R encoded with
           | Err e => (Err (Wrapf "decode session: %w" e), w)
           | Ok stored =>
               bindM manager_now (fun now =>
               if IsZero (IssuedAt stored) && (AbsoluteLifetime (policy manager) >? 0)
               then delete_ignoring_missing sid fresh "remove session without issuance time: %w"
               else
                 let issued := if IsZero (IssuedAt stored) then now else IssuedAt stored in
                 if absoluteExpired issued now
                 then delete_ignoring_missing sid fresh "remove absolutely expired session: %w"
                 else ret {| id := sid; persistedID := sid;
                             values := default ∅ (Values stored);
                             oldFlash := default ∅ (FlashValues stored);
                             newFlash := ∅; issuedAt := issued;
                             createOnMissingRotation := false |}) w
           end
       end.

(** The manager's own cookies are dropped; all other header values stay in order. *)
Definition keepHeader (h : setCookieHeader) : bool :=
  match h with
  | Parsed c => negb (bool_decide (c_Name c = Name (cookie manager)))
  | Unparsed _ => true
  end.

Definition removeCookie : M world unit := fun w =>
  match w_response w with
  | None => (Ok tt, w)
  | Some r => (Ok tt, with_response (Some {| Written := Written r;
                 SetCookies := filter (fun h => Is_true (keepHeader h)) (SetCookies r) |}) w)
  end.

(** [http.SetCookie]: a nil writer panics, an invalid name writes nothing. *)
Definition http_SetCookie (c : httpCookie) : M world unit := fun w =>
  match w_response w with
  | None => (Err (Errorf "panic: nil http.ResponseWriter"), w)
  | Some r =>
      if isToken (c_Name c)
      then (Ok tt, with_response (Some {| Written := Written r;
              SetCookies := SetCookies r ++ [Parsed c] |}) w)
      else (Ok tt, w)
  end.

Definition setCookie (c : httpCookie) : M world unit :=
  bindM removeCookie (fun _ => http_SetCookie c).

Definition emptied (s : Session) : Session :=
  {| id := EmptyString; persistedID := EmptyString; values := ∅; oldFlash := ∅; newFlash := ∅;
     issuedAt := zeroTime; createOnMissingRotation := false |}.

Definition invalidate : M world unit := fun w =>
  match w_session w with
  | None => (Ok tt, w)
  | Some s =>
      if bool_decide (id s = EmptyString) then (Ok tt, w)
      else
        let clear (w : world) := (Ok tt, with_session (Some (emptied s)) w) in
        if bool_decide (persistedID s = EmptyString) then clear w
        else match on_store (store_Delete (persistedID s)) w with
             | (Err e, w') => if errors_Is e ErrNotFound then clear w' else (Err e, w')
             | (Ok _, w') => clear w'
             end
  end.

Definition unixEpochPlusOne : time := 62135596801 * Second.

Definition expiredCookie : httpCookie :=
  let c := cookie manager in
  {| c_Name := Name c; c_Value := EmptyString; c_Path := Path c; c_Domain := Domain c;
     c_Expires := unixEpochPlusOne; c_MaxAge := -1; c_Secure := negb (UnsafeAllowHTTP c);
     c_HttpOnly := negb (UnsafeAllowJavaScript c); c_SameSite := SameSite c |}.

Definition expire : M world unit :=
  bindM invalidate (fun _ => setCookie expiredCookie).

Definition headerWritten (w : world) : bool :=
  match w_response w with
  | Some r => match Written r with Some b => b | None => false end
  | None => false
  end.

(** The deadline a save stores: the idle deadline, or the absolute one if earlier. *)
Definition saveDeadline (issued now : time) : time :=
  let idle := Add now (IdleLifetime (policy manager)) in
  if AbsoluteLifetime (policy manager) >? 0 then
    let absoluteDeadline := Add issued (AbsoluteLifetime (policy manager)) in
    if Before absoluteDeadline idle then absoluteDeadline else idle
  else idle.

Definition persist (s : Session) (encoded : string) (deadline : time) : M St unit := fun st =>
  if bool_decide (persistedID s = EmptyString) then store_Create (id s) encoded deadline st
  else if bool_decide (persistedID s = id s) then store_Update (id s) encoded deadline st
  else match store_Rotate (persistedID s) (id s) encoded deadline st with
       | (Err e, st') =>
           if createOnMissingRotation s && errors_Is e ErrNotFound
           then store_Create (id s) encoded deadline st' else (Err e, st')
       | r => r
       end.

Definition liveCookie (sid : string) (deadline now : time) : httpCookie :=
  let c := cookie manager in
  {| c_Name := Name c; c_Value := sign sid; c_Path := Path c; c_Domain := Domain c;
     c_Expires := deadline; c_MaxAge := cookieMaxAge (Sub deadline now);
     c_Secure := negb (UnsafeAllowHTTP c); c_HttpOnly := negb (UnsafeAllowJavaScript c);
     c_SameSite := SameSite c |}.

Definition stamped (now : time) (s : Session) : Session :=
  {| id := id s; persistedID := persistedID s; values := values s; oldFlash := oldFlash s;
     newFlash := newFlash s; issuedAt := if IsZero (issuedAt s) then now else issuedAt s;
     createOnMissingRotation := createOnMissingRotation s |}.

Definition saved (s : Session) : Session :=
  {| id := id s; persistedID := id s; values := values s; oldFlash := ∅;
     newFlash := newFlash s; issuedAt := issuedAt s; createOnMissingRotation := false |}.

Definition Save : M world unit := fun w =>
  match w_session w with
  | None => (Err (Errorf "cannot save an uninitialized session"), w)
  | Some s0 =>
      if bool_decide (id s0 = EmptyString)
      then (Err (Errorf "cannot save an uninitialized session"), w)
      else if headerWritten w
      then (Err (Errorf "cannot save session after response header is written"), w)
      else bindM manager_now (fun now w =>
        let s := stamped now s0 in
        let w := with_session (Some s) w in
        if absoluteExpired (issuedAt s) now then expire w
        else
          let deadline := saveDeadline (issuedAt s) now in
          match marshal R {| IssuedAt := issuedAt s; Values := Some (values s);
                             FlashValues := Some (newFlash s) |} with
          | Err e => (Err (Wrapf "encode session: %w" e), w)
          | Ok encoded =>
              match on_store (persist s encoded deadline) w with
              | (Err e, w) => (Err (Wrapf "save session: %w" e), w)
              | (Ok _, w) =>
                  setCookie (liveCookie (id s) deadline now) (with_session (Some (saved s)) w)
              end
          end) w
  end.

Definition regenerate (createOnMissing : bool) : M world unit := fun w =>
  match w_session w with
  | None => (Err (Errorf "cannot regenerate a nil session"), w)
  | Some s =>
      match newID w with
      | (Err e, w') => (Err e, w')
      | (Ok sid, w') =>
          (Ok tt, with_session (Some {| id := sid; persistedID := persistedID s;
                     values := values s; oldFlash := oldFlash s; newFlash := newFlash s;
                     issuedAt := issuedAt s; createOnMissingRotation := createOnMissing |}) w')
      end
  end.

Definition Regenerate : M world unit := regenerate false.
Definition RegenerateOrCreate : M world unit := regenerate true.

Definition Destroy : M world unit := fun w =>
  if headerWritten w
  then (Err (Errorf "cannot destroy session after response header is written"), w)
  else wrapM "destroy session: %w" expire w.

Definition Invalidate : M world unit := fun w =>
  if headerWritten w
  then (Err (Errorf "cannot invalidate session after response header is written"), w)
  else bindM (wrapM "invalidate session: %w" invalidate) (fun _ => removeCookie) w.
End manager.
Arguments world : clear implicits.
