(* ===== verification/RateLimit.v ===== *)
(** * Fixed-window throttling

    Package [security/ratelimit]: the bounded in-memory store ([memory.go]), the
    durable PostgreSQL store ([postgres/store.go]) and the limiter that enforces
    either of them ([ratelimit.go]).  Both stores are related to one abstract
    fixed-window counter, [spec_take], through the interface [FixedWindow]. *)

From S2P Require Import Prelude GoStrings GoRegexp.
Local Open Scope Z_scope.

(** ** Data *)

Record Policy : Type := { Limit : Z; Window : duration }.
Record Decision : Type := { Allowed : bool; RetryAfter : duration }.

#[export] Instance Decision_eq_dec : EqDecision Decision.
Proof. solve_decision. Defined.

Definition allow : Decision := {| Allowed := true; RetryAfter := 0 |}.
Definition deny (after : duration) : Decision := {| Allowed := false; RetryAfter := after |}.

Definition ErrInvalidConfiguration : error :=
  Sentinel "rate limiter configuration is invalid".

Record memoryEntry : Type := { count : Z; resetAt : time }.

Record MemoryStore : Type := {
  entries : gmap string memoryEntry;
  capacity : Z
}.

Definition with_entries (m : gmap string memoryEntry) (store : MemoryStore) : MemoryStore :=
  {| entries := m; capacity := capacity store |}.

Definition defaultCapacity : Z := 10000.

Definition NewMemoryStore (cap : Z) : MemoryStore :=
  {| entries := ∅; capacity := if cap <=? 0 then defaultCapacity else cap |}.

(** ** The in-memory store *)

Definition map_len {A} (m : gmap string A) : Z := Z.of_nat (size m).

(** The body of the loop over a full store: expired entries are deleted, the
    earliest reset among the remaining ones is kept (the zero time stands for
    "none yet"). *)
Definition sweep_step (now : time) (candidate : string) (entry : memoryEntry)
    (acc : gmap string memoryEntry * time) : gmap string memoryEntry * time :=
  let '(m, earliest) := acc in
  if negb (Before now (resetAt entry)) then (delete candidate m, earliest)
  else if IsZero earliest || Before (resetAt entry) earliest then (m, resetAt entry)
  else (m, earliest).

Definition sweep (now : time) (m : gmap string memoryEntry) : gmap string memoryEntry * time :=
  map_fold (sweep_step now) (m, zeroTime) m.

Definition MemoryStore_Take (ctx : option error) (key : string) (policy : Policy) (now : time)
    : M MemoryStore Decision := fun store =>
  match ctx with
  | Some err => (Err err, store)
  | None =>
    let fresh := {| count := 1; resetAt := Add now (Window policy) |} in
    match entries store !! key with
    | Some entry =>
        if negb (Before now (resetAt entry)) then
          (Ok allow, with_entries (<[key := fresh]> (entries store)) store)
        else if count entry >=? Limit policy then
          (Ok (deny (Sub (resetAt entry) now)), store)
        else
          (Ok allow,
           with_entries (<[key := {| count := (count entry +w 1)%go;
                                     resetAt := resetAt entry |}]> (entries store)) store)
    | None =>
        if map_len (entries store) >=? capacity store then
          let '(swept, earliest) := sweep now (entries store) in
          if map_len swept >=? capacity store then
            (Ok (deny (if negb (IsZero earliest) then Sub earliest now else Window policy)),
             with_entries swept store)
          else (Ok allow, with_entries (<[key := fresh]> swept) store)
        else (Ok allow, with_entries (<[key := fresh]> (entries store)) store)
    end
  end.

Definition MemoryStore_Reset (ctx : option error) (key : string) : M MemoryStore unit :=
  fun store =>
  match ctx with
  | Some err => (Err err, store)
  | None => (Ok tt, with_entries (delete key (entries store)) store)
  end.

(** ** The PostgreSQL store *)

Record limitRow : Type := { attempts : Z; reset_at : time; updated_at : time }.

(** The rate-limit table, and the number of statements the environment has
    answered so far. *)
Record pgLimits : Type := { limits : gmap string limitRow; limits_tick : nat }.

Record pgStore : Type := { pruneLimit : Z }.

Definition MaxAttempts : Z := 1000001.
Definition maximumPruneLimit : Z := 10000.
Definition defaultPruneLimit : Z := 100.
Definition maximumPolicy : Z := MaxAttempts - 1.
Definition maximumWindow : duration := 365 * 24 * Hour.

(** The CHECK constraints of the table. *)
Definition limitRow_check (key : string) (row : limitRow) : bool :=
  (byte_len key =? 64) && re_match hashedKeyPattern key
  && (1 <=? attempts row) && (attempts row <=? 1000001).

Definition check_violation : error := Errorf "new row violates check constraint".

(** [ORDER BY reset_at, key]. *)
Definition expired_le (a b : string * limitRow) : Prop :=
  (reset_at a.2 < reset_at b.2) \/
  (reset_at a.2 = reset_at b.2 /\ Is_true (String.leb a.1 b.1)).

#[export] Instance expired_le_dec : RelDecision expired_le.
Proof. intros a b; unfold expired_le; apply _. Defined.

(** The [Prune] statement: delete the [LIMIT] oldest expired counters. *)
Definition sql_prune (limit : Z) (now : time) (t : gmap string limitRow) : gmap string limitRow :=
  let expired := merge_sort expired_le
    (map_to_list (filter (fun kv => reset_at kv.2 <= now) t)) in
  foldr (fun kv t' => delete kv.1 t') t (take (Z.to_nat limit) expired).

(** The [Take] statement: an upsert with the database clock. *)
Definition sql_take (key : string) (windowMS limit : Z) (now : time)
    (t : gmap string limitRow) : result (Z * time * time) * gmap string limitRow :=
  let opened := now + windowMS * Millisecond in
  let row := match t !! key with
             | None => {| attempts := 1; reset_at := opened; updated_at := now |}
             | Some old =>
                 {| attempts := if reset_at old <=? now then 1
                                else Z.min (attempts old + 1) (limit + 1);
                    reset_at := if reset_at old <=? now then opened else reset_at old;
                    updated_at := now |}
             end in
  if limitRow_check key row
  then (Ok (attempts row, reset_at row, now), <[key := row]> t)
  else (Err check_violation, t).

Definition sql_reset (key : string) (t : gmap string limitRow) : gmap string limitRow :=
  delete key t.

(** One statement against the table: it fails as a whole, or runs at the
    database clock of its tick. *)
Definition on_limits {A} (E : env)
    (statement : time -> gmap string limitRow -> result A * gmap string limitRow)
    : M pgLimits A := fun db =>
  let n := limits_tick db in
  match fault E n with
  | Some err => (Err err, {| limits := limits db; limits_tick := S n |})
  | None =>
      let '(r, t) := statement (clock E n) (limits db) in
      (r, {| limits := t; limits_tick := S n |})
  end.

Definition validateKey (key : string) : option error :=
  if negb (byte_len key =? 64) || negb (re_match hashedKeyPattern key)
  then Some (Errorf "rate limit postgres: key must be a lowercase SHA-256 value")
  else None.

Definition validatePolicy (policy : Policy) : option error :=
  if (Limit policy <? 1) || (Limit policy >? maximumPolicy)
  then Some (Errorf "rate limit postgres: policy limit must be between 1 and %d")
  else if (Window policy <? Millisecond) || (Window policy >? maximumWindow)
          || negb (Z.rem (Window policy) Millisecond =? 0)
  then Some (Errorf "rate limit postgres: policy window must be a whole millisecond between 1ms and %s")
  else None.

(** The decision the store derives from the row the statement returned. *)
Definition pg_decide (policy : Policy) (row : Z * time * time) : result Decision :=
  let '(attempts, resetAt, databaseNow) := row in
  if (attempts <? 1) || (attempts >? Limit policy + 1) || IsZero resetAt || IsZero databaseNow
  then Err (Errorf "rate limit postgres: database returned invalid counter state")
  else if attempts <=? Limit policy then Ok allow
  else
    let retryAfter := Sub resetAt databaseNow in
    let retryAfter := if retryAfter <? 0 then 0 else retryAfter in
    if retryAfter >? (Window policy + Second)
    then Err (Errorf "rate limit postgres: database returned invalid reset time")
    else Ok (deny retryAfter).

Definition PgStore_Take (E : env) (store : option pgStore) (ctx : option error)
    (key : string) (policy : Policy) : M pgLimits Decision := fun db =>
  match store with
  | None => (Err (Errorf "rate limit postgres: store is not initialized"), db)
  | Some store =>
  match validateKey key with
  | Some err => (Err err, db)
  | None =>
  match validatePolicy policy with
  | Some err => (Err err, db)
  | None =>
  match ctx with
  | Some err => (Err err, db)
  | None =>
    bindM (wrapM "rate limit postgres: prune expired counters: %w"
             (on_limits E (fun now t => (Ok tt, sql_prune (pruneLimit store) now t)))) (fun _ =>
    bindM (wrapM "rate limit postgres: consume attempt: %w"
             (on_limits E (sql_take key (Milliseconds (Window policy)) (Limit policy)))) (fun row =>
    fun db' => (pg_decide policy row, db'))) db
  end end end end.

Definition PgStore_Reset (E : env) (store : option pgStore) (ctx : option error)
    (key : string) : M pgLimits unit := fun db =>
  match store with
  | None => (Err (Errorf "rate limit postgres: store is not initialized"), db)
  | Some _ =>
  match validateKey key with
  | Some err => (Err err, db)
  | None =>
  match ctx with
  | Some err => (Err err, db)
  | None => wrapM "rate limit postgres: reset counter: %w"
              (on_limits E (fun _ t => (Ok tt, sql_reset key t))) db
  end end end.

(** [validIdentifier] and the option that bounds pruning. *)
Definition validIdentifier (value : string) : bool :=
  (0 <? byte_len value) && (byte_len value <=? 63) && re_match identifierPattern value.

Definition WithPruneLimit (limit : Z) (config : pgStore) : result pgStore :=
  if (limit <? 1) || (limit >? maximumPruneLimit)
  then Err (Errorf "rate limit postgres: prune limit must be between 1 and %d")
  else Ok {| pruneLimit := limit |}.

(** ** The limiter *)

(** What the limiter needs of a store: package [ratelimit]'s [Store]. *)
Class RateStore (St : Type) : Type := {
  store_take : option error -> string -> Policy -> time -> M St Decision;
  store_reset : option error -> string -> M St unit
}.

#[export] Instance MemoryStore_store : RateStore MemoryStore :=
  {| store_take := MemoryStore_Take; store_reset := MemoryStore_Reset |}.

(** The durable store ignores the process clock: its time is the database's. *)
Definition PgStore_store (E : env) (store : option pgStore) : RateStore pgLimits :=
  {| store_take := fun ctx key policy _ => PgStore_Take E store ctx key policy;
     store_reset := PgStore_Reset E store |}.

(** [New]: the store is non-nil by construction. *)
Definition NewLimiter (policy : Policy) : result Policy :=
  if (Limit policy <? 1) || (Window policy <=? 0) then Err ErrInvalidConfiguration
  else Ok policy.

Section limiter.
Context {St : Type} `{RateStore St}.

(** A limiter is its policy; [None] is a nil limiter or one without a store. *)
Definition Limiter_Take (limiter : option Policy) (ctx : option error) (key : string) (now : time)
    : M St Decision :=
  match limiter with
  | None => throw ErrInvalidConfiguration
  | Some policy =>
      if bool_decide (TrimSpace key = EmptyString)
      then throw (Errorf "rate limit key is required")
      else wrapM "consume rate limit: %w" (store_take ctx key policy now)
  end.

Definition Limiter_Reset (limiter : option Policy) (ctx : option error) (key : string)
    : M St unit :=
  match limiter with
  | None => throw ErrInvalidConfiguration
  | Some _ =>
      if bool_decide (TrimSpace key = EmptyString)
      then throw (Errorf "rate limit key is required")
      else wrapM "reset rate limit: %w" (store_reset ctx key)
  end.

Definition retryAfterSeconds (d : duration) : Z :=
  let seconds := Z.quot ((d +w Second) -w 1)%go Second in
  if seconds <? 1 then 1 else seconds.

(** What [Enforce] does to the request: continue, or answer 429 with a
    [Retry-After] header. *)
Inductive verdict : Type :=
| Continue
| TooManyRequests (retryAfterHeader : string).

Definition Enforce (limiter : option Policy) (ctx : option error) (key : string) (now : time)
    : M St verdict :=
  bindM (Limiter_Take limiter ctx key now) (fun decision =>
  if Allowed decision then ret Continue
  else ret (TooManyRequests (Itoa (retryAfterSeconds (RetryAfter decision))))).

(** [Middleware]: the next handler runs only after the limiter let the request
    through. *)
Definition Middleware {R} (limiter : option Policy) (ctx : option error) (key : string)
    (now : time) (next : M St R) : M St (verdict * option R) :=
  bindM (Enforce limiter ctx key now) (fun v =>
  match v with
  | Continue => bindM next (fun r => ret (Continue, Some r))
  | TooManyRequests h => ret (TooManyRequests h, None)
  end).
End limiter.
