(* ===== verification/RateLimitFacts.v ===== *)
(** * Theorems on fixed-window throttling

    The capacity sweep, the exact number of admissions per window, the
    refinement of both stores to [spec_take] and the [Retry-After] header. *)

From S2P Require Import Prelude GoStrings GoRegexp RateLimit.
Local Open Scope Z_scope.

(** ** The sweep of a full store *)

Definition live (now : time) (e : memoryEntry) : bool := Before now (resetAt e).

Definition sweep_inv (now : time) (m0 : gmap string memoryEntry)
    (acc : gmap string memoryEntry * time) (seen : gmap string memoryEntry) : Prop :=
  (forall k, acc.1 !! k = match seen !! k with
                          | Some e => if live now e then m0 !! k else None
                          | None => m0 !! k
                          end) /\
  (acc.2 = 0 \/ (exists k e, seen !! k = Some e /\ live now e = true /\ acc.2 = resetAt e)) /\
  (forall k e, seen !! k = Some e -> live now e = true -> 0 < acc.2 <= resetAt e).

Lemma sweep_invariant now m0 m :
  0 <= now -> sweep_inv now m0 (map_fold (sweep_step now) (m0, zeroTime) m) m.
Proof.
  intros Hnow.
  apply (map_fold_weak_ind (fun acc seen => sweep_inv now m0 acc seen)).
  { split; [|split; [by left|]]; intros k; by rewrite lookup_empty. }
  intros i x seen [r earliest] Hi (Hmap & Hwit & Hmin); cbn in *.
  unfold sweep_step. destruct (Before now (resetAt x)) eqn:Hx; cbn.
  - assert (now < resetAt x) as Hlt by (by apply Z.ltb_lt in Hx).
    assert (forall a : gmap string memoryEntry, (forall k, a !! k = r !! k) -> forall k,
      a !! k = match <[i:=x]> seen !! k with
               | Some e => if live now e then m0 !! k else None | None => m0 !! k end) as Ha.
    { intros a Ha k. rewrite Ha, Hmap. destruct (decide (i = k)) as [->|Hne].
      - rewrite Hi, lookup_insert_eq. unfold live. by rewrite Hx.
      - by rewrite lookup_insert_ne. }
    destruct (IsZero earliest || Before (resetAt x) earliest) eqn:Hc;
      (split; [by apply Ha|]); cbn.
    + split; [right; exists i, x; by rewrite lookup_insert_eq|].
      intros k e Hk Hl. apply lookup_insert_Some in Hk as [[<- <-]|[Hne Hk]]; [lia|].
      pose proof (Hmin k e Hk Hl). unfold IsZero, Before, zeroTime in Hc.
      apply orb_true_iff in Hc as [Hc|Hc]; bool_to_prop; lia.
    + unfold IsZero, Before, zeroTime in Hc. bool_to_prop. split.
      * right. destruct Hwit as [?|(k & e & ? & ? & ?)]; [done|].
        exists k, e. rewrite lookup_insert_ne; [done|]. intros ->. by rewrite Hi in *.
      * intros k e Hk Hl. apply lookup_insert_Some in Hk as [[<- <-]|[Hne Hk]]; [|eauto].
        destruct Hwit as [?|(k & e & Hk & Hl' & ?)]; [done|].
        pose proof (Hmin k e Hk Hl'). lia.
  - split; [|split].
    + intros k. cbn [fst]. destruct (decide (i = k)) as [->|Hne].
      * rewrite lookup_delete_eq, lookup_insert_eq. unfold live. by rewrite Hx.
      * rewrite lookup_delete_ne, lookup_insert_ne by done. apply Hmap.
    + destruct Hwit as [?|(k & e & ? & ? & ?)]; [by left|right].
      exists k, e. rewrite lookup_insert_ne; [done|]. intros ->. by rewrite Hi in *.
    + intros k e Hk Hl. apply lookup_insert_Some in Hk as [[<- <-]|[Hne Hk]]; [|eauto].
      unfold live in Hl. congruence.
Qed.

(** What a sweep keeps: exactly the live entries. *)
Lemma sweep_lookup now m k :
  0 <= now ->
  (sweep now m).1 !! k = match m !! k with
                         | Some e => if live now e then Some e else None
                         | None => None
                         end.
Proof.
  intros Hnow. destruct (sweep_invariant now m m Hnow) as [H _].
  unfold sweep. rewrite H. destruct (m !! k) as [e|] eqn:Hk; [|done].
  by destruct (live now e).
Qed.

(** The earliest reset a sweep reports is the minimum over the kept entries. *)
Lemma sweep_earliest now m k e :
  0 <= now -> (sweep now m).1 !! k = Some e ->
  0 < (sweep now m).2 <= resetAt e /\
  exists k' e', (sweep now m).1 !! k' = Some e' /\ resetAt e' = (sweep now m).2.
Proof.
  intros Hnow Hk. rewrite sweep_lookup in Hk by done.
  destruct (m !! k) as [e0|] eqn:Hm; [|done]. destruct (live now e0) eqn:Hl; simplify_eq.
  pose proof (sweep_invariant now m m Hnow) as (_ & Hwit & Hmin). unfold sweep in *.
  split; [eauto|]. destruct Hwit as [H0|(k' & e' & Hk' & Hl' & He')].
  - pose proof (Hmin k e Hm Hl). lia.
  - exists k', e'. split; [|done].
    pose proof (sweep_lookup now m k' Hnow) as Hs. unfold sweep in Hs.
    by rewrite Hs, Hk', Hl'.
Qed.

Lemma sweep_size now m : 0 <= now -> map_len (sweep now m).1 <= map_len m.
Proof.
  intros Hnow. unfold map_len. apply inj_le, map_subseteq_size.
  apply map_subseteq_spec. intros k e. rewrite sweep_lookup by done.
  destruct (m !! k) as [e0|]; [|done]. destruct (live now e0); naive_solver.
Qed.

Lemma map_len_insert {A} (m : gmap string A) k x :
  map_len (<[k := x]> m) = if decide (is_Some (m !! k)) then map_len m else map_len m + 1.
Proof.
  unfold map_len. destruct (decide (is_Some (m !! k))) as [Hs|Hs].
  - rewrite map_size_insert_Some; [done|]. done.
  - rewrite map_size_insert_None; [lia|]. by apply eq_None_not_Some.
Qed.

(** ** The in-memory store as a transition system *)

Inductive op : Type :=
| OTake (ctx : option error) (key : string) (policy : Policy) (now : time)
| OReset (ctx : option error) (key : string).

Definition step (o : op) (st : MemoryStore) : bool * MemoryStore :=
  match o with
  | OTake ctx key policy now =>
      match MemoryStore_Take ctx key policy now st with
      | (Ok d, st') => (Allowed d, st')
      | (Err _, st') => (false, st')
      end
  | OReset ctx key => (false, (MemoryStore_Reset ctx key st).2)
  end.

(** Whether an operation is an attempt of key [k] that reaches the store. *)
Definition attempts_key (k : string) (o : op) : bool :=
  match o with
  | OTake None key _ _ => bool_decide (key = k)
  | _ => false
  end.

(** The number of admissions of key [k] along a sequence of operations. *)
Fixpoint admissions (k : string) (ops : list op) (st : MemoryStore) : Z :=
  match ops with
  | [] => 0
  | o :: ops' =>
      let '(allowed, st') := step o st in
      (if attempts_key k o && allowed then 1 else 0) + admissions k ops' st'
  end.

Definition attempted (k : string) (ops : list op) : Z :=
  Z.of_nat (length (filter (fun o => Is_true (attempts_key k o)) ops)).

Lemma attempted_cons k o ops :
  attempted k (o :: ops) = (if attempts_key k o then 1 else 0) + attempted k ops.
Proof.
  unfold attempted. rewrite filter_cons. destruct (attempts_key k o).
  - rewrite decide_True by done. cbn [length]. lia.
  - rewrite decide_False by (intros []). lia.
Qed.

(** The operations of other clients while key [k]'s window is open: any key,
    any policy, any time before the reset; key [k] itself only under [p]. *)
Definition during_window (k : string) (p : Policy) (reset : time) (o : op) : Prop :=
  match o with
  | OTake _ key policy now => 0 <= now < reset /\ (key = k -> policy = p)
  | OReset _ key => key <> k
  end.

Lemma lookup_with_entries m st k : entries (with_entries m st) !! k = m !! k.
Proof. done. Qed.

(** A live entry survives every operation on other keys: no eviction. *)
Lemma take_other_keeps ctx key policy now st k e :
  0 <= now -> key <> k -> entries st !! k = Some e -> live now e = true ->
  entries (MemoryStore_Take ctx key policy now st).2 !! k = Some e.
Proof.
  intros Hnow Hne Hk Hl.
  assert ((sweep now (entries st)).1 !! k = Some e) as Hs
    by (rewrite sweep_lookup, Hk, Hl; done).
  unfold MemoryStore_Take. destruct (sweep now (entries st)) as [swept earliest]; cbn in Hs.
  case_guards; rewrite ?lookup_with_entries; try done; by rewrite lookup_insert_ne.
Qed.

(** The three behaviours of an attempt on a key already in the store. *)
Lemma take_present key policy now st e :
  entries st !! key = Some e ->
  MemoryStore_Take None key policy now st =
  if negb (live now e) then
    (Ok allow, with_entries (<[key := {| count := 1; resetAt := Add now (Window policy) |}]>
                               (entries st)) st)
  else if count e >=? Limit policy then (Ok (deny (Sub (resetAt e) now)), st)
  else (Ok allow, with_entries (<[key := {| count := wrap64 (count e + 1);
                                            resetAt := resetAt e |}]> (entries st)) st).
Proof. intros H. unfold MemoryStore_Take. by rewrite H. Qed.

Lemma window_admissions k p ops :
  1 <= Limit p <= MaxInt64 ->
  forall st c reset,
  entries st !! k = Some {| count := c; resetAt := reset |} -> 1 <= c <= Limit p ->
  Forall (during_window k p reset) ops ->
  admissions k ops st = Z.min (attempted k ops) (Limit p - c).
Proof.
  intros HL. induction ops as [|o ops IH]; intros st c reset Hk Hc Hops.
  { change (attempted k []) with 0. cbn [admissions]. lia. }
  apply Forall_cons in Hops as [Ho Hops]. rewrite attempted_cons. cbn [admissions].
  assert (0 <= attempted k ops) by (unfold attempted; lia).
  destruct o as [ctx key policy now|ctx key]; cbn in Ho.
  - destruct Ho as [Hnow Hp]. set (e := {| count := c; resetAt := reset |}) in *.
    assert (live now e = true) as Hl by (apply Z.ltb_lt; subst e; cbn; lia).
    destruct (decide (key = k)) as [->|Hne].
    + specialize (Hp eq_refl) as ->. destruct ctx as [err|].
      { cbn [step MemoryStore_Take attempts_key andb].
        rewrite (IH st c reset) by done. lia. }
      cbn [step attempts_key]. rewrite (take_present k p now st e Hk), Hl.
      rewrite bool_decide_eq_true_2 by done. cbn [negb].
      destruct (count e >=? Limit p) eqn:Hge; subst e;
        cbn [count resetAt allow deny Allowed andb] in *; bool_to_prop.
      * rewrite (IH st c reset) by done. lia.
      * rewrite wrap64_id by (unfold in_int64, MinInt64, MaxInt64 in *; lia).
        rewrite (IH _ (c + 1) reset); [lia| |lia|done].
        by rewrite lookup_with_entries, lookup_insert_eq.
    + assert (entries (MemoryStore_Take ctx key policy now st).2 !! k = Some e) as Hk'
        by (apply take_other_keeps; [lia|done..]).
      assert (attempts_key k (OTake ctx key policy now) = false) as ->
        by (destruct ctx; [done|]; cbn; by rewrite bool_decide_eq_false_2).
      cbn [step andb].
      destruct (MemoryStore_Take ctx key policy now st) as [[d|err] st']; cbn [snd] in Hk';
        rewrite (IH st' c reset) by done; lia.
  - cbn [step attempts_key andb]. rewrite (IH _ c reset); [lia| |done|done].
    unfold MemoryStore_Reset. destruct ctx; cbn [snd]; [done|].
    by rewrite lookup_with_entries, lookup_delete_ne.
Qed.

(** An attempt that finds no live entry and is admitted opens a window. *)
Lemma take_opens k p now st st1 :
  (forall e, entries st !! k = Some e -> live now e = false) ->
  MemoryStore_Take None k p now st = (Ok allow, st1) ->
  entries st1 !! k = Some {| count := 1; resetAt := Add now (Window p) |}.
Proof.
  intros Hdead. unfold MemoryStore_Take.
  destruct (entries st !! k) as [e|] eqn:Hk.
  - specialize (Hdead e eq_refl). unfold live in Hdead. rewrite Hdead. cbn.
    intros [= <-]. by rewrite lookup_with_entries, lookup_insert_eq.
  - destruct (sweep now (entries st)) as [swept earliest].
    intros H. case_guards; by rewrite lookup_insert_eq.
Qed.

(** Reachable stores: any interleaving of operations with nonnegative times. *)
Inductive reachable (cap : Z) : MemoryStore -> Prop :=
| reach_new : reachable cap (NewMemoryStore cap)
| reach_take st ctx key policy now :
    reachable cap st -> 0 <= now ->
    reachable cap (MemoryStore_Take ctx key policy now st).2
| reach_reset st ctx key :
    reachable cap st -> reachable cap (MemoryStore_Reset ctx key st).2.

Definition bounded (st : MemoryStore) : Prop :=
  0 < capacity st /\ map_len (entries st) <= capacity st.

Lemma take_bounded ctx key policy now st :
  0 <= now -> bounded st -> bounded (MemoryStore_Take ctx key policy now st).2.
Proof.
  intros Hnow [Hpos Hlen]. pose proof (sweep_size now (entries st) Hnow) as Hsweep.
  unfold bounded, MemoryStore_Take.
  destruct ctx; [done|]. destruct (entries st !! key) as [e|] eqn:Hk.
  - case_guards; cbn; try done; rewrite map_len_insert, decide_True by (by rewrite Hk); done.
  - destruct (sweep now (entries st)) as [swept earliest]; cbn in Hsweep.
    case_guards; cbn; bool_to_prop; try lia; rewrite map_len_insert; case_decide; lia.
Qed.

Lemma reset_bounded ctx key st : bounded st -> bounded (MemoryStore_Reset ctx key st).2.
Proof.
  intros [Hpos Hlen]. unfold bounded, MemoryStore_Reset. destruct ctx; [done|]. cbn.
  split; [done|]. unfold map_len in *.
  pose proof (map_subseteq_size (delete key (entries st)) (entries st)
                (delete_subseteq _ _)). lia.
Qed.

(** ** The abstract counter and the refinement interface *)

(** One fixed window: the number of admissions so far and the reset instant. *)
Definition spec_take (p : Policy) (now : time) (w : option (Z * time)) : Decision * (Z * time) :=
  match w with
  | Some (c, reset) =>
      if now <? reset then
        if c >=? Limit p then (deny (reset - now), (c, reset)) else (allow, (c + 1, reset))
      else (allow, (1, now + Window p))
  | None => (allow, (1, now + Window p))
  end.

(** A window as an observer at [now] sees it: expired windows are invisible. *)
Definition observe (now : time) (w : option (Z * time)) : option (Z * time) :=
  match w with
  | Some (c, reset) => if now <? reset then Some (c, reset) else None
  | None => None
  end.

Lemma spec_take_observe p now w : spec_take p now (observe now w) = spec_take p now w.
Proof. destruct w as [[c r]|]; cbn; [|done]. destruct (now <? r) eqn:H; cbn; by rewrite ?H. Qed.

(** What a store promises its clients: whenever it is [ready] for an attempt, the
    attempt behaves as the abstract counter, and no other key's live window
    changes. *)
Class FixedWindow (St : Type) `{RateStore St} : Type := {
  window_of : Policy -> St -> string -> option (Z * time);
  ready : Policy -> string -> time -> St -> Prop;
  take_refines : forall p k now st, ready p k now st ->
    exists st',
      store_take None k p now st = (Ok (spec_take p now (window_of p st k)).1, st') /\
      window_of p st' k = Some (spec_take p now (window_of p st k)).2 /\
      (forall k', k' <> k -> observe now (window_of p st' k') = observe now (window_of p st k'))
}.

(** *** The in-memory store implements it *)

Definition mem_window (p : Policy) (st : MemoryStore) (k : string) : option (Z * time) :=
  (fun e => (count e, resetAt e)) <$> entries st !! k.

Definition mem_ready (p : Policy) (k : string) (now : time) (st : MemoryStore) : Prop :=
  0 <= now /\ Limit p <= MaxInt64 /\
  match entries st !! k with
  | Some e => 1 <= count e /\ resetAt e - now <= MaxInt64
  | None => map_len (sweep now (entries st)).1 < capacity st
  end.

Lemma mem_take_refines p k now st :
  mem_ready p k now st ->
  exists st',
    MemoryStore_Take None k p now st = (Ok (spec_take p now (mem_window p st k)).1, st') /\
    mem_window p st' k = Some (spec_take p now (mem_window p st k)).2 /\
    (forall k', k' <> k -> observe now (mem_window p st' k') = observe now (mem_window p st k')).
Proof.
  intros (Hnow & HL & Hr). unfold mem_window. destruct (entries st !! k) as [e|] eqn:Hk.
  - rewrite (take_present k p now st e Hk). destruct Hr as [Hc Hspan]. cbn.
    unfold live, Before. destruct (Z.ltb_spec now (resetAt e)); cbn.
    + destruct (Z.geb_spec (count e) (Limit p)); cbn.
      * exists st. rewrite Hk, Sub_exact by (unfold in_int64, MinInt64, MaxInt64 in *; lia). done.
      * eexists; split; [done|]. cbn [entries with_entries]. rewrite lookup_insert_eq. cbn.
        rewrite wrap64_id by (unfold in_int64, MinInt64, MaxInt64 in *; lia).
        split; [done|]. intros k' Hne. by rewrite lookup_insert_ne.
    + eexists; split; [done|]. cbn [entries with_entries]. rewrite lookup_insert_eq. cbn.
      split; [done|]. intros k' Hne. by rewrite lookup_insert_ne.
  - assert (forall k', observe now ((fun e => (count e, resetAt e)) <$> (sweep now (entries st)).1 !! k')
              = observe now ((fun e => (count e, resetAt e)) <$> entries st !! k')) as Hobs.
    { intros k'. rewrite sweep_lookup by done. destruct (entries st !! k') as [e|]; [|done].
      unfold live, Before. cbn. destruct (now <? resetAt e) eqn:Hlt; cbn; by rewrite ?Hlt. }
    unfold MemoryStore_Take. rewrite Hk. cbn.
    destruct (sweep now (entries st)) as [swept earliest]; cbn in Hr, Hobs.
    destruct (Z.geb_spec (map_len (entries st)) (capacity st)).
    + destruct (Z.geb_spec (map_len swept) (capacity st)); [lia|].
      eexists; split; [done|]. cbn [entries with_entries]. rewrite lookup_insert_eq. split; [done|].
      intros k' Hne. by rewrite lookup_insert_ne.
    + eexists; split; [done|]. cbn [entries with_entries]. rewrite lookup_insert_eq. split; [done|].
      intros k' Hne. by rewrite lookup_insert_ne.
Qed.

#[export] Instance MemoryStore_fixed_window : FixedWindow MemoryStore :=
  {| window_of := mem_window; ready := mem_ready; take_refines := mem_take_refines |}.

(** *** The PostgreSQL store implements it *)

(** The durable counter counts the refused attempt too; clients see at most
    [Limit]. *)
Definition pg_window (p : Policy) (db : pgLimits) (k : string) : option (Z * time) :=
  (fun r => (Z.min (attempts r) (Limit p), reset_at r)) <$> limits db !! k.

(** The statements succeed, the clock does not run backwards between them, and
    an open window was opened under a window no longer than the policy's. *)
Definition pg_ready (E : env) (p : Policy) (k : string) (now : time) (db : pgLimits) : Prop :=
  let n := limits_tick db in
  validateKey k = None /\ validatePolicy p = None /\
  fault E n = None /\ fault E (S n) = None /\
  clock E n <= now /\ clock E (S n) = now /\ 0 < now /\
  match limits db !! k with
  | Some r => 1 <= attempts r /\ reset_at r - now <= Window p + Second
  | None => True
  end.

Lemma prune_lookup limit now t k :
  sql_prune limit now t !! k = t !! k \/
  (sql_prune limit now t !! k = None /\ exists r, t !! k = Some r /\ reset_at r <= now).
Proof.
  unfold sql_prune.
  set (l := take _ _).
  assert (forall kv, kv ∈ l -> t !! kv.1 = Some kv.2 /\ reset_at kv.2 <= now) as Hl.
  { intros [k0 r] Hin. subst l. apply elem_of_take in Hin as (i & Hin & _).
    apply list_elem_of_lookup_2 in Hin. rewrite merge_sort_Permutation in Hin.
    apply elem_of_map_to_list in Hin. by apply map_lookup_filter_Some in Hin. }
  clearbody l. induction l as [|[k0 r] l IH]; cbn; [by left|].
  assert (forall kv, kv ∈ l -> t !! kv.1 = Some kv.2 /\ reset_at kv.2 <= now) as Hl'.
  { intros kv Hin. apply Hl. by apply list_elem_of_further. }
  destruct (decide (k0 = k)) as [->|Hne].
  - right. rewrite lookup_delete_eq. split; [done|].
    destruct (Hl (k, r)) as [??]; [by apply list_elem_of_here|]. eauto.
  - rewrite lookup_delete_ne by done. by apply IH.
Qed.

Lemma prune_observe p limit now now' t k :
  now <= now' ->
  observe now' ((fun r => (Z.min (attempts r) (Limit p), reset_at r)) <$> sql_prune limit now t !! k)
  = observe now' ((fun r => (Z.min (attempts r) (Limit p), reset_at r)) <$> t !! k).
Proof.
  intros Hle. destruct (prune_lookup limit now t k) as [->|(-> & r & -> & Hr)]; [done|].
  cbn. destruct (Z.ltb_spec now' (reset_at r)); [lia|done].
Qed.

Lemma window_ms_exact p :
  validatePolicy p = None -> Milliseconds (Window p) * Millisecond = Window p.
Proof.
  unfold validatePolicy, Milliseconds. intros H. case_guards. bool_to_prop.
  pose proof (Z.quot_rem' (Window p) Millisecond). lia.
Qed.

Lemma validPolicy_range p :
  validatePolicy p = None -> 1 <= Limit p <= 1000000 /\ 0 < Window p <= maximumWindow.
Proof.
  unfold validatePolicy, maximumPolicy, MaxAttempts, Millisecond. intros H.
  case_guards. bool_to_prop. lia.
Qed.

Lemma validKey_check k r :
  validateKey k = None -> 1 <= attempts r <= 1000001 -> limitRow_check k r = true.
Proof.
  unfold validateKey, limitRow_check. intros H [H1 H2]. case_guards. bool_to_prop.
  repeat match goal with H : ?x = true |- context [?x] => rewrite H end.
  rewrite (proj2 (Z.eqb_eq _ _)) by done.
  by rewrite (proj2 (Z.leb_le _ _) H1), (proj2 (Z.leb_le _ _) H2).
Qed.

(** The upsert and the decision derived from its row follow the counter. *)
Lemma sql_take_refines p k now t :
  validateKey k = None -> validatePolicy p = None -> 0 < now ->
  (forall r, t !! k = Some r -> 1 <= attempts r /\ reset_at r - now <= Window p + Second) ->
  exists row t',
    sql_take k (Milliseconds (Window p)) (Limit p) now t = (Ok row, t') /\
    let w := (fun r => (Z.min (attempts r) (Limit p), reset_at r)) <$> t !! k in
    pg_decide p row = Ok (spec_take p now w).1 /\
    ((fun r => (Z.min (attempts r) (Limit p), reset_at r)) <$> t' !! k) = Some (spec_take p now w).2 /\
    (forall k', k' <> k -> t' !! k' = t !! k').
Proof.
  intros Hkey Hpol Hnow Hrow.
  pose proof (window_ms_exact p Hpol) as Hms. pose proof (validPolicy_range p Hpol) as [HL HW].
  unfold maximumWindow, Hour, Second in *.
  unfold sql_take. rewrite Hms.
  set (row := match t !! k with Some _ => _ | None => _ end).
  assert (1 <= attempts row <= Limit p + 1 /\ now < reset_at row /\
          reset_at row - now <= Window p + 1000000000) as (Ha & Hr & Hd).
  { subst row. destruct (t !! k) as [old|]; cbn; [|lia].
    destruct (Hrow old eq_refl). destruct (Z.leb_spec (reset_at old) now); lia. }
  rewrite (validKey_check k row Hkey) by lia.
  do 2 eexists; split; [done|]. cbn zeta. rewrite lookup_insert_eq.
  split; [|split; [|intros k' Hne; by rewrite lookup_insert_ne]].
  - unfold pg_decide, IsZero, zeroTime. rewrite Sub_exact by (unfold in_int64, MinInt64, MaxInt64; lia).
    destruct (Z.ltb_spec (attempts row) 1); [lia|].
    destruct (Z.gtb_spec (attempts row) (Limit p + 1)); [lia|].
    destruct (Z.eqb_spec (reset_at row) 0); [lia|]. destruct (Z.eqb_spec now 0); [lia|]. cbn [orb].
    destruct (Z.leb_spec (attempts row) (Limit p)).
    + f_equal. subst row. destruct (t !! k) as [old|]; cbn in *; [|done].
      destruct (Hrow old eq_refl). destruct (Z.leb_spec (reset_at old) now).
      * by rewrite (proj2 (Z.ltb_ge _ _)).
      * rewrite (proj2 (Z.ltb_lt _ _)) by done.
        destruct (Z.geb_spec (Z.min (attempts old) (Limit p)) (Limit p)); [lia|done].
    + destruct (Z.ltb_spec (reset_at row - now) 0); [lia|]. unfold Second.
      destruct (Z.gtb_spec (reset_at row - now) (Window p + 1000000000)); [lia|]. f_equal.
      subst row. destruct (t !! k) as [old|]; cbn in *; [|lia].
      destruct (Hrow old eq_refl). destruct (Z.leb_spec (reset_at old) now); [lia|].
      rewrite (proj2 (Z.ltb_lt _ _)) by done.
      destruct (Z.geb_spec (Z.min (attempts old) (Limit p)) (Limit p)); [done|lia].
  - cbn. f_equal. subst row. destruct (t !! k) as [old|]; cbn in *; [|f_equal; lia].
    destruct (Hrow old eq_refl). destruct (Z.leb_spec (reset_at old) now).
    + rewrite (proj2 (Z.ltb_ge _ _)) by done. cbn. f_equal; lia.
    + rewrite (proj2 (Z.ltb_lt _ _)) by done.
      destruct (Z.geb_spec (Z.min (attempts old) (Limit p)) (Limit p)); cbn; f_equal; lia.
Qed.

Lemma pg_take_refines E s p k now db :
  pg_ready E p k now db ->
  exists db',
    PgStore_Take E (Some s) None k p db = (Ok (spec_take p now (pg_window p db k)).1, db') /\
    pg_window p db' k = Some (spec_take p now (pg_window p db k)).2 /\
    (forall k', k' <> k -> observe now (pg_window p db' k') = observe now (pg_window p db k')).
Proof.
  intros (Hkey & Hpol & Hf0 & Hf1 & Hc0 & Hc1 & Hnow & Hrow).
  unfold PgStore_Take, bindM, wrapM, on_limits. rewrite Hkey, Hpol, Hf0. cbn. rewrite Hf1, Hc1.
  set (t := sql_prune (pruneLimit s) (clock E (limits_tick db)) (limits db)).
  destruct (sql_take_refines p k now t Hkey Hpol Hnow) as (row & t' & Ht & Hdec & Hwin & Hother).
  { intros r Hr. subst t.
    destruct (prune_lookup (pruneLimit s) (clock E (limits_tick db)) (limits db) k)
      as [Heq|(Hnone & _)]; [|congruence].
    rewrite Heq in Hr. by rewrite Hr in Hrow. }
  rewrite Ht. cbn. eexists; split; [|split].
  - rewrite Hdec. rewrite <- spec_take_observe. subst t.
    rewrite prune_observe by done. by rewrite spec_take_observe.
  - unfold pg_window. cbn. rewrite Hwin. f_equal. rewrite <- spec_take_observe. subst t.
    rewrite prune_observe by done. by rewrite spec_take_observe.
  - intros k' Hne. unfold pg_window. cbn. rewrite Hother by done. subst t.
    by apply prune_observe.
Qed.

#[export] Instance PgStore_fixed_window E s : @FixedWindow pgLimits (PgStore_store E (Some s)) :=
  @Build_FixedWindow pgLimits (PgStore_store E (Some s)) pg_window (pg_ready E)
    (fun p k now db H => pg_take_refines E s p k now db H).

(** ** Clients of the interface *)

Section clients.
Context {St : Type} `{FixedWindow St}.

(** [Enforce] answers 429 exactly when the counter refuses. *)
Lemma enforce_spec p k now st :
  TrimSpace k <> EmptyString -> ready p k now st ->
  let d := (spec_take p now (window_of p st k)).1 in
  exists st',
    Enforce (Some p) None k now st =
      (Ok (if Allowed d then Continue
           else TooManyRequests (Itoa (retryAfterSeconds (RetryAfter d)))), st') /\
    window_of p st' k = Some (spec_take p now (window_of p st k)).2.
Proof.
  intros Hk Hr. destruct (take_refines p k now st Hr) as (st' & Htake & Hwin & _).
  exists st'. split; [|done]. unfold Enforce, bindM, Limiter_Take.
  rewrite bool_decide_eq_false_2 by done. unfold wrapM. rewrite Htake.
  by destruct (Allowed _).
Qed.
End clients.

(** Rounding of [Retry-After]: the least whole number of seconds that covers the
    wait, and at least one. *)
Lemma retryAfterSeconds_ceil d :
  in_int64 d -> d <= MaxInt64 - Second ->
  let s := retryAfterSeconds d in
  1 <= s /\ d <= s * Second /\ (1 < s -> (s - 1) * Second < d).
Proof.
  unfold in_int64, retryAfterSeconds. intros Hd Hmax.
  unfold MinInt64, MaxInt64, Second in *.
  rewrite (wrap64_id (d + 1000000000)) by (unfold in_int64, MinInt64, MaxInt64; lia).
  rewrite wrap64_id by (unfold in_int64, MinInt64, MaxInt64; lia).
  pose proof (Z.quot_rem' (d + 1000000000 - 1) 1000000000) as Hqr.
  destruct (Z.le_gt_cases 0 (d + 1000000000 - 1)).
  - assert (0 <= Z.rem (d + 1000000000 - 1) 1000000000 < 1000000000)
      by (apply Z.rem_bound_pos; lia).
    destruct (Z.ltb_spec (Z.quot (d + 1000000000 - 1) 1000000000) 1); cbn zeta; lia.
  - pose proof (Z.rem_bound_pos_neg (d + 1000000000 - 1) 1000000000 ltac:(lia) ltac:(lia)).
    destruct (Z.ltb_spec (Z.quot (d + 1000000000 - 1) 1000000000) 1); cbn zeta; [|lia].
    split; [lia|]. split; [|lia]. lia.
Qed.

(** ** Properties *)

(** C31. Fixed-window exactness.  Once an admitted attempt of key [k] has opened a
    window at [t0], then whatever the interleaving of other clients' attempts
    (other keys, other policies, capacity sweeps, cancelled contexts, resets of
    other keys) before the reset instant, key [k] is admitted exactly
    [min (attempts) Limit] times in that window: never more than the limit, and
    never refused below it. *)
Theorem memory_window_exact k p t0 st st1 ops :
  1 <= Limit p <= MaxInt64 ->
  (forall e, entries st !! k = Some e -> live t0 e = false) ->
  MemoryStore_Take None k p t0 st = (Ok allow, st1) ->
  Forall (during_window k p (Add t0 (Window p))) ops ->
  1 + admissions k ops st1 = Z.min (1 + attempted k ops) (Limit p).
Proof.
  intros HL Hdead Htake Hops.
  rewrite (window_admissions k p ops HL st1 1 (Add t0 (Window p)));
    [unfold attempted; lia|by apply (take_opens k p t0 st)|lia|done].
Qed.

Definition key_a : string := "alice".
Definition key_b : string := "bob".
Definition two_per_minute : Policy := {| Limit := 2; Window := Minute |}.

Lemma memory_window_exact_witness :
  1 + admissions key_a
        [OTake None key_b two_per_minute (Second + 1); OTake None key_a two_per_minute (2 * Second);
         OReset None key_b; OTake None key_a two_per_minute (3 * Second)]
        (MemoryStore_Take None key_a two_per_minute Second (NewMemoryStore 1)).2 = 2.
Proof.
  rewrite (memory_window_exact key_a two_per_minute Second (NewMemoryStore 1)
             (MemoryStore_Take None key_a two_per_minute Second (NewMemoryStore 1)).2
             [OTake None key_b two_per_minute (Second + 1); OTake None key_a two_per_minute (2 * Second);
              OReset None key_b; OTake None key_a two_per_minute (3 * Second)]).
  - vm_compute. reflexivity.
  - vm_compute. split; discriminate.
  - intros e He. vm_compute in He. discriminate.
  - vm_compute. reflexivity.
  - repeat constructor; vm_compute; try discriminate; try reflexivity; intros; congruence.
Defined.

(** Bounded memory and no key-spray bypass.  In every reachable store the
    number of counters never exceeds the configured (positive) capacity, and when
    the store is full of live windows an attempt with an unseen key is refused
    without changing any counter: live windows are never evicted.  The announced
    wait is the time until the earliest of those windows resets. *)
Theorem memory_capacity_and_no_eviction cap st key policy now :
  reachable cap st -> 0 <= now ->
  0 < capacity st /\ map_len (entries st) <= capacity st /\
  (entries st !! key = None ->
   (forall k e, entries st !! k = Some e -> live now e = true) ->
   capacity st <= map_len (entries st) ->
   exists k e,
     entries st !! k = Some e /\
     (forall k' e', entries st !! k' = Some e' -> resetAt e <= resetAt e') /\
     MemoryStore_Take None key policy now st = (Ok (deny (Sub (resetAt e) now)), st)).
Proof.
  intros Hreach Hnow.
  assert (bounded st) as [Hpos Hlen].
  { induction Hreach; [|by apply take_bounded; auto|by apply reset_bounded; auto].
    unfold bounded, NewMemoryStore, map_len; cbn. rewrite map_size_empty.
    destruct (Z.leb_spec cap 0); unfold defaultCapacity; lia. }
  split; [done|]. split; [done|]. intros Hnone Hlive Hfull.
  assert ((sweep now (entries st)).1 = entries st) as Hid.
  { apply map_eq. intros k. rewrite sweep_lookup by done.
    destruct (entries st !! k) as [e|] eqn:Hk; [|done]. by rewrite (Hlive k e Hk). }
  assert (exists k e, entries st !! k = Some e) as (k0 & e0 & Hk0).
  { apply map_choose. intros Hempty. unfold map_len in *. rewrite Hempty in Hfull.
    rewrite map_size_empty in Hfull. lia. }
  rewrite <- Hid in Hk0.
  destruct (sweep_earliest now (entries st) k0 e0 Hnow Hk0) as [Hpos0 (k & e & Hk & He)].
  exists k, e. rewrite Hid in Hk. split; [done|]. split.
  { intros k' e' Hk'. rewrite <- Hid in Hk'.
    destruct (sweep_earliest now (entries st) k' e' Hnow Hk') as [? _]. lia. }
  unfold MemoryStore_Take. rewrite Hnone.
  destruct (sweep now (entries st)) as [swept earliest]; cbn in *. subst swept.
  rewrite (proj2 (Z.geb_le _ _)) by done. rewrite He. unfold IsZero, zeroTime.
  destruct (Z.eqb_spec earliest 0); [lia|]. cbn. by destruct st.
Qed.

Lemma memory_capacity_and_no_eviction_witness :
  exists k e, key_a = k /\
    MemoryStore_Take None key_b two_per_minute (2 * Second)
      (MemoryStore_Take None key_a two_per_minute Second (NewMemoryStore 1)).2
    = (Ok (deny (Sub (resetAt e) (2 * Second))),
       (MemoryStore_Take None key_a two_per_minute Second (NewMemoryStore 1)).2).
Proof.
  destruct (memory_capacity_and_no_eviction 1
    (MemoryStore_Take None key_a two_per_minute Second (NewMemoryStore 1)).2
    key_b two_per_minute (2 * Second)) as (_ & _ & H).
  - apply reach_take; [apply reach_new|vm_compute; discriminate].
  - vm_compute. discriminate.
  - destruct H as (k & e & Hk & _ & Heq).
    + vm_compute. reflexivity.
    + intros k e Hk. change (entries _) with ({[key_a := {| count := 1; resetAt := Add Second Minute |}]} : gmap string memoryEntry) in Hk.
      apply lookup_singleton_Some in Hk as [<- <-]. vm_compute. reflexivity.
    + vm_compute. discriminate.
    + exists key_a, e. split; [reflexivity|exact Heq].
Defined.

(** C40. The durable store refines the in-memory one, where both can answer.  Whenever a
    PostgreSQL counter table and an in-memory store show the same live window for a key at
    the instant of the attempt, the two stores take the same decision (same admission, same
    [RetryAfter]) and hold the same window for that key afterwards; and every other key that
    showed the same live window in both still does.  The two differ outside the conditions
    the statement makes.  For the in-memory store: the key has an entry, or there is room for
    one below the capacity once expired entries are swept (at capacity this store denies an
    unseen key), its counter is at least 1, and neither the limit nor the time left in the
    window overflows 64 bits.  For PostgreSQL: the key is a lowercase SHA-256 value, the policy
    has a limit and a window of whole milliseconds within the store's bounds, neither
    statement fails, the database clock does not run backwards from the pruning to the
    counting and reads at the latter what the in-memory store's clock reads, and a row that is
    kept counts at least 1 and ends at most one second after the policy's window would. *)
Theorem pg_store_agrees_with_memory E s p k now st db :
  mem_ready p k now st -> pg_ready E p k now db ->
  observe now (mem_window p st k) = observe now (pg_window p db k) ->
  exists d st' db',
    MemoryStore_Take None k p now st = (Ok d, st') /\
    PgStore_Take E (Some s) None k p db = (Ok d, db') /\
    mem_window p st' k = pg_window p db' k /\
    (forall k', observe now (mem_window p st k') = observe now (pg_window p db k') ->
       observe now (mem_window p st' k') = observe now (pg_window p db' k')).
Proof.
  intros Hm Hp Hsame.
  destruct (mem_take_refines p k now st Hm) as (st' & H1 & H2 & Hrest1).
  destruct (pg_take_refines E s p k now db Hp) as (db' & H3 & H4 & Hrest2).
  assert (spec_take p now (mem_window p st k) = spec_take p now (pg_window p db k)) as Heq.
  { rewrite <- spec_take_observe, Hsame. apply spec_take_observe. }
  exists (spec_take p now (mem_window p st k)).1, st', db'.
  rewrite H1, H3, H2, H4, Heq. split_and!; try done. intros k' Hk'.
  destruct (decide (k' = k)) as [->|Hne]; [by rewrite H2, H4, Heq|]. by rewrite Hrest1, Hrest2.
Qed.

Definition hex_key : string :=
  "00112233445566778899aabbccddeeff00112233445566778899aabbccddeeff".

Lemma pg_store_agrees_with_memory_witness :
  exists d st' db',
    MemoryStore_Take None hex_key two_per_minute Hour (NewMemoryStore 4) = (Ok d, st') /\
    PgStore_Take (calm_env Hour) (Some {| pruneLimit := 100 |}) None hex_key two_per_minute
      {| limits := ∅; limits_tick := 0 |} = (Ok d, db') /\
    mem_window two_per_minute st' hex_key = pg_window two_per_minute db' hex_key /\
    (forall k', observe Hour (mem_window two_per_minute (NewMemoryStore 4) k')
         = observe Hour (pg_window two_per_minute {| limits := ∅; limits_tick := 0 |} k') ->
       observe Hour (mem_window two_per_minute st' k') = observe Hour (pg_window two_per_minute db' k')).
Proof.
  apply (pg_store_agrees_with_memory (calm_env Hour) {| pruneLimit := 100 |} two_per_minute
           hex_key Hour (NewMemoryStore 4) {| limits := ∅; limits_tick := 0 |}).
  - vm_compute. repeat split; discriminate.
  - vm_compute. repeat split; discriminate.
  - vm_compute. reflexivity.
Defined.

(** [Retry-After] is honest.  For every wait the stores can announce, the
    header's number of seconds is at least one, is long enough to reach the reset,
    and is not a whole second too long. *)
Theorem retry_after_header_covers_wait (d : duration) :
  in_int64 d -> d <= MaxInt64 - Second ->
  exists s, retryAfterSeconds d = s /\
    1 <= s /\ d <= s * Second /\ (1 < s -> (s - 1) * Second < d) /\
    Atoi (Itoa s) = Some s.
Proof.
  intros Hd Hmax. pose proof (retryAfterSeconds_ceil d Hd Hmax) as (H1 & H2 & H3).
  eexists; split; [done|]. repeat split; try done. apply Atoi_Itoa.
  unfold in_int64, MinInt64, MaxInt64, Second in *. split; [lia|].
  destruct (Z.le_gt_cases (retryAfterSeconds d) 1); [lia|]. specialize (H3 ltac:(lia)). nia.
Qed.

Lemma retry_after_header_covers_wait_witness :
  exists s, retryAfterSeconds (90 * Second + 1) = s /\
    1 <= s /\ 90 * Second + 1 <= s * Second /\ (1 < s -> (s - 1) * Second < 90 * Second + 1) /\
    Atoi (Itoa s) = Some s.
Proof.
  apply (retry_after_header_covers_wait (90 * Second + 1)); vm_compute;
    [split; discriminate|discriminate].
Defined.
