(* ===== verification/SessionFacts.v ===== *)
(** * Theorems on sessions

    The store contract with its in-memory implementation, cookie signatures,
    deadlines, rotation, and the save/load round trip, all proved against the
    contract and therefore for every store that satisfies it. *)

From S2P Require Import Prelude GoStrings GoRegexp GoEncoding Session.
Local Open Scope Z_scope.

(** ** The store contract *)

(** [Delete] left no row: it succeeded, or reported that there was none. *)
Definition deleted (r : result unit) : bool :=
  match r with Ok _ => true | Err e => errors_Is e ErrNotFound end.

(** What the answers of a [session.Store] mean.  [row] is what is stored,
    [store_clock] the instant the next operation judges expiry by.  Every law is about
    an operation that reported success (or, for [Delete], that the row is missing):
    any operation may also fail with any error, with or without effect. *)
Class SessionStoreSpec (St : Type) `{SessionStore St} : Type := {
  row : St -> string -> option (string * time);
  store_clock : St -> time;
  get_ok : forall i v st st', store_Get i st = (Ok v, st') ->
    exists e, row st i = Some (v, e) /\ store_clock st < e;
  create_ok : forall i v e st st', store_Create i v e st = (Ok tt, st') ->
    row st' i = Some (v, e) /\ (forall j, j <> i -> row st' j = row st j);
  update_ok : forall i v e st st', store_Update i v e st = (Ok tt, st') ->
    (exists v0 e0, row st i = Some (v0, e0) /\ store_clock st < e0) /\
    row st' i = Some (v, e) /\ (forall j, j <> i -> row st' j = row st j);
  rotate_ok : forall i k v e st st', i <> k -> store_Rotate i k v e st = (Ok tt, st') ->
    (exists v0 e0, row st i = Some (v0, e0) /\ store_clock st < e0) /\
    row st' k = Some (v, e) /\ row st' i = None /\
    (forall j, j <> i -> j <> k -> row st' j = row st j);
  delete_ok : forall i r st st', store_Delete i st = (r, st') -> deleted r = true ->
    row st' i = None
}.

(** A store that answers: it refuses only for the documented reasons, and a refused
    write loses no live row. *)
Class SessionStoreAnswers (St : Type) `{SessionStoreSpec St} : Prop := {
  get_live : forall i v e st, row st i = Some (v, e) -> store_clock st < e ->
    exists st', store_Get i st = (Ok v, st') /\ (forall j, row st' j = row st j);
  get_gone : forall i st, (forall v e, row st i = Some (v, e) -> e <= store_clock st) ->
    exists st', store_Get i st = (Err ErrNotFound, st');
  rotate_gone : forall i k v e st,
    (forall v0 e0, row st i = Some (v0, e0) -> e0 <= store_clock st) ->
    exists st', store_Rotate i k v e st = (Err ErrNotFound, st');
  delete_answers : forall i st, exists st', store_Delete i st = (Ok tt, st') /\
    row st' i = None /\ (forall j, j <> i -> row st' j = row st j);
  failure_keeps_live : forall i k v e j w x st st' err,
    store_Create i v e st = (Err err, st') \/ store_Update i v e st = (Err err, st')
      \/ store_Rotate i k v e st = (Err err, st') ->
    row st j = Some (w, x) -> store_clock st < x -> row st' j = Some (w, x)
}.

Section memory_spec.
Variable now_at : nat -> time.

Definition mem_row (st : MemorySessions) (i : string) : option (string * time) :=
  (fun r => (value r, expiresAt r)) <$> rows st !! i.
Definition mem_clock (st : MemorySessions) : time := now_at (reads st).

Lemma mem_get_live i v e st :
  mem_row st i = Some (v, e) -> mem_clock st < e ->
  exists st', Mem_Get now_at i st = (Ok v, st') /\ (forall j, mem_row st' j = mem_row st j).
Proof.
  unfold mem_row, mem_clock, Mem_Get. intros Hr Hlt.
  destruct (rows st !! i) as [r|] eqn:Hi; [|done]. cbn in Hr. simplify_eq.
  unfold Before. rewrite (proj2 (Z.ltb_lt _ _) Hlt). cbn. eauto.
Qed.

Lemma mem_get_ok i v st st' :
  Mem_Get now_at i st = (Ok v, st') -> exists e, mem_row st i = Some (v, e) /\ mem_clock st < e.
Proof.
  unfold mem_row, mem_clock, Mem_Get, Before. intros Hg. case_guards. bool_to_prop. eauto.
Qed.

Lemma mem_get_gone i st :
  (forall v e, mem_row st i = Some (v, e) -> e <= mem_clock st) ->
  exists st', Mem_Get now_at i st = (Err ErrNotFound, st').
Proof.
  unfold mem_row, mem_clock, Mem_Get. intros Hg.
  destruct (rows st !! i) as [r|] eqn:Hi; [|eauto]. cbn in Hg.
  specialize (Hg _ _ eq_refl). unfold Before. rewrite (proj2 (Z.ltb_ge _ _) Hg). cbn. eauto.
Qed.

Lemma mem_create_ok i v e st st' :
  Mem_Create now_at i v e st = (Ok tt, st') ->
  mem_row st' i = Some (v, e) /\ (forall j, j <> i -> mem_row st' j = mem_row st j).
Proof.
  unfold mem_row, Mem_Create. intros Hc. case_guards; cbn.
  - rewrite lookup_insert_eq. split; [done|]. intros j Hj.
    by rewrite lookup_insert_ne, lookup_delete_ne.
  - rewrite lookup_insert_eq. split; [done|]. intros j Hj. by rewrite lookup_insert_ne.
Qed.

Lemma mem_update_ok i v e st st' :
  Mem_Update now_at i v e st = (Ok tt, st') ->
  (exists v0 e0, mem_row st i = Some (v0, e0) /\ mem_clock st < e0) /\
  mem_row st' i = Some (v, e) /\ (forall j, j <> i -> mem_row st' j = mem_row st j).
Proof.
  unfold mem_row, mem_clock, Mem_Update, Before. intros Hc. case_guards; cbn. bool_to_prop.
  rewrite lookup_insert_eq. split; [eauto|]. split; [done|].
  intros j Hj. by rewrite lookup_insert_ne.
Qed.

Lemma mem_rotate_ok i k v e st st' :
  i <> k -> Mem_Rotate now_at i k v e st = (Ok tt, st') ->
  (exists v0 e0, mem_row st i = Some (v0, e0) /\ mem_clock st < e0) /\
  mem_row st' k = Some (v, e) /\ mem_row st' i = None /\
  (forall j, j <> i -> j <> k -> mem_row st' j = mem_row st j).
Proof.
  unfold mem_row, mem_clock, Mem_Rotate, Before. intros Hne Hc. case_guards; cbn; bool_to_prop;
    (split; [eauto|]); rewrite lookup_delete_ne, lookup_insert_eq, lookup_delete_eq by done;
    (split; [done|]); (split; [done|]); intros j Hi Hk; rewrite lookup_delete_ne by done.
  - by rewrite lookup_insert_ne, lookup_delete_ne.
  - by rewrite lookup_insert_ne.
Qed.

Lemma mem_rotate_gone i k v e st :
  (forall v0 e0, mem_row st i = Some (v0, e0) -> e0 <= mem_clock st) ->
  exists st', Mem_Rotate now_at i k v e st = (Err ErrNotFound, st').
Proof.
  unfold mem_row, mem_clock, Mem_Rotate. intros Hg.
  destruct (rows st !! i) as [r|] eqn:Hi; [|eauto]. cbn in Hg.
  specialize (Hg _ _ eq_refl). unfold Before. rewrite (proj2 (Z.ltb_ge _ _) Hg). cbn. eauto.
Qed.

Lemma mem_delete_ok i st :
  exists st', Mem_Delete i st = (Ok tt, st') /\
    mem_row st' i = None /\ (forall j, j <> i -> mem_row st' j = mem_row st j).
Proof.
  unfold mem_row, Mem_Delete. eexists; split; [done|]. cbn.
  rewrite lookup_delete_eq. split; [done|]. intros j Hj. by rewrite lookup_delete_ne.
Qed.

Lemma mem_deleted i r st st' :
  Mem_Delete i st = (r, st') -> deleted r = true -> mem_row st' i = None.
Proof. destruct (mem_delete_ok i st) as (st1 & -> & Hr & _). intros [= _ <-] _. exact Hr. Qed.

Lemma mem_failure_keeps_live i k v e j w x st st' err :
  Mem_Create now_at i v e st = (Err err, st') \/ Mem_Update now_at i v e st = (Err err, st')
    \/ Mem_Rotate now_at i k v e st = (Err err, st') ->
  mem_row st j = Some (w, x) -> mem_clock st < x -> mem_row st' j = Some (w, x).
Proof.
  unfold mem_row, mem_clock, Mem_Create, Mem_Update, Mem_Rotate, Before.
  intros Hop Hj Hx. destruct (rows st !! j) as [r|] eqn:Hrow; [|done].
  cbn in Hj. simplify_eq.
  destruct Hop as [Hop|[Hop|Hop]]; case_guards; cbn; rewrite ?Hrow; try done;
    bool_to_prop; rewrite lookup_delete_ne; rewrite ?Hrow; try done; intros ->; simplify_eq; lia.
Qed.

(** The in-memory store keeps the contract, and answers. *)
#[export] Instance MemorySessions_spec :
  @SessionStoreSpec MemorySessions (MemorySessions_store now_at) :=
  @Build_SessionStoreSpec MemorySessions (MemorySessions_store now_at) mem_row mem_clock
    mem_get_ok mem_create_ok mem_update_ok mem_rotate_ok mem_deleted.
#[export] Instance MemorySessions_answers :
  @SessionStoreAnswers MemorySessions (MemorySessions_store now_at) MemorySessions_spec :=
  @Build_SessionStoreAnswers MemorySessions (MemorySessions_store now_at) MemorySessions_spec
    mem_get_live mem_get_gone mem_rotate_gone mem_delete_ok mem_failure_keeps_live.
End memory_spec.

(** A store behind a connection that can fail: before the operation reaches it, or
    after it took effect, when only the reply is lost.  It keeps the contract too. *)
Section unreliable_spec.
Context {St : Type} `{SessionStoreSpec St}.

Inductive connectionFault : Type := NeverArrived | ReplyLost.

Record Unreliable : Type := { behind : St; calls : nat }.

Variable fault : nat -> option connectionFault.

Definition through {A} (op : M St A) : M Unreliable A := fun u =>
  let lost := Err (Errorf "store connection failed") in
  match fault (calls u) with
  | None => let '(r, st) := op (behind u) in (r, {| behind := st; calls := S (calls u) |})
  | Some NeverArrived => (lost, {| behind := behind u; calls := S (calls u) |})
  | Some ReplyLost => (lost, {| behind := (op (behind u)).2; calls := S (calls u) |})
  end.

#[export] Instance Unreliable_store : SessionStore Unreliable :=
  {| store_Get i := through (store_Get i);
     store_Create i v e := through (store_Create i v e);
     store_Update i v e := through (store_Update i v e);
     store_Rotate i k v e := through (store_Rotate i k v e);
     store_Delete i := through (store_Delete i) |}.

Lemma through_answer {A} (op : M St A) u u' r :
  through op u = (r, u') ->
  r = Err (Errorf "store connection failed") \/ op (behind u) = (r, behind u').
Proof.
  unfold through. intros Ht. destruct (fault (calls u)) as [[]|]; [by simplify_eq; left..|].
  destruct (op (behind u)) as [r1 st]. simplify_eq. by right.
Qed.

#[export] Instance Unreliable_spec : SessionStoreSpec Unreliable.
Proof.
  refine {| row u := row (behind u); store_clock u := store_clock (behind u) |}.
  - intros i v u u' [?|Hg]%through_answer; [done|]. by eapply get_ok.
  - intros i v e u u' [?|Hc]%through_answer; [done|]. by eapply create_ok.
  - intros i v e u u' [?|Hu]%through_answer; [done|]. by eapply update_ok.
  - intros i k v e u u' Hne [?|Hr]%through_answer; [done|]. by eapply rotate_ok.
  - intros i r u u' [->|Hd]%through_answer Hok; [done|]. by eapply delete_ok.
Defined.
End unreliable_spec.
Arguments Unreliable St : clear implicits.

(** ** Cookie signatures *)

Section manager_facts.
Context {St : Type} `{SessionStoreSpec St}.
Variable R : runtime.
Variable manager : Manager.

Lemma verify_sign sid b :
  byte_len sid = 64 -> hexDecode sid = Some b -> verify R manager (sign R manager sid) = sid.
Proof.
  intros Hlen Hhex. unfold verify, sign. rewrite string_app_cons, string_app_nil_l.
  rewrite Cut_app by (by eapply hexDecode_no_dot).
  rewrite Hlen, b64Decode_Encode, Hhex. by rewrite bool_decide_eq_true_2.
Qed.

Lemma verify_sound v :
  verify R manager v <> EmptyString ->
  let sid := verify R manager v in
  byte_len sid = 64 /\ is_Some (hexDecode sid) /\
  exists signature, v = sid +:+ "." +:+ signature /\
    b64Decode URLAlphabet false signature = Some (hmac R (secret manager) sid).
Proof.
  unfold verify. destruct (Cut v "."%char) as [[sid signature] ok] eqn:Hcut.
  intros Hne. case_guards; bool_to_prop; subst; try done.
  split; [done|]. split; [eauto|]. exists signature. split; [|congruence].
  by apply Cut_found.
Qed.

(** ** Deadlines *)

Lemma saveDeadline_bounds issued now :
  let d := saveDeadline manager issued now in
  d <= now + IdleLifetime (policy manager) /\
  (0 < AbsoluteLifetime (policy manager) -> d <= issued + AbsoluteLifetime (policy manager)).
Proof.
  unfold saveDeadline, Add, Before. cbn zeta.
  destruct (Z.gtb_spec (AbsoluteLifetime (policy manager)) 0); [|lia].
  destruct (Z.ltb_spec (issued + AbsoluteLifetime (policy manager))
                       (now + IdleLifetime (policy manager))); lia.
Qed.

Lemma cookieMaxAge_bound d :
  cookieMaxAge d = -1 \/ (0 < cookieMaxAge d /\ cookieMaxAge d * Second <= d).
Proof.
  unfold cookieMaxAge. destruct ((d <=? 0) || (Z.quot d Second =? 0)) eqn:Hc; [by left|].
  right. bool_to_prop. pose proof (Z.quot_rem' d Second).
  pose proof (Z.rem_bound_pos d Second ltac:(lia) ltac:(done)).
  pose proof (Z.quot_pos d Second ltac:(lia) ltac:(done)). lia.
Qed.

Lemma not_expired issued now :
  absoluteExpired manager issued now = false ->
  0 < AbsoluteLifetime (policy manager) -> now < issued + AbsoluteLifetime (policy manager).
Proof.
  unfold absoluteExpired, Before, Add. intros Hx Hpos.
  rewrite (proj2 (Z.gtb_lt _ _) Hpos) in Hx. cbn in Hx. bool_to_prop. done.
Qed.

(** ** Saving *)

(** Cookie bookkeeping never touches the store or the session. *)
Lemma setCookie_frame c (w w' : world St) r :
  setCookie manager c w = (r, w') ->
  w_store w' = w_store w /\ w_session w' = w_session w.
Proof.
  unfold setCookie, bindM, removeCookie, http_SetCookie.
  intros Hc. case_guards; done.
Qed.

Lemma setCookie_no_error c (w w' : world St) e :
  is_Some (w_response w) -> setCookie manager c w = (Err e, w') -> False.
Proof.
  intros [r Hr]. unfold setCookie, bindM, removeCookie, http_SetCookie.
  rewrite Hr. cbn. destruct (isToken (c_Name c)); done.
Qed.

Lemma setCookie_last c (w w' : world St) r :
  setCookie manager c w = (r, w') -> isToken (c_Name c) = true -> is_Some (w_response w) ->
  last (default [] (SetCookies <$> w_response w')) = Some (Parsed c).
Proof.
  intros Hc Ht [x Hx]. unfold setCookie, bindM, removeCookie, http_SetCookie in Hc.
  rewrite Hx in Hc. cbn in Hc. rewrite Ht in Hc. simplify_eq/=. apply last_snoc.
Qed.

(** A save that neither fails nor finds the session absolutely expired. *)
Lemma Save_live (w : world St) s0 :
  w_session w = Some s0 -> id s0 <> EmptyString -> headerWritten w = false ->
  let now := now_reading R (w_tick w) in
  let s := stamped now s0 in
  absoluteExpired manager (issuedAt s) now = false ->
  Save R manager w =
    match marshal R {| IssuedAt := issuedAt s; Values := Some (values s);
                       FlashValues := Some (newFlash s) |} with
    | Err e => (Err (Wrapf "encode session: %w" e), with_session (Some s) (tick_world w))
    | Ok encoded =>
        match persist s encoded (saveDeadline manager (issuedAt s) now) (w_store w) with
        | (Err e, st) => (Err (Wrapf "save session: %w" e),
                          with_store st (with_session (Some s) (tick_world w)))
        | (Ok _, st) =>
            setCookie manager (liveCookie R manager (id s) (saveDeadline manager (issuedAt s) now) now)
              (with_store st (with_session (Some (saved s)) (tick_world w)))
        end
    end.
Proof.
  intros Hs Hid Hw now s Hx. unfold Save. rewrite Hs, bool_decide_eq_false_2, Hw by done.
  unfold bindM, manager_now. subst now s. rewrite Hx.
  destruct (marshal R _) as [encoded|e]; [|done].
  unfold on_store. cbn. destruct (persist _ _ _ _) as [[[]|e] st]; done.
Qed.

(** Persisting writes the row of the session's current ID. *)
Lemma persist_row s encoded deadline (st st' : St) :
  persist s encoded deadline st = (Ok tt, st') -> row st' (id s) = Some (encoded, deadline).
Proof.
  unfold persist. intros Hp.
  destruct (decide (persistedID s = EmptyString)) as [Hpe|Hpe].
  { rewrite bool_decide_eq_true_2 in Hp by done. by apply create_ok in Hp as [Hr1 _]. }
  rewrite bool_decide_eq_false_2 in Hp by done.
  destruct (decide (persistedID s = id s)) as [Hpi|Hpi].
  { rewrite bool_decide_eq_true_2 in Hp by done. by apply update_ok in Hp as (_ & Hr1 & _). }
  rewrite bool_decide_eq_false_2 in Hp by done.
  destruct (store_Rotate (persistedID s) (id s) encoded deadline st) as [[[]|e] st1] eqn:Hr.
  - simplify_eq. by apply rotate_ok in Hr as (_ & Hr1 & _).
  - case_guards. by apply create_ok in Hp as [Hr1 _].
Qed.

(** A persisted rotation needs the old row alive, and retires it. *)
Lemma persist_rotation s encoded deadline (st st' : St) :
  persistedID s <> EmptyString -> persistedID s <> id s -> createOnMissingRotation s = false ->
  persist s encoded deadline st = (Ok tt, st') ->
  (exists v0 e0, row st (persistedID s) = Some (v0, e0) /\ store_clock st < e0) /\
  row st' (persistedID s) = None /\
  (forall j, j <> id s -> j <> persistedID s -> row st' j = row st j).
Proof.
  unfold persist. intros Hpe Hpi Hc Hp. rewrite !bool_decide_eq_false_2 in Hp by done.
  destruct (store_Rotate (persistedID s) (id s) encoded deadline st) as [[[]|e] st1] eqn:Hr.
  - simplify_eq. apply rotate_ok in Hr as (Hr1 & _ & Hr2 & Hr3); [|done]. auto.
  - by rewrite Hc in Hp.
Qed.

(** A failed persist leaves every live row as it was. *)
Lemma persist_failure `{!SessionStoreAnswers St} s encoded deadline (st st' : St) err j w x :
  createOnMissingRotation s = false ->
  persist s encoded deadline st = (Err err, st') ->
  row st j = Some (w, x) -> store_clock st < x -> row st' j = Some (w, x).
Proof.
  unfold persist. intros Hc Hp Hj Hx. rewrite Hc in Hp. cbn in Hp.
  repeat case_bool_decide.
  - eapply (failure_keeps_live (id s) (id s)); eauto.
  - eapply (failure_keeps_live (id s) (id s)); eauto.
  - destruct (store_Rotate _ _ _ _ _) as [[[]|e] st1] eqn:Hr; simplify_eq.
    eapply (failure_keeps_live (persistedID s) (id s)); eauto.
Qed.

(** A failed save of an unexpired session loses no live row. *)
Lemma Save_Err `{!SessionStoreAnswers St} (w w' : world St) s e :
  Save R manager w = (Err e, w') -> w_session w = Some s -> createOnMissingRotation s = false ->
  is_Some (w_response w) ->
  absoluteExpired manager (issuedAt (stamped (now_reading R (w_tick w)) s))
    (now_reading R (w_tick w)) = false ->
  forall j v x, row (w_store w) j = Some (v, x) -> store_clock (w_store w) < x ->
    row (w_store w') j = Some (v, x).
Proof.
  intros HS Hs Hc Hresp Hx j v x Hj Hlive.
  destruct (decide (id s = EmptyString)) as [Hid|Hid].
  { unfold Save in HS. rewrite Hs, bool_decide_eq_true_2 in HS by done. by simplify_eq. }
  destruct (headerWritten w) eqn:Hh.
  { unfold Save in HS. rewrite Hs, bool_decide_eq_false_2, Hh in HS by done. by simplify_eq. }
  rewrite (Save_live w s) in HS by done.
  destruct (marshal R _) as [enc|em]; [|by simplify_eq].
  destruct (persist _ _ _ _) as [[[]|ep] st] eqn:Hpers.
  - by apply setCookie_no_error in HS.
  - simplify_eq. cbn. eapply persist_failure; [|exact Hpers|done..]. done.
Qed.

(** ** What a request handler can do to its session

    Any sequence of the public session operations, interleaved with changes to the
    response, with the passing of time, and with whatever concurrent requests do to the
    store. *)
Inductive handler_step : world St -> world St -> Prop :=
| step_put w s key encoded s' :
    w_session w = Some s -> Session_Put key encoded s = Ok s' ->
    handler_step w (with_session (Some s') w)
| step_flash w s key encoded s' :
    w_session w = Some s -> Session_Flash key encoded s = Ok s' ->
    handler_step w (with_session (Some s') w)
| step_forget w s key :
    w_session w = Some s -> handler_step w (with_session (Some (Session_Forget key s)) w)
| step_regenerate create w w' :
    regenerate R create w = (Ok tt, w') -> handler_step w w'
| step_respond w r : handler_step w (with_response r w)
| step_wait w : handler_step w (tick_world w)
| step_concurrent w st : handler_step w (with_store st w).

(** Neither the issuance time nor the stored ID of the request's session moves. *)
Lemma handler_step_frame w w' s :
  handler_step w w' -> w_session w = Some s ->
  exists s', w_session w' = Some s' /\ issuedAt s' = issuedAt s /\ persistedID s' = persistedID s.
Proof.
  intros Hstep Hs. destruct Hstep; unfold Session_Put, Session_Flash, regenerate, newID in *;
    case_guards; naive_solver.
Qed.

Lemma handler_frame w w' s :
  rtc handler_step w w' -> w_session w = Some s ->
  exists s', w_session w' = Some s' /\ issuedAt s' = issuedAt s /\ persistedID s' = persistedID s.
Proof.
  intros Hrun. revert s. induction Hrun as [|w w1 w2 Hstep _ IH]; intros s Hs; [eauto|].
  destruct (handler_step_frame _ _ _ Hstep Hs) as (s1 & Hs1 & Hi1 & Hp1).
  destruct (IH _ Hs1) as (s2 & Hs2 & Hi2 & Hp2). exists s2. split; [done|]. split; congruence.
Qed.

(** A fresh session is not stored anywhere. *)
Lemma fresh_unpersisted (w w' : world St) s :
  fresh R w = (Ok s, w') ->
  persistedID s = EmptyString /\ values s = ∅ /\ oldFlash s = ∅ /\ newFlash s = ∅ /\
  w_store w' = w_store w.
Proof.
  unfold fresh, bindM, newID, manager_now, ret.
  destruct (random_bytes R (w_tick w)); intros; simplify_eq/=; done.
Qed.

Lemma delete_then_Ok sid k format (w w' : world St) s :
  delete_ignoring_missing sid k format w = (Ok s, w') ->
  exists st, k (with_store st w) = (Ok s, w') /\ row st sid = None.
Proof.
  unfold delete_ignoring_missing, on_store.
  destruct (store_Delete sid (w_store w)) as [[[]|e] st] eqn:Hd; intros Hk.
  - exists st. split; [done|]. by eapply delete_ok.
  - destruct (errors_Is e ErrNotFound) eqn:He; [|done]. exists st. split; [done|].
    by eapply delete_ok.
Qed.

(** A session that [Load] found in the store, with what it was decoded from. *)
Lemma Load_stored v w s w1 :
  Load R manager (Some v) w = (Ok s, w1) -> persistedID s <> EmptyString ->
  id s = verify R manager v /\ persistedID s = id s /\
  exists encoded stored, store_Get (id s) (w_store w) = (Ok encoded, w_store w1) /\
    unmarshal R encoded = Ok stored /\
    (0 < AbsoluteLifetime (policy manager) -> issuedAt s = IssuedAt stored /\ issuedAt s <> 0) /\
    absoluteExpired manager (issuedAt s) (now_reading R (w_tick w)) = false.
Proof.
  unfold Load, on_store. intros HL Hp.
  case_bool_decide; [by apply fresh_unpersisted in HL as [??]|].
  destruct (store_Get (verify R manager v) (w_store w)) as [[encoded|e] st] eqn:Hget.
  2: { destruct (errors_Is e ErrNotFound); [by apply fresh_unpersisted in HL as [??]|done]. }
  destruct (unmarshal R encoded) as [stored|e] eqn:Hu; [|done].
  unfold bindM, manager_now in HL. cbn in HL.
  destruct (IsZero (IssuedAt stored) && (AbsoluteLifetime (policy manager) >? 0)) eqn:Hz.
  { apply delete_then_Ok in HL as (st1 & HL & _). by apply fresh_unpersisted in HL as [??]. }
  destruct (absoluteExpired manager _ _) eqn:Hx in HL.
  { apply delete_then_Ok in HL as (st1 & HL & _). by apply fresh_unpersisted in HL as [??]. }
  unfold ret in HL. simplify_eq/=. split; [done|]. split; [done|].
  exists encoded, stored. split; [done|]. split; [done|]. split; [|done].
  intros Hpos. rewrite (proj2 (Z.gtb_lt _ _) Hpos), andb_true_r in Hz. rewrite Hz.
  split; [done|]. unfold IsZero, zeroTime in Hz. bool_to_prop. done.
Qed.

(** A successful save: either the session was expired and is gone, or its row holds
    the encoded payload until the save deadline. *)
Lemma Save_Ok (w w' : world St) s0 :
  Save R manager w = (Ok tt, w') -> w_session w = Some s0 ->
  let now := now_reading R (w_tick w) in
  let s := stamped now s0 in
  (absoluteExpired manager (issuedAt s) now = true /\
   w_session w' = Some (emptied s) /\
   (persistedID s <> EmptyString -> row (w_store w') (persistedID s) = None)) \/
  (absoluteExpired manager (issuedAt s) now = false /\
   w_session w' = Some (saved s) /\
   exists encoded, marshal R {| IssuedAt := issuedAt s; Values := Some (values s);
                                FlashValues := Some (newFlash s) |} = Ok encoded /\
     persist s encoded (saveDeadline manager (issuedAt s) now) (w_store w) = (Ok tt, w_store w')).
Proof.
  intros HS Hs. cbn zeta.
  destruct (decide (id s0 = EmptyString)) as [Hid|Hid].
  { unfold Save in HS. rewrite Hs, bool_decide_eq_true_2 in HS by done. done. }
  destruct (headerWritten w) eqn:Hh.
  { unfold Save in HS. rewrite Hs, bool_decide_eq_false_2, Hh in HS by done. done. }
  set (now := now_reading R (w_tick w)) in *.
  destruct (absoluteExpired manager (issuedAt (stamped now s0)) now) eqn:Hx.
  - left. split; [done|].
    unfold Save in HS. rewrite Hs, bool_decide_eq_false_2, Hh in HS by done.
    unfold bindM at 1, manager_now in HS. fold now in HS. rewrite Hx in HS.
    unfold expire, bindM, invalidate, on_store in HS. cbn in HS.
    rewrite bool_decide_eq_false_2 in HS by done.
    case_bool_decide as Hp.
    + apply setCookie_frame in HS as [Hst Hse]. rewrite Hse. done.
    + destruct (store_Delete (persistedID s0) (w_store w)) as [r st] eqn:Hd.
      assert (deleted r = true /\
        setCookie manager (expiredCookie manager)
          (with_session (Some (emptied (stamped now s0)))
             (with_store st (with_session (Some (stamped now s0)) (tick_world w)))) = (Ok tt, w'))
        as [Hr HS'].
      { destruct r as [[]|e]; cbn; [done|]. by destruct (errors_Is e ErrNotFound). }
      apply setCookie_frame in HS' as [Hst Hse]. rewrite Hse, Hst.
      split; [done|]. intros _. by eapply delete_ok.
  - right. split; [done|]. rewrite (Save_live w s0) in HS by done. fold now in HS.
    destruct (marshal R _) as [encoded|e]; [|done].
    destruct (persist _ _ _ _) as [[[]|e] st] eqn:Hp; [|done].
    apply setCookie_frame in HS as [Hst Hse]. rewrite Hse, Hst. eauto.
Qed.

(** ** Theorems *)

(** What the manager relies on from [encoding/json] and [time.Time.MarshalJSON]: the
    document a payload was marshalled to decodes, and the issuance time, written in
    RFC 3339 with nanoseconds, comes back.  Nothing is said of the maps, in which
    [Marshal] replaces invalid UTF-8 and compacts raw values. *)
Definition json_keeps_issuance : Prop := forall p encoded, marshal R p = Ok encoded ->
  exists p', unmarshal R encoded = Ok p' /\ IssuedAt p' = IssuedAt p.

(** For maps whose keys are valid UTF-8 and whose values are compact, [encoding/json]
    also keeps the maps; one that is empty may come back nil because the fields are
    tagged [omitempty]. *)
Definition json_keeps (p : payload) : Prop := forall encoded, marshal R p = Ok encoded ->
  exists p', unmarshal R encoded = Ok p' /\ IssuedAt p' = IssuedAt p /\
    default ∅ (Values p') = default ∅ (Values p) /\
    default ∅ (FlashValues p') = default ∅ (FlashValues p).

(** C5. The absolute deadline cannot be extended: a request that loaded a stored session
    may do anything with it (values, flashes, rotation, with or without re-creation)
    while concurrent requests change the store in any way; if its save reports success,
    the row it stored expires no later than the issuance time found at loading plus the
    absolute lifetime and carries that same issuance time, or the session was past its
    deadline and the row it was loaded from is gone.  Conditions: an absolute lifetime is
    configured; the store may refuse or fail any call, with or without effect, but what it
    reports as done is done ([SessionStoreSpec], kept by the in-memory store and by any
    such store behind a connection that fails); an encoded payload decodes to the same
    issuance time ([json_keeps_issuance]). *)
Theorem absolute_deadline_cannot_be_extended v w s w1 w2 w3 :
  json_keeps_issuance -> 0 < AbsoluteLifetime (policy manager) ->
  Load R manager (Some v) w = (Ok s, w1) -> persistedID s <> EmptyString ->
  rtc handler_step (with_session (Some s) w1) w2 ->
  Save R manager w2 = (Ok tt, w3) ->
  exists encoded idle stored s3,
    row (w_store w) (verify R manager v) = Some (encoded, idle) /\
    unmarshal R encoded = Ok stored /\ w_session w3 = Some s3 /\
    ((id s3 = EmptyString /\ row (w_store w3) (verify R manager v) = None) \/
     (exists encoded' deadline p,
        row (w_store w3) (id s3) = Some (encoded', deadline) /\
        deadline <= IssuedAt stored + AbsoluteLifetime (policy manager) /\
        unmarshal R encoded' = Ok p /\ IssuedAt p = IssuedAt stored)).
Proof.
  intros Hjson Habs HL Hp Hrun HS.
  destruct (Load_stored _ _ _ _ HL Hp) as (Hid & Hpid & encoded & stored & Hget & Hu & Hi & _).
  destruct (Hi Habs) as [Hiss Hnz]. destruct (get_ok _ _ _ _ Hget) as (idle & Hrow & _).
  destruct (handler_frame _ _ _ Hrun eq_refl) as (s2 & Hs2 & Hi2 & Hp2).
  exists encoded, idle, stored.
  assert (Hst : issuedAt (stamped (now_reading R (w_tick w2)) s2) = IssuedAt stored).
  { cbn. unfold IsZero, zeroTime. destruct (Z.eqb_spec (issuedAt s2) 0); congruence. }
  destruct (Save_Ok _ _ _ HS Hs2) as [(_ & Hse & Hgone)|(_ & Hse & enc' & Hm & Hpersist)].
  - exists (emptied (stamped (now_reading R (w_tick w2)) s2)).
    rewrite <- Hid. do 3 (split; [done|]). left. split; [done|].
    cbn in Hgone. rewrite Hp2 in Hgone. rewrite <- Hpid. auto.
  - eexists. rewrite <- Hid. do 3 (split; [done|]). right.
    destruct (Hjson _ _ Hm) as (p & Hup & Hpi).
    exists enc', (saveDeadline manager (IssuedAt stored) (now_reading R (w_tick w2))), p.
    rewrite Hst in *. split; [exact (persist_row _ _ _ _ _ Hpersist)|].
    split; [by apply saveDeadline_bounds|]. by rewrite Hup, Hpi.
Qed.

Section answering_store.
Context `{!SessionStoreAnswers St}.

(** At and after its absolute deadline a stored session is not loadable, live
    idle deadline or not: the request gets an empty session under a new ID, and
    the row is removed. *)
Theorem absolutely_expired_session_is_replaced v w encoded deadline stored :
  (forall n, is_ok (random_bytes R n) = true) ->
  0 < AbsoluteLifetime (policy manager) -> verify R manager v <> EmptyString ->
  row (w_store w) (verify R manager v) = Some (encoded, deadline) ->
  store_clock (w_store w) < deadline -> unmarshal R encoded = Ok stored ->
  IssuedAt stored + AbsoluteLifetime (policy manager) <= now_reading R (w_tick w) ->
  exists s w1, Load R manager (Some v) w = (Ok s, w1) /\
    persistedID s = EmptyString /\ values s = ∅ /\ oldFlash s = ∅ /\
    row (w_store w1) (verify R manager v) = None /\
    (forall j, j <> verify R manager v -> row (w_store w1) j = row (w_store w) j).
Proof.
  intros Hrand Habs Hv Hrow Hlive Hu Hexp.
  destruct (get_live _ _ _ _ Hrow Hlive) as (st & Hget & Hsame).
  assert (Hfresh : forall w' : world St, exists s w1, fresh R w' = (Ok s, w1)).
  { intros w'. unfold fresh, bindM, newID, manager_now, ret.
    specialize (Hrand (w_tick w')). destruct (random_bytes R (w_tick w')); [eauto|done]. }
  assert (Hdel : forall format, exists s w1,
    delete_ignoring_missing (verify R manager v) (fresh R) format (tick_world (with_store st w))
      = (Ok s, w1) /\ persistedID s = EmptyString /\ values s = ∅ /\ oldFlash s = ∅ /\
    row (w_store w1) (verify R manager v) = None /\
    (forall j, j <> verify R manager v -> row (w_store w1) j = row (w_store w) j)).
  { intros format. unfold delete_ignoring_missing, on_store. cbn.
    destruct (delete_answers (verify R manager v) st) as (st1 & Hd & Hr1 & Hr2). rewrite Hd.
    destruct (Hfresh (with_store st1 (tick_world (with_store st w)))) as (s & w1 & Hf).
    exists s, w1. rewrite Hf. apply fresh_unpersisted in Hf as (? & ? & ? & ? & Hw).
    rewrite Hw. do 5 (split; [done|]). intros j Hj. cbn. by rewrite Hr2, Hsame. }
  unfold Load, on_store. rewrite bool_decide_eq_false_2, Hget, Hu by done.
  unfold bindM, manager_now. cbn [w_tick with_store].
  rewrite (proj2 (Z.gtb_lt _ _) Habs), andb_true_r.
  destruct (IsZero (IssuedAt stored)); [apply Hdel|].
  unfold absoluteExpired, Before, Add.
  rewrite (proj2 (Z.gtb_lt _ _) Habs), (proj2 (Z.ltb_ge _ _)) by done. apply Hdel.
Qed.

(** Session fixation: after [Regenerate] and a successful save the new ID holds
    the session and the old ID is gone from the store, with every other row
    untouched, so the old cookie no longer loads it.  If the save fails, no row
    that was still alive is lost or changed. *)
Theorem rotation_retires_old_id w s w1 r w2 :
  w_session w = Some s -> persistedID s <> EmptyString -> is_Some (w_response w) ->
  Regenerate R w = (Ok tt, w1) ->
  (forall s1, w_session w1 = Some s1 -> id s1 <> persistedID s) ->
  absoluteExpired manager (issuedAt (stamped (now_reading R (w_tick w1)) s))
    (now_reading R (w_tick w1)) = false ->
  Save R manager w1 = (r, w2) ->
  match r with
  | Ok _ => exists s2, w_session w2 = Some s2 /\ persistedID s2 = id s2 /\
      values s2 = values s /\ is_Some (row (w_store w2) (id s2)) /\
      row (w_store w2) (persistedID s) = None /\
      (forall j, j <> id s2 -> j <> persistedID s -> row (w_store w2) j = row (w_store w) j) /\
      (exists st, store_Get (persistedID s) (w_store w2) = (Err ErrNotFound, st))
  | Err _ => forall j v x, row (w_store w) j = Some (v, x) -> store_clock (w_store w) < x ->
      row (w_store w2) j = Some (v, x)
  end.
Proof.
  intros Hs Hp Hresp Hreg Hnew Hx HS.
  unfold Regenerate, regenerate in Hreg. rewrite Hs in Hreg. unfold newID in Hreg.
  destruct (random_bytes R (w_tick w)) as [bytes|]; [|done]. simplify_eq/=.
  specialize (Hnew _ eq_refl). cbn in Hnew.
  destruct r as [[]|e].
  - edestruct Save_Ok as [(Hx' & _)|(_ & Hse & enc & Hm & Hpers)]; [exact HS|reflexivity| |].
    { cbn in Hx', Hx. congruence. }
    eexists. split; [exact Hse|]. split; [done|]. split; [done|].
    pose proof (persist_row _ _ _ _ _ Hpers) as Hrow. cbn in Hrow.
    apply persist_rotation in Hpers as (_ & Hold & Hother); [|done..].
    split; [exists (enc, saveDeadline manager (issuedAt (stamped (now_reading R (S (w_tick w))) s))
                      (now_reading R (S (w_tick w)))); exact Hrow|].
    split; [done|]. split; [done|].
    apply get_gone. cbn in Hold. intros v e. by rewrite Hold.
  - intros j v x Hj Hlive. by eapply (Save_Err _ _ _ _ HS eq_refl eq_refl Hresp Hx).
Qed.

(** Save and load are inverse up to flash ageing: the cookie a save sets loads
    the same ID, the same values and issuance time; values flashed during the
    saving request are readable, and those it had read are gone. *)
Theorem save_then_load_roundtrip w s b w1 w2 :
  w_session w = Some s ->
  json_keeps {| IssuedAt := issuedAt (stamped (now_reading R (w_tick w)) s);
                Values := Some (values s); FlashValues := Some (newFlash s) |} ->
  byte_len (id s) = 64 -> hexDecode (id s) = Some b ->
  is_Some (w_response w) -> isToken (Name (cookie manager)) = true ->
  let s' := stamped (now_reading R (w_tick w)) s in
  let now := now_reading R (w_tick w) in
  absoluteExpired manager (issuedAt s') now = false -> issuedAt s' <> 0 ->
  Save R manager w = (Ok tt, w1) ->
  w_store w2 = w_store w1 -> store_clock (w_store w2) < saveDeadline manager (issuedAt s') now ->
  absoluteExpired manager (issuedAt s') (now_reading R (w_tick w2)) = false ->
  exists c s2 w3,
    last (default [] (SetCookies <$> w_response w1)) = Some (Parsed c) /\
    Load R manager (Some (c_Value c)) w2 = (Ok s2, w3) /\
    id s2 = id s /\ persistedID s2 = id s /\ values s2 = values s /\
    oldFlash s2 = newFlash s /\ newFlash s2 = ∅ /\ issuedAt s2 = issuedAt s'.
Proof.
  intros Hs Hjson Hlen Hhex [r Hr] Htok s' now Hx Hnz HS Hst Hclk Hx2.
  assert (Hid : id s <> EmptyString) by (intros E; rewrite E in Hlen; done).
  destruct (headerWritten w) eqn:Hh.
  { unfold Save in HS. rewrite Hs, bool_decide_eq_false_2, Hh in HS by done. done. }
  rewrite (Save_live w s Hs Hid Hh Hx) in HS.
  destruct (marshal R _) as [enc|] eqn:Hm; [|done].
  destruct (persist _ _ _ _) as [[[]|] st] eqn:Hp; [|done].
  destruct (Hjson _ Hm) as (p & Hu & Hi & Hv & Hf). cbn in Hi, Hv, Hf.
  apply persist_row in Hp. fold now s' in Hp, Hm. cbn in Hp.
  pose proof (setCookie_frame _ _ _ _ HS) as [Hst1 _]. cbn in Hst1.
  apply setCookie_last in HS; [|done|by eexists].
  assert (Hrow : row (w_store w2) (id s) = Some (enc, saveDeadline manager (issuedAt s') now))
    by (rewrite Hst, Hst1; exact Hp).
  destruct (get_live _ _ _ _ Hrow Hclk) as (st3 & Hget & _).
  eexists _, _, _. split; [exact HS|]. cbn [c_Value liveCookie].
  unfold Load. cbn [id stamped]. rewrite (verify_sign _ _ Hlen Hhex), bool_decide_eq_false_2 by done.
  unfold on_store. rewrite Hget, Hu. unfold bindM, manager_now. rewrite Hi. cbn [w_tick with_store].
  fold now. change (if IsZero (issuedAt s) then now else issuedAt s) with (issuedAt s').
  assert (Hz : IsZero (issuedAt s') = false) by (by apply Z.eqb_neq).
  rewrite Hz, Hx2. cbn. rewrite Hv, Hf. done.
Qed.

End answering_store.

End manager_facts.

(** ** A concrete runtime

    The payload codec is stdpp's [encode], written as a binary numeral; it stands
    in for [encoding/json] to show that the hypotheses above can hold together. *)
Module Sample.

Fixpoint pos_string (p : positive) : string :=
  match p with
  | xH => EmptyString
  | xO p => String "0" (pos_string p)
  | xI p => String "1" (pos_string p)
  end.
Fixpoint string_pos (s : string) : positive :=
  match s with
  | EmptyString => xH
  | String c s => if Ascii.eqb c "1" then xI (string_pos s) else xO (string_pos s)
  end.

Lemma string_pos_string p : string_pos (pos_string p) = p.
Proof. induction p as [p IH|p IH|]; cbn; [by rewrite IH..|done]. Qed.

Definition flat (p : payload) : Z * option (list (string * string)) * option (list (string * string)) :=
  (IssuedAt p, map_to_list <$> Values p, map_to_list <$> FlashValues p).
Definition unflat (t : Z * option (list (string * string)) * option (list (string * string)))
    : payload :=
  {| IssuedAt := t.1.1; Values := list_to_map <$> t.1.2; FlashValues := list_to_map <$> t.2 |}.

Lemma unflat_flat p : unflat (flat p) = p.
Proof.
  destruct p as [i [v|] [f|]]; unfold unflat, flat; cbn; by rewrite ?list_to_map_to_list.
Qed.

Definition entropy (n : nat) : string :=
  String (ascii_of_nat n) "0123456789abcdef0123456789abcde".

Definition R : runtime :=
  {| marshal := fun p => Ok (pos_string (encode (flat p)));
     unmarshal := fun s => match decode (string_pos s) with
                           | Some t => Ok (unflat t)
                           | None => Err (Errorf "json")
                           end;
     hmac := fun key m => key +:+ m;
     now_reading := fun n => 1000 * Hour + Z.of_nat n * Minute;
     random_bytes := fun n => Ok (entropy n) |}.

Lemma R_json p : json_keeps R p.
Proof.
  intros encoded Hm. cbn in Hm. simplify_eq. exists p. cbn.
  by rewrite string_pos_string, decode_encode, unflat_flat.
Qed.

Lemma R_issuance : json_keeps_issuance R.
Proof. intros p encoded Hm. destruct (R_json p encoded Hm) as (p' & ? & ? & _). eauto. Qed.

Definition manager : Manager :=
  {| secret := "0123456789abcdef0123456789abcdef";
     cookie := {| Name := "goforge_session"; Path := "/"; Domain := EmptyString;
                  UnsafeAllowHTTP := false; UnsafeAllowJavaScript := false; SameSite := 2 |};
     policy := {| IdleLifetime := Hour; AbsoluteLifetime := 2 * Hour |} |}.

Definition store_now (n : nat) : time := 1000 * Hour.
#[global] Instance Sample_store : SessionStore MemorySessions := MemorySessions_store store_now.
#[global] Instance Sample_spec : SessionStoreSpec MemorySessions := MemorySessions_spec store_now.
#[global] Instance Sample_answers : SessionStoreAnswers MemorySessions :=
  MemorySessions_answers store_now.

Definition empty_world : world MemorySessions :=
  {| w_store := {| rows := ∅; reads := 0 |}; w_tick := 0;
     w_response := Some {| Written := Some false; SetCookies := [] |}; w_session := None |}.

Definition issued (age : duration) : Session :=
  {| id := hexEncode (entropy 9); persistedID := EmptyString; values := {["user" := "7"]};
     oldFlash := ∅; newFlash := {["notice" := "saved"]};
     issuedAt := 1000 * Hour - age; createOnMissingRotation := false |}.

(** The world after a session of the given age was stored. *)
Definition stored_world (age : duration) : world MemorySessions :=
  (Save R manager (with_session (Some (issued age)) empty_world)).2.

Definition session_cookie : string := sign R manager (hexEncode (entropy 9)).

End Sample.

Lemma absolute_deadline_cannot_be_extended_witness :
  exists s w1 w2 w3 (w := Sample.stored_world Minute),
    Load Sample.R Sample.manager (Some Sample.session_cookie) w = (Ok s, w1) /\
    rtc (handler_step Sample.R) (with_session (Some s) w1) w2 /\
    Save Sample.R Sample.manager w2 = (Ok tt, w3) /\
    exists encoded idle stored s3,
      row (w_store w) (verify Sample.R Sample.manager Sample.session_cookie)
        = Some (encoded, idle) /\
      unmarshal Sample.R encoded = Ok stored /\ w_session w3 = Some s3 /\
      ((id s3 = EmptyString /\
        row (w_store w3) (verify Sample.R Sample.manager Sample.session_cookie) = None) \/
       (exists encoded' deadline p,
          row (w_store w3) (id s3) = Some (encoded', deadline) /\
          deadline <= IssuedAt stored + AbsoluteLifetime (policy Sample.manager) /\
          unmarshal Sample.R encoded' = Ok p /\ IssuedAt p = IssuedAt stored)).
Proof.
  set (w := Sample.stored_world Minute).
  set (l := Load Sample.R Sample.manager (Some Sample.session_cookie) w).
  set (s := match l.1 with Ok s => s | Err _ => Sample.issued 0 end).
  set (w2 := with_session (Some (Session_Forget "user" s)) l.2).
  exists s, l.2, w2, (Save Sample.R Sample.manager w2).2.
  assert (HL : l = (Ok s, l.2)) by (vm_compute; reflexivity).
  assert (HS : Save Sample.R Sample.manager w2 = (Ok tt, (Save Sample.R Sample.manager w2).2))
    by (vm_compute; reflexivity).
  assert (Hrun : rtc (handler_step Sample.R) (with_session (Some s) l.2) w2)
    by (apply rtc_once; apply (step_forget _ (with_session (Some s) l.2) s "user"); reflexivity).
  split; [exact HL|]. split; [exact Hrun|]. split; [exact HS|].
  apply (absolute_deadline_cannot_be_extended Sample.R Sample.manager _ w s l.2 w2 _
           Sample.R_issuance eq_refl HL); [vm_compute; discriminate|exact Hrun|exact HS].
Defined.

Lemma absolutely_expired_session_is_replaced_witness :
  exists s w1, Load Sample.R Sample.manager (Some Sample.session_cookie)
      {| w_store := w_store (Sample.stored_world (119 * Minute)); w_tick := 40;
         w_response := None; w_session := None |} = (Ok s, w1) /\
    persistedID s = EmptyString /\ values s = ∅ /\ oldFlash s = ∅ /\
    row (w_store w1) (hexEncode (Sample.entropy 9)) = None.
Proof.
  set (w := {| w_store := w_store (Sample.stored_world (119 * Minute)); w_tick := 40;
               w_response := None; w_session := None |}).
  destruct (row (w_store w) (hexEncode (Sample.entropy 9))) as [[encoded deadline]|] eqn:Hrow;
    [|vm_compute in Hrow; discriminate].
  destruct (unmarshal Sample.R encoded) as [stored|] eqn:Hu;
    [|vm_compute in Hrow; injection Hrow as <- <-; vm_compute in Hu; discriminate].
  assert (Hv : verify Sample.R Sample.manager Sample.session_cookie = hexEncode (Sample.entropy 9))
    by (vm_compute; reflexivity).
  destruct (absolutely_expired_session_is_replaced Sample.R Sample.manager
              Sample.session_cookie w encoded deadline stored)
    as (s & w1 & HL & Hp & Hvals & Hflash & Hgone & _).
  - intros n. reflexivity.
  - reflexivity.
  - rewrite Hv. discriminate.
  - rewrite Hv. exact Hrow.
  - vm_compute in Hrow. injection Hrow as <- <-. vm_compute. reflexivity.
  - exact Hu.
  - vm_compute in Hrow. injection Hrow as <- <-. vm_compute in Hu. injection Hu as <-.
    vm_compute. discriminate.
  - exists s, w1. rewrite Hv in Hgone. repeat split; assumption.
Defined.

Lemma rotation_retires_old_id_witness :
  exists s2 w2 (w := Sample.stored_world Minute),
    Save Sample.R Sample.manager (Regenerate Sample.R w).2 = (Ok tt, w2) /\
    w_session w2 = Some s2 /\ is_Some (row (w_store w2) (id s2)) /\
    row (w_store w2) (hexEncode (Sample.entropy 9)) = None.
Proof.
  set (w := Sample.stored_world Minute).
  set (s := saved (Sample.issued Minute)).
  set (w1 := (Regenerate Sample.R w).2).
  set (w2 := (Save Sample.R Sample.manager w1).2).
  destruct (rotation_retires_old_id Sample.R Sample.manager w s w1 (Ok tt) w2)
    as (s2 & Hs2 & _ & _ & Hnew & Hold & _).
  - vm_compute. reflexivity.
  - vm_compute. discriminate.
  - vm_compute. eexists. reflexivity.
  - vm_compute. reflexivity.
  - intros s1 H1. vm_compute in H1. injection H1 as <-. vm_compute. discriminate.
  - vm_compute. reflexivity.
  - vm_compute. reflexivity.
  - exists s2, w2. split; [vm_compute; reflexivity|]. split; [exact Hs2|]. split; [exact Hnew|].
    exact Hold.
Defined.

Lemma save_then_load_roundtrip_witness :
  exists c s2 w3 (w1 := Sample.stored_world Minute),
    Load Sample.R Sample.manager (Some (c_Value c)) w1 = (Ok s2, w3) /\
    values s2 = {["user" := "7"]} /\ oldFlash s2 = {["notice" := "saved"]} /\ newFlash s2 = ∅.
Proof.
  set (w1 := Sample.stored_world Minute).
  destruct (save_then_load_roundtrip Sample.R Sample.manager
              (with_session (Some (Sample.issued Minute)) Sample.empty_world)
              (Sample.issued Minute) (Sample.entropy 9) w1 w1)
    as (c & s2 & w3 & _ & HL & _ & _ & Hv & Ho & Hn & _).
  - reflexivity.
  - apply Sample.R_json.
  - vm_compute. reflexivity.
  - vm_compute. reflexivity.
  - eexists. reflexivity.
  - vm_compute. reflexivity.
  - vm_compute. reflexivity.
  - vm_compute. discriminate.
  - vm_compute. reflexivity.
  - reflexivity.
  - vm_compute. reflexivity.
  - vm_compute. reflexivity.
  - exists c, s2, w3. repeat split; assumption.
Defined.
