(* ===== verification/JobTypes.v ===== *)
(** * Job contracts

    Package [job]: the data every part of the queue exchanges ([types.go]), the
    [Store] contract as a type class, lifecycle events and the bounded emitter
    that delivers them to an observer. *)

From S2P Require Import Prelude GoStrings GoRegexp.
Local Open Scope Z_scope.

Definition DefaultMaxPayloadBytes : Z := 262144.
Definition DefaultMaxErrorBytes : Z := 8192.
Definition MaxNameBytes : Z := 128.
Definition MaxQueueBytes : Z := 64.
Definition MaxDedupKeyBytes : Z := 256.

Definition ErrLeaseLost : error := Sentinel "job: lease lost".
Definition ErrDuplicate : error := Sentinel "job: duplicate registration".
Definition ErrPayloadTooLarge : error := Sentinel "job: payload too large".
Definition ErrHandlerCancellationTimeout : error :=
  Sentinel "job: handler did not stop after cancellation".

Record Policy : Type := {
  p_Queue : string;
  p_MaxAttempts : Z;
  p_Timeout : duration;
  p_Backoff : list duration
}.

Record DispatchResult : Type := { dr_ID : string; dr_Enqueued : bool }.

Record EnqueueRequest : Type := {
  e_ID : string;
  e_Queue : string;
  e_Name : string;
  e_Payload : string;
  e_Priority : Z;
  e_Delay : duration;
  e_At : option time;
  e_MaxAttempts : Z;
  e_Timeout : duration;
  e_Backoff : list duration;
  e_DedupKey : string
}.

Record ClaimRequest : Type := {
  c_Queues : list string;
  c_Names : list string;
  c_Limit : Z;
  c_WorkerID : string;
  c_LeaseDuration : duration
}.

Record Lease : Type := { l_JobID : string; l_WorkerID : string; l_Generation : Z }.

#[export] Instance Lease_eq_dec : EqDecision Lease.
Proof. solve_decision. Defined.

Record Delivery : Type := {
  d_ID : string;
  d_Queue : string;
  d_Name : string;
  d_Payload : string;
  d_Priority : Z;
  d_Attempt : Z;
  d_MaxAttempts : Z;
  d_Timeout : duration;
  d_Backoff : list duration;
  d_DedupKey : string;
  d_AvailableAt : time;
  d_LeasedAt : time;
  d_LeaseExpires : time;
  d_Lease : Lease
}.

Record RetryRequest : Type := {
  rr_Lease : Lease;
  rr_Delay : duration;
  rr_ErrorKind : string;
  rr_Error : string
}.

Record FailureRequest : Type := { fr_Lease : Lease; fr_Kind : string; fr_Error : string }.

Record FailedJob : Type := {
  fj_ID : string;
  fj_Queue : string;
  fj_Name : string;
  fj_Priority : Z;
  fj_Attempts : Z;
  fj_MaxAttempts : Z;
  fj_Timeout : duration;
  fj_Backoff : list duration;
  fj_DedupKey : string;
  fj_FailureKind : string;
  fj_FailureMessage : string;
  fj_CreatedAt : time;
  fj_FailedAt : time
}.

Record FailedJobDetail : Type := { fd_Job : FailedJob; fd_Payload : string }.

(** [job.Store].  The first argument of [Enqueue] says whether the executor is
    present ([ValidateExecutor]). *)
Class JobStore (St : Type) : Type := {
  store_Enqueue : bool -> EnqueueRequest -> M St DispatchResult;
  store_Claim : ClaimRequest -> M St (list Delivery);
  store_Heartbeat : Lease -> duration -> M St bool;
  store_Ack : Lease -> M St bool;
  store_Retry : RetryRequest -> M St bool;
  store_Release : Lease -> M St bool;
  store_Fail : FailureRequest -> M St bool;
  store_FailExhausted : list string -> list string -> Z -> M St (list FailedJob)
}.

(** [ValidateExecutor] *)
Definition ValidateExecutor (present : bool) : option error :=
  if present then None else Some (Errorf "job: executor is required").

(** [wrapStore] around a failing call. *)
Definition wrapStore {St A} (operation : string) (m : M St A) : M St A :=
  wrapM ("job: " +:+ operation +:+ ": %w") m.

(** ** Events *)

Inductive EventKind : Type :=
| EventDispatched | EventDuplicate | EventClaimed | EventStarted | EventSucceeded
| EventRetryScheduled | EventFailed | EventLeaseLost | EventAbandoned
| EventWorkerStarted | EventWorkerStopping | EventWorkerStopped.

#[export] Instance EventKind_eq_dec : EqDecision EventKind.
Proof. solve_decision. Defined.

Record Event : Type := {
  ev_Kind : EventKind;
  ev_JobID : string;
  ev_Name : string;
  ev_Queue : string;
  ev_WorkerID : string;
  ev_Attempt : Z;
  ev_Duration : duration;
  ev_RetryAfter : duration;
  ev_Outcome : string;
  ev_At : time
}.

Definition observerQueueCapacity : Z := 256.

(** The emitter.  [delivered] is what the observer has received, in order;
    [taken] is the event the drain goroutine holds outside the lock; [running]
    is true while that goroutine exists. *)
Record eventEmitter : Type := {
  pending : list Event;
  taken : option Event;
  running : bool;
  dropped : Z;
  delivered : list Event
}.

Definition newEventEmitter : eventEmitter :=
  {| pending := []; taken := None; running := false; dropped := 0; delivered := [] |}.

Definition emit (event : Event) (em : eventEmitter) : eventEmitter :=
  if Z.of_nat (length (pending em)) >=? observerQueueCapacity
  then {| pending := pending em; taken := taken em; running := running em;
          dropped := (dropped em + 1) mod 18446744073709551616; delivered := delivered em |}
  else {| pending := pending em ++ [event]; taken := taken em; running := true;
          dropped := dropped em; delivered := delivered em |}.

(** One turn of the drain goroutine: finish the observer call it is in (a panic
    is recovered), then take the next event or stop. *)
Definition drain_call (em : eventEmitter) : eventEmitter :=
  match taken em with
  | Some ev => {| pending := pending em; taken := None; running := running em;
                  dropped := dropped em; delivered := delivered em ++ [ev] |}
  | None => em
  end.

Definition drain_take (em : eventEmitter) : eventEmitter :=
  if running em then
    match taken em, pending em with
    | Some _, _ => em
    | None, [] => {| pending := []; taken := None; running := false;
                     dropped := dropped em; delivered := delivered em |}
    | None, ev :: rest => {| pending := rest; taken := Some ev; running := true;
                             dropped := dropped em; delivered := delivered em |}
    end
  else em.

(** [flush] succeeds exactly when the idle channel is closed: no drain runs. *)
Definition flush_ready (em : eventEmitter) : bool := negb (running em).
