(* ===== verification/JobStore.v ===== *)
(** * The PostgreSQL job store

    Package [job/postgres]: the two tables of [schema.go] with their constraints,
    every statement of [store.go] and [admin.go] as a function of the tables and
    the database clock, and the Go code around the statements.

    What PostgreSQL does with a value it is given (the [uuid], [jsonb] and
    [timestamptz] input conversions) and the order in which it returns updated
    rows are the fields of [pgsql]. *)

From S2P Require Import Prelude GoStrings GoRegexp GoJson JobTypes.
Local Open Scope Z_scope.

(** ** Tables *)

Record jobRow : Type := {
  j_queue : string;
  j_name : string;
  j_payload : string;
  j_priority : Z;
  j_available_at : time;
  j_attempts : Z;
  j_max_attempts : Z;
  j_timeout_ms : Z;
  j_backoff_ms : list Z;
  j_lease_owner : option string;
  j_lease_generation : Z;
  j_leased_at : option time;
  j_lease_expires_at : option time;
  j_dedup_key : option string;
  j_last_error_kind : option string;
  j_last_error : option string;
  j_created_at : time;
  j_updated_at : time
}.

Record failedRow : Type := {
  f_queue : string;
  f_name : string;
  f_payload : string;
  f_priority : Z;
  f_attempts : Z;
  f_max_attempts : Z;
  f_timeout_ms : Z;
  f_backoff_ms : list Z;
  f_dedup_key : option string;
  f_failure_kind : string;
  f_failure_message : string;
  f_created_at : time;
  f_failed_at : time
}.

Definition between (lo z hi : Z) : bool := (lo <=? z) && (z <=? hi).
Definition opt_check {A} (p : A -> bool) (o : option A) : bool :=
  match o with Some a => p a | None => true end.

(** The columns both tables constrain alike. *)
Definition policy_check (queue name payload : string) (priority attempts max_attempts timeout_ms : Z)
    (backoff_ms : list Z) (dedup_key : option string) : bool :=
  (byte_len queue <=? 64) && re_match queuePattern queue
  && (byte_len name <=? 128) && re_match namePattern name
  && (byte_len payload <=? 262144)
  && between (-32768) priority 32767
  && between 0 attempts 2147483647
  && between 1 max_attempts 1000
  && between 1 timeout_ms 86400000
  && between 1 (Z.of_nat (length backoff_ms)) 1000
  && forallb (fun b => between 0 b 2592000000) backoff_ms
  && opt_check (fun k => between 1 (byte_len k) 256) dedup_key.

Definition job_check (r : jobRow) : bool :=
  policy_check (j_queue r) (j_name r) (j_payload r) (j_priority r) (j_attempts r)
    (j_max_attempts r) (j_timeout_ms r) (j_backoff_ms r) (j_dedup_key r)
  && opt_check (fun o => between 1 (byte_len o) 128) (j_lease_owner r)
  && between 0 (j_lease_generation r) MaxInt64
  && opt_check (fun k => byte_len k <=? 64) (j_last_error_kind r)
  && opt_check (fun k => byte_len k <=? 8192) (j_last_error r)
  && match j_lease_owner r, j_leased_at r, j_lease_expires_at r with
     | None, None, None | Some _, Some _, Some _ => true
     | _, _, _ => false
     end.

Definition failed_check (r : failedRow) : bool :=
  policy_check (f_queue r) (f_name r) (f_payload r) (f_priority r) (f_attempts r)
    (f_max_attempts r) (f_timeout_ms r) (f_backoff_ms r) (f_dedup_key r)
  && between 1 (byte_len (f_failure_kind r)) 64
  && (byte_len (f_failure_message r) <=? 8192).

Record jobsDb : Type := {
  jobs : gmap string jobRow;
  failed : gmap string failedRow;
  jobs_tick : nat
}.

Record pgsql : Type := {
  jsonb_in : string -> option string;
  uuid_in : string -> option string;
  timestamptz_in : time -> option time;
  returning_order : nat -> list string -> list string
}.

Definition violation : error := Errorf "violates constraint".
Definition bad_input : error := Errorf "invalid input syntax".

Definition tables : Type := gmap string jobRow * gmap string failedRow.

(** Two active rows the partial unique index does not allow together. *)
Definition same_dedup (a b : jobRow) : bool :=
  bool_decide (j_queue a = j_queue b) && bool_decide (j_name a = j_name b)
  && match j_dedup_key a, j_dedup_key b with
     | Some x, Some y => bool_decide (x = y)
     | _, _ => false
     end.

Definition dedup_conflict (row : jobRow) (t : gmap string jobRow) : option (string * jobRow) :=
  snd <$> list_find (fun kv : string * jobRow => Is_true (same_dedup row kv.2)) (map_to_list t).

(** [INSERT] into the active table. *)
Definition insert_job (jid : string) (row : jobRow) (t : gmap string jobRow)
    : result (gmap string jobRow) :=
  if negb (job_check row) then Err violation
  else match t !! jid with
       | Some _ => Err violation
       | None => match dedup_conflict row t with
                 | Some _ => Err violation
                 | None => Ok (<[jid := row]> t)
                 end
       end.

Definition insert_failed (jid : string) (row : failedRow) (t : gmap string failedRow)
    : result (gmap string failedRow) :=
  if negb (failed_check row) then Err violation
  else match t !! jid with Some _ => Err violation | None => Ok (<[jid := row]> t) end.

(** Updates of several rows in one statement: all of them or none. *)
Fixpoint update_rows (f : jobRow -> jobRow) (ids : list string) (t : gmap string jobRow)
    : result (gmap string jobRow) :=
  match ids with
  | [] => Ok t
  | jid :: ids' =>
      match t !! jid with
      | None => update_rows f ids' t
      | Some row => if job_check (f row) then update_rows f ids' (<[jid := f row]> t)
                    else Err violation
      end
  end.

(** ** The store *)

Record pgJobs : Type := { maxPayload : Z; maxError : Z }.

Definition validIdentifier (value : string) : bool :=
  (byte_len value >? 0) && (byte_len value <=? 63) && re_match identifierPattern value.

Definition WithLimits (maxPayloadBytes maxErrorBytes : Z) (config : pgJobs) : result pgJobs :=
  if (maxPayloadBytes <? 1) || (maxErrorBytes <? 1)
  then Err (Errorf "job/postgres: limits must be positive")
  else Ok {| maxPayload := maxPayloadBytes; maxError := maxErrorBytes |}.

Definition defaultJobs : pgJobs :=
  {| maxPayload := DefaultMaxPayloadBytes; maxError := DefaultMaxErrorBytes |}.

(** ** [failure.go] *)

Definition safeFailureMessage (kind message : string) : string :=
  if bool_decide (kind = "panic") then "handler panicked"
  else if bool_decide (kind = "permanent") then "handler reported a permanent failure"
  else if bool_decide (kind = "timeout") then "handler deadline exceeded"
  else if bool_decide (kind = "malformed_payload") then "job payload could not be decoded"
  else if bool_decide (kind = "lease_exhausted") then "lease expired after final attempt"
  else if bool_decide (kind = "error") then
    if bool_decide (message = "handler requested a retry") then message
    else "handler returned an error"
  else "job attempt failed".

Definition boundedSafeFailureMessage (store : pgJobs) (kind message : string) : string :=
  let message := safeFailureMessage kind message in
  if byte_len message >? maxError store
  then take_string (Z.to_nat (maxError store)) message else message.

(** ** Durations *)

Definition day : duration := 24 * Hour.

Definition durationsToMilliseconds (ds : list duration) : list Z := Milliseconds <$> ds.
Definition millisecondsToDurations (ms : list Z) : list duration :=
  (fun v => (v *w Millisecond)%go) <$> ms.

Definition validateLease (lease : Lease) : option error :=
  if bool_decide (l_JobID lease = EmptyString) || bool_decide (l_WorkerID lease = EmptyString)
     || (byte_len (l_WorkerID lease) >? 128) || (l_Generation lease <? 1)
  then Some (Errorf "job/postgres: invalid lease") else None.

Definition validateDelivery (store : pgJobs) (d : Delivery) : option error :=
  if (byte_len (d_Queue d) =? 0) || (byte_len (d_Queue d) >? MaxQueueBytes)
     || negb (re_match queuePattern (d_Queue d))
     || (byte_len (d_Name d) =? 0) || (byte_len (d_Name d) >? MaxNameBytes)
     || negb (re_match namePattern (d_Name d))
     || (byte_len (d_Payload d) =? 0) || (byte_len (d_Payload d) >? maxPayload store)
     || negb (json_Valid (d_Payload d))
     || (byte_len (d_DedupKey d) >? MaxDedupKeyBytes) || (d_Attempt d <? 1)
     || (d_MaxAttempts d <? 1) || (d_MaxAttempts d >? 1000) || (d_Attempt d >? d_MaxAttempts d)
     || (d_Timeout d <? Millisecond) || (d_Timeout d >? day)
     || (Z.of_nat (length (d_Backoff d)) =? 0) || (Z.of_nat (length (d_Backoff d)) >? 1000)
     || IsZero (d_AvailableAt d) || IsZero (d_LeasedAt d) || IsZero (d_LeaseExpires d)
     || negb (After (d_LeaseExpires d) (d_LeasedAt d))
  then Some (Errorf "invalid durable delivery")
  else if existsb (fun delay => (delay <? 0) || (delay >? 30 * day)) (d_Backoff d)
  then Some (Errorf "invalid durable backoff")
  else validateLease (d_Lease d).

(** ** Statements *)

Section store.
Variable E : env.
Variable pg : pgsql.
Variable store : pgJobs.

(** One statement: it fails and changes nothing, or it runs at the database clock
    of its tick and commits; its reply may still be lost. *)
Definition statement {A} (body : time -> nat -> tables -> result (A * tables)) : M jobsDb A :=
  fun db =>
  let n := jobs_tick db in
  let unchanged := {| jobs := jobs db; failed := failed db; jobs_tick := S n |} in
  match fault E n with
  | Some err => (Err err, unchanged)
  | None =>
      match body (clock E n) n (jobs db, failed db) with
      | Err err => (Err err, unchanged)
      | Ok (a, (js, fs)) =>
          let committed := {| jobs := js; failed := fs; jobs_tick := S n |} in
          match lostReply E n with
          | Some err => (Err err, committed)
          | None => (Ok a, committed)
          end
      end
  end.

(** A text argument cast by the statement. *)
Definition cast {A B} (o : option A) (k : A -> result B) : result B :=
  match o with Some a => k a | None => Err bad_input end.

Definition with_jobs {A} (r : result (gmap string jobRow)) (a : A) (t : tables) : result (A * tables) :=
  match r with Ok js => Ok (a, (js, t.2)) | Err e => Err e end.

(** *** [Enqueue] *)

Definition new_row (request : EnqueueRequest) (payload : string) (at_ : option time) (now : time)
    : jobRow :=
  {| j_queue := e_Queue request; j_name := e_Name request; j_payload := payload;
     j_priority := e_Priority request;
     j_available_at := match at_ with
                       | Some t => t
                       | None => now + Milliseconds (e_Delay request) * Millisecond
                       end;
     j_attempts := 0; j_max_attempts := e_MaxAttempts request;
     j_timeout_ms := Milliseconds (e_Timeout request);
     j_backoff_ms := durationsToMilliseconds (e_Backoff request);
     j_lease_owner := None; j_lease_generation := 0; j_leased_at := None;
     j_lease_expires_at := None;
     j_dedup_key := if bool_decide (e_DedupKey request = EmptyString) then None
                    else Some (e_DedupKey request);
     j_last_error_kind := None; j_last_error := None; j_created_at := now; j_updated_at := now |}.

(** Both statements: without a deduplication key a plain insert; with one, a
    conflict on the partial index keeps the row that is already there. *)
Definition enqueue_row (jid : string) (row : jobRow) (t : tables) : result (string * tables) :=
  if negb (job_check row) then Err violation
  else match dedup_conflict row t.1 with
       | Some (existing, _) => Ok (existing, t)
       | None => with_jobs (insert_job jid row t.1) jid t
       end.

Definition sql_enqueue (request : EnqueueRequest) (now : time) (_ : nat) (t : tables)
    : result (string * tables) :=
  cast (uuid_in pg (e_ID request)) (fun jid =>
  cast (jsonb_in pg (e_Payload request)) (fun payload =>
  match e_At request with
  | None => enqueue_row jid (new_row request payload None now) t
  | Some at_ => cast (timestamptz_in pg at_) (fun at_ =>
                enqueue_row jid (new_row request payload (Some at_) now) t)
  end)).

Definition valid_enqueue (request : EnqueueRequest) : option error :=
  if (byte_len (e_Name request) =? 0) || (byte_len (e_Name request) >? MaxNameBytes)
     || negb (re_match namePattern (e_Name request))
     || (byte_len (e_Queue request) =? 0) || (byte_len (e_Queue request) >? MaxQueueBytes)
     || negb (re_match queuePattern (e_Queue request))
  then Some (Errorf "enqueue: invalid name or queue")
  else if (byte_len (e_Payload request) =? 0) || (byte_len (e_Payload request) >? maxPayload store)
     || negb (json_Valid (e_Payload request))
  then Some (Errorf "enqueue: invalid or oversized payload")
  else if byte_len (e_DedupKey request) >? MaxDedupKeyBytes
  then Some (Errorf "enqueue: oversized deduplication key")
  else if (e_MaxAttempts request <? 1) || (e_MaxAttempts request >? 1000)
     || (e_Timeout request <? Millisecond) || (e_Timeout request >? day)
     || (Z.of_nat (length (e_Backoff request)) =? 0)
     || (Z.of_nat (length (e_Backoff request)) >? 1000)
     || (e_Delay request <? 0) || (e_Delay request >? 365 * day)
     || ((e_Delay request >? 0) && (e_Delay request <? Millisecond))
     || opt_check IsZero (e_At request) && bool_decide (is_Some (e_At request))
     || bool_decide (is_Some (e_At request)) && negb (e_Delay request =? 0)
     || (e_Priority request <? -32768) || (e_Priority request >? 32767)
  then Some (Errorf "enqueue: invalid execution policy")
  else if existsb (fun delay => (delay <? 0) || (delay >? 30 * day)
                                || ((delay >? 0) && (delay <? Millisecond))) (e_Backoff request)
  then Some (Errorf "enqueue: invalid backoff")
  else None.

Definition Enqueue (executorPresent : bool) (request : EnqueueRequest) : M jobsDb DispatchResult :=
  match ValidateExecutor executorPresent with
  | Some err => throw (Wrapf "enqueue: %w" err)
  | None =>
  match valid_enqueue request with
  | Some err => throw err
  | None =>
      if bool_decide (e_DedupKey request = EmptyString) then
        bindM (wrapM "enqueue: %w" (statement (sql_enqueue request))) (fun jid =>
        ret {| dr_ID := jid; dr_Enqueued := true |})
      else
        bindM (wrapM "enqueue deduplicated: %w" (statement (sql_enqueue request))) (fun jid =>
        ret {| dr_ID := jid; dr_Enqueued := bool_decide (jid = e_ID request) |})
  end end.
(** *** [Claim] *)

Definition claimable (queues names : list string) (now : time) (held : gset string)
    (kv : string * jobRow) : bool :=
  bool_decide (j_queue kv.2 ∈ queues) && bool_decide (j_name kv.2 ∈ names)
  && (j_available_at kv.2 <=? now) && (j_attempts kv.2 <? j_max_attempts kv.2)
  && negb (bool_decide (kv.1 ∈ held)).

(** [ORDER BY priority DESC, available_at, id] *)
Definition claim_le (a b : string * jobRow) : Prop :=
  j_priority b.2 < j_priority a.2 \/
  (j_priority a.2 = j_priority b.2 /\
   (j_available_at a.2 < j_available_at b.2 \/
    (j_available_at a.2 = j_available_at b.2 /\ Is_true (String.leb a.1 b.1)))).

#[export] Instance claim_le_dec : RelDecision claim_le.
Proof. intros a b; unfold claim_le; apply _. Defined.

(** The rows selected, in order: locked rows are skipped before the limit. *)
Definition claim_candidates (request : ClaimRequest) (now : time) (held : gset string)
    (t : gmap string jobRow) : list (string * jobRow) :=
  take (Z.to_nat (c_Limit request))
    (merge_sort claim_le
       (filter (fun kv => Is_true (claimable (c_Queues request) (c_Names request) now held kv))
          (map_to_list t))).

Definition leased (owner : string) (leaseMS : Z) (now : time) (r : jobRow) : jobRow :=
  {| j_queue := j_queue r; j_name := j_name r; j_payload := j_payload r;
     j_priority := j_priority r; j_available_at := now + leaseMS * Millisecond;
     j_attempts := j_attempts r + 1; j_max_attempts := j_max_attempts r;
     j_timeout_ms := j_timeout_ms r; j_backoff_ms := j_backoff_ms r;
     j_lease_owner := Some owner; j_lease_generation := j_lease_generation r + 1;
     j_leased_at := Some now; j_lease_expires_at := Some (now + leaseMS * Millisecond);
     j_dedup_key := j_dedup_key r; j_last_error_kind := j_last_error_kind r;
     j_last_error := j_last_error r; j_created_at := j_created_at r; j_updated_at := now |}.

Definition sql_claim (request : ClaimRequest) (now : time) (n : nat) (t : tables)
    : result (list (string * jobRow) * tables) :=
  let ids := fst <$> claim_candidates request now (locked E n) t.1 in
  match update_rows (leased (c_WorkerID request) (Milliseconds (c_LeaseDuration request)) now)
          ids t.1 with
  | Err err => Err err
  | Ok js =>
      Ok (omap (fun jid => (fun r => (jid, r)) <$> js !! jid) (returning_order pg n ids), (js, t.2))
  end.

(** One scanned row; [None] is a NULL where [Scan] wants a timestamp. *)
Definition delivery_of (worker : string) (kv : string * jobRow) : option Delivery :=
  let '(jid, r) := kv in
  match j_leased_at r, j_lease_expires_at r with
  | Some leasedAt, Some expires =>
      Some {| d_ID := jid; d_Queue := j_queue r; d_Name := j_name r; d_Payload := j_payload r;
              d_Priority := j_priority r; d_Attempt := j_attempts r;
              d_MaxAttempts := j_max_attempts r;
              d_Timeout := (j_timeout_ms r *w Millisecond)%go;
              d_Backoff := millisecondsToDurations (j_backoff_ms r);
              d_DedupKey := default EmptyString (j_dedup_key r);
              d_AvailableAt := j_available_at r; d_LeasedAt := leasedAt; d_LeaseExpires := expires;
              d_Lease := {| l_JobID := jid; l_WorkerID := worker;
                            l_Generation := j_lease_generation r |} |}
  | _, _ => None
  end.

Fixpoint scan_claims (worker : string) (rows : list (string * jobRow)) : result (list Delivery) :=
  match rows with
  | [] => Ok []
  | kv :: rows' =>
      match delivery_of worker kv with
      | None => Err (Wrapf "scan claim: %w" (Errorf "sql: Scan error"))
      | Some d =>
          match validateDelivery store d with
          | Some err => Err (Wrapf "scan claim: %w" err)
          | None => match scan_claims worker rows' with
                    | Ok ds => Ok (d :: ds)
                    | Err err => Err err
                    end
          end
      end
  end.

Definition valid_claim (request : ClaimRequest) : option error :=
  if (Z.of_nat (length (c_Queues request)) =? 0) || (Z.of_nat (length (c_Names request)) =? 0)
     || (c_Limit request <? 1) || (c_Limit request >? 10000)
     || bool_decide (c_WorkerID request = EmptyString) || (c_LeaseDuration request <? Millisecond)
  then Some (Errorf "claim: invalid request")
  else if byte_len (c_WorkerID request) >? 128 then Some (Errorf "claim: invalid worker id")
  else if existsb (fun q => (byte_len q >? MaxQueueBytes) || negb (re_match queuePattern q))
            (c_Queues request) then Some (Errorf "claim: invalid queue")
  else if existsb (fun q => (byte_len q >? MaxNameBytes) || negb (re_match namePattern q))
            (c_Names request) then Some (Errorf "claim: invalid name")
  else None.

Definition Claim (request : ClaimRequest) : M jobsDb (list Delivery) :=
  match valid_claim request with
  | Some err => throw err
  | None =>
      bindM (wrapM "claim: %w" (statement (sql_claim request))) (fun rows db =>
      (scan_claims (c_WorkerID request) rows, db))
  end.

(** *** Fenced statements *)

(** [id = $1 AND lease_owner = $2 AND lease_generation = $3 AND lease_expires_at > now] *)
Definition holds (lease : Lease) (now : time) (r : jobRow) : bool :=
  bool_decide (j_lease_owner r = Some (l_WorkerID lease))
  && (j_lease_generation r =? l_Generation lease)
  && match j_lease_expires_at r with Some e => now <? e | None => false end.

Definition fenced_row (lease : Lease) (now : time) (t : gmap string jobRow)
    : result (option (string * jobRow)) :=
  cast (uuid_in pg (l_JobID lease)) (fun jid =>
  match t !! jid with
  | Some r => Ok (if holds lease now r then Some (jid, r) else None)
  | None => Ok None
  end).

(** [execFenced]: the statement and whether it affected exactly one row. *)
Definition sql_fenced (lease : Lease) (change : time -> jobRow -> option jobRow) (now : time)
    (_ : nat) (t : tables) : result (bool * tables) :=
  match fenced_row lease now t.1 with
  | Err err => Err err
  | Ok None => Ok (false, t)
  | Ok (Some (jid, r)) =>
      match change now r with
      | None => Ok (true, (delete jid t.1, t.2))
      | Some r' => if job_check r' then Ok (true, (<[jid := r']> t.1, t.2)) else Err violation
      end
  end.

Definition extended (leaseMS : Z) (now : time) (r : jobRow) : option jobRow :=
  Some {| j_queue := j_queue r; j_name := j_name r; j_payload := j_payload r;
     j_priority := j_priority r; j_available_at := now + leaseMS * Millisecond;
     j_attempts := j_attempts r; j_max_attempts := j_max_attempts r;
     j_timeout_ms := j_timeout_ms r; j_backoff_ms := j_backoff_ms r;
     j_lease_owner := j_lease_owner r; j_lease_generation := j_lease_generation r;
     j_leased_at := j_leased_at r; j_lease_expires_at := Some (now + leaseMS * Millisecond);
     j_dedup_key := j_dedup_key r; j_last_error_kind := j_last_error_kind r;
     j_last_error := j_last_error r; j_created_at := j_created_at r; j_updated_at := now |}.

Definition Heartbeat (lease : Lease) (d : duration) : M jobsDb bool :=
  if bool_decide (is_Some (validateLease lease)) || (d <? Millisecond)
  then throw (Errorf "heartbeat: invalid lease or duration")
  else statement (sql_fenced lease (extended (Milliseconds d))).

Definition Ack (lease : Lease) : M jobsDb bool :=
  match validateLease lease with
  | Some err => throw err
  | None => statement (sql_fenced lease (fun _ _ => None))
  end.

(** The row without its lease, available [delayMS] after now. *)
Definition unleased (delayMS : Z) (failure : option (string * string)) (now : time) (r : jobRow)
    : option jobRow :=
  Some {| j_queue := j_queue r; j_name := j_name r; j_payload := j_payload r;
     j_priority := j_priority r; j_available_at := now + delayMS * Millisecond;
     j_attempts := j_attempts r; j_max_attempts := j_max_attempts r;
     j_timeout_ms := j_timeout_ms r; j_backoff_ms := j_backoff_ms r;
     j_lease_owner := None; j_lease_generation := j_lease_generation r;
     j_leased_at := None; j_lease_expires_at := None;
     j_dedup_key := j_dedup_key r;
     j_last_error_kind := match failure with Some (k, _) => Some k | None => j_last_error_kind r end;
     j_last_error := match failure with Some (_, m) => Some m | None => j_last_error r end;
     j_created_at := j_created_at r; j_updated_at := now |}.

Definition Retry (request : RetryRequest) : M jobsDb bool :=
  if bool_decide (is_Some (validateLease (rr_Lease request))) || (rr_Delay request <? 0)
     || (byte_len (rr_ErrorKind request) >? 64) || (byte_len (rr_Error request) >? maxError store)
  then throw (Errorf "retry: invalid request")
  else
    let safeMessage := boundedSafeFailureMessage store (rr_ErrorKind request) (rr_Error request) in
    statement (sql_fenced (rr_Lease request)
      (unleased (Milliseconds (rr_Delay request)) (Some (rr_ErrorKind request, safeMessage)))).

Definition Release (lease : Lease) : M jobsDb bool :=
  match validateLease lease with
  | Some err => throw err
  | None => statement (sql_fenced lease (unleased 0 None))
  end.

(** *** Terminal failures *)

Definition terminal (kind message : string) (now : time) (r : jobRow) : failedRow :=
  {| f_queue := j_queue r; f_name := j_name r; f_payload := j_payload r;
     f_priority := j_priority r; f_attempts := j_attempts r; f_max_attempts := j_max_attempts r;
     f_timeout_ms := j_timeout_ms r; f_backoff_ms := j_backoff_ms r;
     f_dedup_key := j_dedup_key r; f_failure_kind := kind; f_failure_message := message;
     f_created_at := j_created_at r; f_failed_at := now |}.

Definition sql_fail (lease : Lease) (kind message : string) (now : time) (_ : nat) (t : tables)
    : result (bool * tables) :=
  match fenced_row lease now t.1 with
  | Err err => Err err
  | Ok None => Ok (false, t)
  | Ok (Some (jid, r)) =>
      match insert_failed jid (terminal kind message now r) t.2 with
      | Ok fs => Ok (true, (delete jid t.1, fs))
      | Err err => Err err
      end
  end.

Definition Fail (request : FailureRequest) : M jobsDb bool :=
  if bool_decide (is_Some (validateLease (fr_Lease request)))
     || (byte_len (fr_Kind request) =? 0) || (byte_len (fr_Kind request) >? 64)
     || (byte_len (fr_Error request) >? maxError store)
  then throw (Errorf "fail: invalid request")
  else
    let safeMessage := boundedSafeFailureMessage store (fr_Kind request) (fr_Error request) in
    wrapM "fail: %w" (statement (sql_fail (fr_Lease request) (fr_Kind request) safeMessage)).

Definition exhausted (queues names : list string) (now : time) (held : gset string)
    (kv : string * jobRow) : bool :=
  bool_decide (j_queue kv.2 ∈ queues) && bool_decide (j_name kv.2 ∈ names)
  && bool_decide (is_Some (j_lease_owner kv.2)) && (j_available_at kv.2 <=? now)
  && (j_max_attempts kv.2 <=? j_attempts kv.2) && negb (bool_decide (kv.1 ∈ held)).

(** [ORDER BY available_at, id] *)
Definition exhausted_le (a b : string * jobRow) : Prop :=
  j_available_at a.2 < j_available_at b.2 \/
  (j_available_at a.2 = j_available_at b.2 /\ Is_true (String.leb a.1 b.1)).

#[export] Instance exhausted_le_dec : RelDecision exhausted_le.
Proof. intros a b; unfold exhausted_le; apply _. Defined.

Definition exhausted_candidates (queues names : list string) (limit : Z) (now : time)
    (held : gset string) (t : gmap string jobRow) : list (string * jobRow) :=
  take (Z.to_nat limit)
    (merge_sort exhausted_le
       (filter (fun kv => Is_true (exhausted queues names now held kv)) (map_to_list t))).

(** Move rows to the failed table: all of them or none. *)
Fixpoint move_rows (kind message : string) (now : time) (rows : list (string * jobRow)) (t : tables)
    : result tables :=
  match rows with
  | [] => Ok t
  | (jid, r) :: rows' =>
      match insert_failed jid (terminal kind message now r) t.2 with
      | Ok fs => move_rows kind message now rows' (delete jid t.1, fs)
      | Err err => Err err
      end
  end.

Definition sql_fail_exhausted (queues names : list string) (limit : Z) (now : time) (n : nat)
    (t : tables) : result (list (string * jobRow) * tables) :=
  let rows := exhausted_candidates queues names limit now (locked E n) t.1 in
  match move_rows "lease_exhausted" "lease expired after final attempt" now rows t with
  | Ok t' => Ok (omap (fun jid => (fun r => (jid, r)) <$> t.1 !! jid)
                   (returning_order pg n (fst <$> rows)), t')
  | Err err => Err err
  end.

(** [id, queue, name, attempts] are scanned; the other fields keep their zero value. *)
Definition exhausted_item (kv : string * jobRow) : FailedJob :=
  {| fj_ID := kv.1; fj_Queue := j_queue kv.2; fj_Name := j_name kv.2; fj_Priority := 0;
     fj_Attempts := j_attempts kv.2; fj_MaxAttempts := 0; fj_Timeout := 0; fj_Backoff := [];
     fj_DedupKey := EmptyString; fj_FailureKind := "lease_exhausted";
     fj_FailureMessage := EmptyString; fj_CreatedAt := zeroTime; fj_FailedAt := zeroTime |}.

Definition FailExhausted (queues names : list string) (limit : Z) : M jobsDb (list FailedJob) :=
  if (Z.of_nat (length queues) =? 0) || (Z.of_nat (length names) =? 0)
     || (limit <? 1) || (limit >? 10000)
  then throw (Errorf "fail exhausted: invalid request")
  else bindM (wrapM "fail exhausted: %w" (statement (sql_fail_exhausted queues names limit)))
         (fun rows => ret (exhausted_item <$> rows)).

(** ** [admin.go] *)

(** [ORDER BY failed_at DESC, id] *)
Definition failed_le (a b : string * failedRow) : Prop :=
  f_failed_at b.2 < f_failed_at a.2 \/
  (f_failed_at a.2 = f_failed_at b.2 /\ Is_true (String.leb a.1 b.1)).

#[export] Instance failed_le_dec : RelDecision failed_le.
Proof. intros a b; unfold failed_le; apply _. Defined.

Definition failed_item (kv : string * failedRow) : FailedJob :=
  let '(jid, r) := kv in
  {| fj_ID := jid; fj_Queue := f_queue r; fj_Name := f_name r; fj_Priority := f_priority r;
     fj_Attempts := f_attempts r; fj_MaxAttempts := f_max_attempts r;
     fj_Timeout := (f_timeout_ms r *w Millisecond)%go;
     fj_Backoff := millisecondsToDurations (f_backoff_ms r);
     fj_DedupKey := default EmptyString (f_dedup_key r);
     fj_FailureKind := f_failure_kind r;
     fj_FailureMessage := boundedSafeFailureMessage store (f_failure_kind r) (f_failure_message r);
     fj_CreatedAt := f_created_at r; fj_FailedAt := f_failed_at r |}.

Definition validateFailed (item : FailedJob) (payload : option string) : option error :=
  if (byte_len (fj_Queue item) =? 0) || (byte_len (fj_Queue item) >? MaxQueueBytes)
     || negb (re_match queuePattern (fj_Queue item))
     || (byte_len (fj_Name item) =? 0) || (byte_len (fj_Name item) >? MaxNameBytes)
     || negb (re_match namePattern (fj_Name item))
     || (byte_len (fj_DedupKey item) >? MaxDedupKeyBytes) || (fj_Attempts item <? 0)
     || (fj_MaxAttempts item <? 1) || (fj_MaxAttempts item >? 1000)
     || (fj_Attempts item >? fj_MaxAttempts item)
     || (fj_Timeout item <? Millisecond) || (fj_Timeout item >? day)
     || (Z.of_nat (length (fj_Backoff item)) =? 0) || (Z.of_nat (length (fj_Backoff item)) >? 1000)
     || (byte_len (fj_FailureKind item) =? 0) || (byte_len (fj_FailureKind item) >? 64)
     || (byte_len (fj_FailureMessage item) >? maxError store)
     || IsZero (fj_CreatedAt item) || IsZero (fj_FailedAt item)
  then Some (Errorf "invalid durable failure")
  else if existsb (fun delay => (delay <? 0) || (delay >? 30 * day)) (fj_Backoff item)
  then Some (Errorf "invalid durable failure backoff")
  else match payload with
       | Some p => if (byte_len p =? 0) || (byte_len p >? maxPayload store) || negb (json_Valid p)
                   then Some (Errorf "invalid durable failure payload") else None
       | None => None
       end.

Fixpoint scan_failed (rows : list (string * failedRow)) : result (list FailedJob) :=
  match rows with
  | [] => Ok []
  | kv :: rows' =>
      match validateFailed (failed_item kv) None with
      | Some err => Err (Wrapf "job/postgres: scan failed: %w" err)
      | None => match scan_failed rows' with
                | Ok items => Ok (failed_item kv :: items)
                | Err err => Err err
                end
      end
  end.

Definition ListFailed (limit : Z) : M jobsDb (list FailedJob) :=
  let limit := if limit =? 0 then 100 else limit in
  if (limit <? 1) || (limit >? 1000)
  then throw (Errorf "job/postgres: failed-job limit must be between 1 and 1000")
  else bindM (wrapM "job/postgres: list failed: %w" (statement (fun _ _ t =>
                Ok (take (Z.to_nat limit) (merge_sort failed_le (map_to_list t.2)), t))))
         (fun rows db => (scan_failed rows, db)).

Definition FindFailed (jid : string) : M jobsDb (option FailedJobDetail) :=
  bindM (wrapM "job/postgres: find failed: %w" (statement (fun _ _ t =>
           cast (uuid_in pg jid) (fun jid =>
           Ok ((fun r => (jid, r)) <$> t.2 !! jid, t)))))
    (fun found => match found with
     | None => ret None
     | Some kv =>
         match validateFailed (failed_item kv) (Some (f_payload kv.2)) with
         | Some err => throw (Wrapf "job/postgres: scan failed: %w" err)
         | None => ret (Some {| fd_Job := failed_item kv; fd_Payload := f_payload kv.2 |})
         end
     end).

Definition restored (now : time) (r : failedRow) : jobRow :=
  {| j_queue := f_queue r; j_name := f_name r; j_payload := f_payload r;
     j_priority := f_priority r; j_available_at := now; j_attempts := 0;
     j_max_attempts := f_max_attempts r; j_timeout_ms := f_timeout_ms r;
     j_backoff_ms := f_backoff_ms r; j_lease_owner := None; j_lease_generation := 0;
     j_leased_at := None; j_lease_expires_at := None; j_dedup_key := f_dedup_key r;
     j_last_error_kind := None; j_last_error := None; j_created_at := f_created_at r;
     j_updated_at := now |}.

Definition sql_retry_failed (jid : string) (now : time) (_ : nat) (t : tables)
    : result (bool * tables) :=
  cast (uuid_in pg jid) (fun jid =>
  match t.2 !! jid with
  | None => Ok (false, t)
  | Some r => match insert_job jid (restored now r) t.1 with
              | Ok js => Ok (true, (js, delete jid t.2))
              | Err err => Err err
              end
  end).

Definition RetryFailed (jid : string) : M jobsDb bool :=
  wrapM "job/postgres: retry failed: %w" (statement (sql_retry_failed jid)).

Definition ForgetFailed (jid : string) : M jobsDb bool :=
  wrapM "job/postgres: forget failed: %w" (statement (fun _ _ t =>
    cast (uuid_in pg jid) (fun jid =>
    Ok (bool_decide (is_Some (t.2 !! jid)), (t.1, delete jid t.2))))).

Definition PgJobs_store : JobStore jobsDb :=
  {| store_Enqueue := Enqueue; store_Claim := Claim; store_Heartbeat := Heartbeat;
     store_Ack := Ack; store_Retry := Retry; store_Release := Release; store_Fail := Fail;
     store_FailExhausted := FailExhausted |}.
End store.
