(* ===== verification/JobStoreFacts.v ===== *)
(** * Theorems on the job store

    The table invariant over every sequence of store operations, lease fencing and
    exclusivity, the bound on deliveries, claim selection, deduplication, and the
    movement of jobs between the active and the failed table. *)

From S2P Require Import Prelude GoStrings GoRegexp GoJson JobTypes JobStore.
Local Open Scope Z_scope.

(** ** The table invariant *)

Definition allowlist : list string :=
  ["handler panicked"; "handler reported a permanent failure"; "handler deadline exceeded";
   "job payload could not be decoded"; "lease expired after final attempt";
   "handler requested a retry"; "handler returned an error"; "job attempt failed"].

(** A (possibly truncated) message of the allowlist. *)
Definition safe_text (s : string) : Prop := exists m, m ∈ allowlist /\ HasPrefix m s = true.

Definition lease_inv (r : jobRow) : Prop :=
  match j_lease_owner r with
  | None => True
  | Some _ => j_lease_expires_at r = Some (j_available_at r) /\
              1 <= j_lease_generation r /\ 1 <= j_attempts r
  end.

Definition row_inv (r : jobRow) : Prop :=
  job_check r = true /\ j_attempts r <= j_max_attempts r /\ lease_inv r /\
  (forall m, j_last_error r = Some m -> safe_text m).

Definition failed_inv (r : failedRow) : Prop :=
  failed_check r = true /\ f_attempts r <= f_max_attempts r /\ safe_text (f_failure_message r).

Definition tables_inv (t : tables) : Prop :=
  (forall i r, t.1 !! i = Some r -> row_inv r) /\
  (forall i r, t.2 !! i = Some r -> failed_inv r) /\
  (forall i j a b, t.1 !! i = Some a -> t.1 !! j = Some b -> i <> j -> same_dedup a b = false).

(** Two rows with the same deduplication identity. *)
Definition same_identity (a b : jobRow) : Prop :=
  j_queue a = j_queue b /\ j_name a = j_name b /\ j_dedup_key a = j_dedup_key b.

Lemma same_dedup_sym a b : same_dedup a b = same_dedup b a.
Proof.
  unfold same_dedup. rewrite (bool_decide_ext (j_queue a = _) (j_queue b = j_queue a)) by naive_solver.
  rewrite (bool_decide_ext (j_name a = _) (j_name b = j_name a)) by naive_solver.
  destruct (j_dedup_key a), (j_dedup_key b); try done.
  f_equal. apply bool_decide_ext. naive_solver.
Qed.

Lemma same_identity_dedup a a' b : same_identity a a' -> same_dedup a' b = same_dedup a b.
Proof. intros (H1 & H2 & H3). unfold same_dedup. by rewrite H1, H2, H3. Qed.

Lemma dedup_conflict_None row t :
  dedup_conflict row t = None -> forall j b, t !! j = Some b -> same_dedup row b = false.
Proof.
  unfold dedup_conflict. intros Hn j b Hb.
  destruct (list_find _ _) eqn:Hf in Hn; [done|]. rewrite list_find_None in Hf.
  rewrite Forall_forall in Hf. specialize (Hf (j, b)). rewrite elem_of_map_to_list in Hf.
  specialize (Hf Hb). cbn in Hf. by destruct (same_dedup row b).
Qed.

Lemma dedup_conflict_Some row t j b :
  dedup_conflict row t = Some (j, b) -> t !! j = Some b /\ same_dedup row b = true.
Proof.
  unfold dedup_conflict. destruct (list_find _ _) as [[n kv]|] eqn:Hf; [|done]. cbn. intros [= ->].
  apply list_find_Some in Hf as (Hl & Hd & _).
  split; [|by apply Is_true_true]. apply elem_of_map_to_list. by eapply list_elem_of_lookup_2.
Qed.

(** Replacing a row by one that keeps its identity. *)
Lemma tables_inv_update js fs i r r' :
  tables_inv (js, fs) -> js !! i = Some r -> row_inv r' -> same_identity r r' ->
  tables_inv (<[i := r']> js, fs).
Proof.
  intros (H1 & H2 & H3) Hi Hr Hid. split; [|split]; cbn in *; [|done|].
  - intros j x. destruct (decide (j = i)) as [->|Hj].
    + rewrite lookup_insert_eq. congruence.
    + rewrite lookup_insert_ne by done. eauto.
  - intros j k a b. destruct (decide (j = i)) as [->|Hj], (decide (k = i)) as [->|Hk]; try done;
      rewrite ?lookup_insert_eq, ?lookup_insert_ne by done; intros; simplify_eq; eauto.
    + rewrite (same_identity_dedup r) by done. eauto.
    + rewrite same_dedup_sym, (same_identity_dedup r) by done. rewrite same_dedup_sym. eauto.
Qed.

Lemma tables_inv_delete js fs i : tables_inv (js, fs) -> tables_inv (delete i js, fs).
Proof.
  intros (H1 & H2 & H3). split; [|split]; cbn in *; [|done|].
  - intros j x Hj. apply lookup_delete_Some in Hj as [_ Hj]. eauto.
  - intros j k a b Ha Hb. apply lookup_delete_Some in Ha as [_ Ha], Hb as [_ Hb]. eauto.
Qed.

Lemma tables_inv_insert js fs i r js' :
  tables_inv (js, fs) -> row_inv r -> insert_job i r js = Ok js' ->
  tables_inv (js', fs) /\ js !! i = None /\ js' = <[i := r]> js.
Proof.
  intros (H1 & H2 & H3) Hr. unfold insert_job. rewrite (proj1 Hr). cbn.
  destruct (js !! i) eqn:Hi; [done|]. destruct (dedup_conflict r js) eqn:Hd; [done|].
  intros [= <-]. split; [|done]. pose proof (dedup_conflict_None _ _ Hd) as Hn.
  split; [|split]; cbn in *; [|done|].
  - intros j x. destruct (decide (j = i)) as [->|Hj].
    + rewrite lookup_insert_eq. congruence.
    + rewrite lookup_insert_ne by done. eauto.
  - intros j k a b. destruct (decide (j = i)) as [->|Hj], (decide (k = i)) as [->|Hk]; try done;
      rewrite ?lookup_insert_eq, ?lookup_insert_ne by done; intros; simplify_eq; eauto.
    rewrite same_dedup_sym. eauto.
Qed.

Lemma tables_inv_insert_failed js fs i r fs' :
  tables_inv (js, fs) -> insert_failed i r fs = Ok fs' ->
  (f_attempts r <= f_max_attempts r /\ safe_text (f_failure_message r)) ->
  tables_inv (js, fs') /\ fs !! i = None /\ fs' = <[i := r]> fs.
Proof.
  intros (H1 & H2 & H3). unfold insert_failed. destruct (failed_check r) eqn:Hc; [|done]. cbn.
  destruct (fs !! i) eqn:Hi; [done|]. intros [= <-] [Ha Hs]. split; [|done].
  split; [|split]; cbn in *; [done| |done].
  intros j x. destruct (decide (j = i)) as [->|Hj].
  - rewrite lookup_insert_eq. intros [= <-]. done.
  - rewrite lookup_insert_ne by done. eauto.
Qed.

(** ** Messages *)

Lemma HasPrefix_refl s : HasPrefix s s = true.
Proof. induction s; cbn; [done|]. rewrite bool_decide_eq_true_2 by done. done. Qed.

Lemma HasPrefix_take n s : HasPrefix s (take_string n s) = true.
Proof.
  revert n; induction s as [|c s IH]; intros [|n]; cbn; try done.
  rewrite bool_decide_eq_true_2 by done. apply IH.
Qed.

Lemma safeFailureMessage_allowed kind message : safeFailureMessage kind message ∈ allowlist.
Proof.
  unfold safeFailureMessage.
  repeat case_bool_decide; subst; unfold allowlist; set_solver.
Qed.

Lemma bounded_safe store kind message : safe_text (boundedSafeFailureMessage store kind message).
Proof.
  unfold boundedSafeFailureMessage. exists (safeFailureMessage kind message).
  split; [apply safeFailureMessage_allowed|].
  destruct (_ >? _); [apply HasPrefix_take|apply HasPrefix_refl].
Qed.

(** ** Several rows at once *)

Lemma update_rows_spec f ids t t' :
  NoDup ids -> update_rows f ids t = Ok t' ->
  (forall j, t' !! j = if bool_decide (j ∈ ids) then f <$> t !! j else t !! j) /\
  (forall j r, j ∈ ids -> t !! j = Some r -> job_check (f r) = true).
Proof.
  revert t. induction ids as [|i ids IH]; intros t Hnd; cbn.
  { intros [= <-]. split; [done|]. intros j r Hj. set_solver. }
  apply NoDup_cons in Hnd as [Hi Hnd].
  destruct (t !! i) as [r0|] eqn:Hr0.
  - destruct (job_check (f r0)) eqn:Hc; [|done]. intros Hu.
    destruct (IH _ Hnd Hu) as [H1 H2]. split.
    + intros j. rewrite H1. destruct (decide (j = i)) as [->|Hj].
      * rewrite bool_decide_eq_false_2, bool_decide_eq_true_2, lookup_insert_eq, Hr0
          by set_solver. done.
      * rewrite lookup_insert_ne by done.
        rewrite (bool_decide_ext (j ∈ i :: ids) (j ∈ ids)) by set_solver. done.
    + intros j r Hj Hjr. destruct (decide (j = i)) as [->|Hne]; [congruence|].
      apply (H2 j); [set_solver|]. by rewrite lookup_insert_ne.
  - intros Hu. destruct (IH _ Hnd Hu) as [H1 H2]. split.
    + intros j. rewrite H1. destruct (decide (j = i)) as [->|Hj].
      * rewrite Hr0. by repeat case_bool_decide.
      * rewrite (bool_decide_ext (j ∈ i :: ids) (j ∈ ids)) by set_solver. done.
    + intros j r Hj Hjr. apply (H2 j); [|done]. set_solver.
Qed.

(** Candidate lists: sublists of the table without repetition. *)
Lemma selected_NoDup (R : relation (string * jobRow)) `{!RelDecision R}
    (p : string * jobRow -> bool) n (t : gmap string jobRow) :
  NoDup (fst <$> take n (merge_sort R (filter (fun kv => Is_true (p kv)) (map_to_list t)))).
Proof.
  assert (Hall : NoDup (fst <$> merge_sort R (filter (fun kv => Is_true (p kv)) (map_to_list t)))).
  { rewrite (merge_sort_Permutation R).
    eapply sublist_NoDup; [apply (NoDup_fst_map_to_list t)|].
    apply fmap_sublist, sublist_filter. }
  eapply sublist_NoDup; [exact Hall|]. apply fmap_sublist, sublist_take.
Qed.

Lemma selected_elem (R : relation (string * jobRow)) `{!RelDecision R}
    (p : string * jobRow -> bool) n (t : gmap string jobRow) i r :
  (i, r) ∈ take n (merge_sort R (filter (fun kv => Is_true (p kv)) (map_to_list t))) ->
  t !! i = Some r /\ p (i, r) = true.
Proof.
  intros Hin. eapply elem_of_sublist in Hin; [|apply sublist_take].
  rewrite (merge_sort_Permutation R) in Hin. apply list_elem_of_filter in Hin as [Hp Hin].
  split; [by apply elem_of_map_to_list|by apply Is_true_true].
Qed.

(** ** Every statement keeps the invariant *)

Definition preserves {A} (body : time -> nat -> tables -> result (A * tables)) : Prop :=
  forall now n t a t', tables_inv t -> body now n t = Ok (a, t') -> tables_inv t'.

Definition db_inv (db : jobsDb) : Prop := tables_inv (jobs db, failed db).

Lemma statement_inv E {A} (body : time -> nat -> tables -> result (A * tables)) db r db' :
  preserves body -> db_inv db -> statement E body db = (r, db') -> db_inv db'.
Proof.
  unfold statement. intros Hp Hi Hs. destruct (fault E _); [by simplify_eq|].
  destruct (body _ _ _) as [[a [js fs]]|e] eqn:Hb; [|by simplify_eq].
  apply Hp in Hb; [|done]. destruct (lostReply E _); by simplify_eq.
Qed.

(** How a statement that answered [Ok] relates to its body. *)
Lemma statement_Ok E {A} (body : time -> nat -> tables -> result (A * tables)) db a db' :
  statement E body db = (Ok a, db') ->
  body (clock E (jobs_tick db)) (jobs_tick db) (jobs db, failed db)
    = Ok (a, (jobs db', failed db')) /\ jobs_tick db' = S (jobs_tick db).
Proof.
  unfold statement. intros Hs. destruct (fault E _); [done|].
  destruct (body _ _ _) as [[b [js fs]]|e] eqn:Hb; [|done].
  destruct (lostReply E _); by simplify_eq.
Qed.

(** ... and any statement, whatever it answered: unchanged tables or the body's. *)
Lemma statement_any E {A} (body : time -> nat -> tables -> result (A * tables)) db r db' :
  statement E body db = (r, db') ->
  jobs_tick db' = S (jobs_tick db) /\
  ((jobs db' = jobs db /\ failed db' = failed db) \/
   exists a, body (clock E (jobs_tick db)) (jobs_tick db) (jobs db, failed db)
     = Ok (a, (jobs db', failed db'))).
Proof.
  unfold statement. intros Hs. destruct (fault E _); [simplify_eq; eauto|].
  destruct (body _ _ _) as [[b [js fs]]|e] eqn:Hb; [|simplify_eq; eauto].
  destruct (lostReply E _); simplify_eq; eauto.
Qed.

Section preservation.
Variable E : env.
Variable pg : pgsql.
Variable store : pgJobs.

Lemma new_row_inv request payload at_ now :
  job_check (new_row request payload at_ now) = true -> row_inv (new_row request payload at_ now).
Proof.
  intros Hc. split; [done|]. split; [|split; [done|done]].
  unfold job_check, policy_check, between in Hc. bool_to_prop. cbn in *. lia.
Qed.

Lemma enqueue_row_inv jid row t a t' :
  tables_inv t -> (job_check row = true -> row_inv row) -> enqueue_row jid row t = Ok (a, t') ->
  tables_inv t'.
Proof.
  destruct t as [js fs]. intros Hi Hr. unfold enqueue_row.
  destruct (job_check row) eqn:Hc; [|done]. cbn.
  destruct (dedup_conflict row js) as [[ex r]|] eqn:Hd; [naive_solver|].
  unfold with_jobs. destruct (insert_job _ _ js) as [js'|] eqn:Hj; [|done]. intros [= <- <-].
  by apply (tables_inv_insert js fs) in Hj as [Hj _]; [|done|auto].
Qed.

Lemma sql_enqueue_inv request : preserves (sql_enqueue pg request).
Proof.
  intros now n t a t' Hi. unfold sql_enqueue, cast.
  destruct (uuid_in pg _); [|done]. destruct (jsonb_in pg _); [|done].
  destruct (e_At request); [destruct (timestamptz_in pg _); [|done]|];
    intros He; eapply enqueue_row_inv; eauto using new_row_inv.
Qed.

Lemma sql_fenced_inv lease change :
  (forall now r r', row_inv r -> holds lease now r = true -> change now r = Some r' ->
     job_check r' = true -> row_inv r' /\ same_identity r r') ->
  preserves (sql_fenced pg lease change).
Proof.
  intros Hc now n [js fs] a t' Hi. unfold sql_fenced, fenced_row, cast.
  destruct (uuid_in pg _) as [jid|]; [|done]. cbn.
  destruct (js !! jid) as [r|] eqn:Hr; [|naive_solver].
  destruct (holds lease now r) eqn:Hh; [|naive_solver].
  destruct (change now r) as [r'|] eqn:Hch.
  - destruct (job_check r') eqn:Hk; [|done]. intros [= <- <-].
    destruct (Hc now r r') as [H1 H2]; [by eapply (proj1 Hi)|done..|].
    by eapply tables_inv_update.
  - intros [= <- <-]. by apply tables_inv_delete.
Qed.

Lemma extended_inv lease ms now r r' :
  row_inv r -> holds lease now r = true -> extended ms now r = Some r' -> job_check r' = true ->
  row_inv r' /\ same_identity r r'.
Proof.
  intros (_ & Ha & Hl & Hm) Hh [= <-] Hk. split; [|done].
  split; [done|]. split; [done|]. split; [|done].
  unfold lease_inv in *. cbn. destruct (j_lease_owner r); [|done]. naive_solver.
Qed.

Lemma unleased_inv lease ms failure now r r' :
  match failure with Some (_, m) => safe_text m | None => True end ->
  row_inv r -> holds lease now r = true -> unleased ms failure now r = Some r' ->
  job_check r' = true -> row_inv r' /\ same_identity r r'.
Proof.
  intros Hs (_ & Ha & Hl & Hm) Hh [= <-] Hk. split; [|done].
  split; [done|]. split; [done|]. split; [done|]. cbn.
  destruct failure as [[k m]|]; [|done]. intros m' [= <-]. done.
Qed.

Lemma sql_fail_inv lease kind message :
  safe_text message -> preserves (sql_fail pg lease kind message).
Proof.
  intros Hs now n [js fs] a t' Hi. unfold sql_fail, fenced_row, cast.
  destruct (uuid_in pg _) as [jid|]; [|done]. cbn.
  destruct (js !! jid) as [r|] eqn:Hr; [|naive_solver].
  destruct (holds lease now r) eqn:Hh; [|naive_solver].
  destruct (insert_failed _ _ fs) as [fs'|] eqn:Hf; [|done]. intros [= <- <-].
  apply tables_inv_delete. pose proof (proj1 Hi jid r Hr) as (_ & Ha & _).
  by apply (tables_inv_insert_failed js fs) in Hf as [Hf _].
Qed.

Lemma move_rows_inv kind message now rows t t' :
  safe_text message -> tables_inv t -> (forall kv, kv ∈ rows -> row_inv kv.2) ->
  move_rows kind message now rows t = Ok t' -> tables_inv t'.
Proof.
  intros Hs. revert t. induction rows as [|[jid r] rows IH]; intros [js fs] Hi Hr; cbn.
  { by intros [= <-]. }
  destruct (insert_failed _ _ fs) as [fs'|] eqn:Hf; [|done]. apply IH.
  - apply tables_inv_delete. destruct (Hr (jid, r)) as (_ & Ha & _); [set_solver|].
    by apply (tables_inv_insert_failed js fs) in Hf as [Hf _].
  - set_solver.
Qed.

Lemma sql_fail_exhausted_inv queues names limit :
  preserves (sql_fail_exhausted E pg queues names limit).
Proof.
  intros now n [js fs] a t' Hi. unfold sql_fail_exhausted.
  destruct (move_rows _ _ _ _ _) as [t1|] eqn:Hm; [|done]. intros [= <- <-].
  eapply move_rows_inv; [|exact Hi| |exact Hm].
  - exists "lease expired after final attempt". split; [unfold allowlist; set_solver|done].
  - intros [i r] Hin. apply selected_elem in Hin as [Hin _]. by eapply (proj1 Hi).
Qed.

Lemma sql_retry_failed_inv jid : preserves (sql_retry_failed pg jid).
Proof.
  intros now n [js fs] a t' Hi. unfold sql_retry_failed, cast. destruct (uuid_in pg jid) as [i|]; [|done].
  cbn. destruct (fs !! i) as [r|] eqn:Hr; [|naive_solver].
  destruct (insert_job _ _ js) as [js'|] eqn:Hj; [|done]. intros [= <- <-].
  assert (Hc : job_check (restored now r) = true)
    by (unfold insert_job in Hj; destruct (job_check _); [done|done]).
  assert (Hri : row_inv (restored now r)).
  { split; [done|]. split; [|split; [done|done]].
    unfold job_check, policy_check, between in Hc. bool_to_prop. cbn in *. lia. }
  apply (tables_inv_insert js fs) in Hj as [(H1 & H2 & H3) _]; [|done|done].
  split; [done|]. split; [|done]. cbn in *. intros j x Hx.
  apply lookup_delete_Some in Hx as [_ Hx]. eauto.
Qed.

Lemma leased_inv owner ms now r :
  row_inv r -> j_attempts r < j_max_attempts r -> job_check (leased owner ms now r) = true ->
  row_inv (leased owner ms now r) /\ same_identity r (leased owner ms now r).
Proof.
  intros (Hc & Ha & Hl & Hm) Hlt Hk. split; [|done]. split; [done|]. cbn. split; [lia|].
  split; [|done]. unfold lease_inv. cbn. split; [done|].
  unfold job_check, policy_check, between in Hc. bool_to_prop. lia.
Qed.

Lemma sql_claim_inv request : preserves (sql_claim E pg request).
Proof.
  intros now n [js fs] a t' Hi. unfold sql_claim. cbn.
  set (ids := fst <$> claim_candidates request now (locked E n) js).
  destruct (update_rows _ ids js) as [js'|] eqn:Hu; [|done]. intros [= <- <-].
  apply update_rows_spec in Hu as [H1 H2]; [|apply selected_NoDup].
  assert (Hsel : forall i, i ∈ ids -> exists r, js !! i = Some r /\ j_attempts r < j_max_attempts r).
  { intros i Hin. apply list_elem_of_fmap in Hin as ([i' r] & -> & Hin).
    apply selected_elem in Hin as [Hin Hp]. exists r. split; [done|].
    unfold claimable in Hp. cbn in Hp. bool_to_prop. done. }
  assert (Hrow : forall i x, js' !! i = Some x -> exists r, js !! i = Some r /\ row_inv x /\ same_identity r x).
  { intros i x Hx. rewrite H1 in Hx. case_bool_decide as Hin.
    - destruct (Hsel i Hin) as (r & Hr & Hlt). rewrite Hr in Hx. cbn in Hx. simplify_eq.
      exists r. split; [done|]. apply leased_inv; [by eapply (proj1 Hi)|done|by eapply H2].
    - exists x. split; [done|]. split; [by eapply (proj1 Hi)|done]. }
  split; [|split]; cbn in *.
  - intros i x Hx. by destruct (Hrow i x Hx) as (_ & _ & ? & _).
  - apply Hi.
  - intros i j x y Hx Hy Hne. destruct (Hrow i x Hx) as (rx & Hrx & _ & Hsx).
    destruct (Hrow j y Hy) as (ry & Hry & _ & Hsy).
    rewrite (same_identity_dedup rx), same_dedup_sym, (same_identity_dedup ry), same_dedup_sym by done.
    destruct Hi as (_ & _ & Hi). eauto.
Qed.
End preservation.

(** ** Sequences of operations *)

Inductive op : Type :=
| OpEnqueue (executorPresent : bool) (request : EnqueueRequest)
| OpClaim (request : ClaimRequest)
| OpHeartbeat (lease : Lease) (d : duration)
| OpAck (lease : Lease)
| OpRetry (request : RetryRequest)
| OpRelease (lease : Lease)
| OpFail (request : FailureRequest)
| OpFailExhausted (queues names : list string) (limit : Z)
| OpListFailed (limit : Z)
| OpFindFailed (jid : string)
| OpRetryFailed (jid : string)
| OpForgetFailed (jid : string).

Section operations.
Variable E : env.
Variable pg : pgsql.
Variable store : pgJobs.

Definition run_op (o : op) (db : jobsDb) : jobsDb :=
  match o with
  | OpEnqueue present request => (Enqueue E pg store present request db).2
  | OpClaim request => (Claim E pg store request db).2
  | OpHeartbeat lease d => (Heartbeat E pg lease d db).2
  | OpAck lease => (Ack E pg lease db).2
  | OpRetry request => (Retry E pg store request db).2
  | OpRelease lease => (Release E pg lease db).2
  | OpFail request => (Fail E pg store request db).2
  | OpFailExhausted queues names limit => (FailExhausted E pg queues names limit db).2
  | OpListFailed limit => (ListFailed E store limit db).2
  | OpFindFailed jid => (FindFailed E pg store jid db).2
  | OpRetryFailed jid => (RetryFailed E pg jid db).2
  | OpForgetFailed jid => (ForgetFailed E pg jid db).2
  end.

Definition run_ops (os : list op) (db : jobsDb) : jobsDb := foldl (fun db o => run_op o db) db os.

Definition empty_db : jobsDb := {| jobs := ∅; failed := ∅; jobs_tick := 0 |}.

Definition tables_of {A} (r : result (A * tables)) : result tables :=
  match r with Ok (_, t) => Ok t | Err e => Err e end.

(** What the operation's statement does to the tables when it commits. *)
Definition op_effect (o : op) (now : time) (n : nat) (t : tables) : result tables :=
  match o with
  | OpEnqueue _ request => tables_of (sql_enqueue pg request now n t)
  | OpClaim request => tables_of (sql_claim E pg request now n t)
  | OpHeartbeat lease d => tables_of (sql_fenced pg lease (extended (Milliseconds d)) now n t)
  | OpAck lease => tables_of (sql_fenced pg lease (fun _ _ => None) now n t)
  | OpRetry request => tables_of (sql_fenced pg (rr_Lease request)
      (unleased (Milliseconds (rr_Delay request))
        (Some (rr_ErrorKind request,
               boundedSafeFailureMessage store (rr_ErrorKind request) (rr_Error request)))) now n t)
  | OpRelease lease => tables_of (sql_fenced pg lease (unleased 0 None) now n t)
  | OpFail request => tables_of (sql_fail pg (fr_Lease request) (fr_Kind request)
      (boundedSafeFailureMessage store (fr_Kind request) (fr_Error request)) now n t)
  | OpFailExhausted queues names limit =>
      tables_of (sql_fail_exhausted E pg queues names limit now n t)
  | OpListFailed _ => Ok t
  | OpFindFailed jid => cast (uuid_in pg jid) (fun _ => Ok t)
  | OpRetryFailed jid => tables_of (sql_retry_failed pg jid now n t)
  | OpForgetFailed jid => cast (uuid_in pg jid) (fun jid => Ok (t.1, delete jid t.2))
  end.

(** A state is left alone, or one statement ran at its tick. *)
Definition ran (o : op) (db db' : jobsDb) : Prop :=
  db' = db \/
  (jobs_tick db' = S (jobs_tick db) /\
   ((jobs db' = jobs db /\ failed db' = failed db) \/
    op_effect o (clock E (jobs_tick db)) (jobs_tick db) (jobs db, failed db)
      = Ok (jobs db', failed db'))).

Lemma ran_statement {A} o (body : time -> nat -> tables -> result (A * tables)) db :
  (forall now n t, tables_of (body now n t) = op_effect o now n t) ->
  ran o db (statement E body db).2.
Proof.
  intros He. destruct (statement E body db) as [r db'] eqn:Hs. right.
  apply statement_any in Hs as [Ht [Hs|[a Hs]]]; split; auto. right.
  by rewrite <- He, Hs.
Qed.

Lemma wrapM_state {S A} f (m : M S A) s : (wrapM f m s).2 = (m s).2.
Proof. unfold wrapM. by destruct (m s) as [[]]. Qed.

Lemma bindM_state {S A B} (m : M S A) (k : A -> M S B) s :
  (forall a s', (k a s').2 = s') -> (bindM m k s).2 = (m s).2.
Proof. intros Hk. unfold bindM. destruct (m s) as [[a|e] s']; [apply Hk|done]. Qed.

Lemma run_op_ran o db : ran o db (run_op o db).
Proof.
  destruct o; cbn [run_op];
    unfold Enqueue, Claim, Heartbeat, Ack, Retry, Release, Fail, FailExhausted, ListFailed,
      FindFailed, RetryFailed, ForgetFailed, throw;
    repeat case_match; try (by left);
    rewrite ?bindM_state, ?wrapM_state by (intros; repeat case_match; done);
    apply ran_statement; try done; intros; unfold cast; cbn; try done;
    unfold cast; by case_match.
Qed.

(** *** The invariant of every reachable state *)

Lemma op_effect_inv o now n t t' : tables_inv t -> op_effect o now n t = Ok t' -> tables_inv t'.
Proof.
  intros Hi. destruct o; cbn [op_effect]; unfold tables_of, cast;
    try (by intros; simplify_eq).
  - destruct (sql_enqueue _ _ _ _ _) as [[a t1]|] eqn:H; [|done]. intros [= <-].
    by eapply sql_enqueue_inv.
  - destruct (sql_claim _ _ _ _ _ _) as [[a t1]|] eqn:H; [|done]. intros [= <-].
    by eapply sql_claim_inv.
  - destruct (sql_fenced _ _ _ _ _ _) as [[a t1]|] eqn:H; [|done]. intros [= <-].
    eapply sql_fenced_inv; [|done|exact H]. eauto using extended_inv.
  - destruct (sql_fenced _ _ _ _ _ _) as [[a t1]|] eqn:H; [|done]. intros [= <-].
    eapply sql_fenced_inv; [|done|exact H]. done.
  - destruct (sql_fenced _ _ _ _ _ _) as [[a t1]|] eqn:H; [|done]. intros [= <-].
    eapply sql_fenced_inv; [|done|exact H]. intros. eapply unleased_inv; [|done..].
    apply bounded_safe.
  - destruct (sql_fenced _ _ _ _ _ _) as [[a t1]|] eqn:H; [|done]. intros [= <-].
    eapply sql_fenced_inv; [|done|exact H]. intros. by eapply (unleased_inv lease _ None).
  - destruct (sql_fail _ _ _ _ _ _ _) as [[a t1]|] eqn:H; [|done]. intros [= <-].
    eapply sql_fail_inv; [|done|exact H]. apply bounded_safe.
  - destruct (sql_fail_exhausted _ _ _ _ _ _ _ _) as [[a t1]|] eqn:H; [|done]. intros [= <-].
    by eapply sql_fail_exhausted_inv.
  - destruct (uuid_in pg jid); by intros; simplify_eq.
  - destruct (sql_retry_failed _ _ _ _ _) as [[a t1]|] eqn:H; [|done]. intros [= <-].
    by eapply sql_retry_failed_inv.
  - destruct (uuid_in pg jid); [|done]. intros [= <-]. destruct Hi as (H1 & H2 & H3).
    split; [done|]. split; [|done]. cbn. intros j r Hr. apply lookup_delete_Some in Hr as [_ Hr]. eauto.
Qed.

Lemma run_op_inv o db : db_inv db -> db_inv (run_op o db).
Proof.
  intros Hi. destruct (run_op_ran o db) as [->|[_ [[H1 H2]|He]]]; [done| |].
  - unfold db_inv. by rewrite H1, H2.
  - by eapply op_effect_inv.
Qed.

Lemma empty_db_inv : db_inv empty_db.
Proof.
  unfold db_inv, tables_inv. cbn.
  split; [|split]; intros *; by rewrite ?lookup_empty.
Qed.

Lemma run_ops_inv os db : db_inv db -> db_inv (run_ops os db).
Proof. revert db. induction os as [|o os IH]; intros db Hi; cbn; [done|]. by apply IH, run_op_inv. Qed.
(** *** What can happen to one row *)

(** The lease an operation presents. *)
Definition op_lease (o : op) : option Lease :=
  match o with
  | OpHeartbeat lease _ | OpAck lease | OpRelease lease => Some lease
  | OpRetry request => Some (rr_Lease request)
  | OpFail request => Some (fr_Lease request)
  | _ => None
  end.

(** The row an operation may create. *)
Definition op_creates (o : op) (i : string) : Prop :=
  match o with
  | OpEnqueue _ request => uuid_in pg (e_ID request) = Some i
  | OpRetryFailed jid => uuid_in pg jid = Some i
  | _ => False
  end.

Inductive row_change (o : op) (now : time) (i : string) : option jobRow -> option jobRow -> Prop :=
| change_same x : row_change o now i x x
| change_create r :
    op_creates o i -> j_attempts r = 0 -> j_lease_generation r = 0 -> j_lease_owner r = None ->
    row_change o now i None (Some r)
| change_claim request r held :
    o = OpClaim request ->
    claimable (c_Queues request) (c_Names request) now held (i, r) = true ->
    row_change o now i (Some r)
      (Some (leased (c_WorkerID request) (Milliseconds (c_LeaseDuration request)) now r))
| change_fenced lease r r' :
    op_lease o = Some lease -> uuid_in pg (l_JobID lease) = Some i -> holds lease now r = true ->
    j_attempts r' = j_attempts r -> j_max_attempts r' = j_max_attempts r ->
    j_lease_generation r' = j_lease_generation r ->
    row_change o now i (Some r) (Some r')
| change_remove lease r :
    op_lease o = Some lease -> uuid_in pg (l_JobID lease) = Some i -> holds lease now r = true ->
    row_change o now i (Some r) None
| change_exhaust queues names limit held r :
    o = OpFailExhausted queues names limit -> exhausted queues names now held (i, r) = true ->
    row_change o now i (Some r) None.

Lemma insert_job_Ok jid row js js' :
  insert_job jid row js = Ok js' -> js !! jid = None /\ js' = <[jid := row]> js.
Proof.
  unfold insert_job. destruct (job_check row); [|done]. cbn [negb].
  destruct (js !! jid); [done|]. destruct (dedup_conflict row js); [done|]. by intros [= <-].
Qed.

Lemma enqueue_row_change jid row t a t' i o now :
  enqueue_row jid row t = Ok (a, t') -> (i = jid -> op_creates o i) ->
  j_attempts row = 0 -> j_lease_generation row = 0 -> j_lease_owner row = None ->
  row_change o now i (t.1 !! i) (t'.1 !! i).
Proof.
  unfold enqueue_row, with_jobs. intros He Hc Ha Hg Ho.
  destruct (job_check row); [|done]. cbn [negb] in He.
  destruct (dedup_conflict row t.1) as [[ex r]|]; [simplify_eq; constructor|].
  destruct (insert_job jid row t.1) as [js'|] eqn:Hj; [|done]. injection He as <- <-.
  apply insert_job_Ok in Hj as [Hn ->]. cbn [fst].
  destruct (decide (i = jid)) as [->|Hne].
  - rewrite lookup_insert_eq, Hn. constructor; auto.
  - rewrite lookup_insert_ne by done. constructor.
Qed.

Lemma sql_fenced_change lease change o now n t a t' i :
  sql_fenced pg lease change now n t = Ok (a, t') -> op_lease o = Some lease ->
  (forall r r', change now r = Some r' -> j_attempts r' = j_attempts r /\
     j_max_attempts r' = j_max_attempts r /\ j_lease_generation r' = j_lease_generation r) ->
  row_change o now i (t.1 !! i) (t'.1 !! i).
Proof.
  destruct t as [js fs]. unfold sql_fenced, fenced_row, cast. cbn. intros He Hl Hc.
  destruct (uuid_in pg (l_JobID lease)) as [jid|] eqn:Hu; [|done].
  destruct (js !! jid) as [r|] eqn:Hr; [|simplify_eq; constructor].
  destruct (holds lease now r) eqn:Hh; [|simplify_eq; constructor].
  destruct (decide (i = jid)) as [->|Hne].
  - rewrite Hr. destruct (change now r) as [r'|] eqn:Hch.
    + destruct (job_check r'); simplify_eq. cbn. rewrite lookup_insert_eq.
      destruct (Hc _ _ Hch) as (? & ? & ?). by eapply change_fenced.
    + simplify_eq. cbn. rewrite lookup_delete_eq. by eapply change_remove.
  - case_guards; rewrite ?lookup_insert_ne, ?lookup_delete_ne by done; constructor.
Qed.

Lemma sql_fail_change lease kind message o now n t a t' i :
  sql_fail pg lease kind message now n t = Ok (a, t') -> op_lease o = Some lease ->
  row_change o now i (t.1 !! i) (t'.1 !! i).
Proof.
  destruct t as [js fs]. unfold sql_fail, fenced_row, cast. cbn. intros He Hl.
  destruct (uuid_in pg (l_JobID lease)) as [jid|] eqn:Hu; [|done].
  destruct (js !! jid) as [r|] eqn:Hr; [|simplify_eq; constructor].
  destruct (holds lease now r) eqn:Hh; [|simplify_eq; constructor].
  case_guards. destruct (decide (i = jid)) as [->|Hne].
  - rewrite Hr, lookup_delete_eq. by eapply change_remove.
  - rewrite lookup_delete_ne by done. constructor.
Qed.

Lemma move_rows_jobs kind message now rows t t' i :
  move_rows kind message now rows t = Ok t' ->
  (i ∉ (fst <$> rows) -> t'.1 !! i = t.1 !! i) /\ (i ∈ (fst <$> rows) -> t'.1 !! i = None).
Proof.
  revert t. induction rows as [|[jid r] rows IH]; intros t; cbn.
  { intros [= <-]. set_solver. }
  destruct (insert_failed _ _ _); [|done]. intros Hm. apply IH in Hm as [H1 H2]. cbn in *.
  split; intros Hi.
  - rewrite H1 by set_solver. rewrite lookup_delete_ne; set_solver.
  - destruct (decide (i ∈ rows.*1)) as [Hin|Hin]; [auto|].
    rewrite H1 by done. assert (i = jid) as -> by set_solver. apply lookup_delete_eq.
Qed.

Lemma op_effect_change o now n t t' i :
  op_effect o now n t = Ok t' -> row_change o now i (t.1 !! i) (t'.1 !! i).
Proof.
  destruct t as [js fs]. destruct o; cbn [op_effect]; unfold tables_of.
  - destruct (sql_enqueue _ _ _ _ _) as [[a t1]|] eqn:H; [|done]. intros [= <-].
    unfold sql_enqueue, cast in H. case_guards; eapply (enqueue_row_change _ _ (js, fs)); try done; by intros ->.
  - destruct (sql_claim _ _ _ _ _ _) as [[a t1]|] eqn:H; [|done]. intros [= <-].
    unfold sql_claim in H. cbn in H.
    set (ids := fst <$> claim_candidates request now (locked E n) js) in *.
    destruct (update_rows _ ids js) as [js'|] eqn:Hu; [|done]. simplify_eq. cbn.
    apply update_rows_spec in Hu as [H1 _]; [|apply selected_NoDup]. rewrite H1.
    case_bool_decide as Hin; [|constructor].
    apply list_elem_of_fmap in Hin as ([i' r] & -> & Hin). apply selected_elem in Hin as [Hr Hp].
    cbn. rewrite Hr. by eapply change_claim.
  - destruct (sql_fenced _ _ _ _ _ _) as [[a t1]|] eqn:H; [|done]. intros [= <-].
    eapply sql_fenced_change; [exact H|done|]. by intros r r' [= <-].
  - destruct (sql_fenced _ _ _ _ _ _) as [[a t1]|] eqn:H; [|done]. intros [= <-].
    by eapply sql_fenced_change.
  - destruct (sql_fenced _ _ _ _ _ _) as [[a t1]|] eqn:H; [|done]. intros [= <-].
    eapply sql_fenced_change; [exact H|done|]. by intros r r' [= <-].
  - destruct (sql_fenced _ _ _ _ _ _) as [[a t1]|] eqn:H; [|done]. intros [= <-].
    eapply sql_fenced_change; [exact H|done|]. by intros r r' [= <-].
  - destruct (sql_fail _ _ _ _ _ _ _) as [[a t1]|] eqn:H; [|done]. intros [= <-].
    by eapply sql_fail_change.
  - destruct (sql_fail_exhausted _ _ _ _ _ _ _ _) as [[a t1]|] eqn:H; [|done]. intros [= <-].
    unfold sql_fail_exhausted in H. cbn in H.
    set (rows := exhausted_candidates _ _ _ _ _ _) in *.
    destruct (move_rows _ _ _ rows _) as [t2|] eqn:Hm; [|done]. simplify_eq.
    apply (move_rows_jobs _ _ _ _ _ _ i) in Hm as [H1 H2]. cbn in *.
    destruct (decide (i ∈ (fst <$> rows))) as [Hin|Hin]; [|rewrite H1 by done; constructor].
    rewrite H2 by done. apply list_elem_of_fmap in Hin as ([i' r] & -> & Hin).
    apply selected_elem in Hin as [Hr Hp]. cbn. rewrite Hr. by eapply change_exhaust.
  - intros; simplify_eq. constructor.
  - unfold cast. case_match; intros; simplify_eq. constructor.
  - destruct (sql_retry_failed _ _ _ _ _) as [[a t1]|] eqn:H; [|done]. intros [= <-].
    unfold sql_retry_failed, cast in H. destruct (uuid_in pg jid) as [s|] eqn:Hu; [|done].
    cbn [fst snd] in *. destruct (fs !! s) as [r|]; [|simplify_eq; constructor].
    destruct (insert_job s (restored now r) js) as [js'|] eqn:Hj; [|done]. injection H as <- <-.
    apply insert_job_Ok in Hj as [Hn ->]. cbn [fst].
    destruct (decide (i = s)) as [->|Hne].
    + rewrite lookup_insert_eq, Hn. by constructor.
    + rewrite lookup_insert_ne by done. constructor.
  - unfold cast. case_match; intros; simplify_eq. constructor.
Qed.

Lemma run_op_change o db i :
  row_change o (clock E (jobs_tick db)) i (jobs db !! i) (jobs (run_op o db) !! i).
Proof.
  destruct (run_op_ran o db) as [->|[_ [[H1 H2]|He]]]; [constructor|rewrite H1; constructor|].
  by apply (op_effect_change _ _ _ _ _ i) in He.
Qed.

End operations.
