(* ===== verification/JobStoreProps.v ===== *)
(** * Properties of the job store

    The statements of record about [job/postgres], proved from the lemmas of
    [JobStoreFacts], each with a concrete instance. *)

From S2P Require Import Prelude GoStrings GoRegexp GoJson JobTypes JobStore JobStoreFacts.
Local Open Scope Z_scope.

(** ** A concrete database for the instances *)
Module Sample.
Definition pg : pgsql :=
  {| jsonb_in := Some; uuid_in := Some; timestamptz_in := Some; returning_order := fun _ l => l |}.
Definition mail : EnqueueRequest :=
  {| e_ID := "a"; e_Queue := "default"; e_Name := "mail.send.v1"; e_Payload := "{}";
     e_Priority := 0; e_Delay := 0; e_At := None; e_MaxAttempts := 2; e_Timeout := Minute;
     e_Backoff := [Second]; e_DedupKey := "welcome-7" |}.
Definition claim (worker : string) : ClaimRequest :=
  {| c_Queues := ["default"]; c_Names := ["mail.send.v1"]; c_Limit := 1; c_WorkerID := worker;
     c_LeaseDuration := Minute |}.
Definition lease (worker : string) (generation : Z) : Lease :=
  {| l_JobID := "a"; l_WorkerID := worker; l_Generation := generation |}.
(** Statement [n] runs at [n + 1] times the step. *)
Definition ticking (step : duration) : env :=
  {| clock := fun n => (Z.of_nat n + 1) * step; fault := fun _ => None; locked := fun _ => ∅;
     ctxErr := fun _ => None; lostReply := fun _ => None |}.
Definition row_of (db : jobsDb) : jobRow :=
  default (new_row mail EmptyString None 0) (jobs db !! "a").
End Sample.

Section props.
Variable E : env.
Variable pg : pgsql.
Variable store : pgJobs.

(** C30. Every sequence of store operations, under any clock, lock contention,
    statement failure or lost reply, leaves the tables in order: every row meets
    the schema's constraints, no active job has more attempts than its maximum, a
    leased job is unavailable exactly until its lease expires and carries a
    positive generation, no two active jobs share queue, name and deduplication
    key, and every stored failure text is a (truncated) message of the allowlist. *)
Theorem job_tables_invariant os : db_inv (run_ops E pg store os empty_db).
Proof. apply run_ops_inv, empty_db_inv. Qed.

(** C1. A live lease is exclusive: while the database clock is before its expiry, no
    operation of anyone else (a claim, the exhaustion sweep, an enqueue, an
    administrator's retry, or a fenced operation under another worker or
    generation) changes the leased row. *)
Theorem live_lease_is_exclusive o db i r lease :
  db_inv db -> jobs db !! i = Some r ->
  holds lease (clock E (jobs_tick db)) r = true ->
  (forall other, op_lease o = Some other -> uuid_in pg (l_JobID other) = Some i ->
     l_WorkerID other <> l_WorkerID lease \/ l_Generation other <> l_Generation lease) ->
  jobs (run_op E pg store o db) !! i = Some r.
Proof.
  intros Hi Hr Hh Hother. pose proof (run_op_change E pg store o db i) as Hc.
  destruct Hi as [Hi _]. specialize (Hi i r Hr). destruct Hi as (_ & _ & Hl & _).
  assert (Hlive : clock E (jobs_tick db) < j_available_at r).
  { unfold holds in Hh. unfold lease_inv in Hl. bool_to_prop.
    match goal with H : j_lease_owner r = Some _ |- _ => rewrite H in Hl end.
    destruct Hl as [He _]. cbn in He. rewrite He in *. bool_to_prop. done. }
  assert (Hsame : forall other, op_lease o = Some other -> uuid_in pg (l_JobID other) = Some i ->
            holds other (clock E (jobs_tick db)) r = true -> False).
  { intros other Ho Hu Hh2. destruct (Hother other Ho Hu) as [Hd|Hd];
      unfold holds in Hh, Hh2; bool_to_prop; congruence. }
  rewrite Hr in Hc. inversion Hc; subst; try congruence.
  - unfold claimable in *. cbn in *. bool_to_prop. lia.
  - exfalso. eauto.
  - exfalso. eauto.
  - unfold exhausted in *. cbn in *. bool_to_prop. lia.
Qed.

(** Generations only grow while the row is not re-created. *)
Lemma generation_monotone o db i r r' :
  jobs db !! i = Some r -> jobs (run_op E pg store o db) !! i = Some r' ->
  j_lease_generation r <= j_lease_generation r'.
Proof.
  intros Hr Hr'. pose proof (run_op_change E pg store o db i) as Hc. rewrite Hr, Hr' in Hc.
  inversion Hc; subst; cbn; lia.
Qed.

Lemma absent_stays o db i :
  jobs db !! i = None -> ~ op_creates pg o i -> jobs (run_op E pg store o db) !! i = None.
Proof.
  intros Hn Hc. pose proof (run_op_change E pg store o db i) as Hr. rewrite Hn in Hr.
  inversion Hr; subst; done.
Qed.

Definition superseded (i : string) (lease : Lease) (db : jobsDb) : Prop :=
  forall r, jobs db !! i = Some r -> l_Generation lease < j_lease_generation r.

Lemma superseded_run i lease os db :
  superseded i lease db -> Forall (fun o => ~ op_creates pg o i) os ->
  superseded i lease (run_ops E pg store os db).
Proof.
  revert db. induction os as [|o os IH]; intros db Hs Hf; [done|].
  apply Forall_cons in Hf as [Ho Hf]. cbn. apply IH; [|done]. intros r' Hr'.
  destruct (jobs db !! i) as [r|] eqn:Hr.
  - specialize (Hs r Hr). pose proof (generation_monotone o db i r r' Hr Hr'). lia.
  - rewrite absent_stays in Hr' by done. done.
Qed.

(** What a fenced operation answers. *)
Definition fenced_result (o : op) (db : jobsDb) : result bool :=
  match o with
  | OpHeartbeat l d => (Heartbeat E pg l d db).1
  | OpAck l => (Ack E pg l db).1
  | OpRetry q => (Retry E pg store q db).1
  | OpRelease l => (Release E pg l db).1
  | OpFail q => (Fail E pg store q db).1
  | _ => Ok false
  end.

Lemma sql_fenced_true lease change now n t t' :
  sql_fenced pg lease change now n t = Ok (true, t') ->
  exists i r, uuid_in pg (l_JobID lease) = Some i /\ t.1 !! i = Some r /\ holds lease now r = true.
Proof.
  unfold sql_fenced, fenced_row, cast. destruct (uuid_in pg _) as [i|]; [|done].
  destruct (t.1 !! i) as [r|] eqn:Hr; [|done]. destruct (holds lease now r) eqn:Hh; [|done]. eauto.
Qed.

Lemma sql_fail_true lease kind message now n t t' :
  sql_fail pg lease kind message now n t = Ok (true, t') ->
  exists i r, uuid_in pg (l_JobID lease) = Some i /\ t.1 !! i = Some r /\ holds lease now r = true /\
    t' = (delete i t.1, <[i := terminal kind message now r]> t.2) /\ t.2 !! i = None.
Proof.
  unfold sql_fail, fenced_row, cast. destruct (uuid_in pg _) as [i|]; [|done].
  destruct (t.1 !! i) as [r|] eqn:Hr; [|done]. destruct (holds lease now r) eqn:Hh; [|done].
  unfold insert_failed. destruct (failed_check _); [|done]. cbn [negb].
  destruct (t.2 !! i) eqn:Hf; [done|]. intros [= <-]. exists i, r. auto.
Qed.

(** Success is only reported to the holder of a live lease. *)
Lemma fenced_result_true o db :
  fenced_result o db = Ok true ->
  exists lease i r, op_lease o = Some lease /\ uuid_in pg (l_JobID lease) = Some i /\
    jobs db !! i = Some r /\ holds lease (clock E (jobs_tick db)) r = true.
Proof.
  assert (Hst : forall lease change db', statement E (sql_fenced pg lease change) db = (Ok true, db') ->
    exists i r, uuid_in pg (l_JobID lease) = Some i /\ jobs db !! i = Some r /\
      holds lease (clock E (jobs_tick db)) r = true).
  { intros lease change db' Hs. apply statement_Ok in Hs as [Hs _].
    by apply sql_fenced_true in Hs. }
  destruct o; cbn [fenced_result op_lease]; try done;
    unfold Heartbeat, Ack, Retry, Release, Fail, throw.
  - destruct (_ || _); [done|]. destruct (statement _ _ _) as [? ?] eqn:Hs. cbn. intros ->.
    apply Hst in Hs as (i & r & ?). eauto.
  - destruct (validateLease _); [done|]. destruct (statement _ _ _) as [? ?] eqn:Hs. cbn. intros ->.
    apply Hst in Hs as (i & r & ?). eauto.
  - destruct (_ || _); [done|]. destruct (statement _ _ _) as [? ?] eqn:Hs. cbn. intros ->.
    apply Hst in Hs as (i & r & ?). eauto.
  - destruct (validateLease _); [done|]. destruct (statement _ _ _) as [? ?] eqn:Hs. cbn. intros ->.
    apply Hst in Hs as (i & r & ?). eauto.
  - destruct (_ || _); [done|]. unfold wrapM.
    destruct (statement _ _ _) as [[b|] ?] eqn:Hs; cbn; [|done]. intros [= ->].
    apply statement_Ok in Hs as [Hs _]. apply sql_fail_true in Hs as (i & r & ? & ? & ? & _). eauto 8.
Qed.

(** C24. Fencing: once a job was claimed again, the superseded lease is refused for
    ever.  After any later operations that do not create the row anew, none of the
    five fenced operations reports success for it, and none changes a row. *)
Theorem superseded_lease_is_refused_forever i lease os db o :
  uuid_in pg (l_JobID lease) = Some i -> op_lease o = Some lease ->
  superseded i lease db -> Forall (fun o => ~ op_creates pg o i) os ->
  let db' := run_ops E pg store os db in
  fenced_result o db' <> Ok true /\
  forall j, jobs (run_op E pg store o db') !! j = jobs db' !! j.
Proof.
  intros Hu Ho Hs Hf db'.
  assert (Hnot : forall now r, jobs db' !! i = Some r -> holds lease now r = true -> False).
  { intros now r Hr Hh. pose proof (superseded_run i lease os db Hs Hf r Hr).
    unfold holds in Hh. bool_to_prop. lia. }
  split.
  - intros Ht. apply fenced_result_true in Ht as (l & k & r & Hl & Hk & Hr & Hh).
    simplify_eq. eauto.
  - intros j. pose proof (run_op_change E pg store o db' j) as Hc.
    inversion Hc as [x Hx1 Hx2|r Hcr ? ? ? Hx1 Hx2|? r ? ? ? Hx1 Hx2|l r r' Hl Hul Hh ? ? ? Hx1 Hx2
                    |l r Hl Hul Hh Hx1 Hx2|? ? ? ? r ? ? Hx1 Hx2]; subst; try done;
      simplify_eq; try (exfalso; eauto; done). destruct o; done.
Qed.
(** ** Claiming *)

#[local] Instance claim_le_total : Total claim_le.
Proof.
  intros [i a] [j b]. unfold claim_le. cbn.
  destruct (Z.lt_trichotomy (j_priority a) (j_priority b)) as [?|[?|?]]; [auto..| |auto].
  destruct (Z.lt_trichotomy (j_available_at a) (j_available_at b)) as [?|[?|?]]; [auto..| |auto].
  destruct (total String.le i j); auto 8.
Qed.

#[local] Instance claim_le_trans : Transitive claim_le.
Proof.
  intros [i a] [j b] [k c]. unfold claim_le. cbn. intros H1 H2.
  destruct H1 as [H1|[H1 [H1'|[H1' H1'']]]], H2 as [H2|[H2 [H2'|[H2' H2'']]]];
    try (left; lia); right; (split; [lia|]); try (left; lia); right; split; [lia|].
  by eapply (transitivity (R := String.le)).
Qed.

(** Everything outside the first [n] of the sorted candidates sorts after them. *)
Lemma take_sorted_le (l : list (string * jobRow)) n x y :
  x ∈ take n (merge_sort claim_le l) -> y ∈ l -> y ∉ take n (merge_sort claim_le l) ->
  claim_le x y /\ length (take n (merge_sort claim_le l)) = n.
Proof.
  intros Hx Hy Hn. rewrite <- (merge_sort_Permutation claim_le) in Hy.
  pose proof (StronglySorted_merge_sort claim_le l) as Hs.
  rewrite <- (take_drop n (merge_sort claim_le l)) in Hy, Hs.
  apply elem_of_app in Hy as [Hy|Hy]; [done|].
  split; [apply StronglySorted_app in Hs as (Hs & _); eauto|].
  rewrite length_take_le; [done|].
  destruct (decide (n <= length (merge_sort claim_le l))%nat); [done|].
  rewrite drop_ge in Hy by lia. set_solver.
Qed.

Lemma scan_claims_Ok worker rows ds :
  scan_claims store worker rows = Ok ds ->
  Forall2 (fun kv d => delivery_of worker kv = Some d /\ validateDelivery store d = None) rows ds.
Proof.
  revert ds. induction rows as [|kv rows IH]; intros ds; cbn; [by intros [= <-]|].
  destruct (delivery_of worker kv) as [d|] eqn:Hd; [|done].
  destruct (validateDelivery store d) eqn:Hv; [done|].
  destruct (scan_claims store worker rows) as [ds'|]; [|done]. intros [= <-]. auto.
Qed.

Lemma delivery_of_ID worker kv d : delivery_of worker kv = Some d -> d_ID d = kv.1.
Proof. destruct kv as [i r]. unfold delivery_of. repeat case_match; intros; by simplify_eq. Qed.

(** The answer of a successful claim, in terms of the selected candidates. *)
Lemma Claim_Ok request db ds db' :
  (forall n l, returning_order pg n l ≡ₚ l) ->
  Claim E pg store request db = (Ok ds, db') ->
  let now := clock E (jobs_tick db) in
  let cs := claim_candidates request now (locked E (jobs_tick db)) (jobs db) in
  let f := leased (c_WorkerID request) (Milliseconds (c_LeaseDuration request)) now in
  d_ID <$> ds ≡ₚ fst <$> cs /\
  (forall i, jobs db' !! i = if bool_decide (i ∈ fst <$> cs) then f <$> jobs db !! i else jobs db !! i) /\
  (forall d, d ∈ ds -> exists r, (d_ID d, r) ∈ cs /\ jobs db !! d_ID d = Some r /\
     delivery_of (c_WorkerID request) (d_ID d, f r) = Some d /\ validateDelivery store d = None).
Proof.
  intros Hperm HC now cs f. unfold Claim in HC.
  destruct (valid_claim request); [done|]. unfold bindM, wrapM in HC.
  destruct (statement E (sql_claim E pg request) db) as [[rows|e] db1] eqn:Hst; [|done].
  simplify_eq. rename H into Hscan. apply statement_Ok in Hst as [Hb _].
  unfold sql_claim in Hb. cbn [fst] in Hb. fold now in Hb. fold cs in Hb. fold f in Hb.
  destruct (update_rows f (fst <$> cs) (jobs db)) as [js|] eqn:Hu; [|done].
  injection Hb as Hrows Hjs _. subst js.
  apply update_rows_spec in Hu as [Hu _]; [|apply selected_NoDup].
  assert (Hsel : forall i, i ∈ fst <$> cs -> exists r, (i, r) ∈ cs /\ jobs db !! i = Some r /\
    jobs db' !! i = Some (f r)).
  { intros i Hin. pose proof Hin as Hin'. apply list_elem_of_fmap in Hin as ([i' r] & -> & Hin).
    pose proof Hin as Hin2. apply selected_elem in Hin2 as [Hr _]. exists r.
    split; [done|]. split; [done|]. rewrite Hu, bool_decide_eq_true_2 by done. cbn. by rewrite Hr. }
  assert (Hfst : forall l : list string, (forall i, i ∈ l -> i ∈ fst <$> cs) ->
    fst <$> omap (fun jid => (fun r => (jid, r)) <$> jobs db' !! jid) l = l).
  { induction l as [|i l IH]; intros Hl; [done|]. cbn.
    destruct (Hsel i) as (r & _ & _ & ->); [apply Hl; set_solver|]. cbn. rewrite IH; [done|].
    intros j Hj. apply Hl. set_solver. }
  apply scan_claims_Ok in Hscan. split; [|split].
  - rewrite <- (Hperm (jobs_tick db) (fst <$> cs)), <- (Hfst (returning_order pg _ _)), Hrows
      by (intros i; by rewrite Hperm).
    clear -Hscan. induction Hscan as [|kv d rows ds [Hd _] _ IH]; [done|]. cbn.
    rewrite (delivery_of_ID _ _ _ Hd). by rewrite IH.
  - done.
  - intros d Hd. apply list_elem_of_lookup in Hd as [k Hk].
    destruct (Forall2_lookup_r _ _ _ _ _ Hscan Hk) as ([i x] & Hkx & Hdel & Hval).
    apply list_elem_of_lookup_2 in Hkx. rewrite <- Hrows in Hkx.
    apply list_elem_of_omap in Hkx as (i' & Hi' & Hx).
    rewrite Hperm in Hi'. destruct (Hsel i' Hi') as (r & Hin & Hr & Hr').
    rewrite Hr' in Hx. cbn in Hx. simplify_eq.
    pose proof (delivery_of_ID _ _ _ Hdel) as Hid. cbn in Hid. rewrite Hid. eauto.
Qed.

(** What a claim hands out: at most the requested number of distinct jobs, each
    one due, of a requested queue and name, not locked by another claim, with
    attempts left; each is leased to the caller under a lease that holds from now
    until the lease duration has passed, counted as one more attempt; no other row
    changes.  If an eligible job is left behind, the limit was reached and every
    job handed out comes before it in priority, availability and ID order. *)
Theorem claim_hands_out_the_best_due_jobs request db ds db' :
  (forall n l, returning_order pg n l ≡ₚ l) ->
  Claim E pg store request db = (Ok ds, db') ->
  let now := clock E (jobs_tick db) in
  let eligible i r := claimable (c_Queues request) (c_Names request) now
                        (locked E (jobs_tick db)) (i, r) = true in
  (length ds <= Z.to_nat (c_Limit request))%nat /\ NoDup (d_ID <$> ds) /\
  (forall d, d ∈ ds -> exists r r', jobs db !! d_ID d = Some r /\ eligible (d_ID d) r /\
     jobs db' !! d_ID d = Some r' /\ holds (d_Lease d) now r' = true /\
     d_Attempt d = j_attempts r + 1 /\ d_Attempt d <= d_MaxAttempts d /\
     d_Payload d = j_payload r /\
     j_available_at r' = now + Milliseconds (c_LeaseDuration request) * Millisecond) /\
  (forall i, i ∉ d_ID <$> ds -> jobs db' !! i = jobs db !! i) /\
  (forall i r d r1, jobs db !! i = Some r -> eligible i r -> i ∉ d_ID <$> ds ->
     d ∈ ds -> jobs db !! d_ID d = Some r1 ->
     claim_le (d_ID d, r1) (i, r) /\ length ds = Z.to_nat (c_Limit request)).
Proof.
  intros Hperm HC now eligible.
  destruct (Claim_Ok _ _ _ _ Hperm HC) as (Hids & Hjobs & Hds). fold now in Hids, Hjobs, Hds.
  set (cs := claim_candidates request now (locked E (jobs_tick db)) (jobs db)) in *.
  assert (Hlen : length ds = length cs)
    by (rewrite <- (length_fmap d_ID ds), Hids; apply length_fmap).
  split; [rewrite Hlen; apply firstn_le_length|]. split; [rewrite Hids; apply selected_NoDup|].
  split; [|split].
  - intros d Hd. destruct (Hds d Hd) as (r & Hin & Hr & Hdel & Hval).
    exists r, (leased (c_WorkerID request) (Milliseconds (c_LeaseDuration request)) now r).
    apply selected_elem in Hin as Hel. destruct Hel as [_ Hel].
    split; [done|]. split; [done|]. split.
    { rewrite Hjobs, bool_decide_eq_true_2, Hr; [done|]. rewrite <- Hids.
      by apply list_elem_of_fmap_2. }
    cbn in Hdel. injection Hdel as <-. cbn.
    assert (Hms : 0 < Milliseconds (c_LeaseDuration request) * Millisecond).
    { unfold Claim in HC. destruct (valid_claim request) eqn:Hv; [done|].
      unfold valid_claim in Hv. case_guards; bool_to_prop.
      unfold Milliseconds. apply Z.mul_pos_pos; [|done]. apply Z.quot_str_pos. done. }
    split.
    { unfold holds. cbn. rewrite bool_decide_eq_true_2, Z.eqb_refl by done. cbn.
      apply Z.ltb_lt. lia. }
    unfold claimable in Hel. cbn in Hel. bool_to_prop. split; [done|]. split; [lia|]. done.
  - intros i Hi. rewrite Hjobs, bool_decide_eq_false_2; [done|]. by rewrite <- Hids.
  - intros i r d r1 Hr Hel Hnot Hd Hr1. destruct (Hds d Hd) as (r2 & Hin & Hr2 & _). simplify_eq.
    rewrite Hlen. apply (take_sorted_le _ _ _ (i, r)).
    + done.
    + apply list_elem_of_filter. split; [by apply Is_true_true|by apply elem_of_map_to_list].
    + intros Hc. apply Hnot. rewrite Hids. by apply (list_elem_of_fmap_2 fst) in Hc.
Qed.

(** ** How often a job is delivered *)

(** Deliveries of job [i] an operation hands to a worker. *)
Definition deliveries (i : string) (o : op) (db : jobsDb) : nat :=
  match o with
  | OpClaim request =>
      match (Claim E pg store request db).1 with
      | Ok ds => length (filter (fun d => d_ID d = i) ds)
      | Err _ => 0
      end
  | _ => 0
  end.

Fixpoint deliveries_in (i : string) (os : list op) (db : jobsDb) : nat :=
  match os with
  | [] => 0
  | o :: os' => deliveries i o db + deliveries_in i os' (run_op E pg store o db)
  end.

(** Attempts the row still has. *)
Definition remaining (i : string) (db : jobsDb) : Z :=
  match jobs db !! i with Some r => j_max_attempts r - j_attempts r | None => 0 end.

Lemma deliveries_remaining i o db :
  (forall n l, returning_order pg n l ≡ₚ l) -> db_inv db -> ~ op_creates pg o i ->
  Z.of_nat (deliveries i o db) + remaining i (run_op E pg store o db) <= remaining i db.
Proof.
  intros Hperm Hi Hc. pose proof (run_op_change E pg store o db i) as Hch.
  pose proof (run_op_inv E pg store o db Hi) as Hi'.
  assert (Hmono : remaining i (run_op E pg store o db) <= remaining i db).
  { unfold remaining. inversion Hch as [x Hx1 Hx2|r Hcr ? ? ? Hx1 Hx2|? r ? ? ? Hx1 Hx2
      |l r r' Hl Hul Hh ? ? ? Hx1 Hx2|l r Hl Hul Hh Hx1 Hx2|? ? ? ? r ? ? Hx1 Hx2];
      try done; cbn; try lia.
    - symmetry in Hx1. destruct (proj1 Hi i r Hx1) as (_ & Ha & _). lia.
    - symmetry in Hx1. destruct (proj1 Hi i r Hx1) as (_ & Ha & _). lia. }
  unfold deliveries. destruct o as [|request| | | | | | | | | |]; try (cbn [Z.of_nat]; lia).
  cbn [run_op] in *. destruct (Claim E pg store request db) as [[ds|e] db'] eqn:HC; [|cbn in *; lia].
  cbn [fst snd] in *. destruct (filter (fun d => d_ID d = i) ds) as [|d rest] eqn:Hf;
    [cbn [length Z.of_nat]; lia|].
  destruct (Claim_Ok _ _ _ _ Hperm HC) as (Hids & Hjobs & Hds).
  assert (Hd : d ∈ ds /\ d_ID d = i).
  { assert (d ∈ filter (fun d => d_ID d = i) ds) as Hin by (rewrite Hf; set_solver).
    apply list_elem_of_filter in Hin. naive_solver. }
  destruct Hd as [Hd Hid].
  assert (rest = []) as ->.
  { destruct rest as [|d2 rest]; [done|]. exfalso.
    assert (Hnd : NoDup (d_ID <$> ds)) by (rewrite Hids; apply selected_NoDup).
    assert (Hsub : d_ID <$> filter (fun d => d_ID d = i) ds `sublist_of` d_ID <$> ds)
      by apply fmap_sublist, sublist_filter.
    apply (sublist_NoDup _ _ Hnd) in Hsub. rewrite Hf in Hsub. cbn in Hsub.
    assert (d2 ∈ filter (fun d => d_ID d = i) ds) as Hin by (rewrite Hf; set_solver).
    apply list_elem_of_filter in Hin as [Hid2 _]. rewrite Hid, Hid2 in Hsub.
    apply NoDup_cons in Hsub as [Hbad _]. set_solver. }
  destruct (Hds d Hd) as (r & Hin & Hr & _). rewrite Hid in *. cbn [length].
  unfold remaining. rewrite Hjobs, bool_decide_eq_true_2, Hr.
  - cbn. lia.
  - by apply (list_elem_of_fmap_2 fst) in Hin.
Qed.

(** A job is delivered at most [MaxAttempts] times: over any sequence of
    operations that does not create the row anew, the deliveries of one job and
    the attempts it already had never exceed its maximum, whoever claims it and
    however leases expire, are released, retried or lost. *)
Theorem job_is_delivered_at_most_max_attempts_times i r os db :
  (forall n l, returning_order pg n l ≡ₚ l) -> db_inv db -> jobs db !! i = Some r ->
  Forall (fun o => ~ op_creates pg o i) os ->
  Z.of_nat (deliveries_in i os db) + j_attempts r <= j_max_attempts r.
Proof.
  intros Hperm Hi Hr Hf.
  assert (Hgen : forall os db, db_inv db -> Forall (fun o => ~ op_creates pg o i) os ->
    Z.of_nat (deliveries_in i os db) <= remaining i db).
  { clear -Hperm. induction os as [|o os IH]; intros db Hi Hf; cbn.
    - unfold remaining. destruct (jobs db !! i) as [r|] eqn:Hr; [|lia].
      destruct (proj1 Hi i r Hr) as (_ & Ha & _). lia.
    - apply Forall_cons in Hf as [Ho Hf].
      pose proof (deliveries_remaining i o db Hperm Hi Ho).
      specialize (IH (run_op E pg store o db) (run_op_inv _ _ _ _ _ Hi) Hf). lia. }
  specialize (Hgen os db Hi Hf). unfold remaining in Hgen. rewrite Hr in Hgen. lia.
Qed.

(** ** Deduplication *)

Lemma enqueue_effect request db jid db' :
  statement E (sql_enqueue pg request) db = (Ok jid, db') ->
  exists i payload at_, uuid_in pg (e_ID request) = Some i /\
    jsonb_in pg (e_Payload request) = Some payload /\
    let row := new_row request payload at_ (clock E (jobs_tick db)) in
    enqueue_row i row (jobs db, failed db) = Ok (jid, (jobs db', failed db')).
Proof.
  intros Hs. apply statement_Ok in Hs as [Hs _]. unfold sql_enqueue, cast in Hs.
  destruct (uuid_in pg _) as [i|]; [|done]. destruct (jsonb_in pg _) as [payload|]; [|done].
  destruct (e_At request); [destruct (timestamptz_in pg _); [|done]|]; eauto 8.
Qed.

(** Deduplication: enqueueing under a key that an active job of the same queue
    and name carries answers with that job's ID and changes nothing; otherwise the
    job is inserted as requested, unleased and with no attempt counted.  Either
    way exactly one active job carries the key afterwards. *)
Theorem deduplicated_enqueue request db result db' :
  db_inv db -> uuid_in pg (e_ID request) = Some (e_ID request) ->
  e_DedupKey request <> EmptyString ->
  Enqueue E pg store true request db = (Ok result, db') ->
  let carries r := j_queue r = e_Queue request /\ j_name r = e_Name request /\
                   j_dedup_key r = Some (e_DedupKey request) in
  (exists r, jobs db' !! dr_ID result = Some r /\ carries r /\
     (forall i r', jobs db' !! i = Some r' -> carries r' -> i = dr_ID result)) /\
  ((exists i r, jobs db !! i = Some r /\ carries r) ->
     jobs db' = jobs db /\ failed db' = failed db /\
     dr_Enqueued result = bool_decide (dr_ID result = e_ID request)) /\
  ((forall i r, jobs db !! i = Some r -> ~ carries r) ->
     dr_Enqueued result = true /\ dr_ID result = e_ID request /\
     exists r, jobs db' = <[e_ID request := r]> (jobs db) /\ j_attempts r = 0 /\
       j_lease_owner r = None /\ j_max_attempts r = e_MaxAttempts request).
Proof.
  intros Hi Huuid Hkey HE carries. unfold Enqueue in HE. cbn in HE.
  destruct (valid_enqueue store request); [done|].
  rewrite bool_decide_eq_false_2 in HE by done. unfold bindM, wrapM in HE.
  destruct (statement _ _ _) as [[jid|] db1] eqn:Hs; [|done]. unfold ret in HE. simplify_eq.
  pose proof (statement_inv _ _ _ _ _ (sql_enqueue_inv pg request) Hi Hs) as Hi'.
  apply enqueue_effect in Hs as (i & payload & at_ & Hu & _ & He). cbn zeta in He.
  rewrite Huuid in Hu. simplify_eq. cbn [dr_ID dr_Enqueued].
  set (row := new_row request payload at_ (clock E (jobs_tick db))) in *.
  assert (Hrow : carries row) by (unfold row, carries; cbn; by rewrite bool_decide_eq_false_2).
  assert (Hsame : forall r, carries r <-> same_dedup row r = true).
  { intros r. destruct Hrow as (Hq & Hn & Hk). unfold carries, same_dedup. rewrite Hk, Hq, Hn.
    rewrite !andb_true_iff, !bool_decide_eq_true.
    destruct (j_dedup_key r); rewrite ?bool_decide_eq_true; naive_solver. }
  assert (Huniq : forall i j a b, jobs db' !! i = Some a -> carries a -> jobs db' !! j = Some b ->
    carries b -> i = j).
  { intros i j a b Ha Hca Hb Hcb. destruct (decide (i = j)) as [|Hne]; [done|]. exfalso.
    destruct Hi' as (_ & _ & Hd). specialize (Hd i j a b Ha Hb Hne).
    destruct Hca as (Ha1 & Ha2 & Ha3), Hcb as (Hb1 & Hb2 & Hb3). unfold same_dedup in Hd.
    rewrite Ha1, Ha2, Ha3, Hb1, Hb2, Hb3, !bool_decide_eq_true_2 in Hd by done. done. }
  unfold enqueue_row, with_jobs in He. destruct (job_check row); [|done]. cbn [negb fst snd] in He.
  destruct (dedup_conflict row (jobs db)) as [[ex r]|] eqn:Hd.
  - injection He as <- Hj Hf. rewrite <- Hj, <- Hf in *.
    apply dedup_conflict_Some in Hd as [Hex Hdup]. apply Hsame in Hdup.
    split; [eauto 6|]. split; [done|]. intros Hno. by destruct (Hno ex r).
  - destruct (insert_job _ row _) as [js|] eqn:Hins; [|done]. injection He as <- Hj Hf.
    apply insert_job_Ok in Hins as [Hn ->]. rewrite <- Hj in *.
    assert (Hin : <[e_ID request := row]> (jobs db) !! e_ID request = Some row)
      by apply lookup_insert_eq.
    split; [eauto 6|]. split.
    + intros (i & r & Hr & Hc). apply Hsame in Hc. by rewrite (dedup_conflict_None _ _ Hd i r) in Hc.
    + intros _. rewrite bool_decide_eq_true_2 by done. eauto 8.
Qed.

(** ** Terminal failures *)

(** The dead-letter round trip: a reported failure moves the job, whole, from the
    active to the failed table under a message of the allowlist; an administrator's
    retry moves it back with the same queue, name, payload, priority, policy,
    deduplication key and creation time, unleased, available at once and with all
    its attempts. *)
Theorem failed_job_is_conserved_and_restorable request db db1 db2 i :
  uuid_in pg (l_JobID (fr_Lease request)) = Some i -> uuid_in pg i = Some i ->
  Fail E pg store request db = (Ok true, db1) ->
  RetryFailed E pg i db1 = (Ok true, db2) ->
  exists r f r2, jobs db !! i = Some r /\
    jobs db1 = delete i (jobs db) /\ failed db1 = <[i := f]> (failed db) /\
    f_payload f = j_payload r /\ f_attempts f = j_attempts r /\
    safe_text (f_failure_message f) /\
    jobs db2 = <[i := r2]> (jobs db1) /\ failed db2 !! i = None /\
    same_identity r r2 /\ j_payload r2 = j_payload r /\ j_priority r2 = j_priority r /\
    j_max_attempts r2 = j_max_attempts r /\ j_timeout_ms r2 = j_timeout_ms r /\
    j_backoff_ms r2 = j_backoff_ms r /\ j_created_at r2 = j_created_at r /\
    j_attempts r2 = 0 /\ j_lease_owner r2 = None /\
    j_available_at r2 = clock E (jobs_tick db1).
Proof.
  intros Hu Hui HF HR. unfold Fail in HF. destruct (_ || _); [done|]. unfold wrapM in HF.
  destruct (statement _ _ _) as [[b|] d1] eqn:Hs in HF; [|done]. simplify_eq.
  apply statement_Ok in Hs as [Hs _]. apply sql_fail_true in Hs as (i' & r & Hi' & Hr & _ & Ht & Hno).
  rewrite Hu in Hi'. injection Hi' as <-. cbn [fst snd] in *. injection Ht as Hj1 Hf1.
  unfold RetryFailed, wrapM in HR. destruct (statement _ _ db1) as [[b|] d2] eqn:Hs in HR; [|done].
  simplify_eq. apply statement_Ok in Hs as [Hs _]. unfold sql_retry_failed, cast in Hs.
  rewrite Hui in Hs. cbn [fst snd] in Hs. rewrite Hf1, lookup_insert_eq in Hs.
  destruct (insert_job _ _ _) as [js|] eqn:Hins; [|done]. injection Hs as Hj2 Hf2.
  apply insert_job_Ok in Hins as [_ ->]. eexists r, _, _.
  split; [done|]. split; [done|]. split; [done|]. split; [done|]. split; [done|].
  split; [apply bounded_safe|]. split; [by rewrite <- Hj2|].
  split; [rewrite <- Hf2; apply lookup_delete_eq|]. done.
Qed.

#[local] Instance failed_le_total : Total failed_le.
Proof.
  intros [i a] [j b]. unfold failed_le. cbn.
  destruct (Z.lt_trichotomy (f_failed_at a) (f_failed_at b)) as [?|[?|?]]; auto.
  destruct (total String.le i j); auto.
Qed.

#[local] Instance failed_le_trans : Transitive failed_le.
Proof.
  intros [i a] [j b] [k c]. unfold failed_le. cbn. intros [H1|[H1 H1']] [H2|[H2 H2']];
    try (left; lia). right. split; [lia|]. by eapply (transitivity (R := String.le)).
Qed.

(** Whatever text earlier versions may have stored, an administrator's listing
    only ever shows messages of the allowlist, newest failure first and no more
    than the requested number. *)
Theorem listed_failures_are_safe_and_ordered limit db items db' :
  ListFailed E store limit db = (Ok items, db') ->
  Forall (fun item => safe_text (fj_FailureMessage item)) items /\
  Sorted (fun a b => fj_FailedAt b <= fj_FailedAt a) items /\
  (length items <= Z.to_nat (if (limit =? 0)%Z then 100 else limit)%Z)%nat /\
  jobs db' = jobs db /\ failed db' = failed db.
Proof.
  unfold ListFailed. destruct (_ || _); [done|]. unfold bindM, wrapM. intros HL.
  destruct (statement _ _ _) as [[rows|] d] eqn:Hs in HL; [|done]. simplify_eq.
  rename H into Hscan. apply statement_Ok in Hs as [Hs _]. injection Hs as Hrows Hj Hf.
  assert (Hitems : items = failed_item store <$> rows).
  { clear -Hscan. revert items Hscan. induction rows as [|kv rows IH]; intros items; cbn.
    - by intros [= <-].
    - destruct (validateFailed _ _ _); [done|]. destruct (scan_failed store rows) as [its|]; [|done].
      intros [= <-]. by rewrite (IH its). }
  split; [|split; [|split; [|done]]].
  - rewrite Hitems. apply Forall_fmap, Forall_true. intros [i r]. apply bounded_safe.
  - rewrite Hitems.
    assert (Hsort : Sorted failed_le rows).
    { rewrite <- Hrows. apply StronglySorted_Sorted.
      assert (Hall : StronglySorted failed_le (merge_sort failed_le (map_to_list (failed db)))).
      { apply StronglySorted_merge_sort; apply _. }
      rewrite <- (take_drop (Z.to_nat (if limit =? 0 then 100 else limit)) (merge_sort _ _)) in Hall.
      by apply StronglySorted_app_1_l in Hall. }
    clear -Hsort. induction Hsort as [|[i a] l _ IH Hhd]; [constructor|].
    cbn. constructor; [done|]. destruct Hhd as [|[j b] l [Hlt|[Heq _]]]; cbn; constructor; cbn; cbn in *; lia.
  - rewrite Hitems, length_fmap, <- Hrows. apply firstn_le_length.
Qed.

End props.

(** ** Instances *)

Module Runs.
Import Sample.
Definition fast : env := ticking Second.
Definition slow : env := ticking Hour.
Definition enqueued : jobsDb := run_ops fast pg defaultJobs [OpEnqueue true mail] empty_db.
Definition claimed : jobsDb :=
  run_ops fast pg defaultJobs [OpEnqueue true mail; OpClaim (claim "w1")] empty_db.
Definition reclaimed : jobsDb :=
  run_ops slow pg defaultJobs
    [OpEnqueue true mail; OpClaim (claim "w1"); OpClaim (claim "w2")] empty_db.
Definition failure : FailureRequest :=
  {| fr_Lease := lease "w1" 1; fr_Kind := "permanent"; fr_Error := "secret" |}.
Definition dead : jobsDb := (Fail fast pg defaultJobs failure claimed).2.
Definition again : EnqueueRequest :=
  {| e_ID := "b"; e_Queue := "default"; e_Name := "mail.send.v1"; e_Payload := "{}";
     e_Priority := 0; e_Delay := 0; e_At := None; e_MaxAttempts := 2; e_Timeout := Minute;
     e_Backoff := [Second]; e_DedupKey := "welcome-7" |}.
Lemma perm (n : nat) (l : list string) : returning_order pg n l ≡ₚ l.
Proof. reflexivity. Qed.
End Runs.

Lemma live_lease_is_exclusive_witness :
  jobs (run_op Runs.fast Sample.pg defaultJobs (OpClaim (Sample.claim "w2")) Runs.claimed) !! "a"
  = jobs Runs.claimed !! "a" /\ is_Some (jobs Runs.claimed !! "a").
Proof.
  destruct (jobs Runs.claimed !! "a") as [r|] eqn:Hr; [|vm_compute in Hr; discriminate].
  split; [|eexists; reflexivity].
  apply (live_lease_is_exclusive Runs.fast Sample.pg defaultJobs (OpClaim (Sample.claim "w2"))
           Runs.claimed "a" r (Sample.lease "w1" 1)).
  - apply run_ops_inv, empty_db_inv.
  - exact Hr.
  - vm_compute in Hr. injection Hr as <-. vm_compute. reflexivity.
  - intros other Ho. discriminate Ho.
Defined.

Lemma superseded_lease_is_refused_forever_witness :
  fenced_result Runs.slow Sample.pg defaultJobs (OpAck (Sample.lease "w1" 1))
    (run_ops Runs.slow Sample.pg defaultJobs [OpRelease (Sample.lease "w2" 2)] Runs.reclaimed)
  <> Ok true.
Proof.
  apply (superseded_lease_is_refused_forever Runs.slow Sample.pg defaultJobs "a"
           (Sample.lease "w1" 1) [OpRelease (Sample.lease "w2" 2)] Runs.reclaimed
           (OpAck (Sample.lease "w1" 1))).
  - reflexivity.
  - reflexivity.
  - intros r Hr. vm_compute in Hr. injection Hr as <-. vm_compute. reflexivity.
  - repeat constructor. intros [].
Defined.

Lemma claim_hands_out_the_best_due_jobs_witness :
  exists ds db', Claim Runs.fast Sample.pg defaultJobs (Sample.claim "w1") Runs.enqueued
    = (Ok ds, db') /\ length ds = 1%nat /\
    forall d, d ∈ ds -> exists r', jobs db' !! d_ID d = Some r' /\
      holds (d_Lease d) (clock Runs.fast (jobs_tick Runs.enqueued)) r' = true.
Proof.
  destruct (Claim Runs.fast Sample.pg defaultJobs (Sample.claim "w1") Runs.enqueued)
    as [[ds|e] db'] eqn:HC; [|vm_compute in HC; discriminate].
  destruct (claim_hands_out_the_best_due_jobs Runs.fast Sample.pg defaultJobs
              (Sample.claim "w1") Runs.enqueued ds db' Runs.perm HC) as (_ & _ & Hds & _).
  exists ds, db'. split; [reflexivity|]. split.
  - vm_compute in HC. injection HC as <- <-. reflexivity.
  - intros d Hd. destruct (Hds d Hd) as (r & r' & _ & _ & Hr' & Hh & _). exists r'. split; assumption.
Defined.

Lemma job_is_delivered_at_most_max_attempts_times_witness :
  let os := [OpClaim (Sample.claim "w1"); OpClaim (Sample.claim "w2"); OpClaim (Sample.claim "w3")] in
  let r := Sample.row_of Runs.enqueued in
  Z.of_nat (deliveries_in Runs.slow Sample.pg defaultJobs "a" os Runs.enqueued) + j_attempts r
    <= j_max_attempts r /\
  deliveries_in Runs.slow Sample.pg defaultJobs "a" os Runs.enqueued = 2%nat.
Proof.
  intros os r. split; [|vm_compute; reflexivity].
  apply (job_is_delivered_at_most_max_attempts_times Runs.slow Sample.pg defaultJobs "a" r os
           Runs.enqueued Runs.perm).
  - apply run_ops_inv, empty_db_inv.
  - vm_compute. reflexivity.
  - repeat constructor; intros [].
Defined.

Lemma deduplicated_enqueue_witness :
  exists result db', Enqueue Runs.fast Sample.pg defaultJobs true Runs.again Runs.enqueued
    = (Ok result, db') /\ jobs db' = jobs Runs.enqueued /\ dr_Enqueued result = false.
Proof.
  destruct (Enqueue Runs.fast Sample.pg defaultJobs true Runs.again Runs.enqueued)
    as [[result|e] db'] eqn:HE; [|vm_compute in HE; discriminate].
  destruct (deduplicated_enqueue Runs.fast Sample.pg defaultJobs Runs.again Runs.enqueued result db')
    as (_ & Hdup & _).
  - apply run_ops_inv, empty_db_inv.
  - reflexivity.
  - discriminate.
  - exact HE.
  - exists result, db'. split; [reflexivity|].
    destruct Hdup as (Hj & _ & He).
    + exists "a", (Sample.row_of Runs.enqueued). repeat split; vm_compute; reflexivity.
    + split; [exact Hj|]. rewrite He. vm_compute in HE. injection HE as <- <-. reflexivity.
Defined.

Lemma failed_job_is_conserved_and_restorable_witness :
  exists db2 r2, RetryFailed Runs.fast Sample.pg "a" Runs.dead = (Ok true, db2) /\
    jobs db2 !! "a" = Some r2 /\ j_payload r2 = "{}" /\ j_attempts r2 = 0.
Proof.
  destruct (RetryFailed Runs.fast Sample.pg "a" Runs.dead) as [b db2] eqn:HR.
  destruct b as [[]|]; [|vm_compute in HR; discriminate..].
  destruct (failed_job_is_conserved_and_restorable Runs.fast Sample.pg defaultJobs Runs.failure
              Runs.claimed Runs.dead db2 "a")
    as (r & f & r2 & Hr & _ & _ & _ & _ & _ & Hj & _ & _ & Hp & _ & _ & _ & _ & _ & Ha & _).
  - reflexivity.
  - reflexivity.
  - vm_compute. reflexivity.
  - exact HR.
  - exists db2, r2. split; [reflexivity|]. split; [rewrite Hj; apply lookup_insert_eq|].
    split; [|exact Ha]. rewrite Hp. vm_compute in Hr. injection Hr as <-. reflexivity.
Defined.

Lemma listed_failures_are_safe_and_ordered_witness :
  exists items db', ListFailed Runs.fast defaultJobs 0 Runs.dead = (Ok items, db') /\
    length items = 1%nat /\ Forall (fun item => safe_text (fj_FailureMessage item)) items.
Proof.
  destruct (ListFailed Runs.fast defaultJobs 0 Runs.dead) as [[items|e] db'] eqn:HL;
    [|vm_compute in HL; discriminate].
  exists items, db'. split; [reflexivity|]. split.
  - vm_compute in HL. injection HL as <- <-. reflexivity.
  - apply (listed_failures_are_safe_and_ordered Runs.fast defaultJobs 0 Runs.dead items db' HL).
Defined.

(** ** Two behaviours the code does not intend *)

Module Divergence.
Import Sample.

Definition once : EnqueueRequest :=
  {| e_ID := "a"; e_Queue := "default"; e_Name := "mail.send.v1"; e_Payload := "{}";
     e_Priority := 0; e_Delay := 0; e_At := None; e_MaxAttempts := 1; e_Timeout := Minute;
     e_Backoff := [Second]; e_DedupKey := EmptyString |}.

Definition before : jobsDb :=
  run_ops Runs.slow pg defaultJobs [OpEnqueue true once; OpClaim (claim "w1")] empty_db.
Definition after : jobsDb :=
  run_ops Runs.slow pg defaultJobs
    [OpFailExhausted ["default"] ["mail.send.v1"] 1; OpRetryFailed "a"; OpClaim (claim "w1")] before.

(** Restoring a failed job starts its generations over, so a lease that expired
    before the restoration holds again once the same worker claims the job: the
    first run's [Ack] then deletes the job the second run is executing. *)
Theorem restored_job_revives_expired_lease :
  (exists r, jobs before !! "a" = Some r /\ holds (lease "w1" 1) (2 * Hour) r = true /\
     holds (lease "w1" 1) (3 * Hour) r = false) /\
  (exists db', Ack Runs.slow pg (lease "w1" 1)
     {| jobs := jobs after; failed := failed after; jobs_tick := 4 |} = (Ok true, db') /\
     jobs db' !! "a" = None).
Proof.
  split; [eexists; split; [vm_compute; reflexivity|split; vm_compute; reflexivity]|].
  eexists. split; vm_compute; reflexivity.
Qed.

(** PostgreSQL prints the array with a space after the comma. *)
Definition spacing : pgsql :=
  {| jsonb_in := fun s => Some (if bool_decide (s = "[1,2]") then "[1, 2]" else s);
     uuid_in := Some; timestamptz_in := Some; returning_order := fun _ l => l |}.
Definition small : pgJobs := {| maxPayload := 5; maxError := 8192 |}.
Definition request (jid payload : string) : EnqueueRequest :=
  {| e_ID := jid; e_Queue := "default"; e_Name := "mail.send.v1"; e_Payload := payload;
     e_Priority := 0; e_Delay := 0; e_At := None; e_MaxAttempts := 3; e_Timeout := Minute;
     e_Backoff := [Second]; e_DedupKey := EmptyString |}.
Definition queued : jobsDb :=
  run_ops Runs.fast spacing small
    [OpEnqueue true (request "a" "{}"); OpEnqueue true (request "b" "[1,2]")] empty_db.
Definition both : ClaimRequest :=
  {| c_Queues := ["default"]; c_Names := ["mail.send.v1"]; c_Limit := 2; c_WorkerID := "w1";
     c_LeaseDuration := Minute |}.

(** The payload limit is checked against the caller's bytes on the way in and
    against PostgreSQL's rendering on the way out: a payload at the limit is
    accepted, and every claim that selects it then fails for the whole batch,
    after the rows were leased. *)
Theorem payload_at_limit_poisons_claims :
  (Enqueue Runs.fast spacing small true (request "b" "[1,2]") empty_db).1
    = Ok {| dr_ID := "b"; dr_Enqueued := true |} /\
  exists e db', Claim Runs.fast spacing small both queued = (Err e, db') /\
    (j_lease_owner <$> jobs db' !! "a") = Some (Some "w1") /\
    (j_attempts <$> jobs db' !! "a") = Some 1.
Proof.
  split; [vm_compute; reflexivity|]. eexists _, _. split; [vm_compute; reflexivity|].
  split; vm_compute; reflexivity.
Qed.
End Divergence.
