(* ===== verification/Job.v ===== *)
(** * Jobs: definitions, dispatch and workers

    Package [job]: typed definitions ([definition.go]), the registry
    ([registry.go]), error classification ([errors.go]), dispatch
    ([dispatch.go]) and the worker ([worker.go]).

    A worker's goroutines are modelled by the arrivals their [select] statements
    wait for: a processing loop is a function of its phase and the next arrival,
    and a worker run is a relation that interleaves them. *)

From S2P Require Import Prelude GoStrings GoRegexp GoEncoding GoJson JobTypes.
Local Open Scope Z_scope.

(** ** [definition.go] *)

Definition defaultBackoff : list duration := [Second; 5 * Second; 30 * Second].

Definition thirtyDays : duration := 30 * 24 * Hour.

Record Definition_ : Type := { def_name : string; def_policy : Policy }.

Definition validateQueue (queue : string) : option error :=
  if (byte_len queue =? 0) || (byte_len queue >? MaxQueueBytes)
     || negb (re_match queuePattern queue)
  then Some (Errorf "job: invalid queue %q") else None.

Fixpoint validateBackoff (backoff : list duration) : option error :=
  match backoff with
  | [] => None
  | delay :: rest =>
      if (delay <? 0) || (delay >? thirtyDays)
      then Some (Errorf "job: backoff must be between zero and 30 days")
      else if (delay >? 0) && (delay <? Millisecond)
      then Some (Errorf "job: non-zero backoff must be at least 1ms")
      else validateBackoff rest
  end.

Definition Define (name : string) (policy : Policy) : result Definition_ :=
  let name := TrimSpace name in
  if (byte_len name =? 0) || (byte_len name >? MaxNameBytes) || negb (re_match namePattern name)
  then Err (Errorf "job: invalid versioned name %q")
  else
  let queue := if bool_decide (p_Queue policy = EmptyString) then "default" else p_Queue policy in
  match validateQueue queue with
  | Some err => Err err
  | None =>
  let maxAttempts := if p_MaxAttempts policy =? 0 then 3 else p_MaxAttempts policy in
  if (maxAttempts <? 1) || (maxAttempts >? 1000)
  then Err (Errorf "job: max attempts must be between 1 and 1000")
  else
  let timeout := if p_Timeout policy =? 0 then 30 * Second else p_Timeout policy in
  if (timeout <? Millisecond) || (timeout >? 24 * Hour)
  then Err (Errorf "job: timeout must be between 1ms and 24h")
  else
  let backoff := match p_Backoff policy with [] => defaultBackoff | b => b end in
  if Z.of_nat (length backoff) >? 1000
  then Err (Errorf "job: backoff supports at most 1000 entries")
  else
  match validateBackoff backoff with
  | Some err => Err err
  | None => Ok {| def_name := name;
                  def_policy := {| p_Queue := queue; p_MaxAttempts := maxAttempts;
                                   p_Timeout := timeout; p_Backoff := backoff |} |}
  end end.

(** [decodePayload]: one strict decode, then nothing but the end of input. *)
Inductive nextDecode : Type := NextEOF | NextValue | NextError (err : error).

Definition decodePayload {P} (decode : string -> result (P * string)) (next : string -> nextDecode)
    (payload : string) : result P :=
  match decode payload with
  | Err err => Err err
  | Ok (value, rest) =>
      match next rest with
      | NextEOF => Ok value
      | NextValue => Err (Errorf "multiple JSON values")
      | NextError err => Err err
      end
  end.

(** ** [registry.go] *)

Record registeredHandler : Type := { rh_policy : Policy; rh_decode : string -> bool }.

Definition Registry : Type := gmap string registeredHandler.

Definition Register (registry : option Registry) (definition : Definition_)
    (handler : option (string -> bool)) : result Registry :=
  match registry with
  | None => Err (Errorf "job: registry is required")
  | Some registry =>
      if bool_decide (def_name definition = EmptyString)
      then Err (Errorf "job: valid definition is required")
      else match handler with
           | None => Err (Errorf "job: handler for %s is required")
           | Some decode =>
               match registry !! def_name definition with
               | Some _ => Err (Wrapf "%w: %s" ErrDuplicate)
               | None => Ok (<[def_name definition :=
                               {| rh_policy := def_policy definition; rh_decode := decode |}]> registry)
               end
           end
  end.

(** [Names]: sorted, each name once. *)
Definition Names (registry : Registry) : list string :=
  merge_sort String.le (fst <$> map_to_list registry).

(** ** [errors.go] *)

(** The errors a handler can return, as far as the package looks into them. *)
Inductive handlerError : Type :=
| HandlerText (message : string)
| DeadlineExceeded
| ContextCanceled
| WrappedError (inner : handlerError)
| JoinedErrors (first second : handlerError)
| permanentError (inner : handlerError)
| retryAfterError (inner : handlerError) (delay : duration)
| panicError.

Definition Permanent (err : option handlerError) : option handlerError := permanentError <$> err.

Definition RetryAfter (err : option handlerError) (delay : duration) : option handlerError :=
  match err with
  | None => None
  | Some err =>
      if (delay <? 0) || (delay >? thirtyDays) then Some (permanentError (WrappedError err))
      else if (delay >? 0) && (delay <? Millisecond) then Some (permanentError (WrappedError err))
      else Some (retryAfterError err delay)
  end.

(** [errors.As] and [errors.Is]: the error tree in depth-first order. *)
Fixpoint as_panic (err : handlerError) : bool :=
  match err with
  | panicError => true
  | WrappedError e | permanentError e | retryAfterError e _ => as_panic e
  | JoinedErrors a b => as_panic a || as_panic b
  | _ => false
  end.

Fixpoint as_permanent (err : handlerError) : bool :=
  match err with
  | permanentError _ => true
  | WrappedError e | retryAfterError e _ => as_permanent e
  | JoinedErrors a b => as_permanent a || as_permanent b
  | _ => false
  end.

Fixpoint as_retry (err : handlerError) : option duration :=
  match err with
  | retryAfterError _ delay => Some delay
  | WrappedError e | permanentError e => as_retry e
  | JoinedErrors a b => match as_retry a with Some d => Some d | None => as_retry b end
  | _ => None
  end.

Fixpoint is_deadline (err : handlerError) : bool :=
  match err with
  | DeadlineExceeded => true
  | WrappedError e | permanentError e | retryAfterError e _ => is_deadline e
  | JoinedErrors a b => is_deadline a || is_deadline b
  | _ => false
  end.

Record classification : Type := {
  cl_kind : string; cl_message : string; cl_delay : option duration; cl_permanent : bool
}.

Definition classifyError (err : handlerError) : classification :=
  if as_panic err
  then {| cl_kind := "panic"; cl_message := "handler panicked"; cl_delay := None;
          cl_permanent := false |}
  else if as_permanent err
  then {| cl_kind := "permanent"; cl_message := "handler reported a permanent failure";
          cl_delay := None; cl_permanent := true |}
  else match as_retry err with
       | Some delay => {| cl_kind := "error"; cl_message := "handler requested a retry";
                          cl_delay := Some delay; cl_permanent := false |}
       | None => {| cl_kind := "error"; cl_message := "handler returned an error";
                    cl_delay := None; cl_permanent := false |}
       end.

(** ** Identifiers *)

Definition byte_map (f : nat -> nat) (c : ascii) : ascii := ascii_of_nat (f (nat_of_ascii c)).

Fixpoint update_byte (i : nat) (f : ascii -> ascii) (s : string) : string :=
  match s, i with
  | EmptyString, _ => EmptyString
  | String c s', O => String (f c) s'
  | String c s', S i' => String c (update_byte i' f s')
  end.

Definition slice (lo hi : nat) (s : string) : string := take_string (hi - lo) (drop_string lo s).

(** The text form of sixteen random bytes with version and variant bits set. *)
Definition format_id (raw : string) : string :=
  let raw := update_byte 6 (byte_map (fun b => Nat.lor (Nat.land b 15) 64)) raw in
  let raw := update_byte 8 (byte_map (fun b => Nat.lor (Nat.land b 63) 128)) raw in
  hexEncode (slice 0 4 raw) +:+ "-" +:+ hexEncode (slice 4 6 raw) +:+ "-"
  +:+ hexEncode (slice 6 8 raw) +:+ "-" +:+ hexEncode (slice 8 10 raw) +:+ "-"
  +:+ hexEncode (slice 10 16 raw).

Definition newID (random : result string) : result string :=
  match random with
  | Err err => Err (Wrapf "job: generate id: %w" err)
  | Ok raw => Ok (format_id raw)
  end.

(** ** [dispatch.go] *)

Record dispatchSettings : Type := {
  s_queue : string;
  s_delay : duration;
  s_delaySet : bool;
  s_at : option time;
  s_dedupKey : string;
  s_priority : Z
}.

Inductive DispatchOption : Type :=
| Queue (name : string)
| Delay (delay : duration)
| At (at_ : time)
| Deduplicate (key : string)
| Priority (priority : Z)
| NilOption.

Definition apply_option (option_ : DispatchOption) (s : dispatchSettings) : result dispatchSettings :=
  match option_ with
  | Queue name =>
      match validateQueue name with
      | Some err => Err err
      | None => Ok {| s_queue := name; s_delay := s_delay s; s_delaySet := s_delaySet s;
                      s_at := s_at s; s_dedupKey := s_dedupKey s; s_priority := s_priority s |}
      end
  | Delay delay =>
      if (delay <? 0) || (delay >? 365 * 24 * Hour)
      then Err (Errorf "job: delay must be between zero and one year")
      else if (delay >? 0) && (delay <? Millisecond)
      then Err (Errorf "job: non-zero delay must be at least 1ms")
      else if bool_decide (is_Some (s_at s))
      then Err (Errorf "job: delay and at are mutually exclusive")
      else Ok {| s_queue := s_queue s; s_delay := delay; s_delaySet := true;
                 s_at := s_at s; s_dedupKey := s_dedupKey s; s_priority := s_priority s |}
  | At at_ =>
      if IsZero at_ then Err (Errorf "job: at timestamp is required")
      else if s_delaySet s then Err (Errorf "job: delay and at are mutually exclusive")
      else Ok {| s_queue := s_queue s; s_delay := s_delay s; s_delaySet := s_delaySet s;
                 s_at := Some at_; s_dedupKey := s_dedupKey s; s_priority := s_priority s |}
  | Deduplicate key =>
      if (byte_len key =? 0) || (byte_len key >? MaxDedupKeyBytes)
      then Err (Errorf "job: deduplication key must be between 1 and %d bytes")
      else Ok {| s_queue := s_queue s; s_delay := s_delay s; s_delaySet := s_delaySet s;
                 s_at := s_at s; s_dedupKey := key; s_priority := s_priority s |}
  | Priority priority =>
      if (priority <? -32768) || (priority >? 32767)
      then Err (Errorf "job: priority is outside smallint range")
      else Ok {| s_queue := s_queue s; s_delay := s_delay s; s_delaySet := s_delaySet s;
                 s_at := s_at s; s_dedupKey := s_dedupKey s; s_priority := priority |}
  | NilOption => Err (Errorf "job: nil dispatch option")
  end.

Fixpoint apply_options (options : list DispatchOption) (s : dispatchSettings)
    : result dispatchSettings :=
  match options with
  | [] => Ok s
  | o :: rest => match apply_option o s with Ok s' => apply_options rest s' | Err e => Err e end
  end.

Record Dispatcher : Type := {
  ds_store : bool;
  ds_executor : bool;
  ds_maxPayloadBytes : Z
}.

Definition NewDispatcher (store executor : bool) (maxPayloadBytes : Z) : result Dispatcher :=
  if negb store then Err (Errorf "job: store is required")
  else match ValidateExecutor executor with
  | Some err => Err err
  | None =>
      let maximum := if maxPayloadBytes =? 0 then DefaultMaxPayloadBytes else maxPayloadBytes in
      if maximum <? 1 then Err (Errorf "job: max payload bytes must be positive")
      else Ok {| ds_store := store; ds_executor := executor; ds_maxPayloadBytes := maximum |}
  end.

Definition Dispatcher_Validate (d : Dispatcher) : option error :=
  if negb (ds_store d) then Some (Errorf "job: store is required")
  else match ValidateExecutor (ds_executor d) with
  | Some err => Some err
  | None => if ds_maxPayloadBytes d <? 1
            then Some (Errorf "job: max payload bytes must be positive") else None
  end.

Definition Using (executor : bool) (d : Dispatcher) : Dispatcher :=
  {| ds_store := ds_store d; ds_executor := executor; ds_maxPayloadBytes := ds_maxPayloadBytes d |}.

(** The request a dispatch sends to the store; nothing is stored on an error. *)
Definition dispatch_request (definition : Definition_) (dispatcher : Dispatcher)
    (options : list DispatchOption) (encoded : result string) (random : result string)
    : result EnqueueRequest :=
  if bool_decide (def_name definition = EmptyString)
  then Err (Errorf "job: valid definition is required")
  else if bool_decide (is_Some (Dispatcher_Validate dispatcher))
  then Err (Errorf "job: valid dispatcher is required")
  else
  match apply_options options {| s_queue := p_Queue (def_policy definition); s_delay := 0;
          s_delaySet := false; s_at := None; s_dedupKey := EmptyString; s_priority := 0 |} with
  | Err err => Err err
  | Ok settings =>
  match encoded with
  | Err err => Err (Wrapf "job: encode %s: %w" err)
  | Ok payload =>
      if byte_len payload >? ds_maxPayloadBytes dispatcher
      then Err (Wrapf "%w: %s is %d bytes; limit is %d" ErrPayloadTooLarge)
      else match newID random with
           | Err err => Err err
           | Ok jid =>
               Ok {| e_ID := jid; e_Queue := s_queue settings; e_Name := def_name definition;
                     e_Payload := payload; e_Priority := s_priority settings;
                     e_Delay := s_delay settings; e_At := s_at settings;
                     e_MaxAttempts := p_MaxAttempts (def_policy definition);
                     e_Timeout := p_Timeout (def_policy definition);
                     e_Backoff := p_Backoff (def_policy definition);
                     e_DedupKey := s_dedupKey settings |}
           end
  end end.

(** [Dispatch]: the store's answer and the event announcing it. *)
Definition Dispatch {St} `{JobStore St} (definition : Definition_) (dispatcher : Dispatcher)
    (options : list DispatchOption) (encoded random : result string) (now : time)
    : M (St * option eventEmitter) DispatchResult := fun w =>
  match dispatch_request definition dispatcher options encoded random with
  | Err err => (Err err, w)
  | Ok request =>
      match wrapStore ("dispatch " +:+ def_name definition)
              (store_Enqueue (ds_executor dispatcher) request) w.1 with
      | (Err err, st) => (Err err, (st, w.2))
      | (Ok r, st) =>
          let event := {| ev_Kind := if dr_Enqueued r then EventDispatched else EventDuplicate;
                          ev_JobID := dr_ID r; ev_Name := def_name definition;
                          ev_Queue := e_Queue request; ev_WorkerID := EmptyString; ev_Attempt := 0;
                          ev_Duration := 0; ev_RetryAfter := 0; ev_Outcome := EmptyString;
                          ev_At := now |} in
          (Ok r, (st, emit event <$> w.2))
      end
  end.
