(* ===== verification/JobWorker.v ===== *)
(** * Job workers

    [job/worker.go]: configuration, the processing loop of one delivery, the
    completion rules, and the polling loop with its bounded slots. *)

From S2P Require Import Prelude GoStrings GoUtf8 GoRegexp GoEncoding GoJson JobTypes Job.
Local Open Scope Z_scope.

(** Shorten to the longest valid prefix of at most [n] bytes; the empty string is
    valid, so the loop ends. *)
Fixpoint valid_prefix (n : nat) (value : string) : string :=
  let v := take_string n value in
  if ValidString v then v
  else match n with O => EmptyString | S n' => valid_prefix n' value end.

Definition truncateUTF8 (value : string) (limit : Z) : string :=
  if byte_len value <=? limit then value else valid_prefix (Z.to_nat limit) value.

Definition retryDelay (backoff : list duration) (attempt : Z) : duration :=
  let backoff := match backoff with [] => defaultBackoff | b => b end in
  let index := attempt - 1 in
  let index := if index <? 0 then 0 else index in
  let index := if index >=? Z.of_nat (length backoff) then Z.of_nat (length backoff) - 1 else index in
  nth (Z.to_nat index) backoff 0.

(** ** Configuration *)

Record WorkerConfig : Type := {
  wc_Queues : list string;
  wc_Concurrency : Z;
  wc_PollInterval : duration;
  wc_LeaseDuration : duration;
  wc_HeartbeatInterval : duration;
  wc_OperationTimeout : duration;
  wc_CancellationTimeout : duration;
  wc_ShutdownTimeout : duration;
  wc_WorkerID : string;
  wc_MaxErrorBytes : Z
}.

(** Each queue valid and listed once. *)
Fixpoint validate_queues (queues seen : list string) : option error :=
  match queues with
  | [] => None
  | queue :: rest =>
      match validateQueue queue with
      | Some err => Some err
      | None => if bool_decide (queue ∈ seen) then Some (Errorf "job: duplicate worker queue %q")
                else validate_queues rest (queue :: seen)
      end
  end.

Definition or_default (z d : Z) : Z := if z =? 0 then d else z.

Definition NewWorker (store registry : bool) (c : WorkerConfig) (random : result string)
    : result WorkerConfig :=
  if negb store then Err (Errorf "job: store is required")
  else if negb registry then Err (Errorf "job: registry is required")
  else
  let queues := match wc_Queues c with [] => ["default"] | q => q end in
  match validate_queues queues [] with
  | Some err => Err err
  | None =>
  let concurrency := or_default (wc_Concurrency c) 4 in
  if (concurrency <? 1) || (concurrency >? 10000)
  then Err (Errorf "job: concurrency must be between 1 and 10000")
  else
  let poll := or_default (wc_PollInterval c) Second in
  if poll <? Millisecond then Err (Errorf "job: poll interval must be at least 1ms")
  else
  let leaseFor := or_default (wc_LeaseDuration c) Minute in
  if leaseFor <? 100 * Millisecond then Err (Errorf "job: lease duration must be at least 100ms")
  else
  let heartbeat := or_default (wc_HeartbeatInterval c) (Z.quot leaseFor 3) in
  if (heartbeat <? Millisecond) || (heartbeat >=? leaseFor)
  then Err (Errorf "job: heartbeat interval must be positive and shorter than the lease")
  else
  let operation := if wc_OperationTimeout c =? 0 then
                     if Z.quot leaseFor 2 <? 5 * Second then Z.quot leaseFor 2 else 5 * Second
                   else wc_OperationTimeout c in
  if (operation <? Millisecond) || (operation >=? leaseFor)
  then Err (Errorf "job: operation timeout must be positive and shorter than the lease")
  else
  let cancellation := or_default (wc_CancellationTimeout c) operation in
  if cancellation <? Millisecond
  then Err (Errorf "job: cancellation timeout must be at least 1ms")
  else
  let shutdown := or_default (wc_ShutdownTimeout c) (30 * Second) in
  if shutdown <? 0 then Err (Errorf "job: shutdown timeout cannot be negative")
  else
  let maxError := or_default (wc_MaxErrorBytes c) DefaultMaxErrorBytes in
  if maxError <? 1 then Err (Errorf "job: max error bytes must be positive")
  else
  match (if bool_decide (wc_WorkerID c = EmptyString) then newID random else Ok (wc_WorkerID c)) with
  | Err err => Err err
  | Ok workerID =>
      if (byte_len workerID >? 128) || bool_decide (TrimSpace workerID = EmptyString)
      then Err (Errorf "job: invalid worker id")
      else Ok {| wc_Queues := queues; wc_Concurrency := concurrency; wc_PollInterval := poll;
                 wc_LeaseDuration := leaseFor; wc_HeartbeatInterval := heartbeat;
                 wc_OperationTimeout := operation; wc_CancellationTimeout := cancellation;
                 wc_ShutdownTimeout := shutdown; wc_WorkerID := workerID;
                 wc_MaxErrorBytes := maxError |}
  end end.

(** ** Processing one delivery *)

Section worker.
Context {St : Type} `{JobStore St}.
Variable config : WorkerConfig.
Variable registry : Registry.
(** [time.Now], one reading per event. *)
Variable now_at : nat -> time.

(** What a worker's goroutines share: the store and the observer queue. *)
Record worker_world : Type := {
  ww_store : St;
  ww_reads : nat;
  ww_observer : option eventEmitter
}.

Definition W (A : Type) : Type := worker_world -> A * worker_world.

Definition call {A} (m : M St A) : W (result A) := fun w =>
  let '(r, st) := m (ww_store w) in
  (r, {| ww_store := st; ww_reads := ww_reads w; ww_observer := ww_observer w |}).

Definition observe (event : time -> Event) : W unit := fun w =>
  (tt, {| ww_store := ww_store w; ww_reads := S (ww_reads w);
          ww_observer := emit (event (now_at (ww_reads w))) <$> ww_observer w |}).

Definition eventFor (kind : EventKind) (d : Delivery) (outcome : string)
    (elapsed retryAfter : duration) (now : time) : Event :=
  {| ev_Kind := kind; ev_JobID := d_ID d; ev_Name := d_Name d; ev_Queue := d_Queue d;
     ev_WorkerID := wc_WorkerID config; ev_Attempt := d_Attempt d; ev_Duration := elapsed;
     ev_RetryAfter := retryAfter; ev_Outcome := outcome; ev_At := now |}.

Definition leaseLost (d : Delivery) : W unit :=
  observe (eventFor EventLeaseLost d EmptyString 0 0).
Definition abandoned (d : Delivery) (outcome : string) : W unit :=
  observe (eventFor EventAbandoned d outcome 0 0).

(** A fenced call: its error is returned, a lost lease is announced, and a success
    is announced with [event]. *)
Definition fenced (operation : string) (m : M St bool) (d : Delivery) (event : time -> Event)
    : W (option error) := fun w =>
  match call (wrapStore operation m) w with
  | (Err err, w') => (Some err, w')
  | (Ok false, w') => (None, (leaseLost d w').2)
  | (Ok true, w') => (None, (observe event w').2)
  end.

Definition fail (d : Delivery) (kind message : string) : W (option error) :=
  fenced "fail terminal job"
    (store_Fail {| fr_Lease := d_Lease d; fr_Kind := kind;
                   fr_Error := truncateUTF8 message (wc_MaxErrorBytes config) |})
    d (eventFor EventFailed d kind 0 0).

Definition complete (d : Delivery) (handlerErr : option handlerError) (elapsed : duration)
    : W (option error) :=
  match handlerErr with
  | None => fenced "acknowledge" (store_Ack (d_Lease d)) d
              (eventFor EventSucceeded d EmptyString elapsed 0)
  | Some err =>
      let c := classifyError err in
      let kind := if is_deadline err then "timeout" else cl_kind c in
      let message := if is_deadline err then "handler deadline exceeded" else cl_message c in
      let message := truncateUTF8 message (wc_MaxErrorBytes config) in
      if cl_permanent c || (d_Attempt d >=? d_MaxAttempts d) then fail d kind message
      else
        let delay := match cl_delay c with
                     | Some delay => delay
                     | None => retryDelay (d_Backoff d) (d_Attempt d)
                     end in
        fenced "schedule retry"
          (store_Retry {| rr_Lease := d_Lease d; rr_Delay := delay; rr_ErrorKind := kind;
                          rr_Error := message |})
          d (eventFor EventRetryScheduled d kind elapsed delay)
  end.

(** Why a context ended. *)
Inductive ctxState : Type := CtxAlive | CtxDeadline | CtxCanceled.

Definition ctxState_is_deadline (c : ctxState) : bool :=
  match c with CtxDeadline => true | _ => false end.

(** What a processing goroutine can be woken by. *)
Inductive arrival : Type :=
| HandlerReturned (err : option handlerError) (ctx : ctxState) (elapsed : duration)
| HeartbeatTick
| HandlerContextDone (ctx : ctxState)
| CancellationTimer
| BaseDone.

(** Where it is: running its handler ([timedOut]: the deadline passed and the
    cancellation timer is armed), waiting for a handler whose lease is gone, or
    returned. *)
Inductive phase : Type :=
| Running (timedOut : bool)
| Awaiting (outcome : string)
| Returned (err : option error).

Definition cancellationTimeout : error :=
  Wrapf "%w after %s" ErrHandlerCancellationTimeout.

(** [process] up to its loop. *)
Definition process_start (d : Delivery) : W phase := fun w =>
  match registry !! d_Name d with
  | None =>
      match call (wrapStore "release unknown job" (store_Release (d_Lease d))) w with
      | (Err err, w') => (Returned (Some err), w')
      | (Ok false, w') => (Returned None, (leaseLost d w').2)
      | (Ok true, w') => (Returned None, w')
      end
  | Some handler =>
      if negb (rh_decode handler (d_Payload d)) then
        let '(r, w') := fail d "malformed_payload" "job payload could not be decoded" w in
        (Returned r, w')
      else (Running false, (observe (eventFor EventStarted d EmptyString 0 0) w).2)
  end.

(** One turn of the [select].  An arrival whose channel is nil in this phase is not
    received. *)
Definition process_event (d : Delivery) (p : phase) (a : arrival) : W phase := fun w =>
  match p with
  | Returned r => (Returned r, w)
  | Awaiting outcome =>
      match a with
      | HandlerReturned _ _ _ | BaseDone => (Returned None, w)
      | CancellationTimer =>
          (Returned (Some cancellationTimeout),
           (abandoned d (outcome +:+ "_cancellation_timeout") w).2)
      | _ => (p, w)
      end
  | Running timedOut =>
      match a with
      | HandlerReturned err ctx elapsed =>
          let err := if timedOut || ctxState_is_deadline ctx then Some DeadlineExceeded else err in
          let '(r, w') := complete d err elapsed w in (Returned r, w')
      | HeartbeatTick =>
          match call (wrapStore "heartbeat" (store_Heartbeat (d_Lease d) (wc_LeaseDuration config))) w with
          | (Err err, w') => (Returned (Some err), w')
          | (Ok false, w') => (Awaiting "lease_lost", (leaseLost d w').2)
          | (Ok true, w') => (p, w')
          end
      | HandlerContextDone ctx =>
          if timedOut then (p, w)
          else if ctxState_is_deadline ctx then (Running true, w)
          else (Returned None, w)
      | CancellationTimer =>
          if timedOut
          then (Returned (Some cancellationTimeout), (abandoned d "cancellation_timeout" w).2)
          else (p, w)
      | BaseDone => (Returned None, w)
      end
  end.

Fixpoint process_events (d : Delivery) (p : phase) (arrivals : list arrival) : W phase := fun w =>
  match arrivals with
  | [] => (p, w)
  | a :: rest => let '(p', w') := process_event d p a w in process_events d p' rest w'
  end.

(** [process] under a sequence of arrivals. *)
Definition process (d : Delivery) (arrivals : list arrival) : W phase := fun w =>
  let '(p, w') := process_start d w in process_events d p arrivals w'.

(** ** The polling loop *)

(** [rs_active] are the deliveries that hold a slot; [rs_blocked] those whose send
    on the slot channel waits; [rs_errors] the buffered process errors. *)
Record run_state : Type := {
  rs_world : worker_world;
  rs_active : list (Delivery * phase);
  rs_blocked : list Delivery;
  rs_errors : list error;
  rs_runErr : option error
}.

Definition with_world (w : worker_world) (s : run_state) : run_state :=
  {| rs_world := w; rs_active := rs_active s; rs_blocked := rs_blocked s;
     rs_errors := rs_errors s; rs_runErr := rs_runErr s |}.

Definition failing (err : error) (w : worker_world) (s : run_state) : run_state :=
  {| rs_world := w; rs_active := rs_active s; rs_blocked := rs_blocked s;
     rs_errors := rs_errors s; rs_runErr := Some err |}.

Definition free_slots (s : run_state) : Z :=
  wc_Concurrency config - Z.of_nat (length (rs_active s)).

Definition exhausted_event (f : FailedJob) (now : time) : Event :=
  {| ev_Kind := EventFailed; ev_JobID := fj_ID f; ev_Name := fj_Name f; ev_Queue := fj_Queue f;
     ev_WorkerID := wc_WorkerID config; ev_Attempt := fj_Attempts f; ev_Duration := 0;
     ev_RetryAfter := 0; ev_Outcome := "lease_exhausted"; ev_At := now |}.

Definition observe_all (events : list (time -> Event)) : worker_world -> worker_world :=
  fun w => foldl (fun w e => (observe e w).2) w events.

Definition claim_request (free : Z) : ClaimRequest :=
  {| c_Queues := wc_Queues config; c_Names := Names registry; c_Limit := free;
     c_WorkerID := wc_WorkerID config; c_LeaseDuration := wc_LeaseDuration config |}.

(** Give a slot to as many blocked deliveries as there are free ones. *)
Fixpoint start_blocked (free : nat) (s : run_state) (blocked : list Delivery) : run_state :=
  match free, blocked with
  | S free', d :: rest =>
      let w := (observe (eventFor EventClaimed d EmptyString 0 0) (rs_world s)).2 in
      let '(p, w) := process_start d w in
      start_blocked free'
        {| rs_world := w; rs_active := rs_active s ++ [(d, p)]; rs_blocked := [];
           rs_errors := rs_errors s; rs_runErr := rs_runErr s |} rest
  | _, rest =>
      {| rs_world := rs_world s; rs_active := rs_active s; rs_blocked := rest;
         rs_errors := rs_errors s; rs_runErr := rs_runErr s |}
  end.

(** One iteration of [Run]'s loop. *)
Definition poll (ctxDone : option error) (s : run_state) : run_state :=
  match rs_runErr s, rs_blocked s with
  | Some _, _ => s
  | None, _ :: _ => start_blocked (Z.to_nat (free_slots s)) s (rs_blocked s)
  | None, [] =>
  match ctxDone with
  | Some err => failing err (rs_world s) s
  | None =>
  match rs_errors s with
  | err :: rest => {| rs_world := rs_world s; rs_active := rs_active s; rs_blocked := [];
                      rs_errors := rest; rs_runErr := Some err |}
  | [] =>
      let free := free_slots s in
      if (free >? 0) && (Z.of_nat (length (Names registry)) >? 0) then
        match call (wrapStore "fail exhausted leases"
                (store_FailExhausted (wc_Queues config) (Names registry) free)) (rs_world s) with
        | (Err err, w) => failing err w s
        | (Ok exhausted, w) =>
            let w := observe_all (exhausted_event <$> exhausted) w in
            match call (wrapStore "claim" (store_Claim (claim_request free))) w with
            | (Err err, w) => failing err w s
            | (Ok deliveries, w) =>
                start_blocked (Z.to_nat free) (with_world w s) deliveries
            end
        end
      else s
  end end end.

(** The [k]-th active goroutine is woken.  One that has returned gives its slot back
    and offers its error to the bounded error channel. *)
Definition wake (k : nat) (a : arrival) (s : run_state) : run_state :=
  match rs_active s !! k with
  | None => s
  | Some (d, p) =>
      let '(p', w) := process_event d p a (rs_world s) in
      match p' with
      | Returned r =>
          {| rs_world := w; rs_active := take k (rs_active s) ++ drop (S k) (rs_active s);
             rs_blocked := rs_blocked s;
             rs_errors := match r with
                          | Some err => if Z.of_nat (length (rs_errors s)) <? wc_Concurrency config
                                        then rs_errors s ++ [err] else rs_errors s
                          | None => rs_errors s
                          end;
             rs_runErr := rs_runErr s |}
      | _ => {| rs_world := w; rs_active := <[k := (d, p')]> (rs_active s);
                rs_blocked := rs_blocked s; rs_errors := rs_errors s; rs_runErr := rs_runErr s |}
      end
  end.

(** A worker run interleaves polling, arrivals and whatever others do to the store. *)
Inductive run_step : run_state -> run_state -> Prop :=
| step_poll ctxDone s : run_step s (poll ctxDone s)
| step_wake k a s : run_step s (wake k a s)
| step_others st s :
    run_step s (with_world {| ww_store := st; ww_reads := ww_reads (rs_world s);
                              ww_observer := ww_observer (rs_world s) |} s).

(** [Run]'s result: a cancelled context is a clean stop. *)
Definition run_result (ctxErr runErr : option error) : option error :=
  match ctxErr, runErr with
  | Some c, Some r => if errors_Is r c then None else Some r
  | _, r => r
  end.
End worker.
Arguments worker_world : clear implicits.
Arguments run_state : clear implicits.
