(* ===== verification/JobProps.v ===== *)
(** * Properties of dispatch and of workers

    Agreement of dispatch and worker configuration with what the store accepts,
    the life of one delivery inside a worker, bounded concurrency, identifiers,
    retry delays, UTF-8 truncation and event delivery. *)

From S2P Require Import Prelude GoStrings GoUtf8 GoRegexp GoEncoding GoJson JobTypes Job JobWorker JobStore.
From S2P Require Import JobStoreFacts JobStoreProps.
Local Open Scope Z_scope.

(** ** Dispatch *)

Definition valid_policy (p : Policy) : Prop :=
  validateQueue (p_Queue p) = None /\ 1 <= p_MaxAttempts p <= 1000 /\
  Millisecond <= p_Timeout p <= 24 * Hour /\
  1 <= Z.of_nat (length (p_Backoff p)) <= 1000 /\ validateBackoff (p_Backoff p) = None.

Lemma Define_Ok name policy d :
  Define name policy = Ok d ->
  valid_policy (def_policy d) /\ def_name d <> EmptyString /\
  byte_len (def_name d) <= MaxNameBytes /\ re_match namePattern (def_name d) = true.
Proof.
  unfold Define. intros HD.
  destruct ((byte_len (TrimSpace name) =? 0) || _ || _) eqn:Hn; [done|].
  destruct (validateQueue _) eqn:Hq; [done|].
  destruct (_ || _) eqn:Ha in HD; [done|]. destruct (_ || _) eqn:Ht in HD; [done|].
  destruct (_ >? 1000) eqn:Hl in HD; [done|]. destruct (validateBackoff _) eqn:Hb; [done|].
  injection HD as <-. cbn. bool_to_prop. split; [|split; [|done]].
  - split; [done|]. cbn. split; [lia|]. split; [lia|]. split; [|done].
    destruct (p_Backoff policy); cbn in *; lia.
  - intros He. rewrite He in *. done.
Qed.

(** Settings every accepted option keeps sound. *)
Definition valid_settings (s : dispatchSettings) : Prop :=
  validateQueue (s_queue s) = None /\ 0 <= s_delay s <= 365 * 24 * Hour /\
  (s_delay s = 0 \/ Millisecond <= s_delay s) /\
  (forall t, s_at s = Some t -> IsZero t = false /\ s_delay s = 0 /\ s_delaySet s = false) /\
  byte_len (s_dedupKey s) <= MaxDedupKeyBytes /\ -32768 <= s_priority s <= 32767 /\
  (s_delaySet s = false -> s_delay s = 0).

Lemma apply_options_valid options s s' :
  valid_settings s -> apply_options options s = Ok s' -> valid_settings s'.
Proof.
  revert s. induction options as [|o options IH]; intros s Hs; cbn; [by intros [= <-]|].
  destruct (apply_option o s) as [s1|] eqn:Ho; [|done]. apply IH. clear IH.
  destruct Hs as (H1 & H2 & H3 & H4 & H5 & H6 & H7). unfold valid_settings.
  destruct o; cbn in Ho.
  - destruct (validateQueue name) eqn:Hq; [done|]. simplify_eq. cbn. auto 10.
  - destruct (_ || _) eqn:Hr in Ho; [done|]. destruct (_ && _) eqn:Hm in Ho; [done|].
    case_bool_decide as Hat; [done|]. simplify_eq. bool_to_prop. cbn.
    split; [done|]. split; [lia|]. split.
    + apply andb_false_iff in Hm as [Hm|Hm]; bool_to_prop; lia.
    + split; [|done]. intros t Ht. exfalso. apply Hat. by eexists.
  - destruct (IsZero at_) eqn:Hz; [done|]. destruct (s_delaySet s) eqn:Hset; [done|]. simplify_eq.
    cbn. split; [done|]. split; [done|]. split; [done|]. split; [|done].
    intros t [= <-]. auto.
  - destruct (_ || _) eqn:Hr in Ho; [done|]. simplify_eq. bool_to_prop. cbn. auto 10.
  - destruct (_ || _) eqn:Hr in Ho; [done|]. simplify_eq. bool_to_prop. cbn.
    do 5 (split; [done|]). split; [lia|done].
  - done.
Qed.

Lemma validateBackoff_ok backoff :
  validateBackoff backoff = None ->
  existsb (fun delay => (delay <? 0) || (delay >? 30 * day)
             || ((delay >? 0) && (delay <? Millisecond))) backoff = false.
Proof.
  induction backoff as [|d backoff IH]; cbn [validateBackoff existsb]; [done|].
  change (30 * day) with thirtyDays.
  destruct (_ || _); [done|]. destruct (_ && _); [done|]. apply IH.
Qed.

(** Dispatch and store agree: a request built from a definition that [Define]
    accepted, by a dispatcher whose payload limit is within the store's, with
    options the dispatch accepted and a payload that is JSON, passes every check of
    [Enqueue]; only the database itself can still refuse it. *)
Theorem dispatched_request_passes_enqueue name policy d dispatcher options payload random request store :
  Define name policy = Ok d -> ds_maxPayloadBytes dispatcher <= maxPayload store ->
  json_Valid payload = true ->
  dispatch_request d dispatcher options (Ok payload) random = Ok request ->
  valid_enqueue store request = None /\ ValidateExecutor (ds_executor dispatcher) = None.
Proof.
  intros HD Hmax Hjson HR. destruct (Define_Ok _ _ _ HD) as ((Hq & Ha & Ht & Hl & Hb) & Hn & Hlen & Hre).
  unfold dispatch_request in HR. rewrite bool_decide_eq_false_2 in HR by done.
  case_bool_decide as Hv; [done|].
  destruct (apply_options _ _) as [s|] eqn:Ho; [|done].
  destruct (byte_len payload >? _) eqn:Hp; [done|]. destruct (newID random); [|done]. injection HR as <-.
  split.
  2: { unfold Dispatcher_Validate in Hv. destruct (ds_store dispatcher); [|by destruct Hv; eauto].
       cbn in Hv. destruct (ValidateExecutor _); [by destruct Hv; eauto|done]. }
  apply apply_options_valid in Ho as (H1 & H2 & H3 & H4 & H5 & H6 & H7).
  2: { repeat split; cbn; try done; lia. }
  unfold valid_enqueue. cbn [e_Name e_Queue e_Payload e_DedupKey e_MaxAttempts e_Timeout e_Backoff
    e_Delay e_At e_Priority].
  assert (Hnz : byte_len (def_name d) <> 0) by (unfold byte_len; destruct (def_name d); [done|cbn; lia]).
  assert (Hpz : byte_len payload <> 0).
  { apply json_Valid_nonempty in Hjson. unfold byte_len. destruct payload; [done|cbn; lia]. }
  unfold validateQueue in H1. destruct (_ || _) eqn:Hq2 in H1; [done|]. bool_to_prop.
  unfold MaxQueueBytes, MaxNameBytes, MaxDedupKeyBytes in *. assert (Hday : day = 24 * Hour) by done.
  pass_guard. pass_guard. pass_guard. pass_guard.
  - destruct (s_at s) as [t|] eqn:Hat; [|done]. cbn. by destruct (H4 t eq_refl) as [-> _].
  - destruct (s_at s) as [t|] eqn:Hat; [|done]. destruct (H4 t eq_refl) as (_ & -> & _).
    by rewrite andb_false_r.
  - by rewrite validateBackoff_ok.
Qed.

(** ** One delivery inside a worker

    To speak about the calls a worker makes, the store is one that records them
    and answers in any way ([answer]). *)

Inductive storeCall : Type :=
| CallEnqueue | CallClaim | CallFailExhausted
| CallHeartbeat (lease : Lease)
| CallAck (lease : Lease)
| CallRetry (request : RetryRequest)
| CallRelease (lease : Lease)
| CallFail (request : FailureRequest).

Section recorded.
Variable answer : nat -> result bool.

Definition record {A} (c : storeCall) (r : result A) : M (list storeCall) A := fun calls =>
  (r, calls ++ [c]).
Definition answered (c : storeCall) : M (list storeCall) bool := fun calls =>
  (answer (length calls), calls ++ [c]).

#[local] Instance Recording : JobStore (list storeCall) :=
  {| store_Enqueue := fun _ _ => record CallEnqueue (Err (Errorf "unused"));
     store_Claim := fun _ => record CallClaim (Ok []);
     store_Heartbeat := fun lease _ => answered (CallHeartbeat lease);
     store_Ack := fun lease => answered (CallAck lease);
     store_Retry := fun request => answered (CallRetry request);
     store_Release := fun lease => answered (CallRelease lease);
     store_Fail := fun request => answered (CallFail request);
     store_FailExhausted := fun _ _ _ => record CallFailExhausted (Ok []) |}.

Variable config : WorkerConfig.
Variable registry : Registry.
Variable now_at : nat -> time.

Definition is_returned (p : phase) : bool := match p with Returned _ => true | _ => false end.

Definition settlement (d : Delivery) (c : storeCall) : Prop :=
  c = CallAck (d_Lease d) \/
  (exists q, c = CallRetry q /\ rr_Lease q = d_Lease d /\ d_Attempt d < d_MaxAttempts d) \/
  (exists q, c = CallFail q /\ fr_Lease q = d_Lease d).

(** A fenced call is the only call it makes. *)
Lemma fenced_calls operation c d event (w : worker_world (list storeCall)) :
  ww_store (fenced config now_at operation (answered c) d event w).2 = ww_store w ++ [c].
Proof.
  unfold fenced, call, wrapStore, wrapM, answered. by destruct (answer _) as [[]|].
Qed.

(** Completing a delivery is exactly one settlement; an acknowledgement only if the
    handler succeeded. *)
Lemma complete_calls d err elapsed (w : worker_world (list storeCall)) :
  exists c, ww_store (complete config now_at d err elapsed w).2 = ww_store w ++ [c] /\
    settlement d c /\ (c = CallAck (d_Lease d) -> err = None).
Proof.
  unfold complete, fail, settlement. destruct err as [err|].
  - destruct (_ || _) eqn:Hp; eexists; (split; [apply fenced_calls|]); (split; [|done]).
    + right; right. eauto.
    + right; left. bool_to_prop. eexists. split; [done|]. split; [done|]. lia.
  - eexists. split; [apply fenced_calls|]. auto.
Qed.

(** A processing loop that has returned, or waits for a cancelled handler, makes no
    more calls. *)
Lemma quiet_events d p arrivals (w : worker_world (list storeCall)) :
  (forall b, p <> Running b) ->
  let r := process_events config now_at d p arrivals w in
  ww_store r.2 = ww_store w /\ (forall b, r.1 <> Running b).
Proof.
  revert p w. induction arrivals as [|a rest IH]; intros p w Hp; cbn; [done|].
  destruct (process_event config now_at d p a w) as [p' w'] eqn:He.
  assert (ww_store w' = ww_store w /\ (forall b, p' <> Running b)) as [<- Hp'].
  { destruct p; [by destruct (Hp timedOut)| |]; cbn in He; [destruct a|]; simplify_eq; done. }
  by apply IH.
Qed.

Lemma running_events d b arrivals (w : worker_world (list storeCall)) :
  let r := process_events config now_at d (Running b) arrivals w in
  exists n rest, ww_store r.2 = ww_store w ++ replicate n (CallHeartbeat (d_Lease d)) ++ rest /\
    (rest = [] \/
     exists c pre err ctx elapsed post, rest = [c] /\ settlement d c /\ is_returned r.1 = true /\
       arrivals = pre ++ HandlerReturned err ctx elapsed :: post /\
       (c = CallAck (d_Lease d) -> err = None /\ ctxState_is_deadline ctx = false /\ b = false /\
          HandlerContextDone CtxDeadline ∉ pre)).
Proof.
  revert b w. induction arrivals as [|a rest IH]; intros b w; cbn zeta.
  { exists 0%nat, []. cbn. by rewrite app_nil_r; auto. }
  cbn [process_events]. destruct (process_event config now_at d (Running b) a w) as [p' w'] eqn:He.
  destruct a as [err ctx elapsed| |ctx| |]; cbn in He.
  - destruct (complete_calls d (if b || ctxState_is_deadline ctx then Some DeadlineExceeded else err)
                elapsed w) as (c & Hc & Hset & Hack).
    destruct (complete _ _ _ _ _ _) as [r w1]. simplify_eq. cbn [snd] in Hc.
    destruct (quiet_events d (Returned r) rest w') as [Hq _]; [done|].
    exists 0%nat, [c]. cbn [replicate app]. split; [by rewrite Hq|]. right.
    exists c, [], err, ctx, elapsed, rest. split; [done|]. split; [done|]. split; [|split; [done|]].
    { clear. generalize w'. induction rest as [|a rest IH]; intros w; [done|]. cbn. apply IH. }
    intros Ha. specialize (Hack Ha).
    destruct b; [done|]. destruct ctx; cbn in *; try done; set_solver.
  - destruct (call _ w) as [r1 w1] eqn:Hcall.
    assert (Hst : ww_store w1 = ww_store w ++ [CallHeartbeat (d_Lease d)])
      by (unfold call, wrapStore, wrapM in Hcall; cbn in Hcall;
          destruct (answer _) as [[]|]; simplify_eq; done).
    destruct r1 as [[]|e]; injection He as <- <-.
    + destruct (IH b w1) as (n & tl & Hn & Htl). exists (S n), tl.
      split; [by rewrite Hn, Hst, <- app_assoc|].
      destruct Htl as [->|(c & pre & err & ctx & el & post & -> & Hs & Hr & -> & Hack)]; [by left|].
      right. exists c, (HeartbeatTick :: pre), err, ctx, el, post. split; [done|]. split; [done|].
      split; [done|]. split; [done|]. intros Hc. specialize (Hack Hc). set_solver.
    + destruct (quiet_events d (Awaiting "lease_lost") rest (leaseLost config now_at d w1).2)
        as [Hq _]; [done|]. exists 1%nat, []. split; [etransitivity; [exact Hq|done]|by left].
    + destruct (quiet_events d (Returned (Some e)) rest w1) as [Hq _]; [done|].
      exists 1%nat, []. split; [etransitivity; [exact Hq|done]|by left].
  - assert (Hw : w' = w) by (destruct b, (ctxState_is_deadline ctx); by simplify_eq). subst w'.
    destruct p' as [b'|o|r].
    + destruct (IH b' w) as (n & tl & Hn & Htl). exists n, tl. split; [done|].
      destruct Htl as [->|(c & pre & err & ctx' & el & post & -> & Hs & Hr & -> & Hack)]; [by left|].
      right. exists c, (HandlerContextDone ctx :: pre), err, ctx', el, post. split; [done|].
      split; [done|]. split; [done|]. split; [done|]. intros Hc. specialize (Hack Hc).
      destruct Hack as (? & ? & -> & ?).
      destruct b, ctx; simplify_eq/=; split_and!; try done; set_solver.
    + destruct b, (ctxState_is_deadline ctx); done.
    + destruct (quiet_events d (Returned r) rest w) as [Hq _]; [done|].
      exists 0%nat, []. cbn [replicate app]. rewrite app_nil_r. split; [exact Hq|by left].
  - destruct b; simplify_eq.
    + destruct (quiet_events d (Returned (Some cancellationTimeout)) rest
                  (abandoned config now_at d "cancellation_timeout" w).2) as [Hq _]; [done|].
      exists 0%nat, []. cbn [replicate app]. rewrite app_nil_r. split; [exact Hq|by left].
    + destruct (IH false w') as (n & tl & Hn & Htl). exists n, tl. split; [done|].
      destruct Htl as [->|(c & pre & err & ctx' & el & post & -> & Hs & Hr & -> & Hack)]; [by left|].
      right. exists c, (CancellationTimer :: pre), err, ctx', el, post. split; [done|].
      split; [done|]. split; [done|]. split; [done|]. intros Hc. specialize (Hack Hc). set_solver.
  - simplify_eq. destruct (quiet_events d (Returned None) rest w') as [Hq _]; [done|].
    exists 0%nat, []. cbn [replicate app]. rewrite app_nil_r. split; [exact Hq|by left].
Qed.

(** C36. A delivery is settled at most once.  Whatever wakes a worker's goroutine and
    however the store answers, the store calls for one delivery of a registered,
    decodable job are heartbeats of its lease followed by at most one settlement
    (acknowledge, retry or fail, under that lease), after which the goroutine has
    returned; an acknowledgement means the handler returned no error before its
    deadline, a retry that attempts were left. *)
Theorem delivery_is_settled_at_most_once d handler arrivals observer :
  registry !! d_Name d = Some handler -> rh_decode handler (d_Payload d) = true ->
  let w0 := {| ww_store := []; ww_reads := 0; ww_observer := observer |} in
  let r := process config registry now_at d arrivals w0 in
  exists n rest, ww_store r.2 = replicate n (CallHeartbeat (d_Lease d)) ++ rest /\
    (rest = [] \/
     exists c pre err ctx elapsed post, rest = [c] /\ settlement d c /\ is_returned r.1 = true /\
       arrivals = pre ++ HandlerReturned err ctx elapsed :: post /\
       (c = CallAck (d_Lease d) -> err = None /\ ctxState_is_deadline ctx = false /\
          HandlerContextDone CtxDeadline ∉ pre)).
Proof.
  intros Hreg Hdec w0 r. unfold r, process, process_start. rewrite Hreg, Hdec. cbn [negb].
  destruct (running_events d false arrivals
              (observe now_at (eventFor config EventStarted d EmptyString 0 0) w0).2)
    as (n & rest & Hn & Hrest).
  exists n, rest. split; [exact Hn|]. destruct Hrest as [->|Hrest]; [by left|]. right.
  destruct Hrest as (c & pre & err & ctx & el & post & H1 & H2 & H3 & H4 & H5).
  exists c, pre, err, ctx, el, post. do 4 (split; [done|]). naive_solver.
Qed.
End recorded.

(** ** Liveness of a processing loop *)

Section returning.
Context {St : Type} `{JobStore St}.
Variable config : WorkerConfig.
Variable registry : Registry.
Variable now_at : nat -> time.

Definition ends_loop (a : arrival) : bool :=
  match a with HandlerReturned _ _ _ | BaseDone => true | _ => false end.

Lemma process_event_ends d p a (w : worker_world St) :
  ends_loop a = true -> is_returned (process_event config now_at d p a w).1 = true.
Proof.
  destruct a; try done; intros _; destruct p; cbn; try done. by destruct (complete _ _ _ _ _ _).
Qed.

Lemma process_events_keep d p arrivals (w : worker_world St) :
  is_returned p = true -> process_events config now_at d p arrivals w = (p, w).
Proof. destruct p; try done. intros _. revert w. induction arrivals; intros w; cbn; auto. Qed.

Lemma process_events_app d p l1 l2 (w : worker_world St) :
  process_events config now_at d p (l1 ++ l2) w =
  let '(p', w') := process_events config now_at d p l1 w in process_events config now_at d p' l2 w'.
Proof.
  revert p w. induction l1 as [|a l1 IH]; intros p w; cbn; [done|].
  destruct (process_event config now_at d p a w) as [p' w']. apply IH.
Qed.

(** A worker's goroutine never outlives its wake-ups: over any store, once the
    handler returns or the process is shut down the goroutine returns; and a
    handler that ignores its deadline only holds it until the cancellation timer,
    when it returns [ErrHandlerCancellationTimeout] and makes no store call, so the
    lease runs out. *)
Theorem processing_returns d (w : worker_world St) :
  (forall l1 a l2, ends_loop a = true ->
     is_returned (process config registry now_at d (l1 ++ a :: l2) w).1 = true) /\
  (forall l1 l2 w1, process config registry now_at d l1 w = (Running true, w1) ->
     exists w2, process config registry now_at d (l1 ++ CancellationTimer :: l2) w
       = (Returned (Some cancellationTimeout), w2) /\ ww_store w2 = ww_store w1 /\
     errors_Is cancellationTimeout ErrHandlerCancellationTimeout = true).
Proof.
  split.
  - intros l1 a l2 Ha. unfold process. destruct (process_start _ _ _ d w) as [p0 w0].
    rewrite process_events_app. destruct (process_events _ _ d p0 l1 w0) as [p1 w1]. cbn.
    pose proof (process_event_ends d p1 a w1 Ha) as Hr.
    destruct (process_event config now_at d p1 a w1) as [p2 w2]. cbn in Hr.
    by rewrite process_events_keep.
  - intros l1 l2 w1 Hp. unfold process in *. destruct (process_start _ _ _ d w) as [p0 w0].
    rewrite process_events_app, Hp. cbn. rewrite process_events_keep by done. eauto.
Qed.
End returning.

(** ** Bounded concurrency *)

(** What a worker needs of a claim: no more deliveries than it asked for. *)
Class ClaimBounded (St : Type) `{JobStore St} : Prop :=
  claim_bounded : forall request st ds st', 1 <= c_Limit request ->
    store_Claim request st = (Ok ds, st') -> Z.of_nat (length ds) <= c_Limit request.

Lemma PgJobs_bounded E pg store :
  (forall n l, returning_order pg n l ≡ₚ l) -> @ClaimBounded jobsDb (PgJobs_store E pg store).
Proof.
  intros Hperm request st ds st' Hl HC.
  destruct (Claim_Ok E pg store request st ds st' Hperm HC) as (Hids & _).
  rewrite <- (length_fmap d_ID ds), Hids, length_fmap. unfold claim_candidates.
  rewrite length_take. lia.
Qed.

Section concurrency.
Context {St : Type} `{ClaimBounded St}.
Variable config : WorkerConfig.
Variable registry : Registry.
Variable now_at : nat -> time.

Definition bounded (s : run_state St) : Prop :=
  Z.of_nat (length (rs_active s)) <= wc_Concurrency config /\ rs_blocked s = [] /\
  Z.of_nat (length (rs_errors s)) <= wc_Concurrency config.

Lemma start_blocked_bounded free s (blocked : list Delivery) :
  bounded s -> (length blocked <= free)%nat ->
  Z.of_nat (free + length (rs_active s)) <= wc_Concurrency config ->
  bounded (start_blocked config registry now_at free s blocked).
Proof.
  revert free s. induction blocked as [|d rest IH]; intros free s (Ha & Hb & He) Hl Hf.
  - destruct free; done.
  - destruct free as [|free]; [cbn in Hl; lia|]. cbn [start_blocked].
    destruct (process_start _ _ _ _ _) as [p w]. apply IH.
    + split; [|split; [done|done]]. cbn. rewrite length_app. cbn. lia.
    + cbn in Hl. lia.
    + cbn. rewrite length_app. cbn. lia.
Qed.

Lemma poll_bounded ctxDone s : bounded s -> bounded (poll config registry now_at ctxDone s).
Proof.
  intros Hs. pose proof Hs as (Ha & Hb & He). unfold poll. rewrite Hb.
  destruct (rs_runErr s); [done|]. destruct ctxDone; [done|].
  destruct (rs_errors s) as [|err rest] eqn:Herr.
  2: { split; [done|]. split; [done|]. cbn in *. lia. }
  destruct (_ && _) eqn:Hg; [|done]. bool_to_prop. unfold free_slots in *.
  destruct (call _ _) as [[ex|e1] w1]; [|split; cbn; rewrite ?Herr; auto].
  destruct (call _ (observe_all _ _ w1)) as [[ds|e2] w2] eqn:Hc; [|split; cbn; rewrite ?Herr; auto].
  unfold call, wrapStore, wrapM in Hc.
  destruct (store_Claim _ _) as [[ds'|] st] eqn:Hcl; simplify_eq.
  apply claim_bounded in Hcl; [|cbn; lia]. cbn in Hcl.
  apply start_blocked_bounded; [|lia|].
  - split; [done|]. split; [done|]. cbn. rewrite Herr. cbn. lia.
  - cbn. lia.
Qed.

Lemma wake_bounded k a s : bounded s -> bounded (wake config now_at k a s).
Proof.
  intros Hs. pose proof Hs as (Ha & Hb & He). unfold wake.
  destruct (rs_active s !! k) as [[d p]|] eqn:Hk; [|done].
  destruct (process_event config now_at d p a (rs_world s)) as [[b|o|r] w].
  - split; [cbn; by rewrite length_insert|done].
  - split; [cbn; by rewrite length_insert|done].
  - split; [|split; [done|]]; cbn.
    + rewrite length_app, length_take, length_drop. lia.
    + destruct r; [|done]. destruct (_ <? _) eqn:Hlt; [|done]. bool_to_prop.
      rewrite length_app. cbn. lia.
Qed.

(** Bounded concurrency: through every interleaving of polling, handler activity
    and other processes, a worker over a store that honours the claim limit never
    has more deliveries in hand than its [Concurrency], never blocks on handing a
    claimed delivery to a slot, and keeps at most that many pending errors. *)
Theorem worker_concurrency_is_bounded (s s' : run_state St) :
  bounded s -> rtc (run_step config registry now_at) s s' -> bounded s'.
Proof.
  intros Hs Hrun. induction Hrun as [|s s1 s2 Hstep _ IH]; [done|]. apply IH.
  destruct Hstep; [by apply poll_bounded|by apply wake_bounded|done].
Qed.
End concurrency.

(** ** Configuration, delays, messages *)

Lemma validate_queues_ok queues seen :
  validate_queues queues seen = None ->
  Forall (fun q => validateQueue q = None) queues /\ NoDup queues /\ (forall q, q ∈ queues -> q ∉ seen).
Proof.
  revert seen. induction queues as [|q queues IH]; intros seen; cbn.
  { intros _. split; [done|]. split; [constructor|set_solver]. }
  destruct (validateQueue q) eqn:Hq; [done|]. case_bool_decide as Hs; [done|]. intros Hv.
  apply IH in Hv as (H1 & H2 & H3). split; [by constructor|]. split.
  - constructor; [|done]. intros Hin. apply (H3 q Hin). set_solver.
  - intros q' Hq'. specialize (H3 q'). set_solver.
Qed.

Lemma NewWorker_Ok store registry c random w :
  NewWorker store registry c random = Ok w ->
  (Forall (fun q => validateQueue q = None) (wc_Queues w) /\ NoDup (wc_Queues w) /\ wc_Queues w <> []) /\
  1 <= wc_Concurrency w <= 10000 /\ Millisecond <= wc_PollInterval w /\
  100 * Millisecond <= wc_LeaseDuration w /\
  Millisecond <= wc_HeartbeatInterval w < wc_LeaseDuration w /\
  Millisecond <= wc_OperationTimeout w < wc_LeaseDuration w /\
  Millisecond <= wc_CancellationTimeout w /\ 0 <= wc_ShutdownTimeout w /\ 1 <= wc_MaxErrorBytes w /\
  wc_WorkerID w <> EmptyString /\ byte_len (wc_WorkerID w) <= 128.
Proof.
  unfold NewWorker. intros HN. destruct store; [|done]. destruct registry; [|done]. cbn [negb] in HN.
  destruct (validate_queues _ _) eqn:Hq; [done|].
  do 8 (match type of HN with (if ?g then _ else _) = _ =>
          let H := fresh "Hg" in destruct g eqn:H; [done|] end).
  destruct (if bool_decide _ then _ else _) as [wid|]; [|done].
  match type of HN with (if ?g then _ else _) = _ => destruct g eqn:Hw; [done|] end.
  injection HN as <-. cbn. apply validate_queues_ok in Hq as (H1 & H2 & _). bool_to_prop.
  split; [split; [done|]; split; [done|by destruct (wc_Queues c)]|].
  repeat (split; [lia|]). split; [|lia]. intros ->. done.
Qed.

(** A configuration [NewWorker] accepts is coherent: renewals and store calls fit
    inside the lease they protect, and every claim the polling loop makes under it,
    for any registry of valid names, is a request the store accepts. *)
Theorem accepted_worker_claims_are_valid store registry c random w (names : Registry) free :
  NewWorker store registry c random = Ok w ->
  names <> ∅ ->
  (forall n h, names !! n = Some h -> byte_len n <= MaxNameBytes /\ re_match namePattern n = true) ->
  1 <= free <= wc_Concurrency w ->
  valid_claim (claim_request w names free) = None /\
  wc_HeartbeatInterval w < wc_LeaseDuration w /\ wc_OperationTimeout w < wc_LeaseDuration w.
Proof.
  intros HN Hne Hnames Hfree.
  destruct (NewWorker_Ok _ _ _ _ _ HN) as ((Hq & _ & Hqne) & Hcon & _ & Hlease & Hhb & Hop & _ & _ & _ & Hid & Hidl).
  split; [|lia]. unfold valid_claim, claim_request. cbn.
  assert (Hin : forall n, n ∈ Names names -> is_Some (names !! n)).
  { intros n Hn. unfold Names in Hn. rewrite (merge_sort_Permutation String.le) in Hn.
    apply list_elem_of_fmap in Hn as ([n' h] & -> & Hn). exists h. by apply elem_of_map_to_list. }
  pass_guard.
  - destruct (wc_Queues w); [done|cbn; lia].
  - intros Hz. apply Hne. assert (HN0 : Names names = []) by (destruct (Names names); [done|cbn in Hz; lia]).
    unfold Names in HN0. pose proof (merge_sort_Permutation String.le (fst <$> map_to_list names)) as HP.
    rewrite HN0 in HP. symmetry in HP. apply Permutation_nil_r, fmap_nil_inv in HP.
    by apply map_to_list_empty_iff.
  - pass_guard. destruct (existsb _ (wc_Queues w)) eqn:Hb.
    { apply existsb_exists in Hb as (q & Hqin & Hb). apply list_elem_of_In in Hqin.
      rewrite Forall_forall in Hq. specialize (Hq q Hqin). unfold validateQueue in Hq.
      destruct (_ || _ || _) eqn:Hv in Hq; [done|]. bool_to_prop.
      rewrite orb_true_iff in Hb. unfold MaxQueueBytes in *.
      destruct Hb as [Hb|Hb]; bool_to_prop; [lia|congruence]. }
    destruct (existsb _ (Names names)) eqn:Hb2; [|done].
    apply existsb_exists in Hb2 as (n & Hnin & Hb2). apply list_elem_of_In in Hnin.
    destruct (Hin n Hnin) as [h Hh]. destruct (Hnames n h Hh) as [Hn1 Hn2].
    rewrite orb_true_iff in Hb2. destruct Hb2 as [Hb2|Hb2]; bool_to_prop; [lia|congruence].
Qed.

(** The retry delay of attempt [n] is the [n]-th entry of the backoff schedule and
    the last one from there on (the default schedule when there is none), so it
    stays within the bounds the definition was validated for. *)
Theorem retry_delay_follows_backoff backoff attempt :
  validateBackoff backoff = None -> 1 <= attempt ->
  let schedule := match backoff with [] => defaultBackoff | b => b end in
  retryDelay backoff attempt =
    match schedule !! Z.to_nat (attempt - 1) with Some d => d | None => default 0 (last schedule) end /\
  retryDelay backoff attempt ∈ schedule /\ 0 <= retryDelay backoff attempt <= thirtyDays.
Proof.
  intros Hv Ha schedule.
  assert (Hlen : (0 < length schedule)%nat) by (destruct backoff; cbn; lia).
  assert (Hb : Forall (fun d => 0 <= d <= thirtyDays) schedule).
  { assert (Hgen : forall l, validateBackoff l = None -> Forall (fun d => 0 <= d <= thirtyDays) l).
    { induction l as [|d l IH]; cbn; [done|]. destruct (_ || _) eqn:Hr; [done|].
      destruct (_ && _); [done|]. bool_to_prop. constructor; [lia|auto]. }
    destruct backoff; [|by apply Hgen]. repeat constructor; unfold thirtyDays, Second, Hour; lia. }
  set (i := if attempt - 1 >=? Z.of_nat (length schedule) then Z.of_nat (length schedule) - 1
            else attempt - 1).
  assert (Hr : retryDelay backoff attempt = nth (Z.to_nat i) schedule 0).
  { unfold retryDelay. fold schedule. rewrite (proj2 (Z.ltb_ge (attempt - 1) 0)) by lia. done. }
  assert (Hi : (Z.to_nat i < length schedule)%nat).
  { unfold i. destruct (_ >=? _) eqn:Hc; bool_to_prop; lia. }
  assert (Hl : schedule !! Z.to_nat i = Some (retryDelay backoff attempt)).
  { rewrite Hr. rewrite nth_lookup. by destruct (lookup_lt_is_Some_2 _ _ Hi) as [x ->]. }
  split; [|split; [by eapply list_elem_of_lookup_2|]].
  - unfold i in Hl. destruct (_ >=? _) eqn:Hc; bool_to_prop; [|by rewrite Hl].
    rewrite (lookup_ge_None_2 schedule) by lia.
    rewrite last_lookup. replace (pred (length schedule)) with (Z.to_nat (Z.of_nat (length schedule) - 1)) by lia.
    by rewrite Hl.
  - rewrite Forall_forall in Hb. apply Hb. by eapply list_elem_of_lookup_2.
Qed.

Lemma valid_prefix_spec n value :
  exists k, (k <= n)%nat /\ valid_prefix n value = take_string k value /\
    ValidString (take_string k value) = true /\
    forall j, (k < j <= n)%nat -> ValidString (take_string j value) = false.
Proof.
  induction n as [|n IH]; cbn [valid_prefix].
  - exists 0%nat. cbn. split; [done|]. split; [done|]. split; [done|]. lia.
  - destruct (ValidString (take_string (S n) value)) eqn:Hv.
    + exists (S n). split; [done|]. split; [done|]. split; [done|]. lia.
    + destruct IH as (k & Hk & He & Hval & Hmax). exists k. split; [lia|]. split; [done|].
      split; [done|]. intros j Hj. destruct (decide (j = S n)) as [->|]; [done|]. apply Hmax. lia.
Qed.


(** Truncating a diagnostic never splits a character: the result is a prefix of
    the text within the limit, valid UTF-8 whenever anything was cut, and no longer
    valid prefix within the limit exists. *)
Theorem truncation_keeps_whole_characters value limit :
  0 <= limit ->
  let t := truncateUTF8 value limit in
  byte_len t <= limit /\ HasPrefix value t = true /\
  (t = value \/ ValidString t = true) /\
  (forall j, Z.of_nat j <= limit -> limit < byte_len value ->
     ValidString (take_string j value) = true -> Z.of_nat j <= byte_len t).
Proof.
  intros Hl t. unfold t, truncateUTF8, byte_len. destruct (Z.leb_spec (Z.of_nat (String.length value)) limit).
  - split; [done|]. split; [apply HasPrefix_refl|]. split; [by left|]. lia.
  - destruct (valid_prefix_spec (Z.to_nat limit) value) as (k & Hk & -> & Hv & Hmax).
    rewrite take_string_length. split; [lia|]. split; [apply HasPrefix_take|]. split; [by right|].
    intros j Hj _ Hvj. destruct (decide (k < j)%nat) as [Hlt|]; [|lia].
    rewrite (Hmax j) in Hvj by lia. done.
Qed.

(** ** Identifiers *)

(** [^[0-9a-f]{8}-[0-9a-f]{4}-4[0-9a-f]{3}-[89ab][0-9a-f]{3}-[0-9a-f]{12}$] *)
Definition hexes (n : nat) : re := RRep n (RChar hexLowerC).
Definition uuidPattern : re :=
  RCat (hexes 8) (RCat (RLit "-") (RCat (hexes 4) (RCat (RLit "-")
    (RCat (RCat (RChar (is_char 52)) (hexes 3)) (RCat (RLit "-")
      (RCat (RCat (RChar (oneof "89ab")) (hexes 3)) (RCat (RLit "-") (hexes 12)))))))).

Lemma lower_hex_digit (c : ascii) :
  hexLowerC (hex_digit (byte_val c / 16)) = true /\ hexLowerC (hex_digit (byte_val c mod 16)) = true.
Proof. destruct c as [[] [] [] [] [] [] [] []]; vm_compute; done. Qed.

Lemma hexEncode_lower s : all_chars hexLowerC (hexEncode s) = true.
Proof.
  induction s as [|c s IH]; [done|]. cbn [hexEncode all_chars].
  destruct (lower_hex_digit c) as [-> ->]. done.
Qed.

Lemma hexes_encode n s : String.length s = n -> lang (hexes (2 * n)) (hexEncode s).
Proof.
  intros <-. apply re_match_spec, re_match_rep. split; [apply hexEncode_length|apply hexEncode_lower].
Qed.

(** A byte with a forced high nibble, followed by another byte. *)
Lemma versioned_pair (f : nat -> nat) (p : ascii -> bool) a b :
  (forall c, p (hex_digit (byte_val (byte_map f c) / 16)) = true) ->
  lang (RCat (RChar p) (hexes 3)) (hexEncode (String (byte_map f a) (String b EmptyString))).
Proof.
  intros Hp. cbn [hexEncode].
  set (rest := String _ (String _ (String _ EmptyString))).
  change (String ?x rest) with (String x EmptyString +:+ rest).
  apply lang_cat; [constructor; apply Hp|]. apply re_match_spec, re_match_rep.
  split; [done|]. unfold rest. cbn [all_chars].
  destruct (lower_hex_digit (byte_map f a)) as [_ ->], (lower_hex_digit b) as [-> ->]. done.
Qed.

(** Every identifier [newID] returns is a canonical version 4 UUID, whatever the
    random bytes are. *)
Theorem new_id_is_a_version_4_uuid raw :
  String.length raw = 16%nat ->
  exists jid, newID (Ok raw) = Ok jid /\ re_match uuidPattern jid = true /\ byte_len jid = 36.
Proof.
  intros Hl. eexists. split; [done|]. cbn [newID].
  do 16 (destruct raw as [|? raw]; [done|]). destruct raw; [|done].
  unfold format_id, slice. cbn [update_byte drop_string take_string Nat.sub].
  split.
  - apply re_match_spec. unfold uuidPattern.
    apply lang_cat; [by apply (hexes_encode 4)|]. apply lang_cat; [apply re_match_spec; done|].
    apply lang_cat; [by apply (hexes_encode 2)|]. apply lang_cat; [apply re_match_spec; done|].
    apply lang_cat.
    { apply versioned_pair. intros c. destruct c as [[] [] [] [] [] [] [] []]; vm_compute; done. }
    apply lang_cat; [apply re_match_spec; done|]. apply lang_cat.
    { apply versioned_pair. intros c. destruct c as [[] [] [] [] [] [] [] []]; vm_compute; done. }
    apply lang_cat; [apply re_match_spec; done|]. by apply (hexes_encode 6).
  - unfold byte_len. rewrite !string_length_app, !hexEncode_length. done.
Qed.

(** ** Event delivery *)

Inductive emitter_step : eventEmitter -> eventEmitter -> Prop :=
| step_emit ev em : emitter_step em (emit ev em)
| step_call em : emitter_step em (drain_call em)
| step_take em : emitter_step em (drain_take em).

(** The events accepted so far, in order. *)
Definition accepted (em : eventEmitter) : list Event :=
  delivered em ++ option_list (taken em) ++ pending em.

Definition emitter_inv (em : eventEmitter) : Prop :=
  Z.of_nat (length (pending em)) <= observerQueueCapacity /\
  (running em = false -> pending em = [] /\ taken em = None).

Lemma emitter_step_inv em em' :
  emitter_step em em' -> emitter_inv em -> emitter_inv em' /\ accepted em `prefix_of` accepted em'.
Proof.
  unfold emitter_inv, accepted. intros Hstep [Hp Hr]. destruct Hstep as [ev em|em|em].
  - unfold emit. destruct (_ >=? _) eqn:Hc; cbn; [done|]. bool_to_prop. rewrite length_app. cbn.
    split; [split; [lia|done]|]. exists [ev]. by rewrite !app_assoc.
  - unfold drain_call. destruct (taken em) as [ev|] eqn:Ht; cbn; [|by rewrite Ht].
    split; [split; [done|]|].
    + intros Hf. destruct (Hr Hf) as [_ Hbad]. done.
    + exists []. by rewrite app_nil_r, <- app_assoc.
  - unfold drain_take. destruct (running em) eqn:Hrun; [|by rewrite Hrun; auto].
    destruct (taken em) as [ev|] eqn:Ht; [by rewrite Hrun, Ht|].
    destruct (pending em) as [|ev rest] eqn:Hpend; cbn; [done|].
    cbn in Hp. split; [split; [lia|done]|done].
Qed.

(** An observer receives accepted events in the order they were emitted, none
    twice and none lost: what was delivered only ever grows as a prefix of what was
    accepted, at most 256 events wait, and when [flush] finds the emitter idle every
    accepted event has been delivered. *)
Theorem observer_sees_events_in_order em :
  rtc emitter_step newEventEmitter em ->
  delivered em `prefix_of` accepted em /\
  Z.of_nat (length (pending em)) <= observerQueueCapacity /\
  (flush_ready em = true -> delivered em = accepted em) /\
  (forall em', rtc emitter_step em em' -> accepted em `prefix_of` accepted em').
Proof.
  intros Hrun.
  assert (Hgen : forall a b, rtc emitter_step a b -> emitter_inv a ->
            emitter_inv b /\ accepted a `prefix_of` accepted b).
  { intros a b Hab. induction Hab as [a|a b c Hs _ IH]; intros Hi; [done|].
    destruct (emitter_step_inv _ _ Hs Hi) as [Hi' Hp]. destruct (IH Hi') as [Hc Hp'].
    split; [done|]. by trans (accepted b). }
  destruct (Hgen _ _ Hrun) as [[Hp Hr] _]; [by split|].
  split; [by exists (option_list (taken em) ++ pending em)|]. split; [done|]. split.
  - unfold flush_ready, accepted. intros Hf. bool_to_prop. destruct (Hr Hf) as [-> ->].
    cbn. by rewrite app_nil_r.
  - intros em' Hem. apply (Hgen _ _ Hem). by split.
Qed.

(** ** Instances *)

Module WorkerSample.
Definition policy : Policy :=
  {| p_Queue := EmptyString; p_MaxAttempts := 0; p_Timeout := 0; p_Backoff := [] |}.
Definition definition : Definition_ :=
  {| def_name := "mail.send.v1";
     def_policy := {| p_Queue := "default"; p_MaxAttempts := 3; p_Timeout := 30 * Second;
                      p_Backoff := defaultBackoff |} |}.
Definition dispatcher : Dispatcher :=
  {| ds_store := true; ds_executor := true; ds_maxPayloadBytes := 1024 |}.
Definition options : list DispatchOption := [Delay Minute; Deduplicate "welcome-7"; Priority 5].
Definition raw : string := "0123456789abcdef".
Definition zeroConfig : WorkerConfig :=
  {| wc_Queues := []; wc_Concurrency := 0; wc_PollInterval := 0; wc_LeaseDuration := 0;
     wc_HeartbeatInterval := 0; wc_OperationTimeout := 0; wc_CancellationTimeout := 0;
     wc_ShutdownTimeout := 0; wc_WorkerID := EmptyString; wc_MaxErrorBytes := 0 |}.
Definition config : WorkerConfig :=
  match NewWorker true true zeroConfig (Ok raw) with Ok c => c | Err _ => zeroConfig end.
Definition registry : Registry :=
  {["mail.send.v1" := {| rh_policy := policy; rh_decode := fun _ => true |}]}.
Definition delivery : Delivery :=
  {| d_ID := "a"; d_Queue := "default"; d_Name := "mail.send.v1"; d_Payload := "{}"; d_Priority := 0;
     d_Attempt := 1; d_MaxAttempts := 3; d_Timeout := Minute; d_Backoff := [Second];
     d_DedupKey := EmptyString; d_AvailableAt := Hour; d_LeasedAt := Minute; d_LeaseExpires := Hour;
     d_Lease := {| l_JobID := "a"; l_WorkerID := "w"; l_Generation := 1 |} |}.
Definition arrivals : list arrival :=
  [HeartbeatTick; HandlerReturned None CtxAlive Second; HeartbeatTick].
Definition always (_ : nat) : result bool := Ok true.
Definition request : EnqueueRequest :=
  match dispatch_request definition dispatcher options (Ok "{}") (Ok raw) with
  | Ok q => q
  | Err _ => Sample.mail
  end.
Definition idle : run_state jobsDb :=
  {| rs_world := {| ww_store := Runs.enqueued; ww_reads := 0; ww_observer := None |};
     rs_active := []; rs_blocked := []; rs_errors := []; rs_runErr := None |}.
End WorkerSample.

Lemma dispatched_request_passes_enqueue_witness :
  valid_enqueue defaultJobs WorkerSample.request = None /\
  ValidateExecutor (ds_executor WorkerSample.dispatcher) = None.
Proof.
  apply (dispatched_request_passes_enqueue "mail.send.v1" WorkerSample.policy
           WorkerSample.definition WorkerSample.dispatcher WorkerSample.options "{}"
           (Ok WorkerSample.raw) WorkerSample.request defaultJobs).
  - vm_compute. reflexivity.
  - vm_compute. discriminate.
  - vm_compute. reflexivity.
  - vm_compute. reflexivity.
Defined.

Lemma delivery_is_settled_at_most_once_witness :
  exists n rest,
    ww_store (@process _ (Recording WorkerSample.always) WorkerSample.config WorkerSample.registry
                (fun _ => Hour) WorkerSample.delivery WorkerSample.arrivals
                {| ww_store := []; ww_reads := 0; ww_observer := Some newEventEmitter |}).2
    = replicate n (CallHeartbeat (d_Lease WorkerSample.delivery)) ++ rest /\ (length rest <= 1)%nat.
Proof.
  destruct (delivery_is_settled_at_most_once WorkerSample.always WorkerSample.config
              WorkerSample.registry (fun _ => Hour) WorkerSample.delivery
              {| rh_policy := WorkerSample.policy; rh_decode := fun _ => true |}
              WorkerSample.arrivals (Some newEventEmitter)) as (n & rest & Hn & Hrest).
  - reflexivity.
  - reflexivity.
  - exists n, rest. split; [exact Hn|].
    destruct Hrest as [->|(c & pre & err & ctx & el & post & -> & _)]; cbn; lia.
Defined.

Lemma worker_concurrency_is_bounded_witness :
  bounded WorkerSample.config
    (@poll _ (PgJobs_store Runs.fast Sample.pg defaultJobs) WorkerSample.config
       WorkerSample.registry (fun _ => Hour) None WorkerSample.idle) /\
  length (rs_active (@poll _ (PgJobs_store Runs.fast Sample.pg defaultJobs) WorkerSample.config
       WorkerSample.registry (fun _ => Hour) None WorkerSample.idle)) = 1%nat.
Proof.
  split; [|vm_compute; reflexivity].
  apply (@worker_concurrency_is_bounded jobsDb (PgJobs_store Runs.fast Sample.pg defaultJobs)
           (PgJobs_bounded _ _ _ Runs.perm) WorkerSample.config WorkerSample.registry (fun _ => Hour)
           WorkerSample.idle).
  - vm_compute. repeat split; discriminate.
  - apply rtc_once. apply step_poll.
Defined.

Lemma accepted_worker_claims_are_valid_witness :
  valid_claim (claim_request WorkerSample.config WorkerSample.registry 4) = None.
Proof.
  apply (accepted_worker_claims_are_valid true true WorkerSample.zeroConfig (Ok WorkerSample.raw)
           WorkerSample.config WorkerSample.registry 4).
  - vm_compute. reflexivity.
  - intros H. apply (f_equal (fun m => m !! "mail.send.v1")) in H. vm_compute in H. discriminate.
  - intros n h Hn. unfold WorkerSample.registry in Hn. apply lookup_singleton_Some in Hn as [<- _]. vm_compute. split; [discriminate|reflexivity].
  - vm_compute. split; discriminate.
Defined.

Lemma retry_delay_follows_backoff_witness :
  retryDelay [Second; Minute] 7 ∈ [Second; Minute] /\ retryDelay [Second; Minute] 7 = Minute.
Proof.
  split; [|vm_compute; reflexivity].
  apply (retry_delay_follows_backoff [Second; Minute] 7); [vm_compute; reflexivity|lia].
Defined.

Lemma truncation_keeps_whole_characters_witness :
  let value := String (chr 97) (String (chr 195) (String (chr 169) EmptyString)) in
  byte_len (truncateUTF8 value 2) <= 2 /\ truncateUTF8 value 2 = "a".
Proof.
  intros value. split; [|vm_compute; reflexivity].
  apply (truncation_keeps_whole_characters value 2). lia.
Defined.

Lemma new_id_is_a_version_4_uuid_witness :
  exists jid, newID (Ok WorkerSample.raw) = Ok jid /\ re_match uuidPattern jid = true /\
    byte_len jid = 36.
Proof. apply (new_id_is_a_version_4_uuid WorkerSample.raw). reflexivity. Defined.

Lemma observer_sees_events_in_order_witness :
  let ev := exhausted_event WorkerSample.config (exhausted_item ("a", Sample.row_of Runs.enqueued)) Hour in
  let em := drain_take (drain_call (drain_take (emit ev newEventEmitter))) in
  flush_ready em = true /\ delivered em = accepted em.
Proof.
  intros ev em. split; [vm_compute; reflexivity|].
  apply (observer_sees_events_in_order em); [|vm_compute; reflexivity].
  apply (rtc_l _ _ (emit ev newEventEmitter)); [apply step_emit|].
  apply (rtc_l _ _ (drain_take (emit ev newEventEmitter))); [apply step_take|].
  apply (rtc_l _ _ (drain_call (drain_take (emit ev newEventEmitter)))); [apply step_call|].
  apply rtc_once. apply step_take.
Defined.
