(* ===== verification/Database.v ===== *)
(** * Transactions

    [database/transaction.go]: work runs inside a transaction that commits when it
    succeeds and rolls back on any error.  Package [migrate] has the same helper with
    its own messages, so the helper is parameterized by them. *)

From S2P Require Import Prelude.

(** What the helper needs of a database state: its position in the environment's
    ticks, and what a rollback brings back. *)
Class Transactional (St : Type) : Type := {
  tx_tick : St -> nat;
  tx_bump : St -> St;
  tx_restore : St -> St -> St
}.

Section transaction.
Context {St : Type} `{Transactional St}.
Variable E : env.

(** Begin, work, then commit or roll back: one tick each besides the work's own. *)
Definition transact {A} (beginMsg commitMsg rollbackMsg : string) (work : M St A) : M St A := fun st =>
  match fault E (tx_tick st) with
  | Some e => (Err (Wrapf beginMsg e), tx_bump st)
  | None =>
      match work (tx_bump st) with
      | (Err e, st') =>
          (match fault E (tx_tick st') with
           | Some r => Err (Joined e (Wrapf rollbackMsg r))
           | None => Err e
           end, tx_restore st (tx_bump st'))
      | (Ok a, st') =>
          match fault E (tx_tick st') with
          | Some e => (Err (Wrapf commitMsg e), tx_restore st (tx_bump st'))
          | None =>
              match lostReply E (tx_tick st') with
              | Some e => (Err (Wrapf commitMsg e), tx_bump st')
              | None => (Ok a, tx_bump st')
              end
          end
      end
  end.

Definition Transaction {A} : M St A -> M St A :=
  transact "begin transaction: %w" "commit transaction: %w" "rollback transaction: %w".

(** A transaction that answers [Ok] ran its work to success and committed it. *)
Lemma transact_Ok {A} b c r (work : M St A) st a st' :
  transact b c r work st = (Ok a, st') ->
  exists st1, work (tx_bump st) = (Ok a, st1) /\ st' = tx_bump st1.
Proof.
  unfold transact. destruct (fault E _); [done|].
  destruct (work (tx_bump st)) as [[x|e] st1]; [|by destruct (fault E _)].
  destruct (fault E _); [done|]. destruct (lostReply E _); [done|]. intros [= <- <-]. eauto.
Qed.

(** A transaction that answers an error left everything to the rollback, unless
    only the reply of its commit was lost. *)
Lemma transact_Err {A} b c r (work : M St A) st e st' :
  transact b c r work st = (Err e, st') ->
  st' = tx_bump st \/ (exists st1, st' = tx_restore st st1) \/
  (exists a st1 lost, work (tx_bump st) = (Ok a, st1) /\ st' = tx_bump st1 /\
     lostReply E (tx_tick st1) = Some lost).
Proof.
  unfold transact. destruct (fault E _); [intros [= <- <-]; auto|].
  destruct (work (tx_bump st)) as [[x|e1] st1] eqn:Hw.
  - destruct (fault E _); [intros [= <- <-]; eauto|].
    destruct (lostReply E _) eqn:Hl; [intros [= <- <-]; eauto 8|done].
  - destruct (fault E _); intros [= <- <-]; eauto.
Qed.

(** In a calm environment a transaction is its work. *)
Lemma transact_calm {A} b c r (work : M St A) st a st1 :
  (forall n, fault E n = None) -> (forall n, lostReply E n = None) ->
  work (tx_bump st) = (Ok a, st1) -> transact b c r work st = (Ok a, tx_bump st1).
Proof. intros Hf Hl Hw. unfold transact. by rewrite Hf, Hw, Hf, Hl. Qed.
End transaction.
