(* ===== verification/Schedule.v ===== *)
(** * Recurring schedules

    Package [schedule]: cron expressions ([cron.go]), definitions
    ([definition.go]), the registry ([registry.go]), results ([types.go]) and the
    scheduler ([scheduler.go]).  The cron library, the time zone database and the
    fingerprint digest are not code of the repository: they are the fields of
    [calendar]. *)

From S2P Require Import Prelude GoStrings GoRegexp JobTypes Job.
Local Open Scope Z_scope.

(** ** More of package [strings] *)

(** The part of [s] before its first space. *)
Fixpoint word_fuel (fuel : nat) (s : string) : string * string :=
  match fuel, s with
  | S fuel', String c s' =>
      match leading_space spaceEncodings s with
      | Some _ => (EmptyString, s)
      | None => let '(w, rest) := word_fuel fuel' s' in (String c w, rest)
      end
  | _, _ => (EmptyString, s)
  end.

Fixpoint fields_fuel (fuel : nat) (s : string) : list string :=
  match fuel with
  | O => []
  | S fuel' =>
      match trim_left_fuel (String.length s) spaceEncodings s with
      | EmptyString => []
      | t => let '(w, rest) := word_fuel (String.length t) t in w :: fields_fuel fuel' rest
      end
  end.

(** [strings.Fields]: every field consumes at least one byte. *)
Definition Fields (s : string) : list string := fields_fuel (S (String.length s)) s.

Fixpoint Contains (s sub : string) : bool :=
  HasPrefix s sub || match s with EmptyString => false | String _ s' => Contains s' sub end.

Definition upper_char (c : ascii) : ascii :=
  let n := nat_of_ascii c in if (97 <=? n)%nat && (n <=? 122)%nat then chr (n - 32) else c.
Fixpoint ToUpper (s : string) : string :=
  match s with EmptyString => EmptyString | String c s' => String (upper_char c) (ToUpper s') end.

(** ** [cron.go] *)

Definition numericCronField : re :=
  RPlus (RChar (cls_or digitC (oneof "*/,-"))).
Definition namedCronField : re :=
  RPlus (RChar (cls_or upperC (cls_or lowerC (cls_or digitC (oneof "*/,-"))))).

Definition monthNames : list (string * Z) :=
  [("jan", 1); ("feb", 2); ("mar", 3); ("apr", 4); ("may", 5); ("jun", 6);
   ("jul", 7); ("aug", 8); ("sep", 9); ("oct", 10); ("nov", 11); ("dec", 12)].
Definition weekdayNames : list (string * Z) :=
  [("sun", 0); ("mon", 1); ("tue", 2); ("wed", 3); ("thu", 4); ("fri", 5); ("sat", 6)].

Definition name_lookup (names : list (string * Z)) (s : string) : option Z :=
  (fun p => p.2.2) <$> list_find (fun kv : string * Z => kv.1 = s) names.

Definition cronAtom (value : string) (minimum maximum : Z) (names : list (string * Z)) : result Z :=
  match name_lookup names (ToLower value) with
  | Some named => Ok named
  | None =>
      match Atoi value with
      | Some parsed => if (parsed <? minimum) || (parsed >? maximum)
                       then Err (Errorf "value %q is outside %d-%d") else Ok parsed
      | None => Err (Errorf "value %q is outside %d-%d")
      end
  end.

(** The loop that spells out a weekday range reaching 7; [current += step] wraps
    like any Go addition. *)
Fixpoint sunday_values (fuel : nat) (current end_ step : Z) : list Z :=
  match fuel with
  | O => []
  | S fuel' =>
      if current <=? end_ then
        if current =? 7 then [0]
        else current :: sunday_values fuel' (current +w step)%go end_ step
      else []
  end.

(** More turns than the loop ever makes. *)
Definition sunday_fuel : nat := 32.

Definition normalizePart (part : string) (minimum maximum : Z) (names : list (string * Z))
    (sundaySeven : bool) : result (list string) :=
  if bool_decide (part = EmptyString) then Err (Errorf "empty list item")
  else
  match Split part "/"%char with
  | [] => Err (Errorf "invalid step %q")
  | base :: stepParts =>
      if (1 <? Z.of_nat (length stepParts)) || bool_decide (base = EmptyString)
      then Err (Errorf "invalid step %q")
      else
      let stepped := match stepParts with [] => false | _ => true end in
      match (match stepParts with
             | [] => Ok 1
             | s :: _ => match Atoi s with
                         | Some parsed => if parsed <? 1
                                          then Err (Errorf "step must be a positive integer")
                                          else Ok parsed
                         | None => Err (Errorf "step must be a positive integer")
                         end
             end) with
      | Err e => Err e
      | Ok step =>
          if bool_decide (base = "*")
          then Ok [if stepped then "*/" +:+ Itoa step else "*"]
          else
          match Split base "-"%char with
          | [] => Err (Errorf "invalid range %q")
          | first :: more =>
              if 1 <? Z.of_nat (length more) then Err (Errorf "invalid range %q")
              else
              match cronAtom first minimum maximum names with
              | Err e => Err e
              | Ok start =>
                  match (match more with
                         | [] => Ok (if stepped then maximum else start)
                         | last_ :: _ =>
                             match cronAtom last_ minimum maximum names with
                             | Err e => Err e
                             | Ok end_ => if start >? end_
                                          then Err (Errorf "range start exceeds end") else Ok end_
                             end
                         end) with
                  | Err e => Err e
                  | Ok end_ =>
                      if sundaySeven && ((start =? 7) || (end_ =? 7))
                      then Ok (Itoa <$> sunday_values sunday_fuel start end_ step)
                      else
                        let item := Itoa start in
                        let item := match more with [] => item | _ => item +:+ "-" +:+ Itoa end_ end in
                        Ok [if stepped then item +:+ "/" +:+ Itoa step else item]
                  end
              end
          end
      end
  end.

Fixpoint normalizeParts (parts : list string) (minimum maximum : Z) (names : list (string * Z))
    (sundaySeven : bool) : result (list string) :=
  match parts with
  | [] => Ok []
  | part :: rest =>
      match normalizePart part minimum maximum names sundaySeven with
      | Err e => Err e
      | Ok items =>
          match normalizeParts rest minimum maximum names sundaySeven with
          | Err e => Err e
          | Ok more => Ok (items ++ more)
          end
      end
  end.

Definition normalizeCronField (value : string) (minimum maximum : Z) (names : list (string * Z))
    (sundaySeven : bool) : result string :=
  match normalizeParts (Split value ","%char) minimum maximum names sundaySeven with
  | Err e => Err e
  | Ok items => Ok (Join items ",")
  end.

(** The five fields: bounds, names, and whether 7 means Sunday. *)
Definition fieldBounds : list (Z * Z * list (string * Z) * bool) :=
  [(0, 59, [], false); (0, 23, [], false); (1, 31, [], false);
   (1, 12, monthNames, false); (0, 7, weekdayNames, true)].

Fixpoint normalizeFields (fields : list string) (bounds : list (Z * Z * list (string * Z) * bool))
    : result (list string) :=
  match fields, bounds with
  | field :: fields', (minimum, maximum, names, sunday) :: bounds' =>
      let allowed := match names with [] => numericCronField | _ => namedCronField end in
      if negb (re_match allowed field) then Err (Errorf "schedule: invalid cron field %d")
      else match normalizeCronField field minimum maximum names sunday with
           | Err e => Err (Wrapf "schedule: invalid cron field %d: %w" e)
           | Ok normalized =>
               match normalizeFields fields' bounds' with
               | Err e => Err e
               | Ok rest => Ok (normalized :: rest)
               end
           end
  | _, _ => Ok []
  end.

(** What comes from outside: the cron library's parser and its [Next] in a location,
    the time zone database, the civil calendar of a location, and the digest of a
    definition. *)
Record calendar (Location : Type) : Type := {
  cron_parse : string -> result (Location -> time -> time);
  utc : Location;
  LoadLocation : string -> result Location;
  local_year : Location -> time -> Z;
  year_start : Location -> Z -> time
}.
Arguments cron_parse {Location} _ _.
Arguments utc {Location} _.
Arguments LoadLocation {Location} _ _.
Arguments local_year {Location} _ _ _.
Arguments year_start {Location} _ _ _.

(** 2000-01-01T00:00:00Z *)
Definition epoch2000 : time := 63082281600 * Second.

Section cron.
Context {Location : Type}.
Variable cal : calendar Location.

(** [Next]'s five-year horizon is continued in five-year steps, at most eighty. *)
Fixpoint probe_years (steps : nat) (schedule : time -> time) (location : Location) (year : Z)
    (after : time) : time :=
  match steps with
  | O => zeroTime
  | S steps' =>
      let next := schedule (Add (year_start cal location year) (- Second)) in
      if negb (IsZero next) && After next after then next
      else probe_years steps' schedule location (year + 5) after
  end.

Definition cron_next (schedule : time -> time) (location : Location) (after : time) : time :=
  let next := schedule after in
  if negb (IsZero next) then next
  else probe_years 80 schedule location (local_year cal location after + 5) after.

Definition parseCron (value : string) (location : Location) : result (string * (time -> time)) :=
  let fields := Fields value in
  if negb (Z.of_nat (length fields) =? 5)
  then Err (Errorf "schedule: cron expression must contain exactly five fields")
  else if HasPrefix (TrimSpace value) "@" || Contains (ToUpper value) "CRON_TZ"
  then Err (Errorf "schedule: cron descriptors and embedded time zones are not supported")
  else
  match normalizeFields fields fieldBounds with
  | Err e => Err e
  | Ok normalized =>
      let canonical := Join normalized " " in
      match cron_parse cal canonical with
      | Err e => Err (Wrapf "schedule: invalid cron expression: %w" e)
      | Ok spec =>
          if IsZero (spec location epoch2000)
          then Err (Errorf "schedule: cron expression has no possible occurrence")
          else Ok (canonical, spec location)
      end
  end.

(** ** [definition.go] *)

Definition timeZonePattern : re :=
  let tail := cls_or upperC (cls_or lowerC (cls_or digitC (oneof "._+-"))) in
  RCat (RChar (cls_or upperC lowerC)) (RCat (RStar (RChar tail))
    (RPlus (RCat (RLit "/") (RPlus (RChar tail))))).

Definition loadTimeZone (name : string) : result Location :=
  if negb (bool_decide (name = TrimSpace name)) || bool_decide (name = EmptyString)
     || bool_decide (name = "Local")
  then Err (Errorf "schedule: time zone must be UTC or an explicit IANA name")
  else if bool_decide (name = "UTC") then Ok (utc cal)
  else if (byte_len name >? 128) || negb (re_match timeZonePattern name)
  then Err (Errorf "schedule: invalid IANA time zone %q")
  else if existsb (fun part => bool_decide (part = ".") || bool_decide (part = ".."))
            (Split name "/"%char)
  then Err (Errorf "schedule: invalid IANA time zone %q")
  else match LoadLocation cal name with
       | Err e => Err (Wrapf "schedule: load IANA time zone %q: %w" e)
       | Ok location => Ok location
       end.

Record definitionSettings : Type := {
  st_timeZone : string;
  st_location : Location;
  st_misfireGrace : duration
}.

Inductive Option_ : Type :=
| TimeZone (name : string)
| MisfireGrace (grace : duration)
| NilScheduleOption.

Definition apply_schedule_option (o : Option_) (s : definitionSettings) : result definitionSettings :=
  match o with
  | TimeZone name =>
      match loadTimeZone name with
      | Err e => Err e
      | Ok location => Ok {| st_timeZone := name; st_location := location;
                             st_misfireGrace := st_misfireGrace s |}
      end
  | MisfireGrace grace =>
      if (grace <? Minute) || (grace >? 365 * 24 * Hour) || negb (Z.rem grace Minute =? 0)
      then Err (Errorf "schedule: misfire grace must be a whole minute between 1m and 365d")
      else Ok {| st_timeZone := st_timeZone s; st_location := st_location s;
                 st_misfireGrace := grace |}
  | NilScheduleOption => Err (Errorf "schedule: nil definition option")
  end.

Fixpoint apply_schedule_options (os : list Option_) (s : definitionSettings)
    : result definitionSettings :=
  match os with
  | [] => Ok s
  | o :: rest => match apply_schedule_option o s with
                 | Ok s' => apply_schedule_options rest s'
                 | Err e => Err e
                 end
  end.
End cron.
Arguments definitionSettings : clear implicits.

(** A payload strategy: the snapshot of a static payload or a factory; [Err] is the
    error it was built with. *)
Inductive Factory : Type :=
| StaticFactory (encoded : string)
| DynamicFactory (build : time -> result string).

(** [Static]: the payload must survive a round trip through its JSON encoding. *)
Definition Static {P} (marshal : P -> result string) (unmarshal : string -> result P) (payload : P)
    : result Factory :=
  match marshal payload with
  | Err e => Err (Wrapf "schedule: encode static payload: %w" e)
  | Ok encoded =>
      match unmarshal encoded with
      | Err e => Err (Wrapf "schedule: decode static payload snapshot: %w" e)
      | Ok snapshot =>
          match marshal snapshot with
          | Ok reencoded =>
              if bool_decide (encoded = reencoded) then Ok (StaticFactory encoded)
              else Err (Errorf "schedule: static payload must round-trip through canonical JSON")
          | Err _ => Err (Errorf "schedule: static payload must round-trip through canonical JSON")
          end
      end
  end.

Definition Dynamic (factory : option (time -> result string)) : result Factory :=
  match factory with
  | None => Err (Errorf "schedule: dynamic payload factory is required")
  | Some build => Ok (DynamicFactory build)
  end.

(** The encoded payload of an occurrence. *)
Definition factory_build (f : Factory) (scheduledAt : time) : result string :=
  match f with
  | StaticFactory encoded => Ok encoded
  | DynamicFactory build => build scheduledAt
  end.

Definition DefaultMisfireGrace : duration := 15 * Minute.
Definition ScheduleMaxNameBytes : Z := 128.

(** The fields hashed into a definition's fingerprint, in order. *)
Record fingerprintInput : Type := {
  fi_Name : string; fi_Expression : string; fi_TimeZone : string; fi_MisfireGraceNS : Z;
  fi_JobName : string; fi_Policy : Policy; fi_PayloadStrategy : string;
  fi_StaticPayload : option string; fi_OverlapPolicy : string
}.

Record ScheduleDefinition : Type := {
  sd_name : string;
  sd_expression : string;
  sd_next : time -> time;
  sd_timeZone : string;
  sd_misfireGrace : duration;
  sd_target : Definition_;
  sd_factory : Factory;
  sd_fingerprint : string
}.

Section define.
Context {Location : Type}.
Variable cal : calendar Location.
Variable digest : fingerprintInput -> result string.

Definition definitionFingerprint (name expression : string) (settings : definitionSettings Location)
    (target : Definition_) (factory : Factory) : result string :=
  match digest {| fi_Name := name; fi_Expression := expression;
                  fi_TimeZone := st_timeZone settings;
                  fi_MisfireGraceNS := st_misfireGrace settings; fi_JobName := def_name target;
                  fi_Policy := def_policy target;
                  fi_PayloadStrategy := match factory with
                                        | StaticFactory _ => "static-json-v1"
                                        | DynamicFactory _ => "dynamic-factory-v1"
                                        end;
                  fi_StaticPayload := match factory with
                                      | StaticFactory encoded => Some encoded
                                      | DynamicFactory _ => None
                                      end;
                  fi_OverlapPolicy := "forbid" |} with
  | Err e => Err (Wrapf "schedule: encode definition fingerprint: %w" e)
  | Ok f => Ok f
  end.

Definition DefineSchedule (name expression : string) (target : Definition_)
    (factory : result Factory) (options : list Option_) : result ScheduleDefinition :=
  if negb (bool_decide (name = TrimSpace name)) || (byte_len name =? 0)
     || (byte_len name >? ScheduleMaxNameBytes) || negb (re_match namePattern name)
  then Err (Errorf "schedule: invalid versioned name %q")
  else if bool_decide (def_name target = EmptyString)
  then Err (Errorf "schedule: valid job definition is required")
  else
  match factory with
  | Err e => Err e
  | Ok factory =>
  match apply_schedule_options cal options
          {| st_timeZone := "UTC"; st_location := utc cal;
             st_misfireGrace := DefaultMisfireGrace |} with
  | Err e => Err e
  | Ok settings =>
  match parseCron cal expression (st_location settings) with
  | Err e => Err e
  | Ok (canonical, spec) =>
  match definitionFingerprint name canonical settings target factory with
  | Err e => Err e
  | Ok fingerprint =>
      Ok {| sd_name := name; sd_expression := canonical;
            sd_next := cron_next cal spec (st_location settings);
            sd_timeZone := st_timeZone settings; sd_misfireGrace := st_misfireGrace settings;
            sd_target := target; sd_factory := factory; sd_fingerprint := fingerprint |}
  end end end end.
End define.

(** [occurrence]: only whole minutes are occurrences. *)
Definition occurrence (at_ : time) : result time :=
  if IsZero at_ || negb (aligned at_ Minute)
  then Err (Errorf "schedule: occurrence must be a non-zero whole minute") else Ok at_.

(** ** [registry.go] *)

Definition ScheduleRegistry : Type := gmap string ScheduleDefinition.

Definition RegisterSchedule (registry : option ScheduleRegistry) (d : ScheduleDefinition)
    : result ScheduleRegistry :=
  match registry with
  | None => Err (Errorf "schedule: registry is required")
  | Some registry =>
      if bool_decide (sd_name d = EmptyString) then Err (Errorf "schedule: valid definition is required")
      else match registry !! sd_name d with
           | Some _ => Err (Errorf "schedule: duplicate registration: %s")
           | None => Ok (<[sd_name d := d]> registry)
           end
  end.

Definition name_le (a b : ScheduleDefinition) : Prop := Is_true (String.leb (sd_name a) (sd_name b)).

#[export] Instance name_le_dec : RelDecision name_le.
Proof. intros a b; unfold name_le; apply _. Defined.

Definition Definitions (registry : ScheduleRegistry) : list ScheduleDefinition :=
  merge_sort name_le (snd <$> map_to_list registry).

Definition ScheduleNames (registry : ScheduleRegistry) : list string :=
  sd_name <$> Definitions registry.

(** ** [types.go] and [scheduler.go] *)

Definition ErrDefinitionConflict : error :=
  Sentinel "schedule: durable definition conflicts with code".

Inductive Outcome : Type :=
| OutcomeNotDue | OutcomeEnqueued | OutcomeOverlapSuppressed | OutcomeMisfireSkipped
| OutcomeContended.

#[export] Instance Outcome_eq_dec : EqDecision Outcome.
Proof. solve_decision. Defined.

Record Result : Type := {
  res_Name : string;
  res_Outcome : Outcome;
  res_ScheduledAt : time;
  res_JobID : string
}.

Definition validateResult (d : ScheduleDefinition) (r : Result) : option error :=
  if negb (bool_decide (res_Name r = sd_name d))
  then Some (Errorf "schedule: store returned result for %q while materializing %q")
  else match res_Outcome r with
       | OutcomeNotDue | OutcomeMisfireSkipped | OutcomeContended =>
           if negb (IsZero (res_ScheduledAt r)) || negb (bool_decide (res_JobID r = EmptyString))
           then Some (Errorf "schedule: %s result cannot contain an occurrence or job") else None
       | OutcomeEnqueued | OutcomeOverlapSuppressed =>
           if bool_decide (res_JobID r = EmptyString) || IsZero (res_ScheduledAt r)
              || negb (aligned (res_ScheduledAt r) Minute)
           then Some (Errorf "schedule: %s result requires a UTC whole-minute occurrence and job id")
           else None
       end.

(** [schedule.Store]: [Q] is the part of the database the dispatch callback works on,
    in the store's own transaction. *)
Class ScheduleStore (St Q : Type) : Type := {
  store_Materialize : ScheduleDefinition -> (time -> M Q DispatchResult) -> M St Result
}.

Record ScheduleEvent : Type := {
  se_Name : string; se_Outcome : Outcome; se_ScheduledAt : time; se_JobID : string; se_At : time
}.

Record SchedulerConfig : Type := { sc_PollInterval : duration; sc_OperationTimeout : duration }.

Definition NewScheduler (store registry : bool) (dispatcher : Dispatcher) (c : SchedulerConfig)
    : result SchedulerConfig :=
  if negb store then Err (Errorf "schedule: store is required")
  else if negb registry then Err (Errorf "schedule: registry is required")
  else match Dispatcher_Validate dispatcher with
  | Some e => Err (Wrapf "schedule: dispatcher is required: %w" e)
  | None =>
      let pollInterval := if sc_PollInterval c =? 0 then 15 * Second else sc_PollInterval c in
      let operation := if sc_OperationTimeout c =? 0 then 5 * Second else sc_OperationTimeout c in
      if (pollInterval <? Second) || (pollInterval >? Minute)
      then Err (Errorf "schedule: poll interval must be between 1s and 1m")
      else if (operation <? 100 * Millisecond) || (operation >? Minute)
      then Err (Errorf "schedule: operation timeout must be between 100ms and 1m")
      else Ok {| sc_PollInterval := pollInterval; sc_OperationTimeout := operation |}
  end.

Section scheduler.
Context {St Q : Type} `{ScheduleStore St (Q * option eventEmitter)} `{JobStore Q}.
Variable dispatcher : Dispatcher.
(** [crypto/rand], [time.Now] and the callback's context, per occurrence. *)
Variable random : string -> time -> result string.
Variable now_at : string -> time -> time.
Variable ctx : string -> time -> nat -> option error.

(** The callback [RunOnce] hands to the store: validate the occurrence, build the
    payload and dispatch it, deduplicated per schedule. *)
Definition materialize (d : ScheduleDefinition) (raw : time)
    : M (Q * option eventEmitter) DispatchResult :=
  match occurrence raw with
  | Err e => throw e
  | Ok at_ =>
      match ctx (sd_name d) at_ 0 with
      | Some e => throw e
      | None =>
          match factory_build (sd_factory d) at_ with
          | Err e => throw (Wrapf "schedule: build payload for %s: %w" e)
          | Ok payload =>
              match ctx (sd_name d) at_ 1 with
              | Some e => throw e
              | None =>
              Dispatch (sd_target d) (Using true dispatcher)
                [Deduplicate ("goforge:schedule:" +:+ sd_name d)] (Ok payload)
                (random (sd_name d) at_) (now_at (sd_name d) at_)
              end
          end
      end
  end.

(** The loop of [RunOnce]: results so far (each is also announced to the observer),
    and the error that stopped it. *)
Fixpoint run_definitions (ds : list ScheduleDefinition) (results : list Result) (st : St) : (list Result * option error) * St :=
  match ds with
  | [] => ((results, None), st)
  | d :: rest =>
      match store_Materialize d (materialize d) st with
      | (Err e, st') => ((results, Some (Wrapf "schedule: materialize %s: %w" e)), st')
      | (Ok r, st') =>
          match validateResult d r with
          | Some e => ((results, Some e), st')
          | None =>
              if bool_decide (res_Outcome r = OutcomeNotDue)
              then run_definitions rest results st'
              else run_definitions rest (results ++ [r]) st'
          end
      end
  end.

Definition RunOnce (ctxErr : option error) (registry : ScheduleRegistry) (st : St)
    : (list Result * option error) * St :=
  match ctxErr with
  | Some e => (([], Some e), st)
  | None => run_definitions (Definitions registry) [] st
  end.

(** One turn of [Run]: stop cleanly once the context is done, stop with the error
    otherwise, or poll again. *)
Inductive run_decision : Type := StopClean | StopError (e : error) | PollAgain.

Definition Run_turn (ctxAfter : option error) (outcome : option error) : run_decision :=
  match outcome, ctxAfter with
  | Some _, Some _ => StopClean
  | Some e, None => StopError e
  | None, Some _ => StopClean
  | None, None => PollAgain
  end.
End scheduler.
