(* ===== verification/ScheduleStore.v ===== *)
(** * The PostgreSQL schedule store

    Package [schedule/postgres]: the table of [schema.go], the occurrence search,
    and [Materialize]/[List] of [store.go].  The queue a dispatch writes to lives in
    the same database, so it is part of the same transaction. *)

From S2P Require Import Prelude GoStrings GoRegexp JobTypes Job Database Schedule.
Local Open Scope Z_scope.

Record durableSchedule : Type := {
  fingerprint : string;
  expression : string;
  timeZone : string;
  jobName : string;
  queue_ : string;
  misfireGraceMS : Z;
  overlapPolicy_ : string;
  nextRunAt : time;
  lastEvaluatedAt : option time;
  lastCursorAt : option time;
  lastOccurrenceAt : option time;
  lastJobID : option string;
  lastOutcome : option string;
  createdAt : time;
  updatedAt : time
}.

Definition overlapPolicy : string := "forbid".

Definition outcome_text (o : Outcome) : string :=
  match o with
  | OutcomeNotDue => "not_due"
  | OutcomeEnqueued => "enqueued"
  | OutcomeOverlapSuppressed => "overlap_suppressed"
  | OutcomeMisfireSkipped => "misfire_skipped"
  | OutcomeContended => "contended"
  end.

Definition between (lo z hi : Z) : bool := (lo <=? z) && (z <=? hi).

Definition isSome {A} (o : option A) : bool := match o with Some _ => true | None => false end.

(** The CHECK constraints of the table. *)
Definition schedule_check (name : string) (s : durableSchedule) : bool :=
  between 1 (byte_len name) 128 && re_match namePattern name
  && (byte_len (fingerprint s) =? 64) && re_match hashedKeyPattern (fingerprint s)
  && between 1 (byte_len (expression s)) 256
  && between 1 (byte_len (timeZone s)) 128
  && between 1 (byte_len (jobName s)) 128 && re_match namePattern (jobName s)
  && between 1 (byte_len (queue_ s)) 64 && re_match queuePattern (queue_ s)
  && between 60000 (misfireGraceMS s) 31536000000
  && bool_decide (overlapPolicy_ s = "forbid")
  && match lastJobID s with Some j => between 1 (byte_len j) 1024 | None => true end
  && (createdAt s <=? updatedAt s)
  && match lastOutcome s with
     | None => negb (isSome (lastEvaluatedAt s)) && negb (isSome (lastCursorAt s))
               && negb (isSome (lastOccurrenceAt s)) && negb (isSome (lastJobID s))
     | Some o =>
         isSome (lastEvaluatedAt s) && isSome (lastCursorAt s)
         && (if bool_decide (o = "misfire_skipped")
             then negb (isSome (lastOccurrenceAt s)) && negb (isSome (lastJobID s))
             else if bool_decide (o = "enqueued") || bool_decide (o = "overlap_suppressed")
             then isSome (lastOccurrenceAt s) && isSome (lastJobID s) else false)
     end.

(** The database: the schedules and the queue [Q] beside them. *)
Record schedDb (Q : Type) : Type := {
  schedules : gmap string durableSchedule;
  sched_queue : Q;
  sched_tick : nat
}.
Arguments schedules {Q} _.
Arguments sched_queue {Q} _.
Arguments sched_tick {Q} _.

#[export] Instance schedDb_tx (Q : Type) : Transactional (schedDb Q) :=
  {| tx_tick := sched_tick;
     tx_bump := fun db => {| schedules := schedules db; sched_queue := sched_queue db;
                             sched_tick := S (sched_tick db) |};
     tx_restore := fun before after => {| schedules := schedules before;
                                          sched_queue := sched_queue before;
                                          sched_tick := sched_tick after |} |}.

(** ** Selecting the occurrence *)

Definition nextAfter (next : time -> time) (after : time) : result time :=
  let n := next after in
  if IsZero n || negb (After n after) || negb (aligned n Minute)
  then Err (Errorf "schedule/postgres: %s returned an invalid next occurrence") else Ok n.

(** The loop of [latestOccurrence]: the last minute offset whose next occurrence is
    not after [end_]. *)
Fixpoint search (fuel : nat) (next : time -> time) (lower end_ : time) (low high best : Z)
    : result Z :=
  match fuel with
  | O => Ok best
  | S fuel' =>
      if low <=? high then
        let middle := low + Z.quot (high - low) 2 in
        let candidate := Add lower (middle *w Minute)%go in
        let o := next (Add candidate (- Nanosecond)) in
        if IsZero o then search fuel' next lower end_ low (middle - 1) best
        else if Before o candidate || negb (aligned o Minute)
        then Err (Errorf "next occurrence is not a monotone whole UTC minute")
        else if After o end_ then search fuel' next lower end_ low (middle - 1) best
        else search fuel' next lower end_ (middle + 1) high middle
      else Ok best
  end.

(** Each turn halves the interval. *)
Definition search_fuel (minutes : Z) : nat := Z.to_nat (Z.log2 (minutes + 1)) + 2.

Definition latestOccurrence (next : time -> time) (start end_ : time) : result (option time) :=
  if IsZero start || IsZero end_ || After start end_
  then Err (Errorf "invalid occurrence search")
  else
  let lower := Truncate start Minute in
  let lower := if Before lower start then Add lower Minute else lower in
  let upper := Truncate end_ Minute in
  if After lower upper then Ok None
  else
  let minutes := Z.quot (Sub upper lower) Minute in
  match search (search_fuel minutes) next lower end_ 0 minutes (-1) with
  | Err e => Err e
  | Ok best =>
      if best <? 0 then Ok None
      else
      let candidate := Add lower (best *w Minute)%go in
      let o := next (Add candidate (- Nanosecond)) in
      if IsZero o || Before o start || After o end_ || Before o candidate || negb (aligned o Minute)
      then Err (Errorf "next occurrence failed final inclusive-window validation")
      else Ok (Some o)
  end.

(** ** Definitions against rows *)

Definition validateDefinition (d : ScheduleDefinition) : option error :=
  if (byte_len (sd_name d) =? 0) || (byte_len (sd_name d) >? ScheduleMaxNameBytes)
     || negb (re_match namePattern (sd_name d))
  then Some (Errorf "schedule/postgres: valid definition is required")
  else
  let jobName := def_name (sd_target d) in
  let queue := p_Queue (def_policy (sd_target d)) in
  if (byte_len (sd_expression d) =? 0) || (byte_len (sd_expression d) >? 256)
     || (byte_len (sd_timeZone d) =? 0) || (byte_len (sd_timeZone d) >? 128)
     || (byte_len jobName =? 0) || (byte_len jobName >? MaxNameBytes)
     || negb (re_match namePattern jobName)
     || (byte_len queue =? 0) || (byte_len queue >? MaxQueueBytes)
     || negb (re_match queuePattern queue)
     || negb (byte_len (sd_fingerprint d) =? 64)
     || negb (re_match hashedKeyPattern (sd_fingerprint d))
     || (sd_misfireGrace d <? Minute) || (sd_misfireGrace d >? 365 * 24 * Hour)
     || negb (Z.rem (sd_misfireGrace d) Minute =? 0)
  then Some (Errorf "schedule/postgres: invalid durable definition %s")
  else None.

Definition matches (d : ScheduleDefinition) (s : durableSchedule) : option error :=
  if negb (bool_decide (fingerprint s = sd_fingerprint d))
     || negb (bool_decide (expression s = sd_expression d))
     || negb (bool_decide (timeZone s = sd_timeZone d))
     || negb (bool_decide (jobName s = def_name (sd_target d)))
     || negb (bool_decide (queue_ s = p_Queue (def_policy (sd_target d))))
     || negb ((misfireGraceMS s *w Millisecond)%go =? sd_misfireGrace d)
     || negb (bool_decide (overlapPolicy_ s = overlapPolicy))
  then Some (Wrapf "%w: %s stores fingerprint %s, code has %s" ErrDefinitionConflict)
  else None.

(** ** Statements *)

Section store.
Context {Q : Type}.
Variable E : env.

(** One statement inside a transaction, at the database clock of its tick. *)
Definition sql {A} (format : string)
    (body : time -> nat -> schedDb Q -> result (A * schedDb Q)) : M (schedDb Q) A := fun db =>
  let n := sched_tick db in
  let tick db := tx_bump (St := schedDb Q) db in
  match fault E n with
  | Some e => (Err (Wrapf format e), tick db)
  | None => match body (clock E n) n db with
            | Err e => (Err (Wrapf format e), tick db)
            | Ok (a, db') => (Ok a, tick db')
            end
  end.

(** [find] without a lock, and [lock]: [FOR UPDATE SKIP LOCKED]. *)
Definition find (name : string) : M (schedDb Q) (option durableSchedule) :=
  sql "schedule/postgres: find %s: %w" (fun _ _ db => Ok (schedules db !! name, db)).

Definition lock (name : string) : M (schedDb Q) (option durableSchedule) :=
  sql "schedule/postgres: find %s: %w" (fun _ n db =>
    Ok (if bool_decide (name ∈ locked E n) then None else schedules db !! name, db)).

Definition exists_ (name : string) : M (schedDb Q) bool :=
  sql "schedule/postgres: inspect contention for %s: %w" (fun _ _ db =>
    Ok (isSome (schedules db !! name), db)).

Definition databaseClock : M (schedDb Q) time :=
  sql "schedule/postgres: read database clock: %w" (fun now _ db => Ok (now, db)).

Definition with_schedules (m : gmap string durableSchedule) (db : schedDb Q) : schedDb Q :=
  {| schedules := m; sched_queue := sched_queue db; sched_tick := sched_tick db |}.

Definition initial_row (d : ScheduleDefinition) (cursor now : time) : durableSchedule :=
  {| fingerprint := sd_fingerprint d; expression := sd_expression d; timeZone := sd_timeZone d;
     jobName := def_name (sd_target d); queue_ := p_Queue (def_policy (sd_target d));
     misfireGraceMS := Milliseconds (sd_misfireGrace d); overlapPolicy_ := overlapPolicy;
     nextRunAt := cursor; lastEvaluatedAt := None; lastCursorAt := None;
     lastOccurrenceAt := None; lastJobID := None; lastOutcome := None;
     createdAt := now; updatedAt := now |}.

Definition violation : error := Errorf "violates constraint".

(** [INSERT ... ON CONFLICT (name) DO NOTHING] *)
Definition insert_schedule (name : string) (row : durableSchedule) : M (schedDb Q) unit :=
  sql "schedule/postgres: initialize %s: %w" (fun _ _ db =>
    if negb (schedule_check name row) then Err violation
    else match schedules db !! name with
         | Some _ => Ok (tt, db)
         | None => Ok (tt, with_schedules (<[name := row]> (schedules db)) db)
         end).

(** The first cursor: the current minute if it is an occurrence, else the next one. *)
Definition initial_cursor (next : time -> time) (now : time) : result time :=
  let currentMinute := Truncate now Minute in
  let cursor := next (Add currentMinute (- Nanosecond)) in
  if IsZero cursor || negb (aligned cursor Minute) || Before cursor currentMinute
  then Err (Errorf "schedule/postgres: %s returned an invalid initialization occurrence")
  else if negb (TimeEqual cursor currentMinute) then nextAfter next now
  else Ok cursor.

Definition initialize (d : ScheduleDefinition) : M (schedDb Q) unit :=
  bindM databaseClock (fun now =>
  match initial_cursor (sd_next d) now with
  | Err e => throw e
  | Ok cursor => insert_schedule (sd_name d) (initial_row d cursor now)
  end).

Definition advanced (next evaluatedAt : time) (occurrenceAt : option time) (jobID : option string)
    (outcome : Outcome) (s : durableSchedule) : durableSchedule :=
  {| fingerprint := fingerprint s; expression := expression s; timeZone := timeZone s;
     jobName := jobName s; queue_ := queue_ s; misfireGraceMS := misfireGraceMS s;
     overlapPolicy_ := overlapPolicy_ s; nextRunAt := next; lastEvaluatedAt := Some evaluatedAt;
     lastCursorAt := Some (nextRunAt s); lastOccurrenceAt := occurrenceAt; lastJobID := jobID;
     lastOutcome := Some (outcome_text outcome); createdAt := createdAt s;
     updatedAt := evaluatedAt |}.

(** The compare-and-set [UPDATE]: exactly one row with the fingerprint and cursor that
    were read. *)
Definition advance (name : string) (stored : durableSchedule) (next evaluatedAt : time)
    (occurrenceAt : option time) (jobID : option string) (outcome : Outcome)
    : M (schedDb Q) unit :=
  bindM (sql "schedule/postgres: advance %s: %w" (fun _ _ db =>
    match schedules db !! name with
    | Some row =>
        if bool_decide (fingerprint row = fingerprint stored)
           && TimeEqual (nextRunAt row) (nextRunAt stored) then
          let row' := advanced next evaluatedAt occurrenceAt jobID outcome row in
          if schedule_check name row'
          then Ok (true, with_schedules (<[name := row']> (schedules db)) db)
          else Err violation
        else Ok (false, db)
    | None => Ok (false, db)
    end))
  (fun affected =>
   if affected then ret tt else throw (Errorf "schedule/postgres: advance %s affected %d rows")).

(** A call of the dispatch callback inside the transaction. *)
Definition on_queue {A} (m : M Q A) : M (schedDb Q) A := fun db =>
  let '(r, q) := m (sched_queue db) in
  (r, {| schedules := schedules db; sched_queue := q; sched_tick := sched_tick db |}).

Definition result_of (d : ScheduleDefinition) (outcome : Outcome) : Result :=
  {| res_Name := sd_name d; res_Outcome := outcome; res_ScheduledAt := zeroTime;
     res_JobID := EmptyString |}.

(** The start of the coalescing window. *)
Definition window_start (d : ScheduleDefinition) (stored : durableSchedule) (now : time) : time :=
  let w := Add now (- sd_misfireGrace d) in
  if After (nextRunAt stored) w then nextRunAt stored else w.

(** The evaluation of a locked row. *)
Definition evaluate (d : ScheduleDefinition) (dispatch : time -> M Q DispatchResult)
    (stored : durableSchedule) : M (schedDb Q) Result :=
  match matches d stored with
  | Some e => throw e
  | None =>
  bindM databaseClock (fun now =>
  if After (nextRunAt stored) now then ret (result_of d OutcomeNotDue)
  else
  match nextAfter (sd_next d) now with
  | Err e => throw e
  | Ok next =>
  match latestOccurrence (sd_next d) (window_start d stored now) now with
  | Err e => throw (Wrapf "schedule/postgres: select occurrence for %s: %w" e)
  | Ok None =>
      bindM (advance (sd_name d) stored next now None None OutcomeMisfireSkipped) (fun _ =>
      ret (result_of d OutcomeMisfireSkipped))
  | Ok (Some occurrenceAt) =>
      bindM (wrapM "schedule/postgres: dispatch %s at %s: %w" (on_queue (dispatch occurrenceAt)))
        (fun dispatched =>
      if bool_decide (dr_ID dispatched = EmptyString) || (byte_len (dr_ID dispatched) >? 1024)
      then throw (Errorf "schedule/postgres: dispatch %s returned an invalid job id")
      else
      let outcome := if dr_Enqueued dispatched then OutcomeEnqueued else OutcomeOverlapSuppressed in
      bindM (advance (sd_name d) stored next now (Some occurrenceAt) (Some (dr_ID dispatched)) outcome)
        (fun _ =>
      ret {| res_Name := sd_name d; res_Outcome := outcome; res_ScheduledAt := occurrenceAt;
             res_JobID := dr_ID dispatched |}))
  end end)
  end.

(** The work inside the transaction: find or create the row, then evaluate it. *)
Definition materialize_work (d : ScheduleDefinition) (dispatch : time -> M Q DispatchResult)
    : M (schedDb Q) Result :=
  bindM (lock (sd_name d)) (fun found =>
  match found with
  | Some stored => evaluate d dispatch stored
  | None =>
      bindM (exists_ (sd_name d)) (fun present =>
      if (present : bool) then ret (result_of d OutcomeContended)
      else
      bindM (initialize d) (fun _ =>
      bindM (lock (sd_name d)) (fun found =>
      match found with
      | None => ret (result_of d OutcomeContended)
      | Some stored => evaluate d dispatch stored
      end)))
  end).

Definition Materialize (ctx : option error) (d : ScheduleDefinition)
    (dispatch : time -> M Q DispatchResult) : M (schedDb Q) Result :=
  match validateDefinition d with
  | Some e => throw e
  | None =>
  match ctx with
  | Some e => throw e
  | None => Transaction E (materialize_work d dispatch)
  end end.

Definition PgSchedules_store (ctx : option error) : ScheduleStore (schedDb Q) Q :=
  {| store_Materialize := Materialize ctx |}.

(** ** [List] *)

Record Status : Type := {
  su_Definition : ScheduleDefinition;
  su_NextRunAt : time;
  su_LastEvaluatedAt : option time;
  su_LastCursorAt : option time;
  su_LastOccurrenceAt : option time;
  su_LastJobID : string;
  su_LastOutcome : string;
  su_CreatedAt : option time;
  su_UpdatedAt : option time
}.

Definition timePointer (t : time) : option time := if IsZero t then None else Some t.

Definition statusFromDefinition (d : ScheduleDefinition) : Status :=
  {| su_Definition := d; su_NextRunAt := zeroTime; su_LastEvaluatedAt := None;
     su_LastCursorAt := None; su_LastOccurrenceAt := None; su_LastJobID := EmptyString;
     su_LastOutcome := EmptyString; su_CreatedAt := None; su_UpdatedAt := None |}.

Definition status (d : ScheduleDefinition) (s : durableSchedule) : Status :=
  {| su_Definition := d; su_NextRunAt := nextRunAt s; su_LastEvaluatedAt := lastEvaluatedAt s;
     su_LastCursorAt := lastCursorAt s; su_LastOccurrenceAt := lastOccurrenceAt s;
     su_LastJobID := default EmptyString (lastJobID s);
     su_LastOutcome := default EmptyString (lastOutcome s);
     su_CreatedAt := timePointer (createdAt s); su_UpdatedAt := timePointer (updatedAt s) |}.

Fixpoint list_statuses (ds : list ScheduleDefinition) (seen : list string)
    : M (schedDb Q) (list Status) :=
  match ds with
  | [] => ret []
  | d :: rest =>
      match validateDefinition d with
      | Some e => throw e
      | None =>
      if bool_decide (sd_name d ∈ seen)
      then throw (Errorf "schedule/postgres: duplicate definition %s")
      else
      bindM (find (sd_name d)) (fun found =>
      match (match found with
             | None => Ok (statusFromDefinition d)
             | Some s => match matches d s with Some e => Err e | None => Ok (status d s) end
             end) with
      | Err e => throw e
      | Ok st => bindM (list_statuses rest (sd_name d :: seen)) (fun sts => ret (st :: sts))
      end)
      end
  end.

Definition ListSchedules (ctx : option error) (ds : list ScheduleDefinition)
    : M (schedDb Q) (list Status) :=
  match ctx with
  | Some e => throw e
  | None => list_statuses (merge_sort name_le ds) []
  end.
End store.
