(* ===== verification/ScheduleProps.v ===== *)
(** * Properties of schedules

    The occurrence search, the transactional materialization of schedules, and the
    agreement of the store with the scheduler that calls it. *)

From S2P Require Import Prelude GoStrings GoRegexp JobTypes Job Database Schedule ScheduleStore.
Local Open Scope Z_scope.

(** ** The occurrence search *)

(** What a cron schedule promises: [O] is its set of occurrences, whole minutes, and
    [next t] the first one after [t], or zero when there is none. *)
Definition cron_spec (O : time -> Prop) (next : time -> time) : Prop :=
  (forall o, O o -> 0 < o /\ o mod Minute = 0) /\
  (forall t, (next t = 0 /\ forall o, O o -> o <= t) \/
             (O (next t) /\ t < next t /\ forall o, O o -> t < o -> next t <= o)).

Section search.
Variable O : time -> Prop.
Variable next : time -> time.
Hypothesis Hspec : cron_spec O next.

(** Some occurrence lies between minute [m] and the end. *)
Definition reaches (lower end_ : time) (m : Z) : Prop :=
  exists o, O o /\ lower + m * Minute <= o <= end_.

Lemma next_cases t :
  (next (t - 1) = 0 /\ forall o, O o -> o < t) \/
  (O (next (t - 1)) /\ 0 < next (t - 1) /\ t <= next (t - 1) /\ aligned (next (t - 1)) Minute = true /\
   forall o, O o -> t <= o -> next (t - 1) <= o).
Proof.
  destruct Hspec as [Hpos Hn]. destruct (Hn (t - 1)) as [[Hz Hall]|(Ho & Hlt & Hmin)].
  - left. split; [done|]. intros o Ho. specialize (Hall o Ho). lia.
  - right. destruct (Hpos _ Ho) as [Hp Hm]. split; [done|]. split; [done|]. split; [lia|].
    split; [by apply aligned_mod|]. intros o Ho' Hle. apply Hmin; [done|lia].
Qed.

Lemma search_step_reaches lower end_ m :
  let o := next (lower + m * Minute - 1) in
  (o = 0 /\ ~ reaches lower end_ m) \/
  (o <> 0 /\ lower + m * Minute <= o /\ aligned o Minute = true /\
   (end_ < o -> ~ reaches lower end_ m) /\ (o <= end_ -> reaches lower end_ m)).
Proof.
  destruct (next_cases (lower + m * Minute)) as [[Hz Hall]|(Ho & Hp & Hle & Ha & Hmin)]; cbn zeta.
  - left. split; [done|]. intros (o & Ho & H). specialize (Hall o Ho). lia.
  - right. split; [lia|]. split; [done|]. split; [done|]. split.
    + intros Hlt (o & Ho' & H). specialize (Hmin o Ho'). lia.
    + intros Hend. by exists (next (lower + m * Minute - 1)).
Qed.

Lemma reaches_mono lower end_ m m' : m <= m' -> reaches lower end_ m' -> reaches lower end_ m.
Proof. intros Hle (o & Ho & H). exists o. split; [done|]. unfold Minute in *. lia. Qed.

Lemma search_spec fuel lower end_ minutes low high :
  0 <= low -> high <= minutes -> in_int64 (minutes * Minute) -> low <= high + 1 ->
  high - low + 1 < 2 ^ Z.of_nat fuel ->
  (0 < low -> reaches lower end_ (low - 1)) ->
  (forall m, high < m <= minutes -> ~ reaches lower end_ m) ->
  exists best, search fuel next lower end_ low high (low - 1) = Ok best /\
    -1 <= best <= minutes /\ (0 <= best -> reaches lower end_ best) /\
    (forall m, best < m <= minutes -> ~ reaches lower end_ m).
Proof.
  intros Hlow Hhigh Hint. revert low high Hlow Hhigh.
  induction fuel as [|fuel IH]; intros low high Hlow Hhigh Hle Hfuel Hbest Hbeyond.
  { cbn in Hfuel. cbn [search]. exists (low - 1). split; [done|]. split; [lia|].
    split; [intros; apply Hbest; lia|]. intros m Hm. apply Hbeyond. lia. }
  cbn [search]. destruct (Z.leb_spec low high) as [Hlh|Hlh].
  2: { exists (low - 1). split; [done|]. split; [lia|]. split; [intros; apply Hbest; lia|].
       intros m Hm. apply Hbeyond. lia. }
  set (middle := low + Z.quot (high - low) 2).
  assert (Hmid : low <= middle <= high /\ high - low <= 2 * (middle - low) + 1 /\
                 2 * (middle - low) <= high - low).
  { unfold middle. rewrite Z.quot_div_nonneg by lia. Z.div_mod_to_equations; lia. }
  rewrite Nat2Z.inj_succ, Z.pow_succ_r in Hfuel by lia.
  rewrite wrap64_id.
  2: { unfold in_int64, MinInt64, MaxInt64, Minute in *. lia. }
  unfold Add. change (lower + middle * Minute + - Nanosecond) with (lower + middle * Minute - 1).
  destruct (search_step_reaches lower end_ middle) as [[Hz Hno]|(Hnz & Hge & Hal & Hno & Hyes)].
  - rewrite Hz. cbn [IsZero]. unfold IsZero, zeroTime. rewrite Z.eqb_refl.
    apply IH; [lia|lia|lia|lia|done|].
    intros m Hm Hr. destruct (decide (high < m)); [by apply (Hbeyond m); [lia|]|].
    apply Hno. apply (reaches_mono _ _ _ m); [lia|done].
  - unfold IsZero, zeroTime, Before, After. rewrite (proj2 (Z.eqb_neq _ _) Hnz).
    rewrite (proj2 (Z.ltb_ge _ _) Hge), Hal. cbn [negb orb].
    destruct (Z.ltb_spec end_ (next (lower + middle * Minute - 1))) as [Hlt|Hlt].
    + apply IH; [lia|lia|lia|lia|done|].
      intros m Hm Hr. destruct (decide (high < m)); [by apply (Hbeyond m); [lia|]|].
      apply (Hno Hlt). apply (reaches_mono _ _ _ m); [lia|done].
    + specialize (IH (middle + 1) high). replace (middle + 1 - 1) with middle in IH by lia.
      apply IH; [lia|lia|lia|lia|auto|done].
Qed.
End search.

Lemma latestOccurrence_spec O next start end_ :
  cron_spec O next -> 0 < start -> start <= end_ -> end_ - start <= MaxInt64 ->
  (exists o, latestOccurrence next start end_ = Ok (Some o) /\ O o /\ start <= o <= end_ /\
     forall o', O o' -> o' <= end_ -> o' <= o) \/
  (latestOccurrence next start end_ = Ok None /\ forall o, O o -> ~ (start <= o <= end_)).
Proof.
  intros Hspec Hs Hse Hlen. unfold latestOccurrence, IsZero, zeroTime, After, Before.
  rewrite (proj2 (Z.eqb_neq start 0)), (proj2 (Z.eqb_neq end_ 0)), (proj2 (Z.ltb_ge end_ start)) by lia.
  cbn [orb].
  set (lower := if Truncate start Minute <? start then Add (Truncate start Minute) Minute
                else Truncate start Minute).
  assert (Hlower : start <= lower < start + Minute /\ lower mod Minute = 0).
  { pose proof (Truncate_le start Minute). pose proof (Truncate_gt start Minute eq_refl).
    pose proof (proj1 (aligned_mod (Truncate start Minute) Minute eq_refl)
                  (Truncate_aligned start Minute eq_refl)) as Hmod.
    unfold lower, Add. destruct (Z.ltb_spec (Truncate start Minute) start).
    - split; [lia|]. rewrite <- Zplus_mod_idemp_l, Hmod. done.
    - split; [unfold Minute in *; lia|done]. }
  set (upper := Truncate end_ Minute).
  assert (Hupper : upper <= end_ < upper + Minute /\ upper mod Minute = 0).
  { pose proof (Truncate_le end_ Minute). pose proof (Truncate_gt end_ Minute eq_refl).
    pose proof (proj1 (aligned_mod (Truncate end_ Minute) Minute eq_refl)
                  (Truncate_aligned end_ Minute eq_refl)). unfold upper. split; [lia|done]. }
  destruct Hlower as [Hl Hlm], Hupper as [Hu Hum].
  (* every occurrence of the window sits on a minute of the search *)
  assert (Hminute : forall o, O o -> start <= o <= end_ ->
            exists m, 0 <= m /\ o = lower + m * Minute /\ o <= upper).
  { intros o Ho Hwin. destruct (proj1 Hspec o Ho) as [_ Hom].
    exists ((o - lower) / Minute). unfold Minute in *. Z.div_mod_to_equations; lia. }
  destruct (Z.ltb_spec upper lower) as [Hempty|Hne].
  { right. split; [done|]. intros o Ho Hwin. destruct (Hminute o Ho Hwin) as (m & Hm & -> & Hle).
    unfold Minute in *; lia. }
  rewrite Sub_exact by (unfold in_int64, MinInt64, MaxInt64, Minute in *; lia).
  set (minutes := Z.quot (upper - lower) Minute).
  assert (Hmins : 0 <= minutes /\ lower + minutes * Minute = upper).
  { unfold minutes. rewrite Z.quot_div_nonneg by (unfold Minute; lia).
    unfold Minute in *. Z.div_mod_to_equations; lia. }
  destruct (search_spec O next Hspec (search_fuel minutes) lower end_ minutes 0 minutes)
    as (best & Hbest & Hrange & Hreach & Hbeyond); try lia.
  { unfold in_int64, MinInt64, MaxInt64, Minute in *. lia. }
  { unfold search_fuel. pose proof (Z.log2_spec (minutes + 1) ltac:(lia)) as [_ Hlog].
    rewrite Nat2Z.inj_add, Z2Nat.id by apply Z.log2_nonneg.
    change (Z.of_nat 2) with 2. replace (Z.log2 (minutes + 1) + 2) with (Z.succ (Z.succ (Z.log2 (minutes + 1)))) by lia.
    rewrite Z.pow_succ_r by (pose proof (Z.log2_nonneg (minutes + 1)); lia). lia. }
  change (-1) with (0 - 1). rewrite Hbest.
  destruct (Z.ltb_spec best 0) as [Hneg|Hnn].
  { right. split; [done|]. intros o Ho Hwin. destruct (Hminute o Ho Hwin) as (m & Hm & Heq & Hle).
    apply (Hbeyond m); [unfold Minute in *; lia|]. exists o. split; [done|]. lia. }
  rewrite wrap64_id by (unfold in_int64, MinInt64, MaxInt64, Minute in *; lia).
  unfold Add. change (lower + best * Minute + - Nanosecond) with (lower + best * Minute - 1).
  destruct (Hreach Hnn) as (o1 & Ho1 & Hw1).
  destruct (next_cases O next Hspec (lower + best * Minute)) as [[_ Hall]|(Ho & Hp & Hle & Ha & Hmin)].
  { specialize (Hall o1 Ho1). lia. }
  set (o := next (lower + best * Minute - 1)) in *.
  specialize (Hmin o1 Ho1 ltac:(lia)) as Hoo1.
  rewrite (proj2 (Z.eqb_neq o 0)), (proj2 (Z.ltb_ge o start)), (proj2 (Z.ltb_ge end_ o)),
    (proj2 (Z.ltb_ge o (lower + best * Minute))), Ha by (unfold Minute in *; lia). cbn [orb negb].
  left. exists o. split; [done|]. split; [done|]. split; [unfold Minute in *; lia|].
  intros o' Ho' Hle'. destruct (Z.le_gt_cases o' o) as [|Hgt]; [done|]. exfalso.
  destruct (Hminute o' Ho') as (m & Hm & Heq & Hup); [unfold Minute in *; lia|].
  apply (Hbeyond m); [unfold Minute in *; lia|]. exists o'. split; [done|]. lia.
Qed.

(** [latestOccurrence] is right and total: for any cron schedule and any window of
    at most 292 years it returns the last occurrence of the inclusive window, or
    reports that the window has none; it never fails and evaluates the schedule a
    logarithmic number of times. *)
Theorem latest_occurrence_is_the_last_in_window O next start end_ :
  cron_spec O next -> 0 < start -> start <= end_ -> end_ - start <= MaxInt64 ->
  (exists o, latestOccurrence next start end_ = Ok (Some o) /\ O o /\ start <= o <= end_ /\
     forall o', O o' -> o' <= end_ -> o' <= o) \/
  (latestOccurrence next start end_ = Ok None /\ forall o, O o -> ~ (start <= o <= end_)).
Proof. exact (latestOccurrence_spec O next start end_). Qed.

(** ** Materialization *)

Lemma latestOccurrence_window next start end_ o :
  latestOccurrence next start end_ = Ok (Some o) ->
  start <= o <= end_ /\ o <> 0 /\ aligned o Minute = true.
Proof.
  unfold latestOccurrence. intros Hl. destruct (_ || _ || _) eqn:Hg in Hl; [done|].
  destruct (After _ (Truncate end_ Minute)); [done|]. destruct (search _ _ _ _ _ _ _) as [best|]; [|done].
  destruct (best <? 0); [done|].
  match type of Hl with (if ?g then _ else _) = _ => destruct g eqn:Hv; [done|] end.
  injection Hl as <-. unfold IsZero, zeroTime, Before, After in Hv. bool_to_prop. done.
Qed.

Lemma nextAfter_gt next now n : nextAfter next now = Ok n -> now < n /\ n = next now.
Proof.
  unfold nextAfter, After. destruct (_ || _ || _) eqn:Hg; [done|]. intros [= <-]. bool_to_prop. done.
Qed.

Lemma window_start_ge d stored now : nextRunAt stored <= window_start d stored now.
Proof. unfold window_start, After, Add. destruct (Z.ltb_spec (now + - sd_misfireGrace d) (nextRunAt stored)); lia. Qed.

Section materialization.
Context {Q : Type}.
Variable E : env.
Variable d : ScheduleDefinition.
Variable dispatch : time -> M Q DispatchResult.

Implicit Types db : schedDb Q.

Lemma sql_Ok {A} format (body : time -> nat -> schedDb Q -> result (A * schedDb Q)) db a db' :
  sql E format body db = (Ok a, db') ->
  exists db1, body (clock E (sched_tick db)) (sched_tick db) db = Ok (a, db1) /\ db' = tx_bump db1.
Proof.
  unfold sql. destruct (fault E _); [done|].
  destruct (body _ _ _) as [[b db1]|]; [|done]. intros [= <- <-]. eauto.
Qed.

Lemma advance_Ok name stored next now occ jid outcome db db' :
  advance E name stored next now occ jid outcome db = (Ok tt, db') ->
  exists row, schedules db !! name = Some row /\ nextRunAt row = nextRunAt stored /\
    schedules db' = <[name := advanced next now occ jid outcome row]> (schedules db) /\
    sched_queue db' = sched_queue db.
Proof.
  unfold advance, bindM. intros Ha.
  destruct (sql E _ _ db) as [[[]|] db1] eqn:Hs in Ha; [|done..]. unfold ret in Ha. simplify_eq.
  apply sql_Ok in Hs as (db2 & Hb & ->). destruct (schedules db !! name) as [row|]; [|done].
  destruct (_ && _) eqn:Hm in Hb; [|done]. destruct (schedule_check _ _); [|done].
  injection Hb as <-. unfold TimeEqual in Hm. bool_to_prop. exists row. done.
Qed.

(** The ways an evaluation succeeds. *)
Inductive evaluated (stored : durableSchedule) (db : schedDb Q) : Result -> schedDb Q -> Prop :=
| eval_not_due db' :
    clock E (sched_tick db) < nextRunAt stored ->
    schedules db' = schedules db -> sched_queue db' = sched_queue db ->
    evaluated stored db (result_of d OutcomeNotDue) db'
| eval_misfire db' row next (now := clock E (sched_tick db)) :
    nextRunAt stored <= now -> nextAfter (sd_next d) now = Ok next ->
    latestOccurrence (sd_next d) (window_start d stored now) now = Ok None ->
    schedules db !! sd_name d = Some row -> nextRunAt row = nextRunAt stored ->
    schedules db' = <[sd_name d := advanced next now None None OutcomeMisfireSkipped row]> (schedules db) ->
    sched_queue db' = sched_queue db ->
    evaluated stored db (result_of d OutcomeMisfireSkipped) db'
| eval_dispatch db' row next o sent q outcome (now := clock E (sched_tick db)) :
    nextRunAt stored <= now -> nextAfter (sd_next d) now = Ok next ->
    latestOccurrence (sd_next d) (window_start d stored now) now = Ok (Some o) ->
    dispatch o (sched_queue db) = (Ok sent, q) -> dr_ID sent <> EmptyString ->
    outcome = (if dr_Enqueued sent then OutcomeEnqueued else OutcomeOverlapSuppressed) ->
    schedules db !! sd_name d = Some row -> nextRunAt row = nextRunAt stored ->
    schedules db' = <[sd_name d := advanced next now (Some o) (Some (dr_ID sent)) outcome row]> (schedules db) ->
    sched_queue db' = q ->
    evaluated stored db {| res_Name := sd_name d; res_Outcome := outcome; res_ScheduledAt := o;
                           res_JobID := dr_ID sent |} db'.

Lemma evaluate_Ok stored db r db' :
  evaluate E d dispatch stored db = (Ok r, db') -> matches d stored = None /\ evaluated stored db r db'.
Proof.
  unfold evaluate. destruct (matches d stored); [done|]. unfold bindM at 1. intros He. split; [done|].
  destruct (databaseClock E db) as [[now|] db1] eqn:Hc; [|done].
  apply sql_Ok in Hc as (db2 & Hc & ->). injection Hc as <- <-.
  unfold After in He. destruct (Z.ltb_spec (clock E (sched_tick db)) (nextRunAt stored)).
  { unfold ret in He. simplify_eq. by constructor. }
  destruct (nextAfter _ _) as [next|] eqn:Hn; [|done].
  destruct (latestOccurrence _ _ _) as [[o|]|] eqn:Hl; [| |done].
  - unfold bindM, wrapM, on_queue in He. cbn in He.
    destruct (dispatch o (sched_queue db)) as [[sent|] q] eqn:Hd; [|done].
    destruct (_ || _) eqn:Hg in He; [done|].
    destruct (advance E _ _ _ _ _ _ _ _) as [[[]|] db3] eqn:Ha in He; [|done]. unfold ret in He. simplify_eq.
    apply advance_Ok in Ha as (row & Hr & Hcur & Hs & Hq). bool_to_prop.
    by eapply eval_dispatch.
  - unfold bindM in He. destruct (advance E _ _ _ _ _ _ _ _) as [[[]|] db3] eqn:Ha in He; [|done].
    unfold ret in He. simplify_eq. apply advance_Ok in Ha as (row & Hr & Hcur & Hs & Hq).
    by eapply eval_misfire.
Qed.

(** The ways a whole transaction's work succeeds. *)
Lemma materialize_work_Ok db r db' :
  materialize_work E d dispatch db = (Ok r, db') ->
  (r = result_of d OutcomeContended /\ sched_queue db' = sched_queue db /\
   (schedules db' = schedules db \/
    exists row, schedules db !! sd_name d = None /\
      schedules db' = <[sd_name d := row]> (schedules db))) \/
  (exists stored db1, sched_queue db1 = sched_queue db /\ schedules db1 !! sd_name d = Some stored /\
     (schedules db1 = schedules db \/
      (schedules db !! sd_name d = None /\ schedules db1 = <[sd_name d := stored]> (schedules db))) /\
     matches d stored = None /\ evaluated stored db1 r db').
Proof.
  unfold materialize_work, bindM at 1. intros Hw.
  destruct (lock E _ db) as [[found|] db1] eqn:Hl; [|done].
  apply sql_Ok in Hl as (x & Hl & ->). injection Hl as Hf <-.
  destruct found as [stored|].
  { case_bool_decide; [done|]. apply evaluate_Ok in Hw as [Hm He]. right.
    exists stored, (tx_bump db). split; [done|]. split; [done|]. split; [by left|]. done. }
  unfold bindM at 1 in Hw. destruct (exists_ E _ _) as [[[]|] db2] eqn:Hx in Hw; [| |done];
    apply sql_Ok in Hx as (x & Hx & ->); injection Hx as Hp <-.
  { unfold ret in Hw. simplify_eq. left. auto. }
  assert (Hnone : schedules db !! sd_name d = None) by (cbn in Hp; by destruct (schedules db !! sd_name d)).
  unfold bindM at 1 in Hw. destruct (initialize E d _) as [[[]|] db3] eqn:Hi in Hw; [|done].
  unfold initialize, bindM in Hi.
  destruct (databaseClock E _) as [[now|] db4] eqn:Hc in Hi; [|done].
  apply sql_Ok in Hc as (x & Hc & ->). injection Hc as _ <-.
  destruct (initial_cursor (sd_next d) now) as [cursor|]; [|done].
  apply sql_Ok in Hi as (x & Hi & ->). destruct (schedule_check _ _); [|done]. cbn in Hi.
  rewrite Hnone in Hi. injection Hi as <-.
  unfold bindM in Hw. destruct (lock E _ _) as [[found2|] db5] eqn:Hl2 in Hw; [|done].
  apply sql_Ok in Hl2 as (x & Hl2 & ->). injection Hl2 as Hf2 <-. cbn in Hf2.
  destruct found2 as [stored|].
  - case_bool_decide; [done|]. rewrite lookup_insert_eq in Hf2. injection Hf2 as <-.
    apply evaluate_Ok in Hw as [Hm He]. right. eexists _, _. split; [|split; [|split; [|split; [exact Hm|exact He]]]].
    + done.
    + cbn. apply lookup_insert_eq.
    + right. done.
  - unfold ret in Hw. simplify_eq. left. cbn. eauto 6.
Qed.

Lemma Materialize_Ok ctx db r db' :
  Materialize E ctx d dispatch db = (Ok r, db') ->
  exists db1, materialize_work E d dispatch (tx_bump db) = (Ok r, db1) /\ db' = tx_bump db1.
Proof.
  unfold Materialize. destruct (validateDefinition d); [done|]. destruct ctx; [done|].
  apply transact_Ok.
Qed.

(** Materialization is atomic: when it reports an error (a failed statement, a
    refused dispatch, a lost cursor race) and no commit reply was lost, neither the
    schedule's row nor the job queue has changed. *)
Theorem failed_materialization_changes_nothing ctx db e db' :
  (forall n, lostReply E n = None) ->
  Materialize E ctx d dispatch db = (Err e, db') ->
  schedules db' = schedules db /\ sched_queue db' = sched_queue db.
Proof.
  intros Hlost. unfold Materialize. destruct (validateDefinition d); [by intros [= <- <-]|].
  destruct ctx; [by intros [= <- <-]|]. intros HT.
  apply transact_Err in HT as [->|[(st1 & ->)|(a & st1 & lost & _ & _ & Hl)]]; [done|done|].
  by rewrite Hlost in Hl.
Qed.

(** The store keeps its promise to the scheduler: every result [Materialize]
    returns passes the scheduler's own validation. *)
Theorem materialize_results_are_valid ctx db r db' :
  Materialize E ctx d dispatch db = (Ok r, db') -> validateResult d r = None.
Proof.
  intros HM. apply Materialize_Ok in HM as (db1 & Hw & _).
  apply materialize_work_Ok in Hw as [(-> & _)|(stored & db2 & _ & _ & _ & _ & He)].
  { unfold validateResult. cbn. by rewrite bool_decide_eq_true_2. }
  destruct He as [| |? ? ? o sent ? outcome ? ? ? Hl ? Hid ->].
  - unfold validateResult. cbn. by rewrite bool_decide_eq_true_2.
  - unfold validateResult. cbn. by rewrite bool_decide_eq_true_2.
  - apply latestOccurrence_window in Hl as (_ & Hnz & Ha).
    unfold validateResult. cbn [res_Name res_Outcome res_JobID res_ScheduledAt].
    rewrite bool_decide_eq_true_2 by done. cbn [negb].
    destruct (dr_Enqueued sent); rewrite bool_decide_eq_false_2 by done;
      unfold IsZero, zeroTime; rewrite (proj2 (Z.eqb_neq o 0) Hnz), Ha; done.
Qed.

(** What a materialization that was due does: it dispatches once, for the last
    occurrence between the stored cursor (but no earlier than the misfire grace
    allows) and now; or, when that window has none, it skips; and in both cases the
    cursor moves to the first occurrence after now. *)
Theorem due_schedule_dispatches_its_last_occurrence O ctx db r db' stored :
  cron_spec O (sd_next d) -> 0 < sd_misfireGrace d <= 365 * 24 * Hour ->
  schedules db !! sd_name d = Some stored -> 0 < nextRunAt stored ->
  Materialize E ctx d dispatch db = (Ok r, db') ->
  res_Outcome r <> OutcomeContended -> res_Outcome r <> OutcomeNotDue ->
  exists now row', nextRunAt stored <= now /\ schedules db' !! sd_name d = Some row' /\
    O (nextRunAt row') /\ now < nextRunAt row' /\
    (forall o, O o -> now < o -> nextRunAt row' <= o) /\
    ((res_Outcome r = OutcomeMisfireSkipped /\ sched_queue db' = sched_queue db /\
      forall o, O o -> ~ (Z.max (nextRunAt stored) (now - sd_misfireGrace d) <= o <= now)) \/
     (exists sent, dispatch (res_ScheduledAt r) (sched_queue db) = (Ok sent, sched_queue db') /\
        res_JobID r = dr_ID sent /\ O (res_ScheduledAt r) /\
        Z.max (nextRunAt stored) (now - sd_misfireGrace d) <= res_ScheduledAt r <= now /\
        forall o, O o -> o <= now -> o <= res_ScheduledAt r)).
Proof.
  intros Hspec Hgrace Hst Hpos HM Hnc Hnd. apply Materialize_Ok in HM as (db1 & Hw & ->).
  apply materialize_work_Ok in Hw as [(-> & _)|(stored' & db2 & Hq & Hs2 & Hor & _ & He)]; [done|].
  assert (stored' = stored /\ schedules db2 = schedules db) as [-> Hsame].
  { cbn in Hor. destruct Hor as [Heq|[Hn _]]; [|congruence].
    split; [|done]. rewrite Heq, Hst in Hs2. congruence. }
  set (now := clock E (sched_tick db2)).
  assert (Hwin : window_start d stored now = Z.max (nextRunAt stored) (now - sd_misfireGrace d)).
  { unfold window_start, After, Add. destruct (Z.ltb_spec (now + - sd_misfireGrace d) (nextRunAt stored)); lia. }
  assert (Hnext : forall next, nextAfter (sd_next d) now = Ok next ->
            O next /\ now < next /\ (forall o, O o -> now < o -> next <= o)).
  { intros next Hn. unfold nextAfter, IsZero, zeroTime in Hn.
    destruct (_ || _ || _) eqn:Hg in Hn; [done|]. injection Hn as <-. bool_to_prop.
    destruct (proj2 Hspec now) as [[? _]|(Ho & Hlt & Hmin)]; [done|]. auto. }
  assert (Hlast : nextRunAt stored <= now ->
    let w := Z.max (nextRunAt stored) (now - sd_misfireGrace d) in
    (exists o, latestOccurrence (sd_next d) w now = Ok (Some o) /\ O o /\ w <= o <= now /\
       forall o', O o' -> o' <= now -> o' <= o) \/
    (latestOccurrence (sd_next d) w now = Ok None /\ forall o, O o -> ~ (w <= o <= now))).
  { intros Hdue w. assert (Hl := latestOccurrence_spec O (sd_next d) w now Hspec).
    apply Hl; unfold w, MaxInt64, Hour in *; lia. }
  destruct He as [|db3 row next now' Hdue Hn Hl Hr Hcur Hs Hq3
                 |db3 row next o sent q outcome now' Hdue Hn Hl Hd Hid Hout Hr Hcur Hs Hq3]; [done| |];
    fold now in now'; subst now'; destruct (Hnext _ Hn) as (H1 & H2 & H3); rewrite Hwin in Hl;
    exists now; eexists; (split; [done|]); (split; [cbn; rewrite Hs; apply lookup_insert_eq|]); cbn;
    (split; [done|]); (split; [done|]); (split; [done|]).
  - left. split; [done|]. split; [rewrite Hq3, Hq; done|].
    destruct (Hlast Hdue) as [(o & Ho & _)|[_ Hno]]; [congruence|done].
  - right. exists sent. rewrite Hq3. rewrite Hq in Hd. split; [done|]. split; [done|].
    destruct (Hlast Hdue) as [(o' & Ho' & HO & Hw & Hmax)|[Hno _]]; [|congruence].
    assert (o' = o) as -> by congruence. done.
Qed.
End materialization.

(** ** Across many runs *)

(** A dispatch that records the occurrences it is called for, and answers anything. *)
Definition recording (answer : time -> result DispatchResult) (o : time) : M (list time) DispatchResult :=
  fun log => (answer o, log ++ [o]).

Section runs.
Variable E : env.
Variable d : ScheduleDefinition.
Variable answer : time -> result DispatchResult.

(** Scheduler processes take turns, each with its own context. *)
Definition runs (ctxs : list (option error)) (db : schedDb (list time)) : schedDb (list time) :=
  foldl (fun db ctx => (Materialize E ctx d (recording answer) db).2) db ctxs.

Definition log_inv (db : schedDb (list time)) : Prop :=
  StronglySorted Z.lt (sched_queue db) /\
  match schedules db !! sd_name d with
  | Some row => Forall (fun o => o < nextRunAt row) (sched_queue db)
  | None => sched_queue db = []
  end.

Lemma log_inv_same db db' :
  schedules db' = schedules db -> sched_queue db' = sched_queue db -> log_inv db -> log_inv db'.
Proof. unfold log_inv. intros -> ->. done. Qed.

Lemma log_inv_snoc log o cursor :
  StronglySorted Z.lt log -> Forall (fun x => x < cursor) log -> cursor <= o ->
  StronglySorted Z.lt (log ++ [o]).
Proof.
  intros Hs Hf Ho. apply StronglySorted_app. split; [|split; [done|repeat constructor]].
  intros x y Hx Hy. apply list_elem_of_singleton in Hy as ->.
  rewrite Forall_forall in Hf. specialize (Hf x Hx). lia.
Qed.

Lemma evaluated_log stored db r db' :
  evaluated E d (recording answer) stored db r db' ->
  schedules db !! sd_name d = Some stored -> log_inv db -> log_inv db'.
Proof.
  intros He Hst [Hs Hf]. rewrite Hst in Hf.
  destruct He as [db' _ H1 H2|db' row next now Hdue Hn Hl Hr Hcur H1 H2
                 |db' row next o sent q outcome now Hdue Hn Hl Hd Hid Hout Hr Hcur H1 H2].
  - apply (log_inv_same db); [done|done|]. split; [done|]. by rewrite Hst.
  - unfold log_inv. rewrite H1, H2, lookup_insert_eq. split; [done|]. cbn.
    apply nextAfter_gt in Hn as [Hn _]. eapply Forall_impl; [exact Hf|]. cbn. intros x Hx. lia.
  - unfold log_inv. rewrite H1, H2, lookup_insert_eq. unfold recording in Hd. injection Hd as _ <-.
    apply nextAfter_gt in Hn as [Hn _]. apply latestOccurrence_window in Hl as ([Hlo Hhi] & _).
    pose proof (window_start_ge d stored now). fold now in Hn. split.
    + eapply log_inv_snoc; [done|exact Hf|lia].
    + cbn. apply Forall_app. split; [|constructor; [lia|done]].
      eapply Forall_impl; [exact Hf|]. cbn. intros x Hx. lia.
Qed.

Lemma materialize_work_log db r db' :
  materialize_work E d (recording answer) db = (Ok r, db') -> log_inv db -> log_inv db'.
Proof.
  intros Hw Hi. pose proof Hi as [Hs Hf].
  apply materialize_work_Ok in Hw as [(_ & Hq & Hor)|(stored & db1 & Hq & Hst & Hor & _ & He)].
  - destruct Hor as [Heq|(row & Hnone & Heq)]; [by apply (log_inv_same db)|].
    unfold log_inv. rewrite Hq, Heq, lookup_insert_eq. rewrite Hnone in Hf. rewrite Hf. split; constructor.
  - eapply evaluated_log; [exact He|done|]. destruct Hor as [Heq|(Hnone & Heq)]; [by apply (log_inv_same db)|].
    unfold log_inv. rewrite Hq, Hst. rewrite Hnone in Hf. rewrite Hf. split; constructor.
Qed.

Lemma Materialize_log ctx db : log_inv db -> log_inv (Materialize E ctx d (recording answer) db).2.
Proof.
  intros Hi. unfold Materialize. destruct (validateDefinition d); [done|]. destruct ctx; [done|].
  destruct (Transaction E _ db) as [[r|e] db'] eqn:HT; cbn.
  - apply transact_Ok in HT as (db1 & Hw & ->). apply materialize_work_log in Hw; [|done]. done.
  - apply transact_Err in HT as [->|[(st1 & ->)|(a & db1 & lost & Hw & -> & _)]]; [done|done|].
    apply materialize_work_log in Hw; [|done]. done.
Qed.

(** C2. No occurrence is dispatched twice and none out of order: over any number of
    scheduler runs against one database, under any clock, contention, statement
    failure or lost commit reply, the occurrences whose dispatch was committed are
    strictly increasing. *)
Theorem no_occurrence_is_dispatched_twice ctxs :
  StronglySorted Z.lt
    (sched_queue (runs ctxs {| schedules := ∅; sched_queue := []; sched_tick := 0 |})).
Proof.
  assert (Hgen : forall ctxs db, log_inv db -> log_inv (runs ctxs db)).
  { clear. induction ctxs as [|ctx ctxs IH]; intros db Hi; [done|]. cbn. by apply IH, Materialize_log. }
  apply (Hgen ctxs). split; [constructor|]. cbn. by rewrite lookup_empty.
Qed.
End runs.

(** Drift fails closed: if the stored row was written by a different definition
    (another fingerprint, expression, zone, job, queue or grace), materialization
    reports [ErrDefinitionConflict] and neither dispatches nor touches the row. *)
Theorem drifted_definition_is_refused {Q} E (d : ScheduleDefinition) (dispatch : time -> M Q DispatchResult)
    db stored err :
  validateDefinition d = None -> schedules db !! sd_name d = Some stored ->
  matches d stored = Some err ->
  (forall n, fault E n = None) -> (forall n, locked E n = ∅) ->
  exists db', Materialize E None d dispatch db = (Err err, db') /\
    errors_Is err ErrDefinitionConflict = true /\
    schedules db' = schedules db /\ sched_queue db' = sched_queue db.
Proof.
  intros Hv Hst Hm Hf Hl. eexists. unfold Materialize. rewrite Hv.
  unfold Transaction, transact, materialize_work, bindM, lock, sql. rewrite !Hf. cbn.
  rewrite Hl, bool_decide_eq_false_2 by set_solver. rewrite Hst. cbn.
  unfold evaluate. rewrite Hm. cbn. rewrite Hf. split; [done|]. split; [|done].
  unfold matches in Hm. destruct (_ || _); [|done]. injection Hm as <-. done.
Qed.

(** ** Sundays *)

(** A weekday item that reaches 7 is spelled out as exactly the days it names, with
    7 written as 0: for every start, step and day the list contains the day if and
    only if some multiple of the step from the start lands on it. *)
Theorem sunday_items_name_the_same_days start step day :
  0 <= start <= 7 -> 1 <= step <= MaxInt64 - 7 ->
  In day (sunday_values sunday_fuel start 7 step) <->
  exists k, 0 <= k /\ start + k * step <= 7 /\ day = (start + k * step) mod 7.
Proof.
  intros Hs Hstep.
  assert (Hgen : forall fuel c, 0 <= c <= 7 + step -> 8 - c <= Z.of_nat fuel ->
    In day (sunday_values fuel c 7 step) <-> exists k, 0 <= k /\ c + k * step <= 7 /\ day = (c + k * step) mod 7).
  { induction fuel as [|fuel IH]; intros c Hc Hfuel.
    { cbn. split; [done|]. intros (k & Hk & Hle & _). nia. }
    cbn [sunday_values]. destruct (Z.leb_spec c 7) as [Hle|Hgt].
    2: { split; [done|]. intros (k & Hk & Hle & _). nia. }
    destruct (Z.eqb_spec c 7) as [->|Hne].
    { split.
      - intros [<-|[]]. exists 0. done.
      - intros (k & Hk & Hle' & ->). assert (k = 0) as -> by nia. by left. }
    rewrite wrap64_id by (unfold in_int64, MinInt64, MaxInt64 in *; lia).
    cbn [In]. rewrite IH by lia. split.
    - intros [<-|(k & Hk & Hk2 & ->)].
      + exists 0. split; [lia|]. split; [lia|]. rewrite Z.mod_small; lia.
      + exists (k + 1). split; [lia|]. split; [lia|]. f_equal. lia.
    - intros (k & Hk & Hk2 & ->). destruct (decide (k = 0)) as [->|Hk0].
      + left. rewrite Z.mod_small; lia.
      + right. exists (k - 1). split; [lia|]. split; [lia|]. f_equal. lia. }
  apply Hgen; [lia|]. unfold sunday_fuel. lia.
Qed.

(** ** Instances *)

Module ScheduleSample.
(** Every five minutes. *)
Definition five : duration := 5 * Minute.
Definition next (t : time) : time := if t <? 0 then five else (t / five + 1) * five.
Definition O (o : time) : Prop := 0 < o /\ o mod five = 0.

Lemma next_spec : cron_spec O next.
Proof.
  split.
  - intros o [Hp Hm]. split; [done|]. unfold five, Minute in *. Z.div_mod_to_equations; lia.
  - intros t. right. unfold next, O. destruct (Z.ltb_spec t 0).
    + split; [done|]. split; [unfold five, Minute; lia|]. intros o [Hp Hm] Hlt.
      unfold five, Minute in *. Z.div_mod_to_equations; lia.
    + rewrite Z.mod_mul by done.
      split; [split; [|done]; unfold five, Minute; Z.div_mod_to_equations; lia|].
      split; [unfold five, Minute; Z.div_mod_to_equations; lia|].
      intros o [Hp Hm] Hlt. unfold five, Minute in *. Z.div_mod_to_equations; lia.
Qed.

Definition hex64 (c : ascii) : string := Nat.iter 64 (String c) EmptyString.
Definition target : Definition_ :=
  {| def_name := "report.build.v1";
     def_policy := {| p_Queue := "default"; p_MaxAttempts := 3; p_Timeout := Minute;
                      p_Backoff := [Second] |} |}.
Definition definition (fp : ascii) : ScheduleDefinition :=
  {| sd_name := "report.every-five.v1"; sd_expression := "*/5 * * * *"; sd_next := next;
     sd_timeZone := "UTC"; sd_misfireGrace := 15 * Minute; sd_target := target;
     sd_factory := StaticFactory "{}"; sd_fingerprint := hex64 fp |}.
Definition d : ScheduleDefinition := definition "a".

(** The clock advances four minutes per statement from minute 100. *)
Definition E : env :=
  {| clock := fun n => (100 + 4 * Z.of_nat n) * Minute; fault := fun _ => None;
     locked := fun _ => ∅; ctxErr := fun _ => None; lostReply := fun _ => None |}.
Definition accept (o : time) : result DispatchResult := Ok {| dr_ID := "j"; dr_Enqueued := true |}.
Definition refuse (o : time) : result DispatchResult := Err (Errorf "queue unavailable").
Definition row : durableSchedule := initial_row d (60 * Minute) Minute.
Definition due : schedDb (list time) :=
  {| schedules := {["report.every-five.v1" := row]}; sched_queue := []; sched_tick := 0 |}.

(** A calendar in which every expression means every five minutes. *)
Definition cal : calendar unit :=
  {| cron_parse := fun _ => Ok (fun _ => next); utc := tt; LoadLocation := fun _ => Ok tt;
     local_year := fun _ _ => 2000; year_start := fun _ y => y * 365 * 24 * Hour |}.
Definition digest (_ : fingerprintInput) : result string := Ok (hex64 "a").
Definition numbers (lo n : nat) : string := Join (Itoa <$> (Z.of_nat <$> seq lo n)) ",".
Definition everyMinute : string :=
  numbers 0 60 +:+ " " +:+ numbers 0 24 +:+ " " +:+ numbers 1 31 +:+ " * *".
End ScheduleSample.

Lemma latest_occurrence_is_the_last_in_window_witness :
  exists o, latestOccurrence ScheduleSample.next (61 * Minute + 1) (79 * Minute) = Ok (Some o) /\
    o = 75 * Minute.
Proof.
  destruct (latest_occurrence_is_the_last_in_window ScheduleSample.O ScheduleSample.next
              (61 * Minute + 1) (79 * Minute) ScheduleSample.next_spec) as [(o & Ho & _)|[Hn _]].
  - vm_compute. reflexivity.
  - vm_compute. discriminate.
  - vm_compute. discriminate.
  - exists o. split; [exact Ho|]. vm_compute in Ho. injection Ho as <-. reflexivity.
  - vm_compute in Hn. discriminate.
Defined.

Lemma failed_materialization_changes_nothing_witness :
  exists e db', Materialize ScheduleSample.E None ScheduleSample.d
      (recording ScheduleSample.refuse) ScheduleSample.due = (Err e, db') /\
    schedules db' = schedules ScheduleSample.due /\ sched_queue db' = [].
Proof.
  destruct (Materialize ScheduleSample.E None ScheduleSample.d
              (recording ScheduleSample.refuse) ScheduleSample.due) as [[r|e] db'] eqn:HM;
    [vm_compute in HM; discriminate|].
  exists e, db'. split; [reflexivity|].
  apply (failed_materialization_changes_nothing ScheduleSample.E ScheduleSample.d
           (recording ScheduleSample.refuse) None ScheduleSample.due e db').
  - intros n. reflexivity.
  - exact HM.
Defined.

Lemma materialize_results_are_valid_witness :
  exists r db', Materialize ScheduleSample.E None ScheduleSample.d
      (recording ScheduleSample.accept) ScheduleSample.due = (Ok r, db') /\
    res_Outcome r = OutcomeEnqueued /\ validateResult ScheduleSample.d r = None.
Proof.
  destruct (Materialize ScheduleSample.E None ScheduleSample.d
              (recording ScheduleSample.accept) ScheduleSample.due) as [[r|e] db'] eqn:HM;
    [|vm_compute in HM; discriminate].
  exists r, db'. split; [reflexivity|]. split.
  - vm_compute in HM. injection HM as <- <-. reflexivity.
  - apply (materialize_results_are_valid ScheduleSample.E ScheduleSample.d
             (recording ScheduleSample.accept) None ScheduleSample.due r db' HM).
Defined.

Lemma due_schedule_dispatches_its_last_occurrence_witness :
  exists r db' row' now, Materialize ScheduleSample.E None ScheduleSample.d
      (recording ScheduleSample.accept) ScheduleSample.due = (Ok r, db') /\
    schedules db' !! "report.every-five.v1" = Some row' /\ now < nextRunAt row' /\
    res_ScheduledAt r = 105 * Minute.
Proof.
  destruct (Materialize ScheduleSample.E None ScheduleSample.d
              (recording ScheduleSample.accept) ScheduleSample.due) as [[r|e] db'] eqn:HM;
    [|vm_compute in HM; discriminate].
  destruct (due_schedule_dispatches_its_last_occurrence ScheduleSample.E ScheduleSample.d
              (recording ScheduleSample.accept) ScheduleSample.O None ScheduleSample.due r db'
              ScheduleSample.row) as (now & row' & _ & Hrow & _ & Hlt & _).
  - exact ScheduleSample.next_spec.
  - vm_compute. split; [reflexivity|discriminate].
  - reflexivity.
  - vm_compute. reflexivity.
  - exact HM.
  - vm_compute in HM. injection HM as <- <-. discriminate.
  - vm_compute in HM. injection HM as <- <-. discriminate.
  - exists r, db', row', now. split; [reflexivity|]. split; [exact Hrow|]. split; [exact Hlt|].
    vm_compute in HM. injection HM as <- <-. reflexivity.
Defined.

Lemma drifted_definition_is_refused_witness :
  exists err db', Materialize ScheduleSample.E None (ScheduleSample.definition "b")
      (recording ScheduleSample.accept) ScheduleSample.due = (Err err, db') /\
    errors_Is err ErrDefinitionConflict = true /\ sched_queue db' = [].
Proof.
  destruct (matches (ScheduleSample.definition "b") ScheduleSample.row) as [err|] eqn:Hm;
    [|vm_compute in Hm; discriminate].
  destruct (drifted_definition_is_refused ScheduleSample.E (ScheduleSample.definition "b")
              (recording ScheduleSample.accept) ScheduleSample.due ScheduleSample.row err)
    as (db' & HM & He & _ & Hq).
  - vm_compute. reflexivity.
  - reflexivity.
  - exact Hm.
  - intros n. reflexivity.
  - intros n. reflexivity.
  - exists err, db'. split; [exact HM|]. split; [exact He|exact Hq].
Defined.

Lemma sunday_items_name_the_same_days_witness :
  In 0 (sunday_values sunday_fuel 5 7 2) /\ ~ In 6 (sunday_values sunday_fuel 5 7 2).
Proof.
  split.
  - apply (sunday_items_name_the_same_days 5 2 0); try (vm_compute; split; discriminate).
    exists 1. vm_compute. repeat split; discriminate.
  - intros Hin. apply (sunday_items_name_the_same_days 5 2 6) in Hin;
      try (vm_compute; split; discriminate).
    destruct Hin as (k & Hk & Hle & Heq). assert (k = 0 \/ k = 1) as [-> | ->] by lia; discriminate.
Defined.

(** [Define] accepts expressions the store refuses: the canonical expression is bounded
    by 256 bytes only there, so the schedule is registered and every run fails. *)
Theorem defined_schedule_can_be_unstorable :
  exists d, DefineSchedule ScheduleSample.cal ScheduleSample.digest "report.all.v1"
      ScheduleSample.everyMinute ScheduleSample.target (Ok (StaticFactory "{}")) [] = Ok d /\
    256 < byte_len (sd_expression d) /\ is_Some (validateDefinition d).
Proof.
  assert (Hc : match DefineSchedule ScheduleSample.cal ScheduleSample.digest "report.all.v1"
                 ScheduleSample.everyMinute ScheduleSample.target (Ok (StaticFactory "{}")) [] with
               | Ok d => (256 <? byte_len (sd_expression d)) && isSome (validateDefinition d)
               | Err _ => false
               end = true) by (vm_compute; reflexivity).
  destruct (DefineSchedule _ _ _ _ _ _ _) as [d|]; [|done]. exists d. bool_to_prop.
  split; [done|]. split; [done|]. destruct (validateDefinition d); [eauto|done].
Qed.
