(* ===== verification/Migrate.v ===== *)
(** * Database migrations

    Package [database/migrate]: loading paired scripts, the ledger of applied
    migrations with its legacy upgrade, and [Up], [Down], [Status] and [Verify].

    What a script does to the application's schema is the SQL engine's business:
    [exec] of [engine].  So are the rollback of MySQL, which commits DDL implicitly,
    the SHA-256 digest and the RFC 3339 codec of [time]. *)

From S2P Require Import Prelude GoStrings GoRegexp Database.
Local Open Scope Z_scope.

Inductive Dialect : Type := Postgres | MySQL | SQLite | OtherDialect (name : string).

#[export] Instance Dialect_eq_dec : EqDecision Dialect.
Proof. solve_decision. Defined.

Record Migration : Type := { Version : string; mName : string; Up_ : string; Down_ : string }.

#[export] Instance Migration_eq_dec : EqDecision Migration.
Proof. solve_decision. Defined.

Definition ErrPendingMigration : error := Sentinel "migrate: pending migration".
Definition ErrMigrationDrift : error := Sentinel "migrate: migration drift".
Definition ErrInvalidMigrationSource : error := Sentinel "migrate: invalid migration source".
Definition ErrLedgerUpgradeRequired : error := Sentinel "migrate: ledger upgrade required".

(** ** Loading *)

(** A directory entry: name, whether it is a directory, and what reading it gives. *)
Record dirEntry : Type := { de_Name : string; de_IsDir : bool; de_contents : result string }.

Definition nameC : ascii -> bool := cls_or lowerC (cls_or upperC (cls_or digitC (oneof "_-"))).

(** Leading digits. *)
Fixpoint span_digits (s : string) : string * string :=
  match s with
  | String c s' => if digitC c then let '(d, rest) := span_digits s' in (String c d, rest)
                   else (EmptyString, s)
  | EmptyString => (EmptyString, EmptyString)
  end.

Inductive direction : Type := DirUp | DirDown.

(** [^([0-9]+)_([a-zA-Z0-9_-]+)\.(up|down)\.sql$]: version, name and direction. *)
Definition migrationName (file : string) : option (string * string * direction) :=
  let '(version, rest) := span_digits file in
  match rest with
  | String "_" rest' =>
      let strip suffix := if HasSuffix rest' suffix
        then Some (take_string (String.length rest' - String.length suffix) rest') else None in
      let check name dir :=
        if bool_decide (version = EmptyString) || bool_decide (name = EmptyString)
           || negb (all_chars nameC name) then None else Some (version, name, dir) in
      match strip ".up.sql" with
      | Some name => check name DirUp
      | None => match strip ".down.sql" with
                | Some name => check name DirDown
                | None => None
                end
      end
  | _ => None
  end.

(** Add one script to the migrations found so far. *)
Definition add_script (found : gmap string Migration) (version name : string) (dir : direction)
    (contents : result string) : result (gmap string Migration) :=
  match (match found !! version with
         | None => Ok {| Version := version; mName := name; Up_ := EmptyString; Down_ := EmptyString |}
         | Some m => if bool_decide (mName m = name) then Ok m
                     else Err (Wrapf "%w: migration version %s has inconsistent names"
                                 ErrInvalidMigrationSource)
         end) with
  | Err e => Err e
  | Ok m =>
      match contents with
      | Err e => Err e
      | Ok text =>
          Ok (<[version := match dir with
                | DirUp => {| Version := version; mName := name; Up_ := text; Down_ := Down_ m |}
                | DirDown => {| Version := version; mName := name; Up_ := Up_ m; Down_ := text |}
                end]> found)
      end
  end.

Fixpoint load_entries (entries : list dirEntry) (found : gmap string Migration)
    : result (gmap string Migration) :=
  match entries with
  | [] => Ok found
  | entry :: rest =>
      if de_IsDir entry then load_entries rest found
      else match migrationName (de_Name entry) with
           | None => load_entries rest found
           | Some (version, name, dir) =>
               match add_script found version name dir (de_contents entry) with
               | Err e => Err e
               | Ok found' => load_entries rest found'
               end
           end
  end.

Definition complete_pair (m : Migration) : bool :=
  negb (bool_decide (TrimSpace (Up_ m) = EmptyString))
  && negb (bool_decide (TrimSpace (Down_ m) = EmptyString)).

Definition version_le (a b : Migration) : Prop := Is_true (String.leb (Version a) (Version b)).

#[export] Instance version_le_dec : RelDecision version_le.
Proof. intros a b; unfold version_le; apply _. Defined.

Definition load (files : result (list dirEntry)) : result (list Migration) :=
  match files with
  | Err e => Err (Wrapf "read migrations: %w" e)
  | Ok entries =>
      match load_entries entries ∅ with
      | Err e => Err e
      | Ok found =>
          let migrations := snd <$> map_to_list found in
          if forallb complete_pair migrations
          then Ok (merge_sort version_le migrations)
          else Err (Wrapf "%w: migration %s must have both .up.sql and .down.sql files (missing or empty %s script)"
                      ErrInvalidMigrationSource)
      end
  end.

(** ** The ledger *)

Record ledgerRow : Type := {
  l_name : string;
  l_checksum : option string;
  l_applied_at : string
}.

Record ledger : Type := {
  hasChecksum : bool;
  checksumNullable : bool;
  ledger_rows : gmap string ledgerRow
}.

Section migrator.
Context {S : Type}.

(** The database: the application's schema and data, and the ledger table. *)
Record migDb : Type := {
  m_schema : S;
  m_ledger : option ledger;
  m_tick : nat
}.

Record engine : Type := {
  exec : string -> S -> result S;
  mysql_rollback : migDb -> migDb -> migDb;
  sha256hex : string -> string;
  format_time : time -> string;
  parse_time : string -> result time;
  wall_clock : nat -> time
}.

Record Migrator : Type := {
  DB_present : bool;
  Files : option (result (list dirEntry));
  dialect : Dialect;
  Table : string
}.

Variable E : env.
Variable engine_ : engine.
Variable migrator : Migrator.

#[export] Instance migDb_tx : Transactional migDb :=
  {| tx_tick := m_tick;
     tx_bump := fun db => {| m_schema := m_schema db; m_ledger := m_ledger db;
                             m_tick := Datatypes.S (m_tick db) |};
     tx_restore := fun before after =>
       match dialect migrator with
       | MySQL => mysql_rollback engine_ before after
       | _ => {| m_schema := m_schema before; m_ledger := m_ledger before; m_tick := m_tick after |}
       end |}.

Definition inTransaction {A} : M migDb A -> M migDb A :=
  transact E "begin migration transaction: %w" "commit migration transaction: %w"
    "rollback migration transaction: %w".

(** One statement: a failure leaves the database as it was. *)
Definition statement {A} (body : migDb -> result (A * migDb)) : M migDb A := fun db =>
  match fault E (m_tick db) with
  | Some e => (Err e, tx_bump db)
  | None => match body db with
            | Err e => (Err e, tx_bump db)
            | Ok (a, db') => (Ok a, tx_bump db')
            end
  end.

Definition with_ledger (l : ledger) (db : migDb) : migDb :=
  {| m_schema := m_schema db; m_ledger := Some l; m_tick := m_tick db |}.

Definition with_rows (rows : gmap string ledgerRow) (l : ledger) : ledger :=
  {| hasChecksum := hasChecksum l; checksumNullable := checksumNullable l; ledger_rows := rows |}.

Definition sql_error : error := Errorf "SQL error".

(** A statement on an existing ledger table. *)
Definition on_ledger {A} (body : ledger -> result (A * ledger)) : M migDb A :=
  statement (fun db =>
    match m_ledger db with
    | None => Err sql_error
    | Some l => match body l with
                | Err e => Err e
                | Ok (a, l') => Ok (a, with_ledger l' db)
                end
    end).

Definition tableName : re :=
  RCat (RChar (cls_or lowerC (cls_or upperC (oneof "_"))))
       (RStar (RChar (cls_or lowerC (cls_or upperC (cls_or digitC (oneof "_")))))).

Definition table : option error :=
  if bool_decide (Table migrator = EmptyString) then None
  else if re_match tableName (Table migrator) then None
  else Some (Errorf "migrate: unsafe table name %q").

Definition supported : bool :=
  match dialect migrator with OtherDialect _ => false | _ => true end.

Definition validate : option error :=
  if negb (DB_present migrator) || negb (bool_decide (is_Some (Files migrator)))
  then Some (Errorf "migrator requires DB and Files")
  else if negb supported then Some (Errorf "unsupported SQL dialect %q")
  else None.

(** [%x] of the up script's digest. *)
Definition checksum (m : Migration) : string := sha256hex engine_ (Up_ m).

(** Presence and nullability of the checksum column; a missing table has neither. *)
Definition columnState : M migDb (bool * bool) :=
  statement (fun db =>
    Ok (match m_ledger db with
        | None => (false, false)
        | Some l => (hasChecksum l, hasChecksum l && checksumNullable l)
        end, db)).

Record appliedMigration : Type := { a_Name : string; a_Checksum : option string; a_AppliedAt : time }.

Definition mysqlUpgradeMarker : string := "__goforge_checksum_upgrade__".

(** The rows of the scan; a row whose time does not parse fails it. *)
Fixpoint scan_applied (rows : list (string * ledgerRow)) (result_ : gmap string appliedMigration)
    : result (gmap string appliedMigration) :=
  match rows with
  | [] => Ok result_
  | (version, row) :: rest =>
      if bool_decide (dialect migrator = MySQL) && bool_decide (version = mysqlUpgradeMarker)
      then scan_applied rest result_
      else match parse_time engine_ (l_applied_at row) with
           | Err e => Err (Wrapf "parse applied time for migration %s: %w" e)
           | Ok at_ => scan_applied rest
               (<[version := {| a_Name := l_name row; a_Checksum := l_checksum row;
                                a_AppliedAt := at_ |}]> result_)
           end
  end.

Definition applied : M migDb (gmap string appliedMigration) :=
  match table with
  | Some e => throw e
  | None =>
      bindM (on_ledger (fun l => if hasChecksum l then Ok (ledger_rows l, l) else Err sql_error))
        (fun rows db => (scan_applied (map_to_list rows) ∅, db))
  end.

Definition by_version (migrations : list Migration) (version : string) : option Migration :=
  snd <$> list_find (fun m => Version m = version) migrations.

(** [UPDATE ... SET checksum ... WHERE version = ... AND checksum IS NULL] *)
Definition backfill (version expected : string) : M migDb unit :=
  bindM (wrapM "backfill checksum for migration %s: %w" (on_ledger (fun l =>
    match ledger_rows l !! version with
    | Some row =>
        match l_checksum row with
        | None => Ok (true, with_rows (<[version := {| l_name := l_name row;
                               l_checksum := Some expected; l_applied_at := l_applied_at row |}]>
                               (ledger_rows l)) l)
        | Some _ => Ok (false, l)
        end
    | None => Ok (false, l)
    end)))
  (fun affected =>
   if (affected : bool) then ret tt
   else throw (Errorf "backfill checksum for migration %s affected %d rows")).

Fixpoint verify_rows (migrations : list Migration) (rows : list (string * appliedMigration))
    (allowChecksumBackfill : bool) : M migDb unit :=
  match rows with
  | [] => ret tt
  | (version, recorded) :: rest =>
      match by_version migrations version with
      | None => throw (Wrapf "%w: applied migration %s is missing from the migration filesystem"
                         ErrMigrationDrift)
      | Some m =>
          if negb (bool_decide (a_Name recorded = mName m))
          then throw (Wrapf "%w: applied migration %s name mismatch: database has %q, filesystem has %q"
                        ErrMigrationDrift)
          else match a_Checksum recorded with
          | Some stored =>
              if bool_decide (stored = checksum m)
              then verify_rows migrations rest allowChecksumBackfill
              else throw (Wrapf "%w: applied migration %s checksum mismatch" ErrMigrationDrift)
          | None =>
              if negb allowChecksumBackfill
              then throw (Wrapf "%w: applied migration %s has no checksum; refusing to rebaseline"
                            ErrMigrationDrift)
              else bindM (backfill version (checksum m)) (fun _ =>
                   verify_rows migrations rest allowChecksumBackfill)
          end
      end
  end.

Definition verifyApplied (migrations : list Migration) (recorded : gmap string appliedMigration)
    (allowChecksumBackfill : bool) : M migDb unit :=
  match table with
  | Some e => throw e
  | None => verify_rows migrations (map_to_list recorded) allowChecksumBackfill
  end.

(** ** Upgrading a legacy ledger *)

Definition addNullableChecksum : M migDb unit :=
  wrapM "upgrade migrations table: %w" (on_ledger (fun l =>
    if hasChecksum l then Err sql_error
    else Ok (tt, {| hasChecksum := true; checksumNullable := true;
                    ledger_rows := (fun r => {| l_name := l_name r; l_checksum := None;
                                                l_applied_at := l_applied_at r |})
                                   <$> ledger_rows l |}))).

(** [ALTER ... SET NOT NULL], or the table copy of SQLite: a NULL checksum refuses it. *)
Definition enforceChecksumNotNull : M migDb unit :=
  wrapM "enforce migration checksum constraint: %w" (on_ledger (fun l =>
    if forallb (fun kv => bool_decide (is_Some (l_checksum kv.2))) (map_to_list (ledger_rows l))
    then Ok (tt, {| hasChecksum := true; checksumNullable := false; ledger_rows := ledger_rows l |})
    else Err sql_error)).

Definition mysqlUpgradeMarkerExists : M migDb bool :=
  wrapM "inspect MySQL checksum upgrade: %w" (on_ledger (fun l =>
    Ok (bool_decide (is_Some (ledger_rows l !! mysqlUpgradeMarker)), l))).

Definition removeMySQLUpgradeMarker : M migDb unit :=
  wrapM "finish MySQL checksum upgrade: %w" (on_ledger (fun l =>
    Ok (tt, with_rows (delete mysqlUpgradeMarker (ledger_rows l)) l))).

Definition insertMySQLUpgradeMarker : M migDb unit :=
  wrapM "record MySQL checksum upgrade: %w" (statement (fun db =>
    match m_ledger db with
    | None => Err sql_error
    | Some l =>
        match ledger_rows l !! mysqlUpgradeMarker with
        | Some _ => Err sql_error
        | None => Ok (tt, with_ledger (with_rows (<[mysqlUpgradeMarker :=
                       {| l_name := mysqlUpgradeMarker; l_checksum := None;
                          l_applied_at := format_time engine_ (wall_clock engine_ (m_tick db)) |}]>
                       (ledger_rows l)) l) db)
        end
    end)).

Definition advanceMySQLUpgradeMarker : M migDb unit :=
  wrapM "advance MySQL checksum upgrade: %w" (on_ledger (fun l =>
    Ok (tt, with_rows (alter (fun row => {| l_name := l_name row;
                                l_checksum := Some (sha256hex engine_ mysqlUpgradeMarker);
                                l_applied_at := l_applied_at row |})
                         mysqlUpgradeMarker (ledger_rows l)) l))).

(** MySQL: no transaction; a marker row makes the steps resumable. *)
Definition upgradeMySQLChecksums (migrations : list Migration) (hasColumn : bool) : M migDb unit :=
  bindM mysqlUpgradeMarkerExists (fun exists_ =>
  bindM (if (exists_ : bool) then ret tt else insertMySQLUpgradeMarker) (fun _ =>
  bindM (if hasColumn then ret tt else addNullableChecksum) (fun _ =>
  bindM applied (fun recorded =>
  bindM (verifyApplied migrations recorded true) (fun _ =>
  bindM advanceMySQLUpgradeMarker (fun _ =>
  bindM enforceChecksumNotNull (fun _ =>
  removeMySQLUpgradeMarker))))))).

Definition upgradeLegacyChecksums (migrations : list Migration) (hasColumn : bool) : M migDb unit :=
  match dialect migrator with
  | MySQL => upgradeMySQLChecksums migrations hasColumn
  | _ =>
      inTransaction
        (bindM (if hasColumn then ret tt else addNullableChecksum) (fun _ =>
         bindM applied (fun recorded =>
         bindM (verifyApplied migrations recorded true) (fun _ =>
         enforceChecksumNotNull))))
  end.

Definition createLedger : M migDb unit :=
  wrapM "prepare migrations table: %w" (statement (fun db =>
    Ok (tt, match m_ledger db with
            | Some _ => db
            | None => with_ledger {| hasChecksum := true; checksumNullable := false;
                                     ledger_rows := ∅ |} db
            end))).

Definition prepare (migrations : list Migration) : M migDb unit :=
  match validate with
  | Some e => throw e
  | None =>
  match table with
  | Some e => throw e
  | None =>
      bindM createLedger (fun _ =>
      bindM (wrapM "inspect migrations table: %w" columnState) (fun state =>
      let '(hasColumn, nullable) := state in
      if negb hasColumn || nullable then upgradeLegacyChecksums migrations hasColumn
      else if bool_decide (dialect migrator = MySQL) then removeMySQLUpgradeMarker
      else ret tt))
  end end.

(** ** Runs *)

(** A run reports what it completed even when it fails. *)
Definition R (B : Type) : Type := migDb -> (list B * option error) * migDb.

Definition lift {A B} (m : M migDb A) (k : A -> R B) : R B := fun db =>
  match m db with
  | (Err e, db') => (([], Some e), db')
  | (Ok a, db') => k a db'
  end.

(** The PostgreSQL advisory lock around a run; the other dialects run directly. *)
Definition withRunLock {B} (work : R B) : R B := fun db =>
  if negb (DB_present migrator) || negb (bool_decide (is_Some (Files migrator)))
  then (([], Some (Errorf "migrator requires DB and Files")), db)
  else
  match dialect migrator with
  | Postgres =>
      match fault E (m_tick db) with
      | Some e => (([], Some (Wrapf "reserve migration connection: %w" e)), tx_bump db)
      | None =>
          let db := tx_bump db in
          match fault E (m_tick db) with
          | Some e => (([], Some (Wrapf "acquire PostgreSQL migration lock: %w" e)), tx_bump db)
          | None =>
              let '((done_, err), db) := work (tx_bump db) in
              match fault E (m_tick db) with
              | None => ((done_, err), tx_bump db)
              | Some u =>
                  let unlock := Wrapf "release PostgreSQL migration lock: %w" u in
                  ((done_, Some (match err with Some e => Joined e unlock | None => unlock end)),
                   tx_bump db)
              end
          end
      end
  | _ => work db
  end.

(** The checks every operation starts with. *)
Definition checked {B} (k : list Migration -> gmap string appliedMigration -> R B) : R B :=
  withRunLock (fun db =>
    match load (default (Err (Errorf "nil Files")) (Files migrator)) with
    | Err e => (([], Some e), db)
    | Ok migrations =>
        lift (prepare migrations) (fun _ =>
        lift applied (fun recorded =>
        lift (verifyApplied migrations recorded false) (fun _ =>
        k migrations recorded))) db
    end).

(** [INSERT] of a ledger row, with the column widths of the table; SQLite does not
    enforce them.  Loaded versions and names are ASCII. *)
Definition insert_row (m : Migration) : M migDb unit :=
  statement (fun db =>
    match m_ledger db with
    | None => Err sql_error
    | Some l =>
        let row := {| l_name := mName m; l_checksum := Some (checksum m);
                      l_applied_at := format_time engine_ (wall_clock engine_ (m_tick db)) |} in
        if negb (bool_decide (dialect migrator = SQLite)) &&
           ((byte_len (Version m) >? 255) || (byte_len (mName m) >? 255)
            || (byte_len (checksum m) >? 64) || (byte_len (l_applied_at row) >? 35))
        then Err sql_error
        else match ledger_rows l !! Version m with
             | Some _ => Err sql_error
             | None => Ok (tt, with_ledger (with_rows (<[Version m := row]> (ledger_rows l)) l) db)
             end
    end).

Definition exec_script (format script : string) : M migDb unit :=
  wrapM format (statement (fun db =>
    match exec engine_ script (m_schema db) with
    | Err e => Err e
    | Ok s => Ok (tt, {| m_schema := s; m_ledger := m_ledger db; m_tick := m_tick db |})
    end)).

Definition apply_up (m : Migration) : M migDb unit :=
  inTransaction
    (bindM (exec_script "execute migration %s: %w" (Up_ m)) (fun _ =>
     wrapM "record migration %s: %w" (insert_row m))).

Fixpoint up_loop (migrations : list Migration) (recorded : gmap string appliedMigration)
    (limit : Z) (completed : list Migration) : R Migration := fun db =>
  match migrations with
  | [] => ((completed, None), db)
  | m :: rest =>
      if bool_decide (is_Some (recorded !! Version m)) then up_loop rest recorded limit completed db
      else if (limit >? 0) && (Z.of_nat (length completed) >=? limit) then ((completed, None), db)
      else if bool_decide (TrimSpace (Up_ m) = EmptyString)
      then ((completed, Some (Errorf "migration %s has an empty up script")), db)
      else match apply_up m db with
           | (Err e, db') => ((completed, Some e), db')
           | (Ok _, db') => up_loop rest recorded limit (completed ++ [m]) db'
           end
  end.

Definition Up (limit : Z) : R Migration :=
  checked (fun migrations recorded => up_loop migrations recorded limit []).

(** [SELECT version ... ORDER BY version DESC], the first [steps]; versions are digits,
    which every collation orders alike. *)
Definition version_ge (a b : string) : Prop := Is_true (String.leb b a).

#[export] Instance version_ge_dec : RelDecision version_ge.
Proof. intros a b; unfold version_ge; apply _. Defined.

Definition latest_versions (steps : Z) : M migDb (list string) :=
  wrapM "list applied migrations: %w" (on_ledger (fun l =>
    Ok (take (Z.to_nat steps) (merge_sort version_ge (fst <$> map_to_list (ledger_rows l))), l))).

Definition delete_row (version : string) : M migDb unit :=
  on_ledger (fun l => Ok (tt, with_rows (delete version (ledger_rows l)) l)).

Definition apply_down (m : Migration) : M migDb unit :=
  inTransaction
    (bindM (exec_script "rollback migration %s: %w" (Down_ m)) (fun _ => delete_row (Version m))).

Fixpoint down_loop (migrations : list Migration) (versions : list string)
    (completed : list Migration) : R Migration := fun db =>
  match versions with
  | [] => ((completed, None), db)
  | version :: rest =>
      match by_version migrations version with
      | None => ((completed, Some (Errorf "applied migration %s is missing from the migration filesystem")), db)
      | Some m =>
          if bool_decide (TrimSpace (Down_ m) = EmptyString)
          then ((completed, Some (Errorf "migration %s has an empty down script")), db)
          else match apply_down m db with
               | (Err e, db') => ((completed, Some e), db')
               | (Ok _, db') => down_loop migrations rest (completed ++ [m]) db'
               end
      end
  end.

Definition Down (steps : Z) : R Migration :=
  let steps := if steps <=? 0 then 1 else steps in
  checked (fun migrations _ =>
    lift (latest_versions steps) (fun versions => down_loop migrations versions [])).

Record Status_ : Type := { st_Migration : Migration; st_Applied : bool; st_AppliedAt : option time }.

Definition statuses (migrations : list Migration) (recorded : gmap string appliedMigration)
    : list Status_ :=
  (fun m => {| st_Migration := m; st_Applied := bool_decide (is_Some (recorded !! Version m));
               st_AppliedAt := a_AppliedAt <$> recorded !! Version m |}) <$> migrations.

Definition Status : R Status_ :=
  checked (fun migrations recorded db => ((statuses migrations recorded, None), db)).

(** ** [Verify] *)

Fixpoint first_pending (migrations : list Migration) (recorded : gmap string appliedMigration)
    : option error :=
  match migrations with
  | [] => None
  | m :: rest =>
      if bool_decide (is_Some (recorded !! Version m)) then first_pending rest recorded
      else Some (Wrapf "%w: migration %s is pending" ErrPendingMigration)
  end.

Definition Verify : M migDb unit :=
  match validate with
  | Some e => throw e
  | None =>
  match load (default (Err (Errorf "nil Files")) (Files migrator)) with
  | Err e => throw e
  | Ok migrations =>
  match table with
  | Some e => throw e
  | None =>
      bindM (wrapM "inspect migrations table: %w" columnState) (fun state =>
      let '(hasColumn, nullable) := state in
      if negb hasColumn || nullable
      then throw (Wrapf "%w: migration ledger requires an operational upgrade" ErrLedgerUpgradeRequired)
      else
      bindM applied (fun recorded =>
      bindM (verifyApplied migrations recorded false) (fun _ =>
      match first_pending migrations recorded with
      | Some e => throw e
      | None => ret tt
      end)))
  end end end.
End migrator.
Arguments migDb : clear implicits.
Arguments engine : clear implicits.
