(* ===== verification/MigrateProps.v ===== *)
(** * Properties of migrations

    [Verify] is a read-only decision procedure, [Up] applies a prefix of the pending
    migrations atomically, drift fails closed, and [Down] undoes [Up]. *)

From S2P Require Import Prelude GoStrings GoRegexp Database Migrate.
Local Open Scope Z_scope.

(** ** Loading *)

Definition keyed (found : gmap string Migration) : Prop :=
  forall v m, found !! v = Some m -> Version m = v.

Lemma add_script_keyed found version name dir contents found' :
  keyed found -> add_script found version name dir contents = Ok found' -> keyed found'.
Proof.
  unfold add_script. intros Hk. destruct (match found !! version with Some _ => _ | None => _ end) as [m|]; [|done].
  destruct contents as [text|]; [|done]. intros [= <-] v m'.
  destruct (decide (v = version)) as [->|Hne].
  - rewrite lookup_insert_eq. intros [= <-]. by destruct dir.
  - rewrite lookup_insert_ne by done. apply Hk.
Qed.

Lemma load_entries_keyed entries found found' :
  keyed found -> load_entries entries found = Ok found' -> keyed found'.
Proof.
  revert found. induction entries as [|entry rest IH]; intros found Hk; cbn; [by intros [= <-]|].
  destruct (de_IsDir entry); [by apply IH|].
  destruct (migrationName (de_Name entry)) as [[[version name] dir]|]; [|by apply IH].
  destruct (add_script _ _ _ _ _) eqn:Ha; [|done]. apply IH. by eapply add_script_keyed.
Qed.

Lemma keyed_versions found : keyed found -> Version <$> (snd <$> map_to_list found) = fst <$> map_to_list found.
Proof.
  intros Hk. rewrite <- list_fmap_compose. apply list_fmap_ext. intros i [v m] Hi. cbn.
  apply Hk, elem_of_map_to_list. by eapply list_elem_of_lookup_2.
Qed.

#[export] Instance version_le_trans : Transitive version_le.
Proof. intros a b c. unfold version_le. apply (transitivity (R := String.le)). Qed.

#[export] Instance version_le_total : Total version_le.
Proof. intros a b. apply (total String.le). Qed.

(** The migrations of a source are in version order, one per version, with both scripts. *)
Lemma load_sorted files migrations :
  load files = Ok migrations ->
  NoDup (Version <$> migrations) /\ StronglySorted String.le (Version <$> migrations) /\
  Forall (fun m => complete_pair m = true) migrations.
Proof.
  unfold load. destruct files as [entries|]; [|done]. destruct (load_entries entries ∅) as [found|] eqn:Hl; [|done].
  destruct (forallb _ _) eqn:Hp; [|done]. intros [= <-].
  apply load_entries_keyed in Hl; [|intros v m; by rewrite lookup_empty]. split; [|split].
  - rewrite merge_sort_Permutation, keyed_versions by done. apply NoDup_fst_map_to_list.
  - pose proof (StronglySorted_merge_sort version_le (snd <$> map_to_list found)) as Hs.
    induction Hs as [|m ms _ IH Hf]; cbn; constructor; [done|]. by apply Forall_fmap.
  - rewrite merge_sort_Permutation. apply Forall_forall. rewrite forallb_forall in Hp. intros m Hm.
    apply Hp. by apply list_elem_of_In.
Qed.

Section migrate_facts.
Context {S : Type}.
Variable E : env.
Variable eng : engine S.
Variable migrator : Migrator.

Notation applied := (applied E eng migrator).
Notation verifyApplied := (verifyApplied E eng migrator).
Notation Verify := (Verify E eng migrator).
Notation Up := (Up E eng migrator).
Notation Down := (Down E eng migrator).
Notation checksum := (checksum eng).

(** The parts of a database an operator sees. *)
Definition same_db (db db' : migDb S) : Prop :=
  m_schema db' = m_schema db /\ m_ledger db' = m_ledger db.

Lemma same_db_refl db : same_db db db.
Proof. done. Qed.

Lemma same_db_trans a b c : same_db a b -> same_db b c -> same_db a c.
Proof. intros [H1 H2] [H3 H4]. split; congruence. Qed.

(** A statement that only reads. *)
Lemma statement_reads {A} (body : migDb S -> result (A * migDb S)) db :
  (forall a db', body db = Ok (a, db') -> db' = db) ->
  same_db db (statement E eng migrator body db).2.
Proof.
  intros Hb. unfold statement. destruct (fault E _); [done|].
  destruct (body db) as [[a db']|] eqn:He; [|done]. by rewrite (Hb a db').
Qed.

Lemma on_ledger_reads {A} (body : ledger -> result (A * ledger)) db :
  (forall l a l', body l = Ok (a, l') -> l' = l) ->
  same_db db (on_ledger E eng migrator body db).2.
Proof.
  intros Hb. unfold on_ledger, statement. destruct (fault E _); [done|].
  destruct (m_ledger db) as [l|] eqn:Hl; [|done].
  destruct (body l) as [[a l']|] eqn:He; [|done]. rewrite (Hb l a l' He). split; [done|]. by rewrite Hl.
Qed.

Lemma bindM_same {A B} (m : M (migDb S) A) (k : A -> M (migDb S) B) db :
  same_db db (m db).2 -> (forall a db', same_db db' (k a db').2) -> same_db db (bindM m k db).2.
Proof.
  unfold bindM. intros Hm Hk. destruct (m db) as [[a|e] db']; [|done].
  eapply same_db_trans; [exact Hm|apply Hk].
Qed.

Lemma wrapM_same {A} f (m : M (migDb S) A) db : same_db db (m db).2 -> same_db db (wrapM f m db).2.
Proof. unfold wrapM. by destruct (m db) as [[]]. Qed.

Lemma columnState_reads db : same_db db (columnState E eng migrator db).2.
Proof. apply statement_reads. intros a db' [= _ <-]. done. Qed.

Lemma applied_reads db : same_db db (applied db).2.
Proof.
  unfold Migrate.applied. destruct (table migrator); [done|].
  apply bindM_same; [|done]. apply on_ledger_reads. intros l a l'. destruct (hasChecksum l); by intros [= _ <-].
Qed.

(** ** Checking the ledger without backfilling *)

Definition row_matches (migrations : list Migration) (version : string) (a : appliedMigration) : Prop :=
  exists m, by_version migrations version = Some m /\ a_Name a = mName m /\
    a_Checksum a = Some (checksum m).

Lemma verify_rows_strict migrations rows db :
  (verify_rows E eng migrator migrations rows false db = (Ok tt, db) /\
   Forall (fun va => row_matches migrations va.1 va.2) rows) \/
  (exists e, verify_rows E eng migrator migrations rows false db = (Err e, db) /\
     errors_Is e ErrMigrationDrift = true /\
     ~ Forall (fun va => row_matches migrations va.1 va.2) rows).
Proof.
  induction rows as [|[version a] rows IH]; cbn; [by left|].
  assert (Hdec : (exists m, by_version migrations version = Some m /\ a_Name a = mName m /\
      a_Checksum a = Some (checksum m)) \/
      ~ Forall (fun va => row_matches migrations va.1 va.2) ((version, a) :: rows)).
  { destruct (by_version migrations version) as [m|] eqn:Hv.
    2: { right. intros Hf. apply Forall_cons in Hf as [(m & Hm & _) _]. cbn in Hm. congruence. }
    destruct (decide (a_Name a = mName m)); [destruct (decide (a_Checksum a = Some (checksum m)))|].
    - left. eauto.
    - right. intros Hf. apply Forall_cons in Hf as [(m' & Hm & _ & Hc) _]. cbn in *. congruence.
    - right. intros Hf. apply Forall_cons in Hf as [(m' & Hm & Hn & _) _]. cbn in *. congruence. }
  destruct (by_version migrations version) as [m|] eqn:Hv.
  2: { right. eexists. split; [done|]. split; [done|]. destruct Hdec as [(m & ? & _)|?]; [congruence|done]. }
  destruct (decide (a_Name a = mName m)) as [Hn|Hn].
  2: { rewrite bool_decide_eq_false_2 by done. right. eexists. split; [done|]. split; [done|].
       destruct Hdec as [(m' & ? & ? & _)|?]; [congruence|done]. }
  rewrite bool_decide_eq_true_2 by done. cbn [negb].
  destruct (a_Checksum a) as [stored|] eqn:Hc.
  2: { right. eexists. split; [done|]. split; [done|]. destruct Hdec as [(m' & _ & _ & ?)|?]; done. }
  destruct (decide (stored = checksum m)) as [->|Hs].
  2: { rewrite bool_decide_eq_false_2 by done. right. eexists. split; [done|]. split; [done|].
       destruct Hdec as [(m' & ? & ? & ?)|?]; [congruence|done]. }
  rewrite bool_decide_eq_true_2 by done.
  assert (Hrow : row_matches migrations version a) by (exists m; rewrite Hv; done).
  destruct IH as [[-> Hf]|(e & -> & He & Hf)].
  - left. split; [done|]. by constructor.
  - right. exists e. split; [done|]. split; [done|]. intros H. apply Forall_cons in H as [_ H]. done.
Qed.

Lemma verifyApplied_reads migrations recorded db : same_db db (verifyApplied migrations recorded false db).2.
Proof.
  unfold Migrate.verifyApplied. destruct (table migrator); [done|].
  by destruct (verify_rows_strict migrations (map_to_list recorded) db) as [[-> _]|(e & -> & _)].
Qed.

(** [Verify] is read-only: whatever the database answers, it changes neither the
    schema nor the ledger, never creates the ledger and never upgrades it. *)
Theorem verify_is_read_only db :
  m_schema (Verify db).2 = m_schema db /\ m_ledger (Verify db).2 = m_ledger db.
Proof.
  change (same_db db (Verify db).2). unfold Migrate.Verify, throw.
  destruct (validate migrator); [done|]. destruct (load _); [|done]. destruct (table migrator); [done|].
  apply bindM_same; [apply wrapM_same, columnState_reads|]. intros [hasColumn nullable] db1.
  destruct (_ || _); [done|]. apply bindM_same; [apply applied_reads|]. intros recorded db2.
  apply bindM_same; [apply verifyApplied_reads|]. intros [] db3. by destruct (first_pending _ _).
Qed.
(** ** A transactional database with a current ledger *)

Hypothesis Hdialect : dialect migrator <> MySQL.

(** What the scan of the ledger yields for a row. *)
Definition recorded_row (row : ledgerRow) (at_ : time) : appliedMigration :=
  {| a_Name := l_name row; a_Checksum := l_checksum row; a_AppliedAt := at_ |}.

Lemma scan_applied_spec rows acc res :
  NoDup (fst <$> rows) -> scan_applied eng migrator rows acc = Ok res ->
  (forall v, v ∉ (fst <$> rows) -> res !! v = acc !! v) /\
  (forall v row, (v, row) ∈ rows -> exists at_, parse_time eng (l_applied_at row) = Ok at_ /\
     res !! v = Some (recorded_row row at_)).
Proof.
  revert acc. induction rows as [|[version row] rows IH]; intros acc Hnd; cbn.
  { intros [= <-]. split; [done|]. set_solver. }
  apply NoDup_cons in Hnd as [Hnot Hnd]. rewrite bool_decide_eq_false_2 by done. cbn.
  destruct (parse_time eng (l_applied_at row)) as [at_|] eqn:Hp; [|done]. intros Hs.
  destruct (IH _ Hnd Hs) as [H1 H2]. split.
  - intros v Hv. rewrite H1 by set_solver. apply lookup_insert_ne. set_solver.
  - intros v row' Hin. apply elem_of_cons in Hin as [[= -> ->]|Hin]; [|eauto].
    exists at_. split; [done|]. rewrite H1 by done. apply lookup_insert_eq.
Qed.

Lemma scan_applied_total rows acc :
  (forall v row, (v, row) ∈ rows -> is_ok (parse_time eng (l_applied_at row)) = true) ->
  exists res, scan_applied eng migrator rows acc = Ok res.
Proof.
  revert acc. induction rows as [|[version row] rows IH]; intros acc Hp; cbn; [eauto|].
  rewrite bool_decide_eq_false_2 by done. cbn.
  pose proof (Hp version row) as Hr. destruct (parse_time eng _) as [at_|]; [|by discriminate Hr; set_solver].
  apply IH. intros v r Hin. apply (Hp v). set_solver.
Qed.

(** The map the operations check against mirrors the ledger. *)
Lemma applied_Ok db recorded db' :
  applied db = (Ok recorded, db') ->
  exists l, m_ledger db = Some l /\ hasChecksum l = true /\
    (forall v, is_Some (recorded !! v) <-> is_Some (ledger_rows l !! v)) /\
    (forall v row, ledger_rows l !! v = Some row -> exists at_,
       parse_time eng (l_applied_at row) = Ok at_ /\ recorded !! v = Some (recorded_row row at_)).
Proof.
  unfold Migrate.applied. destruct (table migrator); [done|]. unfold bindM. intros Ha.
  destruct (on_ledger E eng migrator _ db) as [[rows|] db1] eqn:Ho; [|done]. simplify_eq.
  rename H into Hscan. unfold on_ledger, statement in Ho. destruct (fault E _); [done|].
  destruct (m_ledger db) as [l|]; [|done]. destruct (hasChecksum l) eqn:Hh; [|done]. simplify_eq.
  exists l. split; [done|]. split; [done|].
  apply scan_applied_spec in Hscan as [H1 H2]; [|apply NoDup_fst_map_to_list].
  assert (H3 : forall v row, ledger_rows l !! v = Some row -> exists at_,
       parse_time eng (l_applied_at row) = Ok at_ /\ recorded !! v = Some (recorded_row row at_)).
  { intros v row Hv. apply (H2 v row). by apply elem_of_map_to_list. }
  split; [|done]. intros v. split.
  - intros Hv. destruct (ledger_rows l !! v) eqn:Hl; [done|]. rewrite H1, lookup_empty in Hv; [by destruct Hv|].
    intros Hin. apply list_elem_of_fmap in Hin as ([v' row] & -> & Hin).
    apply elem_of_map_to_list in Hin. cbn in Hl. congruence.
  - intros [row Hv]. destruct (H3 v row Hv) as (at_ & _ & ->). done.
Qed.

(** Every row of the ledger was written by one of the migrations, unchanged. *)
Definition ledger_matches (migrations : list Migration) (l : ledger) : Prop :=
  forall v row, ledger_rows l !! v = Some row -> exists m, by_version migrations v = Some m /\
    l_name row = mName m /\ l_checksum row = Some (checksum m).

Lemma verifyApplied_spec migrations recorded db l :
  table migrator = None ->
  (forall v, is_Some (recorded !! v) <-> is_Some (ledger_rows l !! v)) ->
  (forall v row, ledger_rows l !! v = Some row -> exists at_, recorded !! v = Some (recorded_row row at_)) ->
  (verifyApplied migrations recorded false db = (Ok tt, db) /\ ledger_matches migrations l) \/
  (exists e, verifyApplied migrations recorded false db = (Err e, db) /\
     errors_Is e ErrMigrationDrift = true /\ ~ ledger_matches migrations l).
Proof.
  intros Ht Hdom Hrows. unfold Migrate.verifyApplied. rewrite Ht.
  assert (Hiff : Forall (fun va => row_matches migrations va.1 va.2) (map_to_list recorded)
                 <-> ledger_matches migrations l).
  { rewrite Forall_forall. split.
    - intros Hf v row Hv. destruct (Hrows v row Hv) as (at_ & Hr).
      destruct (Hf (v, recorded_row row at_)) as (m & Hm); [by apply elem_of_map_to_list|]. eauto.
    - intros Hm [v a] Hin. apply elem_of_map_to_list in Hin. cbn.
      destruct (proj1 (Hdom v)) as [row Hv]; [by rewrite Hin|].
      destruct (Hrows v row Hv) as (at_ & Hr). rewrite Hin in Hr. injection Hr as ->.
      destruct (Hm v row Hv) as (m & Hb & Hn & Hc). by exists m. }
  destruct (verify_rows_strict migrations (map_to_list recorded) db) as [[-> Hf]|(e & -> & He & Hf)].
  - left. split; [done|]. by apply Hiff.
  - right. exists e. split; [done|]. split; [done|]. by rewrite <- Hiff.
Qed.

(** A migrator that can work, its migrations, and a ledger of the current format. *)
Definition ready (migrations : list Migration) (l : ledger) (db : migDb S) : Prop :=
  validate migrator = None /\ table migrator = None /\
  load (default (Err (Errorf "nil Files")) (Files migrator)) = Ok migrations /\
  m_ledger db = Some l /\ hasChecksum l = true /\ checksumNullable l = false.

Definition calm : Prop := (forall n, fault E n = None) /\ (forall n, lostReply E n = None).

Definition times_parse (l : ledger) : Prop :=
  forall v row, ledger_rows l !! v = Some row -> is_ok (parse_time eng (l_applied_at row)) = true.

Lemma applied_calm db l :
  calm -> table migrator = None -> m_ledger db = Some l -> hasChecksum l = true -> times_parse l ->
  exists recorded, applied db = (Ok recorded, (applied db).2).
Proof.
  intros [Hf _] Ht Hl Hh Hp. unfold Migrate.applied. rewrite Ht. unfold bindM, on_ledger, statement.
  rewrite Hf, Hl, Hh. cbn.
  destruct (scan_applied_total (map_to_list (ledger_rows l)) ∅) as [res Hres].
  - intros v row Hin. apply (Hp v). by apply elem_of_map_to_list.
  - exists res. by rewrite Hres.
Qed.

(** [Verify] decides integrity: on a ledger of the current format and a database that
    answers, it succeeds exactly when every recorded migration still has its name and
    up-script checksum in the source and every migration of the source is recorded;
    otherwise it reports drift or, with no drift, a pending migration. *)
Theorem verify_decides_integrity migrations l db :
  calm -> ready migrations l db -> times_parse l ->
  let r := (Verify db).1 in
  (r = Ok tt <-> ledger_matches migrations l /\
     forall m, m ∈ migrations -> is_Some (ledger_rows l !! Version m)) /\
  (~ ledger_matches migrations l -> exists e, r = Err e /\ errors_Is e ErrMigrationDrift = true) /\
  (ledger_matches migrations l -> r <> Ok tt ->
     exists e, r = Err e /\ errors_Is e ErrPendingMigration = true).
Proof.
  intros Hcalm (Hv & Ht & Hload & Hl & Hh & Hn) Hp r. pose proof Hcalm as [Hf _].
  assert (Hr : r = (bindM applied (fun recorded => bindM (verifyApplied migrations recorded false) (fun _ =>
             match first_pending migrations recorded with Some e => throw e | None => ret tt end))
             (columnState E eng migrator db).2).1).
  { unfold r, Migrate.Verify. rewrite Hv, Hload, Ht. unfold bindM at 1, wrapM, columnState, statement.
    rewrite Hf, Hl, Hh, Hn. done. }
  set (db1 := (columnState E eng migrator db).2) in Hr.
  assert (Hl1 : m_ledger db1 = Some l) by (destruct (columnState_reads db) as [_ He]; unfold db1; by rewrite He).
  destruct (applied_calm db1 l Hcalm Ht Hl1 Hh Hp) as [recorded Ha].
  destruct (applied_Ok _ _ _ Ha) as (l' & Hl' & _ & Hdom & Hrows).
  assert (l' = l) as -> by congruence.
  unfold bindM at 1 in Hr. rewrite Ha in Hr.
  assert (Hpend : forall ms, (exists e, first_pending ms recorded = Some e /\
             errors_Is e ErrPendingMigration = true /\ ~ (forall m, m ∈ ms -> is_Some (ledger_rows l !! Version m))) \/
            (first_pending ms recorded = None /\ forall m, m ∈ ms -> is_Some (ledger_rows l !! Version m))).
  { clear -Hdom. induction ms as [|m ms IH]; cbn; [right; split; [done|set_solver]|].
    case_bool_decide as Hb.
    - apply Hdom in Hb. destruct IH as [(e & He & Hp & Hno)|[He Hall]].
      + left. exists e. split; [done|]. split; [done|]. intros Hm. apply Hno. set_solver.
      + right. split; [done|]. intros m' Hm'. apply elem_of_cons in Hm' as [->|]; auto.
    - left. eexists. split; [done|]. split; [done|]. intros Hm. apply Hb, Hdom, Hm. set_solver. }
  destruct (verifyApplied_spec migrations recorded (applied db1).2 l Ht Hdom) as [[Hva Hm]|(e & Hva & He & Hm)].
  { intros v row Hr0. destruct (Hrows v row Hr0) as (at_ & _ & Hrec). eauto. }
  - unfold bindM in Hr. rewrite Hva in Hr.
    destruct (Hpend migrations) as [(e & Hfp & He & Hno)|[Hfp Hall]]; rewrite Hfp in Hr; cbn in Hr; rewrite Hr.
    + split; [split; [done|naive_solver]|]. split; [done|]. intros _ _. eauto.
    + split; [done|]. split; [done|]. done.
  - unfold bindM in Hr. rewrite Hva in Hr. cbn in Hr. rewrite Hr.
    split; [split; [done|naive_solver]|]. split; [intros _; eauto|done].
Qed.

(** ** Runs on a current ledger *)

Lemma prepare_ready migrations l db :
  ready migrations l db ->
  same_db db (prepare E eng migrator migrations db).2 /\ (calm -> (prepare E eng migrator migrations db).1 = Ok tt).
Proof.
  intros (Hv & Ht & _ & Hl & Hh & Hn). unfold prepare, createLedger, columnState, bindM, wrapM, statement.
  rewrite Hv, Ht. destruct (fault E (m_tick db)) eqn:F1; [split; [done|intros [Hf _]; congruence]|].
  rewrite Hl. cbn. destruct (fault E (Datatypes.S _)) eqn:F2; [split; [done|intros [Hf _]; congruence]|].
  rewrite Hl, Hh, Hn. cbn. rewrite bool_decide_eq_false_2 by done. done.
Qed.

Lemma ready_same migrations l db db' : same_db db db' -> ready migrations l db -> ready migrations l db'.
Proof. intros [_ He] (? & ? & ? & ? & ?). unfold ready. rewrite He. done. Qed.

(** Either the checks stop the run and nothing has changed, or its body runs. *)
Lemma checks_ready {B} migrations l db (k : list Migration -> gmap string appliedMigration -> R B) :
  ready migrations l db ->
  let run := lift (prepare E eng migrator migrations) (fun _ => lift applied (fun recorded =>
               lift (verifyApplied migrations recorded false) (fun _ => k migrations recorded))) db in
  (exists e db', run = (([], Some e), db') /\ same_db db db' /\
     (calm -> times_parse l -> errors_Is e ErrMigrationDrift = true /\ ~ ledger_matches migrations l)) \/
  (exists recorded db1, run = k migrations recorded db1 /\ same_db db db1 /\ ledger_matches migrations l /\
     (forall v, is_Some (recorded !! v) <-> is_Some (ledger_rows l !! v))).
Proof.
  intros Hready run. unfold run, lift. pose proof (prepare_ready _ _ _ Hready) as [Hs1 Hc1].
  destruct (prepare E eng migrator migrations db) as [[[]|e] db1]; cbn in Hs1, Hc1.
  2: { left. exists e, db1. split; [done|]. split; [done|]. intros Hcalm. by specialize (Hc1 Hcalm). }
  pose proof (ready_same _ _ _ _ Hs1 Hready) as (_ & Ht & _ & Hl1 & Hh & _).
  pose proof (applied_reads db1) as Hs2. pose proof (applied_calm db1 l) as Hac.
  destruct (applied db1) as [[recorded|e] db2] eqn:Ha; cbn in Hs2, Hac.
  2: { left. exists e, db2. split; [done|]. split; [by eapply same_db_trans|]. intros Hcalm Hp.
       destruct (Hac Hcalm Ht Hl1 Hh Hp) as [? [=]]. }
  destruct (applied_Ok _ _ _ Ha) as (l' & Hl' & _ & Hdom & Hrows). rewrite Hl1 in Hl'. injection Hl' as <-.
  destruct (verifyApplied_spec migrations recorded db2 l Ht Hdom) as [[-> Hm]|(e & -> & He & Hm)].
  { intros v row Hr. destruct (Hrows v row Hr) as (at_ & _ & ?). eauto. }
  - right. exists recorded, db2. split; [done|]. split; [by eapply same_db_trans|done].
  - left. exists e, db2. split; [done|]. split; [by eapply same_db_trans|done].
Qed.

(** The advisory lock adds statements and an error, never an effect. *)
Lemma withRunLock_run {B} (work : R B) db :
  validate migrator = None ->
  let '((completed, err), db') := withRunLock E eng migrator work db in
  (completed = [] /\ is_Some err /\ same_db db db' /\ ~ calm) \/
  (exists db1 err1 db2, same_db db db1 /\ work db1 = ((completed, err1), db2) /\ same_db db2 db' /\
     (err = None -> err1 = None) /\ (calm -> err = err1)).
Proof.
  intros Hv. unfold withRunLock. unfold validate in Hv. destruct (_ || _); [done|]. clear Hv.
  destruct (dialect migrator) eqn:Hd; [|done| |].
  2-3: destruct (work db) as [[completed err] db'] eqn:Hw; right; exists db, err, db'; done.
  destruct (fault E (m_tick db)) eqn:F1; [left; repeat split; [done|intros [Hf _]; congruence]|].
  cbv zeta. destruct (fault E (m_tick (tx_bump db))) eqn:F2; [left; repeat split; [done|intros [Hf _]; congruence]|].
  destruct (work (tx_bump (tx_bump db))) as [[completed err1] db2] eqn:Hw.
  destruct (fault E (m_tick db2)) eqn:F3.
  - right. eexists _, err1, db2. split; [|split; [exact Hw|]]; [done|]. split; [done|].
    destruct err1; (split; [done|]); intros [Hf _]; congruence.
  - right. eexists _, err1, db2. split; [|split; [exact Hw|]]; done.
Qed.

Lemma checked_ready {B} migrations l db (k : list Migration -> gmap string appliedMigration -> R B) :
  ready migrations l db ->
  let '((completed, err), db') := checked E eng migrator k db in
  (completed = [] /\ same_db db db' /\ exists e, err = Some e /\
     (calm -> times_parse l -> errors_Is e ErrMigrationDrift = true /\ ~ ledger_matches migrations l)) \/
  (exists recorded db1 err1 db2, same_db db db1 /\ k migrations recorded db1 = ((completed, err1), db2) /\
     same_db db2 db' /\ ledger_matches migrations l /\
     (forall v, is_Some (recorded !! v) <-> is_Some (ledger_rows l !! v)) /\
     (err = None -> err1 = None) /\ (calm -> err = err1)).
Proof.
  intros Hready. unfold checked.
  match goal with |- context [withRunLock E eng migrator ?w db] => pose proof (withRunLock_run w db) as Hw end.
  destruct Hready as (Hv & Hrest). specialize (Hw Hv). pose proof (conj Hv Hrest : ready _ _ _) as Hready.
  destruct (withRunLock E eng migrator _ db) as [[completed err] db'].
  destruct Hw as [(-> & [e ->] & Hs & Hnc)|(db1 & err1 & db2 & Hs1 & Hw & Hs2 & He & Hc)].
  { left. split; [done|]. split; [done|]. exists e. split; [done|]. intros Hcalm. by destruct Hnc. }
  destruct Hrest as (_ & Hload & _). rewrite Hload in Hw.
  pose proof (checks_ready migrations l db1 k (ready_same _ _ _ _ Hs1 Hready)) as Hk. cbv zeta in Hk.
  rewrite Hw in Hk. destruct Hk as [(e & db3 & [= -> -> ->] & Hs3 & Hd)|(recorded & db3 & Hk & Hs3 & Hm & Hdom)].
  - left. split; [done|]. split; [by do 2 (eapply same_db_trans; [done|])|].
    destruct err as [e'|]; [|naive_solver]. exists e'. split; [done|]. intros Hcalm Hp.
    injection (Hc Hcalm) as ->. auto.
  - right. exists recorded, db3, err1, db2. split; [by eapply same_db_trans|]. done.
Qed.

(** Drift fails closed: when a recorded migration is missing from the source, renamed
    or edited, [Up], [Down] and [Status] on a database that answers report drift and
    nothing else: no migration runs, no row is written or removed. *)
Theorem drift_fails_closed migrations l db limit steps :
  calm -> ready migrations l db -> times_parse l -> ~ ledger_matches migrations l ->
  (exists e db', Up limit db = (([], Some e), db') /\ errors_Is e ErrMigrationDrift = true /\ same_db db db') /\
  (exists e db', Down steps db = (([], Some e), db') /\ errors_Is e ErrMigrationDrift = true /\ same_db db db') /\
  (exists e db', Migrate.Status E eng migrator db = (([], Some e), db') /\
     errors_Is e ErrMigrationDrift = true /\ same_db db db').
Proof.
  intros Hcalm Hready Hp Hm.
  assert (Hall : forall B (k : list Migration -> gmap string appliedMigration -> R B), exists e db',
      checked E eng migrator k db = (([], Some e), db') /\ errors_Is e ErrMigrationDrift = true /\ same_db db db').
  { intros B k. pose proof (checked_ready migrations l db k Hready) as Hk.
    destruct (checked E eng migrator k db) as [[completed err] db'].
    destruct Hk as [(-> & Hs & e & -> & He)|(? & ? & ? & ? & _ & _ & _ & ? & _)]; [|done].
    exists e, db'. by destruct (He Hcalm Hp). }
  split; [apply Hall|]. split; apply Hall.
Qed.

(** ** Applying migrations *)

(** The row [Up] writes for a migration. *)
Definition row_of (m : Migration) (at_ : string) : ledgerRow :=
  {| l_name := mName m; l_checksum := Some (checksum m); l_applied_at := at_ |}.

(** The migrations [ms], none of them recorded in [l], are recorded in [l'] on top of it. *)
Definition recorded_on (l : ledger) (ms : list Migration) (l' : ledger) : Prop :=
  hasChecksum l' = hasChecksum l /\ checksumNullable l' = checksumNullable l /\
  (forall m, m ∈ ms -> ledger_rows l !! Version m = None /\
     exists k, ledger_rows l' !! Version m = Some (row_of m (format_time eng (wall_clock eng k)))) /\
  (forall v, v ∉ (Version <$> ms) -> ledger_rows l' !! v = ledger_rows l !! v).

(** The up scripts, one after the other. *)
Fixpoint exec_all (ms : list Migration) (s : S) : result S :=
  match ms with
  | [] => Ok s
  | m :: rest => match exec eng (Up_ m) s with Ok s' => exec_all rest s' | Err e => Err e end
  end.

Definition pending (migrations : list Migration) (rows : gmap string ledgerRow) : list Migration :=
  filter (fun m => rows !! Version m = None) migrations.

Lemma pending_insert ms v row rows :
  v ∉ (Version <$> ms) -> pending ms (<[v := row]> rows) = pending ms rows.
Proof.
  unfold pending. induction ms as [|m ms IH]; [done|]. cbn [fmap list_fmap]. intros Hv.
  apply not_elem_of_cons in Hv as [Hne Hv]. rewrite !filter_cons, lookup_insert_ne by done.
  by rewrite (IH Hv).
Qed.

(** How many migrations a limit admits: zero and below mean all. *)
Definition admitted (limit : Z) (ms : list Migration) : list Migration :=
  if limit >? 0 then take (Z.to_nat limit) ms else ms.

Lemma recorded_on_nil l : recorded_on l [] l.
Proof. repeat split; set_solver. Qed.

Lemma recorded_on_cons l m k l1 ms l' :
  ledger_rows l !! Version m = None ->
  l1 = with_rows (<[Version m := row_of m (format_time eng (wall_clock eng k))]> (ledger_rows l)) l ->
  recorded_on l1 ms l' -> recorded_on l (m :: ms) l'.
Proof.
  intros Hm -> (H1 & H2 & H3 & H4). cbn in *. split; [done|]. split; [done|].
  assert (Hne : forall m', m' ∈ ms -> Version m' <> Version m).
  { intros m' Hm' Heq. destruct (H3 m' Hm') as [Hnone _]. rewrite Heq, lookup_insert_eq in Hnone. done. }
  split.
  - intros m' Hm'. apply elem_of_cons in Hm' as [->|Hm'].
    + split; [done|]. exists k. rewrite H4, lookup_insert_eq; [done|].
      intros Hin. apply list_elem_of_fmap in Hin as (m' & Heq & Hin). by apply (Hne m').
    + destruct (H3 m' Hm') as [Hn Hr]. split; [|done]. by rewrite lookup_insert_ne in Hn by (symmetry; auto).
  - intros v Hv. rewrite H4 by set_solver. apply lookup_insert_ne. set_solver.
Qed.

Lemma tx_restore_same (db db' : migDb S) :
  same_db db (tx_restore (Transactional := migDb_tx eng migrator) db db').
Proof. cbn. destruct (dialect migrator); done. Qed.

(** The migration [m] is applied with its row. *)
Definition applied_with_row (m : Migration) (l : ledger) (db db' : migDb S) (k : nat) : Prop :=
  exec eng (Up_ m) (m_schema db) = Ok (m_schema db') /\ ledger_rows l !! Version m = None /\
  m_ledger db' = Some (with_rows (<[Version m := row_of m (format_time eng (wall_clock eng k))]> (ledger_rows l)) l).

Lemma apply_up_work m l db st1 :
  m_ledger db = Some l ->
  bindM (exec_script E eng migrator "execute migration %s: %w" (Up_ m)) (fun _ => wrapM "record migration %s: %w" (insert_row E eng migrator m))
    (tx_bump (Transactional := migDb_tx eng migrator) db) = (Ok tt, st1) ->
  exists k, applied_with_row m l db (tx_bump (Transactional := migDb_tx eng migrator) st1) k.
Proof.
  intros Hl Hw. unfold bindM, exec_script, wrapM, statement in Hw. destruct (fault E _); [done|].
  cbn in Hw. destruct (exec eng (Up_ m) (m_schema db)) as [s|] eqn:Hx; [|done].
  cbn in Hw. unfold insert_row, statement in Hw. destruct (fault E _); [done|]. cbn in Hw.
  rewrite Hl in Hw. destruct (_ && _); [done|]. destruct (ledger_rows l !! Version m) eqn:Hr; [done|].
  injection Hw as <-. eexists. unfold applied_with_row. by rewrite Hx.
Qed.

(** One migration is applied with its row, or not at all; an error leaves it applied only when
    the reply of its commit was lost. *)
Lemma apply_up_atomic m l db :
  m_ledger db = Some l ->
  (exists db' k, apply_up E eng migrator m db = (Ok tt, db') /\ applied_with_row m l db db' k) \/
  (exists e db', apply_up E eng migrator m db = (Err e, db') /\
     (same_db db db' \/ (exists n lost, lostReply E n = Some lost) /\ exists k, applied_with_row m l db db' k)).
Proof.
  intros Hl. destruct (apply_up E eng migrator m db) as [[[]|e] db'] eqn:Ha; unfold apply_up, inTransaction in Ha.
  - left. exists db'. apply transact_Ok in Ha as (st1 & Hw & ->). destruct (apply_up_work m l db st1 Hl Hw) as [k Hk]. by exists k.
  - right. exists e, db'. split; [done|].
    apply transact_Err in Ha as [->|[[st1 ->]|([] & st1 & lost & Hw & -> & Hx)]]; [by left|left; apply tx_restore_same|right].
    split; [by eexists _, _|]. by eapply apply_up_work.
Qed.

(** What a run of the loop that started with [completed] has done. *)
Definition up_progress (pend completed : list Migration) (limit : Z) (l : ledger) (db : migDb S)
    (outcome : (list Migration * option error) * migDb S) : Prop :=
  let '((done_, err), db') := outcome in
  exists new unreported l', done_ = completed ++ new /\ new ++ unreported `prefix_of` pend /\
    exec_all (new ++ unreported) (m_schema db) = Ok (m_schema db') /\ m_ledger db' = Some l' /\ recorded_on l (new ++ unreported) l' /\
    (unreported = [] \/ err <> None /\ length unreported = 1%nat /\ exists n lost, lostReply E n = Some lost) /\
    (err = None -> new = if limit >? 0 then take (Z.to_nat limit - length completed) pend else pend).

Lemma up_progress_stop pend completed limit l db db' err :
  m_ledger db = Some l -> same_db db db' ->
  (err = None -> pend = [] \/ (limit >? 0) = true /\ limit <= Z.of_nat (length completed)) ->
  up_progress pend completed limit l db ((completed, err), db').
Proof.
  intros Hl [Hs He] Hn. exists [], [], l. rewrite app_nil_r, He, Hs. split; [done|]. split; [apply prefix_nil|].
  split; [done|]. split; [done|]. split; [apply recorded_on_nil|]. split; [by left|]. intros Herr.
  destruct (Hn Herr) as [->|[-> Hle]]; [by rewrite take_nil; destruct (_ >? _)|].
  by replace (Z.to_nat limit - length completed)%nat with 0%nat by lia.
Qed.

(** The commit of [m] went through and its reply did not. *)
Lemma up_progress_lost m pend completed limit l db db' e k :
  applied_with_row m l db db' k -> (exists n lost, lostReply E n = Some lost) ->
  up_progress (m :: pend) completed limit l db ((completed, Some e), db').
Proof.
  intros (Hex & Hfree & Hl') Hlost. exists [], [m]. eexists. rewrite app_nil_r. split; [done|].
  split; [apply prefix_cons, prefix_nil|]. split; [cbn; by rewrite Hex|]. split; [exact Hl'|].
  split; [eapply recorded_on_cons; [done|reflexivity|apply recorded_on_nil]|]. split; [|done]. right. done.
Qed.

Lemma up_progress_step m pend completed limit l db k db1 outcome :
  exec eng (Up_ m) (m_schema db) = Ok (m_schema db1) -> ledger_rows l !! Version m = None ->
  ((limit >? 0) && (Z.of_nat (length completed) >=? limit) = false) ->
  up_progress pend (completed ++ [m]) limit
    (with_rows (<[Version m := row_of m (format_time eng (wall_clock eng k))]> (ledger_rows l)) l) db1 outcome ->
  up_progress (m :: pend) completed limit l db outcome.
Proof.
  intros Hex Hfree Hlim. destruct outcome as [[done_ err] db'].
  intros (new & unreported & l' & -> & Hpre & Hall & Hl' & Hrec & Hun & Herr).
  exists (m :: new), unreported, l'. rewrite <- app_assoc. split; [done|]. split; [by apply prefix_cons|].
  split; [cbn; by rewrite Hex|]. split; [done|]. split; [by eapply recorded_on_cons|]. split; [done|].
  intros Hn. rewrite (Herr Hn), length_app. cbn [length]. destruct (limit >? 0) eqn:Hg; [|done].
  replace (Z.to_nat limit - length completed)%nat
    with (Datatypes.S (Z.to_nat limit - (length completed + 1)))%nat by lia.
  done.
Qed.

Lemma up_loop_prefix migrations recorded limit completed l db :
  m_ledger db = Some l -> NoDup (Version <$> migrations) ->
  (forall m, m ∈ migrations -> is_Some (recorded !! Version m) <-> is_Some (ledger_rows l !! Version m)) ->
  up_progress (pending migrations (ledger_rows l)) completed limit l db
    (up_loop E eng migrator migrations recorded limit completed db).
Proof.
  revert completed l db. induction migrations as [|m ms IH]; intros completed l db Hl Hnd Hdom.
  { apply up_progress_stop; [done|done|by left]. }
  cbn [fmap list_fmap] in Hnd. apply NoDup_cons in Hnd as [Hnot Hnd]. cbn [up_loop].
  assert (Hm : is_Some (recorded !! Version m) <-> is_Some (ledger_rows l !! Version m)) by (apply Hdom; set_solver).
  assert (Hne : forall m', m' ∈ ms -> Version m <> Version m').
  { intros m' Hm' Heq. apply Hnot. rewrite Heq. by apply list_elem_of_fmap_2. }
  unfold pending. case_bool_decide as Hr.
  { rewrite filter_cons_False by (apply Hm in Hr as [? ->]; done). apply IH; [done|done|]. set_solver. }
  assert (Hfree : ledger_rows l !! Version m = None) by (apply eq_None_not_Some; by rewrite <- Hm).
  rewrite filter_cons_True by done. fold (pending ms (ledger_rows l)).
  destruct ((limit >? 0) && (_ >=? limit)) eqn:Hlim; [apply up_progress_stop; [done|done|intros _; right; lia]|].
  case_bool_decide; [by apply up_progress_stop|].
  destruct (apply_up_atomic m l db Hl) as [(db1 & k & -> & Hex & _ & Hl1)|(e & db1 & -> & [Hs|[Hlost [k Hk]]])];
    [|by apply up_progress_stop|by eapply up_progress_lost].
  apply (up_progress_step m _ _ _ _ _ k db1); [done|done|done|].
  rewrite <- (pending_insert ms (Version m) (row_of m (format_time eng (wall_clock eng k)))) by done.
  apply (IH (completed ++ [m]) _ db1 Hl1 Hnd).
  intros m' Hm'. cbn. rewrite lookup_insert_ne by auto. apply Hdom. set_solver.
Qed.

Lemma up_run migrations l db limit :
  ready migrations l db ->
  exists completed unreported err db', Up limit db = ((completed, err), db') /\ exists l',
    completed ++ unreported `prefix_of` pending migrations (ledger_rows l) /\
    exec_all (completed ++ unreported) (m_schema db) = Ok (m_schema db') /\
    m_ledger db' = Some l' /\ recorded_on l (completed ++ unreported) l' /\
    (unreported = [] \/ err <> None /\ length unreported = 1%nat /\ exists n lost, lostReply E n = Some lost) /\
    (err = None -> completed = admitted limit (pending migrations (ledger_rows l))) /\
    (err = None -> ledger_matches migrations l).
Proof.
  intros Hready. unfold Migrate.Up.
  pose proof (checked_ready migrations l db
    (fun migrations recorded => up_loop E eng migrator migrations recorded limit []) Hready) as Hk.
  destruct (checked E eng migrator _ db) as [[completed err] db'].
  destruct Hready as (_ & _ & Hload & Hl & _).
  destruct Hk as [(-> & [Hs He] & e & -> & _)|(recorded & db1 & err1 & db2 & [Hs1 He1] & Hk & [Hs2 He2] & Hm & Hdom & Herr & _)].
  - exists [], [], (Some e), db'. split; [done|]. exists l. rewrite He, Hs. split; [apply prefix_nil|].
    split; [done|]. split; [done|]. split; [apply recorded_on_nil|]. split; [by left|done].
  - rewrite <- He1 in Hl. pose proof (up_loop_prefix migrations recorded limit [] l db1 Hl) as Hp.
    rewrite Hk in Hp. destruct Hp as (new & unreported & l' & -> & Hpre & Hall & Hl' & Hrec & Hun & Hn).
    { by eapply (load_sorted _ migrations). }
    { auto. }
    exists new, unreported, err, db'. split; [done|]. exists l'. rewrite <- Hs1, He2, Hs2. split; [done|]. split; [done|].
    split; [done|]. split; [done|]. split; [|split; [|done]].
    + destruct Hun as [->|(He & Hlen & Hlost)]; [by left|right]. split; [|done]. intros E0. by apply He, Herr.
    + intros E0. rewrite (Hn (Herr E0)). unfold admitted. cbn. by rewrite Nat.sub_0_r.
Qed.

(** C3. On PostgreSQL and SQLite, with a ledger of the current format, [Up] applies a prefix of
    the pending migrations, in version order, each with its ledger row or not at all.  Whatever
    statement, commit or lock fails, the schema is exactly what the up scripts of that prefix
    make of it and the ledger holds exactly the old rows and theirs.  [Up] reports the prefix;
    only when the reply of a commit was lost, and an error is returned, one more migration is
    applied and recorded than reported.  Without an error every pending migration the limit
    admits was applied.  MySQL, which commits DDL by itself, is excluded. *)
Theorem up_applies_a_prefix migrations l db limit :
  ready migrations l db ->
  exists completed unreported err db' l', Up limit db = ((completed, err), db') /\
    completed ++ unreported `prefix_of` pending migrations (ledger_rows l) /\
    exec_all (completed ++ unreported) (m_schema db) = Ok (m_schema db') /\
    m_ledger db' = Some l' /\ recorded_on l (completed ++ unreported) l' /\
    (unreported = [] \/ err <> None /\ length unreported = 1%nat /\ exists n lost, lostReply E n = Some lost) /\
    (err = None -> completed = admitted limit (pending migrations (ledger_rows l))).
Proof.
  intros Hready. destruct (up_run migrations l db limit Hready) as (c & un & err & db' & Hu & l' & ? & ? & ? & ? & ? & ? & _).
  by exists c, un, err, db', l'.
Qed.

(** ** Rolling back *)

Lemma by_version_elem migrations m :
  NoDup (Version <$> migrations) -> m ∈ migrations -> by_version migrations (Version m) = Some m.
Proof.
  unfold by_version. induction migrations as [|m0 ms IH]; [set_solver|]. cbn [fmap list_fmap].
  intros Hnd Hin. apply NoDup_cons in Hnd as [Hnot Hnd]. apply elem_of_cons in Hin as [<-|Hin]; cbn.
  - by rewrite decide_True.
  - rewrite decide_False.
    + specialize (IH Hnd Hin). by destruct (list_find _ ms) as [[]|].
    + intros Heq. apply Hnot. rewrite Heq. by apply list_elem_of_fmap_2.
Qed.

Lemma elem_of_keys {A} (m : gmap string A) v : v ∈ (map_to_list m).*1 <-> is_Some (m !! v).
Proof.
  rewrite list_elem_of_fmap. split.
  - intros ([v' a] & -> & Hin). apply elem_of_map_to_list in Hin. by exists a.
  - intros [a Ha]. exists (v, a). split; [done|]. by apply elem_of_map_to_list.
Qed.

(** What [recorded_on] tells about the keys of the ledger. *)
Lemma recorded_on_keys l ms l' :
  NoDup (Version <$> ms) -> recorded_on l ms l' ->
  (map_to_list (ledger_rows l')).*1 ≡ₚ (Version <$> ms) ++ (map_to_list (ledger_rows l)).*1.
Proof.
  intros Hnd (_ & _ & Hin & Hout). apply NoDup_Permutation.
  - apply NoDup_fst_map_to_list.
  - apply NoDup_app. split; [done|]. split; [|apply NoDup_fst_map_to_list]. intros v Hv Hl.
    apply list_elem_of_fmap in Hv as (m & -> & Hm). destruct (Hin m Hm) as [Hnone _].
    apply list_elem_of_fmap in Hl as ([v' row] & Heq & Hl). apply elem_of_map_to_list in Hl. cbn in Heq. congruence.
  - intros v. rewrite elem_of_app, !elem_of_keys. split.
    + intros [row Hv]. destruct (decide (v ∈ (Version <$> ms))) as [|Hn]; [by left|]. right. exists row.
      by rewrite <- Hout.
    + intros [Hv|[row Hv]].
      * apply list_elem_of_fmap in Hv as (m & -> & Hm). destruct (Hin m Hm) as [_ [k Hk]]. eauto.
      * destruct (decide (v ∈ (Version <$> ms))) as [Hm|Hn]; [|exists row; by rewrite Hout].
        apply list_elem_of_fmap in Hm as (m & -> & Hm). destruct (Hin m Hm) as [_ [k Hk]]. eauto.
Qed.

#[local] Instance version_ge_trans : Transitive version_ge.
Proof. intros a b c Hab Hbc. exact (transitivity (R := String.le) Hbc Hab). Qed.

#[local] Instance version_ge_total : Total version_ge.
Proof. intros a b. apply (total String.le b a). Qed.

#[local] Instance version_ge_antisymm : AntiSymm eq version_ge.
Proof. intros a b Hab Hba. by apply (anti_symm String.le). Qed.

Lemma StronglySorted_sublist {A} (le : relation A) (l k : list A) :
  k `sublist_of` l -> StronglySorted le l -> StronglySorted le k.
Proof.
  induction 1 as [|x k l Hs IH|x k l Hs IH]; [done| |].
  - intros H. apply StronglySorted_inv in H as [H Hf]. constructor; [auto|].
    rewrite Forall_forall in Hf |- *. intros y Hy. apply Hf. by eapply elem_of_sublist.
  - intros H. apply StronglySorted_inv in H as [H _]. auto.
Qed.

Lemma StronglySorted_reverse (vs : list string) :
  StronglySorted String.le vs -> StronglySorted version_ge (reverse vs).
Proof.
  induction 1 as [|v vs Hs IH Hf]; [constructor|]. rewrite reverse_cons. apply StronglySorted_app_2; [|done|].
  - intros x1 x2 H1 H2. rewrite elem_of_reverse in H1. apply list_elem_of_singleton in H2 as ->.
    rewrite Forall_forall in Hf. exact (Hf x1 H1).
  - constructor; constructor.
Qed.

(** The greatest versions of a ledger are the ones recorded last, in reverse. *)
Lemma latest_are_recorded l ms l' :
  NoDup (Version <$> ms) -> StronglySorted String.le (Version <$> ms) -> recorded_on l ms l' ->
  (forall v m, is_Some (ledger_rows l !! v) -> m ∈ ms -> String.le v (Version m)) ->
  take (length ms) (merge_sort version_ge (map_to_list (ledger_rows l')).*1) = reverse (Version <$> ms).
Proof.
  intros Hnd Hsort Hrec Hnew.
  assert (Heq : merge_sort version_ge (map_to_list (ledger_rows l')).*1 =
    reverse (Version <$> ms) ++ merge_sort version_ge (map_to_list (ledger_rows l)).*1).
  { apply (StronglySorted_unique version_ge).
    - apply StronglySorted_merge_sort; apply _.
    - apply StronglySorted_app_2; [|by apply StronglySorted_reverse|apply StronglySorted_merge_sort; apply _].
      intros x1 x2 H1 H2. rewrite elem_of_reverse, list_elem_of_fmap in H1; destruct H1 as (m & -> & Hm).
      rewrite merge_sort_Permutation, elem_of_keys in H2. by apply Hnew.
    - rewrite !merge_sort_Permutation, reverse_Permutation. by apply recorded_on_keys. }
  rewrite Heq. apply take_app_length'. by rewrite length_reverse, length_fmap.
Qed.

(** Scripts that undo each other. *)
Definition reversible (migrations : list Migration) : Prop :=
  forall m s s', m ∈ migrations -> exec eng (Up_ m) s = Ok s' -> exec eng (Down_ m) s' = Ok s.

Lemma exec_all_snoc ms m s s' :
  exec_all (ms ++ [m]) s = Ok s' -> exists s1, exec_all ms s = Ok s1 /\ exec eng (Up_ m) s1 = Ok s'.
Proof.
  revert s. induction ms as [|m0 ms IH]; intros s; cbn.
  - destruct (exec eng (Up_ m) s) eqn:He; [|done]. intros [= <-]. eauto.
  - destruct (exec eng (Up_ m0) s); [|done]. apply IH.
Qed.

Lemma recorded_on_snoc l ms m l' :
  NoDup (Version <$> ms ++ [m]) -> recorded_on l (ms ++ [m]) l' ->
  recorded_on l ms (with_rows (delete (Version m) (ledger_rows l')) l').
Proof.
  rewrite fmap_app, NoDup_app. intros (_ & Hd & _) (H1 & H2 & H3 & H4). split; [done|]. split; [done|]. cbn. split.
  - intros m' Hm'. destruct (H3 m') as [Hn Hk]; [set_solver|]. split; [done|].
    rewrite lookup_delete_ne; [done|]. intros Heq. apply (Hd (Version m')); [by apply list_elem_of_fmap_2|].
    rewrite <- Heq. set_solver.
  - intros v Hv. destruct (decide (v = Version m)) as [->|Hne].
    + rewrite lookup_delete_eq. symmetry. apply H3. set_solver.
    + rewrite lookup_delete_ne by done. apply H4. rewrite fmap_app. set_solver.
Qed.

Lemma recorded_on_nil_inv l l' : recorded_on l [] l' -> l' = l.
Proof.
  intros (H1 & H2 & _ & H4). destruct l, l'; cbn in *. f_equal; [done|done|]. apply map_eq. intros v. apply H4. set_solver.
Qed.

Lemma apply_down_calm m l s db :
  calm -> m_ledger db = Some l -> exec eng (Down_ m) (m_schema db) = Ok s ->
  exists db', apply_down E eng migrator m db = (Ok tt, db') /\ m_schema db' = s /\
    m_ledger db' = Some (with_rows (delete (Version m) (ledger_rows l)) l).
Proof.
  intros [Hf Hlost] Hl Hex. eexists. split.
  - apply transact_calm; [done|done|]. unfold bindM, exec_script, wrapM, statement, delete_row, on_ledger.
    cbn. rewrite Hf, Hex. cbn. unfold statement. rewrite Hf. cbn. by rewrite Hl.
  - done.
Qed.

Lemma down_loop_undoes migrations ms l l' s db acc :
  calm -> (forall m, m ∈ ms -> by_version migrations (Version m) = Some m /\ complete_pair m = true) ->
  NoDup (Version <$> ms) -> reversible ms -> m_ledger db = Some l' -> recorded_on l ms l' ->
  exec_all ms s = Ok (m_schema db) ->
  exists db', down_loop E eng migrator migrations (reverse (Version <$> ms)) acc db = ((acc ++ reverse ms, None), db') /\
    m_schema db' = s /\ m_ledger db' = Some l.
Proof.
  intros Hcalm. revert l' db acc. induction ms as [|m ms IH] using rev_ind; intros l' db acc Hms Hnd Hrev Hl Hrec Hex.
  { exists db. cbn in *. rewrite app_nil_r. apply recorded_on_nil_inv in Hrec as ->. split; [done|]. split; [|done]. congruence. }
  apply exec_all_snoc in Hex as (s1 & Hex & Hm).
  destruct (Hms m) as [Hb Hc]; [set_solver|].
  destruct (apply_down_calm m l' s1 db Hcalm Hl) as (db1 & Hd & Hs1 & Hl1); [apply (Hrev m); [set_solver|done]|].
  rewrite fmap_app, !reverse_app. cbn [fmap list_fmap]. rewrite !reverse_singleton. cbn [app down_loop].
  rewrite Hb, bool_decide_eq_false_2, Hd.
  2: { unfold complete_pair in Hc. bool_to_prop. done. }
  destruct (IH (with_rows (delete (Version m) (ledger_rows l')) l') db1 (acc ++ [m]))
    as (db' & Hrun & Hres); [| | |exact Hl1| | |].
  - intros m' Hm'. apply Hms. set_solver.
  - rewrite fmap_app in Hnd. by apply NoDup_app in Hnd as [? _].
  - intros m' s0 s' Hm'. apply Hrev. set_solver.
  - by apply recorded_on_snoc.
  - by rewrite Hs1.
  - exists db'. rewrite Hrun. by rewrite <- app_assoc.
Qed.

(** ** A run and its undoing *)

(** The codec of [applied_at] reads back what it writes. *)
Definition times_roundtrip : Prop := forall t, is_ok (parse_time eng (format_time eng t)) = true.

Lemma recorded_on_matches migrations l ms l' :
  NoDup (Version <$> migrations) -> (forall m, m ∈ ms -> m ∈ migrations) ->
  ledger_matches migrations l -> recorded_on l ms l' -> ledger_matches migrations l'.
Proof.
  intros Hnd Hsub Hm (_ & _ & H3 & H4) v row Hv. destruct (decide (v ∈ (Version <$> ms))) as [Hin|Hn].
  - apply list_elem_of_fmap in Hin as (m & -> & Hin). destruct (H3 m Hin) as [_ [k Hk]].
    rewrite Hk in Hv. injection Hv as <-. exists m. split; [|done]. apply by_version_elem; auto.
  - apply (Hm v row). by rewrite <- H4.
Qed.

Lemma recorded_on_times l ms l' : times_roundtrip -> times_parse l -> recorded_on l ms l' -> times_parse l'.
Proof.
  intros Hrt Hp (_ & _ & H3 & H4) v row Hv. destruct (decide (v ∈ (Version <$> ms))) as [Hin|Hn].
  - apply list_elem_of_fmap in Hin as (m & -> & Hin). destruct (H3 m Hin) as [_ [k Hk]].
    rewrite Hk in Hv. injection Hv as <-. apply Hrt.
  - apply (Hp v row). by rewrite <- H4.
Qed.

Lemma recorded_on_ready migrations l db ms l' db' :
  ready migrations l db -> recorded_on l ms l' -> m_ledger db' = Some l' -> ready migrations l' db'.
Proof. intros (? & ? & ? & ? & Hh & Hn) (Hc1 & Hc2 & _) Hl. unfold ready. by rewrite Hc1, Hc2. Qed.

Lemma prefix_pending_sublist k ms rows : k `prefix_of` pending ms rows -> k `sublist_of` ms.
Proof.
  intros [rest Heq]. transitivity (pending ms rows).
  - rewrite Heq. by apply sublist_inserts_r.
  - apply (sublist_filter (fun m => rows !! Version m = None)).
Qed.

(** C37. [Down] undoes [Up], on PostgreSQL and SQLite and a database that answers: when no
    statement fails and no reply is lost in either run, the ledger has the current format and
    times that parse (as written times do), each down script takes back what its up script did,
    and the newly applied versions are the greatest of the ledger, then rolling back as many
    migrations as a successful [Up] applied runs their down scripts in reverse order and
    restores both the schema and the ledger. *)
Theorem down_undoes_up migrations l db limit completed db1 :
  calm -> times_roundtrip -> ready migrations l db -> times_parse l -> reversible migrations ->
  (forall v m, is_Some (ledger_rows l !! v) -> m ∈ pending migrations (ledger_rows l) -> String.le v (Version m)) ->
  Up limit db = ((completed, None), db1) -> completed <> [] ->
  exists db2, Down (Z.of_nat (length completed)) db1 = ((reverse completed, None), db2) /\
    m_schema db2 = m_schema db /\ m_ledger db2 = m_ledger db.
Proof.
  intros Hcalm Hrt Hready Hp Hrev Hnew Hup Hne. pose proof Hcalm as [Hf Hlost].
  destruct (up_run migrations l db limit Hready) as (c & un & err & db' & Hu & l' & Hpre & Hex & Hl' & Hrec & Hun & _ & Hm).
  rewrite Hup in Hu. injection Hu as <- <- <-. destruct Hun as [->|[[] _]]; [|done]. rewrite app_nil_r in Hpre, Hex, Hrec. specialize (Hm eq_refl).
  destruct (load_sorted _ _ (proj1 (proj2 (proj2 Hready)))) as (Hnd & Hsort & Hpairs).
  pose proof (prefix_pending_sublist _ _ _ Hpre) as Hsub.
  assert (Hnd' : NoDup (Version <$> completed)) by (eapply sublist_NoDup; [done|by apply fmap_sublist]).
  pose proof (recorded_on_ready _ _ _ _ _ _ Hready Hrec Hl') as Hready'.
  assert (Hin : forall m, m ∈ completed -> m ∈ migrations) by (intros m Hmc; by eapply elem_of_sublist).
  unfold Migrate.Down. set (steps := if _ <=? 0 then 1 else _).
  assert (Hsteps : Z.to_nat steps = length completed).
  { unfold steps. destruct completed; [done|]. cbn [length]. destruct (Z.leb_spec (Z.of_nat (Datatypes.S (length completed))) 0); lia. }
  match goal with |- context [checked E eng migrator ?k db1] =>
    pose proof (checked_ready migrations l' db1 k Hready') as Hk end.
  destruct (checked E eng migrator _ db1) as [[undone err] db3].
  destruct Hk as [(_ & _ & e & _ & He)|(recorded & db2 & err1 & db4 & [Hs2 Hl2] & Hk & [Hs4 Hl4] & _ & _ & _ & Herr)].
  { destruct (He Hcalm) as [_ []]; [by eapply recorded_on_times|by eapply recorded_on_matches]. }
  unfold lift, latest_versions, wrapM, on_ledger, statement in Hk. rewrite Hf, Hl2, Hl' in Hk. cbn in Hk.
  rewrite Hsteps, (latest_are_recorded l completed l') in Hk; [|done| |done|].
  2: { apply (StronglySorted_sublist String.le (Version <$> migrations)); [by apply fmap_sublist|done]. }
  2: { intros v m Hv Hmc. apply Hnew; [done|]. by eapply elem_of_prefix. }
  match type of Hk with down_loop _ _ _ _ _ _ ?d = _ =>
    destruct (down_loop_undoes migrations completed l l' (m_schema db) d []) as (db5 & Hrun & Hs5 & Hl5) end.
  { done. }
  { intros m Hmc. split; [apply by_version_elem; auto|]. rewrite Forall_forall in Hpairs. auto. }
  { done. }
  { intros m s s' Hmc. apply Hrev. auto. }
  { done. }
  { done. }
  { cbn. by rewrite Hs2. }
  rewrite Hrun in Hk. injection Hk as <- <- <-. rewrite (Herr Hcalm). exists db3. split; [done|].
  destruct Hready as (_ & _ & _ & Hl & _). rewrite Hs4, Hl4, Hl. done.
Qed.

(** ** Upgrading a ledger without checksums *)

(** A row completed with the checksum of its migration. *)
Definition completed_row (m : Migration) (row : ledgerRow) : ledgerRow :=
  {| l_name := l_name row; l_checksum := Some (checksum m); l_applied_at := l_applied_at row |}.

Definition backfilled (migrations : list Migration) (v : string) (row : ledgerRow) (l' : ledger) : Prop :=
  exists m, by_version migrations v = Some m /\ l_name row = mName m /\
    (l_checksum row = None \/ l_checksum row = Some (checksum m)) /\
    ledger_rows l' !! v = Some (completed_row m row).

Definition mirrors (rows : list (string * appliedMigration)) (l : ledger) : Prop :=
  forall v a, (v, a) ∈ rows -> exists row, ledger_rows l !! v = Some row /\
    a_Name a = l_name row /\ a_Checksum a = l_checksum row.

Lemma backfill_Ok v expected db l db' :
  m_ledger db = Some l -> backfill E eng migrator v expected db = (Ok tt, db') ->
  m_schema db' = m_schema db /\ exists row, ledger_rows l !! v = Some row /\ l_checksum row = None /\
    m_ledger db' = Some (with_rows (<[v := {| l_name := l_name row; l_checksum := Some expected;
                                              l_applied_at := l_applied_at row |}]> (ledger_rows l)) l).
Proof.
  intros Hl. unfold backfill, bindM, wrapM, on_ledger, statement. destruct (fault E _); [done|]. rewrite Hl.
  destruct (ledger_rows l !! v) as [row|]; [|done]. destruct (l_checksum row) eqn:Hc; [done|].
  intros [= <-]. cbn. split; [done|]. by exists row.
Qed.

Lemma verify_rows_backfill migrations rows l db db' :
  NoDup rows.*1 -> m_ledger db = Some l -> mirrors rows l ->
  verify_rows E eng migrator migrations rows true db = (Ok tt, db') ->
  m_schema db' = m_schema db /\ exists l', m_ledger db' = Some l' /\
    hasChecksum l' = hasChecksum l /\
    (forall v, v ∉ rows.*1 -> ledger_rows l' !! v = ledger_rows l !! v) /\
    (forall v row, v ∈ rows.*1 -> ledger_rows l !! v = Some row -> backfilled migrations v row l').
Proof.
  revert l db. induction rows as [|[v a] rows IH]; intros l db Hnd Hl Hmir; cbn [verify_rows fmap list_fmap fst].
  { intros [= <-]. split; [done|]. exists l. repeat split; [done|]. set_solver. }
  apply NoDup_cons in Hnd as [Hnot Hnd]. cbn in Hnot.
  destruct (by_version migrations v) as [m|] eqn:Hb; [|done]. destruct (decide (a_Name a = mName m)) as [Hn|];
    [rewrite bool_decide_eq_true_2 by done|by rewrite bool_decide_eq_false_2]. cbn [negb].
  destruct (Hmir v a) as (row & Hrow & Han & Hac); [set_solver|].
  assert (Hrest : mirrors rows l) by (intros v' a' Hin; apply Hmir; set_solver).
  destruct (a_Checksum a) as [stored|] eqn:Hstored.
  - case_bool_decide as Hs; [|done]. intros Hv. destruct (IH l db Hnd Hl Hrest Hv) as (Hsch & l' & Hl' & Hh & Hout & Hin).
    split; [done|]. exists l'. split; [done|]. split; [done|]. split; [intros v' Hv'; apply Hout; set_solver|].
    intros v' row' Hv' Hr'. apply elem_of_cons in Hv' as [->|Hv']; [|by apply Hin].
    rewrite Hrow in Hr'. injection Hr' as <-. exists m. split; [done|]. split; [congruence|].
    split; [right; congruence|]. rewrite Hout, Hrow by done. destruct row; unfold completed_row; cbn in *. congruence.
  - unfold bindM. destruct (backfill E eng migrator v (checksum m) db) as [[[]|] db1] eqn:Hbf; [|done].
    destruct (backfill_Ok _ _ _ _ _ Hl Hbf) as (Hs1 & row1 & Hrow1 & _ & Hl1).
    rewrite Hrow in Hrow1. injection Hrow1 as <-. intros Hv.
    destruct (IH _ db1 Hnd Hl1) with (2 := Hv) as (Hsch & l' & Hl' & Hh & Hout & Hin).
    { intros v' a' Hin. destruct (Hrest v' a' Hin) as (row' & Hr' & ?). exists row'. split; [|done]. cbn.
      rewrite lookup_insert_ne; [done|]. intros ->. apply Hnot. apply list_elem_of_fmap. by exists (v', a'). }
    split; [congruence|]. exists l'. split; [done|]. split; [done|]. cbn in Hout. split.
    + intros v' Hv'. rewrite Hout by set_solver. apply lookup_insert_ne. set_solver.
    + intros v' row' Hv' Hr'. apply elem_of_cons in Hv' as [->|Hv'].
      * rewrite Hrow in Hr'. injection Hr' as <-. exists m. split; [done|]. split; [congruence|].
        split; [left; congruence|]. rewrite Hout by done. apply lookup_insert_eq.
      * apply Hin; [done|]. cbn. rewrite lookup_insert_ne; [done|]. intros ->. done.
Qed.

(** The ledger with its checksum column added, all NULL when it had none. *)
Definition with_column (l : ledger) : ledger :=
  if hasChecksum l then l
  else {| hasChecksum := true; checksumNullable := true;
          ledger_rows := (fun r => {| l_name := l_name r; l_checksum := None; l_applied_at := l_applied_at r |})
                         <$> ledger_rows l |}.

(** What a completed upgrade wrote. *)
Lemma upgrade_steps_Ok migrations l db db' :
  m_ledger db = Some l ->
  bindM (if hasChecksum l then ret tt else addNullableChecksum E eng migrator) (fun _ =>
  bindM applied (fun recorded =>
  bindM (verifyApplied migrations recorded true) (fun _ => enforceChecksumNotNull E eng migrator))) db = (Ok tt, db') ->
  m_schema db' = m_schema db /\ exists l', m_ledger db' = Some l' /\ hasChecksum l' = true /\ checksumNullable l' = false /\
    (forall v, ledger_rows l !! v = None -> ledger_rows l' !! v = None) /\
    (forall v row, ledger_rows (with_column l) !! v = Some row -> backfilled migrations v row l').
Proof.
  intros Hl. set (add := if hasChecksum l then _ else _). unfold bindM at 1.
  destruct (add db) as [[[]|] db1] eqn:Hadd; [|done].
  assert (Hdb1 : m_schema db1 = m_schema db /\ m_ledger db1 = Some (with_column l)).
  { unfold add, with_column in *. destruct (hasChecksum l) eqn:Hh; [injection Hadd as <-; done|].
    unfold addNullableChecksum, wrapM, on_ledger, statement in Hadd. destruct (fault E _); [done|].
    rewrite Hl, Hh in Hadd. by injection Hadd as <-. }
  destruct Hdb1 as [Hs1 Hl1]. unfold bindM at 1. pose proof (applied_reads db1) as [Hs2 Hl2].
  destruct (applied db1) as [[recorded|] db2] eqn:Ha; [|done]. cbn in Hs2, Hl2. rewrite Hl1 in Hl2.
  destruct (applied_Ok _ _ _ Ha) as (l1 & Heq & _ & Hdom & Hrows). rewrite Hl1 in Heq. injection Heq as <-.
  unfold bindM, Migrate.verifyApplied. destruct (table migrator); [done|].
  destruct (verify_rows E eng migrator migrations _ true db2) as [[[]|] db3] eqn:Hv; [|done].
  apply (verify_rows_backfill migrations _ (with_column l)) in Hv as (Hs3 & l3 & Hl3 & Hh3 & Hout & Hin);
    [|apply NoDup_fst_map_to_list|done|].
  2: { intros v a Hva. apply elem_of_map_to_list in Hva. destruct (proj1 (Hdom v)) as [row Hrow]; [by rewrite Hva|].
       destruct (Hrows v row Hrow) as (at_ & _ & Hr). rewrite Hva in Hr. injection Hr as ->. by exists row. }
  unfold enforceChecksumNotNull, wrapM, on_ledger, statement. destruct (fault E _); [done|]. rewrite Hl3.
  destruct (forallb _ _); [|done]. intros [= <-]. cbn. split; [congruence|]. eexists. split; [done|]. cbn.
  split; [done|]. split; [done|]. setoid_rewrite elem_of_keys in Hout. setoid_rewrite elem_of_keys in Hin. split.
  - intros v Hnone. assert (Hn : ledger_rows (with_column l) !! v = None).
    { unfold with_column. destruct (hasChecksum l); [done|]. cbn. by rewrite lookup_fmap, Hnone. }
    rewrite Hout; [done|]. rewrite Hdom, Hn. by intros [].
  - intros v row Hrow. destruct (Hin v row) as (m & ?); [rewrite Hdom; by exists row|done|]. by exists m.
Qed.

(** A legacy ledger is upgraded completely or left alone: on a transactional dialect
    [prepare] never touches the schema; when it fails the ledger is unchanged, and when it
    succeeds the checksum column is mandatory, no row was added or dropped, and every row
    carries the checksum of the migration of its version and name - a checksum that was
    already recorded had to agree, it is never replaced. *)
Theorem legacy_upgrade_is_all_or_nothing migrations l db r db' :
  (forall n, lostReply E n = None) -> m_ledger db = Some l ->
  hasChecksum l = false \/ checksumNullable l = true ->
  prepare E eng migrator migrations db = (r, db') ->
  m_schema db' = m_schema db /\
  match r with
  | Err _ => m_ledger db' = m_ledger db
  | Ok _ => exists l', m_ledger db' = Some l' /\ hasChecksum l' = true /\ checksumNullable l' = false /\
      (forall v, ledger_rows l !! v = None -> ledger_rows l' !! v = None) /\
      (forall v row, ledger_rows (with_column l) !! v = Some row -> backfilled migrations v row l')
  end.
Proof.
  intros Hlost Hl Hlegacy. unfold prepare. destruct (validate migrator); [by intros [= <- <-]|].
  destruct (table migrator); [by intros [= <- <-]|]. unfold createLedger, columnState, bindM, wrapM, statement.
  destruct (fault E (m_tick db)); [by intros [= <- <-]|]. rewrite Hl.
  cbn [tx_bump migDb_tx m_tick m_ledger]. rewrite Hl. destruct (fault E (Datatypes.S _)); [by intros [= <- <-]|].
  assert (Hg : negb (hasChecksum l) || (hasChecksum l && checksumNullable l) = true).
  { destruct Hlegacy as [->| ->]; [done|]. by destruct (hasChecksum l). }
  rewrite Hg. intros Hrun.
  match type of Hrun with upgradeLegacyChecksums _ _ _ _ _ ?d = _ => set (db1 := d) in Hrun end.
  unfold upgradeLegacyChecksums, inTransaction in Hrun.
  assert (Hrun' : transact (H := migDb_tx eng migrator) E "begin migration transaction: %w"
      "commit migration transaction: %w" "rollback migration transaction: %w"
      (bindM (if hasChecksum l then ret tt else addNullableChecksum E eng migrator) (fun _ =>
       bindM applied (fun recorded => bindM (verifyApplied migrations recorded true) (fun _ =>
         enforceChecksumNotNull E eng migrator)))) db1 = (r, db')) by (by destruct (dialect migrator)).
  clear Hrun. rename Hrun' into Hrun. destruct r as [[]|e].
  - apply transact_Ok in Hrun as (st1 & Hw & ->). apply (upgrade_steps_Ok _ l) in Hw; [|done]. done.
  - apply transact_Err in Hrun as [->|[[st1 ->]|(? & st1 & lost & _ & _ & Hx)]]; [done| |congruence].
    by destruct (tx_restore_same db1 st1) as [-> ->].
Qed.

End migrate_facts.

(** ** A concrete migrator: two migrations, the first already applied *)

Module MigrateSample.
Definition file (name text : string) : dirEntry :=
  {| de_Name := name; de_IsDir := false; de_contents := Ok text |}.

Definition entries : list dirEntry :=
  [file "0001_users.down.sql" "drop users"; file "0001_users.up.sql" "create users";
   file "0002_posts.down.sql" "drop posts"; file "0002_posts.up.sql" "create posts";
   file "README.md" "notes"].

(** The schema is the list of tables, the last created first. *)
Definition run (script : string) (tables : list string) : result (list string) :=
  if bool_decide (script = "create users") then Ok ("users" :: tables)
  else if bool_decide (script = "create posts") then Ok ("posts" :: tables)
  else match tables with
       | t :: rest => if bool_decide (script = "drop " +:+ t) then Ok rest else Err (Errorf "no such table")
       | [] => Err (Errorf "no such table")
       end.

Definition eng : engine (list string) :=
  {| exec := run; mysql_rollback := fun before _ => before; sha256hex := fun s => "sha:" +:+ s;
     format_time := fun _ => "2024-05-01T10:00:00Z"; parse_time := fun _ => Ok 63850154400000000000;
     wall_clock := fun _ => 63850154400000000000 |}.

Definition migrator : Migrator :=
  {| DB_present := true; Files := Some (Ok entries); dialect := Postgres; Table := EmptyString |}.

Definition users : Migration :=
  {| Version := "0001"; mName := "users"; Up_ := "create users"; Down_ := "drop users" |}.
Definition posts : Migration :=
  {| Version := "0002"; mName := "posts"; Up_ := "create posts"; Down_ := "drop posts" |}.

Definition E : env := calm_env 63850154400000000000.

Definition row (sum : option string) : ledgerRow :=
  {| l_name := "users"; l_checksum := sum; l_applied_at := "2024-04-01T10:00:00Z" |}.

Definition current (sum : string) : ledger :=
  {| hasChecksum := true; checksumNullable := false; ledger_rows := {[ "0001" := row (Some sum) ]} |}.

Definition db (l : ledger) : migDb (list string) :=
  {| m_schema := ["users"]; m_ledger := Some l; m_tick := 0 |}.

Lemma E_calm : calm E.
Proof. done. Qed.

Lemma sample_ready sum : ready migrator [users; posts] (current sum) (db (current sum)).
Proof.
  split; [vm_compute; reflexivity|]. split; [vm_compute; reflexivity|]. split; [vm_compute; reflexivity|].
  split; [reflexivity|]. split; reflexivity.
Qed.

Lemma sample_times sum : times_parse eng (current sum).
Proof. intros v r _. reflexivity. Qed.

Lemma sample_matches sum : ledger_matches eng [users; posts] (current sum) <-> sum = "sha:create users".
Proof.
  split.
  - intros H. destruct (H "0001" (row (Some sum))) as (m & Hb & _ & Hc); [reflexivity|].
    assert (Hm : by_version [users; posts] "0001" = Some users) by (vm_compute; reflexivity).
    rewrite Hm in Hb. injection Hb as <-. by injection Hc as ->.
  - intros -> v r Hv. cbn in Hv. apply lookup_singleton_Some in Hv as [<- <-]. exists users.
    split; [vm_compute; reflexivity|]. done.
Qed.

Lemma sample_pending sum : pending [users; posts] (ledger_rows (current sum)) = [posts].
Proof. vm_compute. reflexivity. Qed.

Lemma sample_reversible : reversible eng [users; posts].
Proof.
  intros m s s' Hm. rewrite !elem_of_cons, elem_of_nil in Hm. destruct Hm as [->|[->|[]]]; cbn;
    intros [= <-]; reflexivity.
Qed.
End MigrateSample.

Import MigrateSample.

(** The sample with an edited [users] script drifts, the sound one has [posts] pending. *)
Lemma verify_decides_integrity_witness :
  exists e, (Migrate.Verify MigrateSample.E MigrateSample.eng migrator (db (current "sha:create users"))).1 = Err e /\
    errors_Is e ErrPendingMigration = true.
Proof.
  apply (verify_decides_integrity MigrateSample.E MigrateSample.eng migrator ltac:(done)
           [users; posts] (current "sha:create users")).
  - exact E_calm.
  - apply sample_ready.
  - apply sample_times.
  - by apply sample_matches.
  - vm_compute. discriminate.
Defined.

Lemma drift_fails_closed_witness :
  exists e db', Migrate.Up MigrateSample.E MigrateSample.eng migrator 0 (db (current "sha:edited")) = (([], Some e), db') /\
    errors_Is e ErrMigrationDrift = true /\ same_db (db (current "sha:edited")) db'.
Proof.
  apply (drift_fails_closed MigrateSample.E MigrateSample.eng migrator ltac:(done)
           [users; posts] (current "sha:edited") (db (current "sha:edited")) 0 1).
  - exact E_calm.
  - apply sample_ready.
  - apply sample_times.
  - rewrite sample_matches. discriminate.
Defined.

Lemma up_applies_a_prefix_witness :
  exists completed err db' l',
    Migrate.Up MigrateSample.E MigrateSample.eng migrator 0 (db (current "sha:create users")) = ((completed, err), db') /\
    completed `prefix_of` [posts] /\
    exec_all MigrateSample.eng completed ["users"] = Ok (m_schema db') /\
    m_ledger db' = Some l' /\ recorded_on MigrateSample.eng (current "sha:create users") completed l' /\
    (err = None -> completed = [posts]).
Proof.
  destruct (up_applies_a_prefix MigrateSample.E MigrateSample.eng migrator ltac:(done)
           [users; posts] (current "sha:create users") (db (current "sha:create users")) 0)
    as (completed & unreported & err & db' & l' & Hup & Hpre & Hex & Hl & Hrec & Hun & Hall); [apply sample_ready|].
  assert (unreported = []) as -> by (destruct Hun as [H|(_ & _ & n & lost & [=])]; exact H). rewrite app_nil_r in Hpre, Hex, Hrec.
  exists completed, err, db', l'. split; [exact Hup|]. split; [exact Hpre|]. split; [exact Hex|]. split; [exact Hl|]. split; [exact Hrec|exact Hall].
Defined.

Lemma down_undoes_up_witness :
  exists db1 db2,
    Migrate.Up MigrateSample.E MigrateSample.eng migrator 0 (db (current "sha:create users")) = (([posts], None), db1) /\
    Migrate.Down MigrateSample.E MigrateSample.eng migrator 1 db1 = (([posts], None), db2) /\
    m_schema db1 = ["posts"; "users"] /\ m_schema db2 = ["users"] /\
    m_ledger db2 = Some (current "sha:create users").
Proof.
  eexists.
  edestruct (down_undoes_up MigrateSample.E MigrateSample.eng migrator ltac:(done) [users; posts]
    (current "sha:create users") (db (current "sha:create users")) 0 [posts]) as (db2 & Hd & Hs & Hl).
  - exact E_calm.
  - done.
  - apply sample_ready.
  - apply sample_times.
  - apply sample_reversible.
  - intros v m Hv Hm. rewrite sample_pending in Hm. apply list_elem_of_singleton in Hm as ->.
    destruct Hv as [r Hv]. cbn in Hv. apply lookup_singleton_Some in Hv as [<- _]. vm_compute. exact I.
  - vm_compute. reflexivity.
  - discriminate.
  - exists db2. split; [vm_compute; reflexivity|]. split; [exact Hd|]. split; [vm_compute; reflexivity|]. split; [exact Hs|exact Hl].
Defined.

Lemma legacy_upgrade_is_all_or_nothing_witness :
  let legacy := {| hasChecksum := false; checksumNullable := false; ledger_rows := {[ "0001" := row None ]} |} in
  exists db' l', prepare MigrateSample.E MigrateSample.eng migrator [users; posts] (db legacy) = (Ok tt, db') /\
    m_ledger db' = Some l' /\ backfilled MigrateSample.eng [users; posts] "0001" (row None) l'.
Proof.
  intros legacy.
  pose proof (legacy_upgrade_is_all_or_nothing MigrateSample.E MigrateSample.eng migrator ltac:(done)
    [users; posts] legacy (db legacy)
    (prepare MigrateSample.E MigrateSample.eng migrator [users; posts] (db legacy)).1
    (prepare MigrateSample.E MigrateSample.eng migrator [users; posts] (db legacy)).2) as H.
  assert (Hok : (prepare MigrateSample.E MigrateSample.eng migrator [users; posts] (db legacy)).1 = Ok tt)
    by (vm_compute; reflexivity).
  rewrite Hok in H. destruct H as (_ & l' & Hl & _ & _ & _ & Hb).
  - done.
  - reflexivity.
  - by left.
  - rewrite <- Hok. apply surjective_pairing.
  - exists (prepare MigrateSample.E MigrateSample.eng migrator [users; posts] (db legacy)).2, l'.
    split; [rewrite <- Hok; apply surjective_pairing|]. split; [exact Hl|]. apply Hb. reflexivity.
Defined.
