(* ===== verification/Security.v ===== *)
(** * Tokens, CSRF tokens and password hashes

    Packages [security/token], [security/csrf] and [security/password].

    Hash functions and entropy come from outside: [sha256], [derive] (PBKDF2) and the
    bytes a reader delivers are arguments.  [io.ReadFull] and [rand.Read] deliver exactly
    the requested number of bytes or an error, so an entropy argument is a [result]. *)

From S2P Require Import Prelude GoStrings GoEncoding Session.
Local Open Scope Z_scope.

(** [subtle.ConstantTimeCompare]: 1 exactly on equal slices. *)
Definition ConstantTimeCompare (a b : string) : Z := if bool_decide (a = b) then 1 else 0.

(** [strings.Count] of a one-byte string. *)
Fixpoint CountByte (c : ascii) (s : string) : Z :=
  match s with
  | EmptyString => 0
  | String x s' => (if bool_decide (x = c) then 1 else 0) + CountByte c s'
  end.

(** A byte array of [n] zeros with a slice copied over its front. *)
Fixpoint zeros (n : nat) : string :=
  match n with O => EmptyString | S n' => String (byte_of 0) (zeros n') end.

Definition copy_into (n : nat) (src : string) : string :=
  take_string n src +:+ zeros (n - String.length src).

(** ** [security/token] *)

Module Token.
Definition selectorBytes : nat := 16.
Definition secretBytes : nat := 32.
Definition digestBytes : nat := 32.
Definition selectorLength : nat := 22.
Definition secretLength : nat := 43.
Definition presentedLength : nat := selectorLength + 1 + secretLength.

Definition ErrInvalidToken : error := Sentinel "token: invalid token".

Record Issued : Type := { i_Selector : string; i_Presented : string; i_digest : string }.
Record Parsed : Type := { p_Selector : string; p_digest : string; p_valid : Z }.

Section token.
Variable sha256 : string -> string.

Definition encode : string -> string := b64Encode URLAlphabet.

(** [Issuer.Issue]; [None] is a nil reader. *)
Definition Issue (entropy : option (result string)) : result Issued :=
  match entropy with
  | None => Err (Errorf "token: entropy source is required")
  | Some (Err e) => Err (Wrapf "token: generate entropy: %w" e)
  | Some (Ok material) =>
      let selector := encode (take_string selectorBytes material) in
      let secret := encode (drop_string selectorBytes material) in
      Ok {| i_Selector := selector; i_Presented := selector +:+ "." +:+ secret;
            i_digest := sha256 (drop_string selectorBytes material) |}
  end.

(** The decoded bytes when there are exactly [size] of them and they encode back. *)
Definition decodeCanonical (encoded : string) (size : nat) : option string :=
  match b64Decode URLAlphabet true encoded with
  | None => None
  | Some bytes =>
      if negb (bool_decide (String.length bytes = size)) then None
      else if bool_decide (encode bytes = encoded) then Some bytes else None
  end.

Definition Parse (presented : string) : result Parsed :=
  if negb (bool_decide (String.length presented = presentedLength))
     || negb (bool_decide (String.get selectorLength presented = Some "."%char))
     || negb (CountByte "." presented =? 1)
  then Err ErrInvalidToken
  else
    let selectorText := take_string selectorLength presented in
    let secretText := drop_string (selectorLength + 1) presented in
    match decodeCanonical selectorText selectorBytes, decodeCanonical secretText secretBytes with
    | Some _, Some secret => Ok {| p_Selector := selectorText; p_digest := sha256 secret; p_valid := 1 |}
    | _, _ => Err ErrInvalidToken
    end.

Definition MatchDigest (stored : string) (candidate : Parsed) : bool :=
  let expected := copy_into digestBytes stored in
  let digestMatches := ConstantTimeCompare expected (p_digest candidate) in
  let validCandidate := if p_valid candidate =? 1 then 1 else 0 in
  bool_decide (String.length stored = digestBytes) && (Z.land validCandidate digestMatches =? 1).
End token.
End Token.

(** ** [security/csrf] *)

Module Csrf.
Definition tokenBytes : nat := 32.
Definition sessionKey : string := "_goforge.csrf.token".

Definition ErrInvalidToken : error := Sentinel "csrf: invalid token".
Definition ErrSessionRequired : error := Sentinel "csrf: session is required".

Section csrf.
(** [encoding/json] on strings. *)
Variable json_encode : string -> result string.
Variable json_decode : string -> result string.

Definition decode (value : string) : option string :=
  if negb (byte_len value =? b64EncodedLen (Z.of_nat tokenBytes)) then None
  else match b64Decode URLAlphabet true value with
       | Some bytes => if bool_decide (String.length bytes = tokenBytes) then Some bytes else None
       | None => None
       end.

Definition generate (entropy : result string) : result string :=
  match entropy with
  | Err e => Err (Wrapf "csrf: generate token: %w" e)
  | Ok bytes => Ok (b64Encode URLAlphabet bytes)
  end.

(** Operations on the request's session; [None] is a nil session. *)
Definition Rotate (entropy : result string) : M (option Session) string := fun current =>
  match current with
  | None => (Err ErrSessionRequired, current)
  | Some s =>
      match generate entropy with
      | Err e => (Err e, current)
      | Ok token =>
          match Session_Put sessionKey (json_encode token) s with
          | Err e => (Err (Wrapf "csrf: store session token: %w" e), current)
          | Ok s' => (Ok token, Some s')
          end
      end
  end.

Definition Ensure (entropy : result string) : M (option Session) string := fun current =>
  match current with
  | None => (Err ErrSessionRequired, current)
  | Some s =>
      match Session_Get json_decode sessionKey s with
      | (_, Err e) => (Err (Wrapf "csrf: read session token: %w" e), current)
      | (true, Ok token) =>
          let token := default EmptyString token in
          match decode token with
          | None => (Err ErrInvalidToken, current)
          | Some _ => (Ok token, current)
          end
      | (false, Ok _) => Rotate entropy current
      end
  end.

Definition Validate (current : option Session) (submitted : string) : option error :=
  match current with
  | None => Some ErrSessionRequired
  | Some s =>
      match Session_Get json_decode sessionKey s with
      | (_, Err e) => Some (Wrapf "csrf: read session token: %w" e)
      | (present, Ok stored) =>
          let expected := decode (default EmptyString stored) in
          let provided := decode submitted in
          let matched := ConstantTimeCompare (default (zeros tokenBytes) expected)
                                             (default (zeros tokenBytes) provided) in
          if negb present || negb (bool_decide (is_Some expected))
             || negb (bool_decide (is_Some provided)) || negb (matched =? 1)
          then Some ErrInvalidToken else None
      end
  end.
End csrf.
End Csrf.

(** ** [security/password] *)

Module Password.
Definition DefaultIterations : Z := 600000.
Definition saltBytes : nat := 16.
Definition keyBytes : nat := 32.
Definition maximumPassword : Z := 4096.
Definition maximumIterations : Z := 10000000.

Definition ErrInvalidHash : error := Sentinel "invalid password hash".

Record Hasher : Type := { Iterations : Z }.

Definition New : Hasher := {| Iterations := DefaultIterations |}.

Definition iterations (hasher : Hasher) : Z :=
  if Iterations hasher <=? 0 then DefaultIterations else Iterations hasher.

Section password.
(** [pbkdf2.Key] with SHA-256: password, salt, iterations, length. *)
Variable derive : string -> string -> Z -> nat -> result string.

(** The state counts the iterations spent, which is what an attacker can time. *)
Definition derivePassword (plain salt : string) (n : Z) (length : nat) : M Z string :=
  fun work => (derive plain salt n length, work + n).

Definition Hash (hasher : Hasher) (plain : string) (salt : result string) : M Z string :=
  if bool_decide (plain = EmptyString) then throw (Errorf "password cannot be empty")
  else if byte_len plain >? maximumPassword then throw (Errorf "password exceeds %d bytes")
  else if iterations hasher >? maximumIterations then throw (Errorf "password iterations exceed %d")
  else match salt with
  | Err e => throw (Wrapf "generate password salt: %w" e)
  | Ok salt =>
      bindM (wrapM "derive password hash: %w" (derivePassword plain salt (iterations hasher) keyBytes))
        (fun derived => ret ("$goforge$pbkdf2-sha256$" +:+ Itoa (iterations hasher) +:+ "$"
           +:+ b64Encode StdAlphabet salt +:+ "$" +:+ b64Encode StdAlphabet derived))
  end.

Definition parse (encoded : string) : result (Z * string * string) :=
  match Split encoded "$" with
  | [p0; p1; p2; p3; p4; p5] =>
      if negb (bool_decide (p0 = EmptyString)) || negb (bool_decide (p1 = "goforge"))
         || negb (bool_decide (p2 = "pbkdf2-sha256"))
      then Err ErrInvalidHash
      else match Atoi p3 with
      | None => Err ErrInvalidHash
      | Some n =>
          if (n <? 1) || (n >? maximumIterations) then Err ErrInvalidHash
          else match b64Decode StdAlphabet false p4 with
          | None => Err ErrInvalidHash
          | Some salt =>
              if (String.length salt <? saltBytes)%nat then Err ErrInvalidHash
              else match b64Decode StdAlphabet false p5 with
              | None => Err ErrInvalidHash
              | Some expected =>
                  if negb (bool_decide (String.length expected = keyBytes)) then Err ErrInvalidHash
                  else Ok (n, salt, expected)
              end
          end
      end
  | _ => Err ErrInvalidHash
  end.

Definition Verify (encoded plain : string) : M Z bool :=
  match parse encoded with
  | Err e => throw e
  | Ok (n, salt, expected) =>
      if byte_len plain >? maximumPassword then ret false
      else bindM (wrapM "derive password hash: %w" (derivePassword plain salt n (String.length expected)))
             (fun actual => ret (ConstantTimeCompare actual expected =? 1))
  end.

Definition clamped (hasher : Hasher) : Z :=
  if iterations hasher >? maximumIterations then maximumIterations else iterations hasher.

Definition DummyVerify (hasher : Hasher) (plain : string) : M Z unit := fun work =>
  (Ok tt, (derivePassword plain (zeros saltBytes) (clamped hasher) keyBytes work).2).

Definition VerifyCurrent (hasher : Hasher) (encoded plain : string) : M Z bool :=
  match parse encoded with
  | Err e => bindM (DummyVerify hasher plain) (fun _ => throw e)
  | Ok (n, salt, expected) =>
      if byte_len plain >? maximumPassword then bindM (DummyVerify hasher plain) (fun _ => ret false)
      else
      bindM (wrapM "derive password hash: %w" (derivePassword plain salt n (String.length expected)))
        (fun actual =>
         let matched := ConstantTimeCompare actual expected =? 1 in
         let remaining := clamped hasher - n in
         if negb matched && (remaining >? 0)
         then bindM (wrapM "pad password verification: %w"
                       (derivePassword plain (zeros saltBytes) remaining keyBytes))
                (fun _ => ret matched)
         else ret matched)
  end.

Definition NeedsRehash (hasher : Hasher) (encoded : string) : bool :=
  match parse encoded with
  | Err _ => true
  | Ok (n, _, _) => n <? iterations hasher
  end.
End password.
End Password.
