(* ===== verification/SecurityProps.v ===== *)
(** * Properties of tokens, CSRF tokens and password hashes *)

From S2P Require Import Prelude GoStrings GoEncoding Session Security.
Local Open Scope Z_scope.

(** ** Strict base64 is canonical *)

Lemma b64_char_value a c v : b64_value a c = Some v -> 0 <= v < 64 /\ b64_char a v = c.
Proof.
  pose proof (byte_val_range c) as Hc. unfold b64_value, b64_char.
  destruct ((65 <=? byte_val c) && (byte_val c <=? 90)) eqn:H1.
  { intros [= <-]. bool_to_prop. split; [lia|]. rewrite (proj2 (Z.ltb_lt _ _)) by lia. apply byte_of_eq. lia. }
  destruct ((97 <=? byte_val c) && (byte_val c <=? 122)) eqn:H2.
  { intros [= <-]. bool_to_prop. split; [lia|]. rewrite (proj2 (Z.ltb_ge _ _)), (proj2 (Z.ltb_lt _ _)) by lia.
    apply byte_of_eq. lia. }
  destruct ((48 <=? byte_val c) && (byte_val c <=? 57)) eqn:H3.
  { intros [= <-]. bool_to_prop. split; [lia|].
    rewrite (proj2 (Z.ltb_ge (byte_val c + 4) 26)), (proj2 (Z.ltb_ge (byte_val c + 4) 52)), (proj2 (Z.ltb_lt _ _)) by lia.
    apply byte_of_eq. lia. }
  assert (Hval : forall z, byte_val c = z -> c = byte_of z) by (intros z <-; symmetry; apply byte_of_val).
  destruct a; repeat match goal with |- context [byte_val c =? ?k] => destruct (Z.eqb_spec (byte_val c) k) as [Heq|] end;
    intros [= <-]; (split; [lia|]); rewrite (Hval _ Heq); reflexivity.
Qed.

Lemma string_ind4 (P : string -> Prop) :
  P EmptyString -> (forall x, P (String x EmptyString)) ->
  (forall x y, P (String x (String y EmptyString))) ->
  (forall x y z, P (String x (String y (String z EmptyString)))) ->
  (forall x y z t s, P s -> P (String x (String y (String z (String t s))))) ->
  forall s, P s.
Proof.
  intros H0 H1 H2 H3 H4. fix IH 1. intros [|x [|y [|z [|t s]]]]; [done|apply H1|apply H2|apply H3|apply H4, IH].
Qed.

Ltac b64_digits :=
  repeat match goal with
  | H : match b64_value ?a ?c with Some _ => _ | None => _ end = Some _ |- _ =>
      let v := fresh "v" in let Hv := fresh "Hv" in
      destruct (b64_value a c) as [v|] eqn:Hv; [apply b64_char_value in Hv as [? ?]|discriminate H]
  end.

Ltac b64_equal :=
  repeat match goal with
  | |- String _ _ = String _ _ => apply f_equal2
  | |- b64_char ?a _ = b64_char ?a _ => f_equal; Z.div_mod_to_equations; lia
  | |- _ => reflexivity
  end.

(** What the strict decoder accepts is what the encoder writes. *)
Lemma b64_strict_canonical a s b : b64Decode_quads a true s = Some b -> b64Encode a b = s.
Proof.
  revert b. induction s as [|x|x y|x y z|x y z t s IH] using string_ind4; intros b H.
  - by injection H as <-.
  - done.
  - cbn [b64Decode_quads] in H. b64_digits. cbn in H. destruct (Z.eqb_spec (v0 mod 16) 0); [|done]. injection H as <-.
    cbn [b64Encode]. rewrite byte_val_of by (Z.div_mod_to_equations; lia). subst. b64_equal.
  - cbn [b64Decode_quads] in H. b64_digits. cbn in H. destruct (Z.eqb_spec (v1 mod 4) 0); [|done]. injection H as <-.
    cbn [b64Encode]. rewrite !byte_val_of by (Z.div_mod_to_equations; lia). subst. b64_equal.
  - cbn [b64Decode_quads] in H. b64_digits. destruct (b64Decode_quads a true s) as [rest|]; [|done].
    injection H as <-. cbn [b64Encode]. rewrite (IH rest eq_refl), !byte_val_of by (Z.div_mod_to_equations; lia). subst. b64_equal.
Qed.

Lemma strip_newlines_length s :
  (String.length (strip_newlines s) <= String.length s)%nat /\
  (String.length (strip_newlines s) = String.length s -> strip_newlines s = s).
Proof.
  induction s as [|c s [IH1 IH2]]; [done|]. cbn. destruct (_ || _); cbn; [lia|].
  split; [lia|]. intros H. f_equal. apply IH2. lia.
Qed.

(** The decoder skips line breaks, but then the text is longer than what it decodes to. *)
Lemma b64_exact_length a s b :
  b64Decode a true s = Some b -> byte_len s = b64EncodedLen (byte_len b) -> b64Encode a b = s.
Proof.
  unfold b64Decode. intros Hd Hlen. apply b64_strict_canonical in Hd. rewrite <- b64Encode_length with (a := a) in Hlen.
  rewrite Hd in Hlen |- *. unfold byte_len in Hlen. apply strip_newlines_length. lia.
Qed.

(** ** Strings around a separator *)



Lemma take_drop_string n s : take_string n s +:+ drop_string n s = s.
Proof.
  revert s. induction n as [|n IH]; intros [|c s]; cbn; [done..|]. rewrite string_app_cons. by rewrite IH.
Qed.

Lemma take_string_len n s : (n <= String.length s)%nat -> String.length (take_string n s) = n.
Proof. revert s. induction n as [|n IH]; intros [|c s] H; cbn in *; [done..|lia|]. f_equal. apply IH. lia. Qed.


Lemma get_app_length a c s : String.get (String.length a) (a +:+ String c s) = Some c.
Proof. induction a as [|x a IH]; [done|]. rewrite string_app_cons. apply IH. Qed.

Lemma get_drop n s c : String.get n s = Some c -> drop_string n s = String c (drop_string (S n) s).
Proof.
  revert s. induction n as [|n IH]; intros [|x s]; cbn; [done| |done|].
  - intros [= ->]. by destruct s.
  - intros H. rewrite (IH s H). by destruct s.
Qed.

Lemma CountByte_app c a b : CountByte c (a +:+ b) = CountByte c a + CountByte c b.
Proof. induction a as [|x a IH]; [done|]. rewrite string_app_cons. cbn [CountByte]. rewrite IH. lia. Qed.

Lemma CountByte_absent c s : all_chars (fun x => negb (bool_decide (x = c))) s = true -> CountByte c s = 0.
Proof.
  induction s as [|x s IH]; [done|]. cbn. intros H. apply andb_true_iff in H as [H1 H2]. bool_to_prop.
  rewrite bool_decide_eq_false_2 by done. rewrite IH; done.
Qed.

(** No character of a base64 text is [c], when none of the alphabet is. *)
Lemma b64Encode_avoids a c s :
  b64_value a c = None -> all_chars (fun x => negb (bool_decide (x = c))) (b64Encode a s) = true.
Proof.
  intros Hc. assert (Hne : forall v, 0 <= v < 64 -> negb (bool_decide (b64_char a v = c)) = true).
  { intros v Hv. apply negb_true_iff, bool_decide_eq_false_2. intros Heq.
    pose proof (b64_value_char a v Hv) as Hval. rewrite Heq in Hval. congruence. }
  induction s as [|x|x y|x y z s IH] using string_ind3; [done|..]; byte_ranges; cbn [b64Encode all_chars];
    repeat rewrite Hne by (split; [Z.div_mod_to_equations; lia|Z.div_mod_to_equations; lia]);
    [done|done|by rewrite IH].
Qed.

(** ** Tokens *)

Section tokens.
Variable sha256 : string -> string.
Hypothesis sha256_size : forall x, String.length (sha256 x) = Token.digestBytes.

Lemma encode_length b n m :
  String.length b = n -> b64EncodedLen (Z.of_nat n) = Z.of_nat m -> String.length (Token.encode b) = m.
Proof.
  intros <- H. pose proof (b64Encode_length URLAlphabet b) as Hl. unfold byte_len in Hl. unfold Token.encode. lia.
Qed.

Lemma decodeCanonical_spec text n b :
  Token.decodeCanonical text n = Some b <-> String.length b = n /\ text = Token.encode b.
Proof.
  unfold Token.decodeCanonical, Token.encode. split.
  - destruct (b64Decode _ _ _) as [bytes|]; [|done]. destruct (decide (String.length bytes = n)) as [Hn|];
      [rewrite bool_decide_eq_true_2 by done|by rewrite bool_decide_eq_false_2].
    cbn. case_bool_decide; [|done]. by intros [= <-].
  - intros [Hn ->]. rewrite b64Decode_Encode, bool_decide_eq_true_2 by done. cbn. by rewrite bool_decide_eq_true_2.
Qed.

(** The texts [Parse] accepts are the ones [Issue] writes. *)
Lemma Parse_spec presented p :
  Token.Parse sha256 presented = Ok p <->
  exists selector secret, String.length selector = Token.selectorBytes /\ String.length secret = Token.secretBytes /\
    presented = Token.encode selector +:+ String "." (Token.encode secret) /\
    p = {| Token.p_Selector := Token.encode selector; Token.p_digest := sha256 secret; Token.p_valid := 1 |}.
Proof.
  unfold Token.Parse. split.
  - destruct (_ || _) eqn:Hg; [done|]. bool_to_prop.
    destruct (Token.decodeCanonical _ Token.selectorBytes) as [selector|] eqn:Hsel; [|done].
    destruct (Token.decodeCanonical _ Token.secretBytes) as [secret|] eqn:Hsec; [|done].
    apply decodeCanonical_spec in Hsel as [Hl1 Heq1], Hsec as [Hl2 Heq2]. intros [= <-].
    exists selector, secret. split; [done|]. split; [done|]. rewrite <- Heq1. split; [|done].
    rewrite <- Heq2. rewrite <- (take_drop_string Token.selectorLength presented) at 1. f_equal.
    by apply get_drop.
  - intros (selector & secret & Hl1 & Hl2 & -> & ->).
    pose proof (encode_length selector _ Token.selectorLength Hl1 eq_refl) as Hn1.
    pose proof (encode_length secret _ Token.secretLength Hl2 eq_refl) as Hn2.
    rewrite bool_decide_eq_true_2 by (rewrite string_length_app; cbn [String.length]; rewrite Hn1, Hn2; done).
    assert (Hget : String.get Token.selectorLength
              (Token.encode selector +:+ String "." (Token.encode secret)) = Some "."%char)
      by (rewrite <- Hn1; apply get_app_length).
    rewrite Hget, bool_decide_eq_true_2 by done.
    assert (Hc : CountByte "." (Token.encode selector +:+ String "." (Token.encode secret)) = 1).
    { rewrite CountByte_app. cbn [CountByte]. unfold Token.encode. rewrite bool_decide_eq_true_2 by done.
      rewrite !CountByte_absent by (by apply b64Encode_avoids). done. }
    rewrite Hc. cbn [negb orb Z.eqb Pos.eqb].
    rewrite <- Hn1, take_string_app.
    replace (String.length (Token.encode selector) + 1)%nat
      with (String.length (Token.encode selector +:+ String "." EmptyString)) by (rewrite string_length_app; done).
    replace (Token.encode selector +:+ String "." (Token.encode secret))
      with ((Token.encode selector +:+ String "." EmptyString) +:+ Token.encode secret)
      by (by rewrite <- string_app_assoc).
    rewrite drop_string_app.
    by rewrite (proj2 (decodeCanonical_spec _ _ selector) (conj Hl1 eq_refl)),
      (proj2 (decodeCanonical_spec _ _ secret) (conj Hl2 eq_refl)).
Qed.

Lemma copy_into_exact n s : String.length s = n -> copy_into n s = s.
Proof.
  intros <-. unfold copy_into. rewrite Nat.sub_diag. cbn. rewrite string_app_nil_r.
  rewrite <- (string_app_nil_r s) at 2. apply take_string_app.
Qed.

Lemma copy_into_length n s : String.length (copy_into n s) = n.
Proof.
  unfold copy_into. rewrite string_length_app.
  assert (Hz : forall n, String.length (zeros n) = n) by (induction n0; cbn; congruence).
  rewrite Hz. destruct (Nat.le_gt_cases n (String.length s)) as [Hle|Hgt].
  - rewrite take_string_len by done. lia.
  - replace n with (String.length s + (n - String.length s))%nat at 1 by lia.
    assert (Ht : forall m t, String.length (take_string (String.length t + m) t) = String.length t).
    { intros m t. induction t as [|c t IH]; cbn; [by destruct m|]. by rewrite IH. }
    rewrite Ht. lia.
Qed.

Lemma MatchDigest_spec stored p :
  Token.p_valid p = 1 -> String.length (Token.p_digest p) = Token.digestBytes ->
  Token.MatchDigest stored p = true <-> stored = Token.p_digest p.
Proof.
  intros Hv Hl. unfold Token.MatchDigest. rewrite Hv. cbn [Z.eqb Pos.eqb]. unfold ConstantTimeCompare. split.
  - intros H. bool_to_prop. rewrite copy_into_exact in * by done.
    case_bool_decide; [done|]. discriminate.
  - intros ->. rewrite bool_decide_eq_true_2, copy_into_exact, bool_decide_eq_true_2 by done. done.
Qed.

(** Security tokens: an issued token presented back parses to its selector and matches
    its stored digest, and any other text that is accepted under that selector contains a
    different secret with the same SHA-256 digest - no other spelling of the token (padding,
    line breaks, spare bits, extra dots) is accepted. *)
Theorem issued_token_is_accepted_alone material issued :
  String.length material = (Token.selectorBytes + Token.secretBytes)%nat ->
  Token.Issue sha256 (Some (Ok material)) = Ok issued ->
  (exists p, Token.Parse sha256 (Token.i_Presented issued) = Ok p /\
     Token.p_Selector p = Token.i_Selector issued /\ Token.MatchDigest (Token.i_digest issued) p = true) /\
  (forall presented p, Token.Parse sha256 presented = Ok p -> Token.p_Selector p = Token.i_Selector issued ->
     Token.MatchDigest (Token.i_digest issued) p = true ->
     presented = Token.i_Presented issued \/
     exists secret, secret <> drop_string Token.selectorBytes material /\
       String.length secret = Token.secretBytes /\
       sha256 secret = sha256 (drop_string Token.selectorBytes material)).
Proof.
  intros Hlen [= <-]. cbn [Token.i_Presented Token.i_Selector Token.i_digest].
  set (sel := take_string Token.selectorBytes material). set (sec := drop_string Token.selectorBytes material).
  assert (Hsel : String.length sel = Token.selectorBytes) by (apply take_string_len; rewrite Hlen; vm_compute; lia).
  assert (Hsec : String.length sec = Token.secretBytes) by (unfold sec; rewrite drop_string_length, Hlen; vm_compute; lia).
  change (Token.encode sel +:+ "." +:+ Token.encode sec) with (Token.encode sel +:+ String "." (Token.encode sec)).
  split.
  - eexists. split; [apply Parse_spec; by exists sel, sec|]. split; [done|]. apply MatchDigest_spec; [done|apply sha256_size|done].
  - intros presented p Hp Hs Hm. apply Parse_spec in Hp as (sel' & sec' & _ & Hl' & -> & ->). cbn in Hs.
    apply MatchDigest_spec in Hm; [|done|apply sha256_size]. cbn in Hm.
    rewrite Hs. destruct (decide (sec' = sec)) as [->|Hne]; [by left|]. right. by exists sec'.
Qed.
End tokens.

(** ** CSRF tokens *)

Section csrf.
Variable json_encode : string -> result string.
Variable json_decode : string -> result string.

(** [encoding/json] encodes a token and reads it back. *)
Hypothesis json_tokens : forall bytes, String.length bytes = Csrf.tokenBytes ->
  exists e, json_encode (b64Encode URLAlphabet bytes) = Ok e /\
    json_decode e = Ok (b64Encode URLAlphabet bytes).

Lemma csrf_decode_spec value bytes :
  Csrf.decode value = Some bytes <-> String.length bytes = Csrf.tokenBytes /\ value = b64Encode URLAlphabet bytes.
Proof.
  unfold Csrf.decode. split.
  - destruct (Z.eqb_spec (byte_len value) (b64EncodedLen (Z.of_nat Csrf.tokenBytes))) as [Hlen|]; [|done].
    cbn [negb]. destruct (b64Decode _ _ _) as [b|] eqn:Hd; [|done]. case_bool_decide as Hb; [|done].
    intros [= <-]. split; [done|]. symmetry. apply b64_exact_length; [done|]. rewrite Hlen. unfold byte_len. by rewrite Hb.
  - intros [Hb ->]. rewrite b64Encode_length. unfold byte_len. rewrite Hb, Z.eqb_refl. cbn [negb].
    by rewrite b64Decode_Encode, bool_decide_eq_true_2.
Qed.

Lemma Validate_spec s submitted :
  Csrf.Validate json_decode (Some s) submitted = None <->
  Session_Get json_decode Csrf.sessionKey s = (true, Ok (Some submitted)) /\ is_Some (Csrf.decode submitted).
Proof.
  unfold Csrf.Validate. destruct (Session_Get json_decode Csrf.sessionKey s) as [present [stored|e]] eqn:Hg;
    [|split; [done|by intros [[=] _]]].
  unfold ConstantTimeCompare. split.
  - destruct (_ || _) eqn:Hb; [done|]. intros _. bool_to_prop. destruct present; [|done].
    destruct (Csrf.decode (default EmptyString stored)) as [exp|] eqn:He; [|by destruct H2].
    destruct (Csrf.decode submitted) as [prov|] eqn:Hp; [|by destruct H1]. cbn in *. case_bool_decide as Heq; [|done].
    subst prov. apply csrf_decode_spec in He as [Hl He], Hp as [_ Hp]. split; [|done]. do 2 f_equal.
    destruct stored as [stored|]; cbn in He; [congruence|].
    pose proof (b64Encode_length URLAlphabet exp) as Hlen. rewrite <- He in Hlen. unfold byte_len in Hlen.
    rewrite Hl in Hlen. vm_compute in Hlen. discriminate.
  - intros [[= -> ->] [b Hb]]. cbn. by rewrite Hb, !bool_decide_eq_true_2.
Qed.

(** CSRF tokens: a submitted token validates exactly when it is, character for
    character, the well-formed token stored in the session; a freshly rotated or ensured
    token validates against the session it was stored in, and [Ensure] keeps returning it. *)
Theorem csrf_accepts_exactly_the_session_token s submitted entropy :
  (forall bytes, entropy = Ok bytes -> String.length bytes = Csrf.tokenBytes) ->
  (Csrf.Validate json_decode (Some s) submitted = None <->
   Session_Get json_decode Csrf.sessionKey s = (true, Ok (Some submitted)) /\ is_Some (Csrf.decode submitted)) /\
  (forall token s', Csrf.Rotate json_encode entropy (Some s) = (Ok token, s') ->
     Csrf.Validate json_decode s' token = None) /\
  (forall token s', Csrf.Ensure json_encode json_decode entropy (Some s) = (Ok token, s') ->
     Csrf.Validate json_decode s' token = None /\
     forall later, Csrf.Ensure json_encode json_decode later s' = (Ok token, s')).
Proof.
  intros Hent. split; [apply Validate_spec|].
  assert (Hrot : forall token s', Csrf.Rotate json_encode entropy (Some s) = (Ok token, s') ->
    exists s1, s' = Some s1 /\ Session_Get json_decode Csrf.sessionKey s1 = (true, Ok (Some token)) /\
      is_Some (Csrf.decode token)).
  { intros token s'. unfold Csrf.Rotate, Csrf.generate. destruct entropy as [bytes|e]; [|done].
    specialize (Hent bytes eq_refl). destruct (json_tokens bytes Hent) as (enc & Henc & Hdec).
    rewrite Henc. cbn. intros [= <- <-]. eexists. split; [done|]. split.
    - unfold Session_Get. cbn. by rewrite lookup_insert_eq, Hdec.
    - exists bytes. by apply csrf_decode_spec. }
  assert (Hens : forall token s1 later, Session_Get json_decode Csrf.sessionKey s1 = (true, Ok (Some token)) ->
    is_Some (Csrf.decode token) -> Csrf.Ensure json_encode json_decode later (Some s1) = (Ok token, Some s1)).
  { intros token s1 later Hg [b Hb]. unfold Csrf.Ensure. rewrite Hg. cbn. by rewrite Hb. }
  split.
  - intros token s' H. destruct (Hrot token s' H) as (s1 & -> & Hg & Hd). by apply Validate_spec.
  - intros token s' H.
    assert (Hs : exists s1, s' = Some s1 /\ Session_Get json_decode Csrf.sessionKey s1 = (true, Ok (Some token)) /\
      is_Some (Csrf.decode token)).
    { cbn in H. destruct (Session_Get json_decode Csrf.sessionKey s) as [[] [stored|e]] eqn:Hg;
        [|by simplify_eq|by apply Hrot|by simplify_eq].
      destruct (Csrf.decode (default EmptyString stored)) as [b|] eqn:Hd; [|done]. simplify_eq.
      exists s. split; [done|]. destruct stored as [stored|]; [by rewrite Hg, Hd|done]. }
    destruct Hs as (s1 & -> & Hg & Hd). split; [by apply Validate_spec|]. intros later. by apply Hens.
Qed.
End csrf.

(** ** Passwords *)

Section passwords.
Variable derive : string -> string -> Z -> nat -> result string.

(** PBKDF2 returns a key of the requested length. *)
Hypothesis derive_size : forall plain salt n len key, derive plain salt n len = Ok key -> String.length key = len.

Lemma iterations_positive hasher : 1 <= Password.iterations hasher.
Proof. unfold Password.iterations, Password.DefaultIterations. destruct (Z.leb_spec (Password.Iterations hasher) 0); lia. Qed.

(** The encoded form parses back to its parameters. *)
Lemma parse_encoded n salt key :
  1 <= n <= Password.maximumIterations -> String.length salt = Password.saltBytes ->
  String.length key = Password.keyBytes ->
  Password.parse ("$goforge$pbkdf2-sha256$" +:+ Itoa n +:+ "$"
    +:+ b64Encode StdAlphabet salt +:+ "$" +:+ b64Encode StdAlphabet key) = Ok (n, salt, key).
Proof.
  intros Hn Hs Hk. unfold Password.maximumIterations in Hn.
  assert (Hdigits : all_chars (fun x => negb (bool_decide (x = "$"%char))) (Itoa n) = true).
  { unfold Itoa. rewrite (proj2 (Z.ltb_ge n 0)) by lia. eapply all_chars_mono; [|apply digits_all_digits; lia].
    intros x Hx. apply negb_true_iff, bool_decide_eq_false_2. intros ->. discriminate. }
  assert (Hsplit : Split ("$goforge$pbkdf2-sha256$" +:+ Itoa n +:+ "$"
    +:+ b64Encode StdAlphabet salt +:+ "$" +:+ b64Encode StdAlphabet key) "$" =
    [EmptyString; "goforge"; "pbkdf2-sha256"; Itoa n; b64Encode StdAlphabet salt; b64Encode StdAlphabet key]).
  { change ("$goforge$pbkdf2-sha256$" +:+ ?r) with (EmptyString +:+ String "$" ("goforge" +:+ String "$" ("pbkdf2-sha256" +:+ String "$" r))).
    rewrite !Split_app by done.
    change ("$" +:+ ?r) with (String "$" r). rewrite (Split_app (Itoa n)) by done.
    change ("$" +:+ ?r) with (String "$" r). rewrite (Split_app (b64Encode StdAlphabet salt)) by (by apply b64Encode_avoids).
    by rewrite Split_none by (by apply b64Encode_avoids). }
  unfold Password.parse. rewrite Hsplit, !bool_decide_eq_true_2 by done. cbn [negb orb].
  rewrite Atoi_Itoa by (unfold in_int64, MinInt64, MaxInt64; lia).
  rewrite (proj2 (Z.ltb_ge n 1)) by lia. rewrite Z.gtb_ltb, (proj2 (Z.ltb_ge _ n)) by (unfold Password.maximumIterations; lia).
  cbn [orb]. rewrite b64Decode_Encode, Hs. cbn [Nat.ltb Nat.leb Password.saltBytes].
  by rewrite b64Decode_Encode, bool_decide_eq_true_2.
Qed.

(** Password hashes: a stored hash verifies exactly the passwords within the length
    limit that derive the same key under the recorded salt and iterations - in particular
    the one that was hashed - and does not ask to be rehashed under the policy it was made
    with. *)
Theorem hashed_password_verifies hasher plain salt w encoded w' :
  String.length salt = Password.saltBytes ->
  Password.Hash derive hasher plain (Ok salt) w = (Ok encoded, w') ->
  Password.NeedsRehash hasher encoded = false /\
  exists key, derive plain salt (Password.iterations hasher) Password.keyBytes = Ok key /\
    forall other work, (Password.Verify derive encoded other work).1 = Ok true <->
      byte_len other <= Password.maximumPassword /\
      derive other salt (Password.iterations hasher) Password.keyBytes = Ok key.
Proof.
  intros Hs. unfold Password.Hash. case_bool_decide; [done|].
  destruct (byte_len plain >? _) eqn:Hlen; [done|]. destruct (Password.iterations hasher >? _) eqn:Hit; [done|].
  unfold bindM, wrapM, Password.derivePassword.
  destruct (derive plain salt (Password.iterations hasher) Password.keyBytes) as [key|] eqn:Hk; [|done].
  cbn [ret]. intros [= <- <-]. pose proof (iterations_positive hasher). bool_to_prop.
  pose proof (parse_encoded (Password.iterations hasher) salt key ltac:(lia) Hs (derive_size _ _ _ _ _ Hk)) as Hp.
  unfold Password.NeedsRehash, Password.Verify. rewrite Hp. split; [apply Z.ltb_irrefl|].
  exists key. split; [done|]. intros other work. rewrite (derive_size _ _ _ _ _ Hk).
  destruct (byte_len other >? Password.maximumPassword) eqn:Ho; bool_to_prop.
  { split; [done|]. intros [? _]. lia. }
  unfold bindM, wrapM, Password.derivePassword, ConstantTimeCompare.
  destruct (derive other salt (Password.iterations hasher) Password.keyBytes) as [k'|]; cbn.
  - case_bool_decide as He; cbn; split; intros H'; try done; [by subst|]. destruct H' as [_ [= ?]]. done.
  - split; [done|by intros [_ ?]].
Qed.

(** A refused login costs the current work: whatever the stored hash - absent, malformed
    or made under an older policy - and whatever the candidate, [VerifyCurrent] gives the
    answer of [Verify] and, unless it accepts, has spent at least the iterations of the
    current policy. *)
Theorem refused_login_costs_current_work hasher encoded plain work r work' :
  (forall p s n len, is_ok (derive p s n len) = true) ->
  Password.VerifyCurrent derive hasher encoded plain work = (r, work') ->
  r = (Password.Verify derive encoded plain work).1 /\
  (r <> Ok true -> Z.min (Password.iterations hasher) Password.maximumIterations <= work' - work).
Proof.
  intros Hok. unfold Password.VerifyCurrent, Password.Verify.
  assert (Hc : Password.clamped hasher = Z.min (Password.iterations hasher) Password.maximumIterations).
  { unfold Password.clamped. rewrite Z.gtb_ltb. destruct (Z.ltb_spec Password.maximumIterations (Password.iterations hasher)); lia. }
  destruct (Password.parse encoded) as [[[n salt] expected]|e].
  2: { cbn. intros [= <- <-]. split; [done|]. rewrite Hc. lia. }
  destruct (byte_len plain >? Password.maximumPassword).
  { cbn. intros [= <- <-]. split; [done|]. rewrite Hc. lia. }
  unfold bindM, wrapM, Password.derivePassword.
  pose proof (Hok plain salt n (String.length expected)) as Hd. destruct (derive plain salt n _) as [actual|]; [|done].
  destruct (ConstantTimeCompare actual expected =? 1) eqn:Hm; cbn [negb andb].
  - intros [= <- <-]. split; [done|]. by intros [].
  - destruct (Password.clamped hasher - n >? 0) eqn:Hrem.
    + pose proof (Hok plain (zeros Password.saltBytes) (Password.clamped hasher - n) Password.keyBytes) as Hd2.
      destruct (derive plain (zeros _) _ _); [|done]. intros [= <- <-]. split; [done|]. lia.
    + intros [= <- <-]. split; [done|]. lia.
Qed.
End passwords.

(** ** Concrete runs *)

Module SecuritySample.
(** A stand-in of the right size for the hash functions. *)
Definition digest (x : string) : string := copy_into 32 x.

Lemma digest_size x : String.length (digest x) = 32%nat.
Proof. apply copy_into_length. Qed.

Definition material : string := "selector-bytes16the secret is thirty-two bytes..".

Definition derive (plain salt : string) (n : Z) (len : nat) : result string := Ok (copy_into len (plain +:+ salt)).

Definition session : Session :=
  {| id := "a"; persistedID := "a"; values := ∅; oldFlash := ∅; newFlash := ∅; issuedAt := 0;
     createOnMissingRotation := false |}.
End SecuritySample.

Import SecuritySample.

Lemma issued_token_is_accepted_alone_witness :
  exists issued p, Token.Issue digest (Some (Ok material)) = Ok issued /\
    Token.Parse digest (Token.i_Presented issued) = Ok p /\ Token.MatchDigest (Token.i_digest issued) p = true.
Proof.
  eexists.
  destruct (issued_token_is_accepted_alone digest digest_size material
    {| Token.i_Selector := Token.encode "selector-bytes16";
       Token.i_Presented := Token.encode "selector-bytes16" +:+ "." +:+ Token.encode "the secret is thirty-two bytes..";
       Token.i_digest := digest "the secret is thirty-two bytes.." |}) as [(p & Hp & _ & Hm) _].
  - vm_compute. reflexivity.
  - vm_compute. reflexivity.
  - exists p. split; [vm_compute; reflexivity|]. split; [exact Hp|exact Hm].
Defined.

Lemma csrf_accepts_exactly_the_session_token_witness :
  exists token s', Csrf.Rotate Ok (Ok "thirty-two bytes from the reader") (Some session) = (Ok token, s') /\
    Csrf.Validate Ok s' token = None.
Proof.
  do 2 eexists.
  edestruct (csrf_accepts_exactly_the_session_token Ok Ok) with
    (s := session) (submitted := EmptyString) (entropy := Ok "thirty-two bytes from the reader" : result string)
    as (_ & Hr & _).
  - intros bytes _. by eexists.
  - intros bytes [= <-]. vm_compute. reflexivity.
  - split; [vm_compute; reflexivity|]. apply Hr. vm_compute. reflexivity.
Defined.

Lemma hashed_password_verifies_witness :
  let encoded := "$goforge$pbkdf2-sha256$600000$c2FsdHNhbHRzYWx0c2FsdA$aHVudGVyMnNhbHRzYWx0c2FsdHNhbHQAAAAAAAAAAAA" in
  (Password.Verify derive encoded "hunter2" 0).1 = Ok true /\ Password.NeedsRehash Password.New encoded = false.
Proof.
  intros encoded.
  destruct (hashed_password_verifies derive) with (hasher := Password.New) (plain := "hunter2")
    (salt := "saltsaltsaltsalt") (w := 0) (encoded := encoded) (w' := 600000) as (Hn & key & Hk & Hv).
  - intros plain salt n len key [= <-]. apply copy_into_length.
  - reflexivity.
  - vm_compute. reflexivity.
  - split; [|exact Hn]. apply Hv. split; [vm_compute; discriminate|exact Hk].
Defined.

Lemma refused_login_costs_current_work_witness :
  600000 <= (Password.VerifyCurrent derive Password.New "not a hash" "hunter2" 0).2 - 0.
Proof.
  destruct (refused_login_costs_current_work derive Password.New "not a hash" "hunter2" 0
    (Password.VerifyCurrent derive Password.New "not a hash" "hunter2" 0).1
    (Password.VerifyCurrent derive Password.New "not a hash" "hunter2" 0).2) as [_ H].
  - reflexivity.
  - apply surjective_pairing.
  - apply H. vm_compute. discriminate.
Defined.
