(* ===== verification/Cache.v ===== *)
(** * The in-process cache ([cache/cache.go])

    Package [cache]: the [Store] contract, [Memory] with its critical sections, and the
    JSON helpers.  Each operation of [Memory] is split where the code releases the mutex,
    so that operations of other goroutines can run in between; clock readings are
    arguments of the section that uses them.  Its properties follow the definitions. *)

From S2P Require Import Prelude.
Local Open Scope go_scope.
Local Open Scope Z_scope.

Definition ErrMiss : error := Sentinel "cache miss".

(** The [Store] interface, over any state. *)
Class CacheStore (St : Type) : Type := {
  cache_Get : string -> M St string;
  cache_Put : string -> string -> duration -> M St unit;
  cache_Forget : string -> M St unit;
  cache_Flush : M St unit
}.

(** ** [Memory] *)

Record entry : Type := { value : string; expiresAt : time }.

Record Memory : Type := { entries : gmap string entry }.

Definition NewMemory : Memory := {| entries := ∅ |}.

(** [!entry.expiresAt.IsZero() && !now.Before(entry.expiresAt)] *)
Definition expired (now : time) (e : entry) : bool :=
  negb (IsZero (expiresAt e)) && negb (Before now (expiresAt e)).

(** [Get] until the read lock is released, and what it does next. *)
Inductive read : Type := Miss | Expired | Hit (v : string).

Definition Get_read (key : string) (now : time) (memory : Memory) : read :=
  match entries memory !! key with
  | None => Miss
  | Some e => if expired now e then Expired else Hit (value e)
  end.

(** The second critical section of [Get], entered after [Expired]. *)
Definition Get_evict (key : string) (now : time) (memory : Memory) : Memory :=
  match entries memory !! key with
  | Some current => if expired now current then {| entries := delete key (entries memory) |} else memory
  | None => memory
  end.

(** [item], built before the lock is taken. *)
Definition Put_item (v : string) (lifetime : duration) (now : time) : entry :=
  {| value := v; expiresAt := if lifetime >? 0 then Add now lifetime else zeroTime |}.

Definition Put_store (key : string) (item : entry) (memory : Memory) : Memory :=
  {| entries := <[key := item]> (entries memory) |}.

Definition Forget (key : string) (memory : Memory) : Memory :=
  {| entries := delete key (entries memory) |}.

Definition Flush (memory : Memory) : Memory := {| entries := ∅ |}.

(** The entries [Prune] removes, and how many. *)
Definition Prune (now : time) (memory : Memory) : Z * Memory :=
  let gone := filter (fun kv => expired now kv.2 = true) (entries memory) in
  (Z.of_nat (size gone), {| entries := filter (fun kv => expired now kv.2 = false) (entries memory) |}).

(** ** Uninterrupted operations: [Memory] as a [Store] with a clock *)

Record memoryWorld : Type := { mw_memory : Memory; mw_now : nat -> time; mw_tick : nat }.

Definition mw_set (memory : Memory) (n : nat) (w : memoryWorld) : memoryWorld :=
  {| mw_memory := memory; mw_now := mw_now w; mw_tick := n |}.

Definition Memory_Get (key : string) : M memoryWorld string := fun w =>
  let n := mw_tick w in
  match entries (mw_memory w) !! key with
  | None => (Err ErrMiss, w)
  | Some e =>
      if IsZero (expiresAt e) then (Ok (value e), w)
      else match Get_read key (mw_now w n) (mw_memory w) with
           | Hit v => (Ok v, mw_set (mw_memory w) (S n) w)
           | _ => (Err ErrMiss, mw_set (Get_evict key (mw_now w (S n)) (mw_memory w)) (S (S n)) w)
           end
  end.

Definition Memory_Put (key v : string) (lifetime : duration) : M memoryWorld unit := fun w =>
  let n := mw_tick w in
  (Ok tt, mw_set (Put_store key (Put_item v lifetime (mw_now w n)) (mw_memory w))
            (if lifetime >? 0 then S n else n) w).

#[export] Instance Memory_store : CacheStore memoryWorld :=
  {| cache_Get := Memory_Get;
     cache_Put := Memory_Put;
     cache_Forget := fun key w => (Ok tt, mw_set (Forget key (mw_memory w)) (mw_tick w) w);
     cache_Flush := fun w => (Ok tt, mw_set (Flush (mw_memory w)) (mw_tick w) w) |}.

(** ** JSON helpers *)

Section json.
Context {St : Type} `{CacheStore St} {T : Type}.
Variable json_Marshal : T -> result string.
Variable json_Unmarshal : string -> result T.

Definition GetJSON (key : string) : M St T :=
  bindM (cache_Get key) (fun encoded =>
  match json_Unmarshal encoded with
  | Ok v => ret v
  | Err e => throw (Wrapf "decode cached %q: %w" e)
  end).

Definition PutJSON (key : string) (v : T) (lifetime : duration) : M St unit :=
  match json_Marshal v with
  | Err e => throw (Wrapf "encode cached %q: %w" e)
  | Ok encoded => cache_Put key encoded lifetime
  end.

Definition RememberJSON (key : string) (lifetime : duration) (load : M St T) : M St T := fun st =>
  match GetJSON key st with
  | (Ok v, st') => (Ok v, st')
  | (Err err, st') =>
      if negb (errors_Is err ErrMiss) then (Err err, st')
      else bindM load (fun v => bindM (PutJSON key v lifetime) (fun _ => ret v)) st'
  end.
End json.

(** ** Interleaved critical sections *)

(** The sections other goroutines can run between two of ours. *)
Inductive section : Type :=
| SecPut (key v : string) (lifetime : duration) (read_at : time)
| SecForget (key : string)
| SecFlush
| SecPrune (read_at : time)
| SecRead (key : string)
| SecEvict (key : string) (read_at : time).

Definition run_section (s : section) (memory : Memory) : Memory :=
  match s with
  | SecPut key v lifetime read_at => Put_store key (Put_item v lifetime read_at) memory
  | SecForget key => Forget key memory
  | SecFlush => Flush memory
  | SecPrune read_at => (Prune read_at memory).2
  | SecRead _ => memory
  | SecEvict key read_at => Get_evict key read_at memory
  end.

Fixpoint run_sections (trace : list section) (memory : Memory) : Memory :=
  match trace with
  | [] => memory
  | s :: rest => run_sections rest (run_section s memory)
  end.

(** The instants at which a trace looks at the clock to drop entries. *)
Definition section_reads (s : section) : option time :=
  match s with SecPrune t | SecEvict _ t => Some t | _ => None end.

(** What a client may expect of [key]: the item of the last [Put] that no [Forget] or
    [Flush] followed.  Reading, pruning and evicting do not appear. *)
Definition written (key : string) (last : option entry) (s : section) : option entry :=
  match s with
  | SecPut k v lifetime read_at => if bool_decide (k = key) then Some (Put_item v lifetime read_at) else last
  | SecForget k => if bool_decide (k = key) then None else last
  | SecFlush => None
  | _ => last
  end.

Definition expected (now : time) (last : option entry) : option string :=
  match last with
  | Some e => if expired now e then None else Some (value e)
  | None => None
  end.

Definition answer (r : read) : option string := match r with Hit v => Some v | _ => None end.

(** The memory shows an observer at [now] what the log promises. *)
Definition agrees (key : string) (last : option entry) (memory : Memory) (bound : time) : Prop :=
  entries memory !! key = last \/
  (entries memory !! key = None /\ forall now, bound <= now -> expected now last = None).

Lemma expired_mono now now' e : now <= now' -> expired now e = true -> expired now' e = true.
Proof. unfold expired, Before. intros. bool_to_prop. refute_guard; [done|lia]. Qed.

Lemma agrees_section key last memory bound s :
  (forall t, section_reads s = Some t -> t <= bound) ->
  agrees key last memory bound -> agrees key (written key last s) (run_section s memory) bound.
Proof.
  intros Hb Ha. destruct s as [k v lifetime t|k| |t|k|k t]; cbn [written run_section Put_store Forget Flush Prune].
  - case_bool_decide as Hk; [subst; left; apply lookup_insert_eq|]. unfold agrees. cbn. by rewrite lookup_insert_ne.
  - case_bool_decide as Hk; [subst; left; apply lookup_delete_eq|]. unfold agrees. cbn. by rewrite lookup_delete_ne.
  - left. apply lookup_empty.
  - specialize (Hb t eq_refl). destruct Ha as [Ha|[Hn Hx]]; cbn.
    + unfold agrees. cbn. destruct last as [e|].
      * destruct (expired t e) eqn:He.
        -- right. split.
           ++ apply map_lookup_filter_None. right. intros e' He'. cbn. rewrite Ha in He'. injection He' as <-. congruence.
           ++ intros now Hle. cbn. by rewrite (expired_mono t now e) by (done || lia).
        -- left. by apply map_lookup_filter_Some.
      * left. apply map_lookup_filter_None. by left.
    + right. split; [|done]. cbn. apply map_lookup_filter_None. by left.
  - done.
  - specialize (Hb t eq_refl). unfold Get_evict. destruct (entries memory !! k) as [e|] eqn:Hk; [|done].
    destruct (expired t e) eqn:He; [|done]. destruct (decide (k = key)) as [->|Hne].
    + destruct Ha as [Ha|[Hn _]]; [|congruence]. right. cbn. split; [apply lookup_delete_eq|].
      intros now Hle. rewrite <- Ha, Hk. cbn. by rewrite (expired_mono t now e) by (done || lia).
    + unfold agrees. cbn. by rewrite lookup_delete_ne.
Qed.

(** C39. Expiry is invisible: after any interleaving of the critical sections of any number
    of goroutines, a read at an instant no earlier than the clock readings that pruned or
    evicted answers exactly the last value put under the key that was neither forgotten nor
    flushed nor has reached its deadline - a delayed eviction never loses a value written
    since, and an expired value is never served. *)
Theorem cache_reads_the_last_live_write trace key now :
  (forall s t, s ∈ trace -> section_reads s = Some t -> t <= now) ->
  answer (Get_read key now (run_sections trace NewMemory)) =
  expected now (fold_left (written key) trace None).
Proof.
  intros Hclock.
  assert (Hgen : forall trace last memory, (forall s t, s ∈ trace -> section_reads s = Some t -> t <= now) ->
    agrees key last memory now -> agrees key (fold_left (written key) trace last) (run_sections trace memory) now).
  { clear. induction trace as [|s trace IH]; intros last memory Hc Ha; [done|]. cbn. apply IH; [set_solver|].
    apply agrees_section; [|done]. intros t. apply Hc. set_solver. }
  destruct (Hgen trace None NewMemory Hclock) as [Ha|[Hn Hx]].
  - left. apply lookup_empty.
  - unfold Get_read. rewrite Ha. destruct (fold_left _ _ _) as [e|]; [|done]. cbn. by destruct (expired now e).
  - unfold Get_read. rewrite Hn, Hx by lia. done.
Qed.

(** Three goroutines: a slow reader evicts an expired entry that was replaced meanwhile. *)
Lemma cache_reads_the_last_live_write_witness :
  answer (Get_read "k" 50 (run_sections
    [SecPut "k" "old" 10 1; SecRead "k"; SecPut "k" "new" 100 20; SecEvict "k" 21; SecPrune 30] NewMemory)) = Some "new".
Proof.
  rewrite (cache_reads_the_last_live_write
    [SecPut "k" "old" 10 1; SecRead "k"; SecPut "k" "new" 100 20; SecEvict "k" 21; SecPrune 30] "k" 50).
  - vm_compute. reflexivity.
  - intros s t Hs Ht. rewrite !elem_of_cons, elem_of_nil in Hs.
    destruct Hs as [->|[->|[->|[->|[->|[]]]]]]; cbn in Ht; try discriminate; injection Ht as <-; lia.
Defined.

(** ** Remembering *)

Section remember.
Context {T : Type}.
Variable json_Marshal : T -> result string.
Variable json_Unmarshal : string -> result T.
Hypothesis json_roundtrip : forall v e, json_Marshal v = Ok e -> json_Unmarshal e = Ok v.

(** [RememberJSON] loads once per lifetime: after it returned a value under a key, a
    later call that finds the clock before the deadline of that value answers it from the
    cache, whatever loader it is given, and leaves the cache as it was. *)
Theorem remember_loads_once_per_lifetime key lifetime (load : M memoryWorld T) (v v' : T) w wl w1 later load' :
  0 < lifetime -> entries (mw_memory w) !! key = None ->
  load w = (Ok v, wl) -> 0 < mw_now wl (mw_tick wl) ->
  RememberJSON json_Marshal json_Unmarshal key lifetime load w = (Ok v', w1) ->
  mw_now w1 (mw_tick w1) < mw_now wl (mw_tick wl) + lifetime ->
  v' = v /\ exists w2, RememberJSON json_Marshal json_Unmarshal key later load' w1 = (Ok v, w2) /\
    mw_memory w2 = mw_memory w1.
Proof.
  intros Hl Hmiss Hload Hpos Hr Hlive. unfold RememberJSON, GetJSON, bindM in *. cbn [cache_Get Memory_store] in *.
  unfold Memory_Get in Hr at 1. rewrite Hmiss in Hr. cbn in Hr. rewrite Hload in Hr.
  unfold PutJSON in Hr. destruct (json_Marshal v) as [enc|] eqn:Hm; [|done]. cbn in Hr.
  rewrite Z.gtb_ltb, (proj2 (Z.ltb_lt 0 lifetime)) in Hr by done. injection Hr as <- <-. split; [done|].
  unfold Memory_Get. cbn [mw_memory mw_set Put_store entries mw_tick mw_now] in *. rewrite lookup_insert_eq.
  unfold Put_item. rewrite Z.gtb_ltb, (proj2 (Z.ltb_lt 0 lifetime)) by done. cbn [expiresAt value].
  unfold IsZero, zeroTime, Add. rewrite (proj2 (Z.eqb_neq _ 0)) by lia.
  unfold Get_read. cbn [entries mw_memory mw_set Put_store]. rewrite lookup_insert_eq.
  unfold expired, Before, IsZero, zeroTime. cbn [expiresAt value].
  rewrite (proj2 (Z.eqb_neq _ 0)), (proj2 (Z.ltb_lt _ _)) by lia. cbn.
  rewrite (json_roundtrip v enc Hm). eexists. done.
Qed.
End remember.

(** A loader that fails is not consulted while the first answer lives. *)
Lemma remember_loads_once_per_lifetime_witness :
  let w := {| mw_memory := NewMemory; mw_now := fun n => 1000 + Z.of_nat n; mw_tick := 0 |} in
  let w1 := (RememberJSON Ok Ok "k" 60 (fun w => (Ok "loaded", w)) w).2 in
  exists w2, RememberJSON Ok Ok "k" 60 (fun w => (Err ErrMiss, w)) w1 = (Ok "loaded", w2).
Proof.
  intros w w1.
  destruct (remember_loads_once_per_lifetime Ok Ok) with (key := "k") (lifetime := 60)
    (load := fun w : memoryWorld => (Ok "loaded", w)) (v := "loaded") (v' := "loaded") (w := w) (wl := w) (w1 := w1)
    (later := 60) (load' := fun w : memoryWorld => (Err ErrMiss : result string, w)) as [_ (w2 & Hw & _)].
  - by intros v e [= <-].
  - lia.
  - reflexivity.
  - reflexivity.
  - vm_compute. reflexivity.
  - vm_compute. reflexivity.
  - vm_compute. reflexivity.
  - by exists w2.
Defined.
