(* ===== verification/GoNetip.v ===== *)
(** * Network addresses

    What the program uses of [net/netip] and [net]: parsing and printing addresses,
    prefixes and address-port pairs, and [net.SplitHostPort].  An address is its numeric
    value at its width (32 or 128 bits), with the zone of an IPv6 address. *)

From S2P Require Import Prelude GoStrings GoEncoding.
Local Open Scope Z_scope.

(** [netip.Addr]; the zero value is not valid. *)
Inductive Addr : Type := NoAddr | V4 (bits : Z) | V6 (bits : Z) (zone : string).

#[export] Instance Addr_eq_dec : EqDecision Addr.
Proof. solve_decision. Defined.

Definition IsValid (a : Addr) : bool := match a with NoAddr => false | _ => true end.
Definition Zone (a : Addr) : string := match a with V6 _ z => z | _ => EmptyString end.
Definition BitLen (a : Addr) : Z := match a with NoAddr => 0 | V4 _ => 32 | V6 _ _ => 128 end.
Definition Is4 (a : Addr) : bool := match a with V4 _ => true | _ => false end.
Definition Is6 (a : Addr) : bool := match a with V6 _ _ => true | _ => false end.

(** [::ffff:0:0/96] *)
Definition Is4In6 (a : Addr) : bool :=
  match a with V6 v _ => Z.shiftr v 32 =? 65535 | _ => false end.

Definition Unmap (a : Addr) : Addr :=
  match a with
  | V6 v _ => if Is4In6 a then V4 (v mod 2 ^ 32) else a
  | _ => a
  end.

(** ** Parsing *)

(** A decimal octet: digits without a leading zero, at most 255. *)
Definition parse_octet (s : string) : option Z :=
  match s with
  | EmptyString => None
  | String "0" (String _ _) => None
  | _ => match parse_digits s 0 with
         | Some n => if n <=? 255 then Some n else None
         | None => None
         end
  end.

Definition parseIPv4Fields (s : string) : option Z :=
  match Split s "." with
  | [a; b; c; d] =>
      match parse_octet a, parse_octet b, parse_octet c, parse_octet d with
      | Some a, Some b, Some c, Some d => Some (a * 2 ^ 24 + b * 2 ^ 16 + c * 2 ^ 8 + d)
      | _, _, _, _ => None
      end
  | _ => None
  end.

(** Leading hexadecimal digits: their number, value and what follows. *)
Fixpoint hex_run (s : string) (n : nat) (acc : Z) : nat * Z * string :=
  match s with
  | String c s' =>
      match hex_value c with
      | Some d => hex_run s' (S n) (acc * 16 + d)
      | None => (n, acc, s)
      end
  | EmptyString => (n, acc, EmptyString)
  end.

(** The loop of [parseIPv6]: the 16-bit groups read so far, where the ellipsis stands,
    and the rest of the text; the embedded IPv4 form contributes two groups. *)
Fixpoint parse_groups (fuel : nat) (s : string) (groups : list Z) (ellipsis : option nat)
    : option (list Z * option nat) :=
  match fuel with
  | O => if bool_decide (s = EmptyString) then Some (groups, ellipsis) else None
  | S fuel' =>
      let '(n, acc, rest) := hex_run s 0 0 in
      if (n =? 0)%nat || (4 <? n)%nat then None
      else match rest with
      | String "." _ =>
          if negb (bool_decide (is_Some ellipsis)) && negb (length groups =? 6)%nat then None
          else if (6 <? length groups)%nat then None
          else match parseIPv4Fields s with
               | None => None
               | Some v => Some (groups ++ [v / 2 ^ 16; v mod 2 ^ 16], ellipsis)
               end
      | EmptyString => Some (groups ++ [acc], ellipsis)
      | String ":" EmptyString => None
      | String ":" (String ":" after) =>
          if bool_decide (is_Some ellipsis) then None
          else let ellipsis := Some (length groups + 1)%nat in
               if bool_decide (after = EmptyString) then Some (groups ++ [acc], ellipsis)
               else parse_groups fuel' after (groups ++ [acc]) ellipsis
      | String ":" after => parse_groups fuel' after (groups ++ [acc]) ellipsis
      | _ => None
      end
  end.

Definition groups_value (groups : list Z) : Z := fold_left (fun v g => v * 2 ^ 16 + g) groups 0.

Definition expand (groups : list Z) (ellipsis : option nat) : option Z :=
  let n := length groups in
  if (n <? 8)%nat then
    match ellipsis with
    | None => None
    | Some e => Some (groups_value (take e groups ++ repeat 0 (8 - n) ++ drop e groups))
    end
  else if bool_decide (is_Some ellipsis) then None
  else Some (groups_value groups).

Definition parseIPv6 (text : string) : option Addr :=
  let '(s, zone, zoned) := Cut text "%" in
  if zoned && bool_decide (zone = EmptyString) then None
  else
  let '(s, ellipsis) := match s with
                        | String ":" (String ":" rest) => (rest, Some 0%nat)
                        | _ => (s, None)
                        end in
  if bool_decide (s = EmptyString) && bool_decide (is_Some ellipsis) then Some (V6 0 zone)
  else match parse_groups 8 s [] ellipsis with
       | None => None
       | Some (groups, ellipsis) => (fun v => V6 v zone) <$> expand groups ellipsis
       end.

(** The first of [.], [:] and [%] decides the family. *)
Fixpoint family (s : string) : option ascii :=
  match s with
  | EmptyString => None
  | String c s' =>
      if bool_decide (c = "."%char) || bool_decide (c = ":"%char) || bool_decide (c = "%"%char) then Some c
      else family s'
  end.

Definition ParseAddr (s : string) : option Addr :=
  match family s with
  | Some "."%char => V4 <$> parseIPv4Fields s
  | Some ":"%char => parseIPv6 s
  | _ => None
  end.

(** Text before and after the last occurrence of a byte. *)
Fixpoint CutLast (s : string) (sep : ascii) : option (string * string) :=
  match s with
  | EmptyString => None
  | String c s' =>
      match CutLast s' sep with
      | Some (before, after) => Some (String c before, after)
      | None => if bool_decide (c = sep) then Some (EmptyString, s') else None
      end
  end.

(** [netip.ParseAddrPort]: only the address is used. *)
Definition ParseUint16 (s : string) : option Z :=
  match s with
  | EmptyString => None
  | _ => match parse_digits s 0 with
         | Some n => if n <=? 65535 then Some n else None
         | None => None
         end
  end.

Definition ParseAddrPort (s : string) : option Addr :=
  match CutLast s ":" with
  | None => None
  | Some (ip, port) =>
      if bool_decide (ip = EmptyString) || bool_decide (port = EmptyString) then None
      else
      let bracketed := HasPrefix ip "[" in
      if bracketed && ((String.length ip <? 2)%nat || negb (HasSuffix ip "]")) then None
      else
      let ip := if bracketed then take_string (String.length ip - 2) (drop_string 1 ip) else ip in
      match ParseUint16 port, ParseAddr ip with
      | Some _, Some a =>
          if bracketed && Is4 a then None else if negb bracketed && Is6 a then None else Some a
      | _, _ => None
      end
  end.

Definition contains_byte (c : ascii) (s : string) : bool := let '(_, _, found) := Cut s c in found.

(** [net.SplitHostPort] *)
Definition SplitHostPort (hostport : string) : option (string * string) :=
  match CutLast hostport ":" with
  | None => None
  | Some (before, port) =>
      if HasPrefix hostport "[" then
        let '(host, after, found) := Cut hostport "]" in
        if negb found then None
        else if negb (bool_decide (before = host +:+ "]")) then None
        else
          let host := drop_string 1 host in
          if contains_byte "[" (drop_string 1 hostport) || contains_byte "]" after then None
          else Some (host, port)
      else if contains_byte ":" before then None
      else if contains_byte "[" hostport || contains_byte "]" hostport then None
      else Some (before, port)
  end.

(** ** Prefixes *)

Record Prefix : Type := { prefix_addr : Addr; prefix_bits : Z }.

Definition ParsePrefix (s : string) : option Prefix :=
  match CutLast s "/" with
  | None => None
  | Some (ip, bits) =>
      match ParseAddr ip with
      | None => None
      | Some a =>
          if Is6 a && negb (bool_decide (Zone a = EmptyString)) then None
          else
          let signed := match bits with
                        | String c (String _ _) =>
                            let n := byte_val c in (n <? 49) || (n >? 57)
                        | _ => false
                        end in
          if signed then None
          else match Atoi bits with
               | None => None
               | Some n => if (n <? 0) || (n >? BitLen a) then None
                           else Some {| prefix_addr := a; prefix_bits := n |}
               end
      end
  end.

(** The value of an address without its low bits. *)
Definition mask (bits width v : Z) : Z := Z.shiftl (Z.shiftr v (width - bits)) (width - bits).

Definition Masked (p : Prefix) : Prefix :=
  {| prefix_bits := prefix_bits p;
     prefix_addr := match prefix_addr p with
                    | V4 v => V4 (mask (prefix_bits p) 32 v)
                    | V6 v z => V6 (mask (prefix_bits p) 128 v) EmptyString
                    | NoAddr => NoAddr
                    end |}.

Definition Prefix_Contains (p : Prefix) (a : Addr) : bool :=
  match prefix_addr p, a with
  | V4 base, V4 v => mask (prefix_bits p) 32 base =? mask (prefix_bits p) 32 v
  | V6 base _, V6 v zone =>
      bool_decide (zone = EmptyString) && (mask (prefix_bits p) 128 base =? mask (prefix_bits p) 128 v)
  | _, _ => false
  end.

(** ** Printing *)

Definition string4 (v : Z) : string :=
  Itoa (v / 2 ^ 24) +:+ "." +:+ Itoa (v / 2 ^ 16 mod 2 ^ 8) +:+ "." +:+ Itoa (v / 2 ^ 8 mod 2 ^ 8)
  +:+ "." +:+ Itoa (v mod 2 ^ 8).

Definition group (v : Z) (i : nat) : Z := v / 2 ^ (16 * (7 - Z.of_nat i)) mod 2 ^ 16.

(** Hexadecimal without leading zeros. *)
Fixpoint show_hex (started : bool) (digits : list Z) : string :=
  match digits with
  | [] => EmptyString
  | [d] => String (hex_digit d) EmptyString
  | d :: rest => if negb started && (d =? 0) then show_hex false rest
                 else String (hex_digit d) (show_hex true rest)
  end.

Definition hex16 (g : Z) : string := show_hex false [g / 4096; g / 256 mod 16; g / 16 mod 16; g mod 16].

Fixpoint zero_run (fuel : nat) (v : Z) (i : nat) : nat :=
  match fuel with
  | O => O
  | S fuel' => if group v i =? 0 then S (zero_run fuel' v (S i)) else O
  end.

(** The first longest run of at least two zero groups. *)
Definition longest_run (v : Z) : nat * nat :=
  fold_left (fun best i =>
    let run := zero_run (8 - i) v i in
    if (2 <=? run)%nat && (best.2 - best.1 <? run)%nat then (i, (i + run)%nat) else best)
    (seq 0 8) (255%nat, 255%nat).

Fixpoint string6 (fuel : nat) (v : Z) (best : nat * nat) (i : nat) : string :=
  match fuel with
  | O => EmptyString
  | S fuel' =>
      if (8 <=? i)%nat then EmptyString
      else if (i =? best.1)%nat then
        let i := best.2 in
        if (8 <=? i)%nat then "::"
        else "::" +:+ hex16 (group v i) +:+ string6 fuel' v best (S i)
      else (if (0 <? i)%nat then ":" else EmptyString) +:+ hex16 (group v i) +:+ string6 fuel' v best (S i)
  end.

Definition Addr_String (a : Addr) : string :=
  match a with
  | NoAddr => "invalid IP"
  | V4 v => string4 v
  | V6 v zone =>
      (if Is4In6 a then "::ffff:" +:+ string4 (v mod 2 ^ 32) else string6 8 v (longest_run v) 0)
      +:+ (if bool_decide (zone = EmptyString) then EmptyString else "%" +:+ zone)
  end.

(** Known addresses. *)
Example ParseAddr_examples :
  Addr_String <$> ParseAddr "10.1.2.3" = Some "10.1.2.3" /\
  ParseAddr "10.1.02.3" = None /\ ParseAddr "1.2.3" = None /\ ParseAddr "256.1.1.1" = None /\
  Addr_String <$> ParseAddr "2001:DB8::1" = Some "2001:db8::1" /\
  Addr_String <$> ParseAddr "::" = Some "::" /\ Addr_String <$> ParseAddr "1::" = Some "1::" /\
  Addr_String <$> ParseAddr "fe80::1%eth0" = Some "fe80::1%eth0" /\
  Addr_String <$> ParseAddr "1:0:0:2:0:0:0:3" = Some "1:0:0:2::3" /\
  Addr_String <$> (Unmap <$> ParseAddr "::ffff:192.0.2.1") = Some "192.0.2.1" /\
  ParseAddr "1:2:3:4:5:6:7:8:9" = None /\ ParseAddr "1::2::3" = None /\ ParseAddr "1:2:3:4:5:6:7::8" = None /\
  ParseAddr "12345::" = None /\ ParseAddr ":1" = None /\ ParseAddr "1:" = None.
Proof. vm_compute. repeat split. Qed.

Example SplitHostPort_examples :
  SplitHostPort "10.0.0.1:80" = Some ("10.0.0.1", "80") /\ SplitHostPort "[::1]:80" = Some ("::1", "80") /\
  SplitHostPort "::1" = None /\ SplitHostPort "host" = None /\ SplitHostPort "[::1]" = None /\
  SplitHostPort ":80" = Some (EmptyString, "80").
Proof. vm_compute. repeat split. Qed.
