(* ===== verification/GoUrl.v ===== *)
(** * URLs, paths and media types

    What the HTTP packages use of [net/url], [path], [mime] and [net/textproto]:
    percent-escapes, query strings, [path.Clean] on rooted paths, [mime.ParseMediaType] and
    canonical header names, with the round trips the theorems need. *)

From S2P Require Import Prelude GoStrings GoRegexp GoEncoding.
Local Open Scope Z_scope.

(** ** Percent escapes ([net/url]) *)

(** [unescape]: a percent sign must start two hexadecimal digits; in a query a plus sign is
    a space. *)
Fixpoint unescape (plus_is_space : bool) (s : string) : option string :=
  match s with
  | EmptyString => Some EmptyString
  | String c rest =>
      if Ascii.eqb c "%" then
        match rest with
        | String h (String l rest') =>
            match hex_value h, hex_value l, unescape plus_is_space rest' with
            | Some a, Some b, Some r => Some (String (chr (Z.to_nat (16 * a + b))) r)
            | _, _, _ => None
            end
        | _ => None
        end
      else
        match unescape plus_is_space rest with
        | Some r => Some (String (if plus_is_space && Ascii.eqb c "+" then " "%char else c) r)
        | None => None
        end
  end.
Definition QueryUnescape : string -> option string := unescape true.
Definition PathUnescape : string -> option string := unescape false.

(** Characters a path segment keeps: unreserved ones and [$&+=:@]. *)
Definition segmentC : ascii -> bool :=
  cls_or lowerC (cls_or upperC (cls_or digitC (oneof "-_.~$&+=:@"))).

Definition hex_upper (v : Z) : ascii :=
  if v <? 10 then chr (Z.to_nat v + 48) else chr (Z.to_nat v + 55).

Fixpoint PathEscape (s : string) : string :=
  match s with
  | EmptyString => EmptyString
  | String c rest =>
      if segmentC c then String c (PathEscape rest)
      else let n := Z.of_nat (Ascii.nat_of_ascii c) in
           String "%" (String (hex_upper (n / 16)) (String (hex_upper (n mod 16)) (PathEscape rest)))
  end.

(** [url.Values] *)
Definition Values : Type := gmap string (list string).
Definition add_value (k v : string) (m : Values) : Values :=
  <[k := default [] (m !! k) ++ [v]]> m.

(** [url.ParseQuery] on the parts between ampersands: every part is read, the first error
    is reported at the end. *)
Fixpoint parse_pairs (parts : list string) (m : Values) (ok : bool) : Values * bool :=
  match parts with
  | [] => (m, ok)
  | part :: rest =>
      if negb (all_chars (fun c => negb (Ascii.eqb c ";")) part) then parse_pairs rest m false
      else if bool_decide (part = EmptyString) then parse_pairs rest m ok
      else
        let '(k, v, _) := Cut part "="%char in
        match QueryUnescape k, QueryUnescape v with
        | Some k', Some v' => parse_pairs rest (add_value k' v' m) ok
        | _, _ => parse_pairs rest m false
        end
  end.
Definition ParseQuery (s : string) : option Values :=
  let '(m, ok) := parse_pairs (Split s "&"%char) ∅ true in if ok then Some m else None.

(** ** [path.Clean] on a rooted path *)

Fixpoint clean_segments (segments acc : list string) : list string :=
  match segments with
  | [] => rev acc
  | s :: rest =>
      if bool_decide (s = EmptyString) || bool_decide (s = ".") then clean_segments rest acc
      else if bool_decide (s = "..") then clean_segments rest (tail acc)
      else clean_segments rest (s :: acc)
  end.
Definition path_Clean (p : string) : string :=
  "/" +:+ Join (clean_segments (Split p "/"%char) []) "/".

(** ** Canonical header names ([net/textproto]) *)

Definition headerC : ascii -> bool :=
  cls_or lowerC (cls_or upperC (cls_or digitC (oneof "!#$%&'*+-.^_`|~"))).
Definition upper_char (c : ascii) : ascii :=
  if lowerC c then chr (Ascii.nat_of_ascii c - 32) else c.

Fixpoint ToUpper (s : string) : string :=
  match s with EmptyString => EmptyString | String c rest => String (upper_char c) (ToUpper rest) end.

(** [path.Clean] of a path that is not rooted. *)
Fixpoint clean_relative (segments acc : list string) : list string :=
  match segments with
  | [] => rev acc
  | s :: rest =>
      if bool_decide (s = EmptyString) || bool_decide (s = ".") then clean_relative rest acc
      else if bool_decide (s = "..") then
        match acc with
        | [] => clean_relative rest [".."]
        | t :: acc' => if bool_decide (t = "..") then clean_relative rest (".." :: acc) else clean_relative rest acc'
        end
      else clean_relative rest (s :: acc)
  end.
Definition Clean (p : string) : string :=
  if HasPrefix p "/" then path_Clean p
  else match clean_relative (Split p "/"%char) [] with [] => "." | segs => Join segs "/" end.
Fixpoint canonical_from (upper : bool) (s : string) : string :=
  match s with
  | EmptyString => EmptyString
  | String c rest =>
      String (if upper then upper_char c else lower_char c) (canonical_from (Ascii.eqb c "-") rest)
  end.
Definition CanonicalMIMEHeaderKey (s : string) : string :=
  if all_chars headerC s then canonical_from true s else s.

(** ** Media types ([mime]) *)

Definition tspecialC : ascii -> bool :=
  cls_or (oneof "()<>@,;:\/[]?=") (fun c => Ascii.eqb c (chr 34)).
Definition mimeTokenC (c : ascii) : bool := rng 33 126 c && negb (tspecialC c).

Fixpoint consumeToken (s : string) : string * string :=
  match s with
  | EmptyString => (EmptyString, EmptyString)
  | String c rest =>
      if mimeTokenC c then let '(t, r) := consumeToken rest in (String c t, r)
      else (EmptyString, s)
  end.

(** The inside of a quoted string: its value and what follows the closing quote. *)
Fixpoint consume_quoted (s : string) : option (string * string) :=
  match s with
  | EmptyString => None
  | String c rest =>
      if Ascii.eqb c (chr 34) then Some (EmptyString, rest)
      else if Ascii.eqb c (chr 13) || Ascii.eqb c (chr 10) then None
      else
        let plain := match consume_quoted rest with
                     | Some (v, r) => Some (String c v, r) | None => None end in
        if Ascii.eqb c "\" then
          match rest with
          | String d rest' =>
              if tspecialC d then
                match consume_quoted rest' with
                | Some (v, r) => Some (String d v, r) | None => None end
              else plain
          | EmptyString => plain
          end
        else plain
  end.
Definition consumeValue (s : string) : string * string :=
  match s with
  | EmptyString => (EmptyString, EmptyString)
  | String c rest =>
      if Ascii.eqb c (chr 34) then
        match consume_quoted rest with Some p => p | None => (EmptyString, s) end
      else consumeToken s
  end.

Definition trim_left (s : string) : string :=
  trim_left_fuel (S (String.length s)) spaceEncodings s.

(** [consumeMediaParam]: [None] is an empty name. *)
Definition consumeMediaParam (v : string) : option (string * string * string) :=
  match trim_left v with
  | String ";" rest =>
      let '(param, rest) := consumeToken (trim_left rest) in
      if bool_decide (param = EmptyString) then None
      else match trim_left rest with
      | String "=" rest =>
          let rest := trim_left rest in
          let '(value, rest2) := consumeValue rest in
          if bool_decide (value = EmptyString) && bool_decide (rest2 = rest) then None
          else Some (ToLower param, value, rest2)
      | _ => None
      end
  | _ => None
  end.

(** The parameter loop: whether it ends without an error.  Equal duplicates are allowed. *)
Fixpoint media_params_ok (fuel : nat) (v : string) (seen : gmap string string) : bool :=
  match fuel with
  | O => false
  | S n =>
      let v := trim_left v in
      if bool_decide (v = EmptyString) then true
      else match consumeMediaParam v with
      | None => bool_decide (TrimSpace v = ";")
      | Some (k, value, rest) =>
          match seen !! k with
          | Some old => if bool_decide (old = value) then media_params_ok n rest seen else false
          | None => media_params_ok n rest (<[k := value]> seen)
          end
      end
  end.

Definition checkMediaType (s : string) : bool :=
  let '(typ, rest) := consumeToken s in
  negb (bool_decide (typ = EmptyString)) &&
  match rest with
  | EmptyString => true
  | String "/" rest =>
      let '(sub, rest) := consumeToken rest in
      negb (bool_decide (sub = EmptyString)) && bool_decide (rest = EmptyString)
  | _ => false
  end.

(** [mime.ParseMediaType]: the media type when there is no error. *)
Definition ParseMediaType (v : string) : option string :=
  let '(base, params, found) := Cut v ";"%char in
  let mediatype := TrimSpace (ToLower base) in
  if negb (checkMediaType mediatype) then None
  else if media_params_ok (S (String.length v)) (if found then String ";" params else EmptyString) ∅
  then Some mediatype else None.

Example media_types :
  ParseMediaType "application/x-www-form-urlencoded" = Some "application/x-www-form-urlencoded" /\
  ParseMediaType "Application/JSON ; charset=utf-8" = Some "application/json" /\
  ParseMediaType "application/json; charset" = None /\ ParseMediaType "text/;q" = None /\
  ParseMediaType EmptyString = None /\ ParseMediaType "text/plain;" = Some "text/plain".
Proof. vm_compute. done. Qed.

(** ** Facts *)

(** Two values per character: what [PathEscape] writes and [unescape] reads. *)
Lemma escape_char c :
  hex_value (hex_upper (Z.of_nat (Ascii.nat_of_ascii c) / 16)) = Some (Z.of_nat (Ascii.nat_of_ascii c) / 16) /\
  hex_value (hex_upper (Z.of_nat (Ascii.nat_of_ascii c) mod 16)) = Some (Z.of_nat (Ascii.nat_of_ascii c) mod 16) /\
  chr (Z.to_nat (16 * (Z.of_nat (Ascii.nat_of_ascii c) / 16) + Z.of_nat (Ascii.nat_of_ascii c) mod 16)) = c.
Proof. destruct c as [[] [] [] [] [] [] [] []]; vm_compute; done. Qed.

Lemma segment_not_percent c : segmentC c = true -> Ascii.eqb c "%" = false.
Proof. destruct c as [[] [] [] [] [] [] [] []]; vm_compute; done. Qed.

Lemma PathUnescape_escape s : PathUnescape (PathEscape s) = Some s.
Proof.
  unfold PathUnescape. induction s as [|c s IH]; [done|]. cbn [PathEscape].
  destruct (segmentC c) eqn:E.
  - cbn [unescape]. rewrite (segment_not_percent _ E), IH. done.
  - destruct (escape_char c) as (H1 & H2 & H3). cbn -[Z.div Z.modulo hex_upper hex_value chr].
    rewrite H1, H2, IH, H3. done.
Qed.

Lemma PathEscape_no_slash s : all_chars (fun c => negb (bool_decide (c = "/"%char))) (PathEscape s) = true.
Proof.
  induction s as [|c s IH]; [done|]. cbn [PathEscape]. destruct (segmentC c) eqn:E.
  - cbn. rewrite IH, andb_true_r. revert E. destruct c as [[] [] [] [] [] [] [] []]; vm_compute; done.
  - cbn [all_chars]. rewrite IH, andb_true_r. clear.
    destruct c as [[] [] [] [] [] [] [] []]; vm_compute; done.
Qed.

(** A cleaned path never has an empty, [.] or [..] segment. *)
Lemma clean_segments_ok segs acc :
  Forall (fun s => s <> EmptyString /\ s <> "." /\ s <> "..") acc ->
  Forall (fun s => s <> EmptyString /\ s <> "." /\ s <> "..") (clean_segments segs acc).
Proof.
  revert acc; induction segs as [|s segs IH]; intros acc H; cbn [clean_segments].
  { by apply Forall_rev. }
  case_match eqn:G1; [by apply IH|]. bool_to_prop. case_bool_decide.
  - apply IH. by destruct H.
  - apply IH. by constructor.
Qed.
