(* ===== verification/GoText.v ===== *)
(** * Searching, trimming and sorting text (Go's [strings] and [sort])

    What the templates and the generators use of the two packages. *)

From S2P Require Import Prelude GoStrings.
Local Open Scope go_scope.
Local Open Scope Z_scope.

(** [s[a:b]] *)
Definition slice (a b : nat) (s : string) : string := take_string (b - a) (drop_string a s).

(** [strings.Index] and [strings.LastIndex] *)
Fixpoint Index (s sub : string) : option nat :=
  if HasPrefix s sub then Some O
  else match s with EmptyString => None | String _ rest => option_map S (Index rest sub) end.
Fixpoint LastIndex (s sub : string) : option nat :=
  match s with
  | EmptyString => if HasPrefix s sub then Some O else None
  | String _ rest => match LastIndex rest sub with
                     | Some i => Some (S i)
                     | None => if HasPrefix s sub then Some O else None
                     end
  end.

Definition TrimPrefix (s p : string) : string := if HasPrefix s p then drop_string (String.length p) s else s.
Definition TrimSuffix (s p : string) : string :=
  if HasSuffix s p then take_string (String.length s - String.length p) s else s.
Fixpoint Repeat (c : ascii) (n : nat) : string :=
  match n with O => EmptyString | S n' => String c (Repeat c n') end.
(** [strings.ReplaceAll] of one byte *)
Fixpoint replace_char (c : ascii) (by_ s : string) : string :=
  match s with
  | EmptyString => EmptyString
  | String x rest => (if bool_decide (x = c) then by_ else String x EmptyString) +:+ replace_char c by_ rest
  end.

(** [strings.Contains], [strings.IndexByte], [strings.Count] of a byte *)
Definition Contains (s sub : string) : bool := match Index s sub with Some _ => true | None => false end.
Definition IndexByte (s : string) (c : ascii) : option nat := Index s (String c EmptyString).
Fixpoint Count (s : string) (c : ascii) : nat :=
  match s with
  | EmptyString => O
  | String x rest => ((if bool_decide (x = c) then 1 else 0) + Count rest c)%nat
  end.

(** [sort.Strings] *)
Fixpoint insert_string (s : string) (l : list string) : list string :=
  match l with
  | [] => [s]
  | t :: rest => if String.leb s t then s :: l else t :: insert_string s rest
  end.
Definition sort_strings (l : list string) : list string := foldr insert_string [] l.

Lemma insert_string_perm s l : insert_string s l ≡ₚ s :: l.
Proof. induction l as [|t l IH]; [done|]. cbn. destruct (String.leb s t); [done|]. rewrite IH. apply Permutation_swap. Qed.
Lemma sort_strings_perm l : sort_strings l ≡ₚ l.
Proof. induction l as [|s l IH]; [done|]. cbn. by rewrite insert_string_perm, IH. Qed.
Lemma elem_of_sort_strings x l : x ∈ sort_strings l <-> x ∈ l.
Proof. by rewrite sort_strings_perm. Qed.
