(* ===== verification/Proxy.v ===== *)
(** * Trusted proxies

    [security/ratelimit/proxy.go] and [RemoteAddress]: which address a rate limiter keys a
    request by.  A request is its socket peer and the values of the two forwarding headers. *)

From S2P Require Import Prelude GoStrings GoEncoding GoRegexp GoNetip.
Local Open Scope Z_scope.

Definition ErrInvalidForwardedChain : error := Sentinel "rate limit: invalid forwarded address chain".

Definition maximumTrustedProxyPrefixes : Z := 256.
Definition maximumForwardedHeaderBytes : Z := 8192.
Definition maximumForwardedHops : Z := 64.
Definition maximumForwardedParameters : Z := 32.

Record request : Type := {
  RemoteAddr : string;
  h_Forwarded : list string;
  h_XForwardedFor : list string
}.

Record TrustedProxies : Type := { prefixes : list Prefix }.

(** ** Configuration *)

Definition normalizePrefix (p : Prefix) : Prefix :=
  if Is4In6 (prefix_addr p) && (prefix_bits p >=? 96)
  then Masked {| prefix_addr := Unmap (prefix_addr p); prefix_bits := prefix_bits p - 96 |}
  else Masked p.

(** The entries of one argument. *)
Fixpoint parse_entries (encoded : list string) (acc : list Prefix) : result (list Prefix) :=
  match encoded with
  | [] => Ok acc
  | e :: rest =>
      let e := TrimSpace e in
      if bool_decide (e = EmptyString) then Err (Errorf "rate limit: trusted proxy CIDR contains an empty entry")
      else match ParsePrefix e with
      | None => Err (Errorf "rate limit: invalid trusted proxy CIDR %q")
      | Some p =>
          if negb (bool_decide (Zone (prefix_addr p) = EmptyString))
          then Err (Errorf "rate limit: invalid trusted proxy CIDR %q")
          else let acc := acc ++ [normalizePrefix p] in
               if Z.of_nat (length acc) >? maximumTrustedProxyPrefixes
               then Err (Errorf "rate limit: trusted proxy CIDRs exceed %d entries")
               else parse_entries rest acc
      end
  end.

Fixpoint parse_values (vs : list string) (acc : list Prefix) : result (list Prefix) :=
  match vs with
  | [] => Ok acc
  | v :: rest =>
      if bool_decide (TrimSpace v = EmptyString) then parse_values rest acc
      else match parse_entries (Split v ",") acc with
           | Err e => Err e
           | Ok acc' => parse_values rest acc'
           end
  end.

Definition ParseTrustedProxies (vs : list string) : result TrustedProxies :=
  match parse_values vs [] with
  | Err e => Err e
  | Ok ps => Ok {| prefixes := ps |}
  end.

Definition Contains (trusted : TrustedProxies) (address : Addr) : bool :=
  if negb (IsValid address) || negb (bool_decide (Zone address = EmptyString)) then false
  else
    let address := Unmap address in
    existsb (fun p => (BitLen (Unmap (prefix_addr p)) =? BitLen address) && Prefix_Contains p address)
      (prefixes trusted).

(** ** Addresses of a request *)

(** [None] is a nil request. *)
Definition RemoteAddress (r : option request) : string :=
  match r with
  | None => "unknown"
  | Some r =>
      let address := TrimSpace (RemoteAddr r) in
      let fallback := if bool_decide (address = EmptyString) then "unknown" else address in
      match SplitHostPort address with
      | Some (host, _) => if bool_decide (host = EmptyString) then fallback else host
      | None => fallback
      end
  end.

Definition unzoned (a : option Addr) : option Addr :=
  match a with
  | Some a => if bool_decide (Zone a = EmptyString) then Some (Unmap a) else None
  | None => None
  end.

Definition parseDirectAddress (v : string) : option Addr := unzoned (ParseAddr (TrimSpace v)).

(** [strings.EqualFold] with an ASCII text. *)
Definition EqualFold (s t : string) : bool := bool_decide (ToLower s = ToLower t).

Definition parseForwardedNode (v : string) : result Addr :=
  let v := TrimSpace v in
  if bool_decide (v = EmptyString) || EqualFold v "unknown" || HasPrefix v "_"
  then Err (Errorf "forwarded node is not an IP address")
  else
  match unzoned (ParseAddr v) with
  | Some a => Ok a
  | None =>
  match (if HasPrefix v "[" && HasSuffix v "]"
         then unzoned (ParseAddr (take_string (String.length v - 2) (drop_string 1 v))) else None) with
  | Some a => Ok a
  | None =>
  match unzoned (ParseAddrPort v) with
  | Some a => Ok a
  | None =>
  match (match SplitHostPort v with
         | Some (host, port) => if bool_decide (port = EmptyString) then None else unzoned (ParseAddr host)
         | None => None
         end) with
  | Some a => Ok a
  | None => Err (Errorf "forwarded node is not a valid IP address")
  end end end end.

(** ** [X-Forwarded-For] *)

Fixpoint parse_nodes (parts : list string) : result (list Addr) :=
  match parts with
  | [] => Ok []
  | p :: rest =>
      match parseForwardedNode (TrimSpace p) with
      | Err e => Err e
      | Ok a => match parse_nodes rest with Err e => Err e | Ok chain => Ok (a :: chain) end
      end
  end.

Definition parseXForwardedFor (v : string) : result (list Addr) :=
  if byte_len v >? maximumForwardedHeaderBytes then Err (Errorf "X-Forwarded-For exceeds size limit")
  else
    let parts := Split v "," in
    if Z.of_nat (length parts) >? maximumForwardedHops then Err (Errorf "X-Forwarded-For exceeds hop limit")
    else parse_nodes parts.

(** ** [Forwarded] *)

(** The scan of [splitForwarded]: the current element reversed, and the quoting state. *)
Fixpoint split_scan (v : string) (separator : ascii) (current : string) (quoted escaped : bool)
    (acc : list string) : result (list string) :=
  let finish k :=
    let part := TrimSpace (rev_string current EmptyString) in
    if bool_decide (part = EmptyString) then Err (Errorf "empty Forwarded element") else k (acc ++ [part]) in
  match v with
  | EmptyString =>
      if quoted || escaped then Err (Errorf "unterminated Forwarded quoted string") else finish Ok
  | String c rest =>
      if escaped then split_scan rest separator (String c current) quoted false acc
      else if quoted && bool_decide (c = "\"%char) then split_scan rest separator (String c current) quoted true acc
      else if bool_decide (c = chr 34) then split_scan rest separator (String c current) (negb quoted) false acc
      else if negb quoted && bool_decide (c = separator)
      then finish (split_scan rest separator EmptyString quoted false)
      else split_scan rest separator (String c current) quoted false acc
  end.

Definition splitForwarded (v : string) (separator : ascii) : result (list string) :=
  split_scan v separator EmptyString false false [].

Definition isForwardedToken (v : string) : bool :=
  negb (bool_decide (v = EmptyString)) &&
  all_chars (cls_or lowerC (cls_or upperC (cls_or digitC (oneof "!#$%&'*+-.^_`|~")))) v.

(** Runes outside printable ASCII; every byte of a longer rune is above [0x7e]. *)
Definition hasInvalidForwardedRune (v : string) : bool :=
  negb (all_chars (fun c => (32 <=? byte_val c) && (byte_val c <=? 126)) v).

(** The one-byte escapes of a Go string literal: [\xHH] and [\OOO], and the named ones. *)
Definition simple_escape (c : ascii) : option Z :=
  let n := byte_val c in
  if n =? 97 then Some 7 else if n =? 98 then Some 8 else if n =? 102 then Some 12
  else if n =? 110 then Some 10 else if n =? 114 then Some 13 else if n =? 116 then Some 9
  else if n =? 118 then Some 11 else if n =? 92 then Some 92 else if n =? 34 then Some 34 else None.

Definition oct_value (c : ascii) : option Z :=
  let n := byte_val c in if (48 <=? n) && (n <=? 55) then Some (n - 48) else None.

Fixpoint hex_digits (n : nat) (s : string) (acc : Z) : option (Z * string) :=
  match n, s with
  | O, _ => Some (acc, s)
  | S n', String c s' => match hex_value c with Some d => hex_digits n' s' (acc * 16 + d) | None => None end
  | _, EmptyString => None
  end.

(** [strconv.Unquote] of the text after the opening quote, where the caller goes on only
    with printable ASCII: a value outside it ends in [None] at once. *)
Fixpoint unquote (fuel : nat) (s : string) : option string :=
  let printable z := if (32 <=? z) && (z <=? 126) then Some (byte_of z) else None in
  let continue_ z rest := match fuel with
    | O => None
    | S fuel' => match printable z, unquote fuel' rest with
                 | Some c, Some r => Some (String c r)
                 | _, _ => None
                 end
    end in
  match s with
  | EmptyString => None
  | String c rest =>
      if bool_decide (c = chr 34) then if bool_decide (rest = EmptyString) then Some EmptyString else None
      else if negb (bool_decide (c = "\"%char)) then continue_ (byte_val c) rest
      else match rest with
      | EmptyString => None
      | String e rest' =>
          match simple_escape e with
          | Some z => continue_ z rest'
          | None =>
              match oct_value e with
              | Some o1 =>
                  match rest' with
                  | String b (String d rest'') =>
                      match oct_value b, oct_value d with
                      | Some o2, Some o3 => continue_ (o1 * 64 + o2 * 8 + o3) rest''
                      | _, _ => None
                      end
                  | _ => None
                  end
              | None =>
                  match (if bool_decide (e = "x"%char) then hex_digits 2 rest' 0
                         else if bool_decide (e = "u"%char) then hex_digits 4 rest' 0
                         else if bool_decide (e = "U"%char) then hex_digits 8 rest' 0 else None) with
                  | Some (z, rest'') => continue_ z rest''
                  | None => None
                  end
              end
          end
      end
  end.

Definition decodeForwardedValue (v : string) : result string :=
  match v with
  | EmptyString => Err (Errorf "empty Forwarded value")
  | String c rest =>
      if negb (bool_decide (c = chr 34)) then
        if negb (all_chars (fun x => negb (bool_decide (x = chr 34) || bool_decide (x = "\"%char)
                                          || bool_decide (x = " "%char))) v)
           || hasInvalidForwardedRune v
        then Err (Errorf "invalid unquoted Forwarded value") else Ok v
      else match unquote (String.length v) rest with
           | Some decoded => Ok decoded
           | None => Err (Errorf "invalid Forwarded quoted value")
           end
  end.

(** The parameters of one element; [found] is the address of its [for]. *)
Fixpoint parse_parameters (parameters : list string) (found : option Addr) : result (option Addr) :=
  match parameters with
  | [] => Ok found
  | parameter :: rest =>
      let '(name, encoded, ok) := Cut parameter "=" in
      let name := TrimSpace name in
      let encoded := TrimSpace encoded in
      if negb ok || negb (isForwardedToken name) then Err (Errorf "malformed Forwarded parameter")
      else if negb (EqualFold name "for") then
        match decodeForwardedValue encoded with
        | Err e => Err e
        | Ok _ => parse_parameters rest found
        end
      else if bool_decide (is_Some found) then Err (Errorf "duplicate Forwarded for parameter")
      else match decodeForwardedValue encoded with
           | Err e => Err e
           | Ok decoded =>
               match parseForwardedNode decoded with
               | Err e => Err e
               | Ok a => parse_parameters rest (Some a)
               end
           end
  end.

Definition parse_element (element : string) : result Addr :=
  match splitForwarded element ";" with
  | Err e => Err e
  | Ok parameters =>
      if Z.of_nat (length parameters) >? maximumForwardedParameters
      then Err (Errorf "Forwarded element exceeds parameter limit")
      else match parse_parameters parameters None with
           | Err e => Err e
           | Ok None => Err (Errorf "Forwarded element has no for parameter")
           | Ok (Some a) => Ok a
           end
  end.

Fixpoint parse_elements (elements : list string) : result (list Addr) :=
  match elements with
  | [] => Ok []
  | e :: rest =>
      match parse_element e with
      | Err err => Err err
      | Ok a => match parse_elements rest with Err err => Err err | Ok chain => Ok (a :: chain) end
      end
  end.

Definition parseForwarded (v : string) : result (list Addr) :=
  if byte_len v >? maximumForwardedHeaderBytes then Err (Errorf "Forwarded exceeds size limit")
  else match splitForwarded v "," with
       | Err e => Err e
       | Ok elements =>
           if Z.of_nat (length elements) >? maximumForwardedHops
           then Err (Errorf "Forwarded exceeds hop limit")
           else parse_elements elements
       end.

(** ** Resolution *)

(** The walk from the socket peer towards the client; the chain is given nearest first. *)
Fixpoint walk (trusted : TrustedProxies) (current : Addr) (hops : list Addr) : Addr :=
  match hops with
  | [] => current
  | hop :: rest => if negb (Contains trusted current) then current else walk trusted (Unmap hop) rest
  end.

Definition blank (vs : list string) : bool :=
  match vs with [v] => bool_decide (TrimSpace v = EmptyString) | _ => false end.

(** The address, and the diagnostic for malformed forwarding data. *)
Definition ResolveClientAddress (trusted : TrustedProxies) (r : option request) : string * option error :=
  let directText := RemoteAddress r in
  let invalid := (directText, Some (Wrapf "%w: %v" ErrInvalidForwardedChain)) in
  match parseDirectAddress directText with
  | None => (directText, None)
  | Some direct =>
      if negb (Contains trusted direct) then (directText, None)
      else
      let forwarded := match r with Some r => h_Forwarded r | None => [] end in
      let legacy := match r with Some r => h_XForwardedFor r | None => [] end in
      match forwarded, legacy with
      | [], [] => (Addr_String direct, None)
      | _ :: _, _ :: _ => invalid
      | _, _ =>
          if (Z.of_nat (length forwarded) >? 1) || (Z.of_nat (length legacy) >? 1) then invalid
          else if blank forwarded || blank legacy then invalid
          else
            match (match forwarded with
                   | v :: _ => parseForwarded v
                   | [] => match legacy with v :: _ => parseXForwardedFor v | [] => Ok [] end
                   end) with
            | Err _ | Ok [] => invalid
            | Ok chain => (Addr_String (walk trusted (Unmap direct) (reverse chain)), None)
            end
      end
  end.

Definition ClientAddress (trusted : TrustedProxies) (r : option request) : string :=
  match ResolveClientAddress trusted r with
  | (_, Some _) => RemoteAddress r
  | (address, None) => address
  end.
