(* ===== verification/PathText.v ===== *)
(** Texts that [strings.TrimSpace] leaves alone, valid UTF-8 and the decimal numbers, under
    concatenation: what the field paths of [Validation] need. *)

From S2P Require Import Prelude GoStrings GoUtf8.
Local Open Scope Z_scope.

(** ** Reversal *)

Lemma rev_string_app a b acc : rev_string (a +:+ b) acc = rev_string b (rev_string a acc).
Proof. revert acc; induction a as [|c a IH]; intros acc; [done|]. rewrite string_app_cons. cbn. by rewrite IH. Qed.

Lemma rev_string_acc a acc : rev_string a acc = rev_string a EmptyString +:+ acc.
Proof.
  revert acc; induction a as [|c a IH]; intros acc; [done|]. cbn. rewrite IH, (IH (String c EmptyString)).
  rewrite <- string_app_assoc. done.
Qed.

Lemma rev_string_length a acc : String.length (rev_string a acc) = (String.length a + String.length acc)%nat.
Proof. revert acc; induction a as [|c a IH]; intros acc; [done|]. cbn. rewrite IH. cbn. lia. Qed.

Lemma rev_string_involutive a : rev_string (rev_string a EmptyString) EmptyString = a.
Proof.
  induction a as [|c a IH]; [done|]. cbn. rewrite (rev_string_acc a (String c EmptyString)), rev_string_app, IH. done.
Qed.

Lemma rev_all_chars p a : all_chars p (rev_string a EmptyString) = all_chars p a.
Proof.
  induction a as [|c a IH]; [done|]. cbn. rewrite rev_string_acc, all_chars_app, IH. cbn.
  by rewrite andb_true_r, andb_comm.
Qed.

(** ** Trimming *)

Definition reversed_spaces : list string := (fun e => rev_string e EmptyString) <$> spaceEncodings.
Definition trimmed (s : string) : Prop :=
  leading_space spaceEncodings s = None /\ leading_space reversed_spaces (rev_string s EmptyString) = None.

Lemma leading_space_None encs s :
  leading_space encs s = None <-> Forall (fun e => HasPrefix s e = false) encs.
Proof.
  unfold leading_space. destruct (list_find _ encs) as [[i e]|] eqn:Hf; cbn.
  - split; [done|]. apply list_find_Some in Hf as (Hi & Hp & _). intros HF.
    rewrite Forall_lookup in HF. specialize (HF _ _ Hi). cbn in HF. by rewrite HF in Hp.
  - split; [|done]. intros _. apply list_find_None in Hf. eapply Forall_impl; [exact Hf|]. intros e He. cbn in He.
    by destruct (HasPrefix s e).
Qed.


Lemma leading_space_shorter encs s s' :
  Forall (fun e => e <> EmptyString) encs -> leading_space encs s = Some s' ->
  (String.length s' < String.length s)%nat.
Proof.
  intros HF. unfold leading_space. destruct (list_find _ encs) as [[i e]|] eqn:Hf; [|done]. intros [= <-].
  apply list_find_Some in Hf as (Hi & Hp & _). rewrite Forall_lookup in HF. specialize (HF _ _ Hi). cbn.
  rewrite drop_string_length. destruct e as [|c e]; [done|]. destruct s; cbn in *; [done|lia].
Qed.

Lemma trim_left_shrinks n encs s :
  Forall (fun e => e <> EmptyString) encs -> (String.length (trim_left_fuel n encs s) <= String.length s)%nat.
Proof.
  intros HF. revert s; induction n as [|n IH]; intros s; cbn; [lia|].
  destruct (leading_space encs s) as [s'|] eqn:Hl; [|lia].
  pose proof (leading_space_shorter _ _ _ HF Hl). specialize (IH s'). lia.
Qed.

Lemma trim_left_id encs s :
  Forall (fun e => e <> EmptyString) encs ->
  String.length (trim_left_fuel (String.length s) encs s) = String.length s -> leading_space encs s = None.
Proof.
  intros HF. destruct s as [|c s].
  - intros _. apply leading_space_None. eapply Forall_impl; [exact HF|]. intros e He. by destruct e.
  - cbn [String.length trim_left_fuel]. destruct (leading_space encs (String c s)) as [s'|] eqn:Hl; [|done].
    pose proof (leading_space_shorter _ _ _ HF Hl). pose proof (trim_left_shrinks (String.length s) encs s' HF).
    cbn in *. lia.
Qed.

Lemma trim_left_none n encs s : leading_space encs s = None -> trim_left_fuel n encs s = s.
Proof. intros Hl. destruct n; cbn; [done|]. by rewrite Hl. Qed.

Lemma spaces_nonempty :
  Forall (fun e => e <> EmptyString) spaceEncodings /\ Forall (fun e => e <> EmptyString) reversed_spaces.
Proof. split; apply (bool_decide_unpack _); vm_compute; done. Qed.

Lemma TrimSpace_fixed s : TrimSpace s = s <-> trimmed s.
Proof.
  unfold TrimSpace. fold reversed_spaces. cbv zeta.
  set (left := trim_left_fuel (String.length s) spaceEncodings s). destruct spaces_nonempty as [H1 H2]. split.
  - intros Heq. pose proof (f_equal String.length Heq) as Hlen. rewrite rev_string_length in Hlen. cbn in Hlen.
    pose proof (trim_left_shrinks (String.length left) reversed_spaces (rev_string left EmptyString) H2) as Hs2.
    rewrite rev_string_length in Hs2. cbn in Hs2.
    pose proof (trim_left_shrinks (String.length s) spaceEncodings s H1) as Hs1. fold left in Hs1.
    assert (leading_space spaceEncodings s = None) as Hn by (apply trim_left_id; [done|]; fold left; lia).
    assert (left = s) as Hleft by (by apply trim_left_none). split; [done|]. rewrite Hleft in *.
    apply trim_left_id; [done|]. rewrite !rev_string_length. cbn. rewrite Nat.add_0_r. lia.
  - intros [Hn Hr]. assert (left = s) as -> by (by apply trim_left_none).
    rewrite (trim_left_none _ _ _ Hr). apply rev_string_involutive.
Qed.

Lemma HasPrefix_sep a b sep e :
  all_chars (fun c => negb (bool_decide (c = sep))) e = true -> HasPrefix (a +:+ String sep b) e = true ->
  HasPrefix a e = true.
Proof.
  revert e; induction a as [|c a IH]; intros e; rewrite ?string_app_nil_l, ?string_app_cons.
  - destruct e as [|x e]; [done|]. cbn. intros [Hx _]%andb_true_iff [Hy _]%andb_true_iff. bool_to_prop. by subst.
  - destruct e as [|x e]; [by destruct a|]. cbn. intros [_ He]%andb_true_iff [Hx Hp]%andb_true_iff.
    rewrite Hx. by apply IH.
Qed.

Lemma leading_space_sep sep encs a b :
  Forall (fun e => all_chars (fun c => negb (bool_decide (c = sep))) e = true) encs ->
  leading_space encs a = None -> leading_space encs (a +:+ String sep b) = None.
Proof.
  rewrite !leading_space_None, !Forall_forall. intros Hd Ha e He.
  destruct (HasPrefix (a +:+ String sep b) e) eqn:Hp; [|done].
  apply HasPrefix_sep in Hp; [|by apply Hd]. by rewrite Ha in Hp.
Qed.

(** Trimming stops at a character that is not part of a space. *)
Lemma drop_prefix e a s : HasPrefix a e = true ->
  drop_string (String.length e) (a +:+ s) = drop_string (String.length e) a +:+ s.
Proof.
  revert a; induction e as [|x e IH]; intros [|c a]; try done. rewrite string_app_cons. cbn.
  intros [_ Hp]%andb_true_iff. by apply IH.
Qed.

Lemma trim_left_sep sep encs n a b :
  Forall (fun e => all_chars (fun c => negb (bool_decide (c = sep))) e = true) encs ->
  exists a', trim_left_fuel n encs (a +:+ String sep b) = a' +:+ String sep b.
Proof.
  intros Hd. revert a; induction n as [|n IH]; intros a; cbn; [eauto|]. unfold leading_space.
  destruct (list_find _ encs) as [[i e]|] eqn:Hf; cbn; [|eauto].
  apply list_find_Some in Hf as (Hi & Hp & _). cbn in Hp. apply Is_true_true in Hp.
  rewrite Forall_lookup in Hd. apply HasPrefix_sep in Hp; [|by eapply Hd].
  rewrite (drop_prefix e a _ Hp). apply IH.
Qed.

Definition no_comma : ascii -> bool := fun c => negb (bool_decide (c = ","%char)).
Lemma spaces_no_comma :
  Forall (fun e => all_chars no_comma e = true) spaceEncodings /\ Forall (fun e => all_chars no_comma e = true) reversed_spaces.
Proof. split; apply (bool_decide_unpack _); vm_compute; done. Qed.

Lemma TrimSpace_comma a b : TrimSpace (a +:+ String "," b) <> EmptyString.
Proof.
  unfold TrimSpace. fold reversed_spaces. cbv zeta. destruct spaces_no_comma as [H1 H2].
  destruct (trim_left_sep "," _ (String.length (a +:+ String "," b)) a b H1) as [a' ->].
  rewrite rev_string_app. change (rev_string (String "," b) ?x) with (rev_string b (String "," x)).
  rewrite (rev_string_acc b (String "," _)).
  destruct (trim_left_sep "," _ (String.length (a' +:+ String "," b)) (rev_string b EmptyString)
    (rev_string a' EmptyString) H2) as [b' ->].
  intros Heq. apply (f_equal String.length) in Heq. rewrite rev_string_length, string_length_app in Heq.
  cbn in Heq. lia.
Qed.

(** A text that starts with a character no encoding starts with. *)
Lemma leading_space_head (p : ascii -> bool) encs c s :
  Forall (fun e => match e with String x _ => p x = false | EmptyString => False end) encs ->
  p c = true -> leading_space encs (String c s) = None.
Proof.
  intros HF Hc. apply leading_space_None. eapply Forall_impl; [exact HF|]. intros [|x e]; [done|]. cbn. intros Hx.
  rewrite bool_decide_eq_false_2; [done|]. intros ->. congruence.
Qed.

Definition no_dot : ascii -> bool := fun c => negb (bool_decide (c = "."%char)).
Lemma spaces_no_dot :
  Forall (fun e => all_chars no_dot e = true) spaceEncodings /\ Forall (fun e => all_chars no_dot e = true) reversed_spaces.
Proof. split; apply (bool_decide_unpack _); vm_compute; done. Qed.

Lemma trimmed_app a b : trimmed a -> trimmed b -> trimmed (a +:+ String "." b).
Proof.
  intros [Ha _] [_ Hb]. destruct spaces_no_dot as [H1 H2]. split; [by apply leading_space_sep|].
  rewrite rev_string_app. change (rev_string (String "." b) ?x) with (rev_string b (String "." x)).
  rewrite (rev_string_acc b (String "." _)). by apply leading_space_sep.
Qed.

(** ** Numbers *)

Lemma spaces_no_digit :
  Forall (fun e => match e with String x _ => is_digit x = false | EmptyString => False end) spaceEncodings /\
  Forall (fun e => match e with String x _ => is_digit x = false | EmptyString => False end) reversed_spaces.
Proof. split; repeat constructor. Qed.

Lemma trimmed_digits s : s <> EmptyString -> all_chars is_digit s = true -> trimmed s.
Proof.
  intros Hne Hd. destruct spaces_no_digit as [H1 H2]. split.
  - destruct s as [|c s]; [done|]. cbn in Hd. apply andb_true_iff in Hd as [Hc _]. by apply (leading_space_head is_digit).
  - rewrite <- (rev_all_chars is_digit) in Hd. pose proof (rev_string_length s EmptyString) as Hl.
    destruct (rev_string s EmptyString) as [|c r]; [by destruct s|]. cbn in Hd.
    apply andb_true_iff in Hd as [Hc _]. by apply (leading_space_head is_digit).
Qed.

Lemma Itoa_nat n : all_chars is_digit (Itoa (Z.of_nat n)) = true /\ Itoa (Z.of_nat n) <> EmptyString.
Proof.
  unfold Itoa. rewrite (proj2 (Z.ltb_ge _ _)) by lia. split; [apply digits_all_digits; lia|apply digits_nonempty].
Qed.

Lemma digits_fuel_length fuel n : (String.length (digits_fuel fuel n) <= fuel)%nat.
Proof.
  revert n; induction fuel as [|f IH]; intros n; cbn; [lia|]. destruct (n <? 10); [cbn; lia|].
  rewrite string_length_app. cbn. specialize (IH (n / 10)). lia.
Qed.

(** ** UTF-8 *)

Lemma ValidString_app a b : ValidString a = true -> ValidString (a +:+ b) = ValidString b.
Proof.
  remember (String.length a) as n eqn:Hn. revert a Hn. induction (lt_wf n) as [n _ IH]. intros a -> .
  assert (forall s, (String.length s < String.length a)%nat -> ValidString s = true -> ValidString (s +:+ b) = ValidString b)
    as Hrec by (intros s Hs; by apply (IH _ Hs)).
  destruct a as [|x a]; [done|]. rewrite string_app_cons. cbn [ValidString].
  destruct (inb 0 127 x); [apply Hrec; cbn; lia|].
  destruct a as [|y a]; [done|]. rewrite string_app_cons.
  destruct (inb 194 223 x); [intros [-> Hv]%andb_true_iff; apply Hrec; [cbn; lia|done]|].
  destruct a as [|z a]; [done|]. rewrite string_app_cons.
  destruct (inb 224 224 x); [intros [-> Hv]%andb_true_iff; apply Hrec; [cbn; lia|done]|].
  destruct (inb 237 237 x); [intros [-> Hv]%andb_true_iff; apply Hrec; [cbn; lia|done]|].
  destruct (inb 225 239 x); [intros [-> Hv]%andb_true_iff; apply Hrec; [cbn; lia|done]|].
  destruct a as [|u a]; [done|]. rewrite string_app_cons.
  repeat (case_match; [intros [-> Hv]%andb_true_iff; apply Hrec; [cbn; lia|done]|]). done.
Qed.

Lemma ascii_runes s :
  all_chars (inb 0 127) s = true -> ValidString s = true /\ runes s = map ord (String.list_ascii_of_string s).
Proof.
  intros Hs. split; [|by apply runes_ascii]. induction s as [|c s IH]; [done|]. cbn in Hs |- *.
  apply andb_true_iff in Hs as [-> Hs]. by apply IH.
Qed.

Lemma digit_ascii c : is_digit c = true -> inb 0 127 c = true /\ 48 <= ord c <= 57.
Proof.
  destruct c as [[] [] [] [] [] [] [] []]; intros H;
    first [by vm_compute in H|split; [by vm_compute|split; by vm_compute]].
Qed.
