(* ===== verification/ProxyProps.v ===== *)
(** * Properties of client address resolution *)

From S2P Require Import Prelude GoStrings GoEncoding GoRegexp GoNetip PathText Proxy.
Local Open Scope Z_scope.

(** ** The walk stops at the first peer that is not a trusted proxy *)

Lemma walk_first_untrusted trusted current hops :
  (exists hop, hop ∈ current :: (Unmap <$> hops) /\ Contains trusted hop = false) ->
  exists pre post, current :: (Unmap <$> hops) = pre ++ walk trusted current hops :: post /\
    Forall (fun a => Contains trusted a = true) pre /\ Contains trusted (walk trusted current hops) = false.
Proof.
  revert current. induction hops as [|hop hops IH]; intros current [a [Ha Hc]]; cbn [walk fmap list_fmap] in *.
  - apply list_elem_of_singleton in Ha as ->. by exists [], [].
  - destruct (Contains trusted current) eqn:Hcur; cbn [negb].
    + destruct (IH (Unmap hop)) as (pre & post & Heq & Hf & Hw).
      { apply elem_of_cons in Ha as [->|Ha]; [congruence|]. eauto. }
      exists (current :: pre), post. rewrite Heq. split; [done|]. split; [by constructor|done].
    + exists [], (Unmap <$> (hop :: hops)). done.
Qed.

(** Hops beyond one that is not trusted are not looked at. *)
Lemma walk_prefix trusted current hops more :
  (exists hop, hop ∈ current :: (Unmap <$> hops) /\ Contains trusted hop = false) ->
  walk trusted current (hops ++ more) = walk trusted current hops.
Proof.
  revert current. induction hops as [|hop hops IH]; intros current [a [Ha Hc]]; cbn [walk app fmap list_fmap] in *.
  - apply list_elem_of_singleton in Ha as ->. destruct more; [done|]. cbn. by rewrite Hc.
  - destruct (Contains trusted current) eqn:Hcur; cbn [negb]; [|done].
    apply IH. apply elem_of_cons in Ha as [->|Ha]; [congruence|]. eauto.
Qed.

(** ** Splitting [X-Forwarded-For] *)

Lemma parse_nodes_app ps qs chain :
  parse_nodes (ps ++ qs) = Ok chain ->
  exists c d, parse_nodes ps = Ok c /\ parse_nodes qs = Ok d /\ chain = c ++ d.
Proof.
  revert chain. induction ps as [|p ps IH]; intros chain; cbn; [eauto|].
  destruct (parseForwardedNode _) as [a|]; [|done].
  destruct (parse_nodes (ps ++ qs)) as [rest|] eqn:Hr; [|done]. intros [= <-].
  destruct (IH rest eq_refl) as (c & d & -> & -> & ->). eauto.
Qed.

Lemma parse_nodes_length ps chain : parse_nodes ps = Ok chain -> length chain = length ps.
Proof.
  revert chain. induction ps as [|p ps IH]; intros chain; cbn; [by intros [= <-]|].
  destruct (parseForwardedNode _); [|done]. destruct (parse_nodes ps) as [c|]; [|done].
  intros [= <-]. cbn. by rewrite (IH c).
Qed.

(** A longer legacy header that parses has the chain of its tail at the end. *)
Lemma legacy_tail forged genuine chain g :
  parseXForwardedFor (forged +:+ String "," genuine) = Ok chain -> parseXForwardedFor genuine = Ok g ->
  exists f, chain = f ++ g.
Proof.
  unfold parseXForwardedFor. destruct (_ >? _); [done|]. destruct (_ >? _); [done|]. rewrite Split_concat.
  intros Hc. destruct (_ >? _); [done|]. destruct (_ >? _); [done|]. intros Hg.
  apply parse_nodes_app in Hc as (c & d & _ & Hd & ->). rewrite Hg in Hd. injection Hd as <-. eauto.
Qed.

(** ** Splitting [Forwarded] *)

(** The quoting state at the end of a text. *)
Fixpoint scan_state (v : string) (quoted escaped : bool) : bool * bool :=
  match v with
  | EmptyString => (quoted, escaped)
  | String c rest =>
      if escaped then scan_state rest quoted false
      else if quoted && bool_decide (c = "\"%char) then scan_state rest quoted true
      else if bool_decide (c = chr 34) then scan_state rest (negb quoted) false
      else scan_state rest quoted false
  end.

Lemma scan_state_app a b q e :
  scan_state (a +:+ b) q e = scan_state b (scan_state a q e).1 (scan_state a q e).2.
Proof.
  revert q e. induction a as [|c a IH]; intros q e; [done|]. rewrite string_app_cons. cbn [scan_state].
  destruct e; [apply IH|]. destruct (q && _); [apply IH|]. destruct (bool_decide (c = chr 34)); apply IH.
Qed.

Lemma split_scan_state v sep cur q e acc l :
  split_scan v sep cur q e acc = Ok l -> scan_state v q e = (false, false).
Proof.
  revert cur q e acc. induction v as [|c v IH]; intros cur q e acc; cbn [split_scan scan_state].
  - destruct (q || e) eqn:Hq; [done|]. intros _. apply orb_false_iff in Hq as [-> ->]. done.
  - destruct e; [apply IH|]. destruct (q && bool_decide (c = "\"%char)); [apply IH|].
    destruct (bool_decide (c = chr 34)); [apply IH|].
    destruct (negb q && bool_decide (c = sep)); [|apply IH]. case_bool_decide; [done|]. apply IH.
Qed.

(** Without backslashes, starting inside quotes ends on the other side. *)
Lemma scan_state_flip v q :
  all_chars (fun c => negb (bool_decide (c = "\"%char))) v = true ->
  scan_state v (negb q) false = (negb (scan_state v q false).1, false) /\ (scan_state v q false).2 = false.
Proof.
  revert q. induction v as [|c v IH]; intros q Hv; [done|]. cbn [all_chars] in Hv. bool_to_prop.
  cbn [scan_state]. rewrite (bool_decide_eq_false_2 (c = "\"%char)), !andb_false_r by done.
  destruct (bool_decide (c = chr 34)); apply IH; done.
Qed.

(** Escapes only happen inside quotes. *)
Lemma scan_state_escaped v q e : (e = true -> q = true) -> (scan_state v q e).2 = true -> (scan_state v q e).1 = true.
Proof.
  revert q e. induction v as [|c v IH]; intros q e He; cbn [scan_state]; [done|].
  destruct e; [by apply IH|]. destruct (q && bool_decide (c = "\"%char)) eqn:Hq; [apply IH|].
  - intros _. by apply andb_true_iff in Hq as [-> _].
  - destruct (bool_decide (c = chr 34)); intros H; (apply IH; [by intros|exact H]).
Qed.

Lemma split_scan_acc v sep cur q e acc l :
  split_scan v sep cur q e acc = Ok l <-> exists l0, split_scan v sep cur q e [] = Ok l0 /\ l = acc ++ l0.
Proof.
  revert cur q e acc l. induction v as [|c v IH]; intros cur q e acc l; cbn [split_scan].
  - destruct (q || e); [split; [done|by intros (? & [=] & _)]|]. case_bool_decide; [split; [done|by intros (? & [=] & _)]|].
    split; [intros [= <-]; eauto|intros (l0 & [= <-] & ->); done].
  - destruct e; [apply IH|]. destruct (q && _); [apply IH|]. destruct (bool_decide (c = chr 34)); [apply IH|].
    destruct (negb q && _); [|apply IH]. case_bool_decide; [split; [done|by intros (? & [=] & _)]|].
    rewrite IH. split.
    + intros (l0 & Hl & ->). eexists. split; [apply IH; exists l0; split; [done|reflexivity]|].
      cbn. by rewrite <- app_assoc.
    + intros (l1 & Hl & ->). apply IH in Hl as (l0 & Hl & ->). exists l0. split; [done|]. cbn. by rewrite <- app_assoc.
Qed.

Lemma split_scan_nil v sep cur q e acc : split_scan v sep cur q e acc <> Ok [].
Proof.
  revert cur q e acc. induction v as [|c v IH]; intros cur q e acc; cbn [split_scan].
  - destruct (q || e); [done|]. case_bool_decide; [done|]. intros [= Heq]. by destruct acc.
  - destruct e; [apply IH|]. destruct (q && _); [apply IH|]. destruct (bool_decide (c = chr 34)); [apply IH|].
    destruct (negb q && _); [|apply IH]. case_bool_decide; [done|]. apply IH.
Qed.

Lemma split_scan_concat a b sep cur q e l :
  sep <> chr 34 -> sep <> "\"%char -> scan_state a q e = (false, false) ->
  split_scan (a +:+ String sep b) sep cur q e [] = Ok l ->
  exists la lb, split_scan b sep EmptyString false false [] = Ok lb /\ l = la ++ lb.
Proof.
  intros Hs1 Hs2. revert cur q e l. induction a as [|c a IH]; intros cur q e l; cbn [scan_state].
  - intros [= -> ->]. rewrite string_app_nil_l. cbn [split_scan andb negb].
    rewrite (bool_decide_eq_false_2 (sep = chr 34)), (bool_decide_eq_true_2 (sep = sep)) by done. cbn [andb].
    case_bool_decide; [done|]. rewrite split_scan_acc. intros (lb & Hb & ->). eauto.
  - intros Hst. rewrite string_app_cons. cbn [split_scan]. destruct e; [by apply IH|].
    destruct (q && bool_decide (c = "\"%char)); [by apply IH|].
    destruct (bool_decide (c = chr 34)); [by apply IH|].
    destruct (negb q && bool_decide (c = sep)); [|by apply IH].
    case_bool_decide; [done|]. rewrite split_scan_acc. intros (l0 & Hl & ->).
    destruct (IH _ _ _ _ Hst Hl) as (la & lb & Hb & ->). eexists _, lb. split; [done|]. by rewrite app_assoc.
Qed.

(** Text put before a well-formed header cannot change how its tail is split. *)
Lemma splitForwarded_tail forged genuine l g :
  all_chars (fun c => negb (bool_decide (c = "\"%char))) genuine = true ->
  splitForwarded genuine "," = Ok g -> splitForwarded (forged +:+ String "," genuine) "," = Ok l ->
  exists f, l = f ++ g.
Proof.
  unfold splitForwarded. intros Hplain Hg Hl.
  pose proof (split_scan_state _ _ _ _ _ _ _ Hg) as Hsg. pose proof (split_scan_state _ _ _ _ _ _ _ Hl) as Hsl.
  rewrite scan_state_app in Hsl. destruct (scan_state forged false false) as [q e] eqn:Hf. cbn [fst snd] in Hsl.
  destruct q.
  - exfalso. assert (Hcomma : scan_state (String "," genuine) true e = scan_state genuine true false) by (by destruct e).
    rewrite Hcomma in Hsl. destruct (scan_state_flip genuine false Hplain) as [Hflip _]. cbn [negb] in Hflip.
    rewrite Hsl, Hsg in Hflip. discriminate.
  - pose proof (scan_state_escaped forged false false) as He. rewrite Hf in He. cbn in He.
    destruct e; [by discriminate He|].
    destruct (split_scan_concat forged genuine "," EmptyString false false l) as (la & lb & Hb & ->); [done..|].
    rewrite Hg in Hb. injection Hb as <-. eauto.
Qed.

Lemma parse_elements_app ps qs chain :
  parse_elements (ps ++ qs) = Ok chain ->
  exists c d, parse_elements ps = Ok c /\ parse_elements qs = Ok d /\ chain = c ++ d.
Proof.
  revert chain. induction ps as [|p ps IH]; intros chain; cbn; [eauto|].
  destruct (parse_element p) as [a|]; [|done].
  destruct (parse_elements (ps ++ qs)) as [rest|] eqn:Hr; [|done]. intros [= <-].
  destruct (IH rest eq_refl) as (c & d & -> & -> & ->). eauto.
Qed.

Lemma forwarded_tail forged genuine chain g :
  all_chars (fun c => negb (bool_decide (c = "\"%char))) genuine = true ->
  parseForwarded (forged +:+ String "," genuine) = Ok chain -> parseForwarded genuine = Ok g ->
  exists f, chain = f ++ g.
Proof.
  unfold parseForwarded. intros Hplain. destruct (_ >? _); [done|].
  destruct (splitForwarded (forged +:+ _) ",") as [l|] eqn:Hl; [|done]. destruct (_ >? _); [done|]. intros Hc.
  destruct (_ >? _); [done|]. destruct (splitForwarded genuine ",") as [lg|] eqn:Hg; [|done].
  destruct (_ >? _); [done|]. intros Hpg.
  destruct (splitForwarded_tail _ _ _ _ Hplain Hg Hl) as [f ->].
  apply parse_elements_app in Hc as (c & d & _ & Hd & ->). rewrite Hpg in Hd. injection Hd as <-. eauto.
Qed.

(** ** Resolution *)

(** A request through one of the two headers. *)
Definition via (legacy : bool) (peer value : string) : request :=
  {| RemoteAddr := peer; h_Forwarded := if legacy then [] else [value];
     h_XForwardedFor := if legacy then [value] else [] |}.

Definition chain_of (legacy : bool) (value : string) : result (list Addr) :=
  if legacy then parseXForwardedFor value else parseForwarded value.

(** Where one of the headers is parsed at all, it names at least one hop. *)
Lemma chain_of_cons legacy forged genuine :
  chain_of legacy (forged +:+ String "," genuine) <> Ok [].
Proof.
  destruct legacy; cbn [chain_of].
  - unfold parseXForwardedFor. rewrite Split_concat. destruct (_ >? _); [done|]. destruct (_ >? _); [done|].
    intros Hc. apply parse_nodes_length in Hc. rewrite length_app in Hc.
    pose proof (Split_nonempty genuine ",") as Hs. destruct (Split genuine ","); [done|]. cbn in Hc. lia.
  - unfold parseForwarded. destruct (_ >? _); [done|]. destruct (splitForwarded _ _) as [l|] eqn:Hl; [|done].
    destruct (_ >? _); [done|]. destruct l as [|x l]; [by destruct (split_scan_nil _ _ _ _ _ _ Hl)|].
    cbn. destruct (parse_element x); [|done]. by destruct (parse_elements l).
Qed.

(** What a forwarding header makes of a request from a trusted peer: the client of the chain
    it names, or the diagnostic when it cannot be parsed. *)
Lemma Resolve_via trusted legacy peer forged genuine direct :
  let value := forged +:+ String "," genuine in
  parseDirectAddress (RemoteAddress (Some (via legacy peer value))) = Some direct ->
  Contains trusted direct = true ->
  ResolveClientAddress trusted (Some (via legacy peer value)) =
    match chain_of legacy value with
    | Ok chain => (Addr_String (walk trusted (Unmap direct) (reverse chain)), None)
    | Err _ => (RemoteAddress (Some (via legacy peer value)), Some (Wrapf "%w: %v" ErrInvalidForwardedChain))
    end.
Proof.
  intros value Hd Ht. unfold ResolveClientAddress. rewrite Hd, Ht. cbn [negb].
  pose proof (chain_of_cons legacy forged genuine) as Hne. fold value in Hne.
  assert (Hb : bool_decide (TrimSpace value = EmptyString) = false)
    by (apply bool_decide_eq_false_2, TrimSpace_comma).
  destruct legacy; cbn [via h_Forwarded h_XForwardedFor length Z.of_nat Z.gtb Z.compare orb blank chain_of] in *;
    rewrite Hb; cbn [orb].
  - by destruct (parseXForwardedFor value) as [[|a chain]|].
  - by destruct (parseForwarded value) as [[|a chain]|].
Qed.

(** C35. Forwarding headers cannot be forged.  A peer outside the trusted prefixes is its own
    client whatever headers it sends.  Behind a trusted peer, let one forwarding header field
    ([X-Forwarded-For] or [Forwarded], and not both) hold a text [forged] chosen by the client,
    a comma, and the text [genuine] the proxies appended.  If the whole value parses, the
    request is keyed by the nearest address of the appended chain, the socket peer first, that
    is not a trusted proxy, whatever [forged] is, and without a diagnostic; it is keyed by the
    socket peer, with the diagnostic, exactly when the value is malformed.
    Assumed: the socket peer's address parses, the
    appended text parses by itself, in [Forwarded] it has no backslash (a quoted pair), and
    some hop of the appended chain, or the peer, is not trusted. *)
Theorem forged_hops_cannot_change_the_client trusted legacy peer forged genuine g direct :
  (legacy = false -> all_chars (fun c => negb (bool_decide (c = "\"%char))) genuine = true) ->
  chain_of legacy genuine = Ok g ->
  let value := forged +:+ String "," genuine in
  let r := via legacy peer value in
  let seen := Unmap direct :: (Unmap <$> reverse g) in
  parseDirectAddress (RemoteAddress (Some r)) = Some direct ->
  (exists hop, hop ∈ seen /\ Contains trusted hop = false) ->
  (Contains trusted direct = false ->
     forall headers, RemoteAddr headers = peer ->
       ClientAddress trusted (Some headers) = RemoteAddress (Some r) /\
       (ResolveClientAddress trusted (Some headers)).2 = None) /\
  (Contains trusted direct = true ->
     match chain_of legacy value with
     | Ok _ =>
         exists pre client post, seen = pre ++ client :: post /\
           Forall (fun a => Contains trusted a = true) pre /\ Contains trusted client = false /\
           ResolveClientAddress trusted (Some r) = (Addr_String client, None) /\
           ClientAddress trusted (Some r) = Addr_String client
     | Err _ =>
         ResolveClientAddress trusted (Some r) =
           (RemoteAddress (Some r), Some (Wrapf "%w: %v" ErrInvalidForwardedChain)) /\
         ClientAddress trusted (Some r) = RemoteAddress (Some r)
     end).
Proof.
  intros Hplain Hg value r seen Hd Hhop. split.
  - intros Hc headers <-. unfold ClientAddress, ResolveClientAddress.
    change (RemoteAddress (Some headers)) with (RemoteAddress (Some r)). by rewrite Hd, Hc.
  - intros Ht. unfold ClientAddress. pose proof (Resolve_via trusted legacy peer forged genuine direct Hd Ht) as Hr.
    change (ResolveClientAddress trusted (Some r) =
      match chain_of legacy value with
      | Ok chain => (Addr_String (walk trusted (Unmap direct) (reverse chain)), None)
      | Err _ => (RemoteAddress (Some r), Some (Wrapf "%w: %v" ErrInvalidForwardedChain))
      end) in Hr.
    destruct (chain_of legacy value) as [chain|] eqn:Hc; rewrite Hr; [|done].
    assert (Htail : exists f, chain = f ++ g).
    { destruct legacy; cbn in Hg, Hc; [by eapply legacy_tail|]. eapply forwarded_tail; eauto. }
    destruct Htail as [f ->]. rewrite reverse_app, walk_prefix by done.
    destruct (walk_first_untrusted trusted (Unmap direct) (reverse g) Hhop) as (pre & post & Heq & Hf & Hw).
    by exists pre, (walk trusted (Unmap direct) (reverse g)), post.
Qed.

(** A proxy at 10.0.0.5 appends the peer 203.0.113.9 after a forged chain. *)
Lemma forged_hops_cannot_change_the_client_witness :
  exists trusted, ParseTrustedProxies ["10.0.0.0/8, ::1/128"] = Ok trusted /\
    ClientAddress trusted (Some (via true "10.0.0.5:4711" "1.1.1.1, 10.9.9.9,203.0.113.9, 10.0.0.7")) = "203.0.113.9".
Proof.
  set (trusted := match ParseTrustedProxies ["10.0.0.0/8, ::1/128"] with
                  | Ok t => t | Err _ => {| prefixes := [] |} end).
  exists trusted. split; [vm_compute; reflexivity|].
  destruct (forged_hops_cannot_change_the_client trusted true "10.0.0.5:4711" "1.1.1.1, 10.9.9.9"
    "203.0.113.9, 10.0.0.7" [V4 3405803785; V4 167772167] (V4 167772165)) as [_ H].
  - discriminate.
  - vm_compute. reflexivity.
  - vm_compute. reflexivity.
  - exists (V4 3405803785). split; [vm_compute; right; right; left|vm_compute; reflexivity].
  - assert (Ht : Contains trusted (V4 167772165) = true) by (vm_compute; reflexivity). specialize (H Ht).
    destruct (chain_of true ("1.1.1.1, 10.9.9.9" +:+ String "," "203.0.113.9, 10.0.0.7")) as [chain|] eqn:Hchain;
      [|vm_compute in Hchain; discriminate].
    destruct H as (pre & client & post & Heq & Hpre & Hclient & _ & Hc). etransitivity; [exact Hc|].
    destruct pre as [|a [|b [|c pre]]]; cbn in Heq.
    + injection Heq as <- _. vm_compute in Hclient. discriminate.
    + injection Heq as _ <- _. vm_compute in Hclient. discriminate.
    + injection Heq as _ _ <- _. vm_compute. reflexivity.
    + injection Heq as _ _ _ Heq. by destruct pre.
Defined.
