(* ===== verification/Http.v ===== *)
(** * The HTTP layer ([httpx])

    Request contexts, the response writers, forms, errors, middleware and the router.

    A handler is a stateful computation on the request's [Context] that ends with a value,
    an error or a panic.  The context holds the request, the tracked response writer, the
    stack of buffers that middleware puts in front of it ([ctx.Response] is the top of the
    stack), the state other packages attach to the request, and the session store the
    application shares.  [henv] is the outside world: entropy, the request context's error,
    write errors; it is consulted by a counter.  [encoding/json], [net/url.Parse] and
    [http.ServeMux] are parameters. *)

From S2P Require Import Prelude GoStrings GoUtf8 GoRegexp GoEncoding GoUrl Session Proxy Schedule.
Local Open Scope Z_scope.

(** ** Errors ([errors.go]) *)

Inductive herr : Type :=
| HTTPError (Status : Z) (Message : string) (Details : option string) (Cause : option herr)
| Plain (e : error)
| Wrapped (format : string) (cause : herr).

Definition NewHTTPError (status : Z) (message : string) : herr :=
  HTTPError status message None None.
Definition WithCause (e : herr) (cause : herr) : herr :=
  match e with HTTPError s m d _ => HTTPError s m d (Some cause) | _ => e end.
Definition WithDetails (e : herr) (details : string) : herr :=
  match e with HTTPError s m _ c => HTTPError s m (Some details) c | _ => e end.

(** [errors.As] for [*HTTPError]. *)
Fixpoint as_http (e : herr) : option (Z * string * option string) :=
  match e with
  | HTTPError s m d _ => Some (s, m, d)
  | Plain _ => None
  | Wrapped _ c => as_http c
  end.

Fixpoint herr_Is (e : herr) (target : error) : bool :=
  match e with
  | HTTPError _ _ _ (Some c) => herr_Is c target
  | HTTPError _ _ _ None => false
  | Plain p => errors_Is p target
  | Wrapped _ c => herr_Is c target
  end.

Definition ctxDeadline : error := Sentinel "context deadline exceeded".
Definition ctxCanceled : error := Sentinel "context canceled".

(** ** Headers and writers ([response_writer.go]) *)

(** An [http.Header] under canonical names; the values of [Set-Cookie] are kept apart, as
    the session package reads them. *)
Record header : Type := { fields : gmap string (list string); cookies : list setCookieHeader }.

Definition header_Set (k v : string) (h : header) : header :=
  {| fields := <[k := [v]]> (fields h); cookies := cookies h |}.
Definition header_Add (k v : string) (h : header) : header :=
  {| fields := <[k := default [] (fields h !! k) ++ [v]]> (fields h); cookies := cookies h |}.

(** The server's own writer: its header map until the header goes out, the status and the
    header that went out, informational statuses, the body, and how often it was written. *)
Record serverWriter : Type := {
  sv_header : header;
  sv_final : option (Z * header);
  sv_info : list Z;
  sv_body : string;
  sv_writes : nat
}.

Record statusWriter : Type := { sw : serverWriter; status : Z; wroteHeader : bool }.

(** [web.responseBuffer] *)
Record responseBuffer : Type := {
  rb_header : header;
  rb_body : string;
  maxBytes : Z;
  rb_err : option herr;
  rb_status : Z;
  rb_wroteHeader : bool
}.

(** ** Requests and contexts ([context.go]) *)

(** A request body: absent, readable, or failing when read. *)
Inductive body : Type := NoBody | Data (s : string) | Broken (e : error).

Record Request : Type := {
  Method : string;
  UrlPath : string;
  ReqHeader : gmap string (list string);
  ReqCookies : gmap string string;
  Body : body
}.

Definition req_Values (k : string) (r : Request) : list string := default [] (ReqHeader r !! k).
Definition req_Get (k : string) (r : Request) : string := default EmptyString (head (req_Values k r)).

(** [web.sessionState]; the manager is fixed per middleware. *)
Record sessionState : Type := {
  current : option Session; accessed : bool; persisted : bool; destroyed : bool
}.

Record formState : Type := {
  formParsed : bool; form : GoUrl.Values; formErr : option herr; formBytes : Z
}.

Record Context (St : Type) : Type := {
  request : Request;
  originalMethod : string;
  response : statusWriter;
  buffers : list responseBuffer;
  values_ : gmap string string;
  session_ : option sessionState;
  formst : formState;
  routeErr : option herr;
  routeName : string;
  routePattern : string;
  requestID : string;
  store_ : St;
  tick_ : nat;
  logs : list (Z * string)
}.
Arguments request {St} _.
Arguments originalMethod {St} _.
Arguments response {St} _.
Arguments buffers {St} _.
Arguments values_ {St} _.
Arguments session_ {St} _.
Arguments formst {St} _.
Arguments routeErr {St} _.
Arguments routeName {St} _.
Arguments routePattern {St} _.
Arguments requestID {St} _.
Arguments store_ {St} _.
Arguments tick_ {St} _.
Arguments logs {St} _.

Inductive panic : Type := ErrAbortHandler | PanicValue (what : string).

Inductive outcome (A : Type) : Type :=
| Done (a : A)
| Failed (e : herr)
| Panicked (p : panic).
Arguments Done {A} _.
Arguments Failed {A} _.
Arguments Panicked {A} _.

Record henv : Type := {
  entropy : nat -> result string;
  request_ctx : nat -> option error;
  write_fault : nat -> option error
}.

(** ** Handlers *)

Section Monad.
Context {St : Type}.
Definition H (A : Type) : Type := Context St -> outcome A * Context St.

Definition hret {A} (a : A) : H A := fun c => (Done a, c).
Definition hfail {A} (e : herr) : H A := fun c => (Failed e, c).
Definition hpanic {A} (p : panic) : H A := fun c => (Panicked p, c).
Definition hbind {A B} (m : H A) (k : A -> H B) : H B := fun c =>
  match m c with
  | (Done a, c') => k a c'
  | (Failed e, c') => (Failed e, c')
  | (Panicked p, c') => (Panicked p, c')
  end.
Definition hgets {A} (f : Context St -> A) : H A := fun c => (Done (f c), c).
Definition hmodify (f : Context St -> Context St) : H unit := fun c => (Done tt, f c).
Definition hwrap {A} (format : string) (m : H A) : H A := fun c =>
  match m c with
  | (Failed e, c') => (Failed (Wrapped format e), c')
  | r => r
  end.
End Monad.
Arguments H : clear implicits.

Notation "'let?' x ':=' m 'in' k" := (hbind m (fun x => k))
  (at level 10, x pattern, m at level 100, k at level 200) : go_scope.
Notation "'do?' m 'in' k" := (hbind m (fun _ => k))
  (at level 10, m at level 100, k at level 200) : go_scope.
Local Open Scope go_scope.

(** Field updates. *)
Section Updates.
Context {St : Type}.
Implicit Types c : Context St.

Definition upd (rq : Request) (rs : statusWriter) (bs : list responseBuffer)
    (vs : gmap string string) (ss : option sessionState) (fs : formState) (st : St) (t : nat)
    (lg : list (Z * string)) c : Context St :=
  {| request := rq; originalMethod := originalMethod c; response := rs; buffers := bs;
     values_ := vs; session_ := ss; formst := fs; routeErr := routeErr c;
     routeName := routeName c; routePattern := routePattern c; requestID := requestID c;
     store_ := st; tick_ := t; logs := lg |}.

Definition set_request rq c :=
  upd rq (response c) (buffers c) (values_ c) (session_ c) (formst c) (store_ c) (tick_ c) (logs c) c.
Definition set_response rs c :=
  upd (request c) rs (buffers c) (values_ c) (session_ c) (formst c) (store_ c) (tick_ c) (logs c) c.
Definition set_buffers bs c :=
  upd (request c) (response c) bs (values_ c) (session_ c) (formst c) (store_ c) (tick_ c) (logs c) c.
Definition set_values vs c :=
  upd (request c) (response c) (buffers c) vs (session_ c) (formst c) (store_ c) (tick_ c) (logs c) c.
Definition set_session ss c :=
  upd (request c) (response c) (buffers c) (values_ c) ss (formst c) (store_ c) (tick_ c) (logs c) c.
Definition set_form fs c :=
  upd (request c) (response c) (buffers c) (values_ c) (session_ c) fs (store_ c) (tick_ c) (logs c) c.
Definition set_store st t c :=
  upd (request c) (response c) (buffers c) (values_ c) (session_ c) (formst c) st t (logs c) c.
Definition add_log l c :=
  upd (request c) (response c) (buffers c) (values_ c) (session_ c) (formst c) (store_ c) (tick_ c)
    (logs c ++ [l]) c.
Definition next_tick c := set_store (store_ c) (S (tick_ c)) c.
Definition set_route (name pattern : string) (e : option herr) c : Context St :=
  {| request := request c; originalMethod := originalMethod c; response := response c;
     buffers := buffers c; values_ := values_ c; session_ := session_ c; formst := formst c;
     routeErr := e; routeName := name; routePattern := pattern; requestID := requestID c;
     store_ := store_ c; tick_ := tick_ c; logs := logs c |}.
Definition set_requestID (i : string) c : Context St :=
  {| request := request c; originalMethod := originalMethod c; response := response c;
     buffers := buffers c; values_ := values_ c; session_ := session_ c; formst := formst c;
     routeErr := routeErr c; routeName := routeName c; routePattern := routePattern c;
     requestID := i; store_ := store_ c; tick_ := tick_ c; logs := logs c |}.
End Updates.

(** ** Writing a response *)

Section Response.
Context {St : Type} (E : henv).

(** [http.ResponseWriter.WriteHeader] of the server: an invalid status panics, a second
    final status is ignored, informational ones go out at once. *)
Definition server_WriteHeader (code : Z) (w : serverWriter) : option serverWriter :=
  if (code <? 100) || (999 <? code) then None
  else match sv_final w with
  | Some _ => Some w
  | None =>
      if (code <? 200) && negb (code =? 101)
      then Some {| sv_header := sv_header w; sv_final := None; sv_info := sv_info w ++ [code];
                   sv_body := sv_body w; sv_writes := sv_writes w |}
      else Some {| sv_header := sv_header w; sv_final := Some (code, sv_header w);
                   sv_info := sv_info w; sv_body := sv_body w; sv_writes := sv_writes w |}
  end.

(** [statusWriter.WriteHeader]; [None] is the server's panic. *)
Definition status_WriteHeader (code : Z) (w : statusWriter) : option statusWriter :=
  if wroteHeader w then Some w
  else match server_WriteHeader code (sw w) with
  | None => None
  | Some s =>
      if (100 <=? code) && (code <? 200) && negb (code =? 101)
      then Some {| sw := s; status := code; wroteHeader := wroteHeader w |}
      else Some {| sw := s; status := code; wroteHeader := true |}
  end.

Definition server_Write (data : string) (w : serverWriter) : option error * serverWriter :=
  match write_fault E (sv_writes w) with
  | Some e => (Some e, {| sv_header := sv_header w; sv_final := sv_final w; sv_info := sv_info w;
                          sv_body := sv_body w; sv_writes := S (sv_writes w) |})
  | None => (None, {| sv_header := sv_header w; sv_final := sv_final w; sv_info := sv_info w;
                      sv_body := sv_body w +:+ data; sv_writes := S (sv_writes w) |})
  end.

(** [statusWriter.Write] *)
Definition status_Write (data : string) (w : statusWriter) : option (option error * statusWriter) :=
  match (if wroteHeader w then Some w else status_WriteHeader 200 w) with
  | None => None
  | Some w' =>
      let '(e, s) := server_Write data (sw w') in
      Some (e, {| sw := s; status := status w'; wroteHeader := wroteHeader w' |})
  end.

(** [responseBuffer.WriteHeader], [responseBuffer.Write] *)
Definition buffer_WriteHeader (code : Z) (b : responseBuffer) : responseBuffer :=
  if rb_wroteHeader b then b
  else {| rb_header := rb_header b; rb_body := rb_body b; maxBytes := maxBytes b;
          rb_err := rb_err b; rb_status := code; rb_wroteHeader := true |}.

Definition ErrBufferedResponseTooLarge : error :=
  Sentinel "web: buffered response exceeds configured limit".

Definition buffer_Write (data : string) (b : responseBuffer) : option herr * responseBuffer :=
  match rb_err b with
  | Some e => (Some e, b)
  | None =>
      if byte_len (rb_body b) + byte_len data >? maxBytes b
      then (Some (Plain ErrBufferedResponseTooLarge),
            {| rb_header := rb_header b; rb_body := rb_body b; maxBytes := maxBytes b;
               rb_err := Some (Plain ErrBufferedResponseTooLarge); rb_status := rb_status b;
               rb_wroteHeader := rb_wroteHeader b |})
      else
        let b := buffer_WriteHeader 200 b in
        (None, {| rb_header := rb_header b; rb_body := rb_body b +:+ data; maxBytes := maxBytes b;
                  rb_err := rb_err b; rb_status := rb_status b; rb_wroteHeader := rb_wroteHeader b |})
  end.

(** ** [ctx.Response]: the top of the stack *)

Definition with_sv_header (h : header) (w : statusWriter) : statusWriter :=
  {| sw := {| sv_header := h; sv_final := sv_final (sw w); sv_info := sv_info (sw w);
              sv_body := sv_body (sw w); sv_writes := sv_writes (sw w) |};
     status := status w; wroteHeader := wroteHeader w |}.
Definition with_rb_header (h : header) (b : responseBuffer) : responseBuffer :=
  {| rb_header := h; rb_body := rb_body b; maxBytes := maxBytes b; rb_err := rb_err b;
     rb_status := rb_status b; rb_wroteHeader := rb_wroteHeader b |}.

(** [ctx.Response.Header()], read and updated. *)
Definition top_header (c : Context St) : header :=
  match buffers c with b :: _ => rb_header b | [] => sv_header (sw (response c)) end.
Definition set_top_header (h : header) (c : Context St) : Context St :=
  match buffers c with
  | b :: rest => set_buffers (with_rb_header h b :: rest) c
  | [] => set_response (with_sv_header h (response c)) c
  end.
Definition on_header (f : header -> header) : H St unit :=
  hmodify (fun c => set_top_header (f (top_header c)) c).
Definition Header_Set (k v : string) : H St unit := on_header (header_Set k v).

Definition WriteHeader (code : Z) : H St unit := fun c =>
  match buffers c with
  | b :: rest => (Done tt, set_buffers (buffer_WriteHeader code b :: rest) c)
  | [] => match status_WriteHeader code (response c) with
          | Some w => (Done tt, set_response w c)
          | None => (Panicked (PanicValue "invalid WriteHeader code"), c)
          end
  end.

Definition Write (data : string) : H St unit := fun c =>
  match buffers c with
  | b :: rest =>
      let '(e, b') := buffer_Write data b in
      (match e with Some x => Failed x | None => Done tt end, set_buffers (b' :: rest) c)
  | [] => match status_Write data (response c) with
          | Some (e, w) =>
              (match e with Some x => Failed (Plain x) | None => Done tt end, set_response w c)
          | None => (Panicked (PanicValue "invalid WriteHeader code"), c)
          end
  end.

(** ** Context methods ([context.go]) *)

Definition JSON (code : Z) (encoded : result string) : H St unit :=
  match encoded with
  | Err e => hfail (Wrapped "encode JSON response: %w" (Plain e))
  | Ok data =>
      do? Header_Set "Content-Type" "application/json; charset=utf-8" in
      do? WriteHeader code in
      hwrap "write JSON response: %w" (Write data)
  end.

Definition NoContent (code : Z) : H St unit := WriteHeader code.

Definition ctx_Set (name v : string) : H St unit :=
  hmodify (fun c => set_values (<[name := v]> (values_ c)) c).
Definition ctx_Get (name : string) : H St (option string) := hgets (fun c => values_ c !! name).

(** [http.Redirect] to a location that is a path of this host: when [url.Parse] accepts it,
    the path is cleaned; a trailing slash and the query are kept; bytes above 127 are
    escaped.  A GET or HEAD without a content type gets a small document, whose text is
    [page]. *)
Definition noCTL (s : string) : bool :=
  all_chars (fun c => negb (rng 0 31 c) && negb (Ascii.eqb c (chr 127))) s.
Definition parses_as_path (location : string) : bool :=
  let '(u, fragment, _) := Cut location "#"%char in
  let '(p, _, _) := Cut u "?"%char in
  noCTL location && bool_decide (is_Some (PathUnescape fragment)) && bool_decide (is_Some (PathUnescape p)).

Fixpoint hexEscapeNonASCII (s : string) : string :=
  match s with
  | EmptyString => EmptyString
  | String c rest =>
      if rng 128 255 c then String "%" (hexEncode (String c EmptyString) +:+ hexEscapeNonASCII rest)
      else String c (hexEscapeNonASCII rest)
  end.

Definition redirect_target (location : string) : string :=
  hexEscapeNonASCII (
    if parses_as_path location then
      let '(p, q, found) := Cut location "?"%char in
      let cleaned := path_Clean p in
      let cleaned := if HasSuffix p "/" && negb (HasSuffix cleaned "/") then cleaned +:+ "/" else cleaned in
      if found then cleaned +:+ String "?" q else cleaned
    else location).

Definition http_Redirect (page : string -> Z -> string) (code : Z) (location : string) : H St unit :=
  fun c =>
  let hadCT := bool_decide (is_Some (fields (top_header c) !! "Content-Type")) in
  let target := redirect_target location in
  let get := bool_decide (Method (request c) = "GET") in
  let head := bool_decide (Method (request c) = "HEAD") in
  (do? Header_Set "Location" target in
   do? (if negb hadCT && (get || head)
        then Header_Set "Content-Type" "text/html; charset=utf-8" else hret tt) in
   do? WriteHeader code in
   if negb hadCT && get
   then (fun c => match Write (page target code) c with
                  | (Failed _, c') => (Done tt, c') | r => r end)
   else hret tt) c.

(** ** JSON bodies *)

(** What a [json.Decoder] with [DisallowUnknownFields] says of a stream: of the first value
    and of a second one; the stream may end at the byte limit. *)
Inductive decoded : Type := DecodedOk | DecodedEOF | DecodedTooLarge (e : error) | DecodedBad (e : error).

Definition classifyJSONDecodeError (d : decoded) (message : string) : herr :=
  match d with
  | DecodedTooLarge e => WithCause (NewHTTPError 413 "JSON body is too large") (Plain e)
  | DecodedBad e => WithCause (NewHTTPError 400 message) (Plain e)
  | DecodedEOF => WithCause (NewHTTPError 400 message) (Plain (Sentinel "EOF"))
  | DecodedOk => NewHTTPError 400 message
  end.

Definition BindJSONLimit (decoder : body -> Z -> decoded * decoded) (limit : Z) : H St unit :=
  if limit <=? 0 then hfail (Plain (Errorf "JSON body limit must be positive"))
  else
  let? r := hgets request in
  if negb (bool_decide (ParseMediaType (req_Get "Content-Type" r) = Some "application/json"))
  then hfail (NewHTTPError 415 "Content-Type must be application/json")
  else match Body r with
  | NoBody => hfail (NewHTTPError 400 "request body is required")
  | b =>
      let '(first, second) := decoder b limit in
      match first with
      | DecodedOk =>
          match second with
          | DecodedEOF => hret tt
          | d => hfail (classifyJSONDecodeError d "request body must contain one JSON value")
          end
      | d => hfail (classifyJSONDecodeError d "invalid JSON body")
      end
  end.

(** ** Forms ([form.go]) *)

Definition defaultMaxBodyBytes : Z := 1048576.
Definition formMediaType : string := "application/x-www-form-urlencoded".

Definition Form_Value (f : GoUrl.Values) (name : string) : herr + string :=
  let vs := default [] (f !! name) in
  if 1 <? Z.of_nat (length vs) then inl (NewHTTPError 400 "form field %q must appear at most once")
  else inr (default EmptyString (head vs)).
Definition Form_Values (f : GoUrl.Values) (name : string) : list string := default [] (f !! name).
Definition Form_Has (f : GoUrl.Values) (name : string) : bool := bool_decide (is_Some (f !! name)).

Definition form_Value (f : GoUrl.Values) (name : string) : H St string :=
  match Form_Value f name with inl e => hfail e | inr v => hret v end.

(** [io.ReadAll(http.MaxBytesReader(..., body, limit))] *)
Definition MaxBytesError : error := Sentinel "http: request body too large".
Definition read_limited (b : body) (limit : Z) : result string :=
  match b with
  | NoBody => Ok EmptyString
  | Data s => if limit <? byte_len s then Err MaxBytesError else Ok s
  | Broken e => Err e
  end.

Definition valid_values (f : GoUrl.Values) : bool :=
  forallb (fun kv => ValidString (fst kv) && forallb ValidString (snd kv)) (map_to_list f).

Definition consume_body (r : Request) : Request :=
  {| Method := Method r; UrlPath := UrlPath r; ReqHeader := ReqHeader r;
     ReqCookies := ReqCookies r; Body := Data EmptyString |}.

Definition form_failed (e : herr) : formState :=
  {| formParsed := true; form := ∅; formErr := Some e; formBytes := 0 |}.

Definition invalidForm : herr := NewHTTPError 400 "invalid URL-encoded form body".

(** The body once it has been read. *)
Definition parse_form (encoded : string) : formState :=
  if negb (ValidString encoded) then form_failed invalidForm
  else match ParseQuery encoded with
  | None => form_failed (WithCause invalidForm (Plain (Errorf "invalid URL escape")))
  | Some vs =>
      if negb (valid_values vs) then form_failed invalidForm
      else {| formParsed := true; form := vs; formErr := None; formBytes := byte_len encoded |}
  end.

Definition form_result (fs : formState) : H St GoUrl.Values :=
  match formErr fs with Some e => hfail e | None => hret (form fs) end.

Definition FormLimit (limit : Z) : H St GoUrl.Values := fun c =>
  if limit <=? 0 then (Failed (Plain (Errorf "form body limit must be positive")), c)
  else
    let fs := formst c in
    if formParsed fs then
      match formErr fs with
      | None => if limit <? formBytes fs
                then (Failed (NewHTTPError 413 "form body is too large"), c)
                else (Done (form fs), c)
      | Some e => (Failed e, c)
      end
    else
      let finish (c : Context St) (fs : formState) := form_result fs (set_form fs c) in
      if negb (bool_decide (ParseMediaType (req_Get "Content-Type" (request c)) = Some formMediaType))
      then finish c (form_failed
             (NewHTTPError 415 "Content-Type must be application/x-www-form-urlencoded"))
      else
        let c' := set_request (consume_body (request c)) c in
        match read_limited (Body (request c)) limit with
        | Err e =>
            finish c' (form_failed (WithCause
              (if errors_Is e MaxBytesError then NewHTTPError 413 "form body is too large"
               else invalidForm) (Plain e)))
        | Ok encoded => finish c' (parse_form encoded)
        end.
Definition Form : H St GoUrl.Values := FormLimit defaultMaxBodyBytes.

Definition isURLForm (contentType : string) : bool :=
  bool_decide (ParseMediaType contentType = Some formMediaType).
End Response.

(** ** Middleware ([middleware.go], [form.go]) *)

Section Middleware.
Context {St : Type} (E : henv).
Definition Handler : Type := H St unit.
Definition Middleware : Type := Handler -> Handler.

Definition with_method (m : string) (r : Request) : Request :=
  {| Method := m; UrlPath := UrlPath r; ReqHeader := ReqHeader r; ReqCookies := ReqCookies r;
     Body := Body r |}.

Definition allowedPath (prefixes : list string) (path : string) : bool :=
  bool_decide (prefixes = []) ||
  existsb (fun p => negb (bool_decide (p = EmptyString)) && HasPrefix path p) prefixes.

Definition MethodOverride (prefixes : list string) : Middleware := fun next =>
  let? r := hgets request in
  if negb (bool_decide (Method r = "POST")) || negb (allowedPath prefixes (UrlPath r)) ||
     negb (isURLForm (req_Get "Content-Type" r))
  then next
  else
    let? f := Form in
    let? m := form_Value f "_method" in
    if bool_decide (m = EmptyString) then next
    else
      let m := ToUpper (TrimSpace m) in
      if bool_decide (m = "PUT") || bool_decide (m = "PATCH") || bool_decide (m = "DELETE")
      then do? hmodify (fun c => set_request (with_method m (request c)) c) in next
      else hfail (NewHTTPError 400 "form method override must be PUT, PATCH, or DELETE").

(** [Recover]: a panic becomes an error; [http.ErrAbortHandler] is raised again. *)
Definition Recover : Middleware := fun next c =>
  match next c with
  | (Panicked ErrAbortHandler, c') => (Panicked ErrAbortHandler, c')
  | (Panicked (PanicValue _), c') =>
      (Failed (NewHTTPError 500 "internal server error"),
       add_log (500, "request panic recovered") c')
  | r => r
  end.

Definition maximumRequestIDBytes : Z := 128.
Definition requestIDC : ascii -> bool :=
  cls_or lowerC (cls_or upperC (cls_or digitC (oneof "._:-"))).
Definition validRequestID (value : string) : bool :=
  negb (bool_decide (value = EmptyString)) && (byte_len value <=? maximumRequestIDBytes) &&
  all_chars requestIDC value.

(** Bytes of a multi-byte character are above 127 and refused like the character. *)
Definition validHTTPToken (value : string) : bool :=
  negb (bool_decide (value = EmptyString)) &&
  all_chars (fun c => rng 33 126 c && negb (oneof "()<>@,;:\/[]?={}" c) && negb (Ascii.eqb c (chr 34))) value.

(** [RequestID]; [None] is the constructor's panic. *)
Definition RequestID (name : string) : option Middleware :=
  let name := if bool_decide (name = EmptyString) then "X-Request-ID" else name in
  if negb (validHTTPToken name) then None
  else
    let name := CanonicalMIMEHeaderKey name in
    Some (fun next c =>
      let given := match req_Values name (request c) with
                   | [v] => if validRequestID v then v else EmptyString
                   | _ => EmptyString
                   end in
      let assign (i : string) : H St unit :=
        do? hmodify (set_requestID i) in do? ctx_Set "request_id" i in
        do? Header_Set name i in next in
      if bool_decide (given = EmptyString) then
        match entropy E (tick_ c) with
        | Err e => (Failed (Wrapped "generate request ID: %w" (Plain e)), next_tick c)
        | Ok bytes => assign (hexEncode bytes) (next_tick c)
        end
      else assign given c).

(** The status and outcome a request is logged with. *)
Definition log_entry (w : statusWriter) (o : outcome unit) (ctxErr : option error) : Z * string :=
  let unless_written code := if wroteHeader w then status w else code in
  let is_ e target := match e with Some x => errors_Is x target | None => false end in
  let failed target := match o with Failed e => herr_Is e target | _ => false end in
  let '(code, text) :=
    match o with
    | Panicked _ => (unless_written 500, "panic")
    | _ =>
        if failed ctxDeadline || is_ ctxErr ctxDeadline then (unless_written 504, "timeout")
        else if failed ctxCanceled || is_ ctxErr ctxCanceled then (unless_written 500, "canceled")
        else match o with
        | Failed e =>
            (match as_http e with
             | Some (s, _, _) => if (400 <=? s) && (s <=? 599) then s else unless_written 500
             | None => unless_written 500
             end, "error")
        | _ => (status w, "success")
        end
    end in
  (code, if bool_decide (text = "success") && (400 <=? code) then "error" else text).

Definition Logger : Middleware := fun next c =>
  let '(o, c') := next c in
  (o, add_log (log_entry (response c') o (request_ctx E (tick_ c'))) (next_tick c')).

(** [NewTimeout]; the child context's error is read when the handler has returned. *)
Definition NewTimeout (d : duration) : result Middleware :=
  if d <=? 0 then Err (Errorf "httpx: timeout must be positive")
  else Ok (fun next c =>
    match next c with
    | (Panicked p, c') => (Panicked p, c')
    | (o, c') =>
        let expired := match request_ctx E (tick_ c') with
                       | Some e => bool_decide (e = ctxDeadline) | None => false end in
        let failed := match o with Failed e => herr_Is e ctxDeadline | _ => false end in
        (if failed || expired
         then Failed (WithCause (NewHTTPError 504 "request timed out") (Plain ctxDeadline))
         else o, next_tick c')
    end).

Record SecurityHeadersConfig : Type := {
  ContentSecurityPolicy : string; StrictTransportSecurity : string
}.
Definition validResponseHeaderValue (v : string) : bool :=
  all_chars (fun c => negb (rng 0 31 c) && negb (Ascii.eqb c (chr 127))) v.

Definition set_unless_empty (k v : string) : H St unit :=
  if bool_decide (v = EmptyString) then hret tt else Header_Set k v.

Definition NewSecureHeaders (config : SecurityHeadersConfig) : result Middleware :=
  if negb (validResponseHeaderValue (ContentSecurityPolicy config))
  then Err (Errorf "httpx: content security policy contains a line break")
  else if negb (validResponseHeaderValue (StrictTransportSecurity config))
  then Err (Errorf "httpx: strict transport security policy contains a line break")
  else Ok (fun next =>
    do? Header_Set "X-Content-Type-Options" "nosniff" in
    do? Header_Set "X-Frame-Options" "DENY" in
    do? Header_Set "Referrer-Policy" "strict-origin-when-cross-origin" in
    do? set_unless_empty "Content-Security-Policy" (ContentSecurityPolicy config) in
    do? set_unless_empty "Strict-Transport-Security" (StrictTransportSecurity config) in
    next).

(** ** Cross-origin requests *)

Record CORSConfig : Type := {
  AllowedOrigins : list string;
  AllowedMethods : list string;
  AllowedHeaders : list string;
  ExposeHeaders : list string;
  AllowCredentials : bool;
  MaxAge : duration
}.

(** What [url.Parse] says of an origin. *)
Record parsedURL : Type := {
  Scheme : string; Host : string; HasUser : bool; u_Path : string; RawQuery : string;
  Fragment : string
}.

Fixpoint map_checked {A B} (f : A -> result B) (l : list A) : result (list B) :=
  match l with
  | [] => Ok []
  | a :: rest => try b := f a in try bs := map_checked f rest in Ok (b :: bs)
  end.

Definition prepare_origin (urlParse : string -> option parsedURL) (credentials : bool)
    (origin : string) : result string :=
  let origin := TrimSpace origin in
  if bool_decide (origin = "*") then
    if credentials then Err (Errorf "httpx: CORS wildcard origin cannot allow credentials")
    else Ok origin
  else match urlParse origin with
  | Some u =>
      if (negb (bool_decide (Scheme u = "http")) && negb (bool_decide (Scheme u = "https"))) ||
         bool_decide (Host u = EmptyString) || HasUser u ||
         negb (bool_decide (u_Path u = EmptyString)) ||
         negb (bool_decide (RawQuery u = EmptyString)) ||
         negb (bool_decide (Fragment u = EmptyString))
      then Err (Errorf "httpx: invalid CORS origin %q") else Ok origin
  | None => Err (Errorf "httpx: invalid CORS origin %q")
  end.

Definition prepare_method (m : string) : result string :=
  let m := ToUpper (TrimSpace m) in
  if validHTTPToken m then Ok m else Err (Errorf "httpx: invalid CORS method %q").
Definition prepare_header (h : string) : result string :=
  let h := TrimSpace h in
  if validHTTPToken h then Ok (CanonicalMIMEHeaderKey h)
  else Err (Errorf "httpx: invalid CORS header %q").

Definition defaultMethods : list string :=
  ["GET"; "HEAD"; "POST"; "PUT"; "PATCH"; "DELETE"; "OPTIONS"].

Definition prepareCORS (urlParse : string -> option parsedURL) (config : CORSConfig)
    : result CORSConfig :=
  if MaxAge config <? 0 then Err (Errorf "httpx: CORS max age cannot be negative")
  else
  let methods := if bool_decide (AllowedMethods config = []) then defaultMethods
                 else AllowedMethods config in
  try origins := map_checked (prepare_origin urlParse (AllowCredentials config)) (AllowedOrigins config) in
  try methods := map_checked prepare_method methods in
  try headers := map_checked prepare_header (AllowedHeaders config) in
  try expose := map_checked prepare_header (ExposeHeaders config) in
  Ok {| AllowedOrigins := origins; AllowedMethods := methods; AllowedHeaders := headers;
        ExposeHeaders := expose; AllowCredentials := AllowCredentials config;
        MaxAge := MaxAge config |}.

Definition contains (l : list string) (s : string) : bool := bool_decide (s ∈ l).
Definition containsFold (l : list string) (s : string) : bool := existsb (fun v => EqualFold v s) l.
Definition originAllowed (origin : string) (allowed : list string) : bool :=
  contains allowed "*" || contains allowed origin.

Definition requestedHeadersAllowed (lines allowed : list string) : bool :=
  forallb (fun line => forallb (fun r =>
    let r := CanonicalMIMEHeaderKey (TrimSpace r) in
    negb (bool_decide (r = EmptyString)) && containsFold allowed r) (Split line ","%char)) lines.

Definition addVary (v : string) (h : header) : header :=
  if existsb (fun line => existsb (fun x => EqualFold (TrimSpace x) v) (Split line ","%char))
       (default [] (fields h !! "Vary"))
  then h else header_Add "Vary" v h.

(** [fmt.Sprintf("%.0f", d.Seconds())]: whole seconds, half to even. *)
Definition seconds_text (d : duration) : string :=
  let q := d / Second in let r := d mod Second in
  Itoa (if (2 * r >? Second) || ((2 * r =? Second) && Z.odd q) then q + 1 else q).

Definition when (b : bool) (m : H St unit) : H St unit := if b then m else hret tt.

Definition NewCORS (urlParse : string -> option parsedURL) (config : CORSConfig) : result Middleware :=
  try p := prepareCORS urlParse config in
  Ok (fun next =>
    let? r := hgets request in
    let asked := req_Get "Access-Control-Request-Method" r in
    let preflight := bool_decide (Method r = "OPTIONS") && negb (bool_decide (asked = EmptyString)) in
    let origin := req_Get "Origin" r in
    do? on_header (addVary "Origin") in
    do? when preflight (on_header (fun h =>
          addVary "Access-Control-Request-Headers" (addVary "Access-Control-Request-Method" h))) in
    if bool_decide (origin = EmptyString) || negb (originAllowed origin (AllowedOrigins p)) then next
    else if preflight &&
       (negb (contains (AllowedMethods p) (ToUpper asked)) ||
        negb (requestedHeadersAllowed (req_Values "Access-Control-Request-Headers" r) (AllowedHeaders p)))
    then hfail (NewHTTPError 403 "CORS preflight is not allowed")
    else
      do? Header_Set "Access-Control-Allow-Origin"
            (if contains (AllowedOrigins p) "*" then "*" else origin) in
      do? Header_Set "Access-Control-Allow-Methods" (Join (AllowedMethods p) ", ") in
      do? when (negb (bool_decide (AllowedHeaders p = [])))
            (Header_Set "Access-Control-Allow-Headers" (Join (AllowedHeaders p) ", ")) in
      do? when (negb (bool_decide (ExposeHeaders p = [])))
            (Header_Set "Access-Control-Expose-Headers" (Join (ExposeHeaders p) ", ")) in
      do? when (AllowCredentials p) (Header_Set "Access-Control-Allow-Credentials" "true") in
      do? when (0 <? MaxAge p) (Header_Set "Access-Control-Max-Age" (seconds_text (MaxAge p))) in
      if preflight then NoContent 204 else next).
End Middleware.

(** ** The router ([router.go]) *)

Section Router.
Context {St : Type} (E : henv).

Record Route : Type := {
  r_Method : string; r_Path : string; r_Name : string; r_Handler : @Handler St
}.

(** What [http.ServeMux] does with a request: run one of the registered routes, or answer by
    itself (not found, method not allowed, a redirect to the canonical path). *)
Inductive muxAnswer : Type :=
| MuxRoute (index : nat)
| MuxAnswer (code : Z) (headers : list (string * string)) (text : string).

Record mux : Type := {
  mux_accepts : list (string * string) -> string * string -> bool;
  mux_serve : list (string * string) -> Request -> muxAnswer
}.

Record Router : Type := {
  middleware : list (@Middleware St);
  routes : list Route;
  named : gmap string string;
  errorHandler : herr -> H St unit
}.

Context (X : mux).

Definition patterns (rt : Router) : list (string * string) :=
  map (fun r => (r_Method r, r_Path r)) (routes rt).

Definition Use (ms : list Middleware) (rt : Router) : Router :=
  {| middleware := middleware rt ++ ms; routes := routes rt; named := named rt;
     errorHandler := errorHandler rt |}.
Definition OnError (h : herr -> H St unit) (rt : Router) : Router :=
  {| middleware := middleware rt; routes := routes rt; named := named rt; errorHandler := h |}.

(** [Router.Named]; [None] is a panic at registration. *)
Definition Named (name method path : string) (handler : option Handler) (rt : Router)
    : option Router :=
  match handler with
  | None => None
  | Some h =>
      let method := ToUpper (TrimSpace method) in
      if bool_decide (method = EmptyString) || negb (HasPrefix path "/") then None
      else if negb (bool_decide (name = EmptyString)) && bool_decide (is_Some (named rt !! name))
      then None
      else if negb (mux_accepts X (patterns rt) (method, path)) then None
      else Some
        {| middleware := middleware rt;
           routes := routes rt ++ [{| r_Method := method; r_Path := path; r_Name := name;
                                      r_Handler := h |}];
           named := if bool_decide (name = EmptyString) then named rt
                    else <[name := path]> (named rt);
           errorHandler := errorHandler rt |}
  end.
Definition Handle (method path : string) (handler : option Handler) := Named EmptyString method path handler.

(** [router.mux.ServeHTTP(ctx.Response, ctx.Request)], then [ctx.routeErr]. *)
Definition serve_mux (rt : Router) : @Handler St := fun c =>
  match mux_serve X (patterns rt) (request c) with
  | MuxAnswer code hs text =>
      (do? on_header (fun h => fold_left (fun h kv => header_Set (fst kv) (snd kv) h) hs h) in
       do? WriteHeader code in
       fun c => match Write E text c with
                | (Failed _, c') | (Done _, c') =>
                    (match routeErr c' with Some e => Failed e | None => Done tt end, c')
                | r => r
                end) c
  | MuxRoute i =>
      match routes rt !! i with
      | None => (Panicked (PanicValue "no such route"), c)
      | Some r =>
          match r_Handler r (set_route (r_Name r) (r_Path r) (routeErr c) c) with
          | (Done _, c') => (Done tt, set_route (routeName c') (routePattern c') None c')
          | (Failed e, c') => (Failed e, set_route (routeName c') (routePattern c') (Some e) c')
          | (Panicked p, c') => (Panicked p, c')
          end
      end
  end.

Definition newContext (r : Request) (w : serverWriter) (st : St) (t : nat) : Context St :=
  {| request := r; originalMethod := Method r;
     response := {| sw := w; status := 200; wroteHeader := false |}; buffers := [];
     values_ := ∅; session_ := None;
     formst := {| formParsed := false; form := ∅; formErr := None; formBytes := 0 |};
     routeErr := None; routeName := EmptyString; routePattern := EmptyString;
     requestID := EmptyString; store_ := st; tick_ := t; logs := [] |}.

(** The middleware around a handler, outermost first. *)
Definition compose (ms : list (@Middleware St)) (h : @Handler St) : @Handler St :=
  foldr (fun m k => m k) h ms.

(** [Router.ServeHTTP]: what is left when the call returns or panics. *)
Definition ServeHTTP (rt : Router) (c : Context St) : outcome unit * Context St :=
  match compose (middleware rt) (serve_mux rt) c with
  | (Failed e, c') =>
      if wroteHeader (response c') then (Done tt, c') else errorHandler rt e c'
  | r => r
  end.

(** [DefaultErrorHandler]; [payload] is [encoding/json] on the message and the details.
    The error of the write is dropped. *)
Definition DefaultErrorHandler (payload : string -> option string -> result string) (e : herr)
    : H St unit := fun c =>
  let '(code, message, details) := match as_http e with
                                   | Some x => x
                                   | None => (500, "internal server error", None)
                                   end in
  let '(code, message, details) :=
    if (code <? 400) || (599 <? code) then (500, "internal server error", None)
    else (code, message, details) in
  match JSON E code (payload message details) c with
  | (Failed _, c') => (Done tt, c')
  | r => r
  end.

(** ** Groups *)

Record Group : Type := { prefix : string; g_middleware : list (@Middleware St) }.

Definition TrimSuffix (s suffix : string) : string :=
  if HasSuffix s suffix then take_string (String.length s - String.length suffix) s else s.

Definition NewGroup (p : string) (ms : list Middleware) : Group :=
  {| prefix := TrimSuffix p "/"; g_middleware := ms |}.
Definition GroupNamed (g : Group) (name method path : string) (handler : Handler) (rt : Router)
    : option Router :=
  Named name method (prefix g +:+ path) (Some (compose (g_middleware g) handler)) rt.

(** ** [Router.URL] *)

Definition identStartC : ascii -> bool := cls_or lowerC (cls_or upperC (oneof "_")).
Definition identC : ascii -> bool := cls_or identStartC digitC.

Fixpoint take_ident (s : string) : string * string :=
  match s with
  | String c rest =>
      if identC c then let '(i, r) := take_ident rest in (String c i, r) else (EmptyString, s)
  | EmptyString => (EmptyString, EmptyString)
  end.

(** A match of the regular expression [pathParameter] (an identifier, three optional dots, a
    closing brace) after an opening brace: the name, whether it is a rest parameter, and what
    follows. *)
Definition match_parameter (s : string) : option (string * bool * string) :=
  match s with
  | String c _ =>
      if negb (identStartC c) then None
      else
        let '(name, rest) := take_ident s in
        if HasPrefix rest "}" then Some (name, false, drop_string 1 rest)
        else if HasPrefix rest "...}" then Some (name, true, drop_string 4 rest)
        else None
  | EmptyString => None
  end.

Definition escape_value (rest : bool) (v : string) : string :=
  if rest then Join (map PathEscape (Split v "/"%char)) "/" else PathEscape v.

(** [ReplaceAllStringFunc] with the parameters; the second result is the last parameter
    that is missing.  The text gets shorter in each round. *)
Fixpoint replace_parameters (fuel : nat) (parameters : gmap string string) (s : string)
    : string * option string :=
  match fuel, s with
  | O, _ => (s, None)
  | _, EmptyString => (EmptyString, None)
  | S n, String c rest =>
      match (if Ascii.eqb c "{" then match_parameter rest else None) with
      | Some (name, dots, after) =>
          let '(tail, missing) := replace_parameters n parameters after in
          match parameters !! name with
          | Some v => (escape_value dots v +:+ tail, missing)
          | None => (String "{" (name +:+ (if dots then "...}" else "}")) +:+ tail,
                     match missing with Some m => Some m | None => Some name end)
          end
      | None =>
          let '(tail, missing) := replace_parameters n parameters rest in (String c tail, missing)
      end
  end.

Definition URL (rt : Router) (name : string) (parameters : gmap string string) : result string :=
  match named rt !! name with
  | None => Err (Errorf "httpx: named route %q does not exist")
  | Some path =>
      let path := TrimSuffix path "{$}" in
      let '(r, missing) := replace_parameters (String.length path) parameters path in
      match missing with
      | Some _ => Err (Errorf "httpx: route %q requires parameter %q")
      | None => Ok r
      end
  end.
End Router.
Arguments Route : clear implicits.
Arguments Router : clear implicits.
