(* ===== verification/Web.v ===== *)
(** * The browser request lifecycle ([web/session.go], [web/csrf.go])

    The session middleware loads a session, puts a buffer in front of the response, runs the
    handler, saves the session if the handler used it, and only then commits the buffer.  The
    CSRF middleware admits unsafe methods with the session's token.  Both are handlers of
    [Http] and call the manager of [Session] and the tokens of [Security.Csrf]. *)

From S2P Require Import Prelude GoStrings GoRegexp GoEncoding GoUrl Session Security Http.
Local Open Scope go_scope.
Local Open Scope Z_scope.

Section Web.
Context {St : Type} `{SessionStore St} (E : henv) (R : runtime).
Context (json_encode json_decode : string -> result string).

(** ** Calls into the session manager *)

(** [ctx.Response] as the session package sees it: the buffer cannot tell whether its header
    is written, the tracked writer can. *)
Definition session_response (c : Context St) : Response :=
  {| Written := match buffers c with [] => Some (wroteHeader (response c)) | _ => None end;
     SetCookies := cookies (top_header c) |}.

Definition set_current (s : option Session) (ss : option sessionState) : option sessionState :=
  match ss with
  | Some x => Some {| current := s; accessed := accessed x; persisted := persisted x;
                      destroyed := destroyed x |}
  | None => None
  end.

(** Run a manager operation on the request's session, the store, the clock counter and the
    cookies of [ctx.Response]. *)
Definition on_manager {A} (m : M (Session.world St) A) : H St A := fun c =>
  let w := {| w_store := store_ c; w_tick := tick_ c; w_response := Some (session_response c);
              w_session := match session_ c with Some s => current s | None => None end |} in
  let '(r, w') := m w in
  let c := set_store (w_store w') (w_tick w') c in
  let c := match w_response w' with
           | Some resp => set_top_header
               {| fields := fields (top_header c); cookies := SetCookies resp |} c
           | None => c
           end in
  let c := set_session (set_current (w_session w') (session_ c)) c in
  (match r with Ok a => Done a | Err e => Failed (Plain e) end, c).

Definition mark (f : sessionState -> sessionState) : H St unit :=
  hmodify (fun c => set_session (option_map f (session_ c)) c).
Definition mark_accessed (s : sessionState) : sessionState :=
  {| current := current s; accessed := true; persisted := persisted s; destroyed := destroyed s |}.
Definition mark_persisted (s : sessionState) : sessionState :=
  {| current := current s; accessed := accessed s; persisted := true; destroyed := destroyed s |}.
Definition mark_destroyed (s : sessionState) : sessionState :=
  {| current := current s; accessed := accessed s; persisted := persisted s; destroyed := true |}.

(** [stateFrom], as the guard of every helper. *)
Definition require_state {A} (message : string) (k : H St A) : H St A := fun c =>
  match session_ c with
  | None => (Failed (Plain (Errorf message)), c)
  | Some _ => k c
  end.
Definition notInstalled : string := "web: session middleware is not installed".

(** [Session]: the request's session, marked for persistence; [None] is [(nil, false)]. *)
Definition WebSession : H St (option (option Session)) := fun c =>
  match session_ c with
  | None => (Done None, c)
  | Some s => (Done (Some (current s)), set_session (Some (mark_accessed s)) c)
  end.

(** [SaveSessionWith]; the alternate manager may be nil. *)
Definition SaveSessionWith (manager : option Manager) : H St unit :=
  require_state notInstalled (
    match manager with
    | None => hfail (Plain (Errorf "web: session manager is required"))
    | Some m =>
        do? mark mark_accessed in
        do? hwrap "persist browser session: %w" (on_manager (Save R m)) in
        mark mark_persisted
    end).

Section Manager.
Context (manager : Manager).

Definition WebRegenerate : H St unit :=
  require_state notInstalled (do? mark mark_accessed in on_manager (Regenerate R)).
Definition WebRegenerateOrCreate : H St unit :=
  require_state notInstalled (do? mark mark_accessed in on_manager (RegenerateOrCreate R)).
Definition WebDestroy : H St unit :=
  require_state notInstalled (
    do? mark mark_accessed in do? on_manager (Destroy manager) in mark mark_destroyed).
Definition WebInvalidate : H St unit :=
  require_state notInstalled (
    do? mark mark_accessed in do? on_manager (Invalidate manager) in mark mark_destroyed).

(** ** The buffer *)

Definition newResponseBuffer (initial : header) (limit : Z) : responseBuffer :=
  {| rb_header := initial; rb_body := EmptyString; maxBytes := limit; rb_err := None;
     rb_status := 200; rb_wroteHeader := false |}.

(** [responseBuffer.commit] to the writer that is now on top. *)
Definition commit (b : responseBuffer) : H St unit :=
  do? on_header (fun _ => rb_header b) in
  do? WriteHeader (rb_status b) in
  if bool_decide (rb_body b = EmptyString) then hret tt else Write E (rb_body b).

(** [ctx.Response = original]: drop the middleware's buffer. *)
Definition pop_buffer (c : Context St) : Context St := set_buffers (tail (buffers c)) c.

(** What the middleware does after the handler, with the buffer still on top: nothing has
    reached the original writer yet. *)
Definition settle : H St responseBuffer := fun c =>
  match buffers c with
  | [] => (Panicked (PanicValue "response buffer missing"), c)
  | b :: _ =>
      match rb_err b with
      | Some e => (Failed e, c)
      | None =>
          let state := default {| current := None; accessed := false; persisted := false;
                                  destroyed := false |} (session_ c) in
          (do? (if accessed state && negb (persisted state) && negb (destroyed state)
                then hwrap "persist browser session: %w" (on_manager (Save R manager))
                else hret tt) in
           do? (if accessed state then Header_Set "Cache-Control" "no-store" else hret tt) in
           hgets (fun c => match buffers c with b :: _ => b | [] => b end)) c
      end
  end.

(** [SessionsLimit] with its arguments checked; [None] is the constructor's panic. *)
Definition sessions_middleware (limit : Z) : @Middleware St := fun next c =>
  match on_manager (Load R manager (ReqCookies (request c) !! Name (cookie manager))) c with
  | (Failed e, c) => (Failed (Wrapped "load browser session: %w" e), c)
  | (Panicked p, c) => (Panicked p, c)
  | (Done loaded, c) =>
      let c := set_session (Some {| current := Some loaded; accessed := false;
                                    persisted := false; destroyed := false |}) c in
      let c := set_buffers (newResponseBuffer (top_header c) limit :: buffers c) c in
      match next c with
      | (Failed e, c) => (Failed e, pop_buffer c)
      | (Panicked p, c) => (Panicked p, pop_buffer c)
      | (Done _, c) =>
          match settle c with
          | (Failed e, c) => (Failed e, pop_buffer c)
          | (Panicked p, c) => (Panicked p, pop_buffer c)
          | (Done b, c) => hwrap "commit browser response: %w" (commit b) (pop_buffer c)
          end
      end
  end.
Definition SessionsLimit (limit : Z) : option Middleware :=
  if limit <=? 0 then None else Some (sessions_middleware limit).
Definition defaultMaxBufferedResponseBytes : Z := 4194304.
Definition Sessions : option Middleware := SessionsLimit defaultMaxBufferedResponseBytes.
End Manager.

(** ** CSRF ([csrf.go]) *)

Definition CSRFField : string := "_token".
(** [X-CSRF-Token] under its canonical name. *)
Definition CSRFHeader : string := "X-Csrf-Token".

Definition csrfSafeMethod (m : string) : bool :=
  bool_decide (m = "GET") || bool_decide (m = "HEAD") || bool_decide (m = "OPTIONS").

Definition submittedCSRFToken : H St string :=
  let? r := hgets request in
  match req_Values CSRFHeader r with
  | _ :: _ :: _ => hfail (NewHTTPError 400 "CSRF header must appear at most once")
  | vs =>
      let v := default EmptyString (head vs) in
      if negb (bool_decide (v = EmptyString)) then hret v
      else if negb (isURLForm (req_Get "Content-Type" r)) then hret EmptyString
      else let? f := Form in form_Value f CSRFField
  end.

Definition CSRF : @Middleware St := fun next =>
  let? m := hgets (fun c => Method (request c)) in
  if csrfSafeMethod m then next
  else
    let? s := WebSession in
    match s with
    | None => hfail (Plain (Errorf "web: CSRF middleware requires session middleware"))
    | Some cur =>
        let? submitted := submittedCSRFToken in
        match Csrf.Validate json_decode cur submitted with
        | Some e =>
            if errors_Is e Csrf.ErrInvalidToken
            then hfail (NewHTTPError 403 "invalid CSRF token")
            else hfail (Wrapped "validate CSRF token: %w" (Plain e))
        | None => next
        end
    end.

(** Token operations on the request's session. *)
Definition on_token (m : result string -> M (option Session) string) : H St string := fun c =>
  match session_ c with
  | None => (Failed (Plain (Errorf "web: CSRF token requires session middleware")), c)
  | Some s =>
      let '(r, s') := m (entropy E (tick_ c)) (current s) in
      (match r with Ok v => Done v | Err e => Failed (Plain e) end,
       next_tick (set_session (set_current s' (Some (mark_accessed s))) c))
  end.
Definition CSRFToken : H St string := on_token (Csrf.Ensure json_encode json_decode).
Definition RotateCSRF : H St string := on_token (Csrf.Rotate json_encode).

(** ** Redirects *)

(** [url.ParseRequestURI] on a text that starts with a slash: no control characters, and
    valid percent escapes before the query. *)
Definition request_uri_ok (location : string) : bool :=
  noCTL location &&
  let '(p, _, _) := Cut location "?"%char in bool_decide (is_Some (PathUnescape p)).

Definition local_location (location : string) : bool :=
  HasPrefix location "/" && negb (HasPrefix location "//") && negb (HasPrefix location "/\") &&
  request_uri_ok location.

Definition Redirect (page : string -> Z -> string) (location : string) : H St unit :=
  if local_location location then http_Redirect E page 303 location
  else hfail (Plain (Errorf "web: redirect location must be an absolute application path")).
End Web.
