(* ===== verification/WebProps.v ===== *)
(** * Theorems about the HTTP layer and the browser middleware

    A handler behind a buffer only changes the buffer ([frames]); every operation of the two
    packages is such a handler and middleware keeps the class closed.  From it: a response is
    committed only after its session is saved, a request that fails or panics sends the error
    document alone, the CSRF middleware is a gate, redirects and generated URLs stay where
    they belong, and forms are read once within their limit. *)

From S2P Require Import Prelude GoStrings GoRegexp GoEncoding GoUrl Session SessionFacts Security SecurityProps ProxyProps Http Web.
Local Open Scope go_scope.
Local Open Scope Z_scope.

(** ** Handlers behind a buffer *)

Definition buffer_ok (b : responseBuffer) : Prop := byte_len (rb_body b) <= maxBytes b.

Section Frames.
Context {St : Type}.
Implicit Types c : Context St.

Definition frames {A} (m : H St A) : Prop :=
  forall c o c' b rest, m c = (o, c') -> buffers c = b :: rest ->
    exists b', buffers c' = b' :: rest /\ response c' = response c /\
      maxBytes b' = maxBytes b /\ (buffer_ok b -> buffer_ok b').

Lemma frames_ret {A} (a : A) : frames (hret a).
Proof. intros c o c' b rest H Hb. injection H as <- <-. eauto. Qed.
Lemma frames_fail {A} e : frames (@hfail St A e).
Proof. intros c o c' b rest H Hb. injection H as <- <-. eauto. Qed.
Lemma frames_panic {A} p : frames (@hpanic St A p).
Proof. intros c o c' b rest H Hb. injection H as <- <-. eauto. Qed.
Lemma frames_gets {A} (f : Context St -> A) : frames (hgets f).
Proof. intros c o c' b rest H Hb. injection H as <- <-. eauto. Qed.

(** Changing anything but the writers. *)
Lemma frames_modify (f : Context St -> Context St) :
  (forall c, buffers (f c) = buffers c /\ response (f c) = response c) -> frames (hmodify f).
Proof.
  intros Hf c o c' b rest H Hb. injection H as <- <-. destruct (Hf c) as [Hb' Hr].
  exists b. rewrite Hb', Hr. done.
Qed.

Lemma frames_bind {A B} (m : H St A) (k : A -> H St B) :
  frames m -> (forall a, frames (k a)) -> frames (hbind m k).
Proof.
  intros Hm Hk c o c' b rest H Hb. unfold hbind in H.
  destruct (m c) as [om c1] eqn:E. destruct (Hm _ _ _ _ _ E Hb) as (b1 & Hb1 & Hr1 & Hm1 & Ho1).
  destruct om as [a|e|p]; [|injection H as <- <-; eauto..].
  destruct (Hk a _ _ _ _ _ H Hb1) as (b2 & Hb2 & Hr2 & Hm2 & Ho2).
  exists b2. split_and!; [done|congruence|congruence|auto].
Qed.

Lemma frames_wrap {A} f (m : H St A) : frames m -> frames (hwrap f m).
Proof.
  intros Hm c o c' b rest H Hb. unfold hwrap in H. destruct (m c) as [om c1] eqn:E.
  destruct (Hm _ _ _ _ _ E Hb) as (b1 & ?). destruct om; injection H as <- <-; eauto.
Qed.

Lemma frames_if {A} (x : bool) (m k : H St A) : frames m -> frames k -> frames (if x then m else k).
Proof. by destruct x. Qed.

Lemma frames_on_header f : frames (@on_header St f).
Proof.
  intros c o c' b rest H Hb. injection H as <- <-. unfold set_top_header. rewrite Hb. cbn.
  eexists. split_and!; done.
Qed.

Lemma frames_WriteHeader code : frames (@WriteHeader St code).
Proof.
  intros c o c' b rest H Hb. unfold WriteHeader in H. rewrite Hb in H. injection H as <- <-. cbn.
  eexists. split_and!; [done|done|..]; unfold buffer_WriteHeader; by destruct (rb_wroteHeader b).
Qed.

Lemma frames_Write E s : frames (@Write St E s).
Proof.
  intros c o c' b rest H Hb. unfold Write in H. rewrite Hb in H.
  destruct (buffer_Write s b) as [e b'] eqn:E1. injection H as <- <-. cbn.
  exists b'. split_and!; [done|done|..]; unfold buffer_Write in E1;
    destruct (rb_err b); [by injection E1 as <- <-|..|by injection E1 as <- <-|];
    case_match eqn:G; injection E1 as <- <-; cbn; try done;
    unfold buffer_WriteHeader; destruct (rb_wroteHeader b); try done;
    bool_to_prop; unfold buffer_ok; cbn; unfold byte_len in *; rewrite string_length_app; lia.
Qed.
End Frames.

Lemma frames_Header_Set {St} k v : frames (@Header_Set St k v).
Proof. apply frames_on_header. Qed.
Lemma frames_set_unless_empty {St} k v : frames (@set_unless_empty St k v).
Proof. unfold set_unless_empty. apply frames_if; [apply frames_ret|apply frames_on_header]. Qed.
Lemma frames_when {St} b (m : H St unit) : frames m -> frames (when b m).
Proof. unfold when. intros Hm. apply frames_if; [done|apply frames_ret]. Qed.

#[export] Hint Resolve frames_Header_Set frames_set_unless_empty frames_when : frames.
#[export] Hint Resolve frames_ret frames_fail frames_panic frames_gets frames_bind frames_wrap
  frames_if frames_on_header frames_WriteHeader frames_Write : frames.

Section FrameOps.
Context {St : Type} `{SessionStore St} (E : henv) (R : runtime).
Implicit Types c : Context St.

Lemma frames_JSON code enc : frames (@JSON St E code enc).
Proof. unfold JSON, Header_Set. destruct enc; auto 8 with frames. Qed.

Lemma frames_form_Value f n : frames (@form_Value St f n).
Proof. unfold form_Value. destruct (Form_Value f n); auto with frames. Qed.

Lemma frames_FormLimit l : frames (@FormLimit St l).
Proof.
  intros c o c' b rest Hm0 Hb. unfold FormLimit, form_result in Hm0.
  repeat case_match; injection Hm0 as <- <-; cbn; eauto.
Qed.

Lemma frames_on_manager {A} (m : M (Session.world St) A) : frames (on_manager m).
Proof.
  intros c o c' b rest Hm0 Hb. unfold on_manager in Hm0.
  destruct (m _) as [r w'] eqn:Em. injection Hm0 as <- <-.
  destruct (w_response w'); cbn; unfold set_top_header; cbn; rewrite ?Hb; cbn;
    eexists; split_and!; try done.
Qed.

Lemma frames_mark f : frames (@mark St f).
Proof. by apply frames_modify. Qed.

Lemma frames_require {A} msg (k : H St A) : frames k -> frames (require_state msg k).
Proof.
  intros Hk c o c' b rest Hm0 Hb. unfold require_state in Hm0.
  destruct (session_ c); [by eapply Hk|]. injection Hm0 as <- <-. eauto.
Qed.

Lemma frames_WebSession : frames (@WebSession St).
Proof.
  intros c o c' b rest Hm0 Hb. unfold WebSession in Hm0.
  destruct (session_ c); injection Hm0 as <- <-; cbn; eauto.
Qed.

Lemma frames_on_token m : frames (@on_token St E m).
Proof.
  intros c o c' b rest Hm0 Hb. unfold on_token in Hm0. destruct (session_ c) as [s|].
  - destruct (m _ _) as [r s']. injection Hm0 as <- <-. cbn. eauto.
  - injection Hm0 as <- <-. eauto.
Qed.

Lemma frames_redirect page code loc : frames (@http_Redirect St E page code loc).
Proof.
  intros c o c' b rest Hm0 Hb. unfold http_Redirect in Hm0.
  revert Hm0 Hb. generalize (redirect_target loc) as tgt. intros tgt.
  set (x := negb _). set (y := bool_decide (Method _ = "GET")). set (z := bool_decide (Method _ = "HEAD")).
  clearbody x y z. intros Hm0 Hb.
  assert (frames (do? Header_Set "Location" tgt in
   do? (if x && (y || z) then Header_Set "Content-Type" "text/html; charset=utf-8" else hret tt) in
   do? WriteHeader code in
   if x && y then (fun c => match @Write St E (page tgt code) c with
                  | (Failed _, c') => (Done tt, c') | r => r end) else hret tt)) as Hf.
  { unfold Header_Set. repeat (apply frames_bind; [auto with frames|intros []]).
    apply frames_if; [|auto with frames].
    intros c1 o1 c1' b1 rest1 H1 Hb1. destruct (Write E (page tgt code) c1) as [ow cw] eqn:Ew.
    destruct (frames_Write _ _ _ _ _ _ _ Ew Hb1) as (b2 & ?).
    destruct ow; injection H1 as <- <-; eauto. }
  by eapply Hf.
Qed.
End FrameOps.

#[export] Hint Resolve frames_JSON frames_form_Value frames_FormLimit frames_on_manager
  frames_mark frames_require frames_WebSession frames_on_token frames_redirect : frames.

Lemma hbind_done {St A B} (m : H St A) (k : A -> H St B) c b c' :
  hbind m k c = (Done b, c') -> exists a c1, m c = (Done a, c1) /\ k a c1 = (Done b, c').
Proof. unfold hbind. destruct (m c) as [[a|e|p] c1]; [eauto|done..]. Qed.

(** ** Handlers as programs

    What a handler can do with the context it is given: answer through [ctx.Response] (the
    top of the writer stack; a response buffer does not expose the writer below it), read
    the form, use the session and its manager, look at anything, and change anything else,
    the store and its own state included ([c_other], which keeps the writers).  The result of every call, an error or a panic included, comes back
    to the program, which may ignore it, return an error or panic itself; a middleware also
    calls [next], any number of times. *)
Section Programs.
Context {St : Type} `{SessionStore St} (E : henv).

Inductive call : Type -> Type :=
| c_header (f : header -> header) : call unit
| c_WriteHeader (code : Z) : call unit
| c_Write (data : string) : call unit
| c_Redirect (page : string -> Z -> string) (code : Z) (location : string) : call unit
| c_FormLimit (limit : Z) : call GoUrl.Values
| c_Session : call (option (option Session))
| c_manager {A : Type} (m : M (Session.world St) A) : call A
| c_mark (f : sessionState -> sessionState) : call unit
| c_token (m : result string -> M (option Session) string) : call string
| c_other (f : Context St -> Context St) : call unit.

Inductive program (A : Type) : Type :=
| Return (a : A)
| Fail (e : herr)
| Panic (why : panic)
| Look {B : Type} (f : Context St -> B) (k : B -> program A)
| Call {B : Type} (m : call B) (k : outcome B -> program A)
| Next (k : outcome unit -> program A).

Definition keep_writers (f : Context St -> Context St) : Context St -> Context St := fun c =>
  set_response (response c) (set_buffers (buffers c) (f c)).

Definition perform_call {B} (m : call B) : H St B :=
  match m with
  | c_header f => on_header f
  | c_WriteHeader code => WriteHeader code
  | c_Write data => Write E data
  | c_Redirect page code location => http_Redirect E page code location
  | c_FormLimit limit => FormLimit limit
  | c_Session => WebSession
  | c_manager m => on_manager m
  | c_mark f => mark f
  | c_token m => on_token E m
  | c_other f => hmodify (keep_writers f)
  end.

(** The handler a program is, around the handler [next]. *)
Fixpoint perform {A} (p : program A) (next : H St unit) : H St A := fun c =>
  match p with
  | Return _ a => (Done a, c)
  | Fail _ e => (Failed e, c)
  | Panic _ why => (Panicked why, c)
  | Look _ f k => perform (k (f c)) next c
  | Call _ m k => let '(o, c') := perform_call m c in perform (k o) next c'
  | Next _ k => let '(o, c') := next c in perform (k o) next c'
  end.

(** A handler at the end of the chain: its [next] does nothing. *)
Definition handler (p : program unit) : H St unit := perform p (hret tt).

Lemma frames_call {B} (m : call B) : frames (perform_call m).
Proof. destruct m; cbn [perform_call]; auto with frames. by apply frames_modify. Qed.

Lemma frames_perform {A} (p : program A) next : frames next -> frames (perform p next).
Proof.
  intros Hn. induction p as [a|e|why|B f k IH|B m k IH|k IH]; intros c o c' b rest Hm0 Hb; cbn in Hm0;
    [injection Hm0 as <- <-; eauto..|by eapply IH| |].
  - destruct (perform_call m c) as [om c1] eqn:Em.
    destruct (frames_call m _ _ _ _ _ Em Hb) as (b1 & Hb1 & Hr1 & Hm1 & Ho1).
    destruct (IH om _ _ _ _ _ Hm0 Hb1) as (b2 & Hb2 & Hr2 & Hm2 & Ho2).
    exists b2. split_and!; [done|congruence|congruence|auto].
  - destruct (next c) as [om c1] eqn:Em.
    destruct (Hn _ _ _ _ _ Em Hb) as (b1 & Hb1 & Hr1 & Hm1 & Ho1).
    destruct (IH om _ _ _ _ _ Hm0 Hb1) as (b2 & Hb2 & Hr2 & Hm2 & Ho2).
    exists b2. split_and!; [done|congruence|congruence|auto].
Qed.

Lemma frames_handler p : frames (handler p).
Proof. apply frames_perform, frames_ret. Qed.
End Programs.
Arguments program St : clear implicits.
Arguments Return {St A} _.
Arguments Fail {St A} _.
Arguments Panic {St A} _.
Arguments Look {St A B} _ _.
Arguments Call {St A B} _ _.
Arguments Next {St A} _.

(** ** Middleware keeps handlers behind the buffer *)

Section FrameMiddleware.
Context {St : Type} `{SessionStore St} (E : henv) (R : runtime).

Definition frames_mw (m : @Middleware St) : Prop := forall next, frames next -> frames (m next).

Lemma frames_MethodOverride ps : frames_mw (MethodOverride ps).
Proof.
  intros next Hn. unfold MethodOverride. apply frames_bind; [auto with frames|]. intros r.
  apply frames_if; [done|]. apply frames_bind; [apply frames_FormLimit|]. intros f.
  apply frames_bind; [auto with frames|]. intros m. repeat apply frames_if; auto with frames.
  apply frames_bind; [by apply frames_modify|done].
Qed.

Lemma frames_Recover : frames_mw Recover.
Proof.
  intros next Hn c o c' b rest Hm0 Hb. unfold Recover in Hm0. destruct (next c) as [o1 c1] eqn:E1.
  destruct (Hn _ _ _ _ _ E1 Hb) as (b1 & ?).
  destruct o1 as [| |[]]; injection Hm0 as <- <-; cbn; eauto.
Qed.

Lemma frames_Logger : frames_mw (Logger E).
Proof.
  intros next Hn c o c' b rest Hm0 Hb. unfold Logger in Hm0. destruct (next c) as [o1 c1] eqn:E1.
  destruct (Hn _ _ _ _ _ E1 Hb) as (b1 & ?). injection Hm0 as <- <-. cbn. eauto.
Qed.

Lemma frames_NewTimeout d m : NewTimeout E d = Ok m -> frames_mw m.
Proof.
  unfold NewTimeout. case_match; [done|]. intros [= <-] next Hn c o c' b rest Hm0 Hb.
  destruct (next c) as [o1 c1] eqn:E1. destruct (Hn _ _ _ _ _ E1 Hb) as (b1 & ?).
  destruct o1; injection Hm0 as <- <-; cbn; eauto.
Qed.

Lemma frames_RequestID n m : RequestID E n = Some m -> frames_mw m.
Proof.
  unfold RequestID. set (nm := if bool_decide (n = EmptyString) then _ else _). clearbody nm.
  destruct (negb (validHTTPToken nm)); [done|]. intros [= <-] next Hn c o c' b rest Hm0 Hb.
  assert (forall i, frames (do? hmodify (set_requestID i) in do? ctx_Set "request_id" i in
    do? Header_Set (CanonicalMIMEHeaderKey nm) i in next)) as Hf.
  { intros i. unfold ctx_Set, Header_Set.
    apply frames_bind; [by apply frames_modify|intros _].
    apply frames_bind; [by apply frames_modify|intros _].
    apply frames_bind; [auto with frames|done]. }
  case_bool_decide; [|by eapply Hf]. destruct (entropy E (tick_ c)).
  - exact (Hf _ _ _ _ _ _ Hm0 Hb).
  - injection Hm0 as <- <-. cbn. eauto.
Qed.

Lemma frames_NewSecureHeaders cfg m : NewSecureHeaders cfg = Ok m -> frames_mw m.
Proof.
  unfold NewSecureHeaders. do 2 (case_match; [done|]). intros [= <-] next Hn.
  do 5 (apply frames_bind; [auto with frames|intros _]). done.
Qed.

Lemma frames_NewCORS up cfg m : NewCORS up cfg = Ok m -> frames_mw m.
Proof.
  unfold NewCORS. destruct (prepareCORS up cfg) as [p|]; [|done]. intros [= <-] next Hn.
  unfold NoContent. apply frames_bind; [auto with frames|intros r].
  do 2 (apply frames_bind; [auto with frames|intros _]).
  do 2 (apply frames_if; [auto with frames|]).
  do 6 (apply frames_bind; [auto with frames|intros _]).
  apply frames_if; auto with frames.
Qed.

Lemma frames_submitted : frames (@submittedCSRFToken St).
Proof.
  unfold submittedCSRFToken. apply frames_bind; [auto with frames|intros r].
  destruct (req_Values CSRFHeader r) as [|? [|? ?]]; repeat apply frames_if; auto with frames;
    (apply frames_bind; [apply frames_FormLimit|auto with frames]).
Qed.

Lemma frames_CSRF dec : frames_mw (CSRF dec).
Proof.
  intros next Hn. unfold CSRF. apply frames_bind; [auto with frames|intros m].
  apply frames_if; [done|]. apply frames_bind; [auto with frames|intros [cur|]]; [|auto with frames].
  apply frames_bind; [apply frames_submitted|intros t].
  destruct (Csrf.Validate dec cur t); [apply frames_if; auto with frames|done].
Qed.

(** [commit] and the whole session middleware stay behind an outer buffer. *)
Lemma frames_commit b : frames (@commit St E b).
Proof.
  unfold commit. apply frames_bind; [auto with frames|intros _].
  apply frames_bind; [auto with frames|intros _]. apply frames_if; auto with frames.
Qed.

Lemma frames_settle manager : frames (settle R manager).
Proof.
  intros c o c' b rest Hm0 Hb. unfold settle in Hm0. rewrite Hb in Hm0.
  destruct (rb_err b); [injection Hm0 as <- <-; eauto|].
  revert Hm0 Hb. generalize (default {| current := None; accessed := false; persisted := false;
                                  destroyed := false |} (session_ c)) as st. intros st Hm0 Hb.
  assert (frames (do? (if accessed st && negb (persisted st) && negb (destroyed st)
                then hwrap "persist browser session: %w" (on_manager (Save R manager)) else hret tt) in
           do? (if accessed st then Header_Set "Cache-Control" "no-store" else hret tt) in
           hgets (fun c => match buffers c with b :: _ => b | [] => b end))) as Hf.
  { unfold Header_Set. repeat (apply frames_bind; [repeat apply frames_if; auto with frames|intros _]).
    auto with frames. }
  by eapply Hf.
Qed.
End FrameMiddleware.

(** The middleware of the framework, and any that is a program over the context. *)
Inductive contextual {St} (E : henv) : @Middleware St -> Prop :=
| mw_program `{SessionStore St} (p : program St unit) : contextual E (perform E p)
| mw_MethodOverride ps : contextual E (MethodOverride ps)
| mw_Recover : contextual E Recover
| mw_Logger : contextual E (Logger E)
| mw_NewTimeout d m : NewTimeout E d = Ok m -> contextual E m
| mw_RequestID n m : RequestID E n = Some m -> contextual E m
| mw_NewSecureHeaders cfg m : NewSecureHeaders cfg = Ok m -> contextual E m
| mw_NewCORS up cfg m : NewCORS up cfg = Ok m -> contextual E m
| mw_CSRF json_decode : contextual E (CSRF json_decode).

Lemma contextual_frames {St} (E : henv) (m : @Middleware St) : contextual E m -> frames_mw m.
Proof.
  intros []; [intros next; apply frames_perform|apply frames_MethodOverride|apply frames_Recover
    |apply frames_Logger|by eapply frames_NewTimeout|by eapply frames_RequestID
    |by eapply frames_NewSecureHeaders|by eapply frames_NewCORS|apply frames_CSRF].
Qed.

(** ** The session middleware *)

Section Sessions.
Context {St : Type} `{SessionStore St} (E : henv) (R : runtime) (manager : Manager).
Implicit Types c : Context St.

(** Loading a session reads the request and the store, never the response. *)
Lemma fresh_response (w : Session.world St) r w' :
  fresh R w = (r, w') -> w_response w' = w_response w.
Proof.
  unfold fresh, newID, manager_now, bindM, ret. intros Hm0.
  destruct (random_bytes R (w_tick w)); injection Hm0 as <- <-; done.
Qed.

Lemma delete_ignoring_response sid k f (w : Session.world St) r w' :
  (forall w r w', k w = (r, w') -> w_response w' = w_response w) ->
  delete_ignoring_missing sid k f w = (r, w') -> w_response w' = w_response w.
Proof.
  intros Hk Hm0. unfold delete_ignoring_missing, on_store in Hm0.
  destruct (store_Delete sid (w_store w)) as [[]]; [by apply Hk in Hm0|].
  case_match; [by apply Hk in Hm0|]. by injection Hm0 as <- <-.
Qed.

Lemma Load_response cookie (w : Session.world St) r w' :
  Load R manager cookie w = (r, w') -> w_response w' = w_response w.
Proof.
  intros Hm0. unfold Load in Hm0.
  destruct (bool_decide (_ = EmptyString)); [by apply fresh_response in Hm0|].
  unfold on_store in Hm0. destruct (store_Get _ (w_store w)) as [[enc|e] st].
  - destruct (unmarshal R enc) as [p|e]; [|by injection Hm0 as <- <-].
    unfold bindM, manager_now in Hm0. cbn in Hm0.
    repeat (case_match; [apply delete_ignoring_response in Hm0; [done|apply fresh_response]|]).
    by injection Hm0 as <- <-.
  - case_match; [by apply fresh_response in Hm0|]. by injection Hm0 as <- <-.
Qed.

Lemma set_top_header_same c : set_top_header (top_header c) c = c.
Proof.
  destruct c as [rq om rs bs vs ss fs re rn rp ri st tk lg]. unfold set_top_header, top_header. cbn.
  destruct bs as [|[hd bd mx er sc wh] bs]; [|done]. by destruct rs as [[] ? ?].
Qed.

(** Both writers of a context. *)
Definition writers c : statusWriter * list responseBuffer := (response c, buffers c).

Lemma on_manager_Load_writers cookie c o c' :
  on_manager (Load R manager cookie) c = (o, c') -> writers c' = writers c.
Proof.
  intros Hm0. unfold on_manager in Hm0. destruct (Load _ _ _ _) as [r w'] eqn:El.
  injection Hm0 as <- <-. apply Load_response in El. rewrite El. cbn.
  set (c1 := set_store (w_store w') (w_tick w') c).
  change (writers (set_top_header {| fields := fields (top_header c1);
    cookies := cookies (top_header c1) |} c1) = writers c1).
  replace {| fields := fields (top_header c1); cookies := cookies (top_header c1) |}
    with (top_header c1) by (by destruct (top_header c1)).
  by rewrite set_top_header_same.
Qed.

(** What the middleware saw when it settled: the state the handler left and what settling
    made of it. *)
Record settled (limit : Z) (c1 c2 : Context St) (b : responseBuffer) : Prop := {
  se_bounded : byte_len (rb_body b) <= limit;
  se_saved : forall s, session_ c1 = Some s -> accessed s = true -> persisted s = false ->
    destroyed s = false ->
    exists c', on_manager (Save R manager) c1 = (Done tt, c') /\ store_ c2 = store_ c' /\
      cookies (rb_header b) = cookies (top_header c');
  se_no_store : forall s, session_ c1 = Some s -> accessed s = true ->
    fields (rb_header b) !! "Cache-Control" = Some ["no-store"];
  se_untouched : forall s, session_ c1 = Some s -> accessed s = false ->
    store_ c2 = store_ c1 /\ rb_header b = top_header c1
}.

Lemma settle_settled limit c1 c2 b b1 rest :
  settle R manager c1 = (Done b, c2) -> buffers c1 = b1 :: rest -> maxBytes b1 = limit ->
  buffer_ok b1 -> settled limit c1 c2 b.
Proof.
  intros Hm0 Hb Hmax Hok.
  destruct (frames_settle R manager _ _ _ _ _ Hm0 Hb) as (b2 & Hb2 & _ & Hmax2 & Hok2).
  assert (b = b2) as ->.
  { unfold settle in Hm0. rewrite Hb in Hm0. destruct (rb_err b1); [done|].
    apply hbind_done in Hm0 as (? & ? & _ & Hm0). apply hbind_done in Hm0 as (? & ? & _ & Hm0).
    unfold hgets in Hm0. injection Hm0 as <- <-. by rewrite Hb2. }
  specialize (Hok2 Hok). unfold settle in Hm0. rewrite Hb in Hm0. destruct (rb_err b1); [done|].
  assert (byte_len (rb_body b2) <= limit) as Hbound by (unfold buffer_ok in Hok2; congruence).
  destruct (session_ c1) as [s|] eqn:Es; cbn [default] in Hm0.
  2:{ split; [done|..]; intros s Hs; by rewrite Es in Hs. }
  unfold from_option, Datatypes.id in Hm0.
  destruct (accessed s) eqn:Ea; cbn [andb] in Hm0.
  - assert (exists c0, (if negb (persisted s) && negb (destroyed s)
      then on_manager (Save R manager) c1 = (Done tt, c0) else c0 = c1) /\
      c2 = set_top_header (header_Set "Cache-Control" "no-store" (top_header c0)) c0 /\
      exists b0 rest0, buffers c0 = b0 :: rest0) as (c0 & Hsave & Hc2 & b0 & rest0 & Hb0).
    { destruct (negb (persisted s) && negb (destroyed s)); unfold hbind, hwrap in Hm0.
      - destruct (on_manager (Save R manager) c1) as [[[]|e|p] c0] eqn:Em; [|done..].
        exists c0. injection Hm0 as _ <-. split; [done|]. split; [done|].
        destruct (frames_on_manager _ _ _ _ _ _ Em Hb) as (b0 & Hb0 & _). eauto.
      - exists c1. injection Hm0 as _ <-. split; [done|]. split; [done|eauto]. }
    assert (rb_header b2 = header_Set "Cache-Control" "no-store" (top_header c0)) as Hh.
    { rewrite Hc2 in Hb2. unfold set_top_header in Hb2. rewrite Hb0 in Hb2. cbn in Hb2.
      by injection Hb2 as <-. }
    split; [done|..]; intros s' Hs'; rewrite Es in Hs'; injection Hs' as <-; intros Ha.
    + intros Hp Hd. rewrite Hp, Hd in Hsave. exists c0. split; [done|].
      rewrite Hc2, Hh. split; [|done]. unfold set_top_header. by rewrite Hb0.
    + rewrite Hh. cbn. apply lookup_insert_eq.
    + congruence.
  - cbn in Hm0. injection Hm0 as _ <-. rewrite Hb in Hb2. injection Hb2 as ->.
    split; [done|..]; intros s' Hs'; rewrite Es in Hs'; injection Hs' as <-; intros Ha; try congruence.
    split; [done|]. unfold top_header. by rewrite Hb.
Qed.
(** The context a handler behind the middleware starts in. *)
Definition entered (limit : Z) (loaded : Session) c : Context St :=
  let c := set_session (Some {| current := Some loaded; accessed := false; persisted := false;
                                destroyed := false |}) c in
  set_buffers (newResponseBuffer (top_header c) limit :: buffers c) c.

Lemma entered_buffer limit loaded c :
  0 < limit -> exists b, buffers (entered limit loaded c) = b :: buffers c /\
    maxBytes b = limit /\ buffer_ok b /\ response (entered limit loaded c) = response c.
Proof.
  intros Hl. eexists. split; [reflexivity|]. unfold buffer_ok, byte_len. cbn. split; [done|]. split; [|done]. lia.
Qed.

Lemma SessionsLimit_Some limit mw :
  SessionsLimit E R manager limit = Some mw -> 0 < limit /\ mw = sessions_middleware E R manager limit.
Proof. unfold SessionsLimit. destruct (Z.leb_spec limit 0); [done|]. by intros [= <-]. Qed.

Lemma middleware_stages limit next c o c' :
  0 < limit -> frames next -> sessions_middleware E R manager limit next c = (o, c') ->
  (writers c' = writers c /\ o <> Done tt) \/
  exists loaded c0 c1 c2 b,
    on_manager (Load R manager (ReqCookies (request c) !! Name (cookie manager))) c = (Done loaded, c0) /\
    next (entered limit loaded c0) = (Done tt, c1) /\ settle R manager c1 = (Done b, c2) /\
    settled limit c1 c2 b /\ writers (pop_buffer c2) = writers c /\
    hwrap "commit browser response: %w" (commit E b) (pop_buffer c2) = (o, c').
Proof.
  intros Hlim Hn Hm0. unfold sessions_middleware in Hm0.
  destruct (on_manager _ c) as [ol c0] eqn:El. pose proof (on_manager_Load_writers _ _ _ _ El) as Hw.
  destruct ol as [loaded|e|p]; [|injection Hm0 as <- <-; by left..].
  fold (entered limit loaded c0) in Hm0.
  destruct (entered_buffer limit loaded c0 Hlim) as (b0 & Hb0 & Hmax0 & Hok0 & Hr0).
  destruct (next (entered limit loaded c0)) as [on c1] eqn:En.
  destruct (Hn _ _ _ _ _ En Hb0) as (b1 & Hb1 & Hr1 & Hmax1 & Hok1).
  assert (writers (pop_buffer c1) = writers c) as Hpop1.
  { rewrite <- Hw. unfold writers, pop_buffer. cbn. rewrite Hb1, Hr1, Hr0. done. }
  destruct on as [[]|e|p]; [|injection Hm0 as <- <-; by left..].
  destruct (settle R manager c1) as [os c2] eqn:Es.
  destruct (frames_settle R manager _ _ _ _ _ Es Hb1) as (b2 & Hb2 & Hr2 & _).
  assert (writers (pop_buffer c2) = writers c) as Hpop2.
  { rewrite <- Hw. unfold writers, pop_buffer. cbn. rewrite Hb2, Hr2, Hr1, Hr0. done. }
  destruct os as [b|e|p]; [|injection Hm0 as <- <-; by left..].
  right. exists loaded, c0, c1, c2, b. split_and!; try done.
  eapply settle_settled; [exact Es|exact Hb1|congruence|auto].
Qed.
End Sessions.

(** C6. A buffered response waits for its session.  The handler behind the session
    middleware is any program over its context: it writes through [ctx.Response], reads
    forms, uses sessions, manager and store, returns errors or panics.  The original writer
    then changes only in the final commit, and the commit happens only after loading,
    handling, size check and persistence succeeded: if the handler used the session and did
    not persist or destroy it, [Save] has returned without error, the store is the one it
    left and its cookies are the committed ones; a used session makes the response
    [no-store]; an unused session leaves the store and the headers as the handler left
    them; the committed body is within the limit.  On every other path (a load, handler,
    buffer or save error, or a panic) the original writer and its headers are exactly as
    before. *)
Theorem response_waits_for_its_session {St} `{SessionStore St} (E : henv) (R : runtime)
    (manager : Manager) limit mw (p : program St unit) c o c' :
  SessionsLimit E R manager limit = Some mw -> mw (handler E p) c = (o, c') ->
  (writers c' = writers c /\ o <> Done tt) \/
  exists loaded c0 c1 c2 b,
    on_manager (Load R manager (ReqCookies (request c) !! Name (cookie manager))) c = (Done loaded, c0) /\
    handler E p (entered limit loaded c0) = (Done tt, c1) /\
    settled R manager limit c1 c2 b /\ writers (pop_buffer c2) = writers c /\
    hwrap "commit browser response: %w" (commit E b) (pop_buffer c2) = (o, c').
Proof.
  intros [Hl ->]%SessionsLimit_Some Hm0.
  destruct (middleware_stages _ _ _ _ _ _ _ _ Hl (frames_handler E p) Hm0) as [|Hr]; [by left|].
  right. destruct Hr as (loaded & c0 & c1 & c2 & b & ? & ? & _ & ? & ? & ?). eauto 10.
Qed.

(** A quiet server for the witnesses. *)
Module Demo.
Definition E : henv :=
  {| entropy := fun n => Ok (Sample.entropy n); request_ctx := fun _ => None;
     write_fault := fun _ => None |}.
Definition blank : serverWriter :=
  {| sv_header := {| fields := {["Server" := ["goforge"]]}; cookies := [] |};
     sv_final := None; sv_info := []; sv_body := EmptyString; sv_writes := 0 |}.
Definition get : Request :=
  {| Method := "GET"; UrlPath := "/"; ReqHeader := ∅; ReqCookies := ∅; Body := NoBody |}.
Definition empty_store : MemorySessions := {| rows := ∅; reads := 0 |}.
Definition start : Context MemorySessions := newContext get blank empty_store 0.
(** [web.Session(ctx)]; [ctx.Response.Write("hello")], its error ignored. *)
Definition greet_program : program MemorySessions unit :=
  Call c_Session (fun _ => Call (c_Write "hello") (fun _ => Return tt)).
Definition greet : H MemorySessions unit := handler E greet_program.
End Demo.

Lemma response_waits_for_its_session_witness :
  exists c', sessions_middleware Demo.E Sample.R Sample.manager 100 Demo.greet Demo.start = (Done tt, c') /\
    sv_body (sw (response c')) = "hello" /\
    exists c1 c2 b, settled Sample.R Sample.manager 100 c1 c2 b.
Proof.
  destruct (sessions_middleware Demo.E Sample.R Sample.manager 100 Demo.greet Demo.start)
    as [o c'] eqn:E0.
  destruct (response_waits_for_its_session Demo.E Sample.R Sample.manager 100 _ Demo.greet_program
    Demo.start o c' eq_refl E0) as [[Hw _]|(l & c0 & c1 & c2 & b & _ & _ & Hs & _)].
  - exfalso. vm_compute in E0. injection E0 as _ <-. vm_compute in Hw. discriminate Hw.
  - exists c'. vm_compute in E0. injection E0 as <- <-.
    split; [reflexivity|]. split; [vm_compute; reflexivity|]. exists c1, c2, b. exact Hs.
Defined.

(** ** Serving a request *)

Section Serve.
Context {St : Type} `{SessionStore St} (E : henv) (R : runtime) (manager : Manager) (X : mux)
  (payload : string -> option string -> result string).
Implicit Types c : Context St.

Lemma frames_serve_mux (rt : Router St) :
  Forall (fun r => frames (r_Handler r)) (routes rt) -> frames (serve_mux E X rt).
Proof.
  intros HF c o c' b rest Hm0 Hb. unfold serve_mux in Hm0. destruct (mux_serve X _ _) as [i|code hs text].
  - destruct (routes rt !! i) as [r|] eqn:Er; [|injection Hm0 as <- <-; eauto].
    rewrite Forall_lookup in HF. specialize (HF _ _ Er).
    destruct (r_Handler r _) as [o1 c1] eqn:Eh.
    destruct (HF _ _ _ _ _ Eh Hb) as (b1 & ?). destruct o1; injection Hm0 as <- <-; cbn; eauto.
  - assert (frames (do? @on_header St (fun h => fold_left (fun h kv => header_Set (fst kv) (snd kv) h) hs h) in
       do? WriteHeader code in fun c => match Write E text c with
                | (Failed _, c') | (Done _, c') =>
                    (match routeErr c' with Some e => Failed e | None => Done tt end, c')
                | r => r end)) as Hf; [|by eapply Hf].
    apply frames_bind; [auto with frames|intros _]. apply frames_bind; [auto with frames|intros _].
    intros c1 o1 c1' b1 rest1 H1 Hb1. destruct (Write E text c1) as [ow cw] eqn:Ew.
    destruct (frames_Write _ _ _ _ _ _ _ Ew Hb1) as (b2 & ?).
    destruct ow; injection H1 as <- <-; eauto.
Qed.

Lemma frames_compose ms h : Forall frames_mw ms -> frames h -> frames (@compose St ms h).
Proof. intros HF Hh. induction HF as [|m ms Hm HF IH]; [done|]. by apply Hm. Qed.

(** What a client may learn of an error. *)
Definition public_error (e : herr) : Z * string * option string :=
  match as_http e with
  | Some (s, m, d) => if (400 <=? s) && (s <=? 599) then (s, m, d)
                      else (500, "internal server error", None)
  | None => (500, "internal server error", None)
  end.

Lemma public_error_status e : 400 <= (public_error e).1.1 <= 599.
Proof.
  unfold public_error. destruct (as_http e) as [[[s m] d]|]; [|cbn; lia].
  case_match eqn:G; [|cbn; lia]. bool_to_prop. cbn. lia.
Qed.

(** What [DefaultErrorHandler] makes of an error on a response nothing was sent to: the
    status and the document, whose bytes may be lost with the connection; nothing at all
    if the details cannot be encoded. *)
Definition error_answer (e : herr) (before after : statusWriter) : Prop :=
  let '(code, m, d) := public_error e in
  match payload m d with
  | Err _ => after = before
  | Ok text =>
      sv_final (sw after) = Some (code,
        header_Set "Content-Type" "application/json; charset=utf-8" (sv_header (sw before))) /\
      sv_body (sw after) = sv_body (sw before) +:+
        match write_fault E (sv_writes (sw before)) with None => text | Some _ => EmptyString end
  end.

Lemma DefaultErrorHandler_writes e c :
  buffers c = [] -> wroteHeader (response c) = false -> sv_final (sw (response c)) = None ->
  exists c', DefaultErrorHandler E payload e c = (Done tt, c') /\
    error_answer e (response c) (response c') /\ store_ c' = store_ c.
Proof.
  intros Hb Hw Hf. unfold error_answer. pose proof (public_error_status e) as Hs.
  destruct (public_error e) as [[code m] d] eqn:Hp. cbn in Hs.
  assert (DefaultErrorHandler E payload e c =
    match JSON E code (payload m d) c with (Failed _, c') => (Done tt, c') | r => r end) as ->.
  { unfold DefaultErrorHandler, public_error in *. destruct (as_http e) as [[[s m0] d0]|].
    - destruct (Z.ltb_spec s 400), (Z.ltb_spec 599 s), (Z.leb_spec 400 s), (Z.leb_spec s 599);
        cbn in Hp |- *; try lia; by injection Hp as <- <- <-.
    - by injection Hp as <- <- <-. }
  destruct (payload m d) as [text|]; [|by exists c].
  unfold JSON, Header_Set, on_header, hmodify, hbind, set_top_header, top_header.
  rewrite Hb. unfold WriteHeader. cbn -[header_Set]. rewrite Hb.
  unfold status_WriteHeader, server_WriteHeader. cbn -[header_Set]. rewrite Hw, Hf.
  destruct (Z.ltb_spec code 100), (Z.ltb_spec 999 code), (Z.ltb_spec code 200); try lia.
  cbn -[header_Set]. rewrite !andb_false_r. cbn -[header_Set].
  unfold hwrap, Write. cbn -[header_Set]. rewrite Hb.
  unfold status_Write, server_Write. cbn -[header_Set].
  destruct (write_fault E (sv_writes (sw (response c)))); cbn -[header_Set];
    eexists; (split; [reflexivity|]); rewrite ?string_app_nil_r; done.
Qed.
End Serve.

(** The session middleware got as far as committing the response of [inner]. *)
Definition commits {St} `{SessionStore St} (R : runtime) (manager : Manager) (limit : Z)
    (inner : H St unit) (c : Context St) : Prop :=
  exists loaded c0 c1 b c2,
    on_manager (Load R manager (ReqCookies (request c) !! Name (cookie manager))) c = (Done loaded, c0) /\
    inner (entered limit loaded c0) = (Done tt, c1) /\ settle R manager c1 = (Done b, c2).

(** What the rest of the chain makes of the outcome of the session middleware. *)
Definition reported (o : outcome unit) : option herr :=
  match o with
  | Done _ | Panicked ErrAbortHandler => None
  | Failed e => Some e
  | Panicked (PanicValue _) => Some (NewHTTPError 500 "internal server error")
  end.

(** C32. A request that fails sends the error document and nothing else.  In a router whose
    outer middleware is [Recover] and the session middleware, with any inner middleware of
    the framework or of the application and any routes that are programs over the context,
    with [DefaultErrorHandler] and a response nothing was sent to: if the response of the
    inner chain is not committed, because the session did not load, the inner chain
    returned an error or panicked, the response grew over its limit, or the session was not
    saved, then [ServeHTTP] returns and the client receives the status, message and details
    of the [HTTPError] in the error (a plain 500 for any other error and for a panic), with
    the headers the server started with: no header, cookie or byte the inner chain
    produced.  An error of the inner chain is the one reported.  Only the document's bytes
    can be lost, by a failing connection; nothing is written if the error's details cannot
    be encoded; and a panic with [http.ErrAbortHandler] goes on to the server, again with
    nothing written. *)
Theorem failed_request_sends_only_the_error {St} `{SessionStore St} (E : henv) (R : runtime)
    (manager : Manager) (X : mux) payload (rt : Router St) limit sessions ms r w (st : St) t :
  SessionsLimit E R manager limit = Some sessions -> middleware rt = [Recover; sessions] ++ ms ->
  Forall (contextual E) ms ->
  Forall (fun route => exists p, r_Handler route = handler E p) (routes rt) ->
  errorHandler rt = DefaultErrorHandler E payload -> sv_final w = None ->
  let start := newContext r w st t in
  let inner := compose ms (serve_mux E X rt) in
  (commits R manager limit inner start -> False) ->
  exists o c1 o' c', sessions inner start = (o, c1) /\ ServeHTTP E X rt start = (o', c') /\
    (forall loaded c0 o1 c2,
       on_manager (Load R manager (ReqCookies r !! Name (cookie manager))) start = (Done loaded, c0) ->
       inner (entered limit loaded c0) = (o1, c2) -> o1 <> Done tt ->
       o = o1 /\ store_ c' = store_ c2) /\
    match reported o with
    | Some e => o' = Done tt /\ error_answer E payload e (response start) (response c')
    | None => o = Panicked ErrAbortHandler /\ o' = o /\ writers c' = writers start
    end.
Proof.
  intros [Hlim ->]%SessionsLimit_Some Hmw Hms Hroutes Heh Hfin start inner Hnot.
  assert (frames inner) as Hfr.
  { apply frames_compose; [eapply Forall_impl; [exact Hms|apply contextual_frames]|].
    apply frames_serve_mux. eapply Forall_impl; [exact Hroutes|]. cbn. intros rr [p ->].
    apply frames_handler. }
  destruct (sessions_middleware E R manager limit inner start) as [o c1] eqn:Hs.
  destruct (middleware_stages _ _ _ _ _ _ _ _ Hlim Hfr Hs) as [[Hw Ho]|Hc].
  2:{ exfalso. apply Hnot. destruct Hc as (loaded & c0 & c2 & c3 & b & ? & ? & ? & _).
      by exists loaded, c0, c2, b, c3. }
  assert (forall loaded c0 o1 c2,
       on_manager (Load R manager (ReqCookies r !! Name (cookie manager))) start = (Done loaded, c0) ->
       inner (entered limit loaded c0) = (o1, c2) -> o1 <> Done tt ->
       o = o1 /\ store_ c1 = store_ c2) as Hpass.
  { intros loaded c0 o1 c2 Hl Hi Hne. unfold sessions_middleware in Hs.
    change (ReqCookies (request start)) with (ReqCookies r) in Hs. rewrite Hl in Hs.
    fold (entered limit loaded c0) in Hs. rewrite Hi in Hs.
    destruct o1 as [[]|e|p]; [done|by injection Hs as <- <-..]. }
  exists o, c1. unfold ServeHTTP. rewrite Hmw.
  change (compose ([Recover; sessions_middleware E R manager limit] ++ ms) (serve_mux E X rt) start)
    with (Recover (sessions_middleware E R manager limit inner) start).
  unfold Recover. rewrite Hs.
  assert (forall e c2, writers c2 = writers start -> store_ c2 = store_ c1 -> exists c',
      (if wroteHeader (response c2) then (Done tt, c2) else errorHandler rt e c2) = (Done tt, c') /\
      store_ c' = store_ c1 /\ error_answer E payload e (response start) (response c')) as Hanswer.
  { intros e c2 Hw2 Hst2. injection Hw2 as Hresp Hbuf.
    destruct (DefaultErrorHandler_writes E payload e c2) as (c' & Hc' & Hans & Hst);
      [done|by rewrite Hresp..|].
    exists c'. rewrite Heh, Hresp. cbn [wroteHeader newContext response start].
    rewrite <- Hresp. split_and!; try done. congruence. }
  destruct o as [[]|e|[|what]]; [done| | |].
  - destruct (Hanswer e c1 Hw eq_refl) as (c' & Hr & Hst & Ha).
    exists (Done tt), c'. split_and!; try done. intros * Hl Hi Hne.
    destruct (Hpass _ _ _ _ Hl Hi Hne) as [? ?]. split; congruence.
  - exists (Panicked ErrAbortHandler), c1. split_and!; try done.
  - destruct (Hanswer (NewHTTPError 500 "internal server error")
      (add_log (500, "request panic recovered") c1) Hw eq_refl) as (c' & Hr & Hst & Ha).
    exists (Done tt), c'. split_and!; try done. intros * Hl Hi Hne.
    destruct (Hpass _ _ _ _ Hl Hi Hne) as [? ?]. split; congruence.
Qed.

(** A handler that leaves half a page and a debugging header behind, then fails. *)
Definition leaky : program MemorySessions unit :=
  Call c_Session (fun _ => Call (c_header (header_Set "X-Debug" "secret")) (fun _ =>
  Call (c_Write "half a page") (fun _ =>
  Fail (Wrapped "query users: %w" (Plain (Errorf "password=hunter2")))))).
Definition one_route : mux :=
  {| mux_accepts := fun _ _ => true; mux_serve := fun _ _ => MuxRoute 0 |}.
Definition demo_payload (m : string) (d : option string) : result string := Ok m.
Definition demo_router : Router MemorySessions :=
  {| middleware := [Recover; sessions_middleware Demo.E Sample.R Sample.manager 100];
     routes := [{| r_Method := "GET"; r_Path := "/"; r_Name := "home"; r_Handler := handler Demo.E leaky |}];
     named := ∅; errorHandler := DefaultErrorHandler Demo.E demo_payload |}.

Lemma failed_request_sends_only_the_error_witness :
  exists c', ServeHTTP Demo.E one_route demo_router Demo.start = (Done tt, c') /\
    sv_body (sw (response c')) = "internal server error".
Proof.
  destruct (failed_request_sends_only_the_error Demo.E Sample.R Sample.manager one_route demo_payload
    demo_router 100 (sessions_middleware Demo.E Sample.R Sample.manager 100) [] Demo.get Demo.blank Demo.empty_store 0)
    as (o & c1 & o' & c' & Hs & Hsv & _ & Hr);
    [reflexivity|reflexivity|constructor|repeat constructor; by exists leaky|reflexivity|reflexivity| |].
  - intros (loaded & c0 & c1 & b & c2 & Hl & Hi & _). vm_compute in Hl. injection Hl as <- <-.
    vm_compute in Hi. discriminate Hi.
  - vm_compute in Hs. injection Hs as <- _. cbn [reported] in Hr. destruct Hr as [-> [_ Hb]].
    exists c'. split; [exact Hsv|exact Hb].
Defined.

(** ** The CSRF gate *)

(** Where a request may carry its token: one non-empty header value, or, without one, the
    single [_token] field of a URL-encoded body of at most one mebibyte. *)
Inductive carries_token {St} (c : Context St) (token : string) : Prop :=
| in_header : req_Values CSRFHeader (request c) = [token] -> carries_token c token
| in_body f : default EmptyString (head (req_Values CSRFHeader (request c))) = EmptyString ->
    fst (Form c) = Done f -> Form_Values f CSRFField = [token] -> carries_token c token.

Section Gate.
Context {St : Type} (json_decode : string -> result string).
Implicit Types c : Context St.

(** What the check for a token leaves alone. *)
Definition same_but_form (c c' : Context St) : Prop :=
  store_ c' = store_ c /\ writers c' = writers c /\ session_ c' = session_ c.

Lemma FormLimit_keeps l c o c' : FormLimit l c = (o, c') -> same_but_form c c'.
Proof.
  intros Hm0. unfold FormLimit, form_result in Hm0. by repeat case_match; injection Hm0 as <- <-.
Qed.

Lemma Form_set_session s c : fst (Form (set_session s c)) = fst (Form c).
Proof. unfold Form, FormLimit, form_result. by repeat (case_match; cbn in *; simplify_eq). Qed.

Lemma Form_Value_inr f n v : Form_Value f n = inr v -> v = EmptyString \/ Form_Values f n = [v].
Proof.
  unfold Form_Value, Form_Values. case_match eqn:G; [done|]. intros [= <-]. bool_to_prop.
  destruct (default [] (f !! n)) as [|x [|y l]]; cbn in *; [by left|by right|lia].
Qed.

(** The token, when the header gives none. *)
Lemma body_token_spec c o c' :
  default EmptyString (head (req_Values CSRFHeader (request c))) = EmptyString ->
  (if negb (isURLForm (req_Get "Content-Type" (request c))) then hret EmptyString
   else let? f := Form in form_Value f CSRFField) c = (o, c') ->
  same_but_form c c' /\ match o with
    | Done t => t <> EmptyString -> carries_token c t | Failed _ => True | Panicked _ => False end.
Proof.
  intros Hv. destruct (negb _); [by intros [= <- <-]|]. unfold hbind.
  destruct (Form c) as [fo cf] eqn:Ef. pose proof (FormLimit_keeps _ _ _ _ Ef) as Hk.
  destruct fo as [f|e|p]; [|by intros [= <- <-]|].
  2:{ exfalso. revert Ef. unfold Form, FormLimit, form_result. by repeat case_match. }
  unfold form_Value. destruct (Form_Value f CSRFField) as [e|t] eqn:Et; intros [= <- <-]; split; try done.
  intros Ht. destruct (Form_Value_inr _ _ _ Et) as [-> | Hf]; [done|].
  eapply in_body; [done|by rewrite Ef|done].
Qed.

Lemma submitted_spec c o c' :
  submittedCSRFToken c = (o, c') ->
  same_but_form c c' /\ match o with
    | Done t => t <> EmptyString -> carries_token c t | Failed _ => True | Panicked _ => False end.
Proof.
  intros Hm0. unfold submittedCSRFToken, hgets in Hm0. unfold hbind at 1 in Hm0.
  destruct (req_Values CSRFHeader (request c)) as [|v [|? ?]] eqn:Hv.
  3:{ by injection Hm0 as <- <-. }
  - apply body_token_spec; [by rewrite Hv|exact Hm0].
  - cbn [head] in Hm0. unfold default, Datatypes.id in Hm0. case_bool_decide as Hnil; cbn [negb] in Hm0.
    + apply body_token_spec; [by rewrite Hv|exact Hm0].
    + injection Hm0 as <- <-. split; [done|]. intros _. by apply in_header.
Qed.

(** What the middleware does with the token it was given. *)
Definition verdict (cur : option Session) (next : H St unit) (t : string) : H St unit :=
  match Csrf.Validate json_decode cur t with
  | Some e => if errors_Is e Csrf.ErrInvalidToken then hfail (NewHTTPError 403 "invalid CSRF token")
              else hfail (Wrapped "validate CSRF token: %w" (Plain e))
  | None => next
  end.

Lemma CSRF_run c :
  csrfSafeMethod (Method (request c)) = false -> forall next,
  CSRF json_decode next c = match session_ c with
    | None => (Failed (Plain (Errorf "web: CSRF middleware requires session middleware")), c)
    | Some ss => hbind submittedCSRFToken (verdict (current ss) next) (set_session (Some (mark_accessed ss)) c)
    end.
Proof.
  intros Hm next. unfold CSRF, hgets. unfold hbind at 1. rewrite Hm. unfold hbind at 1, WebSession at 1.
  by destruct (session_ c).
Qed.

Lemma Validate_accepts cur t :
  Csrf.Validate json_decode cur t = None ->
  exists s, cur = Some s /\ t <> EmptyString /\
    Session_Get json_decode Csrf.sessionKey s = (true, Ok (Some t)) /\ is_Some (Csrf.decode t).
Proof.
  destruct cur as [s|]; [|done]. intros Hv. apply Validate_spec in Hv as [Hg Hd]. exists s.
  split_and!; try done. intros ->. by destruct Hd.
Qed.
End Gate.

(** C7. The CSRF middleware is a gate.  A request with a safe method goes to the handler
    unchanged.  With any other method, either the session of the request holds exactly the
    token that the request carries, in one header value or one body field and never in the
    query, and the handler runs on the request with its session marked as used; or the
    middleware returns an error that does not depend on the handler at all: the handler has
    not run, and the session, the store and the response are as before. *)
Theorem csrf_middleware_is_a_gate {St} (json_decode : string -> result string)
    (next : H St unit) c o c' :
  CSRF json_decode next c = (o, c') ->
  if csrfSafeMethod (Method (request c)) then next c = (o, c')
  else
    (exists ss s token c1, session_ c = Some ss /\ current ss = Some s /\ carries_token c token /\
       Session_Get json_decode Csrf.sessionKey s = (true, Ok (Some token)) /\
       is_Some (Csrf.decode token) /\ next c1 = (o, c') /\
       same_but_form (set_session (Some (mark_accessed ss)) c) c1) \/
    (exists e, o = Failed e /\ (forall next', CSRF json_decode next' c = (o, c')) /\
       store_ c' = store_ c /\ writers c' = writers c /\
       (session_ c' ≫= current) = (session_ c ≫= current)).
Proof.
  destruct (csrfSafeMethod (Method (request c))) eqn:Hsafe.
  { unfold CSRF, hgets. unfold hbind at 1. by rewrite Hsafe. }
  intros Hrun. pose proof (CSRF_run json_decode c Hsafe) as Heq. rewrite Heq in Hrun.
  destruct (session_ c) as [ss|] eqn:Hss.
  2:{ right. injection Hrun as <- <-. eexists. split; [done|]. split; [exact Heq|]. by rewrite Hss. }
  set (c0 := set_session (Some (mark_accessed ss)) c) in *.
  unfold hbind in Hrun, Heq. destruct (submittedCSRFToken c0) as [ot c1] eqn:Et.
  destruct (submitted_spec _ _ _ Et) as [Hk Hcarry].
  assert (forall e, (o, c') = (Failed e, c1) -> (forall next', CSRF json_decode next' c = (o, c')) ->
    exists e, o = Failed e /\ (forall next', CSRF json_decode next' c = (o, c')) /\
       store_ c' = store_ c /\ writers c' = writers c /\ (session_ c' ≫= current) = current ss) as Href.
  { intros e [= -> ->] Hall. destruct Hk as (? & ? & Hse). exists e. by rewrite Hse. }
  destruct ot as [t|e|p]; [|right; apply (Href e); [done|]; intros; by rewrite Heq|done].
  unfold verdict in Hrun, Heq. destruct (Csrf.Validate json_decode (current ss) t) as [e|] eqn:Hv.
  - right. destruct (errors_Is e Csrf.ErrInvalidToken);
      (eapply Href; [symmetry; exact Hrun|]; intros; rewrite Heq; exact Hrun).
  - left. destruct (Validate_accepts _ _ _ Hv) as (s & Hs & Hne & Hg & Hd).
    exists ss, s, t, c1. split_and!; try done.
    destruct (Hcarry Hne) as [Hh|f Hh Hf Hfv]; [by apply in_header|].
    unfold c0 in Hf. rewrite Form_set_session in Hf. by eapply in_body.
Qed.

Module Csrfed.
Definition token : string := b64Encode URLAlphabet "thirty-two bytes from the reader".
Definition session : Session :=
  {| Session.id := "s"; persistedID := "s"; values := {[Csrf.sessionKey := token]}; oldFlash := ∅; newFlash := ∅;
     issuedAt := 0; createOnMissingRotation := false |}.
Definition post (text : string) : Context MemorySessions :=
  set_session (Some {| current := Some session; accessed := false; persisted := false; destroyed := false |})
    (newContext {| Method := "POST"; UrlPath := "/"; ReqHeader := {["Content-Type" := ["application/x-www-form-urlencoded"]]};
       ReqCookies := ∅; Body := Data text |} Demo.blank Demo.empty_store 0).
End Csrfed.

Lemma csrf_middleware_is_a_gate_witness :
  (exists c', CSRF Ok Demo.greet (Csrfed.post ("_token=" +:+ Csrfed.token)) = (Done tt, c') /\
     exists t, carries_token (Csrfed.post ("_token=" +:+ Csrfed.token)) t /\
       Session_Get Ok Csrf.sessionKey Csrfed.session = (true, Ok (Some t))) /\
  (exists e c', CSRF Ok Demo.greet (Csrfed.post "_token=forged") = (Failed e, c')).
Proof.
  split.
  - destruct (CSRF Ok Demo.greet (Csrfed.post ("_token=" +:+ Csrfed.token))) as [o c'] eqn:E0.
    pose proof (csrf_middleware_is_a_gate Ok Demo.greet _ _ _ E0) as [Hl|(e & Hf & _)].
    + destruct Hl as (ss & s & t & c1 & Hss & Hs & Hc & Hg & _). injection Hss as <-. injection Hs as <-.
      exists c'. vm_compute in E0. injection E0 as <- <-. split; [reflexivity|]. by exists t.
    + exfalso. vm_compute in E0. injection E0 as <- _. discriminate Hf.
  - eexists _, _. vm_compute. reflexivity.
Defined.
