(* ===== verification/LinkProps.v ===== *)
(** Links: what [web.Redirect] puts in the [Location] header, and the addresses that
    [Router.URL] builds from named routes. *)

From S2P Require Import Prelude GoStrings GoRegexp GoEncoding GoUrl Session Security SecurityProps Http Web.
Local Open Scope go_scope.
Local Open Scope Z_scope.

(** ** Pieces of a path *)

Definition not_char (x c : ascii) : bool := negb (bool_decide (c = x)).

Lemma Split_Forall p s sep : all_chars p s = true -> Forall (fun x => all_chars p x = true) (Split s sep).
Proof.
  induction s as [|c s IH]; cbn; [repeat constructor|]. intros [Hc Hs]%andb_true_iff.
  specialize (IH Hs). case_bool_decide; [by constructor|].
  destruct (Split s sep) as [|q r]; [by repeat constructor; cbn; rewrite Hc|].
  inversion IH; subst. constructor; [cbn; by rewrite Hc|done].
Qed.

Lemma Split_no_sep s sep : Forall (fun x => all_chars (not_char sep) x = true) (Split s sep).
Proof.
  induction s as [|c s IH]; cbn; [repeat constructor|].
  case_bool_decide as Hc; [by constructor|]. destruct (Split s sep) as [|q r].
  - repeat constructor. cbn. unfold not_char. by rewrite bool_decide_eq_false_2.
  - inversion IH; subst. constructor; [|done]. cbn. unfold not_char at 1. by rewrite bool_decide_eq_false_2.
Qed.

Lemma Join_Split s sep : Join (Split s sep) (String sep EmptyString) = s.
Proof.
  induction s as [|c s IH]; [done|]. cbn [Split]. pose proof (Split_nonempty s sep) as Hne.
  case_bool_decide as Hc.
  - subst. destruct (Split s sep) as [|q r] eqn:E; [done|]. cbn [Join] in *. rewrite IH. done.
  - destruct (Split s sep) as [|q r] eqn:E; [done|]. destruct r; cbn [Join] in *; [by subst q|].
    rewrite string_app_cons. by rewrite IH.
Qed.

Lemma clean_segments_Forall (Q : string -> Prop) segs acc :
  Forall Q segs -> Forall Q acc -> Forall Q (clean_segments segs acc).
Proof.
  intros Hs. revert acc; induction Hs as [|s segs Hq Hs IH]; intros acc Ha; cbn [clean_segments];
    [by apply Forall_rev|].
  repeat case_match; apply IH; [done|by destruct Ha|by constructor].
Qed.

(** The second character of a location decides whether a browser stays on the site. *)
Definition second (p : ascii -> bool) (s : string) : bool :=
  match s with
  | String "/" EmptyString => true
  | String "/" (String c _) => p c
  | _ => false
  end.

Lemma second_clean p path :
  all_chars p path = true ->
  second (fun c => p c && not_char "/" c)
    (if HasSuffix path "/" && negb (HasSuffix (path_Clean path) "/") then path_Clean path +:+ "/"
     else path_Clean path) = true.
Proof.
  intros Hp. unfold path_Clean.
  pose proof (clean_segments_ok (Split path "/"%char) [] (Forall_nil_2 _)) as Hok.
  pose proof (clean_segments_Forall _ _ [] (Split_Forall p path "/" Hp) (Forall_nil_2 _)) as Hall.
  pose proof (clean_segments_Forall _ _ [] (Split_no_sep path "/") (Forall_nil_2 _)) as Hns.
  destruct (clean_segments (Split path "/"%char) []) as [|s segs].
  { cbn [Join]. change (HasSuffix ("/" +:+ EmptyString) "/") with true. by rewrite andb_false_r. }
  inversion_clear Hok as [|? ? [Hne _] _]. inversion_clear Hall as [|? ? Hs _]. inversion_clear Hns as [|? ? Hn _].
  destruct s as [|c s]; [done|]. cbn in Hs, Hn. apply andb_true_iff in Hs as [Hs _], Hn as [Hn _].
  assert (exists t, Join (String c s :: segs) "/" = String c t) as [t ->].
  { destruct segs; [by eexists|]. cbn [Join]. rewrite string_app_cons. by eexists. }
  by case_match; rewrite !string_app_cons, ?string_app_nil_l, ?string_app_cons; cbn; rewrite Hs, Hn.
Qed.

Lemma second_weaken (p q : ascii -> bool) s :
  (forall c, p c = true -> q c = true) -> second p s = true -> second q s = true.
Proof.
  intros Hpq. destruct s as [|x s]; [done|]. intros Hs.
  assert (x = "/"%char) as -> by (revert Hs; clear; cbn; destruct x as [[] [] [] [] [] [] [] []]; done).
  destruct s as [|y s]; [done|]. by apply Hpq.
Qed.

Lemma second_app p a q : second p a = true -> p "?"%char = true -> second p (a +:+ String "?" q) = true.
Proof.
  destruct a as [|x [|y a]]; [done|by destruct x as [[] [] [] [] [] [] [] []]|].
  intros Hs _. rewrite !string_app_cons. exact Hs.
Qed.

Lemma second_escape p s : second p s = true -> p "%"%char = true -> second p (hexEscapeNonASCII s) = true.
Proof.
  destruct s as [|x s]; [done|]. intros Hs Hp.
  assert (x = "/"%char) as -> by (revert Hs; clear; cbn; destruct x as [[] [] [] [] [] [] [] []]; done).
  destruct s as [|y s]; [done|]. cbn in Hs |- *. by destruct (rng 128 255 y).
Qed.

Lemma Cut_chars p s sep a b f : Cut s sep = (a, b, f) -> all_chars p s = true -> all_chars p a = true.
Proof.
  revert a b f; induction s as [|c s IH]; intros a b f; cbn; [by intros [= <- _ _]|].
  case_bool_decide; [by intros [= <- _ _]|]. destruct (Cut s sep) as [[a' b'] f']. intros [= <- _ _].
  intros [Hc Hs]%andb_true_iff. cbn. by rewrite Hc, (IH _ _ _ eq_refl Hs).
Qed.

Lemma second_redirect p location :
  local_location location = true -> all_chars p location = true -> p "?"%char = true -> p "%"%char = true ->
  second (fun c => p c && not_char "/" c) (redirect_target location) = true.
Proof.
  intros Hl Ha Hq Hp. unfold redirect_target. apply second_escape; [|cbn; by rewrite Hp].
  destruct (parses_as_path location).
  - destruct (Cut location "?"%char) as [[path q] found] eqn:Hc.
    assert (all_chars p path = true) as Hpath by (by eapply Cut_chars).
    destruct found; [apply second_app; [|cbn; by rewrite Hq]|]; by apply second_clean.
  - unfold local_location in Hl. rewrite !andb_true_iff in Hl. destruct Hl as [[[Hl Hss] _] _].
    destruct location as [|x [|y l]]; [done|by destruct x as [[] [] [] [] [] [] [] []]|].
    cbn in Ha. apply andb_true_iff in Ha as [_ Ha]. apply andb_true_iff in Ha as [Ha _].
    assert (x = "/"%char) as -> by (revert Hl; clear; cbn; destruct x as [[] [] [] [] [] [] [] []]; done).
    cbn. rewrite Ha. unfold not_char. case_bool_decide; [|done]. subst y. by destruct l; vm_compute in Hss.
Qed.

(** ** Redirects *)

Section Redirects.
Context {St : Type} (E : henv).
Implicit Types c : Context St.

Lemma top_header_set h c : top_header (set_top_header h c) = h.
Proof. unfold top_header, set_top_header. by destruct (buffers c) eqn:Hb; cbn; rewrite ?Hb. Qed.

Lemma status_WriteHeader_header code w w' :
  status_WriteHeader code w = Some w' -> sv_header (sw w') = sv_header (sw w).
Proof. unfold status_WriteHeader, server_WriteHeader. by repeat case_match; intros; simplify_eq. Qed.

Lemma top_header_WriteHeader code c o c' : WriteHeader code c = (o, c') -> top_header c' = top_header c.
Proof.
  unfold WriteHeader. destruct (buffers c) as [|b rest] eqn:Hb.
  - destruct (status_WriteHeader code (response c)) as [w|] eqn:Hw; intros [= <- <-]; [|done].
    unfold top_header. cbn. rewrite Hb. by eapply status_WriteHeader_header.
  - intros [= <- <-]. unfold top_header, buffer_WriteHeader. cbn. rewrite Hb. by destruct (rb_wroteHeader b).
Qed.

Lemma top_header_Write data c o c' : Write E data c = (o, c') -> top_header c' = top_header c.
Proof.
  unfold Write. destruct (buffers c) as [|b rest] eqn:Hb.
  - unfold status_Write.
    destruct (if wroteHeader (response c) then _ else _) as [w|] eqn:Hw; [|by intros [= <- <-]].
    assert (sv_header (sw w) = sv_header (sw (response c))) as Hh.
    { destruct (wroteHeader (response c)); [by simplify_eq|by eapply status_WriteHeader_header]. }
    unfold server_Write, top_header. destruct (write_fault E _); intros [= <- <-]; cbn; by rewrite Hb.
  - destruct (buffer_Write data b) as [e b'] eqn:Eb. intros [= <- <-]. unfold top_header. cbn. rewrite Hb.
    revert Eb. unfold buffer_Write, buffer_WriteHeader. by repeat case_match; intros [= <- <-].
Qed.

Lemma WriteHeader_done code c : 100 <= code <= 999 -> fst (WriteHeader code c) = Done tt.
Proof.
  intros Hc. unfold WriteHeader, status_WriteHeader, server_WriteHeader.
  destruct (buffers c); [|done]. destruct (wroteHeader (response c)); [done|].
  destruct (code <? 100) eqn:G1; [bool_to_prop; lia|]. destruct (999 <? code) eqn:G2; [bool_to_prop; lia|]. cbn.
  by repeat case_match; simplify_eq.
Qed.

Lemma Write_no_panic data c p : fst (Write E data c) <> Panicked p.
Proof.
  unfold Write, status_Write, status_WriteHeader, server_WriteHeader, server_Write.
  destruct (buffers c); [|by destruct (buffer_Write _ _) as [[] ?]].
  destruct (wroteHeader (response c)); [by destruct (write_fault E _)|]. cbn.
  destruct (sv_final (sw (response c))); cbn; by destruct (write_fault E _).
Qed.

Lemma http_Redirect_location page code location c o c' :
  http_Redirect E page code location c = (o, c') -> 100 <= code <= 999 ->
  o = Done tt /\ fields (top_header c') !! "Location" = Some [redirect_target location].
Proof.
  unfold http_Redirect. set (t := redirect_target location). unfold hbind at 1, Header_Set at 1, on_header, hmodify.
  set (c0 := set_top_header _ c). intros Hrun Hcode. revert Hrun.
  assert (fields (top_header c0) !! "Location" = Some [t]) as H0.
  { unfold c0. rewrite top_header_set. cbn. by rewrite lookup_insert_eq. }
  clearbody c0. match goal with |- context [if ?b && (?x || ?y) then _ else _] => set (b1 := b && (x || y)) end.
  set (b2 := negb _ && _). clearbody b1 b2. unfold hbind at 1.
  match goal with |- context [(if b1 then ?x else ?y) c0] => destruct ((if b1 then x else y) c0) as [o1 c1] eqn:Hm end.
  assert (o1 = Done tt /\ fields (top_header c1) !! "Location" = Some [t]) as (-> & H1).
  { destruct b1; injection Hm as <- <-; [|done]. split; [done|]. rewrite top_header_set. cbn. by rewrite lookup_insert_ne. }
  unfold hbind at 1. pose proof (WriteHeader_done code c1 Hcode) as Hd.
  destruct (WriteHeader code c1) as [ow c2] eqn:Hw. pose proof (top_header_WriteHeader _ _ _ _ Hw) as H2.
  cbn in Hd. subst ow. destruct b2; [|intros [= <- <-]; by rewrite H2].
  pose proof (Write_no_panic (page t code) c2) as Hp.
  destruct (Write E (page t code) c2) as [o3 c3] eqn:Hw3. pose proof (top_header_Write _ _ _ _ Hw3) as H3.
  destruct o3 as [[]|e|p]; [| |by destruct (Hp p)]; intros [= <- <-]; by rewrite H3, H2.
Qed.
End Redirects.

(** C38. A redirect answers with the browser's next request to this site.  [web.Redirect]
    refuses, without touching the response, every location that is not an absolute path with
    valid escapes; otherwise it answers with a [Location] that starts with exactly one slash,
    so the location is never a scheme-relative one, and when the location has no backslash,
    no backslash follows that slash.  The last line is a limit of the check: it looks at the
    location before [http.Redirect] cleans it, so [/x/../\evil.com] passes and goes out as
    [/\evil.com], which browsers read as [//evil.com]. *)
Theorem redirect_stays_on_the_site {St} (E : henv) (page : string -> Z -> string) location (c : Context St) o c' :
  Redirect E page location c = (o, c') ->
  (if local_location location then
     o = Done tt /\ exists target, fields (top_header c') !! "Location" = Some [target] /\
       second (not_char "/") target = true /\
       (all_chars (not_char "\") location = true -> second (not_char "\") target = true)
   else (exists e, o = Failed e) /\ c' = c) /\
  local_location "/x/../\evil.com" = true /\ redirect_target "/x/../\evil.com" = "/\evil.com".
Proof.
  intros Hr. split; [|by vm_compute]. unfold Redirect in Hr.
  destruct (local_location location) eqn:Hl; [|injection Hr as <- <-; eauto].
  destruct (http_Redirect_location _ _ _ _ _ _ _ Hr ltac:(lia)) as [-> Hloc]. split; [done|].
  exists (redirect_target location). split; [done|]. split.
  - eapply second_weaken; [|apply (second_redirect (fun _ => true)); [done| |done..]].
    + intros x Hx. exact Hx.
    + clear. induction location; [done|]. by cbn.
  - intros Ha. eapply second_weaken; [|by apply (second_redirect (not_char "\"))].
    intros x [Hx _]%andb_true_iff. done.
Qed.

Definition plain_env : henv :=
  {| entropy := fun _ => Ok "entropy"; request_ctx := fun _ => None; write_fault := fun _ => None |}.
Definition fresh_context (method : string) : Context unit :=
  newContext {| Method := method; UrlPath := "/"; ReqHeader := ∅; ReqCookies := ∅; Body := NoBody |}
    {| sv_header := {| fields := ∅; cookies := [] |}; sv_final := None; sv_info := []; sv_body := EmptyString;
       sv_writes := 0 |} tt 0.

Lemma redirect_stays_on_the_site_witness :
  exists c', Redirect plain_env (fun t _ => t) "/users//7/../8?tab=mail" (fresh_context "POST") = (Done tt, c') /\
    fields (top_header c') !! "Location" = Some ["/users/8?tab=mail"] /\
    exists target, fields (top_header c') !! "Location" = Some [target] /\ second (not_char "/") target = true.
Proof.
  destruct (Redirect plain_env (fun t _ => t) "/users//7/../8?tab=mail" (fresh_context "POST")) as [o c'] eqn:E0.
  destruct (redirect_stays_on_the_site _ _ _ _ _ _ E0) as [(Ho & t & Ht & Hs & _) _]. subst o.
  exists c'. split; [reflexivity|]. split; [vm_compute in E0; injection E0 as <-; reflexivity|].
  exists t. by split.
Defined.

(** ** Addresses of named routes *)

(** A route's pattern, read as its segments: literals, one-segment parameters, and at the end
    possibly a parameter for the rest of the path. *)
Inductive segment : Type := Lit (s : string) | Par (n : string).
Record template : Type := { segments : list segment; rest_of : option string }.

Definition render_segment (x : segment) : string :=
  match x with Lit s => s | Par n => String "{" (n +:+ "}") end.
Fixpoint slashes (ps : list string) : string :=
  match ps with [] => EmptyString | p :: ps => String "/" (p +:+ slashes ps) end.
Definition render_rest (r : option string) : list string :=
  match r with Some n => [String "{" (n +:+ "...}")] | None => [] end.
Definition pattern (t : template) : string :=
  slashes (map render_segment (segments t) ++ render_rest (rest_of t)).

Definition ident (n : string) : bool :=
  match n with String c _ => identStartC c && all_chars identC n | EmptyString => false end.
Definition segment_ok (x : segment) : bool :=
  match x with Lit s => all_chars (fun c => not_char "/" c && not_char "{" c) s | Par n => ident n end.
Definition template_ok (t : template) : bool :=
  forallb segment_ok (segments t) && match rest_of t with Some n => ident n | None => true end.

Definition parameter (x : segment) : list string := match x with Par n => [n] | Lit _ => [] end.
Definition parameter_names (t : template) : list string :=
  concat (map parameter (segments t)) ++ match rest_of t with Some n => [n] | None => [] end.

(** Reading a request path against the template, as a server does: a literal has to be equal,
    a parameter is the unescaped segment, and the last one takes what is left. *)
Fixpoint read_segments (xs : list segment) (pieces : list string)
    : option (list (string * string) * list string) :=
  match xs, pieces with
  | [], _ => Some ([], pieces)
  | Lit s :: xs, p :: ps => if bool_decide (p = s) then read_segments xs ps else None
  | Par n :: xs, p :: ps =>
      v ← PathUnescape p; r ← read_segments xs ps; Some ((n, v) :: fst r, snd r)
  | _, [] => None
  end.
Definition read_path (t : template) (path : string) : option (list (string * string)) :=
  match Split path "/"%char with
  | EmptyString :: pieces =>
      r ← read_segments (segments t) pieces;
      match rest_of t, snd r with
      | None, [] => Some (fst r)
      | Some n, (_ :: _) as ps => vs ← mapM PathUnescape ps; Some (fst r ++ [(n, Join vs "/")])
      | _, _ => None
      end
  | _ => None
  end.

Lemma slashes_app a b : slashes (a ++ b) = slashes a +:+ slashes b.
Proof. induction a as [|p a IH]; [done|]. cbn. by rewrite IH, string_app_cons, <- string_app_assoc. Qed.

Lemma Split_slashes ps :
  Forall (fun p => all_chars (not_char "/") p = true) ps -> Split (slashes ps) "/" = EmptyString :: ps.
Proof.
  intros Hps. assert (forall p, all_chars (not_char "/") p = true -> Split (p +:+ slashes ps) "/" = p :: ps) as Hgen.
  { induction Hps as [|q ps Hq _ IH]; intros p Hp; cbn [slashes]; [rewrite string_app_nil_r; by apply Split_none|].
    rewrite Split_app by done. by rewrite (IH q Hq). }
  apply (Hgen EmptyString). done.
Qed.

Lemma slashes_Join l : l <> [] -> String "/" (Join l "/") = slashes l.
Proof.
  induction l as [|p [|q l] IH]; [done|intros _; cbn; by rewrite string_app_nil_r|intros _].
  cbn [slashes]. f_equal. change (Join (p :: q :: l) "/") with (p +:+ String "/" (Join (q :: l) "/")).
  by rewrite IH.
Qed.

Lemma mapM_unescape l : mapM PathUnescape (map PathEscape l) = Some l.
Proof. induction l as [|v l IH]; [done|]. cbn. by rewrite PathUnescape_escape; cbn; rewrite IH. Qed.

Section Expansion.
Context (P : gmap string string).

Definition expands (s out : string) (missing : option string) : Prop :=
  forall fuel, (String.length s <= fuel)%nat -> replace_parameters fuel P s = (out, missing).

Lemma expands_nil : expands EmptyString EmptyString None.
Proof. intros [|n] _; done. Qed.

Lemma expands_lit a s out m :
  all_chars (not_char "{") a = true -> expands s out m -> expands (a +:+ s) (a +:+ out) m.
Proof.
  induction a as [|c a IH]; [done|]. cbn. intros [Hc Ha]%andb_true_iff Hs fuel Hf.
  rewrite !string_app_cons in *. destruct fuel as [|n]; [cbn in Hf; lia|]. cbn in Hf |- *.
  assert (Ascii.eqb c "{" = false) as ->.
  { apply Ascii.eqb_neq. unfold not_char in Hc. bool_to_prop. done. }
  rewrite (IH Ha Hs n) by lia. done.
Qed.

Lemma take_ident_app n c s :
  all_chars identC n = true -> identC c = false -> take_ident (n +:+ String c s) = (n, String c s).
Proof.
  intros Hn Hc. induction n as [|x n IH]; rewrite ?string_app_nil_l, ?string_app_cons; cbn.
  - by rewrite Hc.
  - cbn in Hn. apply andb_true_iff in Hn as [Hx Hn]. by rewrite Hx, (IH Hn).
Qed.

Definition close (dots : bool) : string := if dots then "...}" else "}".

Lemma match_parameter_app n dots s :
  ident n = true -> match_parameter (n +:+ close dots +:+ s) = Some (n, dots, s).
Proof.
  destruct n as [|c n]; [done|]. intros [Hc Hn]%andb_true_iff.
  rewrite string_app_cons. unfold match_parameter. rewrite Hc. cbn [negb]. rewrite <- string_app_cons.
  destruct dots.
  - change (close true +:+ s) with (String "." (String "." (String "." (String "}" s)))).
    rewrite (take_ident_app (String c n)) by done. by destruct s.
  - change (close false +:+ s) with (String "}" s). rewrite (take_ident_app (String c n)) by done. by destruct s.
Qed.

Lemma expands_par n dots s out m :
  ident n = true -> expands s out m ->
  expands (String "{" (n +:+ close dots) +:+ s)
    (match P !! n with Some v => escape_value dots v | None => String "{" (n +:+ close dots) end +:+ out)
    (match P !! n with Some _ => m | None => match m with Some x => Some x | None => Some n end end).
Proof.
  intros Hn Hs fuel Hf. rewrite string_app_cons, <- string_app_assoc in *.
  destruct fuel as [|k]; [cbn in Hf; lia|]. cbn [replace_parameters Ascii.eqb Bool.eqb].
  rewrite match_parameter_app by done. rewrite (Hs k).
  - by destruct (P !! n); rewrite ?string_app_cons.
  - cbn in Hf. rewrite !string_length_app in Hf. lia.
Qed.

Definition fill (x : segment) : string :=
  match x with
  | Lit s => s
  | Par n => match P !! n with Some v => PathEscape v | None => render_segment x end
  end.
Definition fill_rest (r : option string) : list string :=
  match r with
  | None => []
  | Some n => match P !! n with Some v => map PathEscape (Split v "/"%char) | None => render_rest r end
  end.
Definition missing_in (names : list string) : bool := forallb (fun n => bool_decide (is_Some (P !! n))) names.

Lemma expands_pattern t :
  template_ok t = true -> exists m,
  expands (pattern t) (slashes (map fill (segments t) ++ fill_rest (rest_of t))) m /\
  (m = None <-> missing_in (parameter_names t) = true).
Proof.
  destruct t as [xs r]. unfold template_ok, pattern, parameter_names. cbn. intros [Hxs Hr]%andb_true_iff.
  induction xs as [|x xs IH].
  - cbn. destruct r as [n|]; [|exists None; split; [apply expands_nil|done]].
    pose proof (expands_par n true EmptyString EmptyString None Hr expands_nil) as Hp.
    apply (expands_lit "/") in Hp; [|done]. rewrite !string_app_nil_r in Hp. cbn. rewrite string_app_nil_r.
    destruct (P !! n) as [v|].
    + exists None. split; [|done]. rewrite <- slashes_Join; [exact Hp|].
      intros E0%map_eq_nil. by apply Split_nonempty in E0.
    + exists (Some n). split; [|done]. cbn. rewrite string_app_nil_r. exact Hp.
  - cbn in Hxs. apply andb_true_iff in Hxs as [Hx Hxs]. destruct (IH Hxs) as (m & Hm & Hiff).
    destruct x as [s|n]; cbn in *.
    + exists m. split; [|done]. rewrite <- !string_app_cons. apply expands_lit; [|done].
      cbn. eapply all_chars_mono; [|exact Hx]. by intros c [_ ?]%andb_true_iff.
    + pose proof (expands_par n false _ _ _ Hx Hm) as Hp. apply (expands_lit "/") in Hp; [|done].
      eexists. split; [exact Hp|]. cbn. destruct (P !! n) as [v|]; cbn; [done|]. by destruct m.
Qed.

Lemma fill_no_slash t :
  template_ok t = true -> missing_in (parameter_names t) = true ->
  Forall (fun p => all_chars (not_char "/") p = true) (map fill (segments t) ++ fill_rest (rest_of t)).
Proof.
  destruct t as [xs r]. unfold template_ok, parameter_names, missing_in. cbn. rewrite forallb_app.
  intros [Hxs Hr]%andb_true_iff [Hm Hmr]%andb_true_iff. apply Forall_app. split.
  - induction xs as [|x xs IH]; [constructor|]. cbn in *. apply andb_true_iff in Hxs as [Hx Hxs].
    rewrite forallb_app in Hm. apply andb_true_iff in Hm as [Hmx Hm]. constructor; [|by apply IH].
    destruct x as [s|n]; cbn in *; [eapply all_chars_mono; [|exact Hx]; by intros c [? _]%andb_true_iff|].
    destruct (P !! n); [apply PathEscape_no_slash|done].
  - destruct r as [n|]; cbn in *; [|constructor]. destruct (P !! n) as [v|]; [|done].
    apply List.Forall_forall. intros p (q & <- & _)%in_map_iff. apply PathEscape_no_slash.
Qed.

Lemma read_filled_segments xs tail :
  missing_in (concat (map parameter xs)) = true ->
  read_segments xs (map fill xs ++ tail)
    = Some (map (fun n => (n, default EmptyString (P !! n))) (concat (map parameter xs)), tail).
Proof.
  unfold missing_in. induction xs as [|x xs IH]; [done|]. cbn. rewrite forallb_app. intros [Hx Hm]%andb_true_iff.
  destruct x as [s|n]; cbn in *; [by rewrite bool_decide_eq_true_2, IH|].
  destruct (P !! n) as [v|]; [|done]. by rewrite PathUnescape_escape; cbn; rewrite IH.
Qed.

Lemma read_filled t :
  template_ok t = true -> missing_in (parameter_names t) = true ->
  read_path t (slashes (map fill (segments t) ++ fill_rest (rest_of t)))
    = Some (map (fun n => (n, default EmptyString (P !! n))) (parameter_names t)).
Proof.
  intros Hok Hm. unfold read_path. rewrite Split_slashes by (by apply fill_no_slash).
  unfold parameter_names, missing_in in *. rewrite forallb_app in Hm. apply andb_true_iff in Hm as [Hm Hr].
  rewrite read_filled_segments by done. cbn. rewrite map_app.
  destruct (rest_of t) as [n|]; cbn in *; [|by rewrite app_nil_r].
  destruct (P !! n) as [v|]; [|done]. pose proof (Split_nonempty v "/"%char) as Hne.
  pose proof (mapM_unescape (Split v "/"%char)) as Hmap.
  destruct (map PathEscape (Split v "/"%char)) eqn:Em; [by apply map_eq_nil in Em|].
  cbn in Hmap. rewrite Hmap. cbn. by rewrite Join_Split.
Qed.
End Expansion.

(** Named routes and their addresses fit each other.  For a named route whose pattern has
    the segments of [t], [Router.URL] fails exactly when a parameter of the pattern is
    missing; otherwise the address it returns, read segment by segment against the same
    pattern, gives back every parameter with its exact value: no value can leave its segment
    or merge with another, whatever slashes, percent signs, question marks or braces it
    holds. *)
Theorem url_round_trips_its_parameters {St} (rt : Router St) name path t (P : gmap string string) :
  named rt !! name = Some path -> TrimSuffix path "{$}" = pattern t -> template_ok t = true ->
  if missing_in P (parameter_names t) then
    exists u, URL rt name P = Ok u /\
      read_path t u = Some (map (fun n => (n, default EmptyString (P !! n))) (parameter_names t))
  else exists e, URL rt name P = Err e.
Proof.
  intros Hn Ht Hok. unfold URL. rewrite Hn, Ht. destruct (expands_pattern P t Hok) as (m & Hexp & Hiff).
  rewrite (Hexp (String.length (pattern t))) by lia.
  destruct (missing_in P (parameter_names t)) eqn:Hmiss.
  - destruct m; [by destruct Hiff as [_ Hiff]; specialize (Hiff eq_refl)|]. eexists. split; [done|].
    by apply read_filled.
  - destruct m; [by eexists|]. by destruct Hiff as [Hiff _]; specialize (Hiff eq_refl).
Qed.

Definition files_router : Router unit :=
  {| middleware := []; routes := []; named := {["file" := "/users/{id}/files/{path...}"]};
     errorHandler := fun _ => hret tt |}.
Definition files_template : template :=
  {| segments := [Lit "users"; Par "id"; Lit "files"]; rest_of := Some "path" |}.

Lemma url_round_trips_its_parameters_witness :
  URL files_router "file" {["id" := "a/b"; "path" := "../x y/{id}"]} = Ok "/users/a%2Fb/files/../x%20y/%7Bid%7D" /\
  (exists u, URL files_router "file" {["id" := "a/b"; "path" := "../x y/{id}"]} = Ok u /\
     read_path files_template u = Some [("id", "a/b"); ("path", "../x y/{id}")]) /\
  (exists e, URL files_router "file" {["id" := "7"]} = Err e).
Proof.
  split; [vm_compute; reflexivity|]. split.
  - exact (url_round_trips_its_parameters files_router "file" _ files_template
      {["id" := "a/b"; "path" := "../x y/{id}"]} eq_refl eq_refl eq_refl).
  - exact (url_round_trips_its_parameters files_router "file" _ files_template
      {["id" := "7"]} eq_refl eq_refl eq_refl).
Defined.
