(* ===== verification/Orm.v ===== *)
(** * The ORM's statement builders ([orm/*.go])

    Descriptors ([definition.go]), partial fields ([field.go]), predicates and orders
    ([predicate.go]), compiled statements ([statement.go]), the SELECT builder and its
    executor operations ([select.go]) and the INSERT, bulk INSERT, UPDATE and DELETE
    builders ([mutation.go]).

    The Go types carry the model type as a parameter that no operation inspects; only
    [Mapper] and [Table], whose [scan] produces models, keep it here.  An [identifier] is
    its name, the empty string being the zero value.  A [*tableIdentity] is compared as a
    pointer: [None] is the nil pointer and [Some n] the [n]-th allocation.  Values are
    immutable here, so a copied argument ([freezeArg], [cloneArgs], [appendCopy]) is the
    argument. *)

From S2P Require Import Prelude GoStrings GoRegexp.
Local Open Scope go_scope.
Local Open Scope Z_scope.

(** ** Values ([statement.go]) *)

(** What an [any] can hold.  [VTypedNil] is a nil pointer, slice, map, channel or function
    in an interface; [VOther] stands for every other kind the drivers accept, by an
    identifying number. *)
Inductive value : Type :=
| VNil
| VTypedNil
| VString (s : string)
| VInt (z : Z)
| VBool (b : bool)
| VBytes (content : string)
| VOther (n : nat).

#[export] Instance value_eq_dec : EqDecision value.
Proof. solve_decision. Defined.

Definition isNilValue (v : value) : bool :=
  match v with VNil | VTypedNil => true | _ => false end.

Definition PostgreSQLParameterLimit : Z := 65535.

Record Statement : Type := { query : string; stmt_args : list value }.

Definition newStatement (q : string) (args : list value) : Statement :=
  {| query := q; stmt_args := args |}.

Definition newCompiledStatement (q : string) (args : list value) : result Statement :=
  if PostgreSQLParameterLimit <? Z.of_nat (length args)
  then Err (Errorf "orm: statement has %d parameters; PostgreSQL limit is %d")
  else Ok (newStatement q args).

(** ** Sentinels ([errors.go]) *)

Definition ErrNotFound : error := Sentinel "orm: record not found".
Definition ErrUnsafeMutation : error :=
  Sentinel "orm: mutation requires a predicate or AllRows".
Definition ErrStale : error := Sentinel "orm: stale record".
Definition ErrTransactionRequired : error :=
  Sentinel "orm: row locking requires a transaction executor".
(** [sql.ErrNoRows] *)
Definition ErrNoRows : error := Sentinel "sql: no rows in result set".

Inductive Operation : Type :=
| OperationSelect | OperationInsert | OperationUpdate | OperationDelete.

Definition operation_string (op : Operation) : string :=
  match op with
  | OperationSelect => "select" | OperationInsert => "insert"
  | OperationUpdate => "update" | OperationDelete => "delete"
  end.

(** [PersistenceError] unwraps to its cause and prints the operation and the table. *)
Definition persistenceError (op : Operation) (table : string) (cause : error) : error :=
  Wrapf ("orm: " +:+ operation_string op +:+ " " +:+ table +:+ " failed") cause.

(** ** Descriptors ([definition.go]) *)

Definition newIdentifier (name : string) : result string :=
  if (byte_len name =? 0) || (63 <? byte_len name) ||
     negb (re_match identifierPattern name)
  then Err (Errorf "orm: invalid generated identifier %q")
  else Ok name.

Definition dquote : ascii := chr 34.
Definition quoted (name : string) : string :=
  String dquote (name +:+ String dquote EmptyString).

(** A database row as a [RowScanner] shows it: its column values in the order of the
    statement's projection. *)
Definition row : Type := list value.

Record Mapper (Mo : Type) : Type := {
  columns : list string;
  scan : option (row -> result Mo)
}.
Arguments columns {Mo} _.
Arguments scan {Mo} _.
Arguments Build_Mapper {Mo} _ _.

Fixpoint mapper_columns (seen : gset string) (names : list string) : result (list string) :=
  match names with
  | [] => Ok []
  | name :: rest =>
      try column := newIdentifier name in
      if bool_decide (name ∈ seen)
      then Err (Errorf "orm: duplicate generated column %q")
      else try cs := mapper_columns ({[name]} ∪ seen) rest in Ok (column :: cs)
  end.

Definition NewMapper {Mo} (names : list string) (sc : option (row -> result Mo))
    : result (Mapper Mo) :=
  if bool_decide (names = []) then Err (Errorf "orm: mapper requires at least one column")
  else match sc with
  | None => Err (Errorf "orm: mapper requires a scan function")
  | Some f =>
      try cs := mapper_columns ∅ names in Ok {| columns := cs; scan := Some f |}
  end.

Record Table (Mo : Type) : Type := {
  tname : string;
  mapper : Mapper Mo;
  identity : option nat
}.
Arguments tname {Mo} _.
Arguments mapper {Mo} _.
Arguments identity {Mo} _.
Arguments Build_Table {Mo} _ _ _.

Definition mapper_invalid {Mo} (m : Mapper Mo) : bool :=
  bool_decide (columns m = []) || match scan m with None => true | Some _ => false end.

(** [NewTable]; [fresh] is the address of the identity it allocates. *)
Definition NewTable {Mo} (fresh : nat) (name : string) (m : Mapper Mo) : result (Table Mo) :=
  try tableName := newIdentifier name in
  if mapper_invalid m then Err (Errorf "orm: table %s requires a valid mapper")
  else Ok {| tname := tableName; mapper := m; identity := Some fresh |}.

(** [Table.validate] *)
Definition table_validate {Mo} (t : Table Mo) : result unit :=
  if bool_decide (tname t = EmptyString) || mapper_invalid (mapper t) ||
     bool_decide (identity t = None)
  then Err (Errorf "orm: invalid table definition") else Ok tt.

Record Column : Type := { ctable : string; cidentity : option nat; cname : string }.

Definition NewColumn {Mo} (t : Table Mo) (name : string) : result Column :=
  try columnName := newIdentifier name in
  if bool_decide (name ∈ columns (mapper t))
  then Ok {| ctable := tname t; cidentity := identity t; cname := columnName |}
  else Err (Errorf "orm: column %q is not mapped by table %s").

(** [MustMapper], [MustTable], [MustColumn]: [None] is the panic. *)
Definition must {A} (r : result A) : option A :=
  match r with Ok a => Some a | Err _ => None end.
Definition MustMapper {Mo} (names : list string) (sc : option (row -> result Mo))
    : option (Mapper Mo) := must (NewMapper names sc).
Definition MustTable {Mo} (fresh : nat) (name : string) (m : Mapper Mo)
    : option (Table Mo) := must (NewTable fresh name m).
Definition MustColumn {Mo} (t : Table Mo) (name : string) : option Column :=
  must (NewColumn t name).

Definition qualified_name (table column : string) : string :=
  quoted table +:+ "." +:+ quoted column.
Definition qualified (c : Column) : string := qualified_name (ctable c) (cname c).

(** ** Fields ([field.go]) *)

Inductive FieldState : Type := FieldOmitted | FieldNull | FieldValue | FieldDefault.
Record Field : Type := { fstate : FieldState; fvalue : value }.

Definition Value (v : value) : Field := {| fstate := FieldValue; fvalue := v |}.
Definition Null : Field := {| fstate := FieldNull; fvalue := VNil |}.
Definition Default : Field := {| fstate := FieldDefault; fvalue := VNil |}.
Definition field_Get (f : Field) : value * bool :=
  (fvalue f, match fstate f with FieldValue => true | _ => false end).

(** ** Predicates and orders ([predicate.go]) *)

Inductive predicateKind : Type :=
| predicateCompare | predicateIn | predicateNull | predicateConstant
| predicateAnd | predicateOr | predicateNot | predicateContainsFold.

Inductive Predicate : Type := MkPredicate {
  ptable : string;
  pidentity : option nat;
  pcolumn : string;
  pkind : predicateKind;
  pop : string;
  pargs : list value;
  ptruth : bool;
  pchildren : list Predicate
}.

Definition leaf (c : Column) (k : predicateKind) (op : string) (args : list value) : Predicate :=
  {| ptable := ctable c; pidentity := cidentity c; pcolumn := cname c; pkind := k;
     pop := op; pargs := args; ptruth := false; pchildren := [] |}.

Definition compare (c : Column) (operator : string) (v : value) : Predicate :=
  leaf c predicateCompare operator [v].
Definition Eq (c : Column) (v : value) : Predicate := compare c "=" v.
Definition NotEq (c : Column) (v : value) : Predicate := compare c "<>" v.
Definition Lt (c : Column) (v : value) : Predicate := compare c "<" v.
Definition Lte (c : Column) (v : value) : Predicate := compare c "<=" v.
Definition Gt (c : Column) (v : value) : Predicate := compare c ">" v.
Definition Gte (c : Column) (v : value) : Predicate := compare c ">=" v.

Definition In_ (c : Column) (values : list value) : Predicate :=
  if bool_decide (values = [])
  then {| ptable := ctable c; pidentity := cidentity c; pcolumn := EmptyString;
          pkind := predicateConstant; pop := EmptyString; pargs := [];
          ptruth := false; pchildren := [] |}
  else leaf c predicateIn EmptyString values.

Definition IsNull (c : Column) : Predicate := leaf c predicateNull "IS NULL" [].
Definition IsNotNull (c : Column) : Predicate := leaf c predicateNull "IS NOT NULL" [].
Definition Like (c : Column) (pattern : string) : Predicate :=
  leaf c predicateCompare "LIKE" [VString pattern].

(** [containsFoldEscaper.Replace]: the three old strings are single bytes, so the replacer
    maps each byte on its own. *)
Fixpoint containsFoldEscaper (s : string) : string :=
  match s with
  | EmptyString => EmptyString
  | String c rest =>
      if oneof "!%_" c then String "!" (String c (containsFoldEscaper rest))
      else String c (containsFoldEscaper rest)
  end.

(** [ContainsFold], [ContainsFoldNullable] *)
Definition containsFold (c : Column) (literal : string) : Predicate :=
  leaf c predicateContainsFold EmptyString
    [VString ("%" +:+ containsFoldEscaper literal +:+ "%")].

Definition groupedPredicate (k : predicateKind) (ps : list Predicate) : Predicate :=
  {| ptable := match ps with p :: _ => ptable p | [] => EmptyString end;
     pidentity := match ps with p :: _ => pidentity p | [] => None end;
     pcolumn := EmptyString; pkind := k; pop := EmptyString; pargs := [];
     ptruth := false; pchildren := ps |}.
Definition And (ps : list Predicate) : Predicate := groupedPredicate predicateAnd ps.
Definition Or (ps : list Predicate) : Predicate := groupedPredicate predicateOr ps.
Definition Not (p : Predicate) : Predicate :=
  {| ptable := ptable p; pidentity := pidentity p; pcolumn := EmptyString;
     pkind := predicateNot; pop := EmptyString; pargs := []; ptruth := false;
     pchildren := [p] |}.

(** [sqlCompiler] is its argument list; a builder method runs in [M sqlCompiler]. *)
Definition sqlCompiler : Type := list value.

Definition placeholder (n : nat) : string := String "$" (Itoa (Z.of_nat n)).

Definition bind (v : value) : M sqlCompiler string :=
  fun args => (Ok (placeholder (S (length args))), args ++ [v]).

(** A [range] loop that collects one result per element. *)
Section MapM.
Context {St A B : Type} (f : A -> M St B).
Fixpoint mapM_ (l : list A) : M St (list B) :=
  match l with
  | [] => ret []
  | a :: rest => let! b := f a in let! bs := mapM_ rest in ret (b :: bs)
  end.
End MapM.

Fixpoint compile (p : Predicate) (table : string) (ident : option nat)
    : M sqlCompiler string :=
  if bool_decide (table = EmptyString) || bool_decide (ptable p = EmptyString) ||
     bool_decide (ident = None) || bool_decide (pidentity p = None)
  then throw (Errorf "orm: invalid predicate")
  else if negb (bool_decide (ptable p = table)) || negb (bool_decide (pidentity p = ident))
  then throw (Errorf "orm: predicate belongs to a different table")
  else
  let qualified := qualified_name (ptable p) (pcolumn p) in
  match pkind p with
  | predicateConstant => ret (if ptruth p then "TRUE" else "FALSE")
  | predicateContainsFold =>
      match pargs p with
      | [VString pattern] =>
          let! b := bind (VString pattern) in
          ret (qualified +:+ " ILIKE " +:+ b +:+ " ESCAPE '!'")
      | _ => throw (Errorf "orm: invalid literal contains predicate")
      end
  | predicateCompare =>
      match pargs p with
      | [v] =>
          if isNilValue v
          then throw (Errorf "orm: comparison value is nil; use IsNull or IsNotNull")
          else let! b := bind v in ret (qualified +:+ " " +:+ pop p +:+ " " +:+ b)
      | _ => throw (Errorf "orm: invalid comparison predicate")
      end
  | predicateIn =>
      let! placeholders := mapM_ (fun v =>
        if isNilValue v
        then throw (Errorf "orm: IN value is nil; use an explicit null predicate")
        else bind v) (pargs p) in
      ret (qualified +:+ " IN (" +:+ Join placeholders ", " +:+ ")")
  | predicateNull => ret (qualified +:+ " " +:+ pop p)
  | predicateAnd | predicateOr =>
      if bool_decide (pchildren p = [])
      then throw (Errorf "orm: predicate group must not be empty")
      else
        let! parts := mapM_ (fun child => compile child table ident) (pchildren p) in
        ret ("(" +:+ Join parts (match pkind p with predicateOr => " OR " | _ => " AND " end)
             +:+ ")")
  | predicateNot =>
      match pchildren p with
      | [child] =>
          let! compiled := compile child table ident in
          ret ("NOT (" +:+ compiled +:+ ")")
      | _ => throw (Errorf "orm: NOT requires one predicate")
      end
  end.

Record Order : Type := {
  otable : string; oidentity : option nat; ocolumn : string; direction : string
}.
Definition Asc (c : Column) : Order :=
  {| otable := ctable c; oidentity := cidentity c; ocolumn := cname c; direction := "ASC" |}.
Definition Desc (c : Column) : Order :=
  {| otable := ctable c; oidentity := cidentity c; ocolumn := cname c; direction := "DESC" |}.

(** ** Executors ([definition.go], [observer.go])

    The executors of the repository: [*sql.DB] and [*sql.Tx], which may be nil pointers, and
    the observing wrapper.  [driver] is what [database/sql] does with a statement. *)

Inductive Executor : Type :=
| NilInterface
| SqlDB (isNil : bool)
| SqlTx (isNil : bool)
| Observed (wrapped : option Executor).

Fixpoint carriesORMTransaction (wrapped : Executor) : bool :=
  match wrapped with
  | SqlTx isNil => negb isNil
  | Observed (Some inner) => carriesORMTransaction inner
  | _ => false
  end.

Fixpoint executor_present (e : Executor) : bool :=
  match e with
  | NilInterface => false
  | SqlDB isNil | SqlTx isNil => negb isNil
  | Observed None => false
  | Observed (Some inner) => executor_present inner
  end.

Definition validateExecutor (e : Executor) (requireTransaction : bool) : result unit :=
  if negb (executor_present e) then Err (Errorf "orm: executor is required")
  else if negb requireTransaction then Ok tt
  else match e with
  | SqlTx _ => Ok tt
  | Observed (Some inner) =>
      if carriesORMTransaction inner then Ok tt else Err ErrTransactionRequired
  | _ => Err ErrTransactionRequired
  end.

(** [rows] read to the end: what [Next] yields, then [Err] and [Close]. *)
Record rowset : Type := {
  rs_rows : list row; rs_err : option error; rs_close : option error
}.

Record driver (W : Type) : Type := {
  dbExec : Statement -> M W (result Z);
  dbQuery : Statement -> M W rowset;
  dbQueryRow : Statement -> M W row
}.
Arguments dbExec {W} _ _.
Arguments dbQuery {W} _ _.
Arguments dbQueryRow {W} _ _.

Inductive StatementEvent : Type := StatementQuery | StatementExec.

(** The connection with the statements the observers have seen, oldest first. *)
Record world (W : Type) : Type := {
  conn : W; seen_statements : list (StatementEvent * Statement)
}.
Arguments conn {W} _.
Arguments seen_statements {W} _.
Arguments Build_world {W} _ _.

Definition errors_Join (a : option error) (b : error) : error :=
  match a with Some e => Joined e b | None => b end.

Section Executors.
Context {W : Type} (db : driver W).

Definition lift {A} (m : M W A) : M (world W) A :=
  fun w => let '(r, c) := m (conn w) in
           (r, {| conn := c; seen_statements := seen_statements w |}).

Definition observe (ev : StatementEvent) (st : Statement) : M (world W) unit :=
  modify (fun w => {| conn := conn w; seen_statements := seen_statements w ++ [(ev, st)] |}).

(** A statement through an executor: every observer on the way sees it first.  A nil
    executor never gets here ([validateExecutor]); calling it would panic. *)
Fixpoint through {A} (ev : StatementEvent) (op : Statement -> M W A)
    (e : Executor) (st : Statement) : M (world W) A :=
  match e with
  | SqlDB false | SqlTx false => lift (op st)
  | Observed (Some inner) => do! observe ev st in through ev op inner st
  | _ => throw (Errorf "nil pointer dereference")
  end.

Definition ExecContext := through StatementExec (dbExec db).
Definition QueryContext := through StatementQuery (dbQuery db).
Definition QueryRowContext := through StatementQuery (dbQueryRow db).

Definition of_result {St A} (r : result A) : M St A := fun s => (r, s).
Definition persistM {St A} (op : Operation) (table : string) (m : M St A) : M St A :=
  fun s => match m s with
           | (Ok a, s') => (Ok a, s')
           | (Err e, s') => (Err (persistenceError op table e), s')
           end.

(** The [for rows.Next()] loop of [queryModelsFor]. *)
Fixpoint scan_rows {Mo} (f : row -> result Mo) (rows : list row) : result (list Mo) :=
  match rows with
  | [] => Ok []
  | r :: rest => try item := f r in try items := scan_rows f rest in Ok (item :: items)
  end.

(** The body after the query with its deferred [Close]; a table that passed [validate] has
    a scan function. *)
Definition read_models {Mo} (t : Table Mo) (rs : rowset) (op : Operation)
    : result (list Mo) :=
  let body :=
    match scan (mapper t) with
    | None => Err (Errorf "nil pointer dereference")
    | Some f =>
        match scan_rows f (rs_rows rs) with
        | Err e => Err (persistenceError op (tname t) e)
        | Ok items =>
            match rs_err rs with
            | Some e => Err (persistenceError op (tname t) e)
            | None => Ok items
            end
        end
    end in
  match rs_close rs with
  | None => body
  | Some e =>
      Err (errors_Join (match body with Err b => Some b | Ok _ => None end)
                       (persistenceError op (tname t) e))
  end.

Definition queryModelsFor {Mo} (e : Executor) (t : Table Mo) (st : Statement)
    (op : Operation) : M (world W) (list Mo) :=
  do! of_result (validateExecutor e false) in
  let! rs := persistM op (tname t) (QueryContext e st) in
  of_result (read_models t rs op).

Definition queryModels {Mo} (e : Executor) (t : Table Mo) (st : Statement)
    : M (world W) (list Mo) := queryModelsFor e t st OperationSelect.

(** [mapper.scan(executor.QueryRowContext(...))]: the row's error comes out of [Scan]. *)
Definition scan_one {Mo} (e : Executor) (t : Table Mo) (st : Statement) : M (world W) Mo :=
  let! r := QueryRowContext e st in
  match scan (mapper t) with
  | None => throw (Errorf "nil pointer dereference")
  | Some f => of_result (f r)
  end.

(** [RowsAffected] after [ExecContext]. *)
Definition exec_rows (e : Executor) (op : Operation) (table : string) (st : Statement)
    : M (world W) Z :=
  persistM op table (let! r := ExecContext e st in of_result r).
End Executors.

(** ** SELECT ([select.go]) *)

Inductive lockMode : Type := lockNone | lockUpdate | lockShare.
#[export] Instance lockMode_eq_dec : EqDecision lockMode.
Proof. solve_decision. Defined.

Record SelectBuilder (Mo : Type) : Type := {
  sb_table : Table Mo;
  sb_predicates : list Predicate;
  sb_orders : list Order;
  sb_limit : option Z;
  sb_offset : option Z;
  sb_lock : lockMode;
  sb_err : option error
}.
Arguments sb_table {Mo} _.
Arguments sb_predicates {Mo} _.
Arguments sb_orders {Mo} _.
Arguments sb_limit {Mo} _.
Arguments sb_offset {Mo} _.
Arguments sb_lock {Mo} _.
Arguments sb_err {Mo} _.
Arguments Build_SelectBuilder {Mo} _ _ _ _ _ _ _.

Section Select.
Context {Mo : Type}.
Implicit Types (b : SelectBuilder Mo) (t : Table Mo).

Definition Select t : SelectBuilder Mo :=
  {| sb_table := t; sb_predicates := []; sb_orders := []; sb_limit := None;
     sb_offset := None; sb_lock := lockNone; sb_err := None |}.

Definition Where b (ps : list Predicate) : SelectBuilder Mo :=
  {| sb_table := sb_table b; sb_predicates := sb_predicates b ++ ps;
     sb_orders := sb_orders b; sb_limit := sb_limit b; sb_offset := sb_offset b;
     sb_lock := sb_lock b; sb_err := sb_err b |}.

Definition OrderBy b (os : list Order) : SelectBuilder Mo :=
  {| sb_table := sb_table b; sb_predicates := sb_predicates b;
     sb_orders := sb_orders b ++ os; sb_limit := sb_limit b; sb_offset := sb_offset b;
     sb_lock := sb_lock b; sb_err := sb_err b |}.

Definition with_err b (e : error) : SelectBuilder Mo :=
  {| sb_table := sb_table b; sb_predicates := sb_predicates b;
     sb_orders := sb_orders b; sb_limit := sb_limit b; sb_offset := sb_offset b;
     sb_lock := sb_lock b; sb_err := Some (errors_Join (sb_err b) e) |}.

Definition Limit b (limit : Z) : SelectBuilder Mo :=
  if limit <? 0 then with_err b (Errorf "orm: limit must not be negative")
  else {| sb_table := sb_table b; sb_predicates := sb_predicates b;
          sb_orders := sb_orders b; sb_limit := Some limit; sb_offset := sb_offset b;
          sb_lock := sb_lock b; sb_err := sb_err b |}.

Definition Offset b (offset : Z) : SelectBuilder Mo :=
  if offset <? 0 then with_err b (Errorf "orm: offset must not be negative")
  else {| sb_table := sb_table b; sb_predicates := sb_predicates b;
          sb_orders := sb_orders b; sb_limit := sb_limit b; sb_offset := Some offset;
          sb_lock := sb_lock b; sb_err := sb_err b |}.

Definition with_lock b (l : lockMode) : SelectBuilder Mo :=
  {| sb_table := sb_table b; sb_predicates := sb_predicates b;
     sb_orders := sb_orders b; sb_limit := sb_limit b; sb_offset := sb_offset b;
     sb_lock := l; sb_err := sb_err b |}.

Definition ForUpdate b : SelectBuilder Mo :=
  with_lock (match sb_lock b with
             | lockShare => with_err b (Errorf "orm: conflicting row locks")
             | _ => b end) lockUpdate.

Definition ForShare b : SelectBuilder Mo :=
  with_lock (match sb_lock b with
             | lockUpdate => with_err b (Errorf "orm: conflicting row locks")
             | _ => b end) lockShare.

Definition writeMappedColumns t : string :=
  Join (map (qualified_name (tname t)) (columns (mapper t))) ", ".

Definition writePredicates (table : string) (ident : option nat) (ps : list Predicate)
    : M sqlCompiler string :=
  if bool_decide (ps = []) then ret EmptyString
  else let! parts := mapM_ (fun p => compile p table ident) ps in
       ret (" WHERE " +:+ Join parts " AND ").

(** [writeOrders] of [relation.go]. *)
Definition write_order (table : string) (ident : option nat) (o : Order) : result string :=
  if negb (bool_decide (otable o = table)) || negb (bool_decide (oidentity o = ident)) ||
     bool_decide (ident = None)
  then Err (Errorf "orm: order belongs to a different table")
  else Ok (qualified_name (otable o) (ocolumn o) +:+ " " +:+ direction o).

Definition writeOrders {St} (table : string) (ident : option nat) (os : list Order)
    : M St string :=
  if bool_decide (os = []) then ret EmptyString
  else let! parts := mapM_ (fun o => of_result (write_order table ident o)) os in
       ret (" ORDER BY " +:+ Join parts ", ").

(** Run a builder's body on an empty compiler and check the parameter count. *)
Definition run_compiler (body : M sqlCompiler string) : result Statement :=
  match body [] with
  | (Ok q, args) => newCompiledStatement q args
  | (Err e, _) => Err e
  end.

Definition bind_clause (keyword : string) (n : option Z) : M sqlCompiler string :=
  match n with
  | Some z => let! p := bind (VInt z) in ret (keyword +:+ p)
  | None => ret EmptyString
  end.

Definition lock_clause (l : lockMode) : string :=
  match l with
  | lockUpdate => " FOR UPDATE" | lockShare => " FOR SHARE" | lockNone => EmptyString
  end.

(** [builder.err], then [table.validate()]: the two checks every [Build] starts with. *)
Definition checked {A} (err : option error) t (k : result A) : result A :=
  match err with
  | Some e => Err e
  | None => try _ := table_validate t in k
  end.

Definition select_body b (first : bool) : M sqlCompiler string :=
  let t := sb_table b in
  let! wh := writePredicates (tname t) (identity t) (sb_predicates b) in
  let! ord := writeOrders (tname t) (identity t) (sb_orders b) in
  let! lim := bind_clause " LIMIT " (if first then Some 1 else sb_limit b) in
  let! off := bind_clause " OFFSET " (sb_offset b) in
  ret ("SELECT " +:+ writeMappedColumns t +:+ " FROM " +:+ quoted (tname t) +:+
       wh +:+ ord +:+ lim +:+ off +:+ lock_clause (sb_lock b)).

Definition buildSelect b (first : bool) : result Statement :=
  checked (sb_err b) (sb_table b) (run_compiler (select_body b first)).
Definition Build b : result Statement := buildSelect b false.

Definition BuildExists b : result Statement :=
  let t := sb_table b in
  checked (sb_err b) t (run_compiler (
    let! wh := writePredicates (tname t) (identity t) (sb_predicates b) in
    ret ("SELECT EXISTS (" +:+ ("SELECT 1 FROM " +:+ quoted (tname t) +:+ wh) +:+ ")"))).

Definition buildAggregate b (expression : string) : result Statement :=
  let t := sb_table b in
  checked (sb_err b) t (run_compiler (
    let! wh := writePredicates (tname t) (identity t) (sb_predicates b) in
    ret ("SELECT " +:+ expression +:+ " FROM " +:+ quoted (tname t) +:+ wh))).
Definition BuildCount b : result Statement := buildAggregate b "COUNT(*)".

Section Run.
Context {W : Type} (db : driver W).

Definition locks b : bool := negb (bool_decide (sb_lock b = lockNone)).

Definition All b (e : Executor) : M (world W) (list Mo) :=
  do! of_result (validateExecutor e (locks b)) in
  let! st := of_result (Build b) in
  queryModels db e (sb_table b) st.

Definition First b (e : Executor) : M (world W) Mo :=
  do! of_result (validateExecutor e (locks b)) in
  let! st := of_result (buildSelect b true) in
  let! items := queryModels db e (sb_table b) st in
  match items with
  | [] => throw (persistenceError OperationSelect (tname (sb_table b)) ErrNotFound)
  | item :: _ => ret item
  end.

(** [Scan(&count)] and [Scan(&exists)] into an [int64] and a [bool]. *)
Definition scan_int64 (r : row) : result Z :=
  match r with [VInt z] => Ok z | _ => Err (Errorf "sql: Scan error") end.
Definition scan_bool (r : row) : result bool :=
  match r with [VBool x] => Ok x | _ => Err (Errorf "sql: Scan error") end.

Definition scalar {A} (f : row -> result A) b (e : Executor) (build : result Statement)
    : M (world W) A :=
  do! of_result (validateExecutor e false) in
  let! st := of_result build in
  persistM OperationSelect (tname (sb_table b))
    (let! r := QueryRowContext db e st in of_result (f r)).

Definition Count b (e : Executor) : M (world W) Z := scalar scan_int64 b e (BuildCount b).
Definition Exists b (e : Executor) : M (world W) bool := scalar scan_bool b e (BuildExists b).
End Run.
End Select.

(** ** Assignments ([mutation.go]) *)

Inductive assignmentKind : Type :=
| assignmentOmitted | assignmentValue | assignmentNull | assignmentDefault
| assignmentCurrentTime | assignmentIncrement.
#[export] Instance assignmentKind_eq_dec : EqDecision assignmentKind.
Proof. solve_decision. Defined.

Record Assignment : Type := {
  atable : string; aidentity : option nat; acolumn : string;
  akind : assignmentKind; avalue : value
}.

Definition assignment (c : Column) (k : assignmentKind) (v : value) : Assignment :=
  {| atable := ctable c; aidentity := cidentity c; acolumn := cname c;
     akind := k; avalue := v |}.

Definition Set_ (c : Column) (v : value) : Assignment := assignment c assignmentValue v.

Definition From_ (c : Column) (f : Field) : Assignment :=
  match fstate f with
  | FieldOmitted => assignment c assignmentOmitted VNil
  | FieldNull => assignment c assignmentNull VNil
  | FieldValue => assignment c assignmentValue (fvalue f)
  | FieldDefault => assignment c assignmentDefault VNil
  end.

Definition SetCurrentTime (c : Column) : Assignment := assignment c assignmentCurrentTime VNil.
(** The delta has a numeric type. *)
Definition Increment (c : Column) (delta : Z) : Assignment :=
  assignment c assignmentIncrement (VInt delta).

Record VersionGuard : Type := { guard_predicate : Predicate; guard_assignment : Assignment }.
Definition ExpectVersion (c : Column) (expected : Z) : VersionGuard :=
  {| guard_predicate := Eq c (VInt expected); guard_assignment := Increment c 1 |}.

Fixpoint included (table : string) (ident : option nat) (seen : gset string)
    (l : list Assignment) : result (list Assignment) :=
  match l with
  | [] => Ok []
  | a :: rest =>
      if negb (bool_decide (atable a = table)) || negb (bool_decide (aidentity a = ident)) ||
         bool_decide (ident = None)
      then Err (Errorf "orm: assignment belongs to a different table")
      else if bool_decide (akind a = assignmentOmitted) then included table ident seen rest
      else if bool_decide (akind a = assignmentValue) && isNilValue (avalue a)
      then Err (Errorf "orm: assignment value is nil; use Null or Default")
      else if bool_decide (acolumn a ∈ seen)
      then Err (Errorf "orm: duplicate assignment for column %s")
      else try r := included table ident ({[acolumn a]} ∪ seen) rest in Ok (a :: r)
  end.
Definition includedAssignments (table : string) (ident : option nat) (l : list Assignment)
    : result (list Assignment) := included table ident ∅ l.

Definition writeAssignmentValue (a : Assignment) : M sqlCompiler string :=
  match akind a with
  | assignmentNull => bind VNil
  | assignmentDefault => ret "DEFAULT"
  | assignmentCurrentTime => ret "CURRENT_TIMESTAMP"
  | assignmentIncrement =>
      let! p := bind (avalue a) in ret (quoted (acolumn a) +:+ " + " +:+ p)
  | _ => bind (avalue a)
  end.

Definition is_increment (a : Assignment) : bool := bool_decide (akind a = assignmentIncrement).

(** The mutation builders are records of their settings; no method of theirs sets the
    [err] of the Go records except [Rows]. *)
Section Mutations.
Context {Mo : Type}.
Implicit Types t : Table Mo.

(** ** INSERT *)

Record InsertBuilder : Type := {
  ib_table : Table Mo; ib_assignments : list Assignment; ib_err : option error
}.
Definition Insert t : InsertBuilder :=
  {| ib_table := t; ib_assignments := []; ib_err := None |}.
Definition Values (b : InsertBuilder) (l : list Assignment) : InsertBuilder :=
  {| ib_table := ib_table b; ib_assignments := ib_assignments b ++ l; ib_err := ib_err b |}.

Definition returning t : string := " RETURNING " +:+ writeMappedColumns t.

Definition insert_value (a : Assignment) : M sqlCompiler string :=
  if is_increment a then throw (Errorf "orm: increment is not valid in an insert")
  else writeAssignmentValue a.

Definition InsertBuild (b : InsertBuilder) : result Statement :=
  let t := ib_table b in
  checked (ib_err b) t (
    try assignments := includedAssignments (tname t) (identity t) (ib_assignments b) in
    run_compiler (
      if bool_decide (assignments = [])
      then ret ("INSERT INTO " +:+ quoted (tname t) +:+ " DEFAULT VALUES" +:+ returning t)
      else
        let! vs := mapM_ insert_value assignments in
        ret ("INSERT INTO " +:+ quoted (tname t) +:+ " (" +:+
             Join (map (fun a => quoted (acolumn a)) assignments) ", " +:+ ") VALUES (" +:+
             Join vs ", " +:+ ")" +:+ returning t))).

(** ** Bulk INSERT *)

Definition InsertRow : Type := list Assignment.
Record BulkInsertBuilder : Type := {
  bb_table : Table Mo; bb_rows : list InsertRow; bb_err : option error
}.
Definition Rows (b : InsertBuilder) (rows : list InsertRow) : BulkInsertBuilder :=
  {| bb_table := ib_table b; bb_rows := rows;
     bb_err := if bool_decide (ib_assignments b = []) then ib_err b
               else Some (Errorf "orm: bulk Rows cannot be combined with single-row Values") |}.

Definition shape_row t (r : InsertRow) : result (list Assignment) :=
  match includedAssignments (tname t) (identity t) r with
  | Err e => Err (Wrapf "orm: bulk insert row %d: %w" e)
  | Ok l => if existsb is_increment l
            then Err (Errorf "orm: bulk insert row %d: increment is not valid in an insert")
            else Ok l
  end.

Fixpoint map_result {A B} (f : A -> result B) (l : list A) : result (list B) :=
  match l with
  | [] => Ok []
  | a :: rest => try b := f a in try bs := map_result f rest in Ok (b :: bs)
  end.

(** One row rearranged to the first row's columns.  [included] leaves at most one
    assignment per column, so the map of the code holds the one that [find] finds. *)
Definition shape_error : error :=
  Errorf "orm: bulk insert row %d has an incompatible column shape".
Definition reorder (cols : list string) (l : list Assignment) : result (list Assignment) :=
  if negb (bool_decide (length l = length cols)) then Err shape_error
  else map_result (fun c =>
         match List.find (fun a => bool_decide (acolumn a = c)) l with
         | Some a => Ok a
         | None => Err shape_error
         end) cols.

Definition bulk_statement t (cols : list string) (shaped : list (list Assignment))
    : result Statement :=
  run_compiler (
    let! rows := mapM_ (fun l =>
      let! vs := mapM_ writeAssignmentValue l in ret ("(" +:+ Join vs ", " +:+ ")")) shaped in
    ret ("INSERT INTO " +:+ quoted (tname t) +:+ " (" +:+ Join (map quoted cols) ", " +:+
         ") VALUES " +:+ Join rows ", " +:+ returning t)).

Definition BulkBuild (b : BulkInsertBuilder) : result Statement :=
  let t := bb_table b in
  checked (bb_err b) t (
    if bool_decide (bb_rows b = [])
    then Err (Errorf "orm: bulk insert requires at least one row")
    else
      try shaped := map_result (shape_row t) (bb_rows b) in
      match shaped with
      | [] => Err (Errorf "orm: bulk insert requires at least one row")
      | first :: others =>
          if bool_decide (first = []) then
            if bool_decide (others = []) then InsertBuild (Insert t)
            else Err (Errorf "orm: multi-row insert requires at least one present column")
          else
            let cols := map acolumn first in
            try others' := map_result (reorder cols) others in
            bulk_statement t cols (first :: others')
      end).

(** ** UPDATE *)

Record UpdateBuilder : Type := {
  ub_table : Table Mo;
  ub_assignments : list Assignment;
  ub_predicates : list Predicate;
  allRows : bool;
  staleOnZero : bool;
  ub_err : option error
}.
Implicit Types u : UpdateBuilder.

Definition Update t : UpdateBuilder :=
  {| ub_table := t; ub_assignments := []; ub_predicates := []; allRows := false;
     staleOnZero := false; ub_err := None |}.
Definition UpdateSet u (l : list Assignment) : UpdateBuilder :=
  {| ub_table := ub_table u; ub_assignments := ub_assignments u ++ l;
     ub_predicates := ub_predicates u; allRows := allRows u;
     staleOnZero := staleOnZero u; ub_err := ub_err u |}.
Definition UpdateWhere u (ps : list Predicate) : UpdateBuilder :=
  {| ub_table := ub_table u; ub_assignments := ub_assignments u;
     ub_predicates := ub_predicates u ++ ps; allRows := allRows u;
     staleOnZero := staleOnZero u; ub_err := ub_err u |}.
Definition OptimisticVersion u (g : VersionGuard) : UpdateBuilder :=
  {| ub_table := ub_table u; ub_assignments := ub_assignments u ++ [guard_assignment g];
     ub_predicates := ub_predicates u ++ [guard_predicate g]; allRows := allRows u;
     staleOnZero := staleOnZero u; ub_err := ub_err u |}.
Definition UpdateAllRows u : UpdateBuilder :=
  {| ub_table := ub_table u; ub_assignments := ub_assignments u;
     ub_predicates := ub_predicates u; allRows := true;
     staleOnZero := staleOnZero u; ub_err := ub_err u |}.
Definition StaleOnZero u : UpdateBuilder :=
  {| ub_table := ub_table u; ub_assignments := ub_assignments u;
     ub_predicates := ub_predicates u; allRows := allRows u;
     staleOnZero := true; ub_err := ub_err u |}.

Definition write_set (a : Assignment) : M sqlCompiler string :=
  let! v := writeAssignmentValue a in ret (quoted (acolumn a) +:+ " = " +:+ v).

Definition UpdateBuild u : result Statement :=
  let t := ub_table u in
  checked (ub_err u) t (
    if bool_decide (ub_predicates u = []) && negb (allRows u) then Err ErrUnsafeMutation
    else
      try assignments := includedAssignments (tname t) (identity t) (ub_assignments u) in
      if bool_decide (assignments = [])
      then Err (Errorf "orm: update requires at least one present assignment")
      else run_compiler (
        let! sets := mapM_ write_set assignments in
        let! wh := writePredicates (tname t) (identity t) (ub_predicates u) in
        ret ("UPDATE " +:+ quoted (tname t) +:+ " SET " +:+ Join sets ", " +:+ wh))).

Definition BuildReturning u : result Statement :=
  try st := UpdateBuild u in
  newCompiledStatement (query st +:+ returning (ub_table u)) (stmt_args st).

(** ** DELETE *)

Record DeleteBuilder : Type := {
  db_table : Table Mo; db_predicates : list Predicate; db_allRows : bool;
  db_err : option error
}.
Definition Delete t : DeleteBuilder :=
  {| db_table := t; db_predicates := []; db_allRows := false; db_err := None |}.
Definition DeleteWhere (d : DeleteBuilder) (ps : list Predicate) : DeleteBuilder :=
  {| db_table := db_table d; db_predicates := db_predicates d ++ ps;
     db_allRows := db_allRows d; db_err := db_err d |}.
Definition DeleteAllRows (d : DeleteBuilder) : DeleteBuilder :=
  {| db_table := db_table d; db_predicates := db_predicates d; db_allRows := true;
     db_err := db_err d |}.

Definition DeleteBuild (d : DeleteBuilder) : result Statement :=
  let t := db_table d in
  checked (db_err d) t (
    if bool_decide (db_predicates d = []) && negb (db_allRows d) then Err ErrUnsafeMutation
    else run_compiler (
      let! wh := writePredicates (tname t) (identity t) (db_predicates d) in
      ret ("DELETE FROM " +:+ quoted (tname t) +:+ wh))).

(** ** Running mutations *)

Section Run.
Context {W : Type} (db : driver W).

(** [InsertBuilder.One] *)
Definition InsertOne (b : InsertBuilder) (e : Executor) : M (world W) Mo :=
  do! of_result (validateExecutor e false) in
  let! st := of_result (InsertBuild b) in
  persistM OperationInsert (tname (ib_table b)) (scan_one db e (ib_table b) st).

(** [BulkInsertBuilder.All] *)
Definition BulkAll (b : BulkInsertBuilder) (e : Executor) : M (world W) (list Mo) :=
  do! of_result (validateExecutor e false) in
  let! st := of_result (BulkBuild b) in
  queryModelsFor db e (bb_table b) st OperationInsert.

(** [UpdateBuilder.One] *)
Definition UpdateOne u (e : Executor) : M (world W) Mo :=
  do! of_result (validateExecutor e false) in
  let! st := of_result (BuildReturning u) in
  fun w =>
    match scan_one db e (ub_table u) st w with
    | (Ok item, w') => (Ok item, w')
    | (Err err, w') =>
        (Err (persistenceError OperationUpdate (tname (ub_table u))
          (if errors_Is err ErrNoRows
           then (if staleOnZero u then ErrStale else ErrNotFound) else err)), w')
    end.

(** [UpdateBuilder.Exec] *)
Definition UpdateExec u (e : Executor) : M (world W) Z :=
  do! of_result (validateExecutor e false) in
  let! st := of_result (UpdateBuild u) in
  let! rows := exec_rows db e OperationUpdate (tname (ub_table u)) st in
  if (rows =? 0) && staleOnZero u
  then throw (persistenceError OperationUpdate (tname (ub_table u)) ErrStale)
  else ret rows.

(** [DeleteBuilder.Exec] *)
Definition DeleteExec (d : DeleteBuilder) (e : Executor) : M (world W) Z :=
  do! of_result (validateExecutor e false) in
  let! st := of_result (DeleteBuild d) in
  exec_rows db e OperationDelete (tname (db_table d)) st.
End Run.
End Mutations.
Arguments InsertBuilder : clear implicits.
Arguments BulkInsertBuilder : clear implicits.
Arguments UpdateBuilder : clear implicits.
Arguments DeleteBuilder : clear implicits.
