(* ===== verification/OrmRelation.v ===== *)
(** * Relation loaders ([orm/relation.go])

    A relation binds a parent and a target table by key callbacks.  [Load] reads the keys of
    a page of parents, builds one SELECT per batch of keys within the parameter limit, groups
    the returned models by key and assigns them to a copy of the parents.

    A key callback returns [(K, bool)]: here [option K].  Keys are map keys, hence
    [Countable]; [toValue] is the conversion of a key to [any] when it is bound.  [ctx] gives
    [ctx.Err()] before the i-th statement. *)

From S2P Require Import Prelude GoStrings GoRegexp Orm.
Local Open Scope go_scope.
Local Open Scope Z_scope.

Definition parameterLimit (ParameterLimit : Z) : result Z :=
  if ParameterLimit =? 0 then Ok PostgreSQLParameterLimit
  else if (ParameterLimit <? 1) || (PostgreSQLParameterLimit <? ParameterLimit)
  then Err (Errorf "orm: relation parameter limit must be between 1 and %d")
  else Ok ParameterLimit.

Definition absent {A} (o : option A) : bool := match o with None => true | Some _ => false end.

Definition belongs {Mo} (c : Column) (t : Table Mo) : bool :=
  bool_decide (ctable c = tname t) && bool_decide (cidentity c = identity t).

Definition validateRelationScope {T} (target : Table T) (scope : SelectBuilder T) : result Z :=
  if negb (bool_decide (tname (sb_table scope) = tname target)) ||
     negb (bool_decide (identity (sb_table scope) = identity target))
  then Err (Errorf "orm: relation scope belongs to a different table")
  else if negb (absent (sb_limit scope)) || negb (absent (sb_offset scope))
  then Err (Errorf "orm: paginate parents before loading relationships; target scopes cannot paginate")
  else if negb (bool_decide (sb_lock scope = lockNone))
  then Err (Errorf "orm: relation target scope cannot apply a row lock")
  else try st := Build scope in Ok (Z.of_nat (length (stmt_args st))).

Section Keys.
Context {P K : Type} `{Countable K}.

(** [uniqueKeys]: the keys of the parents that have one, each once, in order. *)
Fixpoint unique_from (seen : gset K) (parents : list P) (key : P -> option K) : list K :=
  match parents with
  | [] => []
  | p :: rest =>
      match key p with
      | None => unique_from seen rest key
      | Some k => if bool_decide (k ∈ seen) then unique_from seen rest key
                  else k :: unique_from ({[k]} ∪ seen) rest key
      end
  end.
Definition uniqueKeys (parents : list P) (key : P -> option K) : list K :=
  unique_from ∅ parents key.
End Keys.

(** The loop [for start := 0; start < len(keys); start += batchSize]: one call per batch.
    Each round consumes at least one key, so [length keys] rounds are enough. *)
Fixpoint in_batches {K A} (fuel : nat) (size : nat) (f : list K -> result A) (keys : list K)
    : result (list A) :=
  match keys, fuel with
  | [], _ => Ok []
  | _, O => Ok []
  | _, S n =>
      try a := f (firstn size keys) in
      try rest := in_batches n size f (skipn size keys) in Ok (a :: rest)
  end.

Section Relations.
Context {P T K : Type} `{Countable K} (toValue : K -> value).

Record relationDefinition : Type := {
  r_parent : Table P;
  r_target : Table T;
  parentColumn : string;
  targetColumn : string;
  parentKey : option (P -> option K);
  targetKey : option (T -> option K);
  r_limit : Z
}.

(** [relationDefinition.validate] *)
Definition relation_validate (d : relationDefinition) : result unit :=
  try _ := table_validate (r_parent d) in
  try _ := table_validate (r_target d) in
  if bool_decide (parentColumn d = EmptyString) || bool_decide (targetColumn d = EmptyString) ||
     absent (parentKey d) || absent (targetKey d) ||
     (r_limit d <? 1) || (PostgreSQLParameterLimit <? r_limit d)
  then Err (Errorf "orm: invalid relation definition") else Ok tt.

Definition newRelationDefinition (parent : Table P) (target : Table T)
    (pc tc : Column) (pk : option (P -> option K)) (tk : option (T -> option K))
    (ParameterLimit : Z) : result relationDefinition :=
  try _ := table_validate parent in
  try _ := table_validate target in
  if negb (belongs pc parent) || negb (belongs tc target)
  then Err (Errorf "orm: relation columns do not belong to their declared tables")
  else if absent pk || absent tk
  then Err (Errorf "orm: relation requires explicit key callbacks")
  else try limit := parameterLimit ParameterLimit in
  Ok {| r_parent := parent; r_target := target; parentColumn := cname pc;
        targetColumn := cname tc; parentKey := pk; targetKey := tk; r_limit := limit |}.

Definition relationInPredicate {Mo} (t : Table Mo) (column : string) (keys : list K) : Predicate :=
  leaf {| ctable := tname t; cidentity := identity t; cname := column |}
    predicateIn EmptyString (map toValue keys).

(** One batch of [buildScopedRelationStatements]. *)
Definition batch_statement (d : relationDefinition) (scope : SelectBuilder T) (keys : list K)
    : result Statement :=
  try st := Build (Where scope [relationInPredicate (r_target d) (targetColumn d) keys]) in
  if r_limit d <? Z.of_nat (length (stmt_args st))
  then Err (Errorf "orm: relation statement exceeds the parameter limit") else Ok st.

Definition buildScopedRelationStatements (d : relationDefinition) (keys : list K)
    (scope : SelectBuilder T) : result (list Statement) :=
  try baseArgs := validateRelationScope (r_target d) scope in
  if bool_decide (keys = []) then Ok []
  else
    let batchSize := r_limit d - baseArgs in
    if batchSize <? 1 then Err (Errorf "orm: relation scope exhausts the parameter limit")
    else in_batches (length keys) (Z.to_nat batchSize) (batch_statement d scope) keys.

(** The callbacks of a definition that passed [validate]. *)
Definition parent_key (d : relationDefinition) (p : P) : option K :=
  match parentKey d with Some f => f p | None => None end.
Definition target_key (d : relationDefinition) (t : T) : option K :=
  match targetKey d with Some f => f t | None => None end.

Record Relation (A : Type) : Type := {
  definition : relationDefinition;
  assign : option (P -> A -> P)
}.
Arguments definition {A} _.
Arguments assign {A} _.

(** [NewBelongsTo], [NewHasOne], [NewHasMany], with the message for a missing callback. *)
Definition new_relation {A} (message : string) (parent : Table P) (target : Table T)
    (pc tc : Column) (pk : option (P -> option K)) (tk : option (T -> option K))
    (asg : option (P -> A -> P)) (ParameterLimit : Z) : result (Relation A) :=
  try d := newRelationDefinition parent target pc tc pk tk ParameterLimit in
  match asg with
  | None => Err (Errorf message)
  | Some f => Ok {| definition := d; assign := Some f |}
  end.
Definition NewBelongsTo := @new_relation (option T) "orm: belongs-to requires an assign callback".
Definition NewHasOne := @new_relation (option T) "orm: has-one requires an assign callback".
Definition NewHasMany := @new_relation (list T) "orm: has-many requires an assign callback".

(** [Build] of the three relations: the statements [Load] issues. *)
Definition relation_build {A} (message : string) (rel : Relation A) (parents : list P)
    (scope : SelectBuilder T) : result (list Statement) :=
  try _ := relation_validate (definition rel) in
  if absent (assign rel) then Err (Errorf message)
  else buildScopedRelationStatements (definition rel)
         (uniqueKeys parents (parent_key (definition rel))) scope.
Definition BelongsToBuild := @relation_build (option T) "orm: invalid belongs-to relation".
Definition HasOneBuild := @relation_build (option T) "orm: invalid has-one relation".
Definition HasManyBuild := @relation_build (list T) "orm: invalid has-many relation".

(** The loops over returned items: one target per key, or the targets of a key in order. *)
Fixpoint group_one (no_key twice : string) (d : relationDefinition) (byKey : gmap K T)
    (items : list T) : result (gmap K T) :=
  match items with
  | [] => Ok byKey
  | item :: rest =>
      match target_key d item with
      | None => Err (Errorf no_key)
      | Some k =>
          if bool_decide (is_Some (byKey !! k)) then Err (Errorf twice)
          else group_one no_key twice d (<[k := item]> byKey) rest
      end
  end.

Fixpoint group_many (no_key : string) (d : relationDefinition) (byKey : gmap K (list T))
    (items : list T) : result (gmap K (list T)) :=
  match items with
  | [] => Ok byKey
  | item :: rest =>
      match target_key d item with
      | None => Err (Errorf no_key)
      | Some k => group_many no_key d (<[k := default [] (byKey !! k) ++ [item]]> byKey) rest
      end
  end.

Section Load.
Context {W : Type} (db : driver W) (ctx : nat -> option error).

(** [for _, statement := range statements]: context check, query, grouping. *)
Fixpoint load_statements {A} (group : A -> list T -> result A) (e : Executor)
    (target : Table T) (i : nat) (acc : A) (sts : list Statement) : M (world W) A :=
  match sts with
  | [] => ret acc
  | st :: rest =>
      match ctx i with
      | Some err => throw err
      | None =>
          let! items := queryModels db e target st in
          let! acc' := of_result (group acc items) in
          load_statements group e target (S i) acc' rest
      end
  end.

Definition assigned_with {A} (rel : Relation A) (value_of : option K -> A) (p : P) : P :=
  match assign rel with
  | Some f => f p (value_of (parent_key (definition rel) p))
  | None => p
  end.

Definition load {A G} (build : Relation A -> list P -> SelectBuilder T -> result (list Statement))
    (group : G -> list T -> result G) (empty : G) (value_of : G -> option K -> A)
    (rel : Relation A) (e : Executor) (parents : list P) (scope : SelectBuilder T)
    : M (world W) (list P) :=
  do! of_result (validateExecutor e false) in
  let! sts := of_result (build rel parents scope) in
  let! byKey := load_statements group e (r_target (definition rel)) 0 empty sts in
  ret (map (assigned_with rel (value_of byKey)) parents).

Definition one_of (byKey : gmap K T) (k : option K) : option T :=
  match k with Some k => byKey !! k | None => None end.
Definition many_of (byKey : gmap K (list T)) (k : option K) : list T :=
  match k with Some k => default [] (byKey !! k) | None => [] end.

Definition BelongsToLoad (rel : Relation (option T)) :=
  load BelongsToBuild
    (group_one "orm: belongs-to target returned no relation key"
               "orm: belongs-to target key is not unique" (definition rel)) ∅ one_of rel.
Definition HasOneLoad (rel : Relation (option T)) :=
  load HasOneBuild
    (group_one "orm: has-one target returned no foreign key"
               "orm: has-one relation returned multiple targets" (definition rel)) ∅ one_of rel.
Definition HasManyLoad (rel : Relation (list T)) :=
  load HasManyBuild
    (group_many "orm: has-many target returned no foreign key" (definition rel)) ∅ many_of rel.
End Load.
End Relations.
Arguments definition {P T K A} _.
Arguments assign {P T K A} _.

(** ** Many to many *)

Section ManyToMany.
Context {P T PK TK : Type} `{Countable PK} `{Countable TK}
  (pkValue : PK -> value) (tkValue : TK -> value).

Record ManyToMany : Type := {
  m_parent : Table P;
  m_target : Table T;
  m_parentKeyColumn : Column;
  m_targetKeyColumn : Column;
  joinTable : string;
  joinParentColumn : string;
  joinTargetColumn : string;
  m_parentKey : option (P -> option PK);
  m_targetKey : option (T -> option TK);
  m_scan : option (row -> result (PK * T));
  m_assign : option (P -> list T -> P);
  m_limit : Z
}.

Definition m_validate (rel : ManyToMany) : result unit :=
  try _ := table_validate (m_parent rel) in
  try _ := table_validate (m_target rel) in
  if negb (belongs (m_parentKeyColumn rel) (m_parent rel)) ||
     negb (belongs (m_targetKeyColumn rel) (m_target rel)) ||
     bool_decide (joinTable rel = EmptyString) ||
     bool_decide (joinParentColumn rel = EmptyString) ||
     bool_decide (joinTargetColumn rel = EmptyString) ||
     absent (m_parentKey rel) || absent (m_targetKey rel) || absent (m_scan rel) ||
     absent (m_assign rel) || (m_limit rel <? 1) || (PostgreSQLParameterLimit <? m_limit rel)
  then Err (Errorf "orm: invalid many-to-many relation") else Ok tt.

Definition NewManyToMany (parent : Table P) (target : Table T) (pkc tkc : Column)
    (joinTableName joinParentColumnName joinTargetColumnName : string)
    (pk : option (P -> option PK)) (tk : option (T -> option TK))
    (sc : option (row -> result (PK * T))) (asg : option (P -> list T -> P))
    (ParameterLimit : Z) : result ManyToMany :=
  try _ := table_validate parent in
  try _ := table_validate target in
  if negb (belongs pkc parent) || negb (belongs tkc target)
  then Err (Errorf "orm: many-to-many keys do not belong to their declared tables")
  else
  try jt := newIdentifier joinTableName in
  try jp := newIdentifier joinParentColumnName in
  try jtc := newIdentifier joinTargetColumnName in
  if absent pk || absent tk || absent sc || absent asg
  then Err (Errorf "orm: many-to-many requires key, scan, and assign callbacks")
  else try limit := parameterLimit ParameterLimit in
  Ok {| m_parent := parent; m_target := target; m_parentKeyColumn := pkc;
        m_targetKeyColumn := tkc; joinTable := jt; joinParentColumn := jp;
        joinTargetColumn := jtc; m_parentKey := pk; m_targetKey := tk; m_scan := sc;
        m_assign := asg; m_limit := limit |}.

Definition buildChunk (rel : ManyToMany) (scope : SelectBuilder T) (keys : list PK)
    : result Statement :=
  let t := m_target rel in
  let body : M sqlCompiler string :=
    let! wh := writePredicates (tname t) (identity t) (sb_predicates scope) in
    let! ps := mapM_ (fun k => bind (pkValue k)) keys in
    let! ord := writeOrders (tname t) (identity t) (sb_orders scope) in
    ret ("SELECT " +:+ qualified_name (joinTable rel) (joinParentColumn rel) +:+ ", " +:+
         writeMappedColumns t +:+ " FROM " +:+ quoted (tname t) +:+ " JOIN " +:+
         quoted (joinTable rel) +:+ " ON " +:+
         qualified_name (joinTable rel) (joinTargetColumn rel) +:+ " = " +:+
         qualified (m_targetKeyColumn rel) +:+ wh +:+
         (if bool_decide (sb_predicates scope = []) then " WHERE " else " AND ") +:+
         qualified_name (joinTable rel) (joinParentColumn rel) +:+ " IN (" +:+
         Join ps ", " +:+ ")" +:+ ord) in
  match body [] with
  | (Err e, _) => Err e
  | (Ok q, args) =>
      if m_limit rel <? Z.of_nat (length args)
      then Err (Errorf "orm: relation statement exceeds the parameter limit")
      else newCompiledStatement q args
  end.

Definition m_parent_key (rel : ManyToMany) (p : P) : option PK :=
  match m_parentKey rel with Some f => f p | None => None end.

(** [ManyToMany.Build] *)
Definition m_build (rel : ManyToMany) (parents : list P) (scope : SelectBuilder T)
    : result (list Statement) :=
  try _ := m_validate rel in
  let keys := uniqueKeys parents (m_parent_key rel) in
  try baseArgs := validateRelationScope (m_target rel) scope in
  if bool_decide (keys = []) then Ok []
  else
    let batchSize := m_limit rel - baseArgs in
    if batchSize <? 1 then Err (Errorf "orm: relation scope exhausts the parameter limit")
    else in_batches (length keys) (Z.to_nat batchSize) (buildChunk rel scope) keys.

(** The maps [byParent] and [seen] of [Load]. *)
Record joined : Type := { byParent : gmap PK (list T); seenPairs : gset (PK * TK) }.

Definition join_row (rel : ManyToMany) (acc : joined) (r : row) : result joined :=
  match m_scan rel, m_targetKey rel with
  | Some sc, Some tk =>
      match sc r with
      | Err e => Err (persistenceError OperationSelect (tname (m_target rel)) e)
      | Ok (pk, target) =>
          match tk target with
          | None => Err (Errorf "orm: many-to-many target returned no key")
          | Some k =>
              if bool_decide ((pk, k) ∈ seenPairs acc) then Ok acc
              else Ok {| byParent := <[pk := default [] (byParent acc !! pk) ++ [target]]>
                                       (byParent acc);
                         seenPairs := {[(pk, k)]} ∪ seenPairs acc |}
          end
      end
  | _, _ => Err (Errorf "nil pointer dereference")
  end.

Fixpoint join_rows (rel : ManyToMany) (acc : joined) (rows : list row) : result joined :=
  match rows with
  | [] => Ok acc
  | r :: rest => try acc' := join_row rel acc r in join_rows rel acc' rest
  end.

(** The closure [readErr] with its deferred [Close]. *)
Definition read_joined (rel : ManyToMany) (acc : joined) (rs : rowset) : result joined :=
  let wrap := persistenceError OperationSelect (tname (m_target rel)) in
  let body :=
    match join_rows rel acc (rs_rows rs) with
    | Err e => Err e
    | Ok acc' => match rs_err rs with Some e => Err (wrap e) | None => Ok acc' end
    end in
  match rs_close rs with
  | None => body
  | Some e => Err (errors_Join (match body with Err b => Some b | Ok _ => None end) (wrap e))
  end.

Section Run.
Context {W : Type} (db : driver W) (ctx : nat -> option error).

Fixpoint m_load_statements (rel : ManyToMany) (e : Executor) (i : nat) (acc : joined)
    (sts : list Statement) : M (world W) joined :=
  match sts with
  | [] => ret acc
  | st :: rest =>
      match ctx i with
      | Some err => throw err
      | None =>
          let! rs := persistM OperationSelect (tname (m_target rel)) (QueryContext db e st) in
          let! acc' := of_result (read_joined rel acc rs) in
          m_load_statements rel e (S i) acc' rest
      end
  end.

(** [ManyToMany.Load] *)
Definition m_load (rel : ManyToMany) (e : Executor) (parents : list P)
    (scope : SelectBuilder T) : M (world W) (list P) :=
  do! of_result (validateExecutor e false) in
  let! sts := of_result (m_build rel parents scope) in
  let! acc := m_load_statements rel e 0 {| byParent := ∅; seenPairs := ∅ |} sts in
  ret (map (fun p =>
    match m_assign rel with
    | None => p
    | Some f => f p (match m_parent_key rel p with
                     | None => []
                     | Some k => default [] (byParent acc !! k)
                     end)
    end) parents).

Definition pair_statement (rel : ManyToMany) (pk : PK) (tk : TK) (q : string)
    : result Statement :=
  try _ := m_validate rel in
  if isNilValue (pkValue pk) || isNilValue (tkValue tk)
  then Err (Errorf "orm: relation keys cannot be nil")
  else newCompiledStatement q [pkValue pk; tkValue tk].

Definition BuildAttach (rel : ManyToMany) (pk : PK) (tk : TK) : result Statement :=
  pair_statement rel pk tk
    ("INSERT INTO " +:+ quoted (joinTable rel) +:+ " (" +:+
     quoted (joinParentColumn rel) +:+ ", " +:+ quoted (joinTargetColumn rel) +:+
     ") VALUES ($1, $2) ON CONFLICT (" +:+ quoted (joinParentColumn rel) +:+ ", " +:+
     quoted (joinTargetColumn rel) +:+ ") DO NOTHING").

Definition BuildDetach (rel : ManyToMany) (pk : PK) (tk : TK) : result Statement :=
  pair_statement rel pk tk
    ("DELETE FROM " +:+ quoted (joinTable rel) +:+ " WHERE " +:+
     quoted (joinParentColumn rel) +:+ " = $1 AND " +:+
     quoted (joinTargetColumn rel) +:+ " = $2").

Definition run_pair (op : Operation) (rel : ManyToMany) (e : Executor)
    (build : result Statement) : M (world W) bool :=
  do! of_result (validateExecutor e false) in
  let! st := of_result build in
  let! rows := exec_rows db e op (joinTable rel) st in
  ret (0 <? rows).
Definition Attach (rel : ManyToMany) (e : Executor) (pk : PK) (tk : TK) :=
  run_pair OperationInsert rel e (BuildAttach rel pk tk).
Definition Detach (rel : ManyToMany) (e : Executor) (pk : PK) (tk : TK) :=
  run_pair OperationDelete rel e (BuildDetach rel pk tk).
End Run.
End ManyToMany.
