(* ===== verification/OrmErrors.v ===== *)
(** * Persistence errors and their classification ([orm/errors.go], [orm/postgres/classify.go])

    Error values as the two packages see them.  A driver error ([pgconn.PgError]) is a leaf
    with the fields the classifier reads and the message and detail it must not disclose. *)

From S2P Require Import Prelude GoStrings Orm.
Local Open Scope Z_scope.

Inductive ConstraintKind : Type :=
| ConstraintUnique | ConstraintForeignKey | ConstraintNotNull | ConstraintCheck.
Inductive TransientKind : Type := TransientSerialization | TransientDeadlock.

Record PgError : Type := {
  Code : string; ConstraintName : string; ColumnName : string;
  Message : string; Detail : string
}.

(** [EWrap] is [fmt.Errorf] with one [%w], [EMulti] an error with [Unwrap() []error]:
    [errors.Join], or [fmt.Errorf] with several [%w] and its own text. *)
Inductive goerr : Type :=
| ESentinel (name : string)
| EWrap (text : string) (cause : goerr)
| EMulti (text : option string) (causes : list goerr)
| EPersistence (op : Operation) (table : string) (cause : option goerr)
| EConstraint (kind : ConstraintKind) (name : string) (code : string) (cause : option goerr)
| ETransient (kind : TransientKind) (code : string) (cause : option goerr)
| ESafe (code : string) (cause : goerr)
| EPg (pg : PgError).

Section GoerrInd.
Context (Q : goerr -> Prop) (Hs : forall n, Q (ESentinel n))
  (Hw : forall t e, Q e -> Q (EWrap t e))
  (Hm : forall t es, Forall Q es -> Q (EMulti t es))
  (Hp : forall op t c, match c with Some e => Q e | None => True end -> Q (EPersistence op t c))
  (Hc : forall k n c o, match o with Some e => Q e | None => True end -> Q (EConstraint k n c o))
  (Ht : forall k c o, match o with Some e => Q e | None => True end -> Q (ETransient k c o))
  (Hsafe : forall c e, Q e -> Q (ESafe c e)) (Hpg : forall p, Q (EPg p)).
Fixpoint goerr_ind' (e : goerr) : Q e :=
  let opt := fun o : option goerr =>
    match o return match o with Some e => Q e | None => True end with
    | Some e => goerr_ind' e | None => I end in
  match e with
  | ESentinel n => Hs n
  | EWrap t e => Hw t e (goerr_ind' e)
  | EMulti t es => Hm t es ((fix go l : Forall Q l :=
      match l with [] => Forall_nil_2 Q | x :: r => Forall_cons_2 Q x r (goerr_ind' x) (go r) end) es)
  | EPersistence op t c => Hp op t c (opt c)
  | EConstraint k n c o => Hc k n c o (opt o)
  | ETransient k c o => Ht k c o (opt o)
  | ESafe c e => Hsafe c e (goerr_ind' e)
  | EPg p => Hpg p
  end.
End GoerrInd.

(** ** Sentinels and [errors.Is] *)

Definition ErrUniqueName : string := "orm: unique constraint violation".
Definition ErrForeignKeyName : string := "orm: foreign key constraint violation".
Definition ErrNotNullName : string := "orm: not-null constraint violation".
Definition ErrCheckName : string := "orm: check constraint violation".
Definition ErrSerializationName : string := "orm: serialization failure".
Definition ErrDeadlockName : string := "orm: deadlock detected".
Definition Canceled : string := "context canceled".
Definition DeadlineExceeded : string := "context deadline exceeded".

(** [ConstraintError.Is], [TransientError.Is] *)
Definition constraint_target (k : ConstraintKind) : string :=
  match k with
  | ConstraintUnique => ErrUniqueName | ConstraintForeignKey => ErrForeignKeyName
  | ConstraintNotNull => ErrNotNullName | ConstraintCheck => ErrCheckName
  end.
Definition transient_target (k : TransientKind) : string :=
  match k with
  | TransientSerialization => ErrSerializationName | TransientDeadlock => ErrDeadlockName
  end.

(** [errors.Is(err, target)] for a sentinel target. *)
Fixpoint Is_ (e : goerr) (target : string) : bool :=
  let opt := fun o => match o with Some c => Is_ c target | None => false end in
  match e with
  | ESentinel n => (n =? target)%string
  | EWrap _ c | ESafe _ c => Is_ c target
  | EMulti _ cs => existsb (fun c => Is_ c target) cs
  | EPersistence _ _ o => opt o
  | EConstraint k _ _ o => (constraint_target k =? target)%string || opt o
  | ETransient k _ o => (transient_target k =? target)%string || opt o
  | EPg _ => false
  end.

(** [errors.As(err, &pgError)]: the first driver error in depth-first order. *)
Fixpoint As_pg (e : goerr) : option PgError :=
  let opt := fun o => match o with Some c => As_pg c | None => None end in
  match e with
  | ESentinel _ => None
  | EWrap _ c | ESafe _ c => As_pg c
  | EMulti _ cs =>
      (fix first (l : list goerr) : option PgError :=
         match l with
         | [] => None
         | c :: r => match As_pg c with Some p => Some p | None => first r end
         end) cs
  | EPersistence _ _ o | EConstraint _ _ _ o | ETransient _ _ o => opt o
  | EPg p => Some p
  end.

(** ** [Error()] *)

Definition kind_string (k : ConstraintKind) : string :=
  match k with
  | ConstraintUnique => "unique" | ConstraintForeignKey => "foreign_key"
  | ConstraintNotNull => "not_null" | ConstraintCheck => "check"
  end.
Definition transient_string (k : TransientKind) : string :=
  match k with TransientSerialization => "serialization" | TransientDeadlock => "deadlock" end.

Definition constraint_text (k : ConstraintKind) (name code : string) : string :=
  if (name =? EmptyString)%string then
    if (code =? EmptyString)%string then "orm: " +:+ kind_string k +:+ " constraint violation"
    else "orm: " +:+ kind_string k +:+ " constraint violation (" +:+ code +:+ ")"
  else if (code =? EmptyString)%string
  then "orm: " +:+ kind_string k +:+ " constraint " +:+ name +:+ " violated"
  else "orm: " +:+ kind_string k +:+ " constraint " +:+ name +:+ " violated (" +:+ code +:+ ")".

Definition transient_text (k : TransientKind) (code : string) : string :=
  if (code =? EmptyString)%string then "orm: transient " +:+ transient_string k +:+ " failure"
  else "orm: transient " +:+ transient_string k +:+ " failure (" +:+ code +:+ ")".

Definition newline : string := String (chr 10) EmptyString.

(** A [PgError] prints its message; wrappers print their causes. *)
Fixpoint Error_ (e : goerr) : string :=
  match e with
  | ESentinel n => n
  | EWrap t c => t +:+ ": " +:+ Error_ c
  | EMulti (Some t) cs => t +:+ ": " +:+ Join (map Error_ cs) ", "
  | EMulti None cs => Join (map Error_ cs) newline
  | EPersistence op t o =>
      let plain := "orm: " +:+ operation_string op +:+ " " +:+ t +:+ " failed" in
      match o with
      | Some ((EConstraint _ _ _ _ | ETransient _ _ _) as c) => plain +:+ ": " +:+ Error_ c
      | _ => plain
      end
  | EConstraint k n c _ => constraint_text k n c
  | ETransient k c _ => transient_text k c
  | ESafe code _ => "postgres: SQLSTATE " +:+ code
  | EPg p => "ERROR: " +:+ Message p +:+ " (SQLSTATE " +:+ Code p +:+ ")"
  end.

(** ** [Classify] *)

Definition codeUnique : string := "23505".
Definition codeForeignKey : string := "23503".
Definition codeNotNull : string := "23502".
Definition codeCheck : string := "23514".
Definition codeSerialization : string := "40001".
Definition codeDeadlock : string := "40P01".

Definition constraintError (k : ConstraintKind) (name : string) (cause : goerr) : goerr :=
  EConstraint k name (match As_pg cause with Some p => Code p | None => EmptyString end)
    (Some cause).

(** The end of [classify]: [err] wraps the driver error [p]; [None] is an unknown code. *)
Definition classify_pg (err : goerr) (p : PgError) : option goerr :=
  let cause := ESafe (Code p) err in
  if (Code p =? codeUnique)%string
  then Some (constraintError ConstraintUnique (ConstraintName p) cause)
  else if (Code p =? codeForeignKey)%string
  then Some (constraintError ConstraintForeignKey (ConstraintName p) cause)
  else if (Code p =? codeNotNull)%string
  then Some (constraintError ConstraintNotNull
         (if (ConstraintName p =? EmptyString)%string then ColumnName p else ConstraintName p) cause)
  else if (Code p =? codeCheck)%string
  then Some (constraintError ConstraintCheck (ConstraintName p) cause)
  else if (Code p =? codeSerialization)%string
  then Some (ETransient TransientSerialization (Code p) (Some cause))
  else if (Code p =? codeDeadlock)%string
  then Some (ETransient TransientDeadlock (Code p) (Some cause))
  else None.

Definition classify_chain (err : goerr) : option goerr :=
  match As_pg err with None => None | Some p => classify_pg err p end.

(** [classify]: [None] is [(err, false)]. *)
Fixpoint classify (err : goerr) : option goerr :=
  match err with
  | EPersistence op table cause =>
      match cause with
      | None => None
      | Some c => match classify c with
                  | Some c' => Some (EPersistence op table (Some c'))
                  | None => None
                  end
      end
  | EConstraint _ _ _ _ | ETransient _ _ _ => None
  | EMulti _ causes =>
      let rs := map classify causes in
      if existsb (fun r => match r with Some _ => true | None => false end) rs
      then Some (EMulti None (zip_with (fun c r => default c r) causes rs))
      else None
  | EWrap _ c | ESafe _ c =>
      match classify c with
      | Some c' => Some c'
      | None => classify_chain err
      end
  | ESentinel _ | EPg _ => classify_chain err
  end.

Definition Classify (err : goerr) : goerr :=
  if Is_ err Canceled || Is_ err DeadlineExceeded then err
  else default err (classify err).

(** ** What classification does *)

(** The driver errors of a tree, in depth-first order. *)
Fixpoint pgs (e : goerr) : list PgError :=
  let opt := fun o => match o with Some c => pgs c | None => [] end in
  match e with
  | ESentinel _ => []
  | EWrap _ c | ESafe _ c => pgs c
  | EMulti _ cs => concat (map pgs cs)
  | EPersistence _ _ o | EConstraint _ _ _ o | ETransient _ _ o => opt o
  | EPg p => [p]
  end.

(** An error no classifier has seen. *)
Fixpoint fresh (e : goerr) : bool :=
  match e with
  | ESentinel _ | EPg _ => true
  | EWrap _ c => fresh c
  | EMulti _ cs => forallb fresh cs
  | EPersistence _ _ o => match o with Some c => fresh c | None => true end
  | EConstraint _ _ _ _ | ETransient _ _ _ | ESafe _ _ => false
  end.

(** The sentinel a SQLSTATE stands for. *)
Definition code_target (code : string) : option string :=
  if (code =? codeUnique)%string then Some ErrUniqueName
  else if (code =? codeForeignKey)%string then Some ErrForeignKeyName
  else if (code =? codeNotNull)%string then Some ErrNotNullName
  else if (code =? codeCheck)%string then Some ErrCheckName
  else if (code =? codeSerialization)%string then Some ErrSerializationName
  else if (code =? codeDeadlock)%string then Some ErrDeadlockName
  else None.

Definition stands_for (target : string) (p : PgError) : bool :=
  bool_decide (code_target (Code p) = Some target).

Lemma As_pg_multi t cs : As_pg (EMulti t cs) = head (omap As_pg cs).
Proof.
  induction cs as [|c cs IH]; [done|]. cbn in *. destruct (As_pg c); [done|]. exact IH.
Qed.

Lemma As_pg_head e : As_pg e = head (pgs e).
Proof.
  induction e as [| |t es IH|op t [c|] IH|k n c [o|] IH|k c [o|] IH| |] using goerr_ind'; try done.
  rewrite As_pg_multi. cbn [pgs]. induction IH as [|e es He _ IH]; [done|]. cbn [map concat].
  cbn. rewrite He. by destruct (pgs e).
Qed.

Lemma classify_pg_spec err p e' :
  classify_pg err p = Some e' -> As_pg err = Some p ->
  As_pg e' = Some p /\
  (forall target, Is_ e' target = Is_ err target || stands_for target p) /\
  (forall err' p', Code p' = Code p -> ConstraintName p' = ConstraintName p ->
     ColumnName p' = ColumnName p -> As_pg err' = Some p' ->
     exists e'', classify_pg err' p' = Some e'' /\ Error_ e'' = Error_ e' /\
       (forall op t, Error_ (EPersistence op t (Some e'')) = Error_ (EPersistence op t (Some e')))).
Proof.
  unfold classify_pg, stands_for, code_target, constraintError. intros H Ha.
  repeat match goal with
  | H : (if ?b then _ else _) = Some _ |- _ => destruct b eqn:?; [|]
  end; try done; injection H as <-; cbn [Is_ As_pg]; rewrite ?Ha; (split; [done|split]);
    try (intros target; rewrite orb_comm; f_equal; unfold constraint_target, transient_target;
         apply eq_true_iff_eq; rewrite String.eqb_eq, bool_decide_eq_true; split; congruence);
    intros err' p' Hc Hn Hcol Ha'; rewrite Hc, Hn, Hcol, Ha';
    repeat match goal with
    | E : (Code p =? _)%string = _ |- _ => rewrite E; clear E
    end; eexists; (split; [reflexivity|]); cbn [Error_ As_pg]; by rewrite ?Ha', ?Ha, ?Hc.
Qed.

Lemma classify_pg_none err p : classify_pg err p = None -> code_target (Code p) = None.
Proof. unfold classify_pg, code_target. by repeat (case_match; [done|]). Qed.

Lemma zip_default (es : list goerr) :
  zip_with (fun c r => default c r) es (map classify es) = map (fun c => default c (classify c)) es.
Proof. induction es as [|e es IH]; [done|]. cbn. by rewrite IH. Qed.

(** Nothing is lost or gained by a classification of an unclassified tree except the
    sentinels its SQLSTATEs stand for; an unclassified result has no known SQLSTATE. *)
Lemma classify_faithful e :
  fresh e = true ->
  As_pg (default e (classify e)) = As_pg e /\
  (forall target, Is_ (default e (classify e)) target =
     Is_ e target || existsb (stands_for target) (pgs e)) /\
  (classify e = None -> Forall (fun p => code_target (Code p) = None) (pgs e)).
Proof.
  induction e as [n|t e IH|t es IH|op t [c|] IH|k n c o _|k c o _|c e IH|p] using goerr_ind';
    cbn [fresh]; intros Hf; try done.
  - split_and!; [done| |constructor]. intros target. cbn. by rewrite orb_false_r.
  - specialize (IH Hf). destruct IH as (Ha & Hi & Hn). cbn [classify].
    destruct (classify e) as [e'|] eqn:E; [done|]. specialize (Hn eq_refl).
    assert (classify_chain (EWrap t e) = None) as ->.
    { unfold classify_chain. change (As_pg (EWrap t e)) with (As_pg e). rewrite As_pg_head.
      destruct (pgs e) as [|p ps]; [done|]. cbn. apply Forall_cons_1 in Hn as [Hn _].
      destruct (classify_pg (EWrap t e) p) as [e'|] eqn:Ep; [|done].
      unfold classify_pg, code_target in *. by repeat (case_match; [done|]). }
    split_and!; done.
  - rewrite forallb_forall in Hf. cbn [classify]. rewrite zip_default.
    assert (Forall (fun e => fresh e = true) es) as Hfr.
    { apply Forall_forall. intros x Hx. apply Hf. by apply list_elem_of_In. }
    clear Hf. destruct (existsb _ (map classify es)) eqn:Ex.
    + split_and!; [| |done].
      * cbn [from_option id]. rewrite !As_pg_multi. f_equal. clear Ex.
        induction IH as [|e es He _ IH]; [done|]. apply Forall_cons_1 in Hfr as [Hfe Hfr].
        destruct (He Hfe) as (Ha & _). cbn. rewrite Ha, (IH Hfr). done.
      * intros target. cbn [from_option id Is_ pgs]. clear Ex.
        induction IH as [|e es He _ IH]; [done|]. apply Forall_cons_1 in Hfr as [Hfe Hfr].
        destruct (He Hfe) as (_ & Hi & _). cbn [map existsb concat].
        rewrite existsb_app, Hi, (IH Hfr).
        destruct (Is_ e target), (existsb _ es), (existsb (stands_for target) (pgs e)); done.
    + assert (Forall (fun p => code_target (Code p) = None) (pgs (EMulti t es))) as Hall.
      { cbn [pgs]. induction IH as [|e es He _ IH]; [constructor|].
        apply Forall_cons_1 in Hfr as [Hfe Hfr]. cbn [map existsb] in Ex.
        apply orb_false_iff in Ex as [Ex1 Ex2]. cbn [map concat]. apply Forall_app. split; [|auto].
        destruct (He Hfe) as (_ & _ & Hn). apply Hn. by destruct (classify e). }
      split_and!; [done| |done]. intros target. cbn [from_option id].
      destruct (existsb (stands_for target) _) eqn:Es; [|by rewrite orb_false_r].
      apply existsb_exists in Es as (p & Hp & Hs). unfold stands_for in Hs. bool_to_prop.
      rewrite Forall_forall in Hall. apply list_elem_of_In in Hp. apply Hall in Hp. congruence.
  - specialize (IH Hf). destruct IH as (Ha & Hi & Hn). cbn [classify].
    destruct (classify c) as [c'|] eqn:E; (split_and!; [exact Ha|exact Hi|by auto]).
  - cbn [classify]. unfold classify_chain. cbn [As_pg].
    destruct (classify_pg (EPg p) p) as [e'|] eqn:E.
    + destruct (classify_pg_spec _ _ _ E eq_refl) as (Ha & Hi & _). split_and!; [done| |done].
      intros target. cbn [from_option id]. rewrite Hi. cbn. by rewrite orb_false_r.
    + apply classify_pg_none in E. split_and!; [done| |by repeat constructor].
      intros target. cbn. unfold stands_for. rewrite E. by rewrite bool_decide_eq_false_2.
Qed.

(** The tree without what a driver or a wrapper wrote about submitted values. *)
Fixpoint redact (e : goerr) : goerr :=
  match e with
  | EWrap _ c => EWrap EmptyString (redact c)
  | EMulti _ cs => EMulti None (map redact cs)
  | EPersistence op t o => EPersistence op t (option_map redact o)
  | EConstraint k n c o => EConstraint k n c (option_map redact o)
  | ETransient k c o => ETransient k c (option_map redact o)
  | ESafe c e => ESafe c (redact e)
  | ESentinel n => ESentinel n
  | EPg p => EPg {| Code := Code p; ConstraintName := ConstraintName p;
                    ColumnName := ColumnName p; Message := EmptyString; Detail := EmptyString |}
  end.

(** A chain: no error has several causes. *)
Fixpoint chain (e : goerr) : bool :=
  match e with
  | ESentinel _ | EPg _ => true
  | EWrap _ c | ESafe _ c => chain c
  | EMulti _ _ => false
  | EPersistence _ _ o | EConstraint _ _ _ o | ETransient _ _ o =>
      match o with Some c => chain c | None => true end
  end.

Lemma classify_wrap_fresh t e : fresh e = true -> classify (EWrap t e) = classify e.
Proof.
  intros Hf. destruct (classify_faithful e Hf) as (_ & _ & Hn). cbn [classify].
  destruct (classify e) as [e'|]; [done|]. specialize (Hn eq_refl).
  unfold classify_chain. change (As_pg (EWrap t e)) with (As_pg e). rewrite As_pg_head.
  destruct (pgs e) as [|p ps]; [done|]. apply Forall_cons_1 in Hn as [Hn _]. cbn.
  unfold classify_pg, code_target in *. by repeat (case_match; [done|]).
Qed.

Lemma classify_discreet e1 e2 r1 :
  fresh e1 = true -> fresh e2 = true -> chain e1 = true -> redact e1 = redact e2 ->
  classify e1 = Some r1 ->
  exists r2, classify e2 = Some r2 /\ Error_ r2 = Error_ r1 /\
    (forall op t, Error_ (EPersistence op t (Some r2)) = Error_ (EPersistence op t (Some r1))).
Proof.
  revert e2 r1; induction e1 as [n|t e IH|t es _|op t [c|] IH|k n c o _|k c o _|c e IH|p]
    using goerr_ind'; intros e2 r1 Hf1 Hf2 Hch Hr H; try done.
  - destruct e2; try done. cbn in Hr. injection Hr as Hr. cbn [fresh chain] in *.
    rewrite classify_wrap_fresh in * by done. by apply IH.
  - destruct e2 as [| | |op' t' [c'|] | | | |]; try done. cbn in Hr. injection Hr as -> -> Hr.
    cbn [classify] in *. destruct (classify c) as [r|] eqn:E; [|done]. injection H as <-.
    destruct (IH c' r Hf1 Hf2 Hch Hr eq_refl) as (r2 & Hc2 & _ & Hp). rewrite Hc2.
    eexists. split; [done|]. split; [apply Hp|done].
  - destruct e2 as [| | | | | | |p2]; try done. cbn in Hr. injection Hr as Hc Hn Hcol.
    cbn [classify] in *. unfold classify_chain in *. cbn [As_pg] in *.
    destruct (classify_pg_spec _ _ _ H eq_refl) as (_ & _ & Ht).
    by apply (Ht (EPg p2) p2).
Qed.

(** Classifying a persistence error is faithful and discreet.  For an error tree no
    classifier has seen, [Classify] keeps the driver error [errors.As] finds and every
    [errors.Is] answer, and adds exactly the sentinels that the SQLSTATEs in the tree stand
    for (unique, foreign key, not null, check, serialization, deadlock); a cancelled or
    expired context passes through unchanged.  When a chain is classified, the text of the
    result does not depend on what the driver reported as message or detail nor on the texts
    of the wrappers around it. *)
Theorem classification_is_faithful_and_discreet e :
  fresh e = true ->
  (Is_ e Canceled || Is_ e DeadlineExceeded = true -> Classify e = e) /\
  As_pg (Classify e) = As_pg e /\
  (Is_ e Canceled || Is_ e DeadlineExceeded = false -> forall target,
     Is_ (Classify e) target = Is_ e target || existsb (stands_for target) (pgs e)) /\
  (forall e2 r1, fresh e2 = true -> chain e = true -> redact e = redact e2 ->
     classify e = Some r1 -> exists r2, classify e2 = Some r2 /\ Error_ r2 = Error_ r1).
Proof.
  intros Hf. destruct (classify_faithful e Hf) as (Ha & Hi & _). unfold Classify. split_and!.
  - by intros ->.
  - by case_match.
  - intros ->. done.
  - intros e2 r1 Hf2 Hc Hr H. destruct (classify_discreet _ _ _ Hf Hf2 Hc Hr H) as (r2 & ? & ? & _).
    eauto.
Qed.

Definition duplicate_email : PgError :=
  {| Code := "23505"; ConstraintName := "users_email_key"; ColumnName := EmptyString;
     Message := "duplicate key value violates unique constraint";
     Detail := "Key (email)=(a@example.com) already exists." |}.

Lemma classification_is_faithful_and_discreet_witness :
  Is_ (Classify (EPersistence OperationInsert "users" (Some (EWrap "exec" (EPg duplicate_email)))))
    ErrUniqueName = true /\
  Error_ (Classify (EPersistence OperationInsert "users" (Some (EWrap "exec" (EPg duplicate_email)))))
    = "orm: insert users failed: orm: unique constraint users_email_key violated (23505)".
Proof.
  destruct (classification_is_faithful_and_discreet
    (EPersistence OperationInsert "users" (Some (EWrap "exec" (EPg duplicate_email)))))
    as (_ & _ & Hi & _); [reflexivity|].
  split; [rewrite Hi by reflexivity; vm_compute; reflexivity|vm_compute; reflexivity].
Defined.
