(* ===== verification/SqlText.v ===== *)
(** * A reference reading of SQL text

    What PostgreSQL makes of the statements the builders send: a lexer (quoted identifiers
    and string literals with doubled quotes, keywords, operators, [$n] parameters), a
    parser with the usual precedence [OR] < [AND] < [NOT] < comparison, and an evaluator
    with three-valued logic.  This is the specification side of the ORM: the theorems of
    [OrmProps] say what a compiled text means when it is read this way. *)

From S2P Require Import Prelude GoStrings GoRegexp Orm.
Local Open Scope Z_scope.

(** ** Tokens *)

Inductive token : Type :=
| TIdent (name : string)
| TWord (word : string)
| TParam (digits : string)
| TOp (op : string)
| TStr (literal : string)
| TLpar | TRpar | TComma | TDot.

#[export] Instance token_eq_dec : EqDecision token.
Proof. solve_decision. Defined.

(** The lexer is a machine over characters: what it has read of an unfinished token is in
    its state.  [LIdentEnd] and [LStrEnd] have seen a quote that closes the token unless
    another quote follows. *)
Inductive lstate : Type :=
| LStart
| LIdent (acc : string) | LIdentEnd (acc : string)
| LStr (acc : string) | LStrEnd (acc : string)
| LWord (acc : string) | LParam (acc : string) | LOp (acc : string).

Definition snoc (s : string) (c : ascii) : string := s +:+ String c EmptyString.
Definition squote : ascii := chr 39.
Definition wordC : ascii -> bool := cls_or lowerC (cls_or upperC (cls_or digitC (oneof "_"))).
Definition opC : ascii -> bool := oneof "=<>+*".

(** The next character when no token is open. *)
Definition begin (c : ascii) : option (list token * lstate) :=
  if Ascii.eqb c " " then Some ([], LStart)
  else if Ascii.eqb c "(" then Some ([TLpar], LStart)
  else if Ascii.eqb c ")" then Some ([TRpar], LStart)
  else if Ascii.eqb c "," then Some ([TComma], LStart)
  else if Ascii.eqb c "." then Some ([TDot], LStart)
  else if Ascii.eqb c dquote then Some ([], LIdent EmptyString)
  else if Ascii.eqb c squote then Some ([], LStr EmptyString)
  else if Ascii.eqb c "$" then Some ([], LParam EmptyString)
  else if wordC c then Some ([], LWord (snoc EmptyString c))
  else if opC c then Some ([], LOp (snoc EmptyString c))
  else None.

Definition emit (t : token) (r : option (list token * lstate)) : option (list token * lstate) :=
  match r with Some (ts, st) => Some (t :: ts, st) | None => None end.

Definition lex_step (st : lstate) (c : ascii) : option (list token * lstate) :=
  match st with
  | LStart => begin c
  | LIdent a => Some ([], if Ascii.eqb c dquote then LIdentEnd a else LIdent (snoc a c))
  | LIdentEnd a => if Ascii.eqb c dquote then Some ([], LIdent (snoc a c))
                   else emit (TIdent a) (begin c)
  | LStr a => Some ([], if Ascii.eqb c squote then LStrEnd a else LStr (snoc a c))
  | LStrEnd a => if Ascii.eqb c squote then Some ([], LStr (snoc a c))
                 else emit (TStr a) (begin c)
  | LWord a => if wordC c then Some ([], LWord (snoc a c)) else emit (TWord a) (begin c)
  | LParam a => if digitC c then Some ([], LParam (snoc a c))
                else if bool_decide (a = EmptyString) then None else emit (TParam a) (begin c)
  | LOp a => if opC c then Some ([], LOp (snoc a c)) else emit (TOp a) (begin c)
  end.

Definition lex_end (st : lstate) : option (list token) :=
  match st with
  | LStart => Some []
  | LIdentEnd a => Some [TIdent a]
  | LStrEnd a => Some [TStr a]
  | LWord a => Some [TWord a]
  | LParam a => if bool_decide (a = EmptyString) then None else Some [TParam a]
  | LOp a => Some [TOp a]
  | LIdent _ | LStr _ => None
  end.

Fixpoint lex_run (st : lstate) (s : string) : option (list token * lstate) :=
  match s with
  | EmptyString => Some ([], st)
  | String c rest =>
      match lex_step st c with
      | Some (ts, st') =>
          match lex_run st' rest with
          | Some (us, st'') => Some (ts ++ us, st'')
          | None => None
          end
      | None => None
      end
  end.

Definition lex (s : string) : option (list token) :=
  match lex_run LStart s with
  | Some (ts, st) => match lex_end st with Some us => Some (ts ++ us) | None => None end
  | None => None
  end.

(** The parameters of a text, in the order they are written. *)
Definition params (ts : list token) : list Z :=
  omap (fun t => match t with TParam d => Atoi d | _ => None end) ts.

(** ** Conditions *)

(** A parameter is its number. *)
Inductive cond : Type :=
| CCmp (table column op : string) (param : Z)
| CLike (fold : bool) (table column : string) (param : Z) (escape : string)
| CIn (table column : string) (ps : list Z)
| CIsNull (table column : string) (negated : bool)
| CConst (b : bool)
| CAnd (a b : cond)
| COr (a b : cond)
| CNot (a : cond).

Inductive level : Type := POr | PAnd | PNot.

Fixpoint parse_params (ts : list token) : option (list Z * list token) :=
  match ts with
  | TParam d :: TRpar :: rest =>
      match Atoi d with Some n => Some ([n], rest) | None => None end
  | TParam d :: TComma :: rest =>
      match Atoi d, parse_params rest with
      | Some n, Some (ns, r) => Some (n :: ns, r)
      | _, _ => None
      end
  | _ => None
  end.

Definition with_param (d : string) (rest : list token) (k : Z -> cond)
    : option (cond * list token) :=
  match Atoi d with Some n => Some (k n, rest) | None => None end.

Definition like_escape (ts : list token) : string * list token :=
  match ts with
  | TWord w :: TStr e :: rest => if (w =? "ESCAPE")%string then (e, rest) else ("\", ts)
  | _ => ("\", ts)
  end.

Definition parse_column_cond (t c : string) (ts : list token)
    : option (cond * list token) :=
  match ts with
  | TOp op :: TParam d :: rest => with_param d rest (CCmp t c op)
  | TWord w :: TLpar :: rest =>
      if (w =? "IN")%string then
        match parse_params rest with Some (ns, r) => Some (CIn t c ns, r) | None => None end
      else None
  | TWord w :: TParam d :: rest =>
      let '(esc, r) := like_escape rest in
      if (w =? "LIKE")%string then with_param d r (fun n => CLike false t c n esc)
      else if (w =? "ILIKE")%string then with_param d r (fun n => CLike true t c n esc)
      else None
  | TWord w :: TWord w2 :: rest =>
      if (w =? "IS")%string then
        if (w2 =? "NULL")%string then Some (CIsNull t c false, rest)
        else match rest with
        | TWord w3 :: rest' =>
            if (w2 =? "NOT")%string && (w3 =? "NULL")%string
            then Some (CIsNull t c true, rest') else None
        | _ => None
        end
      else None
  | _ => None
  end.

Definition parse_atom (ts : list token) : option (cond * list token) :=
  match ts with
  | TWord w :: rest =>
      if (w =? "TRUE")%string then Some (CConst true, rest)
      else if (w =? "FALSE")%string then Some (CConst false, rest) else None
  | TIdent t :: TDot :: TIdent c :: rest => parse_column_cond t c rest
  | _ => None
  end.

(** Recursive descent; the fuel bounds the nesting of calls. *)
Fixpoint parse_cond (l : level) (fuel : nat) (ts : list token) : option (cond * list token) :=
  match fuel with
  | O => None
  | S n =>
      match l with
      | POr =>
          match parse_cond PAnd n ts with
          | Some (a, TWord w :: r) =>
              if (w =? "OR")%string then
                match parse_cond POr n r with
                | Some (b, r') => Some (COr a b, r')
                | None => None
                end
              else Some (a, TWord w :: r)
          | x => x
          end
      | PAnd =>
          match parse_cond PNot n ts with
          | Some (a, TWord w :: r) =>
              if (w =? "AND")%string then
                match parse_cond PAnd n r with
                | Some (b, r') => Some (CAnd a b, r')
                | None => None
                end
              else Some (a, TWord w :: r)
          | x => x
          end
      | PNot =>
          match ts with
          | TLpar :: r =>
              match parse_cond POr n r with
              | Some (a, TRpar :: r') => Some (a, r')
              | _ => None
              end
          | TWord w :: r =>
              if (w =? "NOT")%string then
                match parse_cond PNot n r with
                | Some (a, r') => Some (CNot a, r')
                | None => None
                end
              else parse_atom ts
          | _ => parse_atom ts
          end
      end
  end.

Definition cond_fuel (ts : list token) : nat := 3 * length ts + 3.
Definition read_cond (ts : list token) : option (cond * list token) :=
  parse_cond POr (cond_fuel ts) ts.

(** ** Three-valued evaluation *)

Definition truth : Type := option bool.
Definition and3 (a b : truth) : truth :=
  match a, b with
  | Some false, _ | _, Some false => Some false
  | Some true, Some true => Some true
  | _, _ => None
  end.
Definition or3 (a b : truth) : truth :=
  match a, b with
  | Some true, _ | _, Some true => Some true
  | Some false, Some false => Some false
  | _, _ => None
  end.
Definition not3 (a : truth) : truth :=
  match a with Some b => Some (negb b) | None => None end.

(** A row of a table: the value of a column, [None] being NULL. *)
Definition tuple : Type := string -> option value.

(** [LIKE] with an escape character; two characters match when [eqc] says so. *)
Section Like.
Context (eqc : ascii -> ascii -> bool) (esc : ascii).
Fixpoint like_match (pattern subject : string) {struct pattern} : bool :=
  match pattern with
  | EmptyString => match subject with EmptyString => true | _ => false end
  | String c p =>
      if Ascii.eqb c esc then
        match p with
        | EmptyString => false
        | String d p' =>
            match subject with
            | String x s => eqc d x && like_match p' s
            | EmptyString => false
            end
        end
      else if Ascii.eqb c "%" then
        (fix star (s : string) : bool :=
           like_match p s || match s with String _ s' => star s' | EmptyString => false end)
          subject
      else if Ascii.eqb c "_" then
        match subject with String _ s => like_match p s | EmptyString => false end
      else
        match subject with
        | String x s => eqc c x && like_match p s
        | EmptyString => false
        end
  end.
End Like.

(** How the database compares: [cmp op x y] on two values that are not NULL, and [fold],
    the case folding of its collation. *)
Record collation : Type := {
  cmp : string -> value -> value -> bool;
  fold : ascii -> ascii
}.

Definition same_char (a b : ascii) : bool := Ascii.eqb a b.
Definition same_folded (col : collation) (a b : ascii) : bool :=
  Ascii.eqb (fold col a) (fold col b).

Section Eval.
Context (col : collation) (args : list value).

(** A parameter's value; an absent parameter or a nil argument is NULL. *)
Definition arg (n : Z) : option value :=
  match args !! Z.to_nat (n - 1) with
  | Some v => if isNilValue v then None else Some v
  | None => None
  end.

Definition compare3 (op : string) (x y : option value) : truth :=
  match x, y with Some a, Some b => Some (cmp col op a b) | _, _ => None end.

Definition like3 (eqc : ascii -> ascii -> bool) (esc : string) (x y : option value) : truth :=
  match x, y, esc with
  | Some (VString s), Some (VString p), String e EmptyString => Some (like_match eqc e p s)
  | _, _, _ => None
  end.

(** A condition on a row of the table [t]; a column of another table has no value here. *)
Fixpoint eval (t : string) (r : tuple) (e : cond) : truth :=
  let cell t' c := if (t' =? t)%string then r c else None in
  match e with
  | CCmp t' c op n => compare3 op (cell t' c) (arg n)
  | CLike folded t' c n esc =>
      like3 (if folded then same_folded col else same_char) esc (cell t' c) (arg n)
  | CIn t' c ns =>
      foldr (fun n acc => or3 (compare3 "=" (cell t' c) (arg n)) acc) (Some false) ns
  | CIsNull t' c negated =>
      Some (xorb negated (match cell t' c with None => true | Some _ => false end))
  | CConst b => Some b
  | CAnd a b => and3 (eval t r a) (eval t r b)
  | COr a b => or3 (eval t r a) (eval t r b)
  | CNot a => not3 (eval t r a)
  end.
End Eval.

(** ** Statements *)

Inductive setter : Type :=
| SetParam (param : Z)
| SetDefault
| SetNow
| SetPlus (column : string) (param : Z).

Record select_stmt : Type := {
  s_columns : list (string * string);
  s_table : string;
  s_where : option cond;
  s_order : list (string * string);
  s_limit : option Z;
  s_offset : option Z;
  s_lock : option string
}.

Inductive stmt : Type :=
| SSelect (s : select_stmt)
| SDelete (table : string) (wh : option cond)
| SUpdate (table : string) (sets : list (string * setter)) (wh : option cond).

Definition is_word (w : string) (t : token) : bool :=
  match t with TWord v => (v =? w)%string | _ => false end.

Fixpoint parse_columns (ts : list token) : option (list (string * string) * list token) :=
  match ts with
  | TIdent t :: TDot :: TIdent c :: TComma :: rest =>
      match parse_columns rest with
      | Some (cs, r) => Some ((t, c) :: cs, r)
      | None => None
      end
  | TIdent t :: TDot :: TIdent c :: rest => Some ([(t, c)], rest)
  | _ => None
  end.

Definition parse_where (ts : list token) : option (option cond * list token) :=
  match ts with
  | w :: rest =>
      if is_word "WHERE" w then
        match read_cond rest with Some (e, r) => Some (Some e, r) | None => None end
      else Some (None, ts)
  | [] => Some (None, [])
  end.

(** Order items name a column of the statement's table. *)
Fixpoint parse_order_items (table : string) (ts : list token)
    : option (list (string * string) * list token) :=
  match ts with
  | TIdent t :: TDot :: TIdent c :: TWord d :: TComma :: rest =>
      match parse_order_items table rest with
      | Some (cs, r) => if (t =? table)%string then Some ((c, d) :: cs, r) else None
      | None => None
      end
  | TIdent t :: TDot :: TIdent c :: TWord d :: rest =>
      if (t =? table)%string then Some ([(c, d)], rest) else None
  | _ => None
  end.

Definition parse_order (table : string) (ts : list token)
    : option (list (string * string) * list token) :=
  match ts with
  | w :: b :: rest =>
      if is_word "ORDER" w && is_word "BY" b then parse_order_items table rest else Some ([], ts)
  | _ => Some ([], ts)
  end.

Definition parse_bound (keyword : string) (ts : list token) : option (option Z * list token) :=
  match ts with
  | w :: TParam d :: rest =>
      if is_word keyword w then
        match Atoi d with Some n => Some (Some n, rest) | None => None end
      else Some (None, ts)
  | _ => Some (None, ts)
  end.

Definition parse_lock (ts : list token) : option (option string) :=
  match ts with
  | [] => Some None
  | [w; TWord l] => if is_word "FOR" w then Some (Some l) else None
  | _ => None
  end.

Definition obind {A B} (o : option A) (k : A -> option B) : option B :=
  match o with Some a => k a | None => None end.

Definition parse_select (ts : list token) : option select_stmt :=
  obind (parse_columns ts) (fun '(cs, ts) =>
  match ts with
  | w :: TIdent t :: ts =>
      if is_word "FROM" w then
        obind (parse_where ts) (fun '(wh, ts) =>
        obind (parse_order t ts) (fun '(os, ts) =>
        obind (parse_bound "LIMIT" ts) (fun '(lim, ts) =>
        obind (parse_bound "OFFSET" ts) (fun '(off, ts) =>
        obind (parse_lock ts) (fun lock =>
        Some {| s_columns := cs; s_table := t; s_where := wh; s_order := os;
                s_limit := lim; s_offset := off; s_lock := lock |})))))
      else None
  | _ => None
  end).

Definition parse_setter (ts : list token) : option (setter * list token) :=
  match ts with
  | TParam d :: rest => obind (Atoi d) (fun n => Some (SetParam n, rest))
  | TWord w :: rest =>
      if (w =? "DEFAULT")%string then Some (SetDefault, rest)
      else if (w =? "CURRENT_TIMESTAMP")%string then Some (SetNow, rest) else None
  | TIdent c :: TOp op :: TParam d :: rest =>
      if (op =? "+")%string then obind (Atoi d) (fun n => Some (SetPlus c n, rest)) else None
  | _ => None
  end.

Fixpoint parse_sets (fuel : nat) (ts : list token)
    : option (list (string * setter) * list token) :=
  match fuel with
  | O => None
  | S n =>
      match ts with
      | TIdent c :: TOp op :: rest =>
          if (op =? "=")%string then
            obind (parse_setter rest) (fun '(s, rest) =>
            match rest with
            | TComma :: rest' =>
                obind (parse_sets n rest') (fun '(l, r) => Some ((c, s) :: l, r))
            | _ => Some ([(c, s)], rest)
            end)
          else None
      | _ => None
      end
  end.

(** Everything of a statement must be read. *)
Definition finished {A} (o : option (A * list token)) : option A :=
  match o with Some (a, []) => Some a | _ => None end.

Definition parse_statement (ts : list token) : option stmt :=
  match ts with
  | TWord w :: rest =>
      if (w =? "SELECT")%string then obind (parse_select rest) (fun s => Some (SSelect s))
      else if (w =? "DELETE")%string then
        match rest with
        | f :: TIdent t :: rest' =>
            if is_word "FROM" f
            then obind (finished (parse_where rest')) (fun wh => Some (SDelete t wh)) else None
        | _ => None
        end
      else if (w =? "UPDATE")%string then
        match rest with
        | TIdent t :: s :: rest' =>
            if is_word "SET" s then
              obind (parse_sets (length rest') rest') (fun '(sets, r) =>
              obind (finished (parse_where r)) (fun wh => Some (SUpdate t sets wh)))
            else None
        | _ => None
        end
      else None
  | _ => None
  end.

(** The statement a text says. *)
Definition read (q : string) : option stmt := obind (lex q) parse_statement.

(** ** Effect on one table *)

(** The database: comparison and case folding, column defaults, the clock, addition, and
    the ordering of rows by a list of columns with directions. *)
Record engine : Type := {
  coll : collation;
  default_of : string -> option value;
  now_value : value;
  plus : value -> value -> value;
  sort_by : list (string * string) -> list tuple -> list tuple
}.

Section Effect.
Context (en : engine) (args : list value).

Definition holds (t : string) (wh : option cond) (r : tuple) : bool :=
  match wh with
  | None => true
  | Some e => bool_decide (eval (coll en) args t r e = Some true)
  end.

Definition count_arg (n : option Z) : option Z :=
  match n with
  | Some k => match arg args k with Some (VInt z) => Some z | _ => None end
  | None => None
  end.

Definition paginate {A} (limit offset : option Z) (l : list A) : list A :=
  let l := match offset with Some z => skipn (Z.to_nat z) l | None => l end in
  match limit with Some z => firstn (Z.to_nat z) l | None => l end.

Definition project (t : string) (cs : list (string * string)) (r : tuple) : row :=
  map (fun '(t', c) => match (if (t' =? t)%string then r c else None) with
                       | Some v => v | None => VNil end) cs.

Definition select_rows (s : select_stmt) (rows : list tuple) : list row :=
  map (project (s_table s) (s_columns s))
    (paginate (count_arg (s_limit s)) (count_arg (s_offset s))
      (sort_by en (s_order s) (List.filter (holds (s_table s) (s_where s)) rows))).

Definition set_value (r : tuple) (s : string * setter) : option value :=
  match snd s with
  | SetParam n => arg args n
  | SetDefault => default_of en (fst s)
  | SetNow => Some (now_value en)
  | SetPlus c n =>
      match r c, arg args n with Some a, Some b => Some (plus en a b) | _, _ => None end
  end.

(** All right-hand sides read the old row. *)
Definition set_row (sets : list (string * setter)) (r : tuple) : tuple :=
  fun c => match List.find (fun s => (fst s =? c)%string) sets with
           | Some s => set_value r s
           | None => r c
           end.

Definition delete_rows (t : string) (wh : option cond) (rows : list tuple) : list tuple :=
  List.filter (fun r => negb (holds t wh r)) rows.

Definition update_rows (t : string) (sets : list (string * setter)) (wh : option cond)
    (rows : list tuple) : list tuple :=
  map (fun r => if holds t wh r then set_row sets r else r) rows.
End Effect.
