(* ===== verification/OrmSpec.v ===== *)
(** * What the builders promise

    The API's predicates as an expression type with a direct three-valued meaning, the
    statements of [SqlText] with their effect on a table, and lexing lemmas.  [OrmProps]
    relates the two sides. *)

From S2P Require Import Prelude GoStrings GoRegexp Orm SqlText.
Local Open Scope Z_scope.

(** ** Predicates as the caller writes them *)

Inductive cmp_call : Type := CallEq | CallNotEq | CallLt | CallLte | CallGt | CallGte.

Inductive filter : Type :=
| FCmp (call : cmp_call) (c : Column) (v : value)
| FIn (c : Column) (vs : list value)
| FIsNull (c : Column)
| FIsNotNull (c : Column)
| FLike (c : Column) (pattern : string)
| FContains (c : Column) (literal : string)
| FAnd (fs : list filter)
| FOr (fs : list filter)
| FNot (f : filter).

Definition call_of (call : cmp_call) : Column -> value -> Predicate :=
  match call with
  | CallEq => Eq | CallNotEq => NotEq | CallLt => Lt
  | CallLte => Lte | CallGt => Gt | CallGte => Gte
  end.
Definition call_op (call : cmp_call) : string :=
  match call with
  | CallEq => "=" | CallNotEq => "<>" | CallLt => "<"
  | CallLte => "<=" | CallGt => ">" | CallGte => ">="
  end.

(** The API calls of the expression. *)
Fixpoint build (f : filter) : Predicate :=
  match f with
  | FCmp call c v => call_of call c v
  | FIn c vs => In_ c vs
  | FIsNull c => IsNull c
  | FIsNotNull c => IsNotNull c
  | FLike c p => Like c p
  | FContains c l => containsFold c l
  | FAnd fs => And (map build fs)
  | FOr fs => Or (map build fs)
  | FNot f => Not (build f)
  end.

(** [literal] occurs in [s], comparing characters with [eqc]. *)
Fixpoint prefix_by (eqc : ascii -> ascii -> bool) (l s : string) : bool :=
  match l, s with
  | EmptyString, _ => true
  | String a l', String b s' => eqc a b && prefix_by eqc l' s'
  | _, _ => false
  end.
Fixpoint contains_by (eqc : ascii -> ascii -> bool) (l s : string) : bool :=
  prefix_by eqc l s ||
  match s with String _ s' => contains_by eqc l s' | EmptyString => false end.

Definition all3 (ts : list truth) : truth := foldr and3 (Some true) ts.
Definition any3 (ts : list truth) : truth := foldr or3 (Some false) ts.

(** What the expression says of a row. *)
Fixpoint denote (col : collation) (r : tuple) (f : filter) : truth :=
  match f with
  | FCmp call c v => compare3 col (call_op call) (r (cname c)) (Some v)
  | FIn c vs => any3 (map (fun v => compare3 col "=" (r (cname c)) (Some v)) vs)
  | FIsNull c => Some (match r (cname c) with None => true | Some _ => false end)
  | FIsNotNull c => Some (match r (cname c) with None => false | Some _ => true end)
  | FLike c p => like3 same_char "\" (r (cname c)) (Some (VString p))
  | FContains c l =>
      match r (cname c) with
      | Some (VString s) => Some (contains_by (same_folded col) l s)
      | _ => None
      end
  | FAnd fs => all3 (map (denote col r) fs)
  | FOr fs => any3 (map (denote col r) fs)
  | FNot f => not3 (denote col r f)
  end.

Definition selected (col : collation) (r : tuple) (fs : list filter) : bool :=
  bool_decide (all3 (map (denote col r) fs) = Some true).

(** Names that passed [newIdentifier], as every constructor of descriptors requires. *)
Definition made_name (name : string) : Prop := newIdentifier name = Ok name.

Fixpoint made_filter (f : filter) : Prop :=
  match f with
  | FCmp _ c _ | FIn c _ | FIsNull c | FIsNotNull c | FLike c _ | FContains c _ =>
      made_name (cname c)
  | FAnd fs | FOr fs => foldr and True (map made_filter fs)
  | FNot f => made_filter f
  end.

Record made_table {Mo} (t : Table Mo) : Prop := {
  made_tname : made_name (tname t);
  made_columns : Forall made_name (columns (mapper t));
  made_nodup : NoDup (columns (mapper t))
}.

(** ** Induction over nested expressions *)

Section FilterInd.
Context (P : filter -> Prop)
  (Hcmp : forall call c v, P (FCmp call c v)) (Hin : forall c vs, P (FIn c vs))
  (Hnull : forall c, P (FIsNull c)) (Hnotnull : forall c, P (FIsNotNull c))
  (Hlike : forall c p, P (FLike c p)) (Hcont : forall c l, P (FContains c l))
  (Hand : forall fs, Forall P fs -> P (FAnd fs)) (Hor : forall fs, Forall P fs -> P (FOr fs))
  (Hnot : forall f, P f -> P (FNot f)).
Fixpoint filter_ind' (f : filter) : P f :=
  let go := fix go (fs : list filter) : Forall P fs :=
    match fs with
    | [] => Forall_nil_2 P
    | f :: fs => Forall_cons_2 P f fs (filter_ind' f) (go fs)
    end in
  match f with
  | FCmp call c v => Hcmp call c v
  | FIn c vs => Hin c vs
  | FIsNull c => Hnull c
  | FIsNotNull c => Hnotnull c
  | FLike c p => Hlike c p
  | FContains c l => Hcont c l
  | FAnd fs => Hand fs (go fs)
  | FOr fs => Hor fs (go fs)
  | FNot f => Hnot f (filter_ind' f)
  end.
End FilterInd.

(** ** Lexing lemmas *)

Lemma lex_run_app st a b :
  lex_run st (a +:+ b) =
  match lex_run st a with
  | Some (ts, st') =>
      match lex_run st' b with Some (us, st'') => Some (ts ++ us, st'') | None => None end
  | None => None
  end.
Proof.
  revert st; induction a as [|c a IH]; intros st; simpl.
  { change (EmptyString +:+ b) with b. by destruct (lex_run st b) as [[]|]. }
  change (String c a +:+ b) with (String c (a +:+ b)). simpl.
  destruct (lex_step st c) as [[ts st']|]; [|done].
  rewrite IH. destruct (lex_run st' a) as [[us st'']|]; [|done].
  destruct (lex_run st'' b) as [[vs st3]|]; [|done]. by rewrite <- app_assoc.
Qed.

(** A text that ends between tokens can be followed by anything. *)
Lemma lex_app_closed a b ta tb :
  lex_run LStart a = Some (ta, LStart) -> lex b = Some tb -> lex (a +:+ b) = Some (ta ++ tb).
Proof.
  intros Ha Hb. unfold lex in *. rewrite lex_run_app, Ha.
  destruct (lex_run LStart b) as [[us st]|]; [|done].
  destruct (lex_end st); [|done]. simplify_eq. by rewrite app_assoc.
Qed.

Definition delim (c : ascii) : bool := oneof " ,()" c.
Definition starts_delim (s : string) : Prop :=
  match s with EmptyString => True | String c _ => delim c = true end.

Lemma delim_cases c : delim c = true -> c = " "%char \/ c = ","%char \/ c = "("%char \/ c = ")"%char.
Proof.
  unfold delim. simpl. intros H.
  repeat (apply orb_true_iff in H as [H|H]; [apply bool_decide_eq_true_1 in H; subst; tauto|]).
  done.
Qed.

Lemma lex_step_delim st pend c :
  lex_end st = Some pend -> delim c = true ->
  lex_step st c = match begin c with Some (ts, st') => Some (pend ++ ts, st') | None => None end.
Proof.
  intros Hend Hc. apply delim_cases in Hc.
  destruct st; simpl in Hend; try done; try case_bool_decide; simplify_eq;
    destruct Hc as [-> | [-> | [-> | ->]]]; simpl; try done;
    by rewrite bool_decide_eq_false_2.
Qed.

Lemma lex_app a b ta tb :
  lex a = Some ta -> lex b = Some tb -> starts_delim b -> lex (a +:+ b) = Some (ta ++ tb).
Proof.
  unfold lex. intros Ha Hb Hd. rewrite lex_run_app.
  destruct (lex_run LStart a) as [[us st]|]; [|done].
  destruct (lex_end st) as [pend|] eqn:Hend; [|done].
  destruct b as [|c b].
  { simpl in *. simplify_eq. rewrite Hend. by rewrite !app_nil_r. }
  simpl in *. rewrite (lex_step_delim _ _ _ Hend Hd).
  destruct (begin c) as [[ts st']|]; [|done].
  destruct (lex_run st' b) as [[vs st'']|]; [|done].
  destruct (lex_end st''); [|done]. simplify_eq. by rewrite !app_assoc.
Qed.

Definition no_dquote (s : string) : bool := all_chars (fun c => negb (Ascii.eqb c dquote)) s.

Lemma snoc_app a c s : snoc a c +:+ s = a +:+ String c s.
Proof. unfold snoc. by rewrite <- string_app_assoc. Qed.

Lemma lex_run_ident acc name :
  no_dquote name = true -> lex_run (LIdent acc) name = Some ([], LIdent (acc +:+ name)).
Proof.
  unfold no_dquote. revert acc; induction name as [|c name IH]; intros acc H; simpl in *.
  { by rewrite string_app_nil_r. }
  apply andb_true_iff in H as [Hc H]. apply negb_true_iff in Hc. rewrite Hc, IH by done.
  by rewrite snoc_app.
Qed.

Lemma lex_run_quoted name :
  no_dquote name = true -> lex_run LStart (quoted name) = Some ([], LIdentEnd name).
Proof.
  intros H. unfold quoted. cbn [lex_run]. change (lex_step LStart dquote) with
    (Some (@nil token, LIdent EmptyString)). cbn match.
  by rewrite lex_run_app, lex_run_ident, string_app_nil_l by done.
Qed.

Lemma lex_quoted name : no_dquote name = true -> lex (quoted name) = Some [TIdent name].
Proof. intros H. unfold lex. by rewrite lex_run_quoted. Qed.

Lemma lex_qualified t c :
  no_dquote t = true -> no_dquote c = true ->
  lex (qualified_name t c) = Some [TIdent t; TDot; TIdent c].
Proof.
  intros Ht Hc. unfold lex, qualified_name.
  rewrite lex_run_app, lex_run_quoted by done. rewrite lex_run_app.
  change (lex_run (LIdentEnd t) ".") with (Some ([TIdent t; TDot], LStart)). cbn match.
  by rewrite lex_run_quoted.
Qed.

Lemma lex_run_param acc ds :
  all_chars is_digit ds = true -> lex_run (LParam acc) ds = Some ([], LParam (acc +:+ ds)).
Proof.
  revert acc; induction ds as [|c ds IH]; intros acc H; simpl in *.
  { by rewrite string_app_nil_r. }
  apply andb_true_iff in H as [Hc H].
  assert (digitC c = true) as ->.
  { revert Hc. clear. destruct c as [[] [] [] [] [] [] [] []]; vm_compute; done. }
  rewrite IH by done. by rewrite snoc_app.
Qed.

Lemma placeholder_digits n : all_chars is_digit (Itoa (Z.of_nat n)) = true.
Proof.
  unfold Itoa. destruct (Z.ltb_spec (Z.of_nat n) 0); [lia|]. apply digits_all_digits. lia.
Qed.

Lemma lex_placeholder n : lex (placeholder n) = Some [TParam (Itoa (Z.of_nat n))].
Proof.
  unfold lex, placeholder. cbn [lex_run]. change (lex_step LStart "$") with
    (Some (@nil token, LParam EmptyString)). cbn match. rewrite lex_run_param by apply placeholder_digits.
  rewrite string_app_nil_l. cbn [lex_end]. rewrite bool_decide_eq_false_2; [done|].
  unfold Itoa. destruct (Z.ltb_spec (Z.of_nat n) 0); [lia|]. apply digits_nonempty.
Qed.

Lemma Atoi_placeholder n :
  Z.of_nat n <= PostgreSQLParameterLimit -> Atoi (Itoa (Z.of_nat n)) = Some (Z.of_nat n).
Proof.
  intros H. apply Atoi_Itoa. unfold in_int64, MinInt64, MaxInt64, PostgreSQLParameterLimit in *. lia.
Qed.

(** Texts joined by a separator that starts and ends between tokens. *)
Fixpoint join_tokens (sep : list token) (tss : list (list token)) : list token :=
  match tss with
  | [] => []
  | [ts] => ts
  | ts :: rest => ts ++ sep ++ join_tokens sep rest
  end.

Lemma lex_join sep septoks parts tss :
  lex_run LStart sep = Some (septoks, LStart) -> (forall s, starts_delim (sep +:+ s)) ->
  Forall2 (fun p ts => lex p = Some ts) parts tss ->
  lex (Join parts sep) = Some (join_tokens septoks tss).
Proof.
  intros Hsep Hd HF. induction HF as [|p ts ps tss Hp HF IH]; [done|].
  destruct HF as [|p' ts' ps' tss' Hp' HF]; [done|].
  change (Join (p :: p' :: ps') sep) with (p +:+ sep +:+ Join (p' :: ps') sep).
  change (join_tokens septoks (ts :: ts' :: tss'))
    with (ts ++ septoks ++ join_tokens septoks (ts' :: tss')).
  apply lex_app; [done|by apply lex_app_closed|apply Hd].
Qed.

Lemma re_identifier_chars name :
  re_match identifierPattern name = true ->
  all_chars (cls_or lowerC (cls_or digitC (oneof "_"))) name = true.
Proof.
  intros H. apply re_match_spec in H. inversion H as [| |? ? a b Ha Hb| | | |]; subst.
  inversion Ha; subst. apply lang_star_chars in Hb.
  rewrite all_chars_app. apply andb_true_iff; split; [|exact Hb].
  match goal with Hc : ?p ?c = true |- _ => revert Hc; clear;
    destruct c as [[] [] [] [] [] [] [] []]; vm_compute; done end.
Qed.

Lemma made_no_dquote name : made_name name -> no_dquote name = true.
Proof.
  unfold made_name, newIdentifier. intros H. case_match eqn:E; [done|]. bool_to_prop.
  match goal with Hm : re_match _ _ = true |- _ => apply re_identifier_chars in Hm; revert Hm end.
  apply all_chars_mono. clear. intros c. destruct c as [[] [] [] [] [] [] [] []]; vm_compute; done.
Qed.

(** [NewColumn] returns a column of its table with a valid name that the mapper selects. *)
Lemma NewColumn_made {Mo} (t : Table Mo) name c :
  NewColumn t name = Ok c ->
  made_name (cname c) /\ cname c = name /\ ctable c = tname t /\ cidentity c = identity t /\
  name ∈ columns (mapper t).
Proof.
  unfold NewColumn, made_name. destruct (newIdentifier name) as [n|] eqn:E; [|done]. simpl.
  case_bool_decide; [|done]. intros ?; simplify_eq; simpl.
  assert (n = name) as -> by (unfold newIdentifier in E; case_match; by simplify_eq). done.
Qed.
