(* ===== verification/OrmFacts.v ===== *)
(** * Compiled predicates read back

    [compile_sound]: the text of a compiled predicate lexes, parses as one operand of a
    conjunction, its parameters are numbered on from those already bound, and it evaluates
    to the meaning of the API calls. *)

From S2P Require Import Prelude GoStrings GoRegexp Orm SqlText OrmSpec.
Local Open Scope Z_scope.

(** ** Escaped literals *)

Lemma like_star_any eqc s : like_match eqc "!" "%" s = true.
Proof. induction s as [|c s IH]; [done|]. simpl in *. by rewrite IH. Qed.

Lemma like_escaped_prefix eqc l s :
  like_match eqc "!" (containsFoldEscaper l +:+ "%") s = prefix_by eqc l s.
Proof.
  revert s; induction l as [|c l IH]; intros s.
  { change (containsFoldEscaper EmptyString +:+ "%") with "%". rewrite like_star_any. done. }
  cbn [containsFoldEscaper]. destruct (oneof "!%_" c) eqn:E.
  - rewrite !string_app_cons. cbn [like_match Ascii.eqb]. simpl (Ascii.eqb "!" "!"). cbn match.
    destruct s as [|x s]; [done|]. by rewrite IH.
  - rewrite string_app_cons. cbn [like_match].
    assert (Ascii.eqb c "!" = false /\ Ascii.eqb c "%" = false /\ Ascii.eqb c "_" = false)
      as (-> & -> & ->).
    { revert E. clear. destruct c as [[] [] [] [] [] [] [] []]; vm_compute; done. }
    destruct s as [|x s]; [done|]. by rewrite IH.
Qed.

(** The pattern of [ContainsFold] matches exactly the strings that contain the literal, for
    every literal, wildcards and escape characters included. *)
Lemma contains_pattern eqc l s :
  like_match eqc "!" ("%" +:+ containsFoldEscaper l +:+ "%") s = contains_by eqc l s.
Proof.
  change ("%" +:+ containsFoldEscaper l +:+ "%")
    with (String "%" (containsFoldEscaper l +:+ "%")).
  induction s as [|c s IH].
  - cbn -[containsFoldEscaper]. by rewrite like_escaped_prefix.
  - change (contains_by eqc l (String c s))
      with (prefix_by eqc l (String c s) || contains_by eqc l s).
    rewrite <- IH, <- like_escaped_prefix. done.
Qed.

(** ** Arguments only grow *)

Lemma bindM_ok {St A B} (m : M St A) (k : A -> M St B) s b s' :
  bindM m k s = (Ok b, s') -> exists a s1, m s = (Ok a, s1) /\ k a s1 = (Ok b, s').
Proof. unfold bindM. destruct (m s) as [[a|e] s1]; [eauto|done]. Qed.

Ltac runM H :=
  let a := fresh "a" in let s := fresh "s" in let E := fresh "E" in
  apply bindM_ok in H as (a & s & E & H).

Definition extends {A} (m : M sqlCompiler A) : Prop :=
  forall args x args', m args = (Ok x, args') -> exists vs, args' = args ++ vs.

Lemma extends_ret {A} (a : A) : extends (ret a).
Proof. intros ???; unfold ret; intros; simplify_eq. exists []. by rewrite app_nil_r. Qed.
Lemma extends_throw {A} e : extends (@throw _ A e).
Proof. by intros ???. Qed.
Lemma extends_bind v : extends (bind v).
Proof. intros ???; unfold bind; intros; simplify_eq. eauto. Qed.
Lemma extends_of_result {A} (r : result A) : extends (of_result r).
Proof. intros ???; unfold of_result; intros; simplify_eq. exists []. by rewrite app_nil_r. Qed.
Lemma extends_bindM {A B} (m : M sqlCompiler A) (k : A -> M sqlCompiler B) :
  extends m -> (forall a, extends (k a)) -> extends (bindM m k).
Proof.
  intros Hm Hk args x args' H. runM H.
  apply Hm in E as [vs ->]. apply Hk in H as [ws ->]. exists (vs ++ ws). by rewrite app_assoc.
Qed.
Lemma extends_mapM {A B} (f : A -> M sqlCompiler B) l :
  Forall (fun a => extends (f a)) l -> extends (mapM_ f l).
Proof.
  induction 1 as [|a l Ha _ IH]; [apply extends_ret|]. cbn [mapM_].
  apply extends_bindM; [done|]. intros b. apply extends_bindM; [done|]. intros bs.
  apply extends_ret.
Qed.
#[export] Hint Resolve extends_ret extends_throw extends_bind extends_of_result
  extends_bindM extends_mapM : goforge.

Section PredicateInd.
Context (P : Predicate -> Prop) (H : forall p, Forall P (pchildren p) -> P p).
Fixpoint predicate_ind' (p : Predicate) : P p :=
  H p ((fix go (ps : list Predicate) : Forall P ps :=
          match ps with
          | [] => Forall_nil_2 P
          | q :: qs => Forall_cons_2 P q qs (predicate_ind' q) (go qs)
          end) (pchildren p)).
End PredicateInd.

Lemma compile_extends p table ident : extends (compile p table ident).
Proof.
  induction p as [p IH] using predicate_ind'. destruct p as [pt pi pc k op args tr ch].
  cbn in IH |- *. repeat case_match; simplify_eq/=; auto with goforge.
  - apply extends_bindM; [|auto with goforge].
    apply extends_mapM, Forall_forall. intros v _. case_match; auto with goforge.
  - apply Forall_cons_1 in IH as [IH _]. auto with goforge.
Qed.

(** ** Parameters *)

Definition numbers (from count : nat) : list Z := map Z.of_nat (seq (S from) count).
Definition param_tokens (from count : nat) : list (list token) :=
  map (fun n => [TParam (Itoa n)]) (numbers from count).
Definition within (args : list value) : Prop :=
  Z.of_nat (length args) <= PostgreSQLParameterLimit.

Lemma numbers_app a b c : numbers a (b + c) = numbers a b ++ numbers (a + b) c.
Proof. unfold numbers. rewrite seq_app, map_app. done. Qed.

Lemma params_app a b : params (a ++ b) = params a ++ params b.
Proof. unfold params. apply omap_app. Qed.

Lemma params_join sep tss : params sep = [] -> params (join_tokens sep tss) = params (concat tss).
Proof.
  intros Hs. induction tss as [|ts [|ts' tss] IH]; [done|by rewrite <- (app_nil_r (params (concat _))); simpl; rewrite !app_nil_r|].
  change (join_tokens sep (ts :: ts' :: tss)) with (ts ++ sep ++ join_tokens sep (ts' :: tss)).
  rewrite !params_app, Hs, IH. cbn [concat]. by rewrite !params_app.
Qed.

Lemma params_param_tokens from count :
  Z.of_nat (from + count) <= PostgreSQLParameterLimit ->
  params (concat (param_tokens from count)) = numbers from count.
Proof.
  unfold param_tokens, numbers. revert from; induction count as [|k IH]; intros from H; [done|].
  cbn [seq map concat]. rewrite params_app. rewrite IH by lia.
  change (params [TParam (Itoa (Z.of_nat (S from)))])
    with (match Atoi (Itoa (Z.of_nat (S from))) with Some y => [y] | None => [] end).
  rewrite Atoi_placeholder by lia. done.
Qed.

Lemma parse_params_spec from count rest :
  Z.of_nat (from + S count) <= PostgreSQLParameterLimit ->
  parse_params (join_tokens [TComma] (param_tokens from (S count)) ++ TRpar :: rest)
  = Some (numbers from (S count), rest).
Proof.
  revert from; induction count as [|k IH]; intros from H.
  { unfold param_tokens, numbers. cbn [seq map join_tokens]. cbn -[Itoa Atoi Z.of_nat].
    by rewrite Atoi_placeholder by lia. }
  unfold param_tokens, numbers. cbn [seq map].
  change (join_tokens [TComma] ([TParam (Itoa (Z.of_nat (S from)))] ::
      [TParam (Itoa (Z.of_nat (S (S from))))] ::
      map (fun n => [TParam (Itoa n)]) (map Z.of_nat (seq (S (S (S from))) k))))
    with (TParam (Itoa (Z.of_nat (S from))) :: TComma ::
            join_tokens [TComma] (param_tokens (S from) (S k))).
  cbn [app parse_params]. rewrite IH, Atoi_placeholder by lia. done.
Qed.

Lemma arg_at vs pre v post n :
  vs = pre ++ v :: post -> n = Z.of_nat (S (length pre)) -> isNilValue v = false ->
  arg vs n = Some v.
Proof.
  intros -> -> Hv. unfold arg. replace (Z.to_nat _) with (length pre) by lia.
  rewrite lookup_app_r, Nat.sub_diag by lia. cbn. by rewrite Hv.
Qed.

(** The values of consecutive parameters are the values that were bound. *)
Lemma args_numbers vs pre mid post :
  vs = pre ++ mid ++ post -> forallb (fun v => negb (isNilValue v)) mid = true ->
  map (arg vs) (numbers (length pre) (length mid)) = map Some mid.
Proof.
  unfold numbers. revert pre; induction mid as [|v mid IH]; intros pre Hvs Hn; [done|].
  cbn in Hn. apply andb_true_iff in Hn as [Hv Hn]. apply negb_true_iff in Hv.
  cbn [length seq map]. f_equal; [by eapply arg_at|].
  replace (S (S (length pre))) with (S (length (pre ++ [v]))) by (rewrite length_app; simpl; lia).
  apply IH; [|done]. by rewrite <- app_assoc.
Qed.

Lemma bind_values vs args parts args' :
  mapM_ (fun v => if isNilValue v
                  then throw (Errorf "orm: IN value is nil; use an explicit null predicate")
                  else bind v) vs args = (Ok parts, args') ->
  args' = args ++ vs /\ forallb (fun v => negb (isNilValue v)) vs = true /\
  Forall2 (fun p ts => lex p = Some ts) parts (param_tokens (length args) (length vs)).
Proof.
  revert args parts; induction vs as [|v vs IH]; intros args parts H; cbn [mapM_] in H.
  { unfold ret in H. simplify_eq. rewrite app_nil_r. split_and!; [done..|constructor]. }
  runM H. destruct (isNilValue v) eqn:Hv; [done|]. unfold bind in E. simplify_eq.
  runM H. unfold ret in H. simplify_eq. apply IH in E as (-> & Hn & HF).
  rewrite <- app_assoc. split_and!; [done|by cbn; rewrite Hv, Hn|].
  unfold param_tokens, numbers. cbn [length seq map]. constructor; [apply lex_placeholder|].
  rewrite length_app in HF. cbn in HF. rewrite Nat.add_1_r in HF. exact HF.
Qed.

(** ** Soundness of [compile] *)

(** What follows a condition in a statement never continues a [LIKE]. *)
Definition follows (rest : list token) : Prop :=
  match rest with TWord w :: _ => w <> "ESCAPE" | _ => True end.

Record reads (table : string) (args args' : list value) (f : filter)
    (toks : list token) (e : cond) : Prop := {
  reads_params : params toks = numbers (length args) (length args' - length args);
  reads_parse : forall rest n, follows rest -> (3 * length toks <= n)%nat ->
    parse_cond PNot n (toks ++ rest) = Some (e, rest);
  reads_eval : forall col r more, eval col (args' ++ more) table r e = denote col r f
}.

(** The operands of a group, joined with nested connectives. *)
Fixpoint nest (mk : cond -> cond -> cond) (es : list cond) : cond :=
  match es with
  | [] => CConst true
  | [e] => e
  | e :: rest => mk e (nest mk rest)
  end.

Lemma eval_nest_and col args t r es :
  es <> [] -> eval col args t r (nest CAnd es) = all3 (map (eval col args t r) es).
Proof.
  induction es as [|e [|e' es] IH]; intros H; [done| |].
  - cbn. by destruct (eval col args t r e) as [[]|].
  - change (nest CAnd (e :: e' :: es)) with (CAnd e (nest CAnd (e' :: es))).
    cbn [eval]. by rewrite IH.
Qed.

Lemma eval_nest_or col args t r es :
  es <> [] -> eval col args t r (nest COr es) = any3 (map (eval col args t r) es).
Proof.
  induction es as [|e [|e' es] IH]; intros H; [done| |].
  - cbn. by destruct (eval col args t r e) as [[]|].
  - change (nest COr (e :: e' :: es)) with (COr e (nest COr (e' :: es))).
    cbn [eval]. by rewrite IH.
Qed.

Definition operand (toks : list token) (e : cond) : Prop :=
  forall rest n, follows rest -> (3 * length toks <= n)%nat ->
    parse_cond PNot n (toks ++ rest) = Some (e, rest).

(** [rest] does not start with the connective [w]. *)
Definition not_word (w : string) (rest : list token) : Prop :=
  match rest with TWord v :: _ => v <> w | _ => True end.

Lemma parse_and tss es rest n :
  Forall2 operand tss es -> es <> [] -> follows rest -> not_word "AND" rest ->
  (3 * length (join_tokens [TWord "AND"] tss) + 1 <= n)%nat ->
  parse_cond PAnd n (join_tokens [TWord "AND"] tss ++ rest) = Some (nest CAnd es, rest).
Proof.
  intros HF; revert n; induction HF as [|ts e tss es He HF IH]; intros n Hne Hf Hw Hn; [done|].
  destruct HF as [|ts' e' tss es He' HF].
  - destruct n as [|n]; [lia|]. cbn in Hn |- *. rewrite He by (done || lia).
    destruct rest as [|[] rest]; try done. cbn in Hw. by rewrite (proj2 (String.eqb_neq _ _) Hw).
  - change (join_tokens [TWord "AND"] (ts :: ts' :: tss))
      with (ts ++ TWord "AND" :: join_tokens [TWord "AND"] (ts' :: tss)) in *.
    rewrite length_app in Hn. cbn [length] in Hn. destruct n as [|n]; [lia|].
    cbn [parse_cond]. rewrite <- app_assoc. rewrite He by (done || lia). cbn [app].
    rewrite String.eqb_refl. rewrite IH by (done || lia). done.
Qed.

Lemma parse_or tss es rest n :
  Forall2 operand tss es -> es <> [] -> follows rest -> not_word "AND" rest ->
  not_word "OR" rest -> (3 * length (join_tokens [TWord "OR"] tss) + 2 <= n)%nat ->
  parse_cond POr n (join_tokens [TWord "OR"] tss ++ rest) = Some (nest COr es, rest).
Proof.
  intros HF; revert n; induction HF as [|ts e tss es He HF IH]; intros n Hne Hf Hw Ho Hn; [done|].
  destruct HF as [|ts' e' tss es He' HF].
  - destruct n as [|n]; [lia|].
    pose proof (parse_and [ts] [e] rest n) as Hp. cbn in Hn, Hp |- *.
    rewrite Hp by (done || lia || (by repeat constructor)).
    destruct rest as [|[] rest]; try done. cbn in Ho. by rewrite (proj2 (String.eqb_neq _ _) Ho).
  - change (join_tokens [TWord "OR"] (ts :: ts' :: tss))
      with (ts ++ TWord "OR" :: join_tokens [TWord "OR"] (ts' :: tss)) in *.
    rewrite length_app in Hn. cbn [length] in Hn. destruct n as [|n]; [lia|].
    cbn [parse_cond]. rewrite <- app_assoc.
    pose proof (parse_and [ts] [e]) as Hp. cbn [join_tokens nest] in Hp.
    rewrite Hp by (done || lia || (by repeat constructor)). cbn [app].
    rewrite String.eqb_refl. rewrite IH by (done || lia). done.
Qed.

Lemma operand_and tss es :
  Forall2 operand tss es -> es <> [] ->
  operand (TLpar :: join_tokens [TWord "AND"] tss ++ [TRpar]) (nest CAnd es).
Proof.
  intros HF Hne rest n Hf Hn. cbn [length] in Hn. rewrite length_app in Hn. cbn [length] in Hn.
  destruct n as [|[|n]]; [lia..|]. cbn [app parse_cond]. rewrite <- app_assoc. cbn [app].
  rewrite (parse_and tss es) by (done || lia). done.
Qed.

Lemma operand_or tss es :
  Forall2 operand tss es -> es <> [] ->
  operand (TLpar :: join_tokens [TWord "OR"] tss ++ [TRpar]) (nest COr es).
Proof.
  intros HF Hne rest n Hf Hn. cbn [length] in Hn. rewrite length_app in Hn. cbn [length] in Hn.
  destruct n as [|n]; [lia|]. cbn [app parse_cond]. rewrite <- app_assoc. cbn [app].
  rewrite (parse_or tss es) by (done || lia). done.
Qed.

Lemma operand_not ts e :
  operand ts e -> operand (TWord "NOT" :: TLpar :: ts ++ [TRpar]) (CNot e).
Proof.
  intros He rest n Hf Hn. cbn [length] in Hn. rewrite length_app in Hn. cbn [length] in Hn.
  destruct n as [|[|n]]; [lia..|].
  cbn [app]. rewrite <- app_assoc. cbn [app].
  change (parse_cond PNot (S (S n)) (TWord "NOT" :: TLpar :: ts ++ TRpar :: rest))
    with (match parse_cond PNot (S n) (TLpar :: ts ++ TRpar :: rest) with
          | Some (a, r') => Some (CNot a, r') | None => None end).
  cbn [parse_cond].
  pose proof (parse_or [ts] [e]) as Hp. cbn [join_tokens nest] in Hp.
  rewrite Hp by (done || lia || (by repeat constructor)). done.
Qed.

Lemma compile_guard p table ident args x args' :
  compile p table ident args = (Ok x, args') ->
  ptable p = table /\ pidentity p = ident /\ table <> EmptyString /\ ident <> None.
Proof.
  destruct p. cbn. case_match eqn:G1; [done|]. case_match eqn:G2; [done|]. intros _.
  by bool_to_prop.
Qed.

(** A condition on one column: its text is the qualified column and a tail that starts with
    a space. *)
Lemma lex_column_cond table c tail toks :
  no_dquote table = true -> no_dquote c = true -> lex (String " " tail) = Some toks ->
  lex (qualified_name table c +:+ String " " tail) = Some (TIdent table :: TDot :: TIdent c :: toks).
Proof.
  intros Ht Hc Hl.
  apply (lex_app _ _ [TIdent table; TDot; TIdent c]); [by apply lex_qualified|done|done].
Qed.

Lemma operand_column table c toks e :
  (forall rest, follows rest -> parse_column_cond table c (toks ++ rest) = Some (e, rest)) ->
  operand (TIdent table :: TDot :: TIdent c :: toks) e.
Proof. intros H rest n Hf Hn. cbn in Hn. destruct n as [|n]; [lia|]. cbn. by apply H. Qed.

(** [op] is a comparison operator or [LIKE] as the API passes it. *)
Lemma lex_op_param op tok n :
  lex_run LStart (String " " (op +:+ " ")) = Some ([tok], LStart) ->
  lex (String " " (op +:+ " " +:+ placeholder n)) = Some [tok; TParam (Itoa (Z.of_nat n))].
Proof.
  intros H. rewrite string_app_assoc. rewrite <- string_app_cons.
  apply (lex_app_closed _ _ [tok]); [done|apply lex_placeholder].
Qed.

Lemma params_numbers_one args v :
  within (args ++ [v]) ->
  omap (fun t => match t with TParam d => Atoi d | _ => None end)
    [TParam (Itoa (Z.of_nat (S (length args))))] =
  numbers (length args) (length (args ++ [v]) - length args).
Proof.
  unfold within. rewrite length_app. cbn [length]. intros H.
  replace (length args + 1 - length args)%nat with 1%nat by lia. cbn -[Itoa Atoi Z.of_nat].
  by rewrite Atoi_placeholder by lia.
Qed.

Section Sound.
Context (table : string) (ident : option nat) (Htable : made_name table).

Definition sound (f : filter) : Prop :=
  forall args text args', made_filter f ->
    compile (build f) table ident args = (Ok text, args') -> within args' ->
    exists toks e, lex text = Some toks /\ reads table args args' f toks e.

(** One bound parameter after a column. *)
Lemma sound_one args v c toks tail f e text :
  made_name c -> within (args ++ [v]) ->
  text = qualified_name table c +:+ String " " tail ->
  lex (String " " tail) = Some toks ->
  params toks = params [TParam (Itoa (Z.of_nat (S (length args))))] ->
  (forall rest, follows rest -> parse_column_cond table c (toks ++ rest) = Some (e, rest)) ->
  (forall col r more, eval col ((args ++ [v]) ++ more) table r e = denote col r f) ->
  exists toks' e', lex text = Some toks' /\ reads table args (args ++ [v]) f toks' e'.
Proof.
  intros Hc Hw -> Hl Hp Hparse Heval.
  exists (TIdent table :: TDot :: TIdent c :: toks), e. split.
  { apply lex_column_cond; [by apply made_no_dquote..|done]. }
  split; [|by apply operand_column|done].
  transitivity (params toks); [done|]. rewrite Hp. by apply params_numbers_one.
Qed.

Lemma sound_compare call c v : sound (FCmp call c v).
Proof.
  intros args text args' Hm H Hw. cbn [made_filter] in Hm.
  pose proof (compile_guard _ _ _ _ _ _ H) as (Ht & _).
  assert (ctable c = table) as Ht' by (by destruct call). clear Ht.
  assert (isNilValue v = false /\ args' = args ++ [v] /\
    text = qualified_name table (cname c) +:+
           String " " (call_op call +:+ " " +:+ placeholder (S (length args)))) as (Hv & -> & ->).
  { destruct call; cbn -[Itoa] in H; repeat (case_match; [done|]); unfold bindM, bind, ret in H;
      simplify_eq; split_and!; rewrite ?Ht'; done. }
  eapply (sound_one args v (cname c) _ _ _
            (CCmp table (cname c) (call_op call) (Z.of_nat (S (length args))))); [done..| | | |].
  - apply (lex_op_param _ (TOp (call_op call))). by destruct call.
  - done.
  - intros rest Hf. cbn -[Itoa Atoi Z.of_nat]. unfold with_param.
    rewrite Atoi_placeholder; [done|]. unfold within in Hw. rewrite length_app in Hw. cbn in Hw. lia.
  - intros col r more. cbn [eval denote]. rewrite String.eqb_refl.
    by rewrite (arg_at _ args v more) by (rewrite <- ?app_assoc; done).
Qed.

Lemma sound_like c p : sound (FLike c p).
Proof.
  intros args text args' Hm H Hw. cbn [made_filter] in Hm.
  pose proof (compile_guard _ _ _ _ _ _ H) as (Ht & _). cbn in Ht.
  cbn -[Itoa] in H. repeat (case_match; [done|]). unfold bindM, bind, ret in H.
  rewrite Ht in H. injection H as <- <-.
  eapply (sound_one args (VString p) (cname c) _ _ _
            (CLike false table (cname c) (Z.of_nat (S (length args))) "\"));
    [done|done|reflexivity| | | |].
  - by apply (lex_op_param "LIKE" (TWord "LIKE")).
  - done.
  - intros rest Hf. unfold within in Hw. rewrite length_app in Hw. cbn in Hw.
    cbn -[Itoa Atoi Z.of_nat like_escape]. unfold with_param.
    assert (like_escape rest = ("\", rest)) as ->.
    { destruct rest as [|[] [|[] rest]]; try done. cbn in Hf |- *.
      by rewrite (proj2 (String.eqb_neq _ _) Hf). }
    rewrite Atoi_placeholder; [done|lia].
  - intros col r more. cbn [eval denote]. rewrite String.eqb_refl.
    by rewrite (arg_at _ args (VString p) more) by (rewrite <- ?app_assoc; done).
Qed.

Lemma sound_contains c l : sound (FContains c l).
Proof.
  intros args text args' Hm H Hw. cbn [made_filter] in Hm.
  pose proof (compile_guard _ _ _ _ _ _ H) as (Ht & _). cbn in Ht.
  cbn -[Itoa containsFoldEscaper] in H. repeat (case_match; [done|]).
  unfold bindM, bind, ret in H. rewrite Ht in H. injection H as <- <-.
  eapply (sound_one args _ (cname c) [TWord "ILIKE"; TParam _; TWord "ESCAPE"; TStr "!"] _ _
            (CLike true table (cname c) (Z.of_nat (S (length args))) "!"));
    [done|done|reflexivity| | | |].
  - apply (lex_app_closed " ILIKE " _ [TWord "ILIKE"]); [done|].
    apply (lex_app _ _ [TParam _]); [apply lex_placeholder|done|done].
  - done.
  - intros rest Hf. unfold within in Hw. rewrite length_app in Hw. cbn in Hw.
    cbn -[Itoa Atoi Z.of_nat]. unfold with_param. rewrite Atoi_placeholder; [done|lia].
  - intros col r more. cbn [eval denote]. rewrite String.eqb_refl.
    erewrite (arg_at _ args _ more) by (rewrite <- ?app_assoc; done).
    destruct (r (cname c)) as [[]|]; cbn [like3]; try done. by rewrite contains_pattern.
Qed.

Lemma lex_in_tail parts tss :
  Forall2 (fun p ts => lex p = Some ts) parts tss ->
  lex (String " " ("IN (" +:+ Join parts ", " +:+ ")")) =
  Some (TWord "IN" :: TLpar :: join_tokens [TComma] tss ++ [TRpar]).
Proof.
  intros HF. apply (lex_app_closed " IN (" _ [TWord "IN"; TLpar]); [done|].
  apply lex_app; [|done|done]. by apply lex_join.
Qed.

Lemma sound_in c vs : sound (FIn c vs).
Proof.
  intros args text args' Hm H Hw. cbn [made_filter] in Hm.
  pose proof (compile_guard _ _ _ _ _ _ H) as (Ht & _).
  unfold build, In_ in *. case_bool_decide as Hnil.
  { subst vs. cbn in H. repeat (case_match; [done|]). unfold ret in H. injection H as <- <-.
    exists [TWord "FALSE"], (CConst false). split; [done|]. split; [|  |done].
    - by rewrite Nat.sub_diag.
    - intros rest n _ Hn. cbn in Hn. by destruct n as [|n]; [lia|]. }
  cbn in Ht. cbn -[Itoa mapM_] in H. repeat (case_match; [done|]).
  runM H. unfold ret in H. rewrite Ht in H. injection H as <- <-.
  apply bind_values in E as (-> & Hn & HF).
  destruct vs as [|v vs]; [done|]. unfold within in Hw. rewrite length_app in Hw. cbn in Hw.
  eexists _, (CIn table (cname c) (numbers (length args) (S (length vs)))). split.
  { apply lex_column_cond; [by apply made_no_dquote..|]. by apply lex_in_tail. }
  split.
  - change (?a :: ?b :: ?c :: ?d :: ?e :: ?f) with ([a; b; c; d; e] ++ f).
    rewrite !params_app, params_join by done. rewrite params_param_tokens by (cbn; lia).
    rewrite length_app. change (params [TRpar]) with (@nil Z). rewrite app_nil_r.
    by replace (length args + length (v :: vs) - length args)%nat with (length (v :: vs)) by lia.
  - apply operand_column. intros rest Hf. cbn [app parse_column_cond]. rewrite <- app_assoc.
    cbn [app length]. rewrite (parse_params_spec _ _ rest) by lia. done.
  - intros col r more. cbn [eval denote]. rewrite String.eqb_refl. unfold any3.
    pose proof (args_numbers ((args ++ v :: vs) ++ more) args (v :: vs) more) as Ha.
    rewrite <- app_assoc in Ha. specialize (Ha eq_refl Hn). cbn [length] in Ha.
    rewrite <- app_assoc. revert Ha. clear.
    generalize (numbers (length args) (S (length vs))) (v :: vs) (args ++ (v :: vs) ++ more).
    intros ns ws l. revert ws; induction ns as [|n ns IH]; intros [|w ws] Ha; try done.
    cbn in Ha. injection Ha as Ha1 Ha2. cbn. rewrite Ha1. by rewrite (IH ws).
Qed.

Lemma sound_null c negated :
  sound (if negated : bool then FIsNotNull c else FIsNull c).
Proof.
  intros args text args' Hm H Hw.
  assert (made_name (cname c)) as Hc by (by destruct negated). clear Hm.
  pose proof (compile_guard _ _ _ _ _ _ H) as (Ht & _).
  assert (ctable c = table) as Ht' by (by destruct negated). clear Ht.
  assert (args' = args /\ text = qualified_name table (cname c) +:+
            String " " (if negated then "IS NOT NULL" else "IS NULL")) as [-> ->].
  { destruct negated; cbn in H; repeat (case_match; [done|]); unfold ret in H;
      rewrite Ht' in H; by injection H as <- <-. }
  eexists _, (CIsNull table (cname c) negated). split.
  { apply lex_column_cond; [by apply made_no_dquote..|].
    instantiate (1 := if negated then [TWord "IS"; TWord "NOT"; TWord "NULL"]
                      else [TWord "IS"; TWord "NULL"]). by destruct negated. }
  split.
  - rewrite Nat.sub_diag. by destruct negated.
  - apply operand_column. intros rest _. by destruct negated.
  - intros col r more. destruct negated; cbn [eval denote]; rewrite String.eqb_refl;
      by destruct (r (cname c)).
Qed.

Record reads_list (args args' : list value) (fs : list filter) (parts : list string)
    (tss : list (list token)) (es : list cond) : Prop := {
  rl_lex : Forall2 (fun p ts => lex p = Some ts) parts tss;
  rl_operands : Forall2 operand tss es;
  rl_params : params (concat tss) = numbers (length args) (length args' - length args);
  rl_eval : forall col r more,
    map (eval col (args' ++ more) table r) es = map (denote col r) fs
}.

Lemma within_app_l a b : within (a ++ b) -> within a.
Proof. unfold within. rewrite length_app. lia. Qed.

Lemma sound_list fs args parts args' :
  Forall sound fs -> foldr and True (map made_filter fs) ->
  mapM_ (fun p => compile p table ident) (map build fs) args = (Ok parts, args') ->
  within args' -> exists tss es, reads_list args args' fs parts tss es.
Proof.
  intros HF. revert args parts; induction HF as [|f fs Hf HF IH]; intros args parts Hm H Hw.
  { cbn in H. unfold ret in H. injection H as <- <-. exists [], []. split; [constructor..| |done].
    by rewrite Nat.sub_diag. }
  cbn [map mapM_] in H. destruct Hm as [Hm1 Hm2]. runM H. runM H. unfold ret in H.
  injection H as <- <-.
  assert (extends (mapM_ (fun p => compile p table ident) (map build fs))) as Hext.
  { apply extends_mapM, Forall_forall. intros p _. apply compile_extends. }
  destruct (Hext _ _ _ E0) as [ws ->]. pose proof (within_app_l _ _ Hw) as Hw1.
  destruct (compile_extends _ _ _ _ _ _ E) as [vs ->].
  destruct (Hf _ _ _ Hm1 E Hw1) as (toks & e & Hl & [Hp Hparse He]).
  destruct (IH _ _ Hm2 E0 Hw) as (tss & es & [Hl2 Hop Hp2 He2]).
  exists (toks :: tss), (e :: es). split.
  - by constructor.
  - by constructor.
  - cbn [concat]. rewrite params_app, Hp, Hp2. rewrite !length_app.
    replace (length args + length vs + length ws - length args)%nat
      with (length vs + length ws)%nat by lia.
    rewrite numbers_app. f_equal; f_equal; lia.
  - intros col r more. cbn [map]. f_equal; [|done]. rewrite <- He with (more := ws ++ more).
    by rewrite !app_assoc.
Qed.

Lemma nest_nonempty (fs : list filter) args args' parts tss es :
  reads_list args args' fs parts tss es -> fs <> [] -> es <> [].
Proof.
  intros [_ _ _ He] Hne ->. specialize (He {| cmp := fun _ _ _ => true; fold := id |}
    (fun _ => None) []). by destruct fs.
Qed.

Lemma sound_group (conj : bool) fs :
  Forall sound fs -> sound (if conj then FAnd fs else FOr fs).
Proof.
  intros HF args text args' Hm H Hw.
  assert (foldr and True (map made_filter fs)) as Hm' by (by destruct conj). clear Hm.
  assert (exists parts, map build fs <> [] /\
    mapM_ (fun p => compile p table ident) (map build fs) args = (Ok parts, args') /\
    text = "(" +:+ Join parts (if conj then " AND " else " OR ") +:+ ")") as (parts & Hne & HM & ->).
  { destruct conj; cbn [build And Or groupedPredicate compile pchildren pkind] in H;
      repeat (case_match; [done|]); bool_to_prop; runM H; unfold ret in H; injection H as <- <-;
      eauto. }
  assert (fs <> []) as Hfs by (by destruct fs).
  destruct (sound_list _ _ _ _ HF Hm' HM Hw) as (tss & es & HR).
  pose proof (nest_nonempty _ _ _ _ _ _ HR Hfs) as Hes. destruct HR as [Hl Hop Hp He].
  exists (TLpar :: join_tokens [TWord (if conj then "AND" else "OR")] tss ++ [TRpar]),
    (nest (if conj then CAnd else COr) es). split.
  { apply (lex_app_closed "(" _ [TLpar]); [done|]. apply lex_app; [|done|done].
    apply lex_join; [by destruct conj|by destruct conj|done]. }
  split.
  - change (?a :: ?f) with ([a] ++ f). rewrite !params_app, params_join by (by destruct conj).
    rewrite Hp. change (params [TRpar]) with (@nil Z). by rewrite app_nil_r.
  - destruct conj; [by apply operand_and|by apply operand_or].
  - intros col r more. destruct conj; [rewrite eval_nest_and|rewrite eval_nest_or]; try done;
      by rewrite He.
Qed.

Lemma sound_not f : sound f -> sound (FNot f).
Proof.
  intros Hf args text args' Hm H Hw. cbn in H. repeat (case_match; [done|]).
  runM H. unfold ret in H. injection H as <- <-.
  destruct (Hf _ _ _ Hm E Hw) as (toks & e & Hl & [Hp Hparse He]).
  exists (TWord "NOT" :: TLpar :: toks ++ [TRpar]), (CNot e). split.
  { apply (lex_app_closed "NOT (" _ [TWord "NOT"; TLpar]); [done|]. by apply lex_app. }
  split.
  - change (?a :: ?b :: ?f) with ([a; b] ++ f). rewrite !params_app, Hp. by rewrite app_nil_r.
  - by apply operand_not.
  - intros col r more. cbn. by rewrite He.
Qed.

Lemma compile_sound f : sound f.
Proof.
  induction f using filter_ind'.
  - apply sound_compare.
  - apply sound_in.
  - apply (sound_null c false).
  - apply (sound_null c true).
  - apply sound_like.
  - apply sound_contains.
  - by apply (sound_group true).
  - by apply (sound_group false).
  - by apply sound_not.
Qed.
End Sound.
