(* ===== verification/OrmStatements.v ===== *)
(** * Built statements read back

    For each builder: its text lexes and parses as the statement the builder describes, the
    parameters are numbered from one, and WHERE, ORDER BY, LIMIT, SET and RETURNING mean what
    was asked for. *)

From S2P Require Import Prelude GoStrings GoRegexp Orm SqlText OrmSpec OrmFacts.
Local Open Scope Z_scope.

(** ** Clauses *)

(** A clause is empty or starts with a delimiter, so it can follow any token. *)
Record clause (text : string) (ts : list token) : Prop := {
  clause_lex : lex text = Some ts;
  clause_start : starts_delim text
}.

Lemma starts_delim_app a b : starts_delim a -> starts_delim b -> starts_delim (a +:+ b).
Proof. by destruct a. Qed.

Lemma clause_nil : clause EmptyString [].
Proof. by split. Qed.

Lemma clause_app a b ta tb : clause a ta -> clause b tb -> clause (a +:+ b) (ta ++ tb).
Proof. intros [] []. split; [by apply lex_app|by apply starts_delim_app]. Qed.

(** A keyword with its spaces, then text. *)
Lemma clause_keyword kw tk text ts :
  lex_run LStart kw = Some (tk, LStart) -> starts_delim (kw +:+ text) ->
  lex text = Some ts -> clause (kw +:+ text) (tk ++ ts).
Proof. intros. split; [by apply lex_app_closed|done]. Qed.

#[export] Hint Resolve clause_nil clause_app : goforge.

(** Membership in a list of known words, by evaluation. *)
Ltac word_in :=
  match goal with
  | |- ?x ∈ ?l => by apply (bool_decide_eq_true_1 (x ∈ l))
  | |- ?x ∉ ?l => by apply (bool_decide_eq_true_1 (x ∉ l))
  end.
(** What can follow: nothing, or one of the keywords [kws]. *)
Definition tail_of (kws : list string) (rest : list token) : Prop :=
  match rest with [] => True | TWord w :: _ => w ∈ kws | _ => False end.

Definition after_where : list string := ["ORDER"; "LIMIT"; "OFFSET"; "FOR"; "RETURNING"].

Lemma tail_of_app kws a b : tail_of kws a -> tail_of kws b -> tail_of kws (a ++ b).
Proof. by destruct a. Qed.

Lemma tail_of_mono kws kws' rest : kws ⊆ kws' -> tail_of kws rest -> tail_of kws' rest.
Proof. destruct rest as [|[] rest]; cbn; auto. Qed.

Lemma tail_not_word kws rest w : tail_of kws rest -> w ∉ kws -> not_word w rest.
Proof. destruct rest as [|[] rest]; cbn; try done. intros H1 H2 ->. done. Qed.

Lemma tail_follows rest : tail_of after_where rest -> follows rest.
Proof. destruct rest as [|[] rest]; cbn; try done. intros H ->. set_solver. Qed.

(** The tokens of later clauses start with one of the expected keywords. *)
Ltac clause_tail :=
  repeat apply tail_of_app;
  match goal with H : forall kws, _ ∈ kws -> tail_of kws ?ts |- tail_of _ ?ts =>
    apply H; word_in end.

Section Clauses.
Context (table : string) (ident : option nat) (Htable : made_name table).

Record where_spec (args args' : list value) (fs : list filter) (text : string)
    (ts : list token) (wh : option cond) : Prop := {
  wh_clause : clause text ts;
  wh_params : params ts = numbers (length args) (length args' - length args);
  wh_parse : forall rest, tail_of after_where rest -> parse_where (ts ++ rest) = Some (wh, rest);
  wh_holds : forall en more r, holds en (args' ++ more) table wh r = selected (coll en) r fs
}.

Lemma writePredicates_spec fs args text args' :
  foldr and True (map made_filter fs) ->
  writePredicates table ident (map build fs) args = (Ok text, args') -> within args' ->
  exists ts wh, where_spec args args' fs text ts wh.
Proof.
  intros Hm H Hw. unfold writePredicates in H. case_bool_decide as Hnil.
  { apply map_eq_nil in Hnil as ->. unfold ret in H. injection H as <- <-.
    exists [], None. split; [auto with goforge| | |done].
    - by rewrite Nat.sub_diag.
    - intros [|[] rest] Hr; try done. cbn in Hr |- *.
      assert ((word =? "WHERE")%string = false) as ->; [|done].
      apply String.eqb_neq. intros ->. set_solver. }
  runM H. unfold ret in H. injection H as <- <-.
  edestruct (sound_list table ident) as (tss & es & HR); [|done..|].
  { apply Forall_forall. intros f _. by apply compile_sound. }
  assert (es <> []) as Hes by (eapply nest_nonempty; [done|by intros ->]).
  destruct HR as [Hl Hop Hp He].
  exists (TWord "WHERE" :: join_tokens [TWord "AND"] tss), (Some (nest CAnd es)). split.
  - apply (clause_keyword " WHERE " [TWord "WHERE"]); [done|done|]. by apply lex_join.
  - change (?a :: ?f) with ([a] ++ f). rewrite params_app, params_join by done. done.
  - intros rest Hr. cbn [app parse_where is_word]. rewrite String.eqb_refl.
    unfold read_cond, cond_fuel. rewrite length_app.
    replace (3 * (length (join_tokens [TWord "AND"] tss) + length rest) + 3)%nat
      with (S (3 * (length (join_tokens [TWord "AND"] tss) + length rest) + 2)) by lia.
    cbn [parse_cond]. rewrite (parse_and tss es); [|done|done|by apply tail_follows| |lia].
    + destruct rest as [|[] rest]; try done.
      assert ((word =? "OR")%string = false) as ->; [|done].
      apply String.eqb_neq. cbn in Hr. intros ->. set_solver.
    + eapply tail_not_word; [done|word_in].
  - intros en more r. cbn [holds]. unfold selected. rewrite eval_nest_and, He by done. done.
Qed.

(** Orders as [Asc] and [Desc] make them. *)
Definition mk_order (o : Column * bool) : Order := if snd o then Desc (fst o) else Asc (fst o).
Definition order_item (o : Column * bool) : string * string :=
  (cname (fst o), if snd o then "DESC" else "ASC").

Lemma writeOrders_parts os (args : list value) parts args' :
  Forall (fun o => made_name (cname (fst o))) os ->
  mapM_ (fun o => of_result (write_order table ident o)) (map mk_order os) args
    = (Ok parts, args') ->
  args' = args /\
  Forall2 (fun p ts => lex p = Some ts) parts
    (map (fun o => [TIdent table; TDot; TIdent (cname (fst o)); TWord (snd (order_item o))]) os).
Proof.
  intros Hm. revert parts; induction Hm as [|[c d] os Hc _ IH]; intros parts H; cbn [map mapM_] in H.
  { unfold ret in H. injection H as <- <-. split; [done|constructor]. }
  runM H. runM H. unfold ret in H. injection H as <- <-.
  unfold of_result, write_order in E. case_match eqn:G; [done|]. injection E as <- <-.
  destruct (IH _ E0) as [-> HF]. split; [done|]. constructor; [|done].
  bool_to_prop. assert (otable (mk_order (c, d)) = table) as -> by done.
  replace (ocolumn (mk_order (c, d))) with (cname c) by (by destruct d).
  apply (lex_column_cond table (cname c) _ [TWord _]); [by apply made_no_dquote..|].
  by destruct d.
Qed.

Record order_spec (os : list (Column * bool)) (text : string) (ts : list token) : Prop := {
  ord_clause : clause text ts;
  ord_params : params ts = [];
  ord_tail : forall kws, "ORDER" ∈ kws -> tail_of kws ts;
  ord_parse : forall rest, tail_of ["LIMIT"; "OFFSET"; "FOR"] rest ->
    parse_order table (ts ++ rest) = Some (map order_item os, rest)
}.

Lemma parse_order_items_spec os rest :
  os <> [] -> tail_of ["LIMIT"; "OFFSET"; "FOR"] rest ->
  parse_order_items table (join_tokens [TComma]
    (map (fun o => [TIdent table; TDot; TIdent (cname (fst o)); TWord (snd (order_item o))]) os)
    ++ rest) = Some (map order_item os, rest).
Proof.
  intros Hne Hr. induction os as [|o [|o' os] IH]; [done| |].
  - cbn. rewrite String.eqb_refl. by destruct rest as [|[] rest].
  - change (join_tokens _ (map _ (o :: o' :: os))) with
      ([TIdent table; TDot; TIdent (cname (fst o)); TWord (snd (order_item o))] ++ [TComma] ++
       join_tokens [TComma] (map (fun o => [TIdent table; TDot; TIdent (cname (fst o));
         TWord (snd (order_item o))]) (o' :: os))).
    rewrite <- !app_assoc. cbn [app parse_order_items]. rewrite IH by done.
    by rewrite String.eqb_refl.
Qed.

Lemma writeOrders_spec os (args : list value) text args' :
  Forall (fun o => made_name (cname (fst o))) os ->
  writeOrders table ident (map mk_order os) args = (Ok text, args') ->
  args' = args /\ exists ts, order_spec os text ts.
Proof.
  intros Hm H. unfold writeOrders in H. case_bool_decide as Hnil.
  { apply map_eq_nil in Hnil as ->. unfold ret in H. injection H as <- <-. split; [done|].
    exists []. split; [auto with goforge|done|done|]. intros rest Hr.
    destruct rest as [|[] [|b rest]]; try done. cbn in Hr |- *.
    assert ((word =? "ORDER")%string = false) as ->; [|done].
    apply String.eqb_neq. intros ->. set_solver. }
  runM H. unfold ret in H. injection H as <- <-.
  destruct (writeOrders_parts _ _ _ _ Hm E) as [-> HF]. split; [done|]. eexists. split.
  - apply (clause_keyword " ORDER BY " [TWord "ORDER"; TWord "BY"]); [done|done|].
    by apply lex_join.
  - rewrite params_app, params_join by done. clear. by induction os.
  - done.
  - intros rest Hr. cbn [app parse_order is_word]. rewrite !String.eqb_refl.
    apply parse_order_items_spec; [by intros ->|done].
Qed.
End Clauses.

(** ** Projections and bounds *)

Definition column_tokens (table : string) (cs : list string) : list token :=
  join_tokens [TComma] (map (fun c => [TIdent table; TDot; TIdent c]) cs).

Lemma lex_mapped_columns {Mo} (t : Table Mo) :
  made_table t -> lex (writeMappedColumns t) = Some (column_tokens (tname t) (columns (mapper t))).
Proof.
  intros [Ht Hc _]. apply lex_join; [done|done|].
  induction Hc as [|c cs Hc _ IH]; cbn [map]; constructor; [|done].
  by apply lex_qualified; apply made_no_dquote.
Qed.

Lemma params_columns table cs : params (column_tokens table cs) = [].
Proof. unfold column_tokens. rewrite params_join by done. by induction cs. Qed.

Lemma parse_columns_spec table cs rest :
  cs <> [] -> match rest with TComma :: _ => False | _ => True end ->
  parse_columns (column_tokens table cs ++ rest) = Some (map (pair table) cs, rest).
Proof.
  intros Hne Hr. unfold column_tokens. induction cs as [|c [|c' cs] IH]; [done| |].
  - cbn. by destruct rest as [|[] rest].
  - change (join_tokens _ (map _ (c :: c' :: cs))) with
      ([TIdent table; TDot; TIdent c] ++ [TComma] ++
       join_tokens [TComma] (map (fun c => [TIdent table; TDot; TIdent c]) (c' :: cs))).
    rewrite <- !app_assoc. cbn [app parse_columns]. by rewrite IH.
Qed.

Record bound_spec (kw : string) (args args' : list value) (n : option Z) (text : string)
    (ts : list token) (p : option Z) : Prop := {
  bd_clause : clause text ts;
  bd_params : params ts = numbers (length args) (length args' - length args);
  bd_tail : forall kws, kw ∈ kws -> tail_of kws ts;
  bd_parse : forall rest, tail_of ["OFFSET"; "FOR"] rest -> not_word kw rest ->
    parse_bound kw (ts ++ rest) = Some (p, rest);
  bd_value : forall more, count_arg (args' ++ more) p = n
}.

Lemma bind_clause_spec kw n args text args' :
  lex_run LStart (" " +:+ kw +:+ " ") = Some ([TWord kw], LStart) ->
  bind_clause (" " +:+ kw +:+ " ") n args = (Ok text, args') -> within args' ->
  exists ts p, bound_spec kw args args' n text ts p.
Proof.
  intros Hkw H Hw. destruct n as [z|]; cbn -[Itoa] in H; unfold bindM, bind, ret in H;
    injection H as <- <-.
  - exists [TWord kw; TParam (Itoa (Z.of_nat (S (length args))))],
      (Some (Z.of_nat (S (length args)))). split.
    + apply (clause_keyword _ [TWord kw]); [done|done|apply lex_placeholder].
    + by apply (params_numbers_one _ (VInt z)).
    + done.
    + intros rest _ _. cbn -[Itoa Atoi Z.of_nat]. rewrite String.eqb_refl.
      rewrite Atoi_placeholder; [done|]. unfold within in Hw. rewrite length_app in Hw.
      cbn in Hw. lia.
    + intros more. cbn [count_arg].
      by rewrite (arg_at _ args (VInt z) more) by (rewrite <- ?app_assoc; done).
  - exists [], None. split; [auto with goforge|by rewrite Nat.sub_diag|done| |done].
    intros rest Hr Hn. destruct rest as [|[] [|[] rest]]; try done. cbn in Hn |- *.
    by rewrite (proj2 (String.eqb_neq _ _) Hn).
Qed.

Lemma lock_clause_spec l :
  exists ts, clause (lock_clause l) ts /\ params ts = [] /\
    (forall kws, "FOR" ∈ kws -> tail_of kws ts) /\
    parse_lock ts = Some (match l with lockNone => None | lockUpdate => Some "UPDATE"
                                     | lockShare => Some "SHARE" end).
Proof.
  destruct l; [exists []|exists [TWord "FOR"; TWord "UPDATE"]|exists [TWord "FOR"; TWord "SHARE"]];
    split_and!; done.
Qed.

(** ** SELECT *)

Lemma checked_ok {Mo A} err (t : Table Mo) (k : result A) a :
  checked err t k = Ok a -> err = None /\ table_validate t = Ok tt /\ k = Ok a.
Proof.
  unfold checked. destruct err; [done|]. destruct (table_validate t) as [[]|]; done.
Qed.

Lemma run_compiler_ok body st :
  run_compiler body = Ok st ->
  body [] = (Ok (query st), stmt_args st) /\ within (stmt_args st).
Proof.
  unfold run_compiler, newCompiledStatement, within.
  destruct (body []) as [[q|e] args]; [|done]. case_match; [done|]. intros ?; simplify_eq.
  cbn. bool_to_prop. done.
Qed.

Lemma validate_columns {Mo} (t : Table Mo) : table_validate t = Ok tt -> columns (mapper t) <> [].
Proof.
  unfold table_validate, mapper_invalid. intros H E. rewrite E in H. cbn in H.
  by rewrite orb_true_r in H.
Qed.

Definition lock_word (l : lockMode) : option string :=
  match l with lockNone => None | lockUpdate => Some "UPDATE" | lockShare => Some "SHARE" end.

(** What a SELECT builder asks for, on a table's rows. *)
Definition requested {Mo} (en : engine) (b : SelectBuilder Mo) (limit : option Z)
    (fs : list filter) (os : list (Column * bool)) (rows : list tuple) : list row :=
  let t := sb_table b in
  map (project (tname t) (map (pair (tname t)) (columns (mapper t))))
    (paginate limit (sb_offset b)
      (sort_by en (map order_item os)
        (List.filter (fun r => selected (coll en) r fs) rows))).

Definition well_numbered (st : Statement) : Prop :=
  (exists toks, lex (query st) = Some toks /\
    params toks = numbers 0 (length (stmt_args st))) /\ within (stmt_args st).

Record select_reads {Mo} (b : SelectBuilder Mo) (limit : option Z) (fs : list filter)
    (os : list (Column * bool)) (st : Statement) (s : select_stmt) : Prop := {
  sr_read : read (query st) = Some (SSelect s);
  sr_table : s_table s = tname (sb_table b);
  sr_lock : s_lock s = lock_word (sb_lock b);
  sr_rows : forall en rows,
    select_rows en (stmt_args st) s rows = requested en b limit fs os rows;
  sr_numbered : well_numbered st
}.

Lemma numbers_chain a b c :
  (a <= b <= c)%nat ->
  numbers a (b - a) ++ numbers b (c - b) = numbers a (c - a).
Proof.
  intros H. replace (c - a)%nat with ((b - a) + (c - b))%nat by lia.
  rewrite numbers_app. do 2 f_equal. lia.
Qed.

Lemma extends_length {A} (m : M sqlCompiler A) args x args' :
  extends m -> m args = (Ok x, args') -> (length args <= length args')%nat.
Proof. intros He H. apply He in H as [vs ->]. rewrite length_app. lia. Qed.

Lemma extends_writePredicates table ident ps : extends (writePredicates table ident ps).
Proof.
  unfold writePredicates. case_match; [apply extends_ret|].
  apply extends_bindM; [|intros; apply extends_ret].
  apply extends_mapM, Forall_forall. intros p _. apply compile_extends.
Qed.
Lemma extends_bind_clause kw n : extends (bind_clause kw n).
Proof. destruct n; cbn [bind_clause]; auto with goforge. Qed.
#[export] Hint Resolve extends_writePredicates extends_bind_clause : goforge.

Lemma extends_within {A} (m : M sqlCompiler A) args x args' :
  extends m -> m args = (Ok x, args') -> within args' -> within args.
Proof. intros He H. apply He in H as [vs ->]. apply within_app_l. Qed.

Lemma select_body_reads {Mo} (b : SelectBuilder Mo) first fs os st :
  made_table (sb_table b) -> sb_predicates b = map build fs -> sb_orders b = map mk_order os ->
  foldr and True (map made_filter fs) -> Forall (fun o => made_name (cname (fst o))) os ->
  buildSelect b first = Ok st ->
  exists s, select_reads b (if first : bool then Some 1 else sb_limit b) fs os st s.
Proof.
  intros Ht Hps Hos Hfs Hmos H. unfold buildSelect in H.
  apply checked_ok in H as (_ & Hval & H). apply validate_columns in Hval.
  apply run_compiler_ok in H as [H Hw]. unfold select_body in H. rewrite Hps, Hos in H.
  pose proof (made_tname _ Ht) as Hname.
  runM H. runM H. runM H. runM H. unfold ret in H. injection H as Hq Hargs.
  rewrite <- Hargs in Hw.
  set (lim := if first then Some 1 else sb_limit b) in *.
  assert (within s1) as Hw1 by (eapply extends_within; eauto with goforge).
  destruct (writeOrders_spec _ _ Hname _ _ _ _ Hmos E0) as [-> [tord [Hoc Hop Hot Hopar]]].
  assert (within s) as Hws by (eapply extends_within; eauto with goforge).
  destruct (writePredicates_spec _ _ Hname _ _ _ _ Hfs E Hws) as (twh & wh & [Hwc Hwp Hwpar Hwh]).
  destruct (bind_clause_spec "LIMIT" _ _ _ _ eq_refl E1 Hw1) as (tlim & pl & [Hlc Hlp Hlt Hlpar Hlv]).
  destruct (bind_clause_spec "OFFSET" _ _ _ _ eq_refl E2 Hw) as (toff & po & [Hfc Hfp Hft Hfpar Hfv]).
  destruct (lock_clause_spec (sb_lock b)) as (tlock & Hkc & Hkp & Hkt & Hkpar).
  pose proof (extends_bind_clause _ _ _ _ _ E1) as [v1 Hv1].
  pose proof (extends_bind_clause _ _ _ _ _ E2) as [v2 Hv2].
  set (body := twh ++ tord ++ tlim ++ toff ++ tlock).
  set (toks := TWord "SELECT" :: column_tokens (tname (sb_table b)) (columns (mapper (sb_table b)))
                 ++ TWord "FROM" :: TIdent (tname (sb_table b)) :: body).
  assert (lex (query st) = Some toks) as Hlex.
  { rewrite <- Hq. apply (lex_app_closed "SELECT " _ [TWord "SELECT"]); [done|].
    apply lex_app; [by apply lex_mapped_columns| |done].
    apply (lex_app_closed " FROM " _ [TWord "FROM"]); [done|].
    apply (lex_app _ _ [TIdent (tname (sb_table b))]).
    - by apply lex_quoted, made_no_dquote.
    - by apply clause_lex; repeat apply clause_app.
    - by eapply clause_start; repeat apply clause_app. }
  exists {| s_columns := map (pair (tname (sb_table b))) (columns (mapper (sb_table b)));
            s_table := tname (sb_table b); s_where := wh; s_order := map order_item os;
            s_limit := pl; s_offset := po; s_lock := lock_word (sb_lock b) |}.
  split; [|done|done| |split; [|by rewrite <- Hargs]]; rewrite <- ?Hargs.
  - unfold read. rewrite Hlex. cbn [obind]. unfold toks, parse_statement.
    rewrite String.eqb_refl. unfold parse_select.
    rewrite parse_columns_spec by done. cbn [obind is_word]. rewrite String.eqb_refl.
    unfold body. rewrite Hwpar by clause_tail. cbn [obind].
    rewrite Hopar by clause_tail. cbn [obind].
    rewrite Hlpar; [|clause_tail|].
    2:{ apply (tail_not_word ["OFFSET"; "FOR"]); [clause_tail|word_in]. }
    cbn [obind]. rewrite Hfpar; [|clause_tail|].
    2:{ apply (tail_not_word ["FOR"]); [clause_tail|word_in]. }
    cbn [obind]. by rewrite Hkpar.
  - intros en rows. unfold select_rows, requested. cbn [s_table s_columns s_limit s_offset s_order s_where].
    rewrite Hv2 at 1. rewrite Hlv. specialize (Hfv []). rewrite app_nil_r in Hfv. rewrite Hfv.
    do 3 f_equal. apply List.filter_ext. intros r.
    rewrite Hv2, Hv1, <- app_assoc. apply Hwh.
  - exists toks. split; [done|]. unfold toks, body.
    change (TWord "SELECT" :: ?x) with ([TWord "SELECT"] ++ x).
    change (TWord "FROM" :: ?y :: ?x) with ([TWord "FROM"; y] ++ x).
    rewrite !params_app, params_columns, Hwp, Hop, Hlp, Hfp, Hkp. cbn [app].
    rewrite !app_nil_r. rewrite Hv2, Hv1. rewrite !length_app. cbn [length].
    change (params _) with (@nil Z). cbn [app].
    rewrite !numbers_chain by lia. f_equal. lia.
Qed.

(** ** Assignments *)

Definition present (l : list Assignment) : list Assignment :=
  List.filter (fun a => negb (bool_decide (akind a = assignmentOmitted))) l.

Record assignable (a : Assignment) : Prop := {
  as_present : akind a <> assignmentOmitted;
  as_value : akind a = assignmentValue -> isNilValue (avalue a) = false
}.

(** [includedAssignments] keeps exactly the present assignments, of its own table, with
    concrete values, and no column twice. *)
Lemma included_spec table ident l r :
  forall seen, included table ident seen l = Ok r ->
  r = present l /\ Forall assignable r /\ NoDup (map acolumn r) /\
  Forall (fun a => acolumn a ∉ seen) r /\
  Forall (fun a => atable a = table /\ aidentity a = ident) l.
Proof.
  revert r; induction l as [|a l IH]; intros r seen H; cbn [included] in H.
  { simplify_eq. split_and!; [done|constructor|constructor|constructor|constructor]. }
  case_match eqn:G1; [done|]. bool_to_prop.
  unfold present. cbn [List.filter]. case_bool_decide as Hom; cbn [negb].
  { apply IH in H as (-> & ? & ? & ? & ?). split_and!; try done. by constructor. }
  case_match eqn:G2; [done|]. case_bool_decide as Hseen; [done|].
  destruct (included table ident ({[acolumn a]} ∪ seen) l) as [r'|] eqn:E; [|done].
  cbn in H. simplify_eq. apply IH in E as (-> & Hf & Hnd & Hs & Ht). split_and!; [done|..].
  - constructor; [|done]. split; [done|]. intros Hk. rewrite Hk in G2. cbn in G2. done.
  - cbn [map]. constructor; [|done]. intros Hin. apply list_elem_of_fmap in Hin as (a' & He & Hin).
    rewrite Forall_forall in Hs. apply (Hs a' Hin). rewrite <- He. set_solver.
  - constructor; [done|]. eapply Forall_impl; [exact Hs|]. cbn. set_solver.
  - by constructor.
Qed.

(** The value an assignment gives its column of row [r]. *)
Definition assigned (en : engine) (r : tuple) (a : Assignment) : option value :=
  match akind a with
  | assignmentNull => None
  | assignmentDefault => default_of en (acolumn a)
  | assignmentCurrentTime => Some (now_value en)
  | assignmentIncrement =>
      match r (acolumn a) with Some x => Some (plus en x (avalue a)) | None => None end
  | assignmentValue | assignmentOmitted => Some (avalue a)
  end.

Definition assign_row (en : engine) (l : list Assignment) (r : tuple) : tuple :=
  fun c => match List.find (fun a => (acolumn a =? c)%string) l with
           | Some a => assigned en r a
           | None => r c
           end.

(** Assignments as the API makes them: valid column names, numeric increments. *)
Definition made_assignment (a : Assignment) : Prop :=
  made_name (acolumn a) /\ (akind a = assignmentIncrement -> isNilValue (avalue a) = false).

Record value_spec (args args' : list value) (a : Assignment) (text : string)
    (ts : list token) (s : setter) : Prop := {
  vs_lex : lex text = Some ts;
  vs_params : params ts = numbers (length args) (length args' - length args);
  vs_parse : forall rest, parse_setter (ts ++ rest) = Some (s, rest);
  vs_value : forall en r more,
    set_value en (args' ++ more) r (acolumn a, s) = assigned en r a
}.

Lemma writeAssignmentValue_spec a args text args' :
  made_assignment a -> assignable a -> writeAssignmentValue a args = (Ok text, args') ->
  within args' -> exists ts s, value_spec args args' a text ts s.
Proof.
  intros [Hname Hinc] [Hp Hv] H Hw.
  assert (forall v, args' = args ++ [v] -> text = placeholder (S (length args)) ->
    (forall en r, assigned en r a = if isNilValue v then None else Some v) ->
    exists ts s, value_spec args args' a text ts s) as Hone.
  { intros v -> -> Ha. eexists _, (SetParam (Z.of_nat (S (length args)))).
    split; [apply lex_placeholder| | |].
    - by apply params_numbers_one.
    - intros rest. cbn -[Itoa Atoi Z.of_nat]. rewrite Atoi_placeholder; [done|].
      unfold within in Hw. rewrite length_app in Hw. cbn in Hw. lia.
    - intros en r more. cbn [set_value snd]. rewrite Ha. unfold arg.
      replace (Z.to_nat _) with (length args) by lia.
      rewrite <- app_assoc, lookup_app_r, Nat.sub_diag by lia. done. }
  unfold writeAssignmentValue in H. destruct (akind a) eqn:Ek; try done.
  - unfold bind in H. injection H as <- <-. eapply Hone; [done|done|].
    intros en r. unfold assigned. by rewrite Ek, Hv.
  - unfold bind in H. injection H as <- <-. eapply Hone; [done|done|].
    intros en r. unfold assigned. by rewrite Ek.
  - unfold ret in H. injection H as <- <-. exists [TWord "DEFAULT"], SetDefault.
    split; [done|by rewrite Nat.sub_diag|done|].
    intros en r more. unfold assigned. by rewrite Ek.
  - unfold ret in H. injection H as <- <-. exists [TWord "CURRENT_TIMESTAMP"], SetNow.
    split; [done|by rewrite Nat.sub_diag|done|].
    intros en r more. unfold assigned. by rewrite Ek.
  - unfold bindM, bind, ret in H. injection H as <- <-.
    eexists _, (SetPlus (acolumn a) (Z.of_nat (S (length args)))). split.
    + apply (lex_app _ (" + " +:+ placeholder (S (length args))) [TIdent (acolumn a)]);
        [by apply lex_quoted, made_no_dquote| |done].
      apply (lex_app_closed " + " _ [TOp "+"]); [done|apply lex_placeholder].
    + by apply (params_numbers_one _ (avalue a)).
    + intros rest. cbn -[Itoa Atoi Z.of_nat]. rewrite Atoi_placeholder; [done|].
      unfold within in Hw. rewrite length_app in Hw. cbn in Hw. lia.
    + intros en r more. cbn [set_value snd].
      rewrite (arg_at _ args (avalue a) more); [|by rewrite <- app_assoc|done|by apply Hinc].
      unfold assigned. rewrite Ek. by destruct (r (acolumn a)).
Qed.

Lemma extends_writeAssignmentValue a : extends (writeAssignmentValue a).
Proof. unfold writeAssignmentValue. destruct (akind a); auto with goforge. Qed.
Lemma extends_write_set a : extends (write_set a).
Proof.
  apply extends_bindM; [apply extends_writeAssignmentValue|]. intros. apply extends_ret.
Qed.
#[export] Hint Resolve extends_writeAssignmentValue extends_write_set : goforge.

Record sets_spec (args args' : list value) (l : list Assignment) (parts : list string)
    (tss : list (list token)) (sets : list (string * setter)) : Prop := {
  ss_lex : Forall2 (fun p ts => lex p = Some ts) parts tss;
  ss_params : params (concat tss) = numbers (length args) (length args' - length args);
  ss_parse : Forall2 (fun ts s => forall rest,
    exists body, ts = TIdent (fst s) :: TOp "=" :: body /\
      parse_setter (body ++ rest) = Some (snd s, rest)) tss sets;
  ss_values : forall en r more,
    Forall2 (fun a s => fst s = acolumn a /\
                        set_value en (args' ++ more) r s = assigned en r a) l sets
}.

Lemma write_sets_spec l args parts args' :
  Forall made_assignment l -> Forall assignable l ->
  mapM_ write_set l args = (Ok parts, args') -> within args' ->
  exists tss sets, sets_spec args args' l parts tss sets.
Proof.
  intros Hm. revert args parts; induction Hm as [|a l Ha Hm IH]; intros args parts Has H Hw.
  { cbn in H. unfold ret in H. injection H as <- <-. exists [], []. split; try constructor.
    by rewrite Nat.sub_diag. }
  apply Forall_cons_1 in Has as [Haa Has]. cbn [mapM_] in H.
  runM H. runM H. unfold ret in H. injection H as <- <-.
  assert (extends (mapM_ write_set l)) as Hext.
  { apply extends_mapM, Forall_forall. intros. apply extends_write_set. }
  destruct (Hext _ _ _ E0) as [ws ->]. pose proof (within_app_l _ _ Hw) as Hw1.
  unfold write_set in E. runM E. unfold ret in E. injection E as <- <-.
  destruct (extends_writeAssignmentValue _ _ _ _ E1) as [vs ->].
  destruct (writeAssignmentValue_spec _ _ _ _ Ha Haa E1 Hw1) as (tv & s & [Hl Hp Hpar Hv]).
  destruct (IH _ _ Has E0 Hw) as (tss & sets & [Hl2 Hp2 Hpar2 Hv2]).
  exists ((TIdent (acolumn a) :: TOp "=" :: tv) :: tss), ((acolumn a, s) :: sets). split.
  - constructor; [|done].
    apply (lex_app _ (" = " +:+ _) [TIdent (acolumn a)]);
      [apply lex_quoted, made_no_dquote, Ha| |done].
    by apply (lex_app_closed " = " _ [TOp "="]).
  - cbn [concat]. rewrite params_app. change (?x :: ?y :: tv) with ([x; y] ++ tv).
    rewrite params_app, Hp, Hp2, !length_app. change (params [_; _]) with (@nil Z). cbn [app].
    rewrite numbers_chain by lia. done.
  - constructor; [|done]. intros rest. exists tv. split; [done|apply Hpar].
  - intros en r more. constructor; [|apply Hv2]. split; [done|].
    rewrite <- Hv with (more := ws ++ more). by rewrite !app_assoc.
Qed.

Lemma parse_sets_spec tss sets rest n :
  Forall2 (fun ts s => forall rest, exists body, ts = TIdent (fst s) :: TOp "=" :: body /\
      parse_setter (body ++ rest) = Some (snd s, rest)) tss sets ->
  sets <> [] -> match rest with TComma :: _ => False | _ => True end ->
  (length sets <= n)%nat ->
  parse_sets n (join_tokens [TComma] tss ++ rest) = Some (sets, rest).
Proof.
  intros HF; revert n; induction HF as [|ts [c s] tss sets Hs HF IH]; intros n Hne Hr Hn; [done|].
  destruct n as [|n]; [cbn in Hn; lia|]. destruct HF as [|ts' s' tss sets Hs' HF].
  - destruct (Hs rest) as (body & -> & Hb). cbn in Hb |- *. rewrite Hb. cbn [obind].
    by destruct rest as [|[] rest].
  - change (join_tokens [TComma] (ts :: ts' :: tss))
      with (ts ++ TComma :: join_tokens [TComma] (ts' :: tss)). rewrite <- app_assoc.
    destruct (Hs ((TComma :: join_tokens [TComma] (ts' :: tss)) ++ rest)) as (body & -> & Hb).
    cbn in Hb |- *. rewrite Hb. cbn [obind app].
    cbn [app] in IH. cbn [length] in Hn. cbn [length] in IH. by rewrite IH by (done || lia).
Qed.

Lemma sets_length tss sets :
  Forall2 (fun ts s => forall rest, exists body, ts = TIdent (fst s) :: TOp "=" :: body /\
      parse_setter (body ++ rest) = Some (snd s, rest)) tss sets ->
  (length sets <= length (join_tokens [TComma] tss))%nat.
Proof.
  induction 1 as [|ts s tss sets Hs HF IH]; [done|].
  destruct (Hs []) as (body & -> & _). destruct HF.
  - cbn. lia.
  - change (join_tokens [TComma] (?a :: ?b :: ?c)) with (a ++ TComma :: join_tokens [TComma] (b :: c)).
    rewrite length_app. cbn [length] in *. lia.
Qed.

(** Two rows with the same value in every column. *)
Definition same_row (r r' : tuple) : Prop := forall c, r c = r' c.

Lemma set_row_assign en args l sets r :
  Forall2 (fun a s => fst s = acolumn a /\ set_value en args r s = assigned en r a) l sets ->
  same_row (set_row en args sets r) (assign_row en l r).
Proof.
  intros HF c. unfold set_row, assign_row.
  induction HF as [|a s l sets [Hn Hv] HF IH]; [done|]. cbn [List.find]. rewrite Hn.
  by destruct (acolumn a =? c)%string.
Qed.

Lemma made_present l : Forall made_assignment l -> Forall made_assignment (present l).
Proof.
  rewrite !Forall_forall. intros H x Hx. apply H.
  apply list_elem_of_In in Hx. apply filter_In in Hx as [Hx _]. by apply list_elem_of_In.
Qed.

(** ** UPDATE and DELETE *)

Lemma extends_mapM_write_set l : extends (mapM_ write_set l).
Proof. apply extends_mapM, Forall_forall. intros. apply extends_write_set. Qed.

Lemma lex_update (t : string) parts tss wh twh :
  made_name t -> Forall2 (fun p ts => lex p = Some ts) parts tss -> clause wh twh ->
  lex ("UPDATE " +:+ quoted t +:+ " SET " +:+ Join parts ", " +:+ wh) =
  Some (TWord "UPDATE" :: TIdent t :: TWord "SET" :: join_tokens [TComma] tss ++ twh).
Proof.
  intros Ht HF [Hl Hs]. apply (lex_app_closed "UPDATE " _ [TWord "UPDATE"]); [done|].
  apply (lex_app _ _ [TIdent t]); [by apply lex_quoted, made_no_dquote| |done].
  apply (lex_app_closed " SET " _ [TWord "SET"]); [done|].
  apply lex_app; [by apply lex_join|done|done].
Qed.

Record update_reads {Mo} (u : UpdateBuilder Mo) (fs : list filter) (st : Statement)
    (sets : list (string * setter)) (wh : option cond) : Prop := {
  ur_read : read (query st) = Some (SUpdate (tname (ub_table u)) sets wh);
  ur_holds : forall en r,
    holds en (stmt_args st) (tname (ub_table u)) wh r = selected (coll en) r fs;
  ur_row : forall en r,
    same_row (set_row en (stmt_args st) sets r) (assign_row en (present (ub_assignments u)) r);
  ur_nodup : NoDup (map acolumn (present (ub_assignments u)));
  ur_numbered : well_numbered st
}.

Lemma UpdateBuild_reads {Mo} (u : UpdateBuilder Mo) fs st :
  made_table (ub_table u) -> ub_predicates u = map build fs ->
  foldr and True (map made_filter fs) -> Forall made_assignment (ub_assignments u) ->
  UpdateBuild u = Ok st -> exists sets wh, update_reads u fs st sets wh.
Proof.
  intros Ht Hps Hfs Hma H. unfold UpdateBuild in H.
  apply checked_ok in H as (_ & _ & H). pose proof (made_tname _ Ht) as Hname.
  case_match eqn:Hsafe; [done|]. clear Hsafe.
  destruct (includedAssignments _ _ _) as [l|] eqn:El; [|done]. cbn [rbind] in H.
  apply included_spec in El as (-> & Has & Hnd & _). case_bool_decide as Hne; [done|].
  apply run_compiler_ok in H as [H Hw]. rewrite Hps in H.
  runM H. runM H. unfold ret in H. injection H as Hq Hargs. rewrite <- Hargs in Hw.
  pose proof (made_present _ Hma) as Hmp.
  destruct (extends_writePredicates _ _ _ _ _ _ E0) as [v2 Hv2].
  assert (within s) as Hws.
  { eapply extends_within; [apply extends_writePredicates|exact E0|exact Hw]. }
  destruct (write_sets_spec _ _ _ _ Hmp Has E Hws) as (tss & sets & [Hl Hp Hpar Hv]).
  destruct (writePredicates_spec _ _ Hname _ _ _ _ Hfs E0 Hw) as (twh & wh & [Hwc Hwp Hwpar Hwh]).
  pose proof (lex_update _ _ _ _ _ Hname Hl Hwc) as Hlex. rewrite Hq in Hlex.
  assert (sets <> []) as Hsne.
  { intros ->. specialize (Hv {| coll := {| cmp := fun _ _ _ => true; fold := id |};
      default_of := fun _ => None; now_value := VNil; plus := fun a _ => a;
      sort_by := fun _ l => l |} (fun _ => None) []). apply Forall2_nil_inv_r in Hv. done. }
  pose proof (Hwpar [] I) as Hw0. rewrite app_nil_r in Hw0.
  exists sets, wh. split; [| | |done|split; [|by rewrite <- Hargs]]; rewrite <- ?Hargs.
  - unfold read. rewrite Hlex. cbn [obind]. unfold parse_statement, is_word.
    simpl (_ =? _)%string. cbn match.
    rewrite (parse_sets_spec tss sets); [|done|done| |].
    + cbn [obind]. by rewrite Hw0.
    + by destruct twh as [|[] twh].
    + rewrite length_app. pose proof (sets_length _ _ Hpar). lia.
  - intros en r. specialize (Hwh en [] r). by rewrite app_nil_r in Hwh.
  - intros en r. apply set_row_assign. rewrite Hv2. apply Hv.
  - eexists. split; [done|]. change (?a :: ?b :: ?c :: ?f) with ([a; b; c] ++ f).
    rewrite !params_app, params_join, Hp, Hwp by done. rewrite Hv2, !length_app.
    change (params [_; _; _]) with (@nil Z). cbn [app length].
    rewrite numbers_chain by lia. f_equal. lia.
Qed.

Record delete_reads {Mo} (d : DeleteBuilder Mo) (fs : list filter) (st : Statement) : Prop := {
  dr_stmt : exists wh,
    read (query st) = Some (SDelete (tname (db_table d)) wh) /\
    forall en rows,
      delete_rows en (stmt_args st) (tname (db_table d)) wh rows =
      List.filter (fun r => negb (selected (coll en) r fs)) rows;
  dr_numbered : well_numbered st
}.

Lemma DeleteBuild_reads {Mo} (d : DeleteBuilder Mo) fs st :
  made_table (db_table d) -> db_predicates d = map build fs ->
  foldr and True (map made_filter fs) ->
  DeleteBuild d = Ok st -> delete_reads d fs st.
Proof.
  intros Ht Hps Hfs H. unfold DeleteBuild in H.
  apply checked_ok in H as (_ & _ & H). pose proof (made_tname _ Ht) as Hname.
  case_match eqn:Hsafe; [done|]. clear Hsafe.
  apply run_compiler_ok in H as [H Hw]. rewrite Hps in H.
  runM H. unfold ret in H. injection H as Hq Hargs. rewrite <- Hargs in Hw.
  destruct (writePredicates_spec _ _ Hname _ _ _ _ Hfs E Hw) as (twh & wh & [Hwc Hwp Hwpar Hwh]).
  assert (lex (query st) = Some (TWord "DELETE" :: TWord "FROM" :: TIdent (tname (db_table d)) :: twh))
    as Hlex.
  { rewrite <- Hq. apply (lex_app_closed "DELETE FROM " _ [TWord "DELETE"; TWord "FROM"]); [done|].
    destruct Hwc as [Hl Hs].
    apply (lex_app _ _ [TIdent (tname (db_table d))]); [by apply lex_quoted, made_no_dquote|done|done]. }
  pose proof (Hwpar [] I) as Hw0. rewrite app_nil_r in Hw0.
  split; [exists wh; split|split; [|by rewrite <- Hargs]]; rewrite <- ?Hargs.
  - unfold read. rewrite Hlex. cbn [obind]. unfold parse_statement, is_word.
    simpl (_ =? _)%string. cbn match. by rewrite Hw0.
  - intros en rows. unfold delete_rows. apply List.filter_ext. intros r.
    specialize (Hwh en [] r). rewrite app_nil_r in Hwh. by rewrite Hwh.
  - eexists. split; [done|]. change (?a :: ?b :: ?c :: ?f) with ([a; b; c] ++ f).
    rewrite params_app, Hwp. change (params [_; _; _]) with (@nil Z). cbn [app].
    f_equal. cbn. lia.
Qed.

(** ** Numbering of parameters in every statement *)

(** A piece of text whose parameters continue the numbering. *)
Definition numbered (m : M sqlCompiler string) : Prop :=
  extends m /\
  forall args text args', m args = (Ok text, args') -> within args' ->
    exists ts, lex text = Some ts /\ params ts = numbers (length args) (length args' - length args).

Lemma numbered_mapM {A} (f : A -> M sqlCompiler string) l args parts args' :
  Forall (fun a => numbered (f a)) l ->
  mapM_ f l args = (Ok parts, args') -> within args' ->
  exists tss, Forall2 (fun p ts => lex p = Some ts) parts tss /\
    params (concat tss) = numbers (length args) (length args' - length args).
Proof.
  intros HF. revert args parts; induction HF as [|a l [He Ha] HF IH]; intros args parts H Hw.
  { cbn in H. unfold ret in H. injection H as <- <-. exists []. split; [constructor|].
    by rewrite Nat.sub_diag. }
  cbn [mapM_] in H. runM H. runM H. unfold ret in H. injection H as <- <-.
  assert (extends (mapM_ f l)) as Hext.
  { apply extends_mapM. eapply Forall_impl; [exact HF|]. by intros x [? _]. }
  destruct (Hext _ _ _ E0) as [ws ->]. pose proof (within_app_l _ _ Hw) as Hw1.
  destruct (He _ _ _ E) as [vs ->].
  destruct (Ha _ _ _ E Hw1) as (ts & Hl & Hp). destruct (IH _ _ E0 Hw) as (tss & HF2 & Hp2).
  exists (ts :: tss). split; [by constructor|]. cbn [concat].
  rewrite params_app, Hp, Hp2, !length_app. rewrite numbers_chain by lia. done.
Qed.

Lemma numbered_value a :
  made_assignment a -> assignable a -> numbered (writeAssignmentValue a).
Proof.
  intros Hm Ha. split; [apply extends_writeAssignmentValue|]. intros args text args' H Hw.
  destruct (writeAssignmentValue_spec _ _ _ _ Hm Ha H Hw) as (ts & s & [Hl Hp _ _]). eauto.
Qed.

Lemma numbered_insert_value a :
  made_assignment a -> assignable a -> numbered (insert_value a).
Proof.
  intros Hm Ha. unfold insert_value. destruct (is_increment a); [|by apply numbered_value].
  split; [apply extends_throw|]. by intros ???.
Qed.

Lemma numbered_row l :
  Forall made_assignment l -> Forall assignable l ->
  numbered (let! vs := mapM_ writeAssignmentValue l in ret ("(" +:+ Join vs ", " +:+ ")"))%go.
Proof.
  intros Hm Ha. split.
  { apply extends_bindM; [|intros; apply extends_ret].
    apply extends_mapM, Forall_forall. intros. apply extends_writeAssignmentValue. }
  intros args text args' H Hw. runM H. unfold ret in H. injection H as <- <-.
  edestruct (numbered_mapM writeAssignmentValue l) as (tss & HF & Hp); [|exact E|exact Hw|].
  { rewrite Forall_forall in *. intros x Hx. apply numbered_value; auto. }
  exists (TLpar :: join_tokens [TComma] tss ++ [TRpar]). split.
  - apply (lex_app_closed "(" _ [TLpar]); [done|]. apply lex_app; [by apply lex_join|done|done].
  - change (?x :: ?f) with ([x] ++ f). rewrite !params_app, params_join, Hp by done.
    change (params [TRpar]) with (@nil Z). by rewrite app_nil_r.
Qed.

Lemma clause_returning {Mo} (t : Table Mo) :
  made_table t ->
  clause (returning t) (TWord "RETURNING" :: column_tokens (tname t) (columns (mapper t))).
Proof.
  intros Ht. apply (clause_keyword " RETURNING " [TWord "RETURNING"]); [done|done|].
  by apply lex_mapped_columns.
Qed.

Lemma lex_quoted_list cs :
  Forall made_name cs -> Forall2 (fun p ts => lex p = Some ts) (map quoted cs)
    (map (fun c => [TIdent c]) cs).
Proof.
  induction 1 as [|c cs Hc _ IH]; cbn; constructor; [by apply lex_quoted, made_no_dquote|done].
Qed.

Lemma params_idents cs : params (concat (map (fun c => [TIdent c]) cs)) = [].
Proof. by induction cs. Qed.

(** The common shape of the two INSERT statements. *)
Lemma lex_insert {Mo} (t : Table Mo) cs values tv :
  made_table t -> Forall made_name cs -> clause (" VALUES " +:+ values) tv ->
  exists toks,
    lex ("INSERT INTO " +:+ quoted (tname t) +:+ " (" +:+ Join (map quoted cs) ", " +:+
         ")" +:+ (" VALUES " +:+ values) +:+ returning t) = Some toks /\ params toks = params tv.
Proof.
  intros Ht Hcs Hv.
  exists ([TWord "INSERT"; TWord "INTO"] ++ [TIdent (tname t)] ++ [TLpar] ++
    join_tokens [TComma] (map (fun c => [TIdent c]) cs) ++ [TRpar] ++ tv ++
    (TWord "RETURNING" :: column_tokens (tname t) (columns (mapper t)))). split.
  - apply (lex_app_closed "INSERT INTO "); [done|].
    apply lex_app; [apply lex_quoted, made_no_dquote, Ht| |done].
    apply (lex_app_closed " ("); [done|].
    apply lex_app; [apply lex_join; [done|done|by apply lex_quoted_list]| |done].
    apply (lex_app ")"); [done| |].
    + apply clause_lex. apply clause_app; [done|by apply clause_returning].
    + eapply clause_start. apply clause_app; [done|by apply clause_returning].
  - change (TWord "RETURNING" :: ?x) with ([TWord "RETURNING"] ++ x).
    rewrite !params_app, params_join, params_idents, params_columns by done.
    rewrite !app_nil_r. done.
Qed.

Lemma made_assignment_names l : Forall made_assignment l -> Forall made_name (map acolumn l).
Proof. induction 1 as [|a l [Ha _] _ IH]; cbn; by constructor. Qed.

Lemma InsertBuild_numbered {Mo} (b : InsertBuilder Mo) st :
  made_table (ib_table b) -> Forall made_assignment (ib_assignments b) ->
  InsertBuild b = Ok st -> well_numbered st.
Proof.
  intros Ht Hm H. unfold InsertBuild in H. apply checked_ok in H as (_ & _ & H).
  destruct (includedAssignments _ _ _) as [l|] eqn:El; [|done]. cbn [rbind] in H.
  apply included_spec in El as (-> & Has & _). apply made_present in Hm.
  apply run_compiler_ok in H as [H Hw]. split; [|done]. case_bool_decide as Hne.
  { unfold ret in H. injection H as Hq Hargs. rewrite <- Hq, <- Hargs.
    exists ([TWord "INSERT"; TWord "INTO"] ++ [TIdent (tname (ib_table b))] ++
      [TWord "DEFAULT"; TWord "VALUES"] ++
      (TWord "RETURNING" :: column_tokens (tname (ib_table b)) (columns (mapper (ib_table b))))).
    destruct (clause_returning _ Ht) as [Hl Hs]. split.
    - apply (lex_app_closed "INSERT INTO "); [done|].
      apply lex_app; [apply lex_quoted, made_no_dquote, Ht| |done]. by apply lex_app.
    - rewrite !params_app. change (TWord "RETURNING" :: ?x) with ([TWord "RETURNING"] ++ x).
      by rewrite params_app, params_columns. }
  runM H. unfold ret in H. injection H as Hq Hargs. rewrite <- Hq, <- Hargs in *.
  edestruct (numbered_mapM insert_value (present (ib_assignments b))) as (tss & HF & Hp);
    [|exact E|exact Hw|].
  { rewrite Forall_forall in *. intros x Hx. apply numbered_insert_value; auto. }
  edestruct (lex_insert (ib_table b) (map acolumn (present (ib_assignments b)))
    ("(" +:+ Join a ", " +:+ ")")) as (toks & Hl & Hpt); [done|by apply made_assignment_names| |].
  { apply (clause_keyword " VALUES " [TWord "VALUES"]); [done|done|].
    apply (lex_app_closed "(" _ [TLpar]); [done|]. apply lex_app; [by apply lex_join|done|done]. }
  exists toks. split.
  - rewrite <- Hl. rewrite map_map. rewrite <- !string_app_assoc. done.
  - rewrite Hpt. change (?x :: ?y :: ?f) with ([x; y] ++ f).
    rewrite !params_app, params_join, Hp by done. change (params [TRpar]) with (@nil Z).
    rewrite app_nil_r. cbn. f_equal. lia.
Qed.

(** ** Bulk rows *)

Lemma map_result_spec {A B} (f : A -> result B) l r :
  map_result f l = Ok r -> Forall2 (fun a b => f a = Ok b) l r.
Proof.
  revert r; induction l as [|a l IH]; intros r H; cbn in H; [simplify_eq; constructor|].
  destruct (f a) as [b|] eqn:E; [|done]. cbn in H.
  destruct (map_result f l) as [bs|] eqn:E2; [|done]. cbn in H. simplify_eq.
  constructor; auto.
Qed.

Lemma Forall_of_Forall2 {A B} (P : A -> B -> Prop) (Q : B -> Prop) l r :
  Forall2 P l r -> (forall a b, a ∈ l -> P a b -> Q b) -> Forall Q r.
Proof.
  induction 1 as [|a b l r Hab HF IH]; intros HQ; constructor.
  - eapply HQ; [apply list_elem_of_here|done].
  - apply IH. intros a' b' Ha'. apply HQ. by apply list_elem_of_further.
Qed.

Definition good_row (l : list Assignment) : Prop :=
  Forall made_assignment l /\ Forall assignable l.

Lemma shape_row_good {Mo} (t : Table Mo) r l :
  Forall made_assignment r -> shape_row t r = Ok l -> good_row l.
Proof.
  intros Hm H. unfold shape_row in H. destruct (includedAssignments _ _ _) as [l'|] eqn:E; [|done].
  apply included_spec in E as (-> & Has & _). case_match; [done|]. simplify_eq.
  split; [by apply made_present|done].
Qed.

(** Every assignment of a rearranged row comes from the row and sits under its column. *)
Lemma reorder_spec cols l r :
  reorder cols l = Ok r -> map acolumn r = cols /\ (forall a, a ∈ r -> a ∈ l) /\ length l = length cols.
Proof.
  unfold reorder. case_match eqn:G; [done|]. bool_to_prop. intros H0%map_result_spec.
  split_and!; [| |done].
  - clear G. induction H0 as [|c a cs r Ha HF IH]; cbn; [done|]. f_equal; [|done].
    destruct (List.find _ l) eqn:Ef; [|done]. simplify_eq. apply find_some in Ef as [_ Ef].
    by bool_to_prop.
  - rewrite <- Forall_forall. eapply Forall_of_Forall2; [exact H0|]. cbn.
    intros c a _ Ha. destruct (List.find _ l) eqn:Ef; [|done]. simplify_eq.
    apply find_some in Ef as [Ef _]. by apply list_elem_of_In.
Qed.

Lemma reorder_good cols l r : good_row l -> reorder cols l = Ok r -> good_row r.
Proof.
  intros [H1 H2] (_ & H & _)%reorder_spec. rewrite Forall_forall in H1, H2.
  split; apply Forall_forall; auto.
Qed.

Lemma bulk_numbered {Mo} (t : Table Mo) cols shaped st :
  made_table t -> Forall made_name cols -> Forall good_row shaped ->
  bulk_statement t cols shaped = Ok st -> well_numbered st.
Proof.
  intros Ht Hc Hg H. apply run_compiler_ok in H as [H Hw]. split; [|done].
  runM H. unfold ret in H. injection H as Hq Hargs. rewrite <- Hq, <- Hargs in *.
  edestruct (numbered_mapM (fun l => let! vs := mapM_ writeAssignmentValue l in
    ret ("(" +:+ Join vs ", " +:+ ")"))%go shaped) as (tss & HF & Hp); [|exact E|exact Hw|].
  { eapply Forall_impl; [exact Hg|]. intros l [? ?]. by apply numbered_row. }
  edestruct (lex_insert t cols (Join a ", ")) as (toks & Hl & Hpt); [done|done| |].
  { apply (clause_keyword " VALUES " [TWord "VALUES"]); [done|done|]. by apply lex_join. }
  exists toks. split; [rewrite <- Hl; by rewrite <- !string_app_assoc|].
  rewrite Hpt. rewrite params_app, params_join, Hp by done. cbn. f_equal. lia.
Qed.

Lemma BulkBuild_numbered {Mo} (b : BulkInsertBuilder Mo) st :
  made_table (bb_table b) -> Forall (Forall made_assignment) (bb_rows b) ->
  BulkBuild b = Ok st -> well_numbered st.
Proof.
  intros Ht Hm H. unfold BulkBuild in H. apply checked_ok in H as (_ & _ & H).
  case_bool_decide; [done|].
  destruct (map_result _ _) as [shaped|] eqn:Es; [|done]. cbn [rbind] in H.
  apply map_result_spec in Es.
  assert (Forall good_row shaped) as Hg.
  { eapply Forall_of_Forall2; [exact Es|]. intros r l Hr. apply shape_row_good.
    rewrite Forall_forall in Hm. by apply Hm. }
  destruct shaped as [|first others]; [done|]. apply Forall_cons_1 in Hg as [Hg1 Hg2].
  case_bool_decide; [case_bool_decide; [|done]|].
  { eapply InsertBuild_numbered; [| |exact H]; [done|constructor]. }
  destruct (map_result (reorder _) others) as [others'|] eqn:Eo; [|done]. cbn [rbind] in H.
  eapply bulk_numbered; [done| | |exact H].
  - apply made_assignment_names, Hg1.
  - constructor; [done|]. eapply Forall_of_Forall2; [by apply map_result_spec|].
    intros l r Hl. apply reorder_good. rewrite Forall_forall in Hg2. by apply Hg2.
Qed.

(** A query around a WHERE clause. *)
Lemma where_numbered {Mo} (t : Table Mo) fs pre tpre post tpost st :
  made_table t -> foldr and True (map made_filter fs) ->
  lex_run LStart pre = Some (tpre, LStart) -> params tpre = [] ->
  clause post tpost -> params tpost = [] ->
  run_compiler (let! wh := writePredicates (tname t) (identity t) (map build fs) in
    ret (pre +:+ quoted (tname t) +:+ wh +:+ post))%go = Ok st -> well_numbered st.
Proof.
  intros Ht Hfs Hpre Hpp Hpost Hpq H. apply run_compiler_ok in H as [H Hw]. split; [|done].
  runM H. unfold ret in H. injection H as Hq Hargs. rewrite <- Hq, <- Hargs in *.
  destruct (writePredicates_spec _ _ (made_tname _ Ht) _ _ _ _ Hfs E Hw) as (twh & wh & [Hwc Hwp _ _]).
  exists (tpre ++ [TIdent (tname t)] ++ twh ++ tpost). split.
  - apply lex_app_closed; [done|]. apply lex_app; [apply lex_quoted, made_no_dquote, Ht|..].
    + by apply clause_lex, clause_app.
    + by eapply clause_start, clause_app.
  - rewrite !params_app, Hpp, Hpq, Hwp, app_nil_r. cbn. f_equal. lia.
Qed.
