(* ===== verification/OrmProps.v ===== *)
(** * Theorems about the ORM's builders *)

From S2P Require Import Prelude GoStrings GoRegexp Orm SqlText OrmSpec OrmFacts OrmStatements.
Local Open Scope Z_scope.

(** ** Descriptors *)

Lemma newIdentifier_ok name r : newIdentifier name = Ok r -> r = name /\ made_name name.
Proof.
  unfold made_name. intros H. assert (r = name) as -> by (unfold newIdentifier in H; case_match; by simplify_eq).
  done.
Qed.

Lemma mapper_columns_spec seen names cs :
  mapper_columns seen names = Ok cs ->
  cs = names /\ Forall made_name cs /\ NoDup cs /\ Forall (fun c => c ∉ seen) cs.
Proof.
  revert seen cs; induction names as [|n names IH]; intros seen cs H; cbn in H.
  { simplify_eq. split_and!; constructor. }
  destruct (newIdentifier n) as [c|] eqn:E; [|done]. cbn in H.
  apply newIdentifier_ok in E as [-> Hn]. case_bool_decide; [done|].
  destruct (mapper_columns _ names) as [cs'|] eqn:E2; [|done]. cbn in H. simplify_eq.
  apply IH in E2 as (-> & Hm & Hnd & Hs). split_and!; [done|by constructor|..].
  - constructor; [|done]. intros Hin. rewrite Forall_forall in Hs. apply (Hs n Hin). set_solver.
  - constructor; [done|]. eapply Forall_impl; [exact Hs|]. cbn. set_solver.
Qed.

Lemma NewTable_made {Mo} names sc (m : Mapper Mo) n name t :
  NewMapper names sc = Ok m -> NewTable n name m = Ok t ->
  made_table t /\ table_validate t = Ok tt /\ tname t = name /\ columns (mapper t) = names /\
  identity t = Some n.
Proof.
  unfold NewMapper, NewTable. case_bool_decide as Hnil; [done|]. destruct sc as [f|]; [|done].
  destruct (mapper_columns ∅ names) as [cs|] eqn:E; [|done]. cbn. intros ?; simplify_eq.
  apply mapper_columns_spec in E as (-> & Hm & Hnd & _).
  destruct (newIdentifier name) as [x|] eqn:E2; [|done]. cbn.
  apply newIdentifier_ok in E2 as [-> Hn]. unfold mapper_invalid. cbn.
  rewrite bool_decide_eq_false_2 by done. cbn. intros ?; simplify_eq. cbn.
  split_and!; try done. unfold table_validate, mapper_invalid. cbn.
  rewrite !bool_decide_eq_false_2; try done. by intros ->.
Qed.

(** Descriptors are well formed: a table that [NewTable] returns passes [validate]
    and keeps its name, columns and identity; every name in it is an identifier that needs
    no escaping inside double quotes, and no column is listed twice.  A column that
    [NewColumn] returns has a valid name the mapper selects and carries the identity of its
    table, so a column of a table created by another [NewTable] call never equals it. *)
Theorem descriptors_are_well_formed {Mo} names sc (m : Mapper Mo) n name t cname' c :
  NewMapper names sc = Ok m -> NewTable n name m = Ok t -> NewColumn t cname' = Ok c ->
  table_validate t = Ok tt /\ tname t = name /\ columns (mapper t) = names /\ NoDup names /\
  Forall (fun s => no_dquote s = true /\ 0 < byte_len s <= 63) (name :: names) /\
  cname c = cname' /\ cname' ∈ names /\ ctable c = name /\ cidentity c = Some n /\
  (forall n' m' (t' : Table Mo) c', n' <> n -> NewTable n' name m' = Ok t' ->
     NewColumn t' cname' = Ok c' -> c' <> c).
Proof.
  intros Hm Ht Hc. destruct (NewTable_made _ _ _ _ _ _ Hm Ht) as (Hmt & Hv & Hn & Hcs & Hi).
  destruct (NewColumn_made _ _ _ Hc) as (_ & Hcn & Hct & Hci & Hin).
  rewrite Hcs in Hin. split_and!; try done; try congruence.
  - rewrite <- Hcs. apply Hmt.
  - assert (Forall made_name (name :: names)) as HF.
    { rewrite <- Hn, <- Hcs. constructor; apply Hmt. }
    eapply Forall_impl; [exact HF|]. intros s Hs. split; [by apply made_no_dquote|].
    unfold made_name, newIdentifier in Hs. case_match eqn:G; [done|]. bool_to_prop.
    pose proof (Zle_0_nat (String.length s)). unfold byte_len in *. lia.
  - intros n' m' t' c' Hne Ht' Hc' ->. destruct (NewColumn_made _ _ _ Hc') as (_ & _ & _ & Hi' & _).
    unfold NewTable in Ht'. destruct (newIdentifier name); [|done]. cbn in Ht'.
    case_match; [done|]. simplify_eq. cbn in Hi'. congruence.
Qed.

Definition widget_mapper : Mapper (list value) :=
  {| columns := ["id"; "name"; "version"]; scan := Some Ok |}.
Definition widgets : Table (list value) :=
  {| tname := "widgets"; mapper := widget_mapper; identity := Some 7%nat |}.
Definition widget_column (name : string) : Column :=
  {| ctable := "widgets"; cidentity := Some 7%nat; cname := name |}.

Lemma descriptors_are_well_formed_witness : NoDup (columns (mapper widgets)).
Proof.
  refine (proj1 (proj2 (proj2 (proj2 (descriptors_are_well_formed ["id"; "name"; "version"]
    (Some Ok) widget_mapper 7%nat "widgets" widgets "name" (widget_column "name") _ _ _)))));
    vm_compute; reflexivity.
Defined.

(** ** SELECT *)

(** C4. A SELECT statement means its builder.  The text [Build] (or, with [first], the
    statement of [First]) produces, read by the reference lexer and parser with the
    precedence of SQL, is a SELECT of the builder's table whose result on every table
    content, for every database, is the builder's request: the rows the predicates denote
    in three-valued logic, ordered and paginated as asked, projected to the mapped columns.
    A literal given to [ContainsFold] matches as a substring whatever wildcards it holds. *)
Theorem select_means_its_builder {Mo} names sc (m : Mapper Mo) n name
    (b : SelectBuilder Mo) first fs os st :
  NewMapper names sc = Ok m -> NewTable n name m = Ok (sb_table b) ->
  sb_predicates b = map build fs -> sb_orders b = map mk_order os ->
  foldr and True (map made_filter fs) -> Forall (fun o => made_name (cname (fst o))) os ->
  buildSelect b first = Ok st ->
  exists s, read (query st) = Some (SSelect s) /\ s_table s = name /\
    s_lock s = lock_word (sb_lock b) /\
    forall en rows, select_rows en (stmt_args st) s rows =
      requested en b (if first : bool then Some 1 else sb_limit b) fs os rows.
Proof.
  intros Hm Ht Hps Hos Hfs Hmo H. destruct (NewTable_made _ _ _ _ _ _ Hm Ht) as (Hmt & _ & Hn & _).
  destruct (select_body_reads _ _ _ _ _ Hmt Hps Hos Hfs Hmo H) as (s & [Hr Htab Hl Hrows _]).
  exists s. by rewrite <- Hn.
Qed.

Definition sample_filters : list filter :=
  [FOr [FCmp CallEq (widget_column "id") (VInt 3);
        FContains (widget_column "name") "50%_!"];
   FNot (FIsNull (widget_column "version"))].
Definition sample_select : SelectBuilder (list value) :=
  Limit (OrderBy (Where (Select widgets) (map build sample_filters))
           [Desc (widget_column "id")]) 10.

Example sample_select_text :
  Build sample_select = Ok
    {| query := "SELECT " +:+ writeMappedColumns widgets +:+ " FROM " +:+ quoted "widgets" +:+
         " WHERE (" +:+ qualified_name "widgets" "id" +:+ " = $1 OR " +:+
         qualified_name "widgets" "name" +:+ " ILIKE $2 ESCAPE '!') AND NOT (" +:+
         qualified_name "widgets" "version" +:+ " IS NULL) ORDER BY " +:+
         qualified_name "widgets" "id" +:+ " DESC LIMIT $3";
       stmt_args := [VInt 3; VString "%50!%!_!!%"; VInt 10] |}.
Proof. vm_compute. reflexivity. Qed.

Lemma select_means_its_builder_witness :
  exists st s, Build sample_select = Ok st /\ read (query st) = Some (SSelect s) /\
    s_table s = "widgets".
Proof.
  destruct (Build sample_select) as [st|] eqn:E; [|vm_compute in E; discriminate].
  destruct (select_means_its_builder ["id"; "name"; "version"] (Some Ok) widget_mapper 7%nat
    "widgets" sample_select false sample_filters [(widget_column "id", true)] st)
    as (s & Hr & Ht & _);
    [vm_compute; reflexivity|vm_compute; reflexivity|reflexivity|reflexivity
    |vm_compute; repeat split|repeat constructor|exact E|].
  exists st, s. split; [reflexivity|]. split; [exact Hr|exact Ht].
Defined.

(** ** DELETE and UPDATE *)

(** A DELETE removes exactly the rows its predicates denote: the statement [Build]
    produces reads as a DELETE on the builder's table that keeps, of any table content, the
    rows for which the conjunction of the predicates is not true (false or unknown).  A
    builder without predicates produces a statement only after [AllRows]. *)
Theorem delete_removes_exactly_the_matching_rows {Mo} names sc (m : Mapper Mo) n name
    (d : DeleteBuilder Mo) fs st :
  NewMapper names sc = Ok m -> NewTable n name m = Ok (db_table d) ->
  db_predicates d = map build fs -> foldr and True (map made_filter fs) ->
  DeleteBuild d = Ok st ->
  (fs = [] -> db_allRows d = true) /\
  exists wh, read (query st) = Some (SDelete name wh) /\
    forall en rows, delete_rows en (stmt_args st) name wh rows =
      List.filter (fun r => negb (selected (coll en) r fs)) rows.
Proof.
  intros Hm Ht Hps Hfs H. destruct (NewTable_made _ _ _ _ _ _ Hm Ht) as (Hmt & _ & Hn & _).
  split.
  - intros ->. unfold DeleteBuild in H. apply checked_ok in H as (_ & _ & H).
    rewrite Hps in H. cbn in H. by destruct (db_allRows d).
  - destruct (DeleteBuild_reads _ _ _ Hmt Hps Hfs H) as [(wh & Hr & Hrows) _].
    exists wh. by rewrite <- Hn.
Qed.

Definition sample_delete : DeleteBuilder (list value) :=
  DeleteWhere (Delete widgets) (map build sample_filters).

Lemma delete_removes_exactly_the_matching_rows_witness :
  exists st wh, DeleteBuild sample_delete = Ok st /\
    read (query st) = Some (SDelete "widgets" wh).
Proof.
  destruct (DeleteBuild sample_delete) as [st|] eqn:E; [|vm_compute in E; discriminate].
  destruct (delete_removes_exactly_the_matching_rows ["id"; "name"; "version"] (Some Ok)
    widget_mapper 7%nat "widgets" sample_delete sample_filters st) as (_ & wh & Hr & _);
    [vm_compute; reflexivity|vm_compute; reflexivity|reflexivity
    |vm_compute; repeat split|exact E|].
  exists st, wh. split; [reflexivity|exact Hr].
Defined.

Lemma all3_app_true a b : all3 (a ++ b) = Some true -> all3 b = Some true.
Proof.
  induction a as [|x a IH]; [done|]. cbn. intros H. apply IH. unfold all3.
  destruct x as [[]|], (foldr and3 (Some true) (a ++ b)) as [[]|]; done.
Qed.

(** The last predicate of a conjunction holds in every selected row. *)
Lemma selected_last col r fs f :
  selected col r (fs ++ [f]) = true -> denote col r f = Some true.
Proof.
  unfold selected. intros H%bool_decide_eq_true_1. rewrite map_app in H.
  apply all3_app_true in H. cbn in H. by destruct (denote col r f) as [[]|].
Qed.

Lemma find_last_nodup (l : list Assignment) a :
  NoDup (map acolumn (l ++ [a])) ->
  List.find (fun x => (acolumn x =? acolumn a)%string) (l ++ [a]) = Some a.
Proof.
  induction l as [|x l IH]; cbn [app map List.find]; intros H.
  - by rewrite String.eqb_refl.
  - apply NoDup_cons in H as [Hx H]. destruct (acolumn x =? acolumn a)%string eqn:E; [|by apply IH].
    apply String.eqb_eq in E. exfalso. apply Hx. rewrite E. apply list_elem_of_fmap.
    exists a. split; [done|]. set_solver.
Qed.

Lemma present_last l c d :
  present (l ++ [Increment c d]) = present l ++ [Increment c d].
Proof. unfold present. by rewrite List.filter_app. Qed.

Section Optimistic.
Context {Mo : Type} (names : list string) (sc : option (row -> result Mo)) (m : Mapper Mo)
  (n : nat) (name : string) (t : Table Mo) (c : Column) (v : Z).
Context (Hm : NewMapper names sc = Ok m) (Ht : NewTable n name m = Ok t)
  (Hc : NewColumn t (cname c) = Ok c).

(** An update of [t] by the predicates [fs], guarded by the expected version. *)
Definition guarded (u : UpdateBuilder Mo) (fs : list filter) : Prop :=
  ub_table u = t /\ ub_predicates u = map build fs /\ foldr and True (map made_filter fs) /\
  Forall made_assignment (ub_assignments u).

Lemma guarded_reads u fs st :
  guarded u fs -> UpdateBuild (OptimisticVersion u (ExpectVersion c v)) = Ok st ->
  exists sets wh, update_reads (OptimisticVersion u (ExpectVersion c v))
    (fs ++ [FCmp CallEq c (VInt v)]) st sets wh.
Proof using Hm Ht Hc.
  intros (Hut & Hps & Hfs & Has) H. destruct (NewTable_made _ _ _ _ _ _ Hm Ht) as (Hmt & _).
  destruct (NewColumn_made _ _ _ Hc) as (Hcm & _).
  eapply UpdateBuild_reads; [| | | |exact H]; cbn.
  - by rewrite Hut.
  - by rewrite Hps, map_app.
  - rewrite map_app. cbn. clear -Hfs Hcm. induction fs as [|f fs IH]; cbn in *; [done|]. tauto.
  - apply Forall_app. split; [done|]. constructor; [|constructor]. by split.
Qed.
End Optimistic.

(** C25. Optimistic updates do not get lost.  Of two updates that expect the same version of
    a row, the second does not touch a row the first has changed: the statement with
    [ExpectVersion] selects only rows at the expected version and leaves them at the next
    one, whatever else either update assigns or requires.  Needed of the database: equality
    on the version column holds only between equal integers, and adding one to the expected
    version gives its successor. *)
Theorem optimistic_update_wins_once {Mo} names sc (m : Mapper Mo) n name t c v
    (u1 u2 : UpdateBuilder Mo) fs1 fs2 st1 st2 :
  NewMapper names sc = Ok m -> NewTable n name m = Ok t -> NewColumn t (cname c) = Ok c ->
  guarded t u1 fs1 -> guarded t u2 fs2 ->
  UpdateBuild (OptimisticVersion u1 (ExpectVersion c v)) = Ok st1 ->
  UpdateBuild (OptimisticVersion u2 (ExpectVersion c v)) = Ok st2 ->
  exists sets1 wh1 sets2 wh2,
    read (query st1) = Some (SUpdate name sets1 wh1) /\
    read (query st2) = Some (SUpdate name sets2 wh2) /\
    forall en r,
      (forall x y, cmp (coll en) "=" x (VInt y) = true -> x = VInt y) ->
      plus en (VInt v) (VInt 1) = VInt (v + 1) ->
      holds en (stmt_args st1) name wh1 r = true ->
      set_row en (stmt_args st1) sets1 r (cname c) = Some (VInt (v + 1)) /\
      holds en (stmt_args st2) name wh2 (set_row en (stmt_args st1) sets1 r) = false.
Proof.
  intros Hm Ht Hc Hg1 Hg2 H1 H2.
  destruct (NewTable_made _ _ _ _ _ _ Hm Ht) as (_ & _ & Hn & _).
  destruct (guarded_reads _ _ _ _ _ _ _ _ Hm Ht Hc _ _ _ Hg1 H1) as (sets1 & wh1 & [Hr1 Hh1 Hrow1 Hnd1 _]).
  destruct (guarded_reads _ _ _ _ _ _ _ _ Hm Ht Hc _ _ _ Hg2 H2) as (sets2 & wh2 & [Hr2 Hh2 _ _ _]).
  destruct Hg1 as (Hu1 & _), Hg2 as (Hu2 & _). cbn in *. rewrite Hu1, Hn in *. rewrite Hu2, Hn in *.
  exists sets1, wh1, sets2, wh2. split; [done|]. split; [done|].
  intros en r Heq Hplus Hsel. rewrite Hh1 in Hsel. apply selected_last in Hsel. cbn in Hsel.
  assert (r (cname c) = Some (VInt v)) as Hrc.
  { destruct (r (cname c)) as [x|]; [|done]. cbn in Hsel. injection Hsel as Hsel.
    by rewrite (Heq _ _ Hsel). }
  assert (set_row en (stmt_args st1) sets1 r (cname c) = Some (VInt (v + 1))) as Hnew.
  { rewrite (Hrow1 en r (cname c)). unfold assign_row. rewrite present_last in *.
    pose proof (find_last_nodup _ _ Hnd1) as Hf. cbn in Hf. rewrite Hf.
    cbn. rewrite Hrc. by rewrite Hplus. }
  split; [done|]. rewrite Hh2. destruct (selected _ _ _) eqn:E; [|done].
  apply selected_last in E. cbn in E. rewrite Hnew in E. cbn in E. injection E as E.
  apply Heq in E. injection E. lia.
Qed.

Definition sample_update (new_name : string) : UpdateBuilder (list value) :=
  UpdateWhere (UpdateSet (Update widgets) [Set_ (widget_column "name") (VString new_name)])
    [Eq (widget_column "id") (VInt 3)].

(** A database of integers and strings, and the row both updates mean. *)
Definition sample_engine : engine :=
  {| coll := {| cmp := fun op x y => if (op =? "=")%string then bool_decide (x = y) else negb (bool_decide (x = y));
                fold := Datatypes.id |};
     default_of := fun _ => None; now_value := VNil;
     plus := fun a b => match a, b with VInt x, VInt y => VInt (x + y) | _, _ => a end;
     sort_by := fun _ l => l |}.
Definition sample_row : tuple := fun column =>
  if (column =? "id")%string then Some (VInt 3)
  else if (column =? "name")%string then Some (VString "before")
  else if (column =? "version")%string then Some (VInt 4) else None.

Lemma optimistic_update_wins_once_witness :
  exists st1 st2 sets1 wh1 sets2 wh2,
    UpdateBuild (OptimisticVersion (sample_update "left") (ExpectVersion (widget_column "version") 4)) = Ok st1 /\
    UpdateBuild (OptimisticVersion (sample_update "right") (ExpectVersion (widget_column "version") 4)) = Ok st2 /\
    read (query st1) = Some (SUpdate "widgets" sets1 wh1) /\ read (query st2) = Some (SUpdate "widgets" sets2 wh2) /\
    holds sample_engine (stmt_args st1) "widgets" wh1 sample_row = true /\
    holds sample_engine (stmt_args st2) "widgets" wh2 sample_row = true /\
    set_row sample_engine (stmt_args st1) sets1 sample_row "version" = Some (VInt 5) /\
    holds sample_engine (stmt_args st2) "widgets" wh2 (set_row sample_engine (stmt_args st1) sets1 sample_row) = false.
Proof.
  destruct (UpdateBuild (OptimisticVersion (sample_update "left")
    (ExpectVersion (widget_column "version") 4))) as [st1|] eqn:E1; [|vm_compute in E1; discriminate].
  destruct (UpdateBuild (OptimisticVersion (sample_update "right")
    (ExpectVersion (widget_column "version") 4))) as [st2|] eqn:E2; [|vm_compute in E2; discriminate].
  destruct (optimistic_update_wins_once ["id"; "name"; "version"] (Some Ok) widget_mapper 7%nat
    "widgets" widgets (widget_column "version") 4 (sample_update "left") (sample_update "right")
    [FCmp CallEq (widget_column "id") (VInt 3)] [FCmp CallEq (widget_column "id") (VInt 3)] st1 st2)
    as (s1 & w1 & s2 & w2 & Hr1 & Hr2 & Hwins);
    [vm_compute; reflexivity|vm_compute; reflexivity|vm_compute; reflexivity
    |split_and!; [reflexivity|reflexivity|vm_compute; split; [reflexivity|exact I]
                 |repeat constructor; discriminate]
    |split_and!; [reflexivity|reflexivity|vm_compute; split; [reflexivity|exact I]
                 |repeat constructor; discriminate]
    |exact E1|exact E2|].
  assert (holds sample_engine (stmt_args st1) "widgets" w1 sample_row = true) as Hsel1.
  { vm_compute in E1. injection E1 as <-. vm_compute in Hr1. injection Hr1 as _ <-. vm_compute. reflexivity. }
  assert (holds sample_engine (stmt_args st2) "widgets" w2 sample_row = true) as Hsel2.
  { vm_compute in E2. injection E2 as <-. vm_compute in Hr2. injection Hr2 as _ <-. vm_compute. reflexivity. }
  destruct (Hwins sample_engine sample_row) as [Hset Hlost]; [|reflexivity|exact Hsel1|].
  { intros x y Hxy. cbn in Hxy. by apply bool_decide_eq_true in Hxy. }
  exists st1, st2, s1, w1, s2, w2. by split_and!.
Defined.

(** ** All statements *)

(** The statements the builders of one table can produce. *)
Inductive statement_of {Mo} (t : Table Mo) : Statement -> Prop :=
| of_select b first fs os st :
    sb_table b = t -> sb_predicates b = map build fs -> sb_orders b = map mk_order os ->
    foldr and True (map made_filter fs) -> Forall (fun o => made_name (cname (fst o))) os ->
    buildSelect b first = Ok st -> statement_of t st
| of_count b fs st :
    sb_table b = t -> sb_predicates b = map build fs -> foldr and True (map made_filter fs) ->
    BuildCount b = Ok st -> statement_of t st
| of_exists b fs st :
    sb_table b = t -> sb_predicates b = map build fs -> foldr and True (map made_filter fs) ->
    BuildExists b = Ok st -> statement_of t st
| of_insert b st :
    ib_table b = t -> Forall made_assignment (ib_assignments b) ->
    InsertBuild b = Ok st -> statement_of t st
| of_bulk b st :
    bb_table b = t -> Forall (Forall made_assignment) (bb_rows b) ->
    BulkBuild b = Ok st -> statement_of t st
| of_update u fs st :
    ub_table u = t -> ub_predicates u = map build fs -> foldr and True (map made_filter fs) ->
    Forall made_assignment (ub_assignments u) -> UpdateBuild u = Ok st -> statement_of t st
| of_returning u fs st :
    ub_table u = t -> ub_predicates u = map build fs -> foldr and True (map made_filter fs) ->
    Forall made_assignment (ub_assignments u) -> BuildReturning u = Ok st -> statement_of t st
| of_delete d fs st :
    db_table d = t -> db_predicates d = map build fs -> foldr and True (map made_filter fs) ->
    DeleteBuild d = Ok st -> statement_of t st.

Lemma returning_numbered {Mo} (u : UpdateBuilder Mo) st st' :
  made_table (ub_table u) -> UpdateBuild u = Ok st -> well_numbered st ->
  BuildReturning u = Ok st' -> well_numbered st'.
Proof.
  intros Ht Hu [(toks & Hl & Hp) Hw] H. unfold BuildReturning in H. rewrite Hu in H. cbn in H.
  unfold newCompiledStatement in H. case_match; [done|]. simplify_eq. split; [|done].
  destruct (clause_returning _ Ht) as [Hlr Hsr].
  eexists. split; [by apply lex_app|].
  change (TWord "RETURNING" :: ?x) with ([TWord "RETURNING"] ++ x).
  rewrite !params_app, params_columns, Hp, !app_nil_r. done.
Qed.

(** Every statement a builder produces is well formed and binds what it mentions: its
    text lexes (no value is ever spliced into it), its placeholders read from left to right
    are [$1] to [$n] for exactly the [n] arguments of the statement, each used once, and
    [n] is within PostgreSQL's limit of 65535. *)
Theorem every_statement_numbers_its_parameters {Mo} names sc (m : Mapper Mo) n name t st :
  NewMapper names sc = Ok m -> NewTable n name m = Ok t -> statement_of t st ->
  (exists toks, lex (query st) = Some toks /\
     params toks = map Z.of_nat (seq 1 (length (stmt_args st)))) /\
  Z.of_nat (length (stmt_args st)) <= 65535.
Proof.
  intros Hm Ht Hst. destruct (NewTable_made _ _ _ _ _ _ Hm Ht) as (Hmt & _).
  change (well_numbered st). destruct Hst as [b first fs os st <- Hp Ho Hf Hmo H
    |b fs st <- Hp Hf H|b fs st <- Hp Hf H|b st <- Ha H|b st <- Ha H
    |u fs st <- Hp Hf Ha H|u fs st <- Hp Hf Ha H|d fs st <- Hp Hf H].
  - by destruct (select_body_reads _ _ _ _ _ Hmt Hp Ho Hf Hmo H) as (s & [_ _ _ _ Hn]).
  - unfold BuildCount, buildAggregate in H. apply checked_ok in H as (_ & _ & H). rewrite Hp in H.
    eapply (where_numbered (sb_table b) fs "SELECT COUNT(*) FROM "); [done|done
      |vm_compute; reflexivity|done|apply clause_nil|done|].
    rewrite <- H.
    unfold bindM, run_compiler, ret. destruct (writePredicates _ _ _ []) as [[wh|] l]; [|done].
    by rewrite string_app_nil_r.
  - unfold BuildExists in H. apply checked_ok in H as (_ & _ & H). rewrite Hp in H.
    eapply (where_numbered (sb_table b) fs "SELECT EXISTS (SELECT 1 FROM "); [done|done
      |vm_compute; reflexivity|done|by split; [apply (eq_refl (lex ")"))|]|done|].
    rewrite <- H.
    unfold run_compiler, bindM, ret. destruct (writePredicates _ _ _ []) as [[wh|] l]; [|done].
    by rewrite <- !string_app_assoc.
  - by eapply InsertBuild_numbered.
  - by eapply BulkBuild_numbered.
  - by destruct (UpdateBuild_reads _ _ _ Hmt Hp Hf Ha H) as (? & ? & [_ _ _ _ Hn]).
  - destruct (UpdateBuild u) as [st0|] eqn:E; [|unfold BuildReturning in H; by rewrite E in H].
    eapply returning_numbered; [done|done| |done].
    by destruct (UpdateBuild_reads _ _ _ Hmt Hp Hf Ha E) as (? & ? & [_ _ _ _ Hn]).
  - by destruct (DeleteBuild_reads _ _ _ Hmt Hp Hf H) as [_ Hn].
Qed.

Lemma every_statement_numbers_its_parameters_witness :
  exists st, Build sample_select = Ok st /\ Z.of_nat (length (stmt_args st)) <= 65535.
Proof.
  destruct (Build sample_select) as [st|] eqn:E; [|vm_compute in E; discriminate].
  exists st. split; [reflexivity|].
  refine (proj2 (every_statement_numbers_its_parameters ["id"; "name"; "version"] (Some Ok)
    widget_mapper 7%nat "widgets" widgets st _ _ _));
    [vm_compute; reflexivity|vm_compute; reflexivity|].
  apply (of_select widgets sample_select false sample_filters [(widget_column "id", true)]);
    [reflexivity|reflexivity|reflexivity|vm_compute; repeat split|repeat constructor|exact E].
Defined.

(** ** Refusals *)

(** Some column of the expression belongs to another table descriptor than [t]. *)
Fixpoint foreign {Mo} (t : Table Mo) (f : filter) : bool :=
  match f with
  | FCmp _ c _ | FIn c _ | FIsNull c | FIsNotNull c | FLike c _ | FContains c _ =>
      negb (bool_decide (cidentity c = identity t))
  | FAnd fs | FOr fs => existsb (foreign t) fs
  | FNot f => foreign t f
  end.

Definition never_ok {St A} (m : M St A) : Prop := forall s, is_ok (fst (m s)) = false.

Lemma never_ok_mapM {St A B} (f : A -> M St B) l :
  List.Exists (fun a => never_ok (f a)) l -> never_ok (mapM_ f l).
Proof.
  induction 1 as [a l Ha|a l _ IH]; intros s; cbn [mapM_]; unfold bindM.
  - specialize (Ha s). destruct (f a s) as [[b|e] s']; done.
  - destruct (f a s) as [[b|e] s']; [|done]. specialize (IH s').
    by destruct (mapM_ f l s') as [[bs|e] s''].
Qed.

Lemma never_ok_bind {St A B} (m : M St A) (k : A -> M St B) : never_ok m -> never_ok (bindM m k).
Proof. intros H s. unfold bindM. specialize (H s). by destruct (m s) as [[]]. Qed.

Lemma compile_foreign {Mo} (t : Table Mo) f :
  foreign t f = true -> never_ok (compile (build f) (tname t) (identity t)).
Proof.
  assert (forall p, pidentity p <> identity t -> never_ok (compile p (tname t) (identity t))) as Hid.
  { intros p Hne s. destruct (compile p (tname t) (identity t) s) as [[x|e] s'] eqn:E; [|done].
    apply compile_guard in E as (_ & Hi & _). done. }
  assert (forall k fs, Forall (fun f => foreign t f = true -> never_ok (compile (build f) (tname t) (identity t))) fs ->
    existsb (foreign t) fs = true -> k = predicateAnd \/ k = predicateOr ->
    never_ok (compile (groupedPredicate k (map build fs)) (tname t) (identity t))) as Hgroup.
  { intros k fs HF Hex Hk s.
    assert (never_ok (mapM_ (fun c => compile c (tname t) (identity t)) (map build fs))) as Hn.
    { apply never_ok_mapM, List.Exists_exists. apply existsb_exists in Hex as (g & Hin & Hg).
      exists (build g). split; [by apply in_map|]. rewrite Forall_forall in HF.
      apply HF; [by apply list_elem_of_In|done]. }
    unfold groupedPredicate. destruct Hk as [-> | ->]; cbn [compile pkind pchildren];
      repeat match goal with |- context [if ?g then throw _ else _] => destruct g; [done|] end;
      by apply never_ok_bind. }
  induction f using filter_ind'; cbn [foreign]; intros Hf.
  1: by apply Hid; destruct call; bool_to_prop.
  1: apply Hid; bool_to_prop; unfold build, In_; by case_bool_decide.
  1-4: by apply Hid; bool_to_prop.
  - apply Hgroup; auto.
  - apply Hgroup; auto.
  - intros s. cbn. case_match; [done|]. case_match; [done|]. by apply never_ok_bind, IHf.
Qed.

Lemma writePredicates_foreign {Mo} (t : Table Mo) fs :
  existsb (foreign t) fs = true ->
  never_ok (writePredicates (tname t) (identity t) (map build fs)).
Proof.
  intros H. apply existsb_exists in H as (f & Hin & Hf). unfold writePredicates.
  rewrite bool_decide_eq_false_2 by (by destruct fs).
  apply never_ok_bind, never_ok_mapM, List.Exists_exists. exists (build f).
  split; [by apply in_map|by apply compile_foreign].
Qed.

Lemma run_compiler_never (m : M sqlCompiler string) : never_ok m -> is_ok (run_compiler m) = false.
Proof. unfold run_compiler. intros H. specialize (H []). by destruct (m []) as [[]]. Qed.

(** Without a predicate of its own table and without [AllRows], or with a predicate of
    another descriptor, a mutation has nothing to run. *)
Definition unscoped {Mo} (t : Table Mo) (all : bool) (fs : list filter) : Prop :=
  (fs = [] /\ all = false) \/ existsb (foreign t) fs = true.

Lemma DeleteBuild_unscoped {Mo} (d : DeleteBuilder Mo) fs :
  db_predicates d = map build fs -> unscoped (db_table d) (db_allRows d) fs ->
  is_ok (DeleteBuild d) = false.
Proof.
  intros Hp Hu. unfold DeleteBuild, checked. rewrite Hp. destruct (db_err d); [done|].
  destruct (table_validate _); [|done]. cbn [rbind]. destruct Hu as [[-> ->] | Hf]; [done|].
  case_match; [done|]. by apply run_compiler_never, never_ok_bind, writePredicates_foreign.
Qed.

Lemma UpdateBuild_unscoped {Mo} (u : UpdateBuilder Mo) fs :
  ub_predicates u = map build fs -> unscoped (ub_table u) (allRows u) fs ->
  is_ok (UpdateBuild u) = false.
Proof.
  intros Hp Hu. unfold UpdateBuild, checked. rewrite Hp. destruct (ub_err u); [done|].
  destruct (table_validate _); [|done]. cbn [rbind]. destruct Hu as [[-> ->] | Hf]; [done|].
  case_match; [done|]. destruct (includedAssignments _ _ _); [|done]. cbn [rbind].
  case_match; [done|]. apply run_compiler_never. intros s. unfold bindM.
  destruct (mapM_ write_set _ s) as [[x|] s']; [|done].
  pose proof (writePredicates_foreign _ _ Hf s') as Hn. by destruct (writePredicates _ _ _ s') as [[]].
Qed.

(** A mutation that is not scoped to its own table never reaches the database: an
    UPDATE or DELETE without predicates and without [AllRows], or with a predicate built
    (at any depth) from a column of another descriptor, even one of a table with the same
    name, returns an error, sends no statement and leaves the connection and the observers
    untouched. *)
Theorem unscoped_mutation_never_runs {Mo W} (db : driver W) (e : Executor) (w : world W)
    (u : UpdateBuilder Mo) (d : DeleteBuilder Mo) fs gs :
  ub_predicates u = map build fs -> unscoped (ub_table u) (allRows u) fs ->
  db_predicates d = map build gs -> unscoped (db_table d) (db_allRows d) gs ->
  (exists err, UpdateExec db u e w = (Err err, w)) /\
  (exists err, UpdateOne db u e w = (Err err, w)) /\
  (exists err, DeleteExec db d e w = (Err err, w)).
Proof.
  intros Hpu Hu Hpd Hd.
  pose proof (UpdateBuild_unscoped _ _ Hpu Hu) as Hbu.
  pose proof (DeleteBuild_unscoped _ _ Hpd Hd) as Hbd.
  unfold UpdateExec, UpdateOne, DeleteExec, BuildReturning, bindM, of_result.
  destruct (validateExecutor e false); [|split_and!; eexists; reflexivity].
  destruct (UpdateBuild u); [done|]. destruct (DeleteBuild d); [done|].
  split_and!; eexists; reflexivity.
Qed.

Definition idle_driver : driver nat :=
  {| dbExec := fun _ n => (Ok (Ok 1), S n);
     dbQuery := fun _ n => (Ok {| rs_rows := []; rs_err := None; rs_close := None |}, S n);
     dbQueryRow := fun _ n => (Ok [], S n) |}.

Lemma unscoped_mutation_never_runs_witness :
  exists err, DeleteExec idle_driver (Delete widgets) (SqlDB false)
    {| conn := 0%nat; seen_statements := [] |} = (Err err, {| conn := 0%nat; seen_statements := [] |}).
Proof.
  refine (proj2 (proj2 (unscoped_mutation_never_runs idle_driver (SqlDB false)
    {| conn := 0%nat; seen_statements := [] |}
    (UpdateWhere (UpdateSet (Update widgets) [Set_ (widget_column "name") (VString "x")])
       [Not (Eq {| ctable := "widgets"; cidentity := Some 8%nat; cname := "id" |} (VInt 3))])
    (Delete widgets)
    [FNot (FCmp CallEq {| ctable := "widgets"; cidentity := Some 8%nat; cname := "id" |} (VInt 3))] []
    _ _ _ _)));
    [reflexivity|right; vm_compute; reflexivity|reflexivity|left; split; reflexivity].
Defined.
