(* ===== verification/OrmRelationProps.v ===== *)
(** * Theorems about relation loading *)

From S2P Require Import Prelude GoStrings GoRegexp Orm OrmRelation SqlText OrmSpec OrmFacts OrmStatements OrmProps.
Local Open Scope Z_scope.

(** ** Keys and batches *)

Section Keys.
Context {P K : Type} `{Countable K} (key : P -> option K).

Lemma unique_from_spec seen parents :
  NoDup (unique_from seen parents key) /\
  forall k, k ∈ unique_from seen parents key <->
            k ∉ seen /\ exists p, p ∈ parents /\ key p = Some k.
Proof.
  revert seen; induction parents as [|p ps IH]; intros seen; cbn [unique_from].
  { split; [constructor|]. set_solver. }
  destruct (key p) as [k|] eqn:E.
  - case_bool_decide as Hs.
    + destruct (IH seen) as [Hnd Hin]. split; [done|]. intros k'. rewrite Hin. split.
      * intros (? & p' & ? & ?). split; [done|]. exists p'. set_solver.
      * intros (? & p' & [->|Hp']%elem_of_cons & ?); [congruence|]. eauto.
    + destruct (IH ({[k]} ∪ seen)) as [Hnd Hin]. split.
      * constructor; [|done]. rewrite Hin. set_solver.
      * intros k'. rewrite elem_of_cons, Hin. split.
        -- intros [->|(? & p' & ? & ?)]; [split; [done|]; exists p; set_solver|].
           split; [set_solver|]. exists p'. set_solver.
        -- intros (? & p' & [->|Hp']%elem_of_cons & ?); [left; congruence|].
           destruct (decide (k' = k)) as [->|]; [by left|]. right. split; [set_solver|eauto].
  - destruct (IH seen) as [Hnd Hin]. split; [done|]. intros k'. rewrite Hin. split.
    + intros (? & p' & ? & ?). split; [done|]. exists p'. set_solver.
    + intros (? & p' & [->|Hp']%elem_of_cons & ?); [congruence|]. eauto.
Qed.
End Keys.

(** A batching loop whose body succeeds on every batch visits the keys in order, in
    non-empty batches of at most [size]. *)
Lemma in_batches_spec {K A} fuel size (f : list K -> result A) keys :
  (0 < size)%nat -> (length keys <= fuel)%nat ->
  (forall b, b <> [] -> (length b <= size)%nat -> exists a, f b = Ok a) ->
  exists bs sts, in_batches fuel size f keys = Ok sts /\ concat bs = keys /\
    Forall2 (fun b st => f b = Ok st) bs sts /\
    Forall (fun b => b <> [] /\ (length b <= size)%nat) bs.
Proof.
  intros Hs. revert keys; induction fuel as [|n IH]; intros keys Hn Hf.
  { destruct keys; [|cbn in Hn; lia]. exists [], []. split_and!; constructor. }
  destruct keys as [|k keys]; [exists [], []; split_and!; constructor|].
  assert (firstn size (k :: keys) <> [] /\ (length (firstn size (k :: keys)) <= size)%nat) as [Hb1 Hb2].
  { split; [by destruct size; [lia|]|]. rewrite length_firstn. lia. }
  destruct (Hf _ Hb1 Hb2) as [a Ha].
  destruct (IH (skipn size (k :: keys))) as (bs & sts & Hr & Hc & HF & HF2); [|done|].
  { rewrite length_skipn. cbn [length] in *. lia. }
  exists (firstn size (k :: keys) :: bs), (a :: sts). split_and!.
  - cbn [in_batches]. rewrite Ha. cbn [rbind]. by rewrite Hr.
  - cbn [concat]. rewrite Hc. apply firstn_skipn.
  - by constructor.
  - by constructor.
Qed.

(** Of batches without a common key, exactly one holds a given key. *)
Lemma concat_batches {K A} `{EqDecision K} (bs : list (list K)) (k : K) (x : list A) :
  NoDup (concat bs) -> k ∈ concat bs ->
  concat (map (fun b => if bool_decide (k ∈ b) then x else []) bs) = x.
Proof.
  assert (forall cs : list (list K), k ∉ concat cs ->
    concat (map (fun b => if bool_decide (k ∈ b) then x else []) cs) = []) as Hnone.
  { induction cs as [|b cs IH]; cbn [concat map]; intros Hk; [done|].
    rewrite bool_decide_eq_false_2 by set_solver. apply IH. set_solver. }
  induction bs as [|b bs IH]; cbn [concat map]; intros Hnd Hin; [set_solver|].
  apply NoDup_app in Hnd as (_ & Hdis & Hnd). case_bool_decide as Hb.
  - rewrite Hnone by (by apply Hdis). by rewrite app_nil_r.
  - apply IH; [done|]. apply elem_of_app in Hin as [|]; done.
Qed.

(** ** Building a batch *)

Lemma mapM_app {St A B} (f : A -> M St B) l1 l2 s :
  mapM_ f (l1 ++ l2) s =
  match mapM_ f l1 s with
  | (Ok bs, s') => match mapM_ f l2 s' with
                   | (Ok cs, s'') => (Ok (bs ++ cs), s'')
                   | (Err e, s'') => (Err e, s'')
                   end
  | (Err e, s') => (Err e, s')
  end.
Proof.
  revert s; induction l1 as [|a l1 IH]; intros s; cbn [app mapM_].
  { unfold ret. cbn. by destruct (mapM_ f l2 s) as [[]]. }
  unfold bindM, ret. destruct (f a s) as [[b|e] s1]; [|done]. rewrite IH.
  destruct (mapM_ f l1 s1) as [[bs|e] s2]; [|done].
  by destruct (mapM_ f l2 s2) as [[cs|e] s3].
Qed.

Lemma writePredicates_snoc t i ps p args w args1 x args2 :
  writePredicates t i ps args = (Ok w, args1) -> compile p t i args1 = (Ok x, args2) ->
  exists w', writePredicates t i (ps ++ [p]) args = (Ok w', args2).
Proof.
  unfold writePredicates. intros H Hc. rewrite (bool_decide_eq_false_2 (ps ++ [p] = [])) by (by destruct ps).
  case_bool_decide as Hnil.
  - subst ps. unfold ret in H. simplify_eq. cbn. unfold bindM, ret. rewrite Hc. eauto.
  - runM H. unfold ret in H. injection H as <- <-. unfold bindM. rewrite mapM_app, E.
    cbn. unfold bindM, ret. rewrite Hc. eauto.
Qed.

Lemma mapM_of_result {St A B} (f : A -> result B) l (s : St) :
  mapM_ (fun a => of_result (f a)) l s = (map_result f l, s).
Proof.
  induction l as [|a l IH]; cbn [mapM_ map_result]; [done|]. unfold bindM, ret, of_result in *.
  destruct (f a); [|done]. rewrite IH. cbn. by destruct (map_result f l).
Qed.

Lemma bind_values_total vs args :
  forallb (fun v => negb (isNilValue v)) vs = true ->
  exists parts, mapM_ (fun v => if isNilValue v
    then throw (Errorf "orm: IN value is nil; use an explicit null predicate")
    else bind v) vs args = (Ok parts, args ++ vs).
Proof.
  revert args; induction vs as [|v vs IH]; intros args Hv; cbn [mapM_].
  { exists []. unfold ret. by rewrite app_nil_r. }
  cbn in Hv. apply andb_true_iff in Hv as [Hv1 Hv2]. apply negb_true_iff in Hv1.
  destruct (IH (args ++ [v]) Hv2) as [parts Hp]. unfold bindM, ret. rewrite Hv1.
  assert (bind v args = (Ok (placeholder (S (length args))), args ++ [v])) as -> by done.
  rewrite Hp. rewrite <- app_assoc. eauto.
Qed.

(** A scope that builds, restricted to a batch of keys of its table, builds, with one more
    argument per key. *)
Lemma restricted_scope_builds {T} (scope : SelectBuilder T) c vs st0 :
  Build scope = Ok st0 -> sb_limit scope = None -> sb_offset scope = None ->
  ctable c = tname (sb_table scope) -> cidentity c = identity (sb_table scope) ->
  vs <> [] -> forallb (fun v => negb (isNilValue v)) vs = true ->
  Z.of_nat (length (stmt_args st0) + length vs) <= PostgreSQLParameterLimit ->
  exists st, Build (Where scope [leaf c predicateIn EmptyString vs]) = Ok st /\
    length (stmt_args st) = (length (stmt_args st0) + length vs)%nat.
Proof.
  intros H Hl Ho Ht Hi Hne Hnn Hlim. unfold Build, buildSelect in *.
  apply checked_ok in H as (He & Hv & H). cbn [sb_err sb_table Where].
  unfold checked. rewrite He, Hv. cbn [rbind].
  apply run_compiler_ok in H as [H Hw]. unfold select_body in *. cbn in H |- *.
  rewrite Hl, Ho in *. runM H. runM H. cbn in H. unfold bindM, ret in H. injection H as Hq Hargs.
  assert (s = s0) as ->.
  { unfold writeOrders in E0. case_bool_decide; [by injection E0|]. runM E0.
    rewrite mapM_of_result in E1. injection E1 as _ <-. by injection E0. }
  assert (tname (sb_table scope) <> EmptyString /\ identity (sb_table scope) <> None) as [Hn1 Hn2].
  { unfold table_validate in Hv. case_match eqn:G; [done|]. by bool_to_prop. }
  destruct (bind_values_total vs s0 Hnn) as [parts Hp].
  assert (exists x, compile (leaf c predicateIn EmptyString vs) (tname (sb_table scope))
            (identity (sb_table scope)) s0 = (Ok x, s0 ++ vs)) as [x Hx].
  { cbn -[mapM_]. rewrite Ht, Hi. rewrite !bool_decide_eq_false_2 by done. cbn [orb].
    rewrite !bool_decide_eq_true_2 by done. cbn [negb orb]. unfold bindM, ret. rewrite Hp. eauto. }
  destruct (writePredicates_snoc _ _ _ _ _ _ _ _ _ E Hx) as [w' Hw'].
  assert (exists o, @writeOrders sqlCompiler (tname (sb_table scope)) (identity (sb_table scope))
            (sb_orders scope) (s0 ++ vs) = (Ok o, s0 ++ vs)) as [o Hor].
  { unfold writeOrders in *. case_bool_decide; [unfold ret; eauto|]. runM E0.
    rewrite mapM_of_result in E1. injection E1 as E1 _. unfold bindM. rewrite mapM_of_result, E1.
    unfold ret. eauto. }
  unfold run_compiler, bindM. rewrite Hw', Hor. cbn. unfold newCompiledStatement.
  rewrite <- Hargs in *. rewrite length_app.
  destruct (Z.ltb_spec PostgreSQLParameterLimit (Z.of_nat (length s0 + length vs))); [lia|].
  eexists. split; [done|]. cbn. by rewrite length_app.
Qed.

(** ** Grouping *)

Section Grouping.
Context {P T K : Type} `{Countable K}.
Implicit Types d : @relationDefinition P T K.

Definition of_key d (k : K) (t : T) : bool := bool_decide (target_key d t = Some k).

Lemma group_many_spec msg d byKey items :
  Forall (fun t => is_Some (target_key d t)) items ->
  exists byKey', group_many msg d byKey items = Ok byKey' /\
    forall k, default [] (byKey' !! k) = default [] (byKey !! k) ++ List.filter (of_key d k) items.
Proof.
  intros HF. revert byKey; induction HF as [|t items [k Hk] HF IH]; intros byKey.
  { exists byKey. split; [done|]. intros k. by rewrite app_nil_r. }
  cbn [group_many]. rewrite Hk.
  destruct (IH (<[k := default [] (byKey !! k) ++ [t]]> byKey)) as (byKey' & Hg & Hd).
  exists byKey'. split; [done|]. intros k'. rewrite Hd. cbn [List.filter].
  unfold of_key at 2. rewrite Hk. destruct (decide (k' = k)) as [->|Hne].
  - rewrite lookup_insert_eq, bool_decide_eq_true_2 by done. cbn. by rewrite <- app_assoc.
  - rewrite lookup_insert_ne by done. rewrite bool_decide_eq_false_2 by congruence. done.
Qed.
End Grouping.

(** ** Loading against a table *)

Lemma selected_snoc col r fs f :
  selected col r (fs ++ [f]) = selected col r fs && bool_decide (denote col r f = Some true).
Proof.
  unfold selected. rewrite map_app. cbn [map].
  assert (forall l, all3 (l ++ [denote col r f]) = and3 (all3 l) (denote col r f)) as ->.
  { induction l as [|x l IH]; cbn.
    - by destruct (denote col r f) as [[]|].
    - unfold all3 in IH. rewrite IH. destruct x as [[]|], (foldr and3 (Some true) l) as [[]|],
        (denote col r f) as [[]|]; done. }
  by destruct (all3 (map (denote col r) fs)) as [[]|], (denote col r f) as [[]|].
Qed.

Lemma any3_true {A} (g : A -> truth) l : any3 (map g l) = Some true <-> exists a, a ∈ l /\ g a = Some true.
Proof.
  unfold any3. induction l as [|a l IH]; cbn [map foldr]; [set_solver|].
  split.
  - intros Hor. destruct (g a) as [[]|] eqn:E; [exists a; set_solver|..].
    + destruct (foldr or3 _ _) as [[]|]; try done. destruct IH as [[x [? ?]] _]; [done|].
      exists x. set_solver.
    + destruct (foldr or3 _ _) as [[]|]; try done. destruct IH as [[x [? ?]] _]; [done|].
      exists x. set_solver.
  - intros (x & [->|Hx]%elem_of_cons & Hg); [by rewrite Hg|].
    rewrite (proj2 IH) by eauto. by destruct (g a) as [[]|].
Qed.

Lemma scan_rows_map {Mo A} (f : row -> result Mo) (p : A -> row) (dec : A -> Mo) l :
  Forall (fun r => f (p r) = Ok (dec r)) l -> scan_rows f (map p l) = Ok (map dec l).
Proof. induction 1 as [|r l Hr HF IH]; [done|]. cbn. rewrite Hr. cbn. by rewrite IH. Qed.

Lemma filter_filter {A} (p q : A -> bool) l :
  List.filter p (List.filter q l) = List.filter (fun x => q x && p x) l.
Proof.
  induction l as [|a l IH]; [done|]. cbn. destruct (q a); cbn; [|done].
  destruct (p a); cbn; by rewrite IH.
Qed.

Lemma filter_map_comm {A B} (p : B -> bool) (g : A -> B) l :
  List.filter p (map g l) = map g (List.filter (fun a => p (g a)) l).
Proof. induction l as [|a l IH]; [done|]. cbn. destruct (p (g a)); cbn; by rewrite IH. Qed.

Lemma filter_ext_elem {A} (p q : A -> bool) l :
  (forall a, a ∈ l -> p a = q a) -> List.filter p l = List.filter q l.
Proof.
  induction l as [|a l IH]; intros Hpq; [done|]. cbn. rewrite Hpq by set_solver.
  rewrite IH by set_solver. done.
Qed.

Lemma filter_none {A} (l : list A) : List.filter (fun _ => false) l = [].
Proof. by induction l. Qed.

Section ExecutorInd.
Context (Q : Executor -> Prop) (Hnil : Q NilInterface) (Hdb : forall b, Q (SqlDB b))
  (Htx : forall b, Q (SqlTx b))
  (Hobs : forall o, match o with Some e => Q e | None => True end -> Q (Observed o)).
Fixpoint Executor_ind' (e : Executor) : Q e :=
  match e with
  | NilInterface => Hnil
  | SqlDB b => Hdb b
  | SqlTx b => Htx b
  | Observed None => Hobs None I
  | Observed (Some e) => Hobs (Some e) (Executor_ind' e)
  end.
End ExecutorInd.

Lemma through_conn {W A} ev (op : Statement -> M W A) e st (w : world W) r c :
  executor_present e = true -> op st (conn w) = (r, c) ->
  exists w', through ev op e st w = (r, w') /\ conn w' = c.
Proof.
  revert w; induction e as [|[]|[]|inner IH] using Executor_ind'; intros w He Hop; try done.
  - cbn. unfold lift. rewrite Hop. eauto.
  - cbn. unfold lift. rewrite Hop. eauto.
  - destruct inner as [inner|]; [|done]. cbn. unfold bindM, observe, modify. by apply IH.
Qed.

Section HasMany.
Context {P T K W : Type} `{Countable K} (toValue : K -> value).
Context (en : engine) (rows : list tuple) (db : driver W).
Context (rel : @Relation P T K (list T)) (asg : P -> list T -> P)
  (pk : P -> option K) (tk : T -> option K) (sc : row -> result T) (decode : tuple -> T).
Context (scope : SelectBuilder T) (fs : list filter) (os : list (Column * bool)).

Notation d := (definition rel).
Notation target := (r_target d).
Notation column := (targetColumn d).

(** What the database does with a SELECT of the target table: the reference semantics. *)
Definition answers : Prop :=
  forall st s w, read (query st) = Some (SSelect s) -> s_table s = tname target ->
    dbQuery db st w = (Ok {| rs_rows := select_rows en (stmt_args st) s rows;
                             rs_err := None; rs_close := None |}, w).

(** The scope's order decides the order of any two rows of the table, so a selection of the
    ordered rows is the ordered selection. *)
Definition ordered : Prop :=
  sort_by en (map order_item os) rows ≡ₚ rows /\
  forall p, sort_by en (map order_item os) (List.filter p rows) =
            List.filter p (sort_by en (map order_item os) rows).

(** The generated callbacks: a row whose relation column holds a key scans to a model with
    that key, and the database's equality on keys is equality. *)
Definition callbacks : Prop :=
  (forall r k, r ∈ rows -> r column = Some (toValue k) ->
     sc (project (tname target) (map (pair (tname target)) (columns (mapper target))) r)
       = Ok (decode r) /\ tk (decode r) = Some k) /\
  (forall x k, cmp (coll en) "=" x (toValue k) = true <-> x = toValue k) /\
  (forall k, isNilValue (toValue k) = false).

(** The rows of [target] related to the key, in the scope's order. *)
Definition related (k : K) : list T :=
  map decode (List.filter
    (fun r => selected (coll en) r fs && bool_decide (r column = Some (toValue k)))
    (sort_by en (map order_item os) rows)).

Context (Hanswers : answers) (Hordered : ordered) (Hcallbacks : callbacks).
Context (Htarget : made_table target) (Hsame : sb_table scope = target)
  (Hcolumn : made_name column)
  (Hps : sb_predicates scope = map build fs) (Hos : sb_orders scope = map mk_order os)
  (Hfs : foldr and True (map made_filter fs))
  (Hmo : Forall (fun o => made_name (cname (fst o))) os).
Context (Hpk : parentKey d = Some pk) (Htk : targetKey d = Some tk)
  (Hsc : scan (mapper target) = Some sc) (Hasg : assign rel = Some asg).

Definition in_batch (b : list K) (r : tuple) : bool :=
  selected (coll en) r fs && existsb (fun k => bool_decide (r column = Some (toValue k))) b.

Lemma selected_batch b r :
  selected (coll en) r (fs ++ [FIn {| ctable := tname target; cidentity := identity target;
                                      cname := column |} (map toValue b)]) = in_batch b r.
Proof using Hcallbacks.
  rewrite selected_snoc. unfold in_batch. f_equal. apply eq_true_iff_eq.
  rewrite bool_decide_eq_true, existsb_exists. cbn [denote cname].
  destruct Hcallbacks as (_ & Hcmp & _). rewrite map_map, any3_true.
  setoid_rewrite bool_decide_eq_true. setoid_rewrite list_elem_of_In.
  apply exist_proper. intros k. apply and_iff_compat_l. destruct (r column) as [x|]; cbn; [|done].
  split; [intros [= Hx]; f_equal; by apply Hcmp|intros [= ->]; f_equal; by apply Hcmp].
Qed.

(** The models a batch returns. *)
Definition batch_items (b : list K) : list T :=
  map decode (List.filter (in_batch b) (sort_by en (map order_item os) rows)).

Lemma in_batch_key b r :
  r ∈ rows -> in_batch b r = true -> exists k, k ∈ b /\ r column = Some (toValue k) /\
    sc (project (tname target) (map (pair (tname target)) (columns (mapper target))) r)
      = Ok (decode r) /\ tk (decode r) = Some k.
Proof using Hcallbacks.
  intros Hr Hb. apply andb_true_iff in Hb as [_ Hb]. apply existsb_exists in Hb as (k & Hk & Hc).
  bool_to_prop. exists k. apply list_elem_of_In in Hk. destruct Hcallbacks as [Hdec _].
  destruct (Hdec _ _ Hr Hc). done.
Qed.

Lemma sorted_in_rows r : r ∈ sort_by en (map order_item os) rows -> r ∈ rows.
Proof using Hordered. destruct Hordered as [Hp _]. by rewrite Hp. Qed.

Lemma batch_keys b : Forall (fun t => is_Some (target_key d t)) (batch_items b).
Proof using Hcallbacks Hordered Htk.
  apply Forall_forall. intros t Ht. unfold batch_items in Ht.
  apply list_elem_of_fmap in Ht as (r & -> & Hr). apply list_elem_of_In in Hr.
  apply filter_In in Hr as [Hr Hb]. apply list_elem_of_In in Hr. apply sorted_in_rows in Hr.
  destruct (in_batch_key _ _ Hr Hb) as (k & _ & _ & _ & Hk). unfold target_key. rewrite Htk. eauto.
Qed.

(** Of a batch's models, those with key [k] are the related rows, if [k] is in the batch. *)
Lemma batch_of_key b k :
  List.filter (of_key d k) (batch_items b) = if bool_decide (k ∈ b) then related k else [].
Proof using Hcallbacks Hordered Htk.
  unfold batch_items, related. rewrite filter_map_comm, filter_filter.
  assert (forall r, r ∈ sort_by en (map order_item os) rows ->
    in_batch b r && of_key d k (decode r) =
    (selected (coll en) r fs && bool_decide (r column = Some (toValue k))) && bool_decide (k ∈ b)) as He.
  { intros r Hr. apply sorted_in_rows in Hr. apply eq_true_iff_eq. rewrite !andb_true_iff.
    unfold of_key, target_key. rewrite Htk, !bool_decide_eq_true. split.
    - intros [Hb Hk]. destruct (in_batch_key _ _ Hr Hb) as (k' & Hin & Hc & _ & Hk').
      assert (k' = k) as -> by congruence. apply andb_true_iff in Hb as [Hs _]. done.
    - intros [[Hs Hc] Hin]. destruct Hcallbacks as [Hdec _]. destruct (Hdec _ _ Hr Hc) as [_ Hk].
      split; [|done]. unfold in_batch. rewrite Hs. cbn. apply existsb_exists. exists k.
      split; [by apply list_elem_of_In|by apply bool_decide_eq_true]. }
  rewrite (filter_ext_elem _ _ _ He). case_bool_decide.
  - f_equal. apply List.filter_ext. intros r. by rewrite andb_true_r.
  - rewrite (List.filter_ext _ (fun _ => false)); [by rewrite filter_none|].
    intros r. apply andb_false_r.
Qed.

Lemma batch_statement_reads b base :
  Build scope = Ok base -> sb_limit scope = None -> sb_offset scope = None -> b <> [] ->
  Z.of_nat (length (stmt_args base) + length b) <= r_limit d ->
  r_limit d <= PostgreSQLParameterLimit ->
  exists st s, batch_statement toValue d scope b = Ok st /\
    read (query st) = Some (SSelect s) /\ s_table s = tname target /\
    Z.of_nat (length (stmt_args st)) <= r_limit d /\
    select_rows en (stmt_args st) s rows =
      map (project (tname target) (map (pair (tname target)) (columns (mapper target))))
        (List.filter (in_batch b) (sort_by en (map order_item os) rows)).
Proof using Hcallbacks Hordered Htarget Hsame Hcolumn Hps Hos Hfs Hmo.
  intros Hb Hl Ho Hne Hlen Hlim.
  set (c := {| ctable := tname target; cidentity := identity target; cname := column |}).
  destruct Hcallbacks as (_ & _ & Hnil).
  destruct (restricted_scope_builds scope c (map toValue b) base) as (st & Hst & Hargs); try done.
  { by rewrite Hsame. } { by rewrite Hsame. } { by destruct b. }
  { clear -Hnil. induction b as [|k b IH]; [done|]. cbn. by rewrite Hnil. }
  { rewrite length_map. lia. }
  rewrite length_map in Hargs.
  edestruct (select_body_reads (Where scope [leaf c predicateIn EmptyString (map toValue b)]) false
    (fs ++ [FIn c (map toValue b)]) os st) as (s & [Hr Ht _ Hrows _]); [| | | |done|exact Hst|].
  { cbn. by rewrite Hsame. }
  { cbn. rewrite map_app, Hps. cbn. unfold In_. by destruct b. }
  { done. }
  { rewrite map_app. cbn. clear -Hfs Hcolumn. induction fs as [|f l IH]; cbn in *; [done|]. tauto. }
  exists st, s. split.
  { unfold batch_statement, relationInPredicate. fold c. rewrite Hst. cbn [rbind].
    destruct (Z.ltb_spec (r_limit d) (Z.of_nat (length (stmt_args st)))); [lia|done]. }
  split; [done|]. cbn in Ht. rewrite Hsame in Ht. split; [done|]. split; [lia|].
  rewrite Hrows. unfold requested. cbn [sb_table Where sb_limit sb_offset]. rewrite Hsame, Hl, Ho.
  cbn [paginate]. f_equal. destruct Hordered as [_ Hcomm]. rewrite <- Hcomm. f_equal.
  apply List.filter_ext. intros r. apply selected_batch.
Qed.

(** The loop over the statements of the batches collects, per key, the models of all
    batches in order. *)
Lemma load_batches msg e ctx i byKey bs sts base (w : world W) :
  executor_present e = true -> (forall j, ctx j = None) ->
  Build scope = Ok base -> sb_limit scope = None -> sb_offset scope = None ->
  r_limit d <= PostgreSQLParameterLimit ->
  Forall (fun b => b <> [] /\ Z.of_nat (length (stmt_args base) + length b) <= r_limit d) bs ->
  Forall2 (fun b st => batch_statement toValue d scope b = Ok st) bs sts ->
  exists byKey' w', load_statements db ctx (group_many msg d) e target i byKey sts w = (Ok byKey', w') /\
    conn w' = conn w /\
    forall k, default [] (byKey' !! k) =
      default [] (byKey !! k) ++ concat (map (fun b => List.filter (of_key d k) (batch_items b)) bs).
Proof using Hanswers Hordered Hcallbacks Htarget Hsame Hcolumn Hps Hos Hfs Hmo Htk Hsc.
  intros He Hctx Hb Hl Ho Hlim HF HF2. revert i byKey w HF.
  induction HF2 as [|b st bs sts Hst HF2 IH]; intros i byKey w HF.
  { exists byKey, w. split_and!; [done|done|]. intros k. by rewrite app_nil_r. }
  apply Forall_cons_1 in HF as [[Hne Hlen] HF].
  destruct (batch_statement_reads b base) as (st' & s & Hst' & Hr & Ht & _ & Hrows); [done..|].
  assert (st' = st) as -> by congruence. clear Hst'.
  cbn [load_statements]. rewrite Hctx.
  edestruct (through_conn StatementQuery (dbQuery db) e st w) as (w1 & Hq & Hc1);
    [done|by apply (Hanswers st s)|].
  assert (queryModels db e target st w = (Ok (batch_items b), w1)) as Hqm.
  { unfold queryModels, queryModelsFor, bindM, of_result, validateExecutor. rewrite He. cbn [negb].
    unfold persistM, QueryContext. rewrite Hq. cbn [rs_rows]. unfold read_models. cbn.
    rewrite Hsc, Hrows. rewrite (scan_rows_map sc _ decode); [done|].
    apply Forall_forall. intros r Hin. apply list_elem_of_In, filter_In in Hin as [Hin Hbr].
    apply list_elem_of_In, sorted_in_rows in Hin.
    by destruct (in_batch_key _ _ Hin Hbr) as (k & _ & _ & Hs & _). }
  unfold bindM at 1. rewrite Hqm. unfold bindM, of_result.
  destruct (group_many_spec msg d byKey (batch_items b) (batch_keys b)) as (by1 & Hg & Hd1).
  rewrite Hg. destruct (IH (S i) by1 w1 HF) as (by2 & w2 & Hload & Hc2 & Hd2).
  exists by2, w2. split_and!; [done|congruence|]. intros k. cbn [map concat].
  rewrite Hd2, Hd1. by rewrite app_assoc.
Qed.
End HasMany.

Lemma NewTable_scan {T} names sc (m : Mapper T) n name t :
  NewMapper names (Some sc) = Ok m -> NewTable n name m = Ok t -> scan (mapper t) = Some sc.
Proof.
  unfold NewMapper, NewTable. case_bool_decide; [done|].
  destruct (mapper_columns ∅ names) as [cs|]; [|done]. intros [= <-].
  destruct (newIdentifier name) as [nm|]; [|done]. unfold rbind. case_match; [done|].
  by intros [= <-].
Qed.

Lemma made_name_nonempty s : made_name s -> s <> EmptyString.
Proof. by intros H ->. Qed.

Lemma parameterLimit_range n l : parameterLimit n = Ok l -> 1 <= l <= PostgreSQLParameterLimit.
Proof.
  unfold parameterLimit, PostgreSQLParameterLimit. intros H. case_guards; bool_to_prop; simplify_eq; lia.
Qed.

(** What a successful constructor leaves in the relation. *)
Lemma new_relation_spec {P T K A} msg (parent : Table P) (target : Table T) pc tc
    (pk : P -> option K) (tk : T -> option K) (asg : P -> A -> P) PL rel :
  made_name (cname pc) -> made_name (cname tc) ->
  new_relation msg parent target pc tc (Some pk) (Some tk) (Some asg) PL = Ok rel ->
  relation_validate (definition rel) = Ok tt /\ r_target (definition rel) = target /\
  targetColumn (definition rel) = cname tc /\ parentKey (definition rel) = Some pk /\
  targetKey (definition rel) = Some tk /\ assign rel = Some asg /\
  r_limit (definition rel) <= PostgreSQLParameterLimit.
Proof.
  intros Hp Ht H. unfold new_relation, newRelationDefinition in H.
  destruct (table_validate parent) as [[]|] eqn:E1; [|done]. cbn in H.
  destruct (table_validate target) as [[]|] eqn:E2; [|done]. cbn in H. case_match; [done|].
  destruct (parameterLimit PL) as [l|] eqn:E3; [|done]. cbn in H. simplify_eq. cbn.
  apply parameterLimit_range in E3. split_and!; try done; [|lia].
  unfold relation_validate. cbn. rewrite E1, E2. cbn.
  rewrite !bool_decide_eq_false_2 by (by apply made_name_nonempty). cbn.
  destruct (Z.ltb_spec l 1), (Z.ltb_spec PostgreSQLParameterLimit l); try lia. done.
Qed.

(** C26. Loading a has-many relation is a join, whatever the batching: for every page of
    parents, every parameter limit the scope leaves room in, every scope of predicates and
    orders and every table content, [Load] succeeds and gives each parent with a key exactly
    the target rows that satisfy the scope and carry that key, in the scope's order, and
    every other parent none; parents keep their order, a page of any size needs only batches
    within the limit, and nothing in the database changes.  Needed: the database answers a
    SELECT as the reference semantics reads it, the scope's order decides between rows, and
    the generated callbacks return the keys of the rows they are given. *)
Theorem has_many_load_is_a_join {P T K W} `{Countable K} (toValue : K -> value)
    (en : engine) (rows : list tuple) (db : driver W) (ctx : nat -> option error)
    names sc (m : Mapper T) n name (parent : Table P) target pc tc pk tk asg PL rel
    (decode : tuple -> T) scope fs os base e parents (w : world W) :
  NewMapper names (Some sc) = Ok m -> NewTable n name m = Ok target ->
  NewColumn parent (cname pc) = Ok pc -> NewColumn target (cname tc) = Ok tc ->
  NewHasMany parent target pc tc (Some pk) (Some tk) (Some asg) PL = Ok rel ->
  answers en rows db rel -> ordered en rows os ->
  callbacks toValue en rows rel tk sc decode ->
  sb_table scope = target -> sb_predicates scope = map build fs ->
  sb_orders scope = map mk_order os -> foldr and True (map made_filter fs) ->
  Forall (fun o => made_name (cname (fst o))) os ->
  sb_limit scope = None -> sb_offset scope = None -> sb_lock scope = lockNone ->
  Build scope = Ok base -> Z.of_nat (length (stmt_args base)) < r_limit (definition rel) ->
  executor_present e = true -> (forall i, ctx i = None) ->
  exists w', HasManyLoad toValue db ctx rel e parents scope w =
    (Ok (map (fun p => asg p (match pk p with
                              | Some k => related toValue en rows rel decode fs os k
                              | None => []
                              end)) parents), w') /\ conn w' = conn w.
Proof.
  intros Hm Ht Hpc Htc Hrel Hans Hord Hcb Hst Hps Hos Hfs Hmo Hl Ho Hlk Hb Hroom He Hctx.
  destruct (NewTable_made _ _ _ _ _ _ Hm Ht) as (Hmt & _).
  apply NewColumn_made in Hpc as (Hpcn & _). apply NewColumn_made in Htc as (Htcn & _).
  unfold NewHasMany in Hrel. destruct (new_relation_spec _ _ _ _ _ _ _ _ _ _ Hpcn Htcn Hrel)
    as (Hv & Htg & Hcol & Hpk & Htk & Hasg & Hlim).
  assert (scan (mapper target) = Some sc) as Hsc.
  { by eapply NewTable_scan. }
  rewrite <- Htg in Hmt, Hst, Hsc. rewrite <- Hcol in Htcn.
  set (keys := uniqueKeys parents (parent_key (definition rel))).
  assert (parent_key (definition rel) = pk) as Hpkf.
  { unfold parent_key. by rewrite Hpk. }
  destruct (unique_from_spec pk ∅ parents) as [Hnd Hin].
  assert (validateRelationScope (r_target (definition rel)) scope
            = Ok (Z.of_nat (length (stmt_args base)))) as Hscope.
  { unfold validateRelationScope. rewrite Hst, Hl, Ho, Hlk. rewrite !bool_decide_eq_true_2 by done.
    cbn. by rewrite Hb. }
  set (size := Z.to_nat (r_limit (definition rel) - Z.of_nat (length (stmt_args base)))).
  destruct (in_batches_spec (length keys) size (batch_statement toValue (definition rel) scope) keys)
    as (bs & sts & Hbat & Hconc & HF & HF2); [lia|done| |].
  { intros b Hne Hlen. edestruct (batch_statement_reads toValue en rows rel tk sc decode scope fs os
      Hord Hcb Hmt Hst Htcn Hps Hos Hfs Hmo b base) as (st & s & Hs & _); try done; [lia|eauto]. }
  assert (HasManyBuild toValue rel parents scope = Ok sts) as Hbuild.
  { unfold HasManyBuild, relation_build. rewrite Hv. cbn [rbind]. rewrite Hasg. cbn [absent].
    unfold buildScopedRelationStatements. rewrite Hscope. cbn [rbind]. fold keys.
    case_bool_decide as Hk.
    - rewrite Hk in Hbat. cbn in Hbat. by injection Hbat as <-.
    - destruct (Z.ltb_spec (r_limit (definition rel) - Z.of_nat (length (stmt_args base))) 1); [lia|].
      done. }
  edestruct (load_batches toValue en rows db rel tk sc decode scope fs os Hans Hord Hcb Hmt Hst Htcn
    Hps Hos Hfs Hmo Htk Hsc "orm: has-many target returned no foreign key" e ctx 0%nat ∅ bs sts base w)
    as (byKey & w' & Hload & Hconn & Hd); try done.
  { eapply Forall_impl; [exact HF2|]. intros b [? ?]. split; [done|]. lia. }
  exists w'. split; [|done]. unfold HasManyLoad, load, bindM, of_result, validateExecutor.
  rewrite He. cbn [negb]. rewrite Hbuild, Hload. cbn. unfold ret. f_equal. f_equal.
  apply map_ext_in. intros p Hp. apply list_elem_of_In in Hp.
  unfold assigned_with. rewrite Hasg, Hpkf. f_equal. destruct (pk p) as [k|] eqn:Ek; [|done].
  cbn [many_of]. rewrite Hd, lookup_empty. cbn [default app].
  erewrite map_ext by (intros b; by eapply batch_of_key).
  apply concat_batches; rewrite Hconc; unfold keys; rewrite Hpkf; [done|].
  apply Hin. split; [set_solver|]. eauto.
Qed.

Module Library.
Definition authors : Table (Z * list row) :=
  {| tname := "authors"; mapper := {| columns := ["id"]; scan := Some (fun _ => Ok (0, [])) |};
     identity := Some 1%nat |}.
Definition books_mapper : Mapper row :=
  {| columns := ["id"; "author_id"]; scan := Some Ok |}.
Definition books : Table row :=
  {| tname := "books"; mapper := books_mapper; identity := Some 2%nat |}.
Definition author_id : Column :=
  {| ctable := "books"; cidentity := Some 2%nat; cname := "author_id" |}.
Definition book_id : Column := {| ctable := "books"; cidentity := Some 2%nat; cname := "id" |}.
Definition authors_id : Column :=
  {| ctable := "authors"; cidentity := Some 1%nat; cname := "id" |}.
Definition book (id author : Z) : tuple :=
  fun c => if (c =? "id")%string then Some (VInt id)
           else if (c =? "author_id")%string then Some (VInt author) else None.
Definition shelf : list tuple := [book 1 7; book 2 8; book 3 7; book 4 9].
Definition pg : engine :=
  {| coll := {| cmp := fun op x y => if (op =? "=")%string then bool_decide (x = y)
                                      else negb (bool_decide (x = y)); fold := id |};
     default_of := fun _ => None; now_value := VNil; plus := fun a _ => a;
     sort_by := fun _ l => l |}.
Definition server : driver unit :=
  {| dbExec := fun _ w => (Ok (Ok 0), w);
     dbQuery := fun st w =>
       (match read (query st) with
        | Some (SSelect s) => Ok {| rs_rows := select_rows pg (stmt_args st) s shelf;
                                    rs_err := None; rs_close := None |}
        | _ => Err (Errorf "syntax error")
        end, w);
     dbQueryRow := fun _ w => (Err ErrNoRows, w) |}.
Definition key_of (p : Z * list row) : option Z := Some (fst p).
Definition key_of_book (b : row) : option Z :=
  match b with [_; VInt a] => Some a | _ => None end.
Definition put (p : Z * list row) (bs : list row) : Z * list row := (fst p, bs).
Definition authored : Relation (list row) :=
  {| definition := {| r_parent := authors; r_target := books; parentColumn := "id";
       targetColumn := "author_id"; parentKey := Some key_of; targetKey := Some key_of_book;
       r_limit := 2 |};
     assign := Some put |}.
Definition cheap : SelectBuilder row := Where (Select books) [NotEq book_id (VInt 3)].
Definition decode_book (r : tuple) : row :=
  project "books" (map (pair "books") ["id"; "author_id"]) r.

Lemma shelf_callbacks : callbacks VInt pg shelf authored key_of_book Ok decode_book.
Proof.
  split_and!.
  - intros r k Hr Hk. unfold shelf in Hr.
    repeat (apply elem_of_cons in Hr as [->|Hr];
            [cbn in Hk; injection Hk as Hk; subst k; split; reflexivity|]).
    by apply elem_of_nil in Hr.
  - intros x k. cbn. apply bool_decide_eq_true.
  - done.
Defined.
End Library.

Lemma has_many_load_is_a_join_witness :
  exists w', HasManyLoad VInt Library.server (fun _ => None) Library.authored (SqlDB false)
    [(8, []); (7, []); (5, [])] Library.cheap {| conn := tt; seen_statements := [] |} =
    (Ok [(8, [[VInt 2; VInt 8]]); (7, [[VInt 1; VInt 7]]); (5, [])], w').
Proof.
  destruct (has_many_load_is_a_join VInt Library.pg Library.shelf Library.server (fun _ => None)
    ["id"; "author_id"] Ok Library.books_mapper 2%nat "books" Library.authors Library.books
    Library.authors_id Library.author_id Library.key_of Library.key_of_book Library.put 2
    Library.authored Library.decode_book Library.cheap
    [FCmp CallNotEq Library.book_id (VInt 3)] [] 
    {| query := "SELECT " +:+ writeMappedColumns Library.books +:+ " FROM " +:+ quoted "books" +:+
         " WHERE " +:+ qualified_name "books" "id" +:+ " <> $1"; stmt_args := [VInt 3] |}
    (SqlDB false) [(8, []); (7, []); (5, [])] {| conn := tt; seen_statements := [] |})
    as (w' & Hl & _);
    [reflexivity|reflexivity|reflexivity|reflexivity|vm_compute; reflexivity
    |intros st s w Hr Hs; cbn; rewrite Hr; reflexivity|split; reflexivity
    |apply Library.shelf_callbacks|reflexivity|reflexivity|reflexivity
    |split; [reflexivity|exact I]|constructor|reflexivity|reflexivity|reflexivity
    |vm_compute; reflexivity|vm_compute; reflexivity|reflexivity|reflexivity|].
  exists w'. rewrite Hl. vm_compute. reflexivity.
Defined.
