(* ===== verification/Config.v ===== *)
(** * Configuration ([config/env.go])

    A [Reader] holds a snapshot of values and the errors of the conversions so far.  A file is
    what [os.Open] and the reads after it give: it is missing, it cannot be opened, or it has
    a text and possibly a read error at its end.  [time.ParseDuration] is a parameter.  Shown
    below: files only fill in defaults, quoted pairs read back exactly, and every problem is
    reported without its value. *)

From S2P Require Import Prelude GoStrings PathText.
Local Open Scope go_scope.
Local Open Scope Z_scope.

Record FieldError : Type := { Key : string; RuleName : string }.
Record Reader : Type := { values : gmap string string; errors_ : list FieldError }.

Definition FieldError_Error (problem : FieldError) : string :=
  Key problem +:+
  (if bool_decide (RuleName problem = "required") then " is required"
   else if bool_decide (RuleName problem = "integer") then " must be an integer"
   else if bool_decide (RuleName problem = "boolean") then " must be a boolean"
   else if bool_decide (RuleName problem = "duration") then " must be a duration"
   else " has an invalid value").

(** [FromEnvironment]: later entries win. *)
Definition FromEnvironment (environ : list string) : Reader :=
  {| values := fold_left (fun m entry =>
       let '(key, value, ok) := Cut entry "="%char in if ok : bool then <[key := value]> m else m) environ ∅;
     errors_ := [] |}.
Definition FromMap (values : gmap string string) : Reader := {| values := values; errors_ := [] |}.

(** ** Files *)

Inductive file : Type := NotExist | OpenFails (e : error) | Opened (text : string) (readErr : option error).

(** [bufio.MaxScanTokenSize]: a line that does not fit the scanner's buffer ends the scan. *)
Definition MaxScanTokenSize : Z := 65536.
Definition ErrTooLong : error := Sentinel "bufio.Scanner: token too long".

Definition drop_cr (line : string) : string :=
  if HasSuffix line (String (chr 13) EmptyString)
  then take_string (String.length line - 1) line else line.

(** The lines a [bufio.Scanner] yields, and its error. *)
Fixpoint scan (pieces : list string) (readErr : option error) : list string * option error :=
  match pieces with
  | [] | [EmptyString] => ([], readErr)
  | p :: rest =>
      if byte_len p >=? MaxScanTokenSize then ([], Some ErrTooLong)
      else let '(lines, e) := scan rest readErr in (drop_cr p :: lines, e)
  end.
Definition scan_lines (text : string) (readErr : option error) : list string * option error :=
  scan (Split text (chr 10)) readErr.

Definition quote2 : ascii := chr 34.
Definition quote1 : ascii := chr 39.
Definition bracketed (q : ascii) (value : string) : bool :=
  HasPrefix value (String q EmptyString) && HasSuffix value (String q EmptyString).
Definition unquote_value (value : string) : string :=
  if (2 <=? byte_len value) && (bracketed quote1 value || bracketed quote2 value)
  then take_string (String.length value - 2) (drop_string 1 value) else value.

Inductive line_kind : Type := LineSkip | LineBad | LinePair (key value : string).
Definition parse_line (text : string) : line_kind :=
  let line := TrimSpace text in
  if bool_decide (line = EmptyString) || HasPrefix line "#" then LineSkip
  else
    let '(key, value, ok) := Cut line "="%char in
    let key := TrimSpace key in
    if negb ok || bool_decide (key = EmptyString) then LineBad
    else LinePair key (unquote_value (TrimSpace value)).

Definition set_default (key value : string) (r : Reader) : Reader :=
  match values r !! key with
  | Some _ => r
  | None => {| values := <[key := value]> (values r); errors_ := errors_ r |}
  end.

(** The loop over the lines: it stops at the first line that is not [KEY=VALUE]. *)
Fixpoint load_lines (lines : list string) : M Reader unit :=
  match lines with
  | [] => ret tt
  | line :: rest =>
      match parse_line line with
      | LineSkip => load_lines rest
      | LineBad => throw (Errorf "%s:%d: expected KEY=VALUE")
      | LinePair key value => let! _ := modify (set_default key value) in load_lines rest
      end
  end.

Definition LoadFile (f : file) : M Reader unit :=
  match f with
  | NotExist => ret tt
  | OpenFails e => throw (Wrapf "load configuration %s: %w" e)
  | Opened text readErr =>
      let '(lines, e) := scan_lines text readErr in
      let! _ := load_lines lines in
      match e with
      | Some e => throw (Wrapf "read configuration %s: %w" e)
      | None => ret tt
      end
  end.

(** ** Reading values *)

Definition String_ (key fallback : string) (r : Reader) : string := default fallback (values r !! key).

Definition problem (key rule : string) (r : Reader) : Reader :=
  {| values := values r; errors_ := errors_ r ++ [{| Key := key; RuleName := rule |}] |}.

Definition Required (key : string) (r : Reader) : string * Reader :=
  match values r !! key with
  | Some value =>
      if negb (bool_decide (TrimSpace value = EmptyString)) then (value, r)
      else (EmptyString, problem key "required" r)
  | None => (EmptyString, problem key "required" r)
  end.

(** [Int], [Bool] and [Duration]: the fallback for an absent or empty value, and for one that
    does not parse, which is recorded. *)
Definition converted {A} (parse : string -> option A) (rule key : string) (fallback : A) (r : Reader) : A * Reader :=
  match values r !! key with
  | None => (fallback, r)
  | Some value =>
      if bool_decide (value = EmptyString) then (fallback, r)
      else match parse value with
           | Some parsed => (parsed, r)
           | None => (fallback, problem key rule r)
           end
  end.

(** [strconv.ParseBool] *)
Definition ParseBool (s : string) : option bool :=
  if bool_decide (s ∈ ["1"; "t"; "T"; "TRUE"; "true"; "True"]) then Some true
  else if bool_decide (s ∈ ["0"; "f"; "F"; "FALSE"; "false"; "False"]) then Some false else None.

Definition Int (key : string) (fallback : Z) : Reader -> Z * Reader := converted Atoi "integer" key fallback.
Definition Bool_ (key : string) (fallback : bool) : Reader -> bool * Reader := converted ParseBool "boolean" key fallback.
Definition Duration (ParseDuration : string -> option duration) (key : string) (fallback : duration)
    : Reader -> duration * Reader := converted ParseDuration "duration" key fallback.

(** [Err]: nil without problems; otherwise the joined messages, one per line. *)
Definition Err_ (r : Reader) : option string :=
  match errors_ r with
  | [] => None
  | es => Some (Join (map FieldError_Error es) (String (chr 10) EmptyString))
  end.

(** ** Files *)

(** The pairs of the lines in front of the first line that is none. *)
Fixpoint good_pairs (lines : list string) : list (string * string) * bool :=
  match lines with
  | [] => ([], true)
  | line :: rest =>
      match parse_line line with
      | LineSkip => good_pairs rest
      | LineBad => ([], false)
      | LinePair key value => let '(ps, ok) := good_pairs rest in ((key, value) :: ps, ok)
      end
  end.

Lemma set_default_values key value r :
  set_default key value r = {| values := values r ∪ {[key := value]}; errors_ := errors_ r |}.
Proof.
  unfold set_default. destruct r as [vs es]. cbn. destruct (vs !! key) as [v|] eqn:Hk; f_equal.
  - symmetry. apply map_eq. intros i. rewrite lookup_union. destruct (decide (i = key)) as [->|Hi].
    + rewrite Hk, lookup_singleton_eq. done.
    + rewrite lookup_singleton_ne by done. by destruct (vs !! i).
  - by rewrite insert_union_singleton_r.
Qed.

Lemma load_lines_spec lines r :
  load_lines lines r =
    (if snd (good_pairs lines) then Ok tt else Err (Errorf "%s:%d: expected KEY=VALUE"),
     {| values := values r ∪ list_to_map (fst (good_pairs lines)); errors_ := errors_ r |}).
Proof.
  revert r; induction lines as [|line lines IH]; intros r; cbn.
  - rewrite map_union_empty. by destruct r.
  - destruct (parse_line line) as [| |key value]; [apply IH|cbn; rewrite map_union_empty; by destruct r|].
    cbn. unfold bindM, modify. rewrite IH, set_default_values. destruct (good_pairs lines) as [ps ok]. cbn.
    by rewrite insert_union_singleton_l, map_union_assoc.
Qed.

(** ** Printing pairs *)

Definition line_text (kv : string * string) : string :=
  fst kv +:+ String "=" (String quote2 (snd kv +:+ String quote2 EmptyString)).
Definition not_newline (c : ascii) : bool := negb (bool_decide (c = chr 10)).
Definition plain_key (k : string) : Prop :=
  k <> EmptyString /\ trimmed k /\ HasPrefix k "#" = false /\
  all_chars (fun c => negb (bool_decide (c = "="%char))) k = true /\ all_chars not_newline k = true.
Definition printable (kv : string * string) : Prop :=
  plain_key (fst kv) /\ all_chars not_newline (snd kv) = true /\ byte_len (line_text kv) < MaxScanTokenSize.
Definition file_text (kvs : list (string * string)) : string :=
  foldr (fun kv text => line_text kv +:+ String (chr 10) text) EmptyString kvs.

Definition is_quote (c : ascii) : bool := bool_decide (c = quote2).

Lemma spaces_facts :
  Forall (fun e => all_chars (fun c => negb (bool_decide (c = "="%char))) e = true) spaceEncodings /\
  Forall (fun e => match e with String x _ => is_quote x = false | EmptyString => False end) spaceEncodings /\
  Forall (fun e => match e with String x _ => is_quote x = false | EmptyString => False end) reversed_spaces.
Proof.
  split_and!; [apply (bool_decide_unpack _); vm_compute; done|repeat constructor..].
Qed.

Lemma rev_line kv : rev_string (line_text kv) EmptyString =
  String quote2 (rev_string (fst kv +:+ String "=" (String quote2 (snd kv))) EmptyString).
Proof.
  unfold line_text. change (String quote2 (snd kv +:+ String quote2 EmptyString))
    with (String quote2 (snd kv) +:+ String quote2 EmptyString).
  rewrite <- string_app_cons, string_app_assoc, rev_string_app. done.
Qed.

Lemma trimmed_line kv : trimmed (fst kv) -> trimmed (line_text kv).
Proof.
  intros [Hk _]. destruct spaces_facts as (H1 & H2 & H3). split; [by apply leading_space_sep|].
  rewrite rev_line. by apply (leading_space_head is_quote).
Qed.

Lemma trimmed_quoted v : trimmed (String quote2 (v +:+ String quote2 EmptyString)).
Proof.
  destruct spaces_facts as (H1 & H2 & H3). split; [by apply (leading_space_head is_quote)|].
  change (String quote2 (v +:+ String quote2 EmptyString)) with (String quote2 v +:+ String quote2 EmptyString).
  rewrite rev_string_app. by apply (leading_space_head is_quote).
Qed.


Lemma HasPrefix_char c s : HasPrefix (String c s) (String c EmptyString) = true.
Proof. cbn. rewrite bool_decide_eq_true_2 by done. by destruct s. Qed.

Lemma unquote_quoted v : unquote_value (String quote2 (v +:+ String quote2 EmptyString)) = v.
Proof.
  unfold unquote_value. unfold byte_len. cbn [String.length]. rewrite string_length_app. cbn [String.length].
  rewrite (proj2 (Z.leb_le _ _)) by lia. unfold bracketed at 2. unfold HasSuffix.
  rewrite HasPrefix_char. change (String quote2 (v +:+ String quote2 EmptyString)) with (String quote2 v +:+ String quote2 EmptyString).
  rewrite rev_string_app. change (rev_string (String quote2 EmptyString) ?x) with (String quote2 x).
  rewrite HasPrefix_char, orb_true_r. cbn [andb].
  rewrite string_app_cons. cbn [drop_string]. destruct v as [|c v]; [done|].
  replace (S (String.length (String c v) + 1) - 2)%nat with (String.length (String c v)) by (cbn; lia).
  cbn [drop_string]. apply take_string_app.
Qed.

Lemma parse_line_text kv : plain_key (fst kv) -> parse_line (line_text kv) = LinePair (fst kv) (snd kv).
Proof.
  intros (Hne & Ht & Hh & He & _). unfold parse_line.
  rewrite (proj2 (TrimSpace_fixed _) (trimmed_line kv Ht)).
  destruct kv as [k v]. cbn [fst snd] in *. unfold line_text. cbn [fst snd].
  rewrite bool_decide_eq_false_2 by (by destruct k).
  assert (HasPrefix (k +:+ String "=" (String quote2 (v +:+ String quote2 EmptyString))) "#" = false) as ->.
  { destruct k as [|c k]; [done|]. rewrite string_app_cons. cbn in Hh |- *.
    destruct (bool_decide (c = "#"%char)); [|done]. destruct k; [done|]. done. }
  cbn [orb]. rewrite Cut_app by done. rewrite (proj2 (TrimSpace_fixed k) Ht).
  rewrite bool_decide_eq_false_2 by done. cbn [negb orb].
  by rewrite (proj2 (TrimSpace_fixed _) (trimmed_quoted v)), unquote_quoted.
Qed.

Lemma drop_cr_line kv : drop_cr (line_text kv) = line_text kv.
Proof. unfold drop_cr, HasSuffix. by rewrite rev_line. Qed.

Lemma line_no_newline kv : printable kv -> all_chars not_newline (line_text kv) = true.
Proof.
  intros ((_ & _ & _ & _ & Hk) & Hv & _). unfold line_text. rewrite all_chars_app, Hk. cbn [andb].
  change (all_chars not_newline (snd kv +:+ String quote2 EmptyString) = true). by rewrite all_chars_app, Hv.
Qed.

Lemma scan_file kvs e : Forall printable kvs -> scan_lines (file_text kvs) e = (map line_text kvs, e).
Proof.
  intros Hall. unfold scan_lines. induction Hall as [|kv kvs Hp Hall IH]; [done|].
  cbn [file_text foldr]. fold (file_text kvs). rewrite Split_app by (by apply line_no_newline).
  pose proof (Split_nonempty (file_text kvs) (chr 10)) as Hne. cbn [map]. unfold scan at 1; fold scan.
  destruct Hp as ((Hk & _) & _ & Hlen).
  assert (line_text kv <> EmptyString) as Hl by (unfold line_text; by destruct (fst kv)).
  rewrite IH, drop_cr_line. destruct (line_text kv) as [|c s] eqn:Hlt; [done|].
  by rewrite Z.geb_leb, (proj2 (Z.leb_gt _ _)) by done.
Qed.

Lemma good_pairs_file kvs : Forall printable kvs -> good_pairs (map line_text kvs) = (kvs, true).
Proof.
  induction 1 as [|[k v] kvs (Hk & _) _ IH]; [done|]. cbn [map good_pairs]. by rewrite parse_line_text, IH.
Qed.

(** A configuration file only fills in what is not set.  However loading ends, the
    values that were there stay and no error is recorded; a file that loads to its end adds
    exactly the pairs of its lines, the first one of each key; and a file of lines
    [KEY="VALUE"] adds exactly the pairs it was printed from, whatever spaces, quotes,
    hashes or equal signs a value holds. *)
Theorem files_only_fill_in_defaults f r res r' :
  LoadFile f r = (res, r') ->
  errors_ r' = errors_ r /\
  (forall k v, values r !! k = Some v -> values r' !! k = Some v) /\
  (forall text, f = Opened text None -> res = Ok tt -> exists lines, scan_lines text None = (lines, None) /\
     values r' = values r ∪ list_to_map (fst (good_pairs lines))) /\
  (forall kvs, f = Opened (file_text kvs) None -> Forall printable kvs ->
     res = Ok tt /\ values r' = values r ∪ list_to_map kvs).
Proof.
  intros Hload. destruct f as [|e|text readErr]; cbn in Hload; [by injection Hload as <- <-..|].
  destruct (scan_lines text readErr) as [lines e] eqn:Hs. unfold bindM in Hload. rewrite load_lines_spec in Hload.
  assert (r' = {| values := values r ∪ list_to_map (fst (good_pairs lines)); errors_ := errors_ r |}) as Hr'
    by (destruct (snd (good_pairs lines)), e; injection Hload as _ <-; done).
  split_and!; [by rewrite Hr'|intros k v Hk; rewrite Hr'; cbn; by rewrite (lookup_union_Some_l _ _ _ _ Hk)| |].
  - intros text' [= -> ->] Hres. exists lines. rewrite Hr'. split; [|done]. subst res.
    destruct (snd (good_pairs lines)), e; injection Hload; intros; done.
  - intros kvs [= -> ->] Hall. rewrite scan_file in Hs by done. injection Hs as <- <-.
    rewrite good_pairs_file in Hload by done. by injection Hload as <- <-.
Qed.

Lemma files_only_fill_in_defaults_witness :
  let kvs := [("APP_KEY", " a#b = 'c' "); ("PORT", "80"); ("APP_KEY", "later")] in
  exists r', LoadFile (Opened (file_text kvs) None) (FromMap {["PORT" := "9000"]}) = (Ok tt, r') /\
    String_ "APP_KEY" EmptyString r' = " a#b = 'c' " /\ String_ "PORT" EmptyString r' = "9000".
Proof.
  intros kvs. destruct (LoadFile (Opened (file_text kvs) None) (FromMap {["PORT" := "9000"]})) as [res r'] eqn:Hl.
  destruct (files_only_fill_in_defaults _ _ _ _ Hl) as (_ & Hkeep & _ & Hp).
  destruct (Hp kvs eq_refl) as [Hres Hv].
  - assert (forall k, k = "APP_KEY" \/ k = "PORT" -> plain_key k) as Hk.
    { intros k [-> | ->]; (split_and!; [done| |done..]); apply TrimSpace_fixed; vm_compute; reflexivity. }
    repeat constructor; cbn; try (apply Hk; by auto); vm_compute; done.
  - exists r'. subst res. split; [reflexivity|]. unfold String_. rewrite (Hkeep "PORT" "9000") by reflexivity.
    split; [|reflexivity]. rewrite Hv. vm_compute. reflexivity.
Defined.

(** ** Reading values *)

Section Reads.
Context (ParseDuration : string -> option duration).

(** One read of an application's startup, and what it means for the error list. *)
Inductive read : Type :=
| RString (key fallback : string)
| RRequired (key : string)
| RInt (key : string) (fallback : Z)
| RBool (key : string) (fallback : bool)
| RDuration (key : string) (fallback : duration).

Definition do_read (r : Reader) (x : read) : Reader :=
  match x with
  | RString _ _ => r
  | RRequired k => snd (Required k r)
  | RInt k f => snd (Int k f r)
  | RBool k f => snd (Bool_ k f r)
  | RDuration k f => snd (Duration ParseDuration k f r)
  end.

(** Whether a read is satisfied by a value, or by its absence. *)
Definition satisfied (x : read) (v : option string) : bool :=
  match x, v with
  | RString _ _, _ => true
  | RRequired _, Some s => negb (bool_decide (TrimSpace s = EmptyString))
  | RRequired _, None => false
  | _, None | _, Some EmptyString => true
  | RInt _ _, Some s => bool_decide (is_Some (Atoi s))
  | RBool _ _, Some s => bool_decide (is_Some (ParseBool s))
  | RDuration _ _, Some s => bool_decide (is_Some (ParseDuration s))
  end.
Definition key_of (x : read) : string :=
  match x with RString k _ | RRequired k | RInt k _ | RBool k _ | RDuration k _ => k end.
Definition rule_of (x : read) : string :=
  match x with
  | RString _ _ => EmptyString | RRequired _ => "required" | RInt _ _ => "integer" | RBool _ _ => "boolean"
  | RDuration _ _ => "duration"
  end.
Definition complaint (vs : gmap string string) (x : read) : list FieldError :=
  if satisfied x (vs !! key_of x) then [] else [{| Key := key_of x; RuleName := rule_of x |}].

Lemma converted_read {A} (parse : string -> option A) rule k f r :
  snd (converted parse rule k f r) =
  {| values := values r;
     errors_ := errors_ r ++ if match values r !! k with
                                | None | Some EmptyString => true
                                | Some s => bool_decide (is_Some (parse s)) end
                             then [] else [{| Key := k; RuleName := rule |}] |}.
Proof.
  unfold converted. destruct (values r !! k) as [s|]; [|cbn; rewrite app_nil_r; by destruct r].
  destruct s as [|c s]; [cbn; rewrite app_nil_r; by destruct r|].
  rewrite bool_decide_eq_false_2 by done. destruct (parse (String c s)) eqn:Hp.
  - rewrite bool_decide_eq_true_2 by (by eexists). rewrite app_nil_r. by destruct r.
  - rewrite bool_decide_eq_false_2 by (by intros [? ?]). done.
Qed.

Lemma do_read_spec r x :
  do_read r x = {| values := values r; errors_ := errors_ r ++ complaint (values r) x |}.
Proof.
  unfold complaint. destruct x; cbn [do_read key_of rule_of].
  2:{ unfold Required. cbn. destruct (values r !! key); [|done]. destruct (bool_decide _); cbn; [done|].
      rewrite app_nil_r. by destruct r. }
  1: cbn; rewrite app_nil_r; by destruct r.
  all: unfold Int, Bool_, Duration; rewrite converted_read; cbn; do 2 f_equal;
    by destruct (values r !! key) as [[|? ?]|].
Qed.

Lemma reads_spec xs r :
  fold_left do_read xs r =
  {| values := values r; errors_ := errors_ r ++ concat (map (complaint (values r)) xs) |}.
Proof.
  revert r; induction xs as [|x xs IH]; intros r; cbn; [rewrite app_nil_r; by destruct r|].
  rewrite IH, do_read_spec. cbn. by rewrite app_assoc.
Qed.
End Reads.

(** Every configuration problem is reported, at once and without its value.  After any
    sequence of reads, [Err] is nil exactly when every read was satisfied; otherwise it has
    one line per read that was not, in order, with the key the application asked for and the
    rule.  Two configurations that satisfy the same reads give the same report, so no value
    that was supplied can appear in it. *)
Theorem problems_are_collected_without_values ParseDuration xs vs vs' :
  let report v := Err_ (fold_left (do_read ParseDuration) xs (FromMap v)) in
  (report vs = None <-> Forall (fun x => satisfied ParseDuration x (vs !! key_of x) = true) xs) /\
  (forall text, report vs = Some text ->
     text = Join (map FieldError_Error (concat (map (complaint ParseDuration vs) xs))) (String (chr 10) EmptyString)) /\
  (Forall (fun x => satisfied ParseDuration x (vs !! key_of x) = satisfied ParseDuration x (vs' !! key_of x)) xs ->
   report vs = report vs').
Proof.
  intros report. assert (forall v, report v = Err_ {| values := v; errors_ := concat (map (complaint ParseDuration v) xs) |}) as Hrep.
  { intros v. unfold report. rewrite reads_spec. done. }
  split_and!.
  - rewrite Hrep. unfold Err_. cbn.
    assert (concat (map (complaint ParseDuration vs) xs) = []
      <-> Forall (fun x => satisfied ParseDuration x (vs !! key_of x) = true) xs) as <-.
    { rewrite concat_nil_Forall, Forall_map. apply Forall_iff. intros x. unfold complaint. by destruct (satisfied _ x _). }
    by destruct (concat _).
  - intros text. rewrite Hrep. unfold Err_. cbn. destruct (concat _); [done|]. by intros [= <-].
  - intros Hsame. rewrite !Hrep. unfold Err_. cbn.
    assert (map (complaint ParseDuration vs) xs = map (complaint ParseDuration vs') xs) as ->; [|done].
    apply map_ext_Forall. eapply Forall_impl; [exact Hsame|]. intros x Hx. unfold complaint. by rewrite Hx.
Qed.

Lemma problems_are_collected_without_values_witness :
  Err_ (fold_left (do_read (fun _ => None)) [RRequired "APP_KEY"; RInt "PORT" 80] (FromMap {["PORT" := "s3cret"]}))
  = Some ("APP_KEY is required" +:+ String (chr 10) "PORT must be an integer") /\
  Err_ (fold_left (do_read (fun _ => None)) [RRequired "APP_KEY"; RInt "PORT" 80] (FromMap {["PORT" := "s3cret"]}))
  = Err_ (fold_left (do_read (fun _ => None)) [RRequired "APP_KEY"; RInt "PORT" 80] (FromMap {["PORT" := "other"]})).
Proof.
  destruct (problems_are_collected_without_values (fun _ => None) [RRequired "APP_KEY"; RInt "PORT" 80]
    {["PORT" := "s3cret"]} {["PORT" := "other"]}) as (_ & _ & Hs).
  split; [vm_compute; reflexivity|]. apply Hs. repeat constructor.
Defined.
