(* ===== verification/Mail.v ===== *)
(** * Mail messages ([mail/message.go])

    Validated messages and their RFC 5322 form, with the quoted-printable writer and the
    encoded words of Go's [mime] packages.  [net/mail] addresses (parsing and printing), the
    date format and SHA-256 are parameters. *)

From S2P Require Import Prelude GoStrings GoUtf8 GoEncoding GoUrl.
Local Open Scope go_scope.
Local Open Scope Z_scope.

Definition CR : ascii := chr 13.
Definition LF : ascii := chr 10.
Definition CRLF : string := String CR (String LF EmptyString).
Definition upperhex (c : ascii) : string :=
  String (hex_upper (ord c / 16)) (String (hex_upper (ord c mod 16)) EmptyString).

(** ** [mime/quotedprintable] *)

Definition lineMaxLen : Z := 76.
Definition isWhitespace (b : ascii) : bool := bool_decide (b = " "%char) || bool_decide (b = chr 9).
(** The bytes that are written as they are. *)
Definition plain_byte (b : ascii) : bool :=
  (inb 33 126 b && negb (bool_decide (b = "="%char))) || isWhitespace b ||
  bool_decide (b = LF) || bool_decide (b = CR).

(** The writer: what it has written, its line buffer, and whether the last byte was a CR. *)
Record qpWriter : Type := { qp_out : string; qp_line : string; qp_cr : bool }.
Definition qp_i (w : qpWriter) : Z := byte_len (qp_line w).
Definition qp_buffer (s : string) (w : qpWriter) : qpWriter :=
  {| qp_out := qp_out w; qp_line := qp_line w +:+ s; qp_cr := qp_cr w |}.
Definition qp_set_cr (b : bool) (w : qpWriter) : qpWriter :=
  {| qp_out := qp_out w; qp_line := qp_line w; qp_cr := b |}.
Definition qp_flush (w : qpWriter) : qpWriter :=
  {| qp_out := qp_out w +:+ qp_line w; qp_line := EmptyString; qp_cr := qp_cr w |}.
Definition insertCRLF (w : qpWriter) : qpWriter := qp_flush (qp_buffer CRLF w).
Definition insertSoftLineBreak (w : qpWriter) : qpWriter := insertCRLF (qp_buffer "=" w).

Definition qp_encode (b : ascii) (w : qpWriter) : qpWriter :=
  let w := if lineMaxLen - 1 - qp_i w <? 3 then insertSoftLineBreak w else w in
  qp_buffer (String "=" (upperhex b)) w.

Fixpoint split_last (s : string) : option (string * ascii) :=
  match s with
  | EmptyString => None
  | String c rest => match split_last rest with
                     | None => Some (EmptyString, c)
                     | Some (front, l) => Some (String c front, l)
                     end
  end.
Definition checkLastByte (w : qpWriter) : qpWriter :=
  match split_last (qp_line w) with
  | Some (front, b) =>
      if isWhitespace b
      then qp_encode b {| qp_out := qp_out w; qp_line := front; qp_cr := qp_cr w |} else w
  | None => w
  end.

Definition qp_write_byte (b : ascii) (w : qpWriter) : qpWriter :=
  if bool_decide (b = LF) || bool_decide (b = CR) then
    if qp_cr w && bool_decide (b = LF) then qp_set_cr false w
    else qp_set_cr (bool_decide (b = CR)) (insertCRLF (checkLastByte w))
  else
    let w := if qp_i w =? lineMaxLen - 1 then insertSoftLineBreak w else w in
    qp_set_cr false (qp_buffer (String b EmptyString) w).

(** [Write]: the batches of plain bytes are written byte by byte in between. *)
Fixpoint qp_Write (p : string) (w : qpWriter) : qpWriter :=
  match p with
  | EmptyString => w
  | String b rest => qp_Write rest (if plain_byte b then qp_write_byte b w else qp_encode b w)
  end.
Definition qp_Close (w : qpWriter) : qpWriter := qp_flush (checkLastByte w).
Definition quoted_printable (body : string) : string :=
  qp_out (qp_Close (qp_Write body {| qp_out := EmptyString; qp_line := EmptyString; qp_cr := false |})).

(** ** [mime.QEncoding] *)

Definition openWord : string := "=?UTF-8?q?".
Definition closeWord : string := "?=".
Definition maxContentLen : Z := 63.
Definition q_plain (b : ascii) : bool :=
  inb 33 126 b && negb (bool_decide (b = "="%char)) && negb (bool_decide (b = "?"%char)) &&
  negb (bool_decide (b = "_"%char)).
Fixpoint writeQString (s : string) : string :=
  match s with
  | EmptyString => EmptyString
  | String b rest =>
      (if bool_decide (b = " "%char) then "_"
       else if q_plain b then String b EmptyString else String "=" (upperhex b)) +:+ writeQString rest
  end.
(** The number of bytes of the rune at the start of a text. *)
Definition rune_len (s : string) : nat :=
  (String.length s - String.length (match s with
    | String a (String b rest) =>
        if inb 0 127 a then String b rest
        else if inb 194 223 a && cont b then rest
        else match rest with
             | String c rest3 =>
                 if second_of_3 a b && cont c then rest3
                 else match rest3 with
                      | String d rest4 => if second_of_4 a b && cont c && cont d then rest4 else String b rest
                      | EmptyString => String b rest
                      end
             | EmptyString => String b rest
             end
    | _ => EmptyString
    end))%nat.
Fixpoint qEncode (fuel : nat) (s : string) (currentLen : Z) : string :=
  match fuel, s with
  | S n, String b _ =>
      let single := bool_decide (b = " "%char) || q_plain b in
      let runeLen := if single then 1%nat else rune_len s in
      let encLen := if single then 1 else 3 * Z.of_nat runeLen in
      let split := currentLen + encLen >? maxContentLen in
      (if split then closeWord +:+ " " +:+ openWord else EmptyString) +:+
      writeQString (take_string runeLen s) +:+
      qEncode n (drop_string runeLen s) ((if split then 0 else currentLen) + encLen)
  | _, _ => EmptyString
  end.
Definition needsEncoding (s : string) : bool :=
  existsb (fun r => ((r <? 32) || (r >? 126)) && negb (r =? 9)) (runes s).
Definition QEncode (s : string) : string :=
  if needsEncoding s then openWord +:+ qEncode (String.length s) s 0 +:+ closeWord else s.

(** ** Messages *)

Record Address : Type := { Name : string; Address_ : string }.

Definition MaximumRecipients : Z := 100.
Definition MaximumHeaderBytes : Z := 998.
Definition MaximumBodyBytes : Z := 4194304.
Definition ErrInvalidMessage : error := Sentinel "mail: invalid message".

Record MessageOptions : Type := {
  o_From : Address; o_To : list Address; o_ReplyTo : option Address; o_Subject : string;
  o_Text : string; o_HTML : string; o_Date : time
}.
(** [ReplyTo] is the pair of [replyTo] and [hasReply]. *)
Record Message : Type := {
  from : Address; to_ : list Address; replyTo : option Address; subject : string;
  text : string; html : string; date : time; valid : bool
}.

(** [MessageError]: it wraps [ErrInvalidMessage] and names the field. *)
Definition invalid (field : string) : error := Wrapf ("mail: invalid message field " +:+ field) ErrInvalidMessage.

Definition validHeaderValue (value : string) : bool :=
  ValidString value && forallb (fun r => negb ((r <? 32) || (r =? 127))) (runes value).
Definition validBody (value : string) : bool :=
  ValidString value && negb (bool_decide (0 ∈ runes value)).

Section Mail.
Context (ParseAddress : string -> option Address) (address_String : Address -> string).
Context (format_date : time -> string) (sha256_hex : string -> string).

Definition validateAddress (field : string) (a : Address) : result unit :=
  if bool_decide (Address_ a = EmptyString) || negb (validHeaderValue (Address_ a)) || negb (validHeaderValue (Name a))
  then Err (invalid field)
  else match ParseAddress (Address_ a) with
  | None => Err (invalid field)
  | Some parsed =>
      if negb (bool_decide (Address_ parsed = Address_ a)) || negb (bool_decide (Name parsed = EmptyString))
      then Err (invalid field)
      else if existsb (fun r => r >? 126) (runes (Address_ a)) then Err (invalid field) else Ok tt
  end.
Fixpoint validate_all (field : string) (l : list Address) : result unit :=
  match l with
  | [] => Ok tt
  | a :: rest => try _ := validateAddress field a in validate_all field rest
  end.

Definition encodeSubject (s : string) : string :=
  if existsb (fun r => (r <? 32) || (r >? 126)) (runes s) then QEncode s else s.
Definition to_header (m : Message) : string := Join (map address_String (to_ m)) ", ".

Definition validateRenderedHeaders (m : Message) : result unit :=
  if 6 + byte_len (address_String (from m)) >? MaximumHeaderBytes then Err (invalid "from")
  else if 4 + byte_len (to_header m) >? MaximumHeaderBytes then Err (invalid "to")
  else if match replyTo m with
          | Some a => 10 + byte_len (address_String a) >? MaximumHeaderBytes
          | None => false
          end then Err (invalid "reply-to")
  else if 9 + byte_len (encodeSubject (subject m)) >? MaximumHeaderBytes then Err (invalid "subject")
  else Ok tt.

Definition NewMessage (o : MessageOptions) (now : time) : result Message :=
  try _ := validateAddress "from" (o_From o) in
  if bool_decide (o_To o = []) || (Z.of_nat (length (o_To o)) >? MaximumRecipients) then Err (invalid "to")
  else
  try _ := validate_all "to" (o_To o) in
  try _ := (match o_ReplyTo o with Some a => validateAddress "reply-to" a | None => Ok tt end) in
  if bool_decide (o_Subject o = EmptyString) || negb (validHeaderValue (o_Subject o)) then Err (invalid "subject")
  else if negb (validBody (o_Text o)) || negb (validBody (o_HTML o)) ||
          (byte_len (o_Text o) >? MaximumBodyBytes - byte_len (o_HTML o))
  then Err (invalid "body")
  else if bool_decide (o_Text o = EmptyString) && bool_decide (o_HTML o = EmptyString) then Err (invalid "body")
  else
    let m := {| from := o_From o; to_ := o_To o; replyTo := o_ReplyTo o; subject := o_Subject o;
                text := o_Text o; html := o_HTML o;
                date := if o_Date o =? 0 then now else o_Date o; valid := true |} in
    try _ := validateRenderedHeaders m in Ok m.

(** ** RFC 5322 *)

Fixpoint ReplaceAll (fuel : nat) (s old new : string) : string :=
  match fuel, s with
  | S n, String c rest =>
      if HasPrefix s old then new +:+ ReplaceAll n (drop_string (String.length old) s) old new
      else String c (ReplaceAll n rest old new)
  | _, _ => EmptyString
  end.
Definition replace (s old new : string) : string := ReplaceAll (String.length s) s old new.
Definition cr_s : string := String CR EmptyString.
Definition lf_s : string := String LF EmptyString.
Definition normalizeCRLF (value : string) : string :=
  replace (replace (replace value CRLF lf_s) cr_s lf_s) lf_s CRLF.

Definition writeHeader (name value : string) : string := name +:+ ": " +:+ value +:+ CRLF.
Definition writeQuotedPrintable (body : string) : string :=
  quoted_printable (normalizeCRLF body) +:+
  (if HasSuffix (normalizeCRLF body) CRLF then EmptyString else CRLF).
Definition writePart (boundary contentType body : string) : string :=
  "--" +:+ boundary +:+ CRLF +:+ writeHeader "Content-Type" contentType +:+
  writeHeader "Content-Transfer-Encoding" "quoted-printable" +:+ CRLF +:+ writeQuotedPrintable body.

Definition nul : string := String (chr 0) EmptyString.
Definition boundary (m : Message) : string :=
  "goforge-" +:+ take_string 36 (sha256_hex (Address_ (from m) +:+
    foldr (fun r s => nul +:+ Address_ r +:+ s) EmptyString (to_ m) +:+
    nul +:+ subject m +:+ nul +:+ text m +:+ nul +:+ html m)).

(** The headers in front of the content type. *)
Definition message_headers (m : Message) : list (string * string) :=
  [("Date", format_date (date m)); ("From", address_String (from m)); ("To", to_header m)] ++
  match replyTo m with Some a => [("Reply-To", address_String a)] | None => [] end ++
  [("Subject", encodeSubject (subject m)); ("MIME-Version", "1.0")].
Definition write_headers (hs : list (string * string)) : string :=
  foldr (fun h s => writeHeader (fst h) (snd h) +:+ s) EmptyString hs.

(** The content headers and the body.  [mime.FormatMediaType] writes the boundary, which is a
    token, as it is. *)
Definition content (m : Message) : option (list (string * string) * string) :=
  let single t body := Some ([("Content-Type", t); ("Content-Transfer-Encoding", "quoted-printable")],
                             writeQuotedPrintable body) in
  if negb (bool_decide (text m = EmptyString)) && negb (bool_decide (html m = EmptyString)) then
    Some ([("Content-Type", "multipart/alternative; boundary=" +:+ boundary m)],
     writePart (boundary m) "text/plain; charset=UTF-8" (text m) +:+
     writePart (boundary m) "text/html; charset=UTF-8" (html m) +:+
     "--" +:+ boundary m +:+ "--" +:+ CRLF)
  else if negb (bool_decide (text m = EmptyString)) then single "text/plain; charset=UTF-8" (text m)
  else if negb (bool_decide (html m = EmptyString)) then single "text/html; charset=UTF-8" (html m)
  else None.

(** [WriteRFC5322]: the bytes of its one write. *)
Definition WriteRFC5322 (m : Message) : result string :=
  if negb (valid m) then Err ErrInvalidMessage
  else match content m with
  | Some (hs, body) => Ok (write_headers (message_headers m ++ hs) +:+ CRLF +:+ body)
  | None => Ok (write_headers (message_headers m))
  end.
End Mail.
