(* ===== verification/MailProps.v ===== *)
(** Mail: bodies survive their encoding, headers cannot be injected. *)

From S2P Require Import Prelude GoStrings GoUtf8 GoEncoding GoUrl Mail.
Local Open Scope go_scope.
Local Open Scope Z_scope.

(** ** Quoted-printable, decoded *)

(** RFC 2045: an equal sign and two hexadecimal digits are a byte, an equal sign at the end of
    a line joins it with the next. *)
Fixpoint qp_decode (s : string) : option string :=
  match s with
  | EmptyString => Some EmptyString
  | String a rest =>
      if bool_decide (a = "="%char) then
        match rest with
        | String b (String c rest') =>
            if bool_decide (b = CR) && bool_decide (c = LF) then qp_decode rest'
            else match hex_value b, hex_value c with
                 | Some h, Some l => option_map (String (chr (Z.to_nat (16 * h + l)))) (qp_decode rest')
                 | _, _ => None
                 end
        | _ => None
        end
      else option_map (String a) (qp_decode rest)
  end.

(** What the writer puts in a line. *)
Inductive tok : Type := TLit (c : ascii) | THex (c : ascii) | TSoft.
Definition tok_text (t : tok) : string :=
  match t with
  | TLit c => String c EmptyString | THex c => String "=" (upperhex c) | TSoft => String "=" CRLF
  end.
Definition tok_byte (t : tok) : string :=
  match t with TLit c | THex c => String c EmptyString | TSoft => EmptyString end.
Definition text_of (f : tok -> string) (ts : list tok) : string := foldr (fun t s => f t +:+ s) EmptyString ts.
Definition tok_ok (t : tok) : bool := match t with TLit c => negb (bool_decide (c = "="%char)) | _ => true end.

Lemma text_of_app f a b : text_of f (a ++ b) = text_of f a +:+ text_of f b.
Proof.
  induction a as [|t a IH]; [done|]. change (f t +:+ text_of f (a ++ b) = (f t +:+ text_of f a) +:+ text_of f b).
  by rewrite IH, string_app_assoc.
Qed.

Lemma qp_decode_hex c s :
  qp_decode (String "=" (upperhex c) +:+ s) = option_map (String c) (qp_decode s).
Proof.
  destruct (escape_char c) as (H1 & H2 & H3).
  change (String "=" (upperhex c) +:+ s) with
    (String "=" (String (hex_upper (ord c / 16)) (String (hex_upper (ord c mod 16)) s))).
  cbn [qp_decode]. rewrite bool_decide_eq_true_2 by done. unfold ord in *. rewrite H1, H2, H3.
  rewrite bool_decide_eq_false_2; [done|]. intros Hcr. rewrite Hcr in H1. done.
Qed.

Lemma qp_decode_tokens ts :
  forallb tok_ok ts = true -> qp_decode (text_of tok_text ts) = Some (text_of tok_byte ts).
Proof.
  induction ts as [|t ts IH]; [done|]. cbn [forallb text_of foldr]. intros [Ht Hts]%andb_true_iff.
  specialize (IH Hts). fold (text_of tok_text ts). fold (text_of tok_byte ts). destruct t as [c|c|]; cbn [tok_text tok_byte tok_ok] in *.
  - change (String c EmptyString +:+ text_of tok_text ts) with (String c (text_of tok_text ts)). cbn [qp_decode].
    apply negb_true_iff in Ht. rewrite Ht, IH. done.
  - by rewrite qp_decode_hex, IH.
  - exact IH.
Qed.

(** ** The writer's invariant *)

Definition no_break (c : ascii) : bool := negb (bool_decide (c = CR)) && negb (bool_decide (c = LF)).
Definition unlines (ls : list string) : string := foldr (fun l s => l +:+ CRLF +:+ s) EmptyString ls.
Definition in_line (t : tok) : bool :=
  match t with TLit c => negb (bool_decide (c = "="%char)) && no_break c | THex _ => true | TSoft => false end.

Lemma unlines_app a b : unlines (a ++ b) = unlines a +:+ unlines b.
Proof.
  induction a as [|l a IH]; [done|].
  change (l +:+ CRLF +:+ unlines (a ++ b) = (l +:+ CRLF +:+ unlines a) +:+ unlines b).
  by rewrite IH, !string_app_assoc.
Qed.

(** The output is complete lines of at most 76 characters, the buffer is shorter, and both
    together read back as the input so far. *)
Inductive written (w : qpWriter) (input : string) : Prop :=
| Written ls dn cur :
    qp_out w = unlines ls -> qp_out w = text_of tok_text dn -> qp_line w = text_of tok_text cur ->
    forallb tok_ok dn = true -> forallb in_line cur = true ->
    text_of tok_byte (dn ++ cur) = input -> byte_len (qp_line w) <= 75 ->
    Forall (fun l => byte_len l <= 76 /\ all_chars no_break l = true) ls -> written w input.

Lemma in_line_ok ts : forallb in_line ts = true -> forallb tok_ok ts = true.
Proof.
  induction ts as [|t ts IH]; [done|]. cbn. intros [Ht Hts]%andb_true_iff. rewrite (IH Hts), andb_true_r.
  destruct t; [|done|done]. cbn in *. by apply andb_true_iff in Ht as [? _].
Qed.

Lemma hex_no_break c : all_chars no_break (String "=" (upperhex c)) = true.
Proof. destruct c as [[] [] [] [] [] [] [] []]; vm_compute; done. Qed.

Lemma in_line_no_break ts : forallb in_line ts = true -> all_chars no_break (text_of tok_text ts) = true.
Proof.
  induction ts as [|t ts IH]; [done|]. intros [Ht Hts]%andb_true_iff.
  change (all_chars no_break (tok_text t +:+ text_of tok_text ts) = true).
  rewrite all_chars_app, (IH Hts), andb_true_r. destruct t as [c|c|]; [|apply hex_no_break|done].
  cbn in *. apply andb_true_iff in Ht as [_ Ht]. by rewrite Ht.
Qed.

Lemma byte_len_app a b : byte_len (a +:+ b) = byte_len a + byte_len b.
Proof. unfold byte_len. rewrite string_length_app. lia. Qed.

Lemma written_hex w input b : written w input -> qp_i w <= 72 ->
  written (qp_buffer (String "=" (upperhex b)) w) (input +:+ String b EmptyString).
Proof.
  intros [ls dn cur Ho Hd Hl Hok Hin Hp Hs Hls] Hi. apply (Written _ _ ls dn (cur ++ [THex b])); try done.
  - cbn. rewrite Hl, text_of_app. done.
  - by rewrite forallb_app, Hin.
  - rewrite app_assoc, text_of_app, Hp. done.
  - unfold qp_i in Hi. cbn [qp_line qp_buffer]. rewrite byte_len_app. change (byte_len (String "=" (upperhex b))) with 3. lia.
Qed.

Lemma written_lit w input c : written w input -> qp_i w <= 74 -> in_line (TLit c) = true ->
  written (qp_set_cr false (qp_buffer (String c EmptyString) w)) (input +:+ String c EmptyString).
Proof.
  intros [ls dn cur Ho Hd Hl Hok Hin Hp Hs Hls] Hi Hc. apply (Written _ _ ls dn (cur ++ [TLit c])); try done.
  - cbn. rewrite Hl, text_of_app. done.
  - rewrite forallb_app, Hin. cbn [forallb]. by rewrite Hc.
  - rewrite app_assoc, text_of_app, Hp. done.
  - unfold qp_i in Hi. cbn [qp_line qp_buffer qp_set_cr]. rewrite byte_len_app. change (byte_len (String c EmptyString)) with 1. lia.
Qed.

Lemma written_flush w input e t :
  written w input -> t = [TSoft] /\ e = "=" \/ t = [TLit CR; TLit LF] /\ e = EmptyString ->
  written (insertCRLF (qp_buffer e w)) (input +:+ text_of tok_byte t) /\ qp_line (insertCRLF (qp_buffer e w)) = EmptyString.
Proof.
  intros [ls dn cur Ho Hd Hl Hok Hin Hp Hs Hls] He. split; [|done].
  assert (e +:+ CRLF = text_of tok_text t) as Ht by (destruct He as [[-> ->]|[-> ->]]; done).
  apply (Written _ _ (ls ++ [qp_line w +:+ e]) (dn ++ cur ++ t) []); try done; cbn.
  - rewrite unlines_app, Ho. cbn. by rewrite string_app_nil_r, !string_app_assoc.
  - by rewrite !text_of_app, <- Ht, Hd, Hl, !string_app_assoc.
  - rewrite !forallb_app, Hok, (in_line_ok _ Hin). destruct He as [[-> _]|[-> _]]; done.
  - rewrite app_nil_r, app_assoc, text_of_app, Hp. done.
  - apply Forall_app. split; [done|]. repeat constructor.
    + rewrite byte_len_app. destruct He as [[_ ->]|[_ ->]]; unfold byte_len at 2; cbn; lia.
    + rewrite all_chars_app, Hl, (in_line_no_break _ Hin). by destruct He as [[_ ->]|[_ ->]].
Qed.

Lemma written_soft w input :
  written w input -> written (insertSoftLineBreak w) input /\ qp_line (insertSoftLineBreak w) = EmptyString.
Proof.
  intros Hw. destruct (written_flush w input "=" [TSoft] Hw) as [H1 H2]; [by left|].
  cbn in H1. rewrite string_app_nil_r in H1. done.
Qed.

Lemma written_encode w input b : written w input -> written (qp_encode b w) (input +:+ String b EmptyString).
Proof.
  intros Hw. unfold qp_encode. destruct (Z.ltb_spec (lineMaxLen - 1 - qp_i w) 3) as [Hlt|Hge].
  - destruct (written_soft w input Hw) as [Hs Hl]. apply written_hex; [done|]. unfold qp_i. rewrite Hl. by vm_compute.
  - apply written_hex; [done|]. unfold lineMaxLen in Hge. lia.
Qed.

Lemma split_last_app s : split_last s = None /\ s = EmptyString \/
  exists front c, split_last s = Some (front, c) /\ s = front +:+ String c EmptyString.
Proof.
  induction s as [|x s IH]; [by left|]. right. cbn. destruct IH as [[-> ->]|(front & c & -> & ->)].
  - by exists EmptyString, x.
  - by exists (String x front), c.
Qed.

Lemma string_snoc_inj a b x y : a +:+ String x EmptyString = b +:+ String y EmptyString -> a = b /\ x = y.
Proof.
  revert b; induction a as [|c a IH]; intros [|d b]; rewrite ?string_app_nil_l, ?string_app_cons; intros Heq.
  - by injection Heq.
  - injection Heq as _ Heq. by destruct b.
  - injection Heq as _ Heq. by destruct a.
  - injection Heq as -> Heq. by destruct (IH b Heq) as [-> ->].
Qed.

Lemma hex_not_space c front l :
  String "=" (upperhex c) = front +:+ String l EmptyString -> isWhitespace l = false.
Proof.
  intros Heq. assert (l = hex_upper (ord c mod 16)) as ->.
  { change (String "=" (upperhex c)) with
      (String "=" (String (hex_upper (ord c / 16)) EmptyString) +:+ String (hex_upper (ord c mod 16)) EmptyString) in Heq.
    by destruct (string_snoc_inj _ _ _ _ Heq). }
  clear. destruct c as [[] [] [] [] [] [] [] []]; vm_compute; done.
Qed.

Lemma written_check w input : written w input -> written (checkLastByte w) input.
Proof.
  intros Hw. unfold checkLastByte. destruct (split_last_app (qp_line w)) as [[-> _]|(front & c & -> & Hline)]; [done|].
  destruct (isWhitespace c) eqn:Hc; [|done]. destruct Hw as [ls dn cur Ho Hd Hl Hok Hin Hp Hs Hls].
  destruct cur as [|t cur _] using rev_ind; [rewrite Hl in Hline; by destruct front|].
  rewrite text_of_app in Hl. rewrite forallb_app in Hin. apply andb_true_iff in Hin as [Hin Ht].
  destruct t as [x|x|]; [| |done].
  - assert (front = text_of tok_text cur /\ c = x) as [-> ->].
    { apply string_snoc_inj. rewrite <- Hline, Hl. done. }
    rewrite app_assoc, text_of_app in Hp. rewrite <- Hp.
    change (text_of tok_byte [TLit x]) with (String x EmptyString). apply written_encode.
    apply (Written _ _ ls dn cur); try done. cbn. rewrite Hl, byte_len_app in Hs.
    assert (0 <= byte_len (text_of tok_text [TLit x])) by (unfold byte_len; lia). lia.
  - exfalso. rewrite Hl in Hline. change (text_of tok_text [THex x]) with (String "=" (upperhex x)) in Hline.
    change (String "=" (upperhex x)) with
      (String "=" (String (hex_upper (ord x / 16)) EmptyString) +:+ String (hex_upper (ord x mod 16)) EmptyString) in Hline.
    rewrite string_app_assoc in Hline. apply string_snoc_inj in Hline as [_ <-].
    rewrite (hex_not_space x (String "=" (String (hex_upper (ord x / 16)) EmptyString)) _ eq_refl) in Hc. done.
Qed.

Lemma written_char w input c :
  written w input -> no_break c = true ->
  written (if plain_byte c then qp_write_byte c w else qp_encode c w) (input +:+ String c EmptyString).
Proof.
  intros Hw Hc. destruct (plain_byte c) eqn:Hp; [|by apply written_encode].
  unfold no_break in Hc. apply andb_true_iff in Hc as [Hcr Hlf]. apply negb_true_iff in Hcr, Hlf.
  assert (in_line (TLit c) = true) as Hin.
  { unfold plain_byte in Hp. rewrite Hcr, Hlf, !orb_false_r in Hp. cbn. unfold no_break. rewrite Hcr, Hlf, andb_true_r.
    case_bool_decide; [|done]. by subst c. }
  unfold qp_write_byte. rewrite Hcr, Hlf. cbn [orb].
  destruct (Z.eqb_spec (qp_i w) (lineMaxLen - 1)) as [He|He].
  - destruct (written_soft w input Hw) as [Hs Hl]. apply written_lit; [done| |done]. unfold qp_i. rewrite Hl. by vm_compute.
  - apply written_lit; [done| |done]. destruct Hw. unfold qp_i, lineMaxLen in *. lia.
Qed.

Lemma written_crlf w input :
  written w input -> written (qp_write_byte LF (qp_write_byte CR w)) (input +:+ CRLF).
Proof.
  intros Hw. destruct (written_flush (checkLastByte w) input EmptyString [TLit CR; TLit LF]) as [H1 _].
  { by apply written_check. }
  { by right. }
  assert (qp_buffer EmptyString (checkLastByte w) = checkLastByte w) as Hb.
  { unfold qp_buffer. rewrite string_app_nil_r. by destruct (checkLastByte w). }
  assert (qp_write_byte CR w = qp_set_cr true (insertCRLF (checkLastByte w))) as ->.
  { unfold qp_write_byte. rewrite (bool_decide_eq_false_2 (CR = LF)) by done. by rewrite andb_false_r. }
  change (qp_write_byte LF ?x) with (qp_set_cr false x).
  rewrite Hb in H1. destruct H1 as [ls dn cur]. by apply (Written _ _ ls dn cur).
Qed.

(** ** Texts with CRLF line ends *)

Inductive crlf_text : string -> Prop :=
| crlf_nil : crlf_text EmptyString
| crlf_break s : crlf_text s -> crlf_text (String CR (String LF s))
| crlf_char c s : no_break c = true -> crlf_text s -> crlf_text (String c s).

Lemma written_text p : crlf_text p -> forall w input, written w input -> written (qp_Write p w) (input +:+ p).
Proof.
  induction 1 as [|p _ IH|c p Hc _ IH]; intros w input Hw.
  - by rewrite string_app_nil_r.
  - change (qp_Write (String CR (String LF p)) w) with (qp_Write p (qp_write_byte LF (qp_write_byte CR w))).
    change (String CR (String LF p)) with (CRLF +:+ p). rewrite string_app_assoc. by apply IH, written_crlf.
  - cbn [qp_Write]. change (String c p) with (String c EmptyString +:+ p). rewrite string_app_assoc.
    by apply IH, written_char.
Qed.

Lemma quoted_printable_spec p :
  crlf_text p -> exists ls rest ts, quoted_printable p = unlines ls +:+ rest /\
    quoted_printable p = text_of tok_text ts /\ forallb tok_ok ts = true /\ text_of tok_byte ts = p /\
    Forall (fun l => byte_len l <= 76 /\ all_chars no_break l = true) (ls ++ [rest]).
Proof.
  intros Hp. unfold quoted_printable, qp_Close, qp_flush. cbn [qp_out].
  assert (written {| qp_out := EmptyString; qp_line := EmptyString; qp_cr := false |} EmptyString) as H0
    by (by apply (Written _ _ [] [] [])).
  pose proof (written_check _ _ (written_text p Hp _ _ H0)) as [ls dn cur Ho Hd Hl Hok Hin Hi Hs Hls].
  rewrite string_app_nil_l in Hi. set (w := checkLastByte _) in *.
  exists ls, (qp_line w), (dn ++ cur). rewrite Ho at 1. split_and!; try done.
  - by rewrite Hd, Hl, <- text_of_app.
  - by rewrite forallb_app, Hok, (in_line_ok _ Hin).
  - apply Forall_app. split; [done|]. repeat constructor; [lia|]. rewrite Hl. by apply in_line_no_break.
Qed.

Definition no_cr (c : ascii) : bool := negb (bool_decide (c = CR)).

Lemma HasPrefix_one c s x : HasPrefix (String c s) (String x EmptyString) = bool_decide (c = x).
Proof. cbn. destruct s; by rewrite andb_true_r. Qed.

Lemma drop_one c s : drop_string 1 (String c s) = s.
Proof. by destruct s. Qed.

Lemma replace_cr_gone n s : all_chars no_cr (ReplaceAll n s cr_s lf_s) = true.
Proof.
  revert s; induction n as [|n IH]; intros [|c s]; try done. cbn [ReplaceAll]. unfold cr_s at 1. rewrite HasPrefix_one.
  case_bool_decide as Hc; [change (all_chars no_cr (ReplaceAll n (drop_string 1 (String c s)) cr_s lf_s) = true); apply IH|].
  cbn. rewrite IH, andb_true_r. unfold no_cr. by rewrite bool_decide_eq_false_2.
Qed.

Lemma replace_lf_crlf n s : all_chars no_cr s = true -> crlf_text (ReplaceAll n s lf_s CRLF).
Proof.
  revert s; induction n as [|n IH]; intros [|c s]; try by constructor. cbn [ReplaceAll all_chars]. intros [Hc Hs]%andb_true_iff.
  unfold lf_s at 1. rewrite HasPrefix_one. case_bool_decide as Hl.
  - change (String.length lf_s) with 1%nat. rewrite drop_one.
    change (CRLF +:+ ?x) with (String CR (String LF x)). by constructor; apply IH.
  - constructor; [|by apply IH]. unfold no_break. unfold no_cr in Hc. rewrite Hc. by rewrite bool_decide_eq_false_2.
Qed.

Lemma normalizeCRLF_crlf body : crlf_text (normalizeCRLF body).
Proof. apply replace_lf_crlf, replace_cr_gone. Qed.

Lemma replace_cr_none n u : all_chars no_cr u = true -> (String.length u <= n)%nat -> ReplaceAll n u cr_s lf_s = u.
Proof.
  revert u; induction n as [|n IH]; intros [|c u]; try done; [cbn; lia|]. cbn [ReplaceAll all_chars String.length].
  intros [Hc Hu]%andb_true_iff Hn. unfold cr_s at 1. rewrite HasPrefix_one. unfold no_cr in Hc.
  apply negb_true_iff in Hc. rewrite Hc, IH; [done|done|lia].
Qed.

Lemma crlf_unix s : crlf_text s -> exists u, all_chars no_cr u = true /\ (String.length u <= String.length s)%nat /\
  (forall n, (String.length s <= n)%nat -> ReplaceAll n s CRLF lf_s = u) /\
  (forall n, (String.length u <= n)%nat -> ReplaceAll n u lf_s CRLF = s).
Proof.
  induction 1 as [|s _ (u & Hu & Hl & H1 & H2)|c s Hc _ (u & Hu & Hl & H1 & H2)].
  - exists EmptyString. split_and!; try done; by intros [|n].
  - exists (String LF u). split_and!; [done|cbn; lia| |].
    + intros [|n]; cbn [String.length]; [lia|]. intros Hn. cbn [ReplaceAll].
      assert (HasPrefix (String CR (String LF s)) CRLF = true) as -> by (by destruct s).
      change (drop_string (String.length CRLF) (String CR (String LF s))) with (drop_string 0 s).
      assert (drop_string 0 s = s) as -> by (by destruct s). rewrite H1 by lia. done.
    + intros [|n]; cbn [String.length]; [lia|]. intros Hn. cbn [ReplaceAll]. unfold lf_s at 1. rewrite HasPrefix_one.
      rewrite bool_decide_eq_true_2 by done. change (String.length lf_s) with 1%nat. rewrite drop_one, H2 by lia. done.
  - unfold no_break in Hc. apply andb_true_iff in Hc as [Hcr Hlf]. apply negb_true_iff in Hcr, Hlf.
    exists (String c u). split_and!; [cbn; unfold no_cr at 1; by rewrite Hcr|cbn; lia| |].
    + intros [|n]; cbn [String.length]; [lia|]. intros Hn. cbn [ReplaceAll].
      assert (HasPrefix (String c s) CRLF = false) as -> by (cbn; by rewrite Hcr). by rewrite H1 by lia.
    + intros [|n]; cbn [String.length]; [lia|]. intros Hn. cbn [ReplaceAll]. unfold lf_s at 1. rewrite HasPrefix_one, Hlf.
      by rewrite H2 by lia.
Qed.

Lemma normalizeCRLF_id s : crlf_text s -> normalizeCRLF s = s.
Proof.
  intros (u & Hu & Hl & H1 & H2)%crlf_unix. unfold normalizeCRLF, replace.
  rewrite (H1 (String.length s)) by lia. rewrite replace_cr_none by (done || lia). apply H2. lia.
Qed.

(** C34. A body survives its encoding.  What [writeQuotedPrintable] writes for any text is
    decoded to exactly that text with CRLF line ends, closed by one when it did not end with
    one; a text that has CRLF line ends already is unchanged.  Every line of the output has
    at most 76 characters and no stray CR or LF. *)
Theorem bodies_survive_the_encoding body :
  qp_decode (writeQuotedPrintable body)
    = Some (normalizeCRLF body +:+ (if HasSuffix (normalizeCRLF body) CRLF then EmptyString else CRLF)) /\
  (crlf_text body -> normalizeCRLF body = body) /\
  exists ls rest, writeQuotedPrintable body = unlines ls +:+ rest /\
    Forall (fun l => byte_len l <= 76 /\ all_chars no_break l = true) (ls ++ [rest]).
Proof.
  destruct (quoted_printable_spec _ (normalizeCRLF_crlf body)) as (ls & rest & ts & H1 & H2 & H3 & H4 & H5).
  unfold writeQuotedPrintable. split_and!; [| apply normalizeCRLF_id|].
  - rewrite H2, <- H4. destruct (HasSuffix (text_of tok_byte ts) CRLF).
    + rewrite !string_app_nil_r. by apply qp_decode_tokens.
    + change CRLF with (text_of tok_text [TLit CR; TLit LF]) at 1.
      change CRLF with (text_of tok_byte [TLit CR; TLit LF]). rewrite <- !text_of_app. apply qp_decode_tokens.
      by rewrite forallb_app, H3.
  - rewrite H1. destruct (HasSuffix _ CRLF).
    + exists ls, rest. by rewrite string_app_nil_r.
    + exists (ls ++ [rest]), EmptyString. rewrite unlines_app. change (unlines [rest]) with (rest +:+ CRLF +:+ EmptyString).
      split; [by rewrite !string_app_nil_r, string_app_assoc|].
      apply Forall_app. split; [done|]. by repeat constructor.
Qed.

Lemma bodies_survive_the_encoding_witness :
  writeQuotedPrintable (String (chr 195) (String (chr 169) (" = 1 " +:+ String LF "next")))
    = "=C3=A9 =3D 1=20" +:+ CRLF +:+ "next" +:+ CRLF /\
  normalizeCRLF ("a" +:+ CRLF) = "a" +:+ CRLF.
Proof.
  split; [vm_compute; reflexivity|]. apply bodies_survive_the_encoding.
  apply crlf_char; [reflexivity|]. apply crlf_break, crlf_nil.
Defined.

(** ** Reading a header block *)

Fixpoint cut_line (s : string) : option (string * string) :=
  match s with
  | String c ((String d rest') as rest) =>
      if bool_decide (c = CR) && bool_decide (d = LF) then Some (EmptyString, rest')
      else match cut_line rest with Some (l, r) => Some (String c l, r) | None => None end
  | _ => None
  end.
Fixpoint read_headers (fuel : nat) (s : string) : option (list (string * string) * string) :=
  match fuel with
  | O => None
  | S n =>
      match cut_line s with
      | None => None
      | Some (EmptyString, rest) => Some ([], rest)
      | Some (line, rest) =>
          match Cut line ":"%char with
          | (name, String " " value, true) =>
              match read_headers n rest with Some (hs, body) => Some ((name, value) :: hs, body) | None => None end
          | _ => None
          end
      end
  end.

Definition header_ok (h : string * string) : Prop :=
  fst h <> EmptyString /\ all_chars no_break (fst h) = true /\ all_chars no_break (snd h) = true /\
  all_chars (fun c => negb (bool_decide (c = ":"%char))) (fst h) = true.

Definition name_ok (n : string) : bool :=
  negb (bool_decide (n = EmptyString)) && all_chars no_break n && all_chars (fun c => negb (bool_decide (c = ":"%char))) n.
Lemma header_ok_value n v : name_ok n = true -> all_chars no_break v = true -> header_ok (n, v).
Proof.
  unfold name_ok. rewrite !andb_true_iff. intros [[Hn Hb] Hc] Hv. apply negb_true_iff, bool_decide_eq_false in Hn. done.
Qed.

Lemma cut_line_app a s : all_chars no_break a = true -> cut_line (a +:+ CRLF +:+ s) = Some (a, s).
Proof.
  induction a as [|c a IH]; [done|]. cbn [all_chars]. intros [Hc Ha]%andb_true_iff. rewrite string_app_cons.
  specialize (IH Ha). cbn [cut_line]. destruct (a +:+ CRLF +:+ s) as [|d r] eqn:E0; [by destruct a|].
  unfold no_break in Hc. apply andb_true_iff in Hc as [Hc _]. apply negb_true_iff in Hc. rewrite Hc. cbn [andb]. by rewrite IH.
Qed.

Lemma read_written_headers hs body fuel :
  Forall header_ok hs -> (length hs < fuel)%nat -> read_headers fuel (write_headers hs +:+ CRLF +:+ body) = Some (hs, body).
Proof.
  intros Hall. revert fuel; induction Hall as [|[n v] hs (Hne & Hn & Hv & Hc) Hall IH]; intros [|fuel] Hf; cbn in Hf; try lia;
    [done|]. cbn [fst snd] in *.
  change (write_headers ((n, v) :: hs)) with (writeHeader n v +:+ write_headers hs). unfold writeHeader.
  assert (((n +:+ ": " +:+ v +:+ CRLF) +:+ write_headers hs) +:+ CRLF +:+ body
    = (n +:+ String ":" (String " " v)) +:+ CRLF +:+ (write_headers hs +:+ CRLF +:+ body)) as ->.
  { change (String ":" (String " " v)) with (": " +:+ v). by rewrite <- !string_app_assoc. }
  cbn [read_headers]. rewrite cut_line_app.
  - rewrite Cut_app by done. rewrite IH by lia.
    destruct (n +:+ String ":" (String " " v)) eqn:E0; [by destruct n|]. done.
  - by rewrite all_chars_app, Hn; cbn.
Qed.

(** ** Values that cannot break a line *)

Lemma runes_ascii_bytes (p : Z -> bool) s :
  forallb p (runes s) = true -> all_chars (fun c => negb (inb 0 127 c) || p (ord c)) s = true.
Proof.
  remember (String.length s) as n eqn:Hn. revert s Hn. induction (lt_wf n) as [n _ IH]. intros s ->.
  assert (forall t, (String.length t < String.length s)%nat -> forallb p (runes t) = true ->
    all_chars (fun c => negb (inb 0 127 c) || p (ord c)) t = true) as Hrec by (intros t Ht; by apply (IH _ Ht)).
  assert (forall c, cont c = true -> inb 0 127 c = false) as Hcont.
  { intros c. destruct c as [[] [] [] [] [] [] [] []]; vm_compute; done. }
  assert (forall a b, second_of_3 a b = true -> inb 0 127 b = false) as H3.
  { intros a b. unfold second_of_3. do 2 (case_match; [destruct b as [[] [] [] [] [] [] [] []]; vm_compute; done|]).
    intros [_ Hb]%andb_true_iff. by apply Hcont. }
  assert (forall a b, second_of_4 a b = true -> inb 0 127 b = false) as H4.
  { intros a b. unfold second_of_4. do 2 (case_match; [destruct b as [[] [] [] [] [] [] [] []]; vm_compute; done|]).
    intros [_ Hb]%andb_true_iff. by apply Hcont. }
  destruct s as [|a s]; [done|]. cbn [runes all_chars].
  destruct (inb 0 127 a); [intros [Ha Hs]%andb_true_iff; cbn; rewrite Ha; apply Hrec; [cbn; lia|done]|].
  cbn [negb orb andb]. destruct s as [|b s]; [done|].
  destruct (inb 194 223 a && cont b) eqn:E2.
  { apply andb_true_iff in E2 as [_ Eb]. intros [_ Hs]%andb_true_iff. cbn [all_chars]. rewrite (Hcont b Eb). cbn [negb orb andb].
    apply Hrec; [cbn; lia|done]. }
  destruct s as [|c s]; [intros [_ Hs]%andb_true_iff; apply Hrec; [cbn; lia|done]|].
  destruct (second_of_3 a b && cont c) eqn:E3.
  { apply andb_true_iff in E3 as [Eb Ec]. intros [_ Hs]%andb_true_iff. cbn [all_chars].
    rewrite (H3 a b Eb), (Hcont c Ec). cbn [negb orb andb]. apply Hrec; [cbn; lia|done]. }
  destruct s as [|d s]; [intros [_ Hs]%andb_true_iff; apply Hrec; [cbn; lia|done]|].
  destruct (second_of_4 a b && cont c && cont d) eqn:E4.
  { apply andb_true_iff in E4 as [E4 Ed]. apply andb_true_iff in E4 as [Eb Ec]. intros [_ Hs]%andb_true_iff. cbn [all_chars].
    rewrite (H4 a b Eb), (Hcont c Ec), (Hcont d Ed). cbn [negb orb andb]. apply Hrec; [cbn; lia|done]. }
  intros [_ Hs]%andb_true_iff. apply Hrec; [cbn; lia|done].
Qed.

Lemma header_value_no_break v : validHeaderValue v = true -> all_chars no_break v = true.
Proof.
  intros [_ Hr]%andb_true_iff. apply runes_ascii_bytes in Hr. eapply all_chars_mono; [|exact Hr].
  intros c Hc. unfold no_break. repeat (case_bool_decide; [subst c; by vm_compute in Hc|]). done.
Qed.

Lemma writeQString_no_break s : all_chars no_break (writeQString s) = true.
Proof.
  induction s as [|b s IH]; [done|]. cbn [writeQString]. rewrite all_chars_app, IH, andb_true_r.
  case_bool_decide; [done|]. destruct (q_plain b) eqn:Hq; [|apply hex_no_break].
  cbn. rewrite andb_true_r. unfold no_break. repeat (case_bool_decide; [subst b; by vm_compute in Hq|]). done.
Qed.

Lemma qEncode_no_break n s l : all_chars no_break (qEncode n s l) = true.
Proof.
  revert s l; induction n as [|n IH]; intros [|b s] l; try done. cbn [qEncode].
  rewrite !all_chars_app, IH, writeQString_no_break. by destruct (_ >? maxContentLen).
Qed.

Lemma encodeSubject_no_break s : validHeaderValue s = true -> all_chars no_break (encodeSubject s) = true.
Proof.
  intros Hs. unfold encodeSubject, QEncode. destruct (existsb _ _); [|by apply header_value_no_break].
  destruct (needsEncoding s); [|by apply header_value_no_break].
  by rewrite !all_chars_app, qEncode_no_break.
Qed.

Lemma Join_no_break sep l :
  all_chars no_break sep = true -> Forall (fun s => all_chars no_break s = true) l -> all_chars no_break (Join l sep) = true.
Proof.
  intros Hsep. induction 1 as [|x l Hx Hl IH]; [done|]. destruct l as [|y l]; [done|].
  change (Join (x :: y :: l) sep) with (x +:+ sep +:+ Join (y :: l) sep). by rewrite !all_chars_app, Hx, Hsep.
Qed.

(** ** Messages *)

Section Messages.
Context (ParseAddress : string -> option Address) (address_String : Address -> string).
Context (format_date : time -> string) (sha256_hex : string -> string).
(** [Address.String] folds nothing; [time.Format] with the layout [RFC1123Z] writes one line
    of 31 bytes, a few more in years above 9999; hexadecimal digits are one line. *)
Definition within_limit (h : string * string) : Prop :=
  byte_len (fst h +:+ ": " +:+ snd h) <= MaximumHeaderBytes.

Context (address_line : forall a, validHeaderValue (Name a) = true -> validHeaderValue (Address_ a) = true ->
  all_chars no_break (address_String a) = true).
Context (date_line : forall t, all_chars no_break (format_date t) = true).
Context (date_short : forall t, byte_len (format_date t) <= 64).
Context (digest_line : forall s, all_chars no_break (sha256_hex s) = true).

Lemma validateAddress_ok field a :
  validateAddress ParseAddress field a = Ok tt ->
  validHeaderValue (Name a) = true /\ validHeaderValue (Address_ a) = true /\
  all_chars no_break (address_String a) = true.
Proof.
  unfold validateAddress. case_match eqn:G; [done|]. intros _. rewrite !orb_false_iff in G.
  destruct G as [[_ Ha] Hn]. apply negb_false_iff in Ha, Hn. auto.
Qed.

Lemma validate_all_ok field l :
  validate_all ParseAddress field l = Ok tt -> Forall (fun a => all_chars no_break (address_String a) = true) l.
Proof.
  induction l as [|a l IH]; [constructor|]. cbn. destruct (validateAddress ParseAddress field a) as [[]|e] eqn:Ha; [|done].
  intros Hl. constructor; [by apply validateAddress_ok in Ha as (_ & _ & ?)|by apply IH].
Qed.

Lemma take_string_chars p n s : all_chars p s = true -> all_chars p (take_string n s) = true.
Proof.
  revert s; induction n as [|n IH]; intros [|c s]; try done. cbn. intros [Hc Hs]%andb_true_iff.
  by rewrite Hc, (IH _ Hs).
Qed.

Record accepted (o : MessageOptions) (m : Message) : Prop := {
  acc_from : from m = o_From o; acc_to : to_ m = o_To o; acc_reply : replyTo m = o_ReplyTo o;
  acc_subject : subject m = o_Subject o; acc_text : text m = o_Text o; acc_html : html m = o_HTML o;
  acc_valid : valid m = true;
  acc_body : ~ (o_Text o = EmptyString /\ o_HTML o = EmptyString);
  acc_headers : Forall header_ok (message_headers address_String format_date m);
  acc_limits : Forall within_limit (message_headers address_String format_date m)
}.

Lemma NewMessage_accepts o now m : NewMessage ParseAddress address_String o now = Ok m -> accepted o m.
Proof.
  unfold NewMessage. destruct (validateAddress ParseAddress "from" (o_From o)) as [[]|] eqn:Hf; [|done]. cbn.
  destruct (bool_decide (o_To o = []) || _); [done|].
  destruct (validate_all ParseAddress "to" (o_To o)) as [[]|] eqn:Ht; [|done]. cbn.
  destruct (match o_ReplyTo o with Some a => _ | None => _ end) as [[]|] eqn:Hr; [|done]. cbn.
  destruct (bool_decide (o_Subject o = EmptyString) || _) eqn:Hs; [done|].
  destruct (negb (validBody (o_Text o)) || _ || _); [done|].
  destruct (bool_decide (o_Text o = EmptyString) && _) eqn:Hb; [done|].
  set (m0 := {| from := o_From o |}). destruct (validateRenderedHeaders address_String m0) as [[]|] eqn:Hv; [|done].
  intros [= <-]. apply orb_false_iff in Hs as [_ Hs]. apply negb_false_iff in Hs.
  apply validateAddress_ok in Hf as (_ & _ & Hf). apply validate_all_ok in Ht.
  unfold validateRenderedHeaders in Hv.
  destruct (6 + _ >? _) eqn:L1; [done|]. destruct (4 + _ >? _) eqn:L2; [done|].
  destruct (match replyTo m0 with Some a => _ | None => _ end) eqn:L3; [done|].
  destruct (9 + _ >? _) eqn:L4; [done|].
  assert (forall name v k, byte_len name + 2 = k -> (k + byte_len v >? MaximumHeaderBytes) = false ->
    within_limit (name, v)) as Hlim.
  { intros name v k <- Hk. unfold within_limit. cbn [fst snd].
    rewrite !byte_len_app. change (byte_len ": ") with 2. lia. }
  constructor; try done.
  - intros [Hx Hy]. by rewrite Hx, Hy in Hb.
  - unfold message_headers. apply Forall_app. split; [|apply Forall_app; split].
    + apply Forall_cons. split; [by apply header_ok_value|]. apply Forall_cons. split; [by apply header_ok_value|].
      apply Forall_singleton, header_ok_value; [done|]. by apply Join_no_break, Forall_map.
    + cbn. destruct (o_ReplyTo o) as [a|]; [|apply Forall_nil_2]. apply validateAddress_ok in Hr as (_ & _ & Hr).
      by apply Forall_singleton, header_ok_value.
    + apply Forall_cons. split; [|by apply Forall_singleton, header_ok_value].
      apply header_ok_value; [done|]. by apply encodeSubject_no_break.
  - unfold message_headers. apply Forall_app. split; [|apply Forall_app; split].
    + apply Forall_cons. split.
      { apply (Hlim "Date" _ 6); [done|]. pose proof (date_short (date m0)) as Hd.
        rewrite Z.gtb_ltb. apply Z.ltb_ge. unfold MaximumHeaderBytes. lia. }
      apply Forall_cons. split; [by apply (Hlim "From" _ 6)|].
      apply Forall_singleton. by apply (Hlim "To" _ 4).
    + cbn in L3 |- *. destruct (o_ReplyTo o) as [a|]; [|apply Forall_nil_2].
      apply Forall_singleton. by apply (Hlim "Reply-To" _ 10).
    + apply Forall_cons. split; [by apply (Hlim "Subject" _ 9)|].
      apply Forall_singleton. by vm_compute.
Qed.

Lemma take_string_short n s : byte_len (take_string n s) <= Z.of_nat n.
Proof.
  unfold byte_len. revert s; induction n as [|n IH]; intros [|c s]; cbn; try lia.
  specialize (IH s). lia.
Qed.

Lemma content_headers_short m hs body :
  content sha256_hex m = Some (hs, body) -> Forall within_limit hs.
Proof.
  unfold content. repeat case_match; intros [= <- <-].
  2, 3: repeat constructor; by vm_compute.
  constructor; [|constructor]. unfold within_limit, MaximumHeaderBytes, boundary.
  cbn [fst snd]. rewrite !byte_len_app.
  match goal with |- context [take_string 36 ?d] => pose proof (take_string_short 36 d) as Ht end.
  change (byte_len "Content-Type") with 12. change (byte_len ": ") with 2.
  change (byte_len "multipart/alternative; boundary=") with 32. change (byte_len "goforge-") with 8. lia.
Qed.

Lemma content_headers_ok m hs body :
  content sha256_hex m = Some (hs, body) -> Forall header_ok hs /\ (length hs <= 2)%nat.
Proof.
  unfold content. repeat case_match; intros [= <- <-]; (split; [|cbn; lia]).
  1: apply Forall_singleton, header_ok_value; [done|]; cbn; apply take_string_chars, digest_line.
  all: apply Forall_cons; split; [by apply header_ok_value|by apply Forall_singleton, header_ok_value].
Qed.
End Messages.

(** C9. Headers cannot be injected.  A message that [NewMessage] accepts is written as exactly
    the headers of the message, one line each, an empty line and the body: a reader of the
    header block finds the date, the addresses and the subject that were given, the content
    headers and nothing else, whatever text the name of an address or the subject holds, and
    no header line is longer than the limit of 998 bytes.  [Address.String], the formatted
    date and the digest are taken to be single lines, the date of at most 64 bytes. *)
Theorem headers_cannot_be_injected ParseAddress address_String format_date sha256_hex o now m :
  (forall a, validHeaderValue (Name a) = true -> validHeaderValue (Address_ a) = true ->
     all_chars no_break (address_String a) = true) ->
  (forall t, all_chars no_break (format_date t) = true) ->
  (forall t, byte_len (format_date t) <= 64) ->
  (forall s, all_chars no_break (sha256_hex s) = true) ->
  NewMessage ParseAddress address_String o now = Ok m ->
  exists rfc hs body, WriteRFC5322 address_String format_date sha256_hex m = Ok rfc /\
    content sha256_hex m = Some (hs, body) /\
    read_headers 10 rfc = Some (message_headers address_String format_date m ++ hs, body) /\
    from m = o_From o /\ to_ m = o_To o /\ replyTo m = o_ReplyTo o /\ subject m = o_Subject o /\
    Forall within_limit (message_headers address_String format_date m ++ hs).
Proof.
  intros Ha Hd Hds Hs Hm. apply (NewMessage_accepts _ _ format_date Ha Hd Hds) in Hm as [Hfrom Hto Hre Hsub Htx Hht Hv Hb Hh Hl].
  assert (exists hs body, content sha256_hex m = Some (hs, body)) as (hs & body & Hc).
  { unfold content. rewrite Htx, Hht. repeat case_bool_decide; cbn; try by do 2 eexists. by destruct Hb. }
  destruct (content_headers_ok _ Hs _ _ _ Hc) as [Hok Hlen].
  eexists _, hs, body. unfold WriteRFC5322. rewrite Hv, Hc. cbn [negb]. split; [done|]. split; [done|].
  split; [|split_and!; try done; apply Forall_app; split; [done|by eapply content_headers_short]].
  apply read_written_headers; [by apply Forall_app|].
  rewrite length_app. unfold message_headers. destruct (replyTo m); cbn; lia.
Qed.

Definition demo_options : MessageOptions :=
  {| o_From := {| Name := "Ann"; Address_ := "ann@example.com" |};
     o_To := [{| Name := EmptyString; Address_ := "bob@example.com" |}]; o_ReplyTo := None;
     o_Subject := "Hello"; o_Text := "Hi Bob"; o_HTML := EmptyString; o_Date := 1 |}.
Definition demo_parse (s : string) : option Address := Some {| Name := EmptyString; Address_ := s |}.
Definition demo_print (a : Address) : string := "<" +:+ Address_ a +:+ ">".

Lemma headers_cannot_be_injected_witness :
  exists m rfc body, NewMessage demo_parse demo_print demo_options 5 = Ok m /\
    WriteRFC5322 demo_print (fun _ => "today") (fun _ => "d1935") m = Ok rfc /\
    read_headers 10 rfc = Some ([("Date", "today"); ("From", "<ann@example.com>"); ("To", "<bob@example.com>");
      ("Subject", "Hello"); ("MIME-Version", "1.0"); ("Content-Type", "text/plain; charset=UTF-8");
      ("Content-Transfer-Encoding", "quoted-printable")], body).
Proof.
  destruct (NewMessage demo_parse demo_print demo_options 5) as [m|] eqn:Hm; [|vm_compute in Hm; discriminate Hm].
  destruct (headers_cannot_be_injected demo_parse demo_print (fun _ => "today") (fun _ => "d1935") demo_options 5 m)
    as (rfc & hs & body & Hw & Hc & Hr & _).
  - intros a _ Ha. unfold demo_print. rewrite !all_chars_app, (header_value_no_break _ Ha). reflexivity.
  - reflexivity.
  - intros t. vm_compute. discriminate.
  - reflexivity.
  - exact Hm.
  - exists m, rfc, body. split; [reflexivity|]. split; [exact Hw|]. rewrite Hr.
    vm_compute in Hm. injection Hm as <-. vm_compute in Hc. injection Hc as <- <-. reflexivity.
Defined.
