(* ===== verification/Smtp.v ===== *)
(** * SMTP delivery ([mail/smtp/sender.go])

    The configuration and one delivery.  The connection and [net/smtp] are the environment: it
    answers every step on the network, and whether the context has ended, by the number of
    the step.  The world logs each step with its answer and whether TLS was active, which is
    what somebody on the wire could read.  [net.SplitHostPort], [net.ParseIP] and simple case
    folding are parameters.  Shown below: nothing secret crosses the wire in plain text, and
    [Send] succeeds exactly when the server has taken the message. *)

From S2P Require Import Prelude GoStrings GoUtf8 Mail.
Local Open Scope go_scope.
Local Open Scope Z_scope.

Definition defaultDialTimeout : duration := 10 * Second.
Definition defaultOperationTimeout : duration := 10 * Second.
Definition ErrInvalidConfiguration : error := Sentinel "mail/smtp: invalid configuration".
Definition ErrDelivery : error := Sentinel "mail/smtp: delivery failed".

Definition TLSSTARTTLS : Z := 0.
Definition TLSImplicit : Z := 1.
Definition VersionTLS12 : Z := 771.

Record tlsConfig : Type := { ServerName : string; MinVersion : Z }.
Record Config : Type := {
  c_Address : string; c_TLSMode : Z; c_TLSConfig : option tlsConfig; c_Username : string;
  c_Password : string; c_LocalName : string; c_DialTimeout : duration;
  c_OperationTimeout : duration; UnsafeAllowPlaintext : bool
}.
Record Sender : Type := {
  address : string; host : string; tlsMode : Z; tls_config : tlsConfig; username : string;
  password : string; localName : string; dialTimeout : duration; operationTimeout : duration;
  plaintext : bool
}.

(** [DeliveryError]: it names the stage, is [ErrDelivery] and wraps its cause. *)
Definition delivery (stage : string) (cause : error) : error :=
  Wrapf ("mail/smtp: delivery failed during " +:+ stage) (Joined ErrDelivery cause).

Definition validSMTPToken (value : string) : bool :=
  bool_decide (TrimSpace value = value) && negb (bool_decide (value = EmptyString)) &&
  forallb (fun r => negb ((r <=? 32) || (r =? 127))) (runes value).

Section New.
Context (SplitHostPort : string -> option (string * string)) (loopback : string -> bool)
  (EqualFold : string -> string -> bool).

(** [net.ParseIP(host)] is an address and [IsLoopback]: [loopback]. *)
Definition localHost (host : string) : bool :=
  EqualFold host "localhost" || HasSuffix (ToLower host) ".localhost" || loopback host.

Definition snapshot_tls (c : option tlsConfig) (host : string) : tlsConfig :=
  match c with
  | None => {| ServerName := host; MinVersion := VersionTLS12 |}
  | Some t =>
      {| ServerName := if bool_decide (ServerName t = EmptyString) then host else ServerName t;
         MinVersion := if (MinVersion t =? 0) || (MinVersion t <? VersionTLS12) then VersionTLS12
                       else MinVersion t |}
  end.

Definition New (c : Config) : result Sender :=
  match SplitHostPort (c_Address c) with
  | None => Err ErrInvalidConfiguration
  | Some (h, port) =>
      let local := if bool_decide (c_LocalName c = EmptyString) then "localhost" else c_LocalName c in
      if bool_decide (h = EmptyString) then Err ErrInvalidConfiguration
      else match Atoi port with
      | None => Err ErrInvalidConfiguration
      | Some p =>
          if (p <? 1) || (p >? 65535) then Err ErrInvalidConfiguration
          else if negb (c_TLSMode c =? TLSSTARTTLS) && negb (c_TLSMode c =? TLSImplicit)
          then Err ErrInvalidConfiguration
          else if UnsafeAllowPlaintext c && (c_TLSMode c =? TLSImplicit) then Err ErrInvalidConfiguration
          else if UnsafeAllowPlaintext c && negb (localHost h) then Err ErrInvalidConfiguration
          else if negb (Bool.eqb (bool_decide (c_Username c = EmptyString)) (bool_decide (c_Password c = EmptyString)))
          then Err ErrInvalidConfiguration
          else if UnsafeAllowPlaintext c && negb (bool_decide (c_Username c = EmptyString))
          then Err ErrInvalidConfiguration
          else if (c_DialTimeout c <? 0) || (c_OperationTimeout c <? 0) then Err ErrInvalidConfiguration
          else if negb (validSMTPToken local) then Err ErrInvalidConfiguration
          else Ok {| address := c_Address c; host := h; tlsMode := c_TLSMode c;
                     tls_config := snapshot_tls (c_TLSConfig c) h; username := c_Username c;
                     password := c_Password c; localName := local;
                     dialTimeout := if c_DialTimeout c =? 0 then defaultDialTimeout else c_DialTimeout c;
                     operationTimeout := if c_OperationTimeout c =? 0 then defaultOperationTimeout
                                         else c_OperationTimeout c;
                     plaintext := UnsafeAllowPlaintext c |}
      end
  end.
End New.

(** ** One delivery *)

Inductive step : Type :=
| Dial | Handshake (c : tlsConfig) | Greeting | Hello (name : string) | StartTLS (c : tlsConfig)
| Auth (user pass : string) | MailFrom (a : string) | RcptTo (a : string) | ResetCmd
| DataCmd | DataWrite (bytes : string) | DataClose | Quit.

Record entry : Type := { what : step; tls : bool; answer : option error }.
Record world : Type := { log : list entry; tlsActive : bool; ticks : nat }.

(** [peer] answers a step on the network, [ctxErr] and [deadlineErr] are [ctx.Err] and
    [SetDeadline], [starttls] is whether the server advertises the extension. *)
Record smtp_env : Type := {
  peer : nat -> option error; ctxErr : nat -> option error; deadlineErr : nat -> option error;
  starttls : bool
}.

Section Send.
Context (E : smtp_env).

Definition net (s : step) : M world unit := fun w =>
  let r := peer E (ticks w) in
  let upgraded := match s, r with Handshake _, None | StartTLS _, None => true | _, _ => tlsActive w end in
  (match r with None => Ok tt | Some e => Err e end,
   {| log := log w ++ [{| what := s; tls := tlsActive w; answer := r |}];
      tlsActive := upgraded; ticks := S (ticks w) |}).
Definition context_err : M world (option error) := fun w =>
  (Ok (ctxErr E (ticks w)), {| log := log w; tlsActive := tlsActive w; ticks := S (ticks w) |}).

Definition deliveryContext {A} (stage : string) (cause : error) : M world A :=
  let! e := context_err in throw (delivery stage (default cause e)).

(** [setDeadline], with the stage its caller reports. *)
Definition setDeadline (stage : string) : M world unit :=
  let! e := context_err in
  match e with
  | Some e => throw (delivery stage e)
  | None => fun w => (match deadlineErr E (ticks w) with
                      | Some e => Err (delivery stage e) | None => Ok tt end, w)
  end.

(** A step whose error is reported with its stage. *)
Definition at_stage (stage : string) (s : step) : M world unit := fun w =>
  match net s w with
  | (Ok _, w') => (Ok tt, w')
  | (Err e, w') => deliveryContext stage e w'
  end.
Definition operation (stage : string) (s : step) : M world unit :=
  let! _ := setDeadline stage in at_stage stage s.
(** [_ = operation(...)] *)
Definition ignored (m : M world unit) : M world unit := fun w => (Ok tt, snd (m w)).

Fixpoint recipients (l : list Address) : M world unit :=
  match l with
  | [] => ret tt
  | a :: rest => fun w =>
      match operation "recipient" (RcptTo (Address_ a)) w with
      | (Ok _, w') => recipients rest w'
      | (Err e, w') => (Err e, snd (operation "reset" ResetCmd w'))
      end
  end.

(** [data.Write]; an error closes the writer, whose answer is ignored. *)
Definition write_data (bytes : string) : M world unit := fun w =>
  match net (DataWrite bytes) w with
  | (Ok _, w') => (Ok tt, w')
  | (Err e, w') => let '(_, w'') := net DataClose w' in deliveryContext "data" e w''
  end.

Definition Send (render : Message -> result string) (sender : option Sender) (m : Message) : M world unit :=
  match sender with
  | None => throw ErrInvalidConfiguration
  | Some s =>
      let! e := context_err in
      match e with
      | Some e => throw (delivery "dial" e)
      | None =>
          match render m with
          | Err e => throw e
          | Ok encoded =>
              let! _ := at_stage "dial" Dial in
              let! _ := (if tlsMode s =? TLSImplicit
                         then let! _ := setDeadline "tls" in at_stage "tls" (Handshake (tls_config s))
                         else ret tt) in
              let! _ := setDeadline "greeting" in
              let! _ := at_stage "greeting" Greeting in
              let! _ := operation "hello" (Hello (localName s)) in
              let! secured := (if negb (plaintext s) && (tlsMode s =? TLSSTARTTLS)
                               then if starttls E
                                    then let! _ := operation "tls" (StartTLS (tls_config s)) in ret true
                                    else throw (delivery "tls" (Errorf "STARTTLS is unavailable"))
                               else ret (tlsMode s =? TLSImplicit)) in
              let! _ := (if bool_decide (username s = EmptyString) then ret tt
                         else if negb secured then throw ErrInvalidConfiguration
                         else operation "authentication" (Auth (username s) (password s))) in
              let! _ := operation "sender" (MailFrom (Address_ (from m))) in
              let! _ := recipients (to_ m) in
              let! _ := setDeadline "data" in
              let! _ := at_stage "data" DataCmd in
              let! _ := write_data encoded in
              let! _ := at_stage "data" DataClose in
              ignored (operation "quit" Quit)
          end
      end
  end.
End Send.

(** ** What a reader of the wire sees *)

Section Secrecy.
Context (E : smtp_env) (s : Sender).

(** Credentials only ever under TLS, the envelope and the message too unless the sender is
    one for plain text, which has no credentials. *)
Definition allowed (e : entry) : Prop :=
  match what e with
  | Auth _ _ => tls e = true
  | MailFrom _ | RcptTo _ | DataCmd | DataWrite _ => tls e = true \/ plaintext s = true
  | Handshake t | StartTLS t => t = tls_config s
  | _ => True
  end.
Definition clean (w : world) : Prop := Forall allowed (log w).
Definition private (w : world) : Prop := tlsActive w = true \/ plaintext s = true.

(** [m], started in [P], keeps the log clean, and what it returns comes with [Q]. *)
Definition keeps {A} (P : world -> Prop) (m : M world A) (Q : A -> world -> Prop) : Prop :=
  forall w r w', clean w -> P w -> m w = (r, w') -> clean w' /\ (forall a, r = Ok a -> Q a w').

Lemma keeps_bind {A B} P Q R (m : M world A) (k : A -> M world B) :
  keeps P m Q -> (forall a, keeps (Q a) (k a) R) -> keeps P (bindM m k) R.
Proof.
  intros Hm Hk w r w' Hc HP Hrun. unfold bindM in Hrun. destruct (m w) as [[a|e] w1] eqn:Em.
  - destruct (Hm _ _ _ Hc HP Em) as [Hc1 HQ]. by apply (Hk a w1); [|apply HQ|].
  - injection Hrun as <- <-. by destruct (Hm _ _ _ Hc HP Em) as [Hc1 _].
Qed.

Lemma keeps_ret {A} (P : world -> Prop) (a : A) : keeps P (ret a) (fun _ => P).
Proof. intros w r w' Hc HP [= <- <-]. by split; [|intros ? [= <-]]. Qed.

Lemma keeps_throw {A} P e (Q : A -> world -> Prop) : keeps P (throw e) Q.
Proof. intros w r w' Hc _ [= <- <-]. by split. Qed.

Lemma keeps_weaken {A} (P P' : world -> Prop) (Q Q' : A -> world -> Prop) m :
  keeps P m Q -> (forall w, P' w -> P w) -> (forall a w, Q a w -> Q' a w) -> keeps P' m Q'.
Proof. intros Hm HP HQ w r w' Hc HP' Hrun. destruct (Hm w r w' Hc (HP w HP') Hrun). auto. Qed.

(** A predicate of the TLS flag alone that is not lost when TLS starts. *)
Definition stable (P : world -> Prop) : Prop :=
  forall w w', P w -> (tlsActive w = true -> tlsActive w' = true) -> P w'.

Lemma keeps_context P : stable P -> keeps P (context_err E) (fun _ => P).
Proof. intros HP w r w' Hc Hw [= <- <-]. split; [done|]. intros _ _. by eapply HP. Qed.

Lemma keeps_deliveryContext {A} P stage e (Q : A -> world -> Prop) : stable P -> keeps P (deliveryContext E stage e) Q.
Proof. intros HP. eapply keeps_bind; [by apply keeps_context|]. intros o. apply keeps_throw. Qed.

Lemma keeps_setDeadline P stage : stable P -> keeps P (setDeadline E stage) (fun _ => P).
Proof.
  intros HP. eapply keeps_bind; [by apply keeps_context|]. intros [e|]; [apply keeps_throw|].
  intros w r w' Hc Hw. by destruct (deadlineErr E (ticks w)); intros [= <- <-].
Qed.

Lemma keeps_net P st :
  stable P -> (forall w, P w -> allowed {| what := st; tls := tlsActive w; answer := peer E (ticks w) |}) ->
  keeps P (net E st) (fun _ => P).
Proof.
  intros HP Hal w r w' Hc Hw [= <- <-]. split.
  - apply Forall_app. split; [done|]. constructor; [by apply Hal|constructor].
  - intros _ _. eapply HP; [done|]. cbn. intros ->. by destruct st, (peer E (ticks w)).
Qed.

Lemma keeps_at_stage P stage st :
  stable P -> (forall w, P w -> allowed {| what := st; tls := tlsActive w; answer := peer E (ticks w) |}) ->
  keeps P (at_stage E stage st) (fun _ => P).
Proof.
  intros HP Hal w r w' Hc Hw. unfold at_stage. destruct (net E st w) as [o w1] eqn:En.
  destruct (keeps_net P st HP Hal _ _ _ Hc Hw En) as [Hc1 HQ]. destruct o as [u|e].
  - intros [= <- <-]. eauto.
  - by apply (keeps_deliveryContext (fun _ => True) stage e).
Qed.

Lemma keeps_operation P stage st :
  stable P -> (forall w, P w -> allowed {| what := st; tls := tlsActive w; answer := peer E (ticks w) |}) ->
  keeps P (operation E stage st) (fun _ => P).
Proof.
  intros HP Hal. eapply keeps_bind; [by apply keeps_setDeadline|]. intros []. by apply keeps_at_stage.
Qed.

Lemma stable_True : stable (fun _ => True).
Proof. done. Qed.
Lemma stable_private : stable private.
Proof. intros w w' [Ht|Hp] Hi; [left; auto|by right]. Qed.

Hint Resolve stable_True stable_private keeps_ret keeps_throw : smtp.

Lemma private_allowed st w : private w ->
  match st with Auth _ _ | Handshake _ | StartTLS _ => False | _ => True end -> allowed {| what := st; tls := tlsActive w; answer := peer E (ticks w) |}.
Proof. unfold private, allowed. by destruct st. Qed.

Lemma keeps_recipients l : keeps private (recipients E l) (fun _ => private).
Proof.
  induction l as [|a l IH]; [apply keeps_ret|]. intros w r w' Hc Hw. cbn.
  assert (keeps private (operation E "recipient" (RcptTo (Address_ a))) (fun _ => private)) as Hop
    by (apply keeps_operation; [apply stable_private|intros; by apply private_allowed]).
  destruct (operation E "recipient" (RcptTo (Address_ a)) w) as [o w1] eqn:Eo.
  destruct (Hop _ _ _ Hc Hw Eo) as [Hc1 HQ]. destruct o as [u|e]; [apply IH; [done|by eapply HQ]|].
  destruct (operation E "reset" ResetCmd w1) as [o2 w2] eqn:E2. intros [= <- <-]. split; [|done].
  by eapply (keeps_operation (fun _ => True) "reset" ResetCmd stable_True).
Qed.

Lemma keeps_write_data bytes : keeps private (write_data E bytes) (fun _ => private).
Proof.
  intros w r w' Hc Hw. unfold write_data. destruct (net E (DataWrite bytes) w) as [o w1] eqn:En.
  destruct (keeps_net private (DataWrite bytes) stable_private (fun w H => private_allowed (DataWrite bytes) w H I) _ _ _ Hc Hw En) as [Hc1 HQ].
  destruct o as [u|e]; [intros [= <- <-]; eauto|]. destruct (net E DataClose w1) as [o2 w2] eqn:E2.
  destruct (keeps_net (fun _ => True) DataClose stable_True (fun w H => I) _ _ _ Hc1 I E2) as [Hc2 _].
  by apply (keeps_deliveryContext (fun _ => True)).
Qed.

(** What the TLS stage leaves behind. *)
Definition ready (secured : bool) (w : world) : Prop := private w /\ (secured = true -> tlsActive w = true).
Lemma stable_ready b : stable (ready b).
Proof. intros w w' [Hp Hs] Hi. split; [by eapply stable_private|auto]. Qed.
Definition implicit_done (w : world) : Prop := (tlsMode s =? TLSImplicit) = true -> tlsActive w = true.
Lemma stable_implicit : stable implicit_done.
Proof. intros w w' Hd Hi H. auto. Qed.

Lemma keeps_tls_start st (P : world -> Prop) stage :
  stable P -> st = Handshake (tls_config s) \/ st = StartTLS (tls_config s) ->
  keeps P (at_stage E stage st) (fun _ w => P w /\ tlsActive w = true).
Proof.
  intros HP Hst w r w' Hc Hw Hrun.
  destruct (keeps_at_stage P stage st HP) with (w := w) (r := r) (w' := w') as [Hc' HQ]; [|done..|].
  { intros w0 _. by destruct Hst as [-> | ->]. }
  split; [done|]. intros a Ha. split; [by apply (HQ a)|]. subst r. unfold at_stage in Hrun.
  unfold net in Hrun. destruct (peer E (ticks w)) eqn:Hp; [|destruct Hst as [-> | ->]; by injection Hrun as _ <-].
  unfold deliveryContext, bindM, context_err, throw in Hrun. discriminate.
Qed.

Definition mode_known : Prop := tlsMode s = TLSSTARTTLS \/ tlsMode s = TLSImplicit.

Lemma keeps_tls_stage : mode_known ->
  keeps implicit_done
    (if negb (plaintext s) && (tlsMode s =? TLSSTARTTLS)
     then if starttls E then let! _ := operation E "tls" (StartTLS (tls_config s)) in ret true
          else throw (delivery "tls" (Errorf "STARTTLS is unavailable"))
     else ret (tlsMode s =? TLSImplicit)) ready.
Proof.
  intros Hmode. destruct (negb (plaintext s) && (tlsMode s =? TLSSTARTTLS)) eqn:Hst.
  - destruct (starttls E); [|apply keeps_throw].
    eapply keeps_bind.
    { eapply keeps_bind; [apply keeps_setDeadline, stable_implicit|]. intros [].
      apply (keeps_tls_start _ _ _ stable_implicit). by right. }
    intros [] w r w' Hc [_ Ht] [= <- <-]. split; [done|]. intros b [= <-]. split; [by left|done].
  - intros w r w' Hc Hi [= <- <-]. split; [done|]. intros b [= <-]. split; [|done].
    destruct (plaintext s) eqn:Hp; [by right|]. left. apply Hi. cbn in Hst.
    destruct Hmode as [Hm|Hm]; rewrite Hm in *; done.
Qed.

Lemma keeps_auth secured :
  keeps (ready secured)
    (if bool_decide (username s = EmptyString) then ret tt
     else if negb secured then throw ErrInvalidConfiguration
     else operation E "authentication" (Auth (username s) (password s))) (fun _ => private).
Proof.
  case_bool_decide; [eapply keeps_weaken; [apply (keeps_ret (ready secured))|done|by intros ? ? [? _]]|].
  destruct secured; [|apply keeps_throw]. cbn [negb].
  eapply keeps_weaken; [apply (keeps_operation (ready true)); [apply stable_ready|]|done|by intros ? ? [? _]].
  intros w [_ Ht]. cbn. by apply Ht.
Qed.

Lemma keeps_Send render m : mode_known -> keeps (fun _ => True) (Send E render (Some s) m) (fun _ _ => True).
Proof.
  intros Hmode. unfold Send. eapply keeps_bind; [apply keeps_context, stable_True|]. intros [e|]; [apply keeps_throw|].
  destruct (render m) as [encoded|e]; [|apply keeps_throw].
  eapply keeps_bind; [apply keeps_at_stage; [apply stable_True|done]|intros []].
  eapply (keeps_bind _ (fun _ => implicit_done)).
  { destruct (tlsMode s =? TLSImplicit) eqn:Hi.
    - eapply keeps_bind; [apply keeps_setDeadline, stable_True|intros []].
      eapply keeps_weaken; [apply (keeps_tls_start _ (fun _ => True) _ stable_True); by left|done|].
      by intros ? ? [_ ?] _.
    - eapply keeps_weaken; [apply (keeps_ret (fun _ => True))|done|]. intros a w _. unfold implicit_done. by rewrite Hi. }
  intros []. eapply keeps_bind; [apply keeps_setDeadline, stable_implicit|intros []].
  eapply keeps_bind; [apply keeps_at_stage; [apply stable_implicit|done]|intros []].
  eapply keeps_bind; [apply keeps_operation; [apply stable_implicit|done]|intros []].
  eapply keeps_bind; [by apply keeps_tls_stage|intros secured].
  eapply keeps_bind; [apply keeps_auth|intros []].
  eapply keeps_bind; [apply keeps_operation; [apply stable_private|intros; by apply private_allowed]|intros []].
  eapply keeps_bind; [apply keeps_recipients|intros []].
  eapply keeps_bind; [apply keeps_setDeadline, stable_private|intros []].
  eapply keeps_bind; [apply keeps_at_stage; [apply stable_private|intros; by apply private_allowed]|intros []].
  eapply keeps_bind; [apply keeps_write_data|intros []].
  eapply keeps_bind; [apply keeps_at_stage; [apply stable_private|done]|intros []].
  intros w r w' Hc Hw [= <- <-]. split; [|done]. destruct (operation E "quit" Quit w) as [o w1] eqn:Eq.
  by eapply (keeps_operation (fun _ => True) "quit" Quit stable_True).
Qed.
End Secrecy.

Lemma New_spec SplitHostPort loopback EqualFold c s :
  New SplitHostPort loopback EqualFold c = Ok s ->
  mode_known s /\ VersionTLS12 <= MinVersion (tls_config s) /\ ServerName (tls_config s) <> EmptyString /\
  (plaintext s = true -> localHost loopback EqualFold (host s) = true /\ username s = EmptyString).
Proof.
  unfold New. destruct (SplitHostPort (c_Address c)) as [[h port]|]; [|done].
  destruct (bool_decide (h = EmptyString)) eqn:Hh; [done|]. destruct (Atoi port) as [p|]; [|done].
  destruct ((p <? 1) || (p >? 65535)); [done|].
  destruct (negb (c_TLSMode c =? TLSSTARTTLS) && negb (c_TLSMode c =? TLSImplicit)) eqn:Hm; [done|].
  destruct (UnsafeAllowPlaintext c && (c_TLSMode c =? TLSImplicit)); [done|].
  destruct (UnsafeAllowPlaintext c && negb (localHost loopback EqualFold h)) eqn:Hl; [done|].
  destruct (negb (Bool.eqb _ _)); [done|].
  destruct (UnsafeAllowPlaintext c && negb (bool_decide (c_Username c = EmptyString))) eqn:Hu; [done|].
  destruct ((c_DialTimeout c <? 0) || _); [done|]. destruct (negb (validSMTPToken _)); [done|].
  intros [= <-]. apply bool_decide_eq_false in Hh. split_and!; cbn.
  - apply andb_false_iff in Hm as [Hm|Hm]; apply negb_false_iff, Z.eqb_eq in Hm; [by left|by right].
  - unfold snapshot_tls. destruct (c_TLSConfig c); cbn; [|lia]. case_match eqn:G; [lia|]. apply orb_false_iff in G as [_ G]. lia.
  - unfold snapshot_tls. destruct (c_TLSConfig c); cbn; [|done]. clear Hu. by case_bool_decide.
  - intros Hp. rewrite Hp in *. cbn in Hl, Hu. apply negb_false_iff in Hl, Hu. by apply bool_decide_eq_true in Hu.
Qed.

Definition fresh : world := {| log := []; tlsActive := false; ticks := 0 |}.

(** C8. Secrets never cross the wire in plain text.  Whatever the server and the network do,
    every step that a sender from [New] sends its credentials with is under TLS; so is every
    step with the envelope or the message, unless the configuration opted into plain text,
    which [New] accepts for local hosts only and never with credentials.  TLS is at least
    version 1.2. *)
Theorem secrets_stay_under_tls SplitHostPort loopback EqualFold E render c s m r w :
  New SplitHostPort loopback EqualFold c = Ok s ->
  Send E render (Some s) m fresh = (r, w) ->
  Forall (fun e => match what e with
    | Auth _ _ => tls e = true
    | MailFrom _ | RcptTo _ | DataCmd | DataWrite _ => tls e = true \/ plaintext s = true
    | Handshake t | StartTLS t => VersionTLS12 <= MinVersion t /\ ServerName t <> EmptyString
    | _ => True
    end) (log w) /\
  (plaintext s = true -> localHost loopback EqualFold (host s) = true /\ username s = EmptyString).
Proof.
  intros Hnew Hsend.
  assert (mode_known s /\ VersionTLS12 <= MinVersion (tls_config s) /\ ServerName (tls_config s) <> EmptyString /\
    (plaintext s = true -> localHost loopback EqualFold (host s) = true /\ username s = EmptyString)) as (Hmode & Hver & Hname & Hplain).
  { by apply New_spec in Hnew. }
  split; [|done]. destruct (keeps_Send E s render m Hmode fresh r w) as [Hc _]; [constructor|done|done|].
  eapply Forall_impl; [exact Hc|]. intros e He. unfold allowed in He. destruct (what e); auto; by subst.
Qed.

(** ** The delivery boundary *)

Section Delivery.
Context (E : smtp_env).

Definition said (e : entry) : step * option error := (what e, answer e).
Definition talk (w : world) : list (step * option error) := map said (log w).
Definition is_data (x : step * option error) : bool :=
  match fst x with DataWrite _ | DataClose => true | _ => false end.

(** [m] only adds steps that do not touch the message data. *)
Definition quiet {A} (m : M world A) : Prop :=
  forall w r w', m w = (r, w') -> exists es, talk w' = talk w ++ es /\ forallb (fun x => negb (is_data x)) es = true.

Lemma quiet_bind {A B} (m : M world A) (k : A -> M world B) :
  quiet m -> (forall a, quiet (k a)) -> quiet (bindM m k).
Proof.
  intros Hm Hk w r w' Hrun. unfold bindM in Hrun. destruct (m w) as [[a|e] w1] eqn:Em.
  - destruct (Hm _ _ _ Em) as (e1 & H1 & Q1). destruct (Hk a _ _ _ Hrun) as (e2 & H2 & Q2).
    exists (e1 ++ e2). rewrite H2, H1, app_assoc, forallb_app, Q1. done.
  - injection Hrun as <- <-. by apply (Hm _ _ _ Em).
Qed.
Lemma quiet_ret {A} (a : A) : quiet (ret a).
Proof. intros w r w' [= <- <-]. exists []. by rewrite app_nil_r. Qed.
Lemma quiet_throw {A} e : quiet (throw e : M world A).
Proof. intros w r w' [= <- <-]. exists []. by rewrite app_nil_r. Qed.
Lemma quiet_context : quiet (context_err E).
Proof. intros w r w' [= <- <-]. exists []. by rewrite app_nil_r. Qed.
Lemma quiet_deliveryContext {A} stage e : quiet (deliveryContext E stage e : M world A).
Proof. apply quiet_bind; [apply quiet_context|intros; apply quiet_throw]. Qed.
Lemma quiet_setDeadline stage : quiet (setDeadline E stage).
Proof.
  apply quiet_bind; [apply quiet_context|]. intros [e|]; [apply quiet_throw|].
  intros w r w' Hrun. exists []. rewrite app_nil_r. by destruct (deadlineErr E (ticks w)); injection Hrun as <- <-.
Qed.

Lemma net_talk st w r w' : net E st w = (r, w') ->
  talk w' = talk w ++ [(st, peer E (ticks w))] /\ (r = Ok tt <-> peer E (ticks w) = None).
Proof.
  intros [= <- <-]. unfold talk. cbn. rewrite map_app. split; [done|]. by destruct (peer E (ticks w)).
Qed.

(** A reported step: it is logged, and it succeeds exactly when the peer accepts it. *)
Lemma at_stage_talk stage st w r w' : at_stage E stage st w = (r, w') ->
  exists a, talk w' = talk w ++ [(st, a)] /\ (r = Ok tt <-> a = None).
Proof.
  intros Hrun. unfold at_stage in Hrun. destruct (net E st w) as [o w1] eqn:En.
  destruct (net_talk _ _ _ _ En) as [Ht Ho]. exists (peer E (ticks w)). destruct o as [[]|e].
  - injection Hrun as <- <-. split; [done|]. split; [intros _; by apply Ho|done].
  - assert (peer E (ticks w) <> None) as Hp by (intros Hp; by apply Ho in Hp).
    destruct (peer E (ticks w)) as [x|]; [|done]. unfold deliveryContext, bindM, context_err, throw in Hrun.
    injection Hrun as <- <-. split; [done|]. by split.
Qed.

Lemma quiet_at_stage stage st : is_data (st, None) = false -> quiet (at_stage E stage st).
Proof.
  intros Hd w r w' Hrun. destruct (at_stage_talk _ _ _ _ _ Hrun) as (a & Ht & _). exists [(st, a)]. split; [done|].
  cbn. unfold is_data in *. cbn in *. by rewrite Hd.
Qed.
Lemma quiet_operation stage st : is_data (st, None) = false -> quiet (operation E stage st).
Proof. intros Hd. apply quiet_bind; [apply quiet_setDeadline|]. intros _. by apply quiet_at_stage. Qed.
Lemma quiet_recipients l : quiet (recipients E l).
Proof.
  induction l as [|a l IH]; [apply quiet_ret|]. intros w r w' Hrun. cbn in Hrun.
  destruct (operation E "recipient" (RcptTo (Address_ a)) w) as [[u|e] w1] eqn:Eo.
  all: destruct (quiet_operation "recipient" (RcptTo (Address_ a)) eq_refl _ _ _ Eo) as (e1 & H1 & Q1).
  - destruct (IH _ _ _ Hrun) as (e2 & H2 & Q2). exists (e1 ++ e2). by rewrite H2, H1, app_assoc, forallb_app, Q1.
  - destruct (operation E "reset" ResetCmd w1) as [o2 w2] eqn:E2. injection Hrun as <- <-.
    destruct (quiet_operation "reset" ResetCmd eq_refl _ _ _ E2) as (e2 & H2 & Q2).
    exists (e1 ++ e2). cbn. by rewrite H2, H1, app_assoc, forallb_app, Q1.
Qed.

Lemma operation_ok stage st w w' : operation E stage st w = (Ok tt, w') -> talk w' = talk w ++ [(st, None)].
Proof.
  unfold operation, bindM. destruct (setDeadline E stage w) as [[[]|e] w1] eqn:Ed; [|done]. intros Ha.
  destruct (at_stage_talk _ _ _ _ _ Ha) as (a & Ht & Hok). rewrite (proj1 Hok eq_refl) in Ht. rewrite Ht. f_equal.
  unfold setDeadline, bindM, context_err in Ed. destruct (ctxErr E (ticks w)); [done|].
  cbn in Ed. destruct (deadlineErr E _); [done|]. by injection Ed as <-.
Qed.
Lemma recipients_ok l w w' : recipients E l w = (Ok tt, w') ->
  talk w' = talk w ++ map (fun a => (RcptTo (Address_ a), None)) l.
Proof.
  revert w; induction l as [|a l IH]; intros w; cbn; [intros [= <-]; by rewrite app_nil_r|].
  destruct (operation E "recipient" (RcptTo (Address_ a)) w) as [[[]|e] w1] eqn:Eo; [|done]. intros Hr.
  rewrite (IH _ Hr), (operation_ok _ _ _ _ Eo), <- app_assoc. done.
Qed.

(** [Send], cut at the envelope and at the data. *)
Definition opening (render : Message -> result string) (s : Sender) (m : Message) : M world string :=
  let! e := context_err E in
  match e with
  | Some e => throw (delivery "dial" e)
  | None =>
      match render m with
      | Err e => throw e
      | Ok encoded =>
          let! _ := at_stage E "dial" Dial in
          let! _ := (if tlsMode s =? TLSImplicit
                     then let! _ := setDeadline E "tls" in at_stage E "tls" (Handshake (tls_config s))
                     else ret tt) in
          let! _ := setDeadline E "greeting" in
          let! _ := at_stage E "greeting" Greeting in
          let! _ := operation E "hello" (Hello (localName s)) in
          let! secured := (if negb (plaintext s) && (tlsMode s =? TLSSTARTTLS)
                           then if starttls E
                                then let! _ := operation E "tls" (StartTLS (tls_config s)) in ret true
                                else throw (delivery "tls" (Errorf "STARTTLS is unavailable"))
                           else ret (tlsMode s =? TLSImplicit)) in
          let! _ := (if bool_decide (username s = EmptyString) then ret tt
                     else if negb secured then throw ErrInvalidConfiguration
                     else operation E "authentication" (Auth (username s) (password s))) in
          ret encoded
      end
  end.
Definition envelope (m : Message) : M world unit :=
  let! _ := operation E "sender" (MailFrom (Address_ (from m))) in
  let! _ := recipients E (to_ m) in
  let! _ := setDeadline E "data" in
  at_stage E "data" DataCmd.
Definition body (encoded : string) : M world unit :=
  let! _ := write_data E encoded in
  let! _ := at_stage E "data" DataClose in
  ignored (operation E "quit" Quit).

Lemma Send_cut render s m w :
  Send E render (Some s) m w
  = bindM (opening render s m) (fun encoded => let! _ := envelope m in body encoded) w.
Proof.
  unfold Send, opening, envelope, body, bindM, throw, ret.
  destruct (context_err E w) as [[[e|]|e] w1]; [done| |done]. destruct (render m) as [encoded|e]; [|done].
  repeat match goal with
  | |- context [match ?x with pair _ _ => _ end] => destruct x as [[?|?] ?] eqn:?; try done
  end.
Qed.

Lemma quiet_opening render s m : quiet (opening render s m).
Proof.
  unfold opening. apply quiet_bind; [apply quiet_context|]. intros [e|]; [apply quiet_throw|].
  destruct (render m) as [encoded|e]; [|apply quiet_throw].
  apply quiet_bind; [by apply quiet_at_stage|intros _].
  apply quiet_bind; [case_match; [apply quiet_bind; [apply quiet_setDeadline|intros _; by apply quiet_at_stage]|apply quiet_ret]|intros _].
  apply quiet_bind; [apply quiet_setDeadline|intros _]. apply quiet_bind; [by apply quiet_at_stage|intros _].
  apply quiet_bind; [by apply quiet_operation|intros _]. apply quiet_bind.
  { repeat case_match; [apply quiet_bind; [by apply quiet_operation|intros _; apply quiet_ret]|apply quiet_throw|apply quiet_ret]. }
  intros secured. apply quiet_bind; [|intros _; apply quiet_ret].
  repeat case_match; [apply quiet_ret|apply quiet_throw|by apply quiet_operation].
Qed.
Lemma opening_ok render s m w encoded w' : opening render s m w = (Ok encoded, w') -> render m = Ok encoded.
Proof.
  unfold opening, bindM, throw, ret. destruct (context_err E w) as [[[e|]|e] w1]; [done| |done].
  destruct (render m) as [x|e]; [|done]. repeat case_match; intros; by simplify_eq.
Qed.
Lemma quiet_envelope m : quiet (envelope m).
Proof.
  apply quiet_bind; [by apply quiet_operation|intros _]. apply quiet_bind; [apply quiet_recipients|intros _].
  apply quiet_bind; [apply quiet_setDeadline|intros _]. by apply quiet_at_stage.
Qed.
Lemma envelope_ok m w w' : envelope m w = (Ok tt, w') ->
  talk w' = talk w ++ [(MailFrom (Address_ (from m)), None)] ++
    map (fun a => (RcptTo (Address_ a), None)) (to_ m) ++ [(DataCmd, None)].
Proof.
  unfold envelope, bindM. destruct (operation E "sender" _ w) as [[[]|e] w1] eqn:E1; [|done].
  destruct (recipients E (to_ m) w1) as [[[]|e] w2] eqn:E2; [|done].
  destruct (setDeadline E "data" w2) as [[[]|e] w3] eqn:E3; [|done]. intros E4.
  assert (operation E "data" DataCmd w2 = (Ok tt, w')) as E5 by (unfold operation, bindM; by rewrite E3).
  rewrite (operation_ok _ _ _ _ E5), (recipients_ok _ _ _ E2), (operation_ok _ _ _ _ E1), <- !app_assoc. done.
Qed.

Lemma body_talk encoded w r w' : body encoded w = (r, w') ->
  exists a b post, talk w' = talk w ++ [(DataWrite encoded, a); (DataClose, b)] ++ post /\
    forallb (fun x => negb (is_data x)) post = true /\ (r = Ok tt <-> a = None /\ b = None).
Proof.
  unfold body, bindM, write_data. destruct (net E (DataWrite encoded) w) as [o w1] eqn:E1.
  destruct (net_talk _ _ _ _ E1) as [H1 O1]. set (a := peer E (ticks w)) in *. destruct o as [[]|e].
  - assert (a = None) as Ha by (by apply O1). destruct (at_stage E "data" DataClose w1) as [o2 w2] eqn:E2.
    destruct (at_stage_talk _ _ _ _ _ E2) as (b & H2 & O2). destruct o2 as [[]|e2]; intros Hrun.
    + unfold ignored in Hrun. destruct (operation E "quit" Quit w2) as [o3 w3] eqn:E3. injection Hrun as <- <-.
      destruct (quiet_operation "quit" Quit eq_refl _ _ _ E3) as (post & H3 & Q3). exists a, b, post.
      cbn. rewrite H3, H2, H1, <- !app_assoc. split; [done|]. split; [done|]. by rewrite <- O2.
    + injection Hrun as <- <-. exists a, b, []. rewrite H2, H1, <- app_assoc. split; [done|]. split; [done|].
      rewrite O2. naive_solver.
  - assert (a <> None) as Ha by (intros Ha; by apply O1 in Ha). destruct (net E DataClose w1) as [o2 w2] eqn:E2.
    destruct (net_talk _ _ _ _ E2) as [H2 _]. unfold deliveryContext, bindM, context_err, throw.
    intros [= <- <-]. exists a, (peer E (ticks w1)), []. unfold talk in *. cbn. rewrite H2, H1, <- app_assoc.
    split; [done|]. split; [done|]. naive_solver.
Qed.
End Delivery.

(** The server took the message: it accepted the data and answered its end. *)
Definition taken (t : list (step * option error)) : Prop :=
  exists bytes, (DataWrite bytes, None) ∈ t /\ (DataClose, None) ∈ t.

(** [Send] succeeds exactly when the server has taken the message.  It returns nil if and
    only if the server accepted the data and its end, also when the session breaks off
    afterwards: a caller that retries after an error never sends a message twice.  A message
    that was taken is the rendered one, after its sender and each of its recipients in order
    had been accepted. *)
Theorem send_succeeds_when_the_message_is_taken E render s m r w :
  Send E render (Some s) m fresh = (r, w) ->
  (r = Ok tt <-> taken (talk w)) /\
  (r = Ok tt -> exists rfc pre post, render m = Ok rfc /\
     talk w = pre ++ [(MailFrom (Address_ (from m)), None)] ++ map (fun a => (RcptTo (Address_ a), None)) (to_ m) ++
       [(DataCmd, None); (DataWrite rfc, None); (DataClose, None)] ++ post /\
     forallb (fun x => negb (is_data x)) (pre ++ post) = true).
Proof.
  rewrite Send_cut. unfold bindM. intros Hrun.
  assert (forall es, forallb (fun x => negb (is_data x)) es = true -> forall x, x ∈ es -> is_data x = false) as Hno.
  { intros es He x Hx. rewrite forallb_forall in He. apply list_elem_of_In in Hx. by apply negb_true_iff, He. }
  destruct (opening E render s m fresh) as [[rfc|e] w1] eqn:E1.
  all: destruct (quiet_opening _ _ _ _ _ _ _ E1) as (pre & H1 & Q1); cbn in H1.
  2:{ injection Hrun as <- <-. rewrite H1. split; [|done]. split; [done|]. intros (b & Hb & _). by apply (Hno _ Q1) in Hb. }
  destruct (envelope E m w1) as [[[]|e] w2] eqn:E2.
  all: destruct (quiet_envelope _ _ _ _ _ E2) as (env & H2 & Q2).
  2:{ injection Hrun as <- <-. rewrite H2, H1. split; [|done]. split; [done|]. intros (b & Hb & _).
      apply elem_of_app in Hb as [Hb|Hb]; [by apply (Hno _ Q1) in Hb|by apply (Hno _ Q2) in Hb]. }
  destruct (body_talk _ _ _ _ _ Hrun) as (a & b & post & H3 & Q3 & Hr). pose proof (envelope_ok _ _ _ _ E2) as H2'.
  split.
  - rewrite Hr, H3, H2, H1. split.
    + intros [-> ->]. exists rfc. set_solver.
    + intros (x & Hx & Hy). assert (forall y, y ∈ (pre ++ env) ++ post -> is_data y = false) as Hall.
      { intros y Hin. apply (Hno ((pre ++ env) ++ post)); [|done]. by rewrite !forallb_app, Q1, Q2, Q3. }
      split.
      * assert ((DataWrite x, None) = (DataWrite rfc, a)) as Heq; [|congruence].
        assert ((DataWrite x, None) ∉ (pre ++ env) ++ post) by (by intros Hin%Hall). set_solver.
      * assert ((DataClose, None) = (DataClose, b)) as Heq; [|congruence].
        assert ((DataClose, None) ∉ (pre ++ env) ++ post) by (by intros Hin%Hall). set_solver.
  - intros Hok. destruct (proj1 Hr Hok) as [-> ->]. exists rfc, pre, post. split; [by eapply opening_ok|].
    rewrite H3, H2', H1, <- !app_assoc. split; [done|]. by rewrite forallb_app, Q1.
Qed.

Module Post.
Definition config : Config :=
  {| c_Address := "mail.example.com:587"; c_TLSMode := TLSSTARTTLS; c_TLSConfig := None; c_Username := "ann";
     c_Password := "hunter2"; c_LocalName := EmptyString; c_DialTimeout := 0; c_OperationTimeout := 0;
     UnsafeAllowPlaintext := false |}.
Definition split (s : string) : option (string * string) :=
  let '(h, p, ok) := Cut s ":"%char in if ok : bool then Some (h, p) else None.
Definition sender : Sender :=
  {| address := "mail.example.com:587"; host := "mail.example.com"; tlsMode := TLSSTARTTLS;
     tls_config := {| ServerName := "mail.example.com"; MinVersion := VersionTLS12 |}; username := "ann";
     password := "hunter2"; localName := "localhost"; dialTimeout := defaultDialTimeout;
     operationTimeout := defaultOperationTimeout; plaintext := false |}.
Definition letter : Message :=
  {| from := {| Name := EmptyString; Address_ := "ann@example.com" |};
     to_ := [{| Name := EmptyString; Address_ := "bob@example.com" |}]; replyTo := None; subject := "Hi";
     text := "Hello"; html := EmptyString; date := 1; valid := true |}.
(** A server that breaks off at the end, when it is asked to quit. *)
Definition server : smtp_env :=
  {| peer := fun n => if (19 <=? n)%nat then Some (Errorf "connection reset") else None; ctxErr := fun _ => None;
     deadlineErr := fun _ => None; starttls := true |}.
Definition render (m : Message) : result string := Ok "the letter".
End Post.

Lemma secrets_stay_under_tls_witness :
  exists w, Send Post.server Post.render (Some Post.sender) Post.letter fresh = (Ok tt, w) /\
    Forall (fun e => match what e with Auth _ _ | DataWrite _ => tls e = true | _ => True end) (log w) /\
    length (log w) = 11%nat.
Proof.
  destruct (Send Post.server Post.render (Some Post.sender) Post.letter fresh) as [r w] eqn:Hs.
  destruct (secrets_stay_under_tls Post.split (fun _ => false) (fun a b => bool_decide (a = b)) Post.server Post.render
    Post.config Post.sender Post.letter r w) as [Hf _]; [vm_compute; reflexivity|exact Hs|].
  exists w. vm_compute in Hs. injection Hs as <- <-. split; [reflexivity|]. split; [|reflexivity].
  eapply Forall_impl; [exact Hf|]. intros e He. cbv beta in He. destruct (what e); try exact I; [exact He|]. destruct He as [He|He]; [exact He|discriminate He].
Defined.

Lemma send_succeeds_when_the_message_is_taken_witness :
  exists w, Send Post.server Post.render (Some Post.sender) Post.letter fresh = (Ok tt, w) /\ taken (talk w) /\
    exists e, last (talk w) = Some (Quit, Some e).
Proof.
  destruct (Send Post.server Post.render (Some Post.sender) Post.letter fresh) as [r w] eqn:Hs.
  destruct (send_succeeds_when_the_message_is_taken _ _ _ _ _ _ Hs) as [[Ht _] _].
  exists w. vm_compute in Hs. injection Hs as <- <-. split; [reflexivity|]. split; [by apply Ht|].
  eexists. vm_compute. reflexivity.
Defined.
