(* ===== verification/Asset.v ===== *)
(** * Assets ([asset/asset.go])

    An immutable inventory of static files, read when it is made, and the requests it answers.
    [fs.WalkDir] is the list of entries it visits, each with the answers of the filesystem;
    SHA-256 is a parameter; [http.ServeContent] gets the file that [ServeHTTP] chose.  Shown
    below: the inventory stays within its limits, and requests reach exactly its files. *)

From S2P Require Import Prelude GoStrings GoUtf8 GoUrl.
Local Open Scope go_scope.
Local Open Scope Z_scope.

Definition defaultURLPrefix : string := "/assets".
Definition DefaultMaxFiles : Z := 256.
Definition DefaultMaxFileBytes : Z := 8388608.
Definition DefaultMaxTotalBytes : Z := 33554432.

Record Config : Type := {
  Root : string; URLPrefix : string; MaxFiles : Z; MaxFileBytes : Z; MaxTotalBytes : Z
}.
Record file : Type := { body : string; contentType : string; etag : string }.
Record Set_ : Type := { prefix : string; files : gmap string file }.

Definition contentTypes : gmap string string := list_to_map [
  (".avif", "image/avif"); (".css", "text/css; charset=utf-8"); (".gif", "image/gif");
  (".ico", "image/x-icon"); (".jpeg", "image/jpeg"); (".jpg", "image/jpeg");
  (".js", "text/javascript; charset=utf-8"); (".json", "application/json");
  (".mjs", "text/javascript; charset=utf-8"); (".otf", "font/otf"); (".png", "image/png");
  (".ttf", "font/ttf"); (".wasm", "application/wasm"); (".webp", "image/webp");
  (".woff", "font/woff"); (".woff2", "font/woff2")].

(** ** Paths *)

Definition one_of (set : string) (c : ascii) : bool :=
  negb (all_chars (fun d => negb (bool_decide (d = c))) set).
Definition ContainsAny (s set : string) : bool := negb (all_chars (fun c => negb (one_of set c)) s).

(** [fs.ValidPath] *)
Definition ValidPath (name : string) : bool :=
  ValidString name &&
  (bool_decide (name = ".") ||
   forallb (fun s => negb (bool_decide (s = EmptyString)) && negb (bool_decide (s = ".")) && negb (bool_decide (s = "..")))
     (Split name "/"%char)).

(** [path.Ext] *)
Fixpoint ext_of (reversed acc : string) : string :=
  match reversed with
  | EmptyString => EmptyString
  | String c rest =>
      if bool_decide (c = "/"%char) then EmptyString
      else if bool_decide (c = "."%char) then String c acc else ext_of rest (String c acc)
  end.
Definition path_Ext (p : string) : string := ext_of (rev_string p EmptyString) EmptyString.

Definition reserved : list string :=
  ["CON"; "PRN"; "AUX"; "NUL"; "COM1"; "COM2"; "COM3"; "COM4"; "COM5"; "COM6"; "COM7"; "COM8"; "COM9";
   "LPT1"; "LPT2"; "LPT3"; "LPT4"; "LPT5"; "LPT6"; "LPT7"; "LPT8"; "LPT9"].
Definition portable (r : Z) : bool :=
  ((97 <=? r) && (r <=? 122)) || ((65 <=? r) && (r <=? 90)) || ((48 <=? r) && (r <=? 57)) ||
  (r =? 45) || (r =? 95) || (r =? 46).
Definition validSegment (segment : string) : bool :=
  if bool_decide (segment = EmptyString) || HasPrefix segment "." || HasSuffix segment "." then false
  else if negb (forallb portable (runes segment)) then false
  else let '(base, _, _) := Cut segment "."%char in negb (bool_decide (ToUpper base ∈ reserved)).

Definition validLogicalPath (name : string) : bool :=
  if bool_decide (name = EmptyString) || negb (ValidPath name) || ContainsAny name "\%" ||
     negb (bool_decide (Clean name = name))
  then false else forallb validSegment (Split name "/"%char).

Definition pathRelative (root name : string) : result string :=
  if bool_decide (root = ".") then Ok name
  else if HasPrefix name (root +:+ "/") then Ok (drop_string (String.length root + 1) name)
  else Err (Errorf "asset: path %q escaped root %q").

Fixpoint trim_slashes (s : string) : string :=
  match s with String "/" rest => trim_slashes rest | _ => s end.
Definition Trim (s : string) : string :=
  rev_string (trim_slashes (rev_string (trim_slashes s) EmptyString)) EmptyString.
Fixpoint Contains2 (s sub : string) : bool :=
  HasPrefix s sub || match s with EmptyString => false | String _ s' => Contains2 s' sub end.

Definition validatedPrefix (p : string) : result string :=
  let p := if bool_decide (p = EmptyString) then defaultURLPrefix else p in
  let bad := Errorf "asset: URL prefix %q must be a canonical absolute path without a trailing /" in
  if bool_decide (p = "/") || negb (HasPrefix p "/") || HasSuffix p "/" || ContainsAny p "\%?#" ||
     Contains2 p "//" || negb (bool_decide (Clean p = p))
  then Err bad
  else if forallb (fun s => bool_decide (s = EmptyString) || validSegment s) (Split (Trim p) "/"%char)
  then Ok (p +:+ "/") else Err bad.

Definition validatedLimits (c : Config) : result (Z * Z * Z) :=
  let maxFiles := if MaxFiles c =? 0 then DefaultMaxFiles else MaxFiles c in
  let maxFile := if MaxFileBytes c =? 0 then DefaultMaxFileBytes else MaxFileBytes c in
  let maxTotal := if MaxTotalBytes c =? 0 then DefaultMaxTotalBytes else MaxTotalBytes c in
  if (maxFiles <? 0) || (maxFile <? 0) || (maxTotal <? 0) then Err (Errorf "asset: limits must be positive")
  else if maxFile >? maxTotal then Err (Errorf "asset: per-file limit must not exceed total limit")
  else Ok (maxFiles, maxFile, maxTotal).

(** ** Reading the inventory *)

(** A file of the filesystem: opening it, its content with an error behind it, closing it. *)
Record fs_file : Type := {
  openErr : option error; fs_content : string; readErr : option error; closeErr : option error
}.
Inductive fs_entry : Type :=
| WalkErr (e : error)
| Directory
| FileEntry (infoErr : option error) (regular : bool) (size : Z) (f : fs_file).

Definition readBounded (f : fs_file) (limit : Z) : result string :=
  match openErr f with
  | Some e => Err e
  | None =>
      let extra := byte_len (fs_content f) >? limit in
      match (if extra then None else readErr f), closeErr f with
      | Some e, Some c => Err (Joined e c)
      | Some e, None => Err e
      | None, Some c => Err c
      | None, None => if extra then Err (Errorf "content exceeds limit %d bytes") else Ok (fs_content f)
      end
  end.

(** What the walk has collected. *)
Record inventory : Type := { set_files : gmap string file; casePaths : gmap string string; total : Z }.

Section Asset.
Context (sha256_hex : string -> string).

Definition visit_file (maxFiles maxFile maxTotal : Z) (logical : string) (infoErr : option error) (regular : bool)
    (size : Z) (f : fs_file) (inv : inventory) : result inventory :=
  match infoErr with
  | Some e => Err (Wrapf "asset: inspect %q: %w" e)
  | None =>
      if negb regular then Err (Errorf "asset: %q is not a regular file")
      else if Z.of_nat (stdpp.base.size (set_files inv)) >=? maxFiles
      then Err (Errorf "asset: file count exceeds limit %d")
      else match contentTypes !! ToLower (path_Ext logical) with
      | None => Err (Errorf "asset: %q has an unsupported file type")
      | Some mediaType =>
          if (size <? 0) || (size >? maxFile) then Err (Errorf "asset: %q exceeds per-file limit %d bytes")
          else match readBounded f maxFile with
          | Err e => Err (Wrapf "asset: read %q: %w" e)
          | Ok body =>
              if negb (byte_len body =? size) then Err (Errorf "asset: %q changed size while being read")
              else if byte_len body >? maxTotal - total inv
              then Err (Errorf "asset: total size exceeds limit %d bytes")
              else Ok {| set_files := <[logical := {| body := body; contentType := mediaType;
                           etag := String (chr 34) (sha256_hex body +:+ String (chr 34) EmptyString) |}]> (set_files inv);
                         casePaths := casePaths inv; total := total inv + byte_len body |}
          end
      end
  end.

Definition visit (root : string) (maxFiles maxFile maxTotal : Z) (inv : inventory) (item : string * fs_entry)
    : result inventory :=
  let '(name, entry) := item in
  match entry with
  | WalkErr e => Err e
  | _ =>
      if bool_decide (name = root) then Ok inv
      else
        try logical := pathRelative root name in
        if negb (validLogicalPath logical) then Err (Errorf "asset: path %q is not portable and canonical")
        else match casePaths inv !! ToLower logical with
        | Some _ => Err (Errorf "asset: paths %q and %q collide when case-folded")
        | None =>
            let inv := {| set_files := set_files inv; casePaths := <[ToLower logical := logical]> (casePaths inv);
                          total := total inv |} in
            match entry with
            | FileEntry infoErr regular size f =>
                visit_file maxFiles maxFile maxTotal logical infoErr regular size f inv
            | _ => Ok inv
            end
        end
  end.
Fixpoint walk (root : string) (maxFiles maxFile maxTotal : Z) (items : list (string * fs_entry)) (inv : inventory)
    : result inventory :=
  match items with
  | [] => Ok inv
  | item :: rest => try inv := visit root maxFiles maxFile maxTotal inv item in
                    walk root maxFiles maxFile maxTotal rest inv
  end.

(** [New]; [stat] is [fs.Stat] of the root: whether it is a directory. *)
Definition New (stat : result bool) (items : list (string * fs_entry)) (c : Config) : result Set_ :=
  let root := if bool_decide (Root c = EmptyString) then "." else Root c in
  if negb (bool_decide (root = ".")) && (negb (ValidPath root) || negb (validLogicalPath root))
  then Err (Errorf "asset: root %q is not a canonical filesystem path")
  else
  try p := validatedPrefix (URLPrefix c) in
  try limits := validatedLimits c in
  let '(maxFiles, maxFile, maxTotal) := limits in
  match stat with
  | Err e => Err (Wrapf "asset: inspect root %q: %w" e)
  | Ok false => Err (Errorf "asset: root %q is not a directory")
  | Ok true =>
      match walk root maxFiles maxFile maxTotal items {| set_files := ∅; casePaths := ∅; total := 0 |} with
      | Err e => Err (Wrapf "asset: load root %q: %w" e)
      | Ok inv => Ok {| prefix := p; files := set_files inv |}
      end
  end.
End Asset.

(** ** Addresses and requests *)

Definition URL (set : Set_) (logical : string) : result string :=
  if negb (validLogicalPath logical) then Err (Errorf "asset: logical path %q is not portable and canonical")
  else match files set !! logical with
  | None => Err (Errorf "asset: unknown asset %q")
  | Some _ => Ok (prefix set +:+ Join (map PathEscape (Split logical "/"%char)) "/")
  end.

(** What [ServeHTTP] answers: an error page, or a file for [http.ServeContent] with headers. *)
Inductive response : Type :=
| ErrorPage (status : Z) (allow : bool) (head : bool)
| Content (logical : string) (item : file) (headers : list (string * string)).

Record request : Type := { Method : string; Path : string; RawPath : string; RawQuery : string }.

Definition ServeHTTP (set : Set_) (r : request) : response :=
  let head := bool_decide (Method r = "HEAD") in
  if negb (bool_decide (Method r = "GET")) && negb head then ErrorPage 405 true false
  else if negb (bool_decide (RawPath r = EmptyString)) || negb (bool_decide (RawQuery r = EmptyString)) ||
          negb (HasPrefix (Path r) (prefix set))
  then ErrorPage 404 false head
  else
    let logical := drop_string (String.length (prefix set)) (Path r) in
    if negb (validLogicalPath logical) then ErrorPage 404 false head
    else match files set !! logical with
    | None => ErrorPage 404 false head
    | Some item =>
        Content logical item
          [("Cache-Control", "public, max-age=0, must-revalidate"); ("Content-Type", contentType item);
           ("Content-Length", Itoa (byte_len (body item))); ("ETag", etag item);
           ("X-Content-Type-Options", "nosniff")]
    end.

(** ** Portable names need no escaping *)

Lemma inb_range lo hi c : inb lo hi c = true -> Z.of_nat lo <= ord c <= Z.of_nat hi.
Proof. unfold inb, ord. rewrite andb_true_iff, !Nat.leb_le. lia. Qed.
Lemma cont_range c : cont c = true -> 128 <= ord c <= 191.
Proof. apply inb_range. Qed.

Lemma second_of_3_range a b : second_of_3 a b = true -> 128 <= (ord a - 224) * 4096 + (ord b - 128) * 64.
Proof.
  unfold second_of_3. destruct (inb 224 224 a) eqn:E1; [intros Hb|].
  { apply inb_range in E1, Hb. lia. }
  destruct (inb 237 237 a) eqn:E2; [intros Hb|].
  { apply inb_range in E2, Hb. lia. }
  intros [Ha Hb]%andb_true_iff. apply inb_range in Ha. apply cont_range in Hb.
  assert (ord a <> 224); [|lia]. intros Heq. unfold inb in E1. unfold ord in Heq.
  apply andb_false_iff in E1 as [E1|E1]; apply Nat.leb_gt in E1; lia.
Qed.
Lemma second_of_4_range a b : second_of_4 a b = true -> 128 <= (ord a - 240) * 262144 + (ord b - 128) * 4096.
Proof.
  unfold second_of_4. destruct (inb 240 240 a) eqn:E1; [intros Hb|].
  { apply inb_range in E1, Hb. lia. }
  destruct (inb 244 244 a) eqn:E2; [intros Hb|].
  { apply inb_range in E2, Hb. lia. }
  intros [Ha Hb]%andb_true_iff. apply inb_range in Ha. apply cont_range in Hb. lia.
Qed.

(** A byte that is not ASCII starts a rune that is not ASCII. *)
Lemma runes_high a s : inb 0 127 a = false -> exists r rs, runes (String a s) = r :: rs /\ 128 <= r.
Proof.
  intros Ha. cbn [runes]. rewrite Ha. unfold RuneError.
  destruct s as [|b s]; [do 2 eexists; split; [done|lia]|].
  destruct (inb 194 223 a && cont b) eqn:E2.
  { do 2 eexists. split; [done|]. apply andb_true_iff in E2 as [E2 Eb]. apply inb_range in E2. apply cont_range in Eb. lia. }
  destruct s as [|c s]; [do 2 eexists; split; [done|lia]|].
  destruct (second_of_3 a b && cont c) eqn:E3.
  { do 2 eexists. split; [done|]. apply andb_true_iff in E3 as [E3 Ec]. apply second_of_3_range in E3. apply cont_range in Ec. lia. }
  destruct s as [|d s]; [do 2 eexists; split; [done|lia]|].
  destruct (second_of_4 a b && cont c && cont d) eqn:E4; [|do 2 eexists; split; [done|lia]].
  do 2 eexists. split; [done|]. rewrite !andb_true_iff in E4. destruct E4 as [[E4 Ec] Ed].
  apply second_of_4_range in E4. apply cont_range in Ec, Ed. lia.
Qed.

Lemma portable_char c : inb 0 127 c = true -> portable (ord c) = true -> segmentC c = true.
Proof. destruct c as [[] [] [] [] [] [] [] []]; vm_compute; done. Qed.

Lemma portable_escape s : forallb portable (runes s) = true -> PathEscape s = s.
Proof.
  induction s as [|c s IH]; [done|]. destruct (inb 0 127 c) eqn:Hc.
  - cbn [runes PathEscape]. rewrite Hc. intros [Hp Hs]%andb_true_iff.
    by rewrite (portable_char c Hc Hp), (IH Hs).
  - destruct (runes_high c s Hc) as (r & rs & -> & Hr). intros [Hp _]%andb_true_iff. unfold portable in Hp. lia.
Qed.

Lemma validSegment_portable s : validSegment s = true -> forallb portable (runes s) = true.
Proof. unfold validSegment. case_match; [done|]. by destruct (forallb portable (runes s)). Qed.

Lemma Split_Join_id s : Join (Split s "/"%char) "/" = s.
Proof.
  induction s as [|c s IH]; [done|]. cbn [Split]. pose proof (Split_nonempty s "/"%char) as Hne.
  case_bool_decide as Hc.
  - subst. destruct (Split s "/"%char) as [|q r] eqn:E; [done|].
    change (Join (EmptyString :: q :: r) "/") with (String "/" (Join (q :: r) "/")). by rewrite IH.
  - destruct (Split s "/"%char) as [|q r] eqn:E; [done|]. destruct r as [|q2 r]; cbn [Join] in *; [by subst q|].
    rewrite string_app_cons. by rewrite IH.
Qed.

Lemma logical_escape l : validLogicalPath l = true -> Join (map PathEscape (Split l "/"%char)) "/" = l.
Proof.
  unfold validLogicalPath. case_match; [done|]. intros Hs.
  assert (map PathEscape (Split l "/"%char) = Split l "/"%char) as ->; [|apply Split_Join_id].
  rewrite <- map_id. apply map_ext_in. intros s Hin. rewrite forallb_forall in Hs.
  by apply portable_escape, validSegment_portable, Hs.
Qed.

(** ** The walk *)

Section Walk.
Context (sha256_hex : string -> string) (root : string) (maxFiles maxFile maxTotal : Z).

Definition bytes_of (m : gmap string file) : Z := map_fold (fun _ f n => byte_len (body f) + n) 0 m.

(** Where a file of the inventory comes from: an entry below the root that was read whole. *)
Definition comes_from (items : list (string * fs_entry)) (l : string) (f : file) : Prop :=
  exists name i sz x, (name, FileEntry i true sz x) ∈ items /\ pathRelative root name = Ok l /\
    body f = fs_content x /\ sz = byte_len (body f) /\
    etag f = String (chr 34) (sha256_hex (body f) +:+ String (chr 34) EmptyString).

Record inv_ok (items : list (string * fs_entry)) (inv : inventory) : Prop := {
  ok_files : forall l f, set_files inv !! l = Some f ->
    validLogicalPath l = true /\ casePaths inv !! ToLower l = Some l /\ byte_len (body f) <= maxFile /\
    contentTypes !! ToLower (path_Ext l) = Some (contentType f) /\ comes_from items l f;
  ok_total : total inv = bytes_of (set_files inv);
  ok_limit : total inv <= maxTotal;
  ok_count : Z.of_nat (size (set_files inv)) <= maxFiles
}.

Lemma comes_from_mono items item l f : comes_from items l f -> comes_from (items ++ [item]) l f.
Proof. intros (n & i & sz & x & Hin & H). exists n, i, sz, x. split; [set_solver|done]. Qed.

Lemma readBounded_ok x limit b : readBounded x limit = Ok b -> b = fs_content x /\ byte_len b <= limit.
Proof.
  unfold readBounded. destruct (openErr x); [done|].
  destruct (byte_len (fs_content x) >? limit) eqn:G; repeat case_match; try done. intros [= <-]. split; [done|lia].
Qed.

Lemma visit_file_ok items inv name logical i reg sz x inv' :
  inv_ok items inv -> validLogicalPath logical = true -> pathRelative root name = Ok logical ->
  casePaths inv !! ToLower logical = None ->
  visit_file sha256_hex maxFiles maxFile maxTotal logical i reg sz x
    {| set_files := set_files inv; casePaths := <[ToLower logical := logical]> (casePaths inv); total := total inv |} = Ok inv' ->
  inv_ok (items ++ [(name, FileEntry i reg sz x)]) inv'.
Proof.
  intros [Hf Ht Hl Hn] Hv Hrel Hnew. unfold visit_file. destruct i; [done|]. destruct reg; [|done]. cbn [negb set_files].
  destruct (Z.of_nat (size (set_files inv)) >=? maxFiles) eqn:Hcount; [done|].
  destruct (contentTypes !! ToLower (path_Ext logical)) as [ty|] eqn:Hty; [|done].
  destruct ((sz <? 0) || _); [done|]. destruct (readBounded x maxFile) as [b|] eqn:Hr; [|done].
  apply readBounded_ok in Hr as [Hb Hbl]. destruct (negb (byte_len b =? sz)) eqn:Hsz; [done|]. cbn [total].
  destruct (byte_len b >? maxTotal - total inv) eqn:Htot; [done|]. intros [= <-].
  assert (set_files inv !! logical = None) as Hfresh.
  { destruct (set_files inv !! logical) as [f|] eqn:E; [|done]. destruct (Hf _ _ E) as (_ & Hc & _). congruence. }
  apply negb_false_iff, Z.eqb_eq in Hsz.
  constructor; cbn [set_files casePaths total].
  - intros l f [[<- <-]|[Hne Hlf]]%lookup_insert_Some.
    + split_and!; try done; [by rewrite lookup_insert_eq|].
      exists name, None, sz, x. split; [set_solver|]. cbn. split_and!; congruence.
    + destruct (Hf _ _ Hlf) as (Hv' & Hc & Hb' & Hty' & Hfrom). split_and!; try done.
      * rewrite lookup_insert_ne; [done|]. congruence.
      * by apply comes_from_mono.
  - unfold bytes_of. rewrite map_fold_insert_L; [rewrite Ht; unfold bytes_of; cbn; lia|intros; lia|done].
  - lia.
  - rewrite map_size_insert_None by done. lia.
Qed.

Lemma visit_ok items inv item inv' :
  inv_ok items inv -> visit sha256_hex root maxFiles maxFile maxTotal inv item = Ok inv' ->
  inv_ok (items ++ [item]) inv'.
Proof.
  intros Hok. destruct item as [name entry]. unfold visit.
  assert (forall cp, (forall l f, set_files inv !! l = Some f -> cp !! ToLower l = Some l) ->
    inv_ok (items ++ [(name, entry)]) {| set_files := set_files inv; casePaths := cp; total := total inv |}) as Hsame.
  { intros cp Hcp. destruct Hok as [Hf Ht Hl Hn]. constructor; try done. intros l f Hlf.
    destruct (Hf _ _ Hlf) as (? & _ & ? & ? & ?). split_and!; auto using comes_from_mono. by apply (Hcp l f). }
  assert (forall l f, set_files inv !! l = Some f -> casePaths inv !! ToLower l = Some l) as Hcase.
  { intros l f Hlf. by destruct Hok as [Hf _ _ _]; destruct (Hf _ _ Hlf) as (_ & ? & _). }
  destruct entry as [e| |i reg sz x]; [done| |].
  all: destruct (bool_decide (name = root)); [intros [= <-]; by destruct inv; apply Hsame|].
  all: destruct (pathRelative root name) as [logical|] eqn:Hrel; [|done]; cbn.
  all: destruct (validLogicalPath logical) eqn:Hv; [|done]; cbn.
  all: destruct (casePaths inv !! ToLower logical) eqn:Hcp; [done|].
  - intros [= <-]. apply Hsame. intros l f Hlf. rewrite lookup_insert_ne; [by apply (Hcase l f)|].
    intros Heq. rewrite Heq in Hcp. rewrite (Hcase _ _ Hlf) in Hcp. done.
  - intros Hvf. by eapply visit_file_ok.
Qed.

Lemma walk_ok items done_ inv inv' :
  inv_ok done_ inv -> walk sha256_hex root maxFiles maxFile maxTotal items inv = Ok inv' -> inv_ok (done_ ++ items) inv'.
Proof.
  revert done_ inv; induction items as [|item items IH]; intros d inv Hok; cbn.
  - intros [= <-]. by rewrite app_nil_r.
  - destruct (visit sha256_hex root maxFiles maxFile maxTotal inv item) as [inv1|] eqn:Hv; [|done]. cbn. intros Hw.
    rewrite cons_middle, app_assoc. eapply IH; [|exact Hw]. by eapply visit_ok.
Qed.
End Walk.

(** What [New] guarantees of a set. *)
Lemma New_ok sha256_hex stat items c set :
  New sha256_hex stat items c = Ok set ->
  exists root maxFiles maxFile maxTotal inv,
    root = (if bool_decide (Root c = EmptyString) then "." else Root c) /\
    validatedLimits c = Ok (maxFiles, maxFile, maxTotal) /\ files set = set_files inv /\
    inv_ok sha256_hex root maxFiles maxFile maxTotal items inv.
Proof.
  unfold New. cbv zeta. set (root := if bool_decide (Root c = EmptyString) then "." else Root c).
  destruct (negb (bool_decide (root = ".")) && _); [done|].
  destruct (validatedPrefix (URLPrefix c)) as [p|]; [|done]. cbn.
  destruct (validatedLimits c) as [[[mf mb] mt]|] eqn:Hlim; [|done]. cbn. destruct stat as [[]|]; [|done..].
  destruct (walk _ _ _ _ _ _ _) as [inv|] eqn:Hw; [|done]. intros [= <-].
  exists root, mf, mb, mt, inv. split_and!; try done.
  apply (walk_ok _ _ _ _ _ items [] {| set_files := ∅; casePaths := ∅; total := 0 |}); [|done].
  assert (0 <= mf /\ 0 <= mt) as [Hmf Hmt].
  { unfold validatedLimits in Hlim. match type of Hlim with (if ?b then _ else _) = _ => destruct b eqn:G; [done|] end.
    match type of Hlim with (if ?b then _ else _) = _ => destruct b eqn:G2; [done|] end. rewrite !orb_false_iff in G. injection Hlim. lia. }
  by constructor.
Qed.


Lemma HasPrefix_app p s : HasPrefix (p +:+ s) p = true.
Proof.
  induction p as [|c p IH]; [by destruct s|]. rewrite string_app_cons. cbn. by rewrite bool_decide_eq_true_2.
Qed.

Lemma HasPrefix_drop p s : HasPrefix s p = true -> s = p +:+ drop_string (String.length p) s.
Proof.
  revert s; induction p as [|c p IH]; intros [|x s]; try done. cbn. intros [Hx Hp]%andb_true_iff.
  apply bool_decide_eq_true in Hx as ->. rewrite string_app_cons. f_equal. by apply IH.
Qed.

(** C10. Requests reach exactly the inventory.  In a set that [New] made, every file has an
    address, a plain GET or HEAD of that address is answered with that file and its type, and
    whatever a request asks for, a file it is answered with is one of the set, asked for by
    its own path: the path has no empty, dot or dot-dot segment and names a regular file that
    was read whole below the root. *)
Theorem requests_reach_exactly_the_inventory sha256_hex stat items c set :
  New sha256_hex stat items c = Ok set ->
  (forall l f, files set !! l = Some f -> URL set l = Ok (prefix set +:+ l) /\
     forall r, Method r = "GET" \/ Method r = "HEAD" -> Path r = prefix set +:+ l -> RawPath r = EmptyString ->
       RawQuery r = EmptyString -> exists hs, ServeHTTP set r = Content l f hs /\
         ("Content-Type", contentType f) ∈ hs /\ ("ETag", etag f) ∈ hs) /\
  (forall r l f hs, ServeHTTP set r = Content l f hs ->
     files set !! l = Some f /\ Path r = prefix set +:+ l /\
     Forall (fun s => s <> EmptyString /\ s <> "." /\ s <> "..") (Split l "/"%char) /\
     contentTypes !! ToLower (path_Ext l) = Some (contentType f) /\
     comes_from sha256_hex (if bool_decide (Root c = EmptyString) then "." else Root c) items l f).
Proof.
  intros Hnew. destruct (New_ok _ _ _ _ _ Hnew) as (root & mf & mb & mt & inv & -> & _ & Hfiles & [Hf _ _ _]).
  rewrite <- Hfiles in Hf. split.
  - intros l f Hl. destruct (Hf _ _ Hl) as (Hv & _ & _ & _ & _). split.
    { unfold URL. by rewrite Hv, Hl, logical_escape. }
    intros r Hm Hp Hraw Hq.
    assert (forall hs, ServeHTTP set r = Content l f hs -> hs = [("Cache-Control", "public, max-age=0, must-revalidate");
      ("Content-Type", contentType f); ("Content-Length", Itoa (byte_len (body f))); ("ETag", etag f);
      ("X-Content-Type-Options", "nosniff")] -> exists hs, ServeHTTP set r = Content l f hs /\
         ("Content-Type", contentType f) ∈ hs /\ ("ETag", etag f) ∈ hs) as Hfin.
    { intros hs Hs ->. eexists. split; [exact Hs|]. split; set_solver. }
    eapply Hfin; [|reflexivity]. unfold ServeHTTP. rewrite Hraw, Hq, Hp, HasPrefix_app, drop_string_app, Hv, Hl.
    by destruct Hm as [-> | ->].
  - intros r l f hs. unfold ServeHTTP. destruct (negb _ && negb _); [done|]. destruct (_ || _ || _) eqn:G; [done|].
    set (logical := drop_string _ (Path r)). destruct (validLogicalPath logical) eqn:Hv; [|done]. cbn [negb].
    destruct (files set !! logical) as [item|] eqn:Hl; [|done]. intros [= <- <- <-].
    destruct (Hf _ _ Hl) as (_ & _ & _ & Hty & Hfrom). split_and!; try done.
    + rewrite !orb_false_iff in G. destruct G as [_ G]. apply negb_false_iff in G. by apply HasPrefix_drop.
    + clear G. unfold validLogicalPath in Hv. destruct (_ || _ || _ || _); [done|]. apply List.Forall_forall. intros s Hs.
      rewrite forallb_forall in Hv. specialize (Hv s Hs). unfold validSegment in Hv. destruct (_ || _ || _) eqn:G2; [done|].
      rewrite !orb_false_iff in G2. destruct G2 as [[G1 G2] _]. apply bool_decide_eq_false in G1.
      split_and!; [done| |]; by intros ->.
Qed.

(** The inventory stays within its limits: not more files than allowed, none longer than
    allowed, not more bytes in total, and no two names that differ only in case. *)
Theorem inventory_respects_its_limits sha256_hex stat items c set :
  New sha256_hex stat items c = Ok set ->
  exists maxFiles maxFile maxTotal, validatedLimits c = Ok (maxFiles, maxFile, maxTotal) /\
    Z.of_nat (size (files set)) <= maxFiles /\ bytes_of (files set) <= maxTotal /\
    (forall l f, files set !! l = Some f -> byte_len (body f) <= maxFile) /\
    (forall l1 l2 f1 f2, files set !! l1 = Some f1 -> files set !! l2 = Some f2 -> ToLower l1 = ToLower l2 -> l1 = l2).
Proof.
  intros Hnew. destruct (New_ok _ _ _ _ _ Hnew) as (root & mf & mb & mt & inv & -> & Hlim & Hfiles & [Hf Ht Hl Hc]).
  rewrite <- Hfiles in *. exists mf, mb, mt. split_and!; try done; [lia| |].
  - intros l f Hlf. by destruct (Hf _ _ Hlf) as (_ & _ & ? & _).
  - intros l1 l2 f1 f2 H1 H2 Heq. destruct (Hf _ _ H1) as (_ & C1 & _), (Hf _ _ H2) as (_ & C2 & _). congruence.
Qed.

Module Site.
Definition text (s : string) : fs_file := {| openErr := None; fs_content := s; readErr := None; closeErr := None |}.
Definition items : list (string * fs_entry) :=
  [(".", Directory); ("css", Directory); ("css/site.css", FileEntry None true 6 (text "body{}"));
   ("app.js", FileEntry None true 3 (text "1;2"))].
Definition config : Config :=
  {| Root := EmptyString; URLPrefix := EmptyString; MaxFiles := 2; MaxFileBytes := 6; MaxTotalBytes := 9 |}.
Definition hex (s : string) : string := "d1935".
Definition get (p : string) : request := {| Method := "GET"; Path := p; RawPath := EmptyString; RawQuery := EmptyString |}.
End Site.

Lemma requests_reach_exactly_the_inventory_witness :
  exists set f hs, New Site.hex (Ok true) Site.items Site.config = Ok set /\
    ServeHTTP set (Site.get "/assets/css/site.css") = Content "css/site.css" f hs /\ body f = "body{}" /\
    URL set "css/site.css" = Ok "/assets/css/site.css" /\
    ServeHTTP set (Site.get "/assets/css/../app.js") = ErrorPage 404 false false.
Proof.
  destruct (New Site.hex (Ok true) Site.items Site.config) as [set|] eqn:Hn; [|vm_compute in Hn; discriminate Hn].
  destruct (requests_reach_exactly_the_inventory _ _ _ _ _ Hn) as [Hin _].
  pose proof Hn as Hs. vm_compute in Hs. injection Hs as <-.
  destruct (Hin "css/site.css" _ eq_refl) as [Hu Hr].
  destruct (Hr (Site.get "/assets/css/site.css")) as (hs & Hc & _); [by left|reflexivity..|].
  eexists _, _, hs. split; [reflexivity|]. split; [exact Hc|]. split; [reflexivity|]. split; [exact Hu|]. reflexivity.
Defined.

Lemma inventory_respects_its_limits_witness :
  exists set, New Site.hex (Ok true) Site.items Site.config = Ok set /\ bytes_of (files set) <= 9 /\
    Z.of_nat (size (files set)) <= 2 /\
    exists e, New Site.hex (Ok true) (Site.items ++ [("APP.js", FileEntry None true 0 (Site.text EmptyString))]) Site.config = Err e.
Proof.
  destruct (New Site.hex (Ok true) Site.items Site.config) as [set|] eqn:Hn; [|vm_compute in Hn; discriminate Hn].
  destruct (inventory_respects_its_limits _ _ _ _ _ Hn) as (mf & mb & mt & Hl & Hc & Hb & _).
  vm_compute in Hl. injection Hl as <- <- <-. exists set. split; [reflexivity|]. split; [exact Hb|]. split; [exact Hc|].
  eexists. vm_compute. reflexivity.
Defined.
