(* ===== verification/Validation.v ===== *)
(** * Validation ([validation])

    The field-message API ([validation.go]), reports of violations ([report.go]) and typed
    rules ([rules.go]).  A [Rule] is the Go interface value: its [Validate] method and, when
    the value has it, [configurationIssues]; [None] stands for a nil interface, and a
    [Validate] that dereferences a nil rule panics, which is the result [None].  The letters
    and digits of Unicode and [mail.ParseAddress] are parameters. *)

From S2P Require Import Prelude GoStrings GoUtf8.
Local Open Scope Z_scope.

(** ** The field-message API *)

(** [Errors]: messages by field. *)
Definition Errors : Type := gmap string (list string).
Definition Errors_Error (errors : Errors) : string :=
  let count := map_fold (fun _ ms n => n + Z.of_nat (length ms)) 0 errors in
  "validation failed with " +:+ Itoa count +:+ " error(s)".
Definition Errors_Empty (errors : Errors) : bool := bool_decide (errors = ∅).

Record StringField : Type := {
  sf_name : string; sf_value : string; sf_required : bool; sf_minimum : Z; sf_maximum : Z;
  sf_email : bool; sf_allowed : list string
}.
Record IntField : Type := {
  if_name : string; if_value : Z; if_minimum : option Z; if_maximum : option Z
}.
(** The values of the interface [Field]. *)
Inductive Field : Type := FString (f : StringField) | FInt (f : IntField).

Definition String_ (name value : string) : StringField :=
  {| sf_name := name; sf_value := value; sf_required := false; sf_minimum := 0; sf_maximum := 0;
     sf_email := false; sf_allowed := [] |}.
Definition Required_ (f : StringField) : StringField :=
  {| sf_name := sf_name f; sf_value := sf_value f; sf_required := true; sf_minimum := sf_minimum f;
     sf_maximum := sf_maximum f; sf_email := sf_email f; sf_allowed := sf_allowed f |}.
Definition Min_ (length : Z) (f : StringField) : StringField :=
  {| sf_name := sf_name f; sf_value := sf_value f; sf_required := sf_required f; sf_minimum := length;
     sf_maximum := sf_maximum f; sf_email := sf_email f; sf_allowed := sf_allowed f |}.
Definition Max_ (length : Z) (f : StringField) : StringField :=
  {| sf_name := sf_name f; sf_value := sf_value f; sf_required := sf_required f;
     sf_minimum := sf_minimum f; sf_maximum := length; sf_email := sf_email f;
     sf_allowed := sf_allowed f |}.
Definition Email (f : StringField) : StringField :=
  {| sf_name := sf_name f; sf_value := sf_value f; sf_required := sf_required f;
     sf_minimum := sf_minimum f; sf_maximum := sf_maximum f; sf_email := true;
     sf_allowed := sf_allowed f |}.
Definition OneOf (values : list string) (f : StringField) : StringField :=
  {| sf_name := sf_name f; sf_value := sf_value f; sf_required := sf_required f;
     sf_minimum := sf_minimum f; sf_maximum := sf_maximum f; sf_email := sf_email f;
     sf_allowed := values |}.
Definition Int_ (name : string) (value : Z) : IntField :=
  {| if_name := name; if_value := value; if_minimum := None; if_maximum := None |}.
Definition IntMin (value : Z) (f : IntField) : IntField :=
  {| if_name := if_name f; if_value := if_value f; if_minimum := Some value; if_maximum := if_maximum f |}.
Definition IntMax (value : Z) (f : IntField) : IntField :=
  {| if_name := if_name f; if_value := if_value f; if_minimum := if_minimum f; if_maximum := Some value |}.

Definition message_if (b : bool) (m : string) : list string := if b then [m] else [].

Section Fields.
(** [mail.ParseAddress]: the bare address, or an error. *)
Context (ParseAddress : string -> option string).

Definition string_validate (f : StringField) : string * list string :=
  if bool_decide (TrimSpace (sf_value f) = EmptyString)
  then (sf_name f, message_if (sf_required f) "is required")
  else
    let length := RuneCountInString (sf_value f) in
    (sf_name f,
     message_if ((sf_minimum f >? 0) && (length <? sf_minimum f))
       ("must be at least " +:+ Itoa (sf_minimum f) +:+ " characters") ++
     message_if ((sf_maximum f >? 0) && (length >? sf_maximum f))
       ("must be at most " +:+ Itoa (sf_maximum f) +:+ " characters") ++
     message_if (sf_email f && negb (bool_decide (ParseAddress (sf_value f) = Some (sf_value f))))
       "must be a valid email address" ++
     message_if (negb (bool_decide (sf_allowed f = [])) && negb (bool_decide (sf_value f ∈ sf_allowed f)))
       ("must be one of: " +:+ Join (sf_allowed f) ", ")).

Definition int_validate (f : IntField) : string * list string :=
  (if_name f,
   match if_minimum f with
   | Some m => message_if (if_value f <? m) ("must be at least " +:+ Itoa m) | None => [] end ++
   match if_maximum f with
   | Some m => message_if (if_value f >? m) ("must be at most " +:+ Itoa m) | None => [] end).

Definition field_validate (f : Field) : string * list string :=
  match f with FString f => string_validate f | FInt f => int_validate f end.

Definition add_messages (errors : Errors) (name : string) (messages : list string) : Errors :=
  match messages with
  | [] => errors
  | _ => <[name := default [] (errors !! name) ++ messages]> errors
  end.
Definition Check (fields : list Field) : Errors :=
  fold_left (fun errors f => let '(name, messages) := field_validate f in
                             add_messages errors name messages) fields ∅.
End Fields.

(** ** Reports *)

Definition StateMissing : string := "missing".
Definition StateNull : string := "null".
Definition StateEmpty : string := "empty".
Definition StatePresent : string := "present".

Record Input (T : Type) : Type := { state : string; value : T }.
Arguments state {T} _.
Arguments value {T} _.
(** The zero value of the type fills the inputs that have no value. *)
Definition Missing {T} (zero : T) : Input T := {| state := StateMissing; value := zero |}.
Definition Null {T} (zero : T) : Input T := {| state := StateNull; value := zero |}.
Definition Empty {T} (zero : T) : Input T := {| state := StateEmpty; value := zero |}.
Definition Present {T} (v : T) : Input T := {| state := StatePresent; value := v |}.
Definition State {T} (input : Input T) : string :=
  if bool_decide (state input = EmptyString) then StateMissing else state input.
Definition Provided {T} (input : Input T) : bool := negb (bool_decide (State input = StateMissing)).
Definition present {T} (input : Input T) : bool := bool_decide (State input = StatePresent).

Record Issue : Type := { i_Path : string; i_Code : string; i_Message : string }.
Record Violation : Type := { Path : string; Code : string; Message : string }.
Definition CodeInvalidConfiguration : string := "validation.configuration".
Definition Report : Type := list Violation.

Definition Report_Empty (r : Report) : bool := bool_decide (r = []).
Definition Count (r : Report) : Z := Z.of_nat (length r).
Definition Report_Error (r : Report) : string :=
  "validation failed with " +:+ Itoa (Count r) +:+ " violation(s)".
Definition For_ (r : Report) (path : string) : list Violation :=
  List.filter (fun v => bool_decide (Path v = path)) r.
Definition Messages (r : Report) : Errors :=
  fold_left (fun result v => <[Path v := default [] (result !! Path v) ++ [Message v]]> result) r ∅.
Definition JoinReports (reports : list Report) : Report := concat reports.

Definition configurationViolation (path message : string) : Violation :=
  {| Path := path; Code := CodeInvalidConfiguration; Message := message |}.
Definition configurationReport (message : string) : Report := [configurationViolation "$" message].
Definition configurationIssue (message : string) : Issue :=
  {| i_Path := EmptyString; i_Code := CodeInvalidConfiguration; i_Message := message |}.

Definition joinPath (prefix suffix : string) : string :=
  if bool_decide (prefix = EmptyString) then suffix
  else if bool_decide (suffix = EmptyString) then prefix
  else prefix +:+ "." +:+ suffix.

Fixpoint Contains_ (s sub : string) : bool :=
  HasPrefix s sub || match s with EmptyString => false | String _ s' => Contains_ s' sub end.

Fixpoint code_runes (first : bool) (rs : list Z) : bool :=
  match rs with
  | [] => true
  | r :: rest =>
      (((97 <=? r) && (r <=? 122)) ||
       negb first && (((48 <=? r) && (r <=? 57)) || (r =? 95) || (r =? 45) || (r =? 46)))
      && code_runes false rest
  end.
Definition validCode (code : string) : bool :=
  if bool_decide (code = EmptyString) || (byte_len code >? 128) || negb (bool_decide (TrimSpace code = code))
  then false
  else code_runes true (runes code) && negb (Contains_ code "..") && negb (HasSuffix code ".").

(** [unicode.IsControl]: the characters of category Cc. *)
Definition isControl (r : Z) : bool := ((0 <=? r) && (r <=? 31)) || ((127 <=? r) && (r <=? 159)).
Definition validMessage (message : string) : bool :=
  if bool_decide (TrimSpace message = EmptyString) || (byte_len message >? 1024) || negb (ValidString message)
  then false else forallb (fun r => negb (isControl r)) (runes message).

Section Rules.
(** [unicode.IsLetter] and [unicode.IsDigit]. *)
Context (isLetter isDigit : Z -> bool).

Definition segment_rune (r : Z) : bool := isLetter r || isDigit r || (r =? 95) || (r =? 45).
Definition valid_segment (s : string) : bool :=
  negb (bool_decide (s = EmptyString)) && forallb segment_rune (runes s).
Definition validPath (path : string) : bool :=
  if bool_decide (path = EmptyString) || bool_decide (path = "$") || (byte_len path >? 512) ||
     negb (ValidString path) || negb (bool_decide (TrimSpace path = path))
  then false else forallb valid_segment (Split path "."%char).
Definition validRelativePath (path : string) : bool := bool_decide (path = EmptyString) || validPath path.

Definition Prefix (r : Report) (prefix : string) : Report :=
  if negb (validPath prefix)
  then configurationReport "validation report prefix must be a dot-separated field path"
  else map (fun v => {| Path := if bool_decide (Path v = "$") then prefix else joinPath prefix (Path v);
                        Code := Code v; Message := Message v |}) r.

(** ** Rules *)

Record Rule (T : Type) : Type := {
  Validate : Input T -> option (list Issue);
  configurationIssues : option (list Issue)
}.
Arguments Validate {T} _ _.
Arguments configurationIssues {T} _.

(** [RuleFunc]; [None] is the nil function. *)
Definition RuleFunc {T} (rule : option (Input T -> option (list Issue))) : Rule T :=
  let nil_func := [configurationIssue "validation rule function must not be nil"] in
  {| Validate := fun input => match rule with None => Some nil_func | Some f => f input end;
     configurationIssues := Some (match rule with None => nil_func | Some _ => [] end) |}.

Definition invalidRule {T} (message : string) : Rule T :=
  {| Validate := fun _ => Some [configurationIssue message];
     configurationIssues := Some [configurationIssue message] |}.

Definition appendIssues (path : string) (issues : list Issue) : Report :=
  map (fun issue =>
    if negb (validRelativePath (i_Path issue)) || negb (validCode (i_Code issue)) || negb (validMessage (i_Message issue))
    then configurationViolation path "validation rule returned an invalid issue"
    else {| Path := joinPath path (i_Path issue); Code := i_Code issue; Message := i_Message issue |}) issues.

(** What one rule adds to a report; [None] is a panic inside the rule. *)
Definition apply_rule {T} (path : string) (input : Input T) (rule : option (Rule T)) : option Report :=
  match rule with
  | None => Some [configurationViolation path "validation rule must not be nil"]
  | Some r =>
      match configurationIssues r with
      | Some ((_ :: _) as issues) => Some (appendIssues path issues)
      | _ => option_map (appendIssues path) (Validate r input)
      end
  end.
Definition Apply {T} (path : string) (input : Input T) (rules : list (option (Rule T))) : option Report :=
  if negb (validPath path)
  then Some (configurationReport "validation field path must be a dot-separated field path")
  else match rules with
  | [] => Some [configurationViolation path "validation field must have at least one rule"]
  | _ => option_map (@concat _) (mapM (apply_rule path input) rules)
  end.
End Rules.
Arguments Validate {T} _ _.
Arguments configurationIssues {T} _.

Definition issue_ (code message : string) : Issue :=
  {| i_Path := EmptyString; i_Code := code; i_Message := message |}.
Definition on_present {T} (f : T -> list Issue) : Rule T :=
  RuleFunc (Some (fun input => Some (if present input then f (value input) else []))).

Definition Required {T} : Rule T :=
  RuleFunc (Some (fun input : Input T => Some (
    if bool_decide (State input = StatePresent) then [] else [issue_ "required" "is required"]))).

Definition StringLength (minimum maximum : Z) : Rule string :=
  if (minimum <? 0) || (maximum <? 0) || (minimum >? maximum)
  then invalidRule "string length bounds must be non-negative and minimum must not exceed maximum"
  else on_present (fun v =>
    let length := RuneCountInString v in
    if length <? minimum
    then [issue_ "string.min" ("must be at least " +:+ Itoa minimum +:+ " characters")]
    else if length >? maximum
    then [issue_ "string.max" ("must be at most " +:+ Itoa maximum +:+ " characters")]
    else []).

(** The constraint [Number]: finite values, their order, and how [%v] prints them. *)
Class Number (T : Type) : Type := {
  finite : T -> bool; less : T -> T -> bool; format : T -> string
}.
#[export] Instance int_Number : Number Z :=
  {| finite := fun _ => true; less := Z.ltb; format := Itoa |}.

Definition NumberRange {T} `{Number T} (minimum maximum : T) : Rule T :=
  if negb (finite minimum) || negb (finite maximum) || less maximum minimum
  then invalidRule "number range minimum and maximum must be finite ordered numbers"
  else on_present (fun v =>
    if negb (finite v) then [issue_ "number.finite" "must be a finite number"]
    else if less v minimum then [issue_ "number.min" ("must be at least " +:+ format minimum)]
    else if less maximum v then [issue_ "number.max" ("must be at most " +:+ format maximum)]
    else []).

Definition ListSize {T} (minimum maximum : Z) : Rule (list T) :=
  if (minimum <? 0) || (maximum <? 0) || (minimum >? maximum)
  then invalidRule "list size bounds must be non-negative and minimum must not exceed maximum"
  else on_present (fun v : list T =>
    let n := Z.of_nat (length v) in
    if n <? minimum then [issue_ "list.min" ("must contain at least " +:+ Itoa minimum +:+ " items")]
    else if n >? maximum then [issue_ "list.max" ("must contain at most " +:+ Itoa maximum +:+ " items")]
    else []).

Fixpoint duplicate_free {T} `{Countable T} (seen : gset T) (items : list T) : bool :=
  match items with
  | [] => true
  | item :: rest =>
      if bool_decide (item ∈ seen) then false else duplicate_free ({[item]} ∪ seen) rest
  end.
Definition ListUnique {T} `{Countable T} : Rule (list T) :=
  on_present (fun v : list T =>
    if duplicate_free ∅ v then [] else [issue_ "list.unique" "must not contain duplicate items"]).

(** The configuration problems of nested rules. *)
Definition issues_of {T} (nil_rule : string) (rule : option (Rule T)) : list Issue :=
  match rule with
  | None => [configurationIssue nil_rule]
  | Some r => default [] (configurationIssues r)
  end.
Definition nested_issues {T} (none nil_rule : string) (rules : list (option (Rule T))) : list Issue :=
  match rules with
  | [] => [configurationIssue none]
  | _ => concat (map (issues_of nil_rule) rules)
  end.
(** [rule.Validate(input)] on an interface value: a nil one panics. *)
Definition call_Validate {T} (input : Input T) (rule : option (Rule T)) : option (list Issue) :=
  match rule with None => None | Some r => Validate r input end.

Definition at_index (index : nat) (i : Issue) : Issue :=
  {| i_Path := joinPath (Itoa (Z.of_nat index)) (i_Path i); i_Code := i_Code i; i_Message := i_Message i |}.
Fixpoint each_item {T} (rules : list (option (Rule T))) (index : nat) (items : list T) : option (list Issue) :=
  match items with
  | [] => Some []
  | item :: rest =>
      iss ← mapM (call_Validate (Present item)) rules;
      more ← each_item rules (S index) rest;
      Some (map (at_index index) (concat iss) ++ more)
  end.
Definition Each {T} (rules : list (option (Rule T))) : Rule (list T) :=
  {| Validate := fun input => if present input then each_item rules 0 (value input) else Some [];
     configurationIssues := Some (nested_issues "list item validation must have at least one rule"
       "list item validation rule must not be nil" rules) |}.

Definition When {T} (condition : bool) (rules : list (option (Rule T))) : Rule T :=
  {| Validate := fun input =>
       if condition then option_map (@concat _) (mapM (call_Validate input) rules) else Some [];
     configurationIssues := Some (nested_issues "conditional validation must have at least one rule"
       "conditional validation rule must not be nil" rules) |}.
