(* ===== verification/ValidationProps.v ===== *)
(** Validation: reports are safe to send, misconfigured rules are reported and never run,
    lists are validated item by item. *)

From S2P Require Import Prelude GoStrings GoUtf8 PathText Validation.
Local Open Scope Z_scope.

Lemma mapM_is_Some {A B} (f : A -> option B) l : (forall x, x ∈ l -> is_Some (f x)) -> is_Some (mapM f l).
Proof. intros Hf. apply mapM_is_Some_2, Forall_forall. done. Qed.

Section Safety.
Context (isLetter isDigit : Z -> bool).
Notation validPath := (validPath isLetter isDigit).
Notation valid_segment := (valid_segment isLetter isDigit).
Notation Apply := (Apply isLetter isDigit).
Notation Prefix := (Prefix isLetter isDigit).

(** ** Violations that are safe to send *)

Definition violation_ok (v : Violation) : Prop :=
  (Path v = "$" \/ Forall (fun s => valid_segment s = true) (Split (Path v) "."%char)) /\
  validCode (Code v) = true /\ validMessage (Message v) = true.

(** Reports as an application can make them. *)
Inductive made_report : Report -> Prop :=
| made_zero : made_report []
| made_apply T path (input : Input T) rules r : Apply path input rules = Some r -> made_report r
| made_join rs : (forall r, r ∈ rs -> made_report r) -> made_report (JoinReports rs)
| made_prefix r prefix : made_report r -> made_report (Prefix r prefix).

Lemma validPath_segments p :
  validPath p = true -> p <> EmptyString /\ Forall (fun s => valid_segment s = true) (Split p "."%char).
Proof.
  unfold Validation.validPath. case_match eqn:G; [done|]. intros Hs. bool_to_prop.
  split; [naive_solver|]. apply Forall_forall. intros x Hx. rewrite forallb_forall in Hs.
  apply Hs. by apply list_elem_of_In.
Qed.

Lemma segments_nonempty p : Forall (fun s => valid_segment s = true) (Split p "."%char) -> p <> EmptyString.
Proof. intros Hf ->. cbn in Hf. by inversion Hf. Qed.

Lemma joinPath_segments p q :
  Forall (fun s => valid_segment s = true) (Split p "."%char) ->
  q = EmptyString \/ Forall (fun s => valid_segment s = true) (Split q "."%char) ->
  Forall (fun s => valid_segment s = true) (Split (joinPath p q) "."%char).
Proof.
  intros Hp Hq. unfold joinPath. rewrite bool_decide_eq_false_2 by (by apply segments_nonempty).
  case_bool_decide; [done|]. destruct Hq as [?|Hq]; [done|].
  change ("." +:+ q) with (String "." q). rewrite Split_concat. by apply Forall_app.
Qed.

Lemma configurationViolation_ok path m :
  path = "$" \/ Forall (fun s => valid_segment s = true) (Split path "."%char) ->
  validMessage m = true -> violation_ok (configurationViolation path m).
Proof. intros. split_and!; [done|by vm_compute|done]. Qed.

Lemma appendIssues_ok path issues :
  Forall (fun s => valid_segment s = true) (Split path "."%char) ->
  Forall violation_ok (appendIssues isLetter isDigit path issues).
Proof.
  intros Hp. unfold appendIssues. apply Forall_map, Forall_true. intros i. cbn.
  case_match eqn:G; [apply configurationViolation_ok; [by right|by vm_compute]|].
  apply orb_false_iff in G as [G Hm]. apply orb_false_iff in G as [G Hc].
  apply negb_false_iff in G, Hc, Hm. split_and!; try done. right. cbn. apply joinPath_segments; [done|].
  unfold validRelativePath in G. apply orb_true_iff in G as [G|G]; bool_to_prop; [by left|].
  right. by apply validPath_segments.
Qed.

Lemma apply_rule_ok {T} path (input : Input T) rule r :
  Forall (fun s => valid_segment s = true) (Split path "."%char) ->
  apply_rule isLetter isDigit path input rule = Some r -> Forall violation_ok r.
Proof.
  intros Hp. unfold apply_rule. destruct rule as [rl|].
  - destruct (configurationIssues rl) as [[|i iss]|].
    1,3: destruct (Validate rl input); [|done]; intros [= <-]; by apply appendIssues_ok.
    intros [= <-]. exact (appendIssues_ok path (i :: iss) Hp).
  - intros [= <-]. constructor; [|done]. apply configurationViolation_ok; [by right|by vm_compute].
Qed.

Lemma Apply_ok {T} path (input : Input T) rules r : Apply path input rules = Some r -> Forall violation_ok r.
Proof.
  unfold Validation.Apply. destruct (validPath path) eqn:Hp; cbn [negb].
  2:{ intros [= <-]. constructor; [|done]. apply configurationViolation_ok; [by left|by vm_compute]. }
  apply validPath_segments in Hp as [_ Hp]. destruct rules as [|r0 rules].
  { intros [= <-]. constructor; [|done]. apply configurationViolation_ok; [by right|by vm_compute]. }
  destruct (mapM _ (r0 :: rules)) as [rs|] eqn:Hm; [|done]. intros [= <-].
  apply Forall_concat. apply mapM_Some in Hm. apply Forall_forall. intros x Hx.
  destruct (proj1 (list_elem_of_lookup _ _) Hx) as [i Hi].
  destruct (Forall2_lookup_r _ _ _ _ _ Hm Hi) as (rl & _ & Hrl). by eapply apply_rule_ok.
Qed.

Lemma Prefix_ok r prefix : Forall violation_ok r -> Forall violation_ok (Prefix r prefix).
Proof.
  intros Hr. unfold Validation.Prefix. destruct (validPath prefix) eqn:Hp; cbn [negb].
  2:{ constructor; [|done]. apply configurationViolation_ok; [by left|by vm_compute]. }
  apply validPath_segments in Hp as [_ Hp]. apply Forall_map. eapply Forall_impl; [exact Hr|].
  intros v (Hv & Hc & Hm). cbn. split_and!; try done. right. cbn. case_bool_decide; [done|].
  apply joinPath_segments; [done|]. right. by destruct Hv.
Qed.

(** ** Rules that cannot run *)

(** Rules as the package's constructors make them, around application functions that return. *)
Inductive made_rule : forall T, Rule T -> Prop :=
| made_func T (f : Input T -> option (list Issue)) : (forall i, is_Some (f i)) -> made_rule T (RuleFunc (Some f))
| made_custom T (r : Rule T) : (forall i, is_Some (Validate r i)) -> configurationIssues r = None -> made_rule T r
| made_nil T : made_rule T (RuleFunc None)
| made_invalid T m : made_rule T (invalidRule m)
| made_Each T (rules : list (option (Rule T))) :
    (forall r, Some r ∈ rules -> made_rule T r) -> made_rule (list T) (Each rules)
| made_When T c (rules : list (option (Rule T))) :
    (forall r, Some r ∈ rules -> made_rule T r) -> made_rule T (When c rules).

(** A rule with a nil rule, a nil function, bounds out of order or an empty list of rules
    somewhere inside. *)
Inductive wraps : forall T U, (list (option (Rule T)) -> Rule U) -> Prop :=
| wraps_Each T : wraps T (list T) Each
| wraps_When T c : wraps T T (When c).
Inductive broken : forall T, Rule T -> Prop :=
| broken_nil T : broken T (RuleFunc None)
| broken_invalid T m : broken T (invalidRule m)
| no_rules T U w : wraps T U w -> broken U (w [])
| nil_rule T U w rules : wraps T U w -> None ∈ rules -> broken U (w rules)
| bad_rule T U w rules r : wraps T U w -> Some r ∈ rules -> broken T r -> broken U (w rules).

Definition configured {T} (r : Rule T) : Prop := default [] (configurationIssues r) = [].

Lemma nested_issues_nil {T} none nil_rule (rules : list (option (Rule T))) :
  nested_issues none nil_rule rules = [] -> rules <> [] /\ None ∉ rules /\ forall r, Some r ∈ rules -> configured r.
Proof.
  destruct rules as [|r0 rules]; [done|]. unfold nested_issues. intros Hc. split; [done|].
  apply concat_nil_Forall in Hc. rewrite Forall_map, Forall_forall in Hc.
  split; [intros Hn; by specialize (Hc _ Hn)|]. intros r Hr. by specialize (Hc _ Hr).
Qed.

Lemma made_rule_runs T r : made_rule T r -> configured r -> forall i, is_Some (Validate r i).
Proof.
  induction 1 as [T f Hf|T r Hf _|T|T m|T rules _ IH|T c rules _ IH]; intros Hc i; try done.
  all: unfold configured in Hc; cbn in Hc; apply nested_issues_nil in Hc as (_ & Hn & Hr).
  all: assert (forall j r, r ∈ rules -> is_Some (call_Validate j r)) as Hcall
    by (intros j [r|] Hin; [by apply (IH r Hin (Hr r Hin))|done]).
  - cbn. case_match; [|done]. generalize 0%nat. induction (value i) as [|x xs IHx]; intros k; [done|].
    cbn [each_item]. destruct (mapM_is_Some _ _ (Hcall (Present x))) as [iss ->].
    destruct (IHx (S k)) as [more ->]. done.
  - cbn. destruct c; [|done]. by destruct (mapM_is_Some _ _ (Hcall i)) as [iss ->].
Qed.

Definition blamed (l : list Issue) : Prop := Exists (fun i => i_Path i = EmptyString /\ i_Code i = CodeInvalidConfiguration) l.

Lemma nested_blamed {T U w} (rules : list (option (Rule T))) iss :
  wraps T U w -> rules = [] \/ (exists r, r ∈ rules /\
    match r with Some r => exists l, configurationIssues r = Some l /\ blamed l | None => True end) ->
  configurationIssues (w rules) = Some iss -> blamed iss.
Proof.
  intros Hw Hr Hc.
  assert (exists none nl, nested_issues none nl rules = iss) as (none & nl & <-)
    by (destruct Hw; injection Hc as <-; eauto).
  destruct Hr as [->|(r & Hr & Hb)]; [by constructor|].
  unfold nested_issues. destruct rules as [|r0 rules]; [by apply not_elem_of_nil in Hr|].
  unfold blamed. apply Exists_concat, Exists_exists.
  exists (issues_of nl r). split; [by apply (list_elem_of_fmap_2 (issues_of nl))|].
  destruct r as [r|]; [|by constructor]. unfold issues_of. by destruct Hb as (l & -> & ?).
Qed.

Lemma wraps_issues {T U w} (Hw : wraps T U w) rules : exists l, configurationIssues (w rules) = Some l.
Proof. destruct Hw; by eexists. Qed.

Lemma broken_blamed T r : broken T r -> exists l, configurationIssues r = Some l /\ blamed l.
Proof.
  induction 1 as [T|T m|T U w Hw|T U w rules Hw Hn|T U w rules r Hw Hr _ IH].
  1,2: eexists; split; [done|]; by repeat constructor.
  - destruct (wraps_issues Hw []) as [l Hl]. exists l. split; [done|].
    eapply nested_blamed; [done| |exact Hl]. by left.
  - destruct (wraps_issues Hw rules) as [l Hl]. exists l. split; [done|].
    eapply nested_blamed; [done| |exact Hl]. right. by exists None.
  - destruct (wraps_issues Hw rules) as [l Hl]. exists l. split; [done|].
    eapply nested_blamed; [done| |exact Hl]. right. by exists (Some r).
Qed.

Definition blames (path : string) (r : Report) : Prop :=
  exists v, v ∈ r /\ Path v = path /\ Code v = CodeInvalidConfiguration.

Lemma appendIssues_blames path l : path <> EmptyString -> blamed l -> blames path (appendIssues isLetter isDigit path l).
Proof.
  intros Hp Hb. apply Exists_exists in Hb as (i & Hi & Hpath & Hcode). eexists.
  split; [by apply list_elem_of_fmap_2|]. cbn. rewrite Hpath, Hcode. case_match; [done|]. cbn.
  unfold joinPath. by rewrite bool_decide_eq_false_2.
Qed.

Lemma apply_rule_runs {T} path (input : Input T) r :
  match r with Some r => made_rule T r | None => True end -> is_Some (apply_rule isLetter isDigit path input r).
Proof.
  destruct r as [r|]; [|done]. intros Hm. pose proof (made_rule_runs T r Hm) as Hr. unfold configured in Hr. cbn.
  destruct (configurationIssues r) as [[|i l]|]; cbn in Hr; [|done|]; by destruct (Hr eq_refl input) as [x ->].
Qed.
End Safety.

(** A rule that is not configured is reported and never run.  Whatever rules an
    application nests with the constructors of the package, [Apply] returns a report: a nil
    rule or nil function is never called, at any depth.  The report names the field and says
    that the configuration is wrong when there is no rule, a rule is nil, or anywhere inside
    a rule there is a nil rule, a nil function, bounds out of order or an empty list of
    rules, also under a [When] whose condition is false.  A field path that is not valid is
    reported itself. *)
Theorem misconfigured_rules_are_reported_not_run isLetter isDigit {T} path (input : Input T) rules :
  (forall r, Some r ∈ rules -> made_rule T r) ->
  exists report, Apply isLetter isDigit path input rules = Some report /\
    (validPath isLetter isDigit path = false -> blames "$" report) /\
    (validPath isLetter isDigit path = true ->
     rules = [] \/ None ∈ rules \/ (exists r, Some r ∈ rules /\ broken T r) -> blames path report).
Proof.
  intros Hmade. unfold Apply. destruct (validPath isLetter isDigit path) eqn:Hp; cbn [negb].
  2:{ eexists. split; [done|]. split; [|done]. intros _. eexists. by split; [apply list_elem_of_singleton|]. }
  apply validPath_segments in Hp as [Hne _]. destruct rules as [|r0 rules].
  { eexists. split; [done|]. split; [done|]. intros _ _. eexists. by split; [apply list_elem_of_singleton|]. }
  destruct (mapM_is_Some (apply_rule isLetter isDigit path input) (r0 :: rules)) as [rs Hrs].
  { intros r Hr. apply apply_rule_runs. destruct r; [by apply Hmade|done]. }
  exists (concat rs). split; [exact (f_equal (option_map (@concat _)) Hrs)|]. split; [done|]. intros _ Hbad.
  assert (exists r x, r ∈ r0 :: rules /\ apply_rule isLetter isDigit path input r = Some x /\ blames path x)
    as (r & x & Hr & Hx & v & Hv & Hpc).
  { destruct Hbad as [?|[Hn|(r & Hr & Hb)]]; [done| |].
    - exists None. eexists. split; [done|]. split; [done|]. eexists. by split; [apply list_elem_of_singleton|].
    - exists (Some r). destruct (broken_blamed T r Hb) as (l & Hl & Hbl). cbn. rewrite Hl.
      destruct l as [|i l]; [by inversion Hbl|]. eexists. split; [done|]. split; [done|]. by apply appendIssues_blames. }
  exists v. split; [|done]. apply mapM_Some in Hrs. apply list_elem_of_lookup in Hr as [k Hk].
  destruct (Forall2_lookup_l _ _ _ _ _ Hrs Hk) as (y & Hy & Hxy). assert (x = y) as -> by congruence.
  apply list_elem_of_In, in_concat. exists y. split; apply list_elem_of_In; [by eapply list_elem_of_lookup_2|done].
Qed.

Lemma misconfigured_rules_are_reported_not_run_witness :
  exists report, Apply (fun r => (97 <=? r) && (r <=? 122)) (fun r => (48 <=? r) && (r <=? 57)) "age" (Present 7)
      [Some (When false [Some (NumberRange 9 3)]); None] = Some report /\
    length report = 2%nat /\ blames "age" report.
Proof.
  destruct (misconfigured_rules_are_reported_not_run (fun r => (97 <=? r) && (r <=? 122))
    (fun r => (48 <=? r) && (r <=? 57)) "age" (Present 7) [Some (When false [Some (NumberRange 9 3)]); None])
    as (report & Hr & _ & Hb).
  - intros r Hr. apply list_elem_of_In in Hr as [[= <-]|[[=]|[]]]. apply made_When.
    intros r Hr. apply list_elem_of_In in Hr as [[= <-]|[]]. exact (made_invalid Z _).
  - exists report. split; [exact Hr|]. split; [vm_compute in Hr; injection Hr as <-; reflexivity|].
    apply Hb; [vm_compute; reflexivity|]. right. left. apply list_elem_of_In. by right; left.
Defined.

(** Reports are safe to send.  Every violation of every report an application can make
    with [Apply], [Join] and [Prefix], out of any rules, custom ones included, has a path of
    valid segments (or the path [$] of a report about itself), a code of the documented
    shape and a message that is one line of valid UTF-8 without control characters. *)
Theorem reports_are_safe_to_send isLetter isDigit r :
  made_report isLetter isDigit r -> Forall (violation_ok isLetter isDigit) r.
Proof.
  induction 1 as [|T path input rules r Hr|rs _ IH|r prefix _ IH]; [constructor| | |].
  - by eapply Apply_ok.
  - apply Forall_concat, Forall_forall. exact IH.
  - by apply Prefix_ok.
Qed.

Definition shouting : Rule Z :=
  {| Validate := fun _ => Some [issue_ "loud" (String (chr 7) "wake up"); issue_ "quiet" "hush"];
     configurationIssues := None |}.

Lemma reports_are_safe_to_send_witness :
  exists r, Apply (fun r => (97 <=? r) && (r <=? 122)) (fun _ => false) "alarm" (Present 7) [Some shouting] = Some r /\
    map Message r = ["validation rule returned an invalid issue"; "hush"] /\
    Forall (violation_ok (fun r => (97 <=? r) && (r <=? 122)) (fun _ => false))
      (Prefix (fun r => (97 <=? r) && (r <=? 122)) (fun _ => false) r "house").
Proof.
  eexists. split; [vm_compute; reflexivity|]. split; [reflexivity|].
  apply reports_are_safe_to_send, made_prefix. eapply (made_apply _ _ Z "alarm" (Present 7) [Some shouting]).
  vm_compute. reflexivity.
Defined.

(** ** What the rules decide *)

Section Decide.
Context (isLetter isDigit : Z -> bool).
Notation Apply := (Apply isLetter isDigit).

Definition passes {T} (rule : Rule T) (v : T) : Prop :=
  forall path, validPath isLetter isDigit path = true -> Apply path (Present v) [Some rule] = Some [].
Definition refuses {T} (rule : Rule T) (v : T) : Prop :=
  forall path, validPath isLetter isDigit path = true ->
    exists x, Apply path (Present v) [Some rule] = Some [x] /\ Path x = path.

Lemma Apply_on_present {T} path (f : T -> list Issue) v :
  validPath isLetter isDigit path = true ->
  Apply path (Present v) [Some (on_present f)] = Some (appendIssues isLetter isDigit path (f v)).
Proof. intros Hp. unfold Validation.Apply. rewrite Hp. cbn. by rewrite app_nil_r. Qed.

Lemma decides {T} (f : T -> list Issue) v (P : Prop) :
  (P -> f v = []) -> (~ P -> exists i, f v = [i] /\ i_Path i = EmptyString) ->
  (P -> passes (on_present f) v) /\ (~ P -> refuses (on_present f) v).
Proof.
  intros Hyes Hno. split; intros HP path Hp; rewrite Apply_on_present by done.
  - by rewrite (Hyes HP).
  - destruct (Hno HP) as (i & -> & Hi). eexists. split; [done|]. case_match; [done|]. cbn. rewrite Hi.
    apply validPath_segments in Hp as [Hne _]. unfold joinPath. by rewrite bool_decide_eq_false_2.
Qed.

Lemma duplicate_free_spec {T} `{Countable T} (seen : gset T) l :
  duplicate_free seen l = true <-> NoDup l /\ forall x, x ∈ l -> x ∉ seen.
Proof.
  revert seen; induction l as [|x l IH]; intros seen; cbn.
  - split; [|done]. intros _. split; [constructor|]. intros x Hx. by apply not_elem_of_nil in Hx.
  - rewrite NoDup_cons. case_bool_decide as Hx.
    + split; [done|]. intros [_ Hs]. specialize (Hs x). set_solver.
    + rewrite IH. set_solver.
Qed.
End Decide.

(** The rules decide the conditions they name.  With bounds in order, [StringLength]
    counts Unicode code points, [ListSize] items, [NumberRange] compares (here integers), and
    [ListUnique] finds a duplicate wherever it is; a value outside gets exactly one violation,
    at the field.  [Required] passes exactly the present inputs. *)
Theorem rules_decide_their_conditions isLetter isDigit (lo hi : Z) :
  0 <= lo <= hi ->
  (forall v, (lo <= RuneCountInString v <= hi -> passes isLetter isDigit (StringLength lo hi) v) /\
             (~ lo <= RuneCountInString v <= hi -> refuses isLetter isDigit (StringLength lo hi) v)) /\
  (forall v, (lo <= v <= hi -> passes isLetter isDigit (NumberRange lo hi) v) /\
             (~ lo <= v <= hi -> refuses isLetter isDigit (NumberRange lo hi) v)) /\
  (forall v : list Z, (lo <= Z.of_nat (length v) <= hi -> passes isLetter isDigit (ListSize lo hi) v) /\
             (~ lo <= Z.of_nat (length v) <= hi -> refuses isLetter isDigit (ListSize lo hi) v)) /\
  (forall v : list Z, (NoDup v -> passes isLetter isDigit ListUnique v) /\
             (~ NoDup v -> refuses isLetter isDigit ListUnique v)) /\
  (forall path (input : Input Z), validPath isLetter isDigit path = true ->
     Apply isLetter isDigit path input [Some Required] = Some [] <-> State input = StatePresent).
Proof.
  intros Hb. assert ((lo <? 0) || (hi <? 0) || (lo >? hi) = false) as Hok.
  { rewrite !orb_false_iff. split_and!; lia. }
  split_and!.
  - intros v. unfold StringLength. rewrite Hok. apply decides.
    + intros Hv. by rewrite (proj2 (Z.ltb_ge _ _)), Z.gtb_ltb, (proj2 (Z.ltb_ge _ _)) by lia.
    + intros Hv. case_match eqn:G; [by eexists|]. case_match eqn:G2; [by eexists|]. lia.
  - intros v. unfold NumberRange. cbn. rewrite (proj2 (Z.ltb_ge hi lo)) by lia. apply decides.
    + intros Hv. cbn. by rewrite !(proj2 (Z.ltb_ge _ _)) by lia.
    + intros Hv. cbn. case_match eqn:G; [by eexists|]. case_match eqn:G2; [by eexists|]. lia.
  - intros v. unfold ListSize. rewrite Hok. apply decides.
    + intros Hv. by rewrite (proj2 (Z.ltb_ge _ _)), Z.gtb_ltb, (proj2 (Z.ltb_ge _ _)) by lia.
    + intros Hv. case_match eqn:G; [by eexists|]. case_match eqn:G2; [by eexists|]. lia.
  - intros v. apply decides.
    + intros Hv. by rewrite (proj2 (duplicate_free_spec ∅ v)) by set_solver.
    + intros Hv. case_match eqn:G; [|by eexists]. apply duplicate_free_spec in G as [G _]. by destruct Hv.
  - intros path input Hp. unfold Apply. rewrite Hp. cbn. case_bool_decide; [done|]. split; [|done].
    cbn. case_match; done.
Qed.

Lemma rules_decide_their_conditions_witness :
  RuneCountInString (String (chr 195) (String (chr 169) "t")) = 2 /\
  passes (fun r => 97 <=? r) (fun _ => false) (StringLength 2 3) (String (chr 195) (String (chr 169) "t")) /\
  refuses (fun r => 97 <=? r) (fun _ => false) ListUnique [4; 5; 4].
Proof.
  destruct (rules_decide_their_conditions (fun r => 97 <=? r) (fun _ => false) 2 3) as (Hs & _ & _ & Hu & _); [lia|].
  split; [reflexivity|]. split.
  - apply Hs. change (2 <= 2 <= 3). lia.
  - apply Hu. intros Hn. apply NoDup_cons in Hn as [Hn _]. apply Hn. set_solver.
Defined.

(** ** Lists, item by item *)

Section Lists.
Context (isLetter isDigit : Z -> bool).
Context (digits : forall r, 48 <= r <= 57 -> isDigit r = true).
Notation validPath := (validPath isLetter isDigit).
Notation Apply := (Apply isLetter isDigit).
Notation appendIssues := (appendIssues isLetter isDigit).

Lemma validPath_iff p :
  validPath p = true <->
  p <> EmptyString /\ p <> "$" /\ byte_len p <= 512 /\ ValidString p = true /\ trimmed p /\
  Forall (fun s => valid_segment isLetter isDigit s = true) (Split p "."%char).
Proof.
  rewrite <- TrimSpace_fixed. unfold Validation.validPath. rewrite Forall_forall.
  assert (forall l, forallb (valid_segment isLetter isDigit) l = true <-> forall x, x ∈ l -> valid_segment isLetter isDigit x = true)
    as Hfb by (intros l; rewrite forallb_forall; by setoid_rewrite list_elem_of_In).
  rewrite <- Hfb. destruct (bool_decide (p = EmptyString)) eqn:G1; [bool_to_prop; split; naive_solver|].
  destruct (bool_decide (p = "$")) eqn:G2; [bool_to_prop; split; naive_solver|].
  destruct (byte_len p >? 512) eqn:G3; [bool_to_prop; split; [done|lia]|].
  destruct (ValidString p) eqn:G4; [|split; naive_solver].
  destruct (bool_decide (TrimSpace p = p)) eqn:G5; bool_to_prop; cbn; [|split; naive_solver].
  split; [intros; split_and!; by try lia|naive_solver].
Qed.

Lemma validPath_join p q :
  validPath p = true -> validPath q = true -> byte_len p + byte_len q < 512 -> validPath (joinPath p q) = true.
Proof.
  rewrite !validPath_iff. intros (Hp1 & Hp2 & Hp3 & Hp4 & Hp5 & Hp6) (Hq1 & Hq2 & Hq3 & Hq4 & Hq5 & Hq6) Hlen.
  assert (joinPath p q = p +:+ String "." q) as Hj.
  { unfold joinPath. by rewrite !bool_decide_eq_false_2. }
  rewrite Hj. split_and!.
  - by destruct p.
  - intros Heq. apply (f_equal String.length) in Heq. rewrite string_length_app in Heq.
    destruct p, q; cbn in Heq; try done; lia.
  - unfold byte_len in *. rewrite string_length_app. cbn. lia.
  - by rewrite ValidString_app.
  - by apply trimmed_app.
  - rewrite Split_concat. by apply Forall_app.
Qed.

Lemma validPath_index k : validPath (Itoa (Z.of_nat k)) = true /\ byte_len (Itoa (Z.of_nat k)) <= 20.
Proof.
  destruct (Itoa_nat k) as [Hd Hne].
  assert (byte_len (Itoa (Z.of_nat k)) <= 20) as Hl.
  { unfold Itoa. rewrite (proj2 (Z.ltb_ge _ _)) by lia. unfold byte_len.
    pose proof (digits_fuel_length 20 (Z.of_nat k)). lia. }
  split; [|done]. apply validPath_iff.
  assert (all_chars (inb 0 127) (Itoa (Z.of_nat k)) = true) as Ha
    by (eapply all_chars_mono; [|exact Hd]; intros c Hc; by apply digit_ascii).
  destruct (ascii_runes _ Ha) as [Hv Hr]. split_and!; [done| |lia|done|by apply trimmed_digits|].
  - intros Heq. rewrite Heq in Hd. done.
  - rewrite Split_none.
    2:{ eapply all_chars_mono; [|exact Hd]. intros c Hc. rewrite bool_decide_eq_false_2; [done|]. by intros ->. }
    constructor; [|done]. unfold valid_segment. rewrite bool_decide_eq_false_2 by done. cbn. rewrite Hr.
    clear -Hd digits. induction (Itoa (Z.of_nat k)) as [|c s IH]; [done|]. cbn in Hd |- *.
    apply andb_true_iff in Hd as [Hc Hd]. rewrite (IH Hd), andb_true_r. unfold segment_rune.
    destruct (digit_ascii c Hc) as [_ Hc2]. by rewrite (digits _ Hc2), orb_true_r.
Qed.

Lemma joinPath_assoc a b c :
  a <> EmptyString -> b <> EmptyString -> joinPath a (joinPath b c) = joinPath (joinPath a b) c.
Proof.
  intros Ha Hb. unfold joinPath. rewrite !(bool_decide_eq_false_2 (a = _)), !(bool_decide_eq_false_2 (b = _)) by done.
  rewrite (bool_decide_eq_false_2 (a +:+ _ = _)) by (by destruct a).
  destruct (bool_decide (c = EmptyString)); [by rewrite bool_decide_eq_false_2|].
  rewrite bool_decide_eq_false_2 by (by destruct b). by rewrite !string_app_assoc.
Qed.

(** Issues that stay well formed below an index. *)
Definition issue_fits (i : Issue) : Prop :=
  validRelativePath isLetter isDigit (i_Path i) = true /\ byte_len (i_Path i) <= 490 /\
  validCode (i_Code i) = true /\ validMessage (i_Message i) = true.

Lemma appendIssues_index path k l :
  path <> EmptyString -> Forall issue_fits l ->
  appendIssues path (map (at_index k) l) = appendIssues (joinPath path (Itoa (Z.of_nat k))) l.
Proof.
  intros Hp Hl. destruct (validPath_index k) as [Hk Hkl]. destruct (Itoa_nat k) as [_ Hne].
  unfold Validation.appendIssues. rewrite map_map. apply map_ext_Forall. eapply Forall_impl; [exact Hl|].
  intros i (Hr & Hi & Hc & Hm). cbn. rewrite Hr, Hc, Hm. cbn.
  assert (validRelativePath isLetter isDigit (joinPath (Itoa (Z.of_nat k)) (i_Path i)) = true) as ->.
  { unfold validRelativePath in *. apply orb_true_iff. right. apply orb_true_iff in Hr as [Hr|Hr].
    - bool_to_prop. rewrite Hr. unfold joinPath. by rewrite bool_decide_eq_false_2.
    - apply validPath_join; [done|done|lia]. }
  cbn. by rewrite joinPath_assoc.
Qed.

Lemma mapM_apply_rules {T} path (x : Input T) rules :
  None ∉ rules -> (forall r, Some r ∈ rules -> configured r) ->
  mapM (apply_rule isLetter isDigit path x) rules = option_map (map (appendIssues path)) (mapM (call_Validate x) rules).
Proof.
  induction rules as [|r rules IH]; [done|]. intros Hn Hc. cbn [mapM].
  rewrite IH by set_solver. destruct r as [r|]; [|set_solver]. cbn.
  assert (configured r) as Hr by (apply Hc; set_solver). unfold configured in Hr.
  destruct (configurationIssues r) as [[|i l]|]; cbn in Hr; [|done|].
  all: destruct (Validate r x); [|done]; cbn; by destruct (mapM (call_Validate x) rules).
Qed.

(** [Each] as one call of [Apply] per item. *)
Fixpoint by_item {T} (path : string) (rules : list (option (Rule T))) (k : nat) (items : list T) : option Report :=
  match items with
  | [] => Some []
  | x :: rest =>
      r ← Apply (joinPath path (Itoa (Z.of_nat k))) (Present x) rules;
      more ← by_item path rules (S k) rest;
      Some (r ++ more)
  end.

Lemma each_item_by_item {T} path rules (items : list T) k :
  validPath path = true -> byte_len path <= 490 -> rules <> [] -> None ∉ rules ->
  (forall r, Some r ∈ rules -> configured r) ->
  (forall r x l, Some r ∈ rules -> x ∈ items -> Validate r (Present x) = Some l -> Forall issue_fits l) ->
  option_map (appendIssues path) (each_item rules k items) = by_item path rules k items.
Proof.
  intros Hp Hpl Hne Hn Hc. revert k; induction items as [|x items IH]; intros k Hf; [done|]. cbn [each_item by_item].
  rewrite <- IH by set_solver. destruct (validPath_index k) as [Hk Hkl].
  unfold Validation.Apply. rewrite (validPath_join path (Itoa (Z.of_nat k))) by (done || lia). cbn [negb].
  pose proof (mapM_apply_rules (joinPath path (Itoa (Z.of_nat k))) (Present x) rules Hn Hc) as Hm.
  destruct rules as [|r0 rules]; [done|]. unfold Report in *. rewrite Hm.
  destruct (mapM (call_Validate (Present x)) (r0 :: rules)) as [iss|] eqn:Hv; [|done]. cbn [option_map mbind option_bind].
  destruct (each_item (r0 :: rules) (S k) items) as [more|]; [|done]. cbn. f_equal.
  unfold Validation.appendIssues at 1. rewrite map_app. f_equal.
  change (appendIssues path (map (at_index k) (concat iss)) = concat (map (appendIssues (joinPath path (Itoa (Z.of_nat k)))) iss)).
  rewrite appendIssues_index; [by unfold Validation.appendIssues; rewrite concat_map| |].
  - by apply validPath_segments in Hp as [? _].
  - apply Forall_concat. apply mapM_Some in Hv. apply Forall_forall. intros l Hl.
    apply list_elem_of_lookup in Hl as [j Hj]. destruct (Forall2_lookup_r _ _ _ _ _ Hv Hj) as ([r|] & Hr & Hrl); [|done].
    eapply (Hf r x l); [by eapply list_elem_of_lookup_2|set_solver|done].
Qed.
End Lists.

(** [Each] is the same as validating the items one by one.  For rules that are configured
    and return well-formed issues, one [Apply] of [Each] to a list gives, in order, the
    violations of one [Apply] per item at the path of its index. *)
Theorem each_validates_item_by_item isLetter isDigit {T} path rules (items : list T) :
  (forall r, 48 <= r <= 57 -> isDigit r = true) ->
  validPath isLetter isDigit path = true -> byte_len path <= 490 ->
  configured (Each rules) ->
  (forall r x l, Some r ∈ rules -> x ∈ items -> Validate r (Present x) = Some l ->
     Forall (issue_fits isLetter isDigit) l) ->
  Apply isLetter isDigit path (Present items) [Some (Each rules)] = by_item isLetter isDigit path rules 0 items.
Proof.
  intros Hd Hp Hpl Hc Hf. pose proof Hc as Hc'. unfold configured in Hc'. cbn in Hc'.
  apply nested_issues_nil in Hc' as (Hne & Hn & Hr). rewrite <- (each_item_by_item _ _ Hd) by done.
  unfold Apply. rewrite Hp. cbn [negb].
  pose proof (mapM_apply_rules isLetter isDigit Hd path (Present items) [Some (Each rules)]) as Hm.
  unfold Report in *. rewrite Hm; [|by set_solver|].
  2:{ intros r Hin. assert (r = Each rules) as -> by set_solver. done. }
  change (mapM (call_Validate (Present items)) [Some (Each rules)])
    with (l ← each_item rules 0 items; mret [l] : option (list (list Issue))).
  destruct (each_item rules 0 items); [|done]. cbn. by rewrite app_nil_r.
Qed.

Lemma each_validates_item_by_item_witness :
  exists report, Apply (fun r => 97 <=? r) (fun r => (48 <=? r) && (r <=? 57)) "tags" (Present ["ok"; "too long"])
      [Some (Each [Some (StringLength 1 4)])] = Some report /\
    map Path report = ["tags.1"] /\
    by_item (fun r => 97 <=? r) (fun r => (48 <=? r) && (r <=? 57)) "tags" [Some (StringLength 1 4)] 0 ["ok"; "too long"]
      = Some report.
Proof.
  eexists. split; [vm_compute; reflexivity|]. split; [reflexivity|].
  rewrite <- each_validates_item_by_item; [vm_compute; reflexivity| |reflexivity|vm_compute; done|reflexivity|].
  - intros r Hr. lia.
  - intros r x l Hr Hx. assert (r = StringLength 1 4) as -> by set_solver.
    apply list_elem_of_In in Hx as [<-|[<-|[]]]; intros Hv; vm_compute in Hv; injection Hv as <-;
      repeat constructor; vm_compute; done.
Defined.

(** ** Maps of messages *)

(** Adding each element's message under its key keeps, per key, the messages in order. *)
Lemma collect_messages {A} (key : A -> string) (msgs : A -> list string) (l : list A) (m : Errors) p :
  default [] (fold_left (fun m a => match msgs a with
    | [] => m | _ => <[key a := default [] (m !! key a) ++ msgs a]> m end) l m !! p)
  = default [] (m !! p) ++ concat (map msgs (List.filter (fun a => bool_decide (key a = p)) l)).
Proof.
  unfold Errors in *. revert m; induction l as [|a l IH]; intros m; cbn [fold_left List.filter map concat];
    [by rewrite app_nil_r|].
  rewrite IH. destruct (msgs a) as [|x xs] eqn:Hm.
  - case_bool_decide; cbn [map concat]; [by rewrite Hm|done].
  - case_bool_decide as Hk; cbn [map concat].
    + subst p. rewrite lookup_insert_eq. unfold default at 1, Datatypes.id. by rewrite Hm, <- app_assoc.
    + by rewrite lookup_insert_ne.
Qed.

(** [Messages] has, per path, the messages that [For] lists, in order; and [Check] has, per
    name, the messages of all fields of that name. *)
Theorem messages_follow_the_report r p fields name ParseAddress :
  default [] (Messages r !! p) = map Message (For_ r p) /\
  default [] (Check ParseAddress fields !! name)
    = concat (map (fun f => snd (field_validate ParseAddress f))
        (List.filter (fun f => bool_decide (fst (field_validate ParseAddress f) = name)) fields)).
Proof.
  split.
  - pose proof (collect_messages Path (fun v => [Message v]) r ∅ p) as Hc. unfold Errors in *. rewrite lookup_empty in Hc.
    unfold Messages. etrans; [exact Hc|]. unfold For_.
    generalize (List.filter (fun v => bool_decide (Path v = p)) r). intros l. clear.
    change (concat (map (fun v => [Message v]) l) = map Message l). induction l as [|v l IH]; [done|]. cbn. by rewrite IH.
  - pose proof (collect_messages (fun f => fst (field_validate ParseAddress f))
      (fun f => snd (field_validate ParseAddress f)) fields ∅ name) as Hc. unfold Errors in *. rewrite lookup_empty in Hc.
    unfold Check. etrans; [|exact Hc]. f_equal. f_equal.
    match goal with |- fold_left ?F fields _ = fold_left ?G fields _ =>
      enough (forall m, fold_left F fields m = fold_left G fields m) as Hall by apply Hall end.
    clear. induction fields as [|f fields IH]; intros m; [done|]. cbn [fold_left].
    rewrite IH. f_equal. by destruct (field_validate ParseAddress f) as [n [|x l]].
Qed.
