(* ===== verification/App.v ===== *)
(** * The application kernel ([app.go])

    Configuration and the life of one [App.Run].  [Run] shares the [result] channel with the
    goroutine that serves, and its [select] takes whichever case is ready, so a run is a
    machine whose steps are events: what the serve goroutine, the context and the server's
    [Shutdown] and [Close] do, and what [Run] itself takes next.  [net/http]'s server is the
    environment, and so are the router ([Http.Router]) and the logger.

    [Run] returns only after the serve goroutine has ended and reports every failure it saw;
    and it does return: under a fair scheduler, a server that keeps the contract of
    [net/http] and a context that ends (or a listener that fails), every run reaches its
    return.  The liveness argument is a rank that never grows and drops in finitely many
    steps from every phase. *)

From S2P Require Import Prelude GoStrings.
Local Open Scope go_scope.
Local Open Scope Z_scope.

Section App.
Context {Logger Router : Type} (slog_Default : Logger).

Record Config : Type := {
  Address : string; ShutdownTimeout : duration; ReadHeaderTimeout : duration;
  ReadTimeout : duration; WriteTimeout : duration; IdleTimeout : duration;
  MaxHeaderBytes : Z; c_Logger : option Logger
}.

(** What [newHTTPServer] hands to [http.Server]. *)
Record httpServer : Type := {
  s_Addr : string; s_Handler : Router; s_ReadHeaderTimeout : duration; s_ReadTimeout : duration;
  s_WriteTimeout : duration; s_IdleTimeout : duration; s_MaxHeaderBytes : Z
}.

Record App : Type := { app_Router : Router; config : Config }.

Definition or_default (value fallback : Z) : Z := if value <=? 0 then fallback else value.

Definition normalizeConfig (c : Config) : Config :=
  {| Address := (let a := TrimSpace (Address c) in if bool_decide (a = EmptyString) then ":8080" else a);
     ShutdownTimeout := or_default (ShutdownTimeout c) (10 * Second);
     ReadHeaderTimeout := or_default (ReadHeaderTimeout c) (5 * Second);
     ReadTimeout := or_default (ReadTimeout c) (30 * Second);
     WriteTimeout := or_default (WriteTimeout c) (30 * Second);
     IdleTimeout := or_default (IdleTimeout c) (2 * Minute);
     MaxHeaderBytes := or_default (MaxHeaderBytes c) 1048576;
     c_Logger := match c_Logger c with None => Some slog_Default | l => l end |}.

Definition limits (c : Config) : list (string * Z) :=
  [("shutdown timeout", ShutdownTimeout c); ("read header timeout", ReadHeaderTimeout c);
   ("read timeout", ReadTimeout c); ("write timeout", WriteTimeout c); ("idle timeout", IdleTimeout c)].

Definition validateConfig (c : Config) : option error :=
  match List.find (fun l => snd l <? 0) (limits c) with
  | Some (name, _) => Some (Errorf ("forge: " +:+ name +:+ " cannot be negative"))
  | None => if MaxHeaderBytes c <? 0 then Some (Errorf "forge: maximum header bytes cannot be negative")
            else None
  end.

Definition newApp (router : Router) (c : Config) : App := {| app_Router := router; config := c |}.
Definition New (router : Router) (c : Config) : App := newApp router (normalizeConfig c).
Definition NewChecked (router : Router) (c : Config) : result App :=
  match validateConfig c with Some e => Err e | None => Ok (newApp router (normalizeConfig c)) end.

Definition newHTTPServer (c : Config) (handler : Router) : httpServer :=
  {| s_Addr := Address c; s_Handler := handler; s_ReadHeaderTimeout := ReadHeaderTimeout c;
     s_ReadTimeout := ReadTimeout c; s_WriteTimeout := WriteTimeout c; s_IdleTimeout := IdleTimeout c;
     s_MaxHeaderBytes := MaxHeaderBytes c |}.
Definition Handler (app : App) : Router := app_Router app.
End App.

(** ** One [Run] *)

Definition ErrServerClosed : error := Sentinel "http: Server closed".

(** Where [Run] is: at the [select], inside [Shutdown], inside [Close] (after the error of
    [Shutdown]), at the second receive with both errors, or returned. *)
Inductive phase : Type :=
| Selecting
| ShuttingDown
| Closing (shutdownErr : error)
| Waiting (shutdownErr closeErr : option error)
| Returned (r : option error).

(** The serve goroutine runs until it has sent; [channel] is the buffered [result]; [told]
    says that the server got a call of [Shutdown] or [Close]. *)
Record run : Type := {
  at_ : phase; serving : bool; channel : option (option error); ctxDone : bool; told : bool
}.

Inductive event : Type :=
| ServeReturned (err : option error)
| ContextEnded
| TakeResult
| TakeDone
| ShutdownReturned (err : option error)
| CloseReturned (err : option error).

Definition start (nil_context : bool) : run :=
  if nil_context
  then {| at_ := Returned (Some (Errorf "run: nil context")); serving := false; channel := None;
          ctxDone := false; told := false |}
  else {| at_ := Selecting; serving := true; channel := None; ctxDone := false; told := false |}.

Definition move (r : run) (p : phase) : run :=
  {| at_ := p; serving := serving r; channel := channel r; ctxDone := ctxDone r; told := told r |}.
(** [server.Shutdown] or [server.Close] is called. *)
Definition call (r : run) (p : phase) : run :=
  {| at_ := p; serving := serving r; channel := channel r; ctxDone := ctxDone r; told := true |}.
Definition receive (r : run) (p : phase) : run :=
  {| at_ := p; serving := serving r; channel := None; ctxDone := ctxDone r; told := told r |}.

Definition is_closed (err : option error) : bool :=
  match err with Some e => errors_Is e ErrServerClosed | None => false end.

(** [fmt.Errorf("serve: %w", err)], with a nil [err] in the first [select]. *)
Definition serve_error (err : option error) : error :=
  match err with Some e => Wrapf "serve" e | None => Errorf "serve: %!w(<nil>)" end.

Definition run_errors (shutdownErr closeErr serveErr : option error) : list error :=
  match shutdownErr with Some e => [Wrapf "graceful shutdown" e] | None => [] end ++
  match closeErr with Some e => [Wrapf "force close" e] | None => [] end ++
  match serveErr with Some e => if errors_Is e ErrServerClosed then [] else [Wrapf "serve" e] | None => [] end.

(** [errors.Join(runErrors...)]; one error is itself, as [errors.Is] and the message see it. *)
Fixpoint join_errors (errs : list error) : option error :=
  match errs with
  | [] => None
  | e :: rest => Some (match join_errors rest with Some r => Joined e r | None => e end)
  end.

Definition step (ev : event) (r : run) : option run :=
  match ev, at_ r with
  | ServeReturned err, _ =>
      if serving r then Some {| at_ := at_ r; serving := false; channel := Some err; ctxDone := ctxDone r; told := told r |}
      else None
  | ContextEnded, _ => Some {| at_ := at_ r; serving := serving r; channel := channel r; ctxDone := true; told := told r |}
  | TakeResult, Selecting =>
      match channel r with
      | Some err => Some (receive r (Returned (if is_closed err then None else Some (serve_error err))))
      | None => None
      end
  | TakeDone, Selecting => if ctxDone r then Some (call r ShuttingDown) else None
  | ShutdownReturned err, ShuttingDown =>
      Some match err with Some e => call r (Closing e) | None => move r (Waiting None None) end
  | CloseReturned err, Closing e => Some (move r (Waiting (Some e) err))
  | TakeResult, Waiting shutdownErr closeErr =>
      match channel r with
      | Some serveErr => Some (receive r (Returned (join_errors (run_errors shutdownErr closeErr serveErr))))
      | None => None
      end
  | _, _ => None
  end.

Fixpoint steps (evs : list event) (r : run) : option run :=
  match evs with
  | [] => Some r
  | ev :: evs => match step ev r with Some r' => steps evs r' | None => None end
  end.

(** ** The history of a run *)

Definition closed_once (evs : list event) (sd cl : option error) : Prop :=
  ShutdownReturned sd ∈ evs /\ (sd = None -> cl = None /\ forall c, CloseReturned c ∉ evs) /\
  (sd <> None -> CloseReturned cl ∈ evs).

Definition stopped (evs : list event) : Prop := TakeDone ∈ evs /\ ContextEnded ∈ evs.

(** How a run that returned [res] came to it. *)
Definition outcome (evs : list event) (res : option error) : Prop :=
  exists serveErr, ServeReturned serveErr ∈ evs /\
    ((TakeDone ∉ evs /\ res = if is_closed serveErr then None else Some (serve_error serveErr)) \/
     (stopped evs /\ exists sd cl, closed_once evs sd cl /\ res = join_errors (run_errors sd cl serveErr))).

(** What the events so far say about where [Run] is. *)
Definition phase_hist (evs : list event) (p : phase) : Prop :=
  match p with
  | Selecting => TakeDone ∉ evs /\ forall c, CloseReturned c ∉ evs
  | ShuttingDown => stopped evs /\ forall c, CloseReturned c ∉ evs
  | Closing e => stopped evs /\ ShutdownReturned (Some e) ∈ evs
  | Waiting sd cl => stopped evs /\ closed_once evs sd cl
  | Returned res => outcome evs res
  end.

Definition hist (evs : list event) (r : run) : Prop :=
  (forall err, channel r = Some err -> serving r = false /\ ServeReturned err ∈ evs) /\
  (ctxDone r = true -> ContextEnded ∈ evs) /\
  (forall res, at_ r = Returned res -> serving r = false) /\
  phase_hist evs (at_ r).

Lemma in_snoc (e ev : event) evs : e ∈ evs -> e ∈ evs ++ [ev].
Proof. rewrite elem_of_app. auto. Qed.
Lemma in_last (ev : event) evs : ev ∈ evs ++ [ev].
Proof. rewrite elem_of_app, list_elem_of_singleton. auto. Qed.
Lemma not_in_snoc (e ev : event) evs : e ∉ evs -> e <> ev -> e ∉ evs ++ [ev].
Proof. rewrite elem_of_app, list_elem_of_singleton. tauto. Qed.
#[local] Hint Resolve in_snoc in_last not_in_snoc : core.

Lemma stopped_snoc ev evs : stopped evs -> stopped (evs ++ [ev]).
Proof. intros [? ?]; split; auto. Qed.

Lemma closed_once_snoc ev evs sd cl :
  (forall c, ev <> CloseReturned c) -> closed_once evs sd cl -> closed_once (evs ++ [ev]) sd cl.
Proof.
  intros He (? & Hn & Hs). split_and!; [auto| |auto].
  intros Hsd. destruct (Hn Hsd). split; [done|]. intros c. apply not_in_snoc; [auto|]. intros <-. by eapply He.
Qed.

Lemma outcome_snoc ev evs res :
  (forall c, ev <> CloseReturned c) -> ev <> TakeDone -> outcome evs res -> outcome (evs ++ [ev]) res.
Proof.
  intros Hc Hd (serveErr & Hs & [[? ?] | (? & sd & cl & ? & ?)]); exists serveErr; (split; [auto|]).
  - left. auto.
  - right. split; [by apply stopped_snoc|]. exists sd, cl. split; [by apply closed_once_snoc|done].
Qed.
#[local] Hint Resolve stopped_snoc closed_once_snoc outcome_snoc : core.

Lemma phase_hist_snoc ev evs p :
  (forall c, ev <> CloseReturned c) -> ev <> TakeDone -> phase_hist evs p -> phase_hist (evs ++ [ev]) p.
Proof.
  intros Hc Hd. destruct p; cbn; try (intros [? ?]; split; auto); auto;
    intros c; apply not_in_snoc; auto; intros <-; by eapply Hc.
Qed.

Lemma hist_step evs ev r r' : hist evs r -> step ev r = Some r' -> hist (evs ++ [ev]) r'.
Proof.
  intros (Hch & Hctx & Hret & Hat) Hs. unfold hist.
  assert (forall err, channel r = Some err -> serving r = false /\ ServeReturned err ∈ evs ++ [ev]) as Hch'
    by (intros err He; destruct (Hch err He); auto).
  destruct ev as [err| | | |err|err]; cbn in Hs.
  - destruct (serving r) eqn:Hsv; [|done]. simplify_eq; cbn.
    split_and!; [intros ? [= <-]; auto|auto|done|by apply phase_hist_snoc].
  - simplify_eq; cbn. split_and!; [done|auto|done|by apply phase_hist_snoc].
  - destruct (at_ r), (channel r) as [err|] eqn:Hc; simplify_eq; cbn; split_and!; try done; auto.
    + intros _ _. by eapply Hch'.
    + destruct (Hch' _ eq_refl), Hat. exists err. split; [done|]. left. split; [|done]. by apply not_in_snoc.
    + intros _ _. by eapply Hch'.
    + destruct (Hch' _ eq_refl), Hat. exists err. split; [done|]. right. split; [auto|]. eauto 10.
  - destruct (at_ r), (ctxDone r) eqn:Hc; simplify_eq; cbn; split_and!; try done; auto.
    + split; auto.
    + intros c. apply not_in_snoc; [by apply Hat|done].
  - destruct (at_ r); simplify_eq; cbn. destruct Hat as [Hst Hcl].
    destruct err as [e|]; cbn; split_and!; try done; auto.
    split_and!; [auto| |done]. intros _. split; [done|]. intros c. by apply not_in_snoc.
  - destruct (at_ r) as [| |e| |]; simplify_eq; cbn. destruct Hat as [Hst Hsd]. split_and!; [done|auto|done|auto|].
    split_and!; auto; done.
Qed.

Lemma hist_steps evs r : steps evs (start false) = Some r -> hist evs r.
Proof.
  assert (forall evs pre r0, hist pre r0 -> steps evs r0 = Some r -> hist (pre ++ evs) r) as Hgen.
  { clear. intros evs; induction evs as [|ev evs IH]; intros pre r0 Hp Hs; cbn in Hs.
    - simplify_eq. by rewrite app_nil_r.
    - destruct (step ev r0) as [r1|] eqn:Hst; [|done]. rewrite (app_assoc pre [ev] evs : pre ++ ev :: evs = _).
      eapply IH; [|exact Hs]. by eapply hist_step. }
  intros Hs. apply (Hgen evs [] (start false)); [|exact Hs]. cbn. split_and!; try done; set_solver.
Qed.

(** ** The reported error *)

Lemma join_errors_in e errs : e ∈ errs -> exists x, join_errors errs = Some x /\ errors_Is x e = true.
Proof.
  induction errs as [|a errs IH]; [set_solver|]. intros Hin; cbn. eexists; split; [reflexivity|].
  apply elem_of_cons in Hin as [-> | Hin].
  - destruct (join_errors errs); cbn; rewrite ?errors_Is_refl; rewrite ?orb_true_r; auto with goforge.
  - destruct (IH Hin) as (x & -> & Hx). cbn. by rewrite Hx, !orb_true_r.
Qed.

Lemma errors_Is_unwrap x f e t : errors_Is x (Wrapf f e) = true -> errors_Is e t = true -> errors_Is x t = true.
Proof.
  induction x as [|g|g x IH|x IH1 y IH2]; cbn; intros Hx He; rewrite ?orb_true_iff, ?bool_decide_eq_true in *.
  - by destruct Hx.
  - by destruct Hx.
  - destruct Hx as [[= -> ->] | Hx]; auto.
  - destruct Hx as [? | [? | ?]]; [done|auto..].
Qed.

Lemma join_errors_nil errs : join_errors errs = None <-> errs = [].
Proof. by destruct errs. Qed.

Lemma run_errors_in sd cl serveErr e :
  sd = Some e \/ cl = Some e \/ (serveErr = Some e /\ is_closed serveErr = false) ->
  exists f, Wrapf f e ∈ run_errors sd cl serveErr.
Proof.
  unfold run_errors. intros [-> | [-> | [-> Hc]]].
  - exists "graceful shutdown". set_solver.
  - exists "force close". set_solver.
  - exists "serve". cbn in Hc. rewrite Hc. set_solver.
Qed.

(** A run reports all it saw and leaves nothing behind.  Whatever the server, the context
    and the scheduler do, once [Run] has returned the serve goroutine has ended; if the
    context did not stop the run the result is what serving ended with, [nil] exactly for
    [http.ErrServerClosed]; if it did, [Close] was called only after a failed [Shutdown], and
    the failures of [Shutdown], [Close] and serving are all found in the result, which is
    [nil] exactly when there are none. *)
Theorem run_reports_every_failure evs r res :
  steps evs (start false) = Some r -> at_ r = Returned res ->
  serving r = false /\ exists serveErr, ServeReturned serveErr ∈ evs /\
  ((TakeDone ∉ evs /\ (res = None <-> is_closed serveErr = true)) \/
   (TakeDone ∈ evs /\ ContextEnded ∈ evs /\ exists sd cl, ShutdownReturned sd ∈ evs /\
      (sd = None -> cl = None /\ forall c, CloseReturned c ∉ evs) /\ (sd <> None -> CloseReturned cl ∈ evs) /\
      (res = None <-> sd = None /\ (serveErr = None \/ is_closed serveErr = true)) /\
      forall e, sd = Some e \/ cl = Some e \/ (serveErr = Some e /\ is_closed serveErr = false) ->
        exists x, res = Some x /\ errors_Is x e = true)).
Proof.
  intros Hs Hr. destruct (hist_steps _ _ Hs) as (_ & _ & Hret & Hat). split; [by eapply Hret|].
  rewrite Hr in Hat. destruct Hat as (serveErr & Hserve & [[Hd ->] | ([Hd Hc] & sd & cl & (Hsd & Hn & Hcl) & ->)]);
    exists serveErr; (split; [done|]).
  - left. split; [done|]. by destruct (is_closed serveErr).
  - right. split_and!; [done..|]. exists sd, cl. split_and!; [done..| |].
    + rewrite join_errors_nil. unfold run_errors. destruct sd as [e|]; [split; [done|naive_solver]|].
      destruct (Hn eq_refl) as [-> _]. destruct serveErr as [e|]; cbn; [|naive_solver].
      destruct (errors_Is e ErrServerClosed); naive_solver.
    + intros e He. destruct (run_errors_in _ _ _ _ He) as [f Hf].
      destruct (join_errors_in _ _ Hf) as (x & Hx & His). exists x. split; [done|].
      eapply errors_Is_unwrap; [exact His|apply errors_Is_refl].
Qed.

(** ** Liveness *)

(** An infinite behaviour: at every tick an event happens or nothing does. *)
Definition behaviour (tr : nat -> run) (evs : nat -> option event) : Prop :=
  tr 0%nat = start false /\
  forall n, match evs n with Some ev => step ev (tr n) = Some (tr (S n)) | None => tr (S n) = tr n end.

(** [Run] itself can take a step. *)
Definition ready (r : run) : bool :=
  match at_ r with
  | Selecting => bool_decide (is_Some (channel r)) || ctxDone r
  | Waiting _ _ => bool_decide (is_Some (channel r))
  | _ => false
  end.
Definition own (ev : option event) : bool :=
  match ev with Some TakeResult | Some TakeDone => true | _ => false end.

(** The scheduler does not starve [Run]; [Shutdown], whose context has a deadline, and
    [Close] return; and the server keeps the contract of [net/http]: once [Shutdown] or
    [Close] was called, [ListenAndServe] returns.  Nothing makes it return otherwise. *)
Record fair (tr : nat -> run) (evs : nat -> option event) : Prop := {
  fair_run : forall n, ready (tr n) = true ->
    exists m, (n <= m)%nat /\ (own (evs m) = true \/ ready (tr m) = false);
  fair_shutdown : forall n, at_ (tr n) = ShuttingDown -> exists m, (n <= m)%nat /\ at_ (tr m) <> ShuttingDown;
  fair_close : forall n e, at_ (tr n) = Closing e -> exists m, (n <= m)%nat /\ at_ (tr m) <> Closing e;
  fair_serve : forall n, told (tr n) = true -> exists m, (n <= m)%nat /\ serving (tr m) = false
}.

Definition rank (p : phase) : nat :=
  match p with Selecting => 4 | ShuttingDown => 3 | Closing _ => 2 | Waiting _ _ => 1 | Returned _ => 0 end.

Lemma step_rank ev r r' : step ev r = Some r' -> at_ r' = at_ r \/ (rank (at_ r') < rank (at_ r))%nat.
Proof. destruct ev, r as [[] ? ? ? ?]; cbn; intros; repeat case_match; simplify_eq; cbn; auto with lia. Qed.

Lemma step_own ev r r' : step ev r = Some r' -> own (Some ev) = true -> (rank (at_ r') < rank (at_ r))%nat.
Proof. destruct ev, r as [[] ? ? ? ?]; cbn; intros; repeat case_match; simplify_eq; cbn; auto with lia. Qed.

(** The flags only rise, and what was sent stays in the channel until [Run] returns. *)
Definition sent (r : run) : Prop :=
  match at_ r with Returned _ => True | _ => serving r = negb (bool_decide (is_Some (channel r))) end.

Lemma step_flags ev r r' : step ev r = Some r' -> sent r ->
  sent r' /\ (ctxDone r = true -> ctxDone r' = true) /\ (serving r = false -> serving r' = false).
Proof.
  unfold sent. destruct ev, r as [[] [] [] [] ?]; cbn; intros; repeat case_match; simplify_eq; cbn in *; split_and!; done.
Qed.

(** [Run] waits for the serve goroutine only after it has told the server to stop. *)
Definition waits_after_telling (r : run) : Prop :=
  match at_ r with ShuttingDown | Closing _ | Waiting _ _ => told r = true | _ => True end.
Lemma step_told ev r r' : step ev r = Some r' -> waits_after_telling r -> waits_after_telling r'.
Proof. unfold waits_after_telling. destruct ev, r as [[] ? ? ? ?]; cbn; intros; repeat case_match; simplify_eq; cbn in *; done. Qed.

Section Liveness.
Context (tr : nat -> run) (evs : nat -> option event) (Hb : behaviour tr evs) (Hf : fair tr evs).

Lemma rank_antitone n m : (n <= m)%nat -> at_ (tr m) = at_ (tr n) \/ (rank (at_ (tr m)) < rank (at_ (tr n)))%nat.
Proof.
  induction 1 as [|m Hle IH]; [auto|]. destruct Hb as [_ Hst]. specialize (Hst m).
  destruct (evs m); [|rewrite Hst; exact IH].
  destruct (step_rank _ _ _ Hst) as [He | Hlt]; [rewrite He; exact IH|]. destruct IH as [IH | IH]; [rewrite <- IH|]; auto with lia.
Qed.

Lemma flags n : sent (tr n).
Proof.
  destruct Hb as [H0 Hst]. induction n as [|n IH]; [by rewrite H0|]. specialize (Hst n).
  destruct (evs n); [|by rewrite Hst]. by destruct (step_flags _ _ _ Hst IH).
Qed.

Lemma told_in_time n : waits_after_telling (tr n).
Proof.
  destruct Hb as [H0 Hst]. induction n as [|n IH]; [by rewrite H0|]. specialize (Hst n).
  destruct (evs n); [|by rewrite Hst]. by eapply step_told.
Qed.

Lemma flags_rise n m : (n <= m)%nat ->
  (ctxDone (tr n) = true -> ctxDone (tr m) = true) /\ (serving (tr n) = false -> serving (tr m) = false).
Proof.
  induction 1 as [|m Hle [IH1 IH2]]; [auto|]. destruct Hb as [_ Hst]. specialize (Hst m).
  destruct (evs m); [|by rewrite Hst]. destruct (step_flags _ _ _ Hst (flags m)) as (_ & ? & ?). auto.
Qed.

(** From a state where [Run] can step, the rank drops. *)
Lemma ready_drops n m : (n <= m)%nat -> at_ (tr m) = at_ (tr n) -> ready (tr m) = true ->
  exists k, (n <= k)%nat /\ (rank (at_ (tr k)) < rank (at_ (tr n)))%nat.
Proof.
  intros Hle He Hr. destruct (fair_run _ _ Hf m Hr) as (k & Hk & Hown).
  destruct (rank_antitone m k Hk) as [Hsame | Hlt]; [|exists k; rewrite <- He; auto with lia].
  destruct Hown as [Hown | Hnot].
  - exists (S k). destruct Hb as [_ Hst]. specialize (Hst k). destruct (evs k) as [ev|]; [|done].
    apply step_own in Hst; [|done]. rewrite Hsame, He in Hst. auto with lia.
  - exfalso. destruct (flags_rise m k Hk) as [Hc Hs]. unfold ready in *. rewrite Hsame in Hnot.
    pose proof (flags m) as Hm. pose proof (flags k) as Hk'. unfold sent in *. rewrite Hsame in Hk'.
    destruct (at_ (tr m)) eqn:Hp; try done.
    + apply orb_false_iff in Hnot as [Hn1 Hn2]. rewrite Hn1 in Hk'. apply orb_true_iff in Hr as [Hr | Hr].
      * rewrite Hr in Hm. rewrite Hs in Hk'; done.
      * rewrite Hc in Hn2; done.
    + rewrite Hr in Hm. rewrite Hnot, Hs in Hk'; done.
Qed.

Hypothesis Hend : exists n, ctxDone (tr n) = true \/ serving (tr n) = false.

(** From every phase but the last the rank drops. *)
Lemma rank_drops n : (0 < rank (at_ (tr n)))%nat -> exists k, (n <= k)%nat /\ (rank (at_ (tr k)) < rank (at_ (tr n)))%nat.
Proof.
  intros Hpos.
  assert (forall m, (n <= m)%nat -> at_ (tr m) <> at_ (tr n) ->
    exists k, (n <= k)%nat /\ (rank (at_ (tr k)) < rank (at_ (tr n)))%nat) as Hmoved
    by (intros m Hm Hne; destruct (rank_antitone n m Hm); [done|eauto]).
  destruct (at_ (tr n)) as [| |e|sd cl|] eqn:Hp; rewrite <- ?Hp in *.
  - destruct Hend as [k Hk]. set (m := Nat.max n k).
    destruct (rank_antitone n m ltac:(lia)) as [He | Hlt]; [|eexists; split; [|exact Hlt]; lia].
    apply (ready_drops n m ltac:(lia) He). destruct (flags_rise k m ltac:(lia)) as [Hc Hs].
    pose proof (flags m) as Hm. unfold ready, sent in *. rewrite He, Hp in *. rewrite orb_true_iff.
    destruct Hk as [Hk | Hk]; [right; auto|left]. rewrite Hs in Hm by done.
    by destruct (bool_decide (is_Some (channel (tr m)))).
  - destruct (fair_shutdown _ _ Hf n Hp) as (m & Hm & Hne). apply (Hmoved m Hm). by rewrite Hp.
  - destruct (fair_close _ _ Hf n e Hp) as (m & Hm & Hne). apply (Hmoved m Hm). by rewrite Hp.
  - assert (told (tr n) = true) as Htold by (pose proof (told_in_time n) as Hw; unfold waits_after_telling in Hw; by rewrite Hp in Hw).
    destruct (fair_serve _ _ Hf n Htold) as (m & Hm & Hsv).
    destruct (rank_antitone n m Hm) as [He | Hlt]; [|eauto].
    apply (ready_drops n m Hm He). pose proof (flags m) as Hs. unfold ready, sent in *. rewrite He, Hp in *.
    rewrite Hsv in Hs. by destruct (bool_decide (is_Some (channel (tr m)))).
  - rewrite Hp in Hpos. cbn in Hpos. lia.
Qed.

Lemma reaches_return k n : (rank (at_ (tr n)) <= k)%nat -> exists m res, at_ (tr m) = Returned res.
Proof.
  revert n; induction k as [|k IH]; intros n Hle; (destruct (decide (rank (at_ (tr n)) = 0%nat)) as [H0 | Hne];
    [destruct (at_ (tr n)) as [| | | |res] eqn:Hp; try done; eauto|]); [lia|].
  destruct (rank_drops n ltac:(lia)) as (m & _ & Hlt). apply (IH m). lia.
Qed.
End Liveness.

(** C12. [Run] returns once the context ends or serving stops by itself: it is never left
    waiting for the serve goroutine, whatever [Shutdown] and [Close] answer and whichever ready
    case its [select] takes.  The behaviour has to be fair: a ready [Run] is scheduled, calls of
    [Shutdown] and [Close] return, and [ListenAndServe] returns after [Run] has called one of
    them; nothing else makes it return, so [Run] must have made the call before it waits. *)
Theorem run_returns tr evs :
  behaviour tr evs -> fair tr evs -> (exists n, ctxDone (tr n) = true \/ serving (tr n) = false) ->
  exists n res, at_ (tr n) = Returned res.
Proof. intros Hb Hf He. by eapply (reaches_return tr evs Hb Hf He (rank (at_ (tr 0%nat))) 0%nat). Qed.

(** A shutdown that runs out of time and is forced. *)
Module Forced.
Definition events : list event :=
  [ContextEnded; TakeDone; ShutdownReturned (Some (Sentinel "context deadline exceeded")); CloseReturned None;
   ServeReturned (Some ErrServerClosed); TakeResult].
Definition tr (n : nat) : run :=
  match steps (take n events) (start false) with Some r => r | None => start false end.
Definition evs (n : nat) : option event := events !! n.
End Forced.

Lemma run_reports_every_failure_witness :
  exists r res, steps Forced.events (start false) = Some r /\ at_ r = Returned res /\ serving r = false /\
    exists e, res = Some e /\ errors_Is e (Sentinel "context deadline exceeded") = true.
Proof.
  destruct (steps Forced.events (start false)) as [r|] eqn:Hs; [|discriminate Hs].
  pose proof Hs as Hr. vm_compute in Hr. injection Hr as <-.
  pose proof (run_reports_every_failure _ _ _ Hs eq_refl) as [Hsv _].
  eexists _, _. split; [reflexivity|]. split; [reflexivity|]. split; [exact Hsv|]. eexists. split; reflexivity.
Defined.

Lemma forced_end n : (6 <= n)%nat -> Forced.tr n = Forced.tr 6.
Proof. intros. unfold Forced.tr. by rewrite !take_ge by (cbn; lia). Qed.

Lemma forced_behaviour : behaviour Forced.tr Forced.evs.
Proof.
  split; [reflexivity|]. intros n. destruct (decide (n < 6)%nat) as [Hlt | Hge].
  - do 6 (destruct n as [|n]; [reflexivity|]). lia.
  - rewrite (forced_end n), (forced_end (S n)) by lia. unfold Forced.evs.
    by rewrite (lookup_ge_None_2 Forced.events n) by (cbn; lia).
Qed.

Lemma forced_fair : fair Forced.tr Forced.evs.
Proof.
  split; intros n; intros; exists (Nat.max n 6); (split; [lia|]); rewrite (forced_end (Nat.max n 6)) by lia;
    first [right; reflexivity | reflexivity | discriminate].
Qed.

Lemma run_returns_witness :
  behaviour Forced.tr Forced.evs /\ fair Forced.tr Forced.evs /\ exists n res, at_ (Forced.tr n) = Returned res.
Proof.
  split; [exact forced_behaviour|]. split; [exact forced_fair|].
  apply (run_returns Forced.tr Forced.evs forced_behaviour forced_fair). exists 1%nat. left. reflexivity.
Defined.

(** ** Configuration *)

Lemma or_default_pos v d : 0 < d -> 0 < or_default v d /\ (0 < v -> or_default v d = v).
Proof. unfold or_default. intros. case_match; bool_to_prop; lia. Qed.

(** [NewChecked] refuses exactly the configurations with a negative limit; the application it
    makes has positive limits only, those that were set among them. *)
Lemma NewChecked_limits {L R} (l : L) (router : R) c :
  match NewChecked l router c with
  | Err _ => exists v, v ∈ MaxHeaderBytes c :: map snd (limits c) /\ v < 0
  | Ok app =>
      Forall (fun v => 0 <= v) (MaxHeaderBytes c :: map snd (limits c)) /\
      Forall2 (fun v w => 0 < w /\ (0 < v -> w = v)) (MaxHeaderBytes c :: map snd (limits c))
        (MaxHeaderBytes (config app) :: map snd (limits (config app)))
  end.
Proof.
  unfold NewChecked, validateConfig. destruct (List.find _ _) as [[name v]|] eqn:Hf.
  - apply List.find_some in Hf as [Hin Hv]. exists v. split; [|cbn in Hv; lia].
    right. apply list_elem_of_In, List.in_map_iff. by exists (name, v).
  - destruct (MaxHeaderBytes c <? 0) eqn:Hm; cbn [negb]; [exists (MaxHeaderBytes c); split; [left|lia]|]. split.
    + constructor; [lia|]. apply List.Forall_forall. intros v (p & <- & Hp)%List.in_map_iff.
      apply (List.find_none _ _ Hf) in Hp. lia.
    + repeat (constructor; [apply or_default_pos; done|]). constructor.
Qed.
