(* ===== verification/ViewSource.v ===== *)
(** * Template sources ([view/forge_parse.go]): positions, diagnostics and scanning

    Offsets are byte offsets in the source, lines and columns count from one, columns in
    runes.  Diagnostics carry the whole text the code formats.  The scanners track quotes the
    way the code does, with one step shared by all of them. *)

From S2P Require Import Prelude GoStrings GoUtf8 GoQuote GoUrl GoText.
Local Open Scope go_scope.
Local Open Scope Z_scope.

Definition lf : string := String newline EmptyString.

(** ** Positions and diagnostics *)

Fixpoint position_loop (fuel : nat) (s : string) (left : nat) (line column : Z) : Z * Z :=
  match fuel, left with
  | S n, S _ =>
      let '(r, size) := DecodeRune s in
      if (left <? size)%nat then (line, column)
      else if r =? ord newline then position_loop n (drop_string size s) (left - size) (line + 1) 1
      else position_loop n (drop_string size s) (left - size) line (column + 1)
  | _, _ => (line, column)
  end.
Definition sourcePosition (source : string) (offset : nat) : Z * Z :=
  let offset := Nat.min offset (String.length source) in
  position_loop offset source offset 1 1.

Definition sourceError (path source : string) (offset : nat) (message : string) : error :=
  let offset := Nat.min offset (String.length source) in
  let '(line, column) := sourcePosition source offset in
  let lineStart := match LastIndex (take_string offset source) lf with Some i => S i | None => O end in
  let lineEnd := match Index (drop_string offset source) lf with
                 | Some i => (i + offset)%nat
                 | None => String.length source
                 end in
  let excerpt := slice lineStart lineEnd source in
  Errorf (path +:+ ":" +:+ Itoa line +:+ ":" +:+ Itoa column +:+ ": " +:+ message +:+ lf +:+ excerpt +:+ lf +:+
          Repeat " " (Z.to_nat (column - 1)) +:+ "^").

Record sourceSpan : Type := { sp_path : string; sp_start : nat; sp_end : nat; sp_line : Z; sp_column : Z }.
Definition no_span : sourceSpan := {| sp_path := EmptyString; sp_start := 0; sp_end := 0; sp_line := 0; sp_column := 0 |}.

#[export] Instance sourceSpan_eq_dec : EqDecision sourceSpan.
Proof. solve_decision. Defined.

(** ** Scanning *)

(** The variables [quote] and [escaped] of the scanning loops. *)
Record quoting : Type := { quote : option ascii; escaped : bool }.
Definition unquoted : quoting := {| quote := None; escaped := false |}.

Definition is_quote (ch : ascii) : bool :=
  bool_decide (ch = dquote) || bool_decide (ch = squote) || bool_decide (ch = backquote).

(** The part of the loop bodies that deals with quotes: the new variables when the body
    continues there, [None] when [ch] goes on to the rest of the body. *)
Definition quote_step (q : quoting) (ch : ascii) : option quoting :=
  match quote q with
  | Some qc =>
      let interpreted := negb (bool_decide (qc = backquote)) in
      if interpreted && escaped q then Some {| quote := Some qc; escaped := false |}
      else if interpreted && bool_decide (ch = backslash) then Some {| quote := Some qc; escaped := true |}
      else if bool_decide (ch = qc) then Some {| quote := None; escaped := escaped q |}
      else Some q
  | None => if is_quote ch then Some {| quote := Some ch; escaped := escaped q |} else None
  end.

(** [scanGoAction]: [index] is the offset of the rest [s]. *)
Fixpoint scan_action (s : string) (q : quoting) (index : nat) : option nat :=
  match s with
  | String ch ((String next _) as rest) =>
      match quote_step q ch with
      | Some q' => scan_action rest q' (S index)
      | None => if bool_decide (ch = "}"%char) && bool_decide (next = "}"%char) then Some (S (S index))
                else scan_action rest q (S index)
      end
  | _ => None
  end.
Definition scanGoAction (source : string) (start : nat) : result nat :=
  match scan_action (drop_string (start + 2) source) unquoted (start + 2) with
  | Some fin => Ok fin
  | None => Err (Errorf "Go template action is not closed")
  end.

(** [scanBalanced] *)
Fixpoint scan_balanced (s : string) (q : quoting) (depth : Z) (index : nat) : option nat :=
  match s with
  | EmptyString => None
  | String ch rest =>
      match quote_step q ch with
      | Some q' => scan_balanced rest q' depth (S index)
      | None =>
          if bool_decide (ch = "("%char) then scan_balanced rest q (depth + 1) (S index)
          else if bool_decide (ch = ")"%char) then
            if depth - 1 =? 0 then Some (S index) else scan_balanced rest q (depth - 1) (S index)
          else scan_balanced rest q depth (S index)
      end
  end.
Definition scanBalanced (source : string) (start : nat) : result nat :=
  match scan_balanced (drop_string start source) unquoted 0 start with
  | Some fin => Ok fin
  | None => Err (Errorf "directive arguments are not closed")
  end.

Definition opens (ch : ascii) : bool :=
  bool_decide (ch = "("%char) || bool_decide (ch = "["%char) || bool_decide (ch = "{"%char).
Definition closes (ch : ascii) : bool :=
  bool_decide (ch = ")"%char) || bool_decide (ch = "]"%char) || bool_decide (ch = "}"%char).

(** The loop of [splitArguments]: [current] is [raw[start:index]] reversed; [None] is an
    unbalanced argument. *)
Fixpoint split_loop (s : string) (q : quoting) (depth : Z) (current : string) (parts : list string)
    : option (list string) :=
  match s with
  | EmptyString =>
      if bool_decide (quote q = None) && (depth =? 0)
      then Some (parts ++ [TrimSpace (rev_string current EmptyString)]) else None
  | String ch rest =>
      match quote_step q ch with
      | Some q' => split_loop rest q' depth (String ch current) parts
      | None =>
          if opens ch then split_loop rest q (depth + 1) (String ch current) parts
          else if closes ch then
            if depth - 1 <? 0 then None else split_loop rest q (depth - 1) (String ch current) parts
          else if bool_decide (ch = ","%char) && (depth =? 0)
          then split_loop rest q depth EmptyString (parts ++ [TrimSpace (rev_string current EmptyString)])
          else split_loop rest q depth (String ch current) parts
      end
  end.
Definition splitArguments (raw : string) : result (list string) :=
  if bool_decide (TrimSpace raw = EmptyString) then Ok []
  else match split_loop raw unquoted 0 EmptyString [] with
  | None => Err (Errorf "unbalanced directive argument")
  | Some parts => if bool_decide (EmptyString ∈ parts) then Err (Errorf "empty directive argument") else Ok parts
  end.

(** [splitNamedArgument]: the name and the value around the first [=] outside quotes and
    brackets; [None] is not assigned. *)
Fixpoint named_loop (s : string) (q : quoting) (depth : Z) (before : string) : option (string * string) :=
  match s with
  | EmptyString => None
  | String ch rest =>
      match quote_step q ch with
      | Some q' => named_loop rest q' depth (String ch before)
      | None =>
          if opens ch then named_loop rest q (depth + 1) (String ch before)
          else if closes ch then named_loop rest q (depth - 1) (String ch before)
          else if bool_decide (ch = "="%char) && (depth =? 0)
          then Some (TrimSpace (rev_string before EmptyString), TrimSpace rest)
          else named_loop rest q depth (String ch before)
      end
  end.
Definition splitNamedArgument (raw : string) : option (string * string) := named_loop raw unquoted 0 EmptyString.

(** ** Names *)

Definition lower_letter : ascii -> bool := inb 97 122.
Definition letter (c : ascii) : bool := inb 97 122 c || inb 65 90 c.

Definition validIdentifier (value : string) : bool :=
  match value with
  | EmptyString => false
  | String c rest =>
      (bool_decide (c = "_"%char) || letter c) &&
      all_chars (fun c => bool_decide (c = "_"%char) || letter c || inb 48 57 c) rest
  end.

(** The runes of an attribute name; [hyphen] is [previousHyphen]. *)
Fixpoint attribute_runes (rs : list Z) (hyphen : bool) : bool :=
  match rs with
  | [] => negb hyphen
  | r :: rest =>
      if r =? 45 then if hyphen then false else attribute_runes rest true
      else if ((97 <=? r) && (r <=? 122)) || ((48 <=? r) && (r <=? 57)) then attribute_runes rest false
      else false
  end.
Definition validAttributeName (value : string) : bool :=
  match value with
  | EmptyString => false
  | String c _ => lower_letter c && attribute_runes (runes value) false
  end.
Definition unsafeBagAttribute (name : string) : bool :=
  HasPrefix name "on" || bool_decide (name = "style") || bool_decide (name = "srcdoc").

(** The first offset from [index] on that is not a blank, and the rest from there. *)
Fixpoint skip_blanks (s : string) (index : nat) : nat * string :=
  match s with
  | String c rest =>
      if bool_decide (c = " "%char) || bool_decide (c = chr 9) then skip_blanks rest (S index) else (index, s)
  | EmptyString => (index, s)
  end.

Fixpoint take_letters (s : string) : string :=
  match s with
  | String c rest => if letter c then String c (take_letters rest) else EmptyString
  | EmptyString => EmptyString
  end.

(** [strings.IndexFunc(word, unicode.IsSpace)] and the cut there. *)
Fixpoint first_word (s : string) : string :=
  match s with
  | EmptyString => EmptyString
  | String c rest =>
      if bool_decide (leading_space spaceEncodings s = None) then String c (first_word rest) else EmptyString
  end.
