(* ===== verification/ViewParse.v ===== *)
(** * The template parser ([view/forge_parse.go])

    One definition per function of the parser; [p.pos] is passed along.  [parseNodes] and the
    directives that contain nodes call each other, so they run on fuel: the outer [option] is
    [None] when it runs out, which never happens with the length of the source
    ([ViewParseProps.parser_always_answers]). *)

From S2P Require Import Prelude GoStrings GoUtf8 GoQuote GoUrl GoText ViewSource.
Local Open Scope go_scope.
Local Open Scope Z_scope.

Inductive nodeKind : Type :=
| nodeText | nodeAction | nodeExtends | nodeSection | nodeYield | nodeInclude | nodeProps | nodeComponent
| nodeSlot | nodeIf | nodeFor | nodeWith | nodePush | nodeStack | nodeCSRF | nodeMethod | nodeOld | nodeErrors
| nodeAttributes.

#[export] Instance nodeKind_eq_dec : EqDecision nodeKind.
Proof. solve_decision. Defined.

Record argument : Type := { arg_name : string; arg_value : string; arg_span : sourceSpan }.
Record attributeSpec : Type := { at_name : string; at_value : string; at_span : sourceSpan }.
Record attributeBag : Type := {
  forward : bool; forwardSpan : sourceSpan; entries : list attributeSpec; bag_span : sourceSpan
}.

(** A node is its fields and the node lists below it; an absent list is empty. *)
Record fields : Type := {
  kind : nodeKind; span : sourceSpan; text : string; name : string; args : list argument;
  context : list string; attributes : option attributeBag; form : string; formSpan : sourceSpan
}.
Record branch (node : Type) : Type := { pipeline : string; b_span : sourceSpan; b_nodes : list node }.
Arguments pipeline {node} _.
Arguments b_span {node} _.
Arguments b_nodes {node} _.
Arguments Build_branch {node} _ _ _.

Inductive node : Type :=
| Node (f : fields) (children : list node) (branches : list (branch node)) (alternate : list node).

Definition fields_of (n : node) : fields := let 'Node f _ _ _ := n in f.
Definition children (n : node) : list node := let 'Node _ c _ _ := n in c.
Definition branches (n : node) : list (branch node) := let 'Node _ _ b _ := n in b.
Definition alternate (n : node) : list node := let 'Node _ _ _ a := n in a.

Definition new_fields (k : nodeKind) (s : sourceSpan) (t : string) : fields :=
  {| kind := k; span := s; text := t; name := EmptyString; args := []; context := []; attributes := None;
     form := EmptyString; formSpan := no_span |}.
Definition leaf (f : fields) : node := Node f [] [] [].

Definition set_name (v : string) (f : fields) : fields :=
  {| kind := kind f; span := span f; text := text f; name := v; args := args f; context := context f;
     attributes := attributes f; form := form f; formSpan := formSpan f |}.
Definition set_text (v : string) (f : fields) : fields :=
  {| kind := kind f; span := span f; text := v; name := name f; args := args f; context := context f;
     attributes := attributes f; form := form f; formSpan := formSpan f |}.
Definition set_args (v : list argument) (f : fields) : fields :=
  {| kind := kind f; span := span f; text := text f; name := name f; args := v; context := context f;
     attributes := attributes f; form := form f; formSpan := formSpan f |}.
Definition set_attributes (v : option attributeBag) (f : fields) : fields :=
  {| kind := kind f; span := span f; text := text f; name := name f; args := args f; context := context f;
     attributes := v; form := form f; formSpan := formSpan f |}.
Definition set_form (v : string) (s : sourceSpan) (f : fields) : fields :=
  {| kind := kind f; span := span f; text := text f; name := name f; args := args f; context := context f;
     attributes := attributes f; form := v; formSpan := s |}.
Definition set_context (v : list string) (f : fields) : fields :=
  {| kind := kind f; span := span f; text := text f; name := name f; args := args f; context := v;
     attributes := attributes f; form := form f; formSpan := formSpan f |}.
Definition set_end (e : nat) (f : fields) : fields :=
  {| kind := kind f;
     span := {| sp_path := sp_path (span f); sp_start := sp_start (span f); sp_end := e;
                sp_line := sp_line (span f); sp_column := sp_column (span f) |};
     text := text f; name := name f; args := args f; context := context f; attributes := attributes f;
     form := form f; formSpan := formSpan f |}.

Record propDefinition : Type := { p_name : string; required : bool; defaultVal : string; p_span : sourceSpan }.
Record document : Type := {
  path : string; d_name : string; source : string; nodes : list node; extends : string;
  sections : gmap string (list node); extra : list node; component : bool; props : list propDefinition;
  attributeSink : bool
}.

(** ** Directive names *)

Definition directives : list string :=
  ["extends"; "section"; "endsection"; "yield"; "include"; "props"; "component"; "endcomponent"; "slot"; "endslot";
   "if"; "elseif"; "else"; "endif"; "for"; "empty"; "endfor"; "with"; "endwith"; "push"; "endpush"; "stack"; "csrf";
   "method"; "old"; "errors"; "enderrors"; "attributes"].
Definition knownDirective (name : string) : bool := bool_decide (name ∈ directives).

Definition directiveLabel (k : nodeKind) : string :=
  match k with
  | nodeExtends => "@extends" | nodeYield => "@yield" | nodeStack => "@stack" | nodePush => "@push"
  | nodeSection => "@section" | nodeErrors => "@errors" | _ => EmptyString
  end.

(** The directives that are one call, and those that open a block with their end. *)
Definition leaf_kind (name : string) : option nodeKind :=
  if bool_decide (name = "extends") then Some nodeExtends else if bool_decide (name = "yield") then Some nodeYield
  else if bool_decide (name = "include") then Some nodeInclude else if bool_decide (name = "props") then Some nodeProps
  else if bool_decide (name = "stack") then Some nodeStack else if bool_decide (name = "method") then Some nodeMethod
  else if bool_decide (name = "old") then Some nodeOld
  else if bool_decide (name = "attributes") then Some nodeAttributes else None.
Definition block_kind (name : string) : option (nodeKind * string) :=
  if bool_decide (name = "section") then Some (nodeSection, "endsection")
  else if bool_decide (name = "component") then Some (nodeComponent, "endcomponent")
  else if bool_decide (name = "slot") then Some (nodeSlot, "endslot")
  else if bool_decide (name = "push") then Some (nodePush, "endpush")
  else if bool_decide (name = "errors") then Some (nodeErrors, "enderrors") else None.

(** [result] values inside the fuel's [option]. *)
Notation "'run' x ':=' m 'in' k" :=
  (match m with None => None | Some (Err e) => Some (Err e) | Some (Ok x) => k end)
  (at level 10, x pattern, m at level 100, k at level 200) : go_scope.

Section Parser.
Context (isPrint : Z -> bool) (p_path p_source : string).

Definition q_ (s : string) : string := Quote isPrint s.
Definition errorAt (offset : nat) (message : string) : error := sourceError p_path p_source offset message.
Definition span_ (start fin : nat) : sourceSpan :=
  let '(line, column) := sourcePosition p_source start in
  {| sp_path := p_path; sp_start := start; sp_end := fin; sp_line := line; sp_column := column |}.
Definition from (pos : nat) : string := drop_string pos p_source.

(** [directiveName]: the letters from [start] on and where they end. *)
Definition directiveName (start : nat) : string * nat :=
  let n := take_letters (from start) in (n, (start + String.length n)%nat).

Definition directiveAcceptsArguments (nameEnd : nat) : bool :=
  let '(_, rest) := skip_blanks (from nameEnd) nameEnd in HasPrefix rest "(".

(** [message] of an error that [%v] formats. *)
Definition message_of (e : error) : string :=
  match e with Sentinel s | Errorf s | Wrapf s _ => s | Joined _ _ => EmptyString end.

Definition arguments (pos : nat) (required : bool) : result (string * nat) :=
  let '(index, rest) := skip_blanks (from pos) pos in
  if negb (HasPrefix rest "(")
  then if required then Err (errorAt index "directive arguments must be enclosed in parentheses")
       else Ok (EmptyString, pos)
  else match scanBalanced p_source index with
  | Err e => Err (errorAt index (message_of e))
  | Ok fin => Ok (slice (index + 1) (fin - 1) p_source, fin)
  end.

Definition parseAction (start : nat) : result (node * nat) :=
  match scanGoAction p_source start with
  | Err e => Err (errorAt start (message_of e))
  | Ok fin =>
      let text := slice start fin p_source in
      let inner := TrimSpace (TrimSuffix (TrimPrefix text "{{") "}}") in
      let inner := TrimSpace (TrimPrefix (TrimSuffix inner "-") "-") in
      let word := first_word inner in
      if bool_decide (word ∈ ["define"; "template"; "block"])
      then Err (errorAt start ("raw " +:+ word +:+ " actions are not supported; use @include or @component"))
      else Ok (leaf (new_fields nodeAction (span_ start fin) text), fin)
  end.

(** ** Arguments of a directive *)

Definition directiveArgumentStart (item : fields) : nat :=
  let start := sp_start (span item) in
  if (String.length p_source <=? start)%nat then start
  else
    let fin := Nat.min (sp_end (span item)) (String.length p_source) in
    match Index (slice start fin p_source) "(" with None => start | Some open => (start + open + 1)%nat end.

Record spannedArgument : Type := { sa_text : string; sa_span : sourceSpan }.

Fixpoint argument_spans (raw : string) (base search : nat) (parts : list string) : list spannedArgument :=
  match parts with
  | [] => []
  | part :: rest =>
      let index := match Index (drop_string search raw) part with Some i => i | None => O end in
      let start := (search + index)%nat in
      {| sa_text := part; sa_span := span_ (base + start) (base + start + String.length part) |}
      :: argument_spans raw base (start + String.length part) rest
  end.
Definition splitArgumentSpans (raw : string) (base : nat) : result (list spannedArgument) :=
  match splitArguments raw with
  | Err e => Err (errorAt base (message_of e))
  | Ok parts => Ok (argument_spans raw base 0 parts)
  end.

(** One part of an attribute bag, at [index]; [seen] is in the entries themselves. *)
Definition bag_part (allowForward : bool) (index : nat) (part : spannedArgument) (bag : attributeBag)
    : result attributeBag :=
  let at_part := sp_start (sa_span part) in
  if bool_decide (sa_text part = "...") then
    if negb allowForward then Err (errorAt at_part "@attributes cannot forward")
    else if forward bag then Err (errorAt at_part "attribute forwarding spread may appear only once")
    else if negb (index =? 0)%nat then Err (errorAt at_part "attribute forwarding spread must be first")
    else Ok {| forward := true; forwardSpan := sa_span part; entries := entries bag; bag_span := bag_span bag |}
  else if HasSuffix (sa_text part) "..." then Err (errorAt at_part "attribute map spreads are not supported")
  else
    let '(name, value, assigned) :=
      match splitNamedArgument (sa_text part) with Some (n, v) => (n, v, true) | None => (EmptyString, EmptyString, false) end in
    let name := TrimSpace name in
    let value := TrimSpace value in
    if negb assigned || bool_decide (value = EmptyString)
    then Err (errorAt at_part "attributes must use static-name=<pipeline>")
    else if negb (validAttributeName name)
    then Err (errorAt at_part (q_ name +:+ " is not a static lowercase HTML attribute name"))
    else if unsafeBagAttribute name
    then Err (errorAt at_part ("unsafe attribute " +:+ q_ name +:+ " requires explicit trusted HTML source"))
    else match last (filter (fun e => at_name e = name) (entries bag)) with
    | Some first =>
        if negb (bool_decide (name = "class"))
        then Err (errorAt at_part ("duplicate non-class attribute " +:+ q_ name +:+ "; first declared at " +:+
               sp_path (at_span first) +:+ ":" +:+ Itoa (sp_line (at_span first)) +:+ ":" +:+ Itoa (sp_column (at_span first))))
        else Ok {| forward := forward bag; forwardSpan := forwardSpan bag;
                   entries := entries bag ++ [{| at_name := name; at_value := value; at_span := sa_span part |}];
                   bag_span := bag_span bag |}
    | None =>
        Ok {| forward := forward bag; forwardSpan := forwardSpan bag;
              entries := entries bag ++ [{| at_name := name; at_value := value; at_span := sa_span part |}];
              bag_span := bag_span bag |}
    end.
Fixpoint bag_parts (allowForward : bool) (index : nat) (parts : list spannedArgument) (bag : attributeBag)
    : result attributeBag :=
  match parts with
  | [] => Ok bag
  | part :: rest => try bag' := bag_part allowForward index part bag in bag_parts allowForward (S index) rest bag'
  end.
Definition parseAttributeBag (raw : string) (base : nat) (allowForward : bool) (span : sourceSpan) : result attributeBag :=
  try parts := splitArgumentSpans raw base in
  bag_parts allowForward 0 parts {| forward := false; forwardSpan := no_span; entries := []; bag_span := span |}.

Definition attributes_rest (raw : string) : string := TrimSpace (TrimPrefix (TrimSpace raw) "attributes").
Definition attributeGroup (raw : string) : bool :=
  HasPrefix (TrimSpace raw) "attributes" && HasPrefix (attributes_rest raw) "(".

Definition parseComponentAttributeBag (item : fields) (raw : string) : result attributeBag :=
  let at_item := sp_start (span item) in
  let rest := attributes_rest raw in
  if negb (HasPrefix rest "(") then Err (errorAt at_item "component attributes must use attributes(...)")
  else match scanBalanced rest 0 with
  | Err _ => Err (errorAt at_item "component attributes(...) are malformed")
  | Ok fin =>
      if negb (fin =? String.length rest)%nat then Err (errorAt at_item "component attributes(...) are malformed")
      else
        let base := directiveArgumentStart item in
        let partOffset := match LastIndex (text item) raw with Some i => i | None => O end in
        match Index raw "(" with
        | None => Err (errorAt at_item "component attributes must use attributes(...)")
        | Some openOffset =>
            parseAttributeBag (slice 1 (String.length rest - 1) rest) (base + partOffset + openOffset + 1) true
              (span_ (base + partOffset) (base + partOffset + String.length raw))
        end
  end.

Definition is_form (raw : string) : bool :=
  match splitNamedArgument raw with Some (name, _) => bool_decide (name = "form") | None => false end.
Definition parseFormArgument (item : fields) (parts : list string) : result (list string * string * sourceSpan) :=
  let at_item := sp_start (span item) in
  if (1 <? length (List.filter is_form parts))%nat then Err (errorAt at_item "form= may appear only once")
  else match list_find (fun raw => is_form raw) parts with
  | None => Ok (parts, EmptyString, no_span)
  | Some (index, raw) =>
      if negb (S index =? length parts)%nat then Err (errorAt at_item "form= must be the final argument")
      else
        let value := match splitNamedArgument raw with Some (_, v) => TrimSpace v | None => EmptyString end in
        if bool_decide (value = EmptyString) then Err (errorAt at_item "form expression is required")
        else Ok (removelast parts, value, span item)
  end.

(** The closure [quoted]: the unquoted part [index]. *)
Definition quoted (item : fields) (parts : list string) (index : nat) (label : string) : result string :=
  match parts !! index with
  | None => Err (errorAt (sp_start (span item)) (directiveLabel (kind item) +:+ " requires a quoted " +:+ label))
  | Some part =>
      match Unquote (TrimSpace part) with
      | None => Err (errorAt (sp_start (span item)) (label +:+ " must be a quoted string"))
      | Some v => Ok v
      end
  end.

(** The loop over the parts of [@component] after the name. *)
Fixpoint component_args (item : fields) (parts : list string) (f : fields) : result fields :=
  match parts with
  | [] => Ok f
  | raw :: rest =>
      let at_item := sp_start (span item) in
      if attributeGroup raw then
        match rest with
        | _ :: _ => Err (errorAt at_item "component attributes(...) must be the final argument")
        | [] => try bag := parseComponentAttributeBag item raw in component_args item rest (set_attributes (Some bag) f)
        end
      else match splitNamedArgument raw with
      | Some (name, value) =>
          if negb (validIdentifier name) || bool_decide (TrimSpace value = EmptyString)
          then Err (errorAt at_item "component props must use name=value")
          else if bool_decide (name ∈ arg_name <$> args f)
          then Err (errorAt at_item ("duplicate component prop " +:+ q_ name))
          else component_args item rest
                 (set_args (args f ++ [{| arg_name := name; arg_value := TrimSpace value; arg_span := span item |}]) f)
      | None => Err (errorAt at_item "component props must use name=value")
      end
  end.

Fixpoint prop_args (item : fields) (parts : list string) (f : fields) : result fields :=
  match parts with
  | [] => Ok f
  | raw :: rest =>
      let '(name, value) :=
        match splitNamedArgument raw with Some nv => nv | None => (TrimSpace raw, EmptyString) end in
      if negb (validIdentifier name)
      then Err (errorAt (sp_start (span item)) ("invalid prop name " +:+ q_ name))
      else prop_args item rest
             (set_args (args f ++ [{| arg_name := name; arg_value := TrimSpace value; arg_span := span item |}]) f)
  end.

Definition parseLeafArguments (item : fields) : result fields :=
  let at_item := sp_start (span item) in
  match splitArguments (text item) with
  | Err e => Err (errorAt at_item (message_of e))
  | Ok parts =>
      match kind item with
      | nodeCSRF =>
          try (remaining, form, formSpan) := parseFormArgument item parts in
          if negb (bool_decide (remaining = [])) || bool_decide (form = EmptyString)
          then Err (errorAt at_item "@csrf accepts only a final form= argument")
          else Ok (set_form form formSpan item)
      | nodeExtends | nodeYield | nodeStack | nodePush | nodeSection =>
          if negb (length parts =? 1)%nat
          then Err (errorAt at_item (directiveLabel (kind item) +:+ " requires one quoted name"))
          else try n := quoted item parts 0 "name" in Ok (set_name n item)
      | nodeMethod =>
          if negb (length parts =? 1)%nat then Err (errorAt at_item "@method requires one quoted method")
          else
            try n := quoted item parts 0 "method" in
            let n := ToUpper (TrimSpace n) in
            if negb (bool_decide (n ∈ ["PUT"; "PATCH"; "DELETE"]))
            then Err (errorAt at_item "@method supports PUT, PATCH, or DELETE")
            else Ok (set_name n item)
      | nodeOld =>
          try (remaining, form, formSpan) := parseFormArgument item parts in
          if (length remaining <? 1)%nat || (2 <? length remaining)%nat
          then Err (errorAt at_item "@old requires a quoted field, optional fallback pipeline, and optional final form=<pipeline>")
          else
            try n := quoted item remaining 0 "field" in
            let fallback := match remaining with [_; part] => TrimSpace part | _ => EmptyString end in
            Ok (set_form form formSpan (set_text fallback (set_name n item)))
      | nodeErrors =>
          try (remaining, form, formSpan) := parseFormArgument item parts in
          if negb (length remaining =? 1)%nat
          then Err (errorAt at_item "@errors requires a quoted field and optional final form=<pipeline>")
          else try n := quoted item remaining 0 "field" in Ok (set_form form formSpan (set_name n item))
      | nodeInclude =>
          if (length parts <? 1)%nat || (2 <? length parts)%nat
          then Err (errorAt at_item "@include requires a static name and optional data pipeline")
          else
            let data := match parts with [_; part] => TrimSpace part | _ => "." end in
            if negb (HasPrefix data "." || HasPrefix data "$")
            then Err (errorAt at_item "include data must be an explicit dot or variable pipeline")
            else try n := quoted item parts 0 "include name" in Ok (set_text data (set_name n item))
      | nodeComponent =>
          match parts with
          | [] => Err (errorAt at_item "@component requires a static component name")
          | _ :: rest =>
              try f := component_args item rest item in
              try n := quoted item parts 0 "component name" in Ok (set_name n f)
          end
      | nodeSlot =>
          if negb (length parts =? 1)%nat then Err (errorAt at_item "@slot requires one quoted name")
          else try n := quoted item parts 0 "slot name" in Ok (set_name n item)
      | nodeProps => prop_args item parts item
      | nodeAttributes =>
          try bag := parseAttributeBag (text item) (directiveArgumentStart item) false (span item) in
          Ok (set_attributes (Some bag) item)
      | _ => Ok item
      end
  end.

(** ** Nodes *)

(** What the mutual functions return: the nodes, the directive that stopped them, [p.pos]. *)
Definition parsed : Type := option (result (list node * string * nat)).

Section Directives.
Context (parse : list string -> nat -> parsed) (fuel : nat).

(** [leaf] followed by [parseLeafArguments]. *)
Definition parse_leaf (k : nodeKind) (start pos : nat) : result (fields * nat) :=
  try (raw, fin) := arguments pos true in
  try f := parseLeafArguments (new_fields k (span_ start fin) raw) in
  Ok (f, fin).

(** The loop over [@elseif], which [terminal] keeps going. *)
Fixpoint elseif_loop (n : nat) (stops : list string) (terminal : string) (pos : nat) (acc : list (branch node))
    : option (result (list (branch node) * string * nat)) :=
  if negb (bool_decide (terminal = "elseif")) then Some (Ok (acc, terminal, pos))
  else match n with
  | O => None
  | S n' =>
      let branchStart := (pos - 7)%nat in
      match arguments pos true with
      | Err e => Some (Err e)
      | Ok (raw, next) =>
          if bool_decide (TrimSpace raw = EmptyString)
          then Some (Err (errorAt branchStart "@elseif requires a Go-template pipeline"))
          else
            run (body, nextTerminal, pos') := parse stops next in
            elseif_loop n' stops nextTerminal pos'
              (acc ++ [{| pipeline := TrimSpace raw; b_span := span_ branchStart next; b_nodes := body |}])
      end
  end.

Definition conditional_stops (k : nodeKind) (endName : string) (elseif : bool) : list string :=
  [endName; "else"] ++ (if bool_decide (k = nodeFor) then ["empty"] else []) ++ (if elseif then ["elseif"] else []).

Definition parseConditional (start pos : nat) (k : nodeKind) (endName : string) (elseif : bool)
    : option (result (node * nat)) :=
  match arguments pos true with
  | Err e => Some (Err e)
  | Ok (raw, fin) =>
      if bool_decide (TrimSpace raw = EmptyString)
      then Some (Err (errorAt start "control directive requires a Go-template pipeline"))
      else
        let item := new_fields k (span_ start fin) (TrimSpace raw) in
        let stops := conditional_stops k endName elseif in
        run (children, terminal, pos) := parse stops fin in
        run (branches, terminal, pos) := elseif_loop fuel stops terminal pos [] in
        run (alternate, terminal, pos) :=
          (if bool_decide (terminal = "else") || bool_decide (terminal = "empty")
           then parse [endName] pos else Some (Ok ([], terminal, pos))) in
        if negb (bool_decide (terminal = endName))
        then Some (Err (errorAt start ("control directive is not closed with @" +:+ endName)))
        else Some (Ok (Node (set_end pos item) children branches alternate, pos))
  end.

Definition parseDirective (name : string) (start nameEnd : nat) : option (result (node * nat)) :=
  let leaf_node k :=
    match parse_leaf k start nameEnd with Err e => Some (Err e) | Ok (f, fin) => Some (Ok (leaf f, fin)) end in
  match leaf_kind name with
  | Some k => leaf_node k
  | None =>
      if bool_decide (name = "csrf") then
        if directiveAcceptsArguments nameEnd then leaf_node nodeCSRF
        else Some (Ok (leaf (new_fields nodeCSRF (span_ start nameEnd) EmptyString), nameEnd))
      else match block_kind name with
      | Some (k, endName) =>
          match parse_leaf k start nameEnd with
          | Err e => Some (Err e)
          | Ok (f, fin) =>
              run (children, terminal, pos) := parse [endName] fin in
              if negb (bool_decide (terminal = endName))
              then Some (Err (errorAt start ("@" +:+ name +:+ " is not closed")))
              else Some (Ok (Node (set_end pos f) children [] [], pos))
          end
      | None =>
          if bool_decide (name = "if") then parseConditional start nameEnd nodeIf "endif" true
          else if bool_decide (name = "for") then parseConditional start nameEnd nodeFor "endfor" false
          else if bool_decide (name = "with") then parseConditional start nameEnd nodeWith "endwith" false
          else Some (Err (errorAt start ("unexpected @" +:+ name)))
      end
  end.
End Directives.

Definition text_node (start fin : nat) : list node :=
  if (start <? fin)%nat then [leaf (new_fields nodeText (span_ start fin) (slice start fin p_source))] else [].

Fixpoint parseNodes (fuel : nat) (stops : list string) (pos textStart : nat) (acc : list node) : parsed :=
  match fuel with
  | O => None
  | S n =>
      let flushed := acc ++ text_node textStart pos in
      if (pos <? String.length p_source)%nat then
        let s := from pos in
        let skip (_ : unit) := parseNodes n stops (S pos) textStart acc in
        if HasPrefix s "{{--" then
          match Index (drop_string 4 s) "--}}" with
          | None => Some (Err (errorAt pos "view comment is not closed"))
          | Some e => let pos' := (pos + 4 + e + 4)%nat in parseNodes n stops pos' pos' flushed
          end
        else if HasPrefix s "@@" then
          let pos' := (pos + 2)%nat in
          parseNodes n stops pos' pos' (flushed ++ [leaf (new_fields nodeText (span_ pos pos') "@")])
        else if HasPrefix s "{{" then
          match parseAction pos with
          | Err e => Some (Err e)
          | Ok (item, pos') => parseNodes n stops pos' pos' (flushed ++ [item])
          end
        else if negb (HasPrefix s "@") then skip tt
        else
          let '(name, nameEnd) := directiveName (pos + 1) in
          if bool_decide (name = EmptyString) then skip tt
          else if bool_decide (name ∈ stops) then
            if negb (bool_decide (name = "elseif")) && directiveAcceptsArguments nameEnd
            then Some (Err (errorAt pos ("@" +:+ name +:+ " does not accept arguments")))
            else Some (Ok (flushed, name, nameEnd))
          else if bool_decide (name = "attributes") && negb (directiveAcceptsArguments nameEnd) then skip tt
          else if negb (knownDirective name) then skip tt
          else
            run (item, pos') := parseDirective (fun st p => parseNodes n st p p []) n name pos nameEnd in
            parseNodes n stops pos' pos' (flushed ++ [item])
      else match stops with
      | [] => Some (Ok (flushed, EmptyString, pos))
      | _ => Some (Err (errorAt pos ("expected " +:+ Join (sort_strings (map (fun s => "@" +:+ s) stops)) " or " +:+
                                     " before end of file")))
      end
  end.
End Parser.

(** ** The document *)

(** A loop over a slice that stops at the first error. *)
Definition iterM {A S : Type} (f : A -> S -> result S) : list A -> S -> result S :=
  fix go (l : list A) (s : S) : result S :=
    match l with [] => Ok s | x :: rest => match f x s with Ok s' => go rest s' | Err e => Err e end end.

(** A loop that returns the first non-nil value. *)
Definition first_some {A B : Type} (f : A -> option B) : list A -> option B :=
  fix go (l : list A) : option B :=
    match l with [] => None | x :: rest => match f x with Some y => Some y | None => go rest end end.

Definition kind_of (n : node) : nodeKind := kind (fields_of n).

(** [findNode] on one node. *)
Fixpoint find_node (k : nodeKind) (n : node) : option node :=
  match n with
  | Node f children branches alternate =>
      if bool_decide (kind f = k) then Some n
      else match first_some (find_node k) children with
      | Some m => Some m
      | None => match first_some (fun b => first_some (find_node k) (b_nodes b)) branches with
                | Some m => Some m
                | None => first_some (find_node k) alternate
                end
      end
  end.
Definition findNode (ns : list node) (k : nodeKind) : option node := first_some (find_node k) ns.

Definition nonWhitespace (n : node) : bool :=
  negb (bool_decide (kind_of n = nodeText)) || negb (bool_decide (TrimSpace (text (fields_of n)) = EmptyString)).

Section Organize.
Context (isPrint : Z -> bool).
Local Notation quote_ := (Quote isPrint).

Definition doc_error (doc : document) (offset : nat) (message : string) : error :=
  sourceError (path doc) (source doc) offset message.

(** [validateStaticScopes]; the lists of a node that is not a conditional, other than its
    children, are empty. *)
Fixpoint scopes_node (doc : document) (runtimeDepth componentDepth : Z) (n : node) (_ : unit) : result unit :=
  match n with
  | Node f children branches alternate =>
      let over rt comp := iterM (scopes_node doc rt comp) in
      match kind f with
      | nodeIf | nodeFor | nodeWith =>
          try _ := over (runtimeDepth + 1) componentDepth children tt in
          try _ := iterM (fun b => over (runtimeDepth + 1) componentDepth (b_nodes b)) branches tt in
          over (runtimeDepth + 1) componentDepth alternate tt
      | nodeComponent => over runtimeDepth (componentDepth + 1) children tt
      | nodePush =>
          if (0 <? runtimeDepth) || (0 <? componentDepth) || component doc
          then Err (doc_error doc (sp_start (span f)) "@push cannot capture runtime or component scope")
          else over runtimeDepth componentDepth children tt
      | _ => over runtimeDepth componentDepth children tt
      end
  end.
Definition validateStaticScopes (doc : document) (ns : list node) (runtimeDepth componentDepth : Z) : result unit :=
  iterM (scopes_node doc runtimeDepth componentDepth) ns tt.

Definition consumes (f : fields) : bool :=
  bool_decide (kind f = nodeAttributes) ||
  bool_decide (kind f = nodeComponent) && match attributes f with Some bag => forward bag | None => false end.

(** [walk] of [validateAttributeSinks]; the state is the span of the sink found. *)
Fixpoint sinks_node (doc : document) (restriction : string) (n : node) (sink : option sourceSpan)
    : result (option sourceSpan) :=
  match n with
  | Node f children branches alternate =>
      let at_ := sp_start (span f) in
      try sink :=
        (if negb (consumes f) then Ok sink
         else if negb (component doc)
         then Err (doc_error doc at_ "attribute forwarding requires an enclosing component")
         else if bool_decide (restriction = "slot")
         then Err (doc_error doc at_ ("component " +:+ d_name doc +:+ ": attribute sink cannot appear in slot fallback content"))
         else if negb (bool_decide (restriction = EmptyString))
         then Err (doc_error doc at_ ("component " +:+ d_name doc +:+ ": attribute sink must be unconditional"))
         else match sink with
         | Some first =>
             Err (doc_error doc at_ ("component has more than one attribute sink; first sink is at " +:+ sp_path first +:+
                    ":" +:+ Itoa (sp_line first) +:+ ":" +:+ Itoa (sp_column first)))
         | None => Ok (Some (span f))
         end) in
      let childRestriction :=
        match kind f with
        | nodeSlot => "slot"
        | nodeIf | nodeFor | nodeWith | nodeErrors | nodeComponent =>
            if bool_decide (restriction = EmptyString) then "conditional" else restriction
        | _ => restriction
        end in
      try sink := iterM (sinks_node doc childRestriction) children sink in
      try sink := iterM (fun b => iterM (sinks_node doc "conditional") (b_nodes b)) branches sink in
      iterM (sinks_node doc childRestriction) alternate sink
  end.
Definition validateAttributeSinks (doc : document) : result bool :=
  try sink := iterM (sinks_node doc EmptyString) (nodes doc) None in
  Ok (bool_decide (is_Some sink)).

(** The [@props] of a component. *)
Definition prop_definition (doc : document) (arg : argument) (ps : list propDefinition) : result (list propDefinition) :=
  if bool_decide (arg_name arg ∈ p_name <$> ps)
  then Err (doc_error doc (sp_start (arg_span arg)) ("duplicate prop " +:+ quote_ (arg_name arg)))
  else
    try value :=
      (if bool_decide (arg_value arg = EmptyString) then Ok EmptyString
       else match Unquote (arg_value arg) with
       | None => Err (doc_error doc (sp_start (arg_span arg))
                        ("default for prop " +:+ quote_ (arg_name arg) +:+ " must be a quoted scalar literal"))
       | Some v => Ok v
       end) in
    Ok (ps ++ [{| p_name := arg_name arg; required := bool_decide (arg_value arg = EmptyString);
                  defaultVal := value; p_span := arg_span arg |}]).

Definition normalizeReference (reference : string) : string :=
  TrimSuffix (TrimPrefix (Clean (replace_char backslash "/" reference)) "./") ".forge.html".

Definition set_doc (doc : document) (ns : list node) (ps : list propDefinition) (ext : string)
    (secs : gmap string (list node)) (ex : list node) (sink : bool) : document :=
  {| path := path doc; d_name := d_name doc; source := source doc; nodes := ns; extends := ext; sections := secs;
     extra := ex; component := component doc; props := ps; attributeSink := sink |}.

(** The loop of [organize] over the nodes of a view; the state is [sections] and [extra]. *)
Fixpoint organize_loop (doc : document) (ext : string) (first : option nat) (index : nat) (ns : list node)
    (secs : gmap string (list node)) (ex : list node) : result (gmap string (list node) * list node) :=
  match ns with
  | [] => Ok (secs, ex)
  | item :: rest =>
      let f := fields_of item in
      let fail msg := Err (doc_error doc (sp_start (span f)) msg) in
      let of_kind k := bool_decide (kind f = k) in
      if of_kind nodeExtends && negb (bool_decide (Some index = first)) then fail "@extends must be the first directive"
      else if of_kind nodeProps then fail "@props is only valid at the start of a component"
      else if of_kind nodeSection then
        if bool_decide (ext = EmptyString) then fail "@section requires @extends"
        else if bool_decide (is_Some (secs !! name f)) then fail ("duplicate section " +:+ quote_ (name f))
        else match findNode (children item) nodeSection with
        | Some nested => Err (doc_error doc (sp_start (span (fields_of nested))) "nested sections are not supported")
        | None => organize_loop doc ext first (S index) rest (<[name f := children item]> secs) ex
        end
      else if negb (bool_decide (ext = EmptyString)) && negb (of_kind nodeExtends) && negb (of_kind nodePush) && nonWhitespace item
      then fail "templates using @extends may only contain @section and @push blocks"
      else organize_loop doc ext first (S index) rest secs (if of_kind nodeExtends then ex else ex ++ [item])
  end.

Definition organize (doc : document) : result document :=
  let first := fst <$> list_find (fun n => nonWhitespace n) (nodes doc) in
  let lead := first ≫= fun i => nodes doc !! i in
  if component doc then
    match lead with
    | Some props_node =>
        if negb (bool_decide (kind_of props_node = nodeProps))
        then Err (doc_error doc 0 ("component " +:+ quote_ (d_name doc) +:+ " must begin with @props"))
        else
          try ps := iterM (prop_definition doc) (args (fields_of props_node)) [] in
          let i := match first with Some i => i | None => O end in
          let ns := take i (nodes doc) ++ drop (S i) (nodes doc) in
          let doc := set_doc doc ns ps (extends doc) (sections doc) (extra doc) false in
          try _ := validateStaticScopes doc ns 0 0 in
          try sink := validateAttributeSinks doc in
          Ok (set_doc doc ns ps (extends doc) (sections doc) (extra doc) sink)
    | None => Err (doc_error doc 0 ("component " +:+ quote_ (d_name doc) +:+ " must begin with @props"))
    end
  else
    let ext := match lead with
               | Some n => if bool_decide (kind_of n = nodeExtends) then normalizeReference (name (fields_of n)) else EmptyString
               | None => EmptyString
               end in
    try (secs, ex) := organize_loop doc ext first 0 (nodes doc) ∅ [] in
    let doc := set_doc doc (nodes doc) [] ext secs ex false in
    try _ := validateStaticScopes doc (nodes doc) 0 0 in
    try sink := validateAttributeSinks doc in
    Ok (set_doc doc (nodes doc) [] ext secs ex sink).

Definition parseDocument (filePath name source : string) : option (result document) :=
  run (ns, terminal, pos) := parseNodes isPrint filePath source (S (String.length source)) [] 0 0 [] in
  if negb (bool_decide (terminal = EmptyString))
  then Some (Err (sourceError filePath source pos ("unexpected @" +:+ terminal)))
  else Some (organize {| path := filePath; d_name := name; source := source; nodes := ns; extends := EmptyString;
                         sections := ∅; extra := []; component := HasPrefix name "components/"; props := [];
                         attributeSink := false |}).
End Organize.
