(* ===== verification/ViewCompile.v ===== *)
(** * The template compiler ([view/forge_compile.go], [view/forge.go])

    The compiler's state is the memory behind the branches of conditionals, the sequence of
    generated names and the builder.  [annotateNodes] and [substituteYields] copy nodes but
    write the bodies of [@elseif] branches into the slices the copies share with the
    documents, so those bodies live in a store: a cell is a branch, identified by the place
    in the sources where it was parsed, and a cell that was never written holds what the
    parser put there.  The other lists of a node are rebuilt by both functions and are values.
    An absent list and an empty one are told apart once in the code, for [alternate], where
    [substituteYields] has made every empty list absent.

    Walks through the store and calls of components run on fuel, one unit for each level; an
    outer [None] is fuel that ran out.  Where the code ranges over a map to find an error,
    which one it reports is not determined; the model takes the first in key order. *)

From S2P Require Import Prelude GoStrings GoUtf8 GoQuote GoUrl GoText ViewSource ViewParse.
Local Open Scope go_scope.
Local Open Scope Z_scope.

Record SourceMapping : Type := {
  Start : Z; End_ : Z; SourceStart : Z; Path : string; Line : Z; Column : Z; Synthetic : bool; Context_ : list string
}.
Record CompiledTemplate : Type := { Name : string; Source : string; Mappings : list SourceMapping }.

Definition cell : Type := string * nat.
Record cstate : Type := {
  heap : gmap cell (list node); sequence : Z; b_text : string; b_mappings : list SourceMapping
}.

Definition C (A : Type) : Type := cstate -> option (result A * cstate).
Definition cret {A} (a : A) : C A := fun s => Some (Ok a, s).
Definition cthrow {A} (e : error) : C A := fun s => Some (Err e, s).
Definition exhausted {A} : C A := fun _ => None.
Definition cbind {A B} (m : C A) (k : A -> C B) : C B :=
  fun s => match m s with None => None | Some (Err e, s') => Some (Err e, s') | Some (Ok a, s') => k a s' end.
Notation "'act' x ':=' m 'in' k" := (cbind m (fun x => k))
  (at level 10, x pattern, m at level 100, k at level 200) : go_scope.

Definition cmapM {A B} (f : A -> C B) : list A -> C (list B) :=
  fix go (l : list A) : C (list B) :=
    match l with
    | [] => cret []
    | x :: rest => act y := f x in act ys := go rest in cret (y :: ys)
    end.
Definition cfold {A S} (f : A -> S -> C S) : list A -> S -> C S :=
  fix go (l : list A) (s : S) : C S :=
    match l with [] => cret s | x :: rest => act s' := f x s in go rest s' end.
Definition each {A} (f : A -> C unit) (l : list A) : C unit := cfold (fun x _ => f x) l tt.

(** ** The shared branches *)

Definition cell_of (b : branch node) : cell := (sp_path (b_span b), sp_start (b_span b)).
Definition contents (b : branch node) (s : cstate) : list node :=
  match heap s !! cell_of b with Some ns => ns | None => b_nodes b end.
Definition read_branch (b : branch node) : C (list node) := fun s => Some (Ok (contents b s), s).
Definition write_branch (b : branch node) (ns : list node) : C unit :=
  fun s => Some (Ok tt, {| heap := <[cell_of b := ns]> (heap s); sequence := sequence s; b_text := b_text s;
                           b_mappings := b_mappings s |}).
Definition next_sequence : C Z :=
  fun s => Some (Ok (sequence s + 1), {| heap := heap s; sequence := sequence s + 1; b_text := b_text s;
                                         b_mappings := b_mappings s |}).

(** ** The builder *)

Definition appendMapping (text : string) (span : sourceSpan) (ctx : list string) (synthetic : bool) : C unit :=
  fun s =>
    if bool_decide (text = EmptyString) then Some (Ok tt, s)
    else
      let start := byte_len (b_text s) in
      Some (Ok tt, {| heap := heap s; sequence := sequence s; b_text := b_text s +:+ text;
        b_mappings := b_mappings s ++
          [{| Start := start; End_ := start + byte_len text; SourceStart := Z.of_nat (sp_start span);
              Path := sp_path span; Line := sp_line span; Column := sp_column span; Synthetic := synthetic;
              Context_ := ctx |}] |}).
Definition append_ (text : string) (span : sourceSpan) (ctx : list string) : C unit := appendMapping text span ctx true.
Definition appendLiteral (text : string) (span : sourceSpan) (ctx : list string) : C unit :=
  appendMapping text span ctx false.

(** ** Text of the output *)

Definition mergeContext (left right : list string) : list string :=
  fold_left (fun result value => if bool_decide (value ∈ result) then result else result ++ [value]) right left.

Definition identifier_byte (c : ascii) : bool := bool_decide (c = "_"%char) || letter c || inb 48 57 c.
Fixpoint take_identifier (s : string) : string :=
  match s with
  | String c rest => if identifier_byte c then String c (take_identifier rest) else EmptyString
  | EmptyString => EmptyString
  end.

(** The loop of [rewriteVariables]; [skip] bytes of a variable are already written. *)
Fixpoint rewrite_loop (bindings : gmap string string) (s : string) (q : quoting) (skip : nat) : string :=
  match s with
  | EmptyString => EmptyString
  | String ch rest =>
      match skip with
      | S k => rewrite_loop bindings rest q k
      | O =>
          match quote_step q ch with
          | Some q' => String ch (rewrite_loop bindings rest q' 0)
          | None =>
              if bool_decide (ch = "$"%char) then
                let name := take_identifier rest in
                (match bindings !! name with Some replacement => replacement | None => String ch name end)
                +:+ rewrite_loop bindings rest q (String.length name)
              else String ch (rewrite_loop bindings rest q 0)
          end
      end
  end.
Definition rewriteVariables (source : string) (bindings : gmap string string) : string :=
  if bool_decide (bindings = ∅) then source else rewrite_loop bindings source unquoted 0.

Definition dq : string := String dquote EmptyString.
Definition htmlAttribute (value : string) : string :=
  replace_char ">" "&gt;" (replace_char "<" "&lt;" (replace_char dquote "&quot;" (replace_char "&" "&amp;" value))).

Definition booleanAttributes : list string :=
  ["allowfullscreen"; "async"; "autofocus"; "autoplay"; "checked"; "controls"; "default"; "defer"; "disabled";
   "formnovalidate"; "hidden"; "inert"; "ismap"; "itemscope"; "loop"; "multiple"; "muted"; "nomodule"; "novalidate";
   "open"; "playsinline"; "readonly"; "required"; "reversed"; "selected"].
Definition booleanAttribute (name : string) : bool := bool_decide (name ∈ booleanAttributes).

Definition templateName (filePath : string) : string :=
  TrimSuffix (TrimPrefix (Clean (replace_char backslash "/" filePath)) "./") ".forge.html".
Definition sortedDocumentNames {A} (documents : gmap string A) : list string :=
  sort_strings (fst <$> map_to_list documents).

(** [walkNodes] visits in this order. *)
Fixpoint walk_node (n : node) : list node :=
  match n with
  | Node _ children branches alternate =>
      n :: flat_map walk_node children ++ flat_map (fun b => flat_map walk_node (b_nodes b)) branches ++
      flat_map walk_node alternate
  end.
Definition walkNodes (ns : list node) : list node := flat_map walk_node ns.

Definition hasContent (ns : list node) : bool := existsb nonWhitespace ns.

(** ** Dependencies between the documents *)

Section Compiler.
Context (isPrint : Z -> bool) (documents : gmap string document).
Local Notation quote_ := (Quote isPrint).

(** [nodeError]; a span whose file is not a document would be a nil dereference. *)
Definition nodeError (s : sourceSpan) (ctx : list string) (message : string) : error :=
  match documents !! templateName (sp_path s) with
  | None => Sentinel "nil pointer dereference"
  | Some doc =>
      sourceError (sp_path s) (source doc) (sp_start s)
        (if (1 <? length ctx)%nat then message +:+ " (" +:+ Join ctx " -> " +:+ ")" else message)
  end.

Definition is_reference (n : node) : bool :=
  bool_decide (kind_of n = nodeInclude) || bool_decide (kind_of n = nodeComponent).
Definition reference (n : node) : string := normalizeReference (name (fields_of n)).

Definition incoming : gset string :=
  list_to_set (flat_map (fun doc =>
    (if bool_decide (extends doc = EmptyString) then [] else [extends doc]) ++
    map reference (List.filter is_reference (walkNodes (nodes doc)))) (snd <$> map_to_list documents)).

(** The edge of [validateDocument]: the node that refers to the document. *)
Definition edge_label (k : nodeKind) : string :=
  match k with nodeExtends => "layout" | nodeInclude => "include" | nodeComponent => "component" | _ => "view" end.
Definition cycle_label (k : nodeKind) : string :=
  match k with
  | nodeExtends => "template inheritance cycle" | nodeComponent => "component cycle" | _ => "template include cycle"
  end.

(** A call that hands attributes to a component without a sink. *)
Definition sinkless (m : node) : bool :=
  bool_decide (kind_of m = nodeComponent) && bool_decide (is_Some (attributes (fields_of m))) &&
  match documents !! reference m with
  | Some target => component target && negb (attributeSink target)
  | None => false
  end.

(** The visit of the nodes in [validateDocument]; [validate] is the recursive call. *)
Fixpoint visit_references (validate : string -> list string -> fields -> gset string -> option (result (gset string)))
    (ctx : list string) (ms : list node) (validated : gset string) : option (result (gset string)) :=
  match ms with
  | [] => Some (Ok validated)
  | m :: rest =>
      if negb (is_reference m) then visit_references validate ctx rest validated
      else if sinkless m
      then Some (Err (nodeError (span (fields_of m)) ctx
             ("component " +:+ quote_ (reference m) +:+ " receives attributes but has no attribute sink")))
      else
        let label := (if bool_decide (kind_of m = nodeComponent) then "component " else "include ") +:+ reference m in
        run validated := validate (reference m) (ctx ++ [label]) (fields_of m) validated in
        visit_references validate ctx rest validated
  end.

Definition extends_node (doc : document) : option node :=
  if bool_decide (extends doc = EmptyString) then None
  else List.find (fun m => bool_decide (kind_of m = nodeExtends)) (nodes doc).

Fixpoint validateDocument (fuel : nat) (name : string) (ctx : list string) (edge : option fields)
    (active validated : gset string) : option (result (gset string)) :=
  match fuel with
  | O => None
  | S n =>
      match documents !! name with
      | None =>
          Some (Err match edge with
                    | None => Errorf ("unknown view " +:+ quote_ name)
                    | Some e => nodeError (span e) (removelast ctx) ("unknown " +:+ edge_label (kind e) +:+ " " +:+ quote_ name)
                    end)
      | Some doc =>
          if bool_decide (name ∈ active) then
            Some (Err match edge with
                      | None => Errorf ("view " +:+ quote_ name +:+ ": dependency cycle")
                      | Some e => nodeError (span e) ctx (cycle_label (kind e) +:+ ": " +:+ Join ctx " -> ")
                      end)
          else if bool_decide (name ∈ validated) then Some (Ok validated)
          else
            let active := {[name]} ∪ active in
            run validated :=
              (match extends_node doc with
               | None => Some (Ok validated)
               | Some m => validateDocument n (extends doc) (ctx ++ ["layout " +:+ extends doc]) (Some (fields_of m))
                             active validated
               end) in
            run validated :=
              visit_references (fun dependency ctx' m v => validateDocument n dependency ctx' (Some m) active v)
                ctx (walkNodes (nodes doc)) validated in
            Some (Ok ({[name]} ∪ validated))
      end
  end.

(** One pass of [validateDependencies] over the names that [skip] does not exclude. *)
Fixpoint validate_names (skip : string -> gset string -> bool) (prefix : string -> string) (names : list string)
    (validated : gset string) : option (result (gset string)) :=
  match names with
  | [] => Some (Ok validated)
  | name :: rest =>
      if skip name validated then validate_names skip prefix rest validated
      else
        run validated := validateDocument (S (size documents)) name [prefix name +:+ name] None ∅ validated in
        validate_names skip prefix rest validated
  end.
Definition is_component (name : string) : bool :=
  match documents !! name with Some doc => component doc | None => false end.
Definition validateDependencies : option (result (gset string)) :=
  let names := sortedDocumentNames documents in
  run validated :=
    validate_names (fun name _ => is_component name || bool_decide (name ∈ incoming)) (fun _ => "view ") names ∅ in
  validate_names (fun name validated => bool_decide (name ∈ validated))
    (fun name => if is_component name then "component " else "view ") names validated.

(** ** Layouts and sections *)

Fixpoint annotateNodes (fuel : nat) (ns : list node) (ctx : list string) : C (list node) :=
  match fuel with
  | O => exhausted
  | S n =>
      cmapM (fun item =>
        let 'Node f children branches alternate := item in
        act children := annotateNodes n children ctx in
        act alternate := annotateNodes n alternate ctx in
        act _ := each (fun b => act body := read_branch b in
                                act body := annotateNodes n body ctx in write_branch b body) branches in
        cret (Node (set_context (mergeContext (context f) ctx) f) children branches alternate)) ns
  end.

Fixpoint substituteYields (fuel : nat) (ns : list node) (sections : gmap string (list node)) (allowOpen : bool)
    (root : string) (resolving : gset string) : C (list node) :=
  match fuel with
  | O => exhausted
  | S n =>
      let recurse ms := substituteYields n ms sections allowOpen root resolving in
      act parts := cmapM (fun item =>
        let 'Node f children branches alternate := item in
        if bool_decide (kind f = nodeYield) then
          match sections !! name f with
          | Some body =>
              if bool_decide (name f ∈ resolving)
              then cthrow (nodeError (span f) []
                     ("section yield cycle through " +:+ quote_ (name f) +:+ " while compiling " +:+ quote_ root))
              else
                act sectionBody := annotateNodes n body (context f ++ ["section " +:+ name f]) in
                substituteYields n sectionBody sections allowOpen root ({[name f]} ∪ resolving)
          | None => cret (if allowOpen then [] else [item])
          end
        else
          act children := recurse children in
          act alternate := recurse alternate in
          act _ := each (fun b => act body := read_branch b in
                                  act body := recurse body in write_branch b body) branches in
          cret [Node f children branches alternate]) ns in
      cret (concat parts)
  end.

Definition pushes (doc : document) : list node :=
  List.filter (fun n => bool_decide (kind_of n = nodePush)) (extra doc).

(** [depth] bounds the layouts, [fuel] the levels of the nodes. *)
Fixpoint resolve (fuel depth : nat) (name : string) (inherited : gmap string (list node)) (stack : list string)
    (allowOpen : bool) (root : string) (layoutContext : list string) : C (list node) :=
  match depth with
  | O => exhausted
  | S d =>
      match documents !! name with
      | None => cthrow (Errorf ("unknown view " +:+ quote_ name))
      | Some doc =>
          if bool_decide (name ∈ stack)
          then cthrow (doc_error doc 0 ("template inheritance cycle: " +:+ Join (stack ++ [name]) " -> "))
          else
            let sections := inherited ∪ sections doc in
            if negb (bool_decide (extends doc = EmptyString)) then
              match documents !! extends doc with
              | None => cthrow (doc_error doc 0 ("unknown layout " +:+ quote_ (extends doc)))
              | Some parent =>
                  if component parent
                  then cthrow (doc_error doc 0 ("component " +:+ quote_ (extends doc) +:+ " cannot be used as a layout"))
                  else
                    act resolved := resolve fuel d (extends doc) sections (stack ++ [name]) allowOpen root
                                      (layoutContext ++ ["layout " +:+ extends doc]) in
                    cret (pushes doc ++ resolved)
              end
            else
              act base := annotateNodes fuel (extra doc) layoutContext in
              substituteYields fuel base sections allowOpen root ∅
      end
  end.

Definition isExtended (name : string) : bool :=
  existsb (fun doc => bool_decide (extends doc = name)) (snd <$> map_to_list documents).

Definition stacks_map : Type := gmap string (list (list node)).
Fixpoint collectStacks (fuel : nat) (ns : list node) (stacks : stacks_map) : C stacks_map :=
  match fuel with
  | O => exhausted
  | S n =>
      cfold (fun item stacks =>
        let 'Node f children branches alternate := item in
        if bool_decide (kind f = nodePush)
        then cret (<[name f := default [] (stacks !! name f) ++ [children]]> stacks)
        else
          act stacks := collectStacks n children stacks in
          act stacks := cfold (fun b stacks => act body := read_branch b in collectStacks n body stacks) branches stacks in
          collectStacks n alternate stacks) ns stacks
  end.

(** ** Attributes *)

Record boundAttributeValue : Type := { variable : string; bv_span : sourceSpan }.
Record boundAttribute : Type := { ba_name : string; values : list boundAttributeValue; ba_span : sourceSpan }.

Definition bound_class (a : boundAttribute) (more : list boundAttributeValue) : boundAttribute :=
  {| ba_name := ba_name a; values := values a ++ more; ba_span := ba_span a |}.

(** [mergeBoundAttributes]; [positions] finds a name in the result so far. *)
Fixpoint merge_loop (ctx : list string) (vs : list boundAttribute) (result : list boundAttribute)
    (positions : gmap string nat) : Prelude.result (list boundAttribute) :=
  match vs with
  | [] => Ok result
  | a :: rest =>
      match positions !! ba_name a with
      | Some index =>
          if bool_decide (ba_name a = "class") then merge_loop ctx rest (alter (fun b => bound_class b (values a)) index result) positions
          else
            let first := match result !! index with Some b => ba_span b | None => no_span end in
            Err (nodeError (ba_span a) ctx ("duplicate non-class attribute " +:+ quote_ (ba_name a) +:+ "; first declared at " +:+
                   sp_path first +:+ ":" +:+ Itoa (sp_line first) +:+ ":" +:+ Itoa (sp_column first)))
      | None => merge_loop ctx rest (result ++ [a]) (<[ba_name a := length result]> positions)
      end
  end.
Definition mergeBoundAttributes (target vs : list boundAttribute) (ctx : list string) : Prelude.result (list boundAttribute) :=
  merge_loop ctx vs target
    (fold_left (fun m p => <[p.1 := p.2]> m) (zip (ba_name <$> target) (seq 0 (length target))) ∅).

Definition lift {A} (r : Prelude.result A) : C A := match r with Ok a => cret a | Err e => cthrow e end.

(** Each entry of a bag is bound to a variable and merged into the attributes so far. *)
Definition bind_entries (bag : attributeBag) (bindings : gmap string string) (prefix : string) (ctx : list string)
    (start : list boundAttribute) : C (list boundAttribute) :=
  cfold (fun '(index, spec) result =>
    let var := prefix +:+ Itoa (Z.of_nat index + 1) in
    act _ := append_ ("{{" +:+ var +:+ " := " +:+ rewriteVariables (at_value spec) bindings +:+ "}}") (at_span spec)
               (ctx ++ ["attribute " +:+ at_name spec]) in
    lift (mergeBoundAttributes result
      [{| ba_name := at_name spec; values := [{| variable := var; bv_span := at_span spec |}]; ba_span := at_span spec |}] ctx))
    (zip (seq 0 (length (entries bag))) (entries bag)) start.

Definition class_part (classWritten : string) (part : boundAttributeValue) : string :=
  "{{if " +:+ variable part +:+ "}}{{if " +:+ classWritten +:+ "}} {{end}}{{" +:+ variable part +:+ "}}{{" +:+ classWritten +:+ " = true}}{{end}}".

Definition serializeAttributes (attrs : list boundAttribute) (span : sourceSpan) (ctx : list string) (prefix : string) : C unit :=
  match attrs with
  | [] => cret tt
  | _ =>
      let written := prefix +:+ "written" in
      act _ := append_ ("{{" +:+ written +:+ " := false}}") span ctx in
      each (fun '(index, a) =>
        let actx := ctx ++ ["attribute " +:+ ba_name a] in
        let value := match values a with v :: _ => variable v | [] => EmptyString end in
        if bool_decide (ba_name a = "class") then
          let variables := variable <$> values a in
          let condition := if (1 <? length variables)%nat then "or " +:+ Join variables " " else value in
          let classWritten := prefix +:+ "class_" +:+ Itoa (Z.of_nat index + 1) +:+ "_written" in
          act _ := append_ ("{{if " +:+ condition +:+ "}}{{if " +:+ written +:+ "}} {{end}}class=" +:+ dq +:+ "{{" +:+ classWritten +:+ " := false}}") span actx in
          act _ := each (fun part => append_ (class_part classWritten part) (bv_span part) actx) (values a) in
          append_ (dq +:+ "{{" +:+ written +:+ " = true}}{{end}}") span actx
        else if booleanAttribute (ba_name a) then
          append_ ("{{if " +:+ value +:+ "}}{{if " +:+ written +:+ "}} {{end}}" +:+ ba_name a +:+ "{{" +:+ written +:+ " = true}}{{end}}") span actx
        else
          append_ ("{{if " +:+ written +:+ "}} {{end}}" +:+ ba_name a +:+ "=" +:+ dq +:+ "{{" +:+ value +:+ "}}" +:+ dq +:+ "{{" +:+ written +:+ " = true}}") span actx)
        (zip (seq 0 (length attrs)) attrs)
  end.

(** ** Nodes *)

Record slotValue : Type := {
  sv_nodes : list node; sv_bindings : gmap string string; sv_componentStack : list string; sv_span : sourceSpan
}.
(** [slots] is nil outside components. *)
Record compileEnvironment : Type := {
  bindings : gmap string string; slots : option (gmap string slotValue); componentStack : list string;
  env_attributes : list boundAttribute
}.

Fixpoint collectSlotDefinitions (fuel : nat) (ns : list node) (found : gset string) : C (option fields * gset string) :=
  match fuel with
  | O => exhausted
  | S n =>
      let over ms acc := match acc with (Some d, found) => cret (Some d, found) | (None, found) => collectSlotDefinitions n ms found end in
      cfold (fun item acc =>
        match acc with
        | (Some _, _) => cret acc
        | (None, found) =>
            let 'Node f children branches alternate := item in
            if bool_decide (kind f = nodeComponent) then cret acc
            else if bool_decide (kind f = nodeSlot) then
              cret (if bool_decide (name f ∈ found) then (Some f, found) else (None, {[name f]} ∪ found))
            else
              act acc := over children acc in
              act acc := cfold (fun b acc => act body := read_branch b in over body acc) branches acc in
              over alternate acc
        end) ns (None, found)
  end.

Definition compileFormBinding (f : fields) (env : compileEnvironment) (ctx : list string) : C string :=
  if bool_decide (form f = EmptyString) then cret ".Form"
  else
    act seq := next_sequence in
    let var := "$__forge_form_" +:+ Itoa seq in
    let span := if bool_decide (sp_path (formSpan f) = EmptyString) then span f else formSpan f in
    act _ := append_ ("{{" +:+ var +:+ " := " +:+ rewriteVariables (form f) (bindings env) +:+ "}}") span (ctx ++ ["form"]) in
    cret var.

Definition compileCallAttributes (call : fields) (outer : compileEnvironment) (prefix : string) (ctx : list string)
    : C (list boundAttribute) :=
  match attributes call with
  | None => cret []
  | Some bag =>
      bind_entries bag (bindings outer) (prefix +:+ "attr_") ctx (if forward bag then env_attributes outer else [])
  end.

Definition compileAttributeEmitter (f : fields) (env : compileEnvironment) (ctx : list string) : C unit :=
  match attributes f with
  | None => cthrow (nodeError (span f) ctx "invalid component attribute emitter")
  | Some bag =>
      act seq := next_sequence in
      let prefix := "$__forge_attributes_" +:+ Itoa seq +:+ "_" in
      act defaults := bind_entries bag (bindings env) (prefix +:+ "default_") ctx [] in
      act attrs := lift (mergeBoundAttributes defaults (env_attributes env) ctx) in
      serializeAttributes attrs (span f) ctx prefix
  end.

(** The slots a call provides: the named ones, and the rest as the default slot. *)
Fixpoint provided_slots (call : fields) (ctx : list string) (outer : compileEnvironment) (ns : list node)
    (named : gmap string slotValue) (others : list node) : result (gmap string slotValue * list node) :=
  match ns with
  | [] => Ok (named, others)
  | child :: rest =>
      let f := fields_of child in
      if bool_decide (kind f = nodeSlot) then
        if bool_decide (is_Some (named !! name f))
        then Err (nodeError (span f) ctx ("duplicate slot " +:+ quote_ (name f)))
        else provided_slots call ctx outer rest
               (<[name f := {| sv_nodes := children child; sv_bindings := bindings outer;
                               sv_componentStack := componentStack outer; sv_span := span f |}]> named) others
      else provided_slots call ctx outer rest named (others ++ [child])
  end.

(** The checks of a call against the component: its props and its slots. *)
Definition check_props (call : fields) (ctx : list string) (cname : string) (target : document) : result unit :=
  let provided := arg_name <$> args call in
  match List.find (fun p => required p && negb (bool_decide (p_name p ∈ provided))) (props target) with
  | Some p => Err (nodeError (span call) ctx ("component " +:+ quote_ cname +:+ " requires prop " +:+ quote_ (p_name p)))
  | None =>
      match List.find (fun a => negb (bool_decide (a ∈ p_name <$> props target))) (sort_strings provided) with
      | Some a => Err (nodeError (span call) ctx ("component " +:+ quote_ cname +:+ " has no prop " +:+ quote_ a))
      | None => Ok tt
      end
  end.
Definition call_slots (call : fields) (ctx : list string) (outer : compileEnvironment) (cname : string)
    (ns : list node) (definitions : gset string) : result (gmap string slotValue) :=
  try (named, others) := provided_slots call ctx outer ns ∅ [] in
  try slots :=
    (if negb (hasContent others) then Ok named
     else if bool_decide (is_Some (named !! "default"))
     then Err (nodeError (span call) ctx ("component " +:+ quote_ cname +:+ " receives the default slot twice"))
     else Ok (<["default" := {| sv_nodes := others; sv_bindings := bindings outer;
                                sv_componentStack := componentStack outer; sv_span := span call |}]> named)) in
  match List.find (fun s => negb (bool_decide (s ∈ definitions))) (sortedDocumentNames slots) with
  | Some s => Err (nodeError (span call) ctx ("component " +:+ quote_ cname +:+ " has no slot " +:+ quote_ s))
  | None => Ok slots
  end.

(** The props are bound in the order the component declares them. *)
Definition bind_props (call : fields) (ctx : list string) (prefix : string) (outer : gmap string string)
    (ps : list propDefinition) : C (gmap string string) :=
  cfold (fun p bs =>
    let var := prefix +:+ p_name p in
    let value := match list_find (fun a => arg_name a = p_name p) (args call) with
                 | Some (_, a) => rewriteVariables (arg_value a) outer
                 | None => quote_ (defaultVal p)
                 end in
    act _ := append_ ("{{" +:+ var +:+ " := " +:+ value +:+ "}}") (span call) ctx in
    cret (<[p_name p := var]> bs)) ps outer.

Section Nodes.
Context (compileNodes : list node -> compileEnvironment -> list string -> C unit) (fuel : nat) (stacks : stacks_map).

Definition compileComponent (f : fields) (ns : list node) (outer : compileEnvironment) (ctx : list string) : C unit :=
  let cname := normalizeReference (name f) in
  match documents !! cname with
  | Some target =>
      if negb (component target) then cthrow (nodeError (span f) ctx ("unknown component " +:+ quote_ cname))
      else if bool_decide (cname ∈ componentStack outer)
      then cthrow (nodeError (span f) ctx ("component cycle: " +:+ Join (componentStack outer ++ [cname]) " -> "))
      else
        act _ := lift (check_props f ctx cname target) in
        act (duplicate, definitions) := collectSlotDefinitions fuel (nodes target) ∅ in
        match duplicate with
        | Some d => cthrow (nodeError (span d) ctx ("component " +:+ quote_ cname +:+ " declares slot " +:+ quote_ (name d) +:+ " more than once"))
        | None =>
            act provided := lift (call_slots f ctx outer cname ns definitions) in
            act seq := next_sequence in
            let prefix := "$__forge_component_" +:+ Itoa seq +:+ "_" in
            let cctx := ctx ++ ["component " +:+ cname] in
            act _ := append_ "{{if true}}" (span f) cctx in
            act bs := bind_props f cctx prefix (bindings outer) (props target) in
            act attrs := compileCallAttributes f outer prefix cctx in
            act _ := compileNodes (nodes target)
              {| bindings := bs; slots := Some provided; componentStack := componentStack outer ++ [cname];
                 env_attributes := attrs |} cctx in
            append_ "{{end}}" (span f) cctx
        end
  | None => cthrow (nodeError (span f) ctx ("unknown component " +:+ quote_ cname))
  end.

Definition keyword (k : nodeKind) : string :=
  match k with nodeIf => "if" | nodeFor => "range" | nodeWith => "with" | _ => EmptyString end.

Definition compile_node (env : compileEnvironment) (context_ : list string) (item : node) : C unit :=
  let 'Node f children branches alternate := item in
  let ctx := mergeContext context_ (context f) in
  match kind f with
  | nodeText =>
      if (String.length (text f) =? sp_end (span f) - sp_start (span f))%nat
      then appendLiteral (text f) (span f) ctx else append_ (text f) (span f) ctx
  | nodeAction =>
      let rewritten := rewriteVariables (text f) (bindings env) in
      if bool_decide (rewritten = text f) then appendLiteral rewritten (span f) ctx else append_ rewritten (span f) ctx
  | nodeYield => cthrow (nodeError (span f) ctx ("layout requires section " +:+ quote_ (name f)))
  | nodeInclude =>
      let target := normalizeReference (name f) in
      match documents !! target with
      | None => cthrow (nodeError (span f) ctx ("unknown include " +:+ quote_ target))
      | Some dependency =>
          if component dependency
          then cthrow (nodeError (span f) ctx ("component " +:+ quote_ target +:+ " must be called with @component"))
          else append_ ("{{template " +:+ quote_ target +:+ " " +:+ rewriteVariables (text f) (bindings env) +:+ "}}")
                 (span f) (ctx ++ ["include " +:+ target])
      end
  | nodeComponent => compileComponent f children env ctx
  | nodeSlot =>
      match slots env with
      | None => cthrow (nodeError (span f) ctx "@slot is only valid in a component definition or call")
      | Some m =>
          match m !! name f with
          | None => compileNodes children env (ctx ++ ["slot " +:+ name f +:+ " default"])
          | Some v =>
              compileNodes (sv_nodes v)
                {| bindings := sv_bindings v; slots := None; componentStack := sv_componentStack v; env_attributes := [] |}
                (ctx ++ ["slot " +:+ name f])
          end
      end
  | nodeIf | nodeFor | nodeWith =>
      act _ := append_ ("{{" +:+ keyword (kind f) +:+ " " +:+ rewriteVariables (text f) (bindings env) +:+ "}}") (span f) ctx in
      act _ := compileNodes children env ctx in
      act _ := each (fun b =>
        act _ := append_ ("{{else if " +:+ rewriteVariables (pipeline b) (bindings env) +:+ "}}") (b_span b) ctx in
        act body := read_branch b in
        compileNodes body env ctx) branches in
      act _ := (match alternate with
                | [] => cret tt
                | _ => act _ := append_ "{{else}}" (span f) ctx in compileNodes alternate env ctx
                end) in
      append_ "{{end}}" (span f) ctx
  | nodePush => cret tt
  | nodeStack =>
      each (fun body => compileNodes body env (ctx ++ ["stack " +:+ name f])) (default [] (stacks !! name f))
  | nodeCSRF =>
      act form := compileFormBinding f env ctx in
      append_ ("<input type=" +:+ dq +:+ "hidden" +:+ dq +:+ " name=" +:+ dq +:+ "_token" +:+ dq +:+ " value=" +:+ dq +:+ "{{" +:+
               form +:+ ".CSRFToken}}" +:+ dq +:+ ">") (span f) ctx
  | nodeMethod =>
      append_ ("<input type=" +:+ dq +:+ "hidden" +:+ dq +:+ " name=" +:+ dq +:+ "_method" +:+ dq +:+ " value=" +:+ dq +:+
               htmlAttribute (name f) +:+ dq +:+ ">") (span f) ctx
  | nodeOld =>
      act form := compileFormBinding f env ctx in
      let action := "{{" +:+ form +:+ ".Old " +:+ quote_ (name f) in
      let action := if bool_decide (text f = EmptyString) then action
                    else action +:+ " " +:+ rewriteVariables (text f) (bindings env) in
      append_ (action +:+ "}}") (span f) ctx
  | nodeErrors =>
      act form := compileFormBinding f env ctx in
      act _ := append_ ("{{range " +:+ form +:+ ".Errors " +:+ quote_ (name f) +:+ "}}") (span f) ctx in
      act _ := compileNodes children env ctx in
      append_ "{{end}}" (span f) ctx
  | nodeAttributes => compileAttributeEmitter f env ctx
  | nodeExtends | nodeSection | nodeProps => cthrow (nodeError (span f) ctx "misplaced structural directive")
  end.
End Nodes.

Fixpoint compileNodes (fuel : nat) (stacks : stacks_map) (ns : list node) (env : compileEnvironment)
    (ctx : list string) : C unit :=
  match fuel with
  | O => exhausted
  | S n => each (compile_node (compileNodes n stacks) n stacks env ctx) ns
  end.

Definition compile (fuel : nat) (name : string) : C CompiledTemplate :=
  let allowOpen :=
    match documents !! name with Some doc => bool_decide (extends doc = EmptyString) | None => false end ||
    isExtended name in
  act ns := resolve fuel (S (size documents)) name ∅ [] allowOpen name [] in
  act stacks := collectStacks fuel ns ∅ in
  fun s =>
    (act _ := compileNodes fuel stacks ns
       {| bindings := ∅; slots := None; componentStack := []; env_attributes := [] |} ["view " +:+ name] in
     fun s => Some (Ok {| Name := name; Source := b_text s; Mappings := b_mappings s |}, s))
    {| heap := heap s; sequence := sequence s; b_text := EmptyString; b_mappings := [] |}.
End Compiler.
