(* ===== verification/ViewForge.v ===== *)
(** * Compiled views ([view/forge.go], [view/diagnostic.go], [view/gosource.go],
      [view/view.go], [view/form.go])

    The entry points around the compiler, the mapping of template errors back to the sources,
    the generated Go source, and rendering.  The file system, [html/template] and [go/format]
    are parameters.  The two regular expressions of the package are written as matchers. *)

From S2P Require Import Prelude GoStrings GoUtf8 GoQuote GoUrl GoText ViewSource ViewParse ViewCompile.
Local Open Scope go_scope.
Local Open Scope Z_scope.

(** ** [standardTemplateCall]: a [template] action and the quoted name after it *)

Definition regexp_space (c : ascii) : bool := bool_decide (nat_of_ascii c ∈ [9; 10; 12; 13; 32]%nat).
Fixpoint skip_space (s : string) : string :=
  match s with String c rest => if regexp_space c then skip_space rest else s | EmptyString => s end.

(** A match at the start of [s]: the name and the bytes it takes. *)
Definition match_call (s : string) : option (string * nat) :=
  if negb (HasPrefix s "{{") then None
  else
    let s1 := skip_space (drop_string 2 s) in
    if negb (HasPrefix s1 "template") then None
    else
      let s2 := drop_string 8 s1 in
      let s3 := skip_space s2 in
      if (String.length s2 =? String.length s3)%nat then None
      else match s3 with
      | EmptyString => None
      | String c s4 =>
          if negb (bool_decide (c = dquote)) then None
          else
            let '(name, rest, found) := Cut s4 dquote in
            if found && negb (bool_decide (name = EmptyString))
            then Some (name, (String.length s - String.length rest)%nat) else None
      end.

(** [FindAllStringSubmatchIndex]: where each match starts, and its name; [skip] bytes belong
    to the last match. *)
Fixpoint template_calls (s : string) (index skip : nat) : list (nat * string) :=
  match s with
  | EmptyString => []
  | String _ rest =>
      match skip with
      | S k => template_calls rest (S index) k
      | O => match match_call s with
             | Some (name, len) => (index, name) :: template_calls rest (S index) (len - 1)
             | None => template_calls rest (S index) 0
             end
      end
  end.
Definition calls (s : string) : list string := snd <$> template_calls s 0 0.

Definition templateDependencies (source : string) : list string :=
  fold_left (fun result name => if bool_decide (name ∈ result) then result else result ++ [name]) (calls source) [].

(** ** [validateTemplateDependencies] *)

Section Forge.
Context (isPrint : Z -> bool).
Local Notation quote_ := (Quote isPrint).

(** [visit]; [state] holds [false] for a name that is being visited, [true] for a finished one. *)
Fixpoint visit_template (fuel : nat) (sources : gmap string string) (name : string) (stack : list string)
    (state : gmap string bool) : option (result (gmap string bool)) :=
  match fuel with
  | O => None
  | S n =>
      match state !! name with
      | Some false => Some (Err (Errorf ("view " +:+ quote_ name +:+ ": template include cycle: " +:+ Join (stack ++ [name]) " -> ")))
      | Some true => Some (Ok state)
      | None =>
          run state :=
            (fix each_call (names : list string) (state : gmap string bool) : option (result (gmap string bool)) :=
               match names with
               | [] => Some (Ok state)
               | dependency :: rest =>
                   match sources !! dependency with
                   | None => Some (Err (Errorf ("view " +:+ quote_ name +:+ ": unknown template dependency " +:+ quote_ dependency)))
                   | Some _ =>
                       run state := visit_template n sources dependency (stack ++ [name]) state in each_call rest state
                   end
               end) (calls (default EmptyString (sources !! name))) (<[name := false]> state) in
          Some (Ok (<[name := true]> state))
      end
  end.
Fixpoint visit_all (fuel : nat) (sources : gmap string string) (names : list string) (state : gmap string bool)
    : option (result (gmap string bool)) :=
  match names with
  | [] => Some (Ok state)
  | name :: rest => run state := visit_template fuel sources name [] state in visit_all fuel sources rest state
  end.
Definition validateTemplateDependencies (compiled : list CompiledTemplate) : option (result unit) :=
  let sources := fold_left (fun m t => <[Name t := Source t]> m) compiled ∅ in
  run _ := visit_all (S (size sources)) sources (Name <$> compiled) ∅ in Some (Ok tt).

(** ** [CompileForge] *)

Record filesystem : Type := {
  fs_walk : result (list (string * bool)); fs_glob : string -> result (list string); fs_read : string -> result string
}.
Definition forgeSuffix : string := ".forge.html".

Definition forgePaths (files : filesystem) (patterns : list string) : result (list string) :=
  try found :=
    match patterns with
    | [] => match fs_walk files with
            | Err e => Err (Wrapf "walk views" e)
            | Ok items => Ok (fst <$> List.filter (fun it => negb it.2 && HasSuffix it.1 forgeSuffix) items)
            end
    | _ => iterM (fun pattern acc =>
             match fs_glob files pattern with
             | Err e => Err (Wrapf ("match views " +:+ quote_ pattern) e)
             | Ok matches => Ok (acc ++ matches)
             end) patterns []
    end in
  Ok (sort_strings (remove_dups found)).

Fixpoint parse_files (files : filesystem) (paths : list string) (documents : gmap string document)
    : option (result (gmap string document)) :=
  match paths with
  | [] => Some (Ok documents)
  | filePath :: rest =>
      match fs_read files filePath with
      | Err e => Some (Err (Wrapf ("read view " +:+ filePath) e))
      | Ok src =>
          let name := templateName filePath in
          if bool_decide (is_Some (documents !! name)) then Some (Err (Errorf ("duplicate view name " +:+ quote_ name)))
          else run doc := parseDocument isPrint filePath name src in parse_files files rest (<[name := doc]> documents)
      end
  end.

Definition compile_views (fuel : nat) (documents : gmap string document) : C (list CompiledTemplate) :=
  cmapM (compile isPrint documents fuel)
    (List.filter (fun name => negb (is_component documents name)) (sortedDocumentNames documents)).

Definition CompileForge (fuel : nat) (files : option filesystem) (patterns : list string)
    : option (result (list CompiledTemplate)) :=
  match files with
  | None => Some (Err (Errorf "view filesystem is required"))
  | Some files =>
      match forgePaths files patterns with
      | Err e => Some (Err e)
      | Ok [] => Some (Err (Errorf ("no " +:+ forgeSuffix +:+ " templates found")))
      | Ok paths =>
          run documents := parse_files files paths ∅ in
          run _ := validateDependencies isPrint documents in
          run compiled :=
            fst <$> compile_views fuel documents {| heap := ∅; sequence := 0; b_text := EmptyString; b_mappings := [] |} in
          match compiled with
          | [] => Some (Err (Errorf ("no renderable " +:+ forgeSuffix +:+ " templates found")))
          | _ => run _ := validateTemplateDependencies compiled in Some (Ok compiled)
          end
      end
  end.

(** ** From generated text to the sources *)

Record compiledMapping : Type := { cm_source : string; cm_mappings : list SourceMapping; cm_prefix : Z }.
Record includeEdge : Type := { ie_target : string; ie_context : list string }.

Definition set_position (m : SourceMapping) (line column start : Z) : SourceMapping :=
  {| Start := Start m; End_ := End_ m; SourceStart := start; Path := Path m; Line := line; Column := column;
     Synthetic := Synthetic m; Context_ := Context_ m |}.
Definition set_mapping_context (m : SourceMapping) (ctx : list string) : SourceMapping :=
  {| Start := Start m; End_ := End_ m; SourceStart := SourceStart m; Path := Path m; Line := Line m;
     Column := Column m; Synthetic := Synthetic m; Context_ := ctx |}.

(** The loop of [adjustMapping] over the runes of the segment. *)
Fixpoint advance_position (fuel : nat) (segment : string) (line column : Z) : Z * Z :=
  match fuel, segment with
  | S n, String _ _ =>
      let '(r, size) := DecodeRune segment in
      if r =? ord newline then advance_position n (drop_string size segment) (line + 1) 1
      else advance_position n (drop_string size segment) line (column + 1)
  | _, _ => (line, column)
  end.
Definition adjustMapping (m : SourceMapping) (generated : string) (delta : Z) : SourceMapping :=
  if Synthetic m || (delta <=? 0) then m
  else
    let fin := Z.min (Start m + delta) (End_ m) in
    let segment := slice (Z.to_nat (Start m)) (Z.to_nat fin) generated in
    let '(line, column) := advance_position (String.length segment) segment (Line m) (Column m) in
    set_position m line column (SourceStart m + delta).

Fixpoint find_mapping (mappings : list SourceMapping) (generated : string) (offset : Z) (previous : option SourceMapping)
    : option SourceMapping :=
  match mappings with
  | [] => previous
  | m :: rest =>
      if (Start m <=? offset) && (offset <? End_ m) then Some (adjustMapping m generated (offset - Start m))
      else find_mapping rest generated offset (if Start m <=? offset then Some m else previous)
  end.
Definition findMapping (mappings : list SourceMapping) (generated : string) (offset : Z) : option SourceMapping :=
  find_mapping mappings generated offset None.

(** [lineColumnOffset]: the loop over the lines, then the column. *)
Fixpoint line_offset (fuel : nat) (s : string) (offset more : Z) : option Z :=
  match fuel with
  | O => Some offset
  | S n =>
      if (more <=? 0) || bool_decide (s = EmptyString) then Some offset
      else match Index s lf with
      | None => None
      | Some next => line_offset n (drop_string (S next) s) (offset + Z.of_nat next + 1) (more - 1)
      end
  end.
Definition lineColumnOffset (source : string) (line column : Z) : Z :=
  let line := if line <? 1 then 1 else line in
  let column := if column <? 1 then 1 else column in
  match line_offset (S (String.length source)) source 0 (line - 1) with
  | None => byte_len source
  | Some offset =>
      let offset := offset +w (column - 1) in
      if byte_len source <? offset then byte_len source else offset
  end.

Fixpoint deduplicate (previous : option string) (values : list string) : list string :=
  match values with
  | [] => []
  | v :: rest => if bool_decide (previous = Some v) then deduplicate previous rest else v :: deduplicate (Some v) rest
  end.
Definition deduplicateContext (values : list string) : list string := deduplicate None values.

(** [includeContext]: breadth first through the include edges. *)
Definition edge_chain (current : string) (chain : list string) (e : includeEdge) : list string :=
  let chain := chain ++ List.filter (fun v => negb (bool_decide (v = "view " +:+ current))) (ie_context e) in
  let closing := "include " +:+ ie_target e in
  deduplicateContext (if bool_decide (last chain = Some closing) then chain else chain ++ [closing]).

(** The edges of one item of the queue: the chain that reaches the target, or the new queue
    and the names seen. *)
Fixpoint follow_edges (current : string) (chain : list string) (target : string) (edges : list includeEdge)
    (queue : list (string * list string)) (seen : gset string)
    : list string + list (string * list string) * gset string :=
  match edges with
  | [] => inr (queue, seen)
  | e :: rest =>
      let chain' := edge_chain current chain e in
      if bool_decide (ie_target e = target) then inl chain'
      else if bool_decide (ie_target e ∈ seen) then follow_edges current chain target rest queue seen
      else follow_edges current chain target rest (queue ++ [(ie_target e, chain')]) ({[ie_target e]} ∪ seen)
  end.
Fixpoint search_includes (fuel : nat) (includes : gmap string (list includeEdge)) (target : string)
    (queue : list (string * list string)) (seen : gset string) : option (option (list string)) :=
  match queue with
  | [] => Some None
  | (current, chain) :: queue =>
      match fuel with
      | O => None
      | S n =>
          match follow_edges current chain target (default [] (includes !! current)) queue seen with
          | inl found => Some (Some found)
          | inr (queue, seen) => search_includes n includes target queue seen
          end
      end
  end.
Definition edge_count (includes : gmap string (list includeEdge)) : nat :=
  list_sum ((fun p => length p.2) <$> map_to_list includes).
Definition includeContext (root target : string) (includes : gmap string (list includeEdge)) : option (list string) :=
  if bool_decide (root = target) then Some ["view " +:+ root]
  else
    found ← search_includes (S (edge_count includes)) includes target [(root, ["view " +:+ root])] {[root]};
    Some (match found with Some chain => chain | None => ["view " +:+ root; "template " +:+ target] end).

Definition includeCompileContext (target : string) (includes : gmap string (list includeEdge)) : option (list string) :=
  let names := sortedDocumentNames includes in
  let incoming : gset string := list_to_set (flat_map (fun p => ie_target <$> p.2) (map_to_list includes)) in
  best ← fold_left (fun best root =>
    best ← best;
    if bool_decide (root ∈ incoming) then Some best
    else
      ctx ← includeContext root target includes;
      Some (if ((1 <? length ctx)%nat || bool_decide (root = target)) && (length best <? length ctx)%nat then ctx else best))
    names (Some []);
  Some (match best with [] => ["view " +:+ target] | _ => best end).

Definition templateIncludeEdges (item : CompiledTemplate) : list includeEdge :=
  (fun '(start, target) =>
     let ctx := match findMapping (Mappings item) (Source item) (Z.of_nat start) with
                | Some m => match Context_ m with [] => ["view " +:+ Name item; "include " +:+ target] | ctx => ctx end
                | None => ["view " +:+ Name item; "include " +:+ target]
                end in
     {| ie_target := target; ie_context := deduplicateContext ctx |}) <$> template_calls (Source item) 0 0.

(** [templateLocation] at the start of [s]: the name, the line and the optional column. *)
Fixpoint take_digits (s : string) : string :=
  match s with String c rest => if is_digit c then String c (take_digits rest) else EmptyString | EmptyString => EmptyString end.
Definition match_location (s : string) : option (string * string * option string) :=
  if negb (HasPrefix s "template: ") then None
  else
    let '(name, rest, found) := Cut (drop_string 10 s) ":"%char in
    let line := take_digits rest in
    if negb found || bool_decide (name = EmptyString) || bool_decide (line = EmptyString) then None
    else
      let rest := drop_string (String.length line) rest in
      let column := if HasPrefix rest ":" then take_digits (drop_string 1 rest) else EmptyString in
      Some (name, line, if bool_decide (column = EmptyString) then None else Some column).
Fixpoint find_location (s : string) : option (string * string * option string) :=
  match match_location s with
  | Some found => Some found
  | None => match s with EmptyString => None | String _ rest => find_location rest end
  end.
(** The value [strconv.Atoi] returns for digits, with its error ignored. *)
Definition atoi_value (digits : string) : Z :=
  match Atoi digits with Some z => z | None => MaxInt64 end.
Definition location_column (column : option string) : Z := match column with Some c => atoi_value c | None => 1 end.

Definition errorLocation (message : string) : option (Z * Z) :=
  match find_location message with
  | None => None
  | Some (_, line, column) =>
      match Atoi line with Some l => Some (l, location_column column) | None => None end
  end.

(** The library's error is its text; [Wrapf] keeps the text in front of it. *)
Definition mappedError (operation name : string) (m : SourceMapping) (message : string) : error :=
  let ctx := match Context_ m with [] => EmptyString | c => " (" +:+ Join c " -> " +:+ ")" end in
  Wrapf (Path m +:+ ":" +:+ Itoa (Line m) +:+ ":" +:+ Itoa (Column m) +:+ ": " +:+ operation +:+ " view " +:+ quote_ name +:+ ctx)
    (Errorf message).

Definition first_line_column (line column prefix : Z) : Z :=
  if line =? 1 then if column -w prefix <? 1 then 1 else column -w prefix else column.
Definition view_context (name : string) (ctx : list string) (m : SourceMapping) : SourceMapping :=
  set_mapping_context m
    (deduplicateContext (ctx ++ List.filter (fun v => negb (bool_decide (v = "view " +:+ name))) (Context_ m))).

Definition mapCompiledError (operation : string) (item : CompiledTemplate) (prefix : Z)
    (includes : gmap string (list includeEdge)) (message : string) : option error :=
  let plain := Wrapf (operation +:+ " compiled view " +:+ quote_ (Name item)) (Errorf message) in
  match errorLocation message with
  | None => Some plain
  | Some (line, column) =>
      let offset := lineColumnOffset (Source item) line (first_line_column line column prefix) in
      match findMapping (Mappings item) (Source item) offset with
      | None => Some plain
      | Some m =>
          ctx ← includeCompileContext (Name item) includes;
          Some (mappedError operation (Name item) (view_context (Name item) ctx m) message)
      end
  end.

Definition mapExecutionError (root : string) (mappings : gmap string compiledMapping)
    (includes : gmap string (list includeEdge)) (message : string) : option error :=
  let plain := Wrapf ("render view " +:+ quote_ root) (Errorf message) in
  match find_location message with
  | None => Some plain
  | Some (name, line, column) =>
      match mappings !! name with
      | None => Some plain
      | Some compiled =>
          let line := atoi_value line in
          let offset := lineColumnOffset (cm_source compiled) line
                          (first_line_column line (location_column column) (cm_prefix compiled)) in
          match findMapping (cm_mappings compiled) (cm_source compiled) offset with
          | None => Some plain
          | Some m =>
              ctx ← includeContext root name includes;
              Some (mappedError "render" root (view_context name ctx m) message)
          end
      end
  end.

(** ** [ParseCompiled] and [Render]

    [parse] is [html/template] parsing one more definition into the set; [execute] runs one
    template of the set: the text so far is lost when it fails. *)

Record Engine : Type := {
  templates : list (string * string); mappings : gmap string compiledMapping; includes : gmap string (list includeEdge)
}.
Context (parse : list (string * string) -> string -> string -> option string).

Definition definition_prefix (item : CompiledTemplate) : string := "{{define " +:+ quote_ (Name item) +:+ "}}".
Fixpoint check_names (compiled : list CompiledTemplate) (seen : gset string) : result unit :=
  match compiled with
  | [] => Ok tt
  | item :: rest =>
      if bool_decide (TrimSpace (Name item) = EmptyString) then Err (Errorf "compiled view name is required")
      else if bool_decide (Name item ∈ seen) then Err (Errorf ("duplicate compiled view " +:+ quote_ (Name item)))
      else check_names rest ({[Name item]} ∪ seen)
  end.
Fixpoint parse_definitions (edges : gmap string (list includeEdge)) (compiled : list CompiledTemplate)
    (done : list (string * string)) : option (result (list (string * string))) :=
  match compiled with
  | [] => Some (Ok done)
  | item :: rest =>
      let definition := definition_prefix item +:+ Source item +:+ "{{end}}" in
      match parse done (Name item) definition with
      | Some message =>
          e ← mapCompiledError "parse" item (byte_len (definition_prefix item)) edges message; Some (Err e)
      | None => parse_definitions edges rest (done ++ [(Name item, definition)])
      end
  end.
Definition ParseCompiled (compiled : list CompiledTemplate) : option (result Engine) :=
  match compiled with
  | [] => Some (Err (Errorf "compiled views are required"))
  | _ =>
      match check_names compiled ∅ with
      | Err e => Some (Err e)
      | Ok _ =>
          let edges := fold_left (fun m t => <[Name t := templateIncludeEdges t]> m) compiled ∅ in
          run done := parse_definitions edges compiled [] in
          Some (Ok {| templates := done;
                      mappings := fold_left (fun m t => <[Name t := {| cm_source := Source t; cm_mappings := Mappings t;
                                    cm_prefix := byte_len (definition_prefix t) |}]> m) compiled ∅;
                      includes := edges |})
      end
  end.

Definition ParseForge (fuel : nat) (files : option filesystem) (patterns : list string) : option (result Engine) :=
  run compiled := CompileForge fuel files patterns in ParseCompiled compiled.

(** What a render leaves of the response: nothing on an error of the template, otherwise the
    headers, the status and the whole body. *)
Record sent : Type := { sent_headers : list (string * string); sent_status : Z; sent_body : string }.
Definition Render {D : Type} (execute : list (string * string) -> string -> D -> string + string) (write : string -> option error)
    (engine : Engine) (status : Z) (name : string) (data : D) : option (option sent * option error) :=
  match execute (templates engine) name data with
  | inl message => e ← mapExecutionError name (mappings engine) (includes engine) message; Some (None, Some e)
  | inr body =>
      Some (Some {| sent_headers := [("Content-Type", "text/html; charset=utf-8"); ("Content-Length", Itoa (byte_len body))];
                    sent_status := status; sent_body := body |},
            match write body with Some e => Some (Wrapf ("write view " +:+ quote_ name) e) | None => None end)
  end.

(** ** [GoSource] *)

Context (format : string -> result string).

Fixpoint insert_template (t : CompiledTemplate) (l : list CompiledTemplate) : list CompiledTemplate :=
  match l with
  | [] => [t]
  | u :: rest => if String.ltb (Name u) (Name t) then u :: insert_template t rest else t :: l
  end.
Definition sort_templates (l : list CompiledTemplate) : list CompiledTemplate := foldr insert_template [] l.

Definition valid_mapping (source : string) (m : SourceMapping) : bool :=
  negb ((Start m <? 0) || (End_ m <? Start m) || (byte_len source <? End_ m) || (SourceStart m <? 0) ||
        bool_decide (Path m = EmptyString) || (Line m <? 1) || (Column m <? 1)).
Fixpoint check_items (previous : option string) (items : list CompiledTemplate) : result unit :=
  match items with
  | [] => Ok tt
  | item :: rest =>
      if bool_decide (Name item = EmptyString) then Err (Errorf "compiled view name is required")
      else if bool_decide (previous = Some (Name item)) then Err (Errorf ("duplicate compiled view " +:+ quote_ (Name item)))
      else if negb (forallb (valid_mapping (Source item)) (Mappings item))
      then Err (Errorf ("compiled view " +:+ quote_ (Name item) +:+ " has an invalid source mapping"))
      else check_items (Some (Name item)) rest
  end.

Definition tab : string := String (chr 9) EmptyString.
Definition mapping_source (m : SourceMapping) : string :=
  tab +:+ tab +:+ "{Start: " +:+ Itoa (Start m) +:+ ", End: " +:+ Itoa (End_ m) +:+ ", SourceStart: " +:+ Itoa (SourceStart m) +:+
  ", Path: " +:+ quote_ (Path m) +:+ ", Line: " +:+ Itoa (Line m) +:+ ", Column: " +:+ Itoa (Column m) +:+
  (if Synthetic m then ", Synthetic: true" else EmptyString) +:+
  match Context_ m with
  | [] => EmptyString
  | ctx => ", Context: []string{" +:+ Join ((fun c => quote_ c +:+ ",") <$> ctx) EmptyString +:+ "}"
  end +:+ "}," +:+ lf.
Definition item_source (item : CompiledTemplate) : string :=
  tab +:+ "{Name: " +:+ quote_ (Name item) +:+ ", Source: " +:+ quote_ (Source item) +:+
  match Mappings item with
  | [] => EmptyString
  | ms => ", Mappings: []view.SourceMapping{" +:+ lf +:+ Join (mapping_source <$> ms) EmptyString +:+ tab +:+ "}"
  end +:+ "}," +:+ lf.
Definition GoSource (packageName : string) (compiled : list CompiledTemplate) : result string :=
  if negb (validIdentifier packageName) then Err (Errorf ("invalid Go package name " +:+ quote_ packageName))
  else match compiled with
  | [] => Err (Errorf "compiled views are required")
  | _ =>
      let items := sort_templates compiled in
      try _ := check_items None items in
      match format ("// Code generated by GoForge. DO NOT EDIT." +:+ lf +:+ lf +:+ "package " +:+ packageName +:+ lf +:+ lf +:+
                    "import " +:+ dq +:+ "github.com/ShanilKoshitha/goforge/view" +:+ dq +:+ lf +:+ lf +:+
                    "var Compiled = []view.CompiledTemplate{" +:+ lf +:+ Join (item_source <$> items) EmptyString +:+ "}" +:+ lf) with
      | Err e => Err (Wrapf "format compiled views" e)
      | Ok formatted => Ok formatted
      end
  end.
End Forge.

(** ** Form state ([form.go]) *)

Record Form : Type := {
  CSRFToken : string; OldValues : gmap string string; ValidationErrors : gmap string (list string)
}.
Definition Old {A} (inject : string -> A) (form : Form) (name : string) (fallback : list A) : A :=
  match OldValues form !! name with
  | Some value => inject value
  | None => match fallback with v :: _ => v | [] => inject EmptyString end
  end.
Definition Errors (form : Form) (name : string) : list string := default [] (ValidationErrors form !! name).
