(* ===== verification/ViewParseProps.v ===== *)
(** * What the template parser guarantees ([view/forge_parse.go])

    The parser always answers; the tree it returns tiles the source, so that nothing of a
    template is lost, invented or moved; and what it hands to the compiler is well placed. *)

From S2P Require Import Prelude GoStrings GoUtf8 GoQuote GoUrl PathText GoText ViewSource ViewParse.
Local Open Scope go_scope.
Local Open Scope Z_scope.

(** ** Scanners move forward and stay inside *)


Lemma HasPrefix_length s p : HasPrefix s p = true -> (String.length p <= String.length s)%nat.
Proof.
  revert s; induction p as [|c p IH]; intros [|x s] H; cbn in *; try lia; try done.
  apply andb_true_iff in H as [_ H]. specialize (IH _ H). lia.
Qed.

Lemma Index_bound s sub i : Index s sub = Some i -> (i + String.length sub <= String.length s)%nat.
Proof.
  revert i; induction s as [|c s IH]; intros i; cbn [Index].
  - destruct (HasPrefix _ _) eqn:H; [|done]. intros [= <-]. by apply HasPrefix_length in H.
  - destruct (HasPrefix _ _) eqn:H; [intros [= <-]; by apply HasPrefix_length in H|].
    destruct (Index s sub) as [j|]; [|done]. intros [= <-]. specialize (IH _ eq_refl). cbn. lia.
Qed.

Lemma skip_blanks_spec s index : exists k, skip_blanks s index = ((index + k)%nat, drop_string k s) /\ (k <= String.length s)%nat.
Proof.
  revert index; induction s as [|c s IH]; intros index; cbn [skip_blanks].
  - exists 0%nat. split; [f_equal; lia|cbn; lia].
  - destruct (_ || _); [|exists 0%nat; split; [f_equal; lia|lia]].
    destruct (IH (S index)) as (k & -> & Hk). exists (S k). split; [f_equal; lia|cbn; lia].
Qed.

Lemma scan_balanced_bound s q depth index fin :
  scan_balanced s q depth index = Some fin -> (index < fin <= index + String.length s)%nat.
Proof.
  revert q depth index; induction s as [|c s IH]; intros q depth index; cbn [scan_balanced]; [done|].
  cbn [String.length]. repeat case_match; intros H'; simplify_eq; try (apply IH in H'); lia.
Qed.

Lemma scan_action_bound s q index fin :
  scan_action s q index = Some fin -> (index + 2 <= fin <= index + String.length s)%nat.
Proof.
  revert q index; induction s as [|c s IH]; intros q index; cbn [scan_action]; [done|].
  destruct s as [|d s]; [done|]. change (String.length (String c (String d s))) with (S (String.length (String d s))).
  repeat case_match; intros H'; simplify_eq; try (apply IH in H'); cbn [String.length] in *; lia.
Qed.

Lemma drop_drop n m s : drop_string n (drop_string m s) = drop_string (m + n) s.
Proof. revert s; induction m as [|m IH]; intros s; [done|]. destruct s as [|c s]; [by destruct n|apply IH]. Qed.

Lemma get_drop_string k n s : String.get k (drop_string n s) = String.get (n + k) s.
Proof. revert s; induction n as [|n IH]; intros s; [done|]. destruct s as [|c s]; [by destruct k|apply IH]. Qed.

Lemma scan_balanced_last s q depth index fin :
  scan_balanced s q depth index = Some fin -> String.get (fin - 1 - index) s = Some ")"%char.
Proof.
  revert q depth index; induction s as [|c s IH]; intros q depth index; cbn [scan_balanced]; [done|].
  assert (forall q' d', scan_balanced s q' d' (S index) = Some fin -> String.get (fin - 1 - index) (String c s) = Some ")"%char) as Hrec.
  { intros q' d' H'. pose proof (scan_balanced_bound _ _ _ _ _ H'). apply IH in H'.
    replace (fin - 1 - index)%nat with (S (fin - 1 - S index)) by lia. done. }
  destruct (quote_step q c); [apply Hrec|]. destruct (bool_decide (c = "("%char)); [apply Hrec|].
  destruct (bool_decide (c = ")"%char)) eqn:Hc; [|apply Hrec]. destruct (_ =? 0); [|apply Hrec]. intros [= <-].
  apply bool_decide_eq_true in Hc as ->. by replace (S index - 1 - index)%nat with 0%nat by lia.
Qed.

Lemma scan_action_last s q index fin :
  scan_action s q index = Some fin -> String.get (fin - 1 - index) s = Some "}"%char.
Proof.
  revert q index; induction s as [|c s IH]; intros q index; cbn [scan_action]; [done|]. destruct s as [|d s]; [done|].
  assert (forall q', scan_action (String d s) q' (S index) = Some fin ->
    String.get (fin - 1 - index) (String c (String d s)) = Some "}"%char) as Hrec.
  { intros q' H'. pose proof (scan_action_bound _ _ _ _ H'). apply IH in H'.
    replace (fin - 1 - index)%nat with (S (fin - 1 - S index)) by lia. done. }
  destruct (quote_step q c); [apply Hrec|]. destruct (_ && _) eqn:Hc; [|apply Hrec]. intros [= <-].
  apply andb_true_iff in Hc as [_ Hd]. apply bool_decide_eq_true in Hd as ->. by replace (S (S index) - 1 - index)%nat with 1%nat by lia.
Qed.

Lemma HasPrefix_get s pre k c : HasPrefix s pre = true -> String.get k pre = Some c -> String.get k s = Some c.
Proof.
  revert s k; induction pre as [|x pre IH]; intros s k H Hg; [by destruct k|]. destruct s as [|y s]; [done|]. cbn in H.
  apply andb_true_iff in H as [Hy H]. apply bool_decide_eq_true in Hy as ->. destruct k; [done|]. exact (IH _ _ H Hg).
Qed.

Lemma Index_prefix s sub i : Index s sub = Some i -> HasPrefix (drop_string i s) sub = true.
Proof.
  revert i; induction s as [|c s IH]; intros i; cbn [Index].
  - destruct (HasPrefix _ _) eqn:H; [|done]. by intros [= <-].
  - destruct (HasPrefix _ _) eqn:H; [by intros [= <-]|]. destruct (Index s sub) as [j|]; [|done]. intros [= <-]. by apply IH.
Qed.

(** The offset is the start, or the byte before it is ASCII: no rune crosses it. *)
Definition after_ascii (src : string) (n : nat) : Prop :=
  n = 0%nat \/ exists c, String.get (n - 1) src = Some c /\ inb 0 127 c = true.

Section Parse.
Context (isPrint : Z -> bool) (p src : string).
Local Notation len := (String.length src).

(** [arguments] returns what is between the parentheses that follow [pos]. *)
Lemma arguments_spec pos raw fin : arguments p src pos true = Ok (raw, fin) ->
  exists index, (pos <= index)%nat /\ (index + 2 <= fin <= len)%nat /\ HasPrefix (drop_string index src) "(" = true /\
    scanBalanced src index = Ok fin /\ raw = slice (index + 1) (fin - 1) src /\ after_ascii src fin.
Proof.
  unfold arguments. destruct (skip_blanks_spec (from src pos) pos) as (k & -> & Hk).
  unfold from. rewrite drop_drop. destruct (HasPrefix (drop_string (pos + k) src) "(") eqn:Hp; cbn [negb]; [|done].
  destruct (scanBalanced src (pos + k)) as [f|] eqn:Hs; [|done]. intros [= <- <-].
  exists (pos + k)%nat. split_and!; try done; [lia| | |].
  - unfold scanBalanced in Hs. destruct (scan_balanced _ _ _ _) as [g|] eqn:Hg; [|done]. injection Hs as ->.
    destruct (drop_string (pos + k) src) as [|c s] eqn:Hd; [done|]. cbn in Hp. apply andb_true_iff in Hp as [Hp _].
    apply bool_decide_eq_true in Hp as ->. cbn in Hg. apply scan_balanced_bound in Hg. lia.
  - unfold scanBalanced in Hs. destruct (scan_balanced _ _ _ _) as [g|] eqn:Hg; [|done]. injection Hs as ->.
    apply scan_balanced_bound in Hg. rewrite drop_string_length in Hg. lia.
  - unfold scanBalanced in Hs. destruct (scan_balanced _ _ _ _) as [g|] eqn:Hg; [|done]. injection Hs as ->.
    right. exists ")"%char. split; [|done]. pose proof (scan_balanced_bound _ _ _ _ _ Hg).
    apply scan_balanced_last in Hg. rewrite get_drop_string in Hg. rewrite <- Hg. f_equal. lia.
Qed.

(** ** The grammar *)

(** A directive's name stands at [a] and ends at [e]. *)
Definition directive_at (a : nat) (name : string) (e : nat) : Prop :=
  HasPrefix (drop_string a src) "@" = true /\ directiveName src (a + 1) = (name, e) /\ name <> EmptyString.

Definition comment_at (a b : nat) : Prop :=
  HasPrefix (drop_string a src) "{{--" = true /\
  exists e, Index (drop_string (a + 4) src) "--}}" = Some e /\ b = (a + 4 + e + 4)%nat.

Definition cond_kind (name : string) : option (nodeKind * string) :=
  if bool_decide (name = "if") then Some (nodeIf, "endif")
  else if bool_decide (name = "for") then Some (nodeFor, "endfor")
  else if bool_decide (name = "with") then Some (nodeWith, "endwith") else None.

(** [tiles a ns b]: the nodes are what stands between the offsets, one after the other, with
    comments left out; [tile n a b]: the node is what stands there; [elseifs a bs b]: the
    branches of a conditional. *)
Inductive tiles : nat -> list node -> nat -> Prop :=
| tiles_nil a : tiles a [] a
| tiles_comment a b ns c : comment_at a b -> tiles b ns c -> tiles a ns c
| tiles_node a n b ns c : tile n a b -> tiles b ns c -> tiles a (n :: ns) c
with tile : node -> nat -> nat -> Prop :=
| tile_text a b : (a < b <= len)%nat -> after_ascii src a ->
    tile (leaf (new_fields nodeText (span_ p src a b) (slice a b src))) a b
| tile_at a : HasPrefix (drop_string a src) "@@" = true ->
    tile (leaf (new_fields nodeText (span_ p src a (a + 2)) "@")) a (a + 2)
| tile_action a b : HasPrefix (drop_string a src) "{{" = true -> scanGoAction src a = Ok b ->
    tile (leaf (new_fields nodeAction (span_ p src a b) (slice a b src))) a b
| tile_leaf name k a e f b : directive_at a name e -> (leaf_kind name = Some k \/ name = "csrf" /\ k = nodeCSRF) ->
    parse_leaf isPrint p src k a e = Ok (f, b) -> tile (leaf f) a b
| tile_csrf a e : directive_at a "csrf" e -> tile (leaf (new_fields nodeCSRF (span_ p src a e) EmptyString)) a e
| tile_block name k endName a e f m ns c b : directive_at a name e -> block_kind name = Some (k, endName) ->
    parse_leaf isPrint p src k a e = Ok (f, m) -> tiles m ns c -> directive_at c endName b ->
    tile (Node (set_end b f) ns [] []) a b
| tile_cond name k endName a e raw m ns c1 bs c2 alt c3 b : directive_at a name e -> cond_kind name = Some (k, endName) ->
    arguments p src e true = Ok (raw, m) -> TrimSpace raw <> EmptyString ->
    tiles m ns c1 -> elseifs c1 bs c2 -> alternates c2 alt c3 -> directive_at c3 endName b ->
    tile (Node (set_end b (new_fields k (span_ p src a m) (TrimSpace raw))) ns bs alt) a b
with elseifs : nat -> list (branch node) -> nat -> Prop :=
| elseifs_nil a : elseifs a [] a
| elseifs_cons a d raw m ns c bs b : directive_at a "elseif" d -> arguments p src d true = Ok (raw, m) ->
    TrimSpace raw <> EmptyString -> tiles m ns c -> elseifs c bs b ->
    elseifs a ({| pipeline := TrimSpace raw; b_span := span_ p src a m; b_nodes := ns |} :: bs) b
with alternates : nat -> list node -> nat -> Prop :=
| alternates_none a : alternates a [] a
| alternates_some a name d ns b : directive_at a name d -> name = "else" \/ name = "empty" -> tiles d ns b -> alternates a ns b.

Lemma directive_at_bound a name e : directive_at a name e -> (a + 1 + String.length name = e)%nat /\ (a + 1 < e <= len)%nat.
Proof.
  intros (Hp & Hn & Hne). unfold directiveName, from in Hn. injection Hn as Hname <-.
  assert (forall s, String.length (take_letters s) <= String.length s)%nat as Hle.
  { induction s as [|c s IH]; cbn; [lia|]. destruct (letter c); cbn; lia. }
  specialize (Hle (drop_string (a + 1) src)). rewrite drop_string_length in Hle. rewrite <- Hname in *.
  set (n := take_letters _) in *. apply HasPrefix_length in Hp. rewrite drop_string_length in Hp. cbn in Hp.
  destruct n as [|c n]; [done|]. cbn in *. lia.
Qed.

Lemma tiles_app a ns b ms c : tiles a ns b -> tiles b ms c -> tiles a (ns ++ ms) c.
Proof. intros H1 H2. induction H1; cbn; [done|eapply tiles_comment|eapply tiles_node]; eauto. Qed.

Lemma tiles_one n a b : tile n a b -> tiles a [n] b.
Proof. intros. eapply tiles_node; [done|constructor]. Qed.

Lemma directive_at_ascii a name e : directive_at a name e -> after_ascii src e.
Proof.
  intros Hd. pose proof (directive_at_bound _ _ _ Hd) as [Hlen Hb]. destruct Hd as (_ & Hn & Hne).
  unfold directiveName, from in Hn. injection Hn as Hname He. right.
  assert (forall s, take_letters s <> EmptyString -> exists c, String.get (String.length (take_letters s) - 1) s = Some c /\ inb 0 127 c = true) as Hlast.
  { induction s as [|c s IH]; [done|]. cbn [take_letters]. destruct (letter c) eqn:Hc; [|done]. intros _.
    destruct (take_letters s) as [|d t] eqn:Ht; cbn [String.length].
    - exists c. split; [done|]. unfold letter in Hc. rewrite orb_true_iff, !inb_iff in Hc. apply inb_iff. cbn in *. lia.
    - destruct (IH ltac:(done)) as (x & Hx & Hi). exists x. split; [|done]. cbn [String.length] in Hx. by replace (S (S (String.length t)) - 1)%nat with (S (S (String.length t) - 1)) by lia. }
  destruct (Hlast (drop_string (a + 1) src)) as (c & Hc & Hi); [by rewrite Hname|]. exists c. split; [|done].
  rewrite get_drop_string, Hname in Hc. destruct name; [done|]. cbn [String.length] in *. rewrite <- Hc. f_equal. lia.
Qed.

Lemma tiles_text a b : (a <= b <= len)%nat -> after_ascii src a -> tiles a (text_node p src a b) b.
Proof.
  intros H Ha. unfold text_node. destruct (a <? b)%nat eqn:Hab.
  - apply tiles_one, tile_text; [|done]. apply Nat.ltb_lt in Hab. lia.
  - apply Nat.ltb_ge in Hab. replace a with b by lia. constructor.
Qed.

Lemma elseifs_app a bs b cs c : elseifs a bs b -> elseifs b cs c -> elseifs a (bs ++ cs) c.
Proof. intros H1 H2. induction H1; cbn; [done|]. econstructor; eauto. Qed.

(** ** The parser derives its trees and always answers *)

(** What a call of the parser with enough fuel does. *)
Definition answers (stops : list string) (pos : nat) (r : parsed) : Prop :=
  exists x, r = Some x /\ forall ns t e, x = Ok (ns, t, e) ->
    exists c, tiles pos ns c /\ (pos <= c)%nat /\
      ((t = EmptyString /\ stops = [] /\ c = len /\ e = len) \/ (t ∈ stops /\ t <> EmptyString /\ directive_at c t e)).

Definition answers_node (start : nat) (r : option (result (node * nat))) : Prop :=
  exists x, r = Some x /\ forall n e, x = Ok (n, e) -> tile n start e /\ (start < e <= len)%nat /\ after_ascii src e.

Lemma parse_leaf_bound k start pos f fin : parse_leaf isPrint p src k start pos = Ok (f, fin) -> (pos + 2 <= fin <= len)%nat /\ after_ascii src fin.
Proof.
  unfold parse_leaf, rbind. destruct (arguments p src pos true) as [[raw m]|] eqn:Ha; [|done].
  destruct (parseLeafArguments _ _ _ _) as [g|]; [|done]. intros [= <- <-].
  apply arguments_spec in Ha as (index & Hi & Hf & _ & _ & _ & Hasc). split; [lia|done].
Qed.

Section Directives.
Context (parse : list string -> nat -> parsed) (fuel start : nat).
Context (Hparse : forall stops pos, (start < pos <= len)%nat -> after_ascii src pos -> answers stops pos (parse stops pos)).
Context (Hfuel : (len - start <= fuel)%nat).

Lemma elseif_answers n stops terminal pos c0 acc c :
  (start < pos <= len)%nat -> (len - pos < n)%nat -> (start < c)%nat ->
  directive_at c terminal pos -> elseifs c0 acc c -> terminal ∈ stops ->
  exists x, elseif_loop p src parse n stops terminal pos acc = Some x /\
    forall bs t e, x = Ok (bs, t, e) -> exists c', elseifs c0 bs c' /\ (start < c' <= len)%nat /\ directive_at c' t e /\
      (start < e <= len)%nat /\ t ∈ stops.
Proof.
  revert terminal pos acc c. induction n as [|n IH]; intros terminal pos acc c Hpos Hn Hc Hd Hacc Hin; [lia|].
  cbn [elseif_loop]. destruct (bool_decide (terminal = "elseif")) eqn:Ht; cbn [negb].
  2:{ eexists; split; [done|]. intros bs t e [= <- <- <-]. exists c. split_and!; try done; lia || (apply directive_at_bound in Hd; lia). }
  apply bool_decide_eq_true in Ht as ->. pose proof (directive_at_bound _ _ _ Hd) as [Hlen Hb]. cbn in Hlen.
  destruct (arguments p src pos true) as [[raw next]|err] eqn:Ha; [|eexists; by split].
  destruct (bool_decide (TrimSpace raw = EmptyString)) eqn:Hr; [eexists; by split|]. apply bool_decide_eq_false in Hr.
  destruct (arguments_spec _ _ _ Ha) as (index & Hi & Hf & _ & _ & _ & Hasc).
  destruct (Hparse stops next ltac:(lia) Hasc) as (x & -> & Hx). destruct x as [[[body t] e]|err]; [|eexists; by split].
  destruct (Hx _ _ _ eq_refl) as (c1 & Htiles & Hle & [(-> & -> & _) | (Hst & Hne & Hd1)]); [by apply elem_of_nil in Hin|].
  pose proof (directive_at_bound _ _ _ Hd1) as [_ Hb1].
  eapply (IH t e _ c1); try lia; try done. eapply elseifs_app; [exact Hacc|].
  replace (pos - 7)%nat with c by lia. eapply elseifs_cons; eauto. constructor.
Qed.

Lemma conditional_answers name k endName elseif e :
  directive_at start name e -> cond_kind name = Some (k, endName) ->
  endName <> EmptyString ->
  answers_node start (parseConditional p src parse fuel start e k endName elseif).
Proof.
  intros Hd Hk Hend. unfold parseConditional. destruct (arguments p src e true) as [[raw m]|err] eqn:Ha; [|eexists; by split].
  destruct (bool_decide (TrimSpace raw = EmptyString)) eqn:Hr; [eexists; by split|]. apply bool_decide_eq_false in Hr.
  pose proof (directive_at_bound _ _ _ Hd) as [_ Hb]. destruct (arguments_spec _ _ _ Ha) as (index & Hi & Hf & _ & _ & _ & Hasc).
  set (stops := conditional_stops k endName elseif).
  destruct (Hparse stops m ltac:(lia) Hasc) as (x & -> & Hx). destruct x as [[[ns t] e1]|err]; [|eexists; by split].
  destruct (Hx _ _ _ eq_refl) as (c1 & Htiles & Hle & [(_ & Hs & _) | (Hst & Hne & Hd1)]); [done|].
  pose proof (directive_at_bound _ _ _ Hd1) as [_ Hb1].
  destruct (elseif_answers fuel stops t e1 c1 [] c1) as (y & -> & Hy); try done; try lia; [constructor|].
  destruct y as [[[bs t2] e2]|err]; [|eexists; by split].
  destruct (Hy _ _ _ eq_refl) as (c2 & Helse & Hc2 & Hd2 & He2 & _).
  destruct (bool_decide (t2 = "else") || bool_decide (t2 = "empty")) eqn:Halt.
  - destruct (Hparse [endName] e2 ltac:(lia) ltac:(by eapply directive_at_ascii)) as (z & -> & Hz). destruct z as [[[alt t3] e3]|err]; [|eexists; by split].
    destruct (Hz _ _ _ eq_refl) as (c3 & Htiles3 & Hle3 & [(_ & Hs & _) | (Hst3 & Hne3 & Hd3)]); [done|].
    apply list_elem_of_singleton in Hst3 as ->. rewrite bool_decide_eq_true_2 by done. cbn [negb].
    eexists; split; [done|]. intros n0 e0 [= <- <-]. pose proof (directive_at_bound _ _ _ Hd3) as [_ Hb3]. split; [|split; [lia|by eapply directive_at_ascii]].
    eapply tile_cond; eauto. eapply alternates_some; eauto. apply orb_true_iff in Halt as [H|H]; apply bool_decide_eq_true in H; auto.
  - destruct (bool_decide (t2 = endName)) eqn:He; cbn [negb]; [|eexists; by split]. apply bool_decide_eq_true in He as ->.
    eexists; split; [done|]. intros n0 e0 [= <- <-]. split; [|split; [lia|by eapply directive_at_ascii]]. eapply tile_cond; eauto. constructor.
Qed.

Lemma directive_answers name e :
  directive_at start name e -> answers_node start (parseDirective isPrint p src parse fuel name start e).
Proof.
  intros Hd. pose proof (directive_at_bound _ _ _ Hd) as [_ Hb]. unfold parseDirective.
  destruct (leaf_kind name) as [k|] eqn:Hk.
  { destruct (parse_leaf isPrint p src k start e) as [[f b]|err] eqn:Hl; [|eexists; by split].
    eexists; split; [done|]. intros n0 e0 [= <- <-]. split; [by eapply tile_leaf; eauto|]. apply parse_leaf_bound in Hl as [? ?]. split; [lia|done]. }
  destruct (bool_decide (name = "csrf")) eqn:Hc.
  { apply bool_decide_eq_true in Hc as ->. destruct (directiveAcceptsArguments src e).
    - destruct (parse_leaf isPrint p src nodeCSRF start e) as [[f b]|err] eqn:Hl; [|eexists; by split].
      eexists; split; [done|]. intros n0 e0 [= <- <-]. split; [by eapply tile_leaf; eauto|]. apply parse_leaf_bound in Hl as [? ?]. split; [lia|done].
    - eexists; split; [done|]. intros n0 e0 [= <- <-]. split; [by apply tile_csrf|split; [lia|by eapply directive_at_ascii]]. }
  destruct (block_kind name) as [[k endName]|] eqn:Hblk.
  { destruct (parse_leaf isPrint p src k start e) as [[f m]|err] eqn:Hl; [|eexists; by split].
    pose proof (parse_leaf_bound _ _ _ _ _ Hl) as [Hm Hasc].
    destruct (Hparse [endName] m ltac:(lia) Hasc) as (x & -> & Hx). destruct x as [[[ns t] e1]|err]; [|eexists; by split].
    destruct (Hx _ _ _ eq_refl) as (c1 & Htiles & Hle & [(_ & Hs & _) | (Hst & Hne & Hd1)]); [done|].
    apply list_elem_of_singleton in Hst as ->. rewrite bool_decide_eq_true_2 by done. cbn [negb].
    eexists; split; [done|]. intros n0 e0 [= <- <-]. pose proof (directive_at_bound _ _ _ Hd1) as [_ Hb1].
    split; [|split; [lia|by eapply directive_at_ascii]]. eapply tile_block; eauto. }
  repeat match goal with |- answers_node _ (if bool_decide (name = ?w) then _ else _) =>
    destruct (bool_decide (name = w)) eqn:?;
    [eapply conditional_answers; [exact Hd|bool_to_prop; subst; reflexivity|done]|] end.
  eexists; by split.
Qed.
End Directives.

Lemma HasPrefix_shorter s a b : HasPrefix s (a +:+ b) = true -> HasPrefix s a = true.
Proof.
  revert s; induction a as [|c a IH]; intros [|x s]; try done. rewrite string_app_cons. cbn. rewrite !andb_true_iff.
  intros [? ?]; auto.
Qed.

Lemma action_answers pos item e : HasPrefix (drop_string pos src) "{{" = true -> parseAction p src pos = Ok (item, e) ->
  tile item pos e /\ (pos < e <= len)%nat /\ after_ascii src e.
Proof.
  intros Hp. unfold parseAction. destruct (scanGoAction src pos) as [fin|] eqn:Hs; [|done].
  destruct (bool_decide _); [done|]. intros [= <- <-]. split; [by apply tile_action|].
  unfold scanGoAction in Hs. destruct (scan_action _ _ _) as [g|] eqn:Hg; [|done]. injection Hs as ->.
  pose proof (scan_action_bound _ _ _ _ Hg) as Hb. rewrite drop_string_length in Hb. split; [lia|].
  right. exists "}"%char. split; [|done]. apply scan_action_last in Hg. rewrite get_drop_string in Hg.
  rewrite <- Hg. f_equal. lia.
Qed.

Lemma parse_answers fuel stops pos ts acc : (ts <= pos <= len)%nat -> after_ascii src ts -> (len - pos < fuel)%nat -> forall a, tiles a acc ts -> (a <= ts)%nat ->
  answers stops a (parseNodes isPrint p src fuel stops pos ts acc).
Proof.
  revert stops pos ts acc. induction fuel as [|n IH]; intros stops pos ts acc Hts Hasc Hfuel a Hacc Ha; [lia|]. cbn [parseNodes].
  assert (tiles a (acc ++ text_node p src ts pos) pos) as Hflush by (eapply tiles_app; [done|apply tiles_text; lia || done]).
  set (flushed := acc ++ text_node p src ts pos) in *.
  destruct (pos <? len)%nat eqn:Hlt.
  2:{ apply Nat.ltb_ge in Hlt. destruct stops; [|eexists; by split]. eexists; split; [done|]. intros ns t e [= <- <- <-].
      exists pos. split_and!; [done|lia|]. left. split_and!; auto; lia. }
  apply Nat.ltb_lt in Hlt. unfold from.
  assert (answers stops a (parseNodes isPrint p src n stops (S pos) ts acc)) as Hskip by (apply IH; lia || done).
  assert (forall pos' ms, (pos < pos' <= len)%nat -> after_ascii src pos' -> tiles pos ms pos' ->
    answers stops a (parseNodes isPrint p src n stops pos' pos' (flushed ++ ms))) as Hnext.
  { intros pos' ms Hpos' Hasc' Hms. apply IH; [lia|done|lia| |lia]. eapply tiles_app; eauto. }
  destruct (HasPrefix (drop_string pos src) "{{--") eqn:Hcomment.
  { rewrite drop_drop. destruct (Index (drop_string (pos + 4) src) "--}}") as [e|] eqn:He; [|eexists; by split].
    pose proof (Index_bound _ _ _ He) as Hb. rewrite drop_string_length in Hb. cbn in Hb.
    rewrite <- (app_nil_r flushed). apply Hnext; [lia| |eapply tiles_comment; [split; [done|by exists e]|constructor]].
    right. exists "}"%char. split; [|done]. apply Index_prefix in He. rewrite drop_drop in He.
    apply (HasPrefix_get _ _ 3 "}"%char) in He; [|done]. rewrite get_drop_string in He. rewrite <- He. f_equal. lia. }
  destruct (HasPrefix (drop_string pos src) "@@") eqn:Hat.
  { pose proof (HasPrefix_length _ _ Hat) as Hb. rewrite drop_string_length in Hb. cbn in Hb.
    apply Hnext; [lia| |by apply tiles_one, tile_at]. right. exists "@"%char. split; [|done].
    apply (HasPrefix_get _ _ 1 "@"%char) in Hat; [|done]. rewrite get_drop_string in Hat. rewrite <- Hat. f_equal. lia. }
  destruct (HasPrefix (drop_string pos src) "{{") eqn:Haction.
  { destruct (parseAction p src pos) as [[item e]|] eqn:Hact; [|eexists; by split].
    destruct (action_answers _ _ _ Haction Hact) as (? & ? & ?). apply Hnext; [lia|done|]. by apply tiles_one. }
  destruct (HasPrefix (drop_string pos src) "@") eqn:Hsign; cbn [negb]; [|done].
  destruct (directiveName src (pos + 1)) as [name e] eqn:Hname.
  destruct (bool_decide (name = EmptyString)) eqn:Hempty; [done|]. apply bool_decide_eq_false in Hempty.
  assert (directive_at pos name e) as Hd by (split_and!; done). pose proof (directive_at_bound _ _ _ Hd) as [_ Hb].
  destruct (bool_decide (name ∈ stops)) eqn:Hstop.
  { destruct (_ && _); [eexists; by split|]. eexists; split; [done|]. intros ns t e0 [= <- <- <-].
    exists pos. split_and!; [done|lia|]. right. apply bool_decide_eq_true in Hstop. done. }
  destruct (_ && _); [done|]. destruct (knownDirective name); cbn [negb]; [|done].
  destruct (directive_answers (fun st q => parseNodes isPrint p src n st q q []) n pos) with (name := name) (e := e)
    as (x & -> & Hx); [|lia|done|].
  { intros st q Hq Hqa. apply IH; [lia|done|lia|constructor|lia]. }
  destruct x as [[item e1]|]; [|eexists; by split]. destruct (Hx _ _ eq_refl) as (? & ? & ?). apply Hnext; [lia|done|]. by apply tiles_one.
Qed.
End Parse.

(** ** Documents *)

(** The nodes of a document are those that were parsed, without the [@props] of a component. *)
Definition from_nodes (ns : list node) (doc : document) : Prop :=
  if component doc
  then exists i pn, ns !! i = Some pn /\ kind_of pn = nodeProps /\ nodes doc = take i ns ++ drop (S i) ns
  else nodes doc = ns.

Lemma organize_spec isPrint d doc : organize isPrint d = Ok doc ->
  path doc = path d /\ d_name doc = d_name d /\ source doc = source d /\ component doc = component d /\ from_nodes (nodes d) doc.
Proof.
  unfold organize, from_nodes. destruct (component d) eqn:Hc.
  - destruct (fst <$> list_find _ (nodes d)) as [i|] eqn:Hf; cbn [mbind option_bind]; [|done].
    destruct (nodes d !! i) as [pn|] eqn:Hn; [|done].
    destruct (bool_decide (kind_of pn = nodeProps)) eqn:Hk; cbn [negb]; [|done]. apply bool_decide_eq_true in Hk.
    unfold rbind. repeat case_match; intros [= <-]; cbn in *; rewrite ?Hc; split_and!; eauto; congruence.
  - unfold rbind. repeat case_match; intros [= <-]; cbn in *; rewrite ?Hc; split_and!; done || congruence.
Qed.

(** C33. The parser always answers: for every file it returns a document or an error, so no
    template can make it loop. *)
Theorem parser_always_answers isPrint filePath name src : exists r, parseDocument isPrint filePath name src = Some r.
Proof.
  unfold parseDocument.
  destruct (parse_answers isPrint filePath src (S (String.length src)) [] 0 0 []) with (a := 0%nat) as (x & -> & _);
    [lia|by left|lia|constructor|lia|]. destruct x as [[[ns t] e]|]; [|by eexists]. case_match; by eexists.
Qed.

(** C15. Nothing of a template is lost.  The nodes of a parsed document tile its file: from the
    first byte to the last, each node is exactly what stands at its span (text as it is,
    [@@] for an at sign, an action up to its closing braces outside quotes, a directive with
    its balanced arguments, a block or conditional with the tiles of its bodies up to the
    directive that ends it), in the order of the file, and only comments have no node. *)
Theorem parse_tiles_the_source isPrint filePath name src doc :
  parseDocument isPrint filePath name src = Some (Ok doc) ->
  path doc = filePath /\ d_name doc = name /\ source doc = src /\
  exists ns, tiles isPrint filePath src 0 ns (String.length src) /\ from_nodes ns doc.
Proof.
  unfold parseDocument.
  destruct (parse_answers isPrint filePath src (S (String.length src)) [] 0 0 []) with (a := 0%nat) as (x & -> & Hx);
    [lia|by left|lia|constructor|lia|]. destruct x as [[[ns t] e]|]; [|done].
  destruct (Hx _ _ _ eq_refl) as (c & Ht & _ & [(-> & _ & -> & ->) | (Hin & _)]); [|by apply elem_of_nil in Hin].
  cbn [negb]. rewrite bool_decide_eq_true_2 by done. intros [= Ho].
  apply organize_spec in Ho as (? & ? & ? & _ & ?). eauto 10.
Qed.

Module Sample.
Definition source : string := "<p>@@{{-- note --}}@if(.A)yes@elseif(.B)no@else{{.C}}@endif</p>".
End Sample.

Lemma parse_tiles_the_source_witness :
  exists doc ns, parseDocument (fun _ => true) "a.forge.html" "a" Sample.source = Some (Ok doc) /\
    length (nodes doc) = 4%nat /\ tiles (fun _ => true) "a.forge.html" Sample.source 0 ns (String.length Sample.source) /\
    nodes doc = ns.
Proof.
  destruct (parseDocument (fun _ => true) "a.forge.html" "a" Sample.source) as [[doc|]|] eqn:Hp;
    [|vm_compute in Hp; discriminate Hp..].
  destruct (parse_tiles_the_source _ _ _ _ _ Hp) as (_ & _ & _ & ns & Ht & Hn).
  exists doc, ns. split; [reflexivity|]. pose proof Hp as Hd. vm_compute in Hd. injection Hd as <-.
  split; [reflexivity|]. split; [exact Ht|exact Hn].
Defined.
