(* ===== verification/ViewMapProps.v ===== *)
(** * Source maps ([view/forge_compile.go], [view/diagnostic.go])

    Every compiled template is a sequence of pieces, each mapped to the place it came from,
    and an offset in the generated text leads back to the file, the line and the column. *)

From S2P Require Import Prelude GoStrings GoUtf8 GoQuote GoUrl PathText GoText ViewSource ViewParse ViewCompile ViewForge ViewParseProps.
Local Open Scope go_scope.
Local Open Scope Z_scope.

(** ** What a directive's arguments leave in its node *)

Section Leaf.
Context (isPrint : Z -> bool) (p src : string).

Definition spanned (e : attributeSpec) : Prop := exists a b, at_span e = span_ p src a b.

Lemma argument_spans_spanned raw base search parts :
  Forall (fun a => exists x y, sa_span a = span_ p src x y) (argument_spans p src raw base search parts).
Proof. revert search; induction parts as [|part parts IH]; intros search; cbn; constructor; cbn; eauto. Qed.

Lemma bag_parts_spanned allow index parts bag bag' :
  Forall (fun a => exists x y, sa_span a = span_ p src x y) parts -> Forall spanned (entries bag) ->
  bag_parts isPrint p src allow index parts bag = Ok bag' -> Forall spanned (entries bag').
Proof.
  revert index bag; induction parts as [|part parts IH]; intros index bag Hp Hb; cbn [bag_parts]; [by intros [= <-]|].
  apply Forall_cons in Hp as [Hpart Hp]. unfold rbind. destruct (bag_part _ _ _ _ _ _ _) as [b|] eqn:He; [|done].
  apply IH; [done|]. unfold bag_part in He.
  repeat (case_match; try done); simplify_eq; cbn; try done; (apply Forall_app; split; [done|]); by repeat constructor.
Qed.

Lemma parseAttributeBag_spanned raw base allow sp bag :
  parseAttributeBag isPrint p src raw base allow sp = Ok bag -> Forall spanned (entries bag).
Proof.
  unfold parseAttributeBag, splitArgumentSpans, rbind. destruct (splitArguments raw); [|done].
  apply bag_parts_spanned; [apply argument_spans_spanned|constructor].
Qed.

(** What [parseLeafArguments] keeps of the node and what it adds. *)
Definition leaf_kept (item f : fields) : Prop :=
  kind f = kind item /\ span f = span item /\ (formSpan f = no_span \/ formSpan f = span item) /\
  (forall bag, attributes f = Some bag -> Forall spanned (entries bag)).

Lemma component_args_kept item parts f f' : component_args isPrint p src item parts f = Ok f' ->
  leaf_kept item f -> leaf_kept item f'.
Proof.
  revert f; induction parts as [|raw parts IH]; intros f; cbn [component_args]; [by intros [= <-]|].
  destruct (attributeGroup raw).
  - destruct parts; [|done]. unfold rbind. destruct (parseComponentAttributeBag _ _ _ _ _) as [bag|] eqn:Hb; [|done].
    intros H (? & ? & ? & ?). apply IH in H; [done|]. split_and!; try done. cbn. intros bag' [= <-].
    unfold parseComponentAttributeBag in Hb. repeat (case_match; try done); by eapply parseAttributeBag_spanned.
  - destruct (splitNamedArgument raw) as [[name value]|]; [|done]. destruct (_ || _); [done|]. destruct (bool_decide _); [done|].
    intros H (? & ? & ? & ?). apply IH in H; [done|]. by split_and!.
Qed.

Lemma prop_args_kept item parts f f' : prop_args isPrint p src item parts f = Ok f' -> leaf_kept item f -> leaf_kept item f'.
Proof.
  revert f; induction parts as [|raw parts IH]; intros f; cbn [prop_args]; [by intros [= <-]|].
  destruct (match splitNamedArgument raw with Some nv => nv | None => _ end) as [name value]. destruct (negb _); [done|].
  intros H (? & ? & ? & ?). apply IH in H; [done|]. by split_and!.
Qed.

Lemma parseFormArgument_span item parts remaining form fs :
  parseFormArgument p src item parts = Ok (remaining, form, fs) -> fs = no_span \/ fs = span item.
Proof. unfold parseFormArgument. repeat case_match; try done; intros [= <- <- <-]; auto. Qed.

Lemma parseLeafArguments_kept item f : formSpan item = no_span -> attributes item = None ->
  parseLeafArguments isPrint p src item = Ok f -> leaf_kept item f.
Proof.
  intros Hfs Hat. assert (leaf_kept item item) as Hitem by (split_and!; [done..|by left|by rewrite Hat]).
  unfold parseLeafArguments. destruct (splitArguments (text item)) as [parts|]; [|done].
  destruct Hitem as (Hk & Hs & Hf & Ha).
  assert (forall g, kind g = kind item -> span g = span item -> formSpan g = no_span \/ formSpan g = span item ->
    attributes g = attributes item -> leaf_kept item g) as Hkept
    by (intros g Hgk Hgs Hg Hga; split_and!; try done; by rewrite Hga).
  unfold rbind. destruct (kind item) eqn:Hkind; try (intros [= <-]; by apply Hkept).
  all: try (destruct (parseFormArgument p src item parts) as [[[remaining form] fs]|] eqn:Hform; [|done];
            apply parseFormArgument_span in Hform; repeat (case_match; try done); intros [= <-]; by apply Hkept).
  all: try (repeat (case_match; try done); intros [= <-]; by apply Hkept).
  - intros Hp. eapply prop_args_kept; [exact Hp|by apply Hkept].
  - destruct parts as [|part rest]; [done|]. destruct (component_args _ _ _ _ _ _) as [g|] eqn:Hc; [|done].
    destruct (quoted _ _ _ _ _ _) as [n|]; [|done]. intros [= <-].
    apply component_args_kept in Hc as (? & ? & ? & ?); [|by apply Hkept]. by split_and!.
  - destruct (parseAttributeBag _ _ _ _ _ _ _) as [bag|] eqn:Hb; [|done]. intros [= <-]. split_and!; try done.
    cbn. intros bag' [= <-]. by eapply parseAttributeBag_spanned.
Qed.
End Leaf.

(** ** Rune boundaries and positions *)

(** Decoding [s] from its start reaches the offset. *)
Inductive boundary : string -> nat -> Prop :=
| boundary_0 s : boundary s 0
| boundary_rune s r w n : s <> EmptyString -> DecodeRune s = (r, w) -> boundary (drop_string w s) n -> boundary s (w + n).

Lemma decode_size s r w : DecodeRune s = (r, w) -> s <> EmptyString -> (0 < w <= String.length s)%nat.
Proof. destruct s as [|a s]; [done|]. intros Hd _. apply DecodeRune_decoded in Hd. inversion Hd; subst; cbn in *; lia. Qed.

Lemma decode_ascii a s : inb 0 127 a = true -> DecodeRune (String a s) = (ord a, 1%nat).
Proof. intros H. unfold DecodeRune. by rewrite H. Qed.

(** The bytes of a rune after its first are not ASCII. *)
Lemma decode_conts s r w k c : DecodeRune s = (r, w) -> (0 < k < w)%nat -> String.get k s = Some c -> inb 0 127 c = false.
Proof.
  assert (forall x, cont x = true -> inb 0 127 x = false) as Hcont.
  { intros x Hx. unfold cont in Hx. apply inb_iff in Hx. destruct (inb 0 127 x) eqn:E; [|done]. apply inb_iff in E. cbn in *. lia. }
  assert (forall x y, second_of_3 x y = true -> inb 0 127 y = false) as H3.
  { intros x y H. apply second_of_3_iff in H. destruct (inb 0 127 y) eqn:E; [|done]. apply inb_iff in E. cbn in E. lia. }
  assert (forall x y, second_of_4 x y = true -> inb 0 127 y = false) as H4.
  { intros x y H. apply second_of_4_iff in H. destruct (inb 0 127 y) eqn:E; [|done]. apply inb_iff in E. cbn in E. lia. }
  destruct s as [|a s]; [intros [= <- <-]; lia|]. unfold DecodeRune. destruct (inb 0 127 a) eqn:H1; [intros [= <- <-]; lia|].
  destruct s as [|b s]; [intros [= <- <-]; lia|]. destruct (inb 194 223 a && cont b) eqn:E2.
  { apply andb_true_iff in E2 as [_ Eb]. intros [= <- <-] Hk. destruct k as [|[|k]]; try lia. intros [= <-]. by apply Hcont. }
  destruct s as [|x s]; [intros [= <- <-]; lia|]. destruct (second_of_3 a b && cont x) eqn:E3.
  { apply andb_true_iff in E3 as [Eb Ex]. intros [= <- <-] Hk. destruct k as [|[|[|k]]]; try lia; intros [= <-]; [by eapply H3|by apply Hcont]. }
  destruct s as [|d s]; [intros [= <- <-]; lia|]. destruct (second_of_4 a b && cont x && cont d) eqn:E4; [|intros [= <- <-]; lia].
  apply andb_true_iff in E4 as [E4 Ed]. apply andb_true_iff in E4 as [Eb Ex]. intros [= <- <-] Hk.
  destruct k as [|[|[|[|k]]]]; try lia; intros [= <-]; [by eapply H4|by apply Hcont..].
Qed.

Lemma decode_bad a s r : inb 0 127 a = false -> DecodeRune (String a s) = (r, 1%nat) -> r = RuneError.
Proof. intros Ha. unfold DecodeRune. rewrite Ha. repeat case_match; congruence. Qed.

Lemma after_ascii_boundary n s : (n <= String.length s)%nat -> after_ascii s n -> boundary s n.
Proof.
  revert s; induction n as [n IH] using lt_wf_ind; intros s Hn [-> | (c & Hc & Hasc)]; [constructor|].
  destruct n as [|n]; [constructor|]. destruct s as [|a s]; [cbn in Hn; lia|].
  destruct (DecodeRune (String a s)) as [r w] eqn:Hd. pose proof (decode_size _ _ _ Hd ltac:(done)) as Hw.
  assert (w <= S n)%nat as Hle.
  { destruct (decide (w <= S n)%nat) as [|Hgt]; [done|exfalso]. replace (S n - 1)%nat with n in Hc by lia. destruct n as [|n].
    - cbn in Hc. injection Hc as ->. rewrite decode_ascii in Hd by done. injection Hd as <- <-. lia.
    - pose proof (decode_conts _ _ _ (S n) c Hd ltac:(lia) Hc). congruence. }
  replace (S n) with (w + (S n - w))%nat by lia. eapply boundary_rune; [done|exact Hd|].
  apply IH; [lia|rewrite drop_string_length; lia|]. destruct (decide (S n - w = 0)%nat) as [|Hne]; [by left|right].
  exists c. split; [|done]. rewrite get_drop_string. rewrite <- Hc. f_equal. lia.
Qed.

Lemma at_ascii_boundary n s c : String.get n s = Some c -> inb 0 127 c = true -> boundary s n.
Proof.
  revert s; induction n as [n IH] using lt_wf_ind; intros s Hc Hasc. destruct n as [|n]; [constructor|].
  destruct s as [|a s]; [done|]. destruct (DecodeRune (String a s)) as [r w] eqn:Hd.
  pose proof (decode_size _ _ _ Hd ltac:(done)) as Hw. assert (w <= S n)%nat as Hle.
  { destruct (decide (w <= S n)%nat) as [|Hgt]; [done|]. pose proof (decode_conts _ _ _ (S n) c Hd ltac:(lia) Hc). congruence. }
  replace (S n) with (w + (S n - w))%nat by lia. eapply boundary_rune; [done|exact Hd|].
  apply IH; [lia| |done]. rewrite get_drop_string. rewrite <- Hc. f_equal. lia.
Qed.

Lemma boundary_drop s n m : boundary s n -> boundary s (n + m) -> boundary (drop_string n s) m.
Proof.
  intros H; revert m; induction H as [s|s r w n Hne Hd H IH]; intros m Hm; [done|].
  rewrite <- drop_drop. apply IH. inversion Hm as [|? r' w' n' _ Hd' H']; subst.
  - pose proof (decode_size _ _ _ Hd Hne). lia.
  - rewrite Hd in Hd'. injection Hd' as <- <-. by replace (n + m)%nat with n' by lia.
Qed.

(** The position loop with any sufficient fuel, one rune at a time. *)
Lemma position_loop_fuel f g s left l c : (left <= f)%nat -> (left <= g)%nat -> (left <= String.length s)%nat ->
  position_loop f s left l c = position_loop g s left l c.
Proof.
  revert g s left l c; induction f as [|f IH]; intros g s left l c Hf Hg Hl; destruct left as [|left]; try lia;
    destruct g as [|g]; try lia; try done. cbn [position_loop].
  destruct (DecodeRune s) as [r w] eqn:Hd. destruct s as [|a s]; [cbn in Hl; lia|].
  pose proof (decode_size _ _ _ Hd ltac:(done)) as Hw. destruct (S left <? w)%nat eqn:Hlt; [done|]. apply Nat.ltb_ge in Hlt.
  destruct (r =? ord newline); apply IH; try rewrite drop_string_length; lia.
Qed.

Definition next_position (r line column : Z) : Z * Z := if r =? ord newline then (line + 1, 1) else (line, column + 1).

Lemma position_loop_step s r w left l c : s <> EmptyString -> DecodeRune s = (r, w) -> (w + left <= String.length s)%nat ->
  position_loop (w + left) s (w + left) l c =
  position_loop left (drop_string w s) left (next_position r l c).1 (next_position r l c).2.
Proof.
  intros Hne Hd Hl. pose proof (decode_size _ _ _ Hd Hne) as Hw. destruct w as [|w]; [lia|]. cbn [Nat.add position_loop].
  rewrite Hd. replace (S (w + left) <? S w)%nat with false by (symmetry; apply Nat.ltb_ge; lia).
  replace (S (w + left) - S w)%nat with left by lia. unfold next_position.
  destruct (r =? ord newline); cbn [fst snd]; apply position_loop_fuel; rewrite ?drop_string_length; lia.
Qed.

Lemma position_split s a d l c : boundary s a -> (a + d <= String.length s)%nat ->
  position_loop (a + d) s (a + d) l c =
  position_loop d (drop_string a s) d (position_loop a s a l c).1 (position_loop a s a l c).2.
Proof.
  intros H; revert l c; induction H as [s|s r w n Hne Hd H IH]; intros l c Hl; [done|].
  pose proof (decode_size _ _ _ Hd Hne) as Hw. replace (w + n + d)%nat with (w + (n + d))%nat in * by lia.
  rewrite !(position_loop_step s r w) by (done || lia). rewrite IH by (rewrite drop_string_length; lia).
  by rewrite drop_drop.
Qed.

Lemma take_take n d s : (n <= d)%nat -> take_string n (take_string d s) = take_string n s.
Proof.
  revert d s; induction n as [|n IH]; intros d s Hn; [done|]. destruct d as [|d]; [lia|]. destruct s as [|c s]; [done|].
  cbn [take_string]. f_equal. apply IH. lia.
Qed.
Lemma take_split n d s : (n <= d)%nat -> take_string d s = take_string n s +:+ take_string (d - n) (drop_string n s).
Proof.
  revert d s; induction n as [|n IH]; intros d s Hn; [by replace (d - 0)%nat with d by lia|]. destruct d as [|d]; [lia|].
  destruct s as [|a s]; [by destruct (S d - S n)%nat|]. cbn [take_string drop_string Nat.sub]. rewrite string_app_cons.
  f_equal. apply IH. lia.
Qed.

Lemma decode_take s r w d : DecodeRune s = (r, w) -> s <> EmptyString -> (w <= d)%nat -> DecodeRune (take_string d s) = (r, w).
Proof.
  intros Hd Hne Hle. pose proof (decode_size _ _ _ Hd Hne) as Hw.
  destruct (decide (1 < w)%nat) as [Hgt | Hone]; [rewrite (take_split w) by done; by apply decode_prefix|].
  assert (w = 1%nat) as -> by lia. destruct s as [|a s]; [done|]. destruct d as [|d]; [lia|]. cbn [take_string].
  destruct (inb 0 127 a) eqn:Ha; [rewrite decode_ascii in Hd |- * by done; done|].
  apply decode_bad in Hd as Hr; [|done]. subst r.
  destruct (DecodeRune (String a (take_string d s))) as [r' w'] eqn:Hd'.
  pose proof (decode_size _ _ _ Hd' ltac:(done)) as Hw'. destruct (decide (w' = 1%nat)) as [-> | Hne'].
  { by rewrite (decode_bad _ _ _ Ha Hd'). }
  exfalso. apply (decode_prefix _ _ _ (drop_string w' (String a s))) in Hd'; [|lia].
  change (String a (take_string d s)) with (take_string (S d) (String a s)) in *. rewrite take_string_length in Hw'.
  rewrite take_take, <- take_drop, Hd in Hd' by lia. congruence.
Qed.

(** Inside a literal piece the loop of [adjustMapping] counts as [sourcePosition] does. *)
Lemma advance_position_loop s d l c n : boundary s d -> (d <= String.length s)%nat -> (d <= n)%nat ->
  advance_position n (take_string d s) l c = position_loop d s d l c.
Proof.
  intros H; revert l c n; induction H as [s|s r w d Hne Hd H IH]; intros l c n Hl Hn.
  { destruct n; [done|]. by destruct s. }
  pose proof (decode_size _ _ _ Hd Hne) as Hw. rewrite (position_loop_step s r w) by done.
  destruct n as [|n]; [lia|]. destruct s as [|a s]; [done|]. destruct w as [|w]; [lia|].
  change (take_string (S w + d) (String a s)) with (String a (take_string (w + d) s)). cbn [advance_position].
  change (String a (take_string (w + d) s)) with (take_string (S w + d) (String a s)).
  rewrite (decode_take _ r (S w)) by (done || lia).
  assert (drop_string (S w) (take_string (S w + d) (String a s)) = take_string d (drop_string (S w) (String a s))) as ->.
  { rewrite (take_split (S w)) by lia. replace (S w + d - S w)%nat with d by lia. apply drop_take_app. lia. }
  unfold next_position. destruct (r =? ord newline); apply IH; rewrite ?drop_string_length; lia.
Qed.
