(* ===== verification/ViewCompileProps.v ===== *)
(** * What the compiled templates guarantee ([view/forge_compile.go], [view/forge.go],
      [view/diagnostic.go])

    The compiler's computations keep an invariant: every node they meet, in the documents and
    in the shared branches, is placed where it was parsed, and the builder's text is a
    sequence of pieces, each with its mapping.  From it, an offset of the generated text
    leads back to the source. *)

From S2P Require Import Prelude GoStrings GoUtf8 GoQuote GoUrl PathText GoText ViewSource ViewParse ViewCompile ViewForge ViewParseProps ViewMapProps.
Local Open Scope go_scope.
Local Open Scope Z_scope.

Scheme tiles_mind := Minimality for tiles Sort Prop
with tile_mind := Minimality for tile Sort Prop
with elseifs_mind := Minimality for elseifs Sort Prop
with alternates_mind := Minimality for alternates Sort Prop.
Combined Scheme tiles_mutind from tiles_mind, tile_mind, elseifs_mind, alternates_mind.

(** ** Text that is generated for a directive

    [generated p src o t]: the directive that was parsed at offset [o] of the file [p] with
    text [src] makes the compiler write [t].  Names of variables and the scope they are
    rewritten in are open; the rest is the directive's. *)

Section Generated.
Context (isPrint : Z -> bool) (p src : string).

(** The fields of a node that was parsed at [o], perhaps with a context of the compiler's. *)
Definition parsed_at (f : fields) (o : nat) : Prop :=
  exists n b ctx, tile isPrint p src n o b /\ f = set_context ctx (fields_of n).
(** An [@elseif] of a node that was parsed. *)
Definition branch_in (b : branch node) : Prop :=
  exists n a e, tile isPrint p src n a e /\ b ∈ branches n.
(** An entry of the attributes of a node that was parsed. *)
Definition entry_in (e : attributeSpec) : Prop :=
  exists f a bag, parsed_at f a /\ attributes f = Some bag /\ e ∈ entries bag.

Definition conditional (k : nodeKind) : Prop := k = nodeIf \/ k = nodeFor \/ k = nodeWith.

Inductive generated : nat -> string -> Prop :=
| gen_text f o : parsed_at f o -> kind f = nodeText -> generated o (text f)
| gen_action f o bs : parsed_at f o -> kind f = nodeAction -> generated o (rewriteVariables (text f) bs)
| gen_include f o bs : parsed_at f o -> kind f = nodeInclude ->
    generated o ("{{template " +:+ Quote isPrint (normalizeReference (name f)) +:+ " " +:+ rewriteVariables (text f) bs +:+ "}}")
| gen_component f o : parsed_at f o -> kind f = nodeComponent -> generated o "{{if true}}"
| gen_prop f o var value : parsed_at f o -> kind f = nodeComponent -> generated o ("{{" +:+ var +:+ " := " +:+ value +:+ "}}")
| gen_open f o bs : parsed_at f o -> conditional (kind f) ->
    generated o ("{{" +:+ keyword (kind f) +:+ " " +:+ rewriteVariables (text f) bs +:+ "}}")
| gen_elseif b bs : branch_in b -> generated (sp_start (b_span b)) ("{{else if " +:+ rewriteVariables (pipeline b) bs +:+ "}}")
| gen_else f o : parsed_at f o -> conditional (kind f) -> generated o "{{else}}"
| gen_end f o : parsed_at f o -> conditional (kind f) \/ kind f = nodeErrors \/ kind f = nodeComponent -> generated o "{{end}}"
| gen_csrf f o form : parsed_at f o -> kind f = nodeCSRF ->
    generated o ("<input type=" +:+ dq +:+ "hidden" +:+ dq +:+ " name=" +:+ dq +:+ "_token" +:+ dq +:+ " value=" +:+ dq +:+ "{{" +:+
                 form +:+ ".CSRFToken}}" +:+ dq +:+ ">")
| gen_method f o : parsed_at f o -> kind f = nodeMethod ->
    generated o ("<input type=" +:+ dq +:+ "hidden" +:+ dq +:+ " name=" +:+ dq +:+ "_method" +:+ dq +:+ " value=" +:+ dq +:+
                 htmlAttribute (name f) +:+ dq +:+ ">")
| gen_old f o form rest : parsed_at f o -> kind f = nodeOld ->
    generated o (("{{" +:+ form +:+ ".Old " +:+ Quote isPrint (name f)) +:+ rest)
| gen_errors f o form : parsed_at f o -> kind f = nodeErrors ->
    generated o ("{{range " +:+ form +:+ ".Errors " +:+ Quote isPrint (name f) +:+ "}}")
| gen_form f o var bs : parsed_at f o -> form f <> EmptyString ->
    generated o ("{{" +:+ var +:+ " := " +:+ rewriteVariables (form f) bs +:+ "}}")
| gen_attribute e var bs : entry_in e ->
    generated (sp_start (at_span e)) ("{{" +:+ var +:+ " := " +:+ rewriteVariables (at_value e) bs +:+ "}}")
| gen_class e written part : entry_in e -> generated (sp_start (at_span e)) (class_part written part)
| gen_attributes f o t : parsed_at f o -> kind f = nodeAttributes -> generated o t.

Lemma parsed_at_context f o ctx : parsed_at f o -> parsed_at (set_context ctx f) o.
Proof. intros (n & b & ctx0 & Hn & ->). by exists n, b, ctx. Qed.

(** A node starts where it was parsed. *)
Lemma parse_leaf_span k a e f b : parse_leaf isPrint p src k a e = Ok (f, b) -> sp_path (span f) = p /\ sp_start (span f) = a.
Proof.
  unfold parse_leaf, rbind. destruct (arguments p src e true) as [[raw m]|]; [|done].
  destruct (parseLeafArguments _ _ _ _) as [g|] eqn:Hg; [|done]. intros [= <- <-].
  apply parseLeafArguments_kept in Hg as (_ & -> & _); [|done..]. cbn. unfold span_. by destruct (sourcePosition src a).
Qed.
Lemma tile_start n a b : tile isPrint p src n a b -> sp_path (span (fields_of n)) = p /\ sp_start (span (fields_of n)) = a.
Proof.
  intros [ | | |? ? ? ? ? ? _ _ Hl| |? ? ? ? ? ? ? ? ? ? _ _ Hl| ]; cbn; try (unfold span_; by destruct (sourcePosition src _));
    by apply parse_leaf_span in Hl.
Qed.
End Generated.

(** ** Well-placed nodes *)

Section Placed.
Context (docs : gmap string document) (isPrint : Z -> bool).

(** The document a span belongs to. *)
Definition doc_at (path_ : string) (doc : document) : Prop :=
  docs !! templateName path_ = Some doc /\ path doc = path_.

Definition placed (s : sourceSpan) : Prop :=
  exists doc, doc_at (sp_path s) doc /\ (sp_line s, sp_column s) = sourcePosition (source doc) (sp_start s).

(** The node's text is what stands at its span. *)
Definition literal (f : fields) : Prop :=
  exists doc, doc_at (sp_path (span f)) doc /\ text f = slice (sp_start (span f)) (sp_end (span f)) (source doc) /\
    (sp_start (span f) <= sp_end (span f) <= String.length (source doc))%nat /\ boundary (source doc) (sp_start (span f)).

Record ok_fields (f : fields) : Prop := {
  ok_span : placed (span f);
  ok_form : sp_path (formSpan f) = EmptyString \/
    sp_path (formSpan f) = sp_path (span f) /\ sp_start (formSpan f) = sp_start (span f) /\
    sp_line (formSpan f) = sp_line (span f) /\ sp_column (formSpan f) = sp_column (span f);
  ok_bag : forall bag, attributes f = Some bag ->
    Forall (fun e => placed (at_span e) /\ sp_path (at_span e) = sp_path (span f)) (entries bag);
  ok_text : kind f = nodeAction \/ (kind f = nodeText /\ String.length (text f) = (sp_end (span f) - sp_start (span f))%nat) ->
    literal f
}.

(** Where nodes, branches and entries come from. *)
Definition from_source (f : fields) : Prop :=
  forall doc, doc_at (sp_path (span f)) doc -> parsed_at isPrint (sp_path (span f)) (source doc) f (sp_start (span f)).
Definition branch_from_source (b : branch node) : Prop :=
  forall doc, doc_at (sp_path (b_span b)) doc -> branch_in isPrint (sp_path (b_span b)) (source doc) b.
Definition at_entry (s : sourceSpan) : Prop :=
  forall doc, doc_at (sp_path s) doc -> exists e, entry_in isPrint (sp_path s) (source doc) e /\ sp_start s = sp_start (at_span e).
Definition emits (s : sourceSpan) (t : string) : Prop :=
  forall doc, doc_at (sp_path s) doc -> generated isPrint (sp_path s) (source doc) (sp_start s) t.

Inductive ok_node : node -> Prop :=
| ok_Node f ns bs alt : ok_fields f -> from_source f -> Forall ok_node ns ->
    Forall (fun b => (placed (b_span b) /\ branch_from_source b) /\ Forall ok_node (b_nodes b)) bs -> Forall ok_node alt ->
    ok_node (Node f ns bs alt).

Lemma doc_at_unique p d d' : doc_at p d -> doc_at p d' -> d = d'.
Proof. intros [H1 _] [H2 _]. congruence. Qed.
Lemma entry_from_source f bag e : from_source f -> ok_fields f -> attributes f = Some bag -> e ∈ entries bag -> at_entry (at_span e).
Proof.
  intros Hf Hok Hb He doc Hd. pose proof (ok_bag _ Hok _ Hb) as Hbag. rewrite Forall_forall in Hbag. destruct (Hbag e He) as [_ Hp].
  rewrite Hp in Hd |- *. exists e. split; [|done]. exists f, (sp_start (span f)), bag. split_and!; [by apply Hf|done|done].
Qed.

(** Parsed nodes are well placed. *)
Section Parsed.
Context (p src : string) (doc : document).
Context (Hdoc : doc_at p doc) (Hsrc : source doc = src).

Lemma span_placed a b : placed (span_ p src a b).
Proof.
  exists doc. unfold span_. destruct (sourcePosition src a) as [l c] eqn:Hpos. cbn. by rewrite Hsrc.
Qed.

Lemma tile_from_source n a b : tile isPrint p src n a b -> from_source (fields_of n).
Proof.
  intros Ht. destruct (tile_start _ _ _ _ _ _ Ht) as [Hp Ha]. intros d Hd. rewrite Hp in Hd |- *.
  rewrite (doc_at_unique _ _ _ Hd Hdoc), Hsrc, Ha. exists n, b, (context (fields_of n)). split; [done|].
  by destruct (fields_of n).
Qed.

Lemma set_end_placed f e : placed (span f) -> placed (span (set_end e f)).
Proof. done. Qed.

Lemma new_fields_ok k a b t : k <> nodeText -> k <> nodeAction -> ok_fields (new_fields k (span_ p src a b) t).
Proof. intros. split; cbn; [apply span_placed|by left|done|naive_solver]. Qed.

Lemma leaf_fields_ok k a e f b : (k <> nodeText /\ k <> nodeAction) ->
  parse_leaf isPrint p src k a e = Ok (f, b) -> ok_fields f /\ kind f = k.
Proof.
  intros Hk. unfold parse_leaf, rbind. destruct (arguments p src e true) as [[raw m]|]; [|done].
  destruct (parseLeafArguments _ _ _ _) as [g|] eqn:Hg; [|done]. intros [= <- <-].
  apply parseLeafArguments_kept in Hg as (Hkind & Hspan & Hform & Hat); [|done..]. cbn in *.
  split; [|done]. split.
  - rewrite Hspan. apply span_placed.
  - destruct Hform as [-> | ->]; [by left|right; by rewrite Hspan].
  - intros bag Hb. eapply Forall_impl; [by apply Hat|]. intros x (u & v & ->). split; [apply span_placed|].
    rewrite Hspan. unfold span_. by destruct (sourcePosition src u), (sourcePosition src a).
  - rewrite Hkind. naive_solver.
Qed.

Lemma set_end_ok f e : ok_fields f -> kind f <> nodeText -> kind f <> nodeAction -> ok_fields (set_end e f).
Proof. intros [? ? ? ?] ? ?. split; cbn; [by apply set_end_placed|done|done|naive_solver]. Qed.

Lemma leaf_kind_plain name k : leaf_kind name = Some k -> k <> nodeText /\ k <> nodeAction.
Proof. unfold leaf_kind. repeat case_match; intros; simplify_eq; done. Qed.
Lemma block_kind_plain name k e : block_kind name = Some (k, e) -> k <> nodeText /\ k <> nodeAction.
Proof. unfold block_kind. repeat case_match; intros; simplify_eq; done. Qed.
Lemma cond_kind_plain name k e : cond_kind name = Some (k, e) -> k <> nodeText /\ k <> nodeAction.
Proof. unfold cond_kind. repeat case_match; intros; simplify_eq; done. Qed.

Lemma literal_leaf k a b : (a <= b <= String.length src)%nat -> boundary src a -> ok_fields (new_fields k (span_ p src a b) (slice a b src)).
Proof.
  intros Hab Hbd. constructor; cbn; [apply span_placed|by left|done|]. intros _. exists doc. cbn.
  unfold span_. destruct (sourcePosition src a); cbn. by rewrite Hsrc.
Qed.

Lemma ok_leaf f a b : tile isPrint p src (leaf f) a b -> ok_fields f -> ok_node (leaf f).
Proof. intros Ht Hf. constructor; [done|by apply (tile_from_source (leaf f) a b)|constructor..]. Qed.

Lemma branches_from_source n a e : tile isPrint p src n a e -> Forall (fun b => sp_path (b_span b) = p) (branches n) ->
  Forall branch_from_source (branches n).
Proof.
  intros Ht. rewrite !Forall_forall. intros Hp b Hb d Hd. rewrite (Hp b Hb) in Hd |- *.
  rewrite (doc_at_unique _ _ _ Hd Hdoc), Hsrc. by exists n, a, e.
Qed.

Lemma parsed_ok : (forall a ns b, tiles isPrint p src a ns b -> Forall ok_node ns) /\
  (forall n a b, tile isPrint p src n a b -> tile isPrint p src n a b -> ok_node n) /\
  (forall a bs b, elseifs isPrint p src a bs b ->
     Forall (fun b => (placed (b_span b) /\ sp_path (b_span b) = p) /\ Forall ok_node (b_nodes b)) bs) /\
  (forall a ns b, alternates isPrint p src a ns b -> Forall ok_node ns).
Proof.
  apply tiles_mutind.
  - constructor.
  - done.
  - intros a n b ns c Ht Hn _ Hns. constructor; auto.
  - intros a b Hab Ha Ht. eapply ok_leaf; [exact Ht|]. apply literal_leaf; [lia|]. apply after_ascii_boundary; [lia|done].
  - intros a Hp Ht. eapply ok_leaf; [exact Ht|]. constructor; cbn; [apply span_placed|by left|done|]. unfold span_.
    destruct (sourcePosition src a); cbn. intros [? | [_ ?]]; [done|lia].
  - intros a b Hp Hs Ht. eapply ok_leaf; [exact Ht|]. unfold scanGoAction in Hs. destruct (scan_action _ _ _) as [g|] eqn:Hg; [|done].
    injection Hs as ->. apply scan_action_bound in Hg. rewrite drop_string_length in Hg. apply literal_leaf; [lia|].
    apply (HasPrefix_get _ _ 0 "{"%char) in Hp; [|done]. rewrite get_drop_string, Nat.add_0_r in Hp. by eapply at_ascii_boundary.
  - intros name k a e f b _ Hk Hl Ht. eapply ok_leaf; [exact Ht|]. apply leaf_fields_ok in Hl as [Hf _]; [done|].
    destruct Hk as [Hk | [_ ->]]; [by eapply leaf_kind_plain|done].
  - intros a e _ Ht. eapply ok_leaf; [exact Ht|]. by apply (new_fields_ok nodeCSRF).
  - intros name k endName a e f m ns c b _ Hk Hl _ Hns _ Ht. pose proof (block_kind_plain _ _ _ Hk) as [? ?].
    apply leaf_fields_ok in Hl as [Hf Hkind]; [|done]. constructor; [|exact (tile_from_source _ _ _ Ht)|done|constructor..].
    apply set_end_ok; [done|by rewrite Hkind..].
  - intros name k endName a e raw m ns c1 bs c2 alt c3 b _ Hk _ _ _ Hns _ Hbs _ Halt _ Ht.
    pose proof (cond_kind_plain _ _ _ Hk) as [? ?].
    constructor; [|exact (tile_from_source _ _ _ Ht)|done| |done]; [apply set_end_ok; [|done..]; by apply new_fields_ok|].
    apply branches_from_source in Ht; [|eapply Forall_impl; [exact Hbs|]; by intros x [[_ ?] _]].
    cbn [branches] in Ht. rewrite Forall_forall in Ht, Hbs |- *. intros x Hx. destruct (Hbs x Hx) as [[? _] ?]. auto.
  - constructor.
  - intros a d raw m ns c bs b _ _ _ _ Hns _ Hbs. constructor; [|done]. split; [|done]. split; [apply span_placed|].
    cbn. unfold span_. by destruct (sourcePosition src a).
  - constructor.
  - done.
Qed.
End Parsed.

(** ** The invariant of the compiler *)

(** The mapping leads to a place of a document; the piece of a mapping that is not synthetic
    is the text there, and that of a synthetic one is generated for the directive there. *)
Definition points (m : SourceMapping) (t : string) : Prop :=
  exists doc, doc_at (Path m) doc /\ 0 <= SourceStart m /\
    (Line m, Column m) = sourcePosition (source doc) (Z.to_nat (SourceStart m)) /\
    (Synthetic m = false ->
      t = slice (Z.to_nat (SourceStart m)) (Z.to_nat (SourceStart m) + String.length t) (source doc) /\
      (Z.to_nat (SourceStart m) + String.length t <= String.length (source doc))%nat /\
      boundary (source doc) (Z.to_nat (SourceStart m))) /\
    (Synthetic m = true -> generated isPrint (Path m) (source doc) (Z.to_nat (SourceStart m)) t).

(** The text is the pieces of its mappings, in order and without gaps. *)
Inductive built : string -> list SourceMapping -> Prop :=
| built_nil : built EmptyString []
| built_snoc text ms t m : built text ms -> t <> EmptyString -> Start m = byte_len text ->
    End_ m = Start m + byte_len t -> points m t -> built (text +:+ t) (ms ++ [m]).

Definition Inv (s : cstate) : Prop :=
  (forall c ns, heap s !! c = Some ns -> Forall ok_node ns) /\ built (b_text s) (b_mappings s).

(** A computation keeps the invariant and its value satisfies [P]. *)
Definition safe {A} (P : A -> Prop) (m : C A) : Prop :=
  forall s, Inv s -> match m s with
    | None => True
    | Some (r, s') => Inv s' /\ match r with Ok a => P a | Err _ => True end
    end.

Lemma safe_ret {A} (P : A -> Prop) a : P a -> safe P (cret a).
Proof. intros H s Hs. done. Qed.
Lemma safe_throw {A} (P : A -> Prop) e : safe P (cthrow e).
Proof. intros s Hs. done. Qed.
Lemma safe_exhausted {A} (P : A -> Prop) : safe P exhausted.
Proof. done. Qed.
Lemma safe_bind {A B} (P : A -> Prop) (Q : B -> Prop) m k :
  safe P m -> (forall a, P a -> safe Q (k a)) -> safe Q (cbind m k).
Proof.
  intros Hm Hk s Hs. unfold cbind. specialize (Hm s Hs). destruct (m s) as [[[a|e] s']|]; [|done..].
  destruct Hm. by apply Hk.
Qed.
Lemma safe_mapM {A B} (P : A -> Prop) (Q : B -> Prop) f l :
  Forall P l -> (forall x, P x -> safe Q (f x)) -> safe (Forall Q) (cmapM f l).
Proof.
  intros Hl Hf. induction Hl as [|x l Hx Hl IH]; [by apply safe_ret|].
  eapply safe_bind; [by apply Hf|]. intros y Hy. eapply safe_bind; [exact IH|]. intros ys Hys. apply safe_ret. by constructor.
Qed.
Lemma safe_fold {A S} (P : A -> Prop) (Q : S -> Prop) f l s :
  Forall P l -> Q s -> (forall x s, P x -> Q s -> safe Q (f x s)) -> safe Q (cfold f l s).
Proof.
  intros Hl; revert s; induction Hl as [|x l Hx Hl IH]; intros s Hs Hf; [by apply safe_ret|].
  eapply safe_bind; [by apply Hf|]. intros s' Hs'. by apply IH.
Qed.
Lemma safe_each {A} (P : A -> Prop) f l : Forall P l -> (forall x, P x -> safe (fun _ => True) (f x)) ->
  safe (fun _ => True) (each f l).
Proof. intros Hl Hf. eapply safe_fold; [exact Hl|done|]. intros x _ Hx _. by apply Hf. Qed.
Lemma safe_lift {A} (P : A -> Prop) (r : result A) : (forall a, r = Ok a -> P a) -> safe P (lift r).
Proof. intros H. destruct r; [by apply safe_ret, H|apply safe_throw]. Qed.
Lemma safe_weaken {A} (P Q : A -> Prop) m : safe P m -> (forall a, P a -> Q a) -> safe Q m.
Proof. intros Hm H s Hs. specialize (Hm s Hs). destruct (m s) as [[[a|e] s']|]; naive_solver. Qed.

Definition ok_branch (b : branch node) : Prop :=
  (placed (b_span b) /\ branch_from_source b) /\ Forall ok_node (b_nodes b).

Lemma safe_read b : ok_branch b -> safe (Forall ok_node) (read_branch b).
Proof.
  intros [_ Hb] s [Hh Ht]. split; [done|]. unfold contents. destruct (heap s !! cell_of b) as [ns|] eqn:Hc; [|done]. by eapply Hh.
Qed.
Lemma safe_write b ns : Forall ok_node ns -> safe (fun _ => True) (write_branch b ns).
Proof.
  intros Hns s [Hh Ht]. split; [|done]. split; [|done]. cbn. intros c ms [[_ <-] | [_ Hm]]%lookup_insert_Some; [done|by eapply Hh].
Qed.
Lemma safe_sequence : safe (fun _ => True) next_sequence.
Proof. intros s [Hh Ht]. done. Qed.

Lemma safe_append t s ctx : placed s -> emits s t -> safe (fun _ => True) (append_ t s ctx).
Proof.
  intros (doc & Hd & Hp) Hem st [Hh Ht]. unfold append_, appendMapping. destruct (bool_decide (t = EmptyString)) eqn:He; [done|].
  split; [|done]. split; [done|]. cbn. apply bool_decide_eq_false in He. eapply built_snoc; [done..|].
  exists doc. cbn. rewrite Nat2Z.id. split_and!; try done; [lia|]. intros _. by apply Hem.
Qed.

Lemma slice_length a b s : (a <= b <= String.length s)%nat -> String.length (slice a b s) = (b - a)%nat.
Proof. intros. unfold slice. rewrite take_string_length, drop_string_length. lia. Qed.

Lemma safe_literal f ctx : ok_fields f -> literal f -> safe (fun _ => True) (appendLiteral (text f) (span f) ctx).
Proof.
  intros Hf (doc & Hd & Htext & Hb & Hbd) st [Hh Ht]. unfold appendLiteral, appendMapping.
  destruct (bool_decide (text f = EmptyString)) eqn:He; [done|]. split; [|done]. split; [done|]. cbn.
  apply bool_decide_eq_false in He. eapply built_snoc; [done..|]. destruct Hf as [(doc' & Hd' & Hpos) _ _ _].
  assert (doc' = doc) as -> by (destruct Hd, Hd'; congruence). exists doc. cbn. rewrite Nat2Z.id. split_and!; try done; [lia|].
  intros _. rewrite Htext at 2 3. rewrite slice_length by lia.
  replace (sp_start (span f) + (sp_end (span f) - sp_start (span f)))%nat with (sp_end (span f)) by lia. split_and!; [done|lia|done].
Qed.

(** ** The compiler keeps it *)

Section Compile.
Definition ok_doc (doc : document) : Prop :=
  Forall ok_node (nodes doc) /\ Forall ok_node (extra doc) /\ map_Forall (fun _ ns => Forall ok_node ns) (sections doc).
Context (Hdocs : forall name doc, docs !! name = Some doc -> ok_doc doc).

Lemma set_context_ok ctx f : ok_fields f -> ok_fields (set_context ctx f).
Proof. intros [? ? ? ?]. by split. Qed.

Lemma annotate_safe fuel ns ctx : Forall ok_node ns -> safe (Forall ok_node) (annotateNodes fuel ns ctx).
Proof.
  revert ns; induction fuel as [|n IH]; intros ns Hns; [apply safe_exhausted|]. cbn [annotateNodes].
  eapply safe_mapM; [exact Hns|]. intros item [f ch bs alt Hf Hsrc Hch Hbs Halt].
  eapply safe_bind; [by apply IH|]. intros ch' Hch'. eapply safe_bind; [by apply IH|]. intros alt' Halt'.
  eapply safe_bind.
  { eapply safe_each; [exact Hbs|]. intros b Hb. eapply safe_bind; [by apply safe_read|]. intros body Hbody.
    eapply safe_bind; [by apply IH|]. intros body' Hbody'. by apply safe_write. }
  intros _ _. apply safe_ret. constructor; [by apply set_context_ok| |done..]. intros d Hd. by apply parsed_at_context, Hsrc.
Qed.

Lemma substitute_safe fuel ns secs allowOpen root resolving :
  Forall ok_node ns -> map_Forall (fun _ ns => Forall ok_node ns) secs ->
  safe (Forall ok_node) (substituteYields isPrint docs fuel ns secs allowOpen root resolving).
Proof.
  intros Hns Hsecs. revert ns resolving Hns; induction fuel as [|n IH]; intros ns resolving Hns; [apply safe_exhausted|].
  cbn [substituteYields]. eapply safe_bind.
  - eapply (safe_mapM _ (Forall ok_node)); [exact Hns|]. intros item Hitem. pose proof Hitem as Hitem'.
    destruct Hitem as [f ch bs alt Hf Hsrc Hch Hbs Halt].
    destruct (bool_decide (kind f = nodeYield)).
    + destruct (secs !! name f) as [body|] eqn:Hb.
      * case_match; [apply safe_throw|]. eapply safe_bind; [apply annotate_safe; by eapply Hsecs|].
        intros body' Hbody'. by apply IH.
      * apply safe_ret. case_match; [constructor|]. by constructor.
    + eapply safe_bind; [by apply IH|]. intros ch' Hch'. eapply safe_bind; [by apply IH|]. intros alt' Halt'.
      eapply safe_bind.
      { eapply safe_each; [exact Hbs|]. intros b Hb'. eapply safe_bind; [by apply safe_read|]. intros body Hbody.
        eapply safe_bind; [by apply IH|]. intros body' Hbody'. by apply safe_write. }
      intros _ _. apply safe_ret. constructor; [by constructor|constructor].
  - intros parts Hparts. apply safe_ret. by apply Forall_concat.
Qed.

Lemma pushes_ok doc : ok_doc doc -> Forall ok_node (pushes doc).
Proof.
  intros (_ & He & _). unfold pushes. apply List.Forall_forall. intros n [Hn _]%List.filter_In.
  rewrite List.Forall_forall in He. by apply He.
Qed.

Lemma resolve_safe fuel depth name inherited stack allowOpen root lctx :
  map_Forall (fun _ ns => Forall ok_node ns) inherited ->
  safe (Forall ok_node) (resolve isPrint docs fuel depth name inherited stack allowOpen root lctx).
Proof.
  revert name inherited stack lctx; induction depth as [|d IH]; intros name inherited stack lctx Hi; [apply safe_exhausted|].
  cbn [resolve]. destruct (docs !! name) as [doc|] eqn:Hd; [|apply safe_throw]. pose proof (Hdocs _ _ Hd) as Hdoc.
  case_match; [apply safe_throw|]. assert (map_Forall (fun _ ns => Forall ok_node ns) (inherited ∪ sections doc)) as Hsecs.
  { intros k ns [Hk | [_ Hk]]%lookup_union_Some_raw; [by eapply Hi|]. destruct Hdoc as (_ & _ & Hs). by eapply Hs. }
  case_match.
  - destruct (docs !! extends doc); [|apply safe_throw]. case_match; [apply safe_throw|].
    eapply safe_bind; [by apply IH|]. intros r Hr. apply safe_ret. apply Forall_app. split; [by apply pushes_ok|done].
  - eapply safe_bind; [by apply annotate_safe; destruct Hdoc as (_ & ? & _)|]. intros base Hbase. by apply substitute_safe.
Qed.

Definition ok_stacks (st : stacks_map) : Prop := map_Forall (fun _ bodies => Forall (Forall ok_node) bodies) st.

Lemma collect_safe fuel ns st : Forall ok_node ns -> ok_stacks st -> safe ok_stacks (collectStacks fuel ns st).
Proof.
  revert ns st; induction fuel as [|n IH]; intros ns st Hns Hst; [apply safe_exhausted|]. cbn [collectStacks].
  eapply safe_fold; [exact Hns|done|]. intros item st' [f ch bs alt Hf Hsrc Hch Hbs Halt] Hst'. case_match.
  - apply safe_ret. intros k bodies [[<- <-] | [_ Hk]]%lookup_insert_Some; [|by eapply Hst'].
    apply Forall_app. split; [|by constructor]. destruct (st' !! name f) eqn:E; cbn; [by eapply Hst'|constructor].
  - eapply safe_bind; [by apply IH|]. intros s1 Hs1. eapply safe_bind; [|intros s2 Hs2; by apply IH].
    eapply safe_fold; [exact Hbs|done|]. intros b s' Hb Hs'. eapply safe_bind; [by apply safe_read|].
    intros body Hbody. by apply IH.
Qed.

(** *** Attributes *)

Definition ok_bound (a : boundAttribute) : Prop := Forall (fun v => placed (bv_span v) /\ at_entry (bv_span v)) (values a).

Lemma merge_ok ctx vs result positions out : merge_loop isPrint docs ctx vs result positions = Ok out ->
  Forall ok_bound vs -> Forall ok_bound result -> Forall ok_bound out.
Proof.
  revert result positions; induction vs as [|a vs IH]; intros result positions; cbn [merge_loop]; [by intros [= <-]|].
  intros H [Ha Hvs]%Forall_cons Hr. destruct (positions !! ba_name a) as [index|].
  - case_match; [|done]. eapply IH; [exact H|done|]. apply Forall_alter; [done|]. intros b Hb Hb2.
    unfold ok_bound. cbn. apply Forall_app. by split.
  - eapply IH; [exact H|done|]. apply Forall_app. by split; [|constructor].
Qed.
Lemma mergeBound_ok target vs ctx out : mergeBoundAttributes isPrint docs target vs ctx = Ok out ->
  Forall ok_bound target -> Forall ok_bound vs -> Forall ok_bound out.
Proof. intros H Ht Hv. by eapply merge_ok. Qed.

Lemma bind_entries_safe bag bindings prefix ctx start :
  Forall (fun e => placed (at_span e) /\ at_entry (at_span e) /\ forall var bs, emits (at_span e) ("{{" +:+ var +:+ " := " +:+ rewriteVariables (at_value e) bs +:+ "}}"))
    (entries bag) -> Forall ok_bound start ->
  safe (Forall ok_bound) (bind_entries isPrint docs bag bindings prefix ctx start).
Proof.
  intros Hb Hs. unfold bind_entries.
  assert (Forall (fun p : nat * attributeSpec => placed (at_span p.2) /\ at_entry (at_span p.2) /\
    forall var bs, emits (at_span p.2) ("{{" +:+ var +:+ " := " +:+ rewriteVariables (at_value p.2) bs +:+ "}}")) (zip (seq 0 (length (entries bag))) (entries bag))) as Hz.
  { generalize (seq 0 (length (entries bag))) as ks. induction Hb as [|e es He Hes IH]; intros [|i ks]; cbn; constructor; auto. }
  eapply safe_fold; [exact Hz|done|]. intros [i e] acc (He & Hent & Hem) Hacc. cbn in He, Hent, Hem.
  eapply safe_bind; [by apply safe_append|]. intros _ _. apply safe_lift. intros out Hout.
  eapply mergeBound_ok; [exact Hout|done|]. constructor; [|constructor]. by constructor.
Qed.

Lemma class_emits s written part : at_entry s -> emits s (class_part written part).
Proof. intros He d Hd. destruct (He d Hd) as (e & Hin & ->). by apply gen_class. Qed.

Lemma serialize_safe attrs s ctx prefix : Forall ok_bound attrs -> placed s -> (forall t, emits s t) ->
  safe (fun _ => True) (serializeAttributes attrs s ctx prefix).
Proof.
  intros Ha Hs Hem. unfold serializeAttributes. destruct attrs as [|a attrs]; [by apply safe_ret|].
  eapply safe_bind; [by apply safe_append|]. intros _ _. set (l := a :: attrs) in *.
  assert (Forall (fun p : nat * boundAttribute => ok_bound p.2) (zip (seq 0 (length l)) l)) as Hz.
  { generalize (seq 0 (length l)) as ks. induction Ha as [|e es He Hes IH]; intros [|i ks]; cbn; constructor; auto. }
  eapply safe_each; [exact Hz|]. intros [i b] Hv. cbn in *. case_match.
  - eapply safe_bind; [by apply safe_append|]. intros _ _. eapply safe_bind; [|intros _ _; by apply safe_append].
    eapply safe_each; [exact Hv|]. intros v [Hpv Hent]. apply safe_append; [done|by apply class_emits].
  - case_match; by apply safe_append.
Qed.

(** *** Nodes *)

Definition ok_slots (m : gmap string slotValue) : Prop := map_Forall (fun _ v => Forall ok_node (sv_nodes v)) m.
Definition ok_env (env : compileEnvironment) : Prop :=
  Forall ok_bound (env_attributes env) /\ (forall m, slots env = Some m -> ok_slots m).

(** A node emits the text that is generated for it. *)
Lemma node_emits f t : from_source f ->
  (forall doc, parsed_at isPrint (sp_path (span f)) (source doc) f (sp_start (span f)) ->
     generated isPrint (sp_path (span f)) (source doc) (sp_start (span f)) t) -> emits (span f) t.
Proof. intros Hf Hg d Hd. apply Hg, Hf, Hd. Qed.

Lemma bag_entries f bag : ok_fields f -> from_source f -> attributes f = Some bag ->
  Forall (fun e => placed (at_span e) /\ at_entry (at_span e) /\ forall var bs, emits (at_span e) ("{{" +:+ var +:+ " := " +:+ rewriteVariables (at_value e) bs +:+ "}}"))
    (entries bag).
Proof.
  intros Hf Hs Hb. pose proof (ok_bag _ Hf _ Hb) as Hbag. rewrite Forall_forall in Hbag |- *. intros e He.
  destruct (Hbag e He) as [Hp Hpath]. split_and!; [done|by eapply entry_from_source|].
  intros var bs d Hd. rewrite Hpath in Hd |- *. apply gen_attribute. exists f, (sp_start (span f)), bag.
  split_and!; [by apply Hs|done|done].
Qed.

Lemma form_binding_safe f env ctx : ok_fields f -> from_source f -> safe (fun _ => True) (compileFormBinding f env ctx).
Proof.
  intros Hf Hsrc. unfold compileFormBinding. case_match eqn:Hne; [by apply safe_ret|]. apply bool_decide_eq_false in Hne.
  eapply safe_bind; [apply safe_sequence|]. intros seq _.
  eapply safe_bind; [|intros _ _; by apply safe_ret]. destruct Hf as [Hs Hform _ _].
  case_match eqn:He; [apply safe_append; [done|]; apply node_emits; [done|]; intros d Hp; by apply (gen_form _ _ _ f)|].
  apply bool_decide_eq_false in He. destruct Hform as [|(Hp & Hst & Hl & Hc)]; [done|]. apply safe_append.
  - destruct Hs as (d & Hd & Hpos). exists d. by rewrite Hp, Hl, Hc, Hst.
  - intros d Hd. rewrite Hp in Hd |- *. rewrite Hst. apply (gen_form _ _ _ f); [by apply Hsrc|done].
Qed.

Lemma call_attributes_safe f outer prefix ctx : ok_fields f -> from_source f -> ok_env outer ->
  safe (Forall ok_bound) (compileCallAttributes isPrint docs f outer prefix ctx).
Proof.
  intros Hf Hsrc [Ho _]. unfold compileCallAttributes. destruct (attributes f) as [bag|] eqn:Hb; [|by apply safe_ret].
  apply bind_entries_safe; [by eapply bag_entries|]. by case_match.
Qed.

Lemma emitter_safe f env ctx : ok_fields f -> from_source f -> kind f = nodeAttributes -> ok_env env -> safe (fun _ => True) (compileAttributeEmitter isPrint docs f env ctx).
Proof.
  intros Hf Hsrc Hk [He _]. unfold compileAttributeEmitter. destruct (attributes f) as [bag|] eqn:Hb; [|apply safe_throw].
  eapply safe_bind; [apply safe_sequence|]. intros seq _. eapply safe_bind; [apply bind_entries_safe; [by eapply bag_entries|constructor]|].
  intros defaults Hd. eapply safe_bind; [apply safe_lift; intros out Hout; by eapply mergeBound_ok|].
  intros attrs Ha. apply serialize_safe; [done|by destruct Hf|].
  intros t. apply node_emits; [done|]. intros d Hp. by apply (gen_attributes _ _ _ f).
Qed.

Lemma slot_definitions_safe fuel ns found : Forall ok_node ns ->
  safe (fun '(d, _) => forall f, d = Some f -> placed (span f)) (collectSlotDefinitions fuel ns found).
Proof.
  revert ns found; induction fuel as [|n IH]; intros ns found Hns; [apply safe_exhausted|]. cbn [collectSlotDefinitions].
  eapply safe_fold; [exact Hns|done|]. intros item [[d|] fd] Hitem Hacc; [by apply safe_ret|].
  destruct Hitem as [f ch bs alt Hf Hsrc Hch Hbs Halt]. case_match; [by apply safe_ret|]. case_match.
  { apply safe_ret. destruct (bool_decide (name f ∈ fd)); [|done]. intros g [= <-]. by destruct Hf. }
  set (Q := fun '(d, _) => forall f, d = Some f -> placed (span f)) in *.
  assert (forall ms acc, Forall ok_node ms -> Q acc -> safe Q match acc with
    | (Some d, fd) => cret (Some d, fd) | (None, fd) => collectSlotDefinitions n ms fd end) as Hover.
  { intros ms [[d|] fd'] Hms Hacc'; [by apply safe_ret|by apply IH]. }
  eapply safe_bind; [by apply IH|]. intros acc1 Hacc1. eapply safe_bind; [|intros acc2 Hacc2; by apply Hover].
  eapply safe_fold; [exact Hbs|done|]. intros b acc Hb Hacc'. eapply safe_bind; [by apply safe_read|].
  intros body Hbody. by apply Hover.
Qed.

Lemma provided_slots_ok f ctx outer ns named others m rest :
  Forall ok_node ns -> ok_slots named -> Forall ok_node others ->
  provided_slots isPrint docs f ctx outer ns named others = Ok (m, rest) -> ok_slots m /\ Forall ok_node rest.
Proof.
  revert named others; induction ns as [|c ns IH]; intros named others Hns Hn Ho; cbn [provided_slots]; [by intros [= <- <-]|].
  apply Forall_cons in Hns as [Hc Hns]. case_match.
  - case_match; [done|]. apply IH; [done| |done]. intros k v [[_ <-] | [_ Hv]]%lookup_insert_Some; [|by eapply Hn].
    cbn. by destruct Hc.
  - apply IH; [done..|]. apply Forall_app. by split; [|constructor].
Qed.

Lemma call_slots_ok f ctx outer cname ns defs m : Forall ok_node ns ->
  call_slots isPrint docs f ctx outer cname ns defs = Ok m -> ok_slots m.
Proof.
  intros Hns. unfold call_slots, rbind. destruct (provided_slots _ _ _ _ _ _ _ _) as [[named others]|] eqn:Hp; [|done].
  apply provided_slots_ok in Hp as [Hn Ho]; [|done|by intros ? ? ?%lookup_empty_Some|constructor].
  repeat (case_match; try done); intros [= <-]; simplify_eq; try done.
  intros k v [[_ <-] | [_ Hv]]%lookup_insert_Some; [done|by eapply Hn].
Qed.

Lemma bind_props_safe f ctx prefix outer ps : placed (span f) -> from_source f -> kind f = nodeComponent -> safe (fun _ => True) (bind_props isPrint f ctx prefix outer ps).
Proof.
  intros Hs Hsrc Hk. unfold bind_props. eapply (safe_fold (fun _ => True)); [by apply Forall_true|done|]. intros p0 bs _ _.
  eapply safe_bind; [apply safe_append; [done|]; apply node_emits; [done|]; intros d Hp; by apply (gen_prop _ _ _ f)|]. intros _ _. by apply safe_ret.
Qed.

Section Nodes.
Context (rec : list node -> compileEnvironment -> list string -> C unit) (fuel : nat) (stacks : stacks_map).
Context (Hrec : forall ns env ctx, Forall ok_node ns -> ok_env env -> safe (fun _ => True) (rec ns env ctx)).
Context (Hstacks : ok_stacks stacks).

Lemma component_safe f ns outer ctx : ok_fields f -> from_source f -> kind f = nodeComponent -> Forall ok_node ns -> ok_env outer ->
  safe (fun _ => True) (compileComponent isPrint docs rec fuel f ns outer ctx).
Proof.
  intros Hf Hsrc Hk Hns Ho. pose proof (ok_span _ Hf) as Hs. unfold compileComponent.
  destruct (docs !! _) as [target|] eqn:Hd; [|apply safe_throw]. pose proof (Hdocs _ _ Hd) as (Htn & _).
  case_match; [apply safe_throw|]. case_match; [apply safe_throw|].
  eapply safe_bind; [apply (safe_lift (fun _ => True)); done|]. intros _ _.
  eapply safe_bind; [apply slot_definitions_safe; exact Htn|]. intros [[d|] defs] _; [apply safe_throw|].
  eapply safe_bind; [apply (safe_lift ok_slots); intros m Hm; exact (call_slots_ok _ _ _ _ _ _ _ Hns Hm)|]. intros provided Hprov.
  eapply safe_bind; [apply safe_sequence|]. intros seq _.
  eapply safe_bind; [apply safe_append; [done|]; apply node_emits; [done|]; intros d Hp; by apply (gen_component _ _ _ f)|]. intros _ _.
  eapply safe_bind; [by apply bind_props_safe|]. intros bs _. eapply safe_bind; [by apply call_attributes_safe|]. intros attrs Ha.
  eapply safe_bind; [|intros _ _; apply safe_append; [done|]; apply node_emits; [done|]; intros d Hp; apply (gen_end _ _ _ f); auto].
  apply Hrec; [done|]. split; [done|]. by intros m [= <-].
Qed.

Lemma compile_node_safe env ctx item : ok_node item -> ok_env env ->
  safe (fun _ => True) (compile_node isPrint docs rec fuel stacks env ctx item).
Proof.
  intros [f ch bs alt Hf Hsrc Hch Hbs Halt] He. pose proof (ok_span _ Hf) as Hs. cbn [compile_node].
  pose proof (fun t => node_emits f t Hsrc) as Hem.
  assert (forall k : string -> C unit, (forall v, safe (fun _ => True) (k v)) ->
    safe (fun _ => True) (act v := compileFormBinding f env (mergeContext ctx (context f)) in k v)) as Hform
    by (intros k Hk; eapply safe_bind; [by apply form_binding_safe|intros v _; apply Hk]).
  assert (conditional (kind f) -> safe (fun _ => True)
    (act _ := append_ ("{{" +:+ keyword (kind f) +:+ " " +:+ rewriteVariables (text f) (bindings env) +:+ "}}") (span f) (mergeContext ctx (context f)) in
     act _ := rec ch env (mergeContext ctx (context f)) in
     act _ := each (fun b =>
        act _ := append_ ("{{else if " +:+ rewriteVariables (pipeline b) (bindings env) +:+ "}}") (b_span b) (mergeContext ctx (context f)) in
        act body := read_branch b in rec body env (mergeContext ctx (context f))) bs in
     act _ := (match alt with
                | [] => cret tt
                | _ => act _ := append_ "{{else}}" (span f) (mergeContext ctx (context f)) in rec alt env (mergeContext ctx (context f))
                end) in
     append_ "{{end}}" (span f) (mergeContext ctx (context f)))) as Hcond.
  { intros Hk. eapply safe_bind; [apply safe_append; [done|]; apply Hem; intros d Hp; by apply (gen_open _ _ _ f)|]. intros _ _.
    eapply safe_bind; [by apply Hrec|]. intros _ _. eapply safe_bind.
    { eapply safe_each; [exact Hbs|]. intros b Hb.
      eapply safe_bind; [destruct Hb as [[Hb1 Hb2] _]; apply safe_append; [done|]; intros d Hd; by apply gen_elseif, Hb2|]. intros _ _.
      eapply safe_bind; [by apply safe_read|]. intros body Hbody. by apply Hrec. }
    intros _ _. eapply (safe_bind (fun _ => True));
      [|intros _ _; apply safe_append; [done|]; apply Hem; intros d Hp; apply (gen_end _ _ _ f); auto]. destruct alt; [by apply safe_ret|].
    eapply safe_bind; [apply safe_append; [done|]; apply Hem; intros d Hp; by apply (gen_else _ _ _ f)|]. intros _ _. by apply Hrec. }
  unfold conditional in Hcond.
  destruct (kind f) eqn:Hk; try (apply Hcond; by auto); try (by apply safe_throw); try (by apply safe_ret).
  - destruct (_ =? _)%nat eqn:Hl; [|apply safe_append; [done|]; apply Hem; intros d Hp; by apply (gen_text _ _ _ f)]. apply safe_literal; [done|]. apply (ok_text _ Hf). right. split; [done|]. by apply Nat.eqb_eq.
  - destruct (bool_decide _) eqn:Hl; [|apply safe_append; [done|]; apply Hem; intros d Hp; by apply (gen_action _ _ _ f)]. apply bool_decide_eq_true in Hl. rewrite Hl. apply safe_literal; [done|].
    apply (ok_text _ Hf). by left.
  - destruct (docs !! _) as [dep|]; [|apply safe_throw]. destruct (component dep); [apply safe_throw|].
    apply safe_append; [done|]; apply Hem; intros d Hp; by apply (gen_include _ _ _ f).
  - by apply component_safe.
  - destruct (slots env) as [m|] eqn:Hm; [|apply safe_throw]. destruct He as [He1 He2].
    destruct (m !! name f) as [v|] eqn:Hv; [|by apply Hrec]. apply Hrec; [by eapply (He2 m)|]. split; [constructor|done].
  - eapply safe_each; [|intros body Hbody; by apply Hrec]. destruct (stacks !! name f) eqn:Hst; cbn; [by eapply Hstacks|constructor].
  - apply Hform. intros v. apply safe_append; [done|]; apply Hem; intros d Hp; by apply (gen_csrf _ _ _ f).
  - apply safe_append; [done|]; apply Hem; intros d Hp; by apply (gen_method _ _ _ f).
  - apply Hform. intros v. apply safe_append; [done|]; apply Hem; intros d Hp.
    destruct (bool_decide (text f = EmptyString)); [by apply (gen_old _ _ _ f)|]. rewrite <- string_app_assoc. by apply (gen_old _ _ _ f).
  - apply Hform. intros v. eapply safe_bind; [apply safe_append; [done|]; apply Hem; intros d Hp; by apply (gen_errors _ _ _ f)|].
    intros _ _. eapply safe_bind; [by apply Hrec|]. intros _ _.
    apply safe_append; [done|]; apply Hem; intros d Hp; apply (gen_end _ _ _ f); auto.
  - by apply emitter_safe.
Qed.
End Nodes.

Lemma compileNodes_safe fuel stacks ns env ctx : ok_stacks stacks -> Forall ok_node ns -> ok_env env ->
  safe (fun _ => True) (compileNodes isPrint docs fuel stacks ns env ctx).
Proof.
  intros Hst. revert ns env ctx; induction fuel as [|n IH]; intros ns env ctx Hns He; [apply safe_exhausted|].
  cbn [compileNodes]. eapply safe_each; [exact Hns|]. intros item Hi. apply compile_node_safe; [done..]. 
Qed.

Lemma compile_safe fuel name : safe (fun t => built (Source t) (Mappings t)) (compile isPrint docs fuel name).
Proof.
  unfold compile. eapply safe_bind; [apply resolve_safe; by intros ? ? ?%lookup_empty_Some|]. intros ns Hns.
  eapply safe_bind; [apply collect_safe; [done|]; by intros ? ? ?%lookup_empty_Some|]. intros stacks Hst s [Hh _].
  eapply (safe_bind (fun _ => True)); [apply compileNodes_safe; [done..|]; split; [constructor|done]| |].
  - intros _ _ s' [Hh' Hb']. done.
  - split; [done|constructor].
Qed.
End Compile.
End Placed.

(** ** The documents of a compilation *)

Section Documents.
Context (docs : gmap string document) (isPrint : Z -> bool).

Lemma organize_loop_ok doc ext first index ns secs ex secs' ex' :
  organize_loop isPrint doc ext first index ns secs ex = Ok (secs', ex') ->
  Forall (ok_node docs isPrint) ns -> map_Forall (fun _ ns => Forall (ok_node docs isPrint) ns) secs -> Forall (ok_node docs isPrint) ex ->
  map_Forall (fun _ ns => Forall (ok_node docs isPrint) ns) secs' /\ Forall (ok_node docs isPrint) ex'.
Proof.
  revert index secs ex; induction ns as [|item ns IH]; intros index secs ex; cbn [organize_loop]; [by intros [= <- <-]|].
  intros H [Hi Hns]%Forall_cons Hs Hx. destruct (_ && negb (bool_decide (Some index = first))); [done|].
  destruct (bool_decide (kind (fields_of item) = nodeProps)); [done|].
  destruct (bool_decide (kind (fields_of item) = nodeSection)).
  - destruct (bool_decide (ext = EmptyString)); [done|]. destruct (bool_decide (is_Some _)); [done|].
    destruct (findNode _ _); [done|]. eapply IH; [exact H|done| |done].
    intros k v [[_ <-] | [_ Hv]]%lookup_insert_Some; [by destruct Hi|by eapply Hs].
  - destruct (_ && nonWhitespace item); [done|]. eapply IH; [exact H|done..|].
    destruct (bool_decide _); [done|]. apply Forall_app. by split; [|constructor].
Qed.

Lemma organize_ok d doc : organize isPrint d = Ok doc -> Forall (ok_node docs isPrint) (nodes d) ->
  sections d = ∅ -> extra d = [] -> ok_doc docs isPrint doc.
Proof.
  intros H Hn Hs He. unfold organize in H. destruct (component d).
  - destruct (fst <$> _) as [i|]; cbn [mbind option_bind] in H; [|done]. destruct (nodes d !! i); [|done].
    destruct (negb _); [done|]. unfold rbind in H. repeat (case_match; try done). injection H as <-.
    split_and!; cbn; rewrite ?Hs, ?He; [|constructor|by intros ? ? ?%lookup_empty_Some].
    apply Forall_app. split; [by apply Forall_take|by apply Forall_drop].
  - unfold rbind in H. destruct (organize_loop _ _ _ _ _ _ _ _) as [[secs ex]|] eqn:Ho; [|done].
    apply organize_loop_ok in Ho as [? ?]; [|done|by intros ? ? ?%lookup_empty_Some|constructor].
    repeat (case_match; try done); injection H as <-; by split_and!.
Qed.
End Documents.

(** What [CompileForge] reads: each document stands under the name of its file. *)
Definition read_from (files : filesystem) (docs : gmap string document) : Prop :=
  forall name doc, docs !! name = Some doc ->
    name = templateName (path doc) /\ fs_read files (path doc) = Ok (source doc).

Definition tiled_by (isPrint : Z -> bool) (doc : document) : Prop :=
  exists name, parseDocument isPrint (path doc) name (source doc) = Some (Ok doc).

Lemma parse_files_spec isPrint files paths docs docs' :
  parse_files isPrint files paths docs = Some (Ok docs') -> read_from files docs -> map_Forall (fun _ => tiled_by isPrint) docs ->
  read_from files docs' /\ map_Forall (fun _ => tiled_by isPrint) docs'.
Proof.
  revert docs; induction paths as [|fp paths IH]; intros docs; cbn [parse_files]; [by intros [= <-]|].
  destruct (fs_read files fp) as [src|] eqn:Hr; [|done]. destruct (bool_decide _); [done|].
  destruct (parseDocument isPrint fp (templateName fp) src) as [[doc|]|] eqn:Hp; [|done..]. intros H Hd Ht.
  assert (path doc = fp /\ source doc = src) as [Hpath Hsrc].
  { unfold parseDocument in Hp. destruct (parseNodes _ _ _ _ _ _ _ _) as [[[[ns t] e]|]|]; [|done..].
    case_match; [done|]. injection Hp as Ho. by apply organize_spec in Ho as (? & ? & ? & _). }
  apply IH in H; [done| |].
  - intros name d [[<- <-] | [_ Hl]]%lookup_insert_Some; [|by apply Hd]. by rewrite Hpath, Hsrc.
  - intros name d [[<- <-] | [_ Hl]]%lookup_insert_Some; [|by eapply Ht]. exists (templateName fp). by rewrite Hpath, Hsrc.
Qed.

Lemma parsed_doc_ok isPrint docs doc : docs !! templateName (path doc) = Some doc -> tiled_by isPrint doc -> ok_doc docs isPrint doc.
Proof.
  intros Hl [name Hp]. unfold parseDocument in Hp.
  destruct (parse_answers isPrint (path doc) (source doc) (S (String.length (source doc))) [] 0 0 []) with (a := 0%nat) as (x & Hx & Hans);
    [lia|by left|lia|constructor|lia|]. rewrite Hx in Hp. destruct x as [[[ns t] e]|]; [|done].
  destruct (Hans _ _ _ eq_refl) as (c & Ht & _). case_match; [done|]. injection Hp as Ho.
  eapply organize_ok; [exact Ho| |done|done]. cbn.
  destruct (parsed_ok docs isPrint (path doc) (source doc) doc) as [Hok _]; [by split|done|]. by eapply Hok.
Qed.

(** ** More fuel changes nothing *)

Section Fuel.
Context (isPrint : Z -> bool) (docs : gmap string document).

(** The second computation answers what the first does, where the first does. *)
Definition extends_ {A} (m m' : C A) : Prop := forall s r, m s = Some r -> m' s = Some r.

Lemma extends_refl {A} (m : C A) : extends_ m m.
Proof. by intros s r. Qed.
Lemma extends_exhausted {A} (m : C A) : extends_ exhausted m.
Proof. by intros s r. Qed.
Lemma grows_bind {A B} (m m' : C A) (k k' : A -> C B) :
  extends_ m m' -> (forall a, extends_ (k a) (k' a)) -> extends_ (cbind m k) (cbind m' k').
Proof.
  intros Hm Hk s r. unfold cbind. destruct (m s) as [[[a|e] s']|] eqn:E; [|by rewrite (Hm _ _ E)|done].
  rewrite (Hm _ _ E). apply Hk.
Qed.
Lemma grows_mapM {A B} (f f' : A -> C B) l : (forall x, extends_ (f x) (f' x)) -> extends_ (cmapM f l) (cmapM f' l).
Proof.
  intros Hf. induction l as [|x l IH]; [apply extends_refl|]. cbn. apply grows_bind; [done|]. intros y.
  apply grows_bind; [exact IH|]. intros ys. apply extends_refl.
Qed.
Lemma extends_fold {A S} (f f' : A -> S -> C S) l s : (forall x s, extends_ (f x s) (f' x s)) -> extends_ (cfold f l s) (cfold f' l s).
Proof. intros Hf. revert s. induction l as [|x l IH]; intros s; [apply extends_refl|]. cbn. by apply grows_bind. Qed.
Lemma extends_each {A} (f f' : A -> C unit) l : (forall x, extends_ (f x) (f' x)) -> extends_ (each f l) (each f' l).
Proof. intros Hf. by apply extends_fold. Qed.

Lemma extends_over {A} (k k' : list node -> C A) b :
  (forall ns, extends_ (k ns) (k' ns)) -> extends_ (act body := read_branch b in k body) (act body := read_branch b in k' body).
Proof. intros Hk. apply grows_bind; [apply extends_refl|done]. Qed.
Lemma extends_rewrite (k k' : list node -> C (list node)) bs :
  (forall ns, extends_ (k ns) (k' ns)) ->
  extends_ (each (fun b => act body := read_branch b in act body := k body in write_branch b body) bs)
           (each (fun b => act body := read_branch b in act body := k' body in write_branch b body) bs).
Proof.
  intros Hk. apply extends_each. intros b. apply extends_over. intros body. apply grows_bind; [done|]. intros ?. apply extends_refl.
Qed.

Lemma annotate_more n ns ctx : extends_ (annotateNodes n ns ctx) (annotateNodes (S n) ns ctx).
Proof.
  revert ns; induction n as [|n IH]; intros ns; [apply extends_exhausted|]. refine (grows_mapM _ _ _ _). intros [f ch bs alt].
  do 2 (apply grows_bind; [apply IH|intros ?]). apply grows_bind; [by apply extends_rewrite|]. intros ?. apply extends_refl.
Qed.
Lemma substitute_more n ns secs allowOpen root resolving :
  extends_ (substituteYields isPrint docs n ns secs allowOpen root resolving)
           (substituteYields isPrint docs (S n) ns secs allowOpen root resolving).
Proof.
  revert ns resolving; induction n as [|n IH]; intros ns resolving; [apply extends_exhausted|].
  refine (grows_bind _ _ _ _ (grows_mapM _ _ _ _) _); [|intros ?; apply extends_refl]. intros [f ch bs alt].
  destruct (bool_decide (kind f = nodeYield)).
  - destruct (secs !! name f) as [body|]; [|apply extends_refl]. destruct (bool_decide _); [apply extends_refl|].
    apply grows_bind; [apply annotate_more|]. intros ?. apply IH.
  - do 2 (apply grows_bind; [apply IH|intros ?]). apply grows_bind; [apply extends_rewrite; intros ?; apply IH|]. intros ?. apply extends_refl.
Qed.
Lemma resolve_more n depth name inherited stack allowOpen root lctx :
  extends_ (resolve isPrint docs n depth name inherited stack allowOpen root lctx)
           (resolve isPrint docs (S n) depth name inherited stack allowOpen root lctx).
Proof.
  revert name inherited stack lctx; induction depth as [|d IH]; intros name inherited stack lctx; [apply extends_refl|].
  cbn [resolve]. destruct (docs !! name) as [doc|]; [|apply extends_refl]. destruct (bool_decide (name ∈ stack)); [apply extends_refl|].
  destruct (negb _).
  - destruct (docs !! extends doc) as [parent|]; [|apply extends_refl]. destruct (component parent); [apply extends_refl|].
    apply grows_bind; [apply IH|]. intros ?. apply extends_refl.
  - apply grows_bind; [apply annotate_more|]. intros ?. apply substitute_more.
Qed.
Lemma collect_more n ns st : extends_ (collectStacks n ns st) (collectStacks (S n) ns st).
Proof.
  revert ns st; induction n as [|n IH]; intros ns st; [apply extends_exhausted|]. refine (extends_fold _ _ _ _ _). intros [f ch bs alt] st'.
  destruct (bool_decide _); [apply extends_refl|]. apply grows_bind; [apply IH|]. intros s1. apply grows_bind; [|intros s2; apply IH].
  apply extends_fold. intros b s2. apply extends_over. intros body. apply IH.
Qed.
Lemma slot_definitions_more n ns found : extends_ (collectSlotDefinitions n ns found) (collectSlotDefinitions (S n) ns found).
Proof.
  revert ns found; induction n as [|n IH]; intros ns found; [apply extends_exhausted|].
  assert (forall ms (acc : option fields * gset string), extends_
    (match acc with (Some d, found) => cret (Some d, found) | (None, found) => collectSlotDefinitions n ms found end)
    (match acc with (Some d, found) => cret (Some d, found) | (None, found) => collectSlotDefinitions (S n) ms found end)) as Hover
    by (intros ms [[d|] fd]; [apply extends_refl|apply IH]).
  refine (extends_fold _ _ _ _ _). intros [f ch bs alt] [[d|] fd]; [apply extends_refl|].
  destruct (bool_decide (kind f = nodeComponent)); [apply extends_refl|]. destruct (bool_decide (kind f = nodeSlot)); [apply extends_refl|].
  apply grows_bind; [apply IH|]. intros a1. apply grows_bind; [|intros a2; apply Hover].
  apply extends_fold. intros b a2. apply extends_over. intros body. apply Hover.
Qed.

Lemma component_more rec rec' n f ns outer ctx : (forall ns env ctx, extends_ (rec ns env ctx) (rec' ns env ctx)) ->
  extends_ (compileComponent isPrint docs rec n f ns outer ctx) (compileComponent isPrint docs rec' (S n) f ns outer ctx).
Proof.
  intros Hrec. unfold compileComponent. destruct (docs !! _) as [target|]; [|apply extends_refl].
  destruct (negb _); [apply extends_refl|]. destruct (bool_decide _); [apply extends_refl|].
  apply grows_bind; [apply extends_refl|intros _]. apply grows_bind; [apply slot_definitions_more|].
  intros [[d|] defs]; [apply extends_refl|]. do 5 (apply grows_bind; [apply extends_refl|intros ?]).
  apply grows_bind; [apply Hrec|]. intros ?. apply extends_refl.
Qed.
Lemma node_more rec rec' n stacks env ctx item : (forall ns env ctx, extends_ (rec ns env ctx) (rec' ns env ctx)) ->
  extends_ (compile_node isPrint docs rec n stacks env ctx item) (compile_node isPrint docs rec' (S n) stacks env ctx item).
Proof.
  intros Hrec. destruct item as [f ch bs alt]. cbn [compile_node]. set (c := mergeContext ctx (context f)).
  assert (forall t b (e : string) (s : sourceSpan), extends_
    (act _ := append_ t (span f) c in act _ := rec ch env c in
     act _ := each (fun b => act _ := append_ ("{{else if " +:+ rewriteVariables (pipeline b) (bindings env) +:+ "}}") (b_span b) c in
                             act body := read_branch b in rec body env c) b in
     act _ := match alt with [] => cret tt | _ => act _ := append_ "{{else}}" (span f) c in rec alt env c end in append_ e s c)
    (act _ := append_ t (span f) c in act _ := rec' ch env c in
     act _ := each (fun b => act _ := append_ ("{{else if " +:+ rewriteVariables (pipeline b) (bindings env) +:+ "}}") (b_span b) c in
                             act body := read_branch b in rec' body env c) b in
     act _ := match alt with [] => cret tt | _ => act _ := append_ "{{else}}" (span f) c in rec' alt env c end in append_ e s c)) as Hcond.
  { intros t b e s. apply grows_bind; [apply extends_refl|intros _]. apply grows_bind; [apply Hrec|intros _].
    apply grows_bind; [|intros _; apply grows_bind; [|intros _; apply extends_refl]].
    - apply extends_each. intros b'. apply grows_bind; [apply extends_refl|intros _]. apply extends_over. intros body. apply Hrec.
    - destruct alt; [apply extends_refl|]. apply grows_bind; [apply extends_refl|intros _]. apply Hrec. }
  destruct (kind f); try apply extends_refl; try apply Hcond; try by apply component_more.
  - destruct (slots env) as [m|]; [|apply extends_refl]. destruct (m !! name f); apply Hrec.
  - apply extends_each. intros body. apply Hrec.
  - apply grows_bind; [apply extends_refl|intros ?]. apply grows_bind; [apply extends_refl|intros _].
    apply grows_bind; [apply Hrec|intros _]. apply extends_refl.
Qed.
Lemma compileNodes_more n stacks ns env ctx :
  extends_ (compileNodes isPrint docs n stacks ns env ctx) (compileNodes isPrint docs (S n) stacks ns env ctx).
Proof.
  revert ns env ctx; induction n as [|n IH]; intros ns env ctx; [apply extends_exhausted|].
  refine (extends_each _ _ _ _). intros item. apply node_more. exact IH.
Qed.
Lemma compile_more n name : extends_ (compile isPrint docs n name) (compile isPrint docs (S n) name).
Proof.
  unfold compile. apply grows_bind; [apply resolve_more|]. intros ns. apply grows_bind; [apply collect_more|].
  intros stacks s. apply (grows_bind _ _ _ _ (compileNodes_more n _ _ _ _)). intros ?. apply extends_refl.
Qed.
End Fuel.

Lemma CompileForge_more isPrint files patterns ts more fuel :
  CompileForge isPrint fuel (Some files) patterns = Some (Ok ts) -> CompileForge isPrint (more + fuel) (Some files) patterns = Some (Ok ts).
Proof.
  intros Hc. induction more as [|more IH]; [done|]. revert IH. cbn [plus]. generalize (more + fuel)%nat as n. intros n. unfold CompileForge.
  destruct (forgePaths isPrint files patterns) as [[|path0 paths]|]; [done| |done].
  destruct (parse_files isPrint files (path0 :: paths) ∅) as [[docs|]|]; [|done..].
  destruct (validateDependencies isPrint docs) as [[v|]|]; [|done..]. unfold compile_views.
  destruct (cmapM (compile isPrint docs n) _ _) as [r|] eqn:Hm; [|done].
  by rewrite (grows_mapM _ (compile isPrint docs (S n)) _ (compile_more isPrint docs n) _ _ Hm).
Qed.

(** ** Offsets of the generated text *)

Definition covers (m : SourceMapping) (offset : Z) : Prop := Start m <= offset < End_ m.

Lemma find_mapping_skip gen offset ms1 m ms2 prev : Forall (fun m => ~ covers m offset) ms1 -> covers m offset ->
  find_mapping (ms1 ++ m :: ms2) gen offset prev = Some (adjustMapping m gen (offset - Start m)).
Proof.
  intros Hms Hm. revert prev; induction Hms as [|x ms1 Hx Hms IH]; intros prev; cbn [find_mapping app].
  - unfold covers in Hm. replace ((Start m <=? offset) && (offset <? End_ m)) with true by lia. done.
  - unfold covers in Hx. replace ((Start x <=? offset) && (offset <? End_ x)) with false by lia. apply IH.
Qed.

Lemma built_ends docs isPrint text ms : built docs isPrint text ms -> Forall (fun m => End_ m <= byte_len text) ms.
Proof.
  induction 1 as [|text ms t m Hb IH Ht Hs He Hp]; [constructor|]. unfold byte_len in *. rewrite string_length_app.
  apply Forall_app. split; [|constructor; [lia|constructor]]. eapply Forall_impl; [exact IH|]. intros x Hx. cbn in Hx. lia.
Qed.

(** The mapping that covers an offset, and the piece of the text it stands for. *)
Lemma built_covers docs isPrint text ms offset : built docs isPrint text ms -> 0 <= offset < byte_len text ->
  exists ms1 m ms2 pre t post, ms = ms1 ++ m :: ms2 /\ Forall (fun m => ~ covers m offset) ms1 /\ covers m offset /\
    text = pre +:+ (t +:+ post) /\ Start m = byte_len pre /\ End_ m = Start m + byte_len t /\ points docs isPrint m t.
Proof.
  induction 1 as [|text ms t m Hb IH Ht Hs He Hp]; intros Ho; [change (byte_len EmptyString) with 0 in Ho; lia|].
  destruct (decide (offset < byte_len text)) as [Hlt | Hge].
  - destruct IH as (ms1 & m' & ms2 & pre & t' & post & -> & H1 & H2 & -> & H3 & H4 & H5); [lia|].
    exists ms1, m', (ms2 ++ [m]), pre, t', (post +:+ t). rewrite <- app_assoc. rewrite <- !string_app_assoc. by split_and!.
  - exists ms, m, [], text, t, EmptyString. rewrite string_app_nil_r. unfold byte_len in *. rewrite string_length_app in Ho.
    split_and!; try done; [|unfold covers; lia]. eapply Forall_impl; [by eapply built_ends|]. intros x Hx. unfold covers, byte_len in *. lia.
Qed.

Lemma get_app_r a b k : String.get (String.length a + k) (a +:+ b) = String.get k b.
Proof. induction a as [|c a IH]; [done|]. rewrite string_app_cons. apply IH. Qed.
Lemma get_app_l a b k : (k < String.length a)%nat -> String.get k (a +:+ b) = String.get k a.
Proof.
  revert k; induction a as [|c a IH]; intros k Hk; [cbn in Hk; lia|]. rewrite string_app_cons. destruct k; [done|]. cbn in *. apply IH. lia.
Qed.
Lemma get_take k n s : (k < n)%nat -> String.get k (take_string n s) = String.get k s.
Proof. revert k s; induction n as [|n IH]; intros k s Hk; [lia|]. destruct s as [|c s]; [done|]. destruct k; [done|]. cbn. apply IH. lia. Qed.
Lemma get_slice k a b s : (k < b - a)%nat -> String.get k (slice a b s) = String.get (a + k) s.
Proof. intros. unfold slice. by rewrite get_take, get_drop_string. Qed.

Lemma take_app_le n a b : (n <= String.length a)%nat -> take_string n (a +:+ b) = take_string n a.
Proof.
  revert a; induction n as [|n IH]; intros a Hn; [by destruct (a +:+ b), a|]. destruct a as [|c a]; [cbn in Hn; lia|].
  rewrite string_app_cons. cbn [take_string]. f_equal. apply IH. cbn in Hn. lia.
Qed.

(** Where the mapping found for an offset of a piece leads. *)
Lemma adjust_exact docs isPrint m t pre post offset : points docs isPrint m t -> Start m = byte_len pre -> End_ m = Start m + byte_len t ->
  covers m offset -> let gen := pre +:+ (t +:+ post) in let m' := adjustMapping m gen (offset - Start m) in
  exists doc, doc_at docs (Path m') doc /\ Path m' = Path m /\ Synthetic m' = Synthetic m /\ 0 <= SourceStart m' /\
    Start m' = Start m /\ End_ m' = End_ m /\
    (Synthetic m' = true -> (Line m', Column m') = sourcePosition (source doc) (Z.to_nat (SourceStart m')) /\
       generated isPrint (Path m') (source doc) (Z.to_nat (SourceStart m')) t) /\
    (Synthetic m' = false ->
       String.get (Z.to_nat offset) gen = String.get (Z.to_nat (SourceStart m')) (source doc) /\
       (boundary (source doc) (Z.to_nat (SourceStart m')) ->
        (Line m', Column m') = sourcePosition (source doc) (Z.to_nat (SourceStart m')))).
Proof.
  intros (doc & Hd & H0 & Hpos & Hlit & Hgen) Hs He Hc gen m'. unfold covers, byte_len in *. exists doc.
  assert (Synthetic m = false -> String.get (Z.to_nat offset) gen =
    String.get (Z.to_nat (SourceStart m) + Z.to_nat (offset - Start m)) (source doc)) as Hbyte.
  { intros Hsyn. destruct (Hlit Hsyn) as (Ht & Hle & _). subst gen.
    replace (Z.to_nat offset) with (String.length pre + Z.to_nat (offset - Start m))%nat by lia.
    rewrite get_app_r, get_app_l by lia. rewrite Ht at 1. rewrite get_slice by lia. done. }
  subst m'. unfold adjustMapping. destruct (Synthetic m || (offset - Start m <=? 0)) eqn:Hg.
  { split_and!; try done; [by auto|]. intros Hsyn. split; [|done]. rewrite (Hbyte Hsyn). rewrite Hsyn in Hg. cbn in Hg.
    f_equal. lia. }
  apply orb_false_iff in Hg as [Hsyn Hdelta]. destruct (Hlit Hsyn) as (Ht & Hle & Hbd).
  set (d := Z.to_nat (offset - Start m)). set (a := Z.to_nat (SourceStart m)) in *.
  assert (slice (Z.to_nat (Start m)) (Z.to_nat (Z.min (Start m + (offset - Start m)) (End_ m))) gen = take_string d (drop_string a (source doc))) as ->.
  { unfold slice. replace (Z.to_nat (Start m)) with (String.length pre) by lia. subst gen. rewrite drop_string_app.
    replace (Z.to_nat (Z.min (Start m + (offset - Start m)) (End_ m)) - String.length pre)%nat with d by lia.
    rewrite take_app_le by lia. rewrite Ht. unfold slice. apply take_take. lia. }
  destruct (advance_position _ _ _ _) as [l c] eqn:Hadv. cbn. split_and!; try done; [lia|by rewrite Hsyn|].
  intros _. replace (Z.to_nat (SourceStart m + (offset - Start m))) with (a + d)%nat by lia.
  split; [by apply Hbyte|]. intros Hb2. rewrite <- Hadv. rewrite take_string_length, drop_string_length.
  rewrite advance_position_loop; [|by apply boundary_drop|rewrite drop_string_length; lia|lia].
  unfold sourcePosition in *. rewrite Nat.min_l in Hpos by lia. rewrite Nat.min_l by lia.
  rewrite position_split by (done || lia). rewrite <- Hpos. done.
Qed.

Lemma compile_views_built isPrint fuel docs l s ts s' : (forall name doc, docs !! name = Some doc -> ok_doc docs isPrint doc) ->
  Inv docs isPrint s -> cmapM (compile isPrint docs fuel) l s = Some (Ok ts, s') -> Forall (fun t => built docs isPrint (Source t) (Mappings t)) ts.
Proof.
  intros Hdocs Hs Hc.
  pose proof (safe_mapM docs isPrint (fun _ => True) (fun t => built docs isPrint (Source t) (Mappings t)) (compile isPrint docs fuel) l) as Hsafe.
  specialize (Hsafe ltac:(by apply Forall_true) ltac:(intros x _; by apply compile_safe) s Hs). rewrite Hc in Hsafe. by destruct Hsafe.
Qed.

Lemma slice_middle a b c : slice (String.length a) (String.length a + String.length b) (a +:+ (b +:+ c)) = b.
Proof.
  unfold slice. rewrite drop_string_app. replace (_ - _)%nat with (String.length b) by lia. apply take_string_app.
Qed.


(** A layout and two pages; single quotes stand for the double quotes of the files. *)
Module Pages.
Definition double (s : string) : string := replace_char "'"%char dq s.
Definition files (l : list (string * string)) : filesystem :=
  {| fs_walk := Ok ((fun p => (fst p, false)) <$> l); fs_glob := fun _ => Ok [];
     fs_read := fun p => match list_find (fun q => fst q = p) l with
                         | Some (_, (_, s)) => Ok (double s)
                         | None => Err (Sentinel "file does not exist")
                         end |}.
Definition site : list (string * string) :=
  [("layout.forge.html", "<main>@yield('body')</main>");
   ("one.forge.html", "@extends('layout')" +:+ lf +:+ "@section('body')<p>" +:+ lf +:+ "ONE</p>@endsection")].
Definition printable (r : Z) : bool := true.
Definition site_ (l : list (string * string)) : option (list (string * string)) :=
  match CompileForge printable 20 (Some (files l)) [] with
  | Some (Ok ts) => Some ((fun t => (Name t, Source t)) <$> ts)
  | _ => None
  end.
End Pages.


(** A stack that contains itself: compiling it ends with no fuel, and the page below has one. *)
Theorem stack_of_itself_never_compiles isPrint docs stacks f n env ctx s :
  kind f = nodeStack -> stacks !! name f = Some [[leaf f]] ->
  compileNodes isPrint docs n stacks [leaf f] env ctx s = None.
Proof.
  intros Hk Hs. revert env ctx. induction n as [|n IH]; intros env ctx; [done|].
  cbn [compileNodes each cfold]. unfold cbind at 1, leaf at 1. cbn [compile_node]. rewrite Hk, Hs. cbn [default from_option].
  unfold Datatypes.id. cbn [each cfold]. unfold cbind at 1. by rewrite IH.
Qed.
Example endless_page :
  CompileForge Pages.printable 100
    (Some (Pages.files [("page.forge.html", "@push('a')@stack('a')@endpush@stack('a')")])) [] = None.
Proof. vm_compute. reflexivity. Qed.

(** A yield inside [@elseif] is lost from every page: compiling the layout on its own drops it
    from the branch that the documents share. *)
Example elseif_yield_is_lost :
  Pages.site_ [("layout.forge.html", "@if(.A)a@elseif(.B)@yield('body')@endif");
               ("one.forge.html", "@extends('layout')@section('body')ONE@endsection")] =
    Some [("layout", "{{if .A}}a{{else if .B}}{{end}}"); ("one", "{{if .A}}a{{else if .B}}{{end}}")] /\
  Pages.site_ [("layout.forge.html", "@if(.A)a@else@yield('body')@endif");
               ("one.forge.html", "@extends('layout')@section('body')ONE@endsection")] =
    Some [("layout", "{{if .A}}a{{end}}"); ("one", "{{if .A}}a{{else}}ONE{{end}}")].
Proof. split; vm_compute; reflexivity. Qed.

(** A push inside [@errors], which the compiler turns into a loop, is accepted and leaves it. *)
Example push_leaves_errors :
  Pages.site_ [("page.forge.html", "@stack('head')@errors('name')@push('head'){{.}}@endpush@enderrors")] =
    Some [("page", "{{.}}{{range .Form.Errors " +:+ dq +:+ "name" +:+ dq +:+ "}}{{end}}")].
Proof. vm_compute. reflexivity. Qed.
