(* ===== verification/ViewDepsProps.v ===== *)
(** * Dependencies between templates ([view/forge_compile.go], [validateDependencies])

    The depth-first validation decides whether the references of the documents are closed and
    acyclic, and it always ends: the documents on the current path are distinct. *)

From S2P Require Import Prelude GoStrings GoUtf8 GoQuote GoUrl GoText ViewSource ViewParse ViewCompile.
Local Open Scope go_scope.
Local Open Scope Z_scope.

Section Deps.
Context (isPrint : Z -> bool) (docs : gmap string document).

(** The documents a document refers to: its layout, includes and components. *)
Definition dependencies (doc : document) : list string :=
  match extends_node doc with Some _ => [extends doc] | None => [] end ++
  map reference (List.filter is_reference (walkNodes (nodes doc))).
Definition uses (a b : string) : Prop := exists doc, docs !! a = Some doc /\ b ∈ dependencies doc.

Definition closed : Prop := forall a b, uses a b -> is_Some (docs !! b).
Definition acyclic : Prop := forall a, ~ tc uses a a.
(** Attributes are handed only to components that emit them. *)
Definition sinks_ok : Prop := forall a doc m, docs !! a = Some doc -> m ∈ walkNodes (nodes doc) -> is_reference m = true ->
  sinkless docs m = false.

(** Names in the order in which they were finished, the last first. *)
Inductive finished : list string -> Prop :=
| finished_nil : finished []
| finished_cons a l doc : docs !! a = Some doc -> a ∉ l -> Forall (fun b => b ∈ l) (dependencies doc) ->
    (forall m, m ∈ walkNodes (nodes doc) -> is_reference m = true -> sinkless docs m = false) ->
    finished l -> finished (a :: l).

(** ** Soundness *)

Definition extended (active : gset string) (l : list string) (v' : gset string) : Prop :=
  exists l', finished (l' ++ l) /\ v' = list_to_set (l' ++ l) /\ Forall (fun x => x ∉ active) l'.

Lemma extended_refl active l : finished l -> extended active l (list_to_set l).
Proof. intros H. by exists []. Qed.

Lemma visit_sound validate ctx ms active l v' :
  (forall name ctx e l v', finished l -> validate name ctx e (list_to_set l) = Some (Ok v') -> extended active l v' /\ name ∈ v') ->
  finished l -> visit_references isPrint docs validate ctx ms (list_to_set l) = Some (Ok v') ->
  extended active l v' /\ (forall m, m ∈ ms -> is_reference m = true -> reference m ∈ v' /\ sinkless docs m = false).
Proof.
  intros Hval. revert l; induction ms as [|m ms IH]; intros l Hl; cbn [visit_references].
  { intros [= <-]. split; [by apply extended_refl|]. by intros m ?%elem_of_nil. }
  destruct (is_reference m) eqn:Hr; cbn [negb].
  - destruct (sinkless docs m) eqn:Hs; [done|].
    destruct (validate _ _ _ _) as [[v1|]|] eqn:Hv; [|done..]. apply Hval in Hv as [(l1 & Hf & -> & Hn) Hin]; [|done].
    intros H. apply IH in H as [(l2 & Hf2 & -> & Hn2) Hms]; [|done]. split.
    + exists (l2 ++ l1). rewrite <- app_assoc. split_and!; [done..|]. by apply Forall_app.
    + intros m' [-> | Hm']%elem_of_cons Hr'; [|by apply Hms]. split; [|done]. set_solver.
  - intros H. apply IH in H as [He Hms]; [|done]. split; [done|]. intros m' [-> | Hm']%elem_of_cons Hr'; [congruence|by apply Hms].
Qed.

Lemma validate_sound fuel name ctx edge active l v' : finished l ->
  validateDocument isPrint docs fuel name ctx edge active (list_to_set l) = Some (Ok v') ->
  extended active l v' /\ name ∈ v'.
Proof.
  revert name ctx edge active l v'; induction fuel as [|n IH]; intros name ctx edge active l v' Hl; [done|]. cbn [validateDocument].
  destruct (docs !! name) as [doc|] eqn:Hd; [|done]. destruct (bool_decide (name ∈ active)) eqn:Ha; [done|].
  apply bool_decide_eq_false in Ha. destruct (bool_decide (name ∈ list_to_set l)) eqn:Hv.
  { intros [= <-]. apply bool_decide_eq_true in Hv. split; [by apply extended_refl|done]. }
  apply bool_decide_eq_false in Hv.
  assert (exists v1, match extends_node doc with
    | None => Some (Ok (list_to_set l))
    | Some m => validateDocument isPrint docs n (extends doc) (ctx ++ ["layout " +:+ extends doc]) (Some (fields_of m)) ({[name]} ∪ active) (list_to_set l)
    end = v1) as [v1 H1] by eauto. rewrite H1. destruct v1 as [[v1|]|]; [|done..].
  assert (extended ({[name]} ∪ active) l v1 /\ (forall m, extends_node doc = Some m -> extends doc ∈ v1)) as [(l1 & Hf1 & -> & Hn1) Hext].
  { destruct (extends_node doc) as [m|]; [|injection H1 as <-; split; [by apply extended_refl|done]].
    apply IH in H1 as [? ?]; [|done]. auto. }
  destruct (visit_references _ _ _ _ _ _) as [[v2|]|] eqn:H2; [|done..]. intros [= <-].
  apply (visit_sound _ _ _ ({[name]} ∪ active)) in H2 as [(l2 & Hf2 & -> & Hn2) Hms]; [|by intros; eapply IH|done].
  rewrite app_assoc in *. set (l' := l2 ++ l1) in *.
  assert (Forall (fun x => x ∉ ({[name]} ∪ active : gset string)) l') as Hn by (apply Forall_app; by split).
  split; [|set_solver]. exists (name :: l'). split_and!.
  - apply (finished_cons name (l' ++ l) doc); [done| | |by intros; eapply Hms|done].
    + intros [Hin | Hin]%elem_of_app; [|set_solver]. rewrite Forall_forall in Hn. specialize (Hn _ Hin). set_solver.
    + apply Forall_forall. intros b [Hb | Hb]%elem_of_app.
      * destruct (extends_node doc) as [m|]; [|by apply elem_of_nil in Hb]. apply list_elem_of_singleton in Hb as ->.
        specialize (Hext m eq_refl). set_solver.
      * apply list_elem_of_In, List.in_map_iff in Hb as (m & <- & [Hm Hr]%List.filter_In).
        destruct (Hms m) as [Hin _]; [by apply list_elem_of_In|done|]. set_solver.
  - set_solver.
  - constructor; [done|]. eapply Forall_impl; [exact Hn|]. set_solver.
Qed.

Lemma names_sound skip prefix names l v' : finished l ->
  validate_names isPrint docs skip prefix names (list_to_set l) = Some (Ok v') ->
  extended ∅ l v' /\ (forall name, name ∈ names -> name ∈ v' \/ exists v, skip name v = true /\ v ⊆ v').
Proof.
  revert l; induction names as [|name names IH]; intros l Hl; cbn [validate_names].
  { intros [= <-]. split; [by apply extended_refl|]. by intros name ?%elem_of_nil. }
  destruct (skip name (list_to_set l)) eqn:Hs.
  - intros H. pose proof H as H'. apply IH in H as [(l1 & Hf & -> & Hn) Hall]; [|done]. split; [by exists l1|].
    intros x [-> | Hx]%elem_of_cons; [|by apply Hall]. right. exists (list_to_set l). split; [done|set_solver].
  - destruct (validateDocument _ _ _ _ _ _ _ _) as [[v1|]|] eqn:Hv; [|done..]. intros H.
    apply validate_sound in Hv as [(l1 & Hf1 & -> & Hn1) Hin]; [|done].
    apply IH in H as [(l2 & Hf2 & -> & Hn2) Hall]; [|done]. split.
    + exists (l2 ++ l1). rewrite <- app_assoc. split_and!; [done..|]. by apply Forall_app.
    + intros x [-> | Hx]%elem_of_cons; [left; set_solver|by apply Hall].
Qed.

(** ** A finished order has no cycles *)

Lemma finished_suffix l1 l2 : finished (l1 ++ l2) -> finished l2.
Proof. induction l1 as [|a l1 IH]; [done|]. cbn. intros H. inversion H; subst. auto. Qed.

Lemma finished_uses x y l1 l2 : finished (l1 ++ x :: l2) -> tc uses x y -> y ∈ l2.
Proof.
  intros Hf Ht; revert l1 l2 Hf. induction Ht as [x y (doc & Hd & Hin) | x y z (doc & Hd & Hin) Ht IH]; intros l1 l2 Hf;
    apply finished_suffix in Hf as Hx; inversion Hx as [|? ? doc' Hd' _ Hdeps _ Hl2]; subst; simplify_eq.
  - rewrite Forall_forall in Hdeps. by apply Hdeps.
  - rewrite Forall_forall in Hdeps. specialize (Hdeps _ Hin). apply list_elem_of_split in Hdeps as (l3 & l4 & ->).
    specialize (IH _ _ Hl2). set_solver.
Qed.

Lemma finished_spec l : finished l -> (forall a, is_Some (docs !! a) -> a ∈ l) -> closed /\ acyclic /\ sinks_ok.
Proof.
  intros Hf Hall.
  assert (forall a doc, docs !! a = Some doc -> exists l1 l2, l = l1 ++ a :: l2 /\ Forall (fun b => b ∈ l2) (dependencies doc) /\
    a ∉ l2 /\ (forall m, m ∈ walkNodes (nodes doc) -> is_reference m = true -> sinkless docs m = false)) as Hsplit.
  { intros a doc Hd. assert (a ∈ l) as (l1 & l2 & ->)%list_elem_of_split by eauto. exists l1, l2.
    apply finished_suffix in Hf as Hx. inversion Hx; subst. by simplify_eq. }
  assert (forall x, x ∈ l -> is_Some (docs !! x)) as Hin.
  { intros x (l1 & l2 & ->)%list_elem_of_split. apply finished_suffix in Hf. inversion Hf; subst. eauto. }
  split_and!.
  - intros a b (doc & Hd & Hb). destruct (Hsplit _ _ Hd) as (l1 & l2 & -> & Hdeps & _). apply Hin.
    rewrite Forall_forall in Hdeps. specialize (Hdeps _ Hb). set_solver.
  - intros a Ht. assert (exists b, uses a b) as (b & doc & Hd & _) by (inversion Ht; eauto).
    destruct (Hsplit _ _ Hd) as (l1 & l2 & -> & _ & Hn & _). by apply Hn, (finished_uses a a l1).
  - intros a doc m Hd Hm Hr. destruct (Hsplit _ _ Hd) as (_ & _ & _ & _ & _ & Hs). by apply Hs.
Qed.

(** ** Completeness and termination *)

Section Complete.
Context (Hclosed : closed) (Hacyclic : acyclic) (Hsinks : sinks_ok).

Lemma visit_complete validate ctx ms v : Forall (fun m => is_reference m = true -> sinkless docs m = false) ms ->
  (forall m ctx e v, m ∈ ms -> is_reference m = true -> exists v', validate (reference m) ctx e v = Some (Ok v')) ->
  exists v', visit_references isPrint docs validate ctx ms v = Some (Ok v').
Proof.
  intros Hs Hval. revert v; induction Hs as [|m ms Hm Hs IH]; intros v; cbn [visit_references]; [eauto|].
  destruct (is_reference m) eqn:Hr; cbn [negb]; [|apply IH; intros; apply Hval; [by right|done]].
  rewrite Hm by done. destruct (Hval m (ctx ++ [(if bool_decide (kind_of m = nodeComponent) then "component " else "include ") +:+ reference m]) (fields_of m) v) as [v1 ->];
    [by left|done|]. apply IH. intros; apply Hval; [by right|done].
Qed.

Lemma validate_complete fuel name ctx edge (active v : gset string) : is_Some (docs !! name) ->
  (forall x, x ∈ active -> tc uses x name) -> active ⊆ dom docs -> (size docs < fuel + size active)%nat ->
  exists v', validateDocument isPrint docs fuel name ctx edge active v = Some (Ok v').
Proof.
  revert name ctx edge active v; induction fuel as [|n IH]; intros name ctx edge active v Hn Hact Hdom Hfuel.
  { apply subseteq_size in Hdom. rewrite size_dom in Hdom. lia. }
  cbn [validateDocument]. destruct Hn as [doc Hd]. rewrite Hd.
  rewrite bool_decide_eq_false_2 by (intros Ha; by apply (Hacyclic name), Hact).
  destruct (bool_decide (name ∈ v)); [eauto|].
  assert (name ∉ active) as Hnot by (intros Ha; by apply (Hacyclic name), Hact).
  assert (forall b ctx e v, b ∈ dependencies doc -> exists v', validateDocument isPrint docs n b ctx e ({[name]} ∪ active) v = Some (Ok v')) as Hrec.
  { intros b ctx' e v0 Hb. assert (uses name b) as Hu by (by exists doc). apply IH.
    - by eapply Hclosed.
    - intros x [-> %elem_of_singleton | Hx]%elem_of_union; [by apply tc_once|]. eapply tc_transitive; [by apply Hact|by apply tc_once].
    - apply union_subseteq. split; [|done]. apply singleton_subseteq_l, elem_of_dom. eauto.
    - rewrite size_union by set_solver. rewrite size_singleton. lia. }
  assert (exists v1, match extends_node doc with
    | None => Some (Ok v)
    | Some m => validateDocument isPrint docs n (extends doc) (ctx ++ ["layout " +:+ extends doc]) (Some (fields_of m)) ({[name]} ∪ active) v
    end = Some (Ok v1)) as [v1 ->].
  { destruct (extends_node doc) as [m|] eqn:He; [|eauto]. apply Hrec. unfold dependencies. rewrite He. by left. }
  destruct (visit_complete (fun dependency ctx' m v => validateDocument isPrint docs n dependency ctx' (Some m) ({[name]} ∪ active) v)
    ctx (walkNodes (nodes doc)) v1) as [v2 ->]; [| |eauto].
  - apply Forall_forall. intros m Hm Hr. by eapply Hsinks.
  - intros m ctx' e v0 Hm Hr. apply Hrec. unfold dependencies. apply elem_of_app. right.
    apply list_elem_of_In, List.in_map_iff. exists m. split; [done|]. apply List.filter_In. split; [by apply list_elem_of_In|done].
Qed.

Lemma names_complete skip prefix names v : Forall (fun n => is_Some (docs !! n)) names ->
  exists v', validate_names isPrint docs skip prefix names v = Some (Ok v').
Proof.
  intros Hn; revert v; induction Hn as [|name names Hname Hn IH]; intros v; cbn [validate_names]; [eauto|].
  destruct (skip name v); [apply IH|].
  destruct (validate_complete (S (size docs)) name [prefix name +:+ name] None ∅ v) as [v1 ->]; [done|set_solver|set_solver|lia|apply IH].
Qed.
End Complete.

(** Fuel for one level more than there are documents is enough, whatever they refer to. *)
Lemma visit_total validate ctx ms v :
  (forall n ctx e v, exists r, validate n ctx e v = Some r) -> exists r, visit_references isPrint docs validate ctx ms v = Some r.
Proof.
  intros Hval. revert v; induction ms as [|m ms IH]; intros v; cbn [visit_references]; [eauto|].
  destruct (negb _); [apply IH|]. destruct (sinkless docs m); [eauto|].
  destruct (Hval (reference m) (ctx ++ [(if bool_decide (kind_of m = nodeComponent) then "component " else "include ") +:+ reference m]) (fields_of m) v) as [[v1|e] ->]; eauto.
Qed.

Lemma validate_total fuel name ctx edge (active v : gset string) : active ⊆ dom docs -> (size docs < fuel + size active)%nat ->
  exists r, validateDocument isPrint docs fuel name ctx edge active v = Some r.
Proof.
  revert name ctx edge active v; induction fuel as [|n IH]; intros name ctx edge active v Hdom Hfuel.
  { apply subseteq_size in Hdom. rewrite size_dom in Hdom. lia. }
  cbn [validateDocument]. destruct (docs !! name) as [doc|] eqn:Hd; [|eauto].
  destruct (bool_decide (name ∈ active)) eqn:Ha; [eauto|]. apply bool_decide_eq_false in Ha.
  destruct (bool_decide (name ∈ v)); [eauto|].
  assert (forall b ctx e v, exists r, validateDocument isPrint docs n b ctx e ({[name]} ∪ active) v = Some r) as Hrec.
  { intros b ctx' e v0. apply IH.
    - apply union_subseteq. split; [|done]. apply singleton_subseteq_l, elem_of_dom. eauto.
    - rewrite size_union by set_solver. rewrite size_singleton. lia. }
  assert (exists r, match extends_node doc with
    | None => Some (Ok v)
    | Some m => validateDocument isPrint docs n (extends doc) (ctx ++ ["layout " +:+ extends doc]) (Some (fields_of m)) ({[name]} ∪ active) v
    end = Some r) as [[v1|e] ->]; [by destruct (extends_node doc); eauto| |eauto].
  destruct (visit_total (fun dependency ctx' m v => validateDocument isPrint docs n dependency ctx' (Some m) ({[name]} ∪ active) v)
    ctx (walkNodes (nodes doc)) v1) as [[v2|e] ->]; eauto.
Qed.

Lemma names_total skip prefix names v : exists r, validate_names isPrint docs skip prefix names v = Some r.
Proof.
  revert v; induction names as [|name names IH]; intros v; cbn [validate_names]; [eauto|]. destruct (skip name v); [apply IH|].
  destruct (validate_total (S (size docs)) name [prefix name +:+ name] None ∅ v) as [[v1|e] ->]; [set_solver|lia|apply IH|eauto].
Qed.

Lemma sorted_names a : a ∈ sortedDocumentNames docs <-> is_Some (docs !! a).
Proof.
  unfold sortedDocumentNames. rewrite sort_strings_perm, list_elem_of_fmap. split.
  - intros ([k d] & -> & Hin%elem_of_map_to_list). eauto.
  - intros [d Hd]. exists (a, d). split; [done|]. by apply elem_of_map_to_list.
Qed.
End Deps.

(** C14. Validation decides the dependencies of the templates.  It always ends, and it accepts
    exactly the sets of documents in which every layout, include and component exists, no
    document reaches itself through them, and attributes go only to components that have a
    place for them. *)
Theorem validation_decides_the_dependencies isPrint docs :
  exists r, validateDependencies isPrint docs = Some r /\ (is_ok r = true <-> closed docs /\ acyclic docs /\ sinks_ok docs).
Proof.
  assert (exists r, validateDependencies isPrint docs = Some r) as [r Hr].
  { unfold validateDependencies.
    destruct (names_total isPrint docs (fun name _ => is_component docs name || bool_decide (name ∈ incoming docs)) (fun _ => "view ")
      (sortedDocumentNames docs) ∅) as [[v|e] ->]; [apply names_total|eauto]. }
  exists r. split; [done|]. split.
  - intros Hok. destruct r as [v|]; [|done]. unfold validateDependencies in Hr.
    destruct (validate_names isPrint docs _ (fun _ => "view ") _ ∅) as [[v1|]|] eqn:H1; [|done..].
    apply (names_sound isPrint docs _ _ _ []) in H1 as [(l1 & Hf1 & -> & _) _]; [|constructor]. rewrite app_nil_r in *.
    apply names_sound in Hr as [(l2 & Hf2 & -> & _) Hall]; [|done]. eapply (finished_spec docs _ Hf2).
    intros a Ha. apply sorted_names in Ha. destruct (Hall a Ha) as [Hin | (v & Hskip & Hsub)]; [set_solver|].
    apply bool_decide_eq_true in Hskip. set_solver.
  - intros (Hc & Ha & Hs). unfold validateDependencies in Hr.
    assert (Forall (fun n => is_Some (docs !! n)) (sortedDocumentNames docs)) as Hn
      by (apply Forall_forall; intros a Hin; by apply sorted_names).
    destruct (names_complete isPrint docs Hc Ha Hs (fun name _ => is_component docs name || bool_decide (name ∈ incoming docs))
      (fun _ => "view ") _ ∅ Hn) as [v1 Hv1]. rewrite Hv1 in Hr.
    destruct (names_complete isPrint docs Hc Ha Hs (fun name validated => bool_decide (name ∈ validated))
      (fun name => if is_component docs name then "component " else "view ") _ v1 Hn) as [v2 Hv2].
    rewrite Hv2 in Hr. by injection Hr as <-.
Qed.
