(* ===== verification/ViewScopeProps.v ===== *)
(** * Static scopes of a template ([view/forge_parse.go], [organize])

    What the checks of [organize] mean for the tree of a document: where pushes and attribute
    sinks can stand. *)

From S2P Require Import Prelude GoStrings GoUtf8 GoQuote GoUrl PathText GoText ViewSource ViewParse ViewCompile ViewParseProps ViewCompileProps.
Local Open Scope go_scope.
Local Open Scope Z_scope.

(** [below ks m ns]: [m] stands somewhere in [ns], under nodes of the kinds [ks], the outermost
    first. *)
Inductive below : list nodeKind -> node -> list node -> Prop :=
| below_here m ns : m ∈ ns -> below [] m ns
| below_children n ks m ns : n ∈ ns -> below ks m (children n) -> below (kind_of n :: ks) m ns
| below_branch n b ks m ns : n ∈ ns -> b ∈ branches n -> below ks m (b_nodes b) -> below (kind_of n :: ks) m ns
| below_alternate n ks m ns : n ∈ ns -> below ks m (alternate n) -> below (kind_of n :: ks) m ns.

Definition runtime_kinds : list nodeKind := [nodeIf; nodeFor; nodeWith].

(** Only conditionals have branches and an alternative. *)
Inductive shaped : node -> Prop :=
| Shaped f ns bs alt : (kind f ∈ runtime_kinds \/ bs = [] /\ alt = []) -> Forall shaped ns ->
    Forall (fun b => Forall shaped (b_nodes b)) bs -> Forall shaped alt -> shaped (Node f ns bs alt).

Lemma shaped_leaf f : shaped (leaf f).
Proof. constructor; [by right|constructor..]. Qed.

Lemma tiles_shaped isPrint p src : (forall a ns b, tiles isPrint p src a ns b -> Forall shaped ns) /\
  (forall n a b, tile isPrint p src n a b -> shaped n) /\
  (forall a bs b, elseifs isPrint p src a bs b -> Forall (fun b => Forall shaped (b_nodes b)) bs) /\
  (forall a ns b, alternates isPrint p src a ns b -> Forall shaped ns).
Proof.
  apply tiles_mutind; intros; try (by apply shaped_leaf); try done; try (by constructor).
  - constructor; [by right|done|constructor..].
  - constructor; [left|done..]. cbn. unfold cond_kind in *. repeat case_match; simplify_eq; set_solver.
Qed.

Lemma iterM_unit {A} (f : A -> unit -> result unit) l : iterM f l tt = Ok tt -> Forall (fun x => f x tt = Ok tt) l.
Proof.
  induction l as [|x l IH]; cbn; [constructor|]. destruct (f x tt) as [[]|] eqn:Hx; [|done]. intros. constructor; auto.
Qed.

(** ** Pushes *)

Definition runtime_depth (k : nodeKind) (rt : Z) : Z := match k with nodeIf | nodeFor | nodeWith => rt + 1 | _ => rt end.
Definition component_depth (k : nodeKind) (comp : Z) : Z := match k with nodeComponent => comp + 1 | _ => comp end.

Lemma scopes_children doc rt comp n : scopes_node doc rt comp n tt = Ok tt ->
  validateStaticScopes doc (children n) (runtime_depth (kind_of n) rt) (component_depth (kind_of n) comp) = Ok tt.
Proof.
  destruct n as [f ch bs alt]. unfold kind_of, validateStaticScopes. cbn. unfold rbind.
  destruct (kind f); cbn; try done; try (destruct (iterM _ ch tt) as [[]|]; done). destruct (_ || _); done.
Qed.
Lemma scopes_branches doc rt comp n b : scopes_node doc rt comp n tt = Ok tt -> kind_of n ∈ runtime_kinds -> b ∈ branches n ->
  validateStaticScopes doc (b_nodes b) (rt + 1) comp = Ok tt.
Proof.
  destruct n as [f ch bs alt]. unfold kind_of, validateStaticScopes, runtime_kinds. cbn. unfold rbind. intros Hok Hk Hb.
  assert (iterM (fun b => iterM (scopes_node doc (rt + 1) comp) (b_nodes b)) bs tt = Ok tt) as Hi.
  { destruct (kind f); try set_solver; destruct (iterM _ ch tt) as [[]|]; try done; destruct (iterM _ bs tt) as [[]|]; done. }
  apply iterM_unit in Hi. rewrite Forall_forall in Hi. by apply Hi.
Qed.
Lemma scopes_alternate doc rt comp n : scopes_node doc rt comp n tt = Ok tt -> kind_of n ∈ runtime_kinds ->
  validateStaticScopes doc (alternate n) (rt + 1) comp = Ok tt.
Proof.
  destruct n as [f ch bs alt]. unfold kind_of, validateStaticScopes, runtime_kinds. cbn. unfold rbind. intros Hok Hk.
  destruct (kind f); try set_solver; destruct (iterM _ ch tt) as [[]|]; try done; destruct (iterM _ bs tt) as [[]|]; done.
Qed.

Lemma scopes_sound doc ks m ns rt comp : below ks m ns -> Forall shaped ns -> 0 <= rt -> 0 <= comp ->
  validateStaticScopes doc ns rt comp = Ok tt -> kind_of m = nodePush ->
  rt = 0 /\ comp = 0 /\ component doc = false /\ Forall (fun k => k ∉ nodeComponent :: runtime_kinds) ks.
Proof.
  intros Hb; revert rt comp.
  induction Hb as [m ns Hin|n ks m ns Hin Hb IH|n b ks m ns Hin Hbr Hb IH|n ks m ns Hin Hb IH]; intros rt comp Hs Hrt Hcomp Hok Hk;
    apply iterM_unit in Hok; rewrite Forall_forall in Hok; specialize (Hok _ Hin);
    rewrite Forall_forall in Hs; specialize (Hs _ Hin); destruct Hs as [f ch bs alt Hshape Hch Hbs Halt].
  - unfold kind_of in Hk. cbn in Hk, Hok. rewrite Hk in Hok.
    destruct ((0 <? rt) || (0 <? comp) || component doc) eqn:Hg; [done|]. apply orb_false_iff in Hg as [Hg Hc].
    split_and!; [lia|lia|done|constructor].
  - apply scopes_children in Hok. unfold kind_of in *. cbn [children fields_of] in *.
    assert (0 <= runtime_depth (kind f) rt /\ 0 <= component_depth (kind f) comp) as [H1 H2] by (destruct (kind f); cbn; lia).
    destruct (IH _ _ Hch H1 H2 Hok Hk) as (Hr & Hc & ? & ?).
    destruct (kind f); cbn in Hr, Hc; try lia; (split_and!; [lia|lia|done|constructor; [unfold runtime_kinds; set_solver|done]]).
  - exfalso. cbn in Hbr. destruct Hshape as [Hrk | [-> _]]; [|by apply elem_of_nil in Hbr].
    apply (scopes_branches _ _ _ _ b) in Hok; [|done..]. rewrite Forall_forall in Hbs.
    destruct (IH (rt + 1) comp (Hbs _ Hbr) ltac:(lia) ltac:(lia) Hok Hk). lia.
  - exfalso. cbn in Hb, IH. destruct Hshape as [Hrk | [_ ->]]; [|inversion Hb; subst; set_solver].
    apply scopes_alternate in Hok; [|done]. destruct (IH (rt + 1) comp Halt ltac:(lia) ltac:(lia) Hok Hk). lia.
Qed.

(** ** Attribute sinks *)

Lemma node_ind_nested (P : node -> Prop) :
  (forall f ns bs alt, Forall P ns -> Forall (fun b => Forall P (b_nodes b)) bs -> Forall P alt -> P (Node f ns bs alt)) ->
  forall n, P n.
Proof.
  intros H. fix IH 1. intros [f ns bs alt]. apply H.
  - induction ns; constructor; auto.
  - induction bs as [|b bs IHb]; constructor; [|exact IHb]. destruct b as [pl sp bns]. cbn. induction bns; constructor; auto.
  - induction alt; constructor; auto.
Qed.

Definition count (ns : list node) : nat := length (List.filter (fun n => consumes (fields_of n)) (walkNodes ns)).
Definition one_if {A} (o : option A) : nat := if o then 1%nat else 0%nat.

Lemma count_app a b : count (a ++ b) = (count a + count b)%nat.
Proof. unfold count, walkNodes. rewrite flat_map_app, List.filter_app, length_app. done. Qed.

(** The walk finds every sink, and one at most. *)
Definition counts (f : node -> option sourceSpan -> result (option sourceSpan)) (n : node) : Prop :=
  forall s s', f n s = Ok s' -> (count [n] + one_if s = one_if s')%nat.

Lemma iterM_counts f ns s s' : Forall (counts f) ns -> iterM f ns s = Ok s' -> (count ns + one_if s = one_if s')%nat.
Proof.
  intros Hf; revert s; induction Hf as [|n ns Hn Hf IH]; intros s; cbn [iterM]; [by intros [= <-]|].
  destruct (f n s) as [s1|] eqn:H1; [|done]. intros H2. apply Hn in H1. apply IH in H2.
  change (n :: ns) with ([n] ++ ns). rewrite count_app. lia.
Qed.

Lemma sinks_counts doc n r : counts (sinks_node doc r) n.
Proof.
  revert r; induction n as [f ns bs alt Hns Hbs Halt] using node_ind_nested; intros r s s'. cbn [sinks_node]. unfold rbind.
  match goal with |- context [match ?g with Ok _ => _ | Err _ => Err _ end] => destruct g as [s1|] eqn:H1; [|done] end.
  set (r' := match kind f with nodeSlot => _ | _ => _ end).
  destruct (iterM (sinks_node doc r') ns s1) as [s2|] eqn:H2; [|done].
  destruct (iterM _ bs s2) as [s3|] eqn:H3; [|done]. intros H4.
  apply iterM_counts in H2; [|eapply Forall_impl; [exact Hns|intros x Hx; apply Hx]].
  apply iterM_counts in H4; [|eapply Forall_impl; [exact Halt|intros x Hx; apply Hx]].
  assert (length (List.filter (fun n => consumes (fields_of n)) (flat_map (fun b => flat_map walk_node (b_nodes b)) bs)) + one_if s2 = one_if s3)%nat as H3'.
  { clear -H3 Hbs. revert s2 H3; induction Hbs as [|b bs Hb Hbs IH]; intros s2; cbn [iterM flat_map]; [by intros [= <-]|].
    destruct (iterM _ (b_nodes b) s2) as [s4|] eqn:H4; [|done]. intros H5. apply IH in H5.
    apply iterM_counts in H4; [|eapply Forall_impl; [exact Hb|intros x Hx; apply Hx]].
    rewrite List.filter_app, length_app. unfold count, walkNodes in H4. lia. }
  unfold count, walkNodes in *. cbn [flat_map walk_node app]. rewrite app_nil_r. cbn [List.filter fields_of].
  rewrite !List.filter_app. destruct (consumes f) eqn:Hc; cbn [negb] in H1.
  - cbn [length]. rewrite !length_app. repeat (case_match; try done). simplify_eq. cbn [one_if] in *. lia.
  - injection H1 as <-. rewrite !length_app. lia.
Qed.

Definition conditional_kinds : list nodeKind := nodeSlot :: nodeErrors :: nodeComponent :: runtime_kinds.

Definition child_restriction (k : nodeKind) (r : string) : string :=
  match k with
  | nodeSlot => "slot"
  | nodeIf | nodeFor | nodeWith | nodeErrors | nodeComponent => if bool_decide (r = EmptyString) then "conditional" else r
  | _ => r
  end.

Lemma child_restriction_free k r : child_restriction k r = EmptyString -> r = EmptyString /\ k ∉ conditional_kinds.
Proof.
  unfold conditional_kinds, runtime_kinds. destruct k; cbn; try (intros ->; split; [done|set_solver]); try done; case_match eqn:E; try done;
    intros ->; by apply bool_decide_eq_false in E.
Qed.

Lemma iterM_each {A S} (f : A -> S -> result S) l s s' x : iterM f l s = Ok s' -> x ∈ l -> exists s1 s2, f x s1 = Ok s2.
Proof.
  revert s; induction l as [|y l IH]; intros s; cbn; [by intros _ ?%elem_of_nil|].
  destruct (f y s) as [s1|] eqn:Hy; [|done]. intros H [-> | Hx]%elem_of_cons; eauto.
Qed.

Lemma sinks_step doc r n s s' : sinks_node doc r n s = Ok s' ->
  (consumes (fields_of n) = true -> component doc = true /\ r = EmptyString) /\
  (exists s1 s2, iterM (sinks_node doc (child_restriction (kind_of n) r)) (children n) s1 = Ok s2) /\
  (forall b, b ∈ branches n -> exists s1 s2, iterM (sinks_node doc "conditional") (b_nodes b) s1 = Ok s2) /\
  (exists s1 s2, iterM (sinks_node doc (child_restriction (kind_of n) r)) (alternate n) s1 = Ok s2).
Proof.
  destruct n as [f ns bs alt]. cbn [sinks_node]. unfold rbind, kind_of. cbn [fields_of children branches alternate].
  match goal with |- context [match ?g with Ok _ => _ | Err _ => Err _ end] => destruct g as [s1|] eqn:H1; [|done] end.
  change (match kind f with nodeSlot => "slot" | nodeIf | nodeFor | nodeWith | nodeErrors | nodeComponent =>
    if bool_decide (r = EmptyString) then "conditional" else r | _ => r end) with (child_restriction (kind f) r).
  destruct (iterM (sinks_node doc (child_restriction (kind f) r)) ns s1) as [s2|] eqn:H2; [|done].
  destruct (iterM _ bs s2) as [s3|] eqn:H3; [|done]. intros H4. split_and!; [|by eauto| |by eauto].
  - intros Hc. rewrite Hc in H1. cbn [negb] in H1. destruct (component doc); [|done]. cbn [negb] in H1.
    destruct (bool_decide (r = "slot")); [done|]. destruct (bool_decide (r = EmptyString)) eqn:Hr; [|done].
    by apply bool_decide_eq_true in Hr.
  - intros b Hb. by eapply (iterM_each _ bs) in H3.
Qed.

Lemma sinks_sound doc ks m ns r s s' : below ks m ns -> iterM (sinks_node doc r) ns s = Ok s' -> consumes (fields_of m) = true ->
  component doc = true /\ r = EmptyString /\ Forall (fun k => k ∉ conditional_kinds) ks.
Proof.
  intros Hb; revert r s s'.
  induction Hb as [m ns Hin|n ks m ns Hin Hb IH|n b ks m ns Hin Hbr Hb IH|n ks m ns Hin Hb IH]; intros r s s' Hok Hc;
    eapply iterM_each in Hok as (s1 & s2 & Hok); try exact Hin;
    apply sinks_step in Hok as (Hhere & (t1 & t2 & Hch) & Hbs & (u1 & u2 & Halt)).
  - destruct (Hhere Hc). split_and!; [done..|constructor].
  - destruct (IH _ _ _ Hch Hc) as (? & [? ?]%child_restriction_free & ?). split_and!; [done..|]. by constructor.
  - destruct (Hbs _ Hbr) as (v1 & v2 & Hv). destruct (IH _ _ _ Hv Hc) as (_ & ? & _). done.
  - destruct (IH _ _ _ Halt Hc) as (? & [? ?]%child_restriction_free & ?). split_and!; [done..|]. by constructor.
Qed.

(** ** Documents *)

Lemma organize_checks isPrint d doc : organize isPrint d = Ok doc ->
  exists d1 s, nodes d1 = nodes doc /\ component d1 = component doc /\ validateStaticScopes d1 (nodes doc) 0 0 = Ok tt /\
    iterM (sinks_node d1 EmptyString) (nodes doc) None = Ok s /\ attributeSink doc = bool_decide (is_Some s).
Proof.
  unfold organize. destruct (component d).
  - destruct (fst <$> _) as [i|]; cbn [mbind option_bind]; [|done]. destruct (nodes d !! i); [|done]. destruct (negb _); [done|].
    unfold rbind. destruct (iterM _ _ []) as [ps|]; [|done]. set (d1 := set_doc _ _ _ _ _ _ _).
    destruct (validateStaticScopes d1 _ 0 0) as [[]|] eqn:H1; [|done].
    destruct (validateAttributeSinks d1) as [b|] eqn:H2; [|done]. intros [= <-]. unfold validateAttributeSinks, rbind in H2.
    destruct (iterM _ (nodes d1) None) as [s|] eqn:H3; [|done]. injection H2 as <-. exists d1, s. by split_and!.
  - unfold rbind. destruct (organize_loop _ _ _ _ _ _ _ _) as [[secs ex]|]; [|done]. set (d1 := set_doc _ _ _ _ _ _ false).
    destruct (validateStaticScopes d1 _ 0 0) as [[]|] eqn:H1; [|done].
    destruct (validateAttributeSinks d1) as [b|] eqn:H2; [|done]. intros [= <-]. unfold validateAttributeSinks, rbind in H2.
    destruct (iterM _ (nodes d1) None) as [s|] eqn:H3; [|done]. injection H2 as <-. exists d1, s. by split_and!.
Qed.

(** Pushes and attribute sinks are static.  In every document the parser accepts, a
    [@push] stands outside every conditional, loop, [@with] and component call, and never in
    a component; an attribute sink stands only in a component, outside conditionals, loops,
    slots, error lists and component calls; and a component has one sink or none, as the
    document records. *)
Theorem pushes_and_sinks_are_static isPrint filePath name src doc :
  parseDocument isPrint filePath name src = Some (Ok doc) ->
  (forall ks m, below ks m (nodes doc) -> kind_of m = nodePush ->
     component doc = false /\ Forall (fun k => k ∉ [nodeComponent; nodeIf; nodeFor; nodeWith]) ks) /\
  (forall ks m, below ks m (nodes doc) -> consumes (fields_of m) = true ->
     component doc = true /\ Forall (fun k => k ∉ [nodeSlot; nodeErrors; nodeComponent; nodeIf; nodeFor; nodeWith]) ks) /\
  length (List.filter (fun n => consumes (fields_of n)) (walkNodes (nodes doc))) = (if attributeSink doc then 1 else 0)%nat.
Proof.
  intros Hp. unfold parseDocument in Hp.
  destruct (parse_answers isPrint filePath src (S (String.length src)) [] 0 0 []) with (a := 0%nat) as (x & Hx & Hans);
    [lia|by left|lia|constructor|lia|]. rewrite Hx in Hp. destruct x as [[[ns t] e]|]; [|done].
  destruct (Hans _ _ _ eq_refl) as (c & Ht & _). destruct (negb _); [done|]. injection Hp as Ho.
  pose proof (organize_checks _ _ _ Ho) as (d1 & s & Hn & Hc & Hscopes & Hsinks & Hsink).
  assert (Forall shaped (nodes doc)) as Hshaped.
  { destruct (tiles_shaped isPrint filePath src) as [Hsh _]. specialize (Hsh _ _ _ Ht).
    apply organize_spec in Ho as (_ & _ & _ & _ & Hfrom). unfold from_nodes in Hfrom. cbn in Hfrom. destruct (component doc).
    - destruct Hfrom as (i & pn & _ & _ & ->). apply Forall_app. split; [by apply Forall_take|by apply Forall_drop].
    - by rewrite Hfrom. }
  split_and!.
  - intros ks m Hb Hk. rewrite <- Hc. by destruct (scopes_sound d1 ks m _ 0 0 Hb Hshaped ltac:(lia) ltac:(lia) Hscopes Hk) as (_ & _ & ? & ?).
  - intros ks m Hb Hk. rewrite <- Hc. by destruct (sinks_sound d1 ks m _ _ _ _ Hb Hsinks Hk) as (? & _ & ?).
  - rewrite Hsink. apply iterM_counts in Hsinks; [|apply Forall_true; intros n; apply sinks_counts].
    unfold count in Hsinks. destruct s; cbn in *; lia.
Qed.

Lemma pushes_and_sinks_are_static_witness :
  exists doc, parseDocument (fun _ => true) "components/b.forge.html" "components/b" "@props(kind)<b @attributes()>{{.}}</b>" = Some (Ok doc) /\
    attributeSink doc = true /\ length (List.filter (fun n => consumes (fields_of n)) (walkNodes (nodes doc))) = 1%nat.
Proof.
  destruct (parseDocument (fun _ => true) "components/b.forge.html" "components/b" "@props(kind)<b @attributes()>{{.}}</b>") as [[doc|]|] eqn:Hp;
    try (vm_compute in Hp; discriminate Hp).
  destruct (pushes_and_sinks_are_static _ _ _ _ _ Hp) as (_ & _ & Hcount). exists doc. split; [reflexivity|].
  assert (attributeSink doc = true) as Hs by (vm_compute in Hp; injection Hp as <-; reflexivity).
  rewrite Hs in Hcount. split; [exact Hs|exact Hcount].
Defined.
