(* ===== verification/CliFields.v ===== *)
(** * Names, fields and relationships on the command line ([names.go], [resource_fields.go], [model_options.go])

    First [words], [snake], [pascal] and [pluralize], with what the generators use of
    [go/token], [go/ast] and [unicode].  The Unicode tables are the class [Unicode]; ASCII is
    spelled out, so only runes from 128 on are left to the tables.  Then the grammar of
    [--field], [--belongs-to] and [--choice-label] for [make:resource] and [make:model], with
    its reserved names, limits and collision checks. *)

From S2P Require Import Prelude GoStrings GoUtf8 GoQuote GoRegexp GoUrl GoText.
Local Open Scope go_scope.
Local Open Scope Z_scope.

Class Unicode : Type := {
  wideLetter : Z -> bool;
  wideDigit : Z -> bool;
  wideUpper : Z -> bool;
  wideToLower : Z -> Z;
  wideFold : Z -> Z
}.

(** Tables without a letter beyond ASCII. *)
Definition ascii_only : Unicode :=
  {| wideLetter := fun _ => false; wideDigit := fun _ => false; wideUpper := fun _ => false;
     wideToLower := id; wideFold := id |}.

Section Runes.
Context `{Unicode}.

Definition upper_rune (r : Z) : bool := (65 <=? r) && (r <=? 90).
Definition lower_rune (r : Z) : bool := (97 <=? r) && (r <=? 122).
Definition IsLetter (r : Z) : bool := if r <? 128 then upper_rune r || lower_rune r else wideLetter r.
Definition IsDigit (r : Z) : bool := if r <? 128 then (48 <=? r) && (r <=? 57) else wideDigit r.
Definition IsUpper (r : Z) : bool := if r <? 128 then upper_rune r else wideUpper r.
Definition lowerRune (r : Z) : Z := if r <? 128 then (if upper_rune r then r + 32 else r) else wideToLower r.
Definition foldRune (r : Z) : Z := if r <? 128 then (if upper_rune r then r + 32 else r) else wideFold r.

Definition asciiC (c : ascii) : bool := rng 0 127 c.

(** [strings.ToLower]: the text is re-encoded when it is not ASCII. *)
Definition unicode_ToLower (s : string) : string :=
  if all_chars asciiC s then ToLower s
  else foldr (fun r acc => AppendRune (lowerRune r) +:+ acc) EmptyString (runes s).

(** [strings.EqualFold]; [foldRune] picks one rune of each orbit of [unicode.SimpleFold]. *)
Definition EqualFold (s t : string) : bool := bool_decide (foldRune <$> runes s = foldRune <$> runes t).

(** [token.IsKeyword] *)
Definition keywords : list string :=
  ["break"; "case"; "chan"; "const"; "continue"; "default"; "defer"; "else"; "fallthrough"; "for"; "func"; "go";
   "goto"; "if"; "import"; "interface"; "map"; "package"; "range"; "return"; "select"; "struct"; "switch"; "type";
   "var"].
Definition IsKeyword (name : string) : bool := bool_decide (name ∈ keywords).

(** [token.IsIdentifier] *)
Definition identifier_start (r : Z) : bool := IsLetter r || (r =? 95).
Definition IsIdentifier (name : string) : bool :=
  match runes name with
  | [] => false
  | r :: rest => negb (IsKeyword name) && identifier_start r && forallb (fun c => identifier_start c || IsDigit c) rest
  end.

(** [ast.IsExported] *)
Definition IsExported (name : string) : bool :=
  match runes name with [] => false | r :: _ => IsUpper r end.
End Runes.

(** ** Words *)

Definition wordC : ascii -> bool := cls_or lowerC (cls_or upperC digitC).

(** [nonIdentifier.ReplaceAllString(value, " ")]: every longest run of other characters
    becomes one space; [inside] tells that the run has begun. *)
Fixpoint replace_nonIdentifier (inside : bool) (s : string) : string :=
  match s with
  | EmptyString => EmptyString
  | String c rest =>
      if wordC c then String c (replace_nonIdentifier false rest)
      else if inside then replace_nonIdentifier true rest
      else String " "%char (replace_nonIdentifier true rest)
  end.

(** [strings.Fields] on text whose only white space is the blank. *)
Definition Fields (s : string) : list string := List.filter (fun f => negb (bool_decide (f = EmptyString))) (Split s " ").

(** The inner loop of [words]: [prev] is the rune before, [current] the word so far. *)
Fixpoint split_words (prev : option ascii) (current s : string) : list string :=
  match s with
  | EmptyString => if bool_decide (current = EmptyString) then [] else [ToLower current]
  | String r rest =>
      let boundary :=
        match prev with
        | None => false
        | Some p => upperC r && (negb (upperC p) || match rest with String n _ => lowerC n | EmptyString => false end)
        end in
      if boundary then ToLower current :: split_words (Some r) (String r EmptyString) rest
      else split_words (Some r) (current +:+ String r EmptyString) rest
  end.
Definition words (value : string) : list string :=
  flat_map (split_words None EmptyString) (Fields (replace_nonIdentifier false value)).

Definition no_words : error := Errorf "name %q contains no letters or numbers".

Definition snake (value : string) : result string :=
  match words value with
  | [] => Err no_words
  | parts => Ok (Join parts "_")
  end.

Definition commonInitialisms : list string :=
  ["API"; "CPU"; "CSS"; "DNS"; "EOF"; "GUID"; "HTML"; "HTTP"; "HTTPS"; "ID"; "IP"; "JSON"; "QPS"; "RAM"; "RPC"; "SLA";
   "SMTP"; "SQL"; "SSH"; "TCP"; "TLS"; "TTL"; "UDP"; "UI"; "UID"; "UUID"; "URI"; "URL"; "UTF8"; "VM"; "XML"; "XSRF"; "XSS"].

(** The body of the loops of [pascal] and [resourceFieldLabel]. *)
Definition capitalized (part : string) : string :=
  if bool_decide (ToUpper part ∈ commonInitialisms) then ToUpper part
  else match part with EmptyString => EmptyString | String c rest => String (upper_char c) rest end.

Definition pascal (value : string) : result string :=
  match words value with
  | [] => Err no_words
  | parts => Ok (Join (capitalized <$> parts) EmptyString)
  end.

Definition vowelC : ascii -> bool := oneof "aeiou".
Definition pluralize (value : string) : string :=
  let n := String.length value in
  let before := match String.get (n - 2) value with Some c => vowelC c | None => false end in
  if HasSuffix value "y" && (1 <? n)%nat && negb before then take_string (n - 1) value +:+ "ies"
  else if existsb (HasSuffix value) ["s"; "x"; "z"; "ch"; "sh"] then value +:+ "es"
  else value +:+ "s".

Example words_request : words "HTTPRequest-log 2x" = ["http"; "request"; "log"; "2x"].
Proof. reflexivity. Qed.
Example pascal_user_id : pascal "user_id" = Ok "UserID".
Proof. reflexivity. Qed.
Example pluralize_ends : pluralize <$> ["category"; "day"; "box"; "post"] = ["categories"; "days"; "boxes"; "posts"].
Proof. reflexivity. Qed.

Definition maximumResourceFields : nat := 32.
Definition maximumResourceBelongsTo : nat := 8.
Definition maximumResourceFieldLength : Z := 256.
Definition maximumResourceIdentifier : Z := 63.

Inductive resourceFieldKind : Type :=
| resourceFieldString | resourceFieldText | resourceFieldInteger | resourceFieldBoolean.

#[export] Instance resourceFieldKind_eq_dec : EqDecision resourceFieldKind.
Proof. solve_decision. Defined.

Record resourceField : Type := {
  rf_Name : string; rf_GoName : string; rf_Label : string; rf_Kind : resourceFieldKind; rf_GoType : string;
  rf_DBType : string; rf_Required : bool; rf_Nullable : bool
}.

Record resourceBelongsTo : Type := {
  rb_Name : string; rb_GoName : string; rb_Label : string; rb_ForeignKey : string; rb_ForeignKeyGoName : string;
  rb_Target : string; rb_Required : bool; rb_ChoiceLabelName : string
}.

Definition set_choice_label (label : string) (r : resourceBelongsTo) : resourceBelongsTo :=
  {| rb_Name := rb_Name r; rb_GoName := rb_GoName r; rb_Label := rb_Label r; rb_ForeignKey := rb_ForeignKey r;
     rb_ForeignKeyGoName := rb_ForeignKeyGoName r; rb_Target := rb_Target r; rb_Required := rb_Required r;
     rb_ChoiceLabelName := label |}.

(** ** Grammars *)

(** [^[a-z][a-z0-9]*(?:_[a-z0-9]+)*$] *)
Definition snakeC : ascii -> bool := cls_or lowerC digitC.
Definition resourceFieldName : re :=
  RCat (RChar lowerC) (RCat (RStar (RChar snakeC))
    (RStar (RCat (RChar (fun c => bool_decide (c = "_"%char))) (RPlus (RChar snakeC))))).

(** [^[a-z][a-z0-9_]*$] *)
Definition databaseIdentifier : re :=
  RCat (RChar lowerC) (RStar (RChar (cls_or lowerC (cls_or digitC (fun c => bool_decide (c = "_"%char)))))).
Definition safeIdentifier (value : string) : bool := (byte_len value <=? 63) && re_match databaseIdentifier value.

Definition reservedResourceFieldNames : list string :=
  ["id"; "user_id"; "created_at"; "updated_at"; "version"; "owner"; "_token"; "_method"].
Definition reservedResourceFieldGoNames : list string :=
  ["ID"; "UserID"; "CreatedAt"; "UpdatedAt"; "Version"; "Owner"].

Record fieldGrammar : Type := {
  subject : string; target : string; reservedRawNames : list string; reservedGoNames : list string
}.
Definition resourceFieldGrammar : fieldGrammar :=
  {| subject := "resource"; target := "ExistingResource"; reservedRawNames := reservedResourceFieldNames;
     reservedGoNames := reservedResourceFieldGoNames |}.
Definition modelFieldGrammar : fieldGrammar :=
  {| subject := "model"; target := "ExistingModel";
     reservedRawNames := ["id"; "created_at"; "updated_at"; "version"; "_token"; "_method"];
     reservedGoNames := ["ID"; "CreatedAt"; "UpdatedAt"; "Version"] |}.

Definition resourceFieldLabel (name : string) : string := Join (capitalized <$> Split name "_") " ".

Section Parse.
Context `{Unicode} (grammar : fieldGrammar).

(** The condition both parsers put on a derived Go name. *)
Definition exported_identifier (goName : string) : bool :=
  IsIdentifier goName && IsExported goName && (byte_len goName <=? maximumResourceIdentifier).
Definition checked_pascal (name : string) (e : error) : result string :=
  match pascal name with
  | Ok goName => if exported_identifier goName then Ok goName else Err e
  | Err _ => Err e
  end.

(** The switch on the type of a field: its Go type and its database type. *)
Definition field_types (kind : string) : option (resourceFieldKind * string * string) :=
  if bool_decide (kind = "string") then Some (resourceFieldString, "string", "varchar(255)")
  else if bool_decide (kind = "text") then Some (resourceFieldText, "string", "text")
  else if bool_decide (kind = "integer") then Some (resourceFieldInteger, "int64", "bigint")
  else if bool_decide (kind = "boolean") then Some (resourceFieldBoolean, "bool", "boolean")
  else None.

Fixpoint modifiers (parts : list string) (required nullable : bool) : result (bool * bool) :=
  match parts with
  | [] => Ok (required, nullable)
  | modifier :: rest =>
      if bool_decide (modifier = "required") then
        if required then Err (Errorf "%s field %q repeats modifier required") else modifiers rest true nullable
      else if bool_decide (modifier = "nullable") then
        if nullable then Err (Errorf "%s field %q repeats modifier nullable") else modifiers rest required true
      else Err (Errorf "%s field %q has unknown modifier %q")
  end.

Definition parseField (specification : string) : result resourceField :=
  if bool_decide (specification = EmptyString) then Err (Errorf "%s field specification cannot be empty")
  else if byte_len specification >? maximumResourceFieldLength then Err (Errorf "%s field specification exceeds %d bytes")
  else if negb (bool_decide (TrimSpace specification = specification))
  then Err (Errorf "%s field specification %q cannot contain surrounding whitespace")
  else match Split specification ":" with
  | name :: kind :: rest =>
      if bool_decide (name ∈ reservedRawNames grammar) then Err (Errorf "%s field %q is reserved")
      else if negb (re_match resourceFieldName name) then Err (Errorf "%s field name %q must be lower_snake_case")
      else if negb (safeIdentifier name) || (byte_len name >? maximumResourceIdentifier)
      then Err (Errorf "%s field name %q is not a safe PostgreSQL identifier")
      else
        try goName := checked_pascal name (Errorf "%s field name %q does not produce a safe exported Go identifier") in
        if bool_decide (goName ∈ reservedGoNames grammar) then Err (Errorf "%s field %q produces reserved Go name %s")
        else match field_types kind with
        | None => Err (Errorf "%s field %q has unknown type %q")
        | Some (kind, goType, databaseType) =>
            try (required, nullable) := modifiers rest false false in
            if required && nullable then Err (Errorf "%s field %q cannot be both required and nullable")
            else Ok {| rf_Name := name; rf_GoName := goName; rf_Label := resourceFieldLabel name; rf_Kind := kind;
                       rf_GoType := if nullable then "*" +:+ goType else goType; rf_DBType := databaseType;
                       rf_Required := required || (negb required && negb nullable); rf_Nullable := nullable |}
        end
  | _ => Err (Errorf "%s field %q must use name:type[:required|nullable]")
  end.

Definition defaultResourceFields : list resourceField :=
  [{| rf_Name := "name"; rf_GoName := "Name"; rf_Label := "Name"; rf_Kind := resourceFieldString; rf_GoType := "string";
      rf_DBType := "text"; rf_Required := true; rf_Nullable := false |}].

(** The loop of [parseFields]. *)
Fixpoint parse_each (specifications : list string) (seenNames seenGoNames : gset string) : result (list resourceField) :=
  match specifications with
  | [] => Ok []
  | specification :: rest =>
      try field := parseField specification in
      if bool_decide (rf_Name field ∈ seenNames) then Err (Errorf "duplicate %s field %q")
      else if bool_decide (rf_GoName field ∈ seenGoNames)
      then Err (Errorf "%s fields %q and %q produce the same Go name %s")
      else
        try fields := parse_each rest ({[rf_Name field]} ∪ seenNames) ({[rf_GoName field]} ∪ seenGoNames) in
        Ok (field :: fields)
  end.

Definition parseFields (specifications : list string) : result (list resourceField) :=
  if bool_decide (specifications = []) then Ok defaultResourceFields
  else if (maximumResourceFields <? length specifications)%nat then Err (Errorf "%s fields exceed the maximum of %d")
  else parse_each specifications ∅ ∅.

Definition parseRequiredBelongsToWithGrammar (specification : string) : result resourceBelongsTo :=
  if bool_decide (specification = EmptyString) then Err (Errorf "belongs-to relationship specification cannot be empty")
  else if byte_len specification >? maximumResourceFieldLength
  then Err (Errorf "belongs-to relationship specification exceeds %d bytes")
  else if negb (bool_decide (TrimSpace specification = specification))
  then Err (Errorf "belongs-to relationship specification %q cannot contain surrounding whitespace")
  else match Split specification ":" with
  | [name; targetName] =>
      if negb (bool_decide (TrimSpace name = name)) || negb (bool_decide (TrimSpace targetName = targetName))
         || bool_decide (targetName = EmptyString)
      then Err (Errorf "belongs-to relationship %q must use name:%s without whitespace")
      else if bool_decide (name ∈ reservedRawNames grammar) then Err (Errorf "belongs-to relationship %q is reserved")
      else if negb (re_match resourceFieldName name)
      then Err (Errorf "belongs-to relationship name %q must be lower_snake_case")
      else if negb (safeIdentifier name) || (byte_len name >? maximumResourceIdentifier)
      then Err (Errorf "belongs-to relationship name %q is not a safe PostgreSQL identifier")
      else
        try goName := checked_pascal name
          (Errorf "belongs-to relationship name %q does not produce a safe exported Go identifier") in
        if bool_decide (goName ∈ reservedGoNames grammar)
        then Err (Errorf "belongs-to relationship %q produces reserved Go name %s")
        else let foreignKey := name +:+ "_id" in
        if bool_decide (foreignKey ∈ reservedRawNames grammar)
        then Err (Errorf "belongs-to relationship %q produces reserved foreign key %s")
        else if negb (safeIdentifier foreignKey) || (byte_len foreignKey >? maximumResourceIdentifier)
        then Err (Errorf "belongs-to relationship %q produces unsafe foreign key %q")
        else
          try foreignKeyGoName := checked_pascal foreignKey
            (Errorf "belongs-to relationship %q does not produce a safe foreign-key Go identifier") in
          if bool_decide (foreignKeyGoName ∈ reservedGoNames grammar)
          then Err (Errorf "belongs-to relationship %q produces reserved Go name %s")
          else
            let bad := Errorf "belongs-to relationship %q target %q does not produce valid Go identifiers" in
            try target := checked_pascal targetName bad in
            let packageName := ToLower target in
            if negb (IsIdentifier packageName) || IsKeyword packageName then Err bad
            else Ok {| rb_Name := name; rb_GoName := goName; rb_Label := resourceFieldLabel name;
                       rb_ForeignKey := foreignKey; rb_ForeignKeyGoName := foreignKeyGoName; rb_Target := target;
                       rb_Required := true; rb_ChoiceLabelName := EmptyString |}
  | _ => Err (Errorf "belongs-to relationship %q must use name:%s")
  end.

(** The loop of [parseBelongsTo]. *)
Fixpoint belongs_each (subjectType : string) (specifications : list string) (seenNames : gset string)
    : result (list resourceBelongsTo) :=
  match specifications with
  | [] => Ok []
  | specification :: rest =>
      try relation := parseRequiredBelongsToWithGrammar specification in
      if bool_decide (rb_Name relation ∈ seenNames) then Err (Errorf "duplicate belongs-to relationship %q")
      else if bool_decide (rb_Target relation = subjectType)
      then Err (Errorf "belongs-to relationship %q cannot target its own %s %s")
      else
        try relations := belongs_each subjectType rest ({[rb_Name relation]} ∪ seenNames) in
        Ok (relation :: relations)
  end.

Definition parseBelongsTo (subjectName : string) (specifications : list string) : result (list resourceBelongsTo) :=
  if (maximumResourceBelongsTo <? length specifications)%nat
  then Err (Errorf "%s relationships exceed the maximum of %d")
  else if bool_decide (specifications = []) then Ok []
  else try subjectType := pascal subjectName in belongs_each subjectType specifications ∅.

(** ** Collisions *)

Definition claim (name : string) (names : gset string) : result (gset string) :=
  if bool_decide (name ∈ names) then Err (Errorf "%s %s %s conflicts with %s") else Ok ({[name]} ∪ names).

Fixpoint claim_fields (fields : list resourceField) (rawNames goNames : gset string) : result (gset string * gset string) :=
  match fields with
  | [] => Ok (rawNames, goNames)
  | field :: rest =>
      try rawNames := claim (rf_Name field) rawNames in
      try goNames := claim (rf_GoName field) goNames in
      claim_fields rest rawNames goNames
  end.
Fixpoint claim_relations (relations : list resourceBelongsTo) (rawNames goNames : gset string)
    : result (gset string * gset string) :=
  match relations with
  | [] => Ok (rawNames, goNames)
  | relation :: rest =>
      try rawNames := claim (rb_Name relation) rawNames in
      try rawNames := claim (rb_ForeignKey relation) rawNames in
      try goNames := claim (rb_GoName relation) goNames in
      try goNames := claim (rb_ForeignKeyGoName relation) goNames in
      claim_relations rest rawNames goNames
  end.
Definition validateMemberCollisions (fields : list resourceField) (belongsTo : list resourceBelongsTo) : result unit :=
  try (rawNames, goNames) := claim_fields fields ∅ ∅ in
  try (_, _) := claim_relations belongsTo rawNames goNames in
  Ok tt.
End Parse.
Arguments parseField {_} grammar specification.
Arguments parseFields {_} grammar specifications.
Arguments parseBelongsTo {_} grammar subjectName specifications.

(** ** Choice labels *)

(** The inner loop: the first relationship of that name gets the label. *)
Fixpoint label_relation (name label : string) (relations : list resourceBelongsTo) : option (list resourceBelongsTo) :=
  match relations with
  | [] => None
  | relation :: rest =>
      if bool_decide (rb_Name relation = name) then Some (set_choice_label label relation :: rest)
      else option_map (cons relation) (label_relation name label rest)
  end.

Fixpoint apply_labels (relationships : list resourceBelongsTo) (specifications : list string) (seen : gset string)
    : result (list resourceBelongsTo) :=
  match specifications with
  | [] => Ok relationships
  | specification :: rest =>
      let bad := Errorf "choice-label %q must use relationship:field with lower_snake_case names" in
      match Split specification ":" with
      | [name; label] =>
          if (byte_len specification >? maximumResourceFieldLength) || negb (re_match resourceFieldName name)
             || negb (re_match resourceFieldName label) then Err bad
          else if bool_decide (name ∈ seen) then Err (Errorf "duplicate choice-label declaration for relationship %q")
          else match label_relation name label relationships with
          | None => Err (Errorf "choice-label %q names an undeclared belongs-to relationship")
          | Some relationships' => apply_labels relationships' rest ({[name]} ∪ seen)
          end
      | _ => Err bad
      end
  end.
Definition applyResourceChoiceLabels (relationships : list resourceBelongsTo) (specifications : list string) :=
  apply_labels relationships specifications ∅.

(** ** Arguments *)

Definition resourceUsageError : error :=
  Errorf "usage: forge make:resource <name> [--field <name>:<string|text|integer|boolean>[:required|nullable]]... [--belongs-to <name>:<ExistingResource>]... [--choice-label <relationship>:<field>]...".
Definition modelUsageError : error :=
  Errorf "usage: forge make:model <name> [--field <name>:<string|text|integer|boolean>[:required|nullable]]... [--belongs-to <name>:<ExistingModel>]...".

Record specifications : Type := { sp_fields : list string; sp_belongsTo : list string; sp_labels : list string }.
Definition add_field (v : string) (s : specifications) : specifications :=
  {| sp_fields := sp_fields s ++ [v]; sp_belongsTo := sp_belongsTo s; sp_labels := sp_labels s |}.
Definition add_belongsTo (v : string) (s : specifications) : specifications :=
  {| sp_fields := sp_fields s; sp_belongsTo := sp_belongsTo s ++ [v]; sp_labels := sp_labels s |}.
Definition add_label (v : string) (s : specifications) : specifications :=
  {| sp_fields := sp_fields s; sp_belongsTo := sp_belongsTo s; sp_labels := sp_labels s ++ [v] |}.

(** The loop over the arguments.  The commands differ in [--choice-label], which only
    [make:resource] has, and in their messages. *)
Fixpoint collect (labels : bool) (unknown : string) (usage : error) (arguments : list string) (s : specifications)
    : result specifications :=
  let field_missing := Err (Wrapf "--field requires a field specification; %w" usage) in
  let relation_missing := Err (Wrapf "--belongs-to requires a relationship specification; %w" usage) in
  match arguments with
  | [] => Ok s
  | argument :: rest =>
      if bool_decide (argument = "--field") then
        match rest with
        | value :: rest' => if HasPrefix value "--" then field_missing
                            else collect labels unknown usage rest' (add_field value s)
        | [] => field_missing
        end
      else if HasPrefix argument "--field=" then
        let value := TrimPrefix argument "--field=" in
        if bool_decide (value = EmptyString) then field_missing
        else collect labels unknown usage rest (add_field value s)
      else if bool_decide (argument = "--belongs-to") then
        match rest with
        | value :: rest' => if HasPrefix value "--" then relation_missing
                            else collect labels unknown usage rest' (add_belongsTo value s)
        | [] => relation_missing
        end
      else if HasPrefix argument "--belongs-to=" then
        let value := TrimPrefix argument "--belongs-to=" in
        if bool_decide (value = EmptyString) then relation_missing
        else collect labels unknown usage rest (add_belongsTo value s)
      else if labels && bool_decide (argument = "--choice-label") then
        let missing := Err (Wrapf "--choice-label requires relationship:field; %w" usage) in
        match rest with
        | value :: rest' => if HasPrefix value "--" then missing
                            else collect labels unknown usage rest' (add_label value s)
        | [] => missing
        end
      else if labels && HasPrefix argument "--choice-label=" then
        collect labels unknown usage rest (add_label (TrimPrefix argument "--choice-label=") s)
      else Err (Wrapf unknown usage)
  end.
Definition no_specifications : specifications := {| sp_fields := []; sp_belongsTo := []; sp_labels := [] |}.

Section Arguments.
Context `{Unicode}.

Definition parseMakeResourceArguments (arguments : list string)
    : result (string * list resourceField * list resourceBelongsTo * bool) :=
  match arguments with
  | [] => Err resourceUsageError
  | name :: rest =>
      if HasPrefix name "--" then Err resourceUsageError
      else
        try s := collect true "unknown resource option %q; %w" resourceUsageError rest no_specifications in
        try fields := parseFields resourceFieldGrammar (sp_fields s) in
        try belongsTo := parseBelongsTo resourceFieldGrammar name (sp_belongsTo s) in
        try _ := validateMemberCollisions fields belongsTo in
        try belongsTo := applyResourceChoiceLabels belongsTo (sp_labels s) in
        Ok (name, fields, belongsTo, negb (bool_decide (sp_fields s = [])) || negb (bool_decide (sp_belongsTo s = [])))
  end.

Definition wrapped {A} (format : string) (r : result A) : result A :=
  match r with Ok a => Ok a | Err e => Err (Wrapf format e) end.

Definition parseModelFields (specs : list string) : result (list resourceField) :=
  if bool_decide (specs = []) then Ok [] else parseFields modelFieldGrammar specs.

Definition parseMakeModelArguments (arguments : list string)
    : result (string * list resourceField * list resourceBelongsTo) :=
  match arguments with
  | [] => Err modelUsageError
  | name :: rest =>
      if HasPrefix name "--" then Err modelUsageError
      else
        try s := collect false "unknown model option %q; %w" modelUsageError rest no_specifications in
        try fields := wrapped "invalid model field: %w" (parseModelFields (sp_fields s)) in
        try relationships := wrapped "invalid model relationship: %w"
          (parseBelongsTo modelFieldGrammar name (sp_belongsTo s)) in
        try _ := wrapped "invalid model members: %w" (validateMemberCollisions fields relationships) in
        Ok (name, fields, relationships)
  end.
End Arguments.

Example make_post : exists fields belongsTo,
  parseMakeResourceArguments (H := ascii_only)
    ["post"; "--field"; "title:string"; "--field=body:text:nullable"; "--belongs-to"; "blog:Blog"; "--choice-label=blog:title"]
  = Ok ("post", fields, belongsTo, true)
  /\ rf_GoType <$> fields = ["string"; "*string"] /\ rb_ForeignKeyGoName <$> belongsTo = ["BlogID"].
Proof. do 2 eexists. split_and!; [vm_compute; reflexivity|vm_compute; reflexivity|vm_compute; reflexivity]. Qed.
