(* ===== verification/CliTags.v ===== *)
(** * Struct tags and column types of models ([internal/cli/model_schema.go], first part)

    The [forge] and [db] struct tags, the options in them, and which Go types, database types
    and defaults go together. *)

From S2P Require Import Prelude GoStrings GoRegexp GoUtf8 GoQuote GoUrl GoText CliFields.
Local Open Scope go_scope.
Local Open Scope Z_scope.

(** ** Struct tags *)

(** [strings.TrimLeftFunc(raw, unicode.IsSpace)] *)
Definition TrimLeftSpace (s : string) : string := trim_left_fuel (String.length s) spaceEncodings s.

(** The inner loop: how many bytes stand before the closing quote. *)
Fixpoint value_end (s : string) : option nat :=
  match s with
  | EmptyString => None
  | String c rest =>
      if bool_decide (c = backslash)
      then match rest with EmptyString => None | String _ rest' => option_map (fun n => S (S n)) (value_end rest') end
      else if bool_decide (c = dquote) then Some O
      else option_map S (value_end rest)
  end.

(** The loop of [sourceStructTag]; every round consumes bytes of [raw]. *)
Fixpoint struct_tag (fuel : nat) (wanted raw : string) (found : option string) : result string :=
  let raw := TrimLeftSpace raw in
  match fuel with
  | O => Ok (default EmptyString found)
  | S n =>
      if bool_decide (raw = EmptyString) then Ok (default EmptyString found)
      else match IndexByte raw ":" with
      | None | Some O => Err (Errorf "malformed struct tag")
      | Some colon =>
          match drop_string (S colon) raw with
          | String q rest =>
              if negb (bool_decide (q = dquote)) then Err (Errorf "malformed struct tag")
              else match value_end rest with
              | None => Err (Errorf "unterminated struct tag value")
              | Some e =>
                  match Unquote (String q (take_string (S e) rest)) with
                  | None => Err (Wrapf "invalid struct tag value: %w" (Sentinel "strconv.ErrSyntax"))
                  | Some value =>
                      let raw' := drop_string (S e) rest in
                      if bool_decide (take_string colon raw = wanted) then
                        match found with
                        | Some _ => Err (Errorf "duplicate %s struct tag")
                        | None => struct_tag n wanted raw' (Some value)
                        end
                      else struct_tag n wanted raw' found
                  end
              end
          | EmptyString => Err (Errorf "malformed struct tag")
          end
      end
  end.
Definition sourceStructTag (literal wanted : string) : result string :=
  match Unquote literal with
  | None => Err (Wrapf "invalid struct tag: %w" (Sentinel "strconv.ErrSyntax"))
  | Some raw => struct_tag (S (String.length raw)) wanted raw None
  end.

Definition modelFieldTags (tag : option string) : result (string * string) :=
  match tag with
  | None => Ok (EmptyString, EmptyString)
  | Some literal =>
      try forge := sourceStructTag literal "forge" in
      try db := sourceStructTag literal "db" in
      Ok (forge, db)
  end.

(** ** Options *)

(** The loop of [splitForgeTag]; [current] is the part that [start] points to. *)
Fixpoint split_tag (s current : string) (depth : Z) (quote : option ascii) (escaped : bool) : result (list string) :=
  match s with
  | EmptyString =>
      if bool_decide (quote <> None) || negb (depth =? 0) then Err (Errorf "unterminated forge tag value") else Ok [current]
  | String c rest =>
      let longer := current +:+ String c EmptyString in
      if escaped then split_tag rest longer depth quote false
      else match quote with
      | Some q =>
          if bool_decide (c = backslash) then split_tag rest longer depth quote true
          else if bool_decide (c = q) then split_tag rest longer depth None false
          else split_tag rest longer depth quote false
      | None =>
          if bool_decide (c = squote) || bool_decide (c = dquote) then split_tag rest longer depth (Some c) false
          else if bool_decide (c = "("%char) then split_tag rest longer (depth + 1) None false
          else if bool_decide (c = ")"%char) then
            if depth - 1 <? 0 then Err (Errorf "unbalanced forge tag parentheses")
            else split_tag rest longer (depth - 1) None false
          else if bool_decide (c = ","%char) && (depth =? 0) then
            try parts := split_tag rest EmptyString depth None false in Ok (current :: parts)
          else split_tag rest longer depth None false
      end
  end.
Definition splitForgeTag (value : string) : result (list string) := split_tag value EmptyString 0 None false.

Record forgeOptions : Type := { flags : gset string; values : gmap string string }.
Definition no_options : forgeOptions := {| flags := ∅; values := ∅ |}.
(** [options.values[key]]: a missing key reads as the empty string. *)
Definition option_value (key : string) (o : forgeOptions) : string := default EmptyString (values o !! key).
Definition option_flag (key : string) (o : forgeOptions) : bool := bool_decide (key ∈ flags o).

Definition safeOptionName (value : string) : bool :=
  negb (bool_decide (value = EmptyString)) && all_chars (cls_or lowerC (fun c => bool_decide (c = "_"%char))) value.

Fixpoint add_options (parts : list string) (o : forgeOptions) : result forgeOptions :=
  match parts with
  | [] => Ok o
  | part :: rest =>
      let part := TrimSpace part in
      if bool_decide (part = EmptyString) then Err (Errorf "empty forge tag option")
      else
        let '(key, value, hasValue) := Cut part "=" in
        if negb (safeOptionName key) then Err (Errorf "unsafe forge tag option %q")
        else if bool_decide (key ∈ flags o) || bool_decide (is_Some (values o !! key))
        then Err (Errorf "duplicate forge tag option %s")
        else if hasValue then
          let value := TrimSpace value in
          if bool_decide (value = EmptyString) then Err (Errorf "forge tag option %s has no value")
          else add_options rest {| flags := flags o; values := <[key := value]> (values o) |}
        else add_options rest {| flags := {[key]} ∪ flags o; values := values o |}
  end.
Definition parseForgeOptions (value : string) : result forgeOptions :=
  if bool_decide (value = EmptyString) then Ok no_options
  else try parts := splitForgeTag value in add_options parts no_options.

Definition relationBelongsTo : string := "belongs_to".
Definition relationHasOne : string := "has_one".
Definition relationHasMany : string := "has_many".
Definition relationManyToMany : string := "many_to_many".
Definition relation_kinds : list string := [relationBelongsTo; relationHasOne; relationHasMany; relationManyToMany].

Definition relationKind (o : forgeOptions) : string :=
  match List.filter (fun kind => option_flag kind o) relation_kinds with
  | [] => EmptyString
  | [kind] => kind
  | _ => "multiple"
  end.

Definition validateOptions (o : forgeOptions) (allowedFlags allowedValues : list string) : result unit :=
  if negb (bool_decide (flags o ⊆ list_to_set allowedFlags)) then Err (Errorf "unsupported forge flag %s")
  else if negb (bool_decide (dom (values o) ⊆@{gset string} list_to_set allowedValues))
  then Err (Errorf "unsupported forge option %s")
  else if bool_decide (relationKind o = "multiple") then Err (Errorf "a field cannot declare multiple relation kinds")
  else Ok tt.

(** ** Types *)

Definition builtinColumnType (name : string) : option (string * string) :=
  if bool_decide (name = "string") then Some ("text", "string")
  else if bool_decide (name = "bool") then Some ("boolean", "bool")
  else if bool_decide (name ∈ ["int8"; "int16"]) then Some ("smallint", "integer")
  else if bool_decide (name ∈ ["int"; "int32"; "uint8"; "uint16"]) then Some ("integer", "integer")
  else if bool_decide (name ∈ ["int64"; "uint"; "uint32"; "uint64"]) then Some ("bigint", "integer")
  else if bool_decide (name = "float32") then Some ("real", "float")
  else if bool_decide (name = "float64") then Some ("double precision", "float")
  else None.

(** Database type, family and whether the Go type has a null value. *)
Definition importedColumnType (importPath name : string) : option (string * string * bool) :=
  let key := importPath +:+ "." +:+ name in
  if bool_decide (key = "time.Time") then Some ("timestamptz", "time", false)
  else if bool_decide (key = "encoding/json.RawMessage") then Some ("jsonb", "json", false)
  else if bool_decide (key = "database/sql.NullString") then Some ("text", "string", true)
  else if bool_decide (key = "database/sql.NullBool") then Some ("boolean", "bool", true)
  else if bool_decide (key = "database/sql.NullInt16") then Some ("smallint", "integer", true)
  else if bool_decide (key = "database/sql.NullInt32") then Some ("integer", "integer", true)
  else if bool_decide (key = "database/sql.NullInt64") then Some ("bigint", "integer", true)
  else if bool_decide (key = "database/sql.NullFloat64") then Some ("double precision", "float", true)
  else if bool_decide (key = "database/sql.NullTime") then Some ("timestamptz", "time", true)
  else None.

Definition digit : re := RChar digitC.
Definition digit1 : re := RChar (rng 49 57).
Definition ROpt (r : re) : re := RAlt REps r.
Fixpoint RUpTo (n : nat) (r : re) : re := match n with O => REps | S n' => ROpt (RCat r (RUpTo n' r)) end.

(** [^(?:varchar|character varying)\([1-9][0-9]{0,5}\)$] *)
Definition sizedDatabaseType : re :=
  RCat (RAlt (RLit "varchar") (RLit "character varying")) (RCat (RLit "(") (RCat digit1 (RCat (RUpTo 5 digit) (RLit ")")))).
(** [^numeric\([1-9][0-9]{0,3}(?:,[0-9]{1,3})?\)$] *)
Definition numericDatabaseType : re :=
  RCat (RLit "numeric(") (RCat digit1 (RCat (RUpTo 3 digit)
    (RCat (ROpt (RCat (RLit ",") (RCat digit (RUpTo 2 digit)))) (RLit ")")))).
(** [^[+-]?[0-9]+$], [^[+-]?(?:[0-9]+\.[0-9]+|[0-9]+)$], [^'(?:[^']|'')*'$] *)
Definition sign : re := ROpt (RChar (oneof "+-")).
Definition integerDefault : re := RCat sign (RPlus digit).
Definition decimalDefault : re := RCat sign (RAlt (RCat (RPlus digit) (RCat (RLit ".") (RPlus digit))) (RPlus digit)).
Definition quotedDefault : re :=
  RCat (RLit "'") (RCat (RStar (RAlt (RChar (fun c => negb (bool_decide (c = squote)))) (RLit "''"))) (RLit "'")).

Definition plain_types : list string :=
  ["smallint"; "integer"; "bigint"; "real"; "double precision"; "numeric"; "boolean"; "text"; "bytea"; "date";
   "timestamp"; "timestamptz"; "uuid"; "json"; "jsonb"].
Definition safeDatabaseType (value : string) : bool :=
  bool_decide (value ∈ plain_types) || re_match sizedDatabaseType value || re_match numericDatabaseType value.

Definition compatibleDatabaseType (family value : string) : bool :=
  let base := match IndexByte value "(" with Some i => take_string i value | None => value end in
  if bool_decide (family = "string") then bool_decide (base ∈ ["text"; "varchar"; "character varying"; "uuid"])
  else if bool_decide (family = "integer") then bool_decide (base ∈ ["smallint"; "integer"; "bigint"; "numeric"])
  else if bool_decide (family = "float") then bool_decide (base ∈ ["real"; "double precision"; "numeric"])
  else if bool_decide (family = "bool") then bool_decide (base = "boolean")
  else if bool_decide (family = "bytes") then bool_decide (base = "bytea")
  else if bool_decide (family = "time") then bool_decide (base ∈ ["date"; "timestamp"; "timestamptz"])
  else if bool_decide (family = "json") then bool_decide (base ∈ ["json"; "jsonb"; "bytea"])
  else false.

Section Types.
Context `{Unicode}.

(** [normalize] in [databaseTypesCompatible] *)
Definition normalized_type (value : string) : string :=
  let value := unicode_ToLower (TrimSpace value) in
  if HasPrefix value "varchar(" || HasPrefix value "character varying(" || bool_decide (value = "text") then "text"
  else value.
Definition databaseTypesCompatible (left right : string) : bool :=
  bool_decide (normalized_type left = normalized_type right).

Definition unsafeC : ascii -> bool :=
  fun c => bool_decide (c ∈ [";"%char; chr 13; chr 10; chr 0]).
Definition named_defaults : list string := ["true"; "false"; "null"; "now()"; "current_timestamp"; "gen_random_uuid()"].
Definition safeDefault (value : string) : bool :=
  if negb (bool_decide (TrimSpace value = value)) || negb (all_chars (fun c => negb (unsafeC c)) value)
     || Contains value "--" || Contains value "/*" || Contains value "*/" then false
  else bool_decide (unicode_ToLower value ∈ named_defaults)
       || re_match integerDefault value || re_match decimalDefault value || re_match quotedDefault value.

Definition compatibleDefault (family dbType : string) (nullable : bool) (value : string) : bool :=
  let lower := unicode_ToLower value in
  if bool_decide (lower = "null") then nullable
  else if bool_decide (lower = "now()") || bool_decide (lower = "current_timestamp") then bool_decide (family = "time")
  else if bool_decide (lower = "gen_random_uuid()") then bool_decide (family = "string") && bool_decide (dbType = "uuid")
  else if bool_decide (lower = "true") || bool_decide (lower = "false") then bool_decide (family = "bool")
  else if re_match quotedDefault value then bool_decide (family = "string") || bool_decide (family = "time")
  else if re_match decimalDefault value then bool_decide (family = "integer") || bool_decide (family = "float")
  else false.
End Types.

Example options_split : exists o, parseForgeOptions "required, type=numeric(8,2),default='a,b'" = Ok o
  /\ option_value "type" o = "numeric(8,2)" /\ option_value "default" o = "'a,b'" /\ option_flag "required" o = true.
Proof. eexists. split_and!; [vm_compute; reflexivity|reflexivity..]. Qed.
