(* ===== verification/CliSchema.v ===== *)
(** * The model schema ([internal/cli/model_schema.go])

    From the Go sources of an application's models to the schema of the generators.  The
    syntax trees are data; [parser.ParseFile] and the directory are arguments.  A line is
    kept where the code asks for the line of a position; the text of a type that the code
    refuses is kept as it is printed.

    [validateModelLinks] writes the table and the column of a reference into the models that
    the map shares; nothing of the schema reads these two, so the model returns the new
    definition instead. *)

From S2P Require Import Prelude GoStrings GoRegexp GoUtf8 GoQuote GoUrl GoText CliFields CliTags.
Local Open Scope go_scope.
Local Open Scope Z_scope.

(** ** Syntax trees *)

Record astField (A : Type) : Type := { af_line : Z; af_names : list string; af_type : A; af_tag : option string }.
Arguments af_line {A} _.
Arguments af_names {A} _.
Arguments af_type {A} _.
Arguments af_tag {A} _.

Inductive expr : Type :=
| Ident (name : string)
| StarExpr (x : expr)
| ArrayType (len : option expr) (elt : expr)
| SelectorExpr (x : expr) (sel : string)
| StructType (line : Z) (text : string) (fields : list (astField expr))
| OtherExpr (text : string).

(** [formatExpression]: [format.Node] on a type. *)
Fixpoint formatExpression (e : expr) : string :=
  match e with
  | Ident name => name
  | StarExpr x => "*" +:+ formatExpression x
  | ArrayType None elt => "[]" +:+ formatExpression elt
  | ArrayType (Some len) elt => "[" +:+ formatExpression len +:+ "]" +:+ formatExpression elt
  | SelectorExpr x sel => formatExpression x +:+ "." +:+ sel
  | StructType _ text _ => text
  | OtherExpr text => text
  end.

Record typeSpec : Type := { ts_line : Z; ts_name : string; ts_generic : bool; ts_type : expr }.
Inductive decl : Type :=
| FuncDecl (method : bool) (name : string)
| TypeDecl (specs : list typeSpec)
| ValueDecl (specs : list (list string))
| ImportDecl.
Record importSpec : Type := { is_line : Z; is_name : option string; is_path : string }.

(** Comments know whether they start before the package clause. *)
Record comment : Type := { c_before : bool; c_text : string }.
Record commentGroup : Type := { g_before : bool; g_list : list comment }.
Record astFile : Type := {
  f_package : string; f_package_line : Z; f_imports : list importSpec; f_decls : list decl; f_comments : list commentGroup
}.

Record parsedModelFile : Type := { pf_name : string; pf_file : astFile; pf_imports : gmap string string }.
Record scalarType : Type := { sc_expression : expr; sc_file : parsedModelFile }.

(** ** The schema *)

Record modelReference : Type := { ref_Model : string; ref_Field : string; ref_Table : string; ref_Column : string }.
Record modelField : Type := {
  mf_Name : string; mf_GoType : string; mf_GeneratedGoType : string; mf_GoImportPath : string; mf_Column : string;
  mf_DBType : string; mf_Primary : bool; mf_Generated : bool; mf_Protected : bool; mf_Required : bool; mf_Nullable : bool;
  mf_Default : option string; mf_Indexed : bool; mf_Unique : bool; mf_Reference : option modelReference;
  mf_OnDelete : string; mf_SourceLine : Z; mf_typeFamily : string
}.
Record modelRelation : Type := {
  mr_Name : string; mr_Kind : string; mr_Target : string; mr_Pointer : bool; mr_ForeignKey : string; mr_References : string;
  mr_TargetKey : string; mr_JoinTable : string; mr_JoinForeignKey : string; mr_JoinReferenceKey : string;
  mr_SourceLine : Z
}.
Record modelDefinition : Type := {
  md_Name : string; md_Table : string; md_SourceFile : string; md_Fields : list modelField; md_Relations : list modelRelation
}.
Record modelSchema : Type := { Models : list modelDefinition; DeclaredNames : list string }.
Record parsedModel : Type := { pm_definition : modelDefinition; pm_file : parsedModelFile }.

Definition schemaError (line : Z) (format : string) : error :=
  Errorf ((if line >? 0 then "%s:%d: " else "%s: ") +:+ format).
Definition at_line {A} (line : Z) (format : string) (r : result A) : result A :=
  match r with Ok a => Ok a | Err e => Err (Wrapf ((if line >? 0 then "%s:%d: " else "%s: ") +:+ format) e) end.

Definition fieldMap (m : modelDefinition) : gmap string modelField :=
  list_to_map (reverse ((fun f => (mf_Name f, f)) <$> md_Fields m)).

(** ** Files *)

Definition knownGOOS : list string :=
  ["aix"; "android"; "darwin"; "dragonfly"; "freebsd"; "illumos"; "ios"; "js"; "linux"; "netbsd"; "openbsd"; "plan9";
   "solaris"; "wasip1"; "windows"].
Definition knownGOARCH : list string :=
  ["386"; "amd64"; "amd64p32"; "arm"; "arm64"; "loong64"; "mips"; "mips64"; "mips64le"; "mipsle"; "ppc64"; "ppc64le";
   "riscv64"; "s390x"; "sparc64"; "wasm"].

Definition constrainedModelFilename (name : string) : bool :=
  match reverse (Split (TrimSuffix name ".go") "_") with
  | last :: before :: rest =>
      bool_decide (last ∈ knownGOOS) || bool_decide (last ∈ knownGOARCH)
      || match rest with
         | [] => false
         | _ => bool_decide (before ∈ knownGOOS) && bool_decide (last ∈ knownGOARCH)
         end
  | _ => false
  end.

Definition hasBuildConstraint (file : astFile) : bool :=
  existsb (fun group => g_before group &&
    existsb (fun c => let text := TrimSpace (TrimPrefix (c_text c) "//") in
                      HasPrefix text "go:build" || HasPrefix text "+build") (g_list group)) (f_comments file).

(** [ast.IsGenerated] *)
Definition generated_line (line : string) : bool :=
  HasPrefix line "// Code generated " && HasSuffix (TrimPrefix line "// Code generated ") " DO NOT EDIT.".
Fixpoint generated_comments (cs : list comment) : bool :=
  match cs with
  | [] => false
  | c :: rest => c_before c && (existsb generated_line (Split (c_text c) newline) || generated_comments rest)
  end.
Definition IsGenerated (file : astFile) : bool := existsb (fun g => generated_comments (g_list g)) (f_comments file).

(** [path.Base] *)
Definition path_Base (p : string) : string :=
  match List.filter (fun s => negb (bool_decide (s = EmptyString))) (Split p "/") with
  | [] => if bool_decide (p = EmptyString) then "." else "/"
  | parts => List.last parts EmptyString
  end.

Fixpoint add_imports (imports : list importSpec) (m : gmap string string) : result (gmap string string) :=
  match imports with
  | [] => Ok m
  | item :: rest =>
      match Unquote (is_path item) with
      | None => Err (schemaError (is_line item) "invalid import path: %v")
      | Some importPath =>
          let alias := default (path_Base importPath) (is_name item) in
          if bool_decide (alias = ".")
          then Err (schemaError (is_line item) "dot imports cannot be resolved by the model generator")
          else if bool_decide (alias = "_") then add_imports rest m
          else if match m !! alias with Some previous => negb (bool_decide (previous = importPath)) | None => false end
          then Err (schemaError (is_line item) "import alias %s is ambiguous")
          else add_imports rest (<[alias := importPath]> m)
      end
  end.
Definition modelImports (file : astFile) : result (gmap string string) := add_imports (f_imports file) ∅.

Section Schema.
Context `{Unicode}.

(** ** Columns *)

Definition strip_star (e : expr) : bool * expr := match e with StarExpr x => (true, x) | _ => (false, e) end.

(** The Go type as printed, the database type, the family and whether the type has a null
    value.  Each step through a declared scalar type adds a name to [visiting]. *)
Fixpoint classify (fuel : nat) (scalars : gmap string scalarType) (file : parsedModelFile) (visiting : gset string)
    (e : expr) : result (string * string * string * bool) :=
  let goType := formatExpression e in
  let '(pointer, item) := strip_star e in
  match item with
  | Ident name =>
      match scalars !! name with
      | Some scalar =>
          if bool_decide (name ∈ visiting) then Err (Errorf "scalar type cycle involving %s")
          else match fuel with
          | O => Err (Errorf "scalar type cycle involving %s")
          | S n =>
              try (_, dbType, family, nullable) :=
                classify n scalars (sc_file scalar) ({[name]} ∪ visiting) (sc_expression scalar) in
              Ok (goType, dbType, family, pointer || nullable)
          end
      | None =>
          match builtinColumnType name with
          | Some (dbType, family) => Ok (goType, dbType, family, pointer)
          | None => Err (Errorf "unsupported Go type %s")
          end
      end
  | ArrayType None (Ident "byte") => Ok (goType, "bytea", "bytes", pointer)
  | SelectorExpr (Ident alias) sel =>
      match pf_imports file !! alias with
      | None => Err (Errorf "import alias %s cannot be resolved")
      | Some importPath =>
          match importedColumnType importPath sel with
          | Some (dbType, family, nullable) => Ok (goType, dbType, family, pointer || nullable)
          | None => Err (Errorf "unsupported imported Go type %s from %s")
          end
      end
  | SelectorExpr _ _ => Err (Errorf "unsupported qualified Go type %s")
  | _ => Err (Errorf "unsupported Go type %s")
  end.
Definition classifyColumnType (scalars : gmap string scalarType) (file : parsedModelFile) (e : expr) :=
  classify (S (size scalars)) scalars file ∅ e.

Definition generated_alias (importPath : string) : option string :=
  if bool_decide (importPath = "time") then Some "time"
  else if bool_decide (importPath = "encoding/json") then Some "json"
  else if bool_decide (importPath = "database/sql") then Some "sql"
  else None.
Definition generatedColumnType (file : parsedModelFile) (e : expr) : result (string * string) :=
  let '(pointer, item) := strip_star e in
  let prefix := if pointer : bool then "*" else EmptyString in
  match item with
  | Ident name => Ok (prefix +:+ name, EmptyString)
  | ArrayType None (Ident "byte") => Ok (prefix +:+ "[]byte", EmptyString)
  | SelectorExpr (Ident alias) sel =>
      match pf_imports file !! alias with
      | None => Err (Errorf "import alias %s cannot be resolved")
      | Some importPath =>
          match generated_alias importPath with
          | None => Err (Errorf "unsupported imported Go type %s from %s")
          | Some generatedAlias => Ok (prefix +:+ generatedAlias +:+ "." +:+ sel, importPath)
          end
      end
  | _ => Err (Errorf "unsupported Go type %s")
  end.

Definition parseReference (value : string) : result (option modelReference) :=
  if bool_decide (value = EmptyString) then Ok None
  else
    let '(model, field, ok) := Cut value "." in
    if negb ok || Contains field "." || negb (IsIdentifier model) || negb (IsExported model) || negb (IsIdentifier field)
       || negb (IsExported field)
    then Err (Errorf "references must use Model.Field, got %q")
    else Ok (Some {| ref_Model := model; ref_Field := field; ref_Table := EmptyString; ref_Column := EmptyString |}).

Definition column_flags : list string := ["primary"; "generated"; "protected"; "required"; "nullable"; "index"; "unique"].
Definition column_values : list string := ["type"; "default"; "references"; "on_delete"].

Definition column_type (line : Z) (family inferred : string) (options : forgeOptions) : result string :=
  let explicit := option_value "type" options in
  if bool_decide (explicit = EmptyString) then Ok inferred
  else
    let explicit := unicode_ToLower (TrimSpace explicit) in
    if negb (safeDatabaseType explicit) || negb (compatibleDatabaseType family explicit)
    then Err (schemaError line "field %s has unsupported database type %q for %s")
    else Ok explicit.
Definition column_default (line : Z) (family dbType : string) (nullable : bool) (options : forgeOptions)
    : result (option string) :=
  let value := option_value "default" options in
  if bool_decide (value = EmptyString) then Ok None
  else if negb (safeDefault value) || negb (compatibleDefault family dbType nullable value)
  then Err (schemaError line "field %s has unsafe or unsupported default %q")
  else Ok (Some value).
Definition column_on_delete (line : Z) (reference : option modelReference) (nullable : bool) (options : forgeOptions)
    : result string :=
  let onDelete := option_value "on_delete" options in
  if bool_decide (onDelete = EmptyString) then Ok onDelete
  else if bool_decide (reference = None) then Err (schemaError line "field %s declares on_delete without references")
  else if negb (bool_decide (onDelete ∈ ["cascade"; "restrict"; "set_null"; "no_action"]))
  then Err (schemaError line "field %s has unsupported on_delete action %q")
  else if bool_decide (onDelete = "set_null") && negb nullable
  then Err (schemaError line "field %s uses set_null but is required")
  else Ok onDelete.

Definition parseColumn (file : parsedModelFile) (field : astField expr) (name dbTag : string) (options : forgeOptions)
    (scalars : gmap string scalarType) : result modelField :=
  let line := af_line field in
  try _ := at_line line "field %s: %v" (validateOptions options column_flags column_values) in
  try (goType, inferredDBType, family, pointerNullable) :=
    at_line line "field %s: %v" (classifyColumnType scalars file (af_type field)) in
  try (generatedGoType, importPath) := at_line line "field %s: %v" (generatedColumnType file (af_type field)) in
  try column := (if bool_decide (dbTag = EmptyString)
                 then at_line line "field %s: derive column: %v" (snake name) else Ok dbTag) in
  if bool_decide (column = "-") || negb (safeIdentifier column)
  then Err (schemaError line "field %s has unsafe column name %q")
  else
    try dbType := column_type line family inferredDBType options in
    let required := option_flag "required" options in
    let nullable := option_flag "nullable" options in
    if Bool.eqb required nullable
    then Err (schemaError line "field %s must declare exactly one of required or nullable")
    else if negb (Bool.eqb pointerNullable nullable)
    then Err (schemaError line "field %s pointer/null wrapper and nullable metadata disagree")
    else if option_flag "primary" options && (negb required || option_flag "generated" options && pointerNullable)
    then Err (schemaError line "primary field %s must be required and non-nullable")
    else if option_flag "generated" options && negb (bool_decide (option_value "default" options = EmptyString))
    then Err (schemaError line "generated field %s cannot also declare a default")
    else
      try defaultValue := column_default line family dbType nullable options in
      try reference := at_line line "field %s: %v" (parseReference (option_value "references" options)) in
      try onDelete := column_on_delete line reference nullable options in
      Ok {| mf_Name := name; mf_GoType := goType; mf_GeneratedGoType := generatedGoType; mf_GoImportPath := importPath;
            mf_Column := column; mf_DBType := dbType; mf_Primary := option_flag "primary" options;
            mf_Generated := option_flag "generated" options; mf_Protected := option_flag "protected" options;
            mf_Required := required; mf_Nullable := nullable; mf_Default := defaultValue;
            mf_Indexed := option_flag "index" options; mf_Unique := option_flag "unique" options;
            mf_Reference := reference; mf_OnDelete := onDelete; mf_SourceLine := line; mf_typeFamily := family |}.

(** ** Relations *)

(** Target, whether the field is a collection, whether it holds pointers. *)
Definition relationFieldTarget (e : expr) : result (string * bool * bool) :=
  let '(pointer, item) := strip_star e in
  let '(collection, pointer, item) :=
    match item with
    | ArrayType None elt => let '(star, elt) := strip_star elt in (true, pointer || star, elt)
    | _ => (false, pointer, item)
    end in
  match item with
  | Ident name => if IsExported name then Ok (name, collection, pointer)
                  else Err (Errorf "field type must be a local exported model or slice of models")
  | _ => Err (Errorf "field type must be a local exported model or slice of models")
  end.

Definition relation_values : list string :=
  ["target"; "foreign_key"; "references"; "target_key"; "join_table"; "join_foreign_key"; "join_reference_key"].
Definition exported_name (name : string) : bool := IsIdentifier name && IsExported name.
Definition is_empty (s : string) : bool := bool_decide (s = EmptyString).

Definition parseRelation (field : astField expr) (name kind : string) (options : forgeOptions) : result modelRelation :=
  let line := af_line field in
  try _ := at_line line "relation %s: %v" (validateOptions options relation_kinds relation_values) in
  let target := option_value "target" options in
  if is_empty target || negb (exported_name target)
  then Err (schemaError line "relation %s requires an exported target model")
  else
    try (declaredTarget, collection, pointer) := at_line line "relation %s: %v" (relationFieldTarget (af_type field)) in
    if negb (bool_decide (declaredTarget = target))
    then Err (schemaError line "relation %s target %s does not match field type %s")
    else if negb (Bool.eqb (bool_decide (kind = relationHasMany) || bool_decide (kind = relationManyToMany)) collection)
    then Err (schemaError line "relation %s has incompatible field shape for %s")
    else
      let relation :=
        {| mr_Name := name; mr_Kind := kind; mr_Target := target; mr_Pointer := pointer;
           mr_ForeignKey := option_value "foreign_key" options; mr_References := option_value "references" options;
           mr_TargetKey := option_value "target_key" options; mr_JoinTable := option_value "join_table" options;
           mr_JoinForeignKey := option_value "join_foreign_key" options;
           mr_JoinReferenceKey := option_value "join_reference_key" options; mr_SourceLine := line |} in
      if existsb (fun key => negb (is_empty key) && negb (exported_name key))
           [mr_ForeignKey relation; mr_References relation; mr_TargetKey relation]
      then Err (schemaError line "relation %s has unsafe %s %q")
      else if bool_decide (kind = relationManyToMany) then
        if is_empty (mr_References relation) || is_empty (mr_TargetKey relation) || is_empty (mr_JoinTable relation)
           || is_empty (mr_JoinForeignKey relation) || is_empty (mr_JoinReferenceKey relation)
           || negb (is_empty (mr_ForeignKey relation))
        then Err (schemaError line "many_to_many relation %s requires references, target_key, join_table, join_foreign_key, and join_reference_key")
        else if existsb (fun key => negb (safeIdentifier key))
                  [mr_JoinTable relation; mr_JoinForeignKey relation; mr_JoinReferenceKey relation]
        then Err (schemaError line "relation %s has unsafe %s %q")
        else Ok relation
      else if is_empty (mr_ForeignKey relation) || is_empty (mr_References relation)
              || negb (is_empty (mr_TargetKey relation)) || negb (is_empty (mr_JoinTable relation))
              || negb (is_empty (mr_JoinForeignKey relation)) || negb (is_empty (mr_JoinReferenceKey relation))
      then Err (schemaError line "%s relation %s requires exactly foreign_key and references")
      else Ok relation.

(** ** One model *)

Record building : Type := {
  bd_table : string; bd_fields : list modelField; bd_relations : list modelRelation; bd_columns : gset string;
  bd_names : gset string; bd_primaries : nat; bd_declared : bool
}.

Definition model_field (file : parsedModelFile) (scalars : gmap string scalarType) (field : astField expr) (s : building)
    : result building :=
  let line := af_line field in
  match af_names field with
  | [] => Err (schemaError line "model %s cannot contain embedded fields")
  | _ :: _ :: _ => Err (schemaError line "model fields must be declared one name per line")
  | [fieldName] =>
      try (forgeTag, dbTag) := at_line line "field %s: %v" (modelFieldTags (af_tag field)) in
      try options := at_line line "field %s: %v" (parseForgeOptions forgeTag) in
      if bool_decide (fieldName = "_") then
        let table := option_value "table" options in
        if bd_declared s || negb (bool_decide (flags options = ∅)) || negb (size (values options) =? 1)%nat
           || is_empty table || negb (is_empty dbTag)
        then Err (schemaError line "model metadata must be `_ struct{} forge:table=table_name")
        else match af_type field with
        | StructType _ _ [] =>
            if negb (safeIdentifier table) then Err (schemaError line "unsafe table name %q")
            else Ok {| bd_table := table; bd_fields := bd_fields s; bd_relations := bd_relations s;
                       bd_columns := bd_columns s; bd_names := bd_names s; bd_primaries := bd_primaries s;
                       bd_declared := true |}
        | _ => Err (schemaError line "model table metadata must use struct{}")
        end
      else if negb (IsExported fieldName) then Err (schemaError line "field %s must be exported")
      else if bool_decide (fieldName ∈ bd_names s) then Err (schemaError line "duplicate field %s")
      else
        let names := {[fieldName]} ∪ bd_names s in
        if option_flag "ignore" options then
          if negb (size (flags options) =? 1)%nat || negb (bool_decide (values options = ∅)) || negb (is_empty dbTag)
          then Err (schemaError line "ignore cannot be combined with persistence metadata")
          else Ok {| bd_table := bd_table s; bd_fields := bd_fields s; bd_relations := bd_relations s;
                     bd_columns := bd_columns s; bd_names := names; bd_primaries := bd_primaries s;
                     bd_declared := bd_declared s |}
        else
          let kind := relationKind options in
          if negb (is_empty kind) then
            try relation := parseRelation field fieldName kind options in
            Ok {| bd_table := bd_table s; bd_fields := bd_fields s; bd_relations := bd_relations s ++ [relation];
                  bd_columns := bd_columns s; bd_names := names; bd_primaries := bd_primaries s;
                  bd_declared := bd_declared s |}
          else
            try f := parseColumn file field fieldName dbTag options scalars in
            if bool_decide (mf_Column f ∈ bd_columns s)
            then Err (schemaError line "duplicate column %s used by fields %s and %s")
            else Ok {| bd_table := bd_table s; bd_fields := bd_fields s ++ [f]; bd_relations := bd_relations s;
                       bd_columns := {[mf_Column f]} ∪ bd_columns s; bd_names := names;
                       bd_primaries := if mf_Primary f then S (bd_primaries s) else bd_primaries s;
                       bd_declared := bd_declared s |}
  end.

Fixpoint model_fields (file : parsedModelFile) (scalars : gmap string scalarType) (fields : list (astField expr))
    (s : building) : result building :=
  match fields with
  | [] => Ok s
  | field :: rest => try s := model_field file scalars field s in model_fields file scalars rest s
  end.

Definition parseModelDefinition (file : parsedModelFile) (name : string) (line : Z) (fields : list (astField expr))
    (scalars : gmap string scalarType) : result modelDefinition :=
  try tableBase := at_line line "derive table for %s: %v" (snake name) in
  let derivedTable := pluralize tableBase in
  if negb (safeIdentifier derivedTable) then Err (schemaError line "model %s derives unsafe table name %q")
  else
    try s := model_fields file scalars fields
      {| bd_table := derivedTable; bd_fields := []; bd_relations := []; bd_columns := ∅; bd_names := ∅;
         bd_primaries := 0; bd_declared := false |} in
    if bool_decide (bd_fields s = []) then Err (schemaError line "model %s has no persistent fields")
    else if negb (bd_primaries s =? 1)%nat then Err (schemaError line "model %s must declare exactly one primary field")
    else Ok {| md_Name := name; md_Table := bd_table s; md_SourceFile := pf_name file; md_Fields := bd_fields s;
               md_Relations := bd_relations s |}.

(** ** Links between models *)

Definition key_field (f : modelField) : bool := mf_Primary f || mf_Unique f.

Definition set_reference (r : modelReference) (f : modelField) : modelField :=
  {| mf_Name := mf_Name f; mf_GoType := mf_GoType f; mf_GeneratedGoType := mf_GeneratedGoType f;
     mf_GoImportPath := mf_GoImportPath f; mf_Column := mf_Column f; mf_DBType := mf_DBType f; mf_Primary := mf_Primary f;
     mf_Generated := mf_Generated f; mf_Protected := mf_Protected f; mf_Required := mf_Required f;
     mf_Nullable := mf_Nullable f; mf_Default := mf_Default f; mf_Indexed := mf_Indexed f; mf_Unique := mf_Unique f;
     mf_Reference := Some r; mf_OnDelete := mf_OnDelete f; mf_SourceLine := mf_SourceLine f;
     mf_typeFamily := mf_typeFamily f |}.

Definition link_field (models : gmap string modelDefinition) (field : modelField) : result modelField :=
  let line := mf_SourceLine field in
  match mf_Reference field with
  | None => Ok field
  | Some reference =>
      match models !! ref_Model reference with
      | None => Err (schemaError line "field %s references missing model %s")
      | Some target =>
          match fieldMap target !! ref_Field reference with
          | None => Err (schemaError line "field %s references missing key %s.%s")
          | Some targetField =>
              if negb (key_field targetField) then Err (schemaError line "field %s references non-key field %s.%s")
              else if negb (databaseTypesCompatible (mf_DBType field) (mf_DBType targetField))
              then Err (schemaError line "field %s type is incompatible with %s.%s")
              else Ok (set_reference {| ref_Model := ref_Model reference; ref_Field := ref_Field reference;
                                        ref_Table := md_Table target; ref_Column := mf_Column targetField |} field)
          end
      end
  end.

(** Whether a field's reference is [model.field]. *)
Definition references_key (model field : string) (f : modelField) : bool :=
  match mf_Reference f with
  | None => false
  | Some r => bool_decide (ref_Model r = model) && bool_decide (ref_Field r = field)
  end.

(** The keys of a relation on both sides, and the complaint if the foreign key on one of them
    does not agree with the relation. *)
Definition relation_keys (model target : modelDefinition) (relation : modelRelation)
    : option modelField * option modelField * option string :=
  let fields := fieldMap model in
  let targetFields := fieldMap target in
  if bool_decide (mr_Kind relation = relationBelongsTo) then
    let localKey := fields !! mr_ForeignKey relation in
    (localKey, targetFields !! mr_References relation,
     match localKey with
     | Some k => if references_key (md_Name target) (mr_References relation) k then None
                 else Some "belongs_to relation %s does not match %s reference metadata"
     | None => None
     end)
  else if bool_decide (mr_Kind relation = relationHasOne) || bool_decide (mr_Kind relation = relationHasMany) then
    let remoteKey := targetFields !! mr_ForeignKey relation in
    (fields !! mr_References relation, remoteKey,
     match remoteKey with
     | Some k => if references_key (md_Name model) (mr_References relation) k then None
                 else Some "%s relation %s does not match %s.%s reference metadata"
     | None => None
     end)
  else if bool_decide (mr_Kind relation = relationManyToMany) then
    (fields !! mr_References relation, targetFields !! mr_TargetKey relation, None)
  else (None, None, None).

Definition signature (r : modelRelation) : string :=
  Join [mr_Kind r; mr_Target r; mr_ForeignKey r; mr_References r; mr_TargetKey r; mr_JoinTable r; mr_JoinForeignKey r;
        mr_JoinReferenceKey r] "|".

Definition check_relation (models : gmap string modelDefinition) (model : modelDefinition) (relation : modelRelation)
    (seen : gset string) : result (gset string) :=
  let line := mr_SourceLine relation in
  match models !! mr_Target relation with
  | None => Err (schemaError line "relation %s targets missing model %s")
  | Some target =>
      match relation_keys model target relation with
      | (_, _, Some complaint) => Err (schemaError line complaint)
      | (None, _, None) => Err (schemaError line "relation %s uses missing local key")
      | (Some _, None, None) => Err (schemaError line "relation %s uses missing target key")
      | (Some localKey, Some remoteKey, None) =>
              let belongs := bool_decide (mr_Kind relation = relationBelongsTo) in
              if negb (key_field localKey) && negb belongs
              then Err (schemaError line "relation %s local reference is not a key")
              else if (belongs || bool_decide (mr_Kind relation = relationManyToMany)) && negb (key_field remoteKey)
              then Err (schemaError line "relation %s target reference is not a key")
              else if negb (databaseTypesCompatible (mf_DBType localKey) (mf_DBType remoteKey))
              then Err (schemaError line "relation %s key types are incompatible")
              else if bool_decide (signature relation ∈ seen)
              then Err (schemaError line "relation %s is ambiguous with %s")
              else Ok ({[signature relation]} ∪ seen)
      end
  end.

Definition mapR {A B} (f : A -> result B) : list A -> result (list B) :=
  fix go (l : list A) : result (list B) :=
    match l with
    | [] => Ok []
    | x :: rest => try y := f x in try ys := go rest in Ok (y :: ys)
    end.
Definition foldR {A S} (f : A -> S -> result S) : list A -> S -> result S :=
  fix go (l : list A) (s : S) : result S :=
    match l with [] => Ok s | x :: rest => try s := f x s in go rest s end.

Definition validateModelLinks (models : gmap string modelDefinition) (model : modelDefinition) : result modelDefinition :=
  try fields := mapR (link_field models) (md_Fields model) in
  let model := {| md_Name := md_Name model; md_Table := md_Table model; md_SourceFile := md_SourceFile model;
                  md_Fields := fields; md_Relations := md_Relations model |} in
  try _ := foldR (check_relation models model) (md_Relations model) ∅ in
  Ok model.

(** ** Foreign-key cycles *)

(** The models a model refers to, without itself and without repetitions. *)
Definition reference_targets (model : modelDefinition) : list string :=
  foldl (fun targets field =>
    match mf_Reference field with
    | Some r => if bool_decide (ref_Model r = md_Name model) || bool_decide (ref_Model r ∈ targets) then targets
                else targets ++ [ref_Model r]
    | None => targets
    end) [] (md_Fields model).
Definition edges (models : list modelDefinition) : gmap string (list string) :=
  foldl (fun m model => <[md_Name model := sort_strings (default [] (m !! md_Name model) ++ reference_targets model)]> m)
    ∅ models.

Inductive mark : Type := onStack | finished_.
#[export] Instance mark_eq_dec : EqDecision mark.
Proof. solve_decision. Defined.

(** What a visit ends with: the marks, a cycle to report, or an index past the end of the
    stack while the start of the cycle is searched for. *)
Inductive visited : Type :=
| Visited (state : gmap string mark)
| Cycle (cycle : list string)
| OutOfRange.

Fixpoint stack_from (stack : list string) (target : string) : option (list string) :=
  match stack with
  | [] => None
  | name :: rest => if bool_decide (name = target) then Some stack else stack_from rest target
  end.

Section Visit.
Context (graph : gmap string (list string)).

Definition visit_targets (visit : string -> gmap string mark -> option visited) (stack : list string)
    : list string -> gmap string mark -> option visited :=
  fix go (targets : list string) (state : gmap string mark) : option visited :=
    match targets with
    | [] => Some (Visited state)
    | target :: rest =>
        match state !! target with
        | None =>
            match visit target state with
            | Some (Visited state) => go rest state
            | other => other
            end
        | Some onStack =>
            match stack_from stack target with
            | Some cycle => Some (Cycle (cycle ++ [target]))
            | None => Some OutOfRange
            end
        | Some finished_ => go rest state
        end
    end.

Fixpoint visit_model (fuel : nat) (stack : list string) (name : string) (state : gmap string mark) : option visited :=
  match fuel with
  | O => None
  | S n =>
      let stack := stack ++ [name] in
      match visit_targets (visit_model n stack) stack (default [] (graph !! name)) (<[name := onStack]> state) with
      | Some (Visited state) => Some (Visited (<[name := finished_]> state))
      | other => other
      end
  end.
Fixpoint visit_all (fuel : nat) (names : list string) (state : gmap string mark) : option visited :=
  match names with
  | [] => Some (Visited state)
  | name :: rest =>
      match state !! name with
      | None => match visit_model fuel [] name state with
                | Some (Visited state) => visit_all fuel rest state
                | other => other
                end
      | Some _ => visit_all fuel rest state
      end
  end.
End Visit.

(** A name on the path is a model, except for the last. *)
Definition rejectReferenceCycles (models : list modelDefinition) : option visited :=
  visit_all (edges models) (S (S (length models))) (md_Name <$> models) ∅.

(** ** Names of indexes and constraints *)

Definition claim_identifier (line : Z) (name owner : string) (seen : gmap string string) : result (gmap string string) :=
  if negb (safeIdentifier name)
  then Err (schemaError line "generated database identifier %q for %s exceeds PostgreSQL's 63-byte limit")
  else if match seen !! name with Some previous => negb (bool_decide (previous = owner)) | None => false end
  then Err (schemaError line "generated database identifier %q for %s conflicts with %s")
  else Ok (<[name := owner]> seen).

(** The identifiers of a field, of a relation and of a model, with their owners and lines. *)
Definition field_identifiers (model : modelDefinition) (f : modelField) : list (Z * string * string) :=
  let owner := md_Name model +:+ "." +:+ mf_Name f in
  let base := md_Table model +:+ "_" +:+ mf_Column f in
  (if mf_Indexed f then [(mf_SourceLine f, base +:+ "_idx", owner +:+ " index")] else []) ++
  (if mf_Unique f then [(mf_SourceLine f, base +:+ "_key", owner +:+ " unique constraint")] else []) ++
  (if bool_decide (mf_Reference f = None) then [] else [(mf_SourceLine f, base +:+ "_fkey", owner +:+ " foreign key")]).
Definition relation_identifiers (model : modelDefinition) (r : modelRelation) : list (Z * string * string) :=
  if negb (bool_decide (mr_Kind r = relationManyToMany)) then []
  else
    let owner := md_Name model +:+ "." +:+ mr_Name r +:+ " " in
    let foreign := mr_JoinTable r +:+ "_" +:+ mr_JoinForeignKey r in
    let reference := mr_JoinTable r +:+ "_" +:+ mr_JoinReferenceKey r in
    [(mr_SourceLine r, foreign +:+ "_idx", owner +:+ "join foreign index");
     (mr_SourceLine r, reference +:+ "_idx", owner +:+ "join reference index");
     (mr_SourceLine r, foreign +:+ "_fkey", owner +:+ "join foreign constraint");
     (mr_SourceLine r, reference +:+ "_fkey", owner +:+ "join reference constraint");
     (mr_SourceLine r, foreign +:+ "_" +:+ mr_JoinReferenceKey r +:+ "_key", owner +:+ "join unique constraint")].
Definition model_identifiers (model : modelDefinition) : list (Z * string * string) :=
  (0, md_Table model +:+ "_pkey", md_Name model +:+ " primary key") ::
  flat_map (field_identifiers model) (md_Fields model) ++ flat_map (relation_identifiers model) (md_Relations model).
Definition validateGeneratedDatabaseNames (models : list modelDefinition) : result (gmap string string) :=
  foldR (fun '(line, name, owner) => claim_identifier line name owner) (flat_map model_identifiers models) ∅.

(** ** The whole directory *)

Definition declared_by (d : decl) : list string :=
  match d with
  | FuncDecl method name => if method then [] else [name]
  | TypeDecl specs => ts_name <$> specs
  | ValueDecl specs => concat specs
  | ImportDecl => []
  end.
Definition type_specs (file : parsedModelFile) : list (parsedModelFile * typeSpec) :=
  flat_map (fun d => match d with TypeDecl specs => (fun s => (file, s)) <$> specs | _ => [] end) (f_decls (pf_file file)).
Definition all_type_specs (files : list parsedModelFile) : list (parsedModelFile * typeSpec) := flat_map type_specs files.

Definition add_scalar '((file, spec) : parsedModelFile * typeSpec) (scalars : gmap string scalarType)
    : result (gmap string scalarType) :=
  match ts_type spec with
  | StructType _ _ _ => Ok scalars
  | e => if bool_decide (is_Some (scalars !! ts_name spec)) then Err (schemaError (ts_line spec) "duplicate type %s")
         else Ok (<[ts_name spec := {| sc_expression := e; sc_file := file |}]> scalars)
  end.

Record collected : Type := { cl_parsed : list parsedModel; cl_models : gset string; cl_tables : gset string }.
Definition add_model (scalars : gmap string scalarType) '((file, spec) : parsedModelFile * typeSpec) (s : collected)
    : result collected :=
  match ts_type spec with
  | StructType struct_line _ fields =>
      let line := ts_line spec in
      let name := ts_name spec in
      if ts_generic spec then Err (schemaError line "model %s cannot be generic")
      else if negb (IsExported name) then Err (schemaError line "model %s must be exported")
      else if bool_decide (is_Some (scalars !! name)) then Err (schemaError line "model %s conflicts with scalar type in %s")
      else if bool_decide (name ∈ cl_models s) then Err (schemaError line "duplicate model %s (first declared in %s)")
      else
        try definition := parseModelDefinition file name struct_line fields scalars in
        if bool_decide (md_Table definition ∈ cl_tables s)
        then Err (schemaError line "duplicate table %s used by %s and %s")
        else Ok {| cl_parsed := cl_parsed s ++ [{| pm_definition := definition; pm_file := file |}];
                   cl_models := {[name]} ∪ cl_models s; cl_tables := {[md_Table definition]} ∪ cl_tables s |}
  | _ => Ok s
  end.

Fixpoint insert_model (m : modelDefinition) (l : list modelDefinition) : list modelDefinition :=
  match l with
  | [] => [m]
  | m' :: rest => if String.leb (md_Name m) (md_Name m') then m :: l else m' :: insert_model m rest
  end.
Definition sort_models (l : list modelDefinition) : list modelDefinition := foldr insert_model [] l.

(** What [parseModelSchema] does with the files it has parsed. *)
Definition schema_of_files (files : list parsedModelFile) : result modelSchema :=
  let declaredNames : gset string := list_to_set (flat_map (fun f => flat_map declared_by (f_decls (pf_file f))) files) in
  try scalars := foldR add_scalar (all_type_specs files) ∅ in
  try s := foldR (add_model scalars) (all_type_specs files) {| cl_parsed := []; cl_models := ∅; cl_tables := ∅ |} in
  if bool_decide (length (cl_parsed s) = 0%nat) then Err (Errorf "model directory %s declares no struct models")
  else
    let parsed := sort_models (pm_definition <$> cl_parsed s) in
    let models := list_to_map ((fun m => (md_Name m, m)) <$> parsed) in
    try parsed := mapR (validateModelLinks models) parsed in
    try _ := validateGeneratedDatabaseNames parsed in
    match rejectReferenceCycles parsed with
    | Some (Visited _) => Ok {| Models := parsed; DeclaredNames := sort_strings (elements declaredNames) |}
    | Some (Cycle cycle) =>
        Err (schemaError 0 ("foreign-key cycle cannot be emitted as ordered create-table migrations: " +:+ Join cycle " -> "))
    | _ => Err (Errorf "runtime error: index out of range")
    end.

(** A directory: its entries with what reading each of them gives. *)
Record dirEntry : Type := { de_name : string; de_isDir : bool; de_read : result string }.

Context (ParseFile : string -> string -> result astFile).

Definition is_model_source (e : dirEntry) : bool :=
  negb (de_isDir e) && HasSuffix (de_name e) ".go" && negb (HasSuffix (de_name e) "_test.go").
Fixpoint insert_entry (e : dirEntry) (l : list dirEntry) : list dirEntry :=
  match l with
  | [] => [e]
  | e' :: rest => if String.leb (de_name e) (de_name e') then e :: l else e' :: insert_entry e rest
  end.
Definition sort_entries (l : list dirEntry) : list dirEntry := foldr insert_entry [] l.

(** One file: [None] for one that is skipped. *)
Definition parse_model_file (e : dirEntry) : result (option parsedModelFile) :=
  let name := de_name e in
  try source := (match de_read e with Ok s => Ok s | Err err => Err (Wrapf "read model source %s: %w" err) end) in
  if HasPrefix source "// Code generated by GoForge. DO NOT EDIT." then Ok None
  else
    try file := (match ParseFile name source with Ok f => Ok f | Err err => Err (Wrapf "parse model source %s: %w" err) end) in
    if constrainedModelFilename name || hasBuildConstraint file
    then Err (schemaError 1 "model files cannot use build constraints")
    else if IsGenerated file then Ok None
    else if negb (bool_decide (f_package file = "models"))
    then Err (schemaError (f_package_line file) "package must be models, got %s")
    else
      try imports := modelImports file in
      Ok (Some {| pf_name := name; pf_file := file; pf_imports := imports |}).

Definition parseModelSchema (directory : result (list dirEntry)) : result modelSchema :=
  try entries := (match directory with Ok l => Ok l | Err err => Err (Wrapf "read model directory: %w" err) end) in
  match sort_entries (List.filter is_model_source entries) with
  | [] => Err (Errorf "model directory %s contains no Go source files")
  | sources => try files := mapR parse_model_file sources in schema_of_files (omap id files)
  end.
End Schema.
