(* ===== verification/CliOrm.v ===== *)
(** * ORM generation ([internal/cli/orm_generate.go])

    From the model schema to the data of the template that writes the typed ORM, and the
    command that keeps the generated file current.  Rendering the template is an argument. *)

From S2P Require Import Prelude GoStrings GoRegexp GoUtf8 GoQuote GoUrl GoText CliFields CliTags CliSchema.
Local Open Scope go_scope.
Local Open Scope Z_scope.

Record ormTemplateField : Type := { tf_Name : string; tf_Column : string; tf_Type : string; tf_CreatePartial : bool }.
Record ormTemplateRelation : Type := {
  tr_Name : string; tr_Kind : string; tr_Target : string; tr_DescriptorType : string; tr_Factory : string;
  tr_ParentColumn : string; tr_TargetColumn : string; tr_ParentKeyType : string; tr_TargetKeyType : string;
  tr_ParentKeyField : string; tr_TargetKeyField : string; tr_ParentKeyValue : string; tr_TargetKeyValue : string;
  tr_ParentKeyConditional : bool; tr_TargetKeyConditional : bool; tr_ParentKeyPointer : bool; tr_TargetKeyPointer : bool;
  tr_Pointer : bool; tr_Collection : bool; tr_JoinTable : string; tr_JoinForeignKey : string; tr_JoinReferenceKey : string;
  tr_TargetFields : list ormTemplateField
}.
Record ormTemplateModel : Type := {
  tm_Name : string; tm_Table : string; tm_Accessor : string; tm_Fields : list ormTemplateField;
  tm_CreateFields : list ormTemplateField; tm_ChangeFields : list ormTemplateField; tm_Relations : list ormTemplateRelation
}.
Record ormTemplateData : Type := { td_Imports : list (string * string); td_Models : list ormTemplateModel }.

(** ** Keys of relations *)

(** The type inside one of the null wrappers of [database/sql], and the field that holds it. *)
Definition null_wrapper (t : string) : option (string * string) :=
  if bool_decide (t = "sql.NullString") then Some ("string", ".String")
  else if bool_decide (t = "sql.NullInt64") then Some ("int64", ".Int64")
  else if bool_decide (t = "sql.NullInt32") then Some ("int32", ".Int32")
  else if bool_decide (t = "sql.NullInt16") then Some ("int16", ".Int16")
  else if bool_decide (t = "sql.NullByte") then Some ("byte", ".Byte")
  else if bool_decide (t = "sql.NullFloat64") then Some ("float64", ".Float64")
  else if bool_decide (t = "sql.NullBool") then Some ("bool", ".Bool")
  else if bool_decide (t = "sql.NullTime") then Some ("time.Time", ".Time")
  else None.

Definition relationFieldValueType (field : modelField) : string :=
  let t := mf_GeneratedGoType field in
  if HasPrefix t "*" then TrimPrefix t "*"
  else match null_wrapper t with Some (value, _) => value | None => t end.

Definition text_key (field : modelField) : bool :=
  bool_decide (mf_typeFamily field = "bytes") || bool_decide (mf_typeFamily field = "json").
Definition normalizedRelationKeyType (field : modelField) : string :=
  if text_key field then "string" else relationFieldValueType field.

Definition relationKeyCallback (field : modelField) (keyType selector : string) : string * bool :=
  let t := mf_GeneratedGoType field in
  let '(value, conditional) :=
    if HasPrefix t "*" then ("*" +:+ selector, true)
    else match null_wrapper t with
         | Some (_, suffix) => (selector +:+ suffix, true)
         | None => (selector, false)
         end in
  (if text_key field then "string(" +:+ value +:+ ")"
   else if negb (bool_decide (relationFieldValueType field = keyType)) then keyType +:+ "(" +:+ value +:+ ")"
   else value, conditional).

Definition ormFieldMap (m : modelDefinition) : gmap string modelField := fieldMap m.

(** The fields a relation joins on each side, or [None] for an unknown kind. *)
Definition relation_fields (model target : modelDefinition) (relation : modelRelation)
    : option (option modelField * option modelField) :=
  let localFields := ormFieldMap model in
  let targetFields := ormFieldMap target in
  let kind := mr_Kind relation in
  if bool_decide (kind = relationBelongsTo)
  then Some (localFields !! mr_ForeignKey relation, targetFields !! mr_References relation)
  else if bool_decide (kind = relationHasOne) || bool_decide (kind = relationHasMany)
  then Some (localFields !! mr_References relation, targetFields !! mr_ForeignKey relation)
  else if bool_decide (kind = relationManyToMany)
  then Some (localFields !! mr_References relation, targetFields !! mr_TargetKey relation)
  else None.

Definition buildORMTemplateRelation (model : modelDefinition) (relation : modelRelation)
    (models : gmap string modelDefinition) : result ormTemplateRelation :=
  match models !! mr_Target relation with
  | None => Err (Errorf "model %s relation %s targets missing model %s")
  | Some target =>
      match relation_fields model target relation with
      | None => Err (Errorf "model %s relation %s has unsupported kind %s")
      | Some (Some parentField, Some targetField) =>
          let kind := mr_Kind relation in
          let belongs := bool_decide (kind = relationBelongsTo) in
          let many := bool_decide (kind = relationManyToMany) in
          let parentKeyType := normalizedRelationKeyType (if belongs then targetField else parentField) in
          let targetKeyType := if many then normalizedRelationKeyType targetField else parentKeyType in
          if is_empty parentKeyType || is_empty targetKeyType
          then Err (Errorf "model %s relation %s uses a key type that cannot be normalized")
          else
            let '(parentValue, parentConditional) :=
              relationKeyCallback parentField parentKeyType ("parent." +:+ mf_Name parentField) in
            let '(targetValue, targetConditional) :=
              relationKeyCallback targetField targetKeyType ("target." +:+ mf_Name targetField) in
            let descriptor (constructor : string) (types : list string) :=
              "orm." +:+ constructor +:+ "[" +:+ Join types ", " +:+ "]" in
            let pair := [md_Name model; md_Name target; parentKeyType] in
            Ok {| tr_Name := mr_Name relation; tr_Kind := kind; tr_Target := md_Name target;
                  tr_DescriptorType :=
                    if belongs then descriptor "BelongsTo" pair
                    else if bool_decide (kind = relationHasOne) then descriptor "HasOne" pair
                    else if bool_decide (kind = relationHasMany) then descriptor "HasMany" pair
                    else descriptor "ManyToMany" (pair ++ [targetKeyType]);
                  tr_Factory := md_Name model +:+ mr_Name relation +:+ "Relation";
                  tr_ParentColumn := mf_Name parentField; tr_TargetColumn := mf_Name targetField;
                  tr_ParentKeyType := parentKeyType; tr_TargetKeyType := targetKeyType;
                  tr_ParentKeyField := mf_Name parentField; tr_TargetKeyField := mf_Name targetField;
                  tr_ParentKeyValue := parentValue; tr_TargetKeyValue := targetValue;
                  tr_ParentKeyConditional := parentConditional; tr_TargetKeyConditional := targetConditional;
                  tr_ParentKeyPointer := HasPrefix (mf_GeneratedGoType parentField) "*";
                  tr_TargetKeyPointer := HasPrefix (mf_GeneratedGoType targetField) "*";
                  tr_Pointer := mr_Pointer relation; tr_Collection := bool_decide (kind = relationHasMany) || many;
                  tr_JoinTable := mr_JoinTable relation; tr_JoinForeignKey := mr_JoinForeignKey relation;
                  tr_JoinReferenceKey := mr_JoinReferenceKey relation;
                  tr_TargetFields :=
                    if many
                    then (fun f => {| tf_Name := mf_Name f; tf_Column := mf_Column f; tf_Type := mf_GeneratedGoType f;
                                      tf_CreatePartial := false |}) <$> md_Fields target
                    else [] |}
      | Some _ => Err (Errorf "model %s relation %s has unresolved keys")
      end
  end.

(** ** The template's data *)

Definition ormImport : string := "github.com/ShanilKoshitha/goforge/orm".
Definition field_import (f : modelField) (imports : gmap string string) : result (gmap string string) :=
  let path := mf_GoImportPath f in
  if is_empty path then Ok imports
  else if bool_decide (path = "time") then Ok (<["time" := "time"]> imports)
  else if bool_decide (path = "encoding/json") then Ok (<["json" := "encoding/json"]> imports)
  else if bool_decide (path = "database/sql") then Ok (<["sql" := "database/sql"]> imports)
  else Err (Errorf "model %s field %s requires unsupported generated import %s").

(** [strings.TrimLeft(t, "*[]")] *)
Fixpoint bare_type (t : string) : string :=
  match t with
  | String c rest => if oneof "*[]" c then bare_type rest else t
  | EmptyString => EmptyString
  end.

Definition claim_declaration (declared : gset string) (name : string) (generated : gset string) : result (gset string) :=
  if bool_decide (name ∈ declared) then Err (Errorf "generated declaration %s for %s conflicts with application source")
  else if bool_decide (name ∈ generated) then Err (Errorf "generated declaration %s for %s conflicts with %s")
  else Ok ({[name]} ∪ generated).

Definition template_field (f : modelField) : ormTemplateField :=
  {| tf_Name := mf_Name f; tf_Column := mf_Column f; tf_Type := mf_GeneratedGoType f;
     tf_CreatePartial := mf_Nullable f || bool_decide (is_Some (mf_Default f)) |}.
Definition editable (f : modelField) : bool := negb (mf_Primary f) && negb (mf_Generated f) && negb (mf_Protected f).

Definition suffixes (model : modelDefinition) : list string :=
  ["Mapper"; "Table"; "Columns"; "CreateInput"; "Changes"; "Query"] ++
  (if bool_decide (md_Relations model = []) then [] else ["Relations"]).

(** State of the loop over the models: accessors, generated declarations, imports. *)
Record generating : Type := { gn_accessors : gset string; gn_generated : gset string; gn_imports : gmap string string }.

Definition build_relation (declared : gset string) (models : gmap string modelDefinition) (model : modelDefinition)
    (relation : modelRelation) (s : list ormTemplateRelation * generating) : result (list ormTemplateRelation * generating) :=
  let '(relations, g) := s in
  try generated := buildORMTemplateRelation model relation models in
  try names := claim_declaration declared (tr_Factory generated) (gn_generated g) in
  Ok (relations ++ [generated],
      {| gn_accessors := gn_accessors g; gn_generated := names; gn_imports := <["context" := "context"]> (gn_imports g) |}).

Definition type_collides (imports : gmap string string) (f : modelField) : bool :=
  is_empty (mf_GoImportPath f) && bool_decide (is_Some (imports !! bare_type (mf_GeneratedGoType f))).

Definition build_model (declared : gset string) (models : gmap string modelDefinition) (model : modelDefinition)
    (s : list ormTemplateModel * generating) : result (list ormTemplateModel * generating) :=
  let '(built, g) := s in
  match pascal (md_Table model) with
  | Err e => Err (Wrapf "derive query accessor for model %s: %w" e)
  | Ok accessor =>
      if bool_decide (accessor ∈ gn_accessors g) then Err (Errorf "query accessor %s is ambiguous for models %s and %s")
      else
        try names := foldR (claim_declaration declared) ((fun suffix => md_Name model +:+ suffix) <$> suffixes model)
                       (gn_generated g) in
        if existsb (type_collides (gn_imports g)) (md_Fields model)
        then Err (Errorf "model %s field %s type %s conflicts with a generated import")
        else
          let editable_fields := template_field <$> List.filter editable (md_Fields model) in
          try (relations, g) := foldR (build_relation declared models model) (md_Relations model)
            ([], {| gn_accessors := {[accessor]} ∪ gn_accessors g; gn_generated := names; gn_imports := gn_imports g |}) in
          Ok (built ++ [{| tm_Name := md_Name model; tm_Table := md_Table model; tm_Accessor := accessor;
                           tm_Fields := template_field <$> md_Fields model; tm_CreateFields := editable_fields;
                           tm_ChangeFields := editable_fields; tm_Relations := relations |}], g)
  end.

Definition buildORMTemplateData (schema : modelSchema) : result ormTemplateData :=
  let models := list_to_map (reverse ((fun m => (md_Name m, m)) <$> Models schema)) in
  try imports := foldR field_import (flat_map md_Fields (Models schema)) {["orm" := ormImport]} in
  let declared : gset string := list_to_set (DeclaredNames schema) in
  try generated := claim_declaration declared "Store" ∅ in
  try generated := claim_declaration declared "NewStore" generated in
  try (built, g) := foldR (build_model declared models) (Models schema)
    ([], {| gn_accessors := ∅; gn_generated := generated; gn_imports := imports |}) in
  Ok {| td_Imports := (fun alias => (alias, default EmptyString (gn_imports g !! alias)))
                        <$> sort_strings (elements (dom (gn_imports g)));
        td_Models := built |}.

(** ** The command *)

(** The generated file, as far as the command sees it: absent, its contents, or a failing read. *)
Inductive artifact_read : Type := Missing | Contents (data : string) | Unreadable (e : error).
Record orm_project : Type := { op_file : artifact_read; op_stdout : list string }.
Definition print (line : string) : M orm_project unit :=
  modify (fun p => {| op_file := op_file p; op_stdout := op_stdout p ++ [line] |}).

Section Generate.
Context (schema : result modelSchema) (render : modelSchema -> result string) (write : string -> M orm_project unit).

Definition generateORMAtWith (check : bool) : M orm_project unit :=
  match schema with
  | Err e => throw (Wrapf "parse ORM models: %w" e)
  | Ok schema =>
      match render schema with
      | Err e => throw (Wrapf "generate ORM artifact: %w" e)
      | Ok artifact =>
          let! current := gets op_file in
          match current with
          | Unreadable e => throw (Wrapf "read generated ORM: %w" e)
          | Contents data =>
              if bool_decide (data = artifact) then print "%s is current"
              else if check then throw (Errorf "generated ORM is stale: %s; run forge orm:generate")
              else do! wrapM "write generated ORM: %w" (write artifact) in print "updated %s"
          | Missing =>
              if check then throw (Errorf "generated ORM is missing: %s; run forge orm:generate")
              else do! wrapM "write generated ORM: %w" (write artifact) in print "created %s"
          end
      end
  end.
End Generate.
Definition renderORMArtifact (renderTemplate : ormTemplateData -> result string) (schema : modelSchema) : result string :=
  try data := buildORMTemplateData schema in renderTemplate data.
