(* ===== verification/CliSchemaProps.v ===== *)
(** * What a model schema guarantees ([internal/cli/model_schema.go])

    The depth-first search for foreign-key cycles finds a cycle exactly when there is one,
    reports a real one, never runs past the end of its stack and always ends.  Every schema
    that [parseModelSchema] returns is well formed: names, tables and columns are unique and
    safe in SQL, each model has one primary key, references and relations lead to keys of
    compatible types, and the tables can be created in some order. *)

From S2P Require Import Prelude GoStrings GoQuote GoRegexp GoText CliFields CliTags CliSchema.
Local Open Scope go_scope.
Local Open Scope Z_scope.

(** A path whose steps are all in [R], and one that comes back to its start. *)
Inductive path (R : string -> string -> Prop) : list string -> Prop :=
| path_one a : path R [a]
| path_step a b l : R a b -> path R (b :: l) -> path R (a :: b :: l).
Definition is_cycle (R : string -> string -> Prop) (c : list string) : Prop :=
  exists a l, c = a :: l ++ [a] /\ path R c.

Lemma path_app_r R l1 l2 : path R (l1 ++ l2) -> l2 <> [] -> path R l2.
Proof.
  induction l1 as [|a l1 IH]; [done|]. cbn. intros Hp Hn. apply IH; [|done].
  destruct l1 as [|x l1]; cbn in *; [destruct l2; [done|]|]; by inversion Hp.
Qed.
Lemma path_snoc R l a b : path R (l ++ [a]) -> R a b -> path R (l ++ [a; b]).
Proof.
  induction l as [|x l IH]; intros Hp Hr; [repeat constructor; done|].
  destruct l as [|y l]; cbn in *; inversion Hp; subst; constructor; auto.
Qed.

Section Search.
Context (graph : gmap string (list string)).
Definition edge (a b : string) : Prop := b ∈ default [] (graph !! a).

(** Names in the order in which they were finished, the last first. *)
Inductive ordered : list string -> Prop :=
| ordered_nil : ordered []
| ordered_cons a l : a ∉ l -> (forall b, edge a b -> b ∈ l) -> ordered l -> ordered (a :: l).

(** The marks of a search with the given stack and finished names. *)
Record marks (state : gmap string mark) (stack l : list string) : Prop := {
  marks_stack x : state !! x = Some onStack <-> x ∈ stack;
  marks_finished x : state !! x = Some finished_ <-> x ∈ l;
  marks_ordered : ordered l
}.

Definition outcome (r : option visited) (stack l : list string) (seen : list string -> Prop) : Prop :=
  match r with
  | Some (Visited state) => exists l', marks state stack (l' ++ l) /\ seen (l' ++ l)
  | Some (Cycle c) => is_cycle edge c
  | _ => False
  end.

Lemma stack_from_spec stack target : target ∈ stack -> exists l1 l2, stack = l1 ++ target :: l2 /\ stack_from stack target = Some (target :: l2).
Proof.
  induction stack as [|x stack IH]; [by intros ?%elem_of_nil|]. intros Hin. cbn [stack_from].
  destruct (bool_decide (x = target)) eqn:E; [apply bool_decide_eq_true in E as ->; by exists [], stack|].
  apply bool_decide_eq_false in E. apply elem_of_cons in Hin as [->|Hin]; [done|].
  destruct (IH Hin) as (l1 & l2 & -> & ->). by exists (x :: l1), l2.
Qed.

Lemma targets_spec visit stack name : path edge (stack ++ [name]) ->
  forall targets, (forall b, b ∈ targets -> edge name b) ->
  (forall target state l, edge name target -> marks state (stack ++ [name]) l -> state !! target = None ->
     outcome (visit target state) (stack ++ [name]) l (fun l => target ∈ l)) ->
  forall state l, marks state (stack ++ [name]) l ->
  outcome (visit_targets visit (stack ++ [name]) targets state) (stack ++ [name]) l (fun l => Forall (fun b => b ∈ l) targets).
Proof.
  intros Hpath targets. induction targets as [|t ts IH]; intros Hts Hv state l Hm; cbn [visit_targets].
  { exists []. split; [done|constructor]. }
  destruct (state !! t) as [[]|] eqn:Ht.
  - apply (marks_stack _ _ _ Hm) in Ht. destruct (stack_from_spec _ _ Ht) as (l1 & l2 & Hs & ->). cbn.
    exists t, l2. split; [done|]. change ((t :: l2) ++ [t]) with (t :: l2 ++ [t]).
    assert (path edge (stack ++ [name] ++ [t])) as Hp by (apply path_snoc; [done|]; apply Hts; by left).
    rewrite app_assoc, Hs, <- app_assoc in Hp. by apply path_app_r in Hp.
  - specialize (IH ltac:(set_solver) Hv state l Hm). unfold outcome in *.
    destruct (visit_targets _ _ _ _) as [[s'| |]|]; [|done..]. destruct IH as (l' & Hm' & Hf). exists l'. split; [done|].
    constructor; [|done]. apply (marks_finished _ _ _ Hm) in Ht. set_solver.
  - pose proof (Hv t state l ltac:(apply Hts; by left) Hm Ht) as H1. unfold outcome in *.
    destruct (visit t state) as [[s'| |]|]; [|done..]. destruct H1 as (l1 & Hm1 & Hin).
    specialize (IH ltac:(set_solver) Hv s' _ Hm1). destruct (visit_targets _ _ _ _) as [[s''| |]|]; [|done..].
    destruct IH as (l2 & Hm2 & Hf). exists (l2 ++ l1). rewrite <- app_assoc. split; [done|]. constructor; [set_solver|done].
Qed.

Lemma marks_push state stack l name : marks state stack l -> state !! name = None -> marks (<[name := onStack]> state) (stack ++ [name]) l.
Proof.
  intros [H1 H2 H3] Hn. split; [| |done]; intros x; rewrite lookup_insert_Some.
  - rewrite elem_of_app, list_elem_of_singleton, <- H1. destruct (decide (x = name)) as [->|]; naive_solver.
  - rewrite <- H2. destruct (decide (x = name)) as [->|]; naive_solver.
Qed.
Lemma marks_pop state stack l name : marks state (stack ++ [name]) l -> name ∉ stack -> (forall b, edge name b -> b ∈ l) ->
  marks (<[name := finished_]> state) stack (name :: l).
Proof.
  intros [H1 H2 H3] Hn He.
  assert (name ∉ l) as Hl. { intros ?%H2. assert (state !! name = Some onStack) by (apply H1; set_solver). congruence. }
  split; [| |by constructor]; intros x; rewrite lookup_insert_Some.
  - rewrite H1. set_solver.
  - rewrite H2, elem_of_cons. split; [naive_solver|]. intros [->|Hx]; [by left|]. right. split; [|done]. by intros ->.
Qed.

Lemma visit_spec fuel stack name state l : marks state stack l -> state !! name = None -> NoDup stack ->
  Forall (fun x => x ∈ dom graph) stack -> path edge (stack ++ [name]) -> (size graph + 2 <= fuel + length stack)%nat ->
  outcome (visit_model graph fuel stack name state) stack l (fun l => name ∈ l).
Proof.
  revert stack name state l; induction fuel as [|n IH]; intros stack name state l Hm Hn Hnd Hdom Hp Hf.
  { assert (length stack <= size graph)%nat; [|lia]. rewrite <- size_dom, <- (size_list_to_set (C := gset string) stack) by done.
    apply subseteq_size. intros x Hx%elem_of_list_to_set. rewrite Forall_forall in Hdom. auto. }
  cbn [visit_model].
  assert (name ∉ stack) as Hns. { intros Hin%(marks_stack _ _ _ Hm). congruence. }
  pose proof (targets_spec (visit_model graph n (stack ++ [name])) stack name Hp (default [] (graph !! name))
    ltac:(done)) as Ht.
  assert (outcome (visit_targets (visit_model graph n (stack ++ [name])) (stack ++ [name]) (default [] (graph !! name))
    (<[name := onStack]> state)) (stack ++ [name]) l (fun l => Forall (fun b => b ∈ l) (default [] (graph !! name)))) as H.
  { apply Ht; [|by apply marks_push]. intros t st l1 He Hm1 Hst. apply IH; [done|done| | | |].
    - apply NoDup_app. split_and!; [done|set_solver|apply NoDup_singleton].
    - apply Forall_app. split; [done|]. constructor; [|done]. apply elem_of_dom. unfold edge in He.
      destruct (graph !! name); [done|]. by apply elem_of_nil in He.
    - rewrite <- app_assoc. by apply path_snoc.
    - rewrite length_app. cbn. lia. }
  unfold outcome in *. destruct (visit_targets _ _ _ _) as [[s'| |]|]; [|done..]. destruct H as (l' & Hm' & Hall).
  exists (name :: l'). cbn. rewrite Forall_forall in Hall. split; [apply marks_pop; [done..|]|set_solver]. intros b Hb. by apply Hall.
Qed.

Lemma all_spec fuel names state l : marks state [] l -> (size graph + 2 <= fuel)%nat ->
  outcome (visit_all graph fuel names state) [] l (fun l => Forall (fun x => x ∈ l) names).
Proof.
  revert state l; induction names as [|a names IH]; intros state l Hm Hf; cbn [visit_all].
  { exists []. split; [done|constructor]. }
  destruct (state !! a) as [m|] eqn:Ha.
  - assert (a ∈ l) as Hal. { destruct m; [|by apply (marks_finished _ _ _ Hm)]. apply (marks_stack _ _ _ Hm) in Ha. by apply elem_of_nil in Ha. }
    specialize (IH state l Hm Hf). unfold outcome in *. destruct (visit_all _ _ _ _) as [[s'| |]|]; [|done..].
    destruct IH as (l' & Hm' & Hall). exists l'. split; [done|]. constructor; [set_solver|done].
  - pose proof (visit_spec fuel [] a state l Hm Ha) as Hv. specialize (Hv ltac:(constructor) ltac:(constructor) ltac:(constructor)).
    specialize (Hv ltac:(cbn; lia)). unfold outcome in *. destruct (visit_model _ _ _ _ _) as [[s'| |]|]; [|done..].
    destruct Hv as (l1 & Hm1 & Hin). specialize (IH s' _ Hm1 Hf). destruct (visit_all _ _ _ _) as [[s''| |]|]; [|done..].
    destruct IH as (l2 & Hm2 & Hall). exists (l2 ++ l1). rewrite <- app_assoc. split; [done|]. constructor; [set_solver|done].
Qed.
End Search.

(** ** References between models *)

Definition refers (models : list modelDefinition) (a b : string) : Prop :=
  exists m f r, m ∈ models /\ md_Name m = a /\ f ∈ md_Fields m /\ mf_Reference f = Some r /\ ref_Model r = b /\ b <> a.

Lemma targets_fold model fields acc b :
  b ∈ foldl (fun targets field =>
    match mf_Reference field with
    | Some r => if bool_decide (ref_Model r = md_Name model) || bool_decide (ref_Model r ∈ targets) then targets
                else targets ++ [ref_Model r]
    | None => targets
    end) acc fields
  <-> b ∈ acc \/ exists f r, f ∈ fields /\ mf_Reference f = Some r /\ ref_Model r = b /\ b <> md_Name model.
Proof.
  revert acc; induction fields as [|f fields IH]; intros acc; cbn [foldl].
  { split; [by left|]. intros [|(f & ? & Hf & _)]; [done|by apply elem_of_nil in Hf]. }
  rewrite IH. clear IH. setoid_rewrite elem_of_cons.
  assert (forall P Q R : Prop, (P <-> Q \/ R) -> forall S : Prop, P \/ S <-> Q \/ (R \/ S)) as Hassoc by tauto.
  assert ((exists f0 r, (f0 = f \/ f0 ∈ fields) /\ mf_Reference f0 = Some r /\ ref_Model r = b /\ b <> md_Name model)
    <-> (exists r, mf_Reference f = Some r /\ ref_Model r = b /\ b <> md_Name model)
        \/ (exists f0 r, f0 ∈ fields /\ mf_Reference f0 = Some r /\ ref_Model r = b /\ b <> md_Name model)) as -> by naive_solver.
  apply Hassoc. destruct (mf_Reference f) as [r|]; [|naive_solver].
  destruct (bool_decide (ref_Model r = md_Name model)) eqn:E1; bool_to_prop; cbn [orb]; [naive_solver|].
  destruct (bool_decide (ref_Model r ∈ acc)) eqn:E2; bool_to_prop; [naive_solver|]. rewrite elem_of_app, list_elem_of_singleton.
  naive_solver.
Qed.
Lemma reference_targets_spec model b : b ∈ reference_targets model <->
  exists f r, f ∈ md_Fields model /\ mf_Reference f = Some r /\ ref_Model r = b /\ b <> md_Name model.
Proof. unfold reference_targets. rewrite targets_fold. split; [|by right]. intros [?%elem_of_nil|]; done. Qed.

Lemma edges_fold models g a b :
  edge (foldl (fun m model => <[md_Name model := sort_strings (default [] (m !! md_Name model) ++ reference_targets model)]> m) g models) a b
  <-> edge g a b \/ exists m, m ∈ models /\ md_Name m = a /\ b ∈ reference_targets m.
Proof.
  revert g; induction models as [|m models IH]; intros g; cbn [foldl].
  { split; [by left|]. intros [|(? & Hm & _)]; [done|by apply elem_of_nil in Hm]. }
  rewrite IH. setoid_rewrite elem_of_cons. unfold edge. destruct (decide (md_Name m = a)) as [<-|Hne].
  - rewrite lookup_insert_eq. cbn [default from_option id]. rewrite elem_of_sort_strings, elem_of_app. naive_solver.
  - rewrite lookup_insert_ne by done. naive_solver.
Qed.
Lemma edges_spec models a b : edge (edges models) a b <-> refers models a b.
Proof.
  unfold edges. rewrite edges_fold. setoid_rewrite reference_targets_spec. unfold edge, refers. rewrite lookup_empty. cbn.
  split; [|naive_solver]. intros [?%elem_of_nil|]; naive_solver.
Qed.
Lemma edges_size models : (size (edges models) <= length models)%nat.
Proof.
  unfold edges. assert (forall g : gmap string (list string), (size (foldl (fun m model => <[md_Name model := sort_strings (default [] (m !! md_Name model) ++ reference_targets model)]> m) g models) <= size g + length models)%nat) as H; [|by specialize (H ∅)].
  induction models as [|m models IH]; intros g; cbn [foldl length]; [lia|]. specialize (IH (<[md_Name m := sort_strings (default [] (g !! md_Name m) ++ reference_targets m)]> g)).
  rewrite map_size_insert in IH. destruct (g !! md_Name m); cbn in *; lia.
Qed.

Lemma path_mono (R S : string -> string -> Prop) l : (forall a b, R a b -> S a b) -> path R l -> path S l.
Proof. intros H. induction 1; constructor; auto. Qed.

Lemma ordered_before g l1 a l2 b : ordered g (l1 ++ a :: l2) -> edge g a b -> b ∈ l2.
Proof. induction l1 as [|x l1 IH]; cbn; intros H He; inversion H; subst; auto. Qed.
Lemma ordered_NoDup g l : ordered g l -> NoDup l.
Proof. induction 1; by constructor. Qed.

Lemma search_outcome models :
  outcome (edges models) (rejectReferenceCycles models) [] [] (fun l => Forall (fun x => x ∈ l) (md_Name <$> models)).
Proof.
  apply all_spec; [|pose proof (edges_size models); lia].
  split; [intros x; rewrite lookup_empty, elem_of_nil; naive_solver..|constructor].
Qed.

(** An order in which every table comes after the tables it refers to. *)
Definition creation_order (models : list modelDefinition) (order : list string) : Prop :=
  NoDup order /\ (forall m, m ∈ models -> md_Name m ∈ order)
  /\ (forall before a after b, order = before ++ a :: after -> refers models a b -> b ∈ before).

Lemma accepted_order models s : rejectReferenceCycles models = Some (Visited s) -> exists order, creation_order models order.
Proof.
  pose proof (search_outcome models) as H. unfold outcome in H. intros Hr; rewrite Hr in H.
  destruct H as (l & Hm & Hall). rewrite app_nil_r in *. exists (reverse l). pose proof (marks_ordered _ _ _ _ Hm) as Ho.
  rewrite Forall_fmap, Forall_forall in Hall. split_and!.
  - rewrite reverse_Permutation. by eapply ordered_NoDup.
  - intros m Hin. rewrite elem_of_reverse. by apply Hall.
  - intros before a after b Hl Ha. apply (f_equal reverse) in Hl. rewrite reverse_involutive, reverse_app, reverse_cons, <- app_assoc in Hl.
    subst l. apply edges_spec in Ha. apply elem_of_reverse. by eapply ordered_before.
Qed.

(** C18. The search for foreign-key cycles is exact: if it accepts, the models have an order in
    which every table comes after the tables it refers to, and if it rejects, the names it
    prints are a real cycle of references; it never reads past the end of its stack, and it
    always ends. *)
Theorem cycles_are_found_exactly models :
  match rejectReferenceCycles models with
  | Some (Visited _) => exists order, creation_order models order
  | Some (Cycle c) => is_cycle (refers models) c
  | _ => False
  end.
Proof.
  pose proof (search_outcome models) as H. unfold outcome in H.
  destruct (rejectReferenceCycles models) as [[s|c|]|] eqn:E; [by eapply accepted_order| |done..].
  destruct H as (a & l & -> & Hp). exists a, l. split; [done|]. eapply path_mono; [|done]. intros ? ?; apply edges_spec.
Qed.

(** ** Running through checks *)

Lemma rbind_Ok {A B} (r : result A) (k : A -> result B) b : rbind r k = Ok b -> exists a, r = Ok a /\ k a = Ok b.
Proof. destruct r; [eauto|done]. Qed.
Lemma at_line_Ok {A} l f (r : result A) a : at_line l f r = Ok a -> r = Ok a.
Proof. destruct r; [by intros [= ->]|done]. Qed.

(** Take the equation that a chain of checks succeeded apart. *)
Ltac passed H :=
  repeat match type of H with
  | rbind _ _ = Ok _ => let a := fresh "v" in let E := fresh "E" in apply rbind_Ok in H as (a & E & H);
                        try apply at_line_Ok in E
  | (let '(_, _) := ?v in _) = Ok _ => destruct v
  | (if ?g then _ else _) = Ok _ => let E := fresh "E" in destruct g eqn:E; [try done|try done]
  | Err _ = Ok _ => discriminate H
  end.

Lemma mapR_Forall2 {A B} (f : A -> result B) l l' : mapR f l = Ok l' -> Forall2 (fun x y => f x = Ok y) l l'.
Proof.
  revert l'; induction l as [|x l IH]; intros l'; cbn; [by intros [= <-]|]. intros H. passed H. injection H as <-. constructor; auto.
Qed.
Lemma foldR_inv {A S} (f : A -> S -> result S) (P : S -> Prop) l s s' :
  (forall x s s', x ∈ l -> P s -> f x s = Ok s' -> P s') -> P s -> foldR f l s = Ok s' -> P s'.
Proof.
  revert s; induction l as [|x l IH]; intros s Hf Hs; cbn; [by intros [= <-]|]. intros H. passed H.
  eapply IH; [|eapply Hf; [by left|exact Hs|exact E]|exact H]. intros ? ? ? ?. apply Hf. by right.
Qed.

Section Columns.
Context `{Unicode}.

(** ** Fields *)

Record field_ok (f : modelField) : Prop := {
  fo_column : safeIdentifier (mf_Column f) = true;
  fo_null : mf_Required f = negb (mf_Nullable f);
  fo_primary : mf_Primary f = true -> mf_Required f = true;
  fo_generated : mf_Generated f = true -> mf_Default f = None;
  fo_default v : mf_Default f = Some v -> safeDefault v = true /\ compatibleDefault (mf_typeFamily f) (mf_DBType f) (mf_Nullable f) v = true;
  fo_delete : mf_OnDelete f <> EmptyString -> mf_Reference f <> None /\ (mf_OnDelete f = "set_null" -> mf_Nullable f = true);
  fo_import : mf_GoImportPath f ∈ [EmptyString; "time"; "encoding/json"; "database/sql"]
}.

Lemma column_default_spec line family dbType nullable o d : column_default line family dbType nullable o = Ok d ->
  (option_value "default" o = EmptyString -> d = None) /\
  forall v, d = Some v -> safeDefault v = true /\ compatibleDefault family dbType nullable v = true.
Proof.
  unfold column_default. intros Hc. passed Hc; injection Hc as <-; bool_to_prop; [done|]. split; [done|]. by intros v [= <-].
Qed.
Lemma column_on_delete_spec line r nullable o d : column_on_delete line r nullable o = Ok d -> d <> EmptyString ->
  r <> None /\ (d = "set_null" -> nullable = true).
Proof.
  unfold column_on_delete. intros Hc. passed Hc; injection Hc as <-; bool_to_prop; [done|]. intros _. split; [done|].
  intros Hd. destruct nullable; [done|]. rewrite bool_decide_eq_true_2 in * by done. done.
Qed.
Lemma generated_import file e t p : generatedColumnType file e = Ok (t, p) -> p ∈ [EmptyString; "time"; "encoding/json"; "database/sql"].
Proof.
  unfold generatedColumnType, generated_alias. intros Hg. repeat case_match; simplify_eq/=; bool_to_prop; set_solver.
Qed.

Lemma parseColumn_ok file field name dbTag o scalars f : parseColumn file field name dbTag o scalars = Ok f -> field_ok f.
Proof.
  unfold parseColumn. intros Hp. passed Hp. injection Hp as <-.
  match goal with E : column_default _ _ _ _ _ = _ |- _ => apply column_default_spec in E as [Hd1 Hd2] end.
  match goal with E : column_on_delete _ _ _ _ = _ |- _ => pose proof (column_on_delete_spec _ _ _ _ _ E) as Hdel end.
  match goal with E : generatedColumnType _ _ = _ |- _ => apply generated_import in E end.
  bool_to_prop. split; cbn; try done.
  - by destruct (option_flag "required" o), (option_flag "nullable" o).
  - intros Hpr. rewrite Hpr in *. by destruct (option_flag "required" o).
  - intros Hg. rewrite Hg in *. apply Hd1. cbn in *. bool_to_prop. done.
Qed.
Lemma parseColumn_name file field name dbTag o scalars f : parseColumn file field name dbTag o scalars = Ok f -> mf_Name f = name.
Proof. unfold parseColumn. intros Hp. passed Hp. by injection Hp as <-. Qed.

(** ** Relations *)

Record relation_ok (r : modelRelation) : Prop := {
  ro_kind : mr_Kind r ∈ relation_kinds;
  ro_target : exported_name (mr_Target r) = true;
  ro_join : mr_Kind r = relationManyToMany ->
    safeIdentifier (mr_JoinTable r) = true /\ safeIdentifier (mr_JoinForeignKey r) = true /\ safeIdentifier (mr_JoinReferenceKey r) = true
}.

Lemma relationKind_spec o : relationKind o = EmptyString \/ relationKind o ∈ relation_kinds \/ relationKind o = "multiple".
Proof.
  unfold relationKind. destruct (List.filter _ _) as [|k [|? ?]] eqn:E; [by left| |by right; right]. right; left.
  apply list_elem_of_In. eapply (List.filter_In (fun kind => option_flag kind o)). rewrite E. by left.
Qed.
Lemma parseRelation_ok field name o r : relationKind o <> EmptyString -> parseRelation field name (relationKind o) o = Ok r ->
  relation_ok r /\ mr_Name r = name.
Proof.
  intros Hk. unfold parseRelation. intros Hp.
  assert (relationKind o ∈ relation_kinds) as Hin.
  { passed Hp; match goal with E : validateOptions _ _ _ = _ |- _ => unfold validateOptions in E; passed E end;
      bool_to_prop; destruct (relationKind_spec o) as [?|[?|?]]; done. }
  passed Hp; injection Hp as <-; (split; [|done]); cbn -[relation_kinds] in *; bool_to_prop; (split; cbn; [done|done|]); [|done].
  by intros _.
Qed.

(** ** One model *)

Record model_ok (m : modelDefinition) : Prop := {
  mo_table : safeIdentifier (md_Table m) = true;
  mo_fields : Forall field_ok (md_Fields m);
  mo_relations : Forall relation_ok (md_Relations m);
  mo_names : NoDup ((mf_Name <$> md_Fields m) ++ (mr_Name <$> md_Relations m));
  mo_columns : NoDup (mf_Column <$> md_Fields m);
  mo_primary : exists f, List.filter mf_Primary (md_Fields m) = [f]
}.

Record building_ok (s : building) : Prop := {
  bo_table : safeIdentifier (bd_table s) = true;
  bo_fields : Forall field_ok (bd_fields s);
  bo_relations : Forall relation_ok (bd_relations s);
  bo_names : NoDup ((mf_Name <$> bd_fields s) ++ (mr_Name <$> bd_relations s));
  bo_seen x : x ∈ (mf_Name <$> bd_fields s) ++ (mr_Name <$> bd_relations s) -> x ∈ bd_names s;
  bo_columns : NoDup (mf_Column <$> bd_fields s);
  bo_columns_seen x : x ∈ mf_Column <$> bd_fields s -> x ∈ bd_columns s;
  bo_primary : length (List.filter mf_Primary (bd_fields s)) = bd_primaries s
}.

Lemma NoDup_insert {A} (l1 l2 : list A) x : NoDup (l1 ++ l2) -> x ∉ l1 ++ l2 -> NoDup ((l1 ++ [x]) ++ l2).
Proof.
  intros Hn Hx. rewrite <- app_assoc. cbn. rewrite <- Permutation_middle. by constructor.
Qed.

Lemma model_field_ok file scalars field s s' : building_ok s -> model_field file scalars field s = Ok s' -> building_ok s'.
Proof.
  intros Hs. unfold model_field. destruct (af_names field) as [|name [|? ?]]; [done| |done]. intros Hf.
  passed Hf; [| | |].
  - destruct (af_type field) as [| | | |? ? [|? ?]|]; try done. passed Hf. injection Hf as <-. bool_to_prop. destruct Hs. by split.
  - injection Hf as <-. bool_to_prop. destruct Hs as [? ? ? ? Hseen ? ? ?]. split; cbn; try done. intros x Hx%Hseen. set_solver.
  - injection Hf as <-. match goal with E : parseRelation _ _ _ _ = _ |- _ => apply parseRelation_ok in E as [Hr Hname] end;
      [|by unfold is_empty in *; bool_to_prop].
    bool_to_prop. destruct Hs as [? ? ? ? Hseen ? ? ?].
    assert (name ∉ (mf_Name <$> bd_fields s) ++ (mr_Name <$> bd_relations s)) as Hnew by auto.
    split; cbn; try done.
    + apply Forall_app. split; [done|]. by constructor.
    + rewrite fmap_app, app_assoc. cbn. rewrite Hname. apply NoDup_app. split_and!; [done|set_solver|apply NoDup_singleton].
    + intros x. rewrite fmap_app. cbn. rewrite Hname. set_solver.
  - injection Hf as <-. match goal with E : parseColumn _ _ _ _ _ _ = _ |- _ =>
      pose proof (parseColumn_ok _ _ _ _ _ _ _ E) as Hc; apply parseColumn_name in E as Hname end.
    bool_to_prop. destruct Hs as [? ? ? ? Hseen ? Hcols ?].
    assert (name ∉ (mf_Name <$> bd_fields s) ++ (mr_Name <$> bd_relations s)) as Hnew by auto.
    split; cbn; try done.
    + apply Forall_app. split; [done|]. by constructor.
    + rewrite fmap_app. cbn. rewrite Hname. by apply NoDup_insert.
    + intros x. rewrite fmap_app. cbn. rewrite Hname. set_solver.
    + rewrite fmap_app. cbn. apply NoDup_app. split_and!; [done| |apply NoDup_singleton]. intros x Hx%Hcols ->%list_elem_of_singleton. done.
    + intros x. rewrite fmap_app. cbn. set_solver.
    + rewrite List.filter_app, length_app. cbn. destruct (mf_Primary _); cbn; lia.
Qed.

Lemma model_fields_ok file scalars fields s s' : building_ok s -> model_fields file scalars fields s = Ok s' -> building_ok s'.
Proof.
  revert s; induction fields as [|f fields IH]; intros s Hs; cbn; [by intros [= <-]|]. intros Hf. passed Hf.
  eapply IH; [|exact Hf]. by eapply model_field_ok.
Qed.

Lemma parseModelDefinition_ok file name line fields scalars m : parseModelDefinition file name line fields scalars = Ok m ->
  model_ok m /\ md_Name m = name.
Proof.
  unfold parseModelDefinition. intros Hp. passed Hp. injection Hp as <-. split; [|done]. bool_to_prop.
  match goal with E : model_fields _ _ _ _ = _ |- _ => apply model_fields_ok in E as Hs end.
  2: { split; cbn; [done|constructor|constructor|constructor|by intros x ?%elem_of_nil|constructor|by intros x ?%elem_of_nil|done]. }
  destruct Hs as [? ? ? ? ? ? ? Hpr]. split; cbn; try done. 
  match goal with E : (_ =? 1)%nat = true |- _ => apply Nat.eqb_eq in E; rewrite E in Hpr end.
  destruct (List.filter _ _) as [|f [|? ?]]; [done| |done]. by exists f.
Qed.

(** ** Links *)

(** Linking fills in the table and the column of a reference and changes nothing else. *)
Definition linked_field (f f' : modelField) : Prop :=
  f' = f \/ exists r r', mf_Reference f = Some r /\ f' = set_reference r' f /\ ref_Model r' = ref_Model r /\ ref_Field r' = ref_Field r.
Definition linked (m m' : modelDefinition) : Prop :=
  md_Name m' = md_Name m /\ md_Table m' = md_Table m /\ md_Relations m' = md_Relations m
  /\ Forall2 linked_field (md_Fields m) (md_Fields m').

(** A reference leads to a key of a compatible type, and names its table and column. *)
Definition resolves (models : list modelDefinition) (f : modelField) : Prop :=
  forall r, mf_Reference f = Some r -> exists t k,
    t ∈ models /\ md_Name t = ref_Model r /\ k ∈ md_Fields t /\ mf_Name k = ref_Field r /\ key_field k = true
    /\ databaseTypesCompatible (mf_DBType f) (mf_DBType k) = true /\ ref_Table r = md_Table t /\ ref_Column r = mf_Column k.

(** A relation has its keys on both sides, of compatible types, and the side that is referred
    to is a key. *)
Definition related (models : list modelDefinition) (m : modelDefinition) (r : modelRelation) : Prop :=
  exists t localKey remoteKey,
    t ∈ models /\ md_Name t = mr_Target r /\ relation_keys m t r = (Some localKey, Some remoteKey, None)
    /\ databaseTypesCompatible (mf_DBType localKey) (mf_DBType remoteKey) = true
    /\ (mr_Kind r <> relationBelongsTo -> key_field localKey = true)
    /\ (mr_Kind r = relationBelongsTo \/ mr_Kind r = relationManyToMany -> key_field remoteKey = true).

Lemma linked_field_same f f' : linked_field f f' ->
  mf_Name f' = mf_Name f /\ mf_Column f' = mf_Column f /\ mf_DBType f' = mf_DBType f /\ mf_Primary f' = mf_Primary f
  /\ key_field f' = key_field f /\ (forall a b, references_key a b f' = references_key a b f).
Proof.
  intros [->|(r & r' & Hr & -> & H1 & H2)]; [done|]. split_and!; try done. intros a b. unfold references_key. rewrite Hr. cbn. by rewrite H1, H2.
Qed.
Lemma linked_field_ok f f' : linked_field f f' -> field_ok f -> field_ok f'.
Proof. intros [->|(r & r' & Hr & -> & _)] Hf; [done|]. destruct Hf as [? ? ? ? ? Hd ?]. split; try done. cbn. intros [_ ?]%Hd. done. Qed.

Lemma link_field_spec models f f' : link_field models f = Ok f' -> linked_field f f' /\
  forall r, mf_Reference f' = Some r -> exists t k, models !! ref_Model r = Some t /\ fieldMap t !! ref_Field r = Some k
    /\ key_field k = true /\ databaseTypesCompatible (mf_DBType f') (mf_DBType k) = true
    /\ ref_Table r = md_Table t /\ ref_Column r = mf_Column k.
Proof.
  unfold link_field. destruct (mf_Reference f) as [r|] eqn:Hr; [|intros [= <-]; split; [by left|congruence]].
  destruct (models !! ref_Model r) as [t|] eqn:Ht; [|done]. destruct (fieldMap t !! ref_Field r) as [k|] eqn:Hk; [|done].
  intros Hf. passed Hf. injection Hf as <-. bool_to_prop. split; [right; by do 2 eexists|]. cbn. intros r' [= <-]. cbn. eauto 10.
Qed.

Lemma fieldMap_lookup m n f : fieldMap m !! n = Some f -> f ∈ md_Fields m /\ mf_Name f = n.
Proof.
  unfold fieldMap. intros Hl%elem_of_list_to_map_2. rewrite elem_of_reverse in Hl. apply list_elem_of_fmap in Hl as (? & [= -> ->] & ?). done.
Qed.
Lemma pairs_linked l l' n : Forall2 linked_field l l' ->
  option_Forall2 linked_field ((list_to_map ((fun f => (mf_Name f, f)) <$> l) : gmap string modelField) !! n)
    ((list_to_map ((fun f => (mf_Name f, f)) <$> l') : gmap string modelField) !! n).
Proof.
  induction 1 as [|f f' l l' Hf Hl IH]; cbn; [rewrite lookup_empty; constructor|].
  destruct (linked_field_same _ _ Hf) as [-> _]. destruct (decide (mf_Name f = n)) as [<-|Hne].
  - rewrite !lookup_insert_eq. by constructor.
  - by rewrite !lookup_insert_ne.
Qed.
Lemma fieldMap_linked m m' n : linked m m' -> option_Forall2 linked_field (fieldMap m !! n) (fieldMap m' !! n).
Proof. intros (_ & _ & _ & Hf). unfold fieldMap. rewrite <- !fmap_reverse. apply pairs_linked. by apply Forall2_reverse. Qed.

Lemma linked_model_ok m m' : linked m m' -> model_ok m -> model_ok m'.
Proof.
  intros (Hn & Ht & Hr & Hf) [H1 H2 H3 H4 H5 (p & H6)]. 
  assert (mf_Name <$> md_Fields m' = mf_Name <$> md_Fields m) as Hnames.
  { clear -Hf. induction Hf as [|? ? ? ? Hx ? IH]; [done|]. cbn. rewrite IH. by destruct (linked_field_same _ _ Hx) as [-> _]. }
  assert (mf_Column <$> md_Fields m' = mf_Column <$> md_Fields m) as Hcols.
  { clear -Hf. induction Hf as [|? ? ? ? Hx ? IH]; [done|]. cbn. rewrite IH. by destruct (linked_field_same _ _ Hx) as (_ & -> & _). }
  assert (length (List.filter mf_Primary (md_Fields m')) = length (List.filter mf_Primary (md_Fields m))) as Hpr.
  { clear -Hf. induction Hf as [|? ? ? ? Hx ? IH]; [done|]. cbn. destruct (linked_field_same _ _ Hx) as (_ & _ & _ & -> & _).
    destruct (mf_Primary _); cbn; congruence. }
  split; [congruence| |congruence|by rewrite Hnames, Hr|by rewrite Hcols|].
  - apply Forall_forall. intros f' [i Hi]%list_elem_of_lookup. destruct (Forall2_lookup_r _ _ _ _ _ Hf Hi) as (f & Hi' & Hl).
    eapply linked_field_ok; [exact Hl|]. rewrite Forall_forall in H2. apply H2. by eapply list_elem_of_lookup_2.
  - rewrite H6 in Hpr. destruct (List.filter mf_Primary (md_Fields m')) as [|f [|? ?]]; [done|by exists f|done].
Qed.

Lemma validateModelLinks_linked models m m' : validateModelLinks models m = Ok m' -> linked m m'.
Proof.
  unfold validateModelLinks. intros Hv. passed Hv. injection Hv as <-. split_and!; try done. cbn.
  match goal with E : mapR _ _ = _ |- _ => apply mapR_Forall2 in E; eapply Forall2_impl; [exact E|] end.
  intros f f' Hl. by apply link_field_spec in Hl as [? _].
Qed.

Lemma check_relation_spec models m r seen seen' : check_relation models m r seen = Ok seen' -> exists t localKey remoteKey,
    models !! mr_Target r = Some t /\ relation_keys m t r = (Some localKey, Some remoteKey, None)
    /\ databaseTypesCompatible (mf_DBType localKey) (mf_DBType remoteKey) = true
    /\ (mr_Kind r <> relationBelongsTo -> key_field localKey = true)
    /\ (mr_Kind r = relationBelongsTo \/ mr_Kind r = relationManyToMany -> key_field remoteKey = true).
Proof.
  unfold check_relation. destruct (models !! mr_Target r) as [t|] eqn:Ht; [|done].
  destruct (relation_keys m t r) as [[[lk|] [rk|]] [c|]] eqn:Hk; try done. intros Hc. passed Hc. bool_to_prop.
  exists t, lk, rk. split_and!; try done.
  - intros Hne. rewrite bool_decide_eq_false_2 in * by done. by destruct (key_field lk) eqn:?.
  - intros Hor. destruct (key_field rk) eqn:Hr; [done|]. exfalso. rewrite andb_true_r in *. bool_to_prop. naive_solver.
Qed.
Lemma relations_checked models m rs seen seen' : foldR (check_relation models m) rs seen = Ok seen' ->
  forall r, r ∈ rs -> exists s s', check_relation models m r s = Ok s'.
Proof.
  revert seen; induction rs as [|x rs IH]; intros seen; cbn; [by intros _ r ?%elem_of_nil|]. intros Hf. passed Hf.
  intros r [->|Hr]%elem_of_cons; eauto.
Qed.

(** The keys of a relation do not depend on whether the target is linked. *)
Lemma relation_keys_linked m t t' r lk rk : linked t t' -> relation_keys m t r = (Some lk, Some rk, None) ->
  exists rk', linked_field rk rk' /\ relation_keys m t' r = (Some lk, Some rk', None).
Proof.
  intros Hl. pose proof (fun n => fieldMap_linked _ _ n Hl) as Hf. destruct Hl as (Hn & _). unfold relation_keys. rewrite Hn.
  destruct (bool_decide (mr_Kind r = relationBelongsTo)).
  - destruct (Hf (mr_References r)) as [k k' Hk|]; [|done]. intros [= -> -> Hc]. exists k'. split; [done|]. congruence.
  - destruct (_ || _).
    + destruct (Hf (mr_ForeignKey r)) as [k k' Hk|]; [|done]. intros [= -> -> Hc]. exists k'. split; [done|].
      destruct (linked_field_same _ _ Hk) as (_ & _ & _ & _ & _ & ->). by rewrite Hc.
    + destruct (bool_decide _); [|done]. destruct (Hf (mr_TargetKey r)) as [k k' Hk|]; [|done]. intros [= -> ->]. by exists k'.
Qed.

Lemma Forall2_elem {A B} (R : A -> B -> Prop) l l' x : Forall2 R l l' -> x ∈ l -> exists y, y ∈ l' /\ R x y.
Proof.
  intros Hf [i Hi]%list_elem_of_lookup. destruct (Forall2_lookup_l _ _ _ _ _ Hf Hi) as (y & Hy & HR). exists y. split; [|done].
  by eapply list_elem_of_lookup_2.
Qed.
Lemma Forall2_elem_r {A B} (R : A -> B -> Prop) l l' y : Forall2 R l l' -> y ∈ l' -> exists x, x ∈ l /\ R x y.
Proof.
  intros Hf [i Hi]%list_elem_of_lookup. destruct (Forall2_lookup_r _ _ _ _ _ Hf Hi) as (x & Hx & HR). exists x. split; [|done].
  by eapply list_elem_of_lookup_2.
Qed.

Section Links.
Context (before after : list modelDefinition).
Let models : gmap string modelDefinition := list_to_map ((fun m => (md_Name m, m)) <$> before).
Context (Hlinks : mapR (validateModelLinks models) before = Ok after).

Lemma all_linked : Forall2 linked before after.
Proof. eapply Forall2_impl; [exact (mapR_Forall2 _ _ _ Hlinks)|]. intros m m'. apply validateModelLinks_linked. Qed.

Lemma model_found n t : models !! n = Some t -> exists t', t' ∈ after /\ linked t t' /\ md_Name t' = n.
Proof.
  intros Hl%elem_of_list_to_map_2. apply list_elem_of_fmap in Hl as (? & [= -> ->] & Hin).
  destruct (Forall2_elem _ _ _ _ all_linked Hin) as (t' & Ht' & Hlk). exists t'. split_and!; [done..|]. by destruct Hlk as (-> & _).
Qed.

Lemma after_resolves m f : m ∈ after -> f ∈ md_Fields m -> resolves after f.
Proof.
  intros Hm Hf r Hr. destruct (Forall2_elem_r _ _ _ _ (mapR_Forall2 _ _ _ Hlinks) Hm) as (m0 & _ & Hv).
  unfold validateModelLinks in Hv. passed Hv. injection Hv as <-. cbn in Hf.
  match goal with E : mapR _ _ = _ |- _ => destruct (Forall2_elem_r _ _ _ _ (mapR_Forall2 _ _ _ E) Hf) as (f0 & _ & Hl) end.
  apply link_field_spec in Hl as [_ Hl]. destruct (Hl r Hr) as (t & k & Ht & Hk & Hkey & Hty & Htab & Hcol).
  destruct (model_found _ _ Ht) as (t' & Ht' & Hlk & Hn). pose proof (fieldMap_linked _ _ (ref_Field r) Hlk) as Hlf.
  rewrite Hk in Hlf. inversion Hlf as [? k' Hkk Hx Hk'|]; subst. symmetry in Hk'. apply fieldMap_lookup in Hk' as [Hin Hname].
  destruct (linked_field_same _ _ Hkk) as (_ & Hc & Hd & _ & Hkf & _). destruct Hlk as (_ & Htab' & _).
  exists t', k'. split_and!; congruence.
Qed.

Lemma after_related m r : m ∈ after -> r ∈ md_Relations m -> related after m r.
Proof.
  intros Hm Hr. destruct (Forall2_elem_r _ _ _ _ (mapR_Forall2 _ _ _ Hlinks) Hm) as (m0 & _ & Hv).
  unfold validateModelLinks in Hv. passed Hv. injection Hv as <-. cbn in Hr.
  match goal with E : foldR _ _ _ = _ |- _ => destruct (relations_checked _ _ _ _ _ E _ Hr) as (s & s' & Hc) end.
  apply check_relation_spec in Hc as (t & lk & rk & Ht & Hk & Hty & Hl1 & Hl2).
  destruct (model_found _ _ Ht) as (t' & Ht' & Hlk & Hn). destruct (relation_keys_linked _ _ _ _ _ _ Hlk Hk) as (rk' & Hrk & Hk').
  destruct (linked_field_same _ _ Hrk) as (_ & _ & Hd & _ & Hkf & _). exists t', lk, rk'. rewrite Hd, Hkf. done.
Qed.
End Links.

(** ** The names of indexes and constraints *)

Lemma claim_identifier_spec line n o seen seen' : claim_identifier line n o seen = Ok seen' ->
  safeIdentifier n = true /\ seen' !! n = Some o /\ (forall n' o', seen !! n' = Some o' -> seen' !! n' = Some o').
Proof.
  unfold claim_identifier. intros Hc. passed Hc. injection Hc as <-. bool_to_prop. split_and!; [done|by rewrite lookup_insert_eq|].
  intros n' o' Hn'. destruct (decide (n' = n)) as [->|]; [|by rewrite lookup_insert_ne]. rewrite Hn' in *. bool_to_prop. subst.
  by rewrite lookup_insert_eq.
Qed.
Lemma identifiers_spec l seen seen' :
  foldR (fun '(line, name, owner) => claim_identifier line name owner) l seen = Ok seen' ->
  (forall n o, seen !! n = Some o -> seen' !! n = Some o) /\
  (forall line n o, (line, n, o) ∈ l -> safeIdentifier n = true /\ seen' !! n = Some o).
Proof.
  revert seen; induction l as [|[[line n] o] l IH]; intros seen; cbn.
  { intros [= <-]. split; [done|]. by intros ? ? ? ?%elem_of_nil. }
  intros Hf. passed Hf. match goal with E : claim_identifier _ _ _ _ = _ |- _ => apply claim_identifier_spec in E as (Hs & Hn & Hk) end.
  destruct (IH _ Hf) as [H1 H2]. split; [auto|]. intros line' n' o' [[= -> -> ->]|Hin]%elem_of_cons; eauto.
Qed.

(** ** The whole schema *)

Record schema_ok (s : modelSchema) : Prop := {
  so_models : Forall model_ok (Models s);
  so_some : Models s <> [];
  so_names : NoDup (md_Name <$> Models s);
  so_tables : NoDup (md_Table <$> Models s);
  so_references m f : m ∈ Models s -> f ∈ md_Fields m -> resolves (Models s) f;
  so_relations m r : m ∈ Models s -> r ∈ md_Relations m -> related (Models s) m r;
  so_identifiers line n o : (line, n, o) ∈ flat_map model_identifiers (Models s) -> safeIdentifier n = true /\
    forall line' o', (line', n, o') ∈ flat_map model_identifiers (Models s) -> o' = o;
  so_order : exists order, creation_order (Models s) order
}.

Record collected_ok (s : collected) : Prop := {
  co_models : Forall model_ok (pm_definition <$> cl_parsed s);
  co_names : NoDup (md_Name <$> (pm_definition <$> cl_parsed s));
  co_seen x : x ∈ md_Name <$> (pm_definition <$> cl_parsed s) -> x ∈ cl_models s;
  co_tables : NoDup (md_Table <$> (pm_definition <$> cl_parsed s));
  co_tables_seen x : x ∈ md_Table <$> (pm_definition <$> cl_parsed s) -> x ∈ cl_tables s
}.

Lemma add_model_ok scalars fs s s' : collected_ok s -> add_model scalars fs s = Ok s' -> collected_ok s'.
Proof.
  intros Hs. unfold add_model. destruct fs as [file spec]. destruct (ts_type spec); try (by intros [= <-]). intros Ha. passed Ha.
  injection Ha as <-. bool_to_prop. match goal with E : parseModelDefinition _ _ _ _ _ = _ |- _ => apply parseModelDefinition_ok in E as [Hm Hn] end.
  destruct Hs as [H1 H2 H3 H4 H5]. split; cbn; rewrite ?fmap_app; cbn; rewrite ?fmap_app; cbn; rewrite ?Hn.
  - apply Forall_app. split; [done|]. by constructor.
  - apply NoDup_app. split_and!; [done|set_solver|apply NoDup_singleton].
  - set_solver.
  - apply NoDup_app. split_and!; [done|set_solver|apply NoDup_singleton].
  - set_solver.
Qed.

Lemma insert_model_perm m l : insert_model m l ≡ₚ m :: l.
Proof. induction l as [|t l IH]; [done|]. cbn. destruct (String.leb _ _); [done|]. rewrite IH. apply Permutation_swap. Qed.
Lemma sort_models_perm l : sort_models l ≡ₚ l.
Proof. induction l as [|s l IH]; [done|]. cbn. by rewrite insert_model_perm, IH. Qed.

Lemma linked_names l l' : Forall2 linked l l' -> md_Name <$> l' = md_Name <$> l /\ md_Table <$> l' = md_Table <$> l.
Proof. induction 1 as [|m m' l l' (Hn & Ht & _) _ [IH1 IH2]]; [done|]. cbn. by rewrite Hn, Ht, IH1, IH2. Qed.

Lemma schema_of_files_ok files s : schema_of_files files = Ok s -> schema_ok s.
Proof.
  unfold schema_of_files. intros Hp. passed Hp.
  match goal with E : foldR (add_model _) _ _ = Ok ?c |- _ => assert (collected_ok c) as [H1 H2 _ H4 _] end.
  { eapply (foldR_inv _ collected_ok); [by intros ? ? ? _; apply add_model_ok| |eassumption].
    split; cbn; [constructor|constructor|by intros x ?%elem_of_nil|constructor|by intros x ?%elem_of_nil]. }
  destruct (rejectReferenceCycles _) as [[st| |]|] eqn:Hc; try done. injection Hp as <-.
  match goal with E : mapR _ ?b = Ok ?a |- _ => pose proof (all_linked _ _ E) as Hl; pose proof (after_resolves _ _ E) as Hres;
    pose proof (after_related _ _ E) as Hrel; destruct (linked_names _ _ Hl) as [Hn Ht]; set (before := b) in * end.
  assert (before ≡ₚ (pm_definition <$> cl_parsed v0)) as Hperm by apply sort_models_perm.
  match goal with E : validateGeneratedDatabaseNames _ = Ok _ |- _ => destruct (identifiers_spec _ _ _ E) as [_ Hids] end.
  split; cbn; [| | | |exact Hres|exact Hrel| |by eapply accepted_order].
  - apply Forall_forall. intros m' Hm'. destruct (Forall2_elem_r _ _ _ _ Hl Hm') as (m & Hm & Hlk). eapply linked_model_ok; [exact Hlk|].
    rewrite Forall_forall in H1. apply H1. by rewrite <- Hperm.
  - bool_to_prop. apply Forall2_length in Hl. rewrite Hperm, length_fmap in Hl. intros Hnil. rewrite Hnil in Hl. cbn in Hl. lia.
  - rewrite Hn, Hperm. done.
  - rewrite Ht, Hperm. done.
  - intros line n o Hin. destruct (Hids _ _ _ Hin) as [Hs Ho]. split; [done|]. intros line' o' Hin'. destruct (Hids _ _ _ Hin') as [_ Ho']. congruence.
Qed.

(** C16. Whatever the sources of the models are, a schema that the parser returns is well formed:
    names, tables, columns and generated identifiers are unique and safe, every model has one
    primary key, references and relations lead to keys of compatible types in the same schema,
    defaults are safe, and there is an order in which the tables can be created. *)
Theorem parsed_schema_is_well_formed ParseFile directory s :
  parseModelSchema ParseFile directory = Ok s -> schema_ok s.
Proof.
  unfold parseModelSchema. intros Hp. passed Hp. destruct (sort_entries _); [done|]. passed Hp. by eapply schema_of_files_ok.
Qed.
End Columns.

(** ** A blog: users with posts *)

Definition blog_field (line : Z) (name : string) (type : expr) (tag : string) : astField expr :=
  {| af_line := line; af_names := [name]; af_type := type; af_tag := Some (String backquote (tag +:+ String backquote EmptyString)) |}.
Definition quoted_tag (key value : string) : string := key +:+ ":" +:+ String dquote (value +:+ String dquote EmptyString).
Definition forge_tag (value : string) : string := quoted_tag "forge" value.
Definition blog_user : typeSpec :=
  {| ts_line := 3; ts_name := "User"; ts_generic := false; ts_type := StructType 3 "struct{...}"
     [blog_field 4 "ID" (Ident "int64") (forge_tag "primary,generated,required");
      blog_field 5 "Email" (Ident "string") (forge_tag "required,unique,type=varchar(255)");
      blog_field 6 "Posts" (ArrayType None (StarExpr (Ident "Post")))
        (forge_tag "has_many,target=Post,foreign_key=AuthorID,references=ID")] |}.
Definition blog_post : typeSpec :=
  {| ts_line := 9; ts_name := "Post"; ts_generic := false; ts_type := StructType 9 "struct{...}"
     [blog_field 10 "ID" (Ident "int64") (forge_tag "primary,generated,required");
      blog_field 11 "Title" (Ident "string") (quoted_tag "db" "headline" +:+ " " +:+ forge_tag "required,default='new'");
      blog_field 12 "AuthorID" (StarExpr (Ident "int64")) (forge_tag "nullable,index,references=User.ID,on_delete=set_null");
      blog_field 13 "Author" (StarExpr (Ident "User")) (forge_tag "belongs_to,target=User,foreign_key=AuthorID,references=ID")] |}.
Definition blog_file : astFile :=
  {| f_package := "models"; f_package_line := 1; f_imports := []; f_decls := [TypeDecl [blog_user; blog_post]];
     f_comments := [] |}.
Definition blog_directory : result (list dirEntry) :=
  Ok [{| de_name := "blog.go"; de_isDir := false; de_read := Ok "package models" |}].
Definition blog_parser : string -> string -> result astFile := fun _ _ => Ok blog_file.

Lemma parsed_schema_is_well_formed_witness : exists s,
  parseModelSchema (H := ascii_only) blog_parser blog_directory = Ok s
  /\ md_Table <$> Models s = ["posts"; "users"] /\ schema_ok (H := ascii_only) s.
Proof.
  eexists. split; [vm_compute; reflexivity|]. split; [reflexivity|].
  apply (parsed_schema_is_well_formed (H := ascii_only) blog_parser blog_directory). vm_compute. reflexivity.
Defined.
