(* ===== verification/CliOrmProps.v ===== *)
(** * From the schema to the generated ORM ([internal/cli/orm_generate.go])

    A schema that was parsed can be turned into the data of the ORM template, unless a name
    the template declares is taken: references and relations never fail at this point. *)

From S2P Require Import Prelude GoStrings GoRegexp GoQuote GoText CliFields CliTags CliSchema CliSchemaProps CliOrm.
Local Open Scope go_scope.
Local Open Scope Z_scope.

Lemma foldR_outcome {A S} (f : A -> S -> result S) (P : S -> Prop) (Q : error -> Prop) l s :
  (forall x s, x ∈ l -> P s -> match f x s with Ok s' => P s' | Err e => Q e end) -> P s ->
  match foldR f l s with Ok s' => P s' | Err e => Q e end.
Proof.
  revert s; induction l as [|x l IH]; intros s Hf Hs; cbn; [done|]. specialize (Hf x s) as H1. 
  destruct (f x s) as [s'|e] eqn:E; cbn; [|apply H1; [by left|done]]. apply IH; [|apply H1; [by left|done]]. intros; apply Hf; [by right|done].
Qed.

(** ** Accessors *)

Lemma Split_head c s : c <> " "%char -> exists f rest, Split (String c s) " " = String c f :: rest.
Proof. intros Hc. cbn. rewrite bool_decide_eq_false_2 by done. destruct (Split s " ") as [|f rest]; [eauto|eauto]. Qed.
Lemma split_words_some p cur s : cur <> EmptyString -> split_words p cur s <> [].
Proof.
  revert p cur; induction s as [|c s IH]; intros p cur Hc; cbn [split_words]; [by rewrite bool_decide_eq_false_2|].
  destruct (match p with None => false | Some p => _ end); [done|]. apply IH. by destruct cur.
Qed.
Lemma words_some c s : wordC c = true -> words (String c s) <> [].
Proof.
  intros Hc. unfold words. cbn [replace_nonIdentifier]. rewrite Hc. unfold Fields.
  destruct (Split_head c (replace_nonIdentifier false s)) as (f & rest & ->); [by intros ->|].
  cbn -[split_words bool_decide]. rewrite bool_decide_eq_false_2 by done. cbn -[split_words].
  intros [Hn _]%app_eq_nil. revert Hn. cbn [split_words]. by apply split_words_some.
Qed.
Lemma safe_head s : safeIdentifier s = true -> exists c rest, s = String c rest /\ lowerC c = true.
Proof.
  unfold safeIdentifier. intros [_ Hm]%andb_true_iff. destruct s as [|c rest]; [done|]. exists c, rest. split; [done|].
  unfold databaseIdentifier in Hm. destruct (lowerC c) eqn:E; [done|]. cbn in Hm. rewrite E in Hm. cbn in Hm.
  exfalso. clear E. induction rest; cbn in *; [done|auto].
Qed.
Lemma safe_pascal s : safeIdentifier s = true -> exists a, pascal s = Ok a.
Proof.
  intros (c & rest & -> & Hc)%safe_head. unfold pascal.
  destruct (words (String c rest)) as [|w ws] eqn:E; [|eauto]. exfalso. revert E. apply words_some. unfold wordC, cls_or. by rewrite Hc.
Qed.

Section Generate.
Context `{Unicode}.

(** What generation can complain about once the schema is parsed. *)
Definition taken : list error :=
  [Errorf "generated declaration %s for %s conflicts with application source";
   Errorf "generated declaration %s for %s conflicts with %s";
   Errorf "query accessor %s is ambiguous for models %s and %s";
   Errorf "model %s field %s type %s conflicts with a generated import";
   Errorf "model %s relation %s uses a key type that cannot be normalized"].

(** What the template declares. *)
Definition declared_by_model (m : ormTemplateModel) : list string :=
  ((fun suffix => tm_Name m +:+ suffix) <$>
     (["Mapper"; "Table"; "Columns"; "CreateInput"; "Changes"; "Query"] ++
      match tm_Relations m with [] => [] | _ => ["Relations"] end))
  ++ (tr_Factory <$> tm_Relations m).
Definition declarations (models : list ormTemplateModel) : list string :=
  ["Store"; "NewStore"] ++ flat_map declared_by_model models.

Definition fresh (declared : gset string) (l : list string) (g : gset string) : Prop :=
  g = list_to_set l /\ NoDup l /\ Forall (fun x => x ∉ declared) l.

Lemma claim_fresh declared n l g : fresh declared l g ->
  match claim_declaration declared n g with Ok g' => fresh declared (l ++ [n]) g' | Err e => e ∈ taken end.
Proof.
  intros (-> & Hnd & Hdis). unfold claim_declaration. destruct (bool_decide (n ∈ declared)) eqn:E1; [set_solver|].
  destruct (bool_decide (n ∈ list_to_set l)) eqn:E2; [set_solver|]. bool_to_prop. split_and!.
  - set_solver.
  - apply NoDup_app. split_and!; [done|set_solver|apply NoDup_singleton].
  - apply Forall_app. split; [done|by constructor].
Qed.
Lemma claims_fresh declared ns l g : fresh declared l g ->
  match foldR (claim_declaration declared) ns g with Ok g' => fresh declared (l ++ ns) g' | Err e => e ∈ taken end.
Proof.
  revert l g; induction ns as [|n ns IH]; intros l g Hf; cbn; [by rewrite app_nil_r|].
  pose proof (claim_fresh declared n l g Hf) as Hc. destruct (claim_declaration declared n g) as [g'|]; cbn; [|done].
  specialize (IH _ _ Hc). by rewrite <- app_assoc in IH.
Qed.

(** ** Relations *)

Lemma fields_of_keys m t r lk rk : mr_Kind r ∈ relation_kinds -> relation_keys m t r = (Some lk, Some rk, None) ->
  relation_fields m t r = Some (Some lk, Some rk).
Proof.
  intros Hk. unfold relation_keys, relation_fields, ormFieldMap. destruct (bool_decide (mr_Kind r = relationBelongsTo)); [by intros [= -> -> _]|].
  destruct (_ || _); [by intros [= -> -> _]|]. destruct (bool_decide _); [by intros [= -> ->]|done].
Qed.

Context (s : modelSchema) (Hs : schema_ok s).
Let models : gmap string modelDefinition := list_to_map (reverse ((fun m => (md_Name m, m)) <$> Models s)).
Let declared : gset string := list_to_set (DeclaredNames s).

Lemma find_model t : t ∈ Models s -> models !! md_Name t = Some t.
Proof.
  intros Ht. unfold models. apply elem_of_list_to_map_1; [|apply elem_of_reverse, list_elem_of_fmap; eauto].
  rewrite fmap_reverse, reverse_Permutation, <- list_fmap_compose. apply (so_names s Hs).
Qed.

Lemma relation_builds m r : m ∈ Models s -> r ∈ md_Relations m ->
  match buildORMTemplateRelation m r models with
  | Ok tr => tr_Name tr = mr_Name r /\ tr_Factory tr = md_Name m +:+ mr_Name r +:+ "Relation"
  | Err e => e ∈ taken
  end.
Proof.
  intros Hm Hr. destruct (so_relations s Hs m r Hm Hr) as (t & lk & rk & Ht & Hn & Hk & _).
  assert (mr_Kind r ∈ relation_kinds) as Hkind.
  { pose proof (so_models s Hs) as Hall. rewrite Forall_forall in Hall. specialize (Hall m Hm). pose proof (mo_relations m Hall) as Hrs.
    rewrite Forall_forall in Hrs. by apply Hrs. }
  unfold buildORMTemplateRelation. rewrite <- Hn, (find_model t Ht), (fields_of_keys _ _ _ _ _ Hkind Hk).
  destruct (is_empty _ || is_empty _); [set_solver|]. by do 2 destruct (relationKeyCallback _ _ _).
Qed.

Definition relations_inv (m : modelDefinition) (l : list string) (st : list ormTemplateRelation * generating) : Prop :=
  fresh declared (l ++ (tr_Factory <$> st.1)) (gn_generated st.2).

Lemma relations_build m rs l trs g : m ∈ Models s -> (forall r, r ∈ rs -> r ∈ md_Relations m) -> relations_inv m l (trs, g) ->
  match foldR (build_relation declared models m) rs (trs, g) with
  | Ok (trs', g') => relations_inv m l (trs', g') /\ tr_Name <$> trs' = (tr_Name <$> trs) ++ (mr_Name <$> rs) /\ gn_accessors g' = gn_accessors g
  | Err e => e ∈ taken
  end.
Proof.
  intros Hm. revert trs g; induction rs as [|r rs IH]; intros trs g Hrs Hi; cbn.
  { by rewrite app_nil_r. }
  pose proof (relation_builds m r Hm ltac:(apply Hrs; by left)) as Hb. destruct (buildORMTemplateRelation m r models) as [tr|e]; cbn; [|done].
  destruct Hb as [Hname _]. pose proof (claim_fresh declared (tr_Factory tr) _ _ Hi) as Hc.
  destruct (claim_declaration declared (tr_Factory tr) _) as [g'|e]; cbn; [|done].
  specialize (IH (trs ++ [tr]) {| gn_accessors := gn_accessors g; gn_generated := g'; gn_imports := <["context" := "context"]> (gn_imports g) |}).
  assert (forall x, x ∈ rs -> x ∈ md_Relations m) as Hrs' by (intros; apply Hrs; by right). specialize (IH Hrs').
  assert (relations_inv m l (trs ++ [tr], {| gn_accessors := gn_accessors g; gn_generated := g'; gn_imports := <["context" := "context"]> (gn_imports g) |})) as Hi'.
  { unfold relations_inv in *. cbn in *. by rewrite fmap_app, app_assoc. }
  specialize (IH Hi'). destruct (foldR _ _ _) as [[trs' g'']|]; [|done]. destruct IH as (? & Hn & ?). split_and!; [done| |done].
  rewrite Hn, fmap_app, <- app_assoc. cbn. by rewrite Hname.
Qed.

(** ** Models *)

(** What the template gets for a model: its fields and relations in order, and in the inputs
    only the fields an application may set. *)
Definition describes (m : modelDefinition) (tm : ormTemplateModel) : Prop :=
  tm_Name tm = md_Name m /\ tm_Table tm = md_Table m /\ pascal (md_Table m) = Ok (tm_Accessor tm)
  /\ tm_Fields tm = template_field <$> md_Fields m
  /\ tm_CreateFields tm = template_field <$> List.filter editable (md_Fields m) /\ tm_ChangeFields tm = tm_CreateFields tm
  /\ tr_Name <$> tm_Relations tm = mr_Name <$> md_Relations m.

Definition models_inv (done_ : list modelDefinition) (st : list ormTemplateModel * generating) : Prop :=
  fresh declared (declarations st.1) (gn_generated st.2) /\ gn_accessors st.2 = list_to_set (tm_Accessor <$> st.1)
  /\ NoDup (tm_Accessor <$> st.1) /\ Forall2 describes done_ st.1.

Lemma declarations_snoc l m : declarations (l ++ [m]) = declarations l ++ declared_by_model m.
Proof. unfold declarations. by rewrite flat_map_app, app_assoc; cbn [flat_map]; rewrite app_nil_r. Qed.

Lemma build_model_outcome m done_ st : m ∈ Models s -> models_inv done_ st ->
  match build_model declared models m st with Ok st' => models_inv (done_ ++ [m]) st' | Err e => e ∈ taken end.
Proof.
  intros Hm (Hf & Ha & Hnd & Hd). unfold build_model. destruct st as [built g]. cbn in Hf, Ha, Hnd, Hd.
  destruct (safe_pascal (md_Table m)) as [accessor Hacc].
  { pose proof (so_models s Hs) as Hall. rewrite Forall_forall in Hall. by apply mo_table, Hall. }
  rewrite Hacc. destruct (bool_decide (accessor ∈ gn_accessors g)) eqn:Ea; [set_solver|].
  pose proof (claims_fresh declared ((fun suffix => md_Name m +:+ suffix) <$> suffixes m) _ _ Hf) as Hc.
  destruct (foldR (claim_declaration declared) _ _) as [names|e]; cbn [rbind]; [|done].
  destruct (existsb _ _); [set_solver|].
  pose proof (relations_build m (md_Relations m) (declarations built ++ ((fun suffix => md_Name m +:+ suffix) <$> suffixes m)) []
    {| gn_accessors := {[accessor]} ∪ gn_accessors g; gn_generated := names; gn_imports := gn_imports g |} Hm) as Hr.
  specialize (Hr ltac:(done)). unfold relations_inv in Hr. cbn [fst snd gn_generated fmap list_fmap] in Hr. rewrite app_nil_r in Hr. specialize (Hr Hc).
  destruct (foldR _ _ _) as [[trs g']|e]; cbn; [|done]. destruct Hr as (Hfr & Hn & Hacc'). cbn in Hn, Hacc'.
  bool_to_prop. rewrite Ha in *. unfold models_inv. cbn [fst snd]. rewrite declarations_snoc, fmap_app. cbn [fmap list_fmap tm_Accessor]. split_and!.
  - rewrite <- app_assoc in Hfr. unfold declared_by_model. cbn [tm_Name tm_Relations].
    assert (suffixes m = ["Mapper"; "Table"; "Columns"; "CreateInput"; "Changes"; "Query"] ++ match trs with [] => [] | _ => ["Relations"] end) as <-; [|done].
    unfold suffixes. apply (f_equal length) in Hn. rewrite !length_fmap in Hn.
    destruct (md_Relations m), trs; try done.
  - rewrite Hacc'. set_solver.
  - apply NoDup_app. split_and!; [done|set_solver|apply NoDup_singleton].
  - apply Forall2_app; [done|]. by constructor.
Qed.

Lemma models_build todo done_ st : (forall m, m ∈ todo -> m ∈ Models s) -> models_inv done_ st ->
  match foldR (build_model declared models) todo st with Ok st' => models_inv (done_ ++ todo) st' | Err e => e ∈ taken end.
Proof.
  revert done_ st; induction todo as [|m todo IH]; intros done_ st Hin Hi; cbn; [by rewrite app_nil_r|].
  pose proof (build_model_outcome m done_ st ltac:(apply Hin; by left) Hi) as Hb.
  destruct (build_model declared models m st) as [st'|]; cbn; [|done]. specialize (IH _ _ ltac:(intros; apply Hin; by right) Hb).
  by rewrite <- app_assoc in IH.
Qed.

Lemma imports_build l imports : (forall f, f ∈ l -> field_ok f) -> exists imports', foldR field_import l imports = Ok imports'.
Proof.
  revert imports; induction l as [|f l IH]; intros imports Hl; cbn; [eauto|]. 
  assert (exists i, field_import f imports = Ok i) as [i ->]; [|apply IH; intros; apply Hl; by right].
  pose proof (fo_import f (Hl f ltac:(by left))) as Hi. unfold field_import, is_empty.
  repeat (apply elem_of_cons in Hi as [->|Hi]; [vm_compute; eauto|]). by apply elem_of_nil in Hi.
Qed.

Lemma data_outcome :
  match buildORMTemplateData s with
  | Ok d => NoDup (declarations (td_Models d)) /\ Forall (fun n => n ∉ DeclaredNames s) (declarations (td_Models d))
      /\ NoDup (tm_Accessor <$> td_Models d) /\ Forall2 describes (Models s) (td_Models d)
  | Err e => e ∈ taken
  end.
Proof.
  unfold buildORMTemplateData. destruct (imports_build (flat_map md_Fields (Models s)) {["orm" := ormImport]}) as [imports ->]; cbn [rbind].
  { intros f Hf. apply list_elem_of_In, List.in_flat_map in Hf as (m & Hm & Hf). pose proof (so_models s Hs) as Hall.
    rewrite Forall_forall in Hall. pose proof (mo_fields m (Hall m ltac:(by apply list_elem_of_In))) as Hfs. rewrite Forall_forall in Hfs.
    by apply Hfs, list_elem_of_In. }
  assert (fresh declared [] ∅) as H0 by (split_and!; [done|constructor|constructor]).
  pose proof (claim_fresh declared "Store" _ _ H0) as H1. fold declared. destruct (claim_declaration declared "Store" ∅) as [g1|]; cbn [rbind]; [|done].
  pose proof (claim_fresh declared "NewStore" _ _ H1) as H2. destruct (claim_declaration declared "NewStore" g1) as [g2|]; cbn [rbind]; [|done].
  pose proof (models_build (Models s) [] ([], {| gn_accessors := ∅; gn_generated := g2; gn_imports := imports |}) ltac:(done)) as Hb.
  specialize (Hb ltac:(split_and!; [exact H2|done|constructor|constructor])). fold models.
  destruct (foldR _ _ _) as [[built g]|]; cbn; [|done]. destruct Hb as ((_ & Hnd & Hdis) & _ & Hacc & Hd). cbn in *.
  split_and!; [done| |done..]. eapply Forall_impl; [exact Hdis|]. unfold declared. set_solver.
Qed.
End Generate.

(** C17. Parsing and generating fit together: for a schema that was parsed, the ORM's data can
    be built unless a name is taken (or a key has no Go type) - no relation is left without
    its target or its keys.  The names the template declares are then distinct and different
    from everything the application declares, accessors are unambiguous, and each model's
    fields and relations are all there, with primary, generated and protected fields kept out
    of the inputs. *)
Theorem parsed_schemas_generate `{Unicode} ParseFile directory s : parseModelSchema ParseFile directory = Ok s ->
  match buildORMTemplateData s with
  | Ok d => NoDup (declarations (td_Models d)) /\ Forall (fun n => n ∉ DeclaredNames s) (declarations (td_Models d))
      /\ NoDup (tm_Accessor <$> td_Models d) /\ Forall2 describes (Models s) (td_Models d)
  | Err e => e ∈ taken
  end.
Proof.
  intros Hp. apply data_outcome. unfold parseModelSchema in Hp. passed Hp. destruct (sort_entries _); [done|]. passed Hp.
  by eapply schema_of_files_ok.
Qed.

Lemma parsed_schemas_generate_witness : exists s d,
  parseModelSchema (H := ascii_only) blog_parser blog_directory = Ok s /\ buildORMTemplateData s = Ok d
  /\ tm_Accessor <$> td_Models d = ["Posts"; "Users"] /\ NoDup (declarations (td_Models d)).
Proof.
  assert (exists s, parseModelSchema (H := ascii_only) blog_parser blog_directory = Ok s) as [s Hs] by (eexists; vm_compute; reflexivity).
  pose proof (parsed_schemas_generate (H := ascii_only) blog_parser blog_directory s Hs) as Ht.
  assert (s = match parseModelSchema (H := ascii_only) blog_parser blog_directory with Ok x => x | Err _ => {| Models := []; DeclaredNames := [] |} end) as Heq by (by rewrite Hs).
  assert (exists d, buildORMTemplateData s = Ok d /\ tm_Accessor <$> td_Models d = ["Posts"; "Users"]) as (d & Hd & Ha)
    by (rewrite Heq; eexists; split; vm_compute; reflexivity).
  exists s, d. rewrite Hd in Ht. destruct Ht as [Hn _]. exact (conj Hs (conj Hd (conj Ha Hn))).
Defined.

(** ** A type named like an import

    The generated file imports [context] as soon as a model has a relation.  The check that a
    field's type is not named like an import runs before that import is entered, so a field of
    a declared type [context] is refused only if a model that comes earlier has a relation. *)

Definition session_spec (name : string) : typeSpec :=
  {| ts_line := 5; ts_name := name; ts_generic := false; ts_type := StructType 5 "struct{...}"
     [blog_field 6 "ID" (Ident "int64") (forge_tag "primary,generated,required");
      blog_field 7 "Scope" (Ident "context") (forge_tag "required")] |}.
Definition context_scalar : typeSpec := {| ts_line := 3; ts_name := "context"; ts_generic := false; ts_type := Ident "string" |}.
Definition entry_spec (name target : string) : typeSpec :=
  {| ts_line := 9; ts_name := name; ts_generic := false; ts_type := StructType 9 "struct{...}"
     [blog_field 10 "ID" (Ident "int64") (forge_tag "primary,generated,required");
      blog_field 11 "OwnerID" (Ident "int64") (forge_tag ("required,references=" +:+ target +:+ ".ID"));
      blog_field 12 "Owner" (StarExpr (Ident target))
        (forge_tag ("belongs_to,target=" +:+ target +:+ ",foreign_key=OwnerID,references=ID"))] |}.
Definition sources (specs : list typeSpec) : string -> string -> result astFile := fun _ _ =>
  Ok {| f_package := "models"; f_package_line := 1; f_imports := []; f_decls := [TypeDecl specs]; f_comments := [] |}.
Definition orm_data (specs : list typeSpec) : result ormTemplateData :=
  try schema := parseModelSchema (H := ascii_only) (sources specs) blog_directory in buildORMTemplateData schema.

Example context_type_slips_through :
  match orm_data [context_scalar; session_spec "Access"; entry_spec "Post" "Access"] with
  | Ok d => ("context", "context") ∈ td_Imports d
      /\ (tf_Type <$> flat_map tm_Fields (td_Models d)) = ["int64"; "context"; "int64"; "int64"]
  | Err _ => False
  end.
Proof. vm_compute. split; [by left|reflexivity]. Qed.
Example context_type_is_refused_later :
  orm_data [context_scalar; session_spec "Session"; entry_spec "Post" "Session"]
  = Err (Errorf "model %s field %s type %s conflicts with a generated import").
Proof. vm_compute. reflexivity. Qed.
