(* ===== verification/CliSql.v ===== *)
(** * Reading migrations ([internal/cli/resource_relationships.go])

    Before a resource refers to another one, the generator looks into the migration that
    created the other's table for the unique key on owner and id.  The text is cut into
    tokens; comments and strings are skipped, so that only statements count.  Offsets in the
    source are kept; what is left from an offset is [from].

    The second half writes a migration as a list of pieces: words, quoted identifiers and
    punctuation on one side, comments and strings of every form on the other.  The scanner
    returns the pieces of the first kind and nothing of the second, so text in a comment or a
    string can neither provide the key the generator looks for nor take it away. *)

From S2P Require Import Prelude GoStrings GoQuote GoRegexp GoText.
Local Open Scope go_scope.
Local Open Scope Z_scope.

Definition isSQLIdentifierByte (c : ascii) : bool :=
  bool_decide (c = "_"%char) || bool_decide (c = "$"%char) || lowerC c || upperC c || digitC c.
Definition isSQLSpace (c : ascii) : bool := bool_decide (c ∈ [" "%char; chr 9; chr 10; chr 13; chr 12]).

(** ** Skipping *)

Fixpoint skip_line (s : string) : string :=
  match s with
  | String c rest => if bool_decide (c = newline) then s else skip_line rest
  | EmptyString => EmptyString
  end.

Fixpoint skipSQLBlockComment (s : string) (depth : nat) : string :=
  match depth with
  | O => s
  | S d =>
      match s with
      | EmptyString => EmptyString
      | String a rest =>
          match rest with
          | String b rest' =>
              if bool_decide (a = "/"%char) && bool_decide (b = "*"%char) then skipSQLBlockComment rest' (S depth)
              else if bool_decide (a = "*"%char) && bool_decide (b = "/"%char) then skipSQLBlockComment rest' d
              else skipSQLBlockComment rest depth
          | EmptyString => EmptyString
          end
      end
  end.

Fixpoint skipSQLQuotedBody (s : string) (quote : ascii) (backslashEscapes : bool) : string :=
  match s with
  | EmptyString => EmptyString
  | String c rest =>
      match rest with
      | String c' rest' =>
          if backslashEscapes && bool_decide (c = backslash) then skipSQLQuotedBody rest' quote backslashEscapes
          else if negb (bool_decide (c = quote)) then skipSQLQuotedBody rest quote backslashEscapes
          else if bool_decide (c' = quote) then skipSQLQuotedBody rest' quote backslashEscapes
          else rest
      | EmptyString => EmptyString
      end
  end.

(** The delimiter of a dollar-quoted body, and what follows it. *)
Fixpoint dollar_tag (s delimiter : string) : option (string * string) :=
  match s with
  | String c rest =>
      if bool_decide (c = "$"%char) then Some (delimiter +:+ "$", rest)
      else if isSQLIdentifierByte c then dollar_tag rest (delimiter +:+ String c EmptyString)
      else None
  | EmptyString => None
  end.
(** The text after the first dollar sign; [None] if no body starts there. *)
Definition skipSQLDollarQuotedBody (s : string) : option string :=
  match dollar_tag s "$" with
  | None => None
  | Some (delimiter, body) =>
      match Index body delimiter with
      | Some closing => Some (drop_string (closing + String.length delimiter) body)
      | None => Some EmptyString
      end
  end.

Fixpoint readSQLQuotedIdentifier (s : string) : string * string :=
  match s with
  | EmptyString => (EmptyString, EmptyString)
  | String c rest =>
      if negb (bool_decide (c = dquote)) then let '(value, next) := readSQLQuotedIdentifier rest in (String c value, next)
      else match rest with
      | String c' rest' =>
          if bool_decide (c' = dquote) then let '(value, next) := readSQLQuotedIdentifier rest' in (String dquote value, next)
          else (EmptyString, rest)
      | EmptyString => (EmptyString, EmptyString)
      end
  end.

Fixpoint span_identifier (s : string) : string * string :=
  match s with
  | String c rest =>
      if isSQLIdentifierByte c then let '(word, next) := span_identifier rest in (String c word, next) else (EmptyString, s)
  | EmptyString => (EmptyString, EmptyString)
  end.

(** ** Tokens *)

Definition punctuationC : ascii -> bool := oneof "().,;".

(** One round of the loop: the token it adds, if any, and the text that is left.  [boundary]
    tells that no identifier byte comes before. *)
Definition next_token (boundary : bool) (s : string) : option (option string * string) :=
  match s with
  | EmptyString => None
  | String c rest =>
      Some (
        if isSQLSpace c then (None, rest)
        else if HasPrefix s "--" then (None, skip_line (drop_string 2 s))
        else if HasPrefix s "/*" then (None, skipSQLBlockComment (drop_string 2 s) 1)
        else if bool_decide (c = squote) then (None, skipSQLQuotedBody rest squote false)
        else if (HasPrefix s "e'" || HasPrefix s "E'") && boundary then (None, skipSQLQuotedBody (drop_string 2 s) squote true)
        else if (HasPrefix s "u&'" || HasPrefix s "U&'") && boundary
        then (None, skipSQLQuotedBody (drop_string 3 s) squote false)
        else if bool_decide (c = "$"%char)
        then (None, match skipSQLDollarQuotedBody rest with Some next => next | None => rest end)
        else if bool_decide (c = dquote) then
          let '(identifier, next) := readSQLQuotedIdentifier rest in
          (if bool_decide (identifier = EmptyString) then None else Some identifier, next)
        else if isSQLIdentifierByte c then let '(word, next) := span_identifier s in (Some (ToLower word), next)
        else if punctuationC c then (Some (String c EmptyString), rest)
        else (None, rest))
  end.

Fixpoint tokens_from (fuel : nat) (source : string) (index : nat) : list string :=
  match fuel with
  | O => []
  | S n =>
      let boundary := match index with
                      | O => true
                      | S i => match String.get i source with Some p => negb (isSQLIdentifierByte p) | None => true end
                      end in
      match next_token boundary (drop_string index source) with
      | None => []
      | Some (token, next) =>
          let tokens := tokens_from n source (String.length source - String.length next) in
          match token with Some t => t :: tokens | None => tokens end
      end
  end.
Definition postgresMigrationTokens (source : string) : list string := tokens_from (S (String.length source)) source 0.

(** ** Statements *)

Fixpoint starts_with (wanted tokens : list string) : bool :=
  match wanted, tokens with
  | [], _ => true
  | w :: wanted, t :: tokens => bool_decide (t = w) && starts_with wanted tokens
  | _ :: _, [] => false
  end.
Fixpoint containsSQLTokenSequence (tokens wanted : list string) : bool :=
  starts_with wanted tokens || match tokens with [] => false | _ :: rest => containsSQLTokenSequence rest wanted end.
Definition containsConstraintDeclaration (tokens : list string) (constraint : string) : bool :=
  containsSQLTokenSequence tokens ["constraint"; constraint; "unique"; "("; "user_id"; ","; "id"; ")"].

Fixpoint skip_words (skipped : list string) (tokens : list string) : list string :=
  match tokens with
  | t :: rest => if bool_decide (t ∈ skipped) then skip_words skipped rest else tokens
  | [] => []
  end.
Definition targetTableAfter (tokens : list string) (table : string) : option (list string) :=
  match skip_words ["if"; "not"; "exists"; "only"] tokens with
  | [] => None
  | t :: rest =>
      if bool_decide (t = table) then Some rest
      else match rest with
      | dot :: name :: rest' => if bool_decide (dot = ".") && bool_decide (name = table) then Some rest' else None
      | _ => None
      end
  end.

Definition droppedConstraint (tokens : list string) (constraint : string) : bool :=
  match tokens with
  | [] => false
  | t :: rest =>
      bool_decide (t = "constraint") &&
      match skip_words ["if"; "exists"] rest with name :: _ => bool_decide (name = constraint) | [] => false end
  end.
Definition renamedConstraint (tokens : list string) (constraint : string) : bool := starts_with ["constraint"; constraint] tokens.

Section Key.
Context (table constraint : string).

(** The clauses of ALTER TABLE. *)
Fixpoint alter_clauses (clauses : list string) (present : bool) : bool :=
  match clauses with
  | [] => present
  | clause :: rest =>
      alter_clauses rest
        (if bool_decide (clause = "add") && containsConstraintDeclaration rest constraint then true
         else if bool_decide (clause = "drop") && droppedConstraint rest constraint then false
         else if bool_decide (clause = "rename") && renamedConstraint rest constraint then false
         else if bool_decide (clause = "rename") && starts_with ["to"] rest then false
         else present)
  end.

Fixpoint scan_statement (statement : list string) (present : bool) : bool :=
  match statement with
  | [] => present
  | word :: rest =>
      scan_statement rest
        (if bool_decide (word = "create") then
           match skip_words ["unlogged"; "temporary"; "temp"] rest with
           | keyword :: rest' =>
               if bool_decide (keyword = "table") then
                 match targetTableAfter rest' table with
                 | Some after => containsConstraintDeclaration after constraint
                 | None => present
                 end
               else present
           | [] => present
           end
         else if bool_decide (word = "alter") && starts_with ["table"] rest then
           match targetTableAfter (tail rest) table with
           | Some after => alter_clauses after present
           | None => present
           end
         else if bool_decide (word = "drop") && starts_with ["table"] rest then
           match targetTableAfter (tail rest) table with Some _ => false | None => present end
         else present)
  end.

(** The statements, one after the other; [statement] is what is before the next semicolon. *)
Fixpoint scan_statements (tokens statement : list string) (present : bool) : bool :=
  match tokens with
  | [] => scan_statement statement present
  | t :: rest =>
      if bool_decide (t = ";") then scan_statements rest [] (scan_statement statement present)
      else scan_statements rest (statement ++ [t]) present
  end.
Definition containsOwnerCandidateKey (contents : string) : bool :=
  scan_statements (postgresMigrationTokens contents) [] false.
End Key.

Definition create_posts : string :=
  "CREATE TABLE posts (id BIGSERIAL, user_id BIGINT, CONSTRAINT posts_owner_id_key UNIQUE (user_id, id));".
Example key_found : containsOwnerCandidateKey "posts" "posts_owner_id_key" create_posts = true.
Proof. vm_compute. reflexivity. Qed.
Example key_dropped :
  containsOwnerCandidateKey "posts" "posts_owner_id_key"
    (create_posts +:+ " ALTER TABLE public.posts DROP CONSTRAINT IF EXISTS posts_owner_id_key;") = false.
Proof. vm_compute. reflexivity. Qed.

(** DROP TABLE takes a list of tables; only the first name is looked at, so the key of a table
    that is dropped second is still reported. *)
Example dropped_table_keeps_its_key :
  containsOwnerCandidateKey "posts" "posts_owner_id_key" (create_posts +:+ " DROP TABLE comments, posts;") = true
  /\ containsOwnerCandidateKey "posts" "posts_owner_id_key" (create_posts +:+ " DROP TABLE posts, comments;") = false.
Proof. vm_compute. done. Qed.

Fixpoint doubled (p : ascii -> bool) (s : string) : string :=
  match s with
  | EmptyString => EmptyString
  | String c rest => if p c then String c (String c (doubled p rest)) else String c (doubled p rest)
  end.
Definition quoteC (c : ascii) : bool := bool_decide (c = squote).
Definition escapedC (c : ascii) : bool := quoteC c || bool_decide (c = backslash).
Definition dquoteC (c : ascii) : bool := bool_decide (c = dquote).

(** What follows the [/*] of a block comment: text up to the closing [*/], with any number of
    comments inside, each after some text. *)
Inductive comment : Type :=
| Closed (text : string)
| Nested (text : string) (inner rest : comment).
Fixpoint write_comment (c : comment) : string :=
  match c with
  | Closed text => text +:+ "*/"
  | Nested text inner rest => text +:+ "/*" +:+ write_comment inner +:+ write_comment rest
  end.
(** The text opens and closes no comment, neither alone nor with the delimiter after it. *)
Definition delimits (a b : ascii) : bool :=
  (bool_decide (a = "/"%char) && bool_decide (b = "*"%char)) || (bool_decide (a = "*"%char) && bool_decide (b = "/"%char)).
Fixpoint plain_before (text : string) (after : ascii) : bool :=
  match text with
  | EmptyString => true
  | String a rest => negb (delimits a (match rest with String b _ => b | EmptyString => after end)) && plain_before rest after
  end.
Fixpoint comment_ok (c : comment) : bool :=
  match c with
  | Closed text => plain_before text "*"
  | Nested text inner rest => plain_before text "/" && comment_ok inner && comment_ok rest
  end.

Inductive piece : Type :=
| Word (w : string)
| QuotedName (v : string)
| Punctuation (c : ascii)
| LineComment (text : string)
| BlockComment (c : comment)
| Literal (v : string)
| EscapeLiteral (v : string)
| UnicodeLiteral (v : string)
| DollarLiteral (tag body : string).

Definition one (c : ascii) : string := String c EmptyString.
Definition body (p : piece) : string :=
  match p with
  | Word w => w
  | QuotedName v => String dquote (doubled dquoteC v +:+ one dquote)
  | Punctuation c => one c
  | LineComment text => "--" +:+ text
  | BlockComment c => "/*" +:+ write_comment c
  | Literal v => String squote (doubled quoteC v +:+ one squote)
  | EscapeLiteral v => "E'" +:+ doubled escapedC v +:+ one squote
  | UnicodeLiteral v => "U&'" +:+ doubled quoteC v +:+ one squote
  | DollarLiteral tag b => "$" +:+ tag +:+ "$" +:+ b +:+ "$" +:+ tag +:+ "$"
  end.
Definition write_piece (p : piece) : string := body p +:+ one newline.
Definition write_pieces (ps : list piece) : string := foldr (fun p acc => write_piece p +:+ acc) EmptyString ps.

(** Characters of an identifier other than the dollar sign. *)
Definition nameC (c : ascii) : bool := isSQLIdentifierByte c && negb (bool_decide (c = "$"%char)).
Definition piece_ok (p : piece) : bool :=
  match p with
  | Word w => all_chars nameC w && negb (bool_decide (w = EmptyString))
  | QuotedName v => negb (bool_decide (v = EmptyString))
  | Punctuation c => punctuationC c
  | LineComment text => all_chars (fun c => negb (bool_decide (c = newline))) text
  | BlockComment c => comment_ok c
  | Literal _ | EscapeLiteral _ | UnicodeLiteral _ => true
  (* the delimiter occurs first at the end of the body *)
  | DollarLiteral tag b =>
      all_chars nameC tag && bool_decide (Index (b +:+ "$" +:+ tag +:+ "$") ("$" +:+ tag +:+ "$") = Some (String.length b))
  end.
Definition token_of (p : piece) : option string :=
  match p with
  | Word w => Some (ToLower w)
  | QuotedName v => Some v
  | Punctuation c => Some (one c)
  | _ => None
  end.

(** ** Skipping over one piece *)

Lemma skip_line_text text rest : all_chars (fun c => negb (bool_decide (c = newline))) text = true ->
  skip_line (text +:+ String newline rest) = String newline rest.
Proof.
  induction text as [|c text IH]; intros Ht; [done|]. cbn in Ht. bool_to_prop. rewrite string_app_cons. cbn [skip_line].
  rewrite bool_decide_eq_false_2 by done. auto.
Qed.
Lemma skip_plain text after rest d : plain_before text after = true ->
  skipSQLBlockComment (text +:+ String after rest) (S d) = skipSQLBlockComment (String after rest) (S d).
Proof.
  induction text as [|a text IH]; intros Ht; [done|]. cbn [plain_before] in Ht. apply andb_true_iff in Ht as [Hd Ht].
  rewrite string_app_cons. rewrite <- (IH Ht). unfold delimits in Hd. apply negb_true_iff, orb_false_iff in Hd as [H1 H2].
  assert (exists b r, text +:+ String after rest = String b r /\ b = match text with String b _ => b | EmptyString => after end) as (b & r & -> & ->)
    by (destruct text; by eexists _, _).
  cbn [skipSQLBlockComment]. by rewrite H1, H2.
Qed.
Lemma skip_comment c rest d : comment_ok c = true -> skipSQLBlockComment (write_comment c +:+ rest) (S d) = skipSQLBlockComment rest d.
Proof.
  revert rest d. induction c as [text|text inner IHi outer IHo]; intros rest d Hc; cbn [comment_ok write_comment] in *.
  - rewrite <- string_app_assoc. change ("*/" +:+ rest) with (String "*" (String "/" rest)). by rewrite skip_plain.
  - apply andb_true_iff in Hc as [[Ht Hi]%andb_true_iff Ho]. rewrite <- !string_app_assoc.
    change ("/*" +:+ ?x) with (String "/" (String "*" x)). rewrite skip_plain by done.
    change (skipSQLBlockComment (String "/" (String "*" ?x)) (S d)) with (skipSQLBlockComment x (S (S d))).
    by rewrite IHi, IHo.
Qed.
Lemma skip_quoted p esc v rest : (forall c, p c = quoteC c || esc && bool_decide (c = backslash)) ->
  skipSQLQuotedBody (doubled p v +:+ String squote (String newline rest)) squote esc = String newline rest.
Proof.
  intros Hp. assert (p squote = true) as Hq by by rewrite Hp. induction v as [|c v IH].
  { cbn [doubled]. rewrite string_app_nil_l. cbn [skipSQLQuotedBody]. by rewrite (bool_decide_eq_false_2 (squote = backslash)), andb_false_r by done. }
  cbn [doubled]. destruct (p c) eqn:Hc; rewrite !string_app_cons; cbn [skipSQLQuotedBody].
  - rewrite Hp in Hc. destruct (esc && bool_decide (c = backslash)) eqn:E; [done|]. rewrite orb_false_r in Hc. unfold quoteC in Hc. bool_to_prop.
    subst c. by rewrite (bool_decide_eq_true_2 (squote = squote)).
  - rewrite Hp in Hc. apply orb_false_iff in Hc as [Hc1 Hc2]. unfold quoteC in Hc1. rewrite Hc2, Hc1. cbn [negb].
    destruct (doubled p v +:+ String squote (String newline rest)) eqn:E; [by destruct (doubled p v)|]. done.
Qed.
Lemma read_name v rest : readSQLQuotedIdentifier (doubled dquoteC v +:+ String dquote (String newline rest)) = (v, String newline rest).
Proof.
  induction v as [|c v IH]; [done|]. cbn [doubled]. unfold dquoteC. destruct (bool_decide (c = dquote)) eqn:Hc; rewrite !string_app_cons; cbn [readSQLQuotedIdentifier].
  - rewrite Hc. cbn [negb]. bool_to_prop. subst. unfold dquoteC in IH. by rewrite IH.
  - rewrite Hc. cbn [negb]. unfold dquoteC in IH. by rewrite IH.
Qed.
Lemma dollar_tag_spec tag acc rest : all_chars nameC tag = true -> dollar_tag (tag +:+ String "$" rest) acc = Some ((acc +:+ tag) +:+ "$", rest).
Proof.
  revert acc; induction tag as [|c tag IH]; intros acc Ht; [by rewrite string_app_nil_r|]. cbn in Ht. unfold nameC in Ht. bool_to_prop.
  rewrite string_app_cons. cbn [dollar_tag]. rewrite bool_decide_eq_false_2 by done. rewrite H, IH by done.
  by rewrite <- (string_app_assoc acc).
Qed.
Lemma HasPrefix_enough s x r : (String.length x <= String.length s)%nat -> HasPrefix (s +:+ r) x = HasPrefix s x.
Proof.
  revert x; induction s as [|c s IH]; intros [|a x] H; cbn in H; try done; [by destruct r|lia|]. rewrite string_app_cons. cbn.
  f_equal. apply IH. lia.
Qed.
Lemma HasPrefix_fits s x : HasPrefix s x = true -> (String.length x <= String.length s)%nat.
Proof.
  revert x; induction s as [|c s IH]; intros [|a x]; cbn; try (done || lia). intros [_ H]%andb_true_iff. apply IH in H. lia.
Qed.
Lemma Index_fits s d k : Index s d = Some k -> (String.length d <= String.length s)%nat.
Proof.
  revert k; induction s as [|c s IH]; intros k; cbn -[HasPrefix]; destruct (HasPrefix _ d) eqn:Hp;
    try (intros _; by apply HasPrefix_fits in Hp); [done|]. destruct (Index s d) as [j|]; [|done]. intros _. specialize (IH j eq_refl). lia.
Qed.
(** The first occurrence is the same in a longer text. *)
Lemma Index_more s d r k : Index s d = Some k -> Index (s +:+ r) d = Some k.
Proof.
  revert k; induction s as [|c s IH]; intros k Hk.
  { pose proof (Index_fits _ _ _ Hk) as Hf. destruct d; [|cbn in Hf; lia]. injection Hk as <-. by destruct r. }
  pose proof (Index_fits _ _ _ Hk) as Hf. rewrite string_app_cons. cbn [Index] in *. rewrite <- string_app_cons.
  rewrite (HasPrefix_enough _ _ _ Hf). destruct (HasPrefix (String c s) d); [done|].
  destruct (Index s d) as [j|]; [|done]. by rewrite (IH j eq_refl).
Qed.
Lemma span_word w rest : all_chars nameC w = true -> span_identifier (w +:+ String newline rest) = (w, String newline rest).
Proof.
  induction w as [|c w IH]; intros Hw; [done|]. cbn in Hw. unfold nameC in Hw. bool_to_prop. rewrite string_app_cons. cbn [span_identifier].
  by rewrite H, IH.
Qed.

(** ** One round *)

Lemma nameC_other c : nameC c = true -> isSQLSpace c = false /\ isSQLIdentifierByte c = true /\
  c <> "-"%char /\ c <> "/"%char /\ c <> squote /\ c <> "$"%char /\ c <> dquote.
Proof. destruct c as [[] [] [] [] [] [] [] []]; intros Hc; try discriminate Hc; vm_compute; split_and!; done. Qed.
Lemma punctuation_other c : punctuationC c = true -> isSQLSpace c = false /\ isSQLIdentifierByte c = false /\
  c <> "-"%char /\ c <> "/"%char /\ c <> squote /\ c <> "$"%char /\ c <> dquote /\ (forall r, HasPrefix (String c r) "e'" = false)
  /\ (forall r, HasPrefix (String c r) "E'" = false) /\ (forall r, HasPrefix (String c r) "u&'" = false) /\ (forall r, HasPrefix (String c r) "U&'" = false).
Proof. destruct c as [[] [] [] [] [] [] [] []]; intros Hc; try discriminate Hc; vm_compute; split_and!; done. Qed.

Lemma no_prefix x y w rest : all_chars nameC w = true -> nameC x = false -> x <> newline ->
  HasPrefix (w +:+ String newline rest) (String x y) = false.
Proof.
  intros Hw Hx Hn. destruct w as [|c w].
  - rewrite string_app_nil_l. cbn [HasPrefix]. by rewrite bool_decide_eq_false_2.
  - cbn in Hw. bool_to_prop. rewrite string_app_cons. cbn [HasPrefix]. rewrite bool_decide_eq_false_2; [done|]. intros ->. congruence.
Qed.

Lemma next_word w rest : piece_ok (Word w) = true -> next_token true (w +:+ String newline rest) = Some (Some (ToLower w), String newline rest).
Proof.
  cbn [piece_ok]. intros [Hw Hne]%andb_true_iff. destruct w as [|c w]; [done|]. pose proof (span_word (String c w) rest Hw) as Hspan.
  cbn in Hw. apply andb_true_iff in Hw as [Hc Hw]. destruct (nameC_other c Hc) as (H1 & H2 & H3 & H4 & H5 & H6 & H7).
  rewrite string_app_cons in *. unfold next_token. rewrite H1, Hspan, H2. cbn [HasPrefix].
  rewrite (bool_decide_eq_false_2 (c = "-"%char)), (bool_decide_eq_false_2 (c = "/"%char)), (bool_decide_eq_false_2 (c = squote)),
    (bool_decide_eq_false_2 (c = "$"%char)), (bool_decide_eq_false_2 (c = dquote)) by done.
  cbn [andb]. rewrite !no_prefix, !andb_false_r by done. done.
Qed.

(** How each kind of piece opens. *)
Lemma opens_line s : next_token true (String "-" (String "-" s)) = Some (None, skip_line s).
Proof. by destruct s. Qed.
Lemma opens_block s : next_token true (String "/" (String "*" s)) = Some (None, skipSQLBlockComment s 1).
Proof. by destruct s. Qed.
Lemma opens_literal s : next_token true (String squote s) = Some (None, skipSQLQuotedBody s squote false).
Proof. by destruct s. Qed.
Lemma opens_escape s : next_token true (String "E" (String squote s)) = Some (None, skipSQLQuotedBody s squote true).
Proof. by destruct s. Qed.
Lemma opens_unicode s : next_token true (String "U" (String "&" (String squote s))) = Some (None, skipSQLQuotedBody s squote false).
Proof. by destruct s. Qed.
Lemma opens_dollar s next : skipSQLDollarQuotedBody s = Some next -> next_token true (String "$" s) = Some (None, next).
Proof. intros Hs. unfold next_token. rewrite Hs. by destruct s. Qed.
Lemma opens_name s v next : readSQLQuotedIdentifier s = (v, next) -> v <> EmptyString -> next_token true (String dquote s) = Some (Some v, next).
Proof. intros Hs Hv. unfold next_token. rewrite Hs, (bool_decide_eq_false_2 (v = _)) by done. by destruct s. Qed.

Lemma dollar_body tag b rest : piece_ok (DollarLiteral tag b) = true ->
  skipSQLDollarQuotedBody (tag +:+ String "$" (b +:+ String "$" (tag +:+ String "$" rest))) = Some rest.
Proof.
  cbn [piece_ok]. intros [Ht Hb%bool_decide_eq_true]%andb_true_iff. unfold skipSQLDollarQuotedBody. rewrite dollar_tag_spec by done.
  change (("$" +:+ tag) +:+ "$") with (String "$" (tag +:+ "$")).
  assert (b +:+ String "$" (tag +:+ String "$" rest) = b +:+ String "$" (tag +:+ "$") +:+ rest) as ->.
  { f_equal. rewrite string_app_cons. f_equal. by rewrite <- string_app_assoc. }
  apply (Index_more _ _ rest) in Hb. rewrite <- string_app_assoc in Hb. cbn [String.append] in Hb.
  change ("$" +:+ tag +:+ "$") with (String "$" (tag +:+ "$")) in Hb. rewrite Hb.
  f_equal. rewrite <- string_length_app, string_app_assoc. apply drop_string_app.
Qed.

Lemma next_piece p rest : piece_ok p = true -> next_token true (body p +:+ String newline rest) = Some (token_of p, String newline rest).
Proof.
  destruct p as [w|v|c|text|text|v|v|v|tag b]; intros Hp; cbn [body token_of].
  - by apply next_word.
  - rewrite string_app_cons, <- string_app_assoc. apply opens_name; [apply read_name|]. cbn in Hp. by bool_to_prop.
  - cbn [piece_ok] in Hp. destruct (punctuation_other c Hp) as (H1 & H2 & H3 & H4 & H5 & H6 & H7 & E1 & E2 & E3 & E4).
    unfold one. rewrite string_app_cons, string_app_nil_l. unfold next_token. rewrite E1, E2, E3, E4, H1, H2, Hp. cbn [HasPrefix].
    by rewrite !(bool_decide_eq_false_2 (c = _)) by done.
  - rewrite <- string_app_assoc. rewrite !string_app_cons, string_app_nil_l, opens_line. by rewrite skip_line_text.
  - rewrite <- string_app_assoc. rewrite !string_app_cons, string_app_nil_l, opens_block. rewrite skip_comment by done. by destruct rest.
  - rewrite string_app_cons, <- string_app_assoc. rewrite opens_literal. unfold one. rewrite string_app_cons, string_app_nil_l.
    rewrite (skip_quoted quoteC); [done|]. intros c. by rewrite orb_false_r.
  - rewrite <- !string_app_assoc. unfold one. rewrite !string_app_cons, !string_app_nil_l, opens_escape. by rewrite (skip_quoted escapedC).
  - rewrite <- !string_app_assoc. unfold one. rewrite !string_app_cons, !string_app_nil_l, opens_unicode.
    rewrite (skip_quoted quoteC); [done|]. intros c. by rewrite orb_false_r.
  - rewrite <- !string_app_assoc, !string_app_cons, !string_app_nil_l. apply opens_dollar. by apply dollar_body.
Qed.

(** ** The whole text *)

Lemma get_last pre c s : String.get (String.length pre) (pre +:+ String c s) = Some c.
Proof. induction pre as [|x pre IH]; [done|]. rewrite string_app_cons. apply IH. Qed.

(** No identifier byte right before the offset. *)
Definition at_boundary (pre : string) : Prop := pre = EmptyString \/ exists pre', pre = pre' +:+ one newline.

Lemma round fuel pre text tok next :
  (forall b, (at_boundary pre -> b = true) -> next_token b (text +:+ next) = Some (tok, next)) ->
  tokens_from (S fuel) (pre +:+ text +:+ next) (String.length pre) =
  match tok with Some t => [t] | None => [] end ++ tokens_from fuel ((pre +:+ text) +:+ next) (String.length (pre +:+ text)).
Proof.
  intros Hn. cbn [tokens_from]. rewrite drop_string_app, Hn.
  - rewrite string_app_assoc.
    assert ((String.length ((pre +:+ text) +:+ next) - String.length next)%nat = String.length (pre +:+ text)) as ->; [|by destruct tok].
    rewrite (string_length_app (pre +:+ text)). lia.
  - intros [->|(pre' & ->)]; [done|]. rewrite string_length_app. cbn [one String.length]. rewrite Nat.add_1_r.
    rewrite <- string_app_assoc. unfold one. rewrite string_app_cons, get_last. done.
Qed.

Lemma body_length p : piece_ok p = true -> (1 <= String.length (body p))%nat.
Proof. destruct p as [[|c w]| | | | | | | |]; intros Hp; [done|..]; cbn [body]; unfold one; rewrite ?string_app_cons; cbn [String.length]; apply le_n_S, Nat.le_0_l. Qed.

Lemma pieces_tokens ps fuel pre : Forall (fun p => piece_ok p = true) ps -> at_boundary pre ->
  (String.length (write_pieces ps) < fuel)%nat ->
  tokens_from fuel (pre +:+ write_pieces ps) (String.length pre) = omap token_of ps.
Proof.
  intros Hps. revert fuel pre; induction Hps as [|p ps Hp Hps IH]; intros fuel pre Hb Hf.
  { cbn [write_pieces foldr]. destruct fuel; [done|]. cbn [tokens_from]. by rewrite drop_string_app. }
  cbn [write_pieces foldr] in *. fold (write_pieces ps) in *. unfold write_piece in *. rewrite !string_length_app in Hf. cbn [one String.length] in Hf.
  pose proof (body_length p Hp) as Hl. destruct fuel as [|[|fuel]]; [lia|lia|]. rewrite <- (string_app_assoc (body p)).
  rewrite (round _ _ (body p) (token_of p) (one newline +:+ write_pieces ps)).
  2: { intros b Hbt. rewrite (Hbt Hb). by apply next_piece. }
  rewrite (round _ _ (one newline) None (write_pieces ps)) by done. cbn [app].
  rewrite IH; [by destruct (token_of p) eqn:E; cbn; rewrite E|right; by eexists|lia].
Qed.

Definition visible (p : piece) : bool := match token_of p with Some _ => true | None => false end.

Lemma omap_visible ps : omap token_of (List.filter visible ps) = omap token_of ps.
Proof.
  induction ps as [|p ps IH]; [done|]. cbn [List.filter]. unfold visible at 1. destruct (token_of p) as [t|] eqn:E; cbn; rewrite E; [|done].
  by rewrite IH.
Qed.
Lemma tokens_written ps : Forall (fun p => piece_ok p = true) ps -> postgresMigrationTokens (write_pieces ps) = omap token_of ps.
Proof. intros Hps. apply (pieces_tokens ps _ EmptyString); [done|by left|lia]. Qed.

(** C22. Comments and strings of a migration are inert: the scanner reads a migration written as
    pieces, one to a line, back as exactly its words, quoted identifiers and punctuation, and
    whether the owner's key is found does not change when every comment and every string,
    whatever they contain, is taken out.  A line comment is any text without a line break; a
    block comment is any text in which comments are properly nested, to any depth; a string is
    any text with its quotes doubled, after [E] its backslashes too, or, between dollar
    delimiters, any text in which the delimiter does not occur.  A word is made of letters,
    digits and underscores. *)
Theorem comments_and_strings_are_inert ps table constraint : Forall (fun p => piece_ok p = true) ps ->
  postgresMigrationTokens (write_pieces ps) = omap token_of ps /\
  containsOwnerCandidateKey table constraint (write_pieces ps)
  = containsOwnerCandidateKey table constraint (write_pieces (List.filter visible ps)).
Proof.
  intros Hps. split; [by apply tokens_written|]. unfold containsOwnerCandidateKey. rewrite (tokens_written ps), tokens_written, omap_visible; [done| |done].
  rewrite Forall_forall in *. intros p [Hp _]%list_elem_of_In%List.filter_In. apply Hps. by apply list_elem_of_In.
Qed.

Lemma comments_and_strings_are_inert_witness :
  let ps := [Word "CREATE"; Word "TABLE"; QuotedName "posts"; LineComment " CONSTRAINT k UNIQUE (user_id, id)";
             BlockComment (Nested "* drop table posts; " (Closed " nested ") (Closed "; drop * / table posts; *"));
             DollarLiteral "fn" "begin perform $$drop table posts;$$; end"; EscapeLiteral "it's \ ;"; Punctuation ";"] in
  postgresMigrationTokens (write_pieces ps) = ["create"; "table"; "posts"; ";"] /\
  containsOwnerCandidateKey "posts" "k" (write_pieces ps) = containsOwnerCandidateKey "posts" "k" (write_pieces (List.filter visible ps)).
Proof.
  intros ps. apply (comments_and_strings_are_inert ps "posts" "k"). repeat constructor.
Defined.
