(* ===== verification/CliMake.v ===== *)
(** * Planning a model or a resource ([resource_state.go], [model.go], [resource_templates.go], [resource_relationships.go])

    What [make:model] and [make:resource] decide before they write: names, the version of the
    migration, the targets of relationships, the data of the templates and the files.
    Rendering a template and the clock are arguments. *)

From S2P Require Import Prelude GoStrings GoRegexp GoUtf8 GoQuote GoUrl GoText CliFields CliTags CliSchema CliSql.
Local Open Scope go_scope.
Local Open Scope Z_scope.

Record resourceSpec : Type := { rs_Name : string; rs_Package : string; rs_Plural : string; rs_MigrationVersion : string }.
Record resourceState : Type := { Resources : list resourceSpec }.
Record plannedFile : Type := { pl_path : string; pl_content : string }.

(** ** The version of the next migration *)

Fixpoint zeros (n : nat) (s : string) : string := match n with O => s | S n' => String "0" (zeros n' s) end.
(** [%014d] *)
Definition format14 (z : Z) : string :=
  if z <? 0 then String "-" (let d := Itoa (- z) in zeros (13 - String.length d) d)
  else let d := Itoa z in zeros (14 - String.length d) d.

Definition consider (version : string) (maximum : Z) : result Z :=
  match Atoi version with
  | None => Err (Errorf "invalid migration version %q in %s")
  | Some value => Ok (if value >? maximum then value else maximum)
  end.

(** The versions in the names of migration files. *)
Definition migration_version (e : dirEntry) : option string :=
  if de_isDir e then None
  else let '(version, suffix, ok) := Cut (de_name e) "_" in
       if ok && (HasSuffix suffix ".up.sql" || HasSuffix suffix ".down.sql") then Some version else None.

(** [stamp] is the clock's time as [20060102150405]; a missing directory has no entries. *)
Definition nextMigrationVersion (stamp : string) (directory : result (list dirEntry)) (state : resourceState) : result string :=
  match Atoi stamp with
  | None => Err (Wrapf "build migration timestamp: %w" (Sentinel "strconv.ErrSyntax"))
  | Some candidate =>
      try maximum := foldR consider (rs_MigrationVersion <$> Resources state) (candidate - 1) in
      try entries := (match directory with Ok l => Ok l | Err e => Err (Wrapf "scan migrations: %w" e) end) in
      try maximum := foldR consider (omap migration_version entries) maximum in
      if maximum >=? candidate then
        if maximum =? MaxInt64 then Err (Errorf "migration version space exhausted")
        else Ok (format14 (maximum + 1))
      else Ok (format14 candidate)
  end.

(** ** Specifications *)

Definition builtin_tables : list string :=
  ["users"; "sessions"; "schema_migrations"; "jobs"; "failed_jobs"; "goforge_jobs"; "goforge_failed_jobs"].
Definition resource_declarations : list string :=
  ["Controller"; "WebController"; "Repository"; "PostgresRepository"; "WriteRequest"; "ErrNotFound"; "NewController";
   "NewWebController"; "NewPostgresRepository"].

Record modelRelationship : Type := {
  rl_belongsTo : resourceBelongsTo; rl_TargetTable : string; rl_TargetKey : string; rl_TargetColumn : string;
  rl_ForeignKeyType : string; rl_SQLType : string; rl_IndexName : string; rl_ConstraintName : string
}.

Section Plan.
Context `{Unicode} (stamp : string) (migrations : result (list dirEntry)).

Definition newResourceSpec (name : string) (state : resourceState) : result resourceSpec :=
  try typeName := pascal name in
  let tableName := match snake typeName with Ok t => t | Err _ => EmptyString end in
  let packageName := ToLower typeName in
  if negb (IsIdentifier typeName) || negb (IsIdentifier packageName) || IsKeyword packageName
  then Err (Errorf "resource name %q does not produce valid Go identifiers")
  else if bool_decide (typeName ∈ resource_declarations) then Err (Errorf "resource name %s conflicts with a generated declaration")
  else
    let plural := pluralize tableName in
    if bool_decide (plural ∈ builtin_tables) then Err (Errorf "resource %s conflicts with the built-in %s table")
    else if existsb (fun existing => EqualFold (rs_Name existing) typeName || bool_decide (rs_Package existing = packageName)
                                     || bool_decide (rs_Plural existing = plural)) (Resources state)
    then Err (Errorf "resource %s already exists")
    else
      try version := nextMigrationVersion stamp migrations state in
      Ok {| rs_Name := typeName; rs_Package := packageName; rs_Plural := plural; rs_MigrationVersion := version |}.

Record modelSpec : Type := { ms_Name : string; ms_File : string; ms_Table : string; ms_MigrationVersion : string }.

Definition newModelSpec (name : string) (state : resourceState) : result modelSpec :=
  try typeName := pascal name in
  if negb (IsIdentifier typeName) || negb (IsExported typeName)
  then Err (Errorf "model name %q does not produce an exported Go identifier")
  else
    try fileName := snake typeName in
    let table := pluralize fileName in
    if negb (safeIdentifier table) then Err (Errorf "model name %q produces unsafe table %q")
    else if bool_decide (table ∈ builtin_tables) then Err (Errorf "model %s conflicts with the built-in %s table")
    else if existsb (fun resource => EqualFold (rs_Name resource) typeName || bool_decide (rs_Plural resource = table)) (Resources state)
    then Err (Errorf "model %s conflicts with generated resource %s")
    else
      try version := nextMigrationVersion stamp migrations state in
      Ok {| ms_Name := typeName; ms_File := fileName; ms_Table := table; ms_MigrationVersion := version |}.
End Plan.

(** ** Relationships of a model *)

Definition target_key (m : modelDefinition) : option modelField :=
  List.find (fun f => bool_decide (mf_Name f = "ID") && mf_Primary f && mf_Required f && negb (mf_Nullable f)) (md_Fields m).
Definition too_long (identifier : string) : bool :=
  negb (safeIdentifier identifier) || (byte_len identifier >? maximumResourceIdentifier).

Definition resolve_relationship (childTable : string) (models : gmap string modelDefinition) (relation : resourceBelongsTo)
    : result modelRelationship :=
  match models !! rb_Target relation with
  | None => Err (Errorf "belongs-to relationship %q targets %s, which is not an existing model")
  | Some target =>
      match target_key target with
      | None => Err (Errorf "belongs-to target %s must have a required primary ID field")
      | Some key =>
          if negb (is_empty (mf_GoImportPath key)) then Err (Errorf "belongs-to target %s ID type %s requires an imported package")
          else
            let indexName := childTable +:+ "_" +:+ rb_ForeignKey relation +:+ "_idx" in
            let constraintName := childTable +:+ "_" +:+ rb_ForeignKey relation +:+ "_fkey" in
            if too_long indexName || too_long constraintName
            then Err (Errorf "belongs-to relationship %q produces %s name %q longer than PostgreSQL's %d-byte identifier limit")
            else Ok {| rl_belongsTo := relation; rl_TargetTable := md_Table target; rl_TargetKey := mf_Name key;
                       rl_TargetColumn := mf_Column key; rl_ForeignKeyType := mf_GoType key;
                       rl_SQLType := ToUpper (mf_DBType key); rl_IndexName := indexName; rl_ConstraintName := constraintName |}
      end
  end.
Definition resolveModelRelationships (childTable : string) (schema : result modelSchema) (requested : list resourceBelongsTo)
    : result (list modelRelationship) :=
  if bool_decide (length requested = 0%nat) then Ok []
  else match schema with
  | Err e => Err (Wrapf "inspect belongs-to targets: %w" e)
  | Ok schema =>
      let models := list_to_map (reverse ((fun m => (md_Name m, m)) <$> Models schema)) in
      mapR (resolve_relationship childTable models) requested
  end.

(** ** The data of a field in the templates *)

Record resourceTemplateField : Type := {
  tp_field : resourceField; tp_BaseGoType : string; tp_SQLType : string; tp_ForgeTag : string; tp_String : bool;
  tp_Text : bool; tp_Integer : bool; tp_Boolean : bool; tp_SampleGoValue : string; tp_UpdatedGoValue : string;
  tp_DriverValue : string; tp_UpdatedDriverValue : string; tp_SampleJSONValue : string; tp_UpdatedJSONValue : string;
  tp_InvalidJSONValue : string; tp_SampleFormValue : string; tp_UpdatedFormValue : string
}.

Section Templates.
Context (isPrint : Z -> bool).

(** Sample and updated value, in Go, for the driver, in JSON and in a form. *)
Definition samples (field : resourceField) : (string * string) * (string * string) * string :=
  let quoted := (Quote isPrint ("Example " +:+ rf_Label field), Quote isPrint ("Updated " +:+ rf_Label field)) in
  match rf_Kind field with
  | resourceFieldString | resourceFieldText =>
      (quoted, ("Example " +:+ rf_Label field, "Updated " +:+ rf_Label field), "7")
  | resourceFieldInteger => (("int64(7)", "int64(11)"), ("7", "11"), Quote isPrint "not-an-integer")
  | resourceFieldBoolean => (("true", "false"), ("true", "false"), Quote isPrint "not-a-boolean")
  end.
Definition textual (field : resourceField) : bool :=
  match rf_Kind field with resourceFieldString | resourceFieldText => true | _ => false end.

Definition projectResourceTemplateField (field : resourceField) : resourceTemplateField :=
  let '((go1, go2), (form1, form2), invalid) := samples field in
  let pointer (v : string) := if rf_Nullable field then "pointer(" +:+ v +:+ ")" else v in
  let '(json1, json2) := if textual field then (go1, go2) else (form1, form2) in
  {| tp_field := field; tp_BaseGoType := TrimPrefix (rf_GoType field) "*"; tp_SQLType := ToUpper (rf_DBType field);
     tp_ForgeTag := (if rf_Nullable field then "nullable" else "required") +:+
                    (if textual field then ",type=" +:+ rf_DBType field else EmptyString);
     tp_String := bool_decide (rf_Kind field = resourceFieldString); tp_Text := bool_decide (rf_Kind field = resourceFieldText);
     tp_Integer := bool_decide (rf_Kind field = resourceFieldInteger);
     tp_Boolean := bool_decide (rf_Kind field = resourceFieldBoolean);
     tp_SampleGoValue := pointer go1; tp_UpdatedGoValue := pointer go2; tp_DriverValue := go1; tp_UpdatedDriverValue := go2;
     tp_SampleJSONValue := json1; tp_UpdatedJSONValue := json2; tp_InvalidJSONValue := invalid;
     tp_SampleFormValue := form1; tp_UpdatedFormValue := form2 |}.

(** ** Files of a model *)

Context (renderTemplate : string -> string -> result string).

Definition modelFiles (spec : modelSpec) : result (list plannedFile) :=
  let modelPath := "internal/models/" +:+ ms_File spec +:+ ".go" in
  try model := renderTemplate "templates/model/model.go.tmpl" modelPath in
  let migrationBase := "database/migrations/" +:+ ms_MigrationVersion spec +:+ "_create_" +:+ ms_Table spec in
  try up := renderTemplate "templates/model/up.sql.tmpl" (migrationBase +:+ ".up.sql") in
  Ok [{| pl_path := modelPath; pl_content := model |};
      {| pl_path := migrationBase +:+ ".up.sql"; pl_content := up |};
      {| pl_path := migrationBase +:+ ".down.sql"; pl_content := "DROP TABLE IF EXISTS " +:+ ms_Table spec +:+ ";" +:+ String newline EmptyString |}].

(** ** Files of a resource *)

Definition format13ResourceDeclarations : list string :=
  ["Access"; "AccessAll"; "AccessDenied"; "AccessOwner"; "Action"; "ActionCreate"; "ActionDelete"; "ActionList";
   "ActionUpdate"; "ActionView"; "AllRecordsScope"; "Authorize"; "AuthorizeFunc"; "ErrForbidden"; "ErrInvalidAuthorization";
   "ErrInvalidScope"; "OwnerScope"; "Scope"].
Definition format16ResourceDeclarations : list string :=
  ["ListOptions"; "ParseListOptions"; "DefaultListOptions"; "ChoiceOptions"; "DefaultChoiceOptions"; "AssociationChoicePage";
   "ChoiceFormState"].

(** The names of the Go files and the views of a resource. *)
Definition resource_go_files (format : Z) : list string :=
  ["model.go"; "repository.go"; "repository_test.go"; "request.go"; "controller.go"; "controller_test.go";
   "web_controller.go"; "web_controller_test.go"]
  ++ (if format >=? 16 then ["browse.go"; "browse_test.go"] else [])
  ++ (if format >=? 13 then ["authorization.go"; "authorization_test.go"] else []).
Definition resource_views : list string :=
  ["index.forge.html"; "form.forge.html"; "new.forge.html"; "edit.forge.html"; "show.forge.html"].

Definition rendered (template destination : string) : result plannedFile :=
  try content := renderTemplate template destination in Ok {| pl_path := destination; pl_content := content |}.

Definition resourceFilesForFormat (spec : resourceSpec) (fields : list resourceField) (labels : list string) (format : Z)
    : result (list plannedFile) :=
  if (format >=? 16) && bool_decide (rs_Name spec ∈ format16ResourceDeclarations)
  then Err (Errorf "resource %s conflicts with a format-16 browsing declaration")
  else if (format >=? 16) && existsb (fun f => bool_decide (rf_Name f ∈ ["intent"; "validation_attempted"])) fields
  then Err (Errorf "resource field %s conflicts with a format-16 form control")
  else if (format >=? 13) && bool_decide (rs_Name spec ∈ format13ResourceDeclarations)
  then Err (Errorf "resource %s conflicts with a format-13 authorization declaration")
  else
    try _ := pascal (rs_Plural spec) in
    if (format >=? 10) && too_long (rs_Plural spec +:+ "_owner_id_key")
    then Err (Errorf "resource %s produces owner candidate-key name %q longer than PostgreSQL's %d-byte identifier limit")
    else if negb (format >=? 16) && existsb (fun label => negb (is_empty label)) labels
    then Err (Errorf "choice-label declarations require project format 16 or newer")
    else
      try model := rendered "templates/resource/source_model.go.tmpl" ("internal/models/" +:+ rs_Package spec +:+ ".go") in
      try sources := mapR (fun name => rendered ("templates/resource/" +:+ name +:+ ".tmpl")
                             ("internal/resources/" +:+ rs_Package spec +:+ "/" +:+ name)) (resource_go_files format) in
      try views := mapR (fun name => rendered ("templates/resource/views/" +:+ name +:+ ".tmpl")
                           ("resources/views/pages/" +:+ rs_Plural spec +:+ "/" +:+ name)) resource_views in
      let migration := "database/migrations/" +:+ rs_MigrationVersion spec +:+ "_create_" +:+ rs_Plural spec in
      try up := rendered "templates/resource/up.sql.tmpl" (migration +:+ ".up.sql") in
      Ok (model :: sources ++ views ++
          [up; {| pl_path := migration +:+ ".down.sql";
                  pl_content := "DROP TABLE IF EXISTS " +:+ rs_Plural spec +:+ ";" +:+ String newline EmptyString |}]).
End Templates.

(** ** Targets of a resource *)

Definition resourceModelField (m : modelDefinition) (name : string) : option modelField :=
  List.find (fun f => bool_decide (mf_Name f = name)) (md_Fields m).

Definition validateResourceRelationshipTarget (resource : resourceSpec) (model : modelDefinition) : result unit :=
  if negb (bool_decide (md_Table model = rs_Plural resource)) then Err (Errorf "model table is %q, want %q")
  else match resourceModelField model "ID" with
  | Some id =>
      if negb (bool_decide (mf_GoType id = "int64")) || negb (mf_Primary id) || negb (mf_Generated id) || negb (mf_Required id)
      then Err (Errorf "model must retain its generated required int64 ID")
      else match resourceModelField model "UserID" with
      | Some ownerID =>
          if negb (bool_decide (mf_GoType ownerID = "int64")) || negb (mf_Protected ownerID) || negb (mf_Required ownerID)
             || negb (references_key "User" "ID" ownerID)
          then Err (Errorf "model must retain its protected required int64 UserID reference")
          else if existsb (fun r => bool_decide (mr_Name r = "Owner") && bool_decide (mr_Kind r = relationBelongsTo)
                                    && bool_decide (mr_Target r = "User") && bool_decide (mr_ForeignKey r = "UserID")
                                    && bool_decide (mr_References r = "ID")) (md_Relations model)
          then Ok tt
          else Err (Errorf "model must retain its Owner belongs-to relationship")
      | None => Err (Errorf "model must retain its protected required int64 UserID reference")
      end
  | None => Err (Errorf "model must retain its generated required int64 ID")
  end.

(** The field whose values name the choices, or [None] when no label was asked for. *)
Definition resolveResourceChoiceLabel (model : modelDefinition) (name : string) : result (option modelField) :=
  if is_empty name then Ok None
  else match List.find (fun f => bool_decide (mf_Column f = name)) (md_Fields model) with
  | None => Err (Errorf "choice-label target %s has no field column %q")
  | Some field =>
      if negb (bool_decide (mf_typeFamily field = "string"))
         || (negb (bool_decide (mf_GoType field = "string")) && negb (bool_decide (mf_GoType field = "*string")))
         || mf_Generated field || mf_Protected field
         || (negb (bool_decide (mf_DBType field = "text")) && negb (re_match sizedDatabaseType (mf_DBType field)))
      then Err (Errorf "choice-label %s:%s requires an editable string or *string target field stored as text/varchar; use application-owned choice code for other types")
      else Ok (Some field)
  end.

Record resourceRelationship : Type := {
  rr_belongsTo : resourceBelongsTo; rr_TargetSpec : resourceSpec; rr_TargetQueryAccessor : string; rr_IndexName : string;
  rr_ConstraintName : string; rr_ChoiceLabelGoName : string; rr_ChoiceLabelNullable : bool; rr_targetMigration : string
}.

(** [captureDevelopmentFile] of the migration is an argument: [None] for a missing file. *)
Definition captureResourceOwnerCandidateKey (capture : string -> result (option string)) (resource : resourceSpec) : result string :=
  let path := Clean ("database/migrations/" +:+ rs_MigrationVersion resource +:+ "_create_" +:+ rs_Plural resource +:+ ".up.sql") in
  match capture path with
  | Err e => Err (Wrapf "read owner-safe migration %s: %w" e)
  | Ok None => Err (Errorf "read owner-safe migration %s: file does not exist")
  | Ok (Some data) =>
      if containsOwnerCandidateKey (rs_Plural resource) (rs_Plural resource +:+ "_owner_id_key") data then Ok data
      else Err (Errorf "migration must retain effective constraint %s UNIQUE (user_id, id)")
  end.

Definition resolve_resource (capture : string -> result (option string)) (childPlural : string)
    (models : gmap string modelDefinition) (resources : gmap string resourceSpec) (relation : resourceBelongsTo)
    : result resourceRelationship :=
  match resources !! rb_Target relation with
  | None => Err (Errorf "belongs-to relationship %q targets %s, which is not an existing generated resource")
  | Some target =>
      match models !! rs_Name target with
      | None => Err (Errorf "belongs-to target %s is missing its application model")
      | Some model =>
          try _ := wrapped "belongs-to target %s is incompatible: %w" (validateResourceRelationshipTarget target model) in
          try label := wrapped "belongs-to relationship %s: %w" (resolveResourceChoiceLabel model (rb_ChoiceLabelName relation)) in
          try migration := wrapped "belongs-to target %s is incompatible: %w" (captureResourceOwnerCandidateKey capture target) in
          try accessor := wrapped "build belongs-to target accessor for %s: %w" (pascal (rs_Plural target)) in
          let indexName := childPlural +:+ "_" +:+ rb_ForeignKey relation +:+ "_idx" in
          let constraintName := childPlural +:+ "_" +:+ rb_Name relation +:+ "_owner_fkey" in
          if too_long indexName || too_long constraintName
          then Err (Errorf "belongs-to relationship %q produces %s name %q longer than PostgreSQL's %d-byte identifier limit")
          else Ok {| rr_belongsTo := relation; rr_TargetSpec := target; rr_TargetQueryAccessor := accessor;
                     rr_IndexName := indexName; rr_ConstraintName := constraintName;
                     rr_ChoiceLabelGoName := match label with Some f => mf_Name f | None => EmptyString end;
                     rr_ChoiceLabelNullable := match label with Some f => mf_Nullable f | None => false end;
                     rr_targetMigration := migration |}
      end
  end.
Definition resolveResourceRelationships (capture : string -> result (option string)) (childPlural : string)
    (schema : result modelSchema) (state : resourceState) (requested : list resourceBelongsTo)
    : result (list resourceRelationship) :=
  if bool_decide (length requested = 0%nat) then Ok []
  else match schema with
  | Err e => Err (Wrapf "inspect belongs-to targets: %w" e)
  | Ok schema =>
      let models := list_to_map (reverse ((fun m => (md_Name m, m)) <$> Models schema)) in
      let resources := list_to_map (reverse ((fun r => (rs_Name r, r)) <$> Resources state)) in
      mapR (resolve_resource capture childPlural models resources) requested
  end.
