(* ===== verification/CliMakeProps.v ===== *)
(** * What planning guarantees ([resource_state.go], [resource_fields.go], [resource_templates.go])

    New migrations come last; the members of a generated model do not collide, neither in the
    table nor in the struct; and the struct fields that the templates write for them are read
    back by the schema parser as they were asked for. *)

From S2P Require Import Prelude GoStrings GoUtf8 GoQuote GoRegexp GoUrl GoText CliFields CliTags CliSchema CliSchemaProps CliSql CliMake.
Local Open Scope go_scope.
Local Open Scope Z_scope.

(** ** Versions *)

Lemma zeros_Atoi n z : 0 <= z -> in_int64 z -> Atoi (zeros n (Itoa z)) = Some z.
Proof.
  intros Hz Hr. pose proof (Atoi_Itoa z Hr) as Ha. unfold Itoa in *. destruct (Z.ltb_spec z 0); [lia|].
  assert (unsigned_digits (digits_fuel 20 z) = Some z) as Hu.
  { destruct (digits_fuel 20 z) as [|c s] eqn:E; [by apply digits_nonempty in E|]. pose proof (digits_all_digits 20 z Hz) as Hd. rewrite E in Hd. cbn in Hd.
    apply andb_true_iff in Hd as [Hc _]. rewrite Atoi_unsigned in Ha by done. destruct (unsigned_digits (String c s)) as [k|]; [|done]. cbn in Ha.
    unfold check_int64 in Ha. by destruct (_ && _). }
  assert (unsigned_digits (zeros n (digits_fuel 20 z)) = Some z) as Hz'.
  { destruct n as [|n]; [done|]. cbn [zeros unsigned_digits]. change (parse_digits (String "0" ?s) 0) with (parse_digits s 0).
    induction n as [|n IH]; [|exact IH]. cbn [zeros]. destruct (digits_fuel 20 z); [done|exact Hu]. }
  destruct n as [|n]; [exact Ha|]. cbn [zeros] in *. rewrite Atoi_unsigned by done. rewrite Hz'. cbn. unfold check_int64.
  unfold in_int64 in Hr. rewrite (proj2 (Z.leb_le MinInt64 z)), (proj2 (Z.leb_le z MaxInt64)) by lia. done.
Qed.
Lemma zeros_length n s : String.length (zeros n s) = (n + String.length s)%nat.
Proof. induction n; cbn; [done|lia]. Qed.

Lemma considered l m0 : in_int64 m0 ->
  match foldR consider l m0 with
  | Ok m => m0 <= m /\ in_int64 m /\ (forall w, w ∈ l -> exists k, Atoi w = Some k /\ k <= m) /\ (m = m0 \/ exists w, w ∈ l /\ Atoi w = Some m)
  | Err _ => exists w, w ∈ l /\ Atoi w = None
  end.
Proof.
  revert m0; induction l as [|w l IH]; intros m0 Hr; cbn.
  { split_and!; [lia|done| |by left]. by intros w ?%elem_of_nil. }
  unfold consider at 1. destruct (Atoi w) as [k|] eqn:Hk; cbn; [|exists w; split; [by left|done]].
  pose proof (Atoi_range _ _ Hk) as Hkr. specialize (IH (if k >? m0 then k else m0)). destruct (Z.gtb_spec k m0).
  - specialize (IH Hkr). destruct (foldR consider l k) as [m|]; [|destruct IH as (w' & ? & ?); exists w'; split; [by right|done]].
    destruct IH as (H1 & H2 & H3 & H4). split_and!; [lia|done| |].
    + intros w' [->|Hw']%elem_of_cons; [exists k; split; [done|lia]|auto].
    + right. destruct H4 as [->|(w' & ? & ?)]; [exists w; split; [by left|done]|exists w'; split; [by right|done]].
  - specialize (IH Hr). destruct (foldR consider l m0) as [m|]; [|destruct IH as (w' & ? & ?); exists w'; split; [by right|done]].
    destruct IH as (H1 & H2 & H3 & H4). split_and!; [lia|done| |].
    + intros w' [->|Hw']%elem_of_cons; [exists k; split; [done|lia]|auto].
    + destruct H4 as [->|(w' & ? & ?)]; [by left|right; exists w'; split; [by right|done]].
Qed.

(** The versions that are taken: those of generated resources and of migration files. *)
Definition taken_versions (state : resourceState) (entries : list dirEntry) : list string :=
  (rs_MigrationVersion <$> Resources state) ++ omap migration_version entries.

Lemma version_after_all stamp now entries state : Atoi stamp = Some now -> 0 < now ->
  match nextMigrationVersion stamp (Ok entries) state with
  | Ok v => exists n, Atoi v = Some n /\ now <= n /\ (14 <= String.length v)%nat
      /\ forall w, w ∈ taken_versions state entries -> exists k, Atoi w = Some k /\ k < n
  | Err _ => exists w, w ∈ taken_versions state entries /\ (Atoi w = None \/ Atoi w = Some MaxInt64)
  end.
Proof.
  intros Hnow Hpos. unfold nextMigrationVersion, taken_versions. rewrite Hnow. pose proof (Atoi_range _ _ Hnow) as Hr.
  pose proof (considered (rs_MigrationVersion <$> Resources state) (now - 1)) as H1. unfold in_int64, MinInt64, MaxInt64 in *.
  specialize (H1 ltac:(lia)). destruct (foldR consider _ (now - 1)) as [m1|]; cbn [rbind].
  2: { destruct H1 as (w & ? & ?). exists w. split; [set_solver|by left]. }
  destruct H1 as (Hm1 & Hr1 & Hall1 & Hmax1). pose proof (considered (omap migration_version entries) m1) as H2.
  unfold in_int64, MinInt64, MaxInt64 in *. specialize (H2 Hr1). destruct (foldR consider _ m1) as [m2|]; cbn [rbind].
  2: { destruct H2 as (w & ? & ?). exists w. split; [set_solver|by left]. }
  destruct H2 as (Hm2 & Hr2 & Hall2 & Hmax2).
  assert (forall w, w ∈ (rs_MigrationVersion <$> Resources state) ++ omap migration_version entries -> exists k, Atoi w = Some k /\ k <= m2) as Hall.
  { intros w [Hw|Hw]%elem_of_app; [|auto]. destruct (Hall1 w Hw) as (k & ? & ?). exists k. split; [done|lia]. }
  assert (m2 = now - 1 \/ exists w, w ∈ (rs_MigrationVersion <$> Resources state) ++ omap migration_version entries /\ Atoi w = Some m2) as Hmax.
  { destruct Hmax2 as [->|(w & ? & ?)]; [|right; exists w; set_solver]. destruct Hmax1 as [->|(w & ? & ?)]; [by left|right; exists w; set_solver]. }
  assert (forall n, 0 <= n -> in_int64 n -> Atoi (format14 n) = Some n /\ (14 <= String.length (format14 n))%nat) as Hfmt.
  { intros n Hn Hin. unfold format14. rewrite (proj2 (Z.ltb_ge n 0)) by lia. split; [by apply zeros_Atoi|]. rewrite zeros_length. lia. }
  unfold in_int64, MinInt64, MaxInt64 in Hfmt. rewrite Z.geb_leb. destruct (Z.leb_spec now m2).
  - destruct (Z.eqb_spec m2 9223372036854775807) as [Hx|].
    + destruct Hmax as [?|(w & ? & ?)]; [lia|]. exists w. subst. auto.
    + destruct (Hfmt (m2 + 1)) as [Ha Hl]; [lia|lia|]. exists (m2 + 1). split_and!; [done|lia|done|]. intros w Hw.
      destruct (Hall w Hw) as (k & ? & ?). exists k. split; [done|lia].
  - destruct (Hfmt now) as [Ha Hl]; [lia|lia|]. exists now. split_and!; [done|lia|done|]. intros w Hw.
    destruct (Hall w Hw) as (k & ? & ?). exists k. split; [done|lia].
Qed.

(** C23. A new migration comes after every existing one: the version is a number of at least
    fourteen digits, not before the clock, and larger than the version of every generated
    resource and every migration file.  With a clock whose stamp is a positive number, no
    version is given only if the migrations directory cannot be read, an existing version is
    not a number, or one is already the largest 64-bit number. *)
Theorem next_version_is_last stamp now directory state : Atoi stamp = Some now -> 0 < now ->
  match nextMigrationVersion stamp directory state with
  | Ok v => exists entries n, directory = Ok entries /\ Atoi v = Some n /\ now <= n /\ (14 <= String.length v)%nat
      /\ forall w, w ∈ taken_versions state entries -> exists k, Atoi w = Some k /\ k < n
  | Err _ => (exists e, directory = Err e) \/
      exists entries w, directory = Ok entries /\ w ∈ taken_versions state entries /\ (Atoi w = None \/ Atoi w = Some MaxInt64)
  end.
Proof.
  intros Hnow Hpos. destruct directory as [entries|e].
  - pose proof (version_after_all stamp now entries state Hnow Hpos) as H.
    destruct (nextMigrationVersion _ _ _); [destruct H as (n & ?); by exists entries, n|destruct H as (w & ? & ?); right; by exists entries, w].
  - destruct (nextMigrationVersion stamp (Err e) state) as [v|] eqn:E; [exfalso|left; by exists e].
    unfold nextMigrationVersion in E. rewrite Hnow in E. by destruct (foldR consider _ _).
Qed.

Lemma next_version_is_last_witness : exists v n,
  nextMigrationVersion "20260101120000" (Ok [{| de_name := "20270101000000_create_posts.up.sql"; de_isDir := false; de_read := Ok EmptyString |}])
    {| Resources := [] |} = Ok v /\ Atoi v = Some n /\ 20260101120000 <= n.
Proof.
  pose proof (next_version_is_last "20260101120000" 20260101120000
    (Ok [{| de_name := "20270101000000_create_posts.up.sql"; de_isDir := false; de_read := Ok EmptyString |}]) {| Resources := [] |}
    ltac:(reflexivity) ltac:(lia)) as Ht.
  destruct (nextMigrationVersion _ _ _) as [v|e] eqn:E; [|vm_compute in E; discriminate E].
  destruct Ht as (entries & n & _ & Hn & Hle & _). exists v, n. exact (conj eq_refl (conj Hn Hle)).
Defined.

(** ** Fields *)

(** Printable ASCII that needs no escape between double quotes, and no backquote. *)
Definition plainC (c : ascii) : bool := rng 32 126 c && negb (oneof (String dquote (String backslash (String backquote EmptyString))) c).

Lemma plain_quoted isPrint c s : plainC c = true -> DecodeRune (String c s) = (ord c, 1%nat) /\ escaped_rune isPrint (ord c) = String c EmptyString
  /\ (ord c =? RuneError) = false /\ c <> dquote /\ c <> backslash /\ c <> backquote /\ c <> chr 13.
Proof. destruct c as [[] [] [] [] [] [] [] []]; intros Hc; try discriminate Hc; vm_compute; split_and!; done. Qed.
Lemma plain_body isPrint n s : all_chars plainC s = true -> (String.length s <= n)%nat -> quote_body isPrint n s = s.
Proof.
  revert n; induction s as [|c s IH]; intros n Hs Hn; [by destruct n|]. destruct n as [|n]; [cbn in Hn; lia|]. cbn in Hs. bool_to_prop.
  cbn [quote_body]. destruct (plain_quoted isPrint c s) as (-> & -> & -> & _); [done|]. cbn [Nat.eqb andb].
  rewrite string_app_cons, string_app_nil_l. cbn [drop_string]. f_equal. destruct s; apply IH; cbn in *; auto; lia.
Qed.
Lemma Unquote_plain s : all_chars plainC s = true -> Unquote (String dquote (s +:+ String dquote EmptyString)) = Some s.
Proof.
  intros Hs. pose proof (Unquote_Quote (fun _ => false) s) as Hu. unfold Quote in Hu. by rewrite plain_body in Hu.
Qed.
Lemma value_end_plain s rest : all_chars plainC s = true -> value_end (s +:+ String dquote rest) = Some (String.length s).
Proof.
  induction s as [|c s IH]; intros Hs; [done|]. cbn in Hs. bool_to_prop. destruct (plain_quoted (fun _ => false) c s) as (_ & _ & _ & H1 & H2 & _); [done|].
  rewrite string_app_cons. cbn [value_end]. rewrite !bool_decide_eq_false_2 by done. by rewrite IH.
Qed.
Lemma without_cr_plain s : all_chars plainC s = true -> without_cr s = s.
Proof.
  induction s as [|c s IH]; intros Hs; [done|]. cbn in Hs. bool_to_prop. cbn [without_cr].
  destruct (plain_quoted (fun _ => false) c s) as (_ & _ & _ & _ & _ & _ & H1); [done|]. rewrite bool_decide_eq_false_2 by done. by rewrite IH.
Qed.

Lemma IndexByte_key k r : all_chars (fun c => negb (bool_decide (c = ":"%char))) k = true -> IndexByte (k +:+ String ":" r) ":" = Some (String.length k).
Proof.
  unfold IndexByte. induction k as [|c k IH]; intros Hk; [by rewrite string_app_nil_l; cbn; destruct r|]. cbn in Hk. bool_to_prop. rewrite string_app_cons. cbn [Index HasPrefix].
  rewrite bool_decide_eq_false_2 by done. cbn [andb]. by rewrite IH.
Qed.
Lemma letter_no_space c s : lowerC c = true -> leading_space spaceEncodings (String c s) = None.
Proof. destruct c as [[] [] [] [] [] [] [] []]; intros Hc; try discriminate Hc; reflexivity. Qed.
Lemma trim_letter c s : lowerC c = true -> TrimLeftSpace (String c s) = String c s.
Proof. intros Hc. unfold TrimLeftSpace. cbn [String.length trim_left_fuel]. by rewrite letter_no_space. Qed.
Lemma trim_blank c s : lowerC c = true -> TrimLeftSpace (String " " (String c s)) = String c s.
Proof. 
  intros Hc. unfold TrimLeftSpace. cbn [String.length trim_left_fuel].
  change (leading_space spaceEncodings (String " " (String c s))) with (Some (String c s)). cbn [trim_left_fuel]. by rewrite letter_no_space.
Qed.

Lemma drop_past k x r : drop_string (S (String.length k)) (k +:+ String x r) = r.
Proof. induction k as [|c k IH]; [by destruct r|]. rewrite string_app_cons. exact IH. Qed.
Lemma take_past k x r : take_string (S (String.length k)) (k +:+ String x r) = k +:+ String x EmptyString.
Proof. induction k as [|c k IH]; [by destruct r|]. rewrite !string_app_cons. cbn [String.length]. change (String c (take_string (S (String.length k)) (k +:+ String x r)) = String c (k +:+ String x EmptyString)). by rewrite IH. Qed.

(** One entry of a struct tag. *)
Definition tag_entry (key value : string) : string := key +:+ String ":" (String dquote (value +:+ String dquote EmptyString)).

Lemma struct_tag_entry n wanted key value rest found raw : all_chars lowerC key = true -> key <> EmptyString -> all_chars plainC value = true ->
  TrimLeftSpace raw = tag_entry key value +:+ rest ->
  struct_tag (S n) wanted raw found =
    if bool_decide (key = wanted) then match found with Some _ => Err (Errorf "duplicate %s struct tag") | None => struct_tag n wanted rest (Some value) end
    else struct_tag n wanted rest found.
Proof.
  intros Hk Hne Hv Hraw. cbn [struct_tag]. rewrite Hraw. unfold tag_entry.
  rewrite <- string_app_assoc, (string_app_cons ":"), (string_app_cons dquote), <- string_app_assoc, string_app_cons, string_app_nil_l.
  rewrite bool_decide_eq_false_2 by (by destruct key).
  rewrite IndexByte_key by (clear -Hk; induction key as [|x l IH]; [done|]; cbn in *; bool_to_prop; rewrite IH by done; destruct (bool_decide (x = ":"%char)) eqn:E; [|done]; bool_to_prop; by subst).
  rewrite drop_past, take_string_app. destruct (String.length key) eqn:El; [by destruct key|].
  rewrite bool_decide_eq_true_2 by done. cbn [negb]. rewrite value_end_plain, take_past, drop_past, Unquote_plain by done. done.
Qed.

(** The struct tag that the templates write for a field. *)
Definition field_tag (name forge : string) : string :=
  String backquote ((tag_entry "json" name +:+ String " " (tag_entry "db" name +:+ String " " (tag_entry "forge" forge))) +:+ String backquote EmptyString).

Definition rawC (c : ascii) : bool := negb (bool_decide (c = backquote)) && negb (bool_decide (c = chr 13)).
Lemma raw_literal s : all_chars rawC s = true -> Unquote (String backquote (s +:+ String backquote EmptyString)) = Some s.
Proof.
  intros Hs. unfold Unquote. rewrite bool_decide_eq_true_2 by done. rewrite Cut_app.
  - cbn. f_equal. induction s as [|c s IH]; [done|]. cbn in Hs. unfold rawC in Hs. bool_to_prop. cbn [without_cr].
    rewrite bool_decide_eq_false_2 by done. by rewrite IH.
  - induction s as [|c s IH]; [done|]. cbn in *. unfold rawC in Hs. bool_to_prop. rewrite bool_decide_eq_false_2 by done. by rewrite IH.
Qed.
Lemma raw_entry key value rest : all_chars lowerC key = true -> all_chars plainC value = true -> all_chars rawC rest = true -> all_chars rawC (tag_entry key value +:+ rest) = true.
Proof.
  intros Hk Hv Hr. unfold tag_entry. rewrite !all_chars_app. cbn [all_chars]. rewrite all_chars_app, Hr, andb_true_r.
  rewrite (all_chars_mono lowerC rawC key), (all_chars_mono plainC rawC value); [done| |done| |done];
    intros [[] [] [] [] [] [] [] []]; by vm_compute.
Qed.
Lemma field_tag_read name forge : all_chars plainC name = true -> all_chars plainC forge = true ->
  modelFieldTags (Some (field_tag name forge)) = Ok (forge, name).
Proof.
  intros Hn Hf. unfold modelFieldTags, sourceStructTag, field_tag. rewrite raw_literal.
  2: { apply raw_entry; [done..|]. cbn [all_chars]. apply raw_entry; [done..|]. cbn [all_chars]. rewrite <- (string_app_nil_r (tag_entry "forge" forge)). by apply raw_entry. }
  assert (forall n wanted found, struct_tag (S (S (S (S n)))) wanted (tag_entry "json" name +:+ String " " (tag_entry "db" name +:+ String " " (tag_entry "forge" forge))) found
    = if bool_decide ("json" = wanted) then match found with Some _ => Err (Errorf "duplicate %s struct tag") | None => struct_tag (S (S (S n))) wanted (String " " (tag_entry "db" name +:+ String " " (tag_entry "forge" forge))) (Some name) end
      else struct_tag (S (S (S n))) wanted (String " " (tag_entry "db" name +:+ String " " (tag_entry "forge" forge))) found) as H1.
  { intros. by apply struct_tag_entry; [..|by apply trim_letter]. }
  assert (forall n wanted found, struct_tag (S (S (S n))) wanted (String " " (tag_entry "db" name +:+ String " " (tag_entry "forge" forge))) found
    = if bool_decide ("db" = wanted) then match found with Some _ => Err (Errorf "duplicate %s struct tag") | None => struct_tag (S (S n)) wanted (String " " (tag_entry "forge" forge)) (Some name) end
      else struct_tag (S (S n)) wanted (String " " (tag_entry "forge" forge)) found) as H2.
  { intros. by apply struct_tag_entry; [..|by apply trim_blank]. }
  assert (forall n wanted found, struct_tag (S (S n)) wanted (String " " (tag_entry "forge" forge)) found
    = if bool_decide ("forge" = wanted) then match found with Some _ => Err (Errorf "duplicate %s struct tag") | None => struct_tag (S n) wanted EmptyString (Some forge) end
      else struct_tag (S n) wanted EmptyString found) as H3.
  { intros. apply struct_tag_entry; [done..|]. rewrite string_app_nil_r. by apply trim_blank. }
  destruct (String.length _) as [|[|[|n]]] eqn:El;
    [unfold tag_entry in El; rewrite !string_app_cons in El; cbn [String.length] in El; lia..|].
  rewrite !H1, !H2, !H3. done.
Qed.

Section ReadBack.
Context `{Unicode}.

(** What the field grammar accepts. *)
Record field_shape (f : resourceField) : Prop := {
  sh_name : safeIdentifier (rf_Name f) = true;
  sh_goname : IsIdentifier (rf_GoName f) = true /\ IsExported (rf_GoName f) = true;
  sh_null : rf_Required f = negb (rf_Nullable f);
  sh_type : exists base, rf_GoType f = (if rf_Nullable f then "*" +:+ base else base) /\
    match rf_Kind f with
    | resourceFieldString => base = "string" /\ (rf_DBType f = "varchar(255)" \/ rf_DBType f = "text")
    | resourceFieldText => base = "string" /\ rf_DBType f = "text"
    | resourceFieldInteger => base = "int64" /\ rf_DBType f = "bigint"
    | resourceFieldBoolean => base = "bool" /\ rf_DBType f = "boolean"
    end
}.

Lemma checked_pascal_ok name e g : checked_pascal name e = Ok g -> IsIdentifier g = true /\ IsExported g = true.
Proof. unfold checked_pascal, exported_identifier. destruct (pascal name); [|done]. intros Hc. passed Hc. injection Hc as <-. by bool_to_prop. Qed.


Lemma parseField_shape g spec f : parseField g spec = Ok f -> field_shape f.
Proof.
  unfold parseField. intros Hp. passed Hp. destruct (Split spec ":") as [|name [|kind rest]]; [done..|]. passed Hp.
  match goal with E : checked_pascal _ _ = _ |- _ => apply checked_pascal_ok in E as Hgo end.
  destruct (field_types kind) as [[[k goType] dbType]|] eqn:Ht; [|done]. passed Hp. injection Hp as <-. bool_to_prop.
  unfold field_types in Ht. repeat match type of Ht with (if ?g then _ else _) = _ => destruct g end; try done; injection Ht as <- <- <-;
    (split; cbn; [done|done| |eexists; split; [reflexivity|]; auto]);
    match goal with |- context [?a || negb ?a && negb ?b] => by destruct a, b end.
Qed.
Lemma default_shape : Forall field_shape defaultResourceFields.
Proof. repeat constructor; cbn; try (eexists; split; [reflexivity|]); auto. Qed.

Lemma safe_plain s : safeIdentifier s = true -> all_chars plainC s = true /\ s <> EmptyString /\ s <> "-".
Proof.
  unfold safeIdentifier. intros [_ Hm%re_match_spec]%andb_true_iff. unfold databaseIdentifier in Hm. inversion Hm as [| |? ? s1 s2 H1 H2| | | |]; subst.
  inversion H1 as [|? c Hc| | | | |]; subst. apply lang_star_chars in H2. rewrite string_app_cons, string_app_nil_l. split_and!; [|done|].
  - cbn [all_chars]. rewrite (all_chars_mono _ plainC _) with (2 := H2); [|intros [[] [] [] [] [] [] [] []]; by vm_compute].
    by destruct c as [[] [] [] [] [] [] [] []].
  - intros [= -> ->]. done.
Qed.

(** The field of the struct that the template writes. *)
Definition generated_field (isPrint : Z -> bool) (line : Z) (f : resourceField) : astField expr :=
  let base := Ident (tp_BaseGoType (projectResourceTemplateField isPrint f)) in
  {| af_line := line; af_names := [rf_GoName f]; af_type := if HasPrefix (rf_GoType f) "*" then StarExpr base else base;
     af_tag := Some (field_tag (rf_Name f) (tp_ForgeTag (projectResourceTemplateField isPrint f))) |}.

(** The field of the schema that was asked for. *)
Definition requested_field (line : Z) (f : resourceField) : modelField :=
  {| mf_Name := rf_GoName f; mf_GoType := rf_GoType f; mf_GeneratedGoType := rf_GoType f; mf_GoImportPath := EmptyString;
     mf_Column := rf_Name f; mf_DBType := rf_DBType f; mf_Primary := false; mf_Generated := false; mf_Protected := false;
     mf_Required := rf_Required f; mf_Nullable := rf_Nullable f; mf_Default := None; mf_Indexed := false; mf_Unique := false;
     mf_Reference := None; mf_OnDelete := EmptyString; mf_SourceLine := line;
     mf_typeFamily := match rf_Kind f with
                      | resourceFieldString | resourceFieldText => "string"
                      | resourceFieldInteger => "integer"
                      | resourceFieldBoolean => "bool"
                      end |}.

(** A declared type of the same name would be taken instead of the built-in one. *)
Definition not_redeclared (scalars : gmap string scalarType) : Prop :=
  forall name, name ∈ ["string"; "int64"; "bool"] -> scalars !! name = None.

Lemma builtin_read file scalars (pointer : bool) base dbType family : not_redeclared scalars ->
  base ∈ ["string"; "int64"; "bool"] -> builtinColumnType base = Some (dbType, family) ->
  let e := if pointer then StarExpr (Ident base) else Ident base in
  let t := if pointer then "*" +:+ base else base in
  classifyColumnType scalars file e = Ok (t, dbType, family, pointer) /\ generatedColumnType file e = Ok (t, EmptyString).
Proof.
  intros Hs Hb Ht. pose proof (Hs base Hb) as Hn. unfold classifyColumnType, generatedColumnType. destruct pointer; cbn [classify strip_star];
    rewrite Hn, Ht; done.
Qed.

(** What the schema parser reads out of the tag's options. *)
Record tag_options (o : forgeOptions) (nullable : bool) (family inferred dbType : string) : Prop := {
  to_kind : relationKind o = EmptyString;
  to_allowed : validateOptions o column_flags column_values = Ok tt;
  to_null : option_flag "required" o = negb nullable /\ option_flag "nullable" o = nullable;
  to_off : Forall (fun flag => option_flag flag o = false) ["ignore"; "primary"; "generated"; "protected"; "index"; "unique"];
  to_values : Forall (fun v => option_value v o = EmptyString) ["default"; "references"; "on_delete"];
  to_type line : column_type line family inferred o = Ok dbType
}.

Lemma tag_read isPrint f base : field_shape f -> rf_GoType f = (if rf_Nullable f then "*" +:+ base else base) ->
  base ∈ ["string"; "int64"; "bool"] /\ tp_BaseGoType (projectResourceTemplateField isPrint f) = base /\ HasPrefix (rf_GoType f) "*" = rf_Nullable f /\
  all_chars plainC (tp_ForgeTag (projectResourceTemplateField isPrint f)) = true /\
  exists o inferred, parseForgeOptions (tp_ForgeTag (projectResourceTemplateField isPrint f)) = Ok o
    /\ builtinColumnType base = Some (inferred, mf_typeFamily (requested_field 0 f))
    /\ tag_options o (rf_Nullable f) (mf_typeFamily (requested_field 0 f)) inferred (rf_DBType f).
Proof.
  intros [_ _ _ (base' & Hty & Hk)] Hb. assert (base' = base) as ->. { rewrite Hb in Hty. destruct (rf_Nullable f); [by injection Hty|done]. }
  destruct f as [name goName label kind goType dbType required nullable]. cbn in Hty, Hk, Hb. subst goType. clear Hb.
  destruct kind; [destruct Hk as [-> [-> | ->]]|destruct Hk as [-> ->]..]; destruct nullable;
    (split; [set_solver|]); (split; [reflexivity|]); (split; [reflexivity|]); (split; [vm_compute; reflexivity|]);
    (eexists; eexists; split; [vm_compute; reflexivity|]); (split; [reflexivity|]);
    (split; [vm_compute; reflexivity|vm_compute; reflexivity|split; vm_compute; reflexivity| | |intros line; vm_compute; reflexivity]);
    repeat (constructor; [vm_compute; reflexivity|]); constructor.
Qed.

Lemma column_read_back isPrint file scalars line f o base inferred : field_shape f -> not_redeclared scalars ->
  rf_GoType f = (if rf_Nullable f then "*" +:+ base else base) -> base ∈ ["string"; "int64"; "bool"] ->
  tp_BaseGoType (projectResourceTemplateField isPrint f) = base -> HasPrefix (rf_GoType f) "*" = rf_Nullable f ->
  builtinColumnType base = Some (inferred, mf_typeFamily (requested_field 0 f)) ->
  tag_options o (rf_Nullable f) (mf_typeFamily (requested_field 0 f)) inferred (rf_DBType f) ->
  parseColumn file (generated_field isPrint line f) (rf_GoName f) (rf_Name f) o scalars = Ok (requested_field line f).
Proof.
  intros Hsh Hsc Hty Hin Hbase Hpre Hbt [Hk Ha [Hreq Hnul] Hoff Hval Htype].
  destruct (safe_plain _ (sh_name _ Hsh)) as (_ & Hne & Hdash). repeat (apply Forall_cons in Hoff as [? Hoff]). repeat (apply Forall_cons in Hval as [? Hval]).
  destruct (builtin_read file scalars (rf_Nullable f) base inferred _ Hsc Hin Hbt) as [Hc Hg].
  unfold parseColumn, generated_field. cbn [af_line af_type]. rewrite Hbase, Hpre, Ha. cbn [at_line rbind]. rewrite Hc, Hg. cbn [at_line rbind].
  rewrite (bool_decide_eq_false_2 (rf_Name f = _)) by done. cbn [rbind]. rewrite (bool_decide_eq_false_2 (rf_Name f = _)) by done.
  rewrite (sh_name _ Hsh), Htype. cbn [negb orb rbind]. rewrite Hreq, Hnul.
  unfold column_default, column_on_delete. repeat match goal with E : option_flag _ o = _ |- _ => rewrite E; clear E | E : option_value _ o = _ |- _ => rewrite E; clear E end.
  rewrite <- Hty, <- (sh_null _ Hsh). unfold requested_field. rewrite (sh_null _ Hsh).
  destruct (rf_Nullable f); reflexivity.
Qed.

Lemma parsed_each grammar specs n g fields : parse_each grammar specs n g = Ok fields -> Forall field_shape fields.
Proof.
  revert n g fields; induction specs as [|spec specs IH]; intros n g fields; cbn; [by intros [= <-]|]. intros Hp. passed Hp.
  injection Hp as <-. constructor; [by eapply parseField_shape|by eapply IH].
Qed.
Lemma parsed_shapes grammar specs fields f : parseFields grammar specs = Ok fields -> f ∈ fields -> field_shape f.
Proof.
  unfold parseFields. intros Hp Hf. cut (Forall field_shape fields); [rewrite Forall_forall; auto|]. passed Hp.
  - injection Hp as <-. apply default_shape.
  - by eapply parsed_each.
Qed.

(** C19. What is asked for on the command line is what the application's models say: the struct
    field that the template writes for an accepted [--field] is read by the schema parser as
    a field of that name with exactly the column, the types and the nullability asked for,
    and without any other property. *)
Theorem generated_fields_read_back isPrint grammar specs fields f file scalars line s :
  parseFields grammar specs = Ok fields -> f ∈ fields -> not_redeclared scalars ->
  rf_GoName f ∉ bd_names s -> rf_Name f ∉ bd_columns s ->
  model_field file scalars (generated_field isPrint line f) s
  = Ok {| bd_table := bd_table s; bd_fields := bd_fields s ++ [requested_field line f]; bd_relations := bd_relations s;
          bd_columns := {[rf_Name f]} ∪ bd_columns s; bd_names := {[rf_GoName f]} ∪ bd_names s;
          bd_primaries := bd_primaries s; bd_declared := bd_declared s |}.
Proof.
  intros Hp Hf Hsc Hname Hcol. assert (field_shape f) as Hsh by (by eapply parsed_shapes).
  pose proof Hsh as [Hsafe [Hid Hexp] _ (base & Hty & _)]. destruct (safe_plain _ Hsafe) as (Hplain & Hne & _).
  destruct (tag_read isPrint f base Hsh Hty) as (Hin & Hbase & Hpre & Hforge & o & inferred & Ho & Hbt & Htag).
  pose proof (column_read_back isPrint file scalars line f o base inferred Hsh Hsc Hty Hin Hbase Hpre Hbt Htag) as Hcolumn.
  destruct Htag as [Hk _ _ Hoff _ _]. apply Forall_cons in Hoff as [Hign _].
  unfold model_field. change (af_names (generated_field isPrint line f)) with [rf_GoName f].
  change (af_tag (generated_field isPrint line f)) with (Some (field_tag (rf_Name f) (tp_ForgeTag (projectResourceTemplateField isPrint f)))).
  cbv beta iota zeta. rewrite field_tag_read by done. cbn [at_line rbind]. rewrite Ho. cbn [at_line rbind].
  rewrite bool_decide_eq_false_2 by (intros Heq; rewrite Heq in Hexp; done). rewrite Hexp. cbn [negb].
  rewrite bool_decide_eq_false_2 by done. rewrite Hign, Hk. cbn [is_empty]. unfold is_empty. rewrite bool_decide_eq_true_2 by done. cbn [negb].
  rewrite Hcolumn. cbn [rbind]. change (mf_Column (requested_field line f)) with (rf_Name f). rewrite bool_decide_eq_false_2 by done. done.
Qed.
End ReadBack.

Lemma generated_fields_read_back_witness : exists f,
  parseFields (H := ascii_only) modelFieldGrammar ["title:string:nullable"] = Ok [f] /\
  forall file s, "Title" ∉ bd_names s -> "title" ∉ bd_columns s ->
    exists s', model_field (H := ascii_only) file ∅ (generated_field (fun _ => true) 7 f) s = Ok s' /\ bd_fields s' = bd_fields s ++ [requested_field 7 f].
Proof.
  eexists. split; [vm_compute; reflexivity|]. intros file s Hn Hc. eexists. split.
  - eapply (generated_fields_read_back (H := ascii_only) (fun _ => true) modelFieldGrammar ["title:string:nullable"] _ _ file ∅ 7 s);
      [vm_compute; reflexivity|by left|intros name _; apply lookup_empty|exact Hn|exact Hc].
  - reflexivity.
Defined.

(** ** Members do not collide *)

Section Members.
Context `{Unicode}.

Lemma claim_Ok n names names' : claim n names = Ok names' -> n ∉ names /\ names' = {[n]} ∪ names.
Proof. unfold claim. intros Hc. passed Hc. injection Hc as <-. by bool_to_prop. Qed.

(** [l] is a list of names that were claimed after [names], in order. *)
Definition claimed (names : gset string) (l : list string) (names' : gset string) : Prop :=
  NoDup l /\ Forall (fun x => x ∉ names) l /\ names' = names ∪ list_to_set l.
Lemma claimed_nil names : claimed names [] names.
Proof. split_and!; [constructor|constructor|set_solver]. Qed.
Lemma claimed_cons n names l names' : n ∉ names -> claimed ({[n]} ∪ names) l names' -> claimed names (n :: l) names'.
Proof.
  intros Hn (H1 & H2 & ->). rewrite Forall_forall in H2. split_and!; [constructor; [|done]|constructor; [done|]|set_solver].
  - intros Hin%H2. set_solver.
  - apply Forall_forall. intros x Hx%H2. set_solver.
Qed.
Lemma claimed_app names l1 names1 l2 names2 : claimed names l1 names1 -> claimed names1 l2 names2 -> claimed names (l1 ++ l2) names2.
Proof.
  intros (H1 & H2 & ->) (H3 & H4 & ->). rewrite !Forall_forall in *. split_and!; [apply NoDup_app|apply Forall_app; rewrite !Forall_forall|set_solver].
  - split_and!; [done| |done]. intros x Hx Hx2%H4. set_solver.
  - split; [done|]. intros x Hx%H4. set_solver.
Qed.

Lemma claim_fields_Ok fields raw go raw' go' : claim_fields fields raw go = Ok (raw', go') ->
  claimed raw (rf_Name <$> fields) raw' /\ claimed go (rf_GoName <$> fields) go'.
Proof.
  revert raw go; induction fields as [|f fields IH]; intros raw go; cbn [claim_fields]; [intros [= <- <-]; split; apply claimed_nil|].
  intros Hc. passed Hc. repeat match goal with E : claim _ _ = _ |- _ => apply claim_Ok in E as [? ->] end. apply IH in Hc as [? ?].
  split; by apply claimed_cons.
Qed.
Definition raw_members (rels : list resourceBelongsTo) : list string := flat_map (fun r => [rb_Name r; rb_ForeignKey r]) rels.
Definition go_members (rels : list resourceBelongsTo) : list string := flat_map (fun r => [rb_GoName r; rb_ForeignKeyGoName r]) rels.
Lemma claim_relations_Ok rels raw go raw' go' : claim_relations rels raw go = Ok (raw', go') ->
  claimed raw (raw_members rels) raw' /\ claimed go (go_members rels) go'.
Proof.
  revert raw go; induction rels as [|r rels IH]; intros raw go; cbn [claim_relations]; [intros [= <- <-]; split; apply claimed_nil|].
  intros Hc. passed Hc. repeat match goal with E : claim _ _ = _ |- _ => apply claim_Ok in E as [? ->] end. apply IH in Hc as [? ?].
  split; (do 2 (apply claimed_cons; [done|])); done.
Qed.
Lemma collisions_Ok fields rels : validateMemberCollisions fields rels = Ok tt ->
  NoDup ((rf_Name <$> fields) ++ raw_members rels) /\ NoDup ((rf_GoName <$> fields) ++ go_members rels).
Proof.
  unfold validateMemberCollisions. intros Hc. passed Hc.
  repeat match goal with E : claim_fields _ _ _ = _ |- _ => apply claim_fields_Ok in E as [? ?]
                       | E : claim_relations _ _ _ = _ |- _ => apply claim_relations_Ok in E as [? ?] end.
  split; by eapply claimed_app.
Qed.

(** ** Names *)

(** A member is not reserved, and its names are safe in SQL and in Go. *)
Definition name_ok (grammar : fieldGrammar) (raw go : string) : Prop :=
  raw ∉ reservedRawNames grammar /\ safeIdentifier raw = true /\ go ∉ reservedGoNames grammar
  /\ IsIdentifier go = true /\ IsExported go = true.

Lemma parseField_names grammar spec f : parseField grammar spec = Ok f -> name_ok grammar (rf_Name f) (rf_GoName f).
Proof.
  unfold parseField. intros Hp. passed Hp. destruct (Split spec ":") as [|name [|kind rest]]; [done..|]. passed Hp.
  match goal with E : checked_pascal _ _ = _ |- _ => apply checked_pascal_ok in E as Hgo end.
  destruct (field_types kind) as [[[k goType] dbType]|]; [|done]. passed Hp. injection Hp as <-. bool_to_prop. unfold name_ok. cbn. tauto.
Qed.
Lemma belongsTo_names grammar spec r : parseRequiredBelongsToWithGrammar grammar spec = Ok r ->
  name_ok grammar (rb_Name r) (rb_GoName r) /\ name_ok grammar (rb_ForeignKey r) (rb_ForeignKeyGoName r).
Proof.
  unfold parseRequiredBelongsToWithGrammar. intros Hp. passed Hp. destruct (Split spec ":") as [|name [|target [|? ?]]]; [done..| |done]. passed Hp.
  repeat match goal with E : checked_pascal _ _ = _ |- _ => apply checked_pascal_ok in E end.
  injection Hp as <-. bool_to_prop. unfold name_ok. cbn. tauto.
Qed.

Lemma parse_each_names grammar specs n g fields : parse_each grammar specs n g = Ok fields ->
  Forall (fun f => name_ok grammar (rf_Name f) (rf_GoName f)) fields /\ length fields = length specs.
Proof.
  revert n g fields; induction specs as [|spec specs IH]; intros n g fields; cbn; [by intros [= <-]|]. intros Hp. passed Hp. injection Hp as <-.
  match goal with E : parse_each _ _ _ _ = _ |- _ => apply IH in E as [? ?] end. split; [|cbn; congruence].
  constructor; [by eapply parseField_names|done].
Qed.
Lemma belongs_each_names grammar subject specs seen rels : belongs_each grammar subject specs seen = Ok rels ->
  Forall (fun r => name_ok grammar (rb_Name r) (rb_GoName r) /\ name_ok grammar (rb_ForeignKey r) (rb_ForeignKeyGoName r)
    /\ rb_Target r <> subject) rels /\ length rels = length specs.
Proof.
  revert seen rels; induction specs as [|spec specs IH]; intros seen rels; cbn; [by intros [= <-]|]. intros Hp. passed Hp. injection Hp as <-.
  match goal with E : belongs_each _ _ _ _ = _ |- _ => apply IH in E as [? ?] end. split; [|cbn; congruence]. bool_to_prop.
  constructor; [|done]. match goal with E : parseRequiredBelongsToWithGrammar _ _ = _ |- _ => apply belongsTo_names in E as [? ?] end. done.
Qed.
Lemma parseBelongsTo_names grammar subject specs rels : parseBelongsTo grammar subject specs = Ok rels ->
  Forall (fun r => name_ok grammar (rb_Name r) (rb_GoName r) /\ name_ok grammar (rb_ForeignKey r) (rb_ForeignKeyGoName r)
    /\ pascal subject <> Ok (rb_Target r)) rels /\ (length rels <= 8)%nat.
Proof.
  unfold parseBelongsTo, maximumResourceBelongsTo. intros Hp. passed Hp; [injection Hp as <-; split; [constructor|cbn; lia]|].
  apply belongs_each_names in Hp as [Hall Hl].
  match goal with E : (_ <? _)%nat = false |- _ => apply Nat.ltb_ge in E end. split; [|lia]. eapply Forall_impl; [exact Hall|].
  cbn. intros r (? & ? & Ht). split_and!; [done..|]. congruence.
Qed.
Lemma parseFields_names grammar specs fields : "name" ∉ reservedRawNames grammar -> "Name" ∉ reservedGoNames grammar ->
  parseFields grammar specs = Ok fields -> Forall (fun f => name_ok grammar (rf_Name f) (rf_GoName f)) fields /\ (length fields <= 32)%nat.
Proof.
  intros H1 H2. unfold parseFields, maximumResourceFields. intros Hp. passed Hp.
  - injection Hp as <-. split; [|cbn; lia]. constructor; [|constructor]. unfold name_ok. cbn. done.
  - apply parse_each_names in Hp as [Hall Hl]. match goal with E : (_ <? _)%nat = false |- _ => apply Nat.ltb_ge in E end. split; [done|lia].
Qed.

(** ** The generated table and struct *)

(** What the templates put into every table and struct, beside fields and relationships. *)
Definition model_columns : list string := ["id"; "created_at"; "updated_at"; "version"].
Definition model_members : list string := ["ID"; "CreatedAt"; "UpdatedAt"; "Version"].
Definition resource_columns : list string := ["id"; "user_id"; "created_at"; "updated_at"; "version"].
Definition resource_members : list string := ["ID"; "UserID"; "CreatedAt"; "UpdatedAt"; "Version"; "Owner"].

Definition distinct_members (columns members : list string) (fields : list resourceField) (rels : list resourceBelongsTo) : Prop :=
  NoDup (columns ++ (rb_ForeignKey <$> rels) ++ (rf_Name <$> fields))
  /\ NoDup (members ++ (rb_ForeignKeyGoName <$> rels) ++ (rf_GoName <$> fields) ++ (rb_GoName <$> rels))
  /\ Forall (fun f => safeIdentifier (rf_Name f) = true /\ IsIdentifier (rf_GoName f) = true /\ IsExported (rf_GoName f) = true) fields
  /\ Forall (fun r => safeIdentifier (rb_ForeignKey r) = true /\ IsIdentifier (rb_GoName r) = true /\ IsExported (rb_GoName r) = true
               /\ IsIdentifier (rb_ForeignKeyGoName r) = true /\ IsExported (rb_ForeignKeyGoName r) = true) rels
  /\ (length fields <= 32)%nat /\ (length rels <= 8)%nat.

Lemma pairs_perm {A B} (f g : A -> B) l : flat_map (fun x => [f x; g x]) l ≡ₚ (f <$> l) ++ (g <$> l).
Proof. induction l as [|x l IH]; [done|]. cbn. rewrite IH. by rewrite Permutation_middle. Qed.

Lemma members_distinct grammar columns members fields rels :
  NoDup columns -> NoDup members -> columns ⊆ reservedRawNames grammar -> members ⊆ reservedGoNames grammar ->
  validateMemberCollisions fields rels = Ok tt ->
  Forall (fun f => name_ok grammar (rf_Name f) (rf_GoName f)) fields -> (length fields <= 32)%nat ->
  Forall (fun r => name_ok grammar (rb_Name r) (rb_GoName r) /\ name_ok grammar (rb_ForeignKey r) (rb_ForeignKeyGoName r)) rels ->
  (length rels <= 8)%nat -> distinct_members columns members fields rels.
Proof.
  intros Hc Hm Hsc Hsm Hv Hf Hfl Hr Hrl. apply collisions_Ok in Hv as [H1 H2]. unfold raw_members, go_members in *. rewrite pairs_perm in H1, H2.
  split_and!; [| | | |done|done].
  - apply NoDup_app. split_and!; [done| |].
    + intros x Hx%Hsc [Hin|Hin]%elem_of_app; apply list_elem_of_fmap in Hin as (y & -> & Hy).
      * rewrite Forall_forall in Hr. destruct (Hr y Hy) as (_ & Hn & _). done.
      * rewrite Forall_forall in Hf. destruct (Hf y Hy) as [Hn _]. done.
    + rewrite (Permutation_app_comm (rb_ForeignKey <$> rels)). apply NoDup_app in H1 as (Ha & Hb & Hd). apply NoDup_app in Hd as (_ & _ & He).
      apply NoDup_app. split_and!; [done| |done]. intros x Hx Hx2. apply (Hb x Hx). set_solver.
  - apply NoDup_app. split_and!; [done| |].
    + intros x Hx%Hsm. rewrite !elem_of_app. intros [Hin|[Hin|Hin]]; apply list_elem_of_fmap in Hin as (y & -> & Hy).
      * rewrite Forall_forall in Hr. destruct (Hr y Hy) as (_ & _ & _ & Hn & _). done.
      * rewrite Forall_forall in Hf. destruct (Hf y Hy) as (_ & _ & Hn & _). done.
      * rewrite Forall_forall in Hr. destruct (Hr y Hy) as ((_ & _ & Hn & _) & _). done.
    + rewrite (Permutation_app_comm (rb_ForeignKeyGoName <$> rels)), <- app_assoc. done.
  - eapply Forall_impl; [exact Hf|]. unfold name_ok. tauto.
  - eapply Forall_impl; [exact Hr|]. unfold name_ok. cbn. tauto.
Qed.

(** Labels change nothing else of a relationship. *)
Definition same_names (r r' : resourceBelongsTo) : Prop :=
  rb_Name r' = rb_Name r /\ rb_GoName r' = rb_GoName r /\ rb_ForeignKey r' = rb_ForeignKey r /\ rb_ForeignKeyGoName r' = rb_ForeignKeyGoName r.
#[local] Instance same_names_preorder : PreOrder same_names.
Proof. split; [done|]. unfold same_names. intros r1 r2 r3 (? & ? & ? & ?) (? & ? & ? & ?). split_and!; congruence. Qed.
Lemma label_relation_names name label rels rels' : label_relation name label rels = Some rels' -> Forall2 same_names rels rels'.
Proof.
  revert rels'; induction rels as [|r rels IH]; intros rels'; cbn; [done|]. destruct (bool_decide _).
  - intros [= <-]. by constructor.
  - destruct (label_relation name label rels); [|done]. cbn. intros [= <-]. constructor; [done|auto].
Qed.
Lemma apply_labels_names specs rels seen rels' : apply_labels rels specs seen = Ok rels' -> Forall2 same_names rels rels'.
Proof.
  revert rels seen; induction specs as [|spec specs IH]; intros rels seen; cbn [apply_labels].
  { by intros [= <-]. }
  destruct (Split spec ":") as [|name [|label [|? ?]]]; [done..| |done]. intros Hp. passed Hp.
  destruct (label_relation name label rels) as [rels1|] eqn:Hl; [|done]. apply label_relation_names in Hl. apply IH in Hp.
  by etransitivity.
Qed.
Lemma same_names_distinct columns members fields rels rels' : Forall2 same_names rels rels' ->
  distinct_members columns members fields rels -> distinct_members columns members fields rels'.
Proof.
  intros Hs (H1 & H2 & H3 & H4 & H5 & H6).
  assert ((rb_ForeignKey <$> rels') = (rb_ForeignKey <$> rels) /\ (rb_ForeignKeyGoName <$> rels') = (rb_ForeignKeyGoName <$> rels)
    /\ (rb_GoName <$> rels') = (rb_GoName <$> rels)) as (E1 & E2 & E3).
  { clear -Hs. induction Hs as [|r r' l l' (? & E1 & E2 & E3) _ (IH1 & IH2 & IH3)]; [done|]. cbn. by rewrite E1, E2, E3, IH1, IH2, IH3. }
  unfold distinct_members. rewrite E1, E2, E3, <- (Forall2_length _ _ _ Hs). split_and!; try done.
  apply Forall_forall. intros r' Hr'. destruct (Forall2_elem_r _ _ _ _ Hs Hr') as (r & Hr & (_ & Eg & Ef & Efg)).
  rewrite Forall_forall in H4. rewrite Eg, Ef, Efg. by apply H4.
Qed.

(** C21. Whatever arguments [make:model] and [make:resource] accept, the table and the struct
    they generate have no two columns and no two members of the same name, also not with the
    ones every model has; all names are safe identifiers of PostgreSQL and exported ones of
    Go, and the limits on the number of fields and relationships hold. *)
Theorem members_do_not_collide arguments :
  (forall name fields rels, parseMakeModelArguments arguments = Ok (name, fields, rels) ->
     distinct_members model_columns model_members fields rels) /\
  (forall name fields rels driven, parseMakeResourceArguments arguments = Ok (name, fields, rels, driven) ->
     distinct_members resource_columns resource_members fields rels).
Proof.
  split.
  - intros name fields rels. unfold parseMakeModelArguments. destruct arguments as [|n rest]; [done|]. intros Hp. passed Hp. injection Hp as <- <- <-.
    repeat match goal with E : wrapped _ ?r = Ok _ |- _ => destruct r eqn:?; [injection E as ->|discriminate E] end.
    match goal with E : parseBelongsTo _ _ _ = _ |- _ => apply parseBelongsTo_names in E as [Hr Hrl] end.
    assert (Forall (fun f => name_ok modelFieldGrammar (rf_Name f) (rf_GoName f)) v0 /\ (length v0 <= 32)%nat) as [Hf Hfl].
    { match goal with E : parseModelFields _ = _ |- _ => unfold parseModelFields in E; passed E; [injection E as <-; split; [constructor|cbn; lia]|] end.
      eapply parseFields_names; [..|eassumption]; set_solver. }
    destruct v2. eapply (members_distinct modelFieldGrammar); [by apply (bool_decide_unpack _)|by apply (bool_decide_unpack _)|set_solver|set_solver|done|done|done| |done].
    eapply Forall_impl; [exact Hr|]. cbn. intros r (? & ? & ?). done.
  - intros name fields rels driven. unfold parseMakeResourceArguments. destruct arguments as [|n rest]; [done|]. intros Hp. passed Hp. injection Hp as <- <- <- <-.
    match goal with E : applyResourceChoiceLabels _ _ = _ |- _ => apply apply_labels_names in E; eapply same_names_distinct; [exact E|] end.
    match goal with E : parseBelongsTo _ _ _ = _ |- _ => apply parseBelongsTo_names in E as [Hr Hrl] end.
    match goal with E : parseFields _ _ = _ |- _ => apply parseFields_names in E as [Hf Hfl]; [|set_solver..] end.
    destruct v2. eapply (members_distinct resourceFieldGrammar); [by apply (bool_decide_unpack _)|by apply (bool_decide_unpack _)|set_solver|set_solver|done|done|done| |done].
    eapply Forall_impl; [exact Hr|]. cbn. intros r (? & ? & ?). done.
Qed.
End Members.

Lemma members_do_not_collide_witness : exists fields rels,
  parseMakeModelArguments (H := ascii_only) ["post"; "--field=title:string"; "--belongs-to=blog:Blog"] = Ok ("post", fields, rels)
  /\ distinct_members (H := ascii_only) model_columns model_members fields rels.
Proof.
  do 2 eexists. split; [vm_compute; reflexivity|].
  apply (proj1 (members_do_not_collide (H := ascii_only) ["post"; "--field=title:string"; "--belongs-to=blog:Blog"]) "post").
  vm_compute. reflexivity.
Defined.

(** A reserved word of SQL is accepted as the name of a field.  The migration of a resource
    quotes its columns; the one of a model writes the word as it is. *)
Example reserved_word_accepted : exists f,
  parseField (H := ascii_only) modelFieldGrammar "order:integer" = Ok f /\ rf_Name f = "order".
Proof. eexists. split; [vm_compute; reflexivity|reflexivity]. Qed.
