(* ===== verification/CliFiles.v ===== *)
(** * Writing planned files ([files.go], [model.go], [resource.go])

    A disk maps clean relative paths to files and directories.  Every call of the operating
    system that writes takes one tick, and [fault] says which of them fail; a failing write
    leaves some prefix of the contents.  [makeModelWithOptionsAndWriters] is modelled from the
    point where the files are planned: the checks, the writes, and the rollback. *)

From S2P Require Import Prelude GoStrings GoText CliMake.
Local Open Scope go_scope.
Local Open Scope Z_scope.

Inductive inode : Type :=
| RegularFile (mode : Z) (data : string)
| Directory
| OtherFile.
#[export] Instance inode_eq_dec : EqDecision inode.
Proof. solve_decision. Defined.

Record machine : Type := { disk : gmap string inode; tick : nat }.

(** [filepath.Dir] of a clean relative path *)
Definition Dir (p : string) : string :=
  match LastIndex p "/" with Some i => take_string i p | None => "." end.
(** The directories above a path, the nearest first; each step takes a byte at least. *)
Fixpoint above (fuel : nat) (p : string) : list string :=
  match fuel with
  | O => []
  | S n => let d := Dir p in if bool_decide (d = ".") then [] else d :: above n d
  end.
Definition ancestors (p : string) : list string := above (String.length p) p.

Definition ErrExist : error := Sentinel "os.ErrExist".
Definition ErrNotExist : error := Sentinel "os.ErrNotExist".
Definition ErrNotDirectory : error := Sentinel "syscall.ENOTDIR".

(** [os.Stat]: an error when the path leads through something that is not a directory,
    [None] when nothing is there. *)
Definition blocked (d : gmap string inode) (p : string) : bool :=
  existsb (fun a => bool_decide (is_Some (d !! a)) && negb (bool_decide (d !! a = Some Directory))) (ancestors p).
Definition Stat (d : gmap string inode) (p : string) : result (option inode) :=
  if blocked d p then Err ErrNotDirectory else Ok (d !! p).

Section Files.
Context (fault : nat -> option error) (partial : nat -> nat) (temp : nat -> string).

(** One call that changes the disk: it fails, or the change happens. *)
Definition call (change : gmap string inode -> gmap string inode) : M machine unit := fun m =>
  match fault (tick m) with
  | Some e => (Err e, {| disk := disk m; tick := S (tick m) |})
  | None => (Ok tt, {| disk := change (disk m); tick := S (tick m) |})
  end.
Definition look {A} (f : gmap string inode -> A) : M machine A := gets (fun m => f (disk m)).

Definition is_dir (p : string) (d : gmap string inode) : bool :=
  bool_decide (p = ".") || bool_decide (d !! p = Some Directory).
Definition has_children (p : string) (d : gmap string inode) : bool :=
  bool_decide (exists q, q ∈ dom d /\ Dir q = p).

(** [os.Remove]: a file, or a directory without entries. *)
Definition Remove (p : string) : M machine unit :=
  let! i := look (lookup p) in
  match i with
  | None => throw ErrNotExist
  | Some Directory =>
      let! full := look (has_children p) in
      if full : bool then throw (Errorf "directory not empty") else call (delete p)
  | Some _ => call (delete p)
  end.
(** Errors other than a missing file. *)
Definition unless_missing (m : M machine unit) : M machine (option error) := fun s =>
  match m s with
  | (Ok _, s') => (Ok None, s')
  | (Err e, s') => (Ok (if errors_Is e ErrNotExist then None else Some e), s')
  end.

(** [os.MkdirAll]: from the top, whatever is missing. *)
Fixpoint make_dirs (dirs : list string) : M machine unit :=
  match dirs with
  | [] => ret tt
  | d :: rest =>
      let! i := look (lookup d) in
      match i with
      | Some Directory => make_dirs rest
      | Some _ => throw (Errorf "not a directory")
      | None => do! call (insert d Directory) in make_dirs rest
      end
  end.
Definition MkdirAll (p : string) : M machine unit :=
  if bool_decide (p = ".") then ret tt else make_dirs (reverse (p :: ancestors p)).

(** Writing the contents of an open file: on failure a prefix may have been written. *)
Definition write_contents (p : string) (mode : Z) (content : string) : M machine unit := fun m =>
  match fault (tick m) with
  | Some e => (Err e, {| disk := <[p := RegularFile mode (take_string (partial (tick m)) content)]> (disk m); tick := S (tick m) |})
  | None => (Ok tt, {| disk := <[p := RegularFile mode content]> (disk m); tick := S (tick m) |})
  end.

(** [defer]: what runs in any case with its error joined, what runs after a failure only, and
    what runs in any case with its error dropped. *)
Definition join_results (r r' : result unit) : result unit :=
  match r, r' with
  | Ok _, _ => r'
  | Err _, Ok _ => r
  | Err e, Err e' => Err (Joined e e')
  end.
Definition also (body next : M machine unit) : M machine unit := fun m =>
  let '(r, m') := body m in let '(r', m'') := next m' in (join_results r r', m'').
Definition on_failure (body cleanup : M machine unit) : M machine unit := fun m =>
  match body m with
  | (Ok _, m') => (Ok tt, m')
  | (Err e, m') => let '(r', m'') := cleanup m' in (join_results (Err e) r', m'')
  end.
Definition deferred (body cleanup : M machine unit) : M machine unit := fun m =>
  let '(r, m') := body m in (r, snd (cleanup m')).

Definition deferred_failure (body cleanup : M machine unit) : M machine unit := fun m =>
  match body m with
  | (Ok _, m') => (Ok tt, m')
  | (Err e, m') => (Err e, snd (cleanup m'))
  end.

Definition generatedFileMode (p : string) : Z := if HasSuffix p "/.env" || bool_decide (p = ".env") then 384 else 420.

(** [writeExclusive] after formatting: [None] is a Go source that does not format. *)
Definition writeExclusive (path : string) (content : option string) : M machine unit :=
  match content with
  | None => throw (Errorf "format generated %s: %w")
  | Some content =>
      do! MkdirAll (Dir path) in
      let! exists_ := look (fun d => bool_decide (is_Some (d !! path))) in
      if exists_ : bool then throw (Errorf "refusing to overwrite %s")
      else
        let! parent := look (is_dir (Dir path)) in
        if negb parent then throw ErrNotExist
        else
          do! call (insert path (RegularFile (generatedFileMode path) EmptyString)) in
          on_failure (also (write_contents path (generatedFileMode path) content) (call id)) (Remove path)
  end.

(** The temporary file is written, synced and given its mode; it is closed in any case. *)
Definition stage_temporary (temporaryPath : string) (mode : Z) (content : string) : M machine unit :=
  do! deferred_failure (do! write_contents temporaryPath 384 content in
                        do! call id in
                        call (insert temporaryPath (RegularFile mode content)))
                       (call id) in
  call id.
Definition replace_file (path temporaryPath : string) (mode : Z) (content : string) : M machine unit :=
  do! stage_temporary temporaryPath mode content in
  call (fun d => <[path := RegularFile mode content]> (delete temporaryPath d)).
Definition replace_with_mode (path : string) (mode : Z) (content : string) : M machine unit :=
  let! t := gets tick in
  let temporaryPath := Dir path +:+ "/.goforge-managed-" +:+ temp t in
  let! taken := look (fun d => bool_decide (is_Some (d !! temporaryPath)) || negb (is_dir (Dir path) d)) in
  if taken : bool then throw ErrExist
  else
    do! call (insert temporaryPath (RegularFile 384 EmptyString)) in
    deferred (replace_file path temporaryPath mode content) (Remove temporaryPath).

Definition writeManagedFile (path content : string) : M machine unit :=
  let! i := look (fun d => Stat d path) in
  match i with
  | Err e => throw e
  | Ok (Some Directory) | Ok (Some OtherFile) => throw (Errorf "managed destination %s is not a regular file")
  | Ok (Some (RegularFile mode _)) => replace_with_mode path mode content
  | Ok None => replace_with_mode path (generatedFileMode path) content
  end.

(** ** Directories that will be created *)

Fixpoint missing_above (dirs : list string) (d : gmap string inode) : result (list string) :=
  match dirs with
  | [] => Ok []
  | dir :: rest =>
      match Stat d dir with
      | Err e => Err (Wrapf "inspect generated parent %s: %w" e)
      | Ok (Some Directory) => Ok []
      | Ok (Some _) => Err (Errorf "generated parent %s is not a directory")
      | Ok None => try more := missing_above rest d in Ok (dir :: more)
      end
  end.
Fixpoint insert_deep (x : string) (l : list string) : list string :=
  match l with
  | [] => [x]
  | y :: rest => if (Count y "/" <=? Count x "/")%nat then x :: l else y :: insert_deep x rest
  end.
Fixpoint collect_missing (paths : list string) (d : gmap string inode) : result (gset string) :=
  match paths with
  | [] => Ok ∅
  | p :: rest =>
      try dirs := missing_above (ancestors p) d in
      try more := collect_missing rest d in
      Ok (list_to_set dirs ∪ more)
  end.
Definition missingParentDirectories (paths : list string) (d : gmap string inode) : result (list string) :=
  try missing := collect_missing paths d in Ok (foldr insert_deep [] (elements missing)).

(** ** A new model *)

Definition generatedORMPath : string := "internal/models/zz_orm_gen.go".

(** The contents of a file as it is written: Go sources are formatted. *)
Context (format : string -> option string).
Definition formatted (f : plannedFile) : option string :=
  if HasSuffix (pl_path f) ".go" then format (pl_content f) else Some (pl_content f).

Fixpoint write_files (files : list plannedFile) (created : list string) : machine -> result unit * list string * machine :=
  fun m =>
  match files with
  | [] => (Ok tt, created, m)
  | f :: rest =>
      match writeExclusive (pl_path f) (formatted f) m with
      | (Ok _, m') => write_files rest (created ++ [pl_path f]) m'
      | (Err e, m') => (Err e, created, m')
      end
  end.

Definition join_opt (cause : error) (e : option error) : error := match e with Some e => Joined cause e | None => cause end.

Fixpoint remove_created (paths : list string) (cause : error) : M machine error :=
  match paths with
  | [] => ret cause
  | p :: rest => let! e := unless_missing (Remove p) in remove_created rest (join_opt cause e)
  end.
(** A directory that is gone or not empty is left as it is. *)
Fixpoint remove_directories (dirs : list string) (cause : error) : M machine error :=
  match dirs with
  | [] => ret cause
  | d :: rest =>
      let! skip := look (fun k => bool_decide (k !! d = None) || has_children d k) in
      if skip : bool then remove_directories rest cause
      else let! e := unless_missing (Remove d) in remove_directories rest (join_opt cause e)
  end.
Definition restore_orm (old : option string) : M machine (option error) :=
  match old with
  | None => unless_missing (Remove generatedORMPath)
  | Some data => fun m => match writeManagedFile generatedORMPath data m with
                          | (Ok _, m') => (Ok None, m')
                          | (Err e, m') => (Ok (Some e), m')
                          end
  end.

Definition rollback (created dirs : list string) (ormChanged : bool) (oldORM : option string) (cause : error) : M machine error :=
  let! cause := remove_created created cause in
  let! e := (if ormChanged then restore_orm oldORM else ret None) in
  remove_directories dirs (join_opt cause e).

(** What was done when the writes ended: created files, whether the ORM was reached. *)
Record progress : Type := { pg_created : list string; pg_orm : bool }.

Definition write_all (files : list plannedFile) (generatedORM : string) (m : machine) : result unit * progress * machine :=
  match write_files files [] m with
  | (Err e, created, m') => (Err e, {| pg_created := created; pg_orm := false |}, m')
  | (Ok _, created, m') =>
      match writeManagedFile generatedORMPath generatedORM m' with
      | (Ok _, m'') => (Ok tt, {| pg_created := created; pg_orm := true |}, m'')
      | (Err e, m'') => (Err (Wrapf "write generated ORM: %w" e), {| pg_created := created; pg_orm := true |}, m'')
      end
  end.

Fixpoint refuse_existing (files : list plannedFile) (d : gmap string inode) : result unit :=
  match files with
  | [] => Ok tt
  | f :: rest =>
      match Stat d (pl_path f) with
      | Err e => Err (Wrapf "inspect %s: %w" e)
      | Ok (Some _) => Err (Errorf "refusing to overwrite %s")
      | Ok None => refuse_existing rest d
      end
  end.

(** The writes, and the rollback when one of them fails. *)
Definition publish_model (files : list plannedFile) (generatedORM : string) (oldORM : option string) : M machine unit := fun m =>
  match missingParentDirectories (pl_path <$> files) (disk m) with
  | Err e => (Err e, m)
  | Ok dirs =>
      match write_all files generatedORM m with
      | (Ok _, _, m') => (Ok tt, m')
      | (Err cause, p, m') =>
          match rollback (pg_created p) dirs (pg_orm p) oldORM cause m' with
          | (Ok e, m'') | (Err e, m'') => (Err e, m'')
          end
      end
  end.

(** From the planned files and the rendered ORM on. *)
Definition makeModelWithOptionsAndWriters (files : list plannedFile) (generatedORM : result string) : M machine unit := fun m =>
  match refuse_existing files (disk m), generatedORM with
  | Err e, _ => (Err e, m)
  | Ok _, Err e => (Err (Wrapf "generate model ORM: %w" e), m)
  | Ok _, Ok generatedORM =>
      match Stat (disk m) generatedORMPath with
      | Err e => (Err (Wrapf "read generated ORM: %w" e), m)
      | Ok (Some Directory) | Ok (Some OtherFile) => (Err (Wrapf "read generated ORM: %w" (Errorf "is a directory")), m)
      | Ok (Some (RegularFile _ oldORM)) => publish_model files generatedORM (Some oldORM) m
      | Ok None => publish_model files generatedORM None m
      end
  end.
End Files.
