(* ===== verification/CliFilesProps.v ===== *)
(** * A failed generation leaves no trace ([files.go], [model.go], [resource.go])

    What [writeExclusive] and [writeManagedFile] leave on the disk, call by call, and the
    rollback of [makeModelWithOptionsAndWriters]: with one failing call at most, a generation
    that fails ends with the disk it began with, and one that succeeds adds its files, the
    directories above them and the generated ORM, and changes nothing else. *)

From S2P Require Import Prelude GoStrings GoText CliMake CliFiles.
Local Open Scope go_scope.
Local Open Scope Z_scope.

(** ** Paths *)

Lemma LastIndex_bound s sub i : LastIndex s sub = Some i -> (i <= String.length s)%nat.
Proof.
  revert i. induction s as [|c s IH]; intros i; cbn; [case_match; intros; simplify_eq; lia|].
  destruct (LastIndex s sub) as [j|]; [|case_match; intros; simplify_eq; lia].
  intros [= <-]. specialize (IH j eq_refl). lia.
Qed.
Lemma LastIndex_slash_count s i : LastIndex s "/" = Some i -> (Count (take_string i s) "/" < Count s "/")%nat.
Proof.
  revert i. induction s as [|c s IH]; intros i; cbn [LastIndex Count take_string]; [done|].
  destruct (LastIndex s "/") as [j|].
  - intros [= <-]. specialize (IH j eq_refl). cbn [take_string Count]. lia.
  - destruct (HasPrefix (String c s) "/") eqn:H; [|done]. intros [= <-]. cbn [take_string Count].
    cbn in H. by destruct (bool_decide (c = "/"%char)); [lia|].
Qed.
Lemma LastIndex_slash_length s i : LastIndex s "/" = Some i -> (i < String.length s)%nat.
Proof.
  revert i. induction s as [|c s IH]; intros i; cbn; [done|].
  destruct (LastIndex s "/") as [j|]; [intros [= <-]; specialize (IH j eq_refl); lia|].
  case_match; intros; simplify_eq; lia.
Qed.

Lemma Dir_shorter p : Dir p = "." \/ (String.length (Dir p) < String.length p)%nat.
Proof.
  unfold Dir. destruct (LastIndex p "/") as [i|] eqn:E; [right|by left].
  pose proof (LastIndex_slash_length _ _ E). rewrite take_string_length. lia.
Qed.
Lemma Dir_shallower p : Dir p <> "." -> (Count (Dir p) "/" < Count p "/")%nat.
Proof. unfold Dir. destruct (LastIndex p "/") as [i|] eqn:E; [|done]. intros _. by apply LastIndex_slash_count. Qed.

Lemma above_enough n m p : (String.length p <= n)%nat -> (String.length p <= m)%nat -> above n p = above m p.
Proof.
  revert m p. induction n as [|n IH]; intros m p Hn Hm.
  - destruct p; [|cbn in Hn; lia]. by destruct m.
  - destruct m as [|m]; [destruct p; [done|cbn in Hm; lia]|]. cbn. case_bool_decide as E; [done|].
    destruct (Dir_shorter p); [done|]. f_equal. apply IH; lia.
Qed.
Lemma ancestors_step p : ancestors p = if bool_decide (Dir p = ".") then [] else Dir p :: ancestors (Dir p).
Proof.
  unfold ancestors. destruct (Dir_shorter p) as [E|E].
  - destruct (String.length p) eqn:L; cbn; [|by rewrite E]. by rewrite E.
  - destruct (String.length p) eqn:L; [lia|]. cbn. case_bool_decide; [done|]. f_equal. apply above_enough; lia.
Qed.
Lemma path_ind (P : string -> Prop) :
  (forall p, (Dir p <> "." -> P (Dir p)) -> P p) -> forall p, P p.
Proof.
  intros step p. induction p as [p IH] using (induction_ltof1 _ String.length). apply step. intros Hd. apply IH.
  unfold ltof. by destruct (Dir_shorter p).
Qed.
Lemma ancestors_not_dot p a : a ∈ ancestors p -> a <> ".".
Proof.
  revert a. induction p as [p IH] using path_ind. intros a. rewrite ancestors_step. case_bool_decide as E; [set_solver|].
  intros [->|Ha]%elem_of_cons; [done|]. by apply IH.
Qed.

(** A disk is a tree: whatever exists lies in a directory. *)
Definition tree (d : gmap string inode) : Prop :=
  forall p, is_Some (d !! p) -> Dir p = "." \/ d !! Dir p = Some Directory.

Lemma tree_ancestors d p a : tree d -> is_Some (d !! p) -> a ∈ ancestors p -> d !! a = Some Directory.
Proof.
  intros Ht. revert a. induction p as [p IH] using path_ind. intros a Hp. rewrite ancestors_step.
  destruct (Ht p Hp) as [E|E]; case_bool_decide as Ed; set_solver.
Qed.
(** Every directory above a path is missing, and listed, or there. *)
Lemma missing_above_covers d p l a :
  tree d -> missing_above (ancestors p) d = Ok l -> a ∈ ancestors p -> a ∈ l \/ d !! a = Some Directory.
Proof.
  intros Ht. revert l a. induction p as [p IH] using path_ind. intros l a. rewrite (ancestors_step p).
  case_bool_decide as E; [set_solver|]. cbn [missing_above]. unfold Stat.
  destruct (blocked d (Dir p)); [done|]. destruct (d !! Dir p) as [i|] eqn:Ei.
  - destruct i; try done. intros _ [->|Ha]%elem_of_cons; [by right|]. right. by apply (tree_ancestors d (Dir p)).
  - destruct (missing_above (ancestors (Dir p)) d) as [more|]; [|done]. cbn. intros [= <-] [->|Ha]%elem_of_cons; [set_solver|].
    destruct (IH E more a eq_refl Ha); set_solver.
Qed.
Lemma missing_above_missing d dirs l a : missing_above dirs d = Ok l -> a ∈ l -> a ∈ dirs /\ d !! a = None.
Proof.
  revert l. induction dirs as [|x dirs IH]; intros l; cbn; [by intros [= <-] ?%elem_of_nil|].
  unfold Stat. destruct (blocked d x); [done|]. destruct (d !! x) as [[]|] eqn:Ex; try done; [by intros [= <-] ?%elem_of_nil|].
  destruct (missing_above dirs d) as [more|]; [|done]. cbn. intros [= <-] [->|Ha]%elem_of_cons; [by split; [left|]|].
  destruct (IH more eq_refl Ha). split; [by right|done].
Qed.
Lemma insert_deep_perm x l : insert_deep x l ≡ₚ x :: l.
Proof. induction l as [|y l IH]; [done|]. cbn. case_match; [done|]. rewrite IH. apply Permutation_swap. Qed.
Lemma sort_deep_perm l : foldr insert_deep [] l ≡ₚ l.
Proof. induction l as [|x l IH]; [done|]. cbn. by rewrite insert_deep_perm, IH. Qed.

(** Deepest first. *)
Definition deeper (x y : string) : Prop := (Count y "/" <= Count x "/")%nat.
Lemma insert_deep_sorted x l : StronglySorted deeper l -> StronglySorted deeper (insert_deep x l).
Proof.
  induction 1 as [|y l Hs IH Hy]; cbn; [repeat constructor|].
  destruct (Nat.leb_spec (Count y "/") (Count x "/")) as [Hle|Hgt].
  - constructor; [by constructor|]. constructor; [done|]. eapply Forall_impl; [exact Hy|]. unfold deeper. intros z. cbn. lia.
  - constructor; [done|]. rewrite Forall_forall. intros z. rewrite insert_deep_perm.
    intros [->|Hz]%elem_of_cons; [unfold deeper; lia|]. rewrite Forall_forall in Hy. by apply Hy.
Qed.
Lemma sort_deep_sorted l : StronglySorted deeper (foldr insert_deep [] l).
Proof. induction l; cbn; [constructor|by apply insert_deep_sorted]. Qed.

(** [missingParentDirectories] lists what is missing above the files, the deepest first. *)
Lemma collect_missing_spec d paths M :
  tree d -> collect_missing paths d = Ok M ->
  (forall p a, p ∈ paths -> a ∈ ancestors p -> a ∈ M \/ d !! a = Some Directory)
  /\ (forall a, a ∈ M -> a <> "." /\ d !! a = None).
Proof.
  intros Ht. revert M. induction paths as [|p paths IH]; intros M; cbn [collect_missing]; [intros [= <-]; split; [|intros a]; set_solver|].
  destruct (missing_above (ancestors p) d) as [dirs|] eqn:E1; [|done].
  destruct (collect_missing paths d) as [more|] eqn:E2; [|done]. cbn. intros [= <-].
  destruct (IH more eq_refl) as [IH1 IH2]. split.
  - intros q a [->|Hq]%elem_of_cons Ha.
    + destruct (missing_above_covers d p dirs a Ht E1 Ha); [left|by right]. set_solver.
    + destruct (IH1 q a Hq Ha); [left|by right]. set_solver.
  - intros a [Ha|Ha]%elem_of_union; [|by apply IH2]. apply elem_of_list_to_set in Ha.
    destruct (missing_above_missing d _ dirs a E1 Ha) as [Hanc Hn]. split; [by eapply ancestors_not_dot|done].
Qed.

(** ** What each call leaves *)

(** [P] before, [Q] after success, [E] after failure; time never goes back. *)
Definition triple {A} (P : machine -> Prop) (c : M machine A) (Q : A -> machine -> Prop) (E : machine -> Prop) : Prop :=
  forall m, P m -> match c m with
                   | (Ok a, m') => Q a m' /\ (tick m <= tick m')%nat
                   | (Err _, m') => E m' /\ (tick m <= tick m')%nat
                   end.
Definition at_disk (Q : gmap string inode -> Prop) : machine -> Prop := fun m => Q (disk m).

Section Triples.
Context (fault : nat -> option error) (partial : nat -> nat).
Context {A : Type}.
Implicit Types (P E : machine -> Prop).

Lemma triple_bind {B} P (c : M machine B) (k : B -> M machine A) R Q E :
  triple P c R E -> (forall b, triple (R b) (k b) Q E) -> triple P (bindM c k) Q E.
Proof.
  intros Hc Hk m Hm. specialize (Hc m Hm). unfold bindM. destruct (c m) as [[b|e] m1]; [|done]. destruct Hc as [HR Ht].
  specialize (Hk b m1 HR). destruct (k b m1) as [[a|e] m2]; destruct Hk; (split; [done|lia]).
Qed.
Lemma triple_weaken P P' (c : M machine A) Q Q' E E' :
  triple P' c Q' E' -> (forall m, P m -> P' m) -> (forall a m, Q' a m -> Q a m) -> (forall m, E' m -> E m) -> triple P c Q E.
Proof. intros H HP HQ HE m Hm. specialize (H m (HP m Hm)). destruct (c m) as [[a|e] m']; destruct H; auto. Qed.
Lemma triple_look {B} P (f : gmap string inode -> B) (k : B -> M machine A) Q E :
  (forall b, triple (fun m => P m /\ f (disk m) = b) (k b) Q E) -> triple P (bindM (look f) k) Q E.
Proof. intros Hk m Hm. apply (Hk (f (disk m)) m). done. Qed.
Lemma triple_gets {B} P (f : machine -> B) (k : B -> M machine A) Q E :
  (forall b, triple (fun m => P m /\ f m = b) (k b) Q E) -> triple P (bindM (gets f) k) Q E.
Proof. intros Hk m Hm. apply (Hk (f m) m). done. Qed.
Lemma triple_throw P e (Q : A -> machine -> Prop) E : (forall m, P m -> E m) -> triple P (throw e) Q E.
Proof. intros H m Hm. cbn. split; [by apply H|lia]. Qed.
Lemma triple_ret P (a : A) Q E : (forall m, P m -> Q a m) -> triple P (ret a) Q E.
Proof. intros H m Hm. cbn. split; [by apply H|lia]. Qed.
Lemma triple_call P f (Q : unit -> machine -> Prop) E :
  (forall m, P m -> fault (tick m) = None -> Q tt {| disk := f (disk m); tick := S (tick m) |}) ->
  (forall m e, P m -> fault (tick m) = Some e -> E {| disk := disk m; tick := S (tick m) |}) ->
  triple P (call fault f) Q E.
Proof. intros HQ HE m Hm. unfold call. destruct (fault (tick m)) as [e|] eqn:Ef; cbn; (split; [eauto|lia]). Qed.
Lemma triple_write_contents P p mode content (Q : unit -> machine -> Prop) E :
  (forall m, P m -> fault (tick m) = None -> Q tt {| disk := <[p := RegularFile mode content]> (disk m); tick := S (tick m) |}) ->
  (forall m e data, P m -> fault (tick m) = Some e -> E {| disk := <[p := RegularFile mode data]> (disk m); tick := S (tick m) |}) ->
  triple P (write_contents fault partial p mode content) Q E.
Proof. intros HQ HE m Hm. unfold write_contents. destruct (fault (tick m)) as [e|] eqn:Ef; cbn; (split; [eauto|lia]). Qed.
End Triples.

Section Disk.
Context (fault : nat -> option error) (partial : nat -> nat) (temp : nat -> string) (format : string -> option string).
Context (once : forall t t', is_Some (fault t) -> is_Some (fault t') -> t = t').

(** The one failure is past: whatever follows succeeds. *)
Definition failed_once (m : machine) : Prop := exists t e, fault t = Some e /\ (t < tick m)%nat.
Lemma failed_quiet m t : failed_once m -> (tick m <= t)%nat -> fault t = None.
Proof.
  intros (t0 & e & Hf & Hlt) Ht. apply eq_None_not_Some. intros Hs.
  assert (t0 = t) by (apply once; [by rewrite Hf|done]). lia.
Qed.
Lemma just_failed m d e : fault (tick m) = Some e -> failed_once {| disk := d; tick := S (tick m) |}.
Proof. intros Hf. exists (tick m), e. cbn. split; [done|lia]. Qed.
Lemma still_failed m m' : failed_once m -> (tick m <= tick m')%nat -> failed_once m'.
Proof. intros (t & e & Hf & Hlt) Ht. exists t, e. split; [done|lia]. Qed.

Definition quiet (m : machine) : Prop := forall t, (tick m <= t)%nat -> fault t = None.

Lemma call_ok f m : quiet m -> call fault f m = (Ok tt, {| disk := f (disk m); tick := S (tick m) |}).
Proof. unfold call. intros Hq. by rewrite Hq. Qed.
Lemma quiet_later m m' : quiet m -> (tick m <= tick m')%nat -> quiet m'.
Proof. intros Hq Ht t Hle. apply Hq. lia. Qed.
Lemma Remove_file p mode data m :
  quiet m -> disk m !! p = Some (RegularFile mode data) ->
  Remove fault p m = (Ok tt, {| disk := delete p (disk m); tick := S (tick m) |}).
Proof. intros Hf Hp. unfold Remove, look, gets, bindM. rewrite Hp. by apply call_ok. Qed.
Lemma Remove_gone p m : disk m !! p = None -> Remove fault p m = (Err ErrNotExist, m).
Proof. intros Hp. unfold Remove, look, gets, bindM. by rewrite Hp. Qed.

(** [d] with some regular file at [p]. *)
Definition with_file (p : string) (d : gmap string inode) (m : machine) : Prop :=
  exists mode data, disk m = <[p := RegularFile mode data]> d.

Lemma remove_with_file p d m :
  d !! p = None -> with_file p d m -> failed_once m ->
  exists m', Remove fault p m = (Ok tt, m') /\ disk m' = d /\ (tick m <= tick m')%nat.
Proof.
  intros Hp (mode & data & Hd) Hf. eexists. split; [eapply Remove_file; [intros t; by apply failed_quiet|rewrite Hd; apply lookup_insert_eq]|].
  cbn. rewrite Hd, delete_insert_id by done. split; [done|lia].
Qed.

(** [writeManagedFile] before the cleanup: the new contents are in place and the temporary file
    is gone, or the old ones are, beside a temporary file. *)
Definition staging (tp : string) (d : gmap string inode) (m : machine) : Prop := with_file tp d m /\ failed_once m.

Lemma write_stage_triple tp d mode content :
  triple (with_file tp d)
    (do! write_contents fault partial tp 384 content in
     do! call fault id in call fault (insert tp (RegularFile mode content)))
    (fun _ m => disk m = <[tp := RegularFile mode content]> d) (staging tp d).
Proof.
  apply triple_bind with (R := fun _ => with_file tp d).
  { apply triple_write_contents; cbn; intros m1; [|intros e data]; intros (mo & da & Hd) Hf; rewrite Hd, insert_insert_eq;
      [by eexists _, _|]. split; [by eexists _, _|by eapply just_failed]. }
  intros _. apply triple_bind with (R := fun _ => with_file tp d).
  { apply triple_call; cbn; [by intros m1 (mo & da & Hd) _; exists mo, da|].
    intros m1 e Hw Hf. split; [exact Hw|by eapply just_failed]. }
  intros _. apply triple_call; cbn; [by intros m1 (mo & da & Hd) _; rewrite Hd, insert_insert_eq|].
  intros m1 e Hw Hf. split; [exact Hw|by eapply just_failed].
Qed.
Lemma stage_triple tp d mode content :
  triple (with_file tp d) (stage_temporary fault partial tp mode content)
    (fun _ m => disk m = <[tp := RegularFile mode content]> d) (staging tp d).
Proof.
  apply triple_bind with (R := fun _ m => disk m = <[tp := RegularFile mode content]> d).
  - intros m Hm. unfold deferred_failure. pose proof (write_stage_triple tp d mode content m Hm) as H.
    destruct (bindM _ _ m) as [[[]|e] m1]; [done|]. destruct H as [[Hw Hf] Ht].
    rewrite call_ok by (intros t; by apply failed_quiet). cbn. destruct Hw as (mo & da & Hd).
    split; [split; [by exists mo, da|]|lia]. eapply still_failed; [done|cbn; lia].
  - intros _. apply triple_call; cbn; [done|]. intros m1 e Hw Hf. split; [by eexists _, _|by eapply just_failed].
Qed.

Definition managed_mode (d : gmap string inode) (path : string) : Z :=
  match d !! path with Some (RegularFile mode _) => mode | _ => generatedFileMode path end.
Definition temporary (path : string) (t : nat) : string := Dir path +:+ "/.goforge-managed-" +:+ temp t.

Lemma replace_triple path tp mode content d :
  tp <> path -> d !! tp = None ->
  triple (with_file tp d) (deferred (replace_file fault partial path tp mode content) (Remove fault tp))
    (fun _ m => disk m = <[path := RegularFile mode content]> d) (fun m => disk m = d).
Proof.
  intros Hne Htp m Hm. unfold deferred.
  assert (triple (with_file tp d) (replace_file fault partial path tp mode content)
    (fun _ m => disk m = <[path := RegularFile mode content]> d) (staging tp d)) as H.
  { eapply triple_bind; [apply stage_triple|]. intros [].
    apply triple_call; cbn; [intros m1 Hd _; by rewrite Hd, delete_insert_id|].
    intros m1 e Hw Hf. split; [by eexists _, _|by eapply just_failed]. }
  specialize (H m Hm). destruct (replace_file _ _ _ _ _ _ m) as [[[]|e] m1]; destruct H as [H Ht].
  - rewrite Remove_gone; [done|]. by rewrite H, lookup_insert_ne.
  - destruct H as [Hw Hf]. destruct (remove_with_file tp d m1 Htp Hw Hf) as (m2 & -> & Hd & Ht2). cbn. split; [done|lia].
Qed.
Lemma replace_with_mode_triple path mode content d :
  (forall t, temporary path t <> path) ->
  triple (fun m => disk m = d) (replace_with_mode fault partial temp path mode content)
    (fun _ m => disk m = <[path := RegularFile mode content]> d) (fun m => disk m = d).
Proof.
  intros Htemp. apply triple_gets. intros t. cbn zeta. fold (temporary path t). apply triple_look. intros taken.
  destruct taken; [apply triple_throw; by intros m [[Hd _] _]|].
  apply triple_bind with (R := fun _ m => with_file (temporary path t) d m /\ d !! temporary path t = None).
  - apply triple_call; cbn; [|by intros m e [[Hd _] _] _].
    intros m [[Hd _] Hk] _. apply orb_false_iff in Hk as [Hk _]. apply bool_decide_eq_false in Hk.
    rewrite Hd in *. split; [by eexists _, _|by apply eq_None_not_Some].
  - intros _ m [Hw Hk]. by apply (replace_triple path (temporary path t)).
Qed.

(** [writeManagedFile] replaces the contents, with the old mode, or changes nothing. *)
Lemma managed_triple path content d :
  (forall t, temporary path t <> path) ->
  triple (fun m => disk m = d) (writeManagedFile fault partial temp path content)
    (fun _ m => disk m = <[path := RegularFile (managed_mode d path) content]> d) (fun m => disk m = d).
Proof.
  intros Htemp. apply triple_look. intros i. destruct i as [i|e]; [|apply triple_throw; by intros m []].
  assert (forall mode, triple (fun m => disk m = d /\ mode = managed_mode d path) (replace_with_mode fault partial temp path mode content)
    (fun _ m => disk m = <[path := RegularFile (managed_mode d path) content]> d) (fun m => disk m = d)) as H.
  { intros mode m [Hd ->]. by apply replace_with_mode_triple. }
  destruct i as [[mode data| |]|]; try (apply triple_throw; by intros m []);
    (eapply triple_weaken; [apply H| |done|done]); intros m [Hd Hs]; (split; [done|]);
    unfold Stat, managed_mode in *; rewrite <- Hd; (destruct (blocked (disk m) path); [done|]); injection Hs as Hs; by rewrite Hs.
Qed.

(** ** Layers over the first disk *)

(** Files [F] and directories [ds] on top of [D0]; the directories are among the missing ones. *)
Section Layers.
Context (D0 : gmap string inode) (missing : gset string).
Context (missing_gone : forall a, a ∈ missing -> a <> "." /\ D0 !! a = None).

Definition layered (F : gmap string inode) (ds : gset string) (d : gmap string inode) : Prop :=
  (forall p, d !! p = match F !! p with Some i => Some i | None => if bool_decide (p ∈ ds) then Some Directory else D0 !! p end)
  /\ (forall p i, F !! p = Some i -> D0 !! p = None /\ p ∉ ds /\ exists mode data, i = RegularFile mode data)
  /\ ds ⊆ missing.

Lemma layered_start : layered ∅ ∅ D0.
Proof. split_and!; [|by intros p i; rewrite lookup_empty|set_solver]. intros p. rewrite lookup_empty. by rewrite bool_decide_eq_false_2. Qed.
Lemma layered_none F ds d p : layered F ds d -> d !! p = None -> F !! p = None /\ p ∉ ds /\ D0 !! p = None.
Proof. intros (Hd & _ & _). rewrite Hd. destruct (F !! p); [done|]. by case_bool_decide. Qed.
Lemma layered_add_file F ds d p mode data :
  layered F ds d -> d !! p = None -> layered (<[p := RegularFile mode data]> F) ds (<[p := RegularFile mode data]> d).
Proof.
  intros Hl Hp. destruct (layered_none _ _ _ _ Hl Hp) as (HF & Hds & H0). destruct Hl as (Hd & Hf & Hm). split_and!; [| |done].
  - intros q. destruct (decide (q = p)) as [->|Hne]; [by rewrite !lookup_insert_eq|]. by rewrite !lookup_insert_ne.
  - intros q i [[<- <-]|[Hne Hq]]%lookup_insert_Some; [|by apply Hf]. split_and!; [done..|]. by eexists _, _.
Qed.
Lemma layered_add_dir F ds d a :
  layered F ds d -> d !! a = None -> a ∈ missing -> layered F ({[a]} ∪ ds) (<[a := Directory]> d).
Proof.
  intros Hl Ha Hm. destruct (layered_none _ _ _ _ Hl Ha) as (HF & Hds & H0). destruct Hl as (Hd & Hf & Hsub). split_and!.
  - intros q. destruct (decide (q = a)) as [->|Hne].
    + rewrite lookup_insert_eq, HF. by rewrite bool_decide_eq_true_2 by set_solver.
    + rewrite lookup_insert_ne by done. rewrite Hd. destruct (F !! q); [done|]. by rewrite (bool_decide_ext (q ∈ {[a]} ∪ ds) (q ∈ ds)) by set_solver.
  - intros q i Hq. destruct (Hf q i Hq) as (H1 & H2 & H3). split_and!; [done| |done]. intros Hin. assert (q = a) as -> by set_solver. congruence.
  - set_solver.
Qed.
Lemma layered_drop_file F ds d p : layered F ds d -> is_Some (F !! p) -> layered (delete p F) ds (delete p d).
Proof.
  intros (Hd & Hf & Hsub) [i Hp]. destruct (Hf p i Hp) as (H0 & Hds & _). split_and!; [| |done].
  - intros q. destruct (decide (q = p)) as [->|Hne]; [rewrite !lookup_delete_eq; by rewrite bool_decide_eq_false_2|]. by rewrite !lookup_delete_ne.
  - intros q j [_ Hq]%lookup_delete_Some. by apply Hf.
Qed.
Lemma layered_drop_dir ds d a : layered ∅ ds d -> a ∈ ds -> layered ∅ (ds ∖ {[a]}) (delete a d).
Proof.
  intros (Hd & Hf & Hsub) Ha. split_and!; [|done|set_solver]. intros q. rewrite lookup_empty. destruct (decide (q = a)) as [->|Hne].
  - rewrite lookup_delete_eq, bool_decide_eq_false_2 by set_solver. symmetry. apply missing_gone. set_solver.
  - rewrite lookup_delete_ne by done. rewrite Hd, lookup_empty. by rewrite (bool_decide_ext (q ∈ ds ∖ {[a]}) (q ∈ ds)) by set_solver.
Qed.
Lemma layered_nothing d : layered ∅ ∅ d -> d = D0.
Proof. intros (Hd & _ & _). apply map_eq. intros p. rewrite Hd, lookup_empty. by rewrite bool_decide_eq_false_2. Qed.

Definition holds (F : gmap string inode) (m : machine) : Prop := exists ds, layered F ds (disk m).
Definition covered (path : string) : Prop := forall a, a ∈ ancestors path -> a ∈ missing \/ D0 !! a = Some Directory.

Lemma make_dirs_triple F dirs :
  (forall a, a ∈ dirs -> a ∈ missing \/ D0 !! a = Some Directory) ->
  triple (holds F) (make_dirs fault dirs) (fun _ => holds F) (holds F).
Proof.
  induction dirs as [|a dirs IH]; intros Hin; [by apply triple_ret|]. cbn [make_dirs]. apply triple_look. intros i.
  destruct i as [[]|]; try (apply triple_throw; by intros m []).
  - eapply triple_weaken; [apply IH; set_solver|by intros m []|done|done].
  - apply triple_bind with (R := fun _ => holds F); [|intros _; apply IH; set_solver].
    apply triple_call; cbn; [|by intros m e [Hh _] _]. intros m [[ds Hl] Ha] _. exists ({[a]} ∪ ds). cbn.
    apply layered_add_dir; [done|done|]. assert (a ∈ a :: dirs) as Hhere by set_solver. destruct (Hin a Hhere) as [|HD]; [done|].
    destruct (layered_none _ _ _ _ Hl Ha) as (_ & _ & H0). congruence.
Qed.
Lemma MkdirAll_triple F path : covered path -> triple (holds F) (MkdirAll fault (Dir path)) (fun _ => holds F) (holds F).
Proof.
  intros Hc. unfold MkdirAll. case_bool_decide as E; [by apply triple_ret|]. apply make_dirs_triple. intros a Ha.
  apply Hc. rewrite ancestors_step, bool_decide_eq_false_2 by done. by rewrite elem_of_reverse in Ha.
Qed.

Lemma write_new_triple path mode content d :
  d !! path = None ->
  triple (fun m => disk m = <[path := RegularFile mode EmptyString]> d)
    (on_failure (also (write_contents fault partial path mode content) (call fault id)) (Remove fault path))
    (fun _ m => disk m = <[path := RegularFile mode content]> d) (fun m => disk m = d).
Proof.
  intros Hp.
  assert (triple (fun m => disk m = <[path := RegularFile mode EmptyString]> d)
    (also (write_contents fault partial path mode content) (call fault id))
    (fun _ m => disk m = <[path := RegularFile mode content]> d) (staging path d)) as H.
  { intros m Hd. unfold also, write_contents. rewrite Hd. destruct (fault (tick m)) as [e|] eqn:Ef.
    - rewrite insert_insert_eq, call_ok; [|intros t Ht; eapply failed_quiet; [by eapply just_failed|exact Ht]]. cbn. split; [|lia].
      split; [by eexists _, _|]. eapply still_failed; [by eapply (just_failed m d)|cbn; lia].
    - unfold call. cbn. destruct (fault (S (tick m))) as [e|] eqn:Ef'; cbn; (split; [|lia]); rewrite insert_insert_eq; [|done].
      split; [by eexists _, _|]. by eapply (just_failed {| disk := d; tick := S (tick m) |}). }
  intros m Hd. specialize (H m Hd). unfold on_failure. destruct (also _ _ m) as [[[]|e] m1]; [done|].
  destruct H as [[Hw Hf] Ht]. destruct (remove_with_file path d m1 Hp Hw Hf) as (m2 & -> & Hd2 & Ht2). cbn. split; [done|lia].
Qed.

(** [writeExclusive] adds its file, or at most some directories. *)
Lemma exclusive_triple F path content :
  covered path ->
  triple (holds F) (writeExclusive fault partial path (Some content))
    (fun _ m => F !! path = None /\ holds (<[path := RegularFile (generatedFileMode path) content]> F) m) (holds F).
Proof.
  intros Hc. cbn [writeExclusive]. apply triple_bind with (R := fun _ => holds F); [by apply MkdirAll_triple|]. intros _.
  apply triple_look. intros [|]; [apply triple_throw; by intros m []|]. apply triple_look.
  intros [|]; cbn [negb]; [|apply triple_throw; by intros m [[]]].
  intros m0 [[[ds Hl] Hn] _]. apply bool_decide_eq_false, eq_None_not_Some in Hn.
  enough (triple (fun m => disk m = disk m0)
    (do! call fault (insert path (RegularFile (generatedFileMode path) EmptyString)) in
     on_failure (also (write_contents fault partial path (generatedFileMode path) content) (call fault id)) (Remove fault path))
    (fun _ m => F !! path = None /\ holds (<[path := RegularFile (generatedFileMode path) content]> F) m) (holds F)) as H by by apply H.
  apply triple_weaken with (P' := fun m => disk m = disk m0) (Q' := fun _ m => disk m = <[path := RegularFile (generatedFileMode path) content]> (disk m0))
    (E' := fun m => disk m = disk m0); [|done| |].
  - apply triple_bind with (R := fun _ m => disk m = <[path := RegularFile (generatedFileMode path) EmptyString]> (disk m0)).
    + apply triple_call; cbn; [by intros m ->|done].
    + intros _. by apply write_new_triple.
  - intros _ m Hd. split; [by eapply layered_none|]. exists ds. rewrite Hd. by apply layered_add_file.
  - intros m Hd. exists ds. by rewrite Hd.
Qed.

(** The planned files, one after the other: [created] lists what is on the disk. *)
Definition files_on (F : gmap string inode) (created : list string) : Prop := forall p, is_Some (F !! p) <-> p ∈ created.
Definition file_of (f : plannedFile) (i : inode) : Prop :=
  exists content, formatted format f = Some content /\ i = RegularFile (generatedFileMode (pl_path f)) content.

Lemma write_files_outcome files F created m r created' m' :
  (forall f, f ∈ files -> covered (pl_path f)) -> holds F m -> files_on F created ->
  write_files fault partial format files created m = (r, created', m') ->
  exists F', holds F' m' /\ files_on F' created' /\ (tick m <= tick m')%nat
    /\ (r = Ok tt -> F ⊆ F' /\ created' = created ++ (pl_path <$> files)
                    /\ forall f, f ∈ files -> exists i, F' !! pl_path f = Some i /\ file_of f i).
Proof.
  revert F created m. induction files as [|f files IH]; intros F created m Hcov Hh Hon; cbn [write_files].
  { intros [= <- <- <-]. exists F. split_and!; [done..|lia|]. intros _. split_and!; [done|by rewrite app_nil_r|set_solver]. }
  assert (f ∈ f :: files) as Hf by set_solver.
  destruct (formatted format f) as [content|] eqn:Ef.
  2: { cbn. intros [= <- <- <-]. exists F. split_and!; [done..|lia|done]. }
  pose proof (exclusive_triple F (pl_path f) content (Hcov f Hf) m Hh) as H.
  destruct (writeExclusive _ _ _ _ m) as [[[]|e] m1]; destruct H as [H Ht].
  2: { intros [= <- <- <-]. exists F. split_and!; [done..|done]. }
  destruct H as [HF H]. intros Hw. edestruct (IH (<[pl_path f := RegularFile (generatedFileMode (pl_path f)) content]> F) (created ++ [pl_path f]) m1) as (F' & H1 & H2 & H3 & H4); [set_solver|exact H| |exact Hw|].
  { intros p. rewrite elem_of_app, list_elem_of_singleton, <- (Hon p). destruct (decide (p = pl_path f)) as [->|Hne].
    - rewrite lookup_insert_eq. split; [by right|done].
    - rewrite lookup_insert_ne by done. intuition congruence. }
  exists F'. split_and!; [done|done|lia|]. intros ->. destruct (H4 eq_refl) as (Hsub & -> & Hall). split_and!.
  - etrans; [|exact Hsub]. by apply insert_subseteq.
  - by rewrite <- (assoc_L (++)).
  - intros g [->|Hg]%elem_of_cons; [|by apply Hall]. eexists. split; [eapply lookup_weaken; [apply lookup_insert_eq|exact Hsub]|].
    by exists content.
Qed.

(** ** The rollback *)

Lemma unless_missing_always c m : exists o, fst (unless_missing c m) = Ok o.
Proof. unfold unless_missing. destruct (c m) as [[]]; by eexists. Qed.

Lemma remove_created_undoes paths cause m F ds :
  quiet m -> layered F ds (disk m) -> (forall p, p ∈ paths -> D0 !! p = None /\ p ∉ ds) -> (forall p, is_Some (F !! p) -> p ∈ paths) ->
  exists e m', remove_created fault paths cause m = (Ok e, m') /\ quiet m' /\ layered ∅ ds (disk m').
Proof.
  revert cause m F. induction paths as [|p paths IH]; intros cause m F Hq Hl Hp Hall.
  { exists cause, m. split_and!; [done..|]. replace ∅ with F; [done|]. apply map_empty. intros q. apply eq_None_not_Some. intros Hs.
    by apply Hall, elem_of_nil in Hs. }
  cbn [remove_created]. unfold unless_missing, bindM. destruct (F !! p) as [i|] eqn:Ei.
  - destruct (proj1 (proj2 Hl) p i Ei) as (_ & _ & mode & data & ->). erewrite Remove_file; [|done|].
    2: { by rewrite (proj1 Hl), Ei. }
    edestruct (IH (join_opt cause None) {| disk := delete p (disk m); tick := S (tick m) |} (delete p F)) as (e & m' & He & Hq' & Hl').
    + eapply quiet_later; [done|cbn; lia].
    + cbn. apply layered_drop_file; [done|by eexists].
    + intros q Hin. apply Hp. by right.
    + intros q [j [Hne Hj]%lookup_delete_Some]. assert (q ∈ p :: paths) as Hin by (apply Hall; by eexists). set_solver.
    + by exists e, m'.
  - rewrite Remove_gone. 2: { rewrite (proj1 Hl), Ei. destruct (Hp p) as [H0 Hds]; [by left|]. by rewrite bool_decide_eq_false_2. }
    destruct (IH (join_opt cause (if errors_Is ErrNotExist ErrNotExist then None else Some ErrNotExist)) m F) as (e & m' & He & Hrest);
      [done|done| | |by exists e, m'].
    + intros q Hin. apply Hp. by right.
    + intros q Hs. assert (q ∈ p :: paths) as Hin by by apply Hall. apply elem_of_cons in Hin as [->|]; [|done]. by rewrite Ei in Hs; destruct Hs.
Qed.

Lemma Remove_layer p m ds :
  quiet m -> layered ∅ ds (disk m) -> D0 !! p = None ->
  exists r m' ds', Remove fault p m = (r, m') /\ quiet m' /\ layered ∅ ds' (disk m') /\ ds' ⊆ ds
    /\ (p ∈ ds -> has_children p (disk m) = false -> p ∉ ds').
Proof.
  intros Hq Hl H0. unfold Remove, look, gets, bindM. destruct (disk m !! p) as [i|] eqn:Ei.
  2: { eexists _, _, ds. split_and!; try done. rewrite (proj1 Hl), lookup_empty in Ei. by case_bool_decide. }
  assert (i = Directory /\ p ∈ ds) as [-> Hin].
  { rewrite (proj1 Hl), lookup_empty in Ei. case_bool_decide; [by simplify_eq|congruence]. }
  destruct (has_children p (disk m)) eqn:Ec; [eexists _, _, ds; by split_and!|].
  rewrite call_ok by done. eexists _, _, (ds ∖ {[p]}). split_and!; [done|eapply quiet_later; [done|cbn; lia]| |set_solver|set_solver].
  cbn. by apply layered_drop_dir.
Qed.

(** Every missing directory goes, the deepest first: nothing is left in it by then. *)
Lemma remove_directories_undoes dirs cause m ds :
  tree D0 -> quiet m -> layered ∅ ds (disk m) -> StronglySorted deeper dirs ->
  (forall a, a ∈ ds -> a ∈ dirs) -> (forall a, a ∈ dirs -> a ∈ missing) ->
  exists e m', remove_directories fault dirs cause m = (Ok e, m') /\ disk m' = D0.
Proof.
  intros Htree. revert cause m ds. induction dirs as [|a dirs IH]; intros cause m ds Hq Hl Hs Hin Hm.
  { exists cause, m. split; [done|]. apply layered_nothing.
    assert (ds = ∅) as <- by (apply set_eq; set_solver). done. }
  apply StronglySorted_inv in Hs as [Hs Ha]. destruct (missing_gone a) as [Hdot H0]; [apply Hm; set_solver|].
  cbn [remove_directories]. unfold look at 1, gets at 1, bindM at 1.
  assert (a ∈ ds -> has_children a (disk m) = false) as Hempty.
  { intros Hads. apply bool_decide_eq_false. intros (q & Hq' & Hdir). apply elem_of_dom in Hq'.
    assert (Hdeep : (Count a "/" < Count q "/")%nat) by (rewrite <- Hdir; apply Dir_shallower; congruence).
    destruct Hq' as [i Hi]. rewrite (proj1 Hl), lookup_empty in Hi. case_bool_decide as Hqds.
    - assert (q ∈ a :: dirs) as [->|Hqd]%elem_of_cons by (by apply Hin).
      + lia.
      + rewrite Forall_forall in Ha. specialize (Ha q Hqd). unfold deeper in Ha. lia.
    - destruct (Htree q) as [E|E]; [by eexists|congruence|]. rewrite Hdir in E. congruence. }
  destruct (bool_decide (disk m !! a = None) || has_children a (disk m)) eqn:Eskip.
  - apply (IH _ _ ds); [done|done|done| |set_solver]. intros b Hb. assert (b ∈ a :: dirs) as [->|]%elem_of_cons by (by apply Hin); [|done].
    exfalso. apply orb_true_iff in Eskip as [E|E]; [|by rewrite Hempty in E]. apply bool_decide_eq_true in E.
    rewrite (proj1 Hl), lookup_empty, bool_decide_eq_true_2 in E by done. done.
  - destruct (Remove_layer a m ds Hq Hl H0) as (r & m1 & ds1 & Er & Hq1 & Hl1 & Hsub & Hgone).
    assert (exists o, unless_missing (Remove fault a) m = (Ok o, m1)) as (o & Eo) by (unfold unless_missing; rewrite Er; destruct r; by eexists).
    unfold bindM. rewrite Eo. apply (IH _ _ ds1); [done|done|done| |set_solver]. intros b Hb.
    assert (b ∈ a :: dirs) as [->|]%elem_of_cons by (apply Hin; set_solver); [|done]. exfalso. apply Hgone; [set_solver| |done]. apply Hempty. set_solver.
Qed.

Lemma orm_temporary t : temporary generatedORMPath t <> generatedORMPath.
Proof. unfold temporary. change (Dir generatedORMPath) with "internal/models". cbn. by intros [=]. Qed.

Definition old_data (o : option inode) : option string := match o with Some (RegularFile _ data) => Some data | _ => None end.

Lemma restore_orm_undoes m ds :
  quiet m -> layered ∅ ds (disk m) -> (D0 !! generatedORMPath = None \/ exists mode data, D0 !! generatedORMPath = Some (RegularFile mode data)) ->
  exists o m' ds', restore_orm fault partial temp (old_data (D0 !! generatedORMPath)) m = (Ok o, m')
                   /\ quiet m' /\ layered ∅ ds' (disk m').
Proof.
  intros Hq Hl [H0|(mode & data & H0)]; rewrite H0; cbn [old_data restore_orm].
  - destruct (Remove_layer generatedORMPath m ds Hq Hl H0) as (r & m1 & ds1 & Er & Hq1 & Hl1 & _).
    unfold unless_missing. rewrite Er. destruct r; eexists _, _, ds1; by split_and!.
  - assert (disk m !! generatedORMPath = Some (RegularFile mode data)) as Hd.
    { rewrite (proj1 Hl), lookup_empty, bool_decide_eq_false_2; [done|]. intros Hin. destruct (missing_gone generatedORMPath); [|congruence].
      by apply (proj2 (proj2 Hl)). }
    pose proof (managed_triple generatedORMPath data (disk m) orm_temporary m eq_refl) as H.
    unfold managed_mode in H. rewrite Hd, insert_id in H by done.
    destruct (writeManagedFile _ _ _ _ _ m) as [[[]|e] m1]; destruct H as [H Ht];
      (eexists _, _, ds; split_and!; [done|by eapply quiet_later|by rewrite H]).
Qed.

Lemma rollback_undoes F created dirs changed cause m :
  tree D0 -> quiet m -> holds F m -> files_on F created ->
  (D0 !! generatedORMPath = None \/ exists mode data, D0 !! generatedORMPath = Some (RegularFile mode data)) ->
  StronglySorted deeper dirs -> (forall a, a ∈ dirs <-> a ∈ missing) ->
  exists e m', rollback fault partial temp created dirs changed (old_data (D0 !! generatedORMPath)) cause m = (Ok e, m') /\ disk m' = D0.
Proof.
  intros Htree Hq [ds Hl] Hon Horm Hs Hdirs. unfold rollback.
  destruct (remove_created_undoes created cause m F ds Hq Hl) as (e1 & m1 & E1 & Hq1 & Hl1).
  { intros p [i Hi]%Hon. destruct (proj1 (proj2 Hl) p i Hi) as (? & ? & _). done. }
  { intros p. apply Hon. }
  unfold bindM at 1. rewrite E1.
  assert (exists o m2 ds2, (if changed then restore_orm fault partial temp (old_data (D0 !! generatedORMPath)) else ret None) m1 = (Ok o, m2)
            /\ quiet m2 /\ layered ∅ ds2 (disk m2)) as (o & m2 & ds2 & E2 & Hq2 & Hl2).
  { destruct changed; [by eapply restore_orm_undoes|]. by exists None, m1, ds. }
  unfold bindM. rewrite E2. eapply remove_directories_undoes; try done; [|by intros a ?%Hdirs].
  intros a Ha. apply Hdirs, (proj2 (proj2 Hl2)), Ha.
Qed.
End Layers.
End Disk.

(** ** The generation of a model *)

Lemma missing_directories_spec d paths dirs :
  tree d -> missingParentDirectories paths d = Ok dirs ->
  StronglySorted deeper dirs /\ exists M : gset string, (forall a, a ∈ dirs <-> a ∈ M)
    /\ (forall p a, p ∈ paths -> a ∈ ancestors p -> a ∈ M \/ d !! a = Some Directory)
    /\ (forall a, a ∈ M -> a <> "." /\ d !! a = None).
Proof.
  unfold missingParentDirectories. intros Ht. destruct (collect_missing paths d) as [M|] eqn:E; [|done]. cbn. intros [= <-].
  split; [apply sort_deep_sorted|]. exists M. split; [|by apply collect_missing_spec].
  intros a. rewrite sort_deep_perm. apply elem_of_elements.
Qed.

(** What a finished generation adds, and that it leaves the rest alone. *)
Definition generated (format : string -> option string) (files : list plannedFile) (orm : string) (d d' : gmap string inode) : Prop :=
  (forall f, f ∈ files -> pl_path f <> generatedORMPath -> exists i, d' !! pl_path f = Some i /\ file_of format f i)
  /\ (exists mode, d' !! generatedORMPath = Some (RegularFile mode orm)
                   /\ forall mode0 data0, d !! generatedORMPath = Some (RegularFile mode0 data0) -> mode = mode0)
  /\ (forall q i, q <> generatedORMPath -> d !! q = Some i -> d' !! q = Some i).

Section Generation.
Context (fault : nat -> option error) (partial : nat -> nat) (temp : nat -> string) (format : string -> option string).
Context (once : forall t t', is_Some (fault t) -> is_Some (fault t') -> t = t').

Lemma write_all_outcome files orm m r p m1 (M : gset string) :
  (forall a, a ∈ M -> a <> "." /\ disk m !! a = None) ->
  (forall q a, q ∈ pl_path <$> files -> a ∈ ancestors q -> a ∈ M \/ disk m !! a = Some Directory) ->
  write_all fault partial temp format files orm m = (r, p, m1) ->
  match r with
  | Ok _ => generated format files orm (disk m) (disk m1)
  | Err _ => exists F, holds (disk m) M F m1 /\ files_on F (pg_created p)
  end.
Proof.
  intros HM Hcov. unfold write_all. destruct (write_files fault partial format files [] m) as [[r1 created] m2] eqn:Ew.
  destruct (write_files_outcome fault partial format once (disk m) M HM files ∅ [] m r1 created m2) as (F & [ds Hl] & Hon & Ht & Hok); try done.
  { intros f Hf a Ha. apply (Hcov (pl_path f) a); [by apply list_elem_of_fmap_2|done]. }
  { exists ∅. eapply layered_start; eauto. }
  { intros q. rewrite lookup_empty. split; [by intros []|by intros ?%elem_of_nil]. }
  destruct r1 as [[]|e]; [|intros [= <- <- <-]; exists F; split; [by exists ds|done]].
  pose proof (managed_triple fault partial temp once generatedORMPath orm (disk m2) (orm_temporary temp) m2 eq_refl) as Hm.
  destruct (writeManagedFile fault partial temp generatedORMPath orm m2) as [[[]|e] m3]; destruct Hm as [Hm _];
    intros [= <- <- <-]; [|exists F; split; [by exists ds; rewrite Hm|done]].
  assert (forall q i, disk m !! q = Some i -> disk m2 !! q = Some i) as Hkeep.
  { intros q i Hq. rewrite (proj1 Hl). destruct (F !! q) as [j|] eqn:Ej; [destruct (proj1 (proj2 Hl) q j Ej); congruence|].
    case_bool_decide as Hin; [|done]. destruct (HM q); [by apply (proj2 (proj2 Hl))|congruence]. }
  destruct (Hok eq_refl) as (_ & _ & Hfiles). rewrite Hm. split_and!.
  - intros f Hf Hne. destruct (Hfiles f Hf) as (i & Hi & Hfo). exists i. rewrite lookup_insert_ne by done. by rewrite (proj1 Hl), Hi.
  - eexists. split; [apply lookup_insert_eq|]. intros mode0 data0 H0. unfold managed_mode. by rewrite (Hkeep _ _ H0).
  - intros q i Hne Hq. rewrite lookup_insert_ne by done. by apply Hkeep.
Qed.

Lemma publish_outcome files orm m :
  tree (disk m) ->
  (disk m !! generatedORMPath = None \/ exists mode data, disk m !! generatedORMPath = Some (RegularFile mode data)) ->
  (forall cause p m1, write_all fault partial temp format files orm m = (Err cause, p, m1) -> quiet fault m1) ->
  match publish_model fault partial temp format files orm (old_data (disk m !! generatedORMPath)) m with
  | (Ok _, m') => generated format files orm (disk m) (disk m')
  | (Err _, m') => disk m' = disk m
  end.
Proof.
  intros Htree Hold Hquiet. unfold publish_model.
  destruct (missingParentDirectories (pl_path <$> files) (disk m)) as [dirs|] eqn:Ed; [|done].
  destruct (missing_directories_spec _ _ _ Htree Ed) as (Hs & M & Hdirs & Hcov & HM).
  destruct (write_all fault partial temp format files orm m) as [[r p] m1] eqn:Ew.
  pose proof (write_all_outcome files orm m r p m1 M HM Hcov Ew) as Hw. destruct r as [[]|cause]; [done|].
  destruct Hw as (F & Hh & Hon).
  destruct (rollback_undoes fault partial temp format once (disk m) M HM F (pg_created p) dirs (pg_orm p) cause m1) as (e & m2 & -> & Hd2); try done.
  by eapply Hquiet.
Qed.

(** A model is generated as a whole or not at all.  On a disk that is a tree, when one
    system call at most fails (any one of them: a directory, the creation or the write of a
    file, which may leave a part of it, a sync, a chmod, a close or a rename) and it does so
    before the rollback begins, then a generation that reports an error ends with exactly the
    disk it began with, and a generation that succeeds has written every file and the generated
    ORM, with the mode the ORM had, and has changed nothing else that was there. *)
Theorem failed_generation_leaves_no_trace files generatedORM m :
  tree (disk m) ->
  (forall orm cause p m1, generatedORM = Ok orm -> write_all fault partial temp format files orm m = (Err cause, p, m1) ->
     forall t, (tick m1 <= t)%nat -> fault t = None) ->
  match makeModelWithOptionsAndWriters fault partial temp format files generatedORM m with
  | (Err _, m') => disk m' = disk m
  | (Ok _, m') => exists orm, generatedORM = Ok orm /\ generated format files orm (disk m) (disk m')
  end.
Proof.
  intros Htree Hquiet. unfold makeModelWithOptionsAndWriters. destruct (refuse_existing files (disk m)); [|done].
  destruct generatedORM as [orm|]; [|done]. unfold Stat. destruct (blocked (disk m) generatedORMPath); [done|].
  pose proof (publish_outcome files orm m Htree) as H.
  assert (forall cause p m1, write_all fault partial temp format files orm m = (Err cause, p, m1) -> quiet fault m1) as Hq
    by (intros cause p m1 Hw t; by eapply Hquiet).
  destruct (disk m !! generatedORMPath) as [[mode data| |]|]; try done; cbn [old_data] in H;
    (destruct (publish_model _ _ _ _ _ _ _ m) as [[[]|e] m']; [exists orm; split; [done|]|]; apply H; eauto).
Qed.
End Generation.

(** A project without models: the sync of the new ORM fails, after two files in new directories. *)
Module Sample.
Definition start : machine := {| disk := {["internal" := Directory]}; tick := 0 |}.
Definition files : list plannedFile :=
  [{| pl_path := "internal/models/post.go"; pl_content := "package models" |};
   {| pl_path := "migrations/1_create_posts.up.sql"; pl_content := "create table posts" |}].
Definition fault (t : nat) : option error := if (t =? 10)%nat then Some (Errorf "input/output error") else None.
Definition run : result unit * machine :=
  makeModelWithOptionsAndWriters fault (fun _ => 3%nat) (fun _ => "1") Some files (Ok "package models") start.
End Sample.

Lemma sample_once t t' : is_Some (Sample.fault t) -> is_Some (Sample.fault t') -> t = t'.
Proof.
  unfold Sample.fault. destruct (Nat.eqb_spec t 10) as [->|]; [|by intros [? [=]]].
  destruct (Nat.eqb_spec t' 10) as [->|]; [done|by intros _ [? [=]]].
Qed.

Lemma failed_generation_leaves_no_trace_witness :
  exists e m', Sample.run = (Err e, m') /\ disk m' = disk Sample.start /\ (10 < tick m')%nat.
Proof.
  pose proof (failed_generation_leaves_no_trace Sample.fault (fun _ => 3%nat) (fun _ => "1") Some sample_once
    Sample.files (Ok "package models") Sample.start) as H. fold Sample.run in H.
  assert (fst Sample.run = Err (Wrapf "write generated ORM: %w" (Errorf "input/output error"))) as He by (vm_compute; reflexivity).
  assert (10 <? tick (snd Sample.run) = true)%nat as Ht by (vm_compute; reflexivity).
  destruct Sample.run as [r m']. cbn [fst snd] in *. subst r. exists (Wrapf "write generated ORM: %w" (Errorf "input/output error")), m'.
  split; [reflexivity|]. split; [|apply Nat.ltb_lt, Ht]. apply H.
  - intros p [i Hp]. cbn [disk Sample.start] in Hp. apply lookup_singleton_Some in Hp as [<- _]. by left.
  - intros orm cause p m1 [= <-] Hw t Hle.
    assert (tick (snd (write_all Sample.fault (fun _ => 3%nat) (fun _ => "1") Some Sample.files "package models" Sample.start)) = 13%nat) as E
      by (vm_compute; reflexivity).
    rewrite Hw in E. cbn in E. unfold Sample.fault. destruct (Nat.eqb_spec t 10); [lia|reflexivity].
Defined.
