(* ===== verification/CliServe.v ===== *)
(** * The development server ([internal/cli/serve.go], [internal/cli/serve_proxy.go])

    [forge serve] builds the application, starts it as a candidate process, puts a proxy in
    front and, whenever the source changes, builds and starts the next candidate and moves the
    proxy over.  The supervisor is a state machine: a [phase] stands for the point a loop of
    [superviseDevelopmentServer] or [buildStableDevelopmentCandidate] comes back to, and [step]
    runs one round of it.  What the file watcher, the compiler, the processes, the lock and the
    network answer depends on the time of the question and is otherwise arbitrary; a build
    result is a structure in a store, since the code clears its function pointers.

    The supervisor writes down what it does in a log, with the answers of the calls that can
    fail to take effect.  [replay] reads the log without knowing the supervisor and says whether
    it may be so: no process is stopped while the proxy leads to it, a reload is announced only
    for what is served and committed; it also tells what is left over because a call failed. *)

From S2P Require Import Prelude GoStrings GoNetip Proxy CliFiles.
Local Open Scope go_scope.
Local Open Scope Z_scope.

Definition sourceSnapshot : Type := string.

(** ** The compiled views on disk *)

Record developmentFileState : Type := { fs_exists : bool; fs_mode : Z; fs_data : string }.
Definition no_file : developmentFileState := {| fs_exists := false; fs_mode := 0; fs_data := EmptyString |}.
Definition same_file (s t : developmentFileState) : bool :=
  Bool.eqb (fs_exists s) (fs_exists t) && bool_decide (fs_data s = fs_data t).
Definition generatedViewsPath : string := "resources/views/views_gen.go".

Definition captureDevelopmentFile (path : string) (d : gmap string inode) : result developmentFileState :=
  match Stat d path with
  | Err e => Err e
  | Ok None => Ok no_file
  | Ok (Some (RegularFile mode data)) => Ok {| fs_exists := true; fs_mode := mode; fs_data := data |}
  | Ok (Some _) => Err (Errorf "%s is not a regular file")
  end.

Section Views.
Context (fault : nat -> option error) (partial : nat -> nat) (temp : nat -> string).

Definition chmod (path : string) (mode : Z) : M machine unit :=
  call fault (alter (fun i => match i with RegularFile _ data => RegularFile mode data | other => other end) path).
Definition restore (state : developmentFileState) (path : string) : M machine unit :=
  if fs_exists state then do! writeManagedFile fault partial temp path (fs_data state) in chmod path (fs_mode state)
  else let! e := unless_missing (Remove fault path) in
       match e with Some e => throw e | None => ret tt end.

(** Whether the replacement is in place now, and an error; never both false and none unless the
    file was not the expected one and that is no error. *)
Definition compareAndSwapDevelopmentViewsLocked (expected replacement : developmentFileState) (mismatchIsError : bool)
    : M machine (bool * option error) := fun m =>
  match captureDevelopmentFile generatedViewsPath (disk m) with
  | Err captureErr => (Ok (false, Some captureErr), m)
  | Ok current =>
      if negb (same_file current expected) then
        (Ok (false, if mismatchIsError then Some (Errorf "compiled views changed while staging a development candidate") else None), m)
      else
        match restore replacement generatedViewsPath m with
        | (Ok _, m') => (Ok (true, None), m')
        | (Err restoreErr, m') =>
            match captureDevelopmentFile generatedViewsPath (disk m') with
            | Ok after => (Ok (same_file after replacement, Some restoreErr), m')
            | Err inspectErr => (Ok (false, Some (Joined restoreErr inspectErr)), m')
            end
        end
  end.
End Views.

(** ** The candidate's environment *)

(** Values that were not seen before, up to case, in their order. *)
Fixpoint new_values (seen : list string) (values : list string) : list string :=
  match values with
  | [] => []
  | v :: rest =>
      let value := TrimSpace v in
      if bool_decide (value = EmptyString) || bool_decide (ToLower value ∈ seen) then new_values seen rest
      else value :: new_values (ToLower value :: seen) rest
  end.
Definition developmentTrustedProxies (configured : string) : string :=
  GoStrings.Join ("127.0.0.1/32" :: new_values ["127.0.0.1/32"] (Split configured ",")) ",".

Definition overrides (key entry : string) : bool :=
  let '(name, _, found) := Cut entry "=" in found && EqualFold name key.
Definition environmentWithOverride (environment : list string) (key value : string) : list string :=
  List.filter (fun entry => negb (overrides key entry)) environment ++ [key +:+ "=" +:+ value].

(** [net.JoinHostPort] *)
Definition JoinHostPort (host port : string) : string :=
  if contains_byte ":" host || contains_byte "%" host then "[" +:+ host +:+ "]:" +:+ port else host +:+ ":" +:+ port.
Definition displayDevelopmentAddress (address : string) : string :=
  match SplitHostPort address with
  | None => address
  | Some (host, port) =>
      JoinHostPort (if bool_decide (host = EmptyString) || bool_decide (host = "0.0.0.0") || bool_decide (host = "::") then "localhost" else host) port
  end.

(** ** The proxy's target *)

Record URL : Type := {
  u_Scheme : string; u_Host : string; u_Path : string; u_RawPath : string;
  u_RawQuery : string; u_ForceQuery : bool; u_Fragment : string
}.
Definition normalizeServeProxyTarget (target : option URL) : result URL :=
  match target with
  | None => Err (Errorf "serve proxy target is required")
  | Some u =>
      if negb (bool_decide (u_Scheme u = "http")) && negb (bool_decide (u_Scheme u = "https"))
      then Err (Errorf "serve proxy target scheme must be http or https, got %q")
      else if bool_decide (u_Host u = EmptyString) then Err (Errorf "serve proxy target host is required")
      else Ok {| u_Scheme := u_Scheme u; u_Host := u_Host u; u_Path := EmptyString; u_RawPath := EmptyString;
                 u_RawQuery := EmptyString; u_ForceQuery := false; u_Fragment := EmptyString |}
  end.

(** ** Starting a candidate *)

Record start_answers : Type := {
  sa_reserve : nat -> result (string * option URL);
  sa_environment : nat -> string -> result (list string);
  sa_start : nat -> option error;
  sa_health : nat -> option error;
  sa_owns : nat -> result bool;
  sa_stop : nat -> option error;
  sa_expired : nat -> option error
}.
(** Time, and the processes that were started and not stopped. *)
Record launcher : Type := { l_now : nat; l_running : gset nat }.
Definition l_ask {A} (f : nat -> A) : M launcher A :=
  fun l => (Ok (f (l_now l)), {| l_now := S (l_now l); l_running := l_running l |}).

Section Start.
Context (sa : start_answers).

(** [start], [health] and [ownsAddress]: the process if there is one, and an error if any. *)
Definition launch : M launcher (option nat * option error) :=
  let! p := gets l_now in
  let! startErr := l_ask (sa_start sa) in
  match startErr with
  | Some e => ret (None, Some e)
  | None =>
      do! modify (fun l => {| l_now := l_now l; l_running := {[p]} ∪ l_running l |}) in
      let! healthErr := l_ask (sa_health sa) in
      match healthErr with
      | Some e => ret (Some p, Some e)
      | None =>
          let! owned := l_ask (sa_owns sa) in
          match owned with
          | Err e => ret (Some p, Some (Wrapf "verify development server listener ownership: %w" e))
          | Ok false => ret (Some p, Some (Errorf "development server process %d does not own %s"))
          | Ok true => ret (Some p, None)
          end
      end
  end.
Fixpoint start_attempts (attempts : nat) (lastErr : error) : M launcher (result (nat * option URL)) :=
  match attempts with
  | O => ret (Err (Wrapf "start development server after %d attempts: %w" lastErr))
  | S attempts =>
      let! reserved := l_ask (sa_reserve sa) in
      match reserved with
      | Err e => start_attempts attempts e
      | Ok (address, target) =>
          let! environment := l_ask (fun t => sa_environment sa t address) in
          match environment with
          | Err e => ret (Err e)
          | Ok _ =>
              let! (process, launchErr) := launch in
              match process, launchErr with
              | Some p, None => ret (Ok (p, target))
              | _, None => ret (Err lastErr)
              | _, Some e =>
                  let! stopErr := match process with
                                  | Some p =>
                                      let! stopErr := l_ask (sa_stop sa) in
                                      do! modify (fun l => {| l_now := l_now l;
                                        l_running := if stopErr then l_running l else l_running l ∖ {[p]} |}) in
                                      ret stopErr
                                  | None => ret None
                                  end in
                  match stopErr with
                  | Some s => ret (Err (Joined e (Wrapf "stop failed development candidate: %w" s)))
                  | None =>
                      let! expired := l_ask (sa_expired sa) in
                      match expired with
                      | Some x => ret (Err (Wrapf "start development server within %s: %w" x))
                      | None => start_attempts attempts e
                      end
                  end
              end
          end
      end
  end.
Definition startDevelopmentCandidateWith (attempts : nat) : M launcher (result (nat * option URL)) :=
  start_attempts attempts (Errorf "%!w(<nil>)").
End Start.

(** ** What the supervisor does, and what it is told *)

Inductive event : Type :=
| Read (s : sourceSnapshot)
| Building
| Built (b : nat)
| Started (p b : nat)
| Stopped (p : nat) (answer : option error)
| Removed (b : nat) (answer : option error)
| Published (b : nat)
| Withdrawn (b : nat)
| Finalized (b : nat)
| ProxyOpened (p : nat)
| Swapped (p : nat)
| ProxyClosed (answer : option error)
| Reloaded.

(** Which case of the [select] in [waitForDevelopmentChange] is taken. *)
Inductive wake : Type :=
| CtxDone (e : error)
| ActiveDone (e : option error)
| ProxyDone (e : option error)
| Changed (r : result sourceSnapshot).

Record answers : Type := {
  a_snapshot : nat -> result sourceSnapshot;
  a_generation : nat -> Z;
  a_ctx : nat -> option error;
  a_build : nat -> option error;
  a_start : nat -> result (option URL);
  a_done : nat -> nat -> bool;
  a_wait : nat -> option error;
  a_stop : nat -> option error;
  a_remove : nat -> option error;
  a_lock : nat -> option error;
  a_unlock : nat -> option error;
  a_swap_views : nat -> bool * option error;
  a_proxy_start : nat -> option error;
  a_proxy_done : nat -> option (option error);
  a_proxy_close : nat -> option error;
  a_stabilize : nat -> result sourceSnapshot;
  a_wake : nat -> wake
}.

(** [developmentBuild]: which function pointers are set, and [publishedByBuild]. *)
Record developmentBuild : Type := { b_publish : bool; b_rollback : bool; b_finalize : bool; b_published : bool }.
Definition clear_publish (b : developmentBuild) : developmentBuild :=
  {| b_publish := false; b_rollback := b_rollback b; b_finalize := b_finalize b; b_published := b_published b |}.
Definition clear_rollback (b : developmentBuild) : developmentBuild :=
  {| b_publish := b_publish b; b_rollback := false; b_finalize := b_finalize b; b_published := b_published b |}.
Definition clear_finalize (b : developmentBuild) : developmentBuild :=
  {| b_publish := b_publish b; b_rollback := b_rollback b; b_finalize := false; b_published := b_published b |}.
Definition set_published (v : bool) (b : developmentBuild) : developmentBuild :=
  {| b_publish := b_publish b; b_rollback := b_rollback b; b_finalize := b_finalize b; b_published := v |}.

Record developmentCandidate : Type := { c_process : nat; c_target : option URL; c_build : nat }.
Record developmentBuildResult : Type := { r_candidate : developmentCandidate; r_snapshot : sourceSnapshot; r_generation : Z }.

(** The log is kept with the last event first; [w_lock] is the generator lock of this process. *)
Record world : Type := { now : nat; log : list event; builds : gmap nat developmentBuild; w_lock : bool }.

Definition emit (e : event) : M world unit :=
  modify (fun w => {| now := now w; log := e :: log w; builds := builds w; w_lock := w_lock w |}).
Definition update_build (b : nat) (f : developmentBuild -> developmentBuild) : M world unit :=
  modify (fun w => {| now := now w; log := log w; builds := alter f b (builds w); w_lock := w_lock w |}).
Definition set_lock (v : bool) : M world unit :=
  modify (fun w => {| now := now w; log := log w; builds := builds w; w_lock := v |}).
Definition ask {A} (f : nat -> A) : M world A :=
  fun w => (Ok (f (now w)), {| now := S (now w); log := log w; builds := builds w; w_lock := w_lock w |}).
Definition the_build (b : nat) : M world (option developmentBuild) := gets (fun w => builds w !! b).

(** [errors.Join] of errors that may be nil *)
Definition errors_Join (e e' : option error) : option error :=
  match e, e' with Some a, Some b => Some (Joined a b) | Some a, None => Some a | None, _ => e' end.
Definition joinDevelopmentError (primary : error) (cleanup : option error) : error :=
  match cleanup with Some c => Joined primary c | None => primary end.
Definition developmentProcessExitError (message : string) (e : option error) : error :=
  match e with None => Errorf message | Some e => Wrapf message e end.
Definition failed (e : option error) : bool := match e with Some _ => true | None => false end.

Section Supervisor.
Context (a : answers).

Definition readDevelopmentSnapshot : M world (result sourceSnapshot) :=
  let! r := ask (a_snapshot a) in
  match r with
  | Ok s => do! emit (Read s) in ret (Ok s)
  | Err e => ret (Err e)
  end.
Definition developmentGeneration : M world Z := ask (a_generation a).

(** ** The transaction of a build: [publish], [rollback] and [finalize] of [buildDevelopmentServer] *)

Definition run_publish (b : nat) : M world (option error) :=
  let! d := the_build b in
  if match d with Some d => b_published d | None => false end then ret None
  else
    let! held := gets w_lock in
    let! e := ask (a_lock a) in
    if held : bool then ret (Some (Sentinel "context.DeadlineExceeded"))
    else match e with
    | Some e => ret (Some e)
    | None =>
        let! (published, publishErr) := ask (a_swap_views a) in
        if published : bool then
          do! update_build b (set_published true) in do! set_lock true in do! emit (Published b) in ret publishErr
        else let! closeErr := ask (a_unlock a) in ret (errors_Join publishErr closeErr)
    end.
Definition run_rollback (b : nat) : M world (option error) :=
  let! d := the_build b in
  if match d with Some d => b_published d | None => false end then
    let! (restored, rollbackErr) := ask (a_swap_views a) in
    if restored || negb (failed rollbackErr) then
      do! update_build b (set_published false) in do! set_lock false in do! emit (Withdrawn b) in
      let! closeErr := ask (a_unlock a) in
      ret (errors_Join rollbackErr closeErr)
    else ret rollbackErr
  else ret None.
Definition run_finalize (b : nat) : M world (option error) :=
  let! d := the_build b in
  if match d with Some d => b_published d | None => false end then
    do! update_build b (set_published false) in do! set_lock false in do! emit (Finalized b) in
    ask (a_unlock a)
  else ret None.

Definition rollbackDevelopmentBuild (b : nat) : M world (option error) :=
  let! d := the_build b in
  if match d with Some d => b_rollback d | None => false end then
    let! e := run_rollback b in
    match e with
    | Some e => ret (Some e)
    | None => do! update_build b clear_rollback in ret None
    end
  else ret None.
Fixpoint retry_rollback (attempts : nat) (b : nat) (last : option error) : M world (option error) :=
  match attempts with
  | O => ret last
  | S n => let! e := rollbackDevelopmentBuild b in
           match e with None => ret None | Some e => retry_rollback n b (Some e) end
  end.
Definition retryDevelopmentBuildRollback (b : nat) : M world (option error) := retry_rollback 3 b None.
Definition publishDevelopmentBuild (b : nat) : M world (option error) :=
  let! d := the_build b in
  if match d with Some d => b_publish d | None => false end then
    let! e := run_publish b in
    match e with
    | Some e => ret (Some e)
    | None => do! update_build b clear_publish in ret None
    end
  else ret None.
Definition commitDevelopmentBuild (b : nat) : M world (option error) :=
  let! d := the_build b in
  if match d with Some d => b_finalize d | None => false end then
    let! e := run_finalize b in
    match e with
    | Some e => ret (Some e)
    | None => do! update_build b (fun d => clear_rollback (clear_finalize d)) in ret None
    end
  else do! update_build b clear_rollback in ret None.

Definition discardDevelopmentBuild (b : nat) : M world (option error) :=
  let! rollbackErr := retryDevelopmentBuildRollback b in
  let! removeErr := ask (a_remove a) in
  do! emit (Removed b removeErr) in
  ret (errors_Join rollbackErr removeErr).
Definition cleanupDevelopmentCandidate (c : developmentCandidate) : M world (option error) :=
  let! stopErr := ask (a_stop a) in
  do! emit (Stopped (c_process c) stopErr) in
  let! cleanupErr := discardDevelopmentBuild (c_build c) in
  ret (errors_Join (Wrapf "stop development server: %w" <$> stopErr) (Wrapf "discard development build: %w" <$> cleanupErr)).
Definition exited (c : developmentCandidate) : M world bool := ask (fun t => a_done a t (c_process c)).

(** ** The proxy *)

Definition startProxy (c : developmentCandidate) : M world (option error) :=
  match normalizeServeProxyTarget (c_target c) with
  | Err e => ret (Some e)
  | Ok _ =>
      let! e := ask (a_proxy_start a) in
      match e with
      | Some e => ret (Some e)
      | None => do! emit (ProxyOpened (c_process c)) in ret None
      end
  end.
Definition SwapTarget (c : developmentCandidate) : M world (option error) :=
  match normalizeServeProxyTarget (c_target c) with
  | Err e => ret (Some e)
  | Ok _ => do! emit (Swapped (c_process c)) in ret None
  end.
Definition close_proxy : M world (option error) :=
  let! closeErr := ask (a_proxy_close a) in do! emit (ProxyClosed closeErr) in ret closeErr.

(** ** One round of [buildStableDevelopmentCandidate] *)

(** Another round, a candidate, or an error with the snapshot it belongs to. *)
Inductive round : Type :=
| Again (input : sourceSnapshot)
| Candidate (r : developmentBuildResult)
| BuildFailed (snapshot : sourceSnapshot) (e : error).

Definition stabilize_again (current : sourceSnapshot) : M world round :=
  let! r := ask (a_stabilize a) in
  match r with
  | Ok stable => ret (Again stable)
  | Err waitErr => ret (BuildFailed current waitErr)
  end.

(** [dependencies.build]: a build, or an error and no build. *)
Definition build_binary : M world (result nat) :=
  do! emit Building in
  let! t := gets now in
  let! e := ask (a_build a) in
  match e with
  | Some e => ret (Err e)
  | None => fun w => (Ok (Ok t), {| now := now w; log := Built t :: log w;
                                    builds := <[t := {| b_publish := true; b_rollback := true; b_finalize := true; b_published := false |}]> (builds w);
                                    w_lock := w_lock w |})
  end.
Definition discard_if (b : result nat) : M world (option error) :=
  match b with Ok b => discardDevelopmentBuild b | Err _ => ret None end.
Definition start_process (b : nat) : M world (result developmentCandidate) :=
  let! t := gets now in
  let! r := ask (a_start a) in
  match r with
  | Err e => ret (Err e)
  | Ok target => do! emit (Started t b) in ret (Ok {| c_process := t; c_target := target; c_build := b |})
  end.

(** The process did not start. *)
Definition start_failed (input current : sourceSnapshot) (startedGeneration : Z) (b : nat) (startErr : error) : M world round :=
  let! discardErr := discardDevelopmentBuild b in
  let! ctxErr := ask (a_ctx a) in
  match ctxErr with
  | Some e => ret (BuildFailed current (joinDevelopmentError e discardErr))
  | None =>
      let! latest := readDevelopmentSnapshot in
      match latest with
      | Err e => ret (BuildFailed current (Wrapf "snapshot application source: %w" e))
      | Ok latest =>
          let! g := developmentGeneration in
          if negb (bool_decide (latest = input)) || negb (g =? startedGeneration) then stabilize_again latest
          else ret (BuildFailed latest (joinDevelopmentError startErr discardErr))
      end
  end.
(** The process started: is the source still the one that was built? *)
Definition confirm_candidate (input current : sourceSnapshot) (startedGeneration : Z) (c : developmentCandidate) : M world round :=
  let! latest := readDevelopmentSnapshot in
  match latest with
  | Err e =>
      let! cleanupErr := cleanupDevelopmentCandidate c in
      ret (BuildFailed current (joinDevelopmentError (Wrapf "snapshot application source: %w" e) cleanupErr))
  | Ok latest =>
      let! g := developmentGeneration in
      if negb (bool_decide (latest = input)) || negb (g =? startedGeneration) then
        let! discardErr := cleanupDevelopmentCandidate c in
        match discardErr with
        | Some e => ret (BuildFailed latest (Wrapf "discard stale development build: %w" e))
        | None => stabilize_again latest
        end
      else
        let! g := developmentGeneration in
        ret (Candidate {| r_candidate := c; r_snapshot := latest; r_generation := g |})
  end.

Definition buildStableDevelopmentCandidate (input : sourceSnapshot) : M world round :=
  let! startedGeneration := developmentGeneration in
  let! b := build_binary in
  let! ctxErr := ask (a_ctx a) in
  match ctxErr with
  | Some e => let! cleanupErr := discard_if b in ret (BuildFailed input (joinDevelopmentError e cleanupErr))
  | None =>
      let! current := readDevelopmentSnapshot in
      match current with
      | Err e =>
          let! cleanupErr := discard_if b in
          ret (BuildFailed input (joinDevelopmentError (Wrapf "snapshot application source: %w" e) cleanupErr))
      | Ok current =>
          let! g := developmentGeneration in
          if negb (bool_decide (current = input)) || negb (g =? startedGeneration) then
            let! discardErr := discard_if b in
            match discardErr with
            | Some e => ret (BuildFailed current (Wrapf "discard stale development build: %w" e))
            | None => stabilize_again current
            end
          else match b with
          | Err buildErr => ret (BuildFailed current buildErr)
          | Ok b =>
              let! started := start_process b in
              match started with
              | Err startErr => start_failed input current startedGeneration b startErr
              | Ok c => confirm_candidate input current startedGeneration c
              end
          end
      end
  end.

(** ** [superviseDevelopmentServer] *)

(** Where a loop starts over: the first candidate is being built, the proxy serves [active] and
    the source is watched, the next candidate is being built, or the function has returned. *)
Inductive phase : Type :=
| StartupBuild (input : sourceSnapshot)
| Watching (active : developmentCandidate) (baseline : sourceSnapshot) (baselineGeneration : Z)
| ReloadBuild (active : developmentCandidate) (next : sourceSnapshot)
| Finished (e : error).

(** [return] before anything is deferred. *)
Definition give_up_with (c : developmentCandidate) (e : error) : M world phase :=
  let! cleanupErr := cleanupDevelopmentCandidate c in ret (Finished (joinDevelopmentError e cleanupErr)).
(** [return] with the deferred calls: the proxy is closed, then the active candidate goes. *)
Definition finish (active : developmentCandidate) (e : error) : M world phase :=
  let! closeErr := close_proxy in
  let! cleanupErr := cleanupDevelopmentCandidate active in
  ret (Finished (joinDevelopmentError (joinDevelopmentError e (Wrapf "stop development proxy: %w" <$> closeErr)) cleanupErr)).

Definition stabilize_to (k : sourceSnapshot -> phase) (otherwise : error -> M world phase) : M world phase :=
  let! r := ask (a_stabilize a) in
  match r with Ok stable => ret (k stable) | Err e => otherwise e end.
Definition read_and_stabilize (k : sourceSnapshot -> phase) (otherwise : error -> M world phase) : M world phase :=
  let! latest := readDevelopmentSnapshot in
  match latest with Ok _ => stabilize_to k otherwise | Err e => otherwise e end.
Definition returned (e : error) : M world phase := ret (Finished e).
(** Is the source other than the one of the candidate? *)
Definition is_stale (r : developmentBuildResult) (latest : sourceSnapshot) : M world bool :=
  let! g := developmentGeneration in
  ret (negb (bool_decide (latest = r_snapshot r)) || negb (g =? r_generation r)).

(** The first candidate behind the proxy: it stays when the source has not changed meanwhile. *)
Definition settle_first (initial : developmentBuildResult) : M world phase :=
  let active := r_candidate initial in
  let! latest := readDevelopmentSnapshot in
  let! stale := match latest with Ok l => is_stale initial l | Err _ => ret false end in
  let! gone := exited active in
  if gone : bool then
    let! closeErr := close_proxy in
    let! waitErr := ask (a_wait a) in
    let! cleanupErr := cleanupDevelopmentCandidate active in
    returned (joinDevelopmentError (developmentProcessExitError "development server exited during proxy startup" waitErr) (errors_Join closeErr cleanupErr))
  else match latest, stale with
  | Ok _, false =>
      let! commitErr := commitDevelopmentBuild (c_build active) in
      match commitErr with
      | Some e => finish active e
      | None => ret (Watching active (r_snapshot initial) (r_generation initial))
      end
  | _, _ =>
      let! closeErr := close_proxy in
      let! cleanupErr := cleanupDevelopmentCandidate active in
      match errors_Join (match latest with Err e => Some e | Ok _ => None end) (errors_Join closeErr cleanupErr) with
      | Some e => returned e
      | None => stabilize_to StartupBuild returned
      end
  end.

Definition open_first (initial : developmentBuildResult) : M world phase :=
  let active := r_candidate initial in
  let! gone := exited active in
  if gone : bool then
    let! waitErr := ask (a_wait a) in give_up_with active (developmentProcessExitError "development server exited before proxy startup" waitErr)
  else
    let! publishErr := publishDevelopmentBuild (c_build active) in
    match publishErr with
    | Some publishErr =>
        let! cleanupErr := cleanupDevelopmentCandidate active in
        match cleanupErr with
        | Some cleanupErr => returned (Joined publishErr cleanupErr)
        | None => read_and_stabilize StartupBuild returned
        end
    | None =>
        let! gone := exited active in
        if gone : bool then
          let! waitErr := ask (a_wait a) in give_up_with active (developmentProcessExitError "development server exited before proxy startup" waitErr)
        else
          let! proxyErr := startProxy active in
          match proxyErr with
          | Some e => give_up_with active e
          | None => settle_first initial
          end
    end.

Definition startup (initial : developmentBuildResult) : M world phase :=
  let! latest := readDevelopmentSnapshot in
  match latest with
  | Err e => give_up_with (r_candidate initial) e
  | Ok latest =>
      let! stale := is_stale initial latest in
      if stale : bool then
        let! cleanupErr := cleanupDevelopmentCandidate (r_candidate initial) in
        match cleanupErr with
        | Some e => returned e
        | None => stabilize_to StartupBuild returned
        end
      else open_first initial
  end.

(** [waitForDevelopmentChange] *)
Definition waitForDevelopmentChange : M world (result sourceSnapshot) :=
  let! w := ask (a_wake a) in
  match w with
  | CtxDone e => ret (Err e)
  | ActiveDone e => ret (Err (developmentProcessExitError "development server exited" e))
  | ProxyDone None => ret (Err (Errorf "development proxy stopped unexpectedly"))
  | ProxyDone (Some e) => ret (Err (Wrapf "development proxy stopped: %w" e))
  | Changed (Err e) => ret (Err (Wrapf "watch application source: %w" e))
  | Changed (Ok s) => ret (Ok s)
  end.
Definition watch (active : developmentCandidate) (baselineGeneration : Z) : M world phase :=
  let! g := developmentGeneration in
  if negb (g =? baselineGeneration) then read_and_stabilize (ReloadBuild active) (finish active)
  else
    let! next := waitForDevelopmentChange in
    match next with
    | Ok next => ret (ReloadBuild active next)
    | Err e => finish active e
    end.

(** ** A reload *)

(** The candidate is given up, the active one stays. *)
Definition reload_failed (active : developmentCandidate) (snapshot : sourceSnapshot) : M world phase :=
  let! g := developmentGeneration in ret (Watching active snapshot g).
Definition drop_candidate (active : developmentCandidate) (r : developmentBuildResult) (candidateErr : error) : M world phase :=
  let! cleanupErr := cleanupDevelopmentCandidate (r_candidate r) in
  match cleanupErr with
  | Some e => finish active (Joined candidateErr e)
  | None => reload_failed active (r_snapshot r)
  end.
(** Everything ends, the candidate first. *)
Definition abandon (active : developmentCandidate) (r : developmentBuildResult) (e : error) : M world phase :=
  let! cleanupErr := cleanupDevelopmentCandidate (r_candidate r) in finish active (joinDevelopmentError e cleanupErr).

(** The three [select]s before the publication and again before the promotion. *)
Definition check_processes (active : developmentCandidate) (r : developmentBuildResult) (continue_ : M world phase) : M world phase :=
  let! gone := exited (r_candidate r) in
  if gone : bool then
    let! waitErr := ask (a_wait a) in
    drop_candidate active r (developmentProcessExitError "candidate server exited before promotion" waitErr)
  else
    let! gone := exited active in
    if gone : bool then
      let! waitErr := ask (a_wait a) in abandon active r (developmentProcessExitError "development server exited" waitErr)
    else
      let! stopped := ask (a_proxy_done a) in
      match stopped with
      | Some None => abandon active r (Errorf "development proxy stopped unexpectedly")
      | Some (Some e) => abandon active r (Wrapf "development proxy stopped: %w" e)
      | None => continue_
      end.

(** The proxy leads to the candidate: it becomes the active one, or the proxy goes back. *)
Definition settle (active : developmentCandidate) (r : developmentBuildResult) : M world phase :=
  let! latest := readDevelopmentSnapshot in
  let! stale := match latest with Ok l => is_stale r l | Err _ => ret false end in
  let! gone := exited (r_candidate r) in
  if gone : bool then
    let! revertErr := SwapTarget active in
    let! waitErr := ask (a_wait a) in
    let candidateErr := developmentProcessExitError "candidate server exited during promotion" waitErr in
    let! cleanupErr := cleanupDevelopmentCandidate (r_candidate r) in
    match errors_Join revertErr cleanupErr with
    | Some e => finish active (Joined candidateErr e)
    | None => reload_failed active (r_snapshot r)
    end
  else match latest, stale with
  | Ok _, false =>
      let! cleanupErr := cleanupDevelopmentCandidate active in
      match cleanupErr with
      | Some e => finish (r_candidate r) e
      | None =>
          let! commitErr := commitDevelopmentBuild (c_build (r_candidate r)) in
          match commitErr with
          | Some e => finish (r_candidate r) e
          | None => do! emit Reloaded in ret (Watching (r_candidate r) (r_snapshot r) (r_generation r))
          end
      end
  | _, _ =>
      let! revertErr := SwapTarget active in
      let! cleanupErr := cleanupDevelopmentCandidate (r_candidate r) in
      match errors_Join (match latest with Err e => Some e | Ok _ => None end) (errors_Join revertErr cleanupErr) with
      | Some e => finish active e
      | None => stabilize_to (ReloadBuild active) (finish active)
      end
  end.

Definition promote (active : developmentCandidate) (r : developmentBuildResult) : M world phase :=
  let! publishErr := publishDevelopmentBuild (c_build (r_candidate r)) in
  match publishErr with
  | Some publishErr =>
      let! cleanupErr := cleanupDevelopmentCandidate (r_candidate r) in
      match cleanupErr with
      | Some e => finish active (Joined publishErr e)
      | None => read_and_stabilize (ReloadBuild active) (finish active)
      end
  | None =>
      check_processes active r
        (let! swapErr := SwapTarget (r_candidate r) in
         match swapErr with
         | Some e => abandon active r (Wrapf "promote development server: %w" e)
         | None => settle active r
         end)
  end.

Definition reload (active : developmentCandidate) (r : developmentBuildResult) : M world phase :=
  check_processes active r
    (let! g := developmentGeneration in
     if negb (g =? r_generation r) then
       let! latest := readDevelopmentSnapshot in
       let! cleanupErr := cleanupDevelopmentCandidate (r_candidate r) in
       match errors_Join (match latest with Err e => Some e | Ok _ => None end) cleanupErr with
       | Some e => finish active e
       | None => stabilize_to (ReloadBuild active) (finish active)
       end
     else promote active r).

(** ** One round *)

Definition step (p : phase) : M world phase :=
  match p with
  | StartupBuild input =>
      let! round := buildStableDevelopmentCandidate input in
      match round with
      | Again input => ret (StartupBuild input)
      | BuildFailed _ e => returned e
      | Candidate initial => startup initial
      end
  | Watching active _ baselineGeneration => watch active baselineGeneration
  | ReloadBuild active next =>
      let! round := buildStableDevelopmentCandidate next in
      match round with
      | Again next => ret (ReloadBuild active next)
      | BuildFailed snapshot e =>
          let! ctxErr := ask (a_ctx a) in
          match ctxErr with
          | Some _ => finish active e
          | None => reload_failed active snapshot
          end
      | Candidate r => reload active r
      end
  | Finished e => ret (Finished e)
  end.

(** [n] rounds of [superviseDevelopmentServer], which has returned when the phase is [Finished]. *)
Fixpoint rounds (n : nat) (p : phase) : M world phase :=
  match n with
  | O => ret p
  | S n => let! p' := step p in rounds n p'
  end.
Definition superviseDevelopmentServer (n : nat) : M world phase :=
  let! input := readDevelopmentSnapshot in
  match input with
  | Err e => returned (Wrapf "snapshot application source: %w" e)
  | Ok input => rounds n (StartupBuild input)
  end.
End Supervisor.

Definition boot : world := {| now := 0; log := []; builds := ∅; w_lock := false |}.

(** ** What a log may look like *)

(** What was read of the source since the last build began. *)
Inductive observed : Type := Nothing | Only (s : sourceSnapshot) | Mixed.

(** What a failed [Stop], removal or [Close] left behind. *)
Record leftovers : Type := {
  l_processes : gmap nat nat;    (* processes that did not stop, and the builds they run *)
  l_binaries : gset nat;         (* builds that were not removed *)
  l_proxy : option nat           (* where a proxy leads that did not close *)
}.
Record served : Type := {
  s_running : gmap nat nat;      (* processes that were not told to stop, and the builds they run *)
  s_binaries : gset nat;         (* builds whose removal was not tried *)
  s_proxy : option nat;          (* the process the proxy leads to, until it is closed *)
  s_pending : option nat;        (* the build whose views are published and neither withdrawn nor final *)
  s_observed : observed;
  s_left : leftovers
}.
Definition nothing_left : leftovers := {| l_processes := ∅; l_binaries := ∅; l_proxy := None |}.
Definition silence : served :=
  {| s_running := ∅; s_binaries := ∅; s_proxy := None; s_pending := None; s_observed := Nothing; s_left := nothing_left |}.

Definition observe (s : sourceSnapshot) (o : observed) : observed :=
  match o with
  | Nothing => Only s
  | Only s' => if bool_decide (s = s') then o else Mixed
  | Mixed => Mixed
  end.
Definition settled (o : observed) : bool := match o with Only _ => true | _ => false end.

Definition permitted (e : event) (m : served) : option served :=
  let set_running r := {| s_running := r; s_binaries := s_binaries m; s_proxy := s_proxy m; s_pending := s_pending m; s_observed := s_observed m; s_left := s_left m |} in
  let set_binaries b := {| s_running := s_running m; s_binaries := b; s_proxy := s_proxy m; s_pending := s_pending m; s_observed := s_observed m; s_left := s_left m |} in
  let set_proxy p := {| s_running := s_running m; s_binaries := s_binaries m; s_proxy := p; s_pending := s_pending m; s_observed := s_observed m; s_left := s_left m |} in
  let set_pending b := {| s_running := s_running m; s_binaries := s_binaries m; s_proxy := s_proxy m; s_pending := b; s_observed := s_observed m; s_left := s_left m |} in
  let set_observed o := {| s_running := s_running m; s_binaries := s_binaries m; s_proxy := s_proxy m; s_pending := s_pending m; s_observed := o; s_left := s_left m |} in
  match e with
  | Read s => Some (set_observed (observe s (s_observed m)))
  | Building => Some (set_observed Nothing)
  | Built b => if bool_decide (b ∈ s_binaries m) then None else Some (set_binaries ({[b]} ∪ s_binaries m))
  | Started p b =>
      if bool_decide (b ∈ s_binaries m) && bool_decide (s_running m !! p = None) then Some (set_running (<[p := b]> (s_running m))) else None
  (* a process the proxy leads to is never stopped *)
  | Stopped p _ =>
      if bool_decide (is_Some (s_running m !! p)) && negb (bool_decide (s_proxy m = Some p)) then Some (set_running (delete p (s_running m))) else None
  (* the removal of a binary is tried once, and not before its process was told to stop *)
  | Removed b _ =>
      if bool_decide (b ∈ s_binaries m) && bool_decide (map_Forall (fun _ b' => b' <> b) (s_running m)) then Some (set_binaries (s_binaries m ∖ {[b]})) else None
  | Published b => if bool_decide (s_pending m = None) then Some (set_pending (Some b)) else None
  | Withdrawn b => if bool_decide (s_pending m = Some b) then Some (set_pending None) else None
  (* views become final only for what is served, and only when the source was one and the same *)
  | Finalized b =>
      if bool_decide (s_pending m = Some b) && settled (s_observed m)
         && bool_decide ((s_proxy m ≫= fun p => s_running m !! p) = Some b)
      then Some (set_pending None) else None
  | ProxyOpened p => if bool_decide (s_proxy m = None) && bool_decide (is_Some (s_running m !! p)) then Some (set_proxy (Some p)) else None
  | Swapped p => if bool_decide (is_Some (s_proxy m)) && bool_decide (is_Some (s_running m !! p)) then Some (set_proxy (Some p)) else None
  | ProxyClosed _ => if bool_decide (is_Some (s_proxy m)) then Some (set_proxy None) else None
  (* browsers reload when the new process is served, all others were told to stop, and nothing is pending *)
  | Reloaded =>
      if bool_decide (s_pending m = None) && settled (s_observed m)
         && bool_decide (is_Some (s_proxy m ≫= fun p => s_running m !! p)) && bool_decide (size (s_running m) = 1%nat)
      then Some m else None
  end.
Definition left_by (e : event) (m : served) : leftovers :=
  let l := s_left m in
  match e with
  | Stopped p (Some _) => {| l_processes := partial_alter (fun _ => s_running m !! p) p (l_processes l); l_binaries := l_binaries l; l_proxy := l_proxy l |}
  | Removed b (Some _) => {| l_processes := l_processes l; l_binaries := {[b]} ∪ l_binaries l; l_proxy := l_proxy l |}
  | ProxyClosed (Some _) => {| l_processes := l_processes l; l_binaries := l_binaries l; l_proxy := s_proxy m |}
  | _ => l
  end.
Definition leaving (l : leftovers) (m : served) : served :=
  {| s_running := s_running m; s_binaries := s_binaries m; s_proxy := s_proxy m; s_pending := s_pending m; s_observed := s_observed m; s_left := l |}.
Definition allowed (e : event) (m : served) : option served := leaving (left_by e m) <$> permitted e m.
Fixpoint replay (l : list event) : option served :=
  match l with
  | [] => Some silence
  | e :: l => replay l ≫= allowed e
  end.
