(* ===== verification/CliServeProps.v ===== *)
(** * The development server never stops what it serves ([internal/cli/serve.go])

    Whatever the compiler, the processes, the file watcher, the lock and the network answer,
    the supervisor's log is accepted by [replay], and when the supervisor returns, it has told
    each process it started to stop and tried to remove each binary and to close the proxy: what
    is left over is what a call failed on. *)

From S2P Require Import Prelude GoStrings CliFiles CliFilesProps CliServe.
Local Open Scope go_scope.
Local Open Scope Z_scope.

(** ** Triples: nothing in the supervisor throws, errors are values *)

Definition wp {A} (c : M world A) (Q : A -> world -> Prop) (w : world) : Prop :=
  match c w with (Ok v, w') => Q v w' | (Err _, _) => False end.

Lemma wp_bind {A B} (c : M world A) (k : A -> M world B) Q w :
  wp c (fun v w' => wp (k v) Q w') w -> wp (bindM c k) Q w.
Proof. unfold wp, bindM. by destruct (c w) as [[v|e] w']. Qed.
Lemma wp_ret {A} (v : A) (Q : A -> world -> Prop) w : Q v w -> wp (ret v) Q w.
Proof. done. Qed.
Lemma wp_mono {A} (c : M world A) (Q Q' : A -> world -> Prop) w : wp c Q w -> (forall v w', Q v w' -> Q' v w') -> wp c Q' w.
Proof. unfold wp. destruct (c w) as [[v|e] w']; eauto. Qed.

(** ** The supervisor's state *)

Definition served_with (R : gmap nat nat) (N : gset nat) (proxy pending : option nat) (o : observed) : served :=
  {| s_running := R; s_binaries := N; s_proxy := proxy; s_pending := pending; s_observed := o; s_left := nothing_left |}.

Lemma permitted_leaving e l m : permitted e (leaving l m) = leaving l <$> permitted e m.
Proof. destruct e; cbn; repeat case_match; done. Qed.

Section Supervisor.
Context (a : answers).

(** The answers the log mentions are those that were given. *)
Definition answered (e : event) : Prop :=
  match e with
  | Stopped _ r => exists t, a_stop a t = r
  | Removed _ r => exists t, a_remove a t = r
  | ProxyClosed r => exists t, a_proxy_close a t = r
  | _ => True
  end.

(** The log is accepted and has led to [m], leftovers aside; [Bs] are the build structures.  The
    views that are pending are those of the one build that says so, which can still be rolled
    back, and the lock is held for it. *)
Record st (m : served) (Bs : gmap nat developmentBuild) (w : world) : Prop := {
  st_log : exists l, replay (log w) = Some (leaving l m);
  st_answers : Forall answered (log w);
  st_builds : builds w = Bs;
  st_pending : forall b, (exists d, Bs !! b = Some d /\ b_published d = true) <-> s_pending m = Some b;
  st_rollback : forall b d, Bs !! b = Some d -> b_published d = true -> b_rollback d = true;
  st_lock : w_lock w = bool_decide (is_Some (s_pending m));
  st_old_builds : forall b, is_Some (Bs !! b) -> (b < now w)%nat;
  st_old_binaries : forall b, b ∈ s_binaries m -> (b < now w)%nat;
  st_old_processes : forall p, is_Some (s_running m !! p) -> (p < now w)%nat
}.

Lemma replay_step e l m m' :
  (exists k, replay l = Some (leaving k m)) -> permitted e m = Some m' -> exists k, replay (e :: l) = Some (leaving k m').
Proof.
  intros [k Hl] Hp. cbn. rewrite Hl. cbn. unfold allowed. rewrite permitted_leaving, Hp. cbn. by eexists.
Qed.

Lemma wp_ask {A} (f : nat -> A) m Bs (Q : A -> world -> Prop) w :
  st m Bs w -> (forall w', st m Bs w' -> now w' = S (now w) -> Q (f (now w)) w') -> wp (ask f) Q w.
Proof.
  intros H HQ. apply HQ; [|done]. destruct H. constructor; cbn; try done; intros; (etrans; [|apply Nat.lt_succ_diag_r]); eauto.
Qed.
Lemma wp_gets {A} (f : world -> A) (Q : A -> world -> Prop) w : Q (f w) w -> wp (gets f) Q w.
Proof. done. Qed.

(** An event that leaves the transaction alone. *)
Lemma wp_emit e m m' Bs (Q : unit -> world -> Prop) w :
  st m Bs w -> permitted e m = Some m' -> s_pending m' = s_pending m /\ answered e ->
  (forall b, b ∈ s_binaries m' -> b ∈ s_binaries m) ->
  (forall p, is_Some (s_running m' !! p) -> is_Some (s_running m !! p) \/ (p < now w)%nat) ->
  (forall w', st m' Bs w' -> now w' = now w -> Q tt w') -> wp (emit e) Q w.
Proof.
  intros [] Ha [Hp He] Hb Hr HQ. apply HQ; [|done]. constructor; cbn; try done; try rewrite Hp; try done.
  - by eapply replay_step.
  - by constructor.
  - eauto.
  - intros p [|]%Hr; eauto.
Qed.

(** Views that cannot be put back: the swap fails and nothing is installed. *)
Definition views_stick : Prop := exists t e, a_swap_views a t = (false, Some e).

Definition observing (r : result sourceSnapshot) (o : observed) : observed :=
  match r with Ok s => observe s o | Err _ => o end.
Lemma wp_read R N px pd o Bs (Q : result sourceSnapshot -> world -> Prop) w :
  st (served_with R N px pd o) Bs w ->
  (forall r w', st (served_with R N px pd (observing r o)) Bs w' -> Q r w') -> wp (readDevelopmentSnapshot a) Q w.
Proof.
  intros H HQ. apply wp_bind. eapply wp_ask; [exact H|]. intros w1 H1 _. destruct (a_snapshot a (now w)) as [s|e].
  - apply wp_bind. eapply wp_emit; [exact H1|done|done|done|by left|]. intros w2 H2 _. apply wp_ret. apply (HQ (Ok s)), H2.
  - apply wp_ret, (HQ (Err e)), H1.
Qed.

(** ** The transaction of a build *)

Lemma published_pending m Bs w b :
  st m Bs w -> match builds w !! b with Some d => b_published d | None => false end = bool_decide (s_pending m = Some b).
Proof.
  intros []. rewrite st_builds0. clear st_lock0. case_bool_decide as E.
  - apply st_pending0 in E as (d & -> & ->). done.
  - destruct (Bs !! b) as [d|] eqn:Ed; [|done]. destruct (b_published d) eqn:Ep; [|done]. destruct E. apply st_pending0. by exists d.
Qed.
Lemma wp_update b f m Bs (Q : unit -> world -> Prop) w :
  st m Bs w ->
  (forall d, Bs !! b = Some d -> b_published (f d) = b_published d /\ (b_published d = true -> b_rollback (f d) = b_rollback d)) ->
  (forall w', st m (alter f b Bs) w' -> Q tt w') -> wp (update_build b f) Q w.
Proof.
  intros [] Hf HQ. apply HQ. constructor; cbn; try done; [by rewrite st_builds0| | |].
  - intros b'. rewrite <- st_pending0. destruct (decide (b' = b)) as [->|Hne]; [|by rewrite lookup_alter_ne].
    rewrite lookup_alter_eq. destruct (Bs !! b) as [d|]; cbn; [|by split; intros (? & ? & _)].
    destruct (Hf d eq_refl) as [E _]. split; intros (d' & [= <-] & Hd'); eexists; (split; [done|congruence]).
  - intros b' d'. destruct (decide (b' = b)) as [->|Hne]; [|rewrite lookup_alter_ne by done; apply st_rollback0].
    rewrite lookup_alter_eq. destruct (Bs !! b) as [d|] eqn:Ed; cbn; [|done]. intros [= <-]. destruct (Hf d eq_refl) as [E1 E2].
    rewrite E1. intros Hp. rewrite E2 by done. by apply (st_rollback0 b).
  - intros b' Hb. apply st_old_builds0. destruct (decide (b' = b)) as [->|Hne]; [|by rewrite lookup_alter_ne in Hb].
    rewrite lookup_alter_eq in Hb. by destruct (Bs !! b).
Qed.

(** The views of [b] are withdrawn or become final; the lock goes with them. *)
Lemma wp_release {A} e b m m' Bs (k : M world A) (Q : A -> world -> Prop) w :
  st m Bs w -> s_pending m = Some b -> permitted e m = Some m' ->
  s_pending m' = None /\ answered e -> s_binaries m' = s_binaries m -> s_running m' = s_running m ->
  (forall w', st m' (alter (set_published false) b Bs) w' -> wp k Q w') ->
  wp (do! update_build b (set_published false) in do! set_lock false in do! emit e in k) Q w.
Proof.
  intros [] Hb Ha [Hp He] HN HR HQ. apply HQ.
  constructor; cbn; try done; [by eapply replay_step|by constructor|by rewrite st_builds0| | |by rewrite Hp| | |].
  - intros b'. rewrite Hp. split; [|done]. intros (d & Hd & Hpd). exfalso. destruct (decide (b' = b)) as [->|Hne].
    + rewrite lookup_alter_eq in Hd. destruct (Bs !! b); cbn in Hd; simplify_eq; done.
    + rewrite lookup_alter_ne in Hd by done. assert (s_pending m = Some b') by (apply st_pending0; by exists d). congruence.
  - intros b' d. destruct (decide (b' = b)) as [->|Hne]; [|rewrite lookup_alter_ne by done; apply st_rollback0].
    rewrite lookup_alter_eq. destruct (Bs !! b); cbn; [|done]. by intros [= <-].
  - intros b' Hb'. apply st_old_builds0. destruct (decide (b' = b)) as [->|Hne]; [|by rewrite lookup_alter_ne in Hb'].
    rewrite lookup_alter_eq in Hb'. by destruct (Bs !! b).
  - by rewrite HN.
  - by rewrite HR.
Qed.

Definition undo (b : nat) (pd pd' : option nat) : Prop := pd' = pd \/ pd = Some b /\ pd' = None.
Definition same_except (b : nat) (Bs Bs' : gmap nat developmentBuild) : Prop := forall b', b' <> b -> Bs' !! b' = Bs !! b'.
Lemma same_except_alter b f Bs : same_except b Bs (alter f b Bs).
Proof. intros b' Hne. by rewrite lookup_alter_ne. Qed.
Lemma same_except_trans b Bs1 Bs2 Bs3 : same_except b Bs1 Bs2 -> same_except b Bs2 Bs3 -> same_except b Bs1 Bs3.
Proof. intros H1 H2 b' Hne. rewrite H2, H1; done. Qed.
Lemma undo_trans b pd1 pd2 pd3 : undo b pd1 pd2 -> undo b pd2 pd3 -> undo b pd1 pd3.
Proof. unfold undo. naive_solver. Qed.

(** Only the views of [b], and its structure, may have changed; when the rollback has worked,
    or can work, they are no longer pending. *)
Definition undone (b : nat) R N px pd o Bs (e : option error) (w : world) : Prop :=
  exists pd' Bs', st (served_with R N px pd' o) Bs' w /\ undo b pd pd' /\ same_except b Bs Bs'
    /\ (e = None \/ ~ views_stick -> pd' <> Some b).

Lemma run_rollback_spec b R N px pd o Bs w :
  st (served_with R N px pd o) Bs w -> wp (run_rollback a b) (undone b R N px pd o Bs) w.
Proof.
  intros H. apply wp_bind, wp_gets. rewrite (published_pending _ _ _ b H). cbn [s_pending served_with]. case_bool_decide as E.
  2: { apply wp_ret. exists pd, Bs. split_and!; [done|by left|done|done]. }
  apply wp_bind. eapply wp_ask; [exact H|]. intros w1 H1 _. destruct (a_swap_views a (now w)) as [restored e] eqn:Ev.
  destruct (restored || negb (failed e)) eqn:Eok.
  - eapply wp_release; [exact H1|exact E|cbn; rewrite bool_decide_eq_true_2 by done; reflexivity|done|done|done|].
    intros w2 H2. apply wp_bind. eapply wp_ask; [exact H2|]. intros w3 H3 _. apply wp_ret.
    exists None, (alter (set_published false) b Bs). split_and!; [exact H3|by right|apply same_except_alter|done].
  - apply wp_ret. exists pd, Bs. split_and!; [done|by left|done|]. intros [->|Hs]; [by destruct restored|].
    destruct Hs. destruct restored, e; try done. by exists (now w), e.
Qed.
Lemma rollback_spec b R N px pd o Bs w :
  st (served_with R N px pd o) Bs w -> wp (rollbackDevelopmentBuild a b) (undone b R N px pd o Bs) w.
Proof.
  intros H. apply wp_bind, wp_gets. destruct (builds w !! b) as [d|] eqn:Ed.
  - destruct (b_rollback d) eqn:Er.
    + apply wp_bind. eapply wp_mono; [by apply run_rollback_spec|]. intros [e|] w1 (pd' & Bs' & H1 & Hu & Hs & Hp).
      * apply wp_ret. by exists pd', Bs'.
      * apply wp_bind. eapply wp_update; [exact H1| |].
        { intros d' Hd'. split; [done|]. intros Hpub. exfalso. apply Hp; [by left|]. apply (st_pending _ _ _ H1). by exists d'. }
        intros w2 H2. apply wp_ret. exists pd', (alter clear_rollback b Bs'). split_and!; [done|done| |done].
        eapply same_except_trans; [exact Hs|apply same_except_alter].
    + apply wp_ret. exists pd, Bs. split_and!; [done|by left|done|]. intros _ ->. rewrite (st_builds _ _ _ H) in Ed.
      destruct (proj2 (st_pending _ _ _ H b) eq_refl) as (d' & Hd' & Hpub). assert (d' = d) as -> by congruence. by rewrite (st_rollback _ _ _ H b d Hd' Hpub) in Er.
  - apply wp_ret. exists pd, Bs. split_and!; [done|by left|done|]. intros _ ->. rewrite (st_builds _ _ _ H) in Ed.
    destruct (proj2 (st_pending _ _ _ H b) eq_refl) as (d' & Hd' & _). congruence.
Qed.
Lemma retry_spec n b last R N px pd o Bs w :
  st (served_with R N px pd o) Bs w -> (last = None -> pd = Some b -> False) \/ (0 < n)%nat ->
  (n = O -> ~ views_stick -> pd <> Some b) ->
  wp (retry_rollback a n b last) (undone b R N px pd o Bs) w.
Proof.
  revert last pd Bs w. induction n as [|n IH]; intros last pd Bs w H Hlast Hn; cbn [retry_rollback].
  { apply wp_ret. exists pd, Bs. split_and!; [done|by left|done|]. intros [E|E]; [|by apply Hn]. intros Hp. destruct Hlast; [eauto|lia]. }
  apply wp_bind. eapply wp_mono; [by apply rollback_spec|]. intros [e|] w1 (pd' & Bs' & H1 & Hu & Hs & Hp); [|apply wp_ret; by exists pd', Bs'].
  eapply wp_mono; [apply (IH (Some e) pd' Bs' w1 H1); [by left|auto]|]. intros e2 w2 (pd2 & Bs2 & H2 & Hu2 & Hs2 & Hp2).
  exists pd2, Bs2. split_and!; [done|by eapply undo_trans|by eapply same_except_trans|done].
Qed.

Lemma errors_Join_None e e' : errors_Join e e' = None -> e = None /\ e' = None.
Proof. by destruct e, e'. Qed.

Lemma discard_spec b R N px pd o Bs w :
  st (served_with R N px pd o) Bs w -> b ∈ N -> (forall p b', R !! p = Some b' -> b' <> b) ->
  wp (discardDevelopmentBuild a b) (undone b R (N ∖ {[b]}) px pd o Bs) w.
Proof.
  intros H Hb HR. apply wp_bind. eapply wp_mono; [apply (retry_spec 3 b None _ _ _ _ _ _ _ H); [right; lia|done]|].
  intros e w1 (pd' & Bs' & H1 & Hu & Hs & Hp). apply wp_bind. eapply wp_ask; [exact H1|]. intros w2 H2 _. apply wp_bind.
  eapply (wp_emit _ _ (served_with R (N ∖ {[b]}) px pd' o)); [exact H2| |split; [done|by eexists]|cbn; set_solver|by left|].
  { cbn. rewrite !bool_decide_eq_true_2; [done| |done]. intros p b' Hp'. by eapply HR. }
  intros w3 H3 _. apply wp_ret.
  exists pd', Bs'. split_and!; [done..|]. intros [[He _]%errors_Join_None|He]; apply Hp; auto.
Qed.

(** A candidate goes: its process, unless the proxy leads to it, its views and its binary. *)
Definition runs_alone (R : gmap nat nat) (c : developmentCandidate) : Prop :=
  R !! c_process c = Some (c_build c) /\ forall p b, delete (c_process c) R !! p = Some b -> b <> c_build c.
Lemma cleanup_spec c R N px pd o Bs w :
  st (served_with R N px pd o) Bs w -> runs_alone R c -> px <> Some (c_process c) -> c_build c ∈ N ->
  wp (cleanupDevelopmentCandidate a c) (undone (c_build c) (delete (c_process c) R) (N ∖ {[c_build c]}) px pd o Bs) w.
Proof.
  intros H [HR Hother] Hpx Hb. apply wp_bind. eapply wp_ask; [exact H|]. intros w1 H1 _. apply wp_bind.
  eapply (wp_emit _ _ (served_with (delete (c_process c) R) N px pd o)); [exact H1| |split; [done|by eexists]|done| |].
  { cbn. rewrite bool_decide_eq_true_2 by by eexists. by rewrite bool_decide_eq_false_2. }
  { cbn. intros p [b [_ Hp]%lookup_delete_Some]. left. by eexists. }
  intros w2 H2 _. apply wp_bind.
  eapply wp_mono; [by eapply discard_spec|]. intros e w3 (pd' & Bs' & H3 & Hu & Hs & Hp). apply wp_ret.
  exists pd', Bs'. split_and!; [done..|]. intros [[_ He]%errors_Join_None|He]; apply Hp; [left|by right]. by destruct e.
Qed.

(** A build whose views can be published, withdrawn and made final. *)
Definition ready (Bs : gmap nat developmentBuild) (b : nat) : Prop := exists d, Bs !! b = Some d /\ b_rollback d = true /\ b_finalize d = true.

Lemma st_publish b R N px o Bs w :
  st (served_with R N px None o) Bs w -> ready Bs b ->
  st (served_with R N px (Some b) o) (alter (set_published true) b Bs)
     {| now := now w; log := Published b :: log w; builds := alter (set_published true) b (builds w); w_lock := true |}.
Proof.
  intros [] (d & Hd & Hr & Hf).
  constructor; cbn; try done; [by eapply (replay_step (Published b))|by constructor|by rewrite st_builds0| | |].
  - intros b'. destruct (decide (b' = b)) as [->|Hne].
    + rewrite lookup_alter_eq, Hd. cbn. split; [done|]. intros _. by eexists.
    + rewrite lookup_alter_ne by done. rewrite st_pending0. cbn. split; congruence.
  - intros b' d'. destruct (decide (b' = b)) as [->|Hne]; [|rewrite lookup_alter_ne by done; apply st_rollback0].
    rewrite lookup_alter_eq, Hd. cbn. by intros [= <-].
  - intros b' Hb'. apply st_old_builds0. destruct (decide (b' = b)) as [->|Hne]; [by rewrite Hd|by rewrite lookup_alter_ne in Hb'].
Qed.
Lemma ready_alter f b b' Bs : (forall d, b_rollback (f d) = b_rollback d /\ b_finalize (f d) = b_finalize d) -> ready Bs b -> ready (alter f b' Bs) b.
Proof.
  intros Hf (d & Hd & Hr & Hfi). destruct (Hf d) as [E1 E2]. destruct (decide (b = b')) as [<-|Hne].
  - exists (f d). rewrite lookup_alter_eq, Hd. split; [done|]. by rewrite E1, E2.
  - exists d. by rewrite lookup_alter_ne.
Qed.
Lemma stays_ready b b' Bs Bs' : ready Bs b -> same_except b' Bs Bs' -> b <> b' -> ready Bs' b.
Proof. intros (d & Hd & Hr) Hs Hne. exists d. by rewrite Hs. Qed.

Lemma publish_spec b R N px o Bs w :
  st (served_with R N px None o) Bs w -> ready Bs b ->
  wp (publishDevelopmentBuild a b)
     (fun _ w' => exists pd Bs', st (served_with R N px pd o) Bs' w' /\ (pd = None \/ pd = Some b) /\ same_except b Bs Bs' /\ ready Bs' b) w.
Proof.
  intros H Hready. apply wp_bind, wp_gets.
  destruct (match builds w !! b with Some d => b_publish d | None => false end);
    [|apply wp_ret; exists None, Bs; split_and!; [done|by left|done|done]].
  apply wp_bind. eapply wp_mono with (Q := fun _ w' => exists pd Bs', st (served_with R N px pd o) Bs' w' /\ (pd = None \/ pd = Some b) /\ same_except b Bs Bs' /\ ready Bs' b).
  - apply wp_bind, wp_gets. rewrite (published_pending _ _ _ b H). cbn [s_pending served_with]. rewrite bool_decide_eq_false_2 by done.
    apply wp_bind, wp_gets. apply wp_bind. eapply wp_ask; [exact H|]. intros w1 H1 _.
    rewrite (st_lock _ _ _ H), bool_decide_eq_false_2 by (by intros []).
    destruct (a_lock a (now w)); [apply wp_ret; exists None, Bs; split_and!; [done|by left|done|done]|].
    apply wp_bind. eapply wp_ask; [exact H1|]. intros w2 H2 _. destruct (a_swap_views a (now w1)) as [[|] e].
    + exists (Some b), (alter (set_published true) b Bs). split_and!; [exact (st_publish b R N px o Bs w2 H2 Hready)|by right|apply same_except_alter|by apply ready_alter].
    + apply wp_bind. eapply wp_ask; [exact H2|]. intros w3 H3 _. apply wp_ret. exists None, Bs. split_and!; [done|by left|done|done].
  - intros [e|] w1 (pd & Bs' & H1 & Hpd & Hs & Hr); [apply wp_ret; by exists pd, Bs'|].
    apply wp_bind. eapply wp_update; [exact H1|done|]. intros w2 H2. apply wp_ret. exists pd, (alter clear_publish b Bs').
    split_and!; [done|done| |by apply ready_alter]. eapply same_except_trans; [exact Hs|apply same_except_alter].
Qed.

Lemma commit_spec b p R N pd s Bs w :
  st (served_with R N (Some p) pd (Only s)) Bs w -> R !! p = Some b -> pd = None \/ pd = Some b -> ready Bs b ->
  wp (commitDevelopmentBuild a b) (fun _ w' => exists Bs', st (served_with R N (Some p) None (Only s)) Bs' w' /\ same_except b Bs Bs') w.
Proof.
  intros H HR Hpd (d & Hd & Hr & Hf). apply wp_bind, wp_gets. rewrite (st_builds _ _ _ H), Hd, Hf.
  apply wp_bind. eapply wp_mono with (Q := fun _ w' => exists Bs', st (served_with R N (Some p) None (Only s)) Bs' w' /\ same_except b Bs Bs').
  - apply wp_bind, wp_gets. rewrite (published_pending _ _ _ b H). cbn [s_pending served_with]. case_bool_decide as E.
    + eapply (wp_release _ _ _ (served_with R N (Some p) None (Only s))); [exact H|exact E| |done|done|done|]; [cbn|].
      { rewrite !bool_decide_eq_true_2 by done. reflexivity. }
      intros w1 H1. eapply wp_ask; [exact H1|]. intros w2 H2 _. eexists. split; [exact H2|apply same_except_alter].
    + apply wp_ret. destruct Hpd as [->|]; [|done]. by exists Bs.
  - intros [e|] w1 (Bs' & H1 & Hs); [apply wp_ret; by exists Bs'|]. apply wp_bind. eapply wp_update; [exact H1| |].
    { intros d' Hd'. split; [done|]. intros Hpub. exfalso. assert (None = Some b) by (apply (st_pending _ _ _ H1); by exists d'). done. }
    intros w2 H2. apply wp_ret. eexists. split; [exact H2|]. eapply same_except_trans; [exact Hs|apply same_except_alter].
Qed.

(** ** One round of a build *)

Lemma build_binary_spec R N px o Bs w :
  st (served_with R N px None o) Bs w ->
  wp (build_binary a) (fun r w' =>
    match r with
    | Err _ => st (served_with R N px None Nothing) Bs w'
    | Ok b => exists Bs', st (served_with R ({[b]} ∪ N) px None Nothing) Bs' w' /\ b ∉ N /\ ready Bs' b
    end) w.
Proof.
  intros H. apply wp_bind. eapply (wp_emit _ _ (served_with R N px None Nothing)); [exact H|done|done|done|by left|].
  intros w1 H1 E1. apply wp_bind, wp_gets. apply wp_bind. eapply wp_ask; [exact H1|]. intros w2 H2 E2.
  destruct (a_build a (now w1)); [by apply wp_ret|]. unfold wp.
  assert (now w1 ∉ N) as HN. { intros Hin. apply (st_old_binaries _ _ _ H1) in Hin. lia. }
  assert (Bs !! now w1 = None) as HB. { apply eq_None_not_Some. intros Hin. apply (st_old_builds _ _ _ H1) in Hin. lia. }
  exists (<[now w1 := {| b_publish := true; b_rollback := true; b_finalize := true; b_published := false |}]> Bs). split_and!; [|done|].
  2: { eexists. rewrite lookup_insert_eq. by split_and!. }
  destruct H2. constructor; cbn; [|by constructor|by rewrite st_builds0| | |done| | |].
  - eapply (replay_step (Built (now w1))); [done|]. cbn. by rewrite bool_decide_eq_false_2.
  - intros b. destruct (decide (b = now w1)) as [->|Hne].
    + rewrite lookup_insert_eq. split; [by intros (d & [= <-] & ?)|done].
    + rewrite lookup_insert_ne by done. apply st_pending0.
  - intros b d [[<- <-]|[Hne Hd]]%lookup_insert_Some; [done|]. by apply (st_rollback0 b).
  - intros b Hb. destruct (decide (b = now w1)) as [->|Hne]; [lia|]. rewrite lookup_insert_ne in Hb by done. by apply st_old_builds0.
  - intros b [->%elem_of_singleton|Hb]%elem_of_union; [lia|]. by apply st_old_binaries0.
  - apply st_old_processes0.
Qed.

(** The place where a build runs: what is there already, and nothing is pending. *)
Section Round.
Context (R : gmap nat nat) (N : gset nat) (px : option nat).
Context (HN : forall p b, R !! p = Some b -> b ∈ N) (Hpx : forall p, px = Some p -> is_Some (R !! p)).

Definition unchanged (w : world) : Prop := exists o Bs, st (served_with R N px None o) Bs w.
Definition with_candidate (r : developmentBuildResult) (pd : option nat) (px' : option nat) (o : observed) (w : world) : Prop :=
  let c := r_candidate r in
  exists Bs, st (served_with (<[c_process c := c_build c]> R) ({[c_build c]} ∪ N) px' pd o) Bs w
    /\ R !! c_process c = None /\ c_build c ∉ N /\ ready Bs (c_build c) /\ (pd = None \/ pd = Some (c_build c)).
(** The candidate has gone; its views remain only when they could not be put back. *)
Definition gone (b : nat) (e : option error) (w : world) : Prop :=
  exists o pd Bs, st (served_with R N px pd o) Bs w /\ (pd = None \/ pd = Some b) /\ (e = None \/ ~ views_stick -> pd = None).

Lemma with_candidate_alone r : R !! c_process (r_candidate r) = None -> c_build (r_candidate r) ∉ N ->
  runs_alone (<[c_process (r_candidate r) := c_build (r_candidate r)]> R) (r_candidate r).
Proof.
  intros Hp Hb. split; [apply lookup_insert_eq|]. intros p b. rewrite delete_insert_id by done. intros Hin ->. apply Hb. by eapply HN.
Qed.
Lemma undone_gone c pd o Bs (e : option error) w :
  R !! c_process c = None -> c_build c ∉ N -> pd = None \/ pd = Some (c_build c) ->
  undone (c_build c) (delete (c_process c) (<[c_process c := c_build c]> R)) (({[c_build c]} ∪ N) ∖ {[c_build c]}) px pd o Bs e w ->
  gone (c_build c) e w.
Proof.
  intros Hp Hb Hpd (pd' & Bs' & H & Hu & Hs & He). rewrite delete_insert_id in H by done.
  assert (({[c_build c]} ∪ N) ∖ {[c_build c]} = N) as E by (apply set_eq; set_solver). rewrite E in H.
  exists o, pd', Bs'. split; [done|]. assert (pd' = None \/ pd' = Some (c_build c)) as Hpd' by (destruct Hu as [->|[_ ->]]; auto).
  split; [done|]. intros Hor. destruct Hpd' as [|Hpd']; [done|]. by destruct (He Hor).
Qed.
Lemma cleanup_gone r pd o w :
  with_candidate r pd px o w -> wp (cleanupDevelopmentCandidate a (r_candidate r)) (gone (c_build (r_candidate r))) w.
Proof.
  intros (Bs & H & Hp & Hb & Hr & Hpd). eapply wp_mono.
  - eapply cleanup_spec; [exact H|by apply with_candidate_alone| |set_solver]. intros E. apply Hpx in E. rewrite Hp in E. by destruct E.
  - intros e w1. by eapply undone_gone.
Qed.
Lemma gone_unchanged b w : gone b None w -> unchanged w.
Proof. intros (o & pd & Bs & H & Hpd & He). rewrite (He (or_introl eq_refl)) in H. by exists o, Bs. Qed.

Lemma union_difference_new (b : nat) : b ∉ N -> ({[b]} ∪ N) ∖ {[b]} = N.
Proof. intros Hb. apply set_eq. set_solver. Qed.
Lemma undo_None b pd : undo b None pd -> pd = None.
Proof. intros [|[]]; done. Qed.

Definition new_binary (b : nat) (o : observed) (w : world) : Prop :=
  exists Bs, st (served_with R ({[b]} ∪ N) px None o) Bs w /\ b ∉ N /\ ready Bs b.
Lemma discard_unchanged b o w : new_binary b o w -> wp (discardDevelopmentBuild a b) (fun _ => unchanged) w.
Proof.
  intros (Bs & H & Hb & _). eapply wp_mono; [eapply discard_spec; [exact H|set_solver|]|].
  - intros p b' Hp ->. apply Hb. by eapply HN.
  - intros e w1 (pd & Bs' & H1 & ->%undo_None & _). rewrite union_difference_new in H1 by done. by exists o, Bs'.
Qed.
Lemma cleanup_unchanged r o w : with_candidate r None px o w -> wp (cleanupDevelopmentCandidate a (r_candidate r)) (fun _ => unchanged) w.
Proof.
  intros (Bs & H & Hp & Hb & Hr & Hpd). eapply wp_mono.
  - eapply cleanup_spec; [exact H|by apply with_candidate_alone| |set_solver]. intros E. apply Hpx in E. rewrite Hp in E. by destruct E.
  - intros e w1 (pd & Bs' & H1 & ->%undo_None & _). rewrite union_difference_new, delete_insert_id in H1 by done. by exists o, Bs'.
Qed.

Definition after_round (r : round) (w : world) : Prop :=
  match r with
  | Candidate r => with_candidate r None px (Only (r_snapshot r)) w
  | _ => unchanged w
  end.
Lemma stabilize_again_spec current w : unchanged w -> wp (stabilize_again a current) after_round w.
Proof.
  intros (o & Bs & H). apply wp_bind. eapply wp_ask; [exact H|]. intros w1 H1 _.
  destruct (a_stabilize a (now w)); apply wp_ret; by exists o, Bs.
Qed.
Lemma unchanged_ask {A} (f : nat -> A) (Q : A -> world -> Prop) w :
  unchanged w -> (forall v w', unchanged w' -> Q v w') -> wp (ask f) Q w.
Proof. intros (o & Bs & H) HQ. eapply wp_ask; [exact H|]. intros w1 H1 _. apply HQ. by exists o, Bs. Qed.
Lemma unchanged_read (Q : result sourceSnapshot -> world -> Prop) w :
  unchanged w -> (forall v w', unchanged w' -> Q v w') -> wp (readDevelopmentSnapshot a) Q w.
Proof. intros (o & Bs & H) HQ. eapply wp_read; [exact H|]. intros r w1 H1. apply HQ. by eexists _, Bs. Qed.

(** After the build: its binary is there, or nothing is. *)
Definition holding (b : result nat) (o : observed) (w : world) : Prop :=
  match b with Ok b => new_binary b o w | Err _ => exists Bs, st (served_with R N px None o) Bs w end.
Lemma holding_ask {A} (f : nat -> A) b o (Q : A -> world -> Prop) w :
  holding b o w -> (forall v w', holding b o w' -> Q v w') -> wp (ask f) Q w.
Proof.
  intros Hw HQ. destruct b as [b|e]; destruct Hw as [Bs Hw]; [destruct Hw as [Hw Hrest]|];
    (eapply wp_ask; [exact Hw|]; intros w' Hw' _; apply HQ; by exists Bs).
Qed.
Lemma holding_read b o (Q : result sourceSnapshot -> world -> Prop) w :
  holding b o w -> (forall r w', holding b (observing r o) w' -> Q r w') -> wp (readDevelopmentSnapshot a) Q w.
Proof.
  intros Hw HQ. destruct b as [b|e]; destruct Hw as [Bs Hw]; [destruct Hw as [Hw Hrest]|];
    (eapply wp_read; [exact Hw|]; intros r w' Hw'; apply HQ; by exists Bs).
Qed.
Lemma holding_discard b o w : holding b o w -> wp (discard_if a b) (fun _ => unchanged) w.
Proof. destruct b as [b|e]; cbn [discard_if holding]; [apply discard_unchanged|]. intros [Bs H]. by exists o, Bs. Qed.

Lemma start_failed_spec input current g b e o w : new_binary b o w -> wp (start_failed a input current g b e) after_round w.
Proof.
  intros H. apply wp_bind. eapply wp_mono; [by eapply discard_unchanged|]. intros e1 w1 H1. apply wp_bind.
  apply unchanged_ask; [done|]. intros [e2|] w2 H2; [by apply wp_ret|]. apply wp_bind. apply unchanged_read; [done|].
  intros [latest|e3] w3 H3; [|by apply wp_ret]. apply wp_bind. apply unchanged_ask; [done|]. intros g' w4 H4.
  case_match; [by apply stabilize_again_spec|by apply wp_ret].
Qed.
Lemma confirm_candidate_spec input g c w :
  with_candidate {| r_candidate := c; r_snapshot := input; r_generation := g |} None px (Only input) w ->
  wp (confirm_candidate a input input g c) after_round w.
Proof.
  intros (Bs & H & Hrest). apply wp_bind. eapply wp_read; [exact H|]. intros [latest|e] w1 H1; cbn [observing observe] in H1.
  2: { apply wp_bind. eapply wp_mono; [eapply (cleanup_unchanged {| r_candidate := c; r_snapshot := input; r_generation := g |}); by exists Bs|].
       intros e1 w2 H2. by apply wp_ret. }
  apply wp_bind. eapply wp_ask; [exact H1|]. intros w2 H2 _.
  destruct (negb (bool_decide (latest = input)) || negb (a_generation a (now w1) =? g)) eqn:Est.
  - apply wp_bind. eapply wp_mono; [eapply (cleanup_unchanged {| r_candidate := c; r_snapshot := input; r_generation := g |}); by exists Bs|].
    intros [e1|] w3 H3; [by apply wp_ret|by apply stabilize_again_spec].
  - apply orb_false_iff in Est as [->%negb_false_iff%bool_decide_eq_true _]. rewrite bool_decide_eq_true_2 in H2 by done.
    apply wp_bind. eapply wp_ask; [exact H2|]. intros w3 H3 _. apply wp_ret. by exists Bs.
Qed.

Lemma start_process_spec b o w :
  new_binary b o w ->
  wp (start_process a b) (fun r w' =>
    match r with
    | Err _ => new_binary b o w'
    | Ok c => c_build c = b /\ forall s g, with_candidate {| r_candidate := c; r_snapshot := s; r_generation := g |} None px o w'
    end) w.
Proof.
  intros (Bs & H & Hb & Hr). apply wp_bind, wp_gets. apply wp_bind. eapply wp_ask; [exact H|]. intros w1 H1 E1.
  destruct (a_start a (now w)) as [target|e]; [|apply wp_ret; by exists Bs].
  assert (R !! now w = None) as HR. { apply eq_None_not_Some. intros Hin. apply (st_old_processes _ _ _ H) in Hin. lia. }
  apply wp_bind. eapply (wp_emit _ _ (served_with (<[now w := b]> R) ({[b]} ∪ N) px None o)); [exact H1| |done|done| |].
  { cbn. rewrite !bool_decide_eq_true_2 by (done || set_solver). done. }
  { cbn. intros p Hp. destruct (decide (p = now w)) as [->|Hne]; [right; lia|left]. by rewrite lookup_insert_ne in Hp. }
  intros w2 H2 _. apply wp_ret. split; [done|]. intros s g. exists Bs. cbn. split_and!; [done..|by left].
Qed.

Lemma round_spec input w : unchanged w -> wp (buildStableDevelopmentCandidate a input) after_round w.
Proof.
  intros H0. apply wp_bind. apply unchanged_ask; [done|]. intros g0 w1 (o & Bs & H). apply wp_bind.
  eapply wp_mono with (Q := fun b => holding b Nothing).
  { eapply wp_mono; [by eapply build_binary_spec|]. intros [b|e] w2 H2; [done|by exists Bs]. }
  intros b w2 H2. apply wp_bind. eapply holding_ask; [exact H2|]. intros [e|] w3 H3.
  { apply wp_bind. eapply wp_mono; [by eapply holding_discard|]. intros e1 w4 H4. by apply wp_ret. }
  apply wp_bind. eapply holding_read; [exact H3|]. intros [current|e] w4 H4; cbn [observing observe] in H4.
  2: { apply wp_bind. eapply wp_mono; [by eapply holding_discard|]. intros e1 w5 H5. by apply wp_ret. }
  apply wp_bind. eapply holding_ask; [exact H4|]. intros g w5 H5.
  destruct (negb (bool_decide (current = input)) || negb (g =? g0)) eqn:Est.
  { apply wp_bind. eapply wp_mono; [by eapply holding_discard|]. intros [e1|] w6 H6; [by apply wp_ret|by apply stabilize_again_spec]. }
  apply orb_false_iff in Est as [->%negb_false_iff%bool_decide_eq_true _].
  destruct b as [b|e]; [|apply wp_ret; destruct H5 as [Bs' H5]; by eexists _, Bs']. apply wp_bind. eapply wp_mono; [apply (start_process_spec b (Only input)), H5|].
  intros [c|e] w6 H6; [|by eapply start_failed_spec]. destruct H6 as [_ H6]. apply confirm_candidate_spec, H6.
Qed.

(** Questions do not change what runs. *)
Lemma candidate_ask {A} (f : nat -> A) r pd px' o (Q : A -> world -> Prop) w :
  with_candidate r pd px' o w -> (forall v w', with_candidate r pd px' o w' -> Q v w') -> wp (ask f) Q w.
Proof. intros (Bs & H & Hrest) HQ. eapply wp_ask; [exact H|]. intros w1 H1 _. apply HQ. by exists Bs. Qed.
Lemma candidate_read r pd px' o (Q : result sourceSnapshot -> world -> Prop) w :
  with_candidate r pd px' o w -> (forall v w', with_candidate r pd px' (observing v o) w' -> Q v w') -> wp (readDevelopmentSnapshot a) Q w.
Proof. intros (Bs & H & Hrest) HQ. eapply wp_read; [exact H|]. intros v w1 H1. apply HQ. by exists Bs. Qed.
(** Staleness: when it is ruled out, the source is still the one observed. *)
Definition current (latest : result sourceSnapshot) (stale : bool) : bool := match latest, stale with Ok _, false => true | _, _ => false end.
Lemma candidate_check r pd px' (k : result sourceSnapshot -> bool -> M world phase) P w :
  with_candidate r pd px' (Only (r_snapshot r)) w ->
  (forall latest stale o w', with_candidate r pd px' o w' -> (current latest stale = true -> o = Only (r_snapshot r)) -> wp (k latest stale) P w') ->
  wp (let! latest := readDevelopmentSnapshot a in
      let! stale := match latest with Ok l => is_stale a r l | Err _ => ret false end in k latest stale) P w.
Proof.
  intros H HQ. apply wp_bind. eapply candidate_read; [exact H|]. intros [latest|e] w1 H1; cbn [observing] in H1; apply wp_bind;
    [|apply wp_ret; by eapply HQ].
  apply wp_bind. eapply candidate_ask; [exact H1|]. intros g w2 H2. apply wp_ret. eapply HQ; [exact H2|].
  destruct (_ || _) eqn:Es; [done|]. intros _. apply orb_false_iff in Es as [Es _]. apply negb_false_iff, bool_decide_eq_true in Es as ->.
  cbn. by rewrite bool_decide_eq_true_2.
Qed.
Lemma candidate_publish r px' o w :
  with_candidate r None px' o w -> wp (publishDevelopmentBuild a (c_build (r_candidate r))) (fun _ w' => exists pd, with_candidate r pd px' o w') w.
Proof.
  intros (Bs & H & Hp & Hb & Hr & _). eapply wp_mono; [by eapply publish_spec|].
  intros e w1 (pd & Bs' & H1 & Hpd & _ & Hr1). exists pd, Bs'. by split_and!.
Qed.
Lemma candidate_swap r pd px' o (Q : option error -> world -> Prop) w :
  with_candidate r pd px' o w -> is_Some px' ->
  (forall e, with_candidate r pd px' o w -> Q (Some e) w) ->
  (forall w' u, normalizeServeProxyTarget (c_target (r_candidate r)) = Ok u -> with_candidate r pd (Some (c_process (r_candidate r))) o w' -> Q None w') ->
  wp (SwapTarget (r_candidate r)) Q w.
Proof.
  intros H Hpx' He Hq. unfold SwapTarget. destruct (normalizeServeProxyTarget (c_target (r_candidate r))) as [u|e]; [|by apply wp_ret, He].
  destruct H as (Bs & H & Hp & Hrest). apply wp_bind. eapply (wp_emit _ _ (served_with (<[c_process (r_candidate r) := c_build (r_candidate r)]> R) ({[c_build (r_candidate r)]} ∪ N) (Some (c_process (r_candidate r))) pd o)); [exact H| |done|done|by left|].
  { cbn. rewrite !bool_decide_eq_true_2; [done|by rewrite lookup_insert_eq|done]. }
  intros w1 H1 _. apply wp_ret. eapply Hq; [done|]. by exists Bs.
Qed.
Lemma candidate_open r pd o (Q : option error -> world -> Prop) w :
  with_candidate r pd None o w ->
  (forall e w', with_candidate r pd None o w' -> Q (Some e) w') ->
  (forall w' u, normalizeServeProxyTarget (c_target (r_candidate r)) = Ok u -> with_candidate r pd (Some (c_process (r_candidate r))) o w' -> Q None w') ->
  wp (startProxy a (r_candidate r)) Q w.
Proof.
  intros H He Hq. unfold startProxy. destruct (normalizeServeProxyTarget (c_target (r_candidate r))) as [u|e]; [|by apply wp_ret, He].
  apply wp_bind. eapply candidate_ask; [exact H|]. intros [e|] w1 H1; [by apply wp_ret, He|].
  destruct H1 as (Bs & H1 & Hp & Hrest). apply wp_bind. eapply (wp_emit _ _ (served_with (<[c_process (r_candidate r) := c_build (r_candidate r)]> R) ({[c_build (r_candidate r)]} ∪ N) (Some (c_process (r_candidate r))) pd o)); [exact H1| |done|done|by left|].
  { cbn. by rewrite bool_decide_eq_true_2 by (by rewrite lookup_insert_eq). }
  intros w2 H2 _. apply wp_ret. eapply Hq; [done|]. by exists Bs.
Qed.
Lemma candidate_close r pd q o w :
  with_candidate r pd (Some q) o w -> wp (close_proxy a) (fun _ => with_candidate r pd None o) w.
Proof.
  intros (Bs & H & Hrest). apply wp_bind. eapply wp_ask; [exact H|]. intros w1 H1 _. apply wp_bind.
  eapply (wp_emit _ _ (served_with (<[c_process (r_candidate r) := c_build (r_candidate r)]> R) ({[c_build (r_candidate r)]} ∪ N) None pd o));
    [exact H1|done|split; [done|by eexists]|done|by left|].
  intros w2 H2 _. apply wp_ret. by exists Bs.
Qed.
End Round.

(** ** The phases *)

Definition ended (w : world) : Prop := exists o pd Bs, st (served_with ∅ ∅ None pd o) Bs w /\ (~ views_stick -> pd = None).
(** The proxy leads to [c], the only process; views are pending only for it, or because they stick. *)
Definition serving (c : developmentCandidate) (w : world) : Prop :=
  exists o pd Bs, st (served_with {[c_process c := c_build c]} {[c_build c]} (Some (c_process c)) pd o) Bs w
    /\ (~ views_stick -> pd = None \/ pd = Some (c_build c)).

Lemma finish_spec c e w : serving c w -> wp (finish a c e) (fun ph w' => (exists e', ph = Finished e') /\ ended w') w.
Proof.
  intros (o & pd & Bs & H & Hpd). apply wp_bind, wp_bind. eapply wp_ask; [exact H|]. intros w1 H1 _. apply wp_bind.
  eapply (wp_emit _ _ (served_with {[c_process c := c_build c]} {[c_build c]} None pd o)); [exact H1|done|split; [done|by eexists]|done|by left|].
  intros w2 H2 _. apply wp_ret. apply wp_bind. eapply wp_mono.
  - eapply cleanup_spec; [exact H2| |done|set_solver]. split; [apply lookup_singleton_eq|]. intros p b. by rewrite delete_singleton_eq, lookup_empty.
  - intros e1 w3 (pd' & Bs' & H3 & Hu & _ & Hstick). apply wp_ret. split; [by eexists|].
    rewrite delete_singleton_eq in H3. replace ({[c_build c]} ∖ {[c_build c]}) with (∅ : gset nat) in H3 by (apply set_eq; set_solver).
    exists o, pd', Bs'. split; [done|]. intros Hn. specialize (Hstick (or_intror Hn)). destruct Hu as [->|[_ ->]]; [|done]. by destruct (Hpd Hn).
Qed.

Definition accepted (c : developmentCandidate) : Prop := exists u, normalizeServeProxyTarget (c_target c) = Ok u.
Definition idle : world -> Prop := unchanged ∅ ∅ None.
Definition beside (c : developmentCandidate) : world -> Prop :=
  unchanged {[c_process c := c_build c]} {[c_build c]} (Some (c_process c)).

Definition phase_ok (ph : phase) (w : world) : Prop :=
  match ph with
  | StartupBuild _ => idle w
  | Watching c _ _ | ReloadBuild c _ => accepted c /\ beside c w
  | Finished _ => ended w
  end.

Lemma beside_serving c w : beside c w -> serving c w.
Proof. intros (o & Bs & H). exists o, None, Bs. split; [done|by left]. Qed.
Lemma finish_ok c e w : serving c w -> wp (finish a c e) phase_ok w.
Proof. intros H. eapply wp_mono; [by apply finish_spec|]. intros ph w1 [[e' ->] H1]. done. Qed.
Lemma idle_ended w : idle w -> ended w.
Proof. intros (o & Bs & H). by exists o, None, Bs. Qed.
Lemma gone_ended b e w : gone ∅ ∅ None b e w -> ended w.
Proof. intros (o & pd & Bs & H & _ & He). exists o, pd, Bs. split; [done|]. intros Hn. apply He. by right. Qed.
Lemma gone_serving c b e w : gone {[c_process c := c_build c]} {[c_build c]} (Some (c_process c)) b e w -> serving c w.
Proof. intros (o & pd & Bs & H & _ & He). exists o, pd, Bs. split; [done|]. intros Hn. left. apply He. by right. Qed.

(** *** Startup *)

Definition first_candidate := with_candidate ∅ ∅.

Lemma cleanup_first r pd o w :
  first_candidate r pd None o w -> wp (cleanupDevelopmentCandidate a (r_candidate r)) (gone ∅ ∅ None (c_build (r_candidate r))) w.
Proof. intros H. eapply cleanup_gone; [|done|exact H]. intros p b. by rewrite lookup_empty. Qed.
Lemma give_up_ok r pd o e w : first_candidate r pd None o w -> wp (give_up_with a (r_candidate r) e) phase_ok w.
Proof. intros H. apply wp_bind. eapply wp_mono; [by eapply cleanup_first|]. intros e1 w1 H1. apply wp_ret. by eapply gone_ended. Qed.
Lemma stabilize_startup_ok w : idle w -> wp (stabilize_to a StartupBuild returned) phase_ok w.
Proof.
  intros H. apply wp_bind. eapply unchanged_ask; [exact H|]. intros [s|e] w1 H1; apply wp_ret; [done|by apply idle_ended].
Qed.
Lemma read_startup_ok w : idle w -> wp (read_and_stabilize a StartupBuild returned) phase_ok w.
Proof.
  intros H. apply wp_bind. eapply unchanged_read; [exact H|]. intros [s|e] w1 H1; [by apply stabilize_startup_ok|apply wp_ret; by apply idle_ended].
Qed.

Lemma first_serving r pd o w :
  first_candidate r pd (Some (c_process (r_candidate r))) o w -> serving (r_candidate r) w.
Proof.
  intros (Bs & H & _ & _ & _ & Hpd). exists o, pd, Bs. rewrite insert_empty, union_empty_r_L in H. by split.
Qed.

Lemma settle_first_ok r pd w :
  first_candidate r pd (Some (c_process (r_candidate r))) (Only (r_snapshot r)) w -> accepted (r_candidate r) ->
  wp (settle_first a r) phase_ok w.
Proof.
  intros H Hacc. eapply candidate_check; [exact H|]. intros latest stale o w1 H1 Hcur. apply wp_bind.
  eapply candidate_ask; [exact H1|]. intros [|] w2 H2.
  { apply wp_bind. eapply wp_mono; [by eapply candidate_close|]. intros e1 w3 H3. cbn beta in H3. apply wp_bind. eapply candidate_ask; [exact H3|]. intros e2 w4 H4.
    apply wp_bind. eapply wp_mono; [by eapply cleanup_first|]. intros e3 w5 H5. apply wp_ret. by eapply gone_ended. }
  assert (forall otherwise : M world phase, wp otherwise phase_ok w2 ->
    (current latest stale = true -> wp (let! commitErr := commitDevelopmentBuild a (c_build (r_candidate r)) in
      match commitErr with Some e => finish a (r_candidate r) e | None => ret (Watching (r_candidate r) (r_snapshot r) (r_generation r)) end) phase_ok w2)
    -> wp (match latest, stale with
           | Ok _, false => let! commitErr := commitDevelopmentBuild a (c_build (r_candidate r)) in
               match commitErr with Some e => finish a (r_candidate r) e | None => ret (Watching (r_candidate r) (r_snapshot r) (r_generation r)) end
           | _, _ => otherwise end) phase_ok w2) as Hcase by (destruct latest, stale; auto).
  apply Hcase; clear Hcase.
  - apply wp_bind. eapply wp_mono; [by eapply candidate_close|]. intros e1 w3 H3. cbn beta in H3. apply wp_bind.
    eapply wp_mono; [by eapply cleanup_first|]. intros e2 w4 H4.
    destruct (errors_Join _ (errors_Join e1 e2)) as [e|] eqn:Ej; [apply wp_ret; by eapply gone_ended|]. apply stabilize_startup_ok.
    apply errors_Join_None in Ej as [_ [_ ->]%errors_Join_None]. by eapply gone_unchanged.
  - intros Hc. rewrite (Hcur Hc) in H2. destruct H2 as (Bs & H2 & Hp & Hb & Hr & Hpd). rewrite insert_empty, union_empty_r_L in H2.
    apply wp_bind. eapply wp_mono; [eapply commit_spec; [exact H2|apply lookup_singleton_eq|done|done]|].
    intros [e|] w3 (Bs' & H3 & _); [apply finish_ok; eexists _, None, Bs'; split; [exact H3|by left]|].
    apply wp_ret. split; [done|]. by eexists _, Bs'.
Qed.

Lemma open_first_ok r w : first_candidate r None None (Only (r_snapshot r)) w -> wp (open_first a r) phase_ok w.
Proof.
  intros H. apply wp_bind. eapply candidate_ask; [exact H|]. intros [|] w1 H1.
  { apply wp_bind. eapply candidate_ask; [exact H1|]. intros e w2 H2. by eapply give_up_ok. }
  apply wp_bind. eapply wp_mono; [by apply candidate_publish|]. intros [e|] w2 [pd H2].
  { apply wp_bind. eapply wp_mono; [by eapply cleanup_first|]. intros [e1|] w3 H3; [apply wp_ret; by eapply gone_ended|].
    apply read_startup_ok. by eapply gone_unchanged. }
  apply wp_bind. eapply candidate_ask; [exact H2|]. intros [|] w3 H3.
  { apply wp_bind. eapply candidate_ask; [exact H3|]. intros e w4 H4. by eapply give_up_ok. }
  apply wp_bind. eapply candidate_open; [exact H3| |].
  - intros e w4 H4. by eapply give_up_ok.
  - intros w4 u Hu H4. eapply settle_first_ok; [exact H4|by exists u].
Qed.
Lemma startup_ok r w : first_candidate r None None (Only (r_snapshot r)) w -> wp (startup a r) phase_ok w.
Proof.
  intros H. apply wp_bind. eapply candidate_read; [exact H|]. intros [latest|e] w1 H1; [|by eapply give_up_ok]. cbn [observing] in H1.
  apply wp_bind, wp_bind. eapply candidate_ask; [exact H1|]. intros g w2 H2. apply wp_ret. destruct (_ || _) eqn:Es.
  - apply wp_bind. eapply wp_mono; [by eapply cleanup_first|]. intros [e|] w3 H3; [apply wp_ret; by eapply gone_ended|].
    apply stabilize_startup_ok. by eapply gone_unchanged.
  - apply orb_false_iff in Es as [Es _]. apply negb_false_iff, bool_decide_eq_true in Es as ->. cbn in H2.
    rewrite bool_decide_eq_true_2 in H2 by done. by apply open_first_ok.
Qed.

(** *** Reloads *)

Section Reload.
Context (active : developmentCandidate) (Hacc : accepted active).
Notation R := {[c_process active := c_build active]}.
Notation N := {[c_build active]}.
Notation px := (Some (c_process active)).
Definition next_candidate := with_candidate R N.

Lemma active_binary p b : (R : gmap nat nat) !! p = Some b -> b ∈ (N : gset nat).
Proof. intros [_ <-]%lookup_singleton_Some. set_solver. Qed.
Lemma active_process p : px = Some p -> is_Some ((R : gmap nat nat) !! p).
Proof. intros [= <-]. by rewrite lookup_singleton_eq. Qed.
Lemma cleanup_next r pd o w :
  next_candidate r pd px o w -> wp (cleanupDevelopmentCandidate a (r_candidate r)) (gone R N px (c_build (r_candidate r))) w.
Proof. intros H. eapply cleanup_gone; [apply active_binary|apply active_process|exact H]. Qed.
Lemma gone_beside b w : gone R N px b None w -> beside active w.
Proof. apply gone_unchanged. Qed.

Lemma stabilize_reload_ok w : beside active w -> wp (stabilize_to a (ReloadBuild active) (finish a active)) phase_ok w.
Proof.
  intros H. apply wp_bind. eapply unchanged_ask; [exact H|]. intros [s|e] w1 H1; [by apply wp_ret|by apply finish_ok, beside_serving].
Qed.
Lemma read_reload_ok w : beside active w -> wp (read_and_stabilize a (ReloadBuild active) (finish a active)) phase_ok w.
Proof.
  intros H. apply wp_bind. eapply unchanged_read; [exact H|]. intros [s|e] w1 H1; [by apply stabilize_reload_ok|by apply finish_ok, beside_serving].
Qed.
Lemma reload_failed_ok s w : beside active w -> wp (reload_failed a active s) phase_ok w.
Proof. intros H. apply wp_bind. eapply unchanged_ask; [exact H|]. intros g w1 H1. by apply wp_ret. Qed.
Lemma drop_ok r pd o e w : next_candidate r pd px o w -> wp (drop_candidate a active r e) phase_ok w.
Proof.
  intros H. apply wp_bind. eapply wp_mono; [by eapply cleanup_next|]. intros [e1|] w1 H1; [by eapply finish_ok, gone_serving|].
  by eapply reload_failed_ok, gone_beside.
Qed.
Lemma abandon_ok r pd o e w : next_candidate r pd px o w -> wp (abandon a active r e) phase_ok w.
Proof. intros H. apply wp_bind. eapply wp_mono; [by eapply cleanup_next|]. intros e1 w1 H1. by eapply finish_ok, gone_serving. Qed.
Lemma check_processes_ok r pd o k w :
  next_candidate r pd px o w -> (forall w', next_candidate r pd px o w' -> wp k phase_ok w') -> wp (check_processes a active r k) phase_ok w.
Proof.
  intros H Hk. apply wp_bind. eapply candidate_ask; [exact H|]. intros [|] w1 H1.
  { apply wp_bind. eapply candidate_ask; [exact H1|]. intros e w2 H2. by eapply drop_ok. }
  apply wp_bind. eapply candidate_ask; [exact H1|]. intros [|] w2 H2.
  { apply wp_bind. eapply candidate_ask; [exact H2|]. intros e w3 H3. by eapply abandon_ok. }
  apply wp_bind. eapply candidate_ask; [exact H2|]. intros [[e|]|] w3 H3; [by eapply abandon_ok|by eapply abandon_ok|by apply Hk].
Qed.

(** The proxy goes back to the active candidate, which it has accepted before. *)
Lemma revert r pd q o w :
  next_candidate r pd (Some q) o w -> wp (SwapTarget active) (fun e w' => e = None /\ next_candidate r pd px o w') w.
Proof.
  intros (Bs & H & Hp & Hrest). destruct Hacc as [u Hu]. unfold SwapTarget. rewrite Hu. apply wp_bind.
  eapply (wp_emit _ _ (served_with (<[c_process (r_candidate r) := c_build (r_candidate r)]> R) ({[c_build (r_candidate r)]} ∪ N) px pd o));
    [exact H| |done|done|by left|].
  { cbn. rewrite bool_decide_eq_true_2; [done|]. rewrite lookup_insert_ne; [by rewrite lookup_singleton_eq|].
    intros E. by rewrite E, lookup_singleton_eq in Hp. }
  intros w1 H1 _. apply wp_ret. split; [done|]. by exists Bs.
Qed.

(** The old candidate goes; the new one is served alone. *)
Definition alone (r : developmentBuildResult) (pd : option nat) (o : observed) (w : world) : Prop :=
  let c := r_candidate r in
  exists Bs, st (served_with {[c_process c := c_build c]} {[c_build c]} (Some (c_process c)) pd o) Bs w
    /\ ready Bs (c_build c) /\ (pd = None \/ pd = Some (c_build c)).
Lemma cleanup_active r pd o w :
  next_candidate r pd (Some (c_process (r_candidate r))) o w -> wp (cleanupDevelopmentCandidate a active) (fun _ w' => alone r pd o w') w.
Proof.
  intros (Bs & H & Hp & Hb & Hr & Hpd).
  assert (c_process (r_candidate r) <> c_process active) as Hne by (intros E; by rewrite E, lookup_singleton_eq in Hp).
  assert (c_build (r_candidate r) <> c_build active) as Hbne by set_solver.
  eapply wp_mono; [eapply cleanup_spec; [exact H| | |set_solver]|].
  - split; [rewrite lookup_insert_ne by done; apply lookup_singleton_eq|]. intros p b.
    rewrite delete_insert_ne, delete_singleton_eq by done. intros [[_ <-]|[_ E]]%lookup_insert_Some; [done|]. by rewrite lookup_empty in E.
  - congruence.
  - intros e w1 (pd' & Bs' & H1 & Hu & Hs & _). assert (pd' = pd) as -> by (destruct Hu as [|[-> ->]], Hpd; congruence).
    rewrite delete_insert_ne, delete_singleton_eq, insert_empty in H1 by done.
    replace (({[c_build (r_candidate r)]} ∪ N) ∖ N) with ({[c_build (r_candidate r)]} : gset nat) in H1 by (apply set_eq; set_solver).
    exists Bs'. split_and!; [done|by eapply stays_ready|done].
Qed.
Lemma alone_serving r pd o w : alone r pd o w -> serving (r_candidate r) w.
Proof. intros (Bs & H & _ & Hpd). exists o, pd, Bs. by split. Qed.

Lemma take_over_ok r pd w :
  next_candidate r pd (Some (c_process (r_candidate r))) (Only (r_snapshot r)) w -> accepted (r_candidate r) ->
  wp (let! cleanupErr := cleanupDevelopmentCandidate a active in
      match cleanupErr with
      | Some e => finish a (r_candidate r) e
      | None =>
          let! commitErr := commitDevelopmentBuild a (c_build (r_candidate r)) in
          match commitErr with
          | Some e => finish a (r_candidate r) e
          | None => do! emit Reloaded in ret (Watching (r_candidate r) (r_snapshot r) (r_generation r))
          end
      end) phase_ok w.
Proof.
  intros H Hacc'. apply wp_bind. eapply wp_mono; [by eapply cleanup_active|]. intros [e|] w1 H1; [by eapply finish_ok, alone_serving|].
  destruct H1 as (Bs & H1 & Hr & Hpd). apply wp_bind. eapply wp_mono; [eapply commit_spec; [exact H1|apply lookup_singleton_eq|done|done]|].
  intros [e|] w2 (Bs' & H2 & _); [apply finish_ok; eexists _, None, Bs'; split; [exact H2|by left]|].
  apply wp_bind. eapply wp_emit; [exact H2| |done|done|by left|].
  { cbn. rewrite lookup_singleton_eq, !bool_decide_eq_true_2; [done| |done]. apply map_size_singleton. }
  intros w3 H3 _. apply wp_ret. split; [done|]. by eexists _, Bs'.
Qed.

Lemma settle_ok r pd w :
  next_candidate r pd (Some (c_process (r_candidate r))) (Only (r_snapshot r)) w -> accepted (r_candidate r) ->
  wp (settle a active r) phase_ok w.
Proof.
  intros H Hacc'. eapply candidate_check; [exact H|]. intros latest stale o w1 H1 Hcur. apply wp_bind.
  eapply candidate_ask; [exact H1|]. intros [|] w2 H2.
  { apply wp_bind. eapply wp_mono; [by eapply revert|]. intros e1 w3 [-> H3]. apply wp_bind. eapply candidate_ask; [exact H3|]. intros e2 w4 H4.
    apply wp_bind. eapply wp_mono; [by eapply cleanup_next|]. intros [e3|] w5 H5; [by eapply finish_ok, gone_serving|].
    by eapply reload_failed_ok, gone_beside. }
  assert (forall take_over otherwise : M world phase, wp otherwise phase_ok w2 -> (current latest stale = true -> wp take_over phase_ok w2)
    -> wp (match latest, stale with Ok _, false => take_over | _, _ => otherwise end) phase_ok w2) as Hcase by (intros ??; destruct latest, stale; auto).
  apply Hcase; clear Hcase.
  - apply wp_bind. eapply wp_mono; [by eapply revert|]. intros e1 w3 [-> H3]. apply wp_bind. eapply wp_mono; [by eapply cleanup_next|].
    intros e2 w4 H4. destruct (errors_Join _ (errors_Join None e2)) as [e|] eqn:Ej; [by eapply finish_ok, gone_serving|]. apply stabilize_reload_ok.
    apply errors_Join_None in Ej as [_ [_ ->]%errors_Join_None]. by eapply gone_beside.
  - intros Hc. rewrite (Hcur Hc) in H2. by eapply take_over_ok.
Qed.

Lemma promote_ok r w : next_candidate r None px (Only (r_snapshot r)) w -> wp (promote a active r) phase_ok w.
Proof.
  intros H. apply wp_bind. eapply wp_mono; [by apply candidate_publish|]. intros [e|] w1 [pd H1].
  { apply wp_bind. eapply wp_mono; [by eapply cleanup_next|]. intros [e1|] w2 H2; [by eapply finish_ok, gone_serving|].
    by eapply read_reload_ok, gone_beside. }
  eapply check_processes_ok; [exact H1|]. intros w2 H2. apply wp_bind. eapply candidate_swap; [exact H2|by eexists| |].
  - intros e H3. by eapply abandon_ok.
  - intros w3 u Hu H3. eapply settle_ok; [exact H3|by exists u].
Qed.
Lemma reload_ok r w : next_candidate r None px (Only (r_snapshot r)) w -> wp (reload a active r) phase_ok w.
Proof.
  intros H. eapply check_processes_ok; [exact H|]. intros w1 H1. apply wp_bind. eapply candidate_ask; [exact H1|]. intros g w2 H2.
  destruct (negb (g =? r_generation r)); [|by apply promote_ok]. apply wp_bind. eapply candidate_read; [exact H2|]. intros latest w3 H3.
  apply wp_bind. eapply wp_mono; [by eapply cleanup_next|]. intros e w4 H4.
  destruct (errors_Join _ e) as [e1|] eqn:Ej; [by eapply finish_ok, gone_serving|]. apply stabilize_reload_ok.
  apply errors_Join_None in Ej as [_ ->]. by eapply gone_beside.
Qed.
Lemma watch_ok g w : beside active w -> wp (watch a active g) phase_ok w.
Proof.
  intros H. apply wp_bind. eapply unchanged_ask; [exact H|]. intros g' w1 H1. destruct (negb (g' =? g)); [by apply read_reload_ok|].
  apply wp_bind, wp_bind. eapply unchanged_ask; [exact H1|]. intros wk w2 H2. apply beside_serving in H2 as Hs.
  destruct wk as [e|e|[e|]|[s|e]]; apply wp_ret; try (by apply finish_ok); by apply wp_ret.
Qed.
End Reload.

Lemma step_ok ph w : phase_ok ph w -> wp (step a ph) phase_ok w.
Proof.
  destruct ph as [input|c s g|c next|e]; cbn [step phase_ok].
  - intros H. apply wp_bind. eapply wp_mono; [apply (round_spec ∅ ∅ None); [intros p b; by rewrite lookup_empty|done|exact H]|].
    intros [i|r|s e] w1 H1; cbn [after_round] in H1; [by apply wp_ret|by apply startup_ok|apply wp_ret; by apply idle_ended].
  - intros [Hacc H]. by apply watch_ok.
  - intros [Hacc H]. apply wp_bind. eapply wp_mono; [apply (round_spec _ _ _ (active_binary c Hacc) (active_process c)), H|].
    intros [i|r|s e] w1 H1; cbn [after_round] in H1; [by apply wp_ret|by apply reload_ok|]. apply wp_bind. eapply unchanged_ask; [exact H1|].
    intros [e1|] w2 H2; [by apply finish_ok, beside_serving|by apply reload_failed_ok].
  - intros H. by apply wp_ret.
Qed.

Lemma rounds_ok n ph w : phase_ok ph w -> wp (rounds a n ph) phase_ok w.
Proof.
  revert ph w. induction n as [|n IH]; intros ph w H; [by apply wp_ret|]. cbn [rounds]. apply wp_bind.
  eapply wp_mono; [by apply step_ok|]. intros ph1 w1 H1. by apply IH.
Qed.
Lemma boot_idle : idle boot.
Proof.
  exists Nothing, ∅. constructor; cbn; try done.
  - by exists nothing_left.
  - intros b. split; [intros (d & Hd & _); by rewrite lookup_empty in Hd|done].
  - intros b. rewrite lookup_empty. by intros [].
  - intros p. rewrite lookup_empty. by intros [].
Qed.
Lemma supervise_ok n : wp (superviseDevelopmentServer a n) phase_ok boot.
Proof.
  apply wp_bind. eapply unchanged_read; [apply boot_idle|]. intros [s|e] w1 H1; [by apply rounds_ok|].
  apply wp_ret. by apply idle_ended.
Qed.
End Supervisor.

(** What a phase shows of itself to an observer of the log. *)
Definition matches_phase (ph : phase) (m : served) : Prop :=
  match ph with
  | StartupBuild _ => s_running m = ∅ /\ s_proxy m = None
  | Watching c _ _ | ReloadBuild c _ => s_running m = {[c_process c := c_build c]} /\ s_proxy m = Some (c_process c) /\ s_pending m = None
  | Finished _ => s_running m = ∅ /\ s_binaries m = ∅ /\ s_proxy m = None
  end.

(** Leftovers are what a call is on record as having failed on. *)
Definition on_record (l : list event) (k : leftovers) : Prop :=
  (forall p, is_Some (l_processes k !! p) -> exists e, Stopped p (Some e) ∈ l)
  /\ (forall b, b ∈ l_binaries k -> exists e, Removed b (Some e) ∈ l)
  /\ (is_Some (l_proxy k) -> exists e, ProxyClosed (Some e) ∈ l).
Lemma on_record_cons e l k : on_record l k -> on_record (e :: l) k.
Proof.
  intros (H1 & H2 & H3). split_and!; [intros p [x Hx]%H1|intros b [x Hx]%H2|intros [x Hx]%H3]; exists x; by right.
Qed.
Lemma replay_on_record l m : replay l = Some m -> on_record l (s_left m).
Proof.
  revert m. induction l as [|e l IH]; intros m; cbn.
  { intros [= <-]. split_and!; [by intros p []|done|by intros []]. }
  destruct (replay l) as [m0|]; [|done]. cbn. unfold allowed. destruct (permitted e m0) as [m1|]; [|done].
  intros [= <-]. cbn [s_left leaving]. specialize (IH _ eq_refl). pose proof (on_record_cons e _ _ IH) as Hold.
  destruct e as [| | | |p [x|]|b [x|]| | | | | |[x|]|]; try exact Hold; destruct Hold as (H1 & H2 & H3); split_and!; cbn; try done.
  - intros q. destruct (decide (q = p)) as [->|Hne]; [intros _; exists x; by left|]. rewrite lookup_partial_alter_ne by done. apply H1.
  - intros b' [->%elem_of_singleton|Hb]%elem_of_union; [exists x; by left|by apply H2].
  - intros _. exists x. by left.
Qed.

(** C11. The development server is safe for every behaviour of its surroundings.  After any
    number of rounds of [superviseDevelopmentServer], whatever was answered to it, its log, in
    which [Stop], the removal of a binary and the [Close] of the proxy stand with their answers,
    is one that [replay] accepts: no process was told to stop before the proxy led elsewhere or
    was told to close, the removal of a binary was tried once and only after [Stop] had returned
    for its process, views were published by one build at a time and became final only for the
    process that is served, and a reload was announced only when the new process was served,
    every other one had been told to stop, nothing was pending, and every reading of the source
    since its build began was the same.  While it watches, the active process is the only one
    not told to stop, and the proxy leads to it; when it has returned, every process it started
    was told to stop, the removal of every binary was tried, the proxy was closed, and no views
    stay pending unless putting them back failed.  What is left after all that, a process, a
    binary or a proxy, is on record with the call that failed on it: where [Stop], the removal
    and [Close] never fail, nothing is. *)
Theorem development_server_never_stops_what_it_serves a n :
  exists ph w m, superviseDevelopmentServer a n boot = (Ok ph, w)
    /\ replay (log w) = Some m /\ matches_phase ph m
    /\ Forall (answered a) (log w) /\ on_record (log w) (s_left m)
    /\ (forall e, ph = Finished e -> ~ (exists t e', a_swap_views a t = (false, Some e')) -> s_pending m = None).
Proof.
  pose proof (supervise_ok a n) as H. unfold wp in H. destruct (superviseDevelopmentServer a n boot) as [[ph|e] w]; [|done]. exists ph, w.
  assert (forall R N px pd o Bs, st a (served_with R N px pd o) Bs w -> exists l, replay (log w) = Some (leaving l (served_with R N px pd o))
    /\ Forall (answered a) (log w) /\ on_record (log w) l) as Hst.
  { intros R N px pd o Bs [[l Hl] Ha]. exists l. split; [done|]. split; [done|]. by apply replay_on_record in Hl. }
  destruct ph as [input|c s g|c next|e]; cbn in H.
  - destruct H as (o & Bs & (l & ? & ? & ?)%Hst). eexists. by split_and!.
  - destruct H as (_ & o & Bs & (l & ? & ? & ?)%Hst). eexists. by split_and!.
  - destruct H as (_ & o & Bs & (l & ? & ? & ?)%Hst). eexists. by split_and!.
  - destruct H as (o & pd & Bs & (l & ? & ? & ?)%Hst & Hpd). eexists. by split_and!.
Qed.

(** A session: the source changes while the first reload is built, so that build is thrown away;
    the next one takes over, and then the command is interrupted. *)
Module Session.
Definition target : option URL :=
  Some {| u_Scheme := "http"; u_Host := "127.0.0.1:4000"; u_Path := EmptyString; u_RawPath := EmptyString;
          u_RawQuery := EmptyString; u_ForceQuery := false; u_Fragment := EmptyString |}.
Definition calm : answers := {|
  a_snapshot t := Ok (if (t <? 30)%nat then "v1" else "v2");
  a_generation t := if (t <? 30)%nat then 0 else 1;
  a_ctx _ := None; a_build _ := None; a_start _ := Ok target; a_done _ _ := false; a_wait _ := None; a_stop _ := None;
  a_remove _ := None; a_lock _ := None; a_unlock _ := None; a_swap_views _ := (true, None);
  a_proxy_start _ := None; a_proxy_done _ := None; a_proxy_close _ := None;
  a_stabilize _ := Ok "v2";
  a_wake t := if (t <? 35)%nat then Changed (Ok "v2") else CtxDone (Errorf "context canceled") |}.
End Session.

Example calm_session :
  (fun '(r, w) => (r, reverse (log w))) (superviseDevelopmentServer Session.calm 5 boot)
  = (Ok (Finished (Errorf "context canceled")),
     [Read "v1"; Building; Built 2; Read "v1"; Started 6 2; Read "v1"; Read "v1"; Published 2; ProxyOpened 6; Read "v1"; Finalized 2;
      Building; Built 24; Read "v1"; Removed 24 None;
      Building; Built 31; Read "v2"; Started 35 31; Read "v2"; Published 31; Swapped 35; Read "v2"; Stopped 6 None; Removed 2 None; Finalized 31; Reloaded;
      ProxyClosed None; Stopped 35 None; Removed 31 None]).
Proof. vm_compute. reflexivity. Qed.

(** ** Starting a candidate leaves no process behind *)

Lemma launch_running sa l :
  l_running l = ∅ ->
  exists process e l', launch sa l = (Ok (process, e), l') /\ l_running l' = match process with Some p => {[p]} | None => ∅ end
    /\ (process = None -> e <> None).
Proof.
  intros Hl. unfold launch, bindM, gets, l_ask, modify. cbn. destruct (sa_start sa (l_now l)) as [e|]; [by eexists _, _, _|].
  cbn. rewrite Hl. assert ({[l_now l]} ∪ ∅ = ({[l_now l]} : gset nat)) as E by set_solver.
  destruct (sa_health sa (S (l_now l))) as [e|]; [eexists _, _, _; by split_and!|]. cbn.
  destruct (sa_owns sa (S (S (l_now l)))) as [[|]|e]; cbn; eexists _, _, _; by split_and!.
Qed.
(** A process is left only where the last [Stop] failed, and the error says so. *)
Definition left_running (r : result (nat * option URL)) (running : gset nat) : Prop :=
  match r with
  | Ok (p, _) => running = {[p]}
  | Err e => running = ∅ \/ exists p e1 e2, running = {[p]} /\ e = Joined e1 (Wrapf "stop failed development candidate: %w" e2)
  end.
Lemma start_attempts_running sa n last l :
  l_running l = ∅ ->
  exists r l', start_attempts sa n last l = (Ok r, l') /\ left_running r (l_running l').
Proof.
  revert last l. induction n as [|n IH]; intros last l Hl; [eexists _, _; split; [done|by left]|]. cbn [start_attempts]. unfold bindM at 1, l_ask at 1.
  destruct (sa_reserve sa (l_now l)) as [[address target]|e]; [|by apply IH]. unfold bindM at 1, l_ask at 1. cbn [l_now l_running].
  destruct (sa_environment sa (S (l_now l)) address) as [env|e]; [|eexists _, _; split; [done|by left]]. unfold bindM at 1.
  edestruct (launch_running sa {| l_now := S (S (l_now l)); l_running := l_running l |}) as (process & e & l1 & -> & Hl1 & He); [done|].
  destruct process as [p|]; destruct e as [e|]; try (by destruct He); [| |].
  - unfold bindM, modify, l_ask. cbn. assert (l_running l1 ∖ {[p]} = ∅) as Hgone by set_solver.
    destruct (sa_stop sa (l_now l1)) as [e2|]; cbn; [eexists _, _; split; [done|]; right; by exists p, e, e2|].
    destruct (sa_expired sa (S (l_now l1))); cbn; [eexists _, _; split; [done|by left]|]. by apply IH.
  - by eexists _, _.
  - unfold bindM, ret, l_ask. cbn. destruct (sa_expired sa (l_now l1)); [eexists _, _; split; [done|by left]|]. by apply IH.
Qed.

(** Whatever the attempts meet, in the end the process that is returned runs, alone, or none, or
    one that could not be stopped, which the error reports. *)
Theorem started_candidate_runs_alone sa attempts t :
  exists r l, startDevelopmentCandidateWith sa attempts {| l_now := t; l_running := ∅ |} = (Ok r, l)
    /\ left_running r (l_running l).
Proof. by apply start_attempts_running. Qed.

(** ** The compiled views *)

Lemma views_temporary temp t : temporary temp generatedViewsPath t <> generatedViewsPath.
Proof. unfold temporary. change (Dir generatedViewsPath) with "resources/views". cbn. by intros [=]. Qed.

Lemma blocked_views d i : blocked (<[generatedViewsPath := i]> d) generatedViewsPath = blocked d generatedViewsPath.
Proof. unfold blocked. change (ancestors generatedViewsPath) with ["resources/views"; "resources"]. cbn. by rewrite !lookup_insert_ne. Qed.
Lemma blocked_views_delete d : blocked (delete generatedViewsPath d) generatedViewsPath = blocked d generatedViewsPath.
Proof. unfold blocked. change (ancestors generatedViewsPath) with ["resources/views"; "resources"]. cbn. by rewrite !lookup_delete_ne. Qed.
Lemma capture_file d mode data :
  blocked d generatedViewsPath = false -> captureDevelopmentFile generatedViewsPath (<[generatedViewsPath := RegularFile mode data]> d)
    = Ok {| fs_exists := true; fs_mode := mode; fs_data := data |}.
Proof. intros Hb. unfold captureDevelopmentFile, Stat. by rewrite blocked_views, Hb, lookup_insert_eq. Qed.

Section Views.
Context (fault : nat -> option error) (partial : nat -> nat) (temp : nat -> string).
Context (once : forall t t', is_Some (fault t) -> is_Some (fault t') -> t = t').
Context (real_faults : forall t e, fault t = Some e -> errors_Is e ErrNotExist = false).

Lemma restore_in_place replacement m m' :
  (fs_exists replacement = false -> fs_data replacement = EmptyString) -> is_ok (captureDevelopmentFile generatedViewsPath (disk m)) = true ->
  restore fault partial temp replacement generatedViewsPath m = (Ok tt, m') ->
  exists state, captureDevelopmentFile generatedViewsPath (disk m') = Ok state /\ same_file state replacement = true.
Proof.
  intros Hempty Hc. assert (blocked (disk m) generatedViewsPath = false) as Hb.
  { unfold captureDevelopmentFile, Stat in Hc. by destruct (blocked (disk m) generatedViewsPath). }
  unfold restore. destruct (fs_exists replacement) eqn:Ex.
  - unfold bindM. pose proof (managed_triple fault partial temp once generatedViewsPath (fs_data replacement) (disk m) (views_temporary temp) m eq_refl) as Hm.
    destruct (writeManagedFile _ _ _ _ _ m) as [[[]|e] m1]; [|done]. destruct Hm as [Hm _]. unfold chmod, call.
    destruct (fault (tick m1)); [done|]. intros [= <-]. cbn. rewrite Hm, alter_insert_eq, capture_file by done.
    eexists. split; [done|]. unfold same_file. cbn. rewrite Ex. by rewrite bool_decide_eq_true_2.
  - assert (forall d, blocked d generatedViewsPath = false -> d !! generatedViewsPath = None ->
      exists state, captureDevelopmentFile generatedViewsPath d = Ok state /\ same_file state replacement = true) as Hnone.
    { intros d Hbd Hd. unfold captureDevelopmentFile, Stat. rewrite Hbd, Hd. eexists. split; [done|]. unfold same_file. cbn.
      rewrite Ex, Hempty by done. done. }
    unfold bindM, unless_missing, Remove, look, gets. destruct (disk m !! generatedViewsPath) as [i|] eqn:Ei.
    + unfold captureDevelopmentFile, Stat in Hc. rewrite Hb, Ei in Hc. destruct i as [mode data| |]; try done. unfold bindM, gets, call.
      rewrite Ei. destruct (fault (tick m)) as [e|] eqn:Ef; [by rewrite (real_faults _ _ Ef)|]. intros [= <-]. cbn.
      apply Hnone; [by rewrite blocked_views_delete|apply lookup_delete_eq].
    + unfold bindM, gets. rewrite Ei. intros [= <-]. by apply Hnone.
Qed.

(** With one failing call at most, the swap says that the views are in place when they are, and
    when it says neither that nor an error it has changed nothing. *)
Theorem views_swap_tells_the_truth expected replacement strict m :
  (fs_exists replacement = false -> fs_data replacement = EmptyString) ->
  exists installed e m', compareAndSwapDevelopmentViewsLocked fault partial temp expected replacement strict m = (Ok (installed, e), m')
    /\ (installed = true -> exists state, captureDevelopmentFile generatedViewsPath (disk m') = Ok state /\ same_file state replacement = true)
    /\ (e = None -> installed = false -> disk m' = disk m).
Proof.
  intros Hempty. unfold compareAndSwapDevelopmentViewsLocked.
  destruct (captureDevelopmentFile generatedViewsPath (disk m)) as [current|e] eqn:Ec; [|by eexists _, _, _].
  destruct (same_file current expected) eqn:Es; cbn [negb]; [|by eexists _, _, _].
  pose proof (restore_in_place replacement m) as Hok. rewrite Ec in Hok.
  destruct (restore fault partial temp replacement generatedViewsPath m) as [[[]|e] m'].
  - eexists _, _, _. split_and!; [done|by intros _; apply Hok|done].
  - destruct (captureDevelopmentFile generatedViewsPath (disk m')) as [after|e'] eqn:Ea; eexists _, _, _; split_and!; try done. intros Hi. exists after. by rewrite Ea.
Qed.
End Views.

(** ** The candidate's environment *)

(** One entry for the key, the last, and every other entry as it was. *)
Theorem environment_override environment key value :
  let env := environmentWithOverride environment key value in
  List.filter (fun e => negb (overrides key e)) env = List.filter (fun e => negb (overrides key e)) environment
    ++ List.filter (fun e => negb (overrides key e)) [key +:+ "=" +:+ value]
  /\ (forall e, e ∈ env -> overrides key e = true -> e = key +:+ "=" +:+ value).
Proof.
  cbn zeta. unfold environmentWithOverride. rewrite List.filter_app. split.
  - f_equal. induction environment as [|e l IH]; [done|]. cbn. destruct (overrides key e) eqn:E; cbn; [exact IH|]. rewrite E. cbn. by f_equal.
  - intros e [He|He]%elem_of_app Ho; [|by apply list_elem_of_singleton in He]. apply list_elem_of_In, List.filter_In in He as [_ He]. by rewrite Ho in He.
Qed.
Lemma new_values_fresh seen values : NoDup (ToLower <$> new_values seen values) /\ forall v, v ∈ new_values seen values -> v <> EmptyString /\ ToLower v ∉ seen.
Proof.
  revert seen. induction values as [|v values IH]; intros seen; cbn; [split; [constructor|by intros v ?%elem_of_nil]|].
  destruct (bool_decide (TrimSpace v = EmptyString) || bool_decide (ToLower (TrimSpace v) ∈ seen)) eqn:E; [apply IH|].
  apply orb_false_iff in E as [E1%bool_decide_eq_false E2%bool_decide_eq_false]. destruct (IH (ToLower (TrimSpace v) :: seen)) as [H1 H2]. split.
  - cbn. constructor; [|done]. intros (x & Ex & Hx)%list_elem_of_fmap. destruct (H2 x Hx) as [_ Hn]. apply Hn. rewrite <- Ex. by left.
  - intros x [->|Hx]%elem_of_cons; [done|]. destruct (H2 x Hx). split; [done|]. set_solver.
Qed.
