(* ===== verification/CliPublish.v ===== *)
(** * Publishing a resource ([internal/cli/resource.go])

    [make:resource] writes its planned files, replaces four managed files (the route registry,
    the compiled views, the generated ORM and the resource metadata), has the project's own
    compiler check the result, and looks again at what it depended on.  It keeps a journal: what
    it put at each path and what was there before.  When anything fails, a context that ends
    included, it goes through the journal: a path that still holds what was published gets its
    previous state back, and a path somebody else has written to is left alone.

    The disk and its failures are those of [CliFiles], the states of files those of [CliServe];
    here reading a file can fail too.  The compiler, the clock of the context, the rendering of
    the registry, the views, the ORM and the metadata are arguments.  Planning is in [CliMake]. *)

From S2P Require Import Prelude GoStrings GoQuote GoUrl GoText CliFields CliSchema CliMake CliFiles CliFilesProps CliServe.
Local Open Scope go_scope.
Local Open Scope Z_scope.

Record publication : Type := { pb_path : string; pb_published : developmentFileState; pb_previous : developmentFileState }.
(** The disk and the journal: created files, and managed files in the order they were replaced. *)
Record publishing : Type := { ps_machine : machine; ps_created : list publication; ps_managed : list publication }.

Definition registryPath : string := "routes/resources_gen.go".
Definition statePath : string := ".forge/resources.json".
Definition managed_paths : list string := [registryPath; generatedViewsPath; generatedORMPath; statePath].

Definition sameResourceFileState (left right : developmentFileState) : bool :=
  same_file left right && (negb (fs_exists left) || (fs_mode left =? fs_mode right)).
Definition resourceManagedPublicationState (path : string) (previous : developmentFileState) (contents : string) : developmentFileState :=
  {| fs_exists := true; fs_mode := if fs_exists previous then fs_mode previous else generatedFileMode path; fs_data := contents |}.

(** The resources of the project with the new one, by name. *)
Fixpoint insert_spec (s : resourceSpec) (l : list resourceSpec) : list resourceSpec :=
  match l with
  | [] => [s]
  | s' :: rest => if String.leb (rs_Name s) (rs_Name s') then s :: l else s' :: insert_spec s rest
  end.
Definition next_state (state : resourceState) (spec : resourceSpec) : resourceState :=
  {| Resources := foldr insert_spec [] (Resources state ++ [spec]) |}.

(** An error with a message around it. *)
Definition failing {St A} (format : string) (c : M St A) : M St A := fun s =>
  match c s with (Err e, s') => (Err (Wrapf format e), s') | other => other end.
Definition answer {St A} (r : result A) : M St A := fun s => (r, s).
Definition lift {A} (c : M machine A) : M publishing A := fun s =>
  let '(r, m) := c (ps_machine s) in (r, {| ps_machine := m; ps_created := ps_created s; ps_managed := ps_managed s |}).
Definition note_created (p : publication) : M publishing unit := fun s =>
  (Ok tt, {| ps_machine := ps_machine s; ps_created := ps_created s ++ [p]; ps_managed := ps_managed s |}).
Definition note_managed (p : publication) : M publishing unit := fun s =>
  (Ok tt, {| ps_machine := ps_machine s; ps_created := ps_created s; ps_managed := ps_managed s ++ [p] |}).

Section Publish.
Context (fault : nat -> option error) (partial : nat -> nat) (temp : nat -> string) (format : string -> option string).
Context (cancelled : nat -> option error) (compiler : nat -> gmap string inode -> option error).
Context (registryFor : resourceState -> result string) (compileViews : list plannedFile -> gmap string inode -> result string)
  (renderORM : gmap string string -> result string) (marshal : resourceState -> result string)
  (schema : gmap string inode -> result modelSchema).

(** One look at the disk; it may fail. *)
Definition reading {A} (f : gmap string inode -> result A) : M machine A :=
  do! call fault id in fun m => (f (disk m), m).
Definition capture (path : string) : M machine developmentFileState := reading (captureDevelopmentFile path).
Definition check_context : M machine unit := fun m =>
  (match cancelled (tick m) with Some e => Err e | None => Ok tt end, m).
Definition runProjectViewCompiler : M machine unit := fun m =>
  (match compiler (tick m) (disk m) with Some e => Err e | None => Ok tt end, {| disk := disk m; tick := S (tick m) |}).

(** ** One managed file *)

Definition publishResourceManagedFile (path : string) (expected : developmentFileState) (contents : string) : M machine unit :=
  let! current := failing "inspect %s before publication: %w" (capture path) in
  if negb (sameResourceFileState current expected) then throw (Errorf "refusing to overwrite changed %s; retry the command")
  else
    do! writeManagedFile fault partial temp path contents in
    let! current := failing "inspect %s after publication: %w" (capture path) in
    if negb (sameResourceFileState current (resourceManagedPublicationState path expected contents))
    then throw (Errorf "%s changed during publication; newer bytes were preserved")
    else ret tt.

Definition rollbackResourcePublication (p : publication) : M machine unit :=
  let! current := failing "inspect generated resource publication %s: %w" (capture (pb_path p)) in
  if sameResourceFileState current (pb_previous p) then ret tt
  else if negb (sameResourceFileState current (pb_published p)) then throw (Errorf "refusing to roll back changed %s; newer bytes were preserved")
  else failing "restore generated resource publication %s: %w" (restore fault partial temp (pb_previous p) (pb_path p)).

(** ** Directories that are empty again *)

(** What [os.ReadDir] finds: nothing there, entries, or an empty directory. *)
Definition nothing_to_remove (path : string) (d : gmap string inode) : result bool :=
  match Stat d path with
  | Err e => Err e
  | Ok None => Ok true
  | Ok (Some Directory) => Ok (has_children path d)
  | Ok (Some _) => Err ErrNotDirectory
  end.
Definition gone (e : error) : bool := errors_Is e ErrNotExist.

Fixpoint remove_attempts (left : nat) (path : string) : M machine unit := fun m =>
  match reading (nothing_to_remove path) m with
  | (Ok true, m1) => (Ok tt, m1)
  | (Err e, m1) => (if gone e then Ok tt else Err (Wrapf "inspect generated directory %s: %w" e), m1)
  | (Ok false, m1) =>
      match Remove fault path m1 with
      | (Ok _, m2) => (Ok tt, m2)
      | (Err e, m2) =>
          if gone e then (Ok tt, m2)
          else match left with
               | O => (Err (Wrapf "remove generated directory %s after %d attempts: %w" e), m2)
               | S left' => remove_attempts left' path m2
               end
      end
  end.
Definition removeEmptyGeneratedDirectoryWith (path : string) (attempts : Z) : M machine unit :=
  remove_attempts (Z.to_nat (if attempts <? 1 then 0 else attempts - 1)) path.
Definition resourceDirectoryCleanupAttempts : Z := 8.
Definition removeEmptyGeneratedDirectory (path : string) : M machine unit :=
  removeEmptyGeneratedDirectoryWith path resourceDirectoryCleanupAttempts.

(** ** The rollback *)

(** Every step runs, whatever the ones before it met; the errors are joined. *)
Fixpoint join_all (steps : list (M machine unit)) (cause : error) : M machine error := fun m =>
  match steps with
  | [] => (Ok cause, m)
  | c :: rest =>
      match c m with
      | (Ok _, m') => join_all rest cause m'
      | (Err e, m') => join_all rest (Joined cause e) m'
      end
  end.
Definition rollback_resource (s : publishing) (createdDirectories : list string) (cause : error) : M machine error :=
  join_all ((rollbackResourcePublication <$> (reverse (ps_created s) ++ ps_managed s))
            ++ (removeEmptyGeneratedDirectory <$> createdDirectories)) cause.

(** ** The writes *)

Fixpoint create_files (files : list plannedFile) : M publishing unit :=
  match files with
  | [] => ret tt
  | f :: rest =>
      do! lift check_context in
      do! lift (writeExclusive fault partial (pl_path f) (formatted format f)) in
      let! published := lift (failing "capture generated resource %s: %w" (capture (pl_path f))) in
      do! note_created {| pb_path := pl_path f; pb_published := published; pb_previous := no_file |} in
      create_files rest
  end.
Definition publish_managed (path : string) (old : developmentFileState) (contents message : string) : M publishing unit :=
  do! lift check_context in
  do! note_managed {| pb_path := path; pb_published := resourceManagedPublicationState path old contents; pb_previous := old |} in
  lift (failing message (publishResourceManagedFile path old contents)).

(** ** What the resource depended on *)

Definition Base (p : string) : string :=
  match LastIndex p "/" with Some i => drop_string (S i) p | None => p end.
Definition is_model_source (p : string) : bool := bool_decide (Dir p = "internal/models") && HasSuffix p ".go".
(** The model sources on the disk, by name, with the planned ones over them. *)
Definition source_on_disk (entry : string * inode) : option (result (string * string)) :=
  let '(p, i) := entry in
  if negb (is_model_source p) || HasSuffix p "_test.go" then None
  else match i with
       | Directory => None
       | RegularFile _ data => Some (Ok (Base p, data))
       | OtherFile => Some (Err (Wrapf "read model %s: %w" (Errorf "input/output error")))
       end.
Definition currentModelSourcesWithPlanned (files : list plannedFile) (d : gmap string inode) : result (gmap string string) :=
  match Stat d "internal/models" with
  | Err e => Err (Wrapf "read model directory: %w" e)
  | Ok (Some (RegularFile _ _)) | Ok (Some OtherFile) => Err (Wrapf "read model directory: %w" ErrNotDirectory)
  | Ok directory =>
      try found := mapR id (omap source_on_disk (if directory is Some Directory then map_to_list d else [])) in
      Ok (foldl (fun sources f => let clean := Clean (pl_path f) in
                                   if is_model_source clean then <[Base clean := pl_content f]> sources else sources)
            (list_to_map found) files)
  end.

(** The last model of the target's name decides. *)
Definition label_matches (r : resourceRelationship) (models : list modelDefinition) : bool :=
  foldl (fun matched model =>
    if negb (bool_decide (md_Name model = rs_Name (rr_TargetSpec r))) then matched
    else match resolveResourceChoiceLabel model (rb_ChoiceLabelName (rr_belongsTo r)) with
         | Ok (Some field) => bool_decide (mf_Name field = rr_ChoiceLabelGoName r)
                              && Bool.eqb (mf_Nullable field) (rr_ChoiceLabelNullable r)
                              && is_ok (validateResourceRelationshipTarget (rr_TargetSpec r) model)
         | _ => false
         end) false models.
Definition labeled (r : resourceRelationship) : bool := negb (is_empty (rb_ChoiceLabelName (rr_belongsTo r))).
Definition recheck_labels (relationships : list resourceRelationship) : M machine unit :=
  if negb (existsb labeled relationships) then ret tt
  else
    let! current := failing "recheck choice-label models: %w" (reading schema) in
    if forallb (fun r => negb (labeled r) || label_matches r (Models current)) relationships then ret tt
    else throw (Errorf "choice-label target for relationship %s changed during resource generation; retry the command").
Definition targetMigrationPath (r : resourceRelationship) : string :=
  Clean ("database/migrations/" +:+ rs_MigrationVersion (rr_TargetSpec r) +:+ "_create_" +:+ rs_Plural (rr_TargetSpec r) +:+ ".up.sql").
Fixpoint recheck_migrations (relationships : list resourceRelationship) : M machine unit :=
  match relationships with
  | [] => ret tt
  | r :: rest =>
      let! current := failing "recheck belongs-to target migration %s: %w" (capture (targetMigrationPath r)) in
      if negb (same_file current {| fs_exists := true; fs_mode := 0; fs_data := rr_targetMigration r |})
      then throw (Errorf "belongs-to target migration %s changed during resource generation; retry the command")
      else recheck_migrations rest
  end.
Definition recheckResourceRelationshipDependencies (relationships : list resourceRelationship) : M machine unit :=
  do! recheck_labels relationships in recheck_migrations relationships.

Definition validate_publication (relationships : list resourceRelationship) (generatedORM : string) : M machine unit :=
  do! check_context in
  do! failing "validate generated views: %w" runProjectViewCompiler in
  do! check_context in
  let! currentModels := failing "recheck resource models: %w" (reading (currentModelSourcesWithPlanned [])) in
  let! currentORM := failing "recheck resource ORM: %w" (answer (renderORM currentModels)) in
  if negb (bool_decide (currentORM = generatedORM)) then throw (Errorf "application models changed during resource generation; retry the command")
  else recheckResourceRelationshipDependencies relationships.

(** ** [makeResourceWithRelationshipDependencies], from the planned files on *)

(** What is rendered before anything is written, and what the managed files were. *)
Record plan : Type := {
  pn_files : list plannedFile; pn_relationships : list resourceRelationship;
  pn_registry : string; pn_views : string; pn_orm : string; pn_state : string;
  pn_oldRegistry : developmentFileState; pn_oldViews : developmentFileState;
  pn_oldORM : developmentFileState; pn_oldState : developmentFileState
}.
Definition publish_all (p : plan) : M publishing unit :=
  do! create_files (pn_files p) in
  do! publish_managed registryPath (pn_oldRegistry p) (pn_registry p) "write generated resource registry: %w" in
  do! publish_managed generatedViewsPath (pn_oldViews p) (pn_views p) "write generated views: %w" in
  do! publish_managed generatedORMPath (pn_oldORM p) (pn_orm p) "write generated ORM: %w" in
  do! publish_managed statePath (pn_oldState p) (pn_state p) "write resource metadata: %w" in
  lift (validate_publication (pn_relationships p) (pn_orm p)).

Fixpoint refuse_planned (files : list plannedFile) (d : gmap string inode) : result unit :=
  match files with
  | [] => Ok tt
  | f :: rest =>
      match Stat d (pl_path f) with
      | Err e => Err e
      | Ok (Some _) => Err (Errorf "refusing to overwrite %s")
      | Ok None => refuse_planned rest d
      end
  end.
Definition prepare (files : list plannedFile) (relationships : list resourceRelationship) (state : resourceState) (spec : resourceSpec)
    : M machine (plan * list string) :=
  do! (let! r := look (refuse_planned files) in answer r) in
  let! createdDirectories := (let! r := look (missingParentDirectories (pl_path <$> files)) in answer r) in
  let next := next_state state spec in
  let! registry := answer (registryFor next) in
  let! compiledViews := reading (compileViews files) in
  let! modelSources := reading (currentModelSourcesWithPlanned files) in
  let! generatedORM := failing "generate resource ORM: %w" (answer (renderORM modelSources)) in
  let! encodedState := answer (marshal next) in
  let! oldState := failing "read resource metadata: %w" (capture statePath) in
  let! oldRegistry := failing "read generated resource registry: %w" (capture registryPath) in
  let! oldViews := failing "read generated views: %w" (capture generatedViewsPath) in
  let! oldORM := failing "read generated ORM: %w" (capture generatedORMPath) in
  ret ({| pn_files := files; pn_relationships := relationships; pn_registry := registry; pn_views := compiledViews;
          pn_orm := generatedORM; pn_state := encodedState +:+ String newline EmptyString; pn_oldRegistry := oldRegistry; pn_oldViews := oldViews;
          pn_oldORM := oldORM; pn_oldState := oldState |}, createdDirectories).

Definition makeResourceWithRelationshipDependencies (files : list plannedFile) (relationships : list resourceRelationship)
    (state : resourceState) (spec : resourceSpec) : M machine unit := fun m =>
  match prepare files relationships state spec m with
  | (Err e, m0) => (Err e, m0)
  | (Ok (p, createdDirectories), m0) =>
      match publish_all p {| ps_machine := m0; ps_created := []; ps_managed := [] |} with
      | (Ok _, s) => (Ok tt, ps_machine s)
      | (Err cause, s) =>
          match rollback_resource s createdDirectories cause (ps_machine s) with
          | (Ok e, m') | (Err e, m') => (Err e, m')
          end
      end
  end.
End Publish.

(** ** States of files *)

(** What [captureDevelopmentFile] makes of what is at a path. *)
Definition file_state (o : option inode) : result developmentFileState :=
  match o with
  | None => Ok no_file
  | Some (RegularFile mode data) => Ok {| fs_exists := true; fs_mode := mode; fs_data := data |}
  | Some _ => Err (Errorf "%s is not a regular file")
  end.
Lemma capture_state p d : blocked d p = false -> captureDevelopmentFile p d = file_state (d !! p).
Proof. intros Hb. unfold captureDevelopmentFile, Stat. rewrite Hb. by destruct (d !! p) as [[]|]. Qed.
Lemma captured_state p d s : captureDevelopmentFile p d = Ok s -> blocked d p = false /\ file_state (d !! p) = Ok s.
Proof. unfold captureDevelopmentFile, Stat. destruct (blocked d p); [done|]. destruct (d !! p) as [[]|]; done. Qed.
Lemma file_state_cases o s : file_state o = Ok s ->
  (o = None /\ s = no_file) \/ exists mode data, o = Some (RegularFile mode data) /\ s = {| fs_exists := true; fs_mode := mode; fs_data := data |}.
Proof. destruct o as [[]|]; cbn; intros [= <-]; [right; by eexists _, _|by left]. Qed.

(** Equal states are equal files. *)
Lemma same_state o o' s s' : file_state o = Ok s -> file_state o' = Ok s' -> sameResourceFileState s s' = bool_decide (o = o').
Proof.
  intros Ho Ho'. unfold sameResourceFileState, same_file.
  destruct (file_state_cases _ _ Ho) as [[-> ->]|(mode & data & -> & ->)]; destruct (file_state_cases _ _ Ho') as [[-> ->]|(mode' & data' & -> & ->)]; cbn.
  - done.
  - by rewrite bool_decide_eq_false_2.
  - by rewrite bool_decide_eq_false_2.
  - destruct (Z.eqb_spec mode mode') as [->|Hne]; [|rewrite andb_false_r; by rewrite bool_decide_eq_false_2 by congruence].
    rewrite andb_true_r. apply bool_decide_ext. split; congruence.
Qed.
Lemma published_state path o old contents :
  file_state o = Ok old ->
  file_state (Some (RegularFile (if fs_exists old then fs_mode old else generatedFileMode path) contents))
  = Ok (resourceManagedPublicationState path old contents).
Proof. done. Qed.

(** ** The rollback never takes what others wrote *)

Section Preserve.
Context (fault : nat -> option error) (partial : nat -> nat) (temp : nat -> string).
Context (once : forall t t', is_Some (fault t) -> is_Some (fault t') -> t = t').

(** A step leaves the file [i] at [q] where it is. *)
Definition leaves {A} (q : string) (i : inode) (c : M machine A) : Prop :=
  forall m, disk m !! q = Some i -> disk (snd (c m)) !! q = Some i.

Lemma leaves_failing {A} q i format (c : M machine A) : leaves q i c -> leaves q i (failing format c).
Proof. intros H m Hm. unfold failing. specialize (H m Hm). by destruct (c m) as [[]]. Qed.
Lemma leaves_bind {A B} q i (c : M machine A) (k : A -> M machine B) :
  leaves q i c -> (forall a, leaves q i (k a)) -> leaves q i (bindM c k).
Proof. intros Hc Hk m Hm. unfold bindM. specialize (Hc m Hm). destruct (c m) as [[a|e] m1]; [by apply Hk|done]. Qed.
Lemma leaves_call q i f : (forall d : gmap string inode, d !! q = Some i -> f d !! q = Some i) -> leaves q i (call fault f).
Proof. intros Hf m Hm. unfold call. destruct (fault (tick m)); cbn; auto. Qed.
Lemma leaves_still {A} q i (r : result A) : leaves q i (answer r).
Proof. by intros m Hm. Qed.
Lemma leaves_reading {A} q i (f : gmap string inode -> result A) : leaves q i (reading fault f).
Proof. apply leaves_bind; [by apply leaves_call|]. by intros _ m Hm. Qed.
Lemma leaves_Remove q i p : p <> q -> leaves q i (Remove fault p).
Proof.
  intros Hne m Hm. unfold Remove, look, gets, bindM. destruct (disk m !! p) as [[]|]; [..|done]; cbn.
  2: destruct (has_children p (disk m)); [done|].
  all: apply leaves_call; [intros d Hd; by rewrite lookup_delete_ne|done].
Qed.
Lemma leaves_writeManagedFile q i p content :
  p <> q -> (forall t, temporary temp p t <> p) -> leaves q i (writeManagedFile fault partial temp p content).
Proof.
  intros Hne Htemp m Hm. pose proof (managed_triple fault partial temp once p content (disk m) Htemp m eq_refl) as H.
  destruct (writeManagedFile fault partial temp p content m) as [[[]|e] m1]; cbn [snd]; destruct H as [-> _]; [by rewrite lookup_insert_ne|done].
Qed.
Lemma leaves_restore q i p state :
  p <> q -> (forall t, temporary temp p t <> p) -> leaves q i (restore fault partial temp state p).
Proof.
  intros Hne Htemp. unfold restore. destruct (fs_exists state).
  - apply leaves_bind; [by apply leaves_writeManagedFile|]. intros _. apply leaves_call. intros d Hd. by rewrite lookup_alter_ne.
  - apply leaves_bind.
    + intros m Hm. unfold unless_missing. pose proof (leaves_Remove q i p Hne m Hm). by destruct (Remove fault p m) as [[]].
    + intros [e|]; by intros m Hm.
Qed.
Lemma leaves_directory q mode data left p : leaves q (RegularFile mode data) (remove_attempts fault left p).
Proof.
  revert p. induction left as [|left IH]; intros p m Hm; cbn [remove_attempts];
    pose proof (leaves_reading q _ (nothing_to_remove p) m Hm) as Hr;
    destruct (reading fault (nothing_to_remove p) m) as [[[]|e] m1] eqn:Er; try done;
    (assert (p <> q) as Hne;
      [intros ->; unfold reading, bindM, call in Er; destruct (fault (tick m)); [done|]; cbn in Er; injection Er as Er _;
       unfold nothing_to_remove, Stat in Er; destruct (blocked (disk m) q); [done|]; by rewrite Hm in Er|]);
    pose proof (leaves_Remove q _ p Hne m1 Hr) as Hd; destruct (Remove fault p m1) as [[]]; try done; case_match; try done.
  by apply IH.
Qed.
Lemma leaves_publication q mode data e :
  (forall t, temporary temp (pb_path e) t <> pb_path e) ->
  (pb_path e = q -> pb_published e <> {| fs_exists := true; fs_mode := mode; fs_data := data |}) ->
  leaves q (RegularFile mode data) (rollbackResourcePublication fault partial temp e).
Proof.
  intros Htemp Hnew. destruct (decide (pb_path e = q)) as [Hq|Hne].
  - intros m Hm. unfold rollbackResourcePublication, bindM. unfold failing at 1. unfold capture.
    pose proof (leaves_reading q _ (captureDevelopmentFile (pb_path e)) m Hm) as Hr.
    destruct (reading fault _ m) as [[current|err] m1] eqn:Er; [|done].
    unfold reading, bindM, call in Er. destruct (fault (tick m)); [done|]. cbn in Er. injection Er as Ec _.
    apply captured_state in Ec as [_ Ec]. rewrite Hq, Hm in Ec. injection Ec as <-.
    destruct (sameResourceFileState _ (pb_previous e)); [done|].
    destruct (sameResourceFileState _ (pb_published e)) eqn:Es; [|done]. exfalso. apply (Hnew Hq).
    unfold sameResourceFileState, same_file in Es. destruct (pb_published e) as [ex mo da]; cbn in *.
    destruct ex; [|done]. apply andb_true_iff in Es as [Ed Em]. apply bool_decide_eq_true in Ed. apply Z.eqb_eq in Em. congruence.
  - apply leaves_bind; [apply leaves_failing, leaves_reading|]. intros current.
    destruct (sameResourceFileState current _); [apply (leaves_still _ _ (Ok tt))|].
    destruct (negb _); [apply (leaves_still _ _ (Err _))|]. by apply leaves_failing, leaves_restore.
Qed.
Lemma leaves_join q i steps cause : (forall c, c ∈ steps -> leaves q i c) -> leaves q i (join_all steps cause).
Proof.
  revert cause. induction steps as [|c steps IH]; intros cause Hs m Hm; cbn [join_all]; [done|].
  assert (leaves q i c) as Hc by (apply Hs; by left). specialize (Hc m Hm).
  destruct (c m) as [[]]; (apply IH; [|done]; intros c' Hin; apply Hs; by right).
Qed.
End Preserve.

(** ** What stands on the disk while a resource is published *)

Lemma managed_temporary temp p t : p ∈ managed_paths -> temporary temp p t <> p.
Proof.
  intros Hp. unfold temporary, managed_paths in *. rewrite !elem_of_cons, elem_of_nil in Hp.
  destruct Hp as [->|[->|[->|[->|[]]]]]; by cbn.
Qed.

Lemma ancestors_trans a b p : a ∈ ancestors p -> b ∈ ancestors a -> b ∈ ancestors p.
Proof.
  revert a. induction p as [p IH] using path_ind. intros a. rewrite (ancestors_step p). case_bool_decide as E; [by intros ?%elem_of_nil|].
  intros [->|Ha]%elem_of_cons Hb; right; [done|by eapply IH].
Qed.

Section Undo.
Context (fault : nat -> option error) (partial : nat -> nat) (temp : nat -> string) (format : string -> option string).
Context (once : forall t t', is_Some (fault t) -> is_Some (fault t') -> t = t').
Context (D0 : gmap string inode) (missing : gset string) (paths : list string).
Context (tree0 : tree D0) (missing_gone : forall a, a ∈ missing -> a <> "." /\ D0 !! a = None).
Context (apart : forall p q, p ∈ paths -> q ∈ paths -> p ∉ ancestors q) 
  (missing_above_path : forall a, a ∈ missing -> exists p, p ∈ paths /\ a ∈ ancestors p).
Context (unblocked : forall p, p ∈ paths -> blocked D0 p = false).

(** Files [F] and directories [ds] that are new, and managed files [W] that were replaced. *)
Record stands (F W : gmap string inode) (ds : gset string) (base d : gmap string inode) : Prop := {
  st_layers : layered D0 missing F ds base;
  st_disk : d = W ∪ base;
  st_files : forall p, is_Some (F !! p) -> p ∈ paths;
  st_managed : forall p, is_Some (W !! p) -> p ∈ paths /\ F !! p = None
}.

Lemma stands_elsewhere F W ds base d q :
  stands F W ds base d -> q ∉ paths -> d !! q = if bool_decide (q ∈ ds) then Some Directory else D0 !! q.
Proof.
  intros [Hl -> HF HW] Hq. rewrite lookup_union_r; [|apply eq_None_not_Some; by intros [? _]%HW].
  rewrite (proj1 Hl). destruct (F !! q) eqn:E; [|done]. exfalso. apply Hq, HF. by rewrite E.
Qed.
Lemma stands_unblocked F W ds base d p : stands F W ds base d -> p ∈ paths -> blocked d p = false.
Proof.
  intros Hs Hp. pose proof (unblocked p Hp) as Hb. unfold blocked in *. apply not_true_iff_false. intros Hx. apply not_true_iff_false in Hb.
  apply Hb. apply existsb_exists in Hx as (a & Ha & Hx). apply existsb_exists. exists a. split; [done|].
  assert (a ∉ paths) as Hna by (intros Hin; apply (apart a p Hin Hp); by apply list_elem_of_In).
  rewrite (stands_elsewhere _ _ _ _ _ a Hs Hna) in Hx. destruct (bool_decide (a ∈ ds)); [|done].
  apply andb_true_iff in Hx as [_ Hx]. by rewrite bool_decide_eq_true_2 in Hx.
Qed.
Lemma paths_not_missing p : p ∈ paths -> p ∉ missing.
Proof. intros Hp (q & Hq & Hpq)%missing_above_path. by apply (apart p q). Qed.
(** Where nothing of ours is, the first disk shows. *)
Lemma stands_base F W ds base d p : stands F W ds base d -> p ∈ paths -> F !! p = None -> base !! p = D0 !! p.
Proof.
  intros [Hl _ _ _] Hp HF. rewrite (proj1 Hl), HF. case_bool_decide as Hin; [|done].
  exfalso. by apply (paths_not_missing p Hp), (proj2 (proj2 Hl)).
Qed.

Definition fresh (d : gmap string inode) : Prop := forall p t, p ∈ managed_paths -> d !! temporary temp p t = None.
Definition calm (m : machine) : Prop := quiet fault m /\ fresh (disk m).

Lemma capture_ok p m F W ds base :
  quiet fault m -> stands F W ds base (disk m) -> p ∈ paths ->
  capture fault p m = (file_state (disk m !! p), {| disk := disk m; tick := S (tick m) |}).
Proof.
  intros Hq Hs Hp. unfold capture, reading, bindM. rewrite call_ok by done. cbn. by rewrite capture_state by (by eapply stands_unblocked).
Qed.

(** One entry of the journal, undone. *)
Lemma undo_created e i m F W ds base :
  calm m -> stands F W ds base (disk m) -> F !! pb_path e = Some i -> file_state (Some i) = Ok (pb_published e) -> pb_previous e = no_file ->
  exists m', rollbackResourcePublication fault partial temp e m = (Ok tt, m') /\ calm m'
    /\ stands (delete (pb_path e) F) W ds (delete (pb_path e) base) (disk m').
Proof.
  intros [Hq Hfr] Hs HF Hpub Hprev. pose proof Hs as [Hl Hd HFs HW].
  assert (pb_path e ∈ paths) as Hp by (apply HFs; by rewrite HF).
  assert (W !! pb_path e = None) as HWn by (apply eq_None_not_Some; intros [_ H]%HW; congruence).
  assert (disk m !! pb_path e = Some i) as Hi by (rewrite Hd, lookup_union_r by done; rewrite (proj1 Hl); by rewrite HF).
  unfold rollbackResourcePublication, bindM. unfold failing at 1. erewrite capture_ok by eassumption. rewrite Hi, Hpub.
  rewrite Hprev. rewrite (same_state _ None _ _ Hpub eq_refl), bool_decide_eq_false_2 by done.
  rewrite (same_state _ _ _ _ Hpub Hpub), bool_decide_eq_true_2 by done. cbn [negb]. unfold failing, restore. cbn [fs_exists no_file].
  assert (exists mode data, i = RegularFile mode data) as (mode & data & ->) by (destruct i; try done; by eexists _, _).
  unfold bindM, unless_missing. erewrite Remove_file; [|eapply quiet_later; [exact Hq|cbn; lia]|exact Hi]. cbn. eexists. split; [done|].
  split; [split; [eapply quiet_later; [exact Hq|cbn; lia]|]|]; cbn.
  - intros p t Hin. rewrite lookup_delete_None. right. by apply Hfr.
  - split; cbn.
    + apply layered_drop_file; [done|by rewrite HF].
    + rewrite Hd, delete_union. f_equal. by apply delete_id.
    + intros p [j [_ Hj]%lookup_delete_Some]. apply HFs. by rewrite Hj.
    + intros p Hin. destruct (HW p Hin) as [H1 H2]. split; [done|]. rewrite lookup_delete_None. by right.
Qed.
(** Without failures a managed file is replaced. *)
Lemma managed_ok p content m :
  quiet fault m -> p ∈ managed_paths -> disk m !! temporary temp p (tick m) = None -> blocked (disk m) p = false ->
  is_dir (Dir p) (disk m) = true -> is_ok (file_state (disk m !! p)) = true ->
  exists m', writeManagedFile fault partial temp p content m = (Ok tt, m') /\ (tick m <= tick m')%nat
    /\ disk m' = <[p := RegularFile (managed_mode (disk m) p) content]> (disk m).
Proof.
  intros Hq Hp Htemp Hb Hdir Hok.
  pose proof (managed_triple fault partial temp once p content (disk m) (fun t => managed_temporary temp p t Hp) m eq_refl) as H.
  destruct (writeManagedFile fault partial temp p content m) as [[[]|e] m1] eqn:E; destruct H as [H Ht]; [by exists m1|]. exfalso.
  assert (forall mode, replace_with_mode fault partial temp p mode content m = (Err e, m1) -> False) as Hr.
  { intros mode. unfold replace_with_mode, gets, look, bindM. cbn zeta. fold (temporary temp p (tick m)). unfold gets. cbv beta iota.
    rewrite Hdir. rewrite bool_decide_eq_false_2 by (rewrite Htemp; by intros []). cbn [orb negb].
    rewrite call_ok by done. cbv beta iota. unfold deferred, replace_file, bindM, stage_temporary, bindM, deferred_failure.
    unfold write_contents, call. cbn [tick]. repeat (progress rewrite ?Hq by (cbn; lia); cbn). done. }
  unfold writeManagedFile, look, gets, bindM, Stat in E. rewrite Hb in E. destruct (disk m !! p) as [[]|]; try done; by eapply Hr.
Qed.

Lemma restore_file_ok p mode data m :
  calm m -> p ∈ managed_paths -> blocked (disk m) p = false -> is_dir (Dir p) (disk m) = true -> is_ok (file_state (disk m !! p)) = true ->
  exists m', restore fault partial temp {| fs_exists := true; fs_mode := mode; fs_data := data |} p m = (Ok tt, m')
    /\ (tick m <= tick m')%nat /\ disk m' = <[p := RegularFile mode data]> (disk m).
Proof.
  intros [Hq Hfr] Hp Hb Hdir Hok. destruct (managed_ok p data m Hq Hp (Hfr _ _ Hp) Hb Hdir Hok) as (m1 & E1 & Ht & Hd).
  unfold restore, bindM. cbn [fs_exists fs_data fs_mode]. rewrite E1. unfold chmod. rewrite call_ok by (by eapply quiet_later).
  eexists. split; [done|]. cbn. split; [lia|]. rewrite Hd. apply map_eq. intros q. destruct (decide (q = p)) as [->|Hne].
  - by rewrite lookup_alter_eq, !lookup_insert_eq.
  - by rewrite lookup_alter_ne, !lookup_insert_ne.
Qed.

(** Taking a managed file out of [W] brings the first disk back at its path. *)
Lemma drop_managed F W ds base d p d' :
  stands F W ds base d -> p ∈ paths -> F !! p = None -> d' !! p = D0 !! p -> (forall q, q <> p -> d' !! q = d !! q) ->
  stands F (delete p W) ds base d'.
Proof.
  intros Hs Hp HF Hd' Hother. pose proof (stands_base _ _ _ _ _ _ Hs Hp HF) as Hbase. destruct Hs as [Hl Hd HFs HW]. split; [done| |done|].
  - apply map_eq. intros q. destruct (decide (q = p)) as [->|Hne].
    + rewrite lookup_union_r by apply lookup_delete_eq. by rewrite Hd', Hbase.
    + rewrite Hother, Hd by done. by rewrite !lookup_union, lookup_delete_ne.
  - intros q [j [_ Hj]%lookup_delete_Some]. apply HW. by rewrite Hj.
Qed.
Lemma fresh_shrinks d d' : fresh d -> (forall q, d !! q = None -> d' !! q = None) -> fresh d'.
Proof. intros Hf Hd p t Hp. by apply Hd, Hf. Qed.

Lemma undo_managed e m F W ds base :
  calm m -> stands F W ds base (disk m) -> pb_path e ∈ paths -> pb_path e ∈ managed_paths -> F !! pb_path e = None ->
  file_state (D0 !! pb_path e) = Ok (pb_previous e) ->
  (forall i, W !! pb_path e = Some i -> file_state (Some i) = Ok (pb_published e)) ->
  exists m', rollbackResourcePublication fault partial temp e m = (Ok tt, m') /\ calm m'
    /\ stands F (delete (pb_path e) W) ds base (disk m').
Proof.
  intros [Hq Hfr] Hs Hp Hman HF Hprev Hpub. pose proof (stands_base _ _ _ _ _ _ Hs Hp HF) as Hbase. pose proof Hs as [Hl Hd HFs HW].
  assert (quiet fault {| disk := disk m; tick := S (tick m) |}) as Hq1 by (eapply quiet_later; [exact Hq|cbn; lia]).
  set (p := pb_path e) in *. assert (exists s, file_state (disk m !! p) = Ok s /\ (disk m !! p = D0 !! p \/ s = pb_published e /\ is_Some (disk m !! p))) as (s & Hs' & Hcase).
  { rewrite Hd. destruct (W !! p) as [i|] eqn:Ew.
    - rewrite (lookup_union_Some_l _ _ _ _ Ew). eexists. split; [by apply Hpub|right]. by split.
    - rewrite lookup_union_r by done. rewrite Hbase. eexists. split; [exact Hprev|by left]. }
  unfold rollbackResourcePublication, bindM. fold p. unfold failing at 1. erewrite capture_ok by eassumption. rewrite Hs'.
  rewrite (same_state _ _ _ _ Hs' Hprev). case_bool_decide as Esame.
  { eexists. split; [done|]. split; [by split|]. eapply drop_managed; try eassumption; by intros. }
  destruct Hcase as [|[-> Hhere]]; [done|]. rewrite (same_state _ _ _ _ Hs' Hs'), bool_decide_eq_true_2 by done. cbn [negb].
  destruct (file_state_cases _ _ Hprev) as [[H0 ->]|(mode & data & H0 & ->)].
  - unfold failing, restore. cbn [fs_exists no_file]. destruct (file_state_cases _ _ Hs') as [[Hn _]|(mode & data & Hi & _)]; [congruence|].
    unfold bindM, unless_missing. erewrite Remove_file; [|exact Hq1|exact Hi]. cbn. eexists. split; [done|].
    split; [split; [eapply quiet_later; [exact Hq|cbn; lia]|]|]; cbn.
    + eapply fresh_shrinks; [exact Hfr|]. intros q Hn. rewrite lookup_delete_None. by right.
    + eapply drop_managed; try eassumption; [by rewrite lookup_delete_eq|]. intros q Hne. by rewrite lookup_delete_ne.
  - assert (is_dir (Dir p) (disk m) = true) as Hdir.
    { unfold is_dir. case_bool_decide as Edot; [done|]. cbn [orb]. apply bool_decide_eq_true.
      assert (Dir p ∉ paths) as Hnp.
      { intros Hin. apply (apart _ _ Hin Hp). rewrite ancestors_step, bool_decide_eq_false_2 by done. by left. }
      rewrite (stands_elsewhere _ _ _ _ _ _ Hs Hnp). case_bool_decide; [done|]. destruct (tree0 p); [by rewrite H0|done|done]. }
    unfold failing.
    destruct (restore_file_ok p mode data {| disk := disk m; tick := S (tick m) |}) as (m1 & -> & Ht & Hd1);
      [by split|done|by eapply stands_unblocked|done|by cbn; rewrite Hs'|].
    eexists. split; [done|]. cbn in Hd1, Ht. split; [split; [eapply quiet_later; [exact Hq|lia]|]|]; rewrite Hd1.
    + eapply fresh_shrinks; [exact Hfr|]. intros q Hn. rewrite lookup_insert_None. split; [done|]. intros ->.
      rewrite Hn in Hhere. by destruct Hhere.
    + eapply drop_managed; try eassumption; [by rewrite lookup_insert_eq|]. intros q Hne. by rewrite lookup_insert_ne.
Qed.

Lemma join_all_app a b cause m :
  join_all (a ++ b) cause m = match join_all a cause m with (Ok e, m') => join_all b e m' | other => other end.
Proof. revert cause m. induction a as [|c a IH]; intros cause m; cbn; [done|]. destruct (c m) as [[]]; apply IH. Qed.

(** A directory of ours goes when nothing is in it. *)
Lemma remove_directory_ok n a m ds :
  quiet fault m -> layered D0 missing ∅ ds (disk m) -> D0 !! a = None -> blocked (disk m) a = false ->
  exists r m' ds', remove_attempts fault n a m = (r, m') /\ quiet fault m' /\ layered D0 missing ∅ ds' (disk m') /\ ds' ⊆ ds
    /\ (a ∈ ds -> has_children a (disk m) = false -> a ∉ ds').
Proof.
  intros Hq Hl H0 Hb. set (m1 := {| disk := disk m; tick := S (tick m) |}).
  assert (quiet fault m1) as Hq1 by (eapply quiet_later; [exact Hq|cbn; lia]).
  pose proof (proj1 Hl a) as Ha. rewrite lookup_empty, H0 in Ha.
  assert (reading fault (nothing_to_remove a) m = (Ok (negb (bool_decide (a ∈ ds)) || has_children a (disk m)), m1)) as Er.
  { unfold reading, bindM. rewrite call_ok by done. cbn -[nothing_to_remove]. unfold nothing_to_remove, Stat. rewrite Hb, Ha. by case_bool_decide. }
  destruct (negb (bool_decide (a ∈ ds)) || has_children a (disk m)) eqn:En.
  { exists (Ok tt), m1, ds. split_and!; [by destruct n; cbn [remove_attempts]; rewrite Er|done|done|done|].
    intros Hin Hc. by rewrite bool_decide_eq_true_2, Hc in En. }
  apply orb_false_iff in En as [Hin%negb_false_iff%bool_decide_eq_true Ec]. rewrite bool_decide_eq_true_2 in Ha by done.
  assert (Remove fault a m1 = (Ok tt, {| disk := delete a (disk m); tick := S (tick m1) |})) as Ed.
  { change (disk m) with (disk m1) in Ha, Ec |- *. unfold Remove, look, gets, bindM. rewrite Ha. cbv beta iota. rewrite Ec. by apply call_ok. }
  exists (Ok tt), {| disk := delete a (disk m); tick := S (tick m1) |}, (ds ∖ {[a]}).
  split_and!; [by destruct n; cbn [remove_attempts]; rewrite Er, Ed|eapply quiet_later; [exact Hq|cbn; lia]|by apply (layered_drop_dir fault format once)|set_solver|set_solver].
Qed.

(** The deepest directory of ours has nothing in it. *)
Lemma nothing_inside a dirs ds d :
  layered D0 missing ∅ ds d -> Forall (deeper a) dirs -> (forall b, b ∈ ds -> b ∈ a :: dirs) -> a <> "." -> D0 !! a = None ->
  has_children a d = false.
Proof.
  intros Hl Ha Hin Hdot H0. apply bool_decide_eq_false. intros (q & [i Hi]%elem_of_dom & Hdir).
  assert (Hdeep : (Count a "/" < Count q "/")%nat) by (rewrite <- Hdir; apply Dir_shallower; congruence).
  rewrite (proj1 Hl), lookup_empty in Hi. case_bool_decide as Hqds.
  - assert (q ∈ a :: dirs) as [->|Hqd]%elem_of_cons by (by apply Hin); [lia|].
    rewrite Forall_forall in Ha. specialize (Ha q Hqd). unfold deeper in Ha. lia.
  - destruct (tree0 q) as [E|E]; [by eexists|congruence|]. rewrite Hdir in E. congruence.
Qed.
Lemma missing_unblocked a ds d : layered D0 missing ∅ ds d -> a ∈ missing -> blocked d a = false.
Proof.
  intros Hl (p & Hp & Ha)%missing_above_path. pose proof (unblocked p Hp) as Hb. unfold blocked in *.
  apply not_true_iff_false. intros Hx. apply not_true_iff_false in Hb. apply Hb. apply existsb_exists in Hx as (b & Hin & Hx).
  apply existsb_exists. exists b. apply list_elem_of_In in Hin. split; [apply list_elem_of_In; by eapply ancestors_trans|].
  rewrite (proj1 Hl), lookup_empty in Hx. destruct (bool_decide (b ∈ ds)); [|done].
  apply andb_true_iff in Hx as [_ Hx]. by rewrite bool_decide_eq_true_2 in Hx.
Qed.
Lemma remove_all_directories dirs cause m ds :
  quiet fault m -> layered D0 missing ∅ ds (disk m) -> StronglySorted deeper dirs ->
  (forall a, a ∈ ds -> a ∈ dirs) -> (forall a, a ∈ dirs -> a ∈ missing) ->
  exists e m', join_all (removeEmptyGeneratedDirectory fault <$> dirs) cause m = (Ok e, m') /\ disk m' = D0.
Proof.
  revert cause m ds. induction dirs as [|a dirs IH]; intros cause m ds Hq Hl Hs Hin Hm.
  { exists cause, m. split; [done|]. apply (layered_nothing D0 missing). assert (ds = ∅) as <- by (apply set_eq; set_solver). done. }
  apply StronglySorted_inv in Hs as [Hs Ha]. assert (a ∈ missing) as Ham by (apply Hm; by left). destruct (missing_gone a Ham) as [Hdot H0].
  assert (a ∈ ds -> has_children a (disk m) = false) as Hempty by (intros Hads; eapply nothing_inside; eauto).
  destruct (remove_directory_ok 7 a m ds Hq Hl H0 (missing_unblocked a ds _ Hl Ham)) as (r & m1 & ds1 & Er & Hq1 & Hl1 & Hsub & Hgone).
  cbn [fmap list_fmap join_all]. change (removeEmptyGeneratedDirectory fault a m) with (remove_attempts fault 7 a m). rewrite Er.
  assert (forall b, b ∈ ds1 -> b ∈ dirs) as Hin1.
  { intros b Hb. assert (b ∈ a :: dirs) as [->|]%elem_of_cons by (apply Hin; set_solver); [|done]. exfalso. apply Hgone; [set_solver| |done]. apply Hempty. set_solver. }
  destruct r; (eapply IH; [done|exact Hl1|done|done|]; intros b Hb; apply Hm; by right).
Qed.

(** ** The journal *)

Record journaled (F W : gmap string inode) (s : publishing) : Prop := {
  jn_stands : exists ds base, stands F W ds base (disk (ps_machine s));
  jn_created : forall e, e ∈ ps_created s ->
    exists i, F !! pb_path e = Some i /\ file_state (Some i) = Ok (pb_published e) /\ pb_previous e = no_file;
  jn_files : forall p, is_Some (F !! p) -> p ∈ pb_path <$> ps_created s;
  jn_created_once : NoDup (pb_path <$> ps_created s);
  jn_managed : forall e, e ∈ ps_managed s ->
    pb_path e ∈ paths /\ pb_path e ∈ managed_paths /\ F !! pb_path e = None /\ file_state (D0 !! pb_path e) = Ok (pb_previous e)
    /\ forall i, W !! pb_path e = Some i -> file_state (Some i) = Ok (pb_published e);
  jn_replaced : forall p, is_Some (W !! p) -> p ∈ pb_path <$> ps_managed s;
  jn_managed_once : NoDup (pb_path <$> ps_managed s)
}.

Lemma undo_all_created es cause m F W ds base :
  calm m -> stands F W ds base (disk m) -> NoDup (pb_path <$> es) ->
  (forall e, e ∈ es -> exists i, F !! pb_path e = Some i /\ file_state (Some i) = Ok (pb_published e) /\ pb_previous e = no_file) ->
  (forall p, is_Some (F !! p) -> p ∈ pb_path <$> es) ->
  exists m' base', join_all (rollbackResourcePublication fault partial temp <$> es) cause m = (Ok cause, m') /\ calm m' /\ stands ∅ W ds base' (disk m').
Proof.
  revert m F base. induction es as [|e es IH]; intros m F base Hc Hs Hnd Hes HF.
  { exists m, base. split_and!; [done|done|]. replace ∅ with F; [done|]. apply map_empty. intros p. apply eq_None_not_Some. by intros ?%HF%elem_of_nil. }
  cbn [fmap list_fmap] in Hnd. apply NoDup_cons in Hnd as [Hnot Hnd]. destruct (Hes e) as (i & Hi & Hpub & Hprev); [by left|].
  destruct (undo_created e i m F W ds base Hc Hs Hi Hpub Hprev) as (m1 & E1 & Hc1 & Hs1). cbn [fmap list_fmap join_all]. rewrite E1.
  eapply IH; [done|exact Hs1|done| |].
  - intros e' He'. destruct (Hes e') as (j & Hj & Hrest); [by right|]. exists j. split; [|done]. rewrite lookup_delete_ne; [done|].
    intros Heq. apply Hnot. rewrite Heq. by apply list_elem_of_fmap_2.
  - intros p [j [Hne Hj]%lookup_delete_Some]. assert (p ∈ pb_path <$> e :: es) as [->|]%elem_of_cons by (apply HF; by rewrite Hj); done.
Qed.
Lemma undo_all_managed es cause m W ds base :
  calm m -> stands ∅ W ds base (disk m) -> NoDup (pb_path <$> es) ->
  (forall e, e ∈ es -> pb_path e ∈ paths /\ pb_path e ∈ managed_paths /\ file_state (D0 !! pb_path e) = Ok (pb_previous e)
     /\ forall i, W !! pb_path e = Some i -> file_state (Some i) = Ok (pb_published e)) ->
  (forall p, is_Some (W !! p) -> p ∈ pb_path <$> es) ->
  exists m', join_all (rollbackResourcePublication fault partial temp <$> es) cause m = (Ok cause, m') /\ calm m' /\ stands ∅ ∅ ds base (disk m').
Proof.
  revert m W. induction es as [|e es IH]; intros m W Hc Hs Hnd Hes HW.
  { exists m. split_and!; [done|done|]. replace W with (∅ : gmap string inode) in Hs; [done|]. symmetry. apply map_empty. intros p. apply eq_None_not_Some. by intros ?%HW%elem_of_nil. }
  cbn [fmap list_fmap] in Hnd. apply NoDup_cons in Hnd as [Hnot Hnd]. destruct (Hes e) as (Hp & Hman & Hprev & Hpub); [by left|].
  destruct (undo_managed e m ∅ W ds base Hc Hs Hp Hman (lookup_empty _) Hprev Hpub) as (m1 & E1 & Hc1 & Hs1). cbn [fmap list_fmap join_all]. rewrite E1.
  eapply IH; [done|exact Hs1|done| |].
  - intros e' He'. destruct (Hes e') as (H1 & H2 & H3 & H4); [by right|]. split_and!; [done..|]. intros j [_ Hj]%lookup_delete_Some. by apply H4.
  - intros p [j [Hne Hj]%lookup_delete_Some]. assert (p ∈ pb_path <$> e :: es) as [->|]%elem_of_cons by (apply HW; by rewrite Hj); done.
Qed.

(** The rollback of a journal ends with the first disk. *)
Lemma rollback_undoes_journal F W s dirs cause :
  calm (ps_machine s) -> journaled F W s -> StronglySorted deeper dirs -> (forall a, a ∈ dirs <-> a ∈ missing) ->
  exists e m', rollback_resource fault partial temp s dirs cause (ps_machine s) = (Ok e, m') /\ disk m' = D0.
Proof.
  intros Hc [(ds & base & Hs) Hcr Hfi Hcn Hma Hre Hmn] Hsort Hdirs. unfold rollback_resource. rewrite fmap_app, <- (assoc_L (++)), join_all_app.
  destruct (undo_all_created (reverse (ps_created s)) cause (ps_machine s) F W ds base Hc Hs) as (m1 & base1 & -> & Hc1 & Hs1).
  { by rewrite fmap_reverse, reverse_Permutation. }
  { intros e He. apply Hcr. by rewrite elem_of_reverse in He. }
  { intros p Hp. rewrite fmap_reverse, elem_of_reverse. by apply Hfi. }
  cbv beta iota. rewrite join_all_app. destruct (undo_all_managed (ps_managed s) cause m1 W ds base1 Hc1 Hs1 Hmn) as (m2 & -> & [Hq2 _] & Hs2); [|done|].
  { intros e He. destruct (Hma e He) as (H1 & H2 & _ & H4). done. }
  cbv beta iota. pose proof (st_layers _ _ _ _ _ Hs2) as Hl. pose proof (st_disk _ _ _ _ _ Hs2) as Hd. rewrite (left_id_L ∅ (∪)) in Hd. rewrite <- Hd in Hl.
  eapply remove_all_directories; [done|exact Hl|done| |by intros a ?%Hdirs]. intros a Ha. apply Hdirs. by apply (proj2 (proj2 Hl)).
Qed.

(** ** The writes keep the journal *)

Lemma stands_layered F ds d : layered D0 missing F ds d -> (forall p, is_Some (F !! p) -> p ∈ paths) -> stands F ∅ ds d d.
Proof. intros Hl HF. split; [done|by rewrite (left_id_L ∅ (∪))|done|]. intros p. rewrite lookup_empty. by intros []. Qed.
Lemma layered_stands F ds base d : stands F ∅ ds base d -> layered D0 missing F ds d.
Proof. intros [Hl -> _ _]. by rewrite (left_id_L ∅ (∪)). Qed.

Lemma journaled_same_disk F W s m :
  journaled F W s -> disk m = disk (ps_machine s) ->
  journaled F W {| ps_machine := m; ps_created := ps_created s; ps_managed := ps_managed s |}.
Proof. intros [Hs ? ? ? ? ? ?] Hd. split; cbn; try done. destruct Hs as (ds & base & Hs). exists ds, base. by rewrite Hd. Qed.

(** A created file enters the journal with the state it has on the disk. *)
Lemma journaled_create F s m path i published :
  journaled F ∅ s -> ps_managed s = [] -> F !! path = None -> path ∈ paths -> holds D0 missing (<[path := i]> F) m ->
  captureDevelopmentFile path (disk m) = Ok published ->
  journaled (<[path := i]> F) ∅
    {| ps_machine := m; ps_created := ps_created s ++ [{| pb_path := path; pb_published := published; pb_previous := no_file |}]; ps_managed := ps_managed s |}.
Proof.
  intros [Hs Hcr Hfi Hcn _ _ _] Hnil HF Hp [ds Hl] Hcap.
  assert (forall p, is_Some (<[path := i]> F !! p) -> p ∈ paths) as HFp.
  { intros p. destruct (decide (p = path)) as [->|Hne]; [done|]. rewrite lookup_insert_ne by done. destruct Hs as (ds0 & base0 & Hs). by apply (st_files _ _ _ _ _ Hs). }
  split; cbn.
  - exists ds, (disk m). by apply stands_layered.
  - intros e [He|He%list_elem_of_singleton]%elem_of_app; [|subst e].
    + destruct (Hcr e He) as (j & Hj & Hrest). exists j. split; [|done]. rewrite lookup_insert_ne; [done|]. intros Heq. rewrite <- Heq in Hj. congruence.
    + exists i. cbn. rewrite lookup_insert_eq. split_and!; [done| |done]. apply captured_state in Hcap as [_ Hcap].
      by rewrite (proj1 Hl), lookup_insert_eq in Hcap.
  - intros p. rewrite fmap_app, elem_of_app. destruct (decide (p = path)) as [->|Hne]; [intros _; right; by left|].
    rewrite lookup_insert_ne by done. intros Hin. left. by apply Hfi.
  - rewrite fmap_app. apply NoDup_app. split_and!; [done| |apply NoDup_singleton]. intros p Hin Hp'. apply list_elem_of_singleton in Hp'. cbn in Hp'. subst p.
    apply list_elem_of_fmap in Hin as (e & He' & He). destruct (Hcr e He) as (j & Hj & _). rewrite He' in HF. congruence.
  - rewrite Hnil. by intros e ?%elem_of_nil.
  - intros p. rewrite lookup_empty. by intros [].
  - rewrite Hnil. constructor.
Qed.

Definition uncaptured (cause : error) : Prop := exists e, cause = Wrapf "capture generated resource %s: %w" e.

Lemma create_files_outcome cancelled files F s r s' :
  (forall f, f ∈ files -> covered D0 missing (pl_path f) /\ pl_path f ∈ paths) -> journaled F ∅ s -> ps_managed s = [] ->
  create_files fault partial format cancelled files s = (r, s') ->
  match r with
  | Err cause => uncaptured cause \/ exists F', journaled F' ∅ s'
  | Ok _ => exists F', journaled F' ∅ s' /\ ps_managed s' = [] /\ F ⊆ F'
      /\ (forall f, f ∈ files -> exists i, F' !! pl_path f = Some i /\ file_of format f i)
      /\ (forall p, is_Some (F' !! p) -> is_Some (F !! p) \/ p ∈ pl_path <$> files)
  end.
Proof.
  revert F s. induction files as [|f files IH]; intros F s Hfs Hj Hnil; cbn [create_files].
  { intros [= <- <-]. exists F. split_and!; [done..| |by left]. by intros f ?%elem_of_nil. }
  destruct (Hfs f) as [Hcov Hp]; [by left|]. unfold bindM, lift at 1. unfold check_context.
  assert (forall m, disk m = disk (ps_machine s) -> journaled F ∅ {| ps_machine := m; ps_created := ps_created s; ps_managed := ps_managed s |}) as Hsame
    by (intros m; by apply journaled_same_disk).
  destruct (cancelled _) as [e|]; [intros [= <- <-]; right; exists F; by apply Hsame|].
  unfold lift at 1. cbn [ps_machine ps_created ps_managed]. destruct (formatted format f) as [content|] eqn:Ef.
  2: { cbn. intros [= <- <-]. right. exists F. by apply Hsame. }
  destruct (jn_stands _ _ _ Hj) as (ds & base & Hs).
  pose proof (exclusive_triple fault partial format once D0 missing missing_gone F (pl_path f) content Hcov (ps_machine s)
    (ex_intro _ ds (layered_stands _ _ _ _ Hs))) as Hx.
  destruct (writeExclusive fault partial (pl_path f) (Some content) (ps_machine s)) as [[[]|e] m1]; destruct Hx as [Hx _].
  2: { intros [= <- <-]. right. exists F. destruct Hx as [ds1 Hl1]. split; cbn; try apply Hj.
       exists ds1, (disk m1). apply stands_layered; [done|]. apply (st_files _ _ _ _ _ Hs). }
  destruct Hx as [HF Hh]. unfold lift at 1. cbn [ps_machine ps_created ps_managed]. unfold failing, capture, reading, bindM, call.
  destruct (fault (tick m1)) as [e|]; [intros [= <- <-]; left; by exists e|]. cbn [disk id].
  destruct (captureDevelopmentFile (pl_path f) (disk m1)) as [published|e] eqn:Ec; [|intros [= <- <-]; left; by exists e].
  unfold note_created. cbn [ps_machine ps_created ps_managed]. intros Hrun.
  specialize (IH (<[pl_path f := RegularFile (generatedFileMode (pl_path f)) content]> F) _
    (fun g Hg => Hfs g (list_elem_of_further _ _ _ Hg))
    (journaled_create F s {| disk := disk m1; tick := S (tick m1) |} (pl_path f) _ published Hj Hnil HF Hp Hh Ec) Hnil Hrun).
  destruct r as [[]|cause]; [|done]. destruct IH as (F' & H1 & H2 & H3 & H4 & H5). exists F'. split_and!; [done|done| | |].
  - etrans; [|exact H3]. by apply insert_subseteq.
  - intros g [->|Hg]%elem_of_cons; [|by apply H4]. eexists. split; [eapply lookup_weaken; [apply lookup_insert_eq|exact H3]|]. by exists content.
  - intros p [Hin|Hin]%H5; [|right; by right]. destruct (decide (p = pl_path f)) as [->|Hne]; [right; by left|].
    rewrite lookup_insert_ne in Hin by done. by left.
Qed.

Lemma capture_disk p m : disk (snd (capture fault p m)) = disk m.
Proof. unfold capture, reading, bindM, call. by destruct (fault (tick m)). Qed.
Lemma publish_file_outcome p old contents m r m' :
  p ∈ managed_paths -> blocked (disk m) p = false -> file_state (disk m !! p) = Ok old ->
  publishResourceManagedFile fault partial temp p old contents m = (r, m') ->
  let i := RegularFile (if fs_exists old then fs_mode old else generatedFileMode p) contents in
  disk m' = <[p := i]> (disk m) \/ r <> Ok tt /\ disk m' = disk m.
Proof.
  intros Hp Hb Hold. unfold publishResourceManagedFile, bindM. unfold failing at 1. pose proof (capture_disk p m) as Hc.
  destruct (capture fault p m) as [[current|e] m1]; cbn [snd] in Hc; [|intros [= <- <-]; right; by rewrite Hc].
  destruct (negb (sameResourceFileState current old)); [intros [= <- <-]; right; by rewrite Hc|].
  pose proof (managed_triple fault partial temp once p contents (disk m) (fun t => managed_temporary temp p t Hp) m1 Hc) as Hw.
  assert (managed_mode (disk m) p = if fs_exists old then fs_mode old else generatedFileMode p) as Hmode.
  { unfold managed_mode. by destruct (file_state_cases _ _ Hold) as [[-> ->]|(mode & data & -> & ->)]. }
  destruct (writeManagedFile fault partial temp p contents m1) as [[[]|e] m2]; destruct Hw as [Hw _]; [|intros [= <- <-]; by right].
  rewrite Hmode in Hw. unfold failing. pose proof (capture_disk p m2) as Hc2.
  destruct (capture fault p m2) as [[after|e] m3]; cbn [snd] in Hc2; [|intros [= <- <-]; left; by rewrite Hc2].
  destruct (negb _); intros [= <- <-]; left; by rewrite Hc2.
Qed.

(** The journal names the file before it is written, and what was there. *)
Lemma journaled_note F W s p old contents :
  journaled F W s -> p ∈ managed_paths -> p ∈ paths -> F !! p = None -> p ∉ pb_path <$> ps_managed s -> file_state (D0 !! p) = Ok old ->
  journaled F W (snd (note_managed {| pb_path := p; pb_published := resourceManagedPublicationState p old contents; pb_previous := old |} s)).
Proof.
  intros [Hs Hcr Hfi Hcn Hma Hre Hmn] Hman Hp HF Hnew Hold. split; cbn; try done.
  - intros e [He|He%list_elem_of_singleton]%elem_of_app; [by apply Hma|]. subst e. cbn. split_and!; try done.
    intros i Hi. exfalso. apply Hnew, Hre. by rewrite Hi.
  - intros q Hq. rewrite fmap_app, elem_of_app. left. by apply Hre.
  - rewrite fmap_app. apply NoDup_app. split_and!; [done| |apply NoDup_singleton]. intros q Hq Hq'.
    apply list_elem_of_singleton in Hq'. cbn in Hq'. congruence.
Qed.
Lemma journaled_replace F W s m e :
  journaled F W s -> e ∈ ps_managed s -> forall i, file_state (Some i) = Ok (pb_published e) ->
  disk m = <[pb_path e := i]> (disk (ps_machine s)) ->
  (forall e', e' ∈ ps_managed s -> pb_path e' = pb_path e -> e' = e) ->
  journaled F (<[pb_path e := i]> W) {| ps_machine := m; ps_created := ps_created s; ps_managed := ps_managed s |}.
Proof.
  intros [Hs Hcr Hfi Hcn Hma Hre Hmn] He i Hi Hd Huniq. destruct (Hma e He) as (Hp & Hman & HF & Hprev & _). split; cbn; try done.
  - destruct Hs as (ds & base & [Hl Hdb HFs HW]). exists ds, base. split; [done| |done|].
    + by rewrite Hd, Hdb, insert_union_l.
    + intros q. destruct (decide (q = pb_path e)) as [->|Hne]; [done|]. rewrite lookup_insert_ne by done. apply HW.
  - intros e' He'. destruct (Hma e' He') as (H1 & H2 & H3 & H4 & H5). split_and!; try done. intros j.
    destruct (decide (pb_path e' = pb_path e)) as [Heq|Hne]; [|rewrite lookup_insert_ne by done; apply H5].
    rewrite Heq, lookup_insert_eq. intros [= <-]. by rewrite (Huniq e' He' Heq).
  - intros q. destruct (decide (q = pb_path e)) as [->|Hne]; [intros _; by apply list_elem_of_fmap_2|]. rewrite lookup_insert_ne by done. apply Hre.
Qed.
Lemma publish_managed_outcome cancelled F W s p old contents message r s' :
  journaled F W s -> p ∈ managed_paths -> p ∈ paths -> F !! p = None -> p ∉ pb_path <$> ps_managed s -> file_state (D0 !! p) = Ok old ->
  publish_managed fault partial temp cancelled p old contents message s = (r, s') ->
  match r with
  | Err _ => exists W', journaled F W' s'
  | Ok _ => (exists mode, journaled F (<[p := RegularFile mode contents]> W) s') /\ pb_path <$> ps_managed s' = (pb_path <$> ps_managed s) ++ [p]
  end.
Proof.
  intros Hj Hman Hp HF Hnew Hold. unfold publish_managed, bindM. unfold lift at 1. unfold check_context.
  destruct (cancelled _) as [e|]; [intros [= <- <-]; exists W; by apply (journaled_same_disk F W s (ps_machine s))|].
  set (e := {| pb_path := p; pb_published := resourceManagedPublicationState p old contents; pb_previous := old |}).
  pose proof (journaled_note F W s p old contents Hj Hman Hp HF Hnew Hold) as Hn. fold e in Hn. unfold note_managed in Hn |- *.
  cbn [snd ps_machine ps_created ps_managed] in Hn |- *. set (s1 := {| ps_machine := ps_machine s; ps_created := ps_created s; ps_managed := ps_managed s ++ [e] |}) in *.
  destruct (jn_stands _ _ _ Hj) as (ds & base & Hs).
  assert (W !! p = None) as HW by (apply eq_None_not_Some; intros Hs'; by apply Hnew, (jn_replaced _ _ _ Hj)).
  assert (disk (ps_machine s) !! p = D0 !! p) as Hhere.
  { rewrite (st_disk _ _ _ _ _ Hs), lookup_union_r by done. by eapply stands_base. }
  unfold lift, failing. cbn [ps_machine s1]. destruct (publishResourceManagedFile fault partial temp p old contents (ps_machine s)) as [r1 m1] eqn:Er.
  assert (forall mode, disk m1 = <[p := RegularFile mode contents]> (disk (ps_machine s)) -> mode = (if fs_exists old then fs_mode old else generatedFileMode p) ->
    journaled F (<[p := RegularFile mode contents]> W) {| ps_machine := m1; ps_created := ps_created s1; ps_managed := ps_managed s1 |}) as Hdone.
  { intros mode Hd Hmode. apply (journaled_replace F W s1 m1 e Hn); [apply elem_of_app; right; by left|by rewrite Hmode|done|].
    intros e' [He'|He'%list_elem_of_singleton]%elem_of_app Heq; [|done]. exfalso. apply Hnew. change p with (pb_path e). rewrite <- Heq. by apply list_elem_of_fmap_2. }
  destruct (publish_file_outcome p old contents (ps_machine s) r1 m1 Hman) as [Hd|[Hr Hd]];
    [by eapply stands_unblocked|by rewrite Hhere|done| |]; cbn [disk] in Hd.
  - destruct r1 as [[]|err]; intros [= <- <-]; [|eexists; by apply (Hdone _ Hd)]. split; [eexists; by apply (Hdone _ Hd)|]. cbn [s1 ps_managed]. by rewrite fmap_app.
  - destruct r1 as [[]|err]; [done|]. intros [= <- <-]. exists W. by apply (journaled_same_disk F W s1 m1 Hn).
Qed.
End Undo.

(** ** Looking again changes nothing *)

Section Still.
Context (fault : nat -> option error).

Definition still {A} (c : M machine A) : Prop := forall m, disk (snd (c m)) = disk m.
Lemma still_bind {A B} (c : M machine A) (k : A -> M machine B) : still c -> (forall a, still (k a)) -> still (bindM c k).
Proof. intros Hc Hk m. unfold bindM. specialize (Hc m). destruct (c m) as [[a|e] m1]; [|done]. by rewrite Hk. Qed.
Lemma still_failing {A} message (c : M machine A) : still c -> still (failing message c).
Proof. intros Hc m. unfold failing. specialize (Hc m). by destruct (c m) as [[]]. Qed.
Lemma still_reading {A} (f : gmap string inode -> result A) : still (reading fault f).
Proof. intros m. unfold reading, bindM, call. by destruct (fault (tick m)). Qed.
Lemma still_answer {A} (r : result A) : still (answer r).
Proof. done. Qed.
Lemma still_ret {A} (a : A) : still (ret a).
Proof. done. Qed.
Lemma still_throw {A} e : still (A := A) (throw e).
Proof. done. Qed.
Lemma still_look {A} (f : gmap string inode -> A) : still (look f).
Proof. done. Qed.
Lemma still_context cancelled : still (check_context cancelled).
Proof. done. Qed.
Lemma still_compiler compiler : still (runProjectViewCompiler compiler).
Proof. done. Qed.
End Still.

Create HintDb still.
#[export] Hint Resolve still_bind still_failing still_reading still_answer still_ret still_throw still_look still_context still_compiler : still.
Ltac keeps_disk := repeat first [ progress intros | progress (auto with still) | apply still_bind | apply still_failing | progress case_match ].

Lemma still_migrations fault relationships : still (recheck_migrations fault relationships).
Proof. induction relationships; cbn [recheck_migrations]; unfold capture; keeps_disk. Qed.
#[export] Hint Resolve still_migrations : still.
Lemma still_validation fault cancelled compiler renderORM schema relationships orm :
  still (validate_publication fault cancelled compiler renderORM schema relationships orm).
Proof. unfold validate_publication, recheckResourceRelationshipDependencies, recheck_labels. keeps_disk. Qed.
Lemma still_prepare fault registryFor compileViews renderORM marshal files relationships state spec :
  still (prepare fault registryFor compileViews renderORM marshal files relationships state spec).
Proof. unfold prepare, capture. keeps_disk. Qed.

(** ** A resource as a whole *)

Lemma failing_ok {St A} message (c : M St A) s a s' : failing message c s = (Ok a, s') -> c s = (Ok a, s').
Proof. unfold failing. by destruct (c s) as [[]]. Qed.
Lemma reading_ok {A} fault (f : gmap string inode -> result A) m a m' :
  reading fault f m = (Ok a, m') -> f (disk m) = Ok a /\ disk m' = disk m.
Proof. unfold reading, bindM, call. destruct (fault (tick m)); [done|]. cbn. by intros [= ? <-]. Qed.

(** What is known once everything is rendered and nothing is written. *)
Record prepared (registryFor : resourceState -> result string) (compileViews : list plannedFile -> gmap string inode -> result string)
    (renderORM : gmap string string -> result string) (marshal : resourceState -> result string)
    (files : list plannedFile) (next : resourceState) (d : gmap string inode) (p : plan) (dirs : list string) : Prop := {
  pr_planned : refuse_planned files d = Ok tt;
  pr_dirs : missingParentDirectories (pl_path <$> files) d = Ok dirs;
  pr_files : pn_files p = files;
  pr_registry : registryFor next = Ok (pn_registry p);
  pr_views : compileViews files d = Ok (pn_views p);
  pr_orm : exists sources, currentModelSourcesWithPlanned files d = Ok sources /\ renderORM sources = Ok (pn_orm p);
  pr_state : exists text, marshal next = Ok text /\ pn_state p = text +:+ String newline EmptyString;
  pr_oldState : captureDevelopmentFile statePath d = Ok (pn_oldState p);
  pr_oldRegistry : captureDevelopmentFile registryPath d = Ok (pn_oldRegistry p);
  pr_oldViews : captureDevelopmentFile generatedViewsPath d = Ok (pn_oldViews p);
  pr_oldORM : captureDevelopmentFile generatedORMPath d = Ok (pn_oldORM p)
}.

(** The readings of [E] succeeded, each on the disk of the one before. *)
Ltac readings E :=
  repeat match type of E with
  | context [reading ?fault ?f ?m] =>
      let a := fresh "a" in let m1 := fresh "m" in let H := fresh "H" in let Hd := fresh "Hd" in
      destruct (reading fault f m) as [[a|] m1] eqn:H; [apply reading_ok in H as [H Hd]|done]
  | context [match ?r with Ok _ => _ | Err _ => _ end] => let Hr := fresh "Hr" in destruct r eqn:Hr; [|done]
  end.

Lemma prepare_prepared fault registryFor compileViews renderORM marshal files relationships state spec m p dirs m0 :
  prepare fault registryFor compileViews renderORM marshal files relationships state spec m = (Ok (p, dirs), m0) ->
  prepared registryFor compileViews renderORM marshal files (next_state state spec) (disk m) p dirs
  /\ disk m0 = disk m /\ pn_relationships p = relationships.
Proof.
  intros E. pose proof (still_prepare fault registryFor compileViews renderORM marshal files relationships state spec m) as Hd. rewrite E in Hd. cbn [snd] in Hd.
  unfold prepare, capture in E. unfold bindM, look, gets, answer, ret, failing in E. readings E.
  repeat match goal with H : disk _ = disk _ |- _ => rewrite H in * end. injection E as <- <- <-.
  split; [|done]. repeat match goal with u : unit |- _ => destruct u end. split; cbn; try done; by eexists.
Qed.

Lemma refuse_planned_spec files d :
  refuse_planned files d = Ok tt -> forall f, f ∈ files -> blocked d (pl_path f) = false /\ d !! pl_path f = None.
Proof.
  induction files as [|g files IH]; cbn; [by intros _ f ?%elem_of_nil|]. unfold Stat. destruct (blocked d (pl_path g)) eqn:Eb; [done|].
  destruct (d !! pl_path g) eqn:Eg; [done|]. intros H f [->|Hf]%elem_of_cons; [done|by apply IH].
Qed.
Lemma collect_missing_above d qs M a :
  collect_missing qs d = Ok M -> a ∈ M -> exists p, p ∈ qs /\ a ∈ ancestors p.
Proof.
  revert M. induction qs as [|q qs IH]; intros M; cbn [collect_missing]; [intros [= <-]; set_solver|].
  destruct (missing_above (ancestors q) d) as [l|] eqn:E1; [|done]. destruct (collect_missing qs d) as [more|] eqn:E2; [|done]. cbn.
  intros [= <-] [Ha%elem_of_list_to_set|Ha]%elem_of_union.
  - destruct (missing_above_missing d _ l a E1 Ha) as [Hin _]. exists q. split; [by left|done].
  - destruct (IH more eq_refl Ha) as (p & Hp & Hap). exists p. split; [by right|done].
Qed.

(** No two of the files that are written share a path, and none lies below another. *)
Definition written_paths (files : list plannedFile) : list string := (pl_path <$> files) ++ managed_paths.
Definition separate (files : list plannedFile) : bool :=
  bool_decide (NoDup (written_paths files))
  && forallb (fun p => forallb (fun q => negb (bool_decide (p ∈ ancestors q))) (written_paths files)) (written_paths files).

Lemma separate_spec files : separate files = true ->
  NoDup (written_paths files) /\ forall p q, p ∈ written_paths files -> q ∈ written_paths files -> p ∉ ancestors q.
Proof.
  intros [Hn%bool_decide_eq_true Hf]%andb_true_iff. split; [done|]. intros p q Hp Hq Hin.
  rewrite forallb_forall in Hf. apply list_elem_of_In in Hp, Hq. specialize (Hf p Hp). rewrite forallb_forall in Hf. specialize (Hf q Hq).
  by rewrite bool_decide_eq_true_2 in Hf.
Qed.

Definition text_at (d : gmap string inode) (path text : string) : Prop := exists mode, d !! path = Some (RegularFile mode text).

Section Whole.
Context (fault : nat -> option error) (partial : nat -> nat) (temp : nat -> string) (format : string -> option string).
Context (once : forall t t', is_Some (fault t) -> is_Some (fault t') -> t = t').
Context (cancelled : nat -> option error) (compiler : nat -> gmap string inode -> option error).
Context (registryFor : resourceState -> result string) (compileViews : list plannedFile -> gmap string inode -> result string)
  (renderORM : gmap string string -> result string) (marshal : resourceState -> result string)
  (schema : gmap string inode -> result modelSchema).

Definition starting (m : machine) : publishing := {| ps_machine := m; ps_created := []; ps_managed := [] |}.
Notation publish_all p := (publish_all fault partial temp format cancelled compiler renderORM schema p).

Ltac not_listed := cbn; rewrite ?elem_of_cons, elem_of_nil; intros Hin; repeat (destruct Hin as [Hin|Hin]; [done|]); done.

Lemma prepared_unblocked files next d p dirs :
  prepared registryFor compileViews renderORM marshal files next d p dirs -> forall q, q ∈ written_paths files -> blocked d q = false.
Proof.
  intros [Hplanned _ _ _ _ _ _ H1 H2 H3 H4] q. apply captured_state in H1 as [H1 _], H2 as [H2 _], H3 as [H3 _], H4 as [H4 _].
  intros [(f & -> & Hf)%list_elem_of_fmap|Hq]%elem_of_app; [by apply (refuse_planned_spec _ _ Hplanned)|].
  unfold managed_paths in Hq. rewrite !elem_of_cons, elem_of_nil in Hq. by destruct Hq as [->|[->|[->|[->|[]]]]].
Qed.

(** The four managed files in turn. *)
Lemma publish_all_outcome files next d0 p dirs M m0 r s :
  prepared registryFor compileViews renderORM marshal files next d0 p dirs -> tree d0 -> disk m0 = d0 -> separate files = true ->
  (forall a, a ∈ M -> a <> "." /\ d0 !! a = None) -> (forall a, a ∈ M -> exists q, q ∈ written_paths files /\ a ∈ ancestors q) ->
  (forall f a, f ∈ files -> a ∈ ancestors (pl_path f) -> a ∈ M \/ d0 !! a = Some Directory) ->
  publish_all p (starting m0) = (r, s) ->
  match r with
  | Err cause => uncaptured cause \/ exists F W, journaled d0 M (written_paths files) F W s
  | Ok _ => exists F W, journaled d0 M (written_paths files) F W s
      /\ (forall f, f ∈ files -> exists i, F !! pl_path f = Some i /\ file_of format f i)
      /\ Forall (fun '(path, text) => exists mode, W !! path = Some (RegularFile mode text))
           [(registryPath, pn_registry p); (generatedViewsPath, pn_views p); (generatedORMPath, pn_orm p); (statePath, pn_state p)]
  end.
Proof.
  intros Hpr Htree Hd0 [Hnd Hapart]%separate_spec HM Habove Hcov.
  pose proof (proj1 (NoDup_app _ _) Hnd) as (_ & Hdisj & _). set (P := written_paths files) in *.
  destruct (captured_state _ _ _ (pr_oldState _ _ _ _ _ _ _ _ _ Hpr)) as [_ Hs1]. destruct (captured_state _ _ _ (pr_oldRegistry _ _ _ _ _ _ _ _ _ Hpr)) as [_ Hs2].
  destruct (captured_state _ _ _ (pr_oldViews _ _ _ _ _ _ _ _ _ Hpr)) as [_ Hs3]. destruct (captured_state _ _ _ (pr_oldORM _ _ _ _ _ _ _ _ _ Hpr)) as [_ Hs4].
  pose proof (prepared_unblocked _ _ _ _ _ Hpr) as Hunb.
  assert (journaled d0 M P ∅ ∅ (starting m0)) as Hj0.
  { split; cbn; try (by intros ? ?%elem_of_nil); try constructor; try (intros q; rewrite lookup_empty; by intros []).
    exists ∅. exists d0. rewrite Hd0. split; [by eapply layered_start|by rewrite (left_id_L ∅ (∪))|..]; intros q; rewrite lookup_empty; by intros []. }
  unfold publish_all, bindM. rewrite (pr_files _ _ _ _ _ _ _ _ _ Hpr).
  destruct (create_files fault partial format cancelled files (starting m0)) as [r1 s1] eqn:E1.
  eapply create_files_outcome in E1; [|done|done| |exact Hj0|done].
  2: { intros f Hf. split; [intros a; by apply Hcov|]. apply elem_of_app. left. by apply list_elem_of_fmap_2. }
  destruct r1 as [[]|e]; [|intros [= <- <-]; destruct E1 as [|[F HF]]; [by left|right; by exists F, ∅]].
  destruct E1 as (F & Hj1 & Hm1 & _ & Hfiles & HF).
  assert (forall q, q ∈ managed_paths -> q ∈ P /\ F !! q = None) as Hman.
  { intros q Hq. split; [apply elem_of_app; by right|]. apply eq_None_not_Some. intros [Hin|Hin]%HF; [rewrite lookup_empty in Hin; by destruct Hin|]. by apply (Hdisj q). }
  destruct (publish_managed fault partial temp cancelled registryPath _ _ _ s1) as [r2 s2] eqn:E2.
  destruct (Hman registryPath) as [Hp2 Hf2]; [unfold managed_paths; rewrite !elem_of_cons; tauto|]. eapply publish_managed_outcome in E2; try eassumption; try (unfold managed_paths; rewrite !elem_of_cons; tauto); try (rewrite Hm1; apply not_elem_of_nil).
  destruct r2 as [[]|e]; [|intros [= <- <-]; destruct E2 as [W2 HW]; right; by exists F, W2]. destruct E2 as ((mode2 & Hj2) & Hm2).
  destruct (publish_managed fault partial temp cancelled generatedViewsPath _ _ _ s2) as [r3 s3] eqn:E3.
  destruct (Hman generatedViewsPath) as [Hp3 Hf3]; [unfold managed_paths; rewrite !elem_of_cons; tauto|]. eapply publish_managed_outcome in E3; try eassumption; try (unfold managed_paths; rewrite !elem_of_cons; tauto); try (rewrite Hm2, Hm1; not_listed).
  destruct r3 as [[]|e]; [|intros [= <- <-]; destruct E3 as [W3 HW]; right; by exists F, W3]. destruct E3 as ((mode3 & Hj3) & Hm3).
  destruct (publish_managed fault partial temp cancelled generatedORMPath _ _ _ s3) as [r4 s4] eqn:E4.
  destruct (Hman generatedORMPath) as [Hp4 Hf4]; [unfold managed_paths; rewrite !elem_of_cons; tauto|]. eapply publish_managed_outcome in E4; try eassumption; try (unfold managed_paths; rewrite !elem_of_cons; tauto); try (rewrite Hm3, Hm2, Hm1; not_listed).
  destruct r4 as [[]|e]; [|intros [= <- <-]; destruct E4 as [W4 HW]; right; by exists F, W4]. destruct E4 as ((mode4 & Hj4) & Hm4).
  destruct (publish_managed fault partial temp cancelled statePath _ _ _ s4) as [r5 s5] eqn:E5.
  destruct (Hman statePath) as [Hp5 Hf5]; [unfold managed_paths; rewrite !elem_of_cons; tauto|]. eapply publish_managed_outcome in E5; try eassumption; try (unfold managed_paths; rewrite !elem_of_cons; tauto); try (rewrite Hm4, Hm3, Hm2, Hm1; not_listed).
  destruct r5 as [[]|e]; [|intros [= <- <-]; destruct E5 as [W5 HW]; right; by exists F, W5]. destruct E5 as ((mode5 & Hj5) & Hm5).
  unfold lift. pose proof (still_validation fault cancelled compiler renderORM schema (pn_relationships p) (pn_orm p) (ps_machine s5)) as Hv.
  destruct (validate_publication _ _ _ _ _ _ _ (ps_machine s5)) as [r6 m6]. cbn [snd] in Hv. intros [= <- <-].
  pose proof (journaled_same_disk _ _ _ _ _ s5 m6 Hj5 Hv) as Hj6. destruct r6 as [[]|e]; [|right; by eexists _, _].
  eexists _, _. split; [exact Hj6|]. split; [done|].
  rewrite !Forall_cons, Forall_nil. split_and!; [exists mode2|exists mode3|exists mode4|exists mode5|done];
    repeat (first [apply lookup_insert_eq|rewrite lookup_insert_ne by done]).
Qed.

(** What a finished resource has on the disk: its files, the four managed files as they were
    rendered, and everything else that was there. *)
Definition published_resource (files : list plannedFile) (next : resourceState) (d d' : gmap string inode) : Prop :=
  (forall f, f ∈ files -> exists i, d' !! pl_path f = Some i /\ file_of format f i)
  /\ (exists text, registryFor next = Ok text /\ text_at d' registryPath text)
  /\ (exists text, compileViews files d = Ok text /\ text_at d' generatedViewsPath text)
  /\ (exists sources text, currentModelSourcesWithPlanned files d = Ok sources /\ renderORM sources = Ok text /\ text_at d' generatedORMPath text)
  /\ (exists text, marshal next = Ok text /\ text_at d' statePath (text +:+ String newline EmptyString))
  /\ (forall q i, q ∉ managed_paths -> d !! q = Some i -> d' !! q = Some i).

Lemma journaled_published files next d p dirs M P F W s :
  prepared registryFor compileViews renderORM marshal files next d p dirs -> (forall a, a ∈ M -> a <> "." /\ d !! a = None) ->
  journaled d M P F W s -> (forall f, f ∈ files -> exists i, F !! pl_path f = Some i /\ file_of format f i) ->
  Forall (fun '(path, text) => exists mode, W !! path = Some (RegularFile mode text))
    [(registryPath, pn_registry p); (generatedViewsPath, pn_views p); (generatedORMPath, pn_orm p); (statePath, pn_state p)] ->
  published_resource files next d (disk (ps_machine s)).
Proof.
  intros Hpr HM Hj Hfiles Hall. rewrite !Forall_cons in Hall. destruct Hall as (H1 & H2 & H3 & H4 & _).
  destruct (jn_stands _ _ _ _ _ _ Hj) as (ds & base & [Hl Hd HF HW]).
  assert (forall path text, (exists mode, W !! path = Some (RegularFile mode text)) -> text_at (disk (ps_machine s)) path text) as Htext.
  { intros path text [mode Hw]. exists mode. rewrite Hd. by apply lookup_union_Some_l. }
  destruct (pr_orm _ _ _ _ _ _ _ _ _ Hpr) as (sources & Hsrc & Horm). destruct (pr_state _ _ _ _ _ _ _ _ _ Hpr) as (text & Htxt & Hst).
  split_and!.
  - intros f Hf. destruct (Hfiles f Hf) as (i & Hi & Hof). exists i. split; [|done]. rewrite Hd, lookup_union_r.
    + rewrite (proj1 Hl). by rewrite Hi.
    + apply eq_None_not_Some. intros [_ Hn]%HW. congruence.
  - eexists. split; [apply (pr_registry _ _ _ _ _ _ _ _ _ Hpr)|by apply Htext].
  - eexists. split; [apply (pr_views _ _ _ _ _ _ _ _ _ Hpr)|by apply Htext].
  - exists sources. eexists. split_and!; [done|exact Horm|by apply Htext].
  - exists text. split; [done|]. rewrite <- Hst. by apply Htext.
  - intros q i Hq Hi. rewrite Hd, lookup_union_r.
    + rewrite (proj1 Hl). destruct (F !! q) as [j|] eqn:Ej; [destruct (proj1 (proj2 Hl) q j Ej); congruence|].
      case_bool_decide as Hin; [|done]. destruct (HM q); [by apply (proj2 (proj2 Hl))|congruence].
    + apply eq_None_not_Some. intros Hs. apply (jn_replaced _ _ _ _ _ _ Hj) in Hs. apply list_elem_of_fmap in Hs as (e & -> & He).
      by destruct (jn_managed _ _ _ _ _ _ Hj e He) as (_ & Hman & _).
Qed.

(** C20. A resource is published as a whole or not at all.  On a disk that is a tree, with files
    whose paths are apart, when one system call at most fails, reads included: if
    [makeResourceWithRelationshipDependencies] reports an error, whatever its cause (a failed
    call, a context that ended, a compiler that refuses the views, dependencies that changed),
    the disk is exactly what it was; if it succeeds, the planned files are there, the registry,
    the views, the ORM and the metadata are as rendered, and nothing else was touched.  This
    asks that the failing call is not one of the rollback's own, that a temporary file of the
    rollback gets a name that is free, and that the failing call is not the reading of a file
    that was just created: in that case the file stays behind. *)
Theorem failed_resource_leaves_no_trace files relationships state spec m :
  tree (disk m) -> separate files = true ->
  (forall p dirs m0 cause s,
     prepare fault registryFor compileViews renderORM marshal files relationships state spec m = (Ok (p, dirs), m0) ->
     publish_all p (starting m0) = (Err cause, s) -> calm fault temp (ps_machine s) /\ ~ uncaptured cause) ->
  match makeResourceWithRelationshipDependencies fault partial temp format cancelled compiler registryFor compileViews renderORM marshal schema
          files relationships state spec m with
  | (Err _, m') => disk m' = disk m
  | (Ok _, m') => published_resource files (next_state state spec) (disk m) (disk m')
  end.
Proof.
  intros Htree Hsep Hcalm. unfold makeResourceWithRelationshipDependencies.
  destruct (prepare _ _ _ _ _ _ _ _ _ m) as [[[p dirs]|e] m0] eqn:Ep.
  2: { pose proof (still_prepare fault registryFor compileViews renderORM marshal files relationships state spec m) as Hd. by rewrite Ep in Hd. }
  destruct (prepare_prepared _ _ _ _ _ _ _ _ _ _ _ _ _ Ep) as (Hpr & Hd0 & _).
  pose proof (pr_dirs _ _ _ _ _ _ _ _ _ Hpr) as Hdirs. unfold missingParentDirectories in Hdirs.
  destruct (collect_missing (pl_path <$> files) (disk m)) as [M|] eqn:EM; [|done]. cbn in Hdirs. injection Hdirs as Hdirs.
  destruct (collect_missing_spec _ _ _ Htree EM) as [Hcov HM].
  assert (forall a, a ∈ M -> exists q, q ∈ written_paths files /\ a ∈ ancestors q) as Habove.
  { intros a Ha. destruct (collect_missing_above _ _ _ _ EM Ha) as (q & Hq & Haq). exists q. split; [apply elem_of_app; by left|done]. }
  destruct (publish_all p (starting m0)) as [r s] eqn:Es. fold (starting m0). rewrite Es.
  pose proof (publish_all_outcome files _ (disk m) p dirs M m0 r s Hpr Htree Hd0 Hsep HM Habove
    (fun f a Hf => Hcov (pl_path f) a (list_elem_of_fmap_2 _ _ _ Hf)) Es) as Hout.
  destruct r as [[]|cause]; [destruct Hout as (F & W & Hj & Hfiles & Hall); by eapply journaled_published|].
  destruct (Hcalm _ _ _ _ _ eq_refl Es) as [Hc Hun]. destruct Hout as [|(F & W & Hj)]; [done|].
  destruct (rollback_undoes_journal fault partial temp format once (disk m) M (written_paths files) Htree HM (proj2 (separate_spec _ Hsep)) Habove
    (prepared_unblocked _ _ _ _ _ Hpr) F W s dirs cause Hc Hj) as (e & m' & -> & Hd'); [..|done].
  - rewrite <- Hdirs. apply sort_deep_sorted.
  - intros a. rewrite <- Hdirs, sort_deep_perm. apply elem_of_elements.
Qed.
End Whole.

(** A file that somebody else wrote to survives the rollback, whatever the journal says, and
    with any one failing call: its path may be in the journal, as long as it does not hold what
    was published there. *)
Theorem rollback_keeps_newer_bytes fault partial temp s dirs cause m q mode data :
  (forall t t', is_Some (fault t) -> is_Some (fault t') -> t = t') ->
  (forall e t, e ∈ ps_created s ++ ps_managed s -> temporary temp (pb_path e) t <> pb_path e) ->
  disk m !! q = Some (RegularFile mode data) ->
  (forall e, e ∈ ps_created s ++ ps_managed s -> pb_path e = q ->
     pb_published e <> {| fs_exists := true; fs_mode := mode; fs_data := data |}) ->
  disk (snd (rollback_resource fault partial temp s dirs cause m)) !! q = Some (RegularFile mode data).
Proof.
  intros once Htemp Hq Hnew. apply leaves_join; [|done].
  intros c [(e & -> & He)%list_elem_of_fmap|(a & -> & Ha)%list_elem_of_fmap]%elem_of_app.
  - assert (e ∈ ps_created s ++ ps_managed s) as Hin by (rewrite elem_of_app in He |- *; by rewrite elem_of_reverse in He).
    apply leaves_publication; [done|intros t; by apply Htemp|by apply Hnew].
  - apply leaves_directory.
Qed.

(** ** A project *)

Module Project.
Definition d0 : gmap string inode := list_to_map
  [("routes", Directory); (registryPath, RegularFile 420 "package routes"); ("resources", Directory); ("resources/views", Directory);
   (".forge", Directory); ("internal", Directory); ("internal/models", Directory); ("internal/models/user.go", RegularFile 420 "user")].
Definition start : machine := {| disk := d0; tick := 0 |}.
Definition files : list plannedFile :=
  [{| pl_path := "internal/models/post.go"; pl_content := "post" |}; {| pl_path := "resources/views/posts/index.forge"; pl_content := "<h1>" |}].
Definition spec : resourceSpec := {| rs_Name := "Post"; rs_Package := "post"; rs_Plural := "posts"; rs_MigrationVersion := "20260101000000" |}.
Definition fault (k t : nat) : option error := if (t =? k)%nat then Some (Errorf "input/output error") else None.
Definition generate (k : nat) (compiled : option error) : result unit * machine :=
  makeResourceWithRelationshipDependencies (fault k) (fun _ => 3%nat) (fun _ => "1") Some (fun _ => None) (fun _ _ => compiled)
    (fun _ => Ok "registry") (fun _ _ => Ok "views") (fun _ => Ok "orm") (fun _ => Ok "{}") (fun _ => Err (Errorf "none"))
    files [] {| Resources := [] |} spec start.
(** How far the publication gets, and what lies at the names of temporary files then. *)
Definition attempt (k : nat) : option (result unit * publishing) :=
  match prepare (fault k) (fun _ => Ok "registry") (fun _ _ => Ok "views") (fun _ => Ok "orm") (fun _ => Ok "{}") files [] {| Resources := [] |} spec start with
  | (Ok (p, _), m0) => Some (publish_all (fault k) (fun _ => 3%nat) (fun _ => "1") Some (fun _ => None) (fun _ _ => None) (fun _ => Ok "orm")
                               (fun _ => Err (Errorf "none")) p (starting m0))
  | _ => None
  end.
End Project.

(** Nothing fails: the resource is there.  The compiler refuses it: nothing is. *)
Example resource_published : fst (Project.generate 1000 None) = Ok tt.
Proof. vm_compute. reflexivity. Qed.
Example resource_refused : disk (snd (Project.generate 1000 (Some (Errorf "exit status 1")))) = Project.d0.
Proof. vm_compute. reflexivity. Qed.

(** The file that was just created cannot be read back: the rollback does not know it yet, and
    it stays on the disk with its directory, in the way of the next attempt. *)
Example uncaptured_file_stays :
  fst (Project.generate 14 None) = Err (Wrapf "capture generated resource %s: %w" (Errorf "input/output error"))
  /\ disk (snd (Project.generate 14 None)) !! "resources/views/posts/index.forge" = Some (RegularFile 420 "<h1>")
  /\ disk (snd (Project.generate 14 None)) !! "internal/models/post.go" = None.
Proof. vm_compute. done. Qed.

Lemma project_once k t t' : is_Some (Project.fault k t) -> is_Some (Project.fault k t') -> t = t'.
Proof.
  unfold Project.fault. destruct (Nat.eqb_spec t k) as [->|]; [|by intros [? [=]]].
  destruct (Nat.eqb_spec t' k) as [->|]; [done|by intros _ [? [=]]].
Qed.
Lemma project_tree : tree Project.d0.
Proof.
  assert (forallb (fun '(p, _) => bool_decide (Dir p = ".") || bool_decide (Project.d0 !! Dir p = Some Directory)) (map_to_list Project.d0) = true) as H
    by (vm_compute; reflexivity).
  intros p [i Hp]. rewrite forallb_forall in H. apply elem_of_map_to_list, list_elem_of_In in Hp. specialize (H _ Hp). cbn in H.
  apply orb_true_iff in H as [H|H]; apply bool_decide_eq_true in H; [by left|by right].
Qed.

(** The registry cannot be read back after it was replaced: it is put back as it was. *)
Lemma failed_resource_leaves_no_trace_witness :
  exists e m', Project.generate 22 None = (Err e, m') /\ disk m' = Project.d0 /\ (22 < tick m')%nat.
Proof.
  assert (fst (Project.generate 22 None)
    = Err (Wrapf "write generated resource registry: %w" (Wrapf "inspect %s after publication: %w" (Errorf "input/output error")))) as He by (vm_compute; reflexivity).
  assert ((22 <? tick (snd (Project.generate 22 None)))%nat = true) as Ht by (vm_compute; reflexivity).
  pose proof (failed_resource_leaves_no_trace (Project.fault 22) (fun _ => 3%nat) (fun _ => "1") Some (project_once 22) (fun _ => None) (fun _ _ => None)
    (fun _ => Ok "registry") (fun _ _ => Ok "views") (fun _ => Ok "orm") (fun _ => Ok "{}") (fun _ => Err (Errorf "none"))
    Project.files [] {| Resources := [] |} Project.spec Project.start project_tree) as H.
  fold (Project.generate 22 None) in H. destruct (Project.generate 22 None) as [r m']. cbn [fst snd] in *. subst r.
  eexists _, m'. split; [reflexivity|]. split; [|apply Nat.ltb_lt, Ht]. apply H; [vm_compute; reflexivity|].
  intros p dirs m0 cause s Ep Es.
  assert (Project.attempt 22 = Some (Err cause, s)) as Ea by (unfold Project.attempt; rewrite Ep, Es; reflexivity).
  assert (match Project.attempt 22 with
          | Some (Err c, s') => Some (c, tick (ps_machine s'), (fun p => disk (ps_machine s') !! temporary (fun _ => "1") p 0) <$> managed_paths)
          | _ => None
          end = Some (Wrapf "write generated resource registry: %w" (Wrapf "inspect %s after publication: %w" (Errorf "input/output error")), 23%nat,
                      [None; None; None; None])) as Ev by (vm_compute; reflexivity).
  rewrite Ea in Ev. injection Ev as -> Et E1 E2 E3 E4. split; [split|].
  - intros t Hle. unfold Project.fault. destruct (Nat.eqb_spec t 22); [lia|reflexivity].
  - intros q t Hq. unfold managed_paths in Hq. rewrite !elem_of_cons, elem_of_nil in Hq. destruct Hq as [->|[->|[->|[->|[]]]]]; assumption.
  - intros [e [=]].
Defined.
