(* ===== verification/CliReload.v ===== *)
(** * Live reload ([internal/cli/serve_livereload.go])

    The development proxy tells browsers to reload.  First the hub: a generation counter and the
    channels of the pages that wait, each with room for one generation; its operations run under
    the mutex, so they are steps.  Then the requests it answers, and the script tag it puts into
    HTML documents on their way to the browser.  Offsets that leave the text make Go panic; the
    functions that slice return [None] then.

    Shown: a page that waits while the generation has moved on has an event in its channel, and
    an ASCII document keeps all its bytes and gets the tag right before the closing tags at its
    end.  Documents that are not ASCII are searched in lower case, where offsets differ. *)

From S2P Require Import Prelude GoStrings GoUtf8 GoQuote GoRegexp GoUrl GoText Asset ViewParseProps CliFields.
Local Open Scope go_scope.
Local Open Scope Z_scope.

Definition serveLiveReloadMaxDocumentBytes : Z := 1048576.
Definition serveLiveReloadMaxSubscribers : Z := 64.
Definition MaxUint64 : Z := 18446744073709551615.

(** ** The hub *)

Record serveLiveReload : Type := {
  scriptPath : string; eventsPath : string; script : string; maxSubscribers : Z;
  generation : Z; subscribers : gmap nat (option Z); next_channel : nat; closed : bool
}.
Definition with_state (r : serveLiveReload) (g : Z) (subs : gmap nat (option Z)) (next : nat) (c : bool) : serveLiveReload :=
  {| scriptPath := scriptPath r; eventsPath := eventsPath r; script := script r; maxSubscribers := maxSubscribers r;
     generation := g; subscribers := subs; next_channel := next; closed := c |}.

(** [newServeLiveReloadWithReader] once 32 bytes of entropy are there: [token] is their base64,
    [client] writes the script for the path of the events. *)
Definition newServeLiveReloadWithReader (token : string) (client : string -> string) : serveLiveReload :=
  let basePath := "/.goforge/livereload/" +:+ token in
  let eventsPath := basePath +:+ "/events" in
  {| scriptPath := basePath +:+ "/client.js"; eventsPath := eventsPath; script := client eventsPath;
     maxSubscribers := serveLiveReloadMaxSubscribers; generation := 0; subscribers := ∅; next_channel := 0; closed := false |}.

(** A send that does not wait: a full channel keeps what it has. *)
Definition offer (g : Z) (buffer : option Z) : option Z := match buffer with Some v => Some v | None => Some g end.
Definition NotifyReload (r : serveLiveReload) : serveLiveReload :=
  if closed r then r
  else
    let g := if generation r <? MaxUint64 then generation r + 1 else generation r in
    with_state r g (offer g <$> subscribers r) (next_channel r) false.
Definition Close (r : serveLiveReload) : serveLiveReload := with_state r (generation r) (subscribers r) (next_channel r) true.

Definition StatusOK : Z := 200.
Definition StatusBadRequest : Z := 400.
Definition StatusServiceUnavailable : Z := 503.
Definition subscribe (since : Z) (r : serveLiveReload) : option nat * Z * Z * serveLiveReload :=
  if closed r then (None, generation r, StatusServiceUnavailable, r)
  else if generation r <? since then (None, generation r, StatusBadRequest, r)
  else if since <? generation r then (None, generation r, StatusOK, r)
  else if maxSubscribers r <=? Z.of_nat (size (subscribers r)) then (None, generation r, StatusServiceUnavailable, r)
  else (Some (next_channel r), generation r, StatusOK,
        with_state r (generation r) (<[next_channel r := None]> (subscribers r)) (S (next_channel r)) false).
Definition unsubscribe (c : nat) (r : serveLiveReload) : serveLiveReload :=
  with_state r (generation r) (delete c (subscribers r)) (next_channel r) (closed r).

(** ** Requests *)

Record request : Type := {
  rq_Method : string; rq_Path : string; rq_EscapedPath : string; rq_RawQuery : string;
  rq_Header : gmap string (list string); rq_Generation : option Z
}.
Definition header_values (h : gmap string (list string)) (name : string) : list string := default [] (h !! name).
Definition header_get (h : gmap string (list string)) (name : string) : string := default EmptyString (head (header_values h name)).

Definition exactServeLiveReloadPath (rq : request) (expected : string) : bool :=
  bool_decide (rq_Path rq = expected) && bool_decide (rq_EscapedPath rq = expected).

Inductive reply : Type :=
| Forwarded
| Answer (status : Z) (headers : gmap string string) (body : string)
| EventNow (body : string)
| Waiting (channel : nat).

Definition no_store : gmap string string :=
  <["Cache-Control" := "no-store"]> (<["Cross-Origin-Resource-Policy" := "same-origin"]> (<["X-Content-Type-Options" := "nosniff"]> ∅)).
Definition not_allowed : reply := Answer 405 (<["Allow" := "GET"]> no_store) "method not allowed".
Definition serveScript (r : serveLiveReload) (rq : request) : reply :=
  if negb (bool_decide (rq_Method rq = "GET")) then not_allowed
  else Answer StatusOK (<["Content-Type" := "application/javascript; charset=utf-8"]>
                        (<["Content-Length" := Itoa (byte_len (script r))]> no_store)) (script r).

Definition digit_char_ok (c : ascii) : bool := rng 48 57 c.
Definition parseServeLiveReloadSince (rawQuery : string) : result Z :=
  match ParseQuery rawQuery with
  | None => Err (Errorf "invalid live reload generation")
  | Some query =>
      match query !! "since" with
      | Some [value] =>
          if negb (bool_decide (size query = 1%nat)) || bool_decide (value = EmptyString)
          then Err (Errorf "exactly one live reload generation is required")
          else if negb (all_chars digit_char_ok value) then Err (Errorf "invalid live reload generation")
          else match parse_digits value 0 with
          | Some g => if g <=? MaxUint64 then Ok g else Err (Errorf "invalid live reload generation")
          | None => Err (Errorf "invalid live reload generation")
          end
      | _ => Err (Errorf "exactly one live reload generation is required")
      end
  end.

Definition newline_ : string := String (chr 10) EmptyString.
Definition reload_event (g : Z) : string :=
  "id: " +:+ Itoa g +:+ newline_ +:+ "event: reload" +:+ newline_ +:+ "data: " +:+ Itoa g +:+ newline_ +:+ newline_.

Definition error_text (e : error) : string := match e with Errorf s => s | _ => EmptyString end.
(** [http.StatusText] *)
Definition status_text (status : Z) : string := if status =? StatusBadRequest then "Bad Request" else "Service Unavailable".

(** [serveEvents] up to the loop: an answer, one event, or a page that waits. *)
Definition serveEvents (flusher : bool) (rq : request) (r : serveLiveReload) : reply * serveLiveReload :=
  if negb (bool_decide (rq_Method rq = "GET")) then (not_allowed, r)
  else match parseServeLiveReloadSince (rq_RawQuery rq) with
  | Err e => (Answer StatusBadRequest no_store (error_text e), r)
  | Ok since =>
      if negb flusher then (Answer 500 no_store "streaming unsupported", r)
      else
        let '(subscriber, current, status, r') := subscribe since r in
        if negb (status =? StatusOK) then
          (Answer status (if status =? StatusServiceUnavailable then <["Retry-After" := "1"]> no_store else no_store) (status_text status), r')
        else match subscriber with
        | None => (EventNow (reload_event current), r')
        | Some c => (Waiting c, r')
        end
  end.
Definition Handle (flusher : bool) (rq : request) (r : serveLiveReload) : reply * serveLiveReload :=
  if exactServeLiveReloadPath rq (scriptPath r) then (serveScript r rq, r)
  else if exactServeLiveReloadPath rq (eventsPath r) then serveEvents flusher rq r
  else (Forwarded, r).

(** [Handler]: what is forwarded carries the generation of this moment. *)
Definition stamped (rq : request) (r : serveLiveReload) : request :=
  {| rq_Method := rq_Method rq; rq_Path := rq_Path rq; rq_EscapedPath := rq_EscapedPath rq; rq_RawQuery := rq_RawQuery rq;
     rq_Header := rq_Header rq; rq_Generation := Some (generation r) |}.
Definition Handler (next : request -> reply) (flusher : bool) (rq : request) (r : serveLiveReload) : reply * serveLiveReload :=
  match Handle flusher rq r with
  | (Forwarded, r') => (next (stamped rq r'), r')
  | answered => answered
  end.

(** The loop of [serveEvents]: which case of its [select] is taken, and whether the write works. *)
Inductive wakeup : Type := Received | Heartbeat (written : bool) | RequestDone | HubDone.
(** What is written, and whether the handler returns; it unsubscribes when it does.  [None]: the
    case is not ready. *)
Definition stream_round (c : nat) (w : wakeup) (r : serveLiveReload) : option (string * bool * serveLiveReload) :=
  match w with
  | Received => match subscribers r !! c with
                | Some (Some g) => Some (reload_event g, true, unsubscribe c r)
                | _ => None
                end
  | Heartbeat true => Some (": heartbeat" +:+ newline_ +:+ newline_, false, r)
  | Heartbeat false => Some (EmptyString, true, unsubscribe c r)
  | RequestDone => Some (EmptyString, true, unsubscribe c r)
  | HubDone => if closed r then Some (EmptyString, true, unsubscribe c r) else None
  end.

(** ** The script tag *)

Section Inject.
Context `{Unicode}.

(** [serveLiveReloadClosingTagEnd]: the blanks and the bracket from an offset on. *)
Definition tag_space (c : ascii) : bool := inb 9 10 c || inb 12 13 c || inb 32 32 c.
Fixpoint tag_end (s : string) : option nat :=
  match s with
  | EmptyString => None
  | String c rest => if tag_space c then option_map S (tag_end rest) else if bool_decide (c = ">"%char) then Some 1%nat else None
  end.
Definition serveLiveReloadClosingTagEnd (body : string) (position : nat) : option nat :=
  option_map (Nat.add position) (tag_end (drop_string position body)).

Fixpoint last_tag (fuel : nat) (body prefix : string) (searchEnd : nat) : option (nat * nat) :=
  match fuel with
  | O => None
  | S n =>
      match searchEnd with
      | O => None
      | _ =>
          match LastIndex (take_string searchEnd body) prefix with
          | None => None
          | Some start =>
              match serveLiveReloadClosingTagEnd body (start + String.length prefix) with
              | Some e => Some (start, e)
              | None => last_tag n body prefix start
              end
          end
      end
  end.
(** Each round begins before the last one: the length of the text is enough fuel. *)
Definition lastServeLiveReloadClosingTag (body name : string) : option (nat * nat) :=
  last_tag (S (String.length body)) body ("</" +:+ name) (String.length body).
Definition firstServeLiveReloadClosingTag (body name : string) : option (nat * option nat) :=
  let prefix := "</" +:+ name in
  match Index body prefix with
  | None => None
  | Some start => Some (start, serveLiveReloadClosingTagEnd body (start + String.length prefix))
  end.
Definition blank (s : string) : bool := bool_decide (TrimSpace s = EmptyString).

(** The offset is one of the lowered text. *)
Definition findServeLiveReloadClosingTag (body : string) : option nat :=
  let lower := unicode_ToLower body in
  let html :=
    match lastServeLiveReloadClosingTag lower "html" with
    | Some (start, e) => if blank (drop_string e lower) then Some start else None
    | None => None
    end in
  match lastServeLiveReloadClosingTag lower "body" with
  | Some (start, e) =>
      let tail := TrimSpace (drop_string e lower) in
      if bool_decide (tail = EmptyString) then Some start
      else match firstServeLiveReloadClosingTag tail "html" with
      | Some (O, Some htmlEnd) => if blank (drop_string htmlEnd tail) then Some start else html
      | _ => html
      end
  | None => html
  end.

(** *** Responses *)

(** A body: the bytes it gives, and the error after them if reading fails. *)
Record stream : Type := { st_data : string; st_broken : option error }.
Record response : Type := {
  rs_Status : Z; rs_Header : gmap string (list string); rs_Body : option stream; rs_Uncompressed : bool;
  rs_ContentLength : Z; rs_TransferEncoding : list string; rs_Trailer : gmap string (list string)
}.
Definition with_body (rs : response) (b : stream) : response :=
  {| rs_Status := rs_Status rs; rs_Header := rs_Header rs; rs_Body := Some b; rs_Uncompressed := rs_Uncompressed rs;
     rs_ContentLength := rs_ContentLength rs; rs_TransferEncoding := rs_TransferEncoding rs; rs_Trailer := rs_Trailer rs |}.

(** The parameters of a media type; parts of parameters (RFC 2231) are not put together. *)
Fixpoint media_parameters (fuel : nat) (v : string) (seen : gmap string string) : gmap string string :=
  match fuel with
  | O => seen
  | S n => match consumeMediaParam (trim_left v) with
           | None => seen
           | Some (k, value, rest) => media_parameters n rest (match seen !! k with Some _ => seen | None => <[k := value]> seen end)
           end
  end.
Definition parameters_of (v : string) : gmap string string :=
  let '(_, params, found) := Cut v ";"%char in
  media_parameters (S (String.length v)) (if found then String ";" params else EmptyString) ∅.

Definition headerHasServeLiveReloadDirective (h : gmap string (list string)) (name directive : string) : bool :=
  existsb (fun value => existsb (fun item => let '(token, _, _) := Cut item "="%char in EqualFold (TrimSpace token) directive)
                                (Split value ","%char)) (header_values h name).

Definition nonempty (s : string) : bool := negb (bool_decide (s = EmptyString)).
Definition eligibleServeLiveReloadResponse (rq : request) (rs : response) : bool :=
  let values := header_values (rs_Header rs) in
  bool_decide (rq_Method rq = "GET") && (rs_Status rs =? StatusOK) && bool_decide (is_Some (rs_Body rs)) && negb (rs_Uncompressed rs)
  && (0 <=? rs_ContentLength rs) && (rs_ContentLength rs <=? serveLiveReloadMaxDocumentBytes)
  && bool_decide (rs_TransferEncoding rs = []) && bool_decide (rs_Trailer rs = ∅)
  && match header_values (rq_Header rq) "Sec-Fetch-Dest" with [d] => EqualFold (TrimSpace d) "document" | _ => false end
  && negb (nonempty (header_get (rq_Header rq) "Range") || nonempty (header_get (rs_Header rs) "Content-Range"))
  && negb (nonempty (header_get (rq_Header rq) "Upgrade") || nonempty (header_get (rs_Header rs) "Upgrade")
           || headerHasServeLiveReloadDirective (rq_Header rq) "Cache-Control" "no-transform"
           || headerHasServeLiveReloadDirective (rs_Header rs) "Cache-Control" "no-transform")
  && match values "Content-Type" with
     | [v] => match ParseMediaType v with
              | Some mediaType =>
                  EqualFold mediaType "text/html"
                  && match parameters_of v !! "charset" with Some charset => EqualFold (TrimSpace charset) "utf-8" | None => true end
              | None => false
              end
     | _ => false
     end
  && match values "Content-Encoding" with [] => true | [v] => EqualFold (TrimSpace v) "identity" | _ => false end
  && match values "Content-Disposition" with
     | [] => true
     | [v] => if bool_decide (TrimSpace v = EmptyString) then true
              else match ParseMediaType v with Some disposition => negb (EqualFold disposition "attachment") | None => false end
     | _ => false
     end.

Definition read_limit : nat := Z.to_nat (serveLiveReloadMaxDocumentBytes + 1).
(** [io.ReadAll] of [io.LimitReader(original, max + 1)]: what was read, the error, and what is left. *)
Definition read_document (b : stream) : string * option error * stream :=
  if byte_len (st_data b) <=? serveLiveReloadMaxDocumentBytes then (st_data b, st_broken b, {| st_data := EmptyString; st_broken := st_broken b |})
  else (take_string read_limit (st_data b), None, {| st_data := drop_string read_limit (st_data b); st_broken := st_broken b |}).
Definition prependServeLiveReloadBody (prefix : string) (remainder : stream) : stream :=
  {| st_data := prefix +:+ st_data remainder; st_broken := st_broken remainder |}.

Definition quote_ : string := String (chr 34) EmptyString.
Definition script_tag (path : string) (g : Z) : string :=
  "<script src=" +:+ quote_ +:+ path +:+ quote_ +:+ " data-goforge-generation=" +:+ quote_ +:+ Itoa g +:+ quote_ +:+ " defer></script>".
Definition dropped_headers : list string :=
  ["Accept-Ranges"; "Age"; "Content-Digest"; "Content-MD5"; "Content-Range"; "Digest"; "ETag"; "Expires"; "Last-Modified"; "Repr-Digest"].
(** The header of a rewritten document; [Header.Del] looks names up in canonical form. *)
Definition rewritten_header (h : gmap string (list string)) (length : Z) : gmap string (list string) :=
  foldr (fun name h => delete (CanonicalMIMEHeaderKey name) h)
    (<["Content-Length" := [Itoa length]]> (<["Cache-Control" := ["no-store"]]> h)) dropped_headers.

(** [body[:i]] and [body[i:]]: a panic when [i] is past the end. *)
Definition split_at (i : nat) (body : string) : option (string * string) :=
  if (i <=? String.length body)%nat then Some (take_string i body, drop_string i body) else None.

Definition Inject (r : serveLiveReload) (rq : request) (rs : response) : option (response * option error) :=
  if negb (eligibleServeLiveReloadResponse rq rs) then Some (rs, None)
  else match rs_Body rs with
  | None => Some (rs, None)
  | Some original =>
      let '(body, readErr, rest) := read_document original in
      let kept := with_body rs (prependServeLiveReloadBody body rest) in
      match readErr with
      | Some e => Some (kept, Some (Wrapf "read HTML response for live reload: %w" e))
      | None =>
          if serveLiveReloadMaxDocumentBytes <? byte_len body then Some (kept, None)
          else if Contains body ("<script src=" +:+ quote_ +:+ scriptPath r +:+ quote_) then Some (kept, None)
          else match findServeLiveReloadClosingTag body with
          | None => Some (kept, None)
          | Some closing =>
              let g := default (generation r) (rq_Generation rq) in
              match split_at closing body with
              | None => None
              | Some (before, after) =>
                  let injected := before +:+ script_tag (scriptPath r) g +:+ after in
                  Some ({| rs_Status := rs_Status rs; rs_Header := rewritten_header (rs_Header rs) (byte_len injected);
                           rs_Body := Some {| st_data := injected; st_broken := None |}; rs_Uncompressed := rs_Uncompressed rs;
                           rs_ContentLength := byte_len injected; rs_TransferEncoding := []; rs_Trailer := rs_Trailer rs |}, None)
              end
          end
      end
  end.
End Inject.

(** ** No page misses a reload *)

(** The handlers and the supervisor as steps; [pages] remembers the generation each page waits from. *)
Definition since_of (rq : request) : Z := match parseServeLiveReloadSince (rq_RawQuery rq) with Ok s => s | Err _ => 0 end.
Inductive hub_step : serveLiveReload * gmap nat Z -> serveLiveReload * gmap nat Z -> Prop :=
| step_notify r pages : hub_step (r, pages) (NotifyReload r, pages)
| step_close r pages : hub_step (r, pages) (Close r, pages)
| step_request r pages flusher rq rep r' :
    Handle flusher rq r = (rep, r') ->
    hub_step (r, pages) (r', match rep with Waiting c => <[c := since_of rq]> pages | _ => pages end)
| step_stream r pages c w out returns r' :
    is_Some (pages !! c) -> stream_round c w r = Some (out, returns, r') ->
    hub_step (r, pages) (r', if returns then delete c pages else pages).

(** What a page has waited from, and what is in its channel. *)
Definition page_ok (g since : Z) (buffer : option Z) : Prop :=
  match buffer with
  | None => since = g
  | Some v => v <= g /\ (since < v \/ since = MaxUint64)
  end.
Record hub_ok (s : serveLiveReload * gmap nat Z) : Prop := {
  ok_generation : 0 <= generation s.1 <= MaxUint64;
  ok_pages : forall c since, s.2 !! c = Some since -> exists buffer, subscribers s.1 !! c = Some buffer /\ page_ok (generation s.1) since buffer;
  ok_channels : forall c, is_Some (subscribers s.1 !! c) -> (c < next_channel s.1)%nat;
  ok_size : Z.of_nat (size (subscribers s.1)) <= maxSubscribers s.1;
  ok_limit : maxSubscribers s.1 = serveLiveReloadMaxSubscribers
}.

Lemma notify_ok r pages : hub_ok (r, pages) -> hub_ok (NotifyReload r, pages).
Proof.
  intros [Hg Hp Hc Hs Hm]. unfold NotifyReload. destruct (closed r); [done|]. cbn [fst snd] in *.
  set (g := if generation r <? MaxUint64 then generation r + 1 else generation r).
  assert (generation r <= g <= MaxUint64 /\ (generation r < g \/ generation r = MaxUint64)) as Hgg
    by (unfold g; destruct (Z.ltb_spec (generation r) MaxUint64); lia). clearbody g.
  constructor; cbn [fst snd generation subscribers next_channel maxSubscribers with_state].
  - lia.
  - intros c since Hin. destruct (Hp c since Hin) as (buffer & Hb & Hok). rewrite lookup_fmap, Hb. eexists. split; [done|].
    destruct buffer as [v|]; cbn [offer page_ok] in *; lia.
  - intros c Hin. apply Hc. rewrite lookup_fmap in Hin. by apply fmap_is_Some in Hin.
  - by rewrite map_size_fmap.
  - done.
Qed.
Lemma unsubscribe_ok r pages c : hub_ok (r, pages) -> hub_ok (unsubscribe c r, delete c pages).
Proof.
  intros [Hg Hp Hc Hs Hm]. constructor; cbn in *; [done| | | |].
  - intros c' since [Hne Hin]%lookup_delete_Some. rewrite lookup_delete_ne by done. by apply Hp.
  - intros c' [b [_ Hb]%lookup_delete_Some]. apply Hc. by eexists.
  - rewrite map_size_delete. destruct (subscribers r !! c); cbn; lia.
  - done.
Qed.
Lemma subscribe_ok r pages since c g status r' :
  hub_ok (r, pages) -> subscribe since r = (Some c, g, status, r') -> hub_ok (r', <[c := since]> pages).
Proof.
  intros [Hg Hp Hc Hs Hm]. unfold subscribe. cbn in *. destruct (closed r); [done|].
  destruct (Z.ltb_spec (generation r) since); [done|]. destruct (Z.ltb_spec since (generation r)); [done|].
  destruct (Z.leb_spec (maxSubscribers r) (Z.of_nat (size (subscribers r)))); [done|]. intros [= <- <- <- <-].
  assert (subscribers r !! next_channel r = None) as Hnew. { apply eq_None_not_Some. intros Hin%Hc. lia. }
  constructor; cbn; [done| | | |done].
  - intros c' s [[<- <-]|[Hne Hin]]%lookup_insert_Some; [rewrite lookup_insert_eq; eexists; split; [done|cbn; lia]|].
    rewrite lookup_insert_ne by done. by apply Hp.
  - intros c' Hin. destruct (decide (c' = next_channel r)) as [->|Hne]; [lia|]. rewrite lookup_insert_ne in Hin by done. specialize (Hc c' Hin). lia.
  - rewrite map_size_insert_None by done. lia.
Qed.
Lemma subscribe_none r since g status r' : subscribe since r = (None, g, status, r') -> r' = r.
Proof. unfold subscribe. repeat case_match; congruence. Qed.
Lemma serveEvents_ok flusher rq r pages rep r' :
  hub_ok (r, pages) -> serveEvents flusher rq r = (rep, r') -> hub_ok (r', match rep with Waiting c => <[c := since_of rq]> pages | _ => pages end).
Proof.
  intros Hok. unfold serveEvents, since_of. destruct (negb (bool_decide (rq_Method rq = "GET"))); [by intros [= <- <-]|].
  destruct (parseServeLiveReloadSince (rq_RawQuery rq)) as [since|e]; [|by intros [= <- <-]]. destruct flusher; [|by intros [= <- <-]].
  destruct (subscribe since r) as [[[[c|] g] status] r1] eqn:Es; cbn [negb]; destruct (negb (status =? StatusOK)) eqn:Eo;
    intros [= <- <-]; try by apply subscribe_none in Es as ->.
  - exfalso. unfold subscribe in Es. repeat case_match; simplify_eq.
  - by eapply subscribe_ok.
Qed.
Lemma Handle_ok flusher rq r pages rep r' :
  hub_ok (r, pages) -> Handle flusher rq r = (rep, r') -> hub_ok (r', match rep with Waiting c => <[c := since_of rq]> pages | _ => pages end).
Proof.
  intros Hok. unfold Handle. destruct (exactServeLiveReloadPath rq (scriptPath r)).
  { intros [= <- <-]. unfold serveScript, not_allowed. by destruct (negb _). }
  destruct (exactServeLiveReloadPath rq (eventsPath r)); [by apply serveEvents_ok|by intros [= <- <-]].
Qed.
Lemma hub_step_ok s s' : hub_step s s' -> hub_ok s -> hub_ok s'.
Proof.
  destruct 1 as [r pages|r pages|r pages flusher rq rep r' E|r pages c w out returns r' Hc E]; intros Hok.
  - by apply notify_ok.
  - destruct Hok. by constructor.
  - by eapply Handle_ok.
  - unfold stream_round in E. destruct w as [|[|]| |]; [destruct (subscribers r !! c) as [[g|]|]| | | |destruct (closed r)];
      simplify_eq; try done; by apply unsubscribe_ok.
Qed.
Lemma hub_reachable_ok token client s : rtc hub_step (newServeLiveReloadWithReader token client, ∅) s -> hub_ok s.
Proof.
  intros H. remember (newServeLiveReloadWithReader token client, ∅) as s0 eqn:E0. assert (hub_ok s0) as Hok.
  { subst. constructor; cbn; [unfold MaxUint64; lia| | |done|done].
    - intros c since. by rewrite lookup_empty.
    - intros c. rewrite lookup_empty. by intros []. }
  clear E0. induction H as [|s1 s2 s3 Hstep _ IH]; [done|]. apply IH. by eapply hub_step_ok.
Qed.

(** C27. No page misses a reload.  Whatever the order of requests, notifications, heartbeats,
    disconnections and the shutdown: as long as a page waits on its event stream, and the
    generation has moved past the one the page was served with, an event newer than the page lies
    in its channel, and its handler can send it and return; and never more than 64 pages wait. *)
Theorem live_reload_misses_nothing token client r pages :
  rtc hub_step (newServeLiveReloadWithReader token client, ∅) (r, pages) ->
  (forall c since, pages !! c = Some since -> since < generation r ->
     exists g, since < g <= generation r /\ stream_round c Received r = Some (reload_event g, true, unsubscribe c r))
  /\ Z.of_nat (size (subscribers r)) <= 64.
Proof.
  intros H. apply hub_reachable_ok in H as [Hg Hp Hc Hs Hm]. cbn [fst snd] in *. split; [|by rewrite Hm in Hs]. intros c since Hin Hlt.
  destruct (Hp c since Hin) as ([v|] & Hb & Hok); cbn [page_ok] in Hok; [|lia]. exists v. split; [lia|]. cbn. by rewrite Hb.
Qed.

(** ** The tag goes before the end of the document *)

Section Documents.
Context `{Unicode}.

Lemma LastIndex_prefix s sub i : LastIndex s sub = Some i -> HasPrefix (drop_string i s) sub = true.
Proof.
  revert i. induction s as [|c s IH]; intros i; cbn [LastIndex].
  - destruct (HasPrefix EmptyString sub) eqn:E; [|done]. by intros [= <-].
  - destruct (LastIndex s sub) as [j|]; [intros [= <-]; by apply IH|].
    destruct (HasPrefix (String c s) sub) eqn:E; [|done]. by intros [= <-].
Qed.
Lemma HasPrefix_of_take n s p : HasPrefix (take_string n s) p = true -> HasPrefix s p = true.
Proof.
  revert n p. induction s as [|c s IH]; intros n p; [by destruct n|]. destruct n as [|n]; [by destruct p|]. cbn [take_string].
  destruct p as [|d p]; [done|]. cbn. intros [-> Hp]%andb_true_iff. by apply (IH n).
Qed.
Lemma drop_of_take i k s : drop_string i (take_string k s) = take_string (k - i) (drop_string i s).
Proof.
  revert k s. induction i as [|i IH]; intros k s; [by rewrite Nat.sub_0_r|]. destruct k as [|k]; [by destruct s|].
  destruct s as [|c s]; [cbn; by destruct (k - i)%nat|]. cbn. apply IH.
Qed.

(** A closing tag, in lower case, and the end of a document. *)
Definition closing_tag (name tag : string) : Prop := exists blanks, tag = "</" +:+ name +:+ blanks +:+ ">" /\ all_chars tag_space blanks = true.
Definition document_end (s : string) : Prop :=
  exists tag tail, s = tag +:+ tail /\
    (closing_tag "html" tag /\ blank tail = true
     \/ closing_tag "body" tag /\
        (blank tail = true \/ exists tag' tail', TrimSpace tail = tag' +:+ tail' /\ closing_tag "html" tag' /\ blank tail' = true)).

Lemma tag_end_spec s e : tag_end s = Some e -> exists blanks, s = blanks +:+ ">" +:+ drop_string e s /\ all_chars tag_space blanks = true.
Proof.
  revert e. induction s as [|c s IH]; intros e; cbn [tag_end]; [done|]. destruct (tag_space c) eqn:Ec.
  - destruct (tag_end s) as [e'|]; [|done]. intros [= <-]. destruct (IH e' eq_refl) as (blanks & E & Hb).
    exists (String c blanks). split; [change (String c s = String c (blanks +:+ ">" +:+ drop_string e' s)); by f_equal|].
    cbn [all_chars]. by rewrite Ec.
  - case_bool_decide as E; [|done]. intros [= <-]. subst. by exists EmptyString.
Qed.
Lemma tag_at body name start e :
  HasPrefix (drop_string start body) ("</" +:+ name) = true ->
  serveLiveReloadClosingTagEnd body (start + String.length ("</" +:+ name)) = Some e ->
  exists tag, drop_string start body = tag +:+ drop_string e body /\ closing_tag name tag.
Proof.
  intros Hp. unfold serveLiveReloadClosingTagEnd. destruct (tag_end _) as [k|] eqn:Ek; [|done]. cbn [option_map]. intros [= <-].
  destruct (tag_end_spec _ _ Ek) as (blanks & Eb & Hb). apply HasPrefix_drop in Hp. rewrite drop_drop in Hp. rewrite drop_drop in Eb.
  exists ("</" +:+ name +:+ blanks +:+ ">"). split; [|by exists blanks]. rewrite Hp at 1. rewrite Eb at 1. by rewrite !string_app_assoc.
Qed.

Lemma last_tag_spec n body name k start e :
  last_tag n body ("</" +:+ name) k = Some (start, e) ->
  exists tag, drop_string start body = tag +:+ drop_string e body /\ closing_tag name tag.
Proof.
  revert k. induction n as [|n IH]; intros k; cbn [last_tag]; [done|]. destruct k as [|k']; [done|].
  destruct (LastIndex (take_string (S k') body) ("</" +:+ name)) as [i|] eqn:Ei; [|done].
  destruct (serveLiveReloadClosingTagEnd body (i + String.length ("</" +:+ name))) as [e'|] eqn:Ee; [|apply IH].
  intros [= <- <-]. apply tag_at; [|done]. apply LastIndex_prefix in Ei. rewrite drop_of_take in Ei. by eapply HasPrefix_of_take.
Qed.
(** More fuel than the offset finds the same: a round ends before it began. *)
Lemma LastIndex_room s sub i : LastIndex s sub = Some i -> (i + String.length sub <= String.length s)%nat.
Proof.
  revert i. induction s as [|c s IH]; intros i; cbn [LastIndex].
  - destruct (HasPrefix EmptyString sub) eqn:E; [|done]. intros [= <-]. by apply HasPrefix_length in E.
  - destruct (LastIndex s sub) as [j|]; [intros [= <-]; specialize (IH j eq_refl); cbn; lia|].
    destruct (HasPrefix (String c s) sub) eqn:E; [|done]. intros [= <-]. by apply HasPrefix_length in E.
Qed.
Lemma last_tag_fuel n m body name k : (k < n)%nat -> (k < m)%nat -> last_tag n body ("</" +:+ name) k = last_tag m body ("</" +:+ name) k.
Proof.
  revert m k. induction n as [|n IH]; intros m k Hn Hm; [lia|]. destruct m as [|m]; [lia|]. cbn [last_tag]. destruct k as [|k']; [done|].
  destruct (LastIndex (take_string (S k') body) ("</" +:+ name)) as [i|] eqn:Ei; [|done]. apply LastIndex_room in Ei.
  rewrite take_string_length in Ei. rewrite string_length_app in Ei. cbn [String.length] in Ei.
  destruct (serveLiveReloadClosingTagEnd _ _); [done|]. apply IH; lia.
Qed.

Lemma find_in_lower body i :
  findServeLiveReloadClosingTag body = Some i -> document_end (drop_string i (unicode_ToLower body)).
Proof.
  unfold findServeLiveReloadClosingTag. set (lower := unicode_ToLower body).
  assert (match lastServeLiveReloadClosingTag lower "html" with
          | Some (start, e) => if blank (drop_string e lower) then Some start else None
          | None => None end = Some i -> document_end (drop_string i lower)) as Hhtml.
  { destruct (lastServeLiveReloadClosingTag lower "html") as [[start e]|] eqn:El; [|done]. destruct (blank (drop_string e lower)) eqn:Eb; [|done].
    intros [= <-]. destruct (last_tag_spec _ _ _ _ _ _ El) as (tag & Ed & Ht). exists tag, (drop_string e lower). split; [done|]. by left. }
  destruct (lastServeLiveReloadClosingTag lower "body") as [[start e]|] eqn:El; [|exact Hhtml].
  destruct (last_tag_spec _ _ _ _ _ _ El) as (tag & Ed & Ht). case_bool_decide as Et.
  { intros [= <-]. exists tag, (drop_string e lower). split; [done|]. right. split; [done|]. left. by apply bool_decide_eq_true. }
  unfold firstServeLiveReloadClosingTag. destruct (Index _ _) as [[|k]|] eqn:Ei; [|exact Hhtml|exact Hhtml].
  destruct (serveLiveReloadClosingTagEnd _ _) as [htmlEnd|] eqn:Ee; [|exact Hhtml].
  destruct (blank (drop_string htmlEnd (TrimSpace (drop_string e lower)))) eqn:Eb; [|exact Hhtml]. intros [= <-].
  apply Index_prefix in Ei. destruct (tag_at _ _ _ _ Ei Ee) as (tag' & Ed' & Ht').
  exists tag, (drop_string e lower). split; [done|]. right. split; [done|]. right. by eexists tag', _.
Qed.

Lemma ToLower_length s : String.length (ToLower s) = String.length s.
Proof. induction s as [|c s IH]; [done|]. cbn. by rewrite IH. Qed.
Lemma ToLower_drop i s : drop_string i (ToLower s) = ToLower (drop_string i s).
Proof. revert i. induction s as [|c s IH]; intros i; destruct i as [|i]; try done. cbn. apply IH. Qed.
Lemma document_end_nonempty s : document_end s -> s <> EmptyString.
Proof. intros (tag & tail & -> & Hc). destruct Hc as [[(b & -> & _) _]|[(b & -> & _) _]]; done. Qed.

Lemma find_ascii body i :
  all_chars asciiC body = true -> findServeLiveReloadClosingTag body = Some i ->
  (i < String.length body)%nat /\ document_end (ToLower (drop_string i body)).
Proof.
  intros Ha Hf. apply find_in_lower in Hf. unfold unicode_ToLower in Hf. rewrite Ha, ToLower_drop in Hf. split; [|done].
  destruct (Nat.lt_ge_cases i (String.length body)) as [|Hge]; [done|]. exfalso. eapply document_end_nonempty; [exact Hf|].
  assert (String.length (ToLower (drop_string i body)) = O) as E by (rewrite ToLower_length, drop_string_length; lia).
  by destruct (ToLower (drop_string i body)).
Qed.

(** What the browser gets instead of [rs] with the body [b]: the same, for one of the reasons
    below, or the tag before the end of the document. *)
Inductive passed_on (r : serveLiveReload) (rq : request) (rs : response) (b : stream) : option error -> Prop :=
| not_eligible : eligibleServeLiveReloadResponse rq rs = false -> passed_on r rq rs b None
| too_large : serveLiveReloadMaxDocumentBytes < byte_len (st_data b) -> passed_on r rq rs b None
| tagged_already : Contains (st_data b) ("<script src=" +:+ quote_ +:+ scriptPath r +:+ quote_) = true -> passed_on r rq rs b None
| no_end : findServeLiveReloadClosingTag (st_data b) = None -> passed_on r rq rs b None
| broken e : st_broken b = Some e -> passed_on r rq rs b (Some (Wrapf "read HTML response for live reload: %w" e)).

Record tagged_document (path : string) (g : Z) (rs rs' : response) : Prop := {
  tg_body : exists before after,
    rs_Body rs = Some {| st_data := before +:+ after; st_broken := None |}
    /\ rs_Body rs' = Some {| st_data := before +:+ script_tag path g +:+ after; st_broken := None |}
    /\ rs_ContentLength rs' = byte_len (before +:+ script_tag path g +:+ after)
    /\ document_end (ToLower after);
  tg_length : rs_Header rs' !! "Content-Length" = Some [Itoa (rs_ContentLength rs')];
  tg_cache : rs_Header rs' !! "Cache-Control" = Some ["no-store"];
  tg_dropped : forall name, name ∈ dropped_headers -> rs_Header rs' !! CanonicalMIMEHeaderKey name = None;
  tg_other : forall name, name ∉ "Content-Length" :: "Cache-Control" :: (CanonicalMIMEHeaderKey <$> dropped_headers) ->
    rs_Header rs' !! name = rs_Header rs !! name;
  tg_status : rs_Status rs' = rs_Status rs;
  tg_uncompressed : rs_Uncompressed rs' = rs_Uncompressed rs;
  tg_encoding : rs_TransferEncoding rs' = rs_TransferEncoding rs;
  tg_trailer : rs_Trailer rs' = rs_Trailer rs
}.

Lemma delete_all_lookup (names : list string) (h : gmap string (list string)) name :
  foldr (fun n h => delete (CanonicalMIMEHeaderKey n) h) h names !! name
  = if bool_decide (name ∈ CanonicalMIMEHeaderKey <$> names) then None else h !! name.
Proof.
  induction names as [|n names IH]; [done|]. cbn [foldr fmap list_fmap]. destruct (decide (name = CanonicalMIMEHeaderKey n)) as [->|Hne].
  - rewrite lookup_delete_eq, bool_decide_eq_true_2; [done|by left].
  - rewrite lookup_delete_ne, IH by done. destruct (decide (name ∈ CanonicalMIMEHeaderKey <$> names)).
    + rewrite !bool_decide_eq_true_2; [done|by right|done].
    + rewrite !bool_decide_eq_false_2; [done|by intros [|]%elem_of_cons|done].
Qed.
Lemma rewritten_tagged rq rs before after path g :
  eligibleServeLiveReloadResponse rq rs = true -> rs_Body rs = Some {| st_data := before +:+ after; st_broken := None |} ->
  document_end (ToLower after) ->
  let injected := before +:+ script_tag path g +:+ after in
  tagged_document path g rs
    {| rs_Status := rs_Status rs; rs_Header := rewritten_header (rs_Header rs) (byte_len injected);
       rs_Body := Some {| st_data := injected; st_broken := None |}; rs_Uncompressed := rs_Uncompressed rs;
       rs_ContentLength := byte_len injected; rs_TransferEncoding := []; rs_Trailer := rs_Trailer rs |}.
Proof.
  intros He Hb Hend injected.
  assert (forall name, rewritten_header (rs_Header rs) (byte_len injected) !! name =
    if bool_decide (name ∈ CanonicalMIMEHeaderKey <$> dropped_headers) then None
    else <["Content-Length" := [Itoa (byte_len injected)]]> (<["Cache-Control" := ["no-store"]]> (rs_Header rs)) !! name) as Hh
    by (intros name; apply delete_all_lookup).
  constructor; cbn [rs_Header rs_Body rs_ContentLength rs_Status rs_Uncompressed rs_TransferEncoding rs_Trailer]; try done.
  - by exists before, after.
  - rewrite Hh, bool_decide_eq_false_2 by (apply (bool_decide_unpack _); vm_compute; exact I). apply lookup_insert_eq.
  - rewrite Hh, bool_decide_eq_false_2 by (apply (bool_decide_unpack _); vm_compute; exact I).
    rewrite lookup_insert_ne by done. apply lookup_insert_eq.
  - intros name Hn. rewrite Hh, bool_decide_eq_true_2; [done|]. by apply list_elem_of_fmap_2.
  - intros name Hn. rewrite !not_elem_of_cons in Hn. destruct Hn as (H1 & H2 & H3).
    by rewrite Hh, bool_decide_eq_false_2, !lookup_insert_ne by done.
  - unfold eligibleServeLiveReloadResponse in He. destruct (rs_TransferEncoding rs) as [|x l]; [done|]. exfalso.
    cbn in He. rewrite ?andb_false_r, ?andb_false_l in He. done.
Qed.

Lemma read_document_whole b body e rest : read_document b = (body, e, rest) -> prependServeLiveReloadBody body rest = b.
Proof.
  unfold read_document, prependServeLiveReloadBody. generalize read_limit. intros n. destruct b as [data broken]. cbn [st_data st_broken].
  destruct (byte_len data <=? serveLiveReloadMaxDocumentBytes); intros [= <- <- <-]; cbn [st_data st_broken]; f_equal.
  - apply string_app_nil_r.
  - by rewrite <- take_drop.
Qed.
Lemma kept_same rs b body e rest : rs_Body rs = Some b -> read_document b = (body, e, rest) -> with_body rs (prependServeLiveReloadBody body rest) = rs.
Proof. intros Hb Hr. rewrite (read_document_whole _ _ _ _ Hr). destruct rs. cbn in Hb. by subst. Qed.
(** What was read is the whole body, or more than the limit. *)
Lemma read_document_size b body e rest : read_document b = (body, e, rest) ->
  (body = st_data b /\ e = st_broken b) \/
  (e = None /\ serveLiveReloadMaxDocumentBytes < byte_len body /\ serveLiveReloadMaxDocumentBytes < byte_len (st_data b)).
Proof.
  unfold read_document. destruct (Z.leb_spec (byte_len (st_data b)) serveLiveReloadMaxDocumentBytes) as [|Hgt].
  - intros Hr. left. by injection Hr as <- <- _.
  - intros Hr. right. assert (body = take_string read_limit (st_data b) /\ e = None) as [-> ->] by (split; congruence). split; [done|].
    split; [|done]. unfold byte_len in *. rewrite take_string_length. unfold read_limit. lia.
Qed.

End Documents.

(** ** Examples *)

Module Page.
Definition hub : serveLiveReload := newServeLiveReloadWithReader "token" id.
Definition wait : request :=
  {| rq_Method := "GET"; rq_Path := eventsPath hub; rq_EscapedPath := eventsPath hub; rq_RawQuery := "since=0"; rq_Header := ∅; rq_Generation := None |}.
Definition waiting : serveLiveReload := (Handle true wait hub).2.
Definition get : request :=
  {| rq_Method := "GET"; rq_Path := "/"; rq_EscapedPath := "/"; rq_RawQuery := EmptyString;
     rq_Header := {["Sec-Fetch-Dest" := ["document"]]}; rq_Generation := Some 3 |}.
Definition html (body : string) : response :=
  {| rs_Status := 200; rs_Header := {["Content-Type" := ["text/html"]]}; rs_Body := Some {| st_data := body; st_broken := None |};
     rs_Uncompressed := false; rs_ContentLength := byte_len body; rs_TransferEncoding := []; rs_Trailer := ∅ |}.
End Page.

Lemma live_reload_misses_nothing_witness :
  exists g, 0 < g <= 1 /\ stream_round 0 Received (NotifyReload Page.waiting) = Some (reload_event g, true, unsubscribe 0 (NotifyReload Page.waiting)).
Proof.
  assert (rtc hub_step (Page.hub, ∅) (NotifyReload Page.waiting, <[0%nat := since_of Page.wait]> ∅)) as Hr.
  { eapply rtc_l; [apply (step_request Page.hub ∅ true Page.wait (Waiting 0) Page.waiting); vm_compute; reflexivity|].
    eapply rtc_l; [apply step_notify|apply rtc_refl]. }
  apply (proj1 (live_reload_misses_nothing "token" id _ _ Hr) 0%nat 0); vm_compute; reflexivity.
Defined.

Example injected_page :
  (fun o => match o with Some (rs, _) => st_data <$> rs_Body rs | None => None end)
    (@Inject ascii_only Page.hub Page.get (Page.html "<p>Hi</p></BODY ></html>"))
  = Some ("<p>Hi</p>" +:+ script_tag (scriptPath Page.hub) 3 +:+ "</BODY ></html>").
Proof. vm_compute. reflexivity. Qed.

(** Without a charset a document may be in Latin-1.  Each such byte takes three in the lowered
    text: one of them moves the tag into the closing tag, a few of them past the end, where the
    slice panics. *)
Definition latin1 (n : nat) : string := Repeat (chr 233) n.
Example latin1_document_is_broken :
  (fun o => match o with Some (rs, _) => st_data <$> rs_Body rs | None => None end)
    (@Inject ascii_only Page.hub Page.get (Page.html ("<p>" +:+ latin1 1 +:+ "</p></body></html>")))
  = Some ("<p>" +:+ latin1 1 +:+ "</p></" +:+ script_tag (scriptPath Page.hub) 3 +:+ "body></html>").
Proof. vm_compute. reflexivity. Qed.
Example latin1_document_panics :
  @Inject ascii_only Page.hub Page.get (Page.html ("<p>" +:+ latin1 8 +:+ "</p></body></html>")) = None.
Proof. vm_compute. reflexivity. Qed.
(** Nor does UTF-8 help: the lower case of the dotted capital I of Turkish is shorter, and the tag
    ends up in the tag before. *)
Definition turkish : Unicode :=
  {| wideLetter := fun _ => true; wideDigit := fun _ => false; wideUpper := fun r => r =? 304;
     wideToLower := fun r => if r =? 304 then 105 else r; wideFold := id |}.
Example turkish_document_is_broken :
  (fun o => match o with Some (rs, _) => st_data <$> rs_Body rs | None => None end)
    (@Inject turkish Page.hub Page.get (Page.html ("<p>" +:+ AppendRune 304 +:+ "</p></body></html>")))
  = Some ("<p>" +:+ AppendRune 304 +:+ "</p" +:+ script_tag (scriptPath Page.hub) 3 +:+ "></body></html>").
Proof. vm_compute. reflexivity. Qed.
