(* ===== verification/CliWatch.v ===== *)
(** * Watching the source ([internal/cli/watch.go])

    The development server polls the source tree.  A snapshot is the digest of the watched paths
    and their contents; the tracker counts the snapshots that differ and remembers since when
    reading fails; [Stabilize] waits until nothing has changed for a while.  Times are
    nanoseconds.  A source tree is the tree [filepath.WalkDir] walks, with what the filesystem
    answers about each file; SHA-256 is a parameter.

    Shown: the text that is hashed determines the paths and their digests; a snapshot that
    [Stabilize] or the polling watcher returns has been the only one for the whole debounce
    time; and an unreadable tree is reported only after the tolerance. *)

From S2P Require Import Prelude GoStrings GoQuote GoText Asset.
Local Open Scope go_scope.
Local Open Scope Z_scope.

Definition sourceSnapshot : Type := string.
Definition generatedViewSource : string := "resources/views/views_gen.go".
Definition assetSourceRoot : string := "resources/assets/files/".
Definition assetSnapshotRevalidationInterval : Z := 5000000000.
Definition sourceWatchErrorTolerance : Z := 500000000.
Definition excludedSourceDirectories : list string := [".git"; ".forge"; "bin"; ".tmp"; "tmp"; ".cache"; "vendor"; "node_modules"].

(** ** Which files count *)

Definition isRootSourceFile (relative : string) : bool := bool_decide (relative ∈ ["forge.yaml"; "go.mod"; "go.sum"; ".env"]).
Definition isWatchedSourcePath (relative : string) (includeAssets : bool) : bool :=
  if bool_decide (relative = generatedViewSource) then false
  else if includeAssets && HasPrefix relative assetSourceRoot then true
  else isRootSourceFile relative || HasSuffix relative ".go" || HasSuffix relative ".forge.html" || HasSuffix relative ".sql".

(** ** The text that is hashed *)

(** [binary.BigEndian.PutUint64]: [n] bytes, the highest first. *)
Fixpoint big_endian (n : nat) (v : Z) : string :=
  match n with
  | O => EmptyString
  | S n => big_endian n (v / 256) +:+ String (byte_of (v mod 256)) EmptyString
  end.
Definition writeSnapshotSize (v : Z) : string := big_endian 8 (v mod 18446744073709551616).
Definition writeSnapshotField (value : string) : string := writeSnapshotSize (byte_len value) +:+ value.

(** ** Reading the tree *)

Record sourceFile : Type := { sf_path : string; sf_size : Z; sf_modified : Z; sf_asset : bool; sf_metadataOnly : bool; sf_content : result string }.
Record sourceDigestCacheEntry : Type := { ce_size : Z; ce_modified : Z; ce_digest : string; ce_checked : Z }.
(** The count of hashed files, which only tests read, is left out. *)
Record sourceSnapshotReader : Type := { includeAssets : bool; cache : gmap string sourceDigestCacheEntry }.

(** What [entry.Info] says, and what reading the file gives. *)
Record fileInfo : Type := { fi_regular : bool; fi_size : Z; fi_modified : Z; fi_content : result string }.
Inductive node : Type :=
| NodeError (name : string) (e : error)
| NodeFile (name : string) (info : result fileInfo)
| NodeDir (name : string) (children : list node).

Record walking : Type := { wk_files : list sourceFile; wk_assets : Z; wk_bytes : Z; wk_exceeded : bool }.
Definition ErrNotExist : error := Sentinel "os.ErrNotExist".
Definition join_path (dir name : string) : string := if bool_decide (dir = EmptyString) then name else dir +:+ "/" +:+ name.

Section Reader.
Context (sha256 : string -> string).

Definition visit_source (assets : bool) (relative : string) (info : result fileInfo) (w : walking) : result walking :=
  if negb (isWatchedSourcePath relative assets) then Ok w
  else match info with
  | Err e => Err (Wrapf "inspect source %s: %w" e)
  | Ok info =>
      if negb (fi_regular info) then Err (Errorf "source path %s is not a regular file")
      else
        let isAsset := HasPrefix relative assetSourceRoot in
        let count := if isAsset then wk_assets w + 1 else wk_assets w in
        let over := fi_size info >? DefaultMaxTotalBytes - wk_bytes w in
        let metadataOnly := isAsset && ((count >? DefaultMaxFiles) || (fi_size info >? DefaultMaxFileBytes) || wk_exceeded w || over) in
        Ok {| wk_files := wk_files w ++ [{| sf_path := relative; sf_size := fi_size info; sf_modified := fi_modified info;
                                            sf_asset := isAsset; sf_metadataOnly := metadataOnly; sf_content := fi_content info |}];
              wk_assets := count;
              wk_bytes := if isAsset && negb metadataOnly then wk_bytes w + fi_size info else wk_bytes w;
              wk_exceeded := wk_exceeded w || (isAsset && over) |}
  end.

(** [filepath.WalkDir] below the root; an excluded directory is skipped, unless it holds assets. *)
Fixpoint walk_source (assets : bool) (dir : string) (n : node) (w : walking) : result walking :=
  match n with
  | NodeError _ e => if errors_Is e ErrNotExist then Ok w else Err e
  | NodeFile name info => visit_source assets (join_path dir name) info w
  | NodeDir name children =>
      let relative := join_path dir name in
      if isRootSourceFile relative then Err (Errorf "source path %s is not a regular file")
      else if bool_decide (name ∈ excludedSourceDirectories) && negb (assets && HasPrefix relative assetSourceRoot) then Ok w
      else (fix walk_all ns w := match ns with [] => Ok w | n :: ns => try w' := walk_source assets relative n w in walk_all ns w' end) children w
  end.
Fixpoint walk_children (assets : bool) (ns : list node) (w : walking) : result walking :=
  match ns with [] => Ok w | n :: ns => try w' := walk_source assets EmptyString n w in walk_children assets ns w' end.

Fixpoint insert_source (f : sourceFile) (l : list sourceFile) : list sourceFile :=
  match l with
  | [] => [f]
  | g :: rest => if String.leb (sf_path f) (sf_path g) then f :: l else g :: insert_source f rest
  end.
Definition sort_sources (l : list sourceFile) : list sourceFile := foldr insert_source [] l.

(** [hashSourceFile]: the first [size] bytes. *)
Definition hashSourceFile (f : sourceFile) : result string :=
  match sf_content f with
  | Err e => Err e
  | Ok content => if byte_len content <? sf_size f then Err (Sentinel "io.EOF") else Ok (sha256 (take_string (Z.to_nat (sf_size f)) content))
  end.
Definition metadata_digest (f : sourceFile) : string :=
  sha256 (writeSnapshotField "asset-metadata-only" +:+ writeSnapshotSize (sf_size f) +:+ writeSnapshotSize (sf_modified f)).

(** The entry of one file, or [None] when it has gone meanwhile. *)
Definition digest_entry (r : sourceSnapshotReader) (now : Z) (f : sourceFile) : result (option sourceDigestCacheEntry) :=
  let entry d c := {| ce_size := sf_size f; ce_modified := sf_modified f; ce_digest := d; ce_checked := c |} in
  if sf_metadataOnly f then Ok (Some (entry (metadata_digest f) now))
  else
    let fresh := match cache r !! sf_path f with
                 | Some cached => if sf_asset f && (ce_size cached =? sf_size f) && (ce_modified cached =? sf_modified f)
                                     && (now - ce_checked cached <? assetSnapshotRevalidationInterval) then Some cached else None
                 | None => None
                 end in
    match fresh with
    | Some cached => Ok (Some (entry (ce_digest cached) (ce_checked cached)))
    | None => match hashSourceFile f with
              | Ok d => Ok (Some (entry d now))
              | Err e => if errors_Is e ErrNotExist then Ok None else Err (Wrapf "read source %s: %w" e)
              end
    end.
(** The fields of the snapshot and the new cache. *)
Fixpoint digest_all (r : sourceSnapshotReader) (now : Z) (files : list sourceFile)
    : result (list (string * string) * gmap string sourceDigestCacheEntry) :=
  match files with
  | [] => Ok ([], ∅)
  | f :: rest =>
      try entry := digest_entry r now f in
      try (fields, next) := digest_all r now rest in
      match entry with
      | None => Ok (fields, next)
      | Some e => Ok ((sf_path f, ce_digest e) :: fields, if sf_asset f then <[sf_path f := e]> next else next)
      end
  end.
Definition snapshot_text (fields : list (string * string)) : string :=
  foldr (fun f acc => writeSnapshotField f.1 +:+ writeSnapshotField f.2 +:+ acc) EmptyString fields.
Definition nothing_yet : walking := {| wk_files := []; wk_assets := 0; wk_bytes := 0; wk_exceeded := false |}.
Definition source_fields (r : sourceSnapshotReader) (now : Z) (root : list node)
    : result (list (string * string) * gmap string sourceDigestCacheEntry) :=
  match walk_children (includeAssets r) root nothing_yet with
  | Err e => Err (Wrapf "walk application source: %w" e)
  | Ok w => digest_all r now (sort_sources (wk_files w))
  end.
(** [Read]; the root cannot be inspected, is no directory, or is a tree.  The reader keeps its cache when it fails. *)
Definition read_source (now : Z) (root : result (option (list node))) (r : sourceSnapshotReader) : result sourceSnapshot * sourceSnapshotReader :=
  match root with
  | Err e => (Err (Wrapf "inspect source root: %w" e), r)
  | Ok None => (Err (Errorf "source root is not a directory"), r)
  | Ok (Some root) =>
      match source_fields r now root with
      | Err e => (Err e, r)
      | Ok (fields, next) => (Ok (sha256 (snapshot_text fields)), {| includeAssets := includeAssets r; cache := next |})
      end
  end.
End Reader.

(** ** The tracker *)

(** [closes] counts the times the channel [changed] was closed and replaced. *)
Record sourceGenerationTracker : Type := {
  generation : Z; current : sourceSnapshot; closes : nat; failing : option (Z * error); tolerance : Z
}.
Definition recordSnapshot (s : sourceSnapshot) (t : sourceGenerationTracker) : sourceGenerationTracker :=
  let recovered := bool_decide (is_Some (failing t)) in
  if bool_decide (s = current t) && negb recovered then
    {| generation := generation t; current := current t; closes := closes t; failing := None; tolerance := tolerance t |}
  else
    {| generation := if bool_decide (s = current t) then generation t else generation t + 1; current := s;
       closes := S (closes t); failing := None; tolerance := tolerance t |}.
Definition recordError (now : Z) (e : error) (t : sourceGenerationTracker) : sourceGenerationTracker :=
  {| generation := generation t; current := current t; closes := S (closes t);
     failing := Some (match failing t with Some (since, _) => (since, e) | None => (now, e) end); tolerance := tolerance t |}.
Definition unreadable (e : error) : error := Wrapf "application source remained unreadable for %s: %w" e.
(** An error that has lasted for the tolerance. *)
Definition overdue (now : Z) (t : sourceGenerationTracker) : option error :=
  match failing t with
  | Some (since, e) => if tolerance t <=? now - since then Some (unreadable e) else None
  | None => None
  end.
Definition Snapshot (now : Z) (t : sourceGenerationTracker) : result sourceSnapshot :=
  match overdue now t with Some e => Err e | None => Ok (current t) end.
(** One look of [Read] and of [WaitForChange] at the tracker: an answer, or wait for [changed]. *)
Definition read_look (now : Z) (t : sourceGenerationTracker) : option (result sourceSnapshot) :=
  match failing t with
  | None => Some (Ok (current t))
  | Some _ => match overdue now t with Some e => Some (Err e) | None => None end
  end.
Inductive look : Type := LookAgain | LookFailed (e : error) | LookChanged (s : sourceSnapshot).
Definition change_look (now : Z) (previous : sourceSnapshot) (previousGeneration : Z) (t : sourceGenerationTracker) : look :=
  match overdue now t with
  | Some e => LookFailed e
  | None => match failing t with
            | Some _ => LookAgain
            | None => if negb (bool_decide (current t = previous)) || negb (generation t =? previousGeneration)
                      then LookChanged (current t) else LookAgain
            end
  end.

(** What the polling goroutine does to the tracker. *)
Inductive tracker_step : sourceGenerationTracker -> sourceGenerationTracker -> Prop :=
| polled s t : tracker_step t (recordSnapshot s t)
| poll_failed now e t : tracker_step t (recordError now e t).

(** ** [Stabilize] *)

(** The candidate, the generation it was seen with, and when the timer fires. *)
Record stabilizing : Type := { sz_candidate : sourceSnapshot; sz_generation : Z; sz_deadline : Z }.
(** One round of the loop: which case of the [select] it takes and when; the answer of the [Read]
    in it, with the tracker as it was then; and the trackers that the two calls of [Generation]
    saw after that. *)
Inductive observation : Type :=
| ContextDone (e : error)
| TimerFired (now : Z) (read : result sourceSnapshot) (at_read at_check at_reset : sourceGenerationTracker)
| ChangeSeen (now : Z) (read : result sourceSnapshot) (at_read at_reset : sourceGenerationTracker).

Definition stabilize_round (debounce : Z) (o : observation) (s : stabilizing) : stabilizing + result sourceSnapshot :=
  match o with
  | ContextDone e => inr (Err e)
  | TimerFired now (Err e) _ _ _ | ChangeSeen now (Err e) _ _ => inr (Err e)
  | TimerFired now (Ok cur) _ at_check at_reset =>
      if bool_decide (cur = sz_candidate s) && (generation at_check =? sz_generation s) then inr (Ok cur)
      else inl {| sz_candidate := cur; sz_generation := generation at_reset; sz_deadline := now + debounce |}
  | ChangeSeen now (Ok cur) _ at_reset =>
      inl {| sz_candidate := cur; sz_generation := generation at_reset; sz_deadline := now + debounce |}
  end.
Fixpoint stabilize_loop (debounce : Z) (l : list observation) (s : stabilizing) : option (result sourceSnapshot) :=
  match l with
  | [] => None
  | o :: l => match stabilize_round debounce o s with inl s' => stabilize_loop debounce l s' | inr r => Some r end
  end.
Definition Stabilize (debounce start : Z) (initial : sourceSnapshot) (t : sourceGenerationTracker) (l : list observation)
    : option (result sourceSnapshot) :=
  stabilize_loop debounce l {| sz_candidate := initial; sz_generation := generation t; sz_deadline := start + debounce |}.

(** ** Without a tracker: polling and tolerance *)

Record tolerantSourceSnapshotReader : Type := { tr_tolerance : Z; tr_failingAt : option Z }.
(** [next]: a snapshot, nothing for now, or the error. *)
Definition next (now : Z) (read : result sourceSnapshot) (r : tolerantSourceSnapshotReader)
    : result (option sourceSnapshot) * tolerantSourceSnapshotReader :=
  match read with
  | Ok s => (Ok (Some s), {| tr_tolerance := tr_tolerance r; tr_failingAt := None |})
  | Err e =>
      match tr_failingAt r with
      | None => (Ok None, {| tr_tolerance := tr_tolerance r; tr_failingAt := Some now |})
      | Some since => if now - since <? tr_tolerance r then (Ok None, r) else (Err (unreadable e), r)
      end
  end.

Definition validateSourceWatchDurations (pollInterval debounce errorTolerance : Z) : option error :=
  if pollInterval <=? 0 then Some (Errorf "source watch poll interval must be positive")
  else if debounce <? 0 then Some (Errorf "source watch debounce must not be negative")
  else if errorTolerance <? 0 then Some (Errorf "source watch error tolerance must not be negative")
  else None.

(** The loop of [waitForStableSourceSnapshotWithReader]: the candidate and the quiet timer, if it runs. *)
Record waiting : Type := { wt_reader : tolerantSourceSnapshotReader; wt_candidate : sourceSnapshot; wt_quiet : option Z }.
Inductive tick : Type :=
| Cancelled (e : error)
| Poll (now : Z) (read : result sourceSnapshot)
| Quiet (now : Z) (read : result sourceSnapshot).
Definition stable_round (debounce : Z) (k : tick) (w : waiting) : waiting + result sourceSnapshot :=
  match k with
  | Cancelled e => inr (Err e)
  | Poll now read =>
      let '(r, reader) := next now read (wt_reader w) in
      match r with
      | Err e => inr (Err e)
      | Ok None => inl {| wt_reader := reader; wt_candidate := wt_candidate w; wt_quiet := None |}
      | Ok (Some s) =>
          if negb (bool_decide (s = wt_candidate w)) then inl {| wt_reader := reader; wt_candidate := s; wt_quiet := Some (now + debounce) |}
          else inl {| wt_reader := reader; wt_candidate := wt_candidate w;
                      wt_quiet := match wt_quiet w with None => Some (now + debounce) | running => running end |}
      end
  | Quiet now read =>
      let '(r, reader) := next now read (wt_reader w) in
      match r with
      | Err e => inr (Err e)
      | Ok None => inl {| wt_reader := reader; wt_candidate := wt_candidate w; wt_quiet := None |}
      | Ok (Some s) =>
          if bool_decide (s = wt_candidate w) then inr (Ok s)
          else inl {| wt_reader := reader; wt_candidate := s; wt_quiet := Some (now + debounce) |}
      end
  end.
Fixpoint stable_loop (debounce : Z) (l : list tick) (w : waiting) : option (result sourceSnapshot) :=
  match l with
  | [] => None
  | k :: l => match stable_round debounce k w with inl w' => stable_loop debounce l w' | inr r => Some r end
  end.
Definition waitForStableSourceSnapshotWithReader (reader : tolerantSourceSnapshotReader) (start debounce pollInterval : Z)
    (initial : sourceSnapshot) (l : list tick) : option (result sourceSnapshot) :=
  if debounce =? 0 then Some (Ok initial)
  else if pollInterval <=? 0 then Some (Err (Errorf "source watch poll interval must be positive"))
  else stable_loop debounce l {| wt_reader := reader; wt_candidate := initial; wt_quiet := Some (start + debounce) |}.

(** [waitForChangedSourceSnapshotWith]: polls until the snapshot is another one, then waits. *)
Fixpoint waitForChangedSourceSnapshotWith (reader : tolerantSourceSnapshotReader) (previous : sourceSnapshot)
    (pollInterval debounce : Z) (l : list tick) : option (result sourceSnapshot) :=
  match l with
  | [] => None
  | Cancelled e :: _ => Some (Err e)
  | Quiet _ _ :: l => waitForChangedSourceSnapshotWith reader previous pollInterval debounce l
  | Poll now read :: l =>
      let '(r, reader) := next now read reader in
      match r with
      | Err e => Some (Err e)
      | Ok (Some s) =>
          if negb (bool_decide (s = previous)) then waitForStableSourceSnapshotWithReader reader now debounce pollInterval s l
          else waitForChangedSourceSnapshotWith reader previous pollInterval debounce l
      | Ok None => waitForChangedSourceSnapshotWith reader previous pollInterval debounce l
      end
  end.

(** ** The hashed text determines the files *)

Lemma big_endian_length n v : String.length (big_endian n v) = n.
Proof. revert v. induction n as [|n IH]; intros v; cbn [big_endian]; [done|]. rewrite string_length_app, IH. cbn. lia. Qed.
Lemma string_app_inj (a b a' b' : string) : String.length a = String.length a' -> a +:+ b = a' +:+ b' -> a = a' /\ b = b'.
Proof.
  intros Hl E. pose proof (take_string_app a b) as H1. pose proof (drop_string_app a b) as H2.
  rewrite E, Hl, take_string_app in H1. rewrite E, Hl, drop_string_app in H2. done.
Qed.
Lemma byte_of_inj a b : 0 <= a < 256 -> 0 <= b < 256 -> byte_of a = byte_of b -> a = b.
Proof.
  intros Ha Hb E. unfold byte_of, chr in E. apply (f_equal Ascii.nat_of_ascii) in E.
  rewrite !Ascii.nat_ascii_embedding in E by lia. lia.
Qed.
Lemma big_endian_inj n v u : 0 <= v < 256 ^ Z.of_nat n -> 0 <= u < 256 ^ Z.of_nat n -> big_endian n v = big_endian n u -> v = u.
Proof.
  revert v u. induction n as [|n IH]; intros v u; cbn [big_endian]; [change (256 ^ Z.of_nat 0) with 1; lia|].
  rewrite Nat2Z.inj_succ, Z.pow_succ_r by lia. intros Hv Hu E. apply string_app_inj in E as [E1 E2]; [|by rewrite !big_endian_length].
  injection E2 as E2. apply byte_of_inj in E2; [|apply Z.mod_pos_bound; lia..].
  apply IH in E1; [| |]; [|split; [apply Z.div_pos; lia|apply Z.div_lt_upper_bound; lia]..].
  rewrite (Z.div_mod v 256), (Z.div_mod u 256) by lia. congruence.
Qed.

Definition measurable (s : string) : Prop := byte_len s < 18446744073709551616.
Lemma field_inj a b s s' :
  measurable a -> measurable b -> writeSnapshotField a +:+ s = writeSnapshotField b +:+ s' -> a = b /\ s = s'.
Proof.
  unfold measurable, writeSnapshotField, writeSnapshotSize. intros Ha Hb. rewrite <- !string_app_assoc. intros E.
  apply string_app_inj in E as [E1 E2]; [|by rewrite !big_endian_length].
  assert (0 <= byte_len a /\ 0 <= byte_len b) as [Ha0 Hb0] by (unfold byte_len; lia).
  rewrite !Z.mod_small in E1 by lia. apply big_endian_inj in E1; [| |]; [|change (256 ^ Z.of_nat 8) with 18446744073709551616; lia..].
  apply string_app_inj in E2; [done|]. unfold byte_len in E1. lia.
Qed.

(** A snapshot identifies the source.  The text whose SHA-256 is the snapshot determines the
    list of watched paths with their digests: two trees that are hashed from the same text have
    the same paths with the same digests, in the same order; no path, no digest and no boundary
    between them can be traded for another. *)
Theorem snapshot_text_identifies_the_source (l l' : list (string * string)) :
  Forall (fun f => measurable f.1 /\ measurable f.2) l -> Forall (fun f => measurable f.1 /\ measurable f.2) l' ->
  snapshot_text l = snapshot_text l' -> l = l'.
Proof.
  intros Hl. revert l'. induction Hl as [|[p d] l [Hp Hd] Hl IH]; intros l' Hl' E.
  - destruct Hl' as [|[p' d'] l' [Hp' _] _]; [done|]. exfalso. apply (f_equal String.length) in E. cbn [snapshot_text foldr] in E.
    unfold writeSnapshotField in E. rewrite !string_length_app in E. unfold writeSnapshotSize in E. rewrite big_endian_length in E. cbn in E. lia.
  - destruct Hl' as [|[p' d'] l' [Hp' Hd'] Hl'].
    + exfalso. apply (f_equal String.length) in E. cbn [snapshot_text foldr] in E.
      unfold writeSnapshotField in E. rewrite !string_length_app in E. unfold writeSnapshotSize in E. rewrite big_endian_length in E. cbn in E. lia.
    + cbn [snapshot_text foldr fst snd] in *. apply field_inj in E as [<- E]; [|done..]. apply field_inj in E as [<- E]; [|done..].
      f_equal. by apply IH.
Qed.

(** ** A stable snapshot was stable *)

Lemma tracker_step_generation t t' : tracker_step t t' -> generation t <= generation t' /\ (generation t = generation t' -> current t = current t').
Proof.
  destruct 1 as [s t|now e t]; [|done]. unfold recordSnapshot. destruct (bool_decide (s = current t) && _) eqn:E; [done|]. cbn.
  case_bool_decide; [by split|]. split; lia.
Qed.
Lemma tracker_generation t t' : rtc tracker_step t t' -> generation t <= generation t' /\ (generation t = generation t' -> current t = current t').
Proof.
  induction 1 as [|t1 t2 t3 Hs _ [IH1 IH2]]; [split; [lia|done]|]. apply tracker_step_generation in Hs as [H1 H2].
  split; [lia|]. intros E. rewrite H2 by lia. apply IH2. lia.
Qed.

(** The answers come from one tracker that goes on, and the timer fires when it is due. *)
Definition read_at (r : result sourceSnapshot) (t : sourceGenerationTracker) : Prop :=
  match r with Ok s => failing t = None /\ current t = s | Err _ => True end.
Fixpoint genuine (debounce : Z) (l : list observation) (t : sourceGenerationTracker) (s : stabilizing) : Prop :=
  match l with
  | [] => True
  | o :: l =>
      match o with
      | ContextDone _ => True
      | TimerFired now r a b c => sz_deadline s <= now /\ rtc tracker_step t a /\ read_at r a /\ rtc tracker_step a b /\ rtc tracker_step b c
      | ChangeSeen now r a c => rtc tracker_step t a /\ read_at r a /\ rtc tracker_step a c
      end
      /\ match stabilize_round debounce o s, o with
         | inl s', TimerFired _ _ _ _ c | inl s', ChangeSeen _ _ _ c => genuine debounce l c s'
         | _, _ => True
         end
  end.
(** The timer was set at [since], when the tracker was [t]. *)
Definition set_at (l : list observation) (since : Z) (t : sourceGenerationTracker) : Prop :=
  (exists r a b, TimerFired since r a b t ∈ l) \/ (exists r a, ChangeSeen since r a t ∈ l).

Lemma stabilize_loop_stable debounce l since t s result :
  genuine debounce l t s -> sz_generation s = generation t -> sz_deadline s = since + debounce ->
  stabilize_loop debounce l s = Some (Ok result) ->
  exists since' t' now t'' b c, TimerFired now (Ok result) t'' b c ∈ l /\ since' + debounce <= now
    /\ ((since', t') = (since, t) \/ set_at l since' t')
    /\ rtc tracker_step t' t'' /\ forall u, rtc tracker_step t' u -> rtc tracker_step u t'' -> current u = result.
Proof.
  revert since t s. induction l as [|o l IH]; intros since t s Hg Hgen Hdl; cbn [stabilize_loop]; [done|].
  destruct o as [e|now [cur|e] a b c|now [cur|e] a c]; cbn [genuine stabilize_round] in *; try done.
  - destruct Hg as [(Hdue & Hta & [_ Hcur] & Hab & Hbc) Hrest].
    destruct (bool_decide (cur = sz_candidate s) && (generation b =? sz_generation s)) eqn:E.
    + intros [= <-]. apply andb_true_iff in E as [_ Eg%Z.eqb_eq]. exists since, t, now, a, b, c.
      split_and!; [by left|lia|by left|done|]. intros u Htu Hua.
      destruct (tracker_generation _ _ Htu) as [G1 _], (tracker_generation _ _ Hua) as [G2 C2], (tracker_generation _ _ Hab) as [G3 _].
      rewrite C2; [done|lia].
    + intros Hl. edestruct (IH now c) as (since' & t' & now' & t'' & b' & c' & Hin & Hle & Hset & Hrest'); [exact Hrest|done|done|exact Hl|].
      exists since', t', now', t'', b', c'. split_and!; [by right|done| |tauto..].
      right. destruct Hset as [[= -> ->]|[(r & a' & b'' & Hi)|(r & a' & Hi)]]; [left; eexists _, _, _; by left|left; eexists _, _, _; by right|right; eexists _, _; by right].
  - destruct Hg as [(Hta & [_ Hcur] & Hac) Hrest].
    intros Hl. edestruct (IH now c) as (since' & t' & now' & t'' & b' & c' & Hin & Hle & Hset & Hrest'); [exact Hrest|done|done|exact Hl|].
    exists since', t', now', t'', b', c'. split_and!; [by right|done| |tauto..].
    right. destruct Hset as [[= -> ->]|[(r & a' & b'' & Hi)|(r & a' & Hi)]]; [right; eexists _, _; by left|left; eexists _, _, _; by right|right; eexists _, _; by right].
Qed.

(** C29. What [Stabilize] returns has been stable.  When it returns a snapshot, the timer had been
    set at least the debounce time earlier, at the start or in a later round, and from then until
    the final reading every state of the tracker showed this snapshot and no other, however often
    it was polled, and whether or not polls failed. *)
Theorem stabilized_source_was_stable debounce start initial t l s :
  genuine debounce l t {| sz_candidate := initial; sz_generation := generation t; sz_deadline := start + debounce |} ->
  Stabilize debounce start initial t l = Some (Ok s) ->
  exists since t' now t'' b c, TimerFired now (Ok s) t'' b c ∈ l /\ since + debounce <= now
    /\ ((since, t') = (start, t) \/ set_at l since t')
    /\ rtc tracker_step t' t'' /\ forall u, rtc tracker_step t' u -> rtc tracker_step u t'' -> current u = s.
Proof. intros Hg Hs. eapply stabilize_loop_stable; [exact Hg|done|done|exact Hs]. Qed.

(** ** Failures are tolerated for a while *)

(** A run of [next]: the times and answers of the reads, the latest first. *)
Fixpoint reads (r : tolerantSourceSnapshotReader) (l : list (Z * result sourceSnapshot)) : tolerantSourceSnapshotReader :=
  match l with [] => r | (now, read) :: l => (next now read (reads r l)).2 end.
Lemma reads_tolerance r l : tr_tolerance (reads r l) = tr_tolerance r.
Proof. induction l as [|[now [s|e]] l IH]; cbn; [done|done|]. destruct (tr_failingAt _); [case_match|]; done. Qed.
Lemma reads_failing tol l since :
  tr_failingAt (reads {| tr_tolerance := tol; tr_failingAt := None |} l) = Some since ->
  exists l1 l2 e, l = l1 ++ (since, Err e) :: l2 /\ Forall (fun x => is_ok x.2 = false) l1.
Proof.
  induction l as [|[now read] l IH]; cbn [reads]; [done|]. unfold next. destruct read as [s|e]; [done|].
  destruct (tr_failingAt (reads _ l)) as [since'|] eqn:E.
  - intros H. assert (since' = since) as -> by (case_match; cbn in H; congruence). destruct (IH eq_refl) as (l1 & l2 & e' & -> & Hf).
    exists ((now, Err e) :: l1), l2, e'. split; [done|]. by constructor.
  - cbn. intros [= <-]. by exists [], l, e.
Qed.

(** The error comes out only when every read since some moment has failed, and that moment is
    the tolerance ago. *)
Theorem unreadable_source_is_tolerated tol l now read e :
  (next now read (reads {| tr_tolerance := tol; tr_failingAt := None |} l)).1 = Err e ->
  is_ok read = false /\ exists l1 since e' l2, l = l1 ++ (since, Err e') :: l2 /\ Forall (fun x => is_ok x.2 = false) l1 /\ tol <= now - since.
Proof.
  unfold next. destruct read as [s|e']; [done|]. destruct (tr_failingAt (reads _ l)) as [since|] eqn:E; [|done].
  rewrite reads_tolerance. cbn [tr_tolerance]. destruct (Z.ltb_spec (now - since) tol); [done|]. intros _. split; [done|].
  destruct (reads_failing _ _ _ E) as (l1 & l2 & e2 & -> & Hf). by exists l1, since, e2, l2.
Qed.

(** ** Examples *)

Module Edit.
Definition before : sourceGenerationTracker :=
  {| generation := 0; current := "a"; closes := 0; failing := None; tolerance := sourceWatchErrorTolerance |}.
Definition after : sourceGenerationTracker := recordSnapshot "b" before.
Definition run : list observation := [ChangeSeen 100 (Ok "b") after after; TimerFired 350 (Ok "b") after after after].
End Edit.

Lemma stabilized_source_was_stable_witness :
  exists since t' now t'' b c, TimerFired now (Ok "b") t'' b c ∈ Edit.run /\ since + 250 <= now
    /\ ((since, t') = (0, Edit.before) \/ set_at Edit.run since t')
    /\ rtc tracker_step t' t'' /\ forall u, rtc tracker_step t' u -> rtc tracker_step u t'' -> current u = "b".
Proof.
  apply (stabilized_source_was_stable 250 0 "a" Edit.before Edit.run "b"); [|vm_compute; reflexivity].
  assert (rtc tracker_step Edit.before Edit.after) as Hstep by (apply rtc_once, polled).
  cbn. split; [split; [exact Hstep|]; split; [split; reflexivity|apply rtc_refl]|].
  split; [|exact I]. split; [lia|]. split; [apply rtc_refl|]. split; [split; reflexivity|]. split; apply rtc_refl.
Defined.

(** Moving a byte between a path and its neighbour changes the text. *)
Lemma snapshot_text_identifies_the_source_witness :
  snapshot_text [("a.go", "1"); ("b.go", "2")] <> snapshot_text [("a.go1", "b.go"); (EmptyString, "2")].
Proof.
  intros E. apply snapshot_text_identifies_the_source in E; [discriminate E| |];
    repeat constructor; vm_compute; reflexivity.
Defined.
