(* ===== verification/CliDev.v ===== *)
(** * The development services ([internal/cli/dev.go])

    [forge dev] runs the server, the worker and the scheduler side by side, prints their output
    line by line under the name of the service, says when all three are ready, and stops
    everything when one of them exits.  A line writer is a buffer and a flag; the console keeps
    what the line writers sent, in the order of the lock around it, and how far the services
    are.  A write to the terminal may take a part of a line or fail.  The supervisor is a step
    function over what wakes its [select].  The services themselves are the environment.

    Shown: however a service cuts its output into writes, the console gets its lines, each under
    the name of the service and cut after 64 KiB; the ready message appears once at most, and
    only while all services run; the supervisor waits for all three and reports every failure
    that is not the shutdown it asked for. *)

From S2P Require Import Prelude GoStrings GoQuote GoText.
Local Open Scope go_scope.
Local Open Scope Z_scope.

(** ** Readiness *)

Inductive stream : Type := Stdout | Stderr.
(** A write to the terminal: a line of a service, or the supervisor's own message. *)
Record entry : Type := { en_service : option string; en_stream : stream; en_text : string }.
Record developmentReadiness : Type := { rd_ready : gset string; rd_stopped : gset string; rd_complete : bool }.
Record console : Type := { cn_sent : list entry; cn_readiness : developmentReadiness }.

Definition developmentReadyMessage : string := "development services ready" +:+ String newline EmptyString.
Definition newDevelopmentReadiness : developmentReadiness := {| rd_ready := ∅; rd_stopped := ∅; rd_complete := false |}.

Section Output.
(** How the n-th write ends: it takes everything, or so many bytes and perhaps an error. *)
Context (outcome : nat -> option (nat * option error)).

Definition output_write (e : entry) (c : console) : nat * option error * console :=
  match outcome (length (cn_sent c)) with
  | None => (String.length (en_text e), None, {| cn_sent := cn_sent c ++ [e]; cn_readiness := cn_readiness c |})
  | Some (n, err) =>
      let e' := {| en_service := en_service e; en_stream := en_stream e; en_text := take_string n (en_text e) |} in
      (Nat.min n (String.length (en_text e)), err, {| cn_sent := cn_sent c ++ [e']; cn_readiness := cn_readiness c |})
  end.

Definition with_readiness (c : console) (r : developmentReadiness) : console := {| cn_sent := cn_sent c; cn_readiness := r |}.
Definition mark (name : string) (c : console) : console :=
  let r := cn_readiness c in
  if bool_decide (name ∈ rd_ready r) || negb (bool_decide (rd_stopped r = ∅)) || rd_complete r then c
  else
    let ready := {[name]} ∪ rd_ready r in
    if negb (size ready =? 3)%nat then with_readiness c {| rd_ready := ready; rd_stopped := rd_stopped r; rd_complete := false |}
    else
      let c' := with_readiness c {| rd_ready := ready; rd_stopped := rd_stopped r; rd_complete := true |} in
      snd (output_write {| en_service := None; en_stream := Stdout; en_text := developmentReadyMessage |} c').
Definition stop (name : string) (c : console) : console :=
  let r := cn_readiness c in
  with_readiness c {| rd_ready := rd_ready r; rd_stopped := {[name]} ∪ rd_stopped r; rd_complete := rd_complete r |}.
Definition isComplete (c : console) : bool := rd_complete (cn_readiness c).

(** ** One stream of a service *)

Definition developmentLineBufferMax : nat := Nat.pow 2 16.
Definition developmentLineTruncation : string := " [output truncated]" +:+ String newline EmptyString.
Definition ErrShortWrite : error := Sentinel "io.ErrShortWrite".

Context (service : string) (dest : stream) (readyLine : option (string -> bool)).
Record developmentLineWriter : Type := { lw_buffer : string; lw_discarding : bool; lw_console : console }.
Definition prefix : string := "[" +:+ service +:+ "] ".

Definition writeLine (line : string) (detectReady : bool) : M developmentLineWriter unit := fun w =>
  let value := prefix +:+ line in
  let '(written, err, c) := output_write {| en_service := Some service; en_stream := dest; en_text := value |} (lw_console w) in
  let err := match err with None => if (written =? String.length value)%nat then None else Some ErrShortWrite | some => some end in
  let set c := {| lw_buffer := lw_buffer w; lw_discarding := lw_discarding w; lw_console := c |} in
  match err with
  | Some e => (Err e, set c)
  | None => (Ok tt, set (if detectReady && match readyLine with Some f => f line | None => false end then mark service c else c))
  end.
Definition set_buffer (b : string) (d : bool) : M developmentLineWriter unit := fun w =>
  (Ok tt, {| lw_buffer := b; lw_discarding := d; lw_console := lw_console w |}).

(** A round of the loop takes a byte, or starts to discard and takes one in the next round. *)
Fixpoint write_loop (fuel : nat) (value : string) : M developmentLineWriter unit :=
  match fuel, value with
  | _, EmptyString => ret tt
  | O, _ => ret tt
  | S n, _ =>
      let! buffer := gets lw_buffer in
      let! discarding := gets lw_discarding in
      if discarding : bool then
        match IndexByte value newline with
        | None => ret tt
        | Some i => do! set_buffer buffer false in write_loop n (drop_string (S i) value)
        end
      else
        let capacity := (developmentLineBufferMax - String.length buffer)%nat in
        let truncate :=
          let line := buffer +:+ take_string capacity value +:+ developmentLineTruncation in
          do! set_buffer EmptyString true in
          do! writeLine line false in
          write_loop n (drop_string capacity value) in
        match IndexByte value newline with
        | Some i =>
            if (i <=? capacity)%nat then
              let line := buffer +:+ take_string (S i) value in
              do! set_buffer EmptyString false in
              do! writeLine line true in
              write_loop n (drop_string (S i) value)
            else truncate
        | None => if (String.length value <=? capacity)%nat then set_buffer (buffer +:+ value) false else truncate
        end
  end.
Definition Write (value : string) : M developmentLineWriter unit := write_loop (2 * String.length value) value.

Definition Flush : M developmentLineWriter unit :=
  let! buffer := gets lw_buffer in
  let! discarding := gets lw_discarding in
  if bool_decide (buffer = EmptyString) || discarding then set_buffer EmptyString false
  else do! set_buffer EmptyString false in writeLine buffer true.
End Output.

(** ** Lines that say a service is ready *)

Definition developmentOutputLine (line : string) : string :=
  TrimSuffix (TrimSuffix line (String newline EmptyString)) (String (chr 13) EmptyString).
Definition blank_at (s : string) : bool :=
  match s with EmptyString => true | String c _ => bool_decide (c = " "%char) || bool_decide (c = chr 9) end.
Definition blank_before (index : nat) (line : string) : bool := (index =? 0)%nat || match drop_string (index - 1) line with String c _ => blank_at (String c EmptyString) | EmptyString => false end.
(** Occurrence after occurrence; the offset grows in every round. *)
Fixpoint field_loop (fuel offset : nat) (line field : string) : bool :=
  match fuel with
  | O => false
  | S n =>
      match Index (drop_string offset line) field with
      | None => false
      | Some i =>
          let index := (i + offset)%nat in
          if blank_before index line && blank_at (drop_string (index + String.length field) line) then true
          else field_loop n (S index) line field
      end
  end.
Definition developmentOutputHasField (line field : string) : bool := field_loop (S (String.length line)) 0 line field.

Definition developmentServerReadyLine (line : string) : bool :=
  let value := developmentOutputLine line in HasPrefix value "serving http://" && HasSuffix value " (watching for changes)".
Definition quoted_message (m : string) : string := "msg=" +:+ String dquote (m +:+ String dquote EmptyString).
Definition developmentWorkerReadyLine (line : string) : bool :=
  let value := developmentOutputLine line in
  developmentOutputHasField value "INFO job worker_started" || developmentOutputHasField value (quoted_message "job worker_started").
Definition developmentSchedulerReadyLine (line : string) : bool :=
  let value := developmentOutputLine line in
  (developmentOutputHasField value "INFO scheduler started" || developmentOutputHasField value (quoted_message "scheduler started"))
  && developmentOutputHasField value "event=scheduler_started" && developmentOutputHasField value "mode=work".

Definition developmentProcessTreeGrace (ParseDuration : string -> option duration) (raw : string) : result duration :=
  if bool_decide (TrimSpace raw = EmptyString) then Ok (20 * Second)
  else match ParseDuration (TrimSpace raw) with
       | Some grace => if grace <=? 0 then Err (Errorf "%s must be a positive duration") else Ok grace
       | None => Err (Errorf "%s must be a positive duration")
       end.

(** ** The supervisor *)

Definition Canceled : error := Sentinel "context.Canceled".
Definition DeadlineExceeded : error := Sentinel "context.DeadlineExceeded".
Definition join (a b : option error) : option error :=
  match a, b with Some x, Some y => Some (Joined x y) | Some x, None => Some x | None, b => b end.

(** What is left of an error when the shutdown that was asked for is taken out. *)
Fixpoint unexpectedDevelopmentShutdownError (err : error) : option error :=
  if bool_decide (err = Canceled) || bool_decide (err = DeadlineExceeded) then None
  else match err with
       | Joined a b => join (unexpectedDevelopmentShutdownError a) (unexpectedDevelopmentShutdownError b)
       | Wrapf _ cause => match unexpectedDevelopmentShutdownError cause with None => None | Some _ => Some err end
       | _ => Some err
       end.
Definition unexpected (err : option error) : option error := match err with Some e => unexpectedDevelopmentShutdownError e | None => None end.

Record developmentServiceResult : Type := { dr_name : string; dr_err : option error }.
(** A [select] takes the end of the parent's context or a result; with a result it sees whether
    the context has ended meanwhile. *)
Inductive wake : Type := ParentDone | ServiceResult (r : developmentServiceResult) (parentEnded : bool).
Record supervisor : Type := {
  sv_root : option developmentServiceResult; sv_shutdownErr : option error; sv_parentCancelled : bool;
  sv_completed : nat; sv_childCancelled : bool
}.
Definition supervising : supervisor :=
  {| sv_root := None; sv_shutdownErr := None; sv_parentCancelled := false; sv_completed := 0; sv_childCancelled := false |}.

Definition shutdown_failure (r : developmentServiceResult) : option error := Wrapf "%s service shutdown: %w" <$> unexpected (dr_err r).

(** [None] where the code would not take that case. *)
Definition supervise_step (s : supervisor) (w : wake) : option supervisor :=
  if (3 <=? sv_completed s)%nat then None
  else match sv_root s, sv_parentCancelled s, w with
  | None, false, ParentDone =>
      Some {| sv_root := None; sv_shutdownErr := sv_shutdownErr s; sv_parentCancelled := true;
              sv_completed := sv_completed s; sv_childCancelled := true |}
  | None, false, ServiceResult r true =>
      Some {| sv_root := None; sv_shutdownErr := join (sv_shutdownErr s) (shutdown_failure r); sv_parentCancelled := true;
              sv_completed := S (sv_completed s); sv_childCancelled := true |}
  | None, false, ServiceResult r false =>
      Some {| sv_root := Some r; sv_shutdownErr := sv_shutdownErr s; sv_parentCancelled := false;
              sv_completed := S (sv_completed s); sv_childCancelled := true |}
  | _, _, ParentDone => None
  | root, cancelled, ServiceResult r _ =>
      Some {| sv_root := match root with
                         | Some q => if bool_decide (dr_name r = dr_name q) then Some q
                                     else Some {| dr_name := dr_name q; dr_err := join (dr_err q) (shutdown_failure r) |}
                         | None => None
                         end;
              sv_shutdownErr := if cancelled then join (sv_shutdownErr s) (shutdown_failure r) else sv_shutdownErr s;
              sv_parentCancelled := cancelled; sv_completed := S (sv_completed s); sv_childCancelled := true |}
  end.
Fixpoint supervise (s : supervisor) (ws : list wake) : option supervisor :=
  match ws with [] => Some s | w :: rest => match supervise_step s w with Some s' => supervise s' rest | None => None end end.

Definition errDevelopmentServiceExited : error := Sentinel "service exited unexpectedly".
Record developmentServiceError : Type := { de_service : string; de_phase : string; de_cause : error }.
(** What [superviseDevelopmentServices] returns once three services have ended. *)
Inductive dev_result : Type := Stopped (err : option error) | ServiceFailed (e : developmentServiceError).
Definition superviseDevelopmentServices (s : supervisor) (c : console) : option dev_result :=
  if negb (3 <=? sv_completed s)%nat then None
  else if sv_parentCancelled s then Some (Stopped (sv_shutdownErr s))
  else match sv_root s with
  | None => Some (Stopped None)
  | Some root =>
      Some (ServiceFailed {| de_service := dr_name root;
        de_phase := if isComplete c then "after all services were ready" else "before all services were ready";
        de_cause := default errDevelopmentServiceExited (dr_err root) |})
  end.

(** ** Lines, however they are written *)

Local Opaque developmentLineBufferMax.

(** The bytes one by one: what is buffered, whether the rest of a line is dropped, and the
    lines that are finished, with whether they may say that the service is ready. *)
Definition feed (st : string * bool) (c : ascii) : (string * bool) * list (string * bool) :=
  let '(buffer, discarding) := st in
  if discarding then ((buffer, negb (bool_decide (c = newline))), [])
  else if bool_decide (c = newline) then ((EmptyString, false), [(buffer +:+ String newline EmptyString, true)])
  else if (developmentLineBufferMax <=? String.length buffer)%nat then ((EmptyString, true), [(buffer +:+ developmentLineTruncation, false)])
  else ((buffer +:+ String c EmptyString, false), []).
Fixpoint feed_all (st : string * bool) (s : string) : (string * bool) * list (string * bool) :=
  match s with
  | EmptyString => (st, [])
  | String c rest => let '(st', out) := feed st c in let '(st'', out') := feed_all st' rest in (st'', out ++ out')
  end.

Lemma feed_all_app st a b :
  feed_all st (a +:+ b) = let '(st', out) := feed_all st a in let '(st'', out') := feed_all st' b in (st'', out ++ out').
Proof.
  revert st. induction a as [|c a IH]; intros st; cbn [feed_all].
  - rewrite string_app_nil_l. by destruct (feed_all st b).
  - rewrite string_app_cons. cbn [feed_all]. destruct (feed st c) as [st1 o1]. rewrite IH. destruct (feed_all st1 a) as [st2 o2].
    destruct (feed_all st2 b) as [st3 o3]. by rewrite (assoc_L (++)).
Qed.
Definition plain (s : string) : bool := all_chars (fun c => negb (bool_decide (c = newline))) s.
Lemma feed_dropped b s : plain s = true -> feed_all (b, true) s = ((b, true), []).
Proof.
  induction s as [|c s IH]; [done|]. cbn [plain all_chars feed_all feed]. intros [Hc Hs]%andb_true_iff.
  apply negb_true_iff in Hc. rewrite Hc. cbn [negb]. by rewrite IH.
Qed.
Lemma feed_kept b s : plain s = true -> (String.length b + String.length s <= developmentLineBufferMax)%nat -> feed_all (b, false) s = ((b +:+ s, false), []).
Proof.
  revert b. induction s as [|c s IH]; intros b; cbn [plain all_chars feed_all feed String.length]; [by rewrite string_app_nil_r|].
  intros [Hc Hs]%andb_true_iff Hle. apply negb_true_iff in Hc. rewrite Hc.
  destruct (Nat.leb_spec developmentLineBufferMax (String.length b)); [lia|].
  rewrite IH; [|done|rewrite string_length_app; cbn [String.length]; lia]. by rewrite <- string_app_assoc.
Qed.

Lemma IndexByte_newline s :
  match IndexByte s newline with
  | None => plain s = true
  | Some i => s = take_string i s +:+ String newline (drop_string (S i) s) /\ plain (take_string i s) = true /\ (i < String.length s)%nat
  end.
Proof.
  unfold IndexByte. induction s as [|c s IH]; cbn [Index HasPrefix]; [done|]. destruct (bool_decide (c = newline)) eqn:Ec.
  - replace (HasPrefix s EmptyString) with true by (by destruct s). cbn [andb]. apply bool_decide_eq_true in Ec as ->. split; [done|]. split; [done|]. cbn. lia.
  - cbn [andb]. destruct (Index s _) as [i|]; cbn [option_map].
    + destruct IH as (E & Hp & Hlt). cbn [take_string drop_string String.length plain all_chars]. rewrite Ec. cbn [negb andb]. split_and!; [|exact Hp|lia].
      rewrite string_app_cons. f_equal. exact E.
    + cbn [plain all_chars]. by rewrite Ec.
Qed.
Lemma feed_overflow b c r :
  (developmentLineBufferMax <= String.length b)%nat -> c <> newline ->
  feed_all (b, false) (String c r) = let '(st, out) := feed_all (EmptyString, true) (String c r) in (st, (b +:+ developmentLineTruncation, false) :: out).
Proof.
  intros Hfull Hc. cbn [feed_all feed]. rewrite bool_decide_eq_false_2 by done. cbn [negb].
  destruct (Nat.leb_spec developmentLineBufferMax (String.length b)); [|lia]. by destruct (feed_all (EmptyString, true) r).
Qed.
Lemma drop_head i k v : plain (take_string i v) = true -> (k < i)%nat -> (k < String.length v)%nat -> exists c r, drop_string k v = String c r /\ c <> newline.
Proof.
  revert i v. induction k as [|k IH]; intros [|i] [|c v]; cbn [take_string drop_string plain all_chars String.length]; try lia.
  - intros [Hc _]%andb_true_iff _ _. exists c, v. split; [done|]. intros ->. by rewrite bool_decide_eq_true_2 in Hc.
  - intros [_ Hp]%andb_true_iff ? ?. apply (IH i); [exact Hp|lia|lia].
Qed.
Lemma plain_take i k v : plain (take_string i v) = true -> (k <= i)%nat -> plain (take_string k v) = true.
Proof.
  revert i v. induction k as [|k IH]; intros i v Hp Hle; [by destruct v|]. destruct v as [|c v]; [done|]. destruct i as [|i]; [lia|].
  cbn [take_string plain all_chars] in *. apply andb_true_iff in Hp as [Hc Hp]. rewrite Hc. cbn. apply (IH i); [exact Hp|lia].
Qed.
Lemma take_newline i s : s = take_string i s +:+ String newline (drop_string (S i) s) -> (i < String.length s)%nat ->
  take_string (S i) s = take_string i s +:+ String newline EmptyString.
Proof.
  intros E Hlt. assert (String.length (take_string i s) = i) as Hi by (rewrite take_string_length; lia).
  assert (String.length (take_string i s +:+ String newline EmptyString) = S i) as Hl by (rewrite string_length_app, Hi; cbn; lia).
  rewrite E at 1. rewrite <- (string_app_nil_l (drop_string (S i) s)), <- string_app_cons, string_app_assoc, <- Hl. apply take_string_app.
Qed.

(** The lines of a text, and whether each is terminated; [line] is what is read of the first. *)
Fixpoint cut_lines (line s : string) : list (string * bool) :=
  match s with
  | EmptyString => if bool_decide (line = EmptyString) then [] else [(line, false)]
  | String c rest => if bool_decide (c = newline) then (line, true) :: cut_lines EmptyString rest else cut_lines (line +:+ String c EmptyString) rest
  end.
(** A line as it is shown: whole, or its first 64 KiB and a remark. *)
Definition shown (l : string * bool) : string :=
  if (String.length (fst l) <=? developmentLineBufferMax)%nat then fst l +:+ (if snd l : bool then String newline EmptyString else EmptyString)
  else take_string developmentLineBufferMax (fst l) +:+ developmentLineTruncation.
Definition left_over (st : string * bool) : list string := if bool_decide (fst st = EmptyString) || snd st then [] else [fst st].

Lemma take_string_prefix n a b : (n <= String.length a)%nat -> take_string n (a +:+ b) = take_string n a.
Proof.
  revert a. induction n as [|n IH]; intros [|c a]; cbn [String.length]; try lia; [by destruct (EmptyString +:+ b)|by destruct (String c a +:+ b)|].
  intros Hn. rewrite string_app_cons. cbn [take_string]. f_equal. apply IH. lia.
Qed.
Lemma take_string_whole a : take_string (String.length a) a = a.
Proof. rewrite <- (string_app_nil_r a) at 2. apply take_string_app. Qed.

Lemma feed_shows s : forall b,
  ((String.length b <= developmentLineBufferMax)%nat ->
     shown <$> cut_lines b s = (feed_all (b, false) s).2.*1 ++ left_over (feed_all (b, false) s).1)
  /\ ((developmentLineBufferMax < String.length b)%nat ->
     shown <$> cut_lines b s = (take_string developmentLineBufferMax b +:+ developmentLineTruncation)
                               :: (feed_all (EmptyString, true) s).2.*1 ++ left_over (feed_all (EmptyString, true) s).1).
Proof.
  induction s as [|c s IH]; intros b.
  { cbn [cut_lines feed_all fst snd fmap list_fmap app]. unfold left_over, shown. cbn [fst snd]. split; intros Hb.
    - case_bool_decide; [done|]. cbn. destruct (Nat.leb_spec (String.length b) developmentLineBufferMax); [|lia]. by rewrite string_app_nil_r.
    - rewrite bool_decide_eq_false_2 by (intros ->; cbn in Hb; lia). cbn. destruct (Nat.leb_spec (String.length b) developmentLineBufferMax); [lia|done]. }
  cbn [cut_lines feed_all feed]. case_bool_decide as Hc; (split; intros Hb).
  - destruct (IH EmptyString) as [IH1 _]. rewrite fmap_cons, IH1 by (cbn; lia). destruct (feed_all (EmptyString, false) s) as [st out]. cbn [fst snd].
    unfold shown at 1. cbn [fst snd]. destruct (Nat.leb_spec (String.length b) developmentLineBufferMax); [done|lia].
  - destruct (IH EmptyString) as [IH1 _]. rewrite fmap_cons, IH1 by (cbn; lia). cbn [negb]. destruct (feed_all (EmptyString, false) s) as [st out]. cbn [fst snd].
    unfold shown at 1. cbn [fst snd]. destruct (Nat.leb_spec (String.length b) developmentLineBufferMax); [lia|done].
  - destruct (IH (b +:+ String c EmptyString)) as [IH1 IH2]. rewrite string_length_app in IH1, IH2. cbn [String.length] in IH1, IH2.
    destruct (Nat.leb_spec developmentLineBufferMax (String.length b)).
    + rewrite IH2 by lia. rewrite take_string_prefix by lia. replace developmentLineBufferMax with (String.length b) at 1 by lia.
      rewrite take_string_whole. by destruct (feed_all (EmptyString, true) s).
    + rewrite IH1 by lia. by destruct (feed_all (b +:+ String c EmptyString, false) s).
  - destruct (IH (b +:+ String c EmptyString)) as [_ IH2]. rewrite string_length_app in IH2. cbn [String.length] in IH2. cbn [negb].
    rewrite IH2 by lia. rewrite take_string_prefix by lia. by destruct (feed_all (EmptyString, true) s).
Qed.

(** The three ways a round goes. *)
Lemma feed_rest_dropped b i s :
  s = take_string i s +:+ String newline (drop_string (S i) s) -> plain (take_string i s) = true ->
  feed_all (b, true) s = feed_all (b, false) (drop_string (S i) s).
Proof.
  intros E Hp. rewrite E at 1. rewrite feed_all_app, (feed_dropped b _ Hp). cbn [feed_all feed]. rewrite bool_decide_eq_true_2 by done. cbn [negb].
  by destruct (feed_all (b, false) _).
Qed.
Lemma feed_line b i s :
  s = take_string i s +:+ String newline (drop_string (S i) s) -> plain (take_string i s) = true -> (i < String.length s)%nat ->
  (String.length b + i <= developmentLineBufferMax)%nat ->
  feed_all (b, false) s = let '(st, out) := feed_all (EmptyString, false) (drop_string (S i) s) in (st, (b +:+ take_string (S i) s, true) :: out).
Proof.
  intros E Hp Hlt Hroom. rewrite (take_newline i s E Hlt). rewrite E at 1. rewrite feed_all_app, (feed_kept b _ Hp) by (rewrite take_string_length; lia).
  cbn [feed_all feed]. rewrite bool_decide_eq_true_2 by done. rewrite <- string_app_assoc. by destruct (feed_all (EmptyString, false) _).
Qed.
Lemma feed_too_long b i s :
  plain (take_string i s) = true -> (i <= String.length s)%nat -> (String.length b <= developmentLineBufferMax)%nat ->
  (developmentLineBufferMax < String.length b + i)%nat ->
  let room := (developmentLineBufferMax - String.length b)%nat in
  feed_all (b, false) s = let '(st, out) := feed_all (EmptyString, true) (drop_string room s) in
                          (st, (b +:+ take_string room s +:+ developmentLineTruncation, false) :: out).
Proof.
  intros Hp Hi Hb Hlong room. rewrite (take_drop room s) at 1. rewrite feed_all_app, feed_kept;
    [|apply (plain_take i); [done|lia]|rewrite take_string_length; lia].
  destruct (drop_head i room s Hp) as (c & r & -> & Hc); [lia|lia|].
  rewrite feed_overflow; [|rewrite string_length_app, take_string_length; lia|done]. rewrite <- string_app_assoc.
  by destruct (feed_all (EmptyString, true) _).
Qed.

Section Lines.
Context (outcome : nat -> option (nat * option error)) (calm : forall n, outcome n = None).
Context (service : string) (dest : stream) (readyLine : option (string -> bool)).

(** A finished line on the console. *)
Definition emit (c : console) (l : string * bool) : console :=
  let c' := {| cn_sent := cn_sent c ++ [{| en_service := Some service; en_stream := dest; en_text := prefix service +:+ fst l |}]; cn_readiness := cn_readiness c |} in
  if snd l && match readyLine with Some f => f (fst l) | None => false end then mark outcome service c' else c'.

Lemma writeLine_emits line d w :
  writeLine outcome service dest readyLine line d w
  = (Ok tt, {| lw_buffer := lw_buffer w; lw_discarding := lw_discarding w; lw_console := emit (lw_console w) (line, d) |}).
Proof. unfold writeLine, output_write, emit. rewrite calm. cbn [fst snd en_text]. by rewrite Nat.eqb_refl. Qed.

Definition after_feed (w : developmentLineWriter) (fed : (string * bool) * list (string * bool)) : developmentLineWriter :=
  {| lw_buffer := fst (fst fed); lw_discarding := snd (fst fed); lw_console := foldl emit (lw_console w) (snd fed) |}.

Lemma loop_feeds fuel value w :
  (2 * String.length value <= fuel + (if lw_discarding w then 1 else 0))%nat -> (String.length (lw_buffer w) <= developmentLineBufferMax)%nat ->
  write_loop outcome service dest readyLine fuel value w = (Ok tt, after_feed w (feed_all (lw_buffer w, lw_discarding w) value)).
Proof.
  revert value w. induction fuel as [|fuel IH]; intros value [buffer discarding c] Hfuel Hbuf; cbn [lw_buffer lw_discarding] in *.
  { destruct value; [done|]. cbn [String.length] in Hfuel. destruct discarding; lia. }
  destruct value as [|c0 value']; [done|]. cbn [write_loop].
  assert (1 <= String.length (String c0 value'))%nat as Hone by (cbn; lia). remember (String c0 value') as value eqn:Ev. clear Ev c0 value'.
  unfold gets, bindM. cbn [lw_buffer lw_discarding lw_console]. pose proof (IndexByte_newline value) as Hi.
  assert (forall k, String.length (drop_string k value) = String.length value - k)%nat as Hdrop by (intros k; apply drop_string_length).
  assert (forall i, plain (take_string i value) = true -> (i <= String.length value)%nat -> discarding = false ->
    (developmentLineBufferMax < String.length buffer + i)%nat ->
    (let '(r, w) := writeLine outcome service dest readyLine (buffer +:+ take_string (developmentLineBufferMax - String.length buffer) value +:+ developmentLineTruncation)
                      false {| lw_buffer := EmptyString; lw_discarding := true; lw_console := c |} in
     match r with
     | Ok _ => write_loop outcome service dest readyLine fuel (drop_string (developmentLineBufferMax - String.length buffer) value) w
     | Err e => (Err e, w)
     end) = (Ok tt, after_feed {| lw_buffer := buffer; lw_discarding := discarding; lw_console := c |} (feed_all (buffer, discarding) value))) as Hlong.
  { intros i Hp Hle -> Hover. rewrite writeLine_emits. cbn [lw_buffer lw_discarding lw_console]. rewrite IH; cbn [lw_buffer lw_discarding]; [|rewrite Hdrop; lia|cbn; lia].
    rewrite (feed_too_long buffer i value Hp Hle Hbuf Hover). by destruct (feed_all (EmptyString, true) _) as [[]]. }
  destruct discarding.
  - destruct (IndexByte value newline) as [i|]; [|by rewrite feed_dropped].
    destruct Hi as (E & Hp & Hlt). unfold set_buffer. cbn [lw_console]. rewrite IH; cbn [lw_buffer lw_discarding]; [|rewrite Hdrop; lia|done].
    by rewrite (feed_rest_dropped buffer i value E Hp).
  - unfold set_buffer. cbn [lw_console]. destruct (IndexByte value newline) as [i|].
    + destruct Hi as (E & Hp & Hlt). destruct (Nat.leb_spec i (developmentLineBufferMax - String.length buffer)); [|apply (Hlong i); [done|lia|done|lia]].
      rewrite writeLine_emits. cbn [lw_buffer lw_discarding lw_console]. rewrite IH; cbn [lw_buffer lw_discarding]; [|rewrite Hdrop; lia|cbn; lia].
      rewrite (feed_line buffer i value E Hp Hlt) by lia. by destruct (feed_all (EmptyString, false) _) as [[]].
    + destruct (Nat.leb_spec (String.length value) (developmentLineBufferMax - String.length buffer)).
      * by rewrite feed_kept by (done || lia).
      * assert (take_string (String.length value) value = value) as Ht by (rewrite <- (string_app_nil_r value) at 2; apply take_string_app).
        apply (Hlong (String.length value)); [by rewrite Ht|lia|done|lia].
Qed.

Fixpoint write_all (chunks : list string) : M developmentLineWriter unit :=
  match chunks with
  | [] => ret tt
  | v :: rest => do! Write outcome service dest readyLine v in write_all rest
  end.
Lemma feed_bound s st : (String.length (fst st) <= developmentLineBufferMax)%nat -> (String.length (fst (fst (feed_all st s))) <= developmentLineBufferMax)%nat.
Proof.
  revert st. induction s as [|c s IH]; intros [b d] Hb; [done|]. cbn [feed_all]. destruct (feed (b, d) c) as [st1 o1] eqn:Ef.
  specialize (IH st1). destruct (feed_all st1 s) as [st2 o2]. cbn [fst] in *. apply IH. unfold feed in Ef.
  destruct d; [by simplify_eq|]. destruct (bool_decide (c = newline)); [simplify_eq; cbn; lia|].
  destruct (Nat.leb_spec developmentLineBufferMax (String.length b)); simplify_eq; cbn [fst]; [cbn; lia|]. rewrite string_length_app. cbn. lia.
Qed.
Lemma write_all_feeds chunks w :
  (String.length (lw_buffer w) <= developmentLineBufferMax)%nat ->
  write_all chunks w = (Ok tt, after_feed w (feed_all (lw_buffer w, lw_discarding w) (foldr String.append EmptyString chunks))).
Proof.
  revert w. induction chunks as [|v chunks IH]; intros w Hb; [by destruct w|]. cbn [write_all]. unfold bindM, Write.
  rewrite loop_feeds by (done || lia). rewrite IH by (cbn; by apply feed_bound). f_equal.
  cbn [foldr]. change (String.append v (foldr String.append EmptyString chunks)) with (v +:+ foldr String.append EmptyString chunks).
  rewrite feed_all_app. unfold after_feed. cbn [lw_buffer lw_discarding lw_console].
  destruct (feed_all (lw_buffer w, lw_discarding w) v) as [[b1 d1] o1]. cbn [fst snd].
  destruct (feed_all (b1, d1) _) as [[b2 d2] o2]. cbn [fst snd lw_console]. by rewrite foldl_app.
Qed.

Definition own_lines (c : console) : list string := omap (fun e => if bool_decide (en_service e = Some service) then Some (en_text e) else None) (cn_sent c).
Lemma own_snoc sent e r : own_lines {| cn_sent := sent ++ [e]; cn_readiness := r |}
  = own_lines {| cn_sent := sent; cn_readiness := r |} ++ (if bool_decide (en_service e = Some service) then [en_text e] else []).
Proof. unfold own_lines. cbn [cn_sent]. rewrite omap_app. cbn. by destruct (bool_decide _). Qed.
Lemma own_mark name c : own_lines (mark outcome name c) = own_lines c.
Proof.
  unfold mark, with_readiness, output_write. rewrite calm. destruct (_ || rd_complete _); [done|]. destruct (negb _); [done|]. cbn [snd cn_sent cn_readiness].
  rewrite own_snoc. cbn [en_service]. rewrite bool_decide_eq_false_2 by done. by rewrite app_nil_r.
Qed.
Lemma own_emit c l : own_lines (emit c l) = own_lines c ++ [prefix service +:+ fst l].
Proof.
  unfold emit. destruct (snd l && _); rewrite ?own_mark, own_snoc; cbn [en_service en_text]; by rewrite bool_decide_eq_true_2 by done.
Qed.
Lemma own_emits c out : own_lines (foldl emit c out) = own_lines c ++ ((fun l => prefix service +:+ fst l) <$> out).
Proof.
  revert c. induction out as [|l out IH]; intros c; cbn [foldl fmap list_fmap]; [by rewrite app_nil_r|].
  rewrite IH, own_emit. by rewrite <- (assoc_L (++)).
Qed.
Lemma Flush_emits w :
  Flush outcome service dest readyLine w
  = (Ok tt, {| lw_buffer := EmptyString; lw_discarding := false;
               lw_console := foldl emit (lw_console w) ((fun b => (b, true)) <$> left_over (lw_buffer w, lw_discarding w)) |}).
Proof.
  unfold Flush, gets, bindM, left_over. cbn [fst snd]. destruct (bool_decide _ || lw_discarding w) eqn:E; [done|].
  unfold set_buffer. rewrite writeLine_emits. cbn. done.
Qed.

(** However a service cuts its output into writes, a terminal that takes what it is given shows
    exactly the lines of the output, in order, each whole or cut after 64 KiB, and each under
    the name of the service; the last line may lack its end. *)
Theorem services_print_whole_lines chunks c :
  exists w, (do! write_all chunks in Flush outcome service dest readyLine) {| lw_buffer := EmptyString; lw_discarding := false; lw_console := c |} = (Ok tt, w)
    /\ own_lines (lw_console w)
       = own_lines c ++ ((fun l => prefix service +:+ shown l) <$> cut_lines EmptyString (foldr String.append EmptyString chunks)).
Proof.
  unfold bindM. rewrite write_all_feeds by (cbn; lia). rewrite Flush_emits. eexists. split; [done|]. cbn [lw_console lw_buffer lw_discarding after_feed].
  rewrite !own_emits, <- (assoc_L (++)). f_equal. destruct (feed_shows (foldr String.append EmptyString chunks) EmptyString) as [Hs _].
  change (fun l => prefix service +:+ shown l) with ((fun t => prefix service +:+ t) ∘ shown). rewrite list_fmap_compose, Hs by (cbn; lia).
  destruct (feed_all (EmptyString, false) _) as [[b d] out]. cbn [fst snd]. rewrite fmap_app, <- !list_fmap_compose. done.
Qed.
End Lines.

(** ** Fields of a line *)

Lemma Index_first s sub :
  match Index s sub with
  | Some i => HasPrefix (drop_string i s) sub = true /\ forall j, (j < i)%nat -> HasPrefix (drop_string j s) sub = false
  | None => forall j, (j <= String.length s)%nat -> HasPrefix (drop_string j s) sub = false
  end.
Proof.
  induction s as [|c s IH]; cbn [Index].
  - destruct (HasPrefix EmptyString sub) eqn:E; [split; [done|lia]|]. intros j Hj. cbn in Hj. by replace j with 0%nat by lia.
  - destruct (HasPrefix (String c s) sub) eqn:E; [split; [done|lia]|]. destruct (Index s sub) as [i|]; cbn [option_map].
    + destruct IH as [IH1 IH2]. split; [done|]. intros [|j] Hj; [done|]. apply (IH2 j). lia.
    + intros [|j] Hj; [done|]. apply (IH j). cbn in Hj. lia.
Qed.
Lemma drop_string_twice a b s : drop_string a (drop_string b s) = drop_string (b + a) s.
Proof. revert s. induction b as [|b IH]; intros [|c s]; cbn [drop_string Nat.add]; [done..|by destruct a|apply IH]. Qed.
Lemma HasPrefix_room s sub : HasPrefix s sub = true -> (String.length sub <= String.length s)%nat.
Proof. revert sub. induction s as [|c s IH]; intros [|d sub]; cbn; try done; try lia. intros [_ H%IH]%andb_true_iff. lia. Qed.

(** A field is found exactly when it stands in the line between blanks or at an end. *)
Theorem field_found_between_blanks line field :
  field <> EmptyString ->
  developmentOutputHasField line field = true <->
  exists index, HasPrefix (drop_string index line) field = true /\ blank_before index line = true
                /\ blank_at (drop_string (index + String.length field) line) = true.
Proof.
  intros Hne. assert (forall fuel offset, (String.length line < fuel + offset)%nat -> (offset <= String.length line)%nat ->
    field_loop fuel offset line field = true <->
    exists index, (offset <= index)%nat /\ HasPrefix (drop_string index line) field = true /\ blank_before index line = true
                  /\ blank_at (drop_string (index + String.length field) line) = true) as H.
  { induction fuel as [|fuel IH]; intros offset Hf Ho; [lia|]. cbn [field_loop]. pose proof (Index_first (drop_string offset line) field) as Hi.
    assert (forall index, HasPrefix (drop_string index line) field = true -> (index < String.length line)%nat) as Hroom.
    { intros index Hp%HasPrefix_room. rewrite drop_string_length in Hp. destruct field; [done|]. cbn in Hp. lia. }
    destruct (Index (drop_string offset line) field) as [i|].
    - destruct Hi as [Hi Hmin]. rewrite drop_string_twice, Nat.add_comm in Hi. pose proof (Hroom _ Hi).
      destruct (blank_before (i + offset) line && blank_at (drop_string (i + offset + String.length field) line)) eqn:E.
      + apply andb_true_iff in E as [E1 E2]. split; [|done]. intros _. exists (i + offset)%nat. split_and!; [lia|done..].
      + rewrite IH by lia. split; intros (index & Hle & Hp & Hb & Ha); exists index; (split_and!; [|done..]); [lia|].
        destruct (decide (index = i + offset)%nat) as [->|]; [by rewrite Hb, Ha in E|]. destruct (decide (index < i + offset)%nat); [|lia].
        specialize (Hmin (index - offset)%nat). rewrite drop_string_twice in Hmin. replace (offset + (index - offset))%nat with index in Hmin by lia.
        rewrite Hp in Hmin. discriminate Hmin. lia.
    - split; [done|]. intros (index & Hle & Hp & _). exfalso. pose proof (Hroom _ Hp). specialize (Hi (index - offset)%nat).
      rewrite drop_string_twice in Hi. replace (offset + (index - offset))%nat with index in Hi by lia. rewrite Hp in Hi. discriminate Hi. rewrite drop_string_length. lia. }
  unfold developmentOutputHasField. rewrite H by lia. split; intros (index & Hx); exists index; [tauto|]. split; [lia|done].
Qed.

(** ** The ready message *)

Inductive happening : Type := Ready (name : string) | Stop (name : string) | Shown (e : entry).
Definition is_stop (h : happening) : bool := match h with Stop _ => true | _ => false end.
Definition happen (outcome : nat -> option (nat * option error)) (c : console) (h : happening) : console :=
  match h with
  | Ready name => mark outcome name c
  | Stop name => stop name c
  | Shown e => snd (output_write outcome e c)
  end.
(** Services that reported before any service stopped. *)
Fixpoint ready_in_time (hs : list happening) : gset string :=
  match hs with
  | [] => ∅
  | Stop _ :: _ => ∅
  | Ready name :: rest => {[name]} ∪ ready_in_time rest
  | Shown _ :: rest => ready_in_time rest
  end.
Definition messages (c : console) : nat := length (filter (fun e => en_service e = None) (cn_sent c)).

Lemma ready_in_time_snoc hs h :
  ready_in_time (hs ++ [h]) = ready_in_time hs ∪ (if existsb is_stop hs then ∅ else match h with Ready name => {[name]} | _ => ∅ end).
Proof. induction hs as [|[n|n|e] hs IH]; cbn [app ready_in_time existsb is_stop orb]; [destruct h; set_solver|rewrite IH; set_solver|set_solver|done]. Qed.

Record timely (hs : list happening) (c : console) : Prop := {
  tm_ready : rd_ready (cn_readiness c) ⊆ ready_in_time hs;
  tm_stopped : bool_decide (rd_stopped (cn_readiness c) = ∅) = negb (existsb is_stop hs);
  tm_complete : rd_complete (cn_readiness c) = true -> size (rd_ready (cn_readiness c)) = 3%nat;
  tm_messages : messages c = if rd_complete (cn_readiness c) then 1%nat else 0%nat
}.
Lemma messages_write outcome e c :
  messages (snd (output_write outcome e c)) = (messages c + if bool_decide (en_service e = None) then 1 else 0)%nat
  /\ cn_readiness (snd (output_write outcome e c)) = cn_readiness c.
Proof.
  unfold output_write, messages. destruct (outcome _) as [[n err]|]; cbn [snd cn_sent cn_readiness]; (split; [|done]);
    rewrite filter_app, length_app; cbn; case_decide; case_bool_decide; done.
Qed.
Lemma timely_step outcome hs c h :
  timely hs c -> (forall e, h = Shown e -> en_service e <> None) -> timely (hs ++ [h]) (happen outcome c h).
Proof.
  intros [Hr Hs Hc Hm] Hown. assert (rd_ready (cn_readiness c) ⊆ ready_in_time (hs ++ [h])) as Hr' by (rewrite ready_in_time_snoc; set_solver).
  assert (existsb is_stop (hs ++ [h]) = existsb is_stop hs || is_stop h) as Hstop by (rewrite existsb_app; cbn; by rewrite orb_false_r).
  destruct h as [name|name|e]; cbn [happen is_stop] in *; rewrite ?orb_false_r, ?orb_true_r in Hstop.
  - unfold mark. destruct (_ || rd_complete _) eqn:Eskip; [split; rewrite ?Hstop; done|].
    apply orb_false_iff in Eskip as [[Hnew Hrun]%orb_false_iff Hinc]. rewrite Hs, negb_involutive in Hrun.
    assert ({[name]} ∪ rd_ready (cn_readiness c) ⊆ ready_in_time (hs ++ [Ready name])) as Hr2 by (rewrite ready_in_time_snoc, Hrun; set_solver).
    rewrite Hinc in Hm. destruct (size _ =? 3)%nat eqn:Esize; cbn [negb].
    + match goal with |- timely _ (snd (output_write _ ?e ?c')) => destruct (messages_write outcome e c') as [Hm' Hcon] end.
      apply Nat.eqb_eq in Esize. split; rewrite ?Hcon, ?Hm'; cbn [cn_readiness with_readiness rd_ready rd_stopped rd_complete]; rewrite ?Hstop; try done.
      unfold messages in *. cbn [cn_sent with_readiness]. by rewrite Hm.
    + split; cbn [cn_readiness with_readiness rd_ready rd_stopped rd_complete]; rewrite ?Hstop; done.
  - split; cbn; try done. rewrite Hstop. cbn. apply bool_decide_eq_false. set_solver.
  - destruct (messages_write outcome e c) as [Hm' Hcon]. split; rewrite ?Hcon, ?Hm', ?Hstop; try done.
    rewrite bool_decide_eq_false_2 by (by apply Hown). by rewrite Nat.add_0_r.
Qed.

(** The ready message is printed once at most, and only when three services had reported before
    any service stopped. *)
Theorem ready_means_all_running outcome hs :
  (forall e, Shown e ∈ hs -> en_service e <> None) ->
  let c := foldl (happen outcome) {| cn_sent := []; cn_readiness := newDevelopmentReadiness |} hs in
  (messages c <= 1)%nat /\ (messages c = 1%nat -> isComplete c = true /\ (3 <= size (ready_in_time hs))%nat).
Proof.
  intros Hown c. assert (timely hs c) as [Hr _ Hc Hm].
  { subst c. induction hs as [|h hs IH] using rev_ind; [split; cbn; done || set_solver|]. rewrite foldl_app. cbn [foldl].
    apply timely_step; [apply IH; intros e He; apply Hown; set_solver|]. intros e ->. apply Hown. set_solver. }
  unfold isComplete. destruct (rd_complete (cn_readiness c)); rewrite Hm; (split; [lia|]); [|done]. intros _. split; [done|].
  rewrite <- (Hc eq_refl). by apply subseteq_size.
Qed.

(** ** Every failure is reported *)

Definition results (ws : list wake) : list developmentServiceResult := omap (fun w => match w with ServiceResult r _ => Some r | ParentDone => None end) ws.

(** Taking the shutdown out of an error leaves nothing exactly when it is nothing else. *)
Fixpoint only_shutdown (e : error) : bool :=
  bool_decide (e = Canceled) || bool_decide (e = DeadlineExceeded) ||
  match e with Joined a b => only_shutdown a && only_shutdown b | Wrapf _ cause => only_shutdown cause | _ => false end.
Theorem unexpected_is_the_rest e : unexpectedDevelopmentShutdownError e = None <-> only_shutdown e = true.
Proof.
  induction e as [n|f|f cause IH|a IHa b IHb]; cbn [unexpectedDevelopmentShutdownError only_shutdown];
    (destruct (_ || _); [done|]); cbn [orb]; try done.
  - destruct (unexpectedDevelopmentShutdownError cause); [|tauto]. split; [done|]. intros H. by apply IH in H.
  - rewrite andb_true_iff, <- IHa, <- IHb. unfold join. destruct (unexpectedDevelopmentShutdownError a), (unexpectedDevelopmentShutdownError b); naive_solver.
Qed.

Lemma errors_Is_join a b t e : join a b = Some e ->
  (exists x, a = Some x /\ errors_Is x t = true) \/ (exists y, b = Some y /\ errors_Is y t = true) -> errors_Is e t = true.
Proof.
  unfold join. destruct a as [x|], b as [y|]; intros [= <-] [(z & [= ->] & H)|(z & [= ->] & H)]; try done; cbn; rewrite H; by rewrite ?orb_true_r.
Qed.
Lemma join_some_l a b x : a = Some x -> exists e, join a b = Some e.
Proof. intros ->. destruct b; by eexists. Qed.
Lemma join_some_r a b y : b = Some y -> exists e, join a b = Some e.
Proof. intros ->. destruct a; by eexists. Qed.

(** The failure of a result is in what the supervisor has collected. *)
Definition holds_failure (o : option error) (f : error) : Prop := exists e, o = Some e /\ errors_Is e f = true.
Lemma holds_join_l a b f : holds_failure a f -> holds_failure (join a b) f.
Proof. intros (x & -> & Hx). destruct (join_some_l (Some x) b x eq_refl) as [e He]. exists e. split; [done|]. eapply errors_Is_join; [done|]. left. by exists x. Qed.
Lemma holds_join_r a b f : holds_failure b f -> holds_failure (join a b) f.
Proof. intros (x & -> & Hx). destruct (join_some_r a (Some x) x eq_refl) as [e He]. exists e. split; [done|]. eapply errors_Is_join; [done|]. right. by exists x. Qed.

Definition collected (s : supervisor) (r : developmentServiceResult) : Prop :=
  forall f, shutdown_failure r = Some f ->
  if sv_parentCancelled s then holds_failure (sv_shutdownErr s) f
  else match sv_root s with Some q => dr_name r = dr_name q \/ holds_failure (dr_err q) f | None => False end.

Record watched (ws : list wake) (s : supervisor) : Prop := {
  wt_count : sv_completed s = length (results ws);
  wt_bound : (sv_completed s <= 3)%nat;
  wt_collected : forall r, r ∈ results ws -> collected s r;
  wt_one : sv_parentCancelled s = true -> sv_root s = None;
  wt_none : sv_parentCancelled s = false -> sv_root s = None -> results ws = [];
  wt_cancel : results ws <> [] -> sv_childCancelled s = true
}.

Lemma collected_step s s' w r : supervise_step s w = Some s' -> (sv_parentCancelled s = true -> sv_root s = None) ->
  collected s r -> collected s' r.
Proof.
  intros Hstep Hone Hcol f Hf. specialize (Hcol f Hf). unfold supervise_step in Hstep. destruct (3 <=? sv_completed s)%nat; [done|].
  destruct (sv_root s) as [q|] eqn:Eq, (sv_parentCancelled s) eqn:Ep, w as [|r' ended]; try (by specialize (Hone eq_refl)); try done;
    try (destruct ended); simplify_eq; cbn in *; try done; try (by apply holds_join_l).
  all: destruct Hcol as [Hn|Hh]; case_bool_decide; cbn; [by left|by left|by right|right; by apply holds_join_l].
Qed.
Lemma collected_new s s' r ended : supervise_step s (ServiceResult r ended) = Some s' -> (sv_parentCancelled s = true -> sv_root s = None) -> collected s' r.
Proof.
  intros Hstep Hone f Hf. unfold supervise_step in Hstep. destruct (3 <=? sv_completed s)%nat; [done|].
  destruct (sv_root s) as [q|] eqn:Eq, (sv_parentCancelled s) eqn:Ep; try (by specialize (Hone eq_refl)); try (destruct ended); simplify_eq; cbn;
    try (apply holds_join_r; exists f; split; [done|apply errors_Is_refl]); try by left.
  all: case_bool_decide; cbn; [by left|right]; apply holds_join_r; exists f; split; [done|apply errors_Is_refl].
Qed.

Lemma watched_step ws s w s' : watched ws s -> supervise_step s w = Some s' -> watched (ws ++ [w]) s'.
Proof.
  intros [Hn Hle Hcol Hone Hnone Hcan] Hstep. assert (results (ws ++ [w]) = results ws ++ match w with ServiceResult r _ => [r] | ParentDone => [] end) as Hres
    by (unfold results; rewrite omap_app; by destruct w). split; rewrite ?Hres.
  - rewrite length_app, <- Hn. unfold supervise_step in Hstep. repeat case_match; simplify_eq; cbn; lia.
  - unfold supervise_step in Hstep. destruct (Nat.leb_spec 3 (sv_completed s)); [done|]. repeat case_match; simplify_eq; cbn; lia.
  - intros r [Hr|Hr]%elem_of_app; [eapply collected_step; eauto|]. destruct w as [|r' ended]; [by apply elem_of_nil in Hr|].
    apply list_elem_of_singleton in Hr as ->. eapply collected_new; eauto.
  - unfold supervise_step in Hstep. repeat case_match; simplify_eq; cbn; try done; intros; by specialize (Hone eq_refl).
  - unfold supervise_step in Hstep. repeat case_match; simplify_eq; cbn; try done; intros _ ?; try done; by specialize (Hnone eq_refl eq_refl).
  - intros _. unfold supervise_step in Hstep. repeat case_match; by simplify_eq.
Qed.
Lemma supervise_app s ws w : supervise s (ws ++ [w]) = match supervise s ws with Some s' => supervise_step s' w | None => None end.
Proof. revert s. induction ws as [|v ws IH]; intros s; cbn; [by destruct (supervise_step s w)|]. destruct (supervise_step s v); [apply IH|done]. Qed.
Lemma supervise_watched ws s : supervise supervising ws = Some s -> watched ws s.
Proof.
  revert s. induction ws as [|w ws IH] using rev_ind; intros s; [intros [= <-]; split; cbn; try done; try lia; by intros r ?%elem_of_nil|].
  rewrite supervise_app. destruct (supervise supervising ws) as [s0|]; [|done]. intros Hs. eapply watched_step; [by apply IH|done].
Qed.

(** [forge dev] waits for its three services and reports every failure.  Whatever the order in
    which the services end and the context is cancelled: the supervisor returns exactly when
    three results have come, the services are told to stop as soon as one has ended, and what a
    service reports besides the shutdown it was asked for is in the returned error, as the
    cause of a service that ended by itself or under its name. *)
Theorem dev_reports_every_failure ws s c :
  supervise supervising ws = Some s ->
  (is_Some (superviseDevelopmentServices s c) <-> length (results ws) = 3%nat)
  /\ (results ws <> [] -> sv_childCancelled s = true)
  /\ (forall out r f, superviseDevelopmentServices s c = Some out -> r ∈ results ws -> shutdown_failure r = Some f ->
        match out with
        | Stopped err => holds_failure err f
        | ServiceFailed e => de_service e = dr_name r \/ errors_Is (de_cause e) f = true
        end).
Proof.
  intros [Hn Hle Hcol Hone Hnone Hcan]%supervise_watched. unfold superviseDevelopmentServices. rewrite <- Hn. split_and!; [|done|].
  - destruct (Nat.leb_spec 3 (sv_completed s)); cbn [negb]; [|split; [by intros []|lia]]. split; [lia|]. intros _. repeat case_match; by eexists.
  - intros out r f Hout Hr Hf. destruct (3 <=? sv_completed s)%nat; [|done]. cbn [negb] in Hout. specialize (Hcol r Hr f Hf).
    destruct (sv_parentCancelled s); [by simplify_eq|]. destruct (sv_root s) as [q|]; [|done]. simplify_eq. cbn.
    destruct Hcol as [Hname|(e & He & Hi)]; [by left|right]. by rewrite He.
Qed.

(** The worker dies, the server is cancelled, the scheduler fails to stop. *)
Example worker_dies :
  (fun s => superviseDevelopmentServices s {| cn_sent := []; cn_readiness := newDevelopmentReadiness |}) <$> supervise supervising
    [ServiceResult {| dr_name := "worker"; dr_err := Some (Errorf "exit status 1") |} false;
     ServiceResult {| dr_name := "server"; dr_err := Some Canceled |} true;
     ServiceResult {| dr_name := "scheduler"; dr_err := Some (Joined Canceled (Errorf "signal: killed")) |} true]
  = Some (Some (ServiceFailed {| de_service := "worker"; de_phase := "before all services were ready";
      de_cause := Joined (Errorf "exit status 1") (Wrapf "%s service shutdown: %w" (Errorf "signal: killed")) |})).
Proof. reflexivity. Qed.
Example lines_of_a_service :
  (fun w => own_lines "worker" (lw_console w)) <$>
    (match (do! write_all (fun _ => None) "worker" Stderr None ["a"; "b" +:+ String newline "c"; EmptyString; "d"] in Flush (fun _ => None) "worker" Stderr None)
             {| lw_buffer := EmptyString; lw_discarding := false; lw_console := {| cn_sent := []; cn_readiness := newDevelopmentReadiness |} |} with
     | (Ok _, w) => Some w | _ => None end)
  = Some ["[worker] ab" +:+ String newline EmptyString; "[worker] cd"].
Proof. vm_compute. reflexivity. Qed.
